(* ===== verification/_CoqProject ===== *)
-Q . S2P
Prelude.v
Utils.v
BitField.v
Double.v
MipsConstants.v
MipsEncoding.v
MipsSimulator.v
MipsAssembler.v
MipsMacros.v
MipsInvariant.v
MipsExec.v
MipsMacroProps.v
MipsBranch.v
MipsBind.v
MipsExclusive.v
DataStream.v
Unicode.v
CaseMapping.v
RangeAnalysis.v
RangeSound.v
RangeOps.v
RangeInfer.v
RangeProps.v
Locations.v
ParallelMove.v
ParallelMoveProps.v
ParallelMoveMips.v
Probing.v
HashMap.v
Message.v
MessageHandler.v
PortMap.v
PortMapProps.v
HeapMemory.v
BitSet.v
FreeList.v
FreeListProps.v
Sweeper.v
SweeperProps.v
ThreadPool.v
ThreadPoolLists.v
ThreadPoolInv.v
ThreadPoolSteps.v
ThreadPoolProps.v
BitVector.v
Liveness.v
LivenessProps.v
FlowGraph.v
Dominators.v
Discover.v
DominatorProps.v
PhiProps.v
LoopProps.v
ChainedMap.v
Bitmap.v
