(* ===== verification/Prelude.v ===== *)
(** * A verification library for the C++ core of the Dart virtual machine

    The program under [src/runtime] is a virtual machine: a compiler from Dart
    source to machine code, assemblers and simulators for its targets, a heap,
    snapshots, and the runtime support below them.  This library models parts
    of it as executable definitions and proves what makes them correct.  The
    parts modelled are the bottom layers, where the code is about bits,
    bytes and machine integers; one complete back end target, MIPS, where the
    assembler that writes instructions and the simulator that executes them are
    two halves of one contract that the theorems connect; parts of the
    optimizing compiler whose mistakes become wrong code: the range analysis
    that removes checks, the resolver of parallel moves, the liveness analysis that
    removes stores, and the passes that find the shape of the flow graph: block
    order, dominators, phis and loops; the way isolates talk
    to each other: messages, their queues, the handlers that run them on a thread
    pool, the thread pool itself, and the table of ports; and the bottom of the heap: the free list of the
    old generation and the sweeper that fills it.

    ** Parts and files

    - [Prelude] (this file): machine integers [wrapU], [wrapS] and their ranges
      [isU], [isS]; the notations of [mach_scope]; the [result] monad for code
      that stops on a failed [ASSERT], an error exit or a long jump; bitwise
      reasoning ([zbits]), comparisons ([zcmp]), division ([divlia]); the hint
      databases [mach] and [bits]; the class [Target], the word size of the
      compiler (32 or 64 bits), against which the compiler parts are proved.
    - [Utils] (platform/utils.h, platform/utils.cc): class [Utils].
    - [BitField] (vm/bitfield.h, vm/boolfield.h): the templates, with the width
      of [uword] as a parameter.
    - [Double]: IEEE double and float arithmetic on bit patterns, what the
      language provides to the simulator; it maps to no file of the program.
    - [MipsConstants] (vm/constants_mips.h): registers, enumerations, class
      [Instr].  [MipsEncoding]: the field lemmas for words built by the
      assembler, collected in the database [fields].
    - [MipsSimulator] (vm/simulator_mips.h, vm/simulator_mips.cc): record
      [Simulator] is the class, [set_register] to [Call] its methods.  Memory
      is a finite map from addresses to bytes; the functions compiled for the
      host, called through a [Redirection], are the class [Host].
    - [MipsAssembler] (vm/assembler_mips.h, vm/assembler_mips.cc, the buffer of
      vm/assembler.h): a state and error monad [AsmM] over record [Assembler];
      every instruction emitter, labels, near and far branches, [Bind].
      [MipsMacros]: the macro instructions built from them.
    - [MipsInvariant]: the well-formedness [sim_wf] of the simulated machine,
      what a host function promises ([HostOk]), and preservation.
    - [MipsExec]: running an assembled block: [emits] (what a method appends to
      the buffer), [runs] (a straight-line block and its effect), [Steps] (the
      dispatch loop), [computes] (a macro and its effect once its code is in
      memory).  [MipsMacroProps], [MipsBranch], [MipsBind]: the theorems on
      arithmetic macros, on branches to labels, and on label resolution.
    - [MipsExclusive] (vm/simulator_mips.cc, load linked and store conditional):
      the reservations of all threads as one state and the operations as steps.
    - [DataStream] (vm/datastream.h): the variable-length integers of snapshots;
      the allocation function given to a [WriteStream] is the class [ReAlloc].
    - [Unicode] (vm/unicode.h, vm/unicode.cc, [String::CodePointIterator] of
      vm/object.h and vm/object.cc): UTF-8 and UTF-16.
    - [CaseMapping] (vm/unicode.h, vm/unicode_data.cc): upper and lower case,
      with the tables as they are.
    - [RangeAnalysis] (vm/flow_graph_range_analysis.h and .cc): record
      [FlowGraph] is the array of definitions in SSA form with the ranges found
      so far; [RangeBoundary], [Range] and their arithmetic, the boundaries
      relative to a symbol, canonicalization, constraints from branches, the
      [InferRange] methods, [CheckArrayBoundInstr::IsRedundant].
      [RangeSound]: what a boundary means in an execution ([bval], a value for
      every definition) and soundness of the boundary operations.  [RangeOps]:
      the binary operations.  [RangeInfer]: the instructions and the graph.
      [RangeProps]: the theorems a client of the analysis relies on.
    - [Locations] (vm/locations.h, vm/locations.cc): locations as tagged machine
      words, register sets as bits of a word.
    - [ParallelMove] (class [ParallelMoveResolver] of vm/flow_graph_compiler.cc
      and its MIPS methods in vm/flow_graph_compiler_mips.cc): the resolver over
      the class [Emitter], a target's code for one move and one swap, and the
      MIPS target as an instance.  [ParallelMoveProps]: the class [EmitterOk],
      what the resolver needs of a target, and the resolver's correctness
      against it.  [ParallelMoveMips]: MIPS registers and frame as a machine,
      the instance of [EmitterOk], and the theorem for MIPS code.
    - [Probing]: open addressing by itself, the walk over a circular table that
      the two tables below share.  [HashMap] (platform/hashmap.h and .cc): the
      table of [Entry] slots, over the classes [MatchFun] (the comparison the
      client gives), [Malloc] and [HashClient] (what the client promises of its
      keys and hash codes).
    - [Message] (vm/message.h, vm/message.cc): a store of messages linked
      through [next_], and [MessageQueue] as a pair of pointers into it.
      [MessageHandler] (vm/message_handler.h and .cc): what [monitor_] protects
      as a record, each critical section as an operation; the class
      [HandlerClient] is the subclass and the thread pool, [ClientOk] what the
      handler may rely on.  [PortMap] (vm/port.h, vm/port.cc, vm/random.h,
      vm/random.cc): the generator of port numbers and the table of ports over
      a [World] of messages and handlers; [PortMapProps]: its invariant and
      theorems, the class [HandlerKind] saying which handlers the map owns.
    - [ThreadPool] (vm/thread_pool.h, vm/thread_pool.cc): the workers in memory,
      the pool, and where each thread is; each critical section is an operation
      and [perform] lets the threads take turns.  [ThreadPoolLists]: the lists
      linked through the workers.  [ThreadPoolInv], [ThreadPoolSteps]: the
      invariant and that every section keeps it; [ThreadPoolProps]: the theorems.
    - [HeapMemory] (vm/virtual_memory.h, vm/virtual_memory.cc and
      vm/virtual_memory_linux.cc, the tags of vm/raw_object.h, [FreeListElement]
      of vm/freelist.h): the words of heap pages, their protection, the headers
      written into them; the page size and [mprotect] are the class [OS].
      [BitSet] (vm/bit_set.h).  [FreeList] (vm/freelist.h, vm/freelist.cc): the
      lists, linked through the free memory; [FreeListProps]: what the lists
      denote and the theorems.  [Sweeper] (vm/gc_sweeper.cc, [RawObject] of
      vm/raw_object.h): sweeping a page, over the class [ObjectSizes], the sizes
      of objects that depend on their class; [SweeperProps]: its theorem, proved
      against the contract of the free list.
    - [BitVector] (vm/bit_vector.h, vm/bit_vector.cc): sets of numbers as words,
      and the iterator over their elements.  [Liveness] ([LivenessAnalysis] and
      [VariableLivenessAnalysis] of vm/flow_graph.h and .cc, the indices of
      [LocalVariable] in vm/scopes.h and .cc): the fixed point over the blocks;
      [LivenessProps]: live variables as paths of the graph, and the theorems.
    - [FlowGraph] (class [FlowGraph] of vm/flow_graph.h and .cc, the block entries
      of vm/intermediate_language.h and .cc): the blocks are cells of a memory, a
      pointer to one is its index, and each pass is a function on graphs: the
      traversal [DiscoverBlocks], [ComputeDominators] with the dominance frontiers,
      [InsertPhis], [ComputeLoops].  [Dominators]: paths, dominators, frontiers and
      the facts behind the SEMI-NCA algorithm, for any graph; it maps to no file.
      [Discover], [DominatorProps], [PhiProps], [LoopProps]: one pass each; the
      record [discovered] is what the traversal promises to the later passes,
      [dominators_ok] what the dominator pass does.
    - [ChainedMap] (vm/hash_map.h): the hash table of the compiler, over the classes
      [KeyValueTrait] (the template parameter) and [Zone].  [Bitmap] (vm/bitmap.h,
      vm/bitmap.cc): the builder of stack bitmaps.

    ** What the theorems show

    - Simulator: executing any code, host calls and delay slots included, keeps
      the machine well formed ([Execute_preserves_wf]); the recursion through
      delay slots ends, at depth one ([InstructionDecode_levels]).
    - Assembler against simulator: the code of [LoadImmediate], the immediate
      macros, the overflow detecting macros, [BranchOnCondition] and the
      compare-and-branch macros computes what the macro says when the simulator
      executes it from any well-formed state; conditions round trip.
    - Labels: an unbound branch joins the chain of its label
      ([EmitBranch_links]); with near branches [Bind] retargets exactly the branches
      of the chain ([Bind_resolves]) and flipping a branch negates it
      ([FlipBranch_negates]); [far_bound_branches] states what far branches to
      bound labels become, two of the three not what they should.
    - Exclusive access: the invariant of the tag array under every interleaving
      and the exclusion that load linked and store conditional promise.
    - Streams: whatever is written is read back and nothing is left over; the
      unrolled readers equal the generic loop.
    - Unicode: validation is exactly shortest-form UTF-8 of code points (lone
      surrogates included), decoding inverts encoding and accepts nothing else,
      the bulk decoders are correct when the output fits, strings survive the
      trip through UTF-8; case mapping stays in its tables and is idempotent.
    - Utilities: power-of-two rounding, population count, bit length, overflow
      tests against their mathematical definitions.
    - Range analysis: an eliminated bounds check could not have failed
      ([IsRedundant_sound]) and an eliminated overflow check neither, on operand
      ranges the operation is defined on ([overflow_check_removed]); both rest on
      the soundness of the inferred ranges ([InferRange_sound], [BinaryOp_sound],
      [constraints_sound], [Join_Widen_Narrow_sound]) in every execution of the
      graph.  [range_analysis_gaps] evaluates inputs the soundness theorems exclude.
    - Parallel moves: the resolver terminates without a failed assertion, and the
      MIPS code it emits leaves in each destination the value its source had at the
      start, all at once, and everything else but the scratch registers unchanged
      ([EmitNativeCode_correct]), for registers and slots relative to the frame
      pointer; with two base registers the code of a swap is wrong
      ([exchange_two_bases]).
    - Locations: encoding and decoding of every kind of location, pairs included,
      are inverse ([Location_roundtrip]); register sets refine finite sets
      ([RegisterSet_refines]).
    - Hash map: any sequence of operations on a table answers as a partial
      function from keys to values does ([HashMap_refines]); iteration visits
      each entry once ([iterate_complete]).
    - Messages: the linked queue is a list ([MessageQueue_refines]); while no
      message fails, a pending message is handled after at most as many rounds as
      there are messages before it ([pending_handled]); under every interleaving of
      the handler's operations no message waits for a task that nobody started
      ([no_lost_wakeup]).
    - Ports: the table is the set of open ports ([PortMap_refines]), a message
      reaches the handler of its port ([PostMessage_delivers]), and every
      sequence of operations that return keeps ports, handlers and queues consistent
      ([PortMap_invariant]), delivery failure ports apart ([port_map_gaps]); the generator of port numbers is a multiplicative
      one with one fixed point ([NextState_multiplicative]).
    - Thread pool: under every interleaving with a permitted [Shutdown] no section
      fails ([pool_never_fails]) and each accepted task is in one place
      ([pool_accounts]); left to themselves the threads run all of them and end a
      shutdown in a bounded number of sections ([pool_settles]), after which
      nothing is left ([pool_shut_down]).  [permitted]: [Shutdown] must not overlap a
      [Run] that has chosen an idle worker, nor be called by a worker's thread;
      [run_races_with_shutdown] and [shutdown_from_worker_asserts] show why.
    - Free list: allocation and freeing are operations on a set of free blocks
      ([FreeList_refines]); whatever the threads do, the blocks handed out and the
      free blocks partition the memory the list was given
      ([FreeList_invariant]).
    - Sweeping: a page stays a sequence of objects, the marked objects survive
      unchanged and the others become maximal free blocks
      ([SweepPage_correct]).
    - Liveness: the sets of the analysis are exactly the variables some path reads,
      or brings into a try block, before it overwrites them ([Liveness_exact]); a
      store is dropped exactly when no path does so with its value
      ([IsStoreAlive_exact]), a load called the last is the last
      ([IsLastLoad_sound]), and SSA construction is told exactly the variables
      a block assigns ([ComputeAssignedVars_exact]).
    - Flow graph: the traversal numbers exactly the reachable blocks and records a
      depth-first spanning tree ([DiscoverBlocks_correct]); from it SEMI-NCA finds
      the immediate dominators as they are defined by paths
      ([ComputeDominators_exact]) and the frontiers ([dominance_frontier_exact]);
      phis are on the iterated frontiers of the assignments ([InsertPhis_exact]),
      which leaves one definition that reaches a block without a phi
      ([InsertPhis_single_definition]); the loops found are the natural loops
      ([ComputeLoops_exact]).
    - Containers of the compiler: the chained hash map is a bag of pairs
      ([DirectChainedHashMap_refines]); a bitmap is a list of bits, but for bits that
      are in its length and not in its store ([BitmapBuilder_refines]).

    [error_leaves_oob_messages], the statements named [_in_place], [_overflow], [_gaps] and [far_bound_branches],
    and the special cases in [AddImmediateDetectOverflow_correct] and
    [Convert_stable], describe behaviour the code has but does not mean to have.

    ** Integers, errors, bounds and fuel

    A [w]-bit integer is a [Z] and every operation that can wrap says so; the
    overflow tests of [Utils] evaluate checked additions, for which an overflow is
    undefined.  The
    platform code and the streams have 64-bit words ([ARCH_IS_64_BIT]); the
    MIPS simulator and assembler run in a 32-bit little-endian process, whose
    [uword] is 32 bits wide.  [ASSERT] is part of the model: a definition that
    asserts returns a [result].

    Loops without a structural argument take fuel.  [InstructionDecode_upto]
    takes the number of nested delay slots, and one is enough by
    [InstructionDecode_levels].  [Bind_loop] gets the length of the buffer: the
    chain of a label goes strictly backwards through it ([Bind_resolves] has no
    fuel premise).  [Write] gets nine rounds and [Read] the length of its
    buffer: a 64-bit value has at most ten bytes of seven bits.  The decoders
    of [Unicode] get the length of their input, of which each round consumes a
    byte.  [clo_loop] and [clz_loop] get 32 rounds for 32 bits,
    [ShiftForPowerOfTwo] 64, [RegisterCount] the bits of a word.  [PerformMove]
    gets the number of moves and one: each level marks a move pending
    ([PerformMove_ok] has no fuel premise beyond that).  The range analysis
    follows symbols through the graph with the number of definitions as fuel and
    returns [ROutOfStack] when it is used up, where the code would not return
    either: the symbols then form a cycle.  In the hash map [Probe] and [Remove] get the
    capacity and [Lookup] one level of resizing, which [HashMap_refines] shows to
    be enough, as [FindPort] gets the capacity of the port table; the loops over a
    message queue get the size of the store, of which each round visits another
    cell.  [AllocatePort] draws random numbers until one is free: the number of
    draws is a parameter and [PNoReturn] the result when it is used up.
    The lists of the thread pool are walked with the number of workers as fuel,
    which [pool_never_fails] shows to be enough.
    The walks over a free list get the number of mapped words, of which the
    elements are different ones, and the loops over a page its size in bytes.
    The fixed point of the liveness analysis gets a round per block and bit, one of
    which each round but the last adds ([Liveness_exact] has no fuel premise), the
    iterator of a bit vector a round per bit.
    The traversal of the flow graph gets a round per block and edge, each of which
    is on the stack or followed once; [CompressPath], [ascend], [run_up] and
    [Dominates_loop] get the number of blocks, as they go to smaller numbers; the
    worklists of [InsertPhis] and [FindLoop] get one round more than there are
    blocks, each of which enters once.  None of the theorems has a fuel premise.
    The lists of the chained hash map are walked with the number of list elements as
    fuel, and [Insert] may resize once: a table that has just grown has room.
    [Execute] and [HandleMessages] may really run forever: their fuel is a
    parameter; the theorems on assembled code ([Steps]) count the steps and
    [pending_handled] the rounds.

    ** Not modelled

    The interactive debugger of the simulator and [FLAG_stop_sim_at] (input and
    output); the C++ frames a [Longjmp] unwinds; the growth of the assembler
    buffer, the object pool and the macros that embed heap objects, stubs or
    allocation (they need the object model); formatted printing into streams;
    the register lists of the register allocator.  Of the range analysis the
    passes that rewrite the graph (inserting constraints, the worklist, the
    elimination of checks, [IntegerInstructionSelector]); of the locations
    [RemapForSlowPath], the printing and [LocationSummary].  [ClosePort] and
    [ClosePorts] of the port map are one step each, though their last part runs
    after the mutex is released, and [HandleOOBMessages] called from inside
    [HandleMessage] is a step of its own; the access checks of DEBUG builds
    are left out.  Of the flow
    graph [MergeBlocks], the renaming of variables and the removal of dead phis,
    which work on the instructions of the blocks, their use lists and
    environments: the model has the block entries only.  The
    rest of the virtual machine (the page lists of the heap, the collector, the
    parser, the optimizer, snapshots, the service protocol) works on the object
    model, the layout and the handles of every class of heap object, or on the
    operating system; neither has a model here. *)

From stdpp Require Import base numbers list sets gmap.
From Stdlib Require Import ZArith Lia Btauto.

Local Open Scope Z_scope.

(** * Machine integers *)

(** An unsigned [w]-bit integer is its value; a C++ conversion to it reduces
    modulo [2^w]. *)
Definition wrapU (w z : Z) : Z := z mod 2 ^ w.

(** A signed [w]-bit integer is its two's complement value. *)
Definition wrapS (w z : Z) : Z := (z + 2 ^ (w - 1)) mod 2 ^ w - 2 ^ (w - 1).

Definition isU (w z : Z) : Prop := 0 <= z < 2 ^ w.
Definition isS (w z : Z) : Prop := - 2 ^ (w - 1) <= z < 2 ^ (w - 1).

Declare Scope mach_scope.
Delimit Scope mach_scope with mach.
Notation "'u8' z" := (wrapU 8 z) (at level 10, z at level 9) : mach_scope.
Notation "'u16' z" := (wrapU 16 z) (at level 10, z at level 9) : mach_scope.
Notation "'u32' z" := (wrapU 32 z) (at level 10, z at level 9) : mach_scope.
Notation "'u64' z" := (wrapU 64 z) (at level 10, z at level 9) : mach_scope.
Notation "'s8' z" := (wrapS 8 z) (at level 10, z at level 9) : mach_scope.
Notation "'s16' z" := (wrapS 16 z) (at level 10, z at level 9) : mach_scope.
Notation "'s32' z" := (wrapS 32 z) (at level 10, z at level 9) : mach_scope.
Notation "'s64' z" := (wrapS 64 z) (at level 10, z at level 9) : mach_scope.
Notation "a <<< b" := (Z.shiftl a b) (at level 40, left associativity) : mach_scope.
Notation "a >>> b" := (Z.shiftr a b) (at level 40, left associativity) : mach_scope.
Notation "a .& b" := (Z.land a b) (at level 41, left associativity) : mach_scope.
Notation "a .^ b" := (Z.lxor a b) (at level 42, left associativity) : mach_scope.
Notation "a .| b" := (Z.lor a b) (at level 43, left associativity) : mach_scope.
Local Open Scope mach_scope.

#[export] Instance isU_dec w z : Decision (isU w z).
Proof. unfold isU. apply _. Defined.
#[export] Instance isS_dec w z : Decision (isS w z).
Proof. unfold isS. apply _. Defined.

Lemma pow2_pos w : 0 <= w -> 0 < 2 ^ w.
Proof. intros. apply Z.pow_pos_nonneg; lia. Qed.

Lemma pow2_half w : 0 < w -> 2 ^ w = 2 * 2 ^ (w - 1).
Proof. intros. rewrite <- Z.pow_succ_r by lia. f_equal; lia. Qed.

Lemma wrapU_range w z : 0 <= w -> isU w (wrapU w z).
Proof. intros. apply Z.mod_pos_bound, pow2_pos; lia. Qed.

Lemma wrapS_range w z : 0 < w -> isS w (wrapS w z).
Proof.
  intros. unfold isS, wrapS. pose proof (pow2_half w ltac:(lia)).
  pose proof (Z.mod_pos_bound (z + 2 ^ (w - 1)) (2 ^ w) (pow2_pos w ltac:(lia))). lia.
Qed.

Lemma wrapU_id w z : isU w z -> wrapU w z = z.
Proof. apply Z.mod_small. Qed.

Lemma wrapS_id w z : 0 < w -> isS w z -> wrapS w z = z.
Proof.
  unfold isS, wrapS; intros. pose proof (pow2_half w ltac:(lia)).
  rewrite Z.mod_small; lia.
Qed.

Lemma wrapS_mod w z : 0 < w -> wrapS w z mod 2 ^ w = z mod 2 ^ w.
Proof.
  intros. unfold wrapS. pose proof (pow2_pos w ltac:(lia)).
  rewrite <- Zminus_mod_idemp_l, Z.mod_mod, Zminus_mod_idemp_l by lia. f_equal; lia.
Qed.

Lemma wrapS_congr w a b : 0 < w -> a mod 2 ^ w = b mod 2 ^ w -> wrapS w a = wrapS w b.
Proof.
  intros Hw H. unfold wrapS. pose proof (pow2_pos w ltac:(lia)).
  rewrite <- (Z.add_mod_idemp_l a), H, Z.add_mod_idemp_l by lia. done.
Qed.

Lemma wrapS_wrapS w z : 0 < w -> wrapS w (wrapS w z) = wrapS w z.
Proof. intros. apply wrapS_id, wrapS_range; lia. Qed.

Lemma wrapS_wrapU w z : 0 < w -> wrapS w (wrapU w z) = wrapS w z.
Proof. intros. apply wrapS_congr; [lia|]. unfold wrapU. pose proof (pow2_pos w). rewrite Z.mod_mod; lia. Qed.

Lemma wrapU_wrapS w z : 0 < w -> wrapU w (wrapS w z) = wrapU w z.
Proof. apply wrapS_mod. Qed.

(** Ring operations may be wrapped at the end only. *)
Lemma wrapS_add_l w a b : 0 < w -> wrapS w (wrapS w a + b) = wrapS w (a + b).
Proof.
  intros. apply wrapS_congr; [lia|]. pose proof (pow2_pos w ltac:(lia)).
  rewrite <- Z.add_mod_idemp_l, wrapS_mod, Z.add_mod_idemp_l by lia. done.
Qed.

Lemma wrapS_add_r w a b : 0 < w -> wrapS w (a + wrapS w b) = wrapS w (a + b).
Proof. intros. rewrite Z.add_comm, wrapS_add_l, Z.add_comm by lia. done. Qed.

Lemma wrapS_period w a k : 0 < w -> wrapS w (a + k * 2 ^ w) = wrapS w a.
Proof.
  intros. apply wrapS_congr; [lia|]. pose proof (pow2_pos w ltac:(lia)).
  rewrite Z.mod_add by lia. done.
Qed.

Lemma isS_of_isU v w z : 0 <= v < w -> isU v z -> isS w z.
Proof.
  unfold isU, isS. intros ? ?. pose proof (Z.pow_le_mono_r 2 v (w - 1)).
  pose proof (pow2_pos (w - 1)). lia.
Qed.

Lemma isS_opp_bound w a : isS w a -> a <> - 2 ^ (w - 1) -> isS w (- a).
Proof. unfold isS. lia. Qed.

(** Range facts the components need all the time. *)
Create HintDb mach.
#[export] Hint Resolve wrapU_range wrapS_range : mach.
#[export] Hint Extern 1 (_ < _) => lia : mach.
#[export] Hint Extern 1 (_ <= _) => lia : mach.

(** * Bits *)

Lemma testbit_wrapU w z i :
  0 <= w -> 0 <= i -> Z.testbit (wrapU w z) i = (i <? w) && Z.testbit z i.
Proof.
  intros. unfold wrapU. destruct (Z.ltb_spec i w); simpl.
  - apply Z.mod_pow2_bits_low; lia.
  - apply Z.mod_pow2_bits_high; lia.
Qed.

Lemma testbit_above_isU w z i : 0 <= w <= i -> isU w z -> Z.testbit z i = false.
Proof.
  intros Hi Hz. rewrite <- (wrapU_id w z Hz), testbit_wrapU by lia.
  destruct (Z.ltb_spec i w); [lia|done].
Qed.

Lemma isU_iff_bits w z :
  0 <= w -> 0 <= z -> (isU w z <-> forall i, w <= i -> Z.testbit z i = false).
Proof.
  intros Hw Hz. split; [intros ? i ?; apply (testbit_above_isU w); auto; lia|].
  intros H. assert (wrapU w z = z) as <-; [|apply wrapU_range; lia].
  apply Z.bits_inj'. intros i Hi. rewrite testbit_wrapU by lia.
  destruct (Z.ltb_spec i w); simpl; [done|]. symmetry. apply H. lia.
Qed.

Lemma testbit_sign_ext w z n : 0 < w -> w - 1 <= n -> isS w z -> Z.testbit z n = (z <? 0).
Proof.
  intros Hw Hn Hz. unfold isS in Hz. rewrite Z.testbit_odd, Z.shiftr_div_pow2 by lia.
  pose proof (Z.pow_le_mono_r 2 (w - 1) n ltac:(lia) Hn).
  destruct (Z.ltb_spec z 0).
  - replace (z / 2 ^ n) with (-1); [done|]. apply (Z.div_unique _ _ _ (z + 2 ^ n)); lia.
  - rewrite Z.div_small by lia. done.
Qed.

Lemma testbit_wrapS w z i :
  0 < w -> 0 <= i -> Z.testbit (wrapS w z) i = Z.testbit z (Z.min i (w - 1)).
Proof.
  intros Hw Hi. pose proof (wrapS_range w z Hw) as Hr.
  assert (forall j, 0 <= j < w -> Z.testbit (wrapS w z) j = Z.testbit z j) as Hlow.
  { intros j Hj. rewrite <- (Z.mod_pow2_bits_low (wrapS w z) w j), wrapS_mod by lia.
    apply Z.mod_pow2_bits_low; lia. }
  destruct (Z.ltb_spec i w); [rewrite Z.min_l by lia; apply Hlow; lia|].
  rewrite Z.min_r, <- (Hlow (w - 1)), !(testbit_sign_ext w) by (auto; lia). done.
Qed.

Lemma testbit_ones n i : 0 <= n -> 0 <= i -> Z.testbit (Z.ones n) i = (i <? n).
Proof.
  intros. destruct (Z.ltb_spec i n); [apply Z.ones_spec_low|apply Z.ones_spec_high]; lia.
Qed.

Lemma testbit_shiftl' a n i :
  0 <= n -> 0 <= i -> Z.testbit (Z.shiftl a n) i = (n <=? i) && Z.testbit a (i - n).
Proof.
  intros. rewrite Z.shiftl_spec by lia. destruct (Z.leb_spec n i); simpl; [done|].
  apply Z.testbit_neg_r; lia.
Qed.

Lemma land_ones_wrapU z n : 0 <= n -> Z.land z (Z.ones n) = wrapU n z.
Proof. intros. apply Z.land_ones. lia. Qed.

Lemma ones_pow2 n : Z.ones n = 2 ^ n - 1.
Proof. rewrite Z.ones_equiv. lia. Qed.

(** Disjoint fields: [|] is [+]. *)
Lemma lor_shiftl_add a b n : 0 <= n -> isU n b -> Z.lor (Z.shiftl a n) b = a * 2 ^ n + b.
Proof.
  intros Hn Hb. rewrite <- Z.shiftl_mul_pow2 by lia.
  rewrite Z.add_nocarry_lxor, Z.lxor_lor; [done|..].
  all: apply Z.bits_inj'; intros i Hi; rewrite Z.land_spec, Z.bits_0, testbit_shiftl' by lia.
  all: destruct (Z.leb_spec n i); simpl; [|done].
  all: rewrite (testbit_above_isU n b) by (auto; lia); btauto.
Qed.

Lemma bool_eqb_iff (a b : bool) : (a = true <-> b = true) -> a = b.
Proof. destruct a, b; intuition congruence. Qed.

(** Every bitwise identity over machine words is decided bit by bit. *)
Create Rewrite HintDb bits.
#[export] Hint Rewrite Z.land_spec Z.lor_spec Z.lxor_spec Z.lnot_spec Z.shiftr_spec
  testbit_shiftl' testbit_wrapU testbit_wrapS testbit_ones Z.bits_0 using lia : bits.

Ltac zbits :=
  apply Z.bits_inj'; let i := fresh "i" in let Hi := fresh "Hi" in intros i Hi;
  autorewrite with bits.

Ltac zcmp :=
  repeat match goal with
  | |- context [?a <? ?b] => destruct (Z.ltb_spec a b)
  | |- context [?a <=? ?b] => destruct (Z.leb_spec a b)
  | |- context [?a =? ?b] => destruct (Z.eqb_spec a b)
  end; simpl; try (done || lia).

Ltac zcmp_in H :=
  repeat match type of H with
  | context [?a <? ?b] => destruct (Z.ltb_spec a b)
  | context [?a <=? ?b] => destruct (Z.leb_spec a b)
  | context [?a =? ?b] => destruct (Z.eqb_spec a b)
  end; simpl in H; try lia.

Lemma isS_fix w z : 0 < w -> wrapS w z = z -> isS w z.
Proof. intros ? <-. apply wrapS_range. lia. Qed.

(** Bitwise operations act on the sign extension as on the value. *)
Local Ltac bitwise :=
  intros Hw Ha Hb; apply isS_fix; [done|];
  rewrite <- (wrapS_id _ _ Hw Ha), <- (wrapS_id _ _ Hw Hb);
  zbits; f_equal; f_equal; lia.

Lemma isS_land w a b : 0 < w -> isS w a -> isS w b -> isS w (a .& b).
Proof. bitwise. Qed.
Lemma isS_lor w a b : 0 < w -> isS w a -> isS w b -> isS w (a .| b).
Proof. bitwise. Qed.
Lemma isS_lxor w a b : 0 < w -> isS w a -> isS w b -> isS w (a .^ b).
Proof. bitwise. Qed.
Lemma isS_lnot w a : isS w a -> isS w (Z.lnot a).
Proof. unfold isS, Z.lnot. lia. Qed.

(** Linear arithmetic after replacing [/] and [mod] by their equations. *)
Ltac divlia := Z.div_mod_to_equations; lia.

(** The word size of the target machine. *)
Class Target := { kBitsPerWord : Z; kBitsPerWord_ok : kBitsPerWord = 32 \/ kBitsPerWord = 64 }.

(** * Errors *)

(** A computation that may stop: on a failed assertion, a long jump or a fatal
    error the C++ code never returns to its caller. *)
Inductive result (E A : Type) : Type :=
| Ok (a : A)
| Err (e : E).
Arguments Ok {E A} a.
Arguments Err {E A} e.

#[export] Instance result_ret {E} : MRet (result E) := fun A a => Ok a.
#[export] Instance result_bind {E} : MBind (result E) :=
  fun A B f m => match m with Ok a => f a | Err e => Err e end.

Definition is_ok {E A} (r : result E A) : bool := match r with Ok _ => true | Err _ => false end.

Lemma bind_ok {E A B} (m : result E A) (f : A -> result E B) b :
  (m ≫= f) = Ok b <-> exists a, m = Ok a /\ f a = Ok b.
Proof.
  destruct m as [a|e]; simpl; [|split; [done|intros (?&?&?); done]].
  split; [eauto|]. intros (a'&[= <-]&?). done.
Qed.

(** Rewriting in the continuation of a bind. *)
#[export] Instance result_bind_proper {E A B} :
  Proper (pointwise_relation A eq ==> eq ==> eq) (@mbind (result E) _ A B).
Proof. intros f g Hfg m ? <-. destruct m; simpl; [apply Hfg|done]. Qed.

(** [switch] over a C++ enum: the enumerator with the given value. *)
Definition enum_of_Z {A} (value : A -> Z) (all : list A) (z : Z) : option A :=
  List.find (fun a => value a =? z) all.

Lemma enum_of_Z_value {A} (value : A -> Z) all a :
  NoDup (value <$> all) -> a ∈ all -> enum_of_Z value all (value a) = Some a.
Proof.
  unfold enum_of_Z. induction all as [|b all IH]; simpl; [set_solver|].
  intros [Hb Hn]%NoDup_cons Ha. destruct (Z.eqb_spec (value b) (value a)) as [Heq|Hne].
  - apply elem_of_cons in Ha as [->|Ha]; [done|].
    destruct Hb. rewrite Heq. apply list_elem_of_fmap. eauto.
  - apply elem_of_cons in Ha as [->|Ha]; [done|auto].
Qed.

Lemma enum_of_Z_sound {A} (value : A -> Z) all z a :
  enum_of_Z value all z = Some a -> value a = z /\ In a all.
Proof.
  unfold enum_of_Z. intros H. apply List.find_some in H as [? ?].
  split; [by apply Z.eqb_eq|done].
Qed.
