(* ===== verification/Utils.v ===== *)
(** * platform/utils.h, platform/utils.cc

    The static helpers of class [Utils]: powers of two, rounding, bit counting,
    hashing, width checks, splitting of words, and overflow tests.

    Template functions take the conversion [T] to their integer type (for
    instance [wrapU 64] for [uword], [wrapS 32] for [int32_t]).  [uword] and
    [intptr_t] are 64 bits wide ([ARCH_IS_64_BIT]).

    These functions return plain values: what an [ASSERT] of theirs demands of
    the arguments (a power of two, a width in range, a hexadecimal digit) is a
    hypothesis of the lemmas below, and an assertion of the callers that are
    modelled with an error type. *)

From stdpp Require Import base numbers list.
From Stdlib Require Import ZArith Lia Btauto.
From S2P Require Import Prelude.

Local Open Scope Z_scope.
Local Open Scope mach_scope.

Module Utils.

(** ** Definitions *)

Definition kMaxInt64 : Z := 2 ^ 63 - 1.
Definition kMinInt64 : Z := - 2 ^ 63.

Definition Minimum (x y : Z) : Z := if x <? y then x else y.
Definition Maximum (x y : Z) : Z := if x >? y then x else y.

(** [-x] overflows for the least value of [T] and wraps. *)
Definition Abs (T : Z -> Z) (x : Z) : Z := if x <? 0 then T (- x) else x.

Definition IsPowerOfTwo (x : Z) : bool := (x .& (x - 1) =? 0) && negb (x =? 0).

Fixpoint ShiftForPowerOfTwo_loop (fuel : nat) (num_shifts x : Z) : Z :=
  match fuel with
  | O => num_shifts
  | S fuel => if 1 <? x then ShiftForPowerOfTwo_loop fuel (num_shifts + 1) (x >>> 1) else num_shifts
  end.

(** The loop shifts a 64-bit value right until it is at most one: 64 rounds at most. *)
Definition ShiftForPowerOfTwo (x : Z) : Z := ShiftForPowerOfTwo_loop 64 0 x.

Definition IsAligned (x n : Z) : bool := x .& (n - 1) =? 0.
Definition RoundDown (T : Z -> Z) (x n : Z) : Z := T (x .& (- n)).
Definition RoundUp (T : Z -> Z) (x n : Z) : Z := RoundDown T (T (x + n - 1)) n.

Definition RoundUpToPowerOfTwo (x : Z) : Z :=
  let x := u64 (x - 1) in
  let x := x .| (x >>> 1) in
  let x := x .| (x >>> 2) in
  let x := x .| (x >>> 4) in
  let x := x .| (x >>> 8) in
  let x := x .| (x >>> 16) in
  let x := x .| (x >>> 32) in
  u64 (x + 1).

Definition CountOneBits (x : Z) : Z :=
  let x := u32 (x - ((x >>> 1) .& 0x55555555)) in
  let x := u32 ((x .& 0x33333333) + ((x >>> 2) .& 0x33333333)) in
  let x := u32 (x + (x >>> 4)) .& 0x0F0F0F0F in
  let x := u32 (x + (x >>> 8)) in
  let x := u32 (x + (x >>> 16)) in
  x .& 0x3F.

(** One line [if ((t = x >> k) != 0) { x = t; r += k; }]. *)
Definition HighestBit_step (k : Z) (xr : Z * Z) : Z * Z :=
  let (x, r) := xr in
  let t := x >>> k in
  if negb (t =? 0) then (t, r + k) else (x, r).

Definition HighestBit (v : Z) : Z :=
  let x := u64 (if v >? 0 then v else s64 (- v)) in
  let '(x, r) :=
    HighestBit_step 2 (HighestBit_step 4 (HighestBit_step 8
      (HighestBit_step 16 (HighestBit_step 32 (x, 0))))) in
  if x >? 1 then r + 1 else r.

Definition BitLength (value : Z) : Z :=
  let value := value .^ (value >>> 63) in
  if value =? 0 then 0 else HighestBit value + 1.

(** [*reinterpret_cast<const uint32_t*>(cursor)] on a little-endian host. *)
Definition Load32 (b0 b1 b2 b3 : Z) : Z :=
  b0 .| (b1 <<< 8) .| (b2 <<< 16) .| (b3 <<< 24).

Definition StringHash_M : Z := 0x5bd1e995.

(** The loop over whole words, then the [switch] over the remaining bytes. *)
Fixpoint StringHash_loop (hash : Z) (cursor : list Z) : Z :=
  match cursor with
  | b0 :: b1 :: b2 :: b3 :: rest =>
      let part := u32 (Load32 b0 b1 b2 b3 * StringHash_M) in
      let part := part .^ (part >>> 24) in
      let part := u32 (part * StringHash_M) in
      let hash := u32 (hash * StringHash_M) in
      StringHash_loop (hash .^ part) rest
  | [b0; b1; b2] =>
      let hash := hash .^ (b2 <<< 16) in
      let hash := hash .^ (b1 <<< 8) in
      let hash := hash .^ b0 in
      u32 (hash * StringHash_M)
  | [b0; b1] =>
      let hash := hash .^ (b1 <<< 8) in
      let hash := hash .^ b0 in
      u32 (hash * StringHash_M)
  | [b0] =>
      let hash := hash .^ b0 in
      u32 (hash * StringHash_M)
  | [] => hash
  end.

Definition StringHash (data : list Z) : Z :=
  let hash := StringHash_loop (u32 (Z.of_nat (length data))) data in
  let hash := hash .^ (hash >>> 13) in
  let hash := u32 (hash * StringHash_M) in
  hash .^ (hash >>> 15).

Definition WordHash (key : Z) : Z :=
  let a := u64 key in
  let a := u64 (u64 (a + 0x7ed55d16) + u64 (a <<< 12)) in
  let a := (a .^ 0xc761c23c) .^ (a >>> 19) in
  let a := u64 (u64 (a + 0x165667b1) + u64 (a <<< 5)) in
  let a := u64 (a + 0xd3a2646c) .^ u64 (a <<< 9) in
  let a := u64 (u64 (a + 0xfd7046c5) + u64 (a <<< 3)) in
  let a := (a .^ 0xb55a4f09) .^ (a >>> 16) in
  u32 a.

Definition IsInt (N value : Z) : bool :=
  let limit := 1 <<< (N - 1) in (- limit <=? value) && (value <? limit).

Definition IsUint (N value : Z) : bool :=
  let limit := 1 <<< N in (0 <=? value) && (value <? limit).

Definition IsAbsoluteUint (T : Z -> Z) (N value : Z) : bool :=
  let value := if value <? 0 then T (- value) else value in IsUint N value.

Definition Low16Bits (value : Z) : Z := value .& 0xffff.
Definition High16Bits (value : Z) : Z := value >>> 16.
Definition Low32Bits (value : Z) : Z := s32 value.
Definition High32Bits (value : Z) : Z := s32 (value >>> 32).
Definition LowHighTo64Bits (low high : Z) : Z := s64 (high <<< 32) .| (low .& 0xffffffff).

(** Characters are their codes: '0' is 48, 'A' is 65, 'a' is 97. *)
Definition IsDecimalDigit (c : Z) : bool := (48 <=? c) && (c <=? 57).
Definition IsHexDigit (c : Z) : bool :=
  IsDecimalDigit c || ((65 <=? c) && (c <=? 70)) || ((97 <=? c) && (c <=? 102)).
Definition HexDigitToInt (c : Z) : Z :=
  if IsDecimalDigit c then c - 48
  else if (65 <=? c) && (c <=? 70) then 10 + (c - 65)
  else 10 + (c - 97).
Definition IntToHexDigit (i : Z) : Z := if i <? 10 then 48 + i else 65 + (i - 10).

Definition RangeCheck (offset count length : Z) : bool :=
  (offset >=? 0) && (count >=? 0) && (length >=? 0) && (count <=? s64 (length - offset)).

(** Signed 64-bit addition and subtraction: [None] where the exact result does not
    fit, which is undefined behaviour in C++.  [&&?] and [||?] are the short-circuit
    operators on conditions that may be undefined. *)
Definition add64 (a b : Z) : option Z := if decide (isS 64 (a + b)) then Some (a + b) else None.
Definition sub64 (a b : Z) : option Z := if decide (isS 64 (a - b)) then Some (a - b) else None.

Definition and_then (c : bool) (k : option bool) : option bool := if c then k else Some false.
Definition or_else (c k : option bool) : option bool := r ← c; if r : bool then Some true else k.
Infix "&&?" := and_then (at level 40, left associativity).
Infix "||?" := or_else (at level 50, left associativity).

Definition WillAddOverflow (a b : Z) : option bool :=
  ((b >? 0) &&? (m ← sub64 kMaxInt64 b; Some (a >? m))) ||?
  ((b <? 0) &&? (m ← sub64 kMinInt64 b; Some (a <? m))).

Definition WillSubOverflow (a b : Z) : option bool :=
  ((b >? 0) &&? (m ← add64 kMinInt64 b; Some (a <? m))) ||?
  ((b <? 0) &&? (m ← add64 kMaxInt64 b; Some (a >? m))).

#[global] Arguments WillAddOverflow : simpl never.
#[global] Arguments WillSubOverflow : simpl never.

Definition IsJavascriptInt64 (value : Z) : bool :=
  (- 0x20000000000000 <=? value) && (value <=? 0x20000000000000).

(** The guard tests [ARCH_IS_64BIT], a macro the code base never defines (it
    defines [ARCH_IS_64_BIT]): every build takes the other branch. *)
Definition IsJavascriptInt (value : Z) : bool := true.

(** ** Specifications *)

(** The number of bits of [x] below [n] that are set. *)
Fixpoint popcount (n : nat) (x : Z) : Z :=
  match n with O => 0 | S n => x mod 2 + popcount n (x / 2) end.

(** ** Powers of two and rounding *)

Lemma land_pred_pow2 k : 0 <= k -> 2 ^ k .& (2 ^ k - 1) = 0.
Proof.
  intros. rewrite <- ones_pow2, land_ones_wrapU by lia. unfold wrapU.
  apply Z.mod_same. pose proof (pow2_pos k ltac:(lia)). lia.
Qed.

Lemma IsPowerOfTwo_spec x : 0 <= x -> IsPowerOfTwo x = true <-> exists k, 0 <= k /\ x = 2 ^ k.
Proof.
  intros Hx. unfold IsPowerOfTwo. split.
  - intros [Hl Hn]%andb_true_iff. apply Z.eqb_eq in Hl. destruct (Z.eqb_spec x 0); [done|].
    exists (Z.log2 x). split; [apply Z.log2_nonneg|].
    pose proof (Z.log2_spec x ltac:(lia)) as [Hlo Hhi]. pose proof (Z.log2_nonneg x).
    destruct (Z.eq_dec x (2 ^ Z.log2 x)); [done|exfalso].
    assert (Z.log2 (x - 1) = Z.log2 x) as Hlog by (apply Z.log2_unique; lia).
    assert (Z.testbit (x .& (x - 1)) (Z.log2 x) = true) as Ht.
    { rewrite Z.land_spec. rewrite Z.bit_log2 by lia. rewrite <- Hlog. rewrite Z.bit_log2; [done|].
      pose proof (pow2_pos (Z.log2 x) (Z.log2_nonneg x)). lia. }
    rewrite Hl, Z.bits_0 in Ht. done.
  - intros (k & Hk & ->). rewrite land_pred_pow2 by lia. simpl.
    pose proof (pow2_pos k Hk). destruct (Z.eqb_spec (2 ^ k) 0); [lia|done].
Qed.

Lemma ShiftForPowerOfTwo_loop_pow2 fuel n k :
  0 <= k <= Z.of_nat fuel -> ShiftForPowerOfTwo_loop fuel n (2 ^ k) = n + k.
Proof.
  revert n k. induction fuel as [|fuel IH]; intros n k Hk.
  - assert (k = 0) as -> by lia. simpl. lia.
  - cbn [ShiftForPowerOfTwo_loop]. destruct (Z.ltb_spec 1 (2 ^ k)) as [H1|H1].
    + destruct (Z.eq_dec k 0) as [->|]; [simpl in H1; lia|].
      rewrite Z.shiftr_div_pow2, (pow2_half k), Z.mul_comm, Z.div_mul by lia.
      rewrite IH by lia. lia.
    + destruct (Z.eq_dec k 0) as [->|]; [lia|].
      rewrite (pow2_half k) in H1 by lia. pose proof (pow2_pos (k - 1) ltac:(lia)). lia.
Qed.

Lemma RoundDown_pow2 x k : 0 <= k -> x .& (- 2 ^ k) = x / 2 ^ k * 2 ^ k.
Proof.
  intros. replace (- 2 ^ k) with (Z.lnot (Z.ones k)) by (unfold Z.lnot; rewrite ones_pow2; lia).
  rewrite <- Z.ldiff_land, Z.ldiff_ones_r, Z.shiftl_mul_pow2, Z.shiftr_div_pow2 by lia. done.
Qed.

Lemma IsAligned_spec x k : 0 <= k -> IsAligned x (2 ^ k) = true <-> x mod 2 ^ k = 0.
Proof.
  intros. unfold IsAligned. rewrite <- ones_pow2, land_ones_wrapU, Z.eqb_eq by lia. done.
Qed.

(** Rounding up gives the least multiple of [2^k] that is at least [x]. *)
Lemma RoundUp_least T x k :
  0 <= k -> T (x + 2 ^ k - 1) = x + 2 ^ k - 1 ->
  (forall y, 0 <= y <= x + 2 ^ k - 1 -> T y = y) -> 0 <= x ->
  let r := RoundUp T x (2 ^ k) in
  x <= r < x + 2 ^ k /\ r mod 2 ^ k = 0.
Proof.
  intros Hk HT Hid Hx. unfold RoundUp, RoundDown. rewrite HT, RoundDown_pow2 by lia.
  pose proof (pow2_pos k Hk) as Hp. pose proof (Z.div_mod (x + 2 ^ k - 1) (2 ^ k) ltac:(lia)).
  pose proof (Z.mod_pos_bound (x + 2 ^ k - 1) (2 ^ k) Hp).
  rewrite Hid by lia. split; [lia|apply Z.mod_mul; lia].
Qed.

(** ** RoundUpToPowerOfTwo *)

(** [y] has bit [i] exactly when [x] has one of the bits [i .. i + n - 1]. *)
Definition smears (n x y : Z) : Prop :=
  forall i, 0 <= i ->
    (Z.testbit y i = true <-> exists j, 0 <= j < n /\ Z.testbit x (i + j) = true).

Lemma smears_1 x : smears 1 x x.
Proof.
  intros i Hi. split; [intros; exists 0; rewrite Z.add_0_r; split; [lia|done]|].
  intros (j & Hj & H). assert (j = 0) as -> by lia. by rewrite Z.add_0_r in H.
Qed.

Lemma smears_step n x y : 0 <= n -> smears n x y -> smears (n + n) x (y .| (y >>> n)).
Proof.
  intros Hn H i Hi. rewrite Z.lor_spec, Z.shiftr_spec, orb_true_iff by lia.
  rewrite (H i), (H (i + n)) by lia. split.
  - intros [(j & Hj & Hb)|(j & Hj & Hb)]; [exists j|exists (n + j)]; rewrite ?Z.add_assoc; split; auto; lia.
  - intros (j & Hj & Hb). destruct (Z.ltb_spec j n); [left; exists j; split; auto; lia|].
    right. exists (j - n). replace (i + n + (j - n)) with (i + j) by lia. split; auto; lia.
Qed.

Lemma smear_nonneg y n : 0 <= y -> 0 <= y .| (y >>> n).
Proof. intros. rewrite Z.lor_nonneg, Z.shiftr_nonneg. lia. Qed.

Lemma smears_ones x y w :
  0 <= w -> 0 < x < 2 ^ w -> smears w x y -> 0 <= y -> y = Z.ones (Z.log2 x + 1).
Proof.
  intros Hw Hx H Hy. pose proof (Z.log2_nonneg x).
  assert (Z.log2 x < w) by (apply Z.log2_lt_pow2; lia).
  apply Z.bits_inj'. intros i Hi. rewrite testbit_ones by lia.
  apply bool_eqb_iff. rewrite (H i), Z.ltb_lt by lia. split.
  - intros (j & Hj & Hb). destruct (Z.ltb_spec (Z.log2 x) (i + j)); [|lia].
    rewrite Z.bits_above_log2 in Hb by lia. done.
  - intros. exists (Z.log2 x - i). replace (i + (Z.log2 x - i)) with (Z.log2 x) by lia.
    rewrite Z.bit_log2 by lia. split; [lia|done].
Qed.

(** [RoundUpToPowerOfTwo x], computed by smearing the highest bit of [x - 1]
    over the bits below it, is the least power of two that is at least [x]. *)
Theorem RoundUpToPowerOfTwo_least (x : Z) :
  0 < x <= 2 ^ 63 ->
  let r := RoundUpToPowerOfTwo x in
  x <= r /\ IsPowerOfTwo r = true /\ (forall k, 0 <= k -> x <= 2 ^ k -> r <= 2 ^ k).
Proof.
  intros Hx r. assert (r = 2 ^ Z.log2_up x) as ->.
  { subst r. unfold RoundUpToPowerOfTwo. cbv zeta.
    rewrite (wrapU_id 64 (x - 1)) by (unfold isU; lia).
    pose proof (smears_step 32 _ _ ltac:(lia) (smears_step 16 _ _ ltac:(lia)
      (smears_step 8 _ _ ltac:(lia) (smears_step 4 _ _ ltac:(lia)
      (smears_step 2 _ _ ltac:(lia) (smears_step 1 _ _ ltac:(lia) (smears_1 (x - 1)))))))) as H.
    match type of H with smears _ _ ?y => set (y0 := y) in * end.
    assert (0 <= y0) by (subst y0; repeat apply smear_nonneg; lia).
    destruct (Z.eq_dec x 1) as [->|].
    - subst y0. reflexivity.
    - rewrite (smears_ones (x - 1) y0 64) by (auto; lia).
      rewrite ones_pow2, <- Z.add_sub_swap, Z.add_simpl_r, Z.add_1_r.
      rewrite Z.log2_up_eqn by lia. rewrite <- Z.sub_1_r. apply wrapU_id. unfold isU.
      pose proof (Z.log2_nonneg (x - 1)). split; [lia|].
      apply Z.pow_lt_mono_r; [lia..|]. assert (Z.log2 (x - 1) < 63); [|lia].
      apply Z.log2_lt_pow2; lia. }
  pose proof (Z.log2_up_nonneg x). repeat split.
  - apply Z.log2_up_le_pow2; lia.
  - apply IsPowerOfTwo_spec; [lia|]. eauto.
  - intros k Hk Hle. apply Z.pow_le_mono_r; [lia|]. apply Z.log2_up_le_pow2; lia.
Qed.

Lemma RoundUpToPowerOfTwo_least_witness :
  0 < 5 <= 2 ^ 63 /\ 5 <= RoundUpToPowerOfTwo 5 /\ RoundUpToPowerOfTwo 5 = 8.
Proof.
  split; [lia|]. split; [|reflexivity]. apply (RoundUpToPowerOfTwo_least 5). lia.
Defined.

(** ** CountOneBits *)

(** Masks apply to the low byte and the rest separately. *)
Lemma land_split a b m n k :
  0 <= k -> isU k a -> isU k m ->
  (a + 2 ^ k * b) .& (m + 2 ^ k * n) = (a .& m) + 2 ^ k * (b .& n).
Proof.
  intros Hk Ha Hm.
  assert (isU k (a .& m)) as Ham.
  { assert (0 <= a .& m) by (apply Z.land_nonneg; unfold isU in *; lia).
    apply isU_iff_bits; [lia..|]. intros i Hi.
    rewrite Z.land_spec, (testbit_above_isU k a) by (auto; lia). done. }
  rewrite (Z.mul_comm _ b), (Z.mul_comm _ n), (Z.mul_comm _ (b .& n)),
    !(Z.add_comm _ (_ * 2 ^ k)), <- !lor_shiftl_add by (auto; lia).
  zbits. destruct (Z.leb_spec k i); simpl.
  - rewrite (testbit_above_isU k a), (testbit_above_isU k m) by (auto; lia). btauto.
  - btauto.
Qed.

Lemma land_bytes a b m n :
  isU 8 a -> isU 8 m -> (a + 256 * b) .& (m + 256 * n) = (a .& m) + 256 * (b .& n).
Proof. intros. apply (land_split a b m n 8); auto; lia. Qed.

(** A fact about all bytes is checked on each of them. *)
Lemma forall_byte (P : Z -> bool) :
  forallb P (List.map Z.of_nat (List.seq 0 256)) = true -> forall b, isU 8 b -> P b = true.
Proof.
  intros H b Hb. rewrite List.forallb_forall in H. apply H. unfold isU in Hb.
  replace b with (Z.of_nat (Z.to_nat b)) by lia. apply in_map, in_seq. lia.
Qed.

(** Stages of the count, one byte at a time. *)
Definition byte_stage1 (b : Z) : Z := b - ((b >>> 1) .& 0x55).
Definition byte_stage2 (b : Z) : Z := (b .& 0x33) + ((b >>> 2) .& 0x33).

Definition byte_check (b : Z) : bool :=
  let s1 := byte_stage1 b in
  let s2 := byte_stage2 s1 in
  (0 <=? s1) && (s1 <? 256) && (0 <=? s2) && (s2 / 16 <=? 4) && (s2 mod 16 <=? 4) &&
  (((b >>> 1) .& 0x55) <=? b) && (s2 / 16 + s2 mod 16 =? popcount 8 b).

Lemma byte_check_all b : isU 8 b -> byte_check b = true.
Proof. apply forall_byte. vm_compute. reflexivity. Qed.

(** A shift by [k] moves bits across the byte boundary, where the mask drops them. *)
Lemma shift_mask_byte b r k m n :
  0 < k < 8 -> isU 8 b -> isU 8 m -> isU (8 - k) m ->
  ((b + 256 * r) >>> k) .& (m + 256 * n) = ((b >>> k) .& m) + 256 * ((r >>> k) .& n).
Proof.
  intros Hk Hb Hm Hmk.
  assert ((b + 256 * r) >>> k = ((b >>> k) + 2 ^ (8 - k) * (r mod 2 ^ k)) + 256 * (r >>> k)) as ->.
  { rewrite !Z.shiftr_div_pow2 by lia. unfold isU in Hb.
    assert (k = 1 \/ k = 2 \/ k = 3 \/ k = 4 \/ k = 5 \/ k = 6 \/ k = 7) as Hcases by lia.
    destruct Hcases as [->|[->|[->|[->|[->|[->| ->]]]]]]; simpl; divlia. }
  assert (isU (8 - k) (b >>> k)) as Hbk.
  { unfold isU in *. rewrite Z.shiftr_div_pow2 by lia. split; [apply Z.div_pos; lia|].
    apply Z.div_lt_upper_bound; [lia|]. rewrite <- Z.pow_add_r by lia.
    replace (k + (8 - k)) with 8 by lia. lia. }
  assert (0 <= r mod 2 ^ k < 2 ^ k) by (apply Z.mod_pos_bound; lia).
  rewrite land_bytes; [|..|done].
  - f_equal. rewrite <- (Z.add_0_r m) at 1. rewrite <- (Z.mul_0_r (2 ^ (8 - k))).
    rewrite land_split by (auto; lia). rewrite Z.land_0_r. lia.
  - unfold isU in *. split; [lia|].
    assert (2 ^ 8 = 2 ^ (8 - k) * 2 ^ k) as -> by (rewrite <- Z.pow_add_r by lia; f_equal; lia). nia.
Qed.

(** A 32-bit word as its four bytes. *)
Definition word4 (b0 b1 b2 b3 : Z) : Z := b0 + 256 * (b1 + 256 * (b2 + 256 * b3)).

Lemma word4_split x : isU 32 x ->
  exists b0 b1 b2 b3, x = word4 b0 b1 b2 b3 /\ isU 8 b0 /\ isU 8 b1 /\ isU 8 b2 /\ isU 8 b3.
Proof.
  unfold isU. intros Hx.
  exists (x mod 256), (x / 256 mod 256), (x / 65536 mod 256), (x / 16777216).
  unfold word4. repeat split; divlia.
Qed.

Lemma shift_mask_word4 b0 b1 b2 b3 k m :
  0 < k < 8 -> isU 8 m -> isU (8 - k) m -> isU 8 b0 -> isU 8 b1 -> isU 8 b2 ->
  (word4 b0 b1 b2 b3 >>> k) .& word4 m m m m =
  word4 ((b0 >>> k) .& m) ((b1 >>> k) .& m) ((b2 >>> k) .& m) ((b3 >>> k) .& m).
Proof. intros. unfold word4. rewrite !shift_mask_byte by done. done. Qed.

Lemma mask_word4 b0 b1 b2 b3 m :
  isU 8 m -> isU 8 b0 -> isU 8 b1 -> isU 8 b2 ->
  word4 b0 b1 b2 b3 .& word4 m m m m = word4 (b0 .& m) (b1 .& m) (b2 .& m) (b3 .& m).
Proof. intros. unfold word4. rewrite !land_bytes by done. done. Qed.

Lemma popcount_word4 b0 b1 b2 b3 :
  isU 8 b0 -> isU 8 b1 -> isU 8 b2 -> isU 8 b3 ->
  popcount 32 (word4 b0 b1 b2 b3) = popcount 8 b0 + popcount 8 b1 + popcount 8 b2 + popcount 8 b3.
Proof.
  assert (forall n b r, isU 8 b -> popcount (8 + n) (b + 256 * r) = popcount 8 b + popcount n r) as H.
  { unfold isU. intros n b r Hb. change (8 + n)%nat with (S (S (S (S (S (S (S (S n)))))))).
    cbn [popcount]. rewrite !Z.div_div by lia.
    change (2 * 2 * 2 * 2 * 2 * 2 * 2 * 2) with 256.
    replace ((b + 256 * r) / 256) with r by divlia.
    assert (forall p, p = 1 \/ p = 2 \/ p = 4 \/ p = 8 \/ p = 16 \/ p = 32 \/ p = 64 \/ p = 128 ->
      (b + 256 * r) / p mod 2 = b / p mod 2) as Hbit.
    { intros p Hp. decompose [or] Hp; subst p; divlia. }
    rewrite !Hbit by auto 10. pose proof (Hbit 1 ltac:(auto)) as H1.
    rewrite !Z.div_1_r in H1. rewrite H1. lia. }
  intros. unfold word4. rewrite (H 24%nat), (H 16%nat), (H 8%nat) by done.
  replace b3 with (b3 + 256 * 0) at 1 by lia.
  rewrite (H 0%nat) by done. simpl. lia.
Qed.

Lemma CountOneBits_correct_bytes s0 s1 s2 s3 :
  s0 / 16 <= 4 -> s0 mod 16 <= 4 -> s1 / 16 <= 4 -> s1 mod 16 <= 4 ->
  s2 / 16 <= 4 -> s2 mod 16 <= 4 -> s3 / 16 <= 4 -> s3 mod 16 <= 4 ->
  0 <= s0 -> 0 <= s1 -> 0 <= s2 -> 0 <= s3 ->
  let x := word4 s0 s1 s2 s3 in
  u32 (x + (x >>> 4)) .& 0x0F0F0F0F =
  word4 (s0 / 16 + s0 mod 16) (s1 / 16 + s1 mod 16) (s2 / 16 + s2 mod 16) (s3 / 16 + s3 mod 16).
Proof.
  intros. subst x.
  assert (word4 s0 s1 s2 s3 + (word4 s0 s1 s2 s3 >>> 4) =
    word4 (s0 + s0 / 16 + 16 * (s1 mod 16)) (s1 + s1 / 16 + 16 * (s2 mod 16))
          (s2 + s2 / 16 + 16 * (s3 mod 16)) (s3 + s3 / 16)) as ->.
  { rewrite Z.shiftr_div_pow2 by lia. unfold word4. change (2 ^ 4) with 16. divlia. }
  rewrite wrapU_id by (unfold isU, word4; divlia).
  change 0x0F0F0F0F with (word4 15 15 15 15).
  rewrite mask_word4 by (unfold isU; divlia).
  change 15 with (Z.ones 4). rewrite !land_ones_wrapU by lia. unfold wrapU. change (2 ^ 4) with 16.
  unfold word4. divlia.
Qed.

(** [CountOneBits], which adds up the bits of a word in parallel, is the
    bit-by-bit population count. *)
Theorem CountOneBits_popcount (x : Z) : isU 32 x -> CountOneBits x = popcount 32 x.
Proof.
  intros Hx. destruct (word4_split x Hx) as (b0 & b1 & b2 & b3 & -> & H0 & H1 & H2 & H3).
  rewrite popcount_word4 by done. unfold CountOneBits. cbv zeta.
  change 0x55555555 with (word4 0x55 0x55 0x55 0x55).
  rewrite shift_mask_word4 by (done || lia || (unfold isU; lia)).
  pose proof (byte_check_all b0 H0) as C0. pose proof (byte_check_all b1 H1) as C1.
  pose proof (byte_check_all b2 H2) as C2. pose proof (byte_check_all b3 H3) as C3.
  unfold byte_check in *. rewrite !andb_true_iff, !Z.leb_le, !Z.ltb_lt, !Z.eqb_eq in *.
  destruct_and!.
  assert (word4 b0 b1 b2 b3 - word4 (b0 >>> 1 .& 85) (b1 >>> 1 .& 85) (b2 >>> 1 .& 85) (b3 >>> 1 .& 85) =
    word4 (byte_stage1 b0) (byte_stage1 b1) (byte_stage1 b2) (byte_stage1 b3)) as ->.
  { unfold word4, byte_stage1. lia. }
  set (t0 := byte_stage1 b0) in *. set (t1 := byte_stage1 b1) in *.
  set (t2 := byte_stage1 b2) in *. set (t3 := byte_stage1 b3) in *.
  rewrite (wrapU_id 32 (word4 t0 t1 t2 t3)) by (unfold isU, word4; lia).
  change 0x33333333 with (word4 0x33 0x33 0x33 0x33).
  rewrite mask_word4, shift_mask_word4 by (lia || (unfold isU; lia)).
  assert (word4 (t0 .& 51) (t1 .& 51) (t2 .& 51) (t3 .& 51) +
      word4 (t0 >>> 2 .& 51) (t1 >>> 2 .& 51) (t2 >>> 2 .& 51) (t3 >>> 2 .& 51) =
    word4 (byte_stage2 t0) (byte_stage2 t1) (byte_stage2 t2) (byte_stage2 t3)) as ->.
  { unfold word4, byte_stage2. lia. }
  set (s0 := byte_stage2 t0) in *. set (s1 := byte_stage2 t1) in *.
  set (s2 := byte_stage2 t2) in *. set (s3 := byte_stage2 t3) in *.
  rewrite (wrapU_id 32 (word4 s0 s1 s2 s3)) by (unfold isU, word4; divlia).
  rewrite CountOneBits_correct_bytes by lia.
  set (p0 := s0 / 16 + s0 mod 16) in *. set (p1 := s1 / 16 + s1 mod 16) in *.
  set (p2 := s2 / 16 + s2 mod 16) in *. set (p3 := s3 / 16 + s3 mod 16) in *.
  assert (0 <= p0 <= 8 /\ 0 <= p1 <= 8 /\ 0 <= p2 <= 8 /\ 0 <= p3 <= 8) as Hp by (subst p0 p1 p2 p3; divlia).
  clearbody p0 p1 p2 p3. change 63 with (Z.ones 6).
  rewrite land_ones_wrapU, !Z.shiftr_div_pow2 by lia. unfold wrapU, word4.
  change (2 ^ 8) with 256. change (2 ^ 16) with 65536. change (2 ^ 32) with 4294967296. change (2 ^ 6) with 64.
  rewrite (Z.mod_small _ 4294967296) by divlia. rewrite (Z.mod_small _ 4294967296) by divlia. divlia.
Qed.

Lemma CountOneBits_popcount_witness : isU 32 0xDEADBEEF /\ CountOneBits 0xDEADBEEF = 24.
Proof. split; [unfold isU; lia|]. exact (CountOneBits_popcount 0xDEADBEEF ltac:(unfold isU; lia)). Defined.

(** ** HighestBit and BitLength *)

(** The search keeps [log2 x + r]; the window halves. *)
Lemma HighestBit_step_log2 k x r x' r' :
  0 < k -> 0 < x < 2 ^ (2 * k) -> HighestBit_step k (x, r) = (x', r') ->
  0 < x' < 2 ^ k /\ Z.log2 x' + r' = Z.log2 x + r.
Proof.
  intros Hk Hx. unfold HighestBit_step. rewrite Z.shiftr_div_pow2 by lia.
  assert (2 ^ (2 * k) = 2 ^ k * 2 ^ k) as Hpk by (rewrite <- Z.pow_add_r by lia; f_equal; lia).
  pose proof (pow2_pos k ltac:(lia)) as Hpos.
  destruct (Z.eqb_spec (x / 2 ^ k) 0) as [Hz|Hz]; simpl; intros [= <- <-].
  - split; [|lia]. apply Z.div_small_iff in Hz; lia.
  - assert (0 <= x / 2 ^ k) by (apply Z.div_pos; lia).
    split; [split; [lia|apply Z.div_lt_upper_bound; lia]|].
    rewrite <- Z.shiftr_div_pow2, Z.log2_shiftr by lia.
    assert (k <= Z.log2 x); [|lia]. apply Z.log2_le_pow2; [lia|].
    destruct (Z.ltb_spec x (2 ^ k)); [|lia]. destruct Hz. apply Z.div_small. lia.
Qed.

Lemma HighestBit_log2 v : isS 64 v -> v <> 0 -> HighestBit v = Z.log2 (Z.abs v).
Proof.
  intros Hv Hn. unfold HighestBit.
  assert (u64 (if v >? 0 then v else s64 (- v)) = Z.abs v) as ->.
  { unfold isS in Hv. simpl in Hv. destruct (Z.gtb_spec v 0).
    - rewrite wrapU_id; unfold isU; lia.
    - rewrite wrapU_wrapS, wrapU_id by (unfold isU; lia). lia. }
  assert (0 < Z.abs v < 2 ^ (2 * 32)) as Hx by (unfold isS in Hv; simpl in *; lia).
  set (x := Z.abs v) in *. clearbody x.
  destruct (HighestBit_step 32 (x, 0)) as [x1 r1] eqn:E1.
  apply HighestBit_step_log2 in E1 as [H1 L1]; [|lia..].
  destruct (HighestBit_step 16 (x1, r1)) as [x2 r2] eqn:E2.
  apply HighestBit_step_log2 in E2 as [H2 L2]; [|lia..].
  destruct (HighestBit_step 8 (x2, r2)) as [x3 r3] eqn:E3.
  apply HighestBit_step_log2 in E3 as [H3 L3]; [|lia..].
  destruct (HighestBit_step 4 (x3, r3)) as [x4 r4] eqn:E4.
  apply HighestBit_step_log2 in E4 as [H4 L4]; [|lia..].
  destruct (HighestBit_step 2 (x4, r4)) as [x5 r5] eqn:E5.
  apply HighestBit_step_log2 in E5 as [H5 L5]; [|lia..].
  change (2 ^ 2) with 4 in H5.
  assert (x5 = 1 \/ x5 = 2 \/ x5 = 3) as [->|[->| ->]] by lia; simpl in *; lia.
Qed.

(** [value ^ (value >> 63)] flips the bits of negative values. *)
Lemma flip_negative v : isS 64 v -> v .^ (v >>> 63) = if v <? 0 then - v - 1 else v.
Proof.
  intros Hv. rewrite Z.shiftr_div_pow2 by lia. unfold isS in Hv. simpl in Hv.
  destruct (Z.ltb_spec v 0).
  - replace (v / 2 ^ 63) with (-1) by (simpl; divlia). rewrite Z.lxor_m1_r. unfold Z.lnot. lia.
  - rewrite Z.div_small by (simpl; lia). apply Z.lxor_0_r.
Qed.

Lemma BitLength_spec (v : Z) :
  isS 64 v ->
  0 <= BitLength v <= 63 /\
  (forall n, 0 <= n -> (- 2 ^ n <= v < 2 ^ n <-> BitLength v <= n)).
Proof.
  intros Hv. unfold BitLength. rewrite flip_negative by done.
  assert (exists x, 0 <= x < 2 ^ 63 /\ (if v <? 0 then - v - 1 else v) = x /\
    (forall n, 0 <= n -> (- 2 ^ n <= v < 2 ^ n <-> x < 2 ^ n))) as (x & Hx & -> & Heq).
  { exists (if v <? 0 then - v - 1 else v). unfold isS in Hv. simpl in Hv.
    split; [destruct (Z.ltb_spec v 0); lia|]. split; [done|]. intros n Hn.
    pose proof (pow2_pos n Hn). destruct (Z.ltb_spec v 0); lia. }
  destruct (Z.eqb_spec x 0) as [->|Hn].
  - split; [lia|]. intros n Hn. rewrite Heq by lia. pose proof (pow2_pos n Hn). lia.
  - rewrite HighestBit_log2 by (unfold isS; simpl in *; lia). rewrite Z.abs_eq by lia.
    pose proof (Z.log2_nonneg x). split.
    + assert (Z.log2 x < 63) by (apply Z.log2_lt_pow2; lia). lia.
    + intros n Hn'. rewrite Heq, Z.log2_lt_pow2 by lia. lia.
Qed.

(** [BitLength v] is the least [n] for which [v] fits in [n] bits and a sign. *)
Theorem BitLength_least (v : Z) :
  isS 64 v ->
  0 <= BitLength v <= 63 /\
  (forall n, 0 <= n -> (- 2 ^ n <= v < 2 ^ n <-> BitLength v <= n)).
Proof. apply BitLength_spec. Qed.

Lemma BitLength_least_witness : isS 64 (-129) /\ BitLength (-129) = 8 /\ ~ BitLength (-129) <= 7.
Proof.
  assert (isS 64 (-129)) as H by (unfold isS; lia). split; [done|]. split; [reflexivity|].
  intros Hle. apply (proj2 (BitLength_least (-129) H) 7) in Hle; [|lia]. simpl in Hle. lia.
Defined.

(** ** Width checks, splitting, overflow tests *)

Lemma IsInt_spec N v : 0 < N -> IsInt N v = true <-> isS N v.
Proof.
  intros. unfold IsInt, isS. rewrite Z.shiftl_1_l, andb_true_iff, Z.leb_le, Z.ltb_lt. done.
Qed.

Lemma IsUint_spec N v : 0 <= N -> IsUint N v = true <-> isU N v.
Proof.
  intros. unfold IsUint, isU. rewrite Z.shiftl_1_l, andb_true_iff, Z.leb_le, Z.ltb_lt. done.
Qed.

Lemma LowHighTo64Bits_add low high :
  isU 32 low -> isS 32 high -> LowHighTo64Bits low high = high * 2 ^ 32 + low.
Proof.
  intros Hl Hh. unfold LowHighTo64Bits. change 0xffffffff with (Z.ones 32).
  rewrite land_ones_wrapU, wrapU_id by (done || lia).
  rewrite wrapS_id; [apply lor_shiftl_add; done || lia|lia|].
  unfold isS in *. rewrite Z.shiftl_mul_pow2 by lia. simpl in *. lia.
Qed.

(** Splitting a 64-bit value in halves and joining them gives it back. *)
Lemma LowHighTo64Bits_split v :
  isS 64 v -> LowHighTo64Bits (u32 (Low32Bits v)) (High32Bits v) = v.
Proof.
  intros Hv. unfold Low32Bits, High32Bits. rewrite wrapU_wrapS by lia.
  rewrite (wrapS_id 32 (v >>> 32)); [|lia|].
  - rewrite LowHighTo64Bits_add; [|apply wrapU_range; lia|].
    all: unfold isS, wrapU in *; rewrite Z.shiftr_div_pow2 by lia; simpl in *; divlia.
  - unfold isS in *. rewrite Z.shiftr_div_pow2 by lia. simpl in *. divlia.
Qed.

Lemma add64_ok a b : isS 64 (a + b) -> add64 a b = Some (a + b).
Proof. intros. unfold add64. by rewrite decide_True. Qed.

Lemma sub64_ok a b : isS 64 (a - b) -> sub64 a b = Some (a - b).
Proof. intros. unfold sub64. by rewrite decide_True. Qed.

Lemma WillAddOverflow_spec (a b : Z) :
  isS 64 a -> isS 64 b -> WillAddOverflow a b = Some (bool_decide (~ isS 64 (a + b))).
Proof.
  intros Ha Hb. unfold WillAddOverflow, and_then, or_else, kMaxInt64, kMinInt64.
  destruct (Z.gtb_spec b 0), (Z.ltb_spec b 0); try lia; rewrite ?sub64_ok by (unfold isS in *; lia); cbn.
  - destruct (Z.gtb_spec a (2 ^ 63 - 1 - b)); case_bool_decide as Hf; try done; exfalso; unfold isS in *; lia.
  - destruct (Z.ltb_spec a (- 2 ^ 63 - b)); case_bool_decide as Hf; try done; exfalso; unfold isS in *; lia.
  - case_bool_decide as Hf; [|done]. exfalso; unfold isS in *; lia.
Qed.

Lemma WillSubOverflow_spec (a b : Z) :
  isS 64 a -> isS 64 b -> WillSubOverflow a b = Some (bool_decide (~ isS 64 (a - b))).
Proof.
  intros Ha Hb. unfold WillSubOverflow, and_then, or_else, kMaxInt64, kMinInt64.
  destruct (Z.gtb_spec b 0), (Z.ltb_spec b 0); try lia; rewrite ?add64_ok by (unfold isS in *; lia); cbn.
  - destruct (Z.ltb_spec a (- 2 ^ 63 + b)); case_bool_decide as Hf; try done; exfalso; unfold isS in *; lia.
  - destruct (Z.gtb_spec a (2 ^ 63 - 1 + b)); case_bool_decide as Hf; try done; exfalso; unfold isS in *; lia.
  - case_bool_decide as Hf; [|done]. exfalso; unfold isS in *; lia.
Qed.

(** C38: [WillAddOverflow] and [WillSubOverflow], called on 64-bit values, have a
    defined result (none of the subtractions and additions they evaluate overflows),
    and it is true exactly when the exact sum, or difference, is not a 64-bit value. *)
Theorem Will_Add_Sub_Overflow_exact (a b : Z) :
  isS 64 a -> isS 64 b ->
  WillAddOverflow a b = Some (bool_decide (~ isS 64 (a + b))) /\
  WillSubOverflow a b = Some (bool_decide (~ isS 64 (a - b))).
Proof. auto using WillAddOverflow_spec, WillSubOverflow_spec. Qed.

Lemma Will_Add_Sub_Overflow_exact_witness :
  WillAddOverflow (2 ^ 63 - 1) 1 = Some (bool_decide (~ isS 64 (2 ^ 63 - 1 + 1))) /\
  WillSubOverflow (2 ^ 63 - 1) 1 = Some (bool_decide (~ isS 64 (2 ^ 63 - 1 - 1))) /\
  ~ isS 64 (2 ^ 63 - 1 + 1).
Proof.
  assert (isS 64 (2 ^ 63 - 1)) as Ha by (unfold isS; lia).
  assert (isS 64 1) as Hb by (unfold isS; lia).
  destruct (Will_Add_Sub_Overflow_exact (2 ^ 63 - 1) 1 Ha Hb) as [H1 H2].
  split; [exact H1|]. split; [exact H2|]. unfold isS; lia.
Defined.

(** The range check never overflows and is exact. *)
Lemma RangeCheck_exact offset count length :
  isS 64 offset -> isS 64 count -> isS 64 length ->
  RangeCheck offset count length = true <->
  0 <= offset /\ 0 <= count /\ 0 <= length /\ offset + count <= length.
Proof.
  intros Ho Hc Hl. unfold RangeCheck. unfold isS in *. rewrite !andb_true_iff, !Z.geb_le, Z.leb_le.
  destruct (decide (0 <= offset /\ 0 <= length)) as [[? ?]|].
  - rewrite wrapS_id by (unfold isS; lia). lia.
  - intuition lia.
Qed.

Lemma HexDigit_roundtrip i :
  0 <= i < 16 -> IsHexDigit (IntToHexDigit i) = true /\ HexDigitToInt (IntToHexDigit i) = i.
Proof.
  intros. unfold IsHexDigit, HexDigitToInt, IntToHexDigit, IsDecimalDigit. zcmp; split; (done || lia).
Qed.

(** The 64-bit guard of [IsJavascriptInt] is dead code: the function accepts a
    value that [IsJavascriptInt64] rejects. *)
Lemma IsJavascriptInt_unguarded :
  exists v, isS 64 v /\ IsJavascriptInt64 v = false /\ IsJavascriptInt v = true.
Proof. exists (2 ^ 60). split; [unfold isS; lia|]. split; reflexivity. Qed.

End Utils.
