(* ===== verification/BitField.v ===== *)
(** * vm/bitfield.h, vm/boolfield.h

    [BitField<T, position, size>]: a value of [size] bits stored at [position]
    in an unsigned machine word of [W] bits ([uword]: 64 bits on a 64-bit
    host, 32 bits when the VM is built for MIPS).  A value of type [T] is its
    integer value. *)

From stdpp Require Import base numbers list.
From Stdlib Require Import ZArith Lia Btauto.
From S2P Require Import Prelude.

Local Open Scope Z_scope.
Local Open Scope mach_scope.

Module BitField.

(** ** Definitions *)

Definition is_valid (W size value : Z) : bool :=
  wrapU W value .& wrapU W (Z.lnot (wrapU W (wrapU W (1 <<< size) - 1))) =? 0.

Definition mask (W size : Z) : Z := wrapU W (wrapU W (1 <<< size) - 1).

Definition mask_in_place (W position size : Z) : Z := wrapU W (mask W size <<< position).

Definition encode (W position value : Z) : Z := wrapU W (wrapU W value <<< position).

Definition decode (W position size value : Z) : Z :=
  (value >>> position) .& wrapU W (wrapU W (1 <<< size) - 1).

Definition update (W position size value original : Z) : Z :=
  encode W position value .| (wrapU W (Z.lnot (mask_in_place W position size)) .& original).

(** [BoolField<position>]; [1U << position] is a 32-bit shift. *)
Definition bool_encode (position : Z) (value : bool) : Z :=
  wrapU 32 ((if value then 1 else 0) <<< position).

Definition bool_decode (position value : Z) : bool :=
  negb (value .& wrapU 32 (1 <<< position) =? 0).

Definition bool_update (W position : Z) (value : bool) (original : Z) : Z :=
  let mask := wrapU 32 (1 <<< position) in
  if value then original .| mask else original .& wrapU W (Z.lnot mask).

(** ** Laws *)

Section Laws.
Context (W position size : Z).
Context (Hpos : 0 <= position) (Hsize : 0 < size) (HW : position + size <= W).

Lemma mask_ones : mask W size = Z.ones size.
Proof using Hpos Hsize HW.
  unfold mask. rewrite Z.shiftl_1_l, ones_pow2. destruct (Z.eq_dec size W) as [->|].
  - unfold wrapU. rewrite Z.mod_same by (pose proof (pow2_pos W); lia).
    pose proof (pow2_pos W ltac:(lia)). symmetry. apply (Zmod_unique _ _ (-1)); lia.
  - assert (2 ^ size < 2 ^ W) by (apply Z.pow_lt_mono_r; lia).
    pose proof (pow2_pos size ltac:(lia)). rewrite !wrapU_id; unfold isU; try lia.
    all: rewrite wrapU_id; unfold isU; lia.
Qed.

Lemma is_valid_spec v : 0 <= v < 2 ^ W -> is_valid W size v = true <-> isU size v.
Proof using Hpos Hsize HW.
  intros Hv. unfold is_valid. fold (mask W size). rewrite mask_ones, Z.eqb_eq.
  rewrite (wrapU_id W v) by done. split.
  - intros H. apply isU_iff_bits; [lia..|]. intros i Hi.
    destruct (Z.ltb_spec i W).
    + apply (f_equal (fun z => Z.testbit z i)) in H. revert H. autorewrite with bits.
      zcmp; rewrite ?andb_true_r; done.
    + apply (testbit_above_isU W); [lia|done].
  - intros H. zbits. destruct (Z.ltb_spec i size); simpl; [rewrite andb_false_r; btauto|].
    rewrite (testbit_above_isU size v) by (auto; lia). done.
Qed.

(** Bit [i] of an updated word comes from the value inside the field, from
    the original word outside of it. *)
Lemma testbit_update v o i :
  isU size v -> isU W o -> 0 <= i ->
  Z.testbit (update W position size v o) i =
  if (position <=? i) && (i <? position + size) then Z.testbit v (i - position) else Z.testbit o i.
Proof using Hpos Hsize HW.
  intros Hv Ho Hi.
  assert (isU W v) as HvW.
  { unfold isU in *. pose proof (Z.pow_le_mono_r 2 size W). lia. }
  unfold update, encode, mask_in_place. rewrite mask_ones, (wrapU_id W v) by done.
  autorewrite with bits.
  destruct (Z.leb_spec position i); simpl.
  - rewrite testbit_ones by lia.
    destruct (Z.ltb_spec i (position + size)).
    + zcmp. rewrite orb_false_r. done.
    + rewrite (testbit_above_isU size v) by (auto; lia).
      destruct (Z.ltb_spec i W); zcmp.
      symmetry. apply (testbit_above_isU W); auto; lia.
  - zcmp.
Qed.

Lemma testbit_decode o i :
  0 <= i -> Z.testbit (decode W position size o) i = (i <? size) && Z.testbit o (i + position).
Proof using Hpos Hsize HW.
  intros. unfold decode. fold (mask W size). rewrite mask_ones. autorewrite with bits. btauto.
Qed.

Lemma decode_range o : isU size (decode W position size o).
Proof using Hpos Hsize HW.
  unfold decode. fold (mask W size). rewrite mask_ones, land_ones_wrapU by lia.
  apply wrapU_range. lia.
Qed.

Lemma update_range v o : isU size v -> isU W o -> isU W (update W position size v o).
Proof using Hpos Hsize HW.
  intros Hv Ho. apply isU_iff_bits; [lia|..].
  - unfold update. apply Z.lor_nonneg. split; [apply wrapU_range; lia|].
    apply Z.land_nonneg. right. apply Ho.
  - intros i Hi. rewrite testbit_update by (auto; lia). zcmp.
    apply (testbit_above_isU W); auto; lia.
Qed.

(** Reading back what was written. *)
Lemma decode_update v o :
  isU size v -> isU W o -> decode W position size (update W position size v o) = v.
Proof using Hpos Hsize HW.
  intros Hv Ho. apply Z.bits_inj'. intros i Hi.
  rewrite testbit_decode, testbit_update by (auto; lia).
  replace (i + position - position) with i by lia. zcmp.
  symmetry. apply (testbit_above_isU size); auto; lia.
Qed.

Lemma decode_encode v : isU size v -> decode W position size (encode W position v) = v.
Proof using Hpos Hsize HW.
  intros Hv.
  assert (encode W position v = update W position size v 0) as ->.
  { unfold update. by rewrite Z.land_0_r, Z.lor_0_r. }
  apply decode_update; [done|]. unfold isU. pose proof (pow2_pos W). lia.
Qed.
End Laws.

(** An update leaves every disjoint field alone. *)
Lemma decode_update_disjoint W p s p' s' v o :
  0 <= p -> 0 < s -> p + s <= W -> 0 <= p' -> 0 < s' -> p' + s' <= W ->
  p + s <= p' \/ p' + s' <= p -> isU s v -> isU W o ->
  decode W p' s' (update W p s v o) = decode W p' s' o.
Proof.
  intros. apply Z.bits_inj'. intros i Hi.
  rewrite !testbit_decode by lia. destruct (Z.ltb_spec i s'); simpl; [|done].
  rewrite testbit_update by (auto; lia). zcmp.
Qed.

End BitField.
