(* ===== verification/Double.v ===== *)
(** * IEEE-754 arithmetic of the host compiler

    [double] and [float] values as their bits.  Arithmetic goes through the
    Standard Library's specification of binary floating point
    ([Stdlib.Floats.SpecFloat]), whose results carry no NaN payload: every
    NaN an operation produces has the default quiet pattern. *)

From stdpp Require Import base numbers.
From Stdlib Require Import ZArith Lia SpecFloat.
From S2P Require Import Prelude.

Local Open Scope Z_scope.
Local Open Scope mach_scope.

Module Double.

(** ** Bit patterns; [mw] fraction bits and [ew] exponent bits. *)

Definition float_of_bits (mw ew b : Z) : spec_float :=
  let s := Z.testbit b (mw + ew) in
  let e := (b >>> mw) .& Z.ones ew in
  let m := b .& Z.ones mw in
  let emin := 3 - 2 ^ (ew - 1) - (mw + 1) in
  if e =? 0 then
    match m with Zpos p => S754_finite s p emin | _ => S754_zero s end
  else if e =? Z.ones ew then
    if m =? 0 then S754_infinity s else S754_nan
  else
    match m + 2 ^ mw with Zpos p => S754_finite s p (emin + e - 1) | _ => S754_nan end.

Definition bits_of_float (mw ew : Z) (f : spec_float) : Z :=
  let sign (s : bool) := if s then 2 ^ (mw + ew) else 0 in
  let emin := 3 - 2 ^ (ew - 1) - (mw + 1) in
  match f with
  | S754_zero s => sign s
  | S754_infinity s => sign s + Z.ones ew * 2 ^ mw
  | S754_nan => Z.ones ew * 2 ^ mw + 2 ^ (mw - 1)
  | S754_finite s m e =>
      if Z.pos m <? 2 ^ mw then sign s + Z.pos m
      else sign s + (e - emin + 1) * 2 ^ mw + (Z.pos m - 2 ^ mw)
  end.

Definition of_bits : Z -> spec_float := float_of_bits 52 11.
Definition to_bits : spec_float -> Z := bits_of_float 52 11.

(** ** Operators on bit patterns *)

Definition dadd (a b : Z) : Z := to_bits (SFadd 53 1024 (of_bits a) (of_bits b)).
Definition dsub (a b : Z) : Z := to_bits (SFsub 53 1024 (of_bits a) (of_bits b)).
Definition dmul (a b : Z) : Z := to_bits (SFmul 53 1024 (of_bits a) (of_bits b)).
Definition ddiv (a b : Z) : Z := to_bits (SFdiv 53 1024 (of_bits a) (of_bits b)).
Definition dsqrt (a : Z) : Z := to_bits (SFsqrt 53 1024 (of_bits a)).
Definition deqb (a b : Z) : bool := SFeqb (of_bits a) (of_bits b).
Definition dltb (a b : Z) : bool := SFltb (of_bits a) (of_bits b).
Definition dleb (a b : Z) : bool := SFleb (of_bits a) (of_bits b).
Definition isnan (a : Z) : bool := match of_bits a with S754_nan => true | _ => false end.
Definition isinf (a : Z) : bool := match of_bits a with S754_infinity _ => true | _ => false end.

(** [static_cast<double>(int)]. *)
Definition of_int (z : Z) : Z := to_bits (binary_normalize 53 1024 z 0 false).

(** [static_cast<intN_t>(double)] of a value in range: truncation. *)
Definition to_int (a : Z) : Z :=
  match of_bits a with
  | S754_finite s m e =>
      let z := if 0 <=? e then Z.pos m * 2 ^ e else Z.pos m / 2 ^ (- e) in
      if s then - z else z
  | _ => 0
  end.

(** [static_cast<double>(float)] is exact, [static_cast<float>(double)] rounds. *)
Definition of_float (a : Z) : Z :=
  to_bits match float_of_bits 23 8 a with
          | S754_finite s m e => binary_normalize 53 1024 (if s then Z.neg m else Z.pos m) e s
          | f => f
          end.

Definition to_float (a : Z) : Z :=
  bits_of_float 23 8
    match of_bits a with
    | S754_finite s m e => binary_normalize 24 128 (if s then Z.neg m else Z.pos m) e s
    | f => f
    end.

Example dadd_1_2 : dadd (of_int 1) (of_int 2) = of_int 3.
Proof. reflexivity. Qed.

Example of_int_1 : of_int 1 = 0x3FF0000000000000.
Proof. reflexivity. Qed.

Example to_int_of_int : to_int (of_int (-12345)) = -12345.
Proof. reflexivity. Qed.

Example float_roundtrip : of_float (to_float (of_int 7)) = of_int 7.
Proof. reflexivity. Qed.

(** Only a NaN is not equal to itself. *)
Lemma deqb_refl a : deqb a a = negb (isnan a).
Proof.
  unfold deqb, isnan. destruct (of_bits a) as [s|s| |s m e]; try (destruct s; reflexivity); [done|].
  unfold SFeqb, SFcompare. destruct s; rewrite Z.compare_refl, Pos.compare_cont_refl; done.
Qed.

End Double.
