(* ===== verification/MipsConstants.v ===== *)
(** * vm/constants_mips.h

    Registers, enumerations, and the fields of a MIPS instruction word.  An
    instruction ([class Instr]) is its bits, an [int32_t].  A register is its
    number; decoding a field of the word gives a number or, for the enums,
    the enumerator with that value if there is one. *)

From stdpp Require Import base numbers list.
From Stdlib Require Import ZArith Lia Btauto.
From S2P Require Import Prelude.

Local Open Scope Z_scope.
Local Open Scope mach_scope.

Module Mips.

(** ** Registers *)

Definition Register := Z.
Definition FRegister := Z.
Definition DRegister := Z.

Definition R0 : Register := 0.
Definition R1 : Register := 1.
Definition kFirstFreeCpuRegister : Register := 2.
Definition R2 : Register := 2.
Definition R3 : Register := 3.
Definition R4 : Register := 4.
Definition R5 : Register := 5.
Definition R6 : Register := 6.
Definition R7 : Register := 7.
Definition R8 : Register := 8.
Definition R9 : Register := 9.
Definition R10 : Register := 10.
Definition R11 : Register := 11.
Definition R12 : Register := 12.
Definition R13 : Register := 13.
Definition R14 : Register := 14.
Definition R15 : Register := 15.
Definition R16 : Register := 16.
Definition R17 : Register := 17.
Definition R18 : Register := 18.
Definition R19 : Register := 19.
Definition R20 : Register := 20.
Definition R21 : Register := 21.
Definition kLastFreeCpuRegister : Register := 21.
Definition R22 : Register := 22.
Definition R23 : Register := 23.
Definition R24 : Register := 24.
Definition R25 : Register := 25.
Definition R26 : Register := 26.
Definition R27 : Register := 27.
Definition R28 : Register := 28.
Definition R29 : Register := 29.
Definition R30 : Register := 30.
Definition R31 : Register := 31.
Definition kNumberOfCpuRegisters : Register := 32.
Definition IMM : Register := 32.
Definition kNoRegister : Register := -1.
Definition ZR : Register := R0.
Definition AT : Register := R1.
Definition V0 : Register := R2.
Definition V1 : Register := R3.
Definition A0 : Register := R4.
Definition A1 : Register := R5.
Definition A2 : Register := R6.
Definition A3 : Register := R7.
Definition T0 : Register := R8.
Definition T1 : Register := R9.
Definition T2 : Register := R10.
Definition T3 : Register := R11.
Definition T4 : Register := R12.
Definition T5 : Register := R13.
Definition T6 : Register := R14.
Definition T7 : Register := R15.
Definition S0 : Register := R16.
Definition S1 : Register := R17.
Definition S2 : Register := R18.
Definition S3 : Register := R19.
Definition S4 : Register := R20.
Definition S5 : Register := R21.
Definition S6 : Register := R22.
Definition S7 : Register := R23.
Definition T8 : Register := R24.
Definition T9 : Register := R25.
Definition K0 : Register := R26.
Definition K1 : Register := R27.
Definition GP : Register := R28.
Definition SP : Register := R29.
Definition FP : Register := R30.
Definition RA : Register := R31.
Definition TMP : Register := AT.
Definition TMP2 : Register := kNoRegister.
Definition CTX : Register := S6.
Definition CODE_REG : Register := S6.
Definition PP : Register := S7.
Definition SPREG : Register := SP.
Definition FPREG : Register := FP.
Definition LRREG : Register := RA.
Definition ICREG : Register := S5.
Definition ARGS_DESC_REG : Register := S4.
Definition THR : Register := S3.
Definition CMPRES1 : Register := T8.
Definition CMPRES2 : Register := T9.
Definition kExceptionObjectReg : Register := V0.
Definition kStackTraceObjectReg : Register := V1.

Definition F0 : Z := 0.
Definition F1 : Z := 1.
Definition F2 : Z := 2.
Definition F3 : Z := 3.
Definition F4 : Z := 4.
Definition F5 : Z := 5.
Definition F6 : Z := 6.
Definition F7 : Z := 7.
Definition F8 : Z := 8.
Definition F9 : Z := 9.
Definition F10 : Z := 10.
Definition F11 : Z := 11.
Definition F12 : Z := 12.
Definition F13 : Z := 13.
Definition F14 : Z := 14.
Definition F15 : Z := 15.
Definition F16 : Z := 16.
Definition F17 : Z := 17.
Definition F18 : Z := 18.
Definition F19 : Z := 19.
Definition F20 : Z := 20.
Definition F21 : Z := 21.
Definition F22 : Z := 22.
Definition F23 : Z := 23.
Definition F24 : Z := 24.
Definition F25 : Z := 25.
Definition F26 : Z := 26.
Definition F27 : Z := 27.
Definition F28 : Z := 28.
Definition F29 : Z := 29.
Definition F30 : Z := 30.
Definition F31 : Z := 31.
Definition kNumberOfFRegisters : Z := 32.
Definition D0 : Z := 0.
Definition D1 : Z := 1.
Definition D2 : Z := 2.
Definition D3 : Z := 3.
Definition D4 : Z := 4.
Definition D5 : Z := 5.
Definition D6 : Z := 6.
Definition D7 : Z := 7.
Definition D8 : Z := 8.
Definition D9 : Z := 9.
Definition D10 : Z := 10.
Definition D11 : Z := 11.
Definition D12 : Z := 12.
Definition D13 : Z := 13.
Definition D14 : Z := 14.
Definition D15 : Z := 15.
Definition kNumberOfDRegisters : Z := 16.

Definition EvenFRegisterOf (d : DRegister) : FRegister := d * 2.
Definition OddFRegisterOf (d : DRegister) : FRegister := d * 2 + 1.

(** ** Enumerations *)

Inductive RelationOperator :=
| AL | NV | EQ | NE | GT | GE | LT | LE | UGT | UGE | ULT | ULE.

Definition RelationOperator_value (x : RelationOperator) : Z :=
  match x with
  | AL => 0 | NV => 1 | EQ => 2 | NE => 3 | GT => 4 | GE => 5 | LT => 6 | LE => 7
  | UGT => 8 | UGE => 9 | ULT => 10 | ULE => 11
  end.

Definition all_RelationOperator : list RelationOperator :=
  [AL; NV; EQ; NE; GT; GE; LT; LE; UGT; UGE; ULT; ULE].

Definition kOpcodeShift : Z := 26.
Definition kOpcodeBits : Z := 6.
Definition kRsShift : Z := 21.
Definition kRsBits : Z := 5.
Definition kFmtShift : Z := 21.
Definition kFmtBits : Z := 5.
Definition kRtShift : Z := 16.
Definition kRtBits : Z := 5.
Definition kFtShift : Z := 16.
Definition kFtBits : Z := 5.
Definition kRdShift : Z := 11.
Definition kRdBits : Z := 5.
Definition kFsShift : Z := 11.
Definition kFsBits : Z := 5.
Definition kSaShift : Z := 6.
Definition kSaBits : Z := 5.
Definition kFdShift : Z := 6.
Definition kFdBits : Z := 5.
Definition kFunctionShift : Z := 0.
Definition kFunctionBits : Z := 6.
Definition kCop1FnShift : Z := 0.
Definition kCop1FnBits : Z := 6.
Definition kCop1SubShift : Z := 21.
Definition kCop1SubBits : Z := 5.
Definition kImmShift : Z := 0.
Definition kImmBits : Z := 16.
Definition kInstrShift : Z := 0.
Definition kInstrBits : Z := 26.
Definition kBreakCodeShift : Z := 6.
Definition kBreakCodeBits : Z := 20.
Definition kFpuCCShift : Z := 8.
Definition kFpuCCBits : Z := 3.
Definition kBranchOffsetMask : Z := 0x0000ffff.

Inductive Opcode :=
| SPECIAL | REGIMM | J | JAL | BEQ | BNE | BLEZ | BGTZ | ADDI | ADDIU | SLTI
| SLTIU | ANDI | ORI | XORI | LUI | CPO0 | COP1 | COP2 | COP1X | BEQL | BNEL
| BLEZL | BGTZL | SPECIAL2 | JALX | SPECIAL3 | LB | LH | LWL | LW | LBU | LHU
| LWR | SB | SH | SWL | SW | SWR | CACHE | LL | LWC1 | LWC2 | PREF | LDC1 | LDC2
| SC | SWC1 | SWC2 | SDC1 | SDC2.

Definition Opcode_value (x : Opcode) : Z :=
  match x with
  | SPECIAL => 0 | REGIMM => 1 | J => 2 | JAL => 3 | BEQ => 4 | BNE => 5 | BLEZ => 6
  | BGTZ => 7 | ADDI => 8 | ADDIU => 9 | SLTI => 10 | SLTIU => 11 | ANDI => 12
  | ORI => 13 | XORI => 14 | LUI => 15 | CPO0 => 16 | COP1 => 17 | COP2 => 18
  | COP1X => 19 | BEQL => 20 | BNEL => 21 | BLEZL => 22 | BGTZL => 23 | SPECIAL2 => 28
  | JALX => 29 | SPECIAL3 => 31 | LB => 32 | LH => 33 | LWL => 34 | LW => 35
  | LBU => 36 | LHU => 37 | LWR => 38 | SB => 40 | SH => 41 | SWL => 42 | SW => 43
  | SWR => 46 | CACHE => 47 | LL => 48 | LWC1 => 49 | LWC2 => 50 | PREF => 51
  | LDC1 => 53 | LDC2 => 54 | SC => 56 | SWC1 => 57 | SWC2 => 58 | SDC1 => 61
  | SDC2 => 62
  end.

Definition all_Opcode : list Opcode :=
  [SPECIAL; REGIMM; J; JAL; BEQ; BNE; BLEZ; BGTZ; ADDI; ADDIU; SLTI; SLTIU; ANDI;
   ORI; XORI; LUI; CPO0; COP1; COP2; COP1X; BEQL; BNEL; BLEZL; BGTZL; SPECIAL2; JALX;
   SPECIAL3; LB; LH; LWL; LW; LBU; LHU; LWR; SB; SH; SWL; SW; SWR; CACHE; LL; LWC1;
   LWC2; PREF; LDC1; LDC2; SC; SWC1; SWC2; SDC1; SDC2].

(** SPECIAL and SPECIAL2 share one enum, so values repeat in it. *)
Inductive SpecialFunction :=
| SLL | MOVCI | SRL | SRA | SLLV | SRLV | SRAV | JR | JALR | MOVZ | MOVN | SYSCALL
| BREAK | SYNC | MFHI | MTHI | MFLO | MTLO | MULT | MULTU | DIV | DIVU | ADD
| ADDU | SUB | SUBU | AND | OR | XOR | NOR | SLT | SLTU | TGE | TGEU | TLT | TLTU
| TEQ | TNE | MADD | MADDU | CLZ | CLO.

Definition SpecialFunction_value (x : SpecialFunction) : Z :=
  match x with
  | SLL => 0 | MOVCI => 1 | SRL => 2 | SRA => 3 | SLLV => 4 | SRLV => 6 | SRAV => 7
  | JR => 8 | JALR => 9 | MOVZ => 10 | MOVN => 11 | SYSCALL => 12 | BREAK => 13
  | SYNC => 15 | MFHI => 16 | MTHI => 17 | MFLO => 18 | MTLO => 19 | MULT => 24
  | MULTU => 25 | DIV => 26 | DIVU => 27 | ADD => 32 | ADDU => 33 | SUB => 34
  | SUBU => 35 | AND => 36 | OR => 37 | XOR => 38 | NOR => 39 | SLT => 42 | SLTU => 43
  | TGE => 48 | TGEU => 49 | TLT => 50 | TLTU => 51 | TEQ => 52 | TNE => 54 | MADD => 0
  | MADDU => 1 | CLZ => 32 | CLO => 33
  end.

Definition all_Special : list SpecialFunction :=
  [SLL; MOVCI; SRL; SRA; SLLV; SRLV; SRAV; JR; JALR; MOVZ; MOVN; SYSCALL; BREAK;
   SYNC; MFHI; MTHI; MFLO; MTLO; MULT; MULTU; DIV; DIVU; ADD; ADDU; SUB; SUBU; AND;
   OR; XOR; NOR; SLT; SLTU; TGE; TGEU; TLT; TLTU; TEQ; TNE].

Definition all_Special2 : list SpecialFunction :=
  [MADD; MADDU; CLZ; CLO].

Inductive RtRegImm :=
| BLTZ | BGEZ | BLTZL | BGEZL | TGEI | TGEIU | TLTI | TLTIU | TEQI | TNEI | BLTZAL
| BGEZAL | BLTZALL | BGEZALL | SYNCI.

Definition RtRegImm_value (x : RtRegImm) : Z :=
  match x with
  | BLTZ => 0 | BGEZ => 1 | BLTZL => 2 | BGEZL => 3 | TGEI => 8 | TGEIU => 9
  | TLTI => 10 | TLTIU => 11 | TEQI => 12 | TNEI => 14 | BLTZAL => 16 | BGEZAL => 17
  | BLTZALL => 18 | BGEZALL => 19 | SYNCI => 31
  end.

Definition all_RtRegImm : list RtRegImm :=
  [BLTZ; BGEZ; BLTZL; BGEZL; TGEI; TGEIU; TLTI; TLTIU; TEQI; TNEI; BLTZAL; BGEZAL;
   BLTZALL; BGEZALL; SYNCI].

Inductive Cop1Function :=
| COP1_ADD | COP1_SUB | COP1_MUL | COP1_DIV | COP1_SQRT | COP1_MOV | COP1_CVT_S
| COP1_CVT_D | COP1_CVT_W | COP1_C_F | COP1_C_UN | COP1_C_EQ | COP1_C_UEQ
| COP1_C_OLT | COP1_C_ULT | COP1_C_OLE | COP1_C_ULE.

Definition Cop1Function_value (x : Cop1Function) : Z :=
  match x with
  | COP1_ADD => 0x00 | COP1_SUB => 0x01 | COP1_MUL => 0x02 | COP1_DIV => 0x03
  | COP1_SQRT => 0x04 | COP1_MOV => 0x06 | COP1_CVT_S => 0x20 | COP1_CVT_D => 0x21
  | COP1_CVT_W => 0x24 | COP1_C_F => 0x30 | COP1_C_UN => 0x31 | COP1_C_EQ => 0x32
  | COP1_C_UEQ => 0x33 | COP1_C_OLT => 0x34 | COP1_C_ULT => 0x35 | COP1_C_OLE => 0x36
  | COP1_C_ULE => 0x37
  end.

Definition all_Cop1Function : list Cop1Function :=
  [COP1_ADD; COP1_SUB; COP1_MUL; COP1_DIV; COP1_SQRT; COP1_MOV; COP1_CVT_S;
   COP1_CVT_D; COP1_CVT_W; COP1_C_F; COP1_C_UN; COP1_C_EQ; COP1_C_UEQ; COP1_C_OLT;
   COP1_C_ULT; COP1_C_OLE; COP1_C_ULE].

Inductive Cop1Sub :=
| COP1_MF | COP1_MT | COP1_BC.

Definition Cop1Sub_value (x : Cop1Sub) : Z :=
  match x with
  | COP1_MF => 0 | COP1_MT => 4 | COP1_BC => 8
  end.

Definition all_Cop1Sub : list Cop1Sub :=
  [COP1_MF; COP1_MT; COP1_BC].

Inductive Format :=
| FMT_S | FMT_D | FMT_W | FMT_L | FMT_PS.

Definition Format_value (x : Format) : Z :=
  match x with
  | FMT_S => 16 | FMT_D => 17 | FMT_W => 20 | FMT_L => 21 | FMT_PS => 22
  end.

Definition all_Format : list Format :=
  [FMT_S; FMT_D; FMT_W; FMT_L; FMT_PS].

(** ** class Instr *)

Definition kInstrSize : Z := 4.
Definition kNopInstruction : Z := 0.
Definition kBreakPointCode : Z := 0xdeb0.
Definition kStopMessageCode : Z := 0xdeb1.
Definition kSimulatorBreakCode : Z := 0xdeb2.
Definition kSimulatorRedirectCode : Z := 0xca11.

Definition kBreakPointZeroInstruction : Z :=
  s32 ((Opcode_value SPECIAL <<< kOpcodeShift) .| (SpecialFunction_value BREAK <<< kFunctionShift)).
Definition kBreakPointInstruction : Z :=
  s32 (kBreakPointZeroInstruction .| (kBreakPointCode <<< kBreakCodeShift)).
Definition kSimulatorBreakpointInstruction : Z :=
  s32 (kBreakPointZeroInstruction .| (kSimulatorBreakCode <<< kBreakCodeShift)).
Definition kSimulatorRedirectInstruction : Z :=
  s32 (kBreakPointZeroInstruction .| (kSimulatorRedirectCode <<< kBreakCodeShift)).

Definition SetImmInstrBits (op : Opcode) (rs rt : Register) (imm : Z) : Z :=
  s32 ((Opcode_value op <<< kOpcodeShift) .| (rs <<< kRsShift) .| (rt <<< kRtShift) .| (imm <<< kImmShift)).

Definition SetSpecialInstrBits (f : SpecialFunction) (rs rt rd : Register) : Z :=
  s32 ((Opcode_value SPECIAL <<< kOpcodeShift) .| (SpecialFunction_value f <<< kFunctionShift)
       .| (rs <<< kRsShift) .| (rt <<< kRtShift) .| (rd <<< kRdShift)).

Definition Bit (instr nr : Z) : Z := (instr >>> nr) .& 1.
Definition Bits (instr shift count : Z) : Z := (instr >>> shift) .& ((1 <<< count) - 1).

Definition OpcodeField (instr : Z) : option Opcode :=
  enum_of_Z Opcode_value all_Opcode (Bits instr kOpcodeShift kOpcodeBits).

Definition SetOpcodeField (instr : Z) (b : Opcode) : Z :=
  let mask := s32 (((1 <<< kOpcodeBits) - 1) <<< kOpcodeShift) in
  s32 ((Opcode_value b <<< kOpcodeShift) .| (instr .& Z.lnot mask)).

Definition RsField (instr : Z) : Register := Bits instr kRsShift kRsBits.
Definition RtField (instr : Z) : Register := Bits instr kRtShift kRtBits.
Definition RdField (instr : Z) : Register := Bits instr kRdShift kRdBits.
Definition FsField (instr : Z) : FRegister := Bits instr kFsShift kFsBits.
Definition FtField (instr : Z) : FRegister := Bits instr kFtShift kFtBits.
Definition FdField (instr : Z) : FRegister := Bits instr kFdShift kFdBits.
Definition SaField (instr : Z) : Z := Bits instr kSaShift kSaBits.
Definition UImmField (instr : Z) : Z := Bits instr kImmShift kImmBits.
Definition SImmField (instr : Z) : Z :=
  s32 (Bits instr kImmShift kImmBits <<< (32 - kImmBits)) >>> (32 - kImmBits).
Definition BreakCodeField (instr : Z) : Z := Bits instr kBreakCodeShift kBreakCodeBits.

(** [FunctionField] returns the six function bits; [DecodeSpecial] and
    [DecodeSpecial2] compare them with their own enumerators. *)
Definition FunctionField (instr : Z) : Z := Bits instr kFunctionShift kFunctionBits.

Definition RegImmFnField (instr : Z) : option RtRegImm :=
  enum_of_Z RtRegImm_value all_RtRegImm (Bits instr kRtShift kRtBits).

Definition SetRegImmFnField (instr : Z) (b : RtRegImm) : Z :=
  let mask := ((1 <<< kRtBits) - 1) <<< kRtShift in
  s32 ((RtRegImm_value b <<< kRtShift) .| (instr .& Z.lnot mask)).

Definition IsBreakPoint (instr : Z) : bool :=
  match OpcodeField instr with
  | Some SPECIAL => FunctionField instr =? SpecialFunction_value BREAK
  | _ => false
  end.

Definition Cop1FunctionField (instr : Z) : option Cop1Function :=
  enum_of_Z Cop1Function_value all_Cop1Function (Bits instr kCop1FnShift kCop1FnBits).

Definition Cop1SubField (instr : Z) : option Cop1Sub :=
  enum_of_Z Cop1Sub_value all_Cop1Sub (Bits instr kCop1SubShift kCop1SubBits).

Definition HasFormat (instr : Z) : bool :=
  match OpcodeField instr with Some COP1 => Bit instr 25 =? 1 | _ => false end.

Definition FormatField (instr : Z) : option Format :=
  enum_of_Z Format_value all_Format (Bits instr kFmtShift kFmtBits).

Definition FpuCCField (instr : Z) : Z := Bits instr kFpuCCShift kFpuCCBits.

End Mips.

