(* ===== verification/MipsEncoding.v ===== *)
(** * Instruction words: what the fields of an encoded instruction are

    The three encodings the assembler uses (I-type, R-type, coprocessor 1), as
    sums of disjoint fields, and the field accessors of [class Instr] on
    them.  The rewrite database [fields] reads any field of an encoded word. *)

From stdpp Require Import base numbers list.
From Stdlib Require Import ZArith Lia.
From S2P Require Import Prelude MipsConstants.

Local Open Scope Z_scope.
Local Open Scope mach_scope.

Module MipsEncoding.
Import Mips.

(** ** Bits of a word *)

Lemma Bits_s32 z sh n :
  0 <= sh -> 0 <= n -> sh + n <= 32 -> Bits (s32 z) sh n = (z / 2 ^ sh) mod 2 ^ n.
Proof.
  intros. unfold Bits. rewrite Z.shiftl_1_l, <- ones_pow2, <- Z.land_ones, <- Z.shiftr_div_pow2 by lia.
  zbits. destruct (Z.ltb_spec i n); rewrite ?andb_false_r; [|done].
  rewrite Z.min_l by lia. done.
Qed.

Lemma Bit_Bits instr nr : Bit instr nr = Bits instr nr 1.
Proof. done. Qed.

(** Two adjacent fields are one wider field. *)
Lemma lor_fields a b n m :
  0 <= m <= n -> isU (n - m) b -> (a <<< n) .| (b <<< m) = (a * 2 ^ (n - m) + b) <<< m.
Proof.
  intros Hm Hb. rewrite <- lor_shiftl_add by (auto; lia).
  rewrite Z.shiftl_lor, Z.shiftl_shiftl by lia. do 2 f_equal; lia.
Qed.

(** A signed immediate, sign extended from its 16 bits. *)
Lemma sext16 z : s32 ((z mod 2 ^ 16) <<< 16) >>> 16 = s16 z.
Proof.
  rewrite Z.shiftl_mul_pow2, Z.shiftr_div_pow2 by lia. unfold wrapS.
  simpl Z.sub. change (2 ^ 31) with 2147483648. change (2 ^ 32) with 4294967296.
  change (2 ^ 16) with 65536. change (2 ^ 15) with 32768. divlia.
Qed.

(** ** The encodings *)

Definition itype (op rs rt imm : Z) : Z := op * 2 ^ 26 + rs * 2 ^ 21 + rt * 2 ^ 16 + imm.
Definition rtype (op rs rt rd sa fn : Z) : Z :=
  op * 2 ^ 26 + rs * 2 ^ 21 + rt * 2 ^ 16 + rd * 2 ^ 11 + sa * 2 ^ 6 + fn.

Lemma lor_itype op rs rt imm :
  isU 5 rs -> isU 5 rt -> isU 16 imm ->
  (op <<< kOpcodeShift) .| (rs <<< kRsShift) .| (rt <<< kRtShift) .| imm = itype op rs rt imm.
Proof.
  intros. unfold kOpcodeShift, kRsShift, kRtShift.
  rewrite (lor_fields op), (lor_fields _ rt), lor_shiftl_add by (done || lia).
  unfold itype. lia.
Qed.

Lemma lor_rtype op rs rt rd sa fn :
  isU 5 rs -> isU 5 rt -> isU 5 rd -> isU 5 sa -> isU 6 fn ->
  (op <<< kOpcodeShift) .| (rs <<< kRsShift) .| (rt <<< kRtShift) .| (rd <<< kRdShift)
    .| (sa <<< kSaShift) .| (fn <<< kFunctionShift) = rtype op rs rt rd sa fn.
Proof.
  intros. unfold kOpcodeShift, kRsShift, kRtShift, kRdShift, kSaShift, kFunctionShift.
  rewrite (lor_fields op), (lor_fields _ rt), (lor_fields _ rd), (lor_fields _ sa) by (done || lia).
  rewrite Z.shiftl_0_r, lor_shiftl_add by (done || lia). unfold rtype. lia.
Qed.

(** An R-type word is an I-type word whose immediate holds three fields. *)
Lemma rtype_itype op rs rt rd sa fn :
  rtype op rs rt rd sa fn = itype op rs rt (rd * 2 ^ 11 + sa * 2 ^ 6 + fn).
Proof. unfold rtype, itype. lia. Qed.

Section Fields.
Context (op rs rt : Z) (Hop : isU 6 op) (Hrs : isU 5 rs) (Hrt : isU 5 rt).

Local Ltac field :=
  unfold RsField, RtField, RdField, FsField, FtField, FdField, SaField, UImmField, FunctionField,
    FpuCCField, BreakCodeField;
  rewrite Bits_s32 by (compute; congruence); unfold rtype, itype, isU in *;
  repeat match goal with |- context [2 ^ ?k] => let v := eval compute in (2 ^ k) in change (2 ^ k) with v end;
  repeat match goal with H : context [2 ^ ?k] |- _ =>
    let v := eval compute in (2 ^ k) in change (2 ^ k) with v in H end;
  divlia.

Lemma Bits_itype_op imm : isU 16 imm -> Bits (s32 (itype op rs rt imm)) kOpcodeShift kOpcodeBits = op.
Proof using Hop Hrs Hrt. intros. field. Qed.
Lemma RsField_itype imm : isU 16 imm -> RsField (s32 (itype op rs rt imm)) = rs.
Proof using Hop Hrs Hrt. intros. field. Qed.
Lemma RtField_itype imm : isU 16 imm -> RtField (s32 (itype op rs rt imm)) = rt.
Proof using Hop Hrs Hrt. intros. field. Qed.
Lemma UImmField_itype imm : isU 16 imm -> UImmField (s32 (itype op rs rt imm)) = imm.
Proof using Hop Hrs Hrt. intros. field. Qed.

Lemma SImmField_itype imm : isU 16 imm -> SImmField (s32 (itype op rs rt imm)) = s16 imm.
Proof using Hop Hrs Hrt.
  intros Hi. unfold SImmField. fold (UImmField (s32 (itype op rs rt imm))).
  rewrite UImmField_itype by done. rewrite <- sext16, (Z.mod_small imm) by apply Hi. done.
Qed.

Context (rd sa fn : Z) (Hrd : isU 5 rd) (Hsa : isU 5 sa) (Hfn : isU 6 fn).

Lemma Bits_rtype_op : Bits (s32 (rtype op rs rt rd sa fn)) kOpcodeShift kOpcodeBits = op.
Proof using All. field. Qed.
Lemma RsField_rtype : RsField (s32 (rtype op rs rt rd sa fn)) = rs.
Proof using All. field. Qed.
Lemma RtField_rtype : RtField (s32 (rtype op rs rt rd sa fn)) = rt.
Proof using All. field. Qed.
Lemma RdField_rtype : RdField (s32 (rtype op rs rt rd sa fn)) = rd.
Proof using All. field. Qed.
Lemma SaField_rtype : SaField (s32 (rtype op rs rt rd sa fn)) = sa.
Proof using All. field. Qed.
Lemma FunctionField_rtype : FunctionField (s32 (rtype op rs rt rd sa fn)) = fn.
Proof using All. field. Qed.
End Fields.

(** The coprocessor fields are the same bits under other names. *)
Lemma FsField_RdField w : FsField w = RdField w. Proof. done. Qed.
Lemma FtField_RtField w : FtField w = RtField w. Proof. done. Qed.
Lemma FdField_SaField w : FdField w = SaField w. Proof. done. Qed.

(** ** Enumerators *)

Lemma Opcode_isU o : isU 6 (Opcode_value o).
Proof. destruct o; done. Qed.
Lemma SpecialFunction_isU f : isU 6 (SpecialFunction_value f).
Proof. destruct f; done. Qed.
Lemma Cop1Function_isU f : isU 6 (Cop1Function_value f).
Proof. destruct f; done. Qed.
Lemma RtRegImm_isU f : isU 5 (RtRegImm_value f).
Proof. destruct f; done. Qed.
Lemma Format_isU f : isU 5 (Format_value f).
Proof. destruct f; done. Qed.
Lemma Cop1Sub_isU f : isU 5 (Cop1Sub_value f).
Proof. destruct f; done. Qed.

Lemma OpcodeField_eq w o : Bits w kOpcodeShift kOpcodeBits = Opcode_value o -> OpcodeField w = Some o.
Proof. intros H. unfold OpcodeField. rewrite H. by destruct o. Qed.
Lemma RegImmFnField_eq w f : RtField w = RtRegImm_value f -> RegImmFnField w = Some f.
Proof. intros H. unfold RegImmFnField. fold (RtField w). rewrite H. by destruct f. Qed.
Lemma Cop1FunctionField_eq w f : FunctionField w = Cop1Function_value f -> Cop1FunctionField w = Some f.
Proof. intros H. unfold Cop1FunctionField. change (Bits w kCop1FnShift kCop1FnBits) with (FunctionField w). rewrite H. by destruct f. Qed.
Lemma FormatField_eq w f : RsField w = Format_value f -> FormatField w = Some f.
Proof. intros H. unfold FormatField. change (Bits w kFmtShift kFmtBits) with (RsField w). rewrite H. by destruct f. Qed.
Lemma Cop1SubField_eq w f : RsField w = Cop1Sub_value f -> Cop1SubField w = Some f.
Proof. intros H. unfold Cop1SubField. change (Bits w kCop1SubShift kCop1SubBits) with (RsField w). rewrite H. by destruct f. Qed.

Lemma OpcodeField_itype o rs rt imm :
  isU 5 rs -> isU 5 rt -> isU 16 imm -> OpcodeField (s32 (itype (Opcode_value o) rs rt imm)) = Some o.
Proof. intros. apply OpcodeField_eq, Bits_itype_op; auto using Opcode_isU. Qed.

Lemma OpcodeField_rtype o rs rt rd sa fn :
  isU 5 rs -> isU 5 rt -> isU 5 rd -> isU 5 sa -> isU 6 fn ->
  OpcodeField (s32 (rtype (Opcode_value o) rs rt rd sa fn)) = Some o.
Proof. intros. apply OpcodeField_eq, Bits_rtype_op; auto using Opcode_isU. Qed.

(** Reading a field of an encoded word. *)
Create HintDb fields.
#[export] Hint Resolve Opcode_isU SpecialFunction_isU Cop1Function_isU RtRegImm_isU Format_isU
  Cop1Sub_isU : fields.
#[export] Hint Extern 2 (isU _ _) => (split; [done|done]) : fields.
#[export] Hint Extern 2 (isU _ (wrapU _ _)) => (apply wrapU_range; lia) : fields.

Create Rewrite HintDb fields.
#[export] Hint Rewrite OpcodeField_itype OpcodeField_rtype RsField_itype RtField_itype UImmField_itype
  SImmField_itype RsField_rtype RtField_rtype RdField_rtype SaField_rtype FunctionField_rtype
  using (solve [auto with fields]) : fields.

End MipsEncoding.
