(* ===== verification/MipsSimulator.v ===== *)
(** * vm/simulator_mips.h, vm/simulator_mips.cc

    The MIPS simulator: register file, memory, decoding and execution of one
    instruction, delay slots, the dispatch loop and [Call].

    The VM that hosts this simulator is a 32-bit little-endian process: [uword]
    is an unsigned 32-bit word, and an [int32_t] register is its two's
    complement value.  Memory is the part of the process memory that is mapped,
    byte by byte; touching an unmapped byte faults.  [ASSERT] stops the
    computation when it fails, as in a debug build. *)

From stdpp Require Import base numbers list gmap.
From Stdlib Require Import ZArith Lia Btauto.
From S2P Require Import Prelude Utils Double MipsConstants.

Local Open Scope Z_scope.
Local Open Scope mach_scope.

Module MipsSimulator.
Import Mips.

(** ** State *)

Inductive sim_error :=
| AssertFailed
| Unimplemented (instr : Z)       (* UnimplementedInstruction *)
| IllegalAccess (addr : Z)        (* HandleIllegalAccess *)
| Unaligned (addr : Z)            (* UnalignedAccess *)
| HostFault (addr : Z)            (* an unmapped address *)
| BreakStop (code : Z)            (* DoBreak: SimulatorDebugger::Stop *)
| OutOfFuel.

Record Simulator := mkSim {
  hi_reg_ : Z;
  lo_reg_ : Z;
  registers_ : list Z;
  fregisters_ : list Z;
  fcsr_ : Z;
  pc_ : Z;
  icount_ : Z;
  delay_slot_ : bool;
  mem : gmap Z Z
}.

Abbreviation M A := (result sim_error A).

Definition assert_ (b : bool) : M unit := if b then Ok () else Err AssertFailed.

Definition with_hi (s : Simulator) (v : Z) : Simulator :=
  mkSim v (lo_reg_ s) (registers_ s) (fregisters_ s) (fcsr_ s) (pc_ s) (icount_ s) (delay_slot_ s) (mem s).
Definition with_lo (s : Simulator) (v : Z) : Simulator :=
  mkSim (hi_reg_ s) v (registers_ s) (fregisters_ s) (fcsr_ s) (pc_ s) (icount_ s) (delay_slot_ s) (mem s).
Definition with_registers (s : Simulator) (v : list Z) : Simulator :=
  mkSim (hi_reg_ s) (lo_reg_ s) v (fregisters_ s) (fcsr_ s) (pc_ s) (icount_ s) (delay_slot_ s) (mem s).
Definition with_fregisters (s : Simulator) (v : list Z) : Simulator :=
  mkSim (hi_reg_ s) (lo_reg_ s) (registers_ s) v (fcsr_ s) (pc_ s) (icount_ s) (delay_slot_ s) (mem s).
Definition with_fcsr (s : Simulator) (v : Z) : Simulator :=
  mkSim (hi_reg_ s) (lo_reg_ s) (registers_ s) (fregisters_ s) v (pc_ s) (icount_ s) (delay_slot_ s) (mem s).
Definition with_pc (s : Simulator) (v : Z) : Simulator :=
  mkSim (hi_reg_ s) (lo_reg_ s) (registers_ s) (fregisters_ s) (fcsr_ s) v (icount_ s) (delay_slot_ s) (mem s).
Definition with_icount (s : Simulator) (v : Z) : Simulator :=
  mkSim (hi_reg_ s) (lo_reg_ s) (registers_ s) (fregisters_ s) (fcsr_ s) (pc_ s) v (delay_slot_ s) (mem s).
Definition with_delay_slot (s : Simulator) (v : bool) : Simulator :=
  mkSim (hi_reg_ s) (lo_reg_ s) (registers_ s) (fregisters_ s) (fcsr_ s) (pc_ s) (icount_ s) v (mem s).
Definition with_mem (s : Simulator) (v : gmap Z Z) : Simulator :=
  mkSim (hi_reg_ s) (lo_reg_ s) (registers_ s) (fregisters_ s) (fcsr_ s) (pc_ s) (icount_ s) (delay_slot_ s) v.

(** The constructor: all registers zero, SP at the top of the stack.  The hi and
    lo registers are not initialised by it. *)
Definition Simulator_new (stack_top hi lo : Z) (m : gmap Z Z) : Simulator :=
  mkSim hi lo (<[Z.to_nat SP := s32 stack_top]> (repeat 0 (Z.to_nat kNumberOfCpuRegisters)))
    (repeat 0 (Z.to_nat kNumberOfFRegisters)) 0 0 0 false m.

(** ** Register accessors *)

Definition set_register (s : Simulator) (reg : Register) (value : Z) : Simulator :=
  if negb (reg =? R0) then with_registers s (<[Z.to_nat reg := value]> (registers_ s)) else s.

Definition get_register (s : Simulator) (reg : Register) : Z :=
  if reg =? R0 then 0 else default 0 (registers_ s !! Z.to_nat reg).

Definition set_fregister (s : Simulator) (reg : FRegister) (value : Z) : M Simulator :=
  assert_ (reg >=? 0);;
  assert_ (reg <? kNumberOfFRegisters);;
  Ok (with_fregisters s (<[Z.to_nat reg := value]> (fregisters_ s))).

(** A [float] is its 32 bits, a [double] its 64 bits: the bit casts are the
    identity, and the float and double accessors are the integer ones. *)
Definition set_fregister_float (s : Simulator) (reg : FRegister) (value : Z) : M Simulator :=
  set_fregister s reg (s32 value).

Definition set_fregister_long (s : Simulator) (reg : FRegister) (value : Z) : M Simulator :=
  assert_ (reg >=? 0);;
  assert_ (reg <? kNumberOfFRegisters);;
  assert_ (reg .& 1 =? 0);;
  let fr := <[Z.to_nat reg := Utils.Low32Bits value]> (fregisters_ s) in
  Ok (with_fregisters s (<[Z.to_nat (reg + 1) := Utils.High32Bits value]> fr)).

Definition set_fregister_double (s : Simulator) (reg : FRegister) (value : Z) : M Simulator :=
  set_fregister_long s reg (s64 value).

Definition set_dregister_bits (s : Simulator) (reg : DRegister) (value : Z) : M Simulator :=
  assert_ (reg >=? 0);;
  assert_ (reg <? kNumberOfDRegisters);;
  s ← set_fregister s (reg * 2) (Utils.Low32Bits value);
  set_fregister s (reg * 2 + 1) (Utils.High32Bits value).

Definition set_dregister (s : Simulator) (reg : DRegister) (value : Z) : M Simulator :=
  assert_ (reg >=? 0);;
  assert_ (reg <? kNumberOfDRegisters);;
  set_dregister_bits s reg value.

Definition get_fregister (s : Simulator) (reg : FRegister) : M Z :=
  assert_ ((reg >=? 0) && (reg <? kNumberOfFRegisters));;
  Ok (default 0 (fregisters_ s !! Z.to_nat reg)).

Definition get_fregister_float (s : Simulator) (reg : FRegister) : M Z := get_fregister s reg.

Definition get_fregister_long (s : Simulator) (reg : FRegister) : M Z :=
  assert_ (reg >=? 0);;
  assert_ (reg <? kNumberOfFRegisters);;
  assert_ (reg .& 1 =? 0);;
  let low := default 0 (fregisters_ s !! Z.to_nat reg) in
  let high := default 0 (fregisters_ s !! Z.to_nat (reg + 1)) in
  Ok (Utils.LowHighTo64Bits (u32 low) high).

Definition get_fregister_double (s : Simulator) (reg : FRegister) : M Z :=
  assert_ (reg >=? 0);;
  assert_ (reg <? kNumberOfFRegisters);;
  assert_ (reg .& 1 =? 0);;
  get_fregister_long s reg.

Definition get_dregister_bits (s : Simulator) (reg : DRegister) : M Z :=
  assert_ (reg >=? 0);;
  assert_ (reg <? kNumberOfDRegisters);;
  lo ← get_fregister s (reg * 2);
  hi ← get_fregister s (reg * 2 + 1);
  Ok (Utils.LowHighTo64Bits (u32 lo) hi).

Definition get_dregister (s : Simulator) (reg : DRegister) : M Z :=
  assert_ (reg >=? 0);;
  assert_ (reg <? kNumberOfDRegisters);;
  get_dregister_bits s reg.

Definition get_fcsr_condition_bit (cc : Z) : Z := if cc =? 0 then 23 else 24 + cc.

Definition set_fcsr_bit (s : Simulator) (cc : Z) (value : bool) : Simulator :=
  if value then with_fcsr s (s32 (fcsr_ s .| (1 <<< cc)))
  else with_fcsr s (s32 (fcsr_ s .& Z.lnot (1 <<< cc))).

Definition test_fcsr_bit (s : Simulator) (cc : Z) : bool := negb (fcsr_ s .& s32 (1 <<< cc) =? 0).

(** ** Memory *)

Fixpoint load_le (m : gmap Z Z) (addr : Z) (n : nat) : M Z :=
  match n with
  | O => Ok 0
  | S n =>
      match m !! addr with
      | Some b => rest ← load_le m (addr + 1) n; Ok (b .| (rest <<< 8))
      | None => Err (HostFault addr)
      end
  end.

Fixpoint store_le (m : gmap Z Z) (addr : Z) (n : nat) (value : Z) : M (gmap Z Z) :=
  match n with
  | O => Ok m
  | S n =>
      match m !! addr with
      | Some _ => store_le (<[addr := u8 value]> m) (addr + 1) n (value >>> 8)
      | None => Err (HostFault addr)
      end
  end.

Definition IsIllegalAddress (addr : Z) : bool := addr <? 64 * 1024.

Definition ReadB (s : Simulator) (addr : Z) : M Z := b ← load_le (mem s) addr 1; Ok (s8 b).
Definition ReadBU (s : Simulator) (addr : Z) : M Z := load_le (mem s) addr 1.

Definition ReadH (s : Simulator) (addr : Z) : M Z :=
  if addr .& 1 =? 0 then (h ← load_le (mem s) addr 2; Ok (s16 h)) else Err (Unaligned addr).
Definition ReadHU (s : Simulator) (addr : Z) : M Z :=
  if addr .& 1 =? 0 then load_le (mem s) addr 2 else Err (Unaligned addr).
Definition ReadW (s : Simulator) (addr : Z) : M Z :=
  if addr .& 3 =? 0 then (w ← load_le (mem s) addr 4; Ok (s32 w)) else Err (Unaligned addr).

Definition WriteB (s : Simulator) (addr value : Z) : M Simulator :=
  m ← store_le (mem s) addr 1 value; Ok (with_mem s m).
Definition WriteH (s : Simulator) (addr value : Z) : M Simulator :=
  if addr .& 1 =? 0 then (m ← store_le (mem s) addr 2 value; Ok (with_mem s m)) else Err (Unaligned addr).
Definition WriteW (s : Simulator) (addr value : Z) : M Simulator :=
  if addr .& 3 =? 0 then (m ← store_le (mem s) addr 4 value; Ok (with_mem s m)) else Err (Unaligned addr).
Definition ReadD (s : Simulator) (addr : Z) : M Z :=
  if addr .& 7 =? 0 then load_le (mem s) addr 8 else Err (Unaligned addr).
Definition WriteD (s : Simulator) (addr value : Z) : M Simulator :=
  if addr .& 7 =? 0 then (m ← store_le (mem s) addr 8 value; Ok (with_mem s m)) else Err (Unaligned addr).

(** [Instr::At(pc)->InstructionBits()]. *)
Definition InstrAt (s : Simulator) (pc : Z) : M Z := w ← load_le (mem s) pc 4; Ok (s32 w).

(** ** Decoding *)

(** Host functions called from simulated code.  A [Redirection] ties the address
    of a break instruction to a function compiled for the host. *)
Inductive CallKind :=
| kRuntimeCall | kLeafRuntimeCall | kLeafFloatRuntimeCall | kBootstrapNativeCall | kNativeCall.

Record Redirection := mkRedirection {
  address_of_break_instruction : Z;
  external_function_ : Z;
  call_kind_ : CallKind;
  argument_count_ : Z
}.

(** [Redirection::Get]: search the list, else prepend a new element, allocated
    so that its break instruction is at [fresh]. *)
Definition Redirection_Get (list_ : list Redirection) (fresh external_function : Z)
    (call_kind : CallKind) (argument_count : Z) : Redirection * list Redirection :=
  match List.find (fun r => external_function_ r =? external_function) list_ with
  | Some current => (current, list_)
  | None =>
      let r := mkRedirection fresh external_function call_kind argument_count in
      (r, r :: list_)
  end.

Definition RedirectExternalReference (list_ : list Redirection) (fresh function : Z)
    (call_kind : CallKind) (argument_count : Z) : Z * list Redirection :=
  let '(r, list_) := Redirection_Get list_ fresh function call_kind argument_count in
  (address_of_break_instruction r, list_).

Definition FunctionForRedirect (list_ : list Redirection) (address_of_break : Z) : Z :=
  match List.find (fun r => address_of_break_instruction r =? address_of_break) list_ with
  | Some current => external_function_ current
  | None => 0
  end.

(** What a host function does: it returns a value, or it throws and
    [Simulator::Longjmp] has set up the registers of the handler. *)
Inductive host_outcome (A : Type) :=
| Returned (value : A) (s : Simulator)
| Threw (s : Simulator).
Arguments Returned {A} value s.
Arguments Threw {A} s.

(** The C++ functions of the VM, and the redirections made so far. *)
Class Host := {
  redirections : list Redirection;
  runtime_call (target a0 a1 a2 a3 : Z) (s : Simulator) : M (host_outcome unit);
  leaf_runtime_call (target a0 a1 a2 a3 : Z) (s : Simulator) : M (host_outcome Z);
  leaf_float_runtime_call (target d6 d7 : Z) (s : Simulator) : M (host_outcome Z);
  bootstrap_native_call (target a0 : Z) (s : Simulator) : M (host_outcome unit);
  native_call (target a0 a1 : Z) (s : Simulator) : M (host_outcome unit)
}.

(** [Longjmp], its effect on the simulated registers. *)
Definition Longjmp (s : Simulator) (pc sp fp raw_exception raw_stacktrace thread : Z) : Simulator :=
  let s := with_pc s (u32 (s32 pc)) in
  let s := set_register s SP (s32 sp) in
  let s := set_register s FP (s32 fp) in
  let s := set_register s THR (s32 thread) in
  let s := set_register s kExceptionObjectReg (s32 raw_exception) in
  set_register s kStackTraceObjectReg (s32 raw_stacktrace).

(** The caller-saved registers, which a host call may have used. *)
Definition zapped_registers : list Register :=
  [T0; T1; T2; T3; T4; T5; T6; T7; T8; T9; A0; A1; A2; A3; TMP; RA].

Definition zap_registers (s : Simulator) : Simulator :=
  fold_left (fun s reg => set_register s reg (s32 (icount_ s))) zapped_registers s.

Fixpoint zap_fregisters (n : nat) (i zap_dvalue : Z) (s : Simulator) : M Simulator :=
  match n with
  | O => Ok s
  | S n => s ← set_fregister s i zap_dvalue; zap_fregisters n (i + 1) zap_dvalue s
  end.

(** Set or zap the result registers after a call that returned. *)
Definition zap_results (s : Simulator) : Simulator :=
  set_register (set_register s V0 (s32 (icount_ s))) V1 (s32 (icount_ s)).

Definition on_return {A} (k : A -> Simulator -> M Simulator) (o : host_outcome A)
  : M (host_outcome unit) :=
  match o with
  | Returned v s => s ← k v s; Ok (Returned () s)
  | Threw s => Ok (Threw s)
  end.

(** The address of the instruction being decoded. *)
Definition instr_address (s : Simulator) : Z :=
  if delay_slot_ s then u32 (pc_ s + kInstrSize) else pc_ s.

(** [DoBreak].  The debugger ([SimulatorDebugger]) stops the simulation. *)
Definition DoBreak `{Host} (s : Simulator) (instr : Z) : M Simulator :=
  if BreakCodeField instr =? kSimulatorRedirectCode then
    let saved_ra := get_register s RA in
    match List.find (fun r => address_of_break_instruction r =? instr_address s) redirections with
    | None => Err (HostFault (instr_address s))
    | Some redirection =>
        let external := external_function_ redirection in
        o ← match call_kind_ redirection with
            | kRuntimeCall =>
                o ← runtime_call external (get_register s A0) (get_register s A1)
                      (get_register s A2) (get_register s A3) s;
                on_return (fun _ s => Ok (zap_results s)) o
            | kLeafRuntimeCall =>
                o ← leaf_runtime_call external (get_register s A0) (get_register s A1)
                      (get_register s A2) (get_register s A3) s;
                on_return (fun a0 s =>
                  let s := set_register s V0 (s32 a0) in
                  Ok (set_register s V1 (s32 (icount_ s)))) o
            | kLeafFloatRuntimeCall =>
                assert_ ((0 <=? argument_count_ redirection) && (argument_count_ redirection <=? 2));;
                d6 ← get_fregister_double s F12;
                d7 ← get_fregister_double s F14;
                o ← leaf_float_runtime_call external d6 d7 s;
                on_return (fun d0 s => set_fregister_double s F0 d0) o
            | kBootstrapNativeCall =>
                assert_ (argument_count_ redirection =? 1);;
                o ← bootstrap_native_call external (get_register s A0) s;
                on_return (fun _ s => Ok (zap_results s)) o
            | kNativeCall =>
                o ← native_call external (get_register s A0) (u32 (get_register s A1)) s;
                on_return (fun _ s => Ok (zap_results s)) o
            end;
        match o with
        | Returned _ s =>
            let s := zap_registers s in
            let zap_dvalue := s32 (icount_ s) in
            s ← zap_fregisters (Z.to_nat (F18 - F4 + 1)) F4 zap_dvalue s;
            Ok (with_pc s (u32 (saved_ra - kInstrSize)))
        | Threw s => Ok (with_pc s (u32 (pc_ s - kInstrSize)))
        end
    end
  else Err (BreakStop (BreakCodeField instr)).

(** The loops of [clo] and [clz]. *)
Fixpoint clo_loop (fuel : nat) (rs_val bitcount : Z) : Z :=
  match fuel with
  | O => bitcount
  | S fuel => if rs_val <? 0 then clo_loop fuel (s32 (rs_val <<< 1)) (bitcount + 1) else bitcount
  end.

Fixpoint clz_loop (fuel : nat) (rs_val bitcount : Z) : Z :=
  match fuel with
  | O => bitcount
  | S fuel => if rs_val >? 0 then clz_loop fuel (s32 (rs_val <<< 1)) (bitcount + 1) else bitcount
  end.

Section Decode.
Context `{Host}.
(** [ExecuteDelaySlot], which calls [InstructionDecode] again. *)
Context (ExecuteDelaySlot : Simulator -> M Simulator).

Definition DecodeSpecial (s : Simulator) (instr : Z) : M Simulator :=
  let rs_val := get_register s (RsField instr) in
  let rt_val := get_register s (RtField instr) in
  match enum_of_Z SpecialFunction_value all_Special (FunctionField instr) with
  | Some ADDU =>
      assert_ (SaField instr =? 0);;
      Ok (set_register s (RdField instr) (s32 (rs_val + rt_val)))
  | Some AND =>
      assert_ (SaField instr =? 0);;
      Ok (set_register s (RdField instr) (rs_val .& rt_val))
  | Some BREAK => DoBreak s instr
  | Some DIV =>
      assert_ (RdField instr =? 0);;
      assert_ (SaField instr =? 0);;
      if rt_val =? 0 then
        Ok (with_lo (with_hi s (s32 (icount_ s))) (s32 (icount_ s)))
      else if (rs_val =? s32 0x80000000) && (rt_val =? s32 0xffffffff) then
        Ok (with_hi (with_lo s (s32 0x80000000)) 0)
      else
        Ok (with_hi (with_lo s (Z.quot rs_val rt_val)) (Z.rem rs_val rt_val))
  | Some DIVU =>
      assert_ (RdField instr =? 0);;
      assert_ (SaField instr =? 0);;
      let rs_val := u32 rs_val in
      let rt_val := u32 rt_val in
      if rt_val =? 0 then
        Ok (with_lo (with_hi s (s32 (icount_ s))) (s32 (icount_ s)))
      else
        Ok (with_hi (with_lo s (s32 (rs_val / rt_val))) (s32 (rs_val mod rt_val)))
  | Some JALR =>
      assert_ (RtField instr =? R0);;
      assert_ (negb (RsField instr =? RdField instr));;
      assert_ (negb (delay_slot_ s));;
      let s := set_register s (RdField instr) (s32 (u32 (pc_ s + 2 * kInstrSize))) in
      let next_pc := u32 (get_register s (RsField instr)) in
      s ← ExecuteDelaySlot s;
      Ok (with_pc s (u32 (next_pc - kInstrSize)))
  | Some JR =>
      assert_ (RtField instr =? R0);;
      assert_ (RdField instr =? R0);;
      assert_ (negb (delay_slot_ s));;
      let next_pc := u32 rs_val in
      s ← ExecuteDelaySlot s;
      Ok (with_pc s (u32 (next_pc - kInstrSize)))
  | Some MFHI =>
      assert_ (RsField instr =? 0);;
      assert_ (RtField instr =? 0);;
      assert_ (SaField instr =? 0);;
      Ok (set_register s (RdField instr) (hi_reg_ s))
  | Some MFLO =>
      assert_ (RsField instr =? 0);;
      assert_ (RtField instr =? 0);;
      assert_ (SaField instr =? 0);;
      Ok (set_register s (RdField instr) (lo_reg_ s))
  | Some MOVCI =>
      assert_ (SaField instr =? 0);;
      assert_ (Bit instr 17 =? 0);;
      let fcsr_cc := get_fcsr_condition_bit (Bits instr 18 3) in
      let test := Bit instr 16 in
      let status := if test_fcsr_bit s fcsr_cc then 1 else 0 in
      if test =? status then Ok (set_register s (RdField instr) rs_val) else Ok s
  | Some MOVN =>
      assert_ (SaField instr =? 0);;
      if negb (rt_val =? 0) then Ok (set_register s (RdField instr) rs_val) else Ok s
  | Some MOVZ =>
      assert_ (SaField instr =? 0);;
      if rt_val =? 0 then Ok (set_register s (RdField instr) rs_val) else Ok s
  | Some MTHI =>
      assert_ (RtField instr =? 0);;
      assert_ (RdField instr =? 0);;
      assert_ (SaField instr =? 0);;
      Ok (with_hi s rs_val)
  | Some MTLO =>
      assert_ (RtField instr =? 0);;
      assert_ (RdField instr =? 0);;
      assert_ (SaField instr =? 0);;
      Ok (with_lo s rs_val)
  | Some MULT =>
      assert_ (RdField instr =? 0);;
      assert_ (SaField instr =? 0);;
      let res := s64 (rs_val * rt_val) in
      Ok (with_lo (with_hi s (Utils.High32Bits res)) (Utils.Low32Bits res))
  | Some MULTU =>
      assert_ (RdField instr =? 0);;
      assert_ (SaField instr =? 0);;
      let res := s64 (u64 (u32 rs_val * u32 rt_val)) in
      Ok (with_lo (with_hi s (Utils.High32Bits res)) (Utils.Low32Bits res))
  | Some NOR =>
      assert_ (SaField instr =? 0);;
      Ok (set_register s (RdField instr) (Z.lnot (rs_val .| rt_val)))
  | Some OR =>
      assert_ (SaField instr =? 0);;
      Ok (set_register s (RdField instr) (rs_val .| rt_val))
  | Some SLL =>
      assert_ (RsField instr =? 0);;
      if (RdField instr =? R0) && (RtField instr =? R0) && (SaField instr =? 0) then Ok s
      else Ok (set_register s (RdField instr) (s32 (rt_val <<< SaField instr)))
  | Some SLLV =>
      assert_ (SaField instr =? 0);;
      Ok (set_register s (RdField instr) (s32 (rt_val <<< (rs_val .& 0x1f))))
  | Some SLT =>
      assert_ (SaField instr =? 0);;
      Ok (set_register s (RdField instr) (if rs_val <? rt_val then 1 else 0))
  | Some SLTU =>
      assert_ (SaField instr =? 0);;
      Ok (set_register s (RdField instr) (if u32 rs_val <? u32 rt_val then 1 else 0))
  | Some SRA =>
      assert_ (RsField instr =? 0);;
      Ok (set_register s (RdField instr) (rt_val >>> SaField instr))
  | Some SRAV =>
      assert_ (SaField instr =? 0);;
      Ok (set_register s (RdField instr) (rt_val >>> (rs_val .& 0x1f)))
  | Some SRL =>
      assert_ (RsField instr =? 0);;
      Ok (set_register s (RdField instr) (s32 (u32 rt_val >>> SaField instr)))
  | Some SRLV =>
      assert_ (SaField instr =? 0);;
      Ok (set_register s (RdField instr) (s32 (u32 rt_val >>> (u32 rs_val .& 0x1f))))
  | Some SUBU =>
      assert_ (SaField instr =? 0);;
      Ok (set_register s (RdField instr) (s32 (rs_val - rt_val)))
  | Some XOR =>
      assert_ (SaField instr =? 0);;
      Ok (set_register s (RdField instr) (rs_val .^ rt_val))
  | _ => Err (Unimplemented instr)
  end.

Definition DecodeSpecial2 (s : Simulator) (instr : Z) : M Simulator :=
  let rs_val := get_register s (RsField instr) in
  let rt_val := get_register s (RtField instr) in
  match enum_of_Z SpecialFunction_value all_Special2 (FunctionField instr) with
  | Some MADD =>
      assert_ (RdField instr =? 0);;
      assert_ (SaField instr =? 0);;
      let accum := Utils.LowHighTo64Bits (u32 (lo_reg_ s)) (hi_reg_ s) in
      let res := s64 (accum + s64 (rs_val * rt_val)) in
      Ok (with_lo (with_hi s (Utils.High32Bits res)) (Utils.Low32Bits res))
  | Some MADDU =>
      assert_ (RdField instr =? 0);;
      assert_ (SaField instr =? 0);;
      let accum := u64 (Utils.LowHighTo64Bits (u32 (lo_reg_ s)) (s32 (u32 (hi_reg_ s)))) in
      let res := s64 (u64 (accum + u64 (u32 rs_val * u32 rt_val))) in
      Ok (with_lo (with_hi s (Utils.High32Bits res)) (Utils.Low32Bits res))
  | Some CLO =>
      assert_ (SaField instr =? 0);;
      assert_ (RtField instr =? RdField instr);;
      Ok (set_register s (RdField instr) (clo_loop 32 rs_val 0))
  | Some CLZ =>
      assert_ (SaField instr =? 0);;
      assert_ (RtField instr =? RdField instr);;
      let bitcount := if negb (rs_val =? 0) then clz_loop 32 rs_val 0 else 32 in
      Ok (set_register s (RdField instr) bitcount)
  | _ => Err (Unimplemented instr)
  end.

Definition DoBranch (s : Simulator) (instr : Z) (taken likely : bool) : M Simulator :=
  assert_ (negb (delay_slot_ s));;
  let imm_val := s32 (SImmField instr <<< 2) in
  let next_pc :=
    if taken then u32 (pc_ s + imm_val + kInstrSize) else u32 (pc_ s + 2 * kInstrSize) in
  s ← (if taken && likely then ExecuteDelaySlot s else Ok s);
  s ← (if negb likely then ExecuteDelaySlot s else Ok s);
  Ok (with_pc s (u32 (next_pc - kInstrSize))).

Definition DecodeRegImm (s : Simulator) (instr : Z) : M Simulator :=
  let rs_val := get_register s (RsField instr) in
  let link s := set_register s RA (s32 (u32 (pc_ s + 2 * kInstrSize))) in
  match RegImmFnField instr with
  | Some BGEZ => DoBranch s instr (rs_val >=? 0) false
  | Some BGEZAL => DoBranch (link s) instr (rs_val >=? 0) false
  | Some BLTZAL => DoBranch (link s) instr (rs_val <? 0) false
  | Some BGEZL => DoBranch s instr (rs_val >=? 0) true
  | Some BLTZ => DoBranch s instr (rs_val <? 0) false
  | Some BLTZL => DoBranch s instr (rs_val <? 0) true
  | _ => Err (Unimplemented instr)
  end.

(** [fs_val] and [ft_val] are read before the [switch], so both register
    numbers must be even for every instruction with a format. *)
Definition DecodeCop1 (s : Simulator) (instr : Z) : M Simulator :=
  if HasFormat instr then
    fs_val ← get_fregister_double s (FsField instr);
    ft_val ← get_fregister_double s (FtField instr);
    let fcsr_cc := get_fcsr_condition_bit (FpuCCField instr) in
    let is_D := match FormatField instr with Some FMT_D => true | _ => false end in
    let compare (value : bool) : M Simulator :=
      assert_ is_D;; assert_ (FdField instr =? F0);; Ok (set_fcsr_bit s fcsr_cc value) in
    match Cop1FunctionField instr with
    | Some COP1_ADD => assert_ is_D;; set_fregister_double s (FdField instr) (Double.dadd fs_val ft_val)
    | Some COP1_SUB => assert_ is_D;; set_fregister_double s (FdField instr) (Double.dsub fs_val ft_val)
    | Some COP1_MUL => assert_ is_D;; set_fregister_double s (FdField instr) (Double.dmul fs_val ft_val)
    | Some COP1_DIV => assert_ is_D;; set_fregister_double s (FdField instr) (Double.ddiv fs_val ft_val)
    | Some COP1_SQRT => assert_ is_D;; set_fregister_double s (FdField instr) (Double.dsqrt fs_val)
    | Some COP1_MOV => assert_ is_D;; set_fregister_double s (FdField instr) fs_val
    | Some COP1_C_F => compare false
    | Some COP1_C_UN => compare (Double.isnan fs_val || Double.isnan ft_val)
    | Some COP1_C_EQ => compare (Double.deqb fs_val ft_val)
    | Some COP1_C_UEQ => compare (Double.deqb fs_val ft_val || Double.isnan fs_val || Double.isnan ft_val)
    | Some COP1_C_OLT => compare (Double.dltb fs_val ft_val)
    | Some COP1_C_ULT => compare (Double.dltb fs_val ft_val || Double.isnan fs_val || Double.isnan ft_val)
    | Some COP1_C_OLE => compare (Double.dleb fs_val ft_val)
    | Some COP1_C_ULE => compare (Double.dleb fs_val ft_val || Double.isnan fs_val || Double.isnan ft_val)
    | Some COP1_CVT_D =>
        match FormatField instr with
        | Some FMT_W =>
            fs_int ← get_fregister s (FsField instr);
            set_fregister_double s (FdField instr) (Double.of_int fs_int)
        | Some FMT_S =>
            fs_flt ← get_fregister_float s (FsField instr);
            set_fregister_double s (FdField instr) (Double.of_float (u32 fs_flt))
        | Some FMT_L =>
            fs_int ← get_fregister_long s (FsField instr);
            set_fregister_double s (FdField instr) (Double.of_int fs_int)
        | _ => Err (Unimplemented instr)
        end
    | Some COP1_CVT_W =>
        match FormatField instr with
        | Some FMT_D =>
            fs_dbl ← get_fregister_double s (FsField instr);
            let fs_int :=
              if Double.isnan fs_dbl || Double.isinf fs_dbl
                 || Double.dltb (Double.of_int (2 ^ 31 - 1)) fs_dbl
                 || Double.dltb fs_dbl (Double.of_int (- 2 ^ 31))
              then - 2 ^ 31 else s32 (Double.to_int fs_dbl) in
            set_fregister s (FdField instr) fs_int
        | _ => Err (Unimplemented instr)
        end
    | Some COP1_CVT_S =>
        match FormatField instr with
        | Some FMT_D =>
            fs_dbl ← get_fregister_double s (FsField instr);
            set_fregister_float s (FdField instr) (Double.to_float fs_dbl)
        | _ => Err (Unimplemented instr)
        end
    | None => Err (Unimplemented instr)
    end
  else
    match Cop1SubField instr with
    | Some COP1_MF =>
        assert_ (Bits instr 0 11 =? 0);;
        fs_val ← get_fregister s (FsField instr);
        Ok (set_register s (RtField instr) fs_val)
    | Some COP1_MT =>
        assert_ (Bits instr 0 11 =? 0);;
        set_fregister s (FsField instr) (get_register s (RtField instr))
    | Some COP1_BC =>
        assert_ (Bit instr 17 =? 0);;
        let fcsr_cc := get_fcsr_condition_bit (Bits instr 18 3) in
        if Bit instr 16 =? 1 then DoBranch s instr (test_fcsr_bit s fcsr_cc) false
        else DoBranch s instr (negb (test_fcsr_bit s fcsr_cc)) false
    | None => Err (Unimplemented instr)
    end.

(** The address of a load or a store, and its check. *)
Definition effective_address (s : Simulator) (instr : Z) : M Z :=
  let addr := u32 (s32 (get_register s (RsField instr) + SImmField instr)) in
  if IsIllegalAddress addr then Err (IllegalAccess addr) else Ok addr.

(** [InstructionDecode], one level deep in delay slots. *)
Definition InstructionDecode_body (s : Simulator) (instr : Z) : M Simulator :=
  let rs_val := get_register s (RsField instr) in
  let rt_val := get_register s (RtField instr) in
  let imm_val := SImmField instr in
  s ← match OpcodeField instr with
      | Some SPECIAL => DecodeSpecial s instr
      | Some SPECIAL2 => DecodeSpecial2 s instr
      | Some REGIMM => DecodeRegImm s instr
      | Some COP1 => DecodeCop1 s instr
      | Some ADDIU => Ok (set_register s (RtField instr) (s32 (rs_val + imm_val)))
      | Some ANDI => Ok (set_register s (RtField instr) (rs_val .& UImmField instr))
      | Some BEQ => DoBranch s instr (rs_val =? rt_val) false
      | Some BEQL => DoBranch s instr (rs_val =? rt_val) true
      | Some BGTZ => assert_ (RtField instr =? R0);; DoBranch s instr (rs_val >? 0) false
      | Some BGTZL => assert_ (RtField instr =? R0);; DoBranch s instr (rs_val >? 0) true
      | Some BLEZ => assert_ (RtField instr =? R0);; DoBranch s instr (rs_val <=? 0) false
      | Some BLEZL => assert_ (RtField instr =? R0);; DoBranch s instr (rs_val <=? 0) true
      | Some BNE => DoBranch s instr (negb (rs_val =? rt_val)) false
      | Some BNEL => DoBranch s instr (negb (rs_val =? rt_val)) true
      | Some LB =>
          addr ← effective_address s instr; res ← ReadB s addr;
          Ok (set_register s (RtField instr) res)
      | Some LBU =>
          addr ← effective_address s instr; res ← ReadBU s addr;
          Ok (set_register s (RtField instr) res)
      | Some LDC1 =>
          addr ← effective_address s instr; value ← ReadD s addr;
          set_fregister_double s (FtField instr) value
      | Some LH =>
          addr ← effective_address s instr; res ← ReadH s addr;
          Ok (set_register s (RtField instr) res)
      | Some LHU =>
          addr ← effective_address s instr; res ← ReadHU s addr;
          Ok (set_register s (RtField instr) res)
      | Some LUI =>
          assert_ (RsField instr =? 0);;
          Ok (set_register s (RtField instr) (s32 (UImmField instr <<< 16)))
      | Some LW =>
          addr ← effective_address s instr; res ← ReadW s addr;
          Ok (set_register s (RtField instr) res)
      | Some LWC1 =>
          addr ← effective_address s instr; value ← ReadW s addr;
          set_fregister s (FtField instr) value
      | Some ORI => Ok (set_register s (RtField instr) (rs_val .| UImmField instr))
      | Some SB => addr ← effective_address s instr; WriteB s addr (rt_val .& 0xff)
      | Some SLTI => Ok (set_register s (RtField instr) (if rs_val <? imm_val then 1 else 0))
      | Some SLTIU => Ok (set_register s (RtField instr) (if u32 rs_val <? u32 imm_val then 1 else 0))
      | Some SDC1 =>
          addr ← effective_address s instr;
          value ← get_fregister_double s (FtField instr); WriteD s addr value
      | Some SH => addr ← effective_address s instr; WriteH s addr (rt_val .& 0xffff)
      | Some SW => addr ← effective_address s instr; WriteW s addr rt_val
      | Some SWC1 =>
          addr ← effective_address s instr;
          value ← get_fregister s (FtField instr); WriteW s addr value
      | Some XORI => Ok (set_register s (RtField instr) (rs_val .^ UImmField instr))
      | _ => Err (Unimplemented instr)
      end;
  Ok (with_pc s (u32 (pc_ s + kInstrSize))).
End Decode.

Definition kEndSimulatingPC : Z := 0xFFFFFFFF.

(** [ExecuteDelaySlot] around a given decoder ([FLAG_stop_sim_at] unset). *)
Definition ExecuteDelaySlot_with (decode : Simulator -> Z -> M Simulator) (s : Simulator) : M Simulator :=
  assert_ (negb (pc_ s =? kEndSimulatingPC));;
  let s := with_icount (with_delay_slot s true) (u64 (icount_ s + 1)) in
  instr ← InstrAt s (u32 (pc_ s + kInstrSize));
  s ← decode s instr;
  Ok (with_delay_slot s false).

(** [InstructionDecode] and [ExecuteDelaySlot] call each other.  A control
    transfer in a delay slot fails its [ASSERT(!delay_slot_)] before it could
    execute another delay slot, so two levels are the whole recursion
    ([InstructionDecode_levels] below). *)
Fixpoint InstructionDecode_upto `{Host} (level : nat) (s : Simulator) (instr : Z) : M Simulator :=
  InstructionDecode_body
    (ExecuteDelaySlot_with
       match level with
       | O => fun _ _ => Err OutOfFuel
       | S level => InstructionDecode_upto level
       end) s instr.

Definition InstructionDecode `{Host} : Simulator -> Z -> M Simulator := InstructionDecode_upto 1.
Definition ExecuteDelaySlot `{Host} : Simulator -> M Simulator := ExecuteDelaySlot_with (InstructionDecode_upto 0).

(** One round of the dispatch loop. *)
Definition Step `{Host} (s : Simulator) : M Simulator :=
  let s := with_icount s (u64 (icount_ s + 1)) in
  if IsIllegalAddress (pc_ s) then Err (IllegalAccess (pc_ s))
  else instr ← InstrAt s (pc_ s); InstructionDecode s instr.

Fixpoint Execute `{Host} (fuel : nat) (s : Simulator) : M Simulator :=
  if pc_ s =? kEndSimulatingPC then Ok s
  else match fuel with
       | O => Err OutOfFuel
       | S fuel => s ← Step s; Execute fuel s
       end.

(** ** Call *)

Definition saved_registers : list Register := [R16; R17; R18; R19; R20; R21; R22; R23].
Definition saved_dregisters : list DRegister := [D10; D11; D12; D13; D14; D15].

Definition set_registers (s : Simulator) (l : list (Register * Z)) : Simulator :=
  fold_left (fun s rv => set_register s rv.1 rv.2) l s.

Fixpoint set_dregisters (s : Simulator) (l : list (DRegister * Z)) : M Simulator :=
  match l with
  | [] => Ok s
  | (d, v) :: l => s ← set_dregister_bits s d v; set_dregisters s l
  end.

Fixpoint get_dregisters (s : Simulator) (l : list DRegister) : M (list Z) :=
  match l with
  | [] => Ok []
  | d :: l => v ← get_dregister_bits s d; vs ← get_dregisters s l; Ok (v :: vs)
  end.

(** [Call].  [alignment] is [OS::ActivationFrameAlignment()]; the simulation
    itself runs with [fuel]. *)
Definition Call `{Host} (fuel : nat) (alignment : Z) (s : Simulator)
    (entry parameter0 parameter1 parameter2 parameter3 : Z) (fp_return fp_args : bool)
  : M (Z * Simulator) :=
  let sp_before_call := get_register s SP in
  s ← (if fp_args then
         s ← set_fregister s F0 parameter0;
         s ← set_fregister s F1 parameter1;
         s ← set_fregister s F2 parameter2;
         set_fregister s F3 parameter3
       else
         Ok (set_registers s [(A0, parameter0); (A1, parameter1); (A2, parameter2); (A3, parameter3)]));
  stack_pointer ← (if alignment >? 1 then
                     assert_ (Utils.IsPowerOfTwo alignment);;
                     Ok (Utils.RoundDown (wrapS 32) sp_before_call alignment)
                   else Ok sp_before_call);
  let s := set_register s SP stack_pointer in
  let s := with_pc s (u32 entry) in
  let s := set_register s RA (s32 kEndSimulatingPC) in
  let saved := (fun r => get_register s r) <$> saved_registers in
  dsaved ← get_dregisters s saved_dregisters;
  let callee_saved_value := s32 (icount_ s) in
  let s := set_registers s ((fun r => (r, callee_saved_value)) <$> saved_registers) in
  s ← set_dregisters s ((fun d => (d, callee_saved_value)) <$> saved_dregisters);
  s ← Execute fuel s;
  assert_ (forallb (fun r => callee_saved_value =? get_register s r) saved_registers);;
  dvals ← get_dregisters s saved_dregisters;
  assert_ (forallb (Z.eqb callee_saved_value) dvals);;
  let s := set_registers s (zip saved_registers saved) in
  s ← set_dregisters s (zip saved_dregisters dsaved);
  let s := set_register s SP sp_before_call in
  v ← (if fp_return then
         lo ← get_fregister s F0; hi ← get_fregister s F1; Ok (Utils.LowHighTo64Bits (u32 lo) hi)
       else Ok (Utils.LowHighTo64Bits (u32 (get_register s V0)) (get_register s V1)));
  Ok (v, s).

End MipsSimulator.
