(* ===== verification/MipsAssembler.v ===== *)
(** * vm/assembler_mips.h, vm/assembler_mips.cc

    The MIPS assembler: encoding of instructions into a buffer of 32-bit words,
    labels and branches (near and far), and the macro instructions built from
    them.

    An assembler method is a state transformer that may stop on a failed
    [ASSERT] or through the long jump that reports a branch offset out of
    range.  A [Label*] argument is the label's [position_], passed in and
    returned. *)

From stdpp Require Import base numbers list.
From Stdlib Require Import ZArith Lia Btauto.
From S2P Require Import Prelude Utils BitField MipsConstants.

Local Open Scope Z_scope.
Local Open Scope mach_scope.

Module MipsAssembler.
Import Mips.

(** ** State *)

Inductive asm_error :=
| AsmAssertFailed
| BranchOffsetError     (* long_jump_base()->Jump(1, Object::branch_offset_error()) *)
| AsmUnreachable        (* UNREACHABLE() *)
| AsmOutOfFuel.

(** [buffer_] holds the emitted words in order; [fixups_] the positions of the
    [PatchFarJump] fixups. *)
Record Assembler := mkAsm {
  buffer_ : list Z;
  fixups_ : list Z;
  use_far_branches_ : bool;
  delay_slot_available_ : bool;
  in_delay_slot_ : bool;
  constant_pool_allowed_ : bool
}.

Definition AsmM (A : Type) : Type := Assembler -> result asm_error (A * Assembler).

Definition aret {A} (x : A) : AsmM A := fun a => Ok (x, a).
Definition abind {A B} (m : AsmM A) (f : A -> AsmM B) : AsmM B :=
  fun a => match m a with Ok (x, a) => f x a | Err e => Err e end.

Declare Scope asm_scope.
Delimit Scope asm_scope with asm.
Notation "x ← y ; z" := (abind y (fun x => z)) : asm_scope.
Notation "y ;; z" := (abind y (fun _ => z)) : asm_scope.
Local Open Scope asm_scope.

Definition afail {A} (e : asm_error) : AsmM A := fun _ => Err e.
Definition aget : AsmM Assembler := fun a => Ok (a, a).
Definition aput (a : Assembler) : AsmM unit := fun _ => Ok ((), a).
Definition aassert (c : bool) : AsmM unit := if c then aret () else afail AsmAssertFailed.
Definition assert_not_in_delay_slot : AsmM unit := fun a => aassert (negb (in_delay_slot_ a)) a.

Definition with_buffer (a : Assembler) (buf : list Z) : Assembler :=
  mkAsm buf (fixups_ a) (use_far_branches_ a) (delay_slot_available_ a) (in_delay_slot_ a)
    (constant_pool_allowed_ a).

Definition empty_assembler (use_far : bool) : Assembler := mkAsm [] [] use_far false false true.

(** [buffer_.Size()], in bytes, and word access at a byte position. *)
Definition Size (a : Assembler) : Z := kInstrSize * Z.of_nat (length (buffer_ a)).

Definition LoadW (position : Z) : AsmM Z := fun a =>
  if (position .& 3 =? 0) && (0 <=? position) then
    match buffer_ a !! Z.to_nat (position / 4) with
    | Some w => Ok (w, a)
    | None => Err AsmAssertFailed
    end
  else Err AsmAssertFailed.

Definition StoreW (position value : Z) : AsmM unit := fun a =>
  if (position .& 3 =? 0) && (0 <=? position) && (position <? Size a) then
    Ok ((), with_buffer a (<[Z.to_nat (position / 4) := value]> (buffer_ a)))
  else Err AsmAssertFailed.

(** ** Operands *)

Record Address := mkAddress { base : Register; offset : Z }.

Definition kHeapObjectTag : Z := 1.
Definition kWordSize : Z := 4.
Definition kSmiTagSize : Z := 1.

Definition FieldAddress (base : Register) (disp : Z) : Address := mkAddress base (disp - kHeapObjectTag).

Definition Address_encoding (addr : Address) : AsmM Z :=
  aassert (Utils.IsInt kImmBits (offset addr));;
  let imm_value := u16 (offset addr) in
  aret ((base addr <<< kRsShift) .| imm_value).

Definition CanHoldOffset (offset : Z) : bool := Utils.IsInt kImmBits offset.

(** A label: 0 when unused, negative when bound, positive when linked. *)
Definition Label : Type := Z.

Definition IsBound (l : Label) : bool := l <? 0.
Definition IsUnused (l : Label) : bool := l =? 0.
Definition IsLinked (l : Label) : bool := l >? 0.

Definition Position (l : Label) : AsmM Z :=
  aassert (negb (IsUnused l));;
  aret (if IsBound l then - l - kWordSize else l - kWordSize).

Definition BindTo (l : Label) (position : Z) : AsmM Label :=
  aassert (negb (IsBound l));;
  let l := - position - kWordSize in
  aassert (IsBound l);;
  aret l.

Definition LinkTo (l : Label) (position : Z) : AsmM Label :=
  aassert (negb (IsBound l));;
  let l := position + kWordSize in
  aassert (IsLinked l);;
  aret l.

(** ** Conditions *)

Definition kLeftPos : Z := 0.
Definition kLeftSize : Z := 6.
Definition kRightPos : Z := kLeftPos + kLeftSize.
Definition kRightSize : Z := 6.
Definition kRelOpPos : Z := kRightPos + kRightSize.
Definition kRelOpSize : Z := 4.
Definition kCondImmPos : Z := kRelOpPos + kRelOpSize.
Definition kCondImmSize : Z := 16.

(** A [Condition] is its [bits_], a 32-bit [uword]. *)
Definition Condition : Type := Z.

Definition left (c : Condition) : Register := BitField.decode 32 kLeftPos kLeftSize c.
Definition right (c : Condition) : Register := BitField.decode 32 kRightPos kRightSize c.
Definition rel_op (c : Condition) : option RelationOperator :=
  enum_of_Z RelationOperator_value all_RelationOperator (BitField.decode 32 kRelOpPos kRelOpSize c).
Definition imm (c : Condition) : Z := s16 (BitField.decode 32 kCondImmPos kCondImmSize c).

Definition IsValidImm (value : Z) : bool := (- 0x08000 <=? value) && (value <? 0x7fff).
Definition IsValidRegister (value : Register) : bool :=
  (ZR <=? value) && (value <=? IMM) && negb (value =? AT).

Definition set_rel_op (c : Condition) (value : RelationOperator) : Condition :=
  BitField.update 32 kRelOpPos kRelOpSize (RelationOperator_value value) c.
Definition set_left (c : Condition) (value : Register) : option Condition :=
  if IsValidRegister value then Some (BitField.update 32 kLeftPos kLeftSize value c) else None.
Definition set_right (c : Condition) (value : Register) : option Condition :=
  if IsValidRegister value then Some (BitField.update 32 kRightPos kRightSize value c) else None.
Definition set_imm (c : Condition) (value : Z) : option Condition :=
  if IsValidImm value then Some (BitField.update 32 kCondImmPos kCondImmSize (u16 value) c) else None.

(** The constructor; it does not initialise [bits_], whose old content is [junk]. *)
Definition mkCondition (junk : Z) (l r : Register) (op : RelationOperator) (i : Z) : option Condition :=
  if negb (((l =? ZR) || (l =? IMM)) && ((r =? ZR) || (r =? IMM)))
     && Bool.eqb (negb (i =? 0)) ((l =? IMM) || (r =? IMM)) then
    set_left junk l ≫= fun c =>
    set_right c r ≫= fun c =>
    let c := set_rel_op c op in
    set_imm c i
  else None.

(** ** Emitting words *)

Definition Emit (value : Z) : AsmM unit := fun a =>
  Ok ((), mkAsm (buffer_ a ++ [value]) (fixups_ a) (use_far_branches_ a) false false
             (constant_pool_allowed_ a)).

Definition EmitIType (opcode : Opcode) (rs rt : Register) (imm : Z) : AsmM unit :=
  Emit (s32 ((Opcode_value opcode <<< kOpcodeShift) .| (rs <<< kRsShift) .| (rt <<< kRtShift) .| imm)).

Definition EmitLoadStore (opcode : Opcode) (rt : Register) (addr : Address) : AsmM unit :=
  enc ← Address_encoding addr;
  Emit (s32 ((Opcode_value opcode <<< kOpcodeShift) .| (rt <<< kRtShift) .| enc)).

Definition EmitFpuLoadStore (opcode : Opcode) (ft : FRegister) (addr : Address) : AsmM unit :=
  enc ← Address_encoding addr;
  Emit (s32 ((Opcode_value opcode <<< kOpcodeShift) .| (ft <<< kFtShift) .| enc)).

Definition EmitRegImmType (opcode : Opcode) (rs : Register) (code : RtRegImm) (imm : Z) : AsmM unit :=
  Emit (s32 ((Opcode_value opcode <<< kOpcodeShift) .| (rs <<< kRsShift)
             .| (RtRegImm_value code <<< kRtShift) .| imm)).

Definition EmitRType (opcode : Opcode) (rs rt rd : Register) (sa : Z) (func : SpecialFunction) : AsmM unit :=
  aassert (Utils.IsUint 5 sa);;
  Emit (s32 ((Opcode_value opcode <<< kOpcodeShift) .| (rs <<< kRsShift) .| (rt <<< kRtShift)
             .| (rd <<< kRdShift) .| (sa <<< kSaShift) .| (SpecialFunction_value func <<< kFunctionShift))).

Definition EmitFpuRType (opcode : Opcode) (fmt : Format) (ft fs fd : FRegister) (func : Cop1Function) : AsmM unit :=
  Emit (s32 ((Opcode_value opcode <<< kOpcodeShift) .| (Format_value fmt <<< kFmtShift) .| (ft <<< kFtShift)
             .| (fs <<< kFsShift) .| (fd <<< kFdShift) .| (Cop1Function_value func <<< kCop1FnShift))).

Definition set_delay_slot_available (v : bool) : AsmM unit := fun a =>
  Ok ((), mkAsm (buffer_ a) (fixups_ a) (use_far_branches_ a) v (in_delay_slot_ a)
             (constant_pool_allowed_ a)).

Definition EmitBranchDelayNop : AsmM unit :=
  Emit kNopInstruction;;
  set_delay_slot_available true.

(** [delay_slot()]: the next instruction replaces the nop of the last branch. *)
Definition delay_slot : AsmM unit := fun a =>
  if delay_slot_available_ a && bool_decide (last (buffer_ a) = Some kNopInstruction) then
    Ok ((), mkAsm (take (length (buffer_ a) - 1) (buffer_ a)) (fixups_ a) (use_far_branches_ a) false true
             (constant_pool_allowed_ a))
  else Err AsmAssertFailed.

Definition EmitFixup : AsmM unit := fun a =>
  Ok ((), mkAsm (buffer_ a) (fixups_ a ++ [Size a]) (use_far_branches_ a)
               (delay_slot_available_ a) (in_delay_slot_ a) (constant_pool_allowed_ a)).

(** ** Branches and labels *)

Definition use_far_branches : AsmM bool := fun a => Ok (use_far_branches_ a, a).

Definition CanEncodeBranchOffset (offset : Z) : AsmM bool :=
  aassert (Utils.IsAligned offset 4);;
  aret (Utils.IsInt 18 offset).

Definition EncodeBranchOffset (offset instr : Z) : AsmM Z :=
  ok ← CanEncodeBranchOffset offset;
  (if ok then aret () else
     far ← use_far_branches;
     aassert (negb far);;
     afail BranchOffsetError);;
  let offset := offset >>> 2 in
  let offset := offset .& kBranchOffsetMask in
  aret ((instr .& Z.lnot kBranchOffsetMask) .| offset).

Definition DecodeBranchOffset (instr : Z) : Z :=
  s32 ((instr .& kBranchOffsetMask) <<< 16) >>> 14.

Definition DecodeLoadImmediate (ori_instr lui_instr : Z) : Z :=
  s32 (((lui_instr .& kBranchOffsetMask) <<< 16) .| (ori_instr .& kBranchOffsetMask)).

Definition EncodeLoadImmediate (dest instr : Z) : Z :=
  (instr .& Z.lnot kBranchOffsetMask) .| (dest .& kBranchOffsetMask).

(** [lui] and [ori], used here before the other instructions. *)
Definition lui (rt : Register) (imm : Z) : AsmM unit :=
  aassert (Utils.IsUint kImmBits imm);;
  let imm_value := u16 imm in
  EmitIType LUI R0 rt imm_value.

Definition ori (rt : Register) (rs : Register) (imm : Z) : AsmM unit :=
  aassert (Utils.IsUint kImmBits imm);;
  let imm_value := u16 imm in
  EmitIType ORI rs rt imm_value.

Definition nop : AsmM unit := Emit kNopInstruction.

Definition EmitFarJump (offset : Z) (link : bool) : AsmM unit :=
  assert_not_in_delay_slot;;
  far ← use_far_branches;
  aassert far;;
  let low := u16 (Utils.Low16Bits offset) in
  let high := u16 (Utils.High16Bits offset) in
  EmitFixup;;
  lui T9 high;;
  ori T9 T9 low;;
  if link then EmitRType SPECIAL T9 R0 RA 0 JALR
  else EmitRType SPECIAL T9 R0 R0 0 JR.

Definition OppositeBranchOpcode (b : Opcode) : AsmM Opcode :=
  match b with
  | BEQ => aret BNE | BNE => aret BEQ | BGTZ => aret BLEZ | BLEZ => aret BGTZ
  | BEQL => aret BNEL | BNEL => aret BEQL | BGTZL => aret BLEZL | BLEZL => aret BGTZL
  | _ => afail AsmUnreachable
  end.

Definition EmitFarBranch (b : Opcode) (rs rt : Register) (offset : Z) : AsmM unit :=
  assert_not_in_delay_slot;;
  EmitIType b rs rt 4;;
  nop;;
  EmitFarJump offset false.

Definition OppositeBranchNoLink (b : RtRegImm) : AsmM RtRegImm :=
  match b with
  | BLTZ => aret BGEZ | BGEZ => aret BLTZ | BLTZAL => aret BGEZ | BGEZAL => aret BLTZ
  | _ => afail AsmUnreachable
  end.

Definition EmitFarRegImmBranch (b : RtRegImm) (rs : Register) (offset : Z) : AsmM unit :=
  assert_not_in_delay_slot;;
  EmitRegImmType REGIMM rs b 4;;
  nop;;
  EmitFarJump offset match b with BLTZAL | BGEZAL => true | _ => false end.

Definition EmitFarFpuBranch (kind : bool) (offset : Z) : AsmM unit :=
  assert_not_in_delay_slot;;
  let b16 := if kind then 1 <<< 16 else 0 in
  Emit (s32 ((Opcode_value COP1 <<< kOpcodeShift) .| (Cop1Sub_value COP1_BC <<< kCop1SubShift) .| b16 .| 4));;
  nop;;
  EmitFarJump offset false.

Definition EmitBranch (b : Opcode) (rs rt : Register) (label : Label) : AsmM Label :=
  assert_not_in_delay_slot;;
  far ← use_far_branches;
  a ← aget;
  if IsBound label then
    pos ← Position label;
    let dest := s32 (pos - (Size a + kInstrSize)) in
    ok ← (if far then CanEncodeBranchOffset dest else aret true);
    if far && negb ok then
      ob ← OppositeBranchOpcode b;
      EmitFarBranch ob rs rt pos;;
      aret label
    else
      enc ← EncodeBranchOffset dest 0;
      let dest_off := u16 enc in
      EmitIType b rs rt dest_off;;
      aret label
  else
    let position := Size a in
    (if far then
       let dest_off := u32 label in
       EmitFarBranch b rs rt (s32 dest_off)
     else
       enc ← EncodeBranchOffset label 0;
       let dest_off := u16 enc in
       EmitIType b rs rt dest_off);;
    LinkTo label position.

Definition EmitRegImmBranch (b : RtRegImm) (rs : Register) (label : Label) : AsmM Label :=
  assert_not_in_delay_slot;;
  far ← use_far_branches;
  a ← aget;
  if IsBound label then
    pos ← Position label;
    let dest := s32 (pos - (Size a + kInstrSize)) in
    ok ← (if far then CanEncodeBranchOffset dest else aret true);
    if far && negb ok then
      ob ← OppositeBranchNoLink b;
      EmitFarRegImmBranch ob rs pos;;
      aret label
    else
      enc ← EncodeBranchOffset dest 0;
      let dest_off := u16 enc in
      EmitRegImmType REGIMM rs b dest_off;;
      aret label
  else
    let position := Size a in
    (if far then
       let dest_off := u32 label in
       EmitFarRegImmBranch b rs (s32 dest_off)
     else
       enc ← EncodeBranchOffset label 0;
       let dest_off := u16 enc in
       EmitRegImmType REGIMM rs b dest_off);;
    LinkTo label position.

(** Unlike the two functions above, the bound far case passes [kind] itself. *)
Definition EmitFpuBranch (kind : bool) (label : Label) : AsmM Label :=
  assert_not_in_delay_slot;;
  let b16 := if kind then 1 <<< 16 else 0 in
  let word dest_off :=
    s32 ((Opcode_value COP1 <<< kOpcodeShift) .| (Cop1Sub_value COP1_BC <<< kCop1SubShift) .| b16 .| dest_off) in
  far ← use_far_branches;
  a ← aget;
  if IsBound label then
    pos ← Position label;
    let dest := s32 (pos - (Size a + kInstrSize)) in
    ok ← (if far then CanEncodeBranchOffset dest else aret true);
    if far && negb ok then
      EmitFarFpuBranch kind pos;;
      aret label
    else
      enc ← EncodeBranchOffset dest 0;
      Emit (word (u16 enc));;
      aret label
  else
    let position := Size a in
    (if far then
       let dest_off := u32 label in
       EmitFarFpuBranch kind (s32 dest_off)
     else
       enc ← EncodeBranchOffset label 0;
       Emit (word (u16 enc)));;
    LinkTo label position.

Definition FlipBranchInstruction (instr : Z) : AsmM Z :=
  match OpcodeField instr with
  | Some REGIMM =>
      match RegImmFnField instr with
      | Some fn => b ← OppositeBranchNoLink fn; aret (SetRegImmFnField instr b)
      | None => afail AsmUnreachable
      end
  | Some COP1 => aret (instr .^ (1 <<< 16))
  | Some op => b ← OppositeBranchOpcode op; aret (SetOpcodeField instr b)
  | None => afail AsmUnreachable
  end.

(** [Bind]: patch every branch linked through the label, then bind it.  The
    links run backwards through the buffer, so there are at most as many as
    words in it. *)
Fixpoint Bind_loop (fuel : nat) (bound_pc : Z) (label : Label) : AsmM Label :=
  if IsLinked label then
    match fuel with
    | O => afail AsmOutOfFuel
    | S fuel =>
        position ← Position label;
        let dest := s32 (bound_pc - (position + kInstrSize)) in
        far ← use_far_branches;
        ok ← (if far then CanEncodeBranchOffset dest else aret true);
        label ←
          (if far && negb ok then
             branch ← LoadW position;
             high ← LoadW (position + 2 * kInstrSize);
             low ← LoadW (position + 3 * kInstrSize);
             let dest := bound_pc in
             let encoded_low := EncodeLoadImmediate (dest .& kBranchOffsetMask) low in
             let encoded_high := EncodeLoadImmediate (dest >>> 16) high in
             flipped ← FlipBranchInstruction branch;
             StoreW position flipped;;
             StoreW (position + 2 * kInstrSize) encoded_high;;
             StoreW (position + 3 * kInstrSize) encoded_low;;
             aret (DecodeLoadImmediate low high)
           else if far && ok then
             high ← LoadW (position + 2 * kInstrSize);
             low ← LoadW (position + 3 * kInstrSize);
             branch ← LoadW position;
             StoreW position kNopInstruction;;
             StoreW (position + 1 * kInstrSize) kNopInstruction;;
             StoreW (position + 2 * kInstrSize) kNopInstruction;;
             StoreW (position + 3 * kInstrSize) kNopInstruction;;
             StoreW (position + 4 * kInstrSize) kNopInstruction;;
             let dest := s32 (dest - 4 * kInstrSize) in
             encoded ← EncodeBranchOffset dest branch;
             StoreW (position + 4 * kInstrSize) encoded;;
             aret (DecodeLoadImmediate low high)
           else
             next ← LoadW position;
             encoded ← EncodeBranchOffset dest next;
             StoreW position encoded;;
             aret (DecodeBranchOffset next));
        Bind_loop fuel bound_pc label
    end
  else aret label.

Definition Bind (label : Label) : AsmM Label :=
  aassert (negb (IsBound label));;
  a ← aget;
  let bound_pc := Size a in
  label ← Bind_loop (length (buffer_ a)) bound_pc label;
  label ← BindTo label bound_pc;
  set_delay_slot_available false;;
  aret label.

(** [PatchFarJump::Process], run when the code is placed at [start]. *)
Definition PatchFarJump_Process (start position : Z) : AsmM unit :=
  high ← LoadW position;
  low ← LoadW (position + kInstrSize);
  let offset := DecodeLoadImmediate low high in
  let dest := s32 (start + offset) in
  match OpcodeField high, OpcodeField low with
  | Some LUI, Some ORI =>
      let encoded_low := EncodeLoadImmediate (dest .& kBranchOffsetMask) low in
      let encoded_high := EncodeLoadImmediate (dest >>> 16) high in
      StoreW position encoded_high;;
      StoreW (position + kInstrSize) encoded_low
  | _, _ =>
      aassert ((high =? kNopInstruction) && (low =? kNopInstruction))
  end.

(** ** CPU instructions in alphabetical order *)

Definition addd (dd ds dt : DRegister) : AsmM unit :=
  let fd := dd * 2 in
  let fs := ds * 2 in
  let ft := dt * 2 in
  EmitFpuRType COP1 FMT_D ft fs fd COP1_ADD.

Definition addiu (rt rs : Register) (imm : Z) : AsmM unit :=
  aassert (Utils.IsInt kImmBits imm);;
  let imm_value := u16 imm in
  EmitIType ADDIU rs rt imm_value.

Definition addu (rd rs rt : Register) : AsmM unit :=
  EmitRType SPECIAL rs rt rd 0 ADDU.

Definition and_ (rd rs rt : Register) : AsmM unit :=
  EmitRType SPECIAL rs rt rd 0 AND.

Definition andi (rt rs : Register) (imm : Z) : AsmM unit :=
  aassert (Utils.IsUint kImmBits imm);;
  let imm_value := u16 imm in
  EmitIType ANDI rs rt imm_value.

Definition bal (l : Label) : AsmM Label :=
  assert_not_in_delay_slot;;
  l ← EmitRegImmBranch BGEZAL R0 l;
  EmitBranchDelayNop;;
  aret l.

Definition bc1f (l : Label) : AsmM Label :=
  l ← EmitFpuBranch false l;
  EmitBranchDelayNop;;
  aret l.

Definition bc1t (l : Label) : AsmM Label :=
  l ← EmitFpuBranch true l;
  EmitBranchDelayNop;;
  aret l.

Definition beq (rs rt : Register) (l : Label) : AsmM Label :=
  assert_not_in_delay_slot;;
  l ← EmitBranch BEQ rs rt l;
  EmitBranchDelayNop;;
  aret l.

Definition b (l : Label) : AsmM Label :=
  beq R0 R0 l.

Definition beql (rs rt : Register) (l : Label) : AsmM Label :=
  assert_not_in_delay_slot;;
  l ← EmitBranch BEQL rs rt l;
  EmitBranchDelayNop;;
  aret l.

Definition bgez (rs : Register) (l : Label) : AsmM Label :=
  assert_not_in_delay_slot;;
  l ← EmitRegImmBranch BGEZ rs l;
  EmitBranchDelayNop;;
  aret l.

Definition bgezl (rs : Register) (l : Label) : AsmM Label :=
  assert_not_in_delay_slot;;
  l ← EmitRegImmBranch BGEZL rs l;
  EmitBranchDelayNop;;
  aret l.

Definition bgtz (rs : Register) (l : Label) : AsmM Label :=
  assert_not_in_delay_slot;;
  l ← EmitBranch BGTZ rs R0 l;
  EmitBranchDelayNop;;
  aret l.

Definition bgtzl (rs : Register) (l : Label) : AsmM Label :=
  assert_not_in_delay_slot;;
  l ← EmitBranch BGTZL rs R0 l;
  EmitBranchDelayNop;;
  aret l.

Definition blez (rs : Register) (l : Label) : AsmM Label :=
  assert_not_in_delay_slot;;
  l ← EmitBranch BLEZ rs R0 l;
  EmitBranchDelayNop;;
  aret l.

Definition blezl (rs : Register) (l : Label) : AsmM Label :=
  assert_not_in_delay_slot;;
  l ← EmitBranch BLEZL rs R0 l;
  EmitBranchDelayNop;;
  aret l.

Definition bltz (rs : Register) (l : Label) : AsmM Label :=
  assert_not_in_delay_slot;;
  l ← EmitRegImmBranch BLTZ rs l;
  EmitBranchDelayNop;;
  aret l.

Definition bltzl (rs : Register) (l : Label) : AsmM Label :=
  assert_not_in_delay_slot;;
  l ← EmitRegImmBranch BLTZL rs l;
  EmitBranchDelayNop;;
  aret l.

Definition bne (rs rt : Register) (l : Label) : AsmM Label :=
  assert_not_in_delay_slot;;
  l ← EmitBranch BNE rs rt l;
  EmitBranchDelayNop;;
  aret l.

Definition bnel (rs rt : Register) (l : Label) : AsmM Label :=
  assert_not_in_delay_slot;;
  l ← EmitBranch BNEL rs rt l;
  EmitBranchDelayNop;;
  aret l.

Definition break_ (code : Z) : AsmM unit :=
  aassert (Utils.IsUint 20 code);;
  Emit (s32 ((Opcode_value SPECIAL <<< kOpcodeShift) .| (code <<< kBreakCodeShift) 
             .| (SpecialFunction_value BREAK <<< kFunctionShift))).

Definition cfd (ds dt : DRegister) : AsmM unit :=
  let fs := ds * 2 in
  let ft := dt * 2 in
  EmitFpuRType COP1 FMT_D ft fs F0 COP1_C_F.

Definition cund (ds dt : DRegister) : AsmM unit :=
  let fs := ds * 2 in
  let ft := dt * 2 in
  EmitFpuRType COP1 FMT_D ft fs F0 COP1_C_UN.

Definition ceqd (ds dt : DRegister) : AsmM unit :=
  let fs := ds * 2 in
  let ft := dt * 2 in
  EmitFpuRType COP1 FMT_D ft fs F0 COP1_C_EQ.

Definition cueqd (ds dt : DRegister) : AsmM unit :=
  let fs := ds * 2 in
  let ft := dt * 2 in
  EmitFpuRType COP1 FMT_D ft fs F0 COP1_C_UEQ.

Definition coltd (ds dt : DRegister) : AsmM unit :=
  let fs := ds * 2 in
  let ft := dt * 2 in
  EmitFpuRType COP1 FMT_D ft fs F0 COP1_C_OLT.

Definition cultd (ds dt : DRegister) : AsmM unit :=
  let fs := ds * 2 in
  let ft := dt * 2 in
  EmitFpuRType COP1 FMT_D ft fs F0 COP1_C_ULT.

Definition coled (ds dt : DRegister) : AsmM unit :=
  let fs := ds * 2 in
  let ft := dt * 2 in
  EmitFpuRType COP1 FMT_D ft fs F0 COP1_C_OLE.

Definition culed (ds dt : DRegister) : AsmM unit :=
  let fs := ds * 2 in
  let ft := dt * 2 in
  EmitFpuRType COP1 FMT_D ft fs F0 COP1_C_ULE.

Definition clo (rd rs : Register) : AsmM unit :=
  EmitRType SPECIAL2 rs rd rd 0 CLO.

Definition clz (rd rs : Register) : AsmM unit :=
  EmitRType SPECIAL2 rs rd rd 0 CLZ.

Definition cvtds (dd : DRegister) (fs : FRegister) : AsmM unit :=
  let fd := dd * 2 in
  EmitFpuRType COP1 FMT_S F0 fs fd COP1_CVT_D.

Definition cvtdw (dd : DRegister) (fs : FRegister) : AsmM unit :=
  let fd := dd * 2 in
  EmitFpuRType COP1 FMT_W F0 fs fd COP1_CVT_D.

Definition cvtdl (dd ds : DRegister) : AsmM unit :=
  let fs := ds * 2 in
  let fd := dd * 2 in
  EmitFpuRType COP1 FMT_L F0 fs fd COP1_CVT_D.

Definition cvtsd (fd : FRegister) (ds : DRegister) : AsmM unit :=
  let fs := ds * 2 in
  EmitFpuRType COP1 FMT_D F0 fs fd COP1_CVT_S.

Definition cvtwd (fd : FRegister) (ds : DRegister) : AsmM unit :=
  let fs := ds * 2 in
  EmitFpuRType COP1 FMT_D F0 fs fd COP1_CVT_W.

Definition div (rs rt : Register) : AsmM unit :=
  EmitRType SPECIAL rs rt R0 0 DIV.

Definition divd (dd ds dt : DRegister) : AsmM unit :=
  let fd := dd * 2 in
  let fs := ds * 2 in
  let ft := dt * 2 in
  EmitFpuRType COP1 FMT_D ft fs fd COP1_DIV.

Definition divu (rs rt : Register) : AsmM unit :=
  EmitRType SPECIAL rs rt R0 0 DIVU.

Definition jalr (rs rd : Register) : AsmM unit :=
  aassert (negb (rs =? rd));;
  assert_not_in_delay_slot;;
  EmitRType SPECIAL rs R0 rd 0 JALR;;
  EmitBranchDelayNop.

Definition jr (rs : Register) : AsmM unit :=
  assert_not_in_delay_slot;;
  EmitRType SPECIAL rs R0 R0 0 JR;;
  EmitBranchDelayNop.

Definition lb (rt : Register) (addr : Address) : AsmM unit :=
  EmitLoadStore LB rt addr.

Definition lbu (rt : Register) (addr : Address) : AsmM unit :=
  EmitLoadStore LBU rt addr.

Definition ldc1 (dt : DRegister) (addr : Address) : AsmM unit :=
  let ft := dt * 2 in
  EmitFpuLoadStore LDC1 ft addr.

Definition lh (rt : Register) (addr : Address) : AsmM unit :=
  EmitLoadStore LH rt addr.

Definition lhu (rt : Register) (addr : Address) : AsmM unit :=
  EmitLoadStore LHU rt addr.

Definition lw (rt : Register) (addr : Address) : AsmM unit :=
  EmitLoadStore LW rt addr.

Definition lwc1 (ft : FRegister) (addr : Address) : AsmM unit :=
  EmitFpuLoadStore LWC1 ft addr.

Definition madd (rs rt : Register) : AsmM unit :=
  EmitRType SPECIAL2 rs rt R0 0 MADD.

Definition maddu (rs rt : Register) : AsmM unit :=
  EmitRType SPECIAL2 rs rt R0 0 MADDU.

Definition mfc1 (rt : Register) (fs : FRegister) : AsmM unit :=
  Emit (s32 ((Opcode_value COP1 <<< kOpcodeShift) .| (Cop1Sub_value COP1_MF <<< kCop1SubShift) .| (rt <<< kRtShift) .| (fs <<< kFsShift))).

Definition mfhi (rd : Register) : AsmM unit :=
  EmitRType SPECIAL R0 R0 rd 0 MFHI.

Definition mflo (rd : Register) : AsmM unit :=
  EmitRType SPECIAL R0 R0 rd 0 MFLO.

Definition movd (dd ds : DRegister) : AsmM unit :=
  let fd := dd * 2 in
  let fs := ds * 2 in
  EmitFpuRType COP1 FMT_D F0 fs fd COP1_MOV.

Definition movf (rd rs : Register) : AsmM unit :=
  EmitRType SPECIAL rs R0 rd 0 MOVCI.

Definition movn (rd rs rt : Register) : AsmM unit :=
  EmitRType SPECIAL rs rt rd 0 MOVN.

Definition movt (rd rs : Register) : AsmM unit :=
  EmitRType SPECIAL rs R1 rd 0 MOVCI.

Definition movz (rd rs rt : Register) : AsmM unit :=
  EmitRType SPECIAL rs rt rd 0 MOVZ.

Definition movs (fd fs : FRegister) : AsmM unit :=
  EmitFpuRType COP1 FMT_S F0 fs fd COP1_MOV.

Definition mtc1 (rt : Register) (fs : FRegister) : AsmM unit :=
  Emit (s32 ((Opcode_value COP1 <<< kOpcodeShift) .| (Cop1Sub_value COP1_MT <<< kCop1SubShift) .| (rt <<< kRtShift) .| (fs <<< kFsShift))).

Definition mthi (rs : Register) : AsmM unit :=
  EmitRType SPECIAL rs R0 R0 0 MTHI.

Definition mtlo (rs : Register) : AsmM unit :=
  EmitRType SPECIAL rs R0 R0 0 MTLO.

Definition muld (dd ds dt : DRegister) : AsmM unit :=
  let fd := dd * 2 in
  let fs := ds * 2 in
  let ft := dt * 2 in
  EmitFpuRType COP1 FMT_D ft fs fd COP1_MUL.

Definition mult (rs rt : Register) : AsmM unit :=
  EmitRType SPECIAL rs rt R0 0 MULT.

Definition multu (rs rt : Register) : AsmM unit :=
  EmitRType SPECIAL rs rt R0 0 MULTU.

Definition nor (rd rs rt : Register) : AsmM unit :=
  EmitRType SPECIAL rs rt rd 0 NOR.

Definition or_ (rd rs rt : Register) : AsmM unit :=
  EmitRType SPECIAL rs rt rd 0 OR.

Definition mov (rd rs : Register) : AsmM unit :=
  or_ rd rs ZR.

Definition sb (rt : Register) (addr : Address) : AsmM unit :=
  EmitLoadStore SB rt addr.

Definition sdc1 (dt : DRegister) (addr : Address) : AsmM unit :=
  let ft := dt * 2 in
  EmitFpuLoadStore SDC1 ft addr.

Definition sh (rt : Register) (addr : Address) : AsmM unit :=
  EmitLoadStore SH rt addr.

Definition sll (rd rt : Register) (sa : Z) : AsmM unit :=
  EmitRType SPECIAL R0 rt rd sa SLL.

Definition sllv (rd rt rs : Register) : AsmM unit :=
  EmitRType SPECIAL rs rt rd 0 SLLV.

Definition slt (rd rs rt : Register) : AsmM unit :=
  EmitRType SPECIAL rs rt rd 0 SLT.

Definition slti (rt rs : Register) (imm : Z) : AsmM unit :=
  aassert (Utils.IsInt kImmBits imm);;
  let imm_value := u16 imm in
  EmitIType SLTI rs rt imm_value.

Definition sltiu (rt rs : Register) (imm : Z) : AsmM unit :=
  aassert (Utils.IsInt kImmBits imm);;
  let imm_value := u16 imm in
  EmitIType SLTIU rs rt imm_value.

Definition sltu (rd rs rt : Register) : AsmM unit :=
  EmitRType SPECIAL rs rt rd 0 SLTU.

Definition sqrtd (dd ds : DRegister) : AsmM unit :=
  let fd := dd * 2 in
  let fs := ds * 2 in
  EmitFpuRType COP1 FMT_D F0 fs fd COP1_SQRT.

Definition sra (rd rt : Register) (sa : Z) : AsmM unit :=
  EmitRType SPECIAL R0 rt rd sa SRA.

Definition srav (rd rt rs : Register) : AsmM unit :=
  EmitRType SPECIAL rs rt rd 0 SRAV.

Definition srl (rd rt : Register) (sa : Z) : AsmM unit :=
  EmitRType SPECIAL R0 rt rd sa SRL.

Definition srlv (rd rt rs : Register) : AsmM unit :=
  EmitRType SPECIAL rs rt rd 0 SRLV.

Definition subd (dd ds dt : DRegister) : AsmM unit :=
  let fd := dd * 2 in
  let fs := ds * 2 in
  let ft := dt * 2 in
  EmitFpuRType COP1 FMT_D ft fs fd COP1_SUB.

Definition subu (rd rs rt : Register) : AsmM unit :=
  EmitRType SPECIAL rs rt rd 0 SUBU.

Definition sw (rt : Register) (addr : Address) : AsmM unit :=
  EmitLoadStore SW rt addr.

Definition swc1 (ft : FRegister) (addr : Address) : AsmM unit :=
  EmitFpuLoadStore SWC1 ft addr.

Definition xori (rt rs : Register) (imm : Z) : AsmM unit :=
  aassert (Utils.IsUint kImmBits imm);;
  let imm_value := u16 imm in
  EmitIType XORI rs rt imm_value.

Definition xor_ (rd rs rt : Register) : AsmM unit :=
  EmitRType SPECIAL rs rt rd 0 XOR.

End MipsAssembler.
