(* ===== verification/MipsMacros.v ===== *)
(** * vm/assembler_mips.h, vm/assembler_mips.cc: macro instructions

    The macros of [class Assembler], each a sequence of the instructions of
    MipsAssembler.v: immediates, additions that detect overflow, compare and
    branch, stack and frame handling.  An overload of the C++ method carries a
    suffix for its argument: [_imm] for an [Immediate], [_d] and [_f] for
    floating point registers. *)

From stdpp Require Import base numbers list.
From Stdlib Require Import ZArith Lia.
From S2P Require Import Prelude Utils BitField MipsConstants MipsAssembler.

Local Open Scope Z_scope.
Local Open Scope mach_scope.

Module MipsMacros.
Import Mips MipsAssembler.
Local Open Scope asm_scope.

(** ** Immediates *)

Definition LoadImmediate (rd : Register) (value : Z) : AsmM unit :=
  assert_not_in_delay_slot;;
  if Utils.IsInt kImmBits value then addiu rd ZR value
  else
    let low := u16 (Utils.Low16Bits value) in
    let high := u16 (Utils.High16Bits value) in
    lui rd high;;
    if negb (low =? 0) then ori rd rd low else aret ().

(** A [double] is its 64 bits, a [float] its 32 bits. *)
Definition LoadImmediate_d (rd : DRegister) (value : Z) : AsmM unit :=
  assert_not_in_delay_slot;;
  let frd := rd * 2 in
  let ival := s64 value in
  let low := Utils.Low32Bits ival in
  let high := Utils.High32Bits ival in
  (if negb (low =? 0) then LoadImmediate TMP low;; mtc1 TMP frd else mtc1 ZR frd);;
  if negb (high =? 0) then LoadImmediate TMP high;; mtc1 TMP (frd + 1) else mtc1 ZR (frd + 1).

Definition LoadImmediate_f (rd : FRegister) (value : Z) : AsmM unit :=
  assert_not_in_delay_slot;;
  let ival := s32 value in
  if ival =? 0 then mtc1 ZR rd else LoadImmediate TMP ival;; mtc1 TMP rd.

Definition AddImmediate (rd rs : Register) (value : Z) : AsmM unit :=
  assert_not_in_delay_slot;;
  if (value =? 0) && (rd =? rs) then aret ()
  else if Utils.IsInt kImmBits value then addiu rd rs value
  else LoadImmediate TMP value;; addu rd rs TMP.

Definition AndImmediate (rd rs : Register) (imm : Z) : AsmM unit :=
  assert_not_in_delay_slot;;
  if imm =? 0 then mov rd ZR
  else if Utils.IsUint kImmBits imm then andi rd rs imm
  else LoadImmediate TMP imm;; and_ rd rs TMP.

Definition OrImmediate (rd rs : Register) (imm : Z) : AsmM unit :=
  assert_not_in_delay_slot;;
  if imm =? 0 then mov rd rs
  else if Utils.IsUint kImmBits imm then ori rd rs imm
  else LoadImmediate TMP imm;; or_ rd rs TMP.

Definition XorImmediate (rd rs : Register) (imm : Z) : AsmM unit :=
  assert_not_in_delay_slot;;
  if imm =? 0 then mov rd rs
  else if Utils.IsUint kImmBits imm then xori rd rs imm
  else LoadImmediate TMP imm;; xor_ rd rs TMP.

(** ** Overflow detection *)

Definition AdduDetectOverflow (rd rs rt ro scratch : Register) : AsmM unit :=
  assert_not_in_delay_slot;;
  aassert (negb (rd =? ro));;
  aassert (negb (rd =? TMP));;
  aassert (negb (ro =? TMP));;
  aassert (negb (ro =? rs));;
  aassert (negb (ro =? rt));;
  rt ← (if (rs =? rt) && (rd =? rs) then
          aassert (negb (scratch =? kNoRegister));;
          aassert (negb (scratch =? TMP));;
          aassert (negb (rd =? scratch));;
          aassert (negb (ro =? scratch));;
          aassert (negb (rs =? scratch));;
          aassert (negb (rt =? scratch));;
          mov scratch rt;;
          aret scratch
        else aret rt);
  if rd =? rs then
    mov TMP rs;;
    addu rd rs rt;;
    xor_ TMP rd TMP;;
    xor_ ro rd rt;;
    and_ ro ro TMP
  else if rd =? rt then
    mov TMP rt;;
    addu rd rs rt;;
    xor_ TMP rd TMP;;
    xor_ ro rd rs;;
    and_ ro ro TMP
  else
    addu rd rs rt;;
    xor_ ro rd rs;;
    xor_ TMP rd rt;;
    and_ ro TMP ro.

Definition AddImmediateDetectOverflow (rd rs : Register) (imm : Z) (ro scratch : Register) : AsmM unit :=
  assert_not_in_delay_slot;;
  LoadImmediate rd imm;;
  AdduDetectOverflow rd rs rd ro scratch.

Definition SubuDetectOverflow (rd rs rt ro : Register) : AsmM unit :=
  assert_not_in_delay_slot;;
  aassert (negb (rd =? ro));;
  aassert (negb (rd =? TMP));;
  aassert (negb (ro =? TMP));;
  aassert (negb (ro =? rs));;
  aassert (negb (ro =? rt));;
  aassert (negb (rs =? TMP));;
  aassert (negb (rt =? TMP));;
  if rs =? rt then
    mov rd ZR;;
    mov ro ZR
  else if rd =? rs then
    mov TMP rs;;
    subu rd rs rt;;
    xor_ ro rd TMP;;
    xor_ TMP TMP rs;;
    and_ ro TMP ro
  else if rd =? rt then
    mov TMP rt;;
    subu rd rs rt;;
    xor_ ro rd rs;;
    xor_ TMP rs TMP;;
    and_ ro TMP ro
  else
    subu rd rs rt;;
    xor_ ro rd rs;;
    xor_ TMP rs rt;;
    and_ ro TMP ro.

Definition SubImmediateDetectOverflow (rd rs : Register) (imm : Z) (ro : Register) : AsmM unit :=
  assert_not_in_delay_slot;;
  LoadImmediate rd imm;;
  SubuDetectOverflow rd rs rd ro.

(** ** Compare and branch *)

Definition BranchOnCondition (cond : Condition) (l : Label) : AsmM Label :=
  assert_not_in_delay_slot;;
  let left := MipsAssembler.left cond in
  let right := MipsAssembler.right cond in
  let imm := MipsAssembler.imm cond in
  match rel_op cond with
  | Some NV => aret l
  | Some AL => b l
  | Some EQ =>
      if left =? IMM then addiu AT ZR imm;; beq AT right l
      else if right =? IMM then addiu AT ZR imm;; beq left AT l
      else beq left right l
  | Some NE =>
      if left =? IMM then addiu AT ZR imm;; bne AT right l
      else if right =? IMM then addiu AT ZR imm;; bne left AT l
      else bne left right l
  | Some GT =>
      if left =? ZR then bltz right l
      else if right =? ZR then bgtz left l
      else if left =? IMM then slti AT right imm;; bne AT ZR l
      else if right =? IMM then slti AT left (imm + 1);; beq AT ZR l
      else slt AT right left;; bne AT ZR l
  | Some GE =>
      if left =? ZR then blez right l
      else if right =? ZR then bgez left l
      else if left =? IMM then slti AT right (imm + 1);; bne AT ZR l
      else if right =? IMM then slti AT left imm;; beq AT ZR l
      else slt AT left right;; beq AT ZR l
  | Some LT =>
      if left =? ZR then bgtz right l
      else if right =? ZR then bltz left l
      else if left =? IMM then slti AT right (imm + 1);; beq AT ZR l
      else if right =? IMM then slti AT left imm;; bne AT ZR l
      else slt AT left right;; bne AT ZR l
  | Some LE =>
      if left =? ZR then bgez right l
      else if right =? ZR then blez left l
      else if left =? IMM then slti AT right imm;; beq AT ZR l
      else if right =? IMM then slti AT left (imm + 1);; bne AT ZR l
      else slt AT right left;; beq AT ZR l
  | Some UGT =>
      aassert (negb (left =? IMM) && negb (right =? IMM));;
      if left =? ZR then aret l
      else if right =? ZR then bne left ZR l
      else sltu AT right left;; bne AT ZR l
  | Some UGE =>
      aassert (negb (left =? IMM) && negb (right =? IMM));;
      if left =? ZR then beq right ZR l
      else if right =? ZR then beq ZR ZR l
      else sltu AT left right;; beq AT ZR l
  | Some ULT =>
      aassert (negb (left =? IMM) && negb (right =? IMM));;
      if left =? ZR then bne right ZR l
      else if right =? ZR then aret l
      else sltu AT left right;; bne AT ZR l
  | Some ULE =>
      aassert (negb (left =? IMM) && negb (right =? IMM));;
      if left =? ZR then beq ZR ZR l
      else if right =? ZR then beq left ZR l
      else sltu AT right left;; beq AT ZR l
  | _ => afail AsmUnreachable
  end.

Definition BranchEqual (rd rn : Register) (l : Label) : AsmM Label := beq rd rn l.

Definition BranchEqual_imm (rd : Register) (imm : Z) (l : Label) : AsmM Label :=
  assert_not_in_delay_slot;;
  if imm =? 0 then beq rd ZR l
  else aassert (negb (rd =? CMPRES2));; LoadImmediate CMPRES2 imm;; beq rd CMPRES2 l.

Definition BranchNotEqual (rd rn : Register) (l : Label) : AsmM Label := bne rd rn l.

Definition BranchNotEqual_imm (rd : Register) (imm : Z) (l : Label) : AsmM Label :=
  assert_not_in_delay_slot;;
  if imm =? 0 then bne rd ZR l
  else aassert (negb (rd =? CMPRES2));; LoadImmediate CMPRES2 imm;; bne rd CMPRES2 l.

Definition BranchSignedGreater (rd rs : Register) (l : Label) : AsmM Label :=
  assert_not_in_delay_slot;;
  slt CMPRES2 rs rd;;
  bne CMPRES2 ZR l.

Definition BranchSignedGreater_imm (rd : Register) (imm : Z) (l : Label) : AsmM Label :=
  assert_not_in_delay_slot;;
  if imm =? 0 then bgtz rd l
  else if Utils.IsInt kImmBits (imm + 1) then slti CMPRES2 rd (imm + 1);; beq CMPRES2 ZR l
  else
    aassert (negb (rd =? CMPRES2));;
    LoadImmediate CMPRES2 imm;;
    BranchSignedGreater rd CMPRES2 l.

Definition BranchUnsignedGreater (rd rs : Register) (l : Label) : AsmM Label :=
  assert_not_in_delay_slot;;
  sltu CMPRES2 rs rd;;
  bne CMPRES2 ZR l.

Definition BranchUnsignedGreater_imm (rd : Register) (imm : Z) (l : Label) : AsmM Label :=
  assert_not_in_delay_slot;;
  if imm =? 0 then BranchNotEqual_imm rd 0 l
  else if negb (imm =? -1) && Utils.IsInt kImmBits (imm + 1) then
    sltiu CMPRES2 rd (imm + 1);; beq CMPRES2 ZR l
  else
    aassert (negb (rd =? CMPRES2));;
    LoadImmediate CMPRES2 imm;;
    BranchUnsignedGreater rd CMPRES2 l.

Definition BranchSignedGreaterEqual (rd rs : Register) (l : Label) : AsmM Label :=
  assert_not_in_delay_slot;;
  slt CMPRES2 rd rs;;
  beq CMPRES2 ZR l.

Definition BranchSignedGreaterEqual_imm (rd : Register) (imm : Z) (l : Label) : AsmM Label :=
  assert_not_in_delay_slot;;
  if imm =? 0 then bgez rd l
  else if Utils.IsInt kImmBits imm then slti CMPRES2 rd imm;; beq CMPRES2 ZR l
  else
    aassert (negb (rd =? CMPRES2));;
    LoadImmediate CMPRES2 imm;;
    BranchSignedGreaterEqual rd CMPRES2 l.

Definition BranchUnsignedGreaterEqual (rd rs : Register) (l : Label) : AsmM Label :=
  assert_not_in_delay_slot;;
  sltu CMPRES2 rd rs;;
  beq CMPRES2 ZR l.

Definition BranchUnsignedGreaterEqual_imm (rd : Register) (imm : Z) (l : Label) : AsmM Label :=
  assert_not_in_delay_slot;;
  if imm =? 0 then b l
  else if Utils.IsInt kImmBits imm then sltiu CMPRES2 rd imm;; beq CMPRES2 ZR l
  else
    aassert (negb (rd =? CMPRES2));;
    LoadImmediate CMPRES2 imm;;
    BranchUnsignedGreaterEqual rd CMPRES2 l.

Definition BranchSignedLess (rd rs : Register) (l : Label) : AsmM Label :=
  assert_not_in_delay_slot;;
  BranchSignedGreater rs rd l.

Definition BranchSignedLess_imm (rd : Register) (imm : Z) (l : Label) : AsmM Label :=
  assert_not_in_delay_slot;;
  if imm =? 0 then bltz rd l
  else if Utils.IsInt kImmBits imm then slti CMPRES2 rd imm;; bne CMPRES2 ZR l
  else
    aassert (negb (rd =? CMPRES2));;
    LoadImmediate CMPRES2 imm;;
    BranchSignedGreater CMPRES2 rd l.

Definition BranchUnsignedLess (rd rs : Register) (l : Label) : AsmM Label :=
  assert_not_in_delay_slot;;
  BranchUnsignedGreater rs rd l.

Definition BranchUnsignedLess_imm (rd : Register) (imm : Z) (l : Label) : AsmM Label :=
  assert_not_in_delay_slot;;
  if imm =? 0 then aret l
  else if Utils.IsInt kImmBits imm then sltiu CMPRES2 rd imm;; bne CMPRES2 ZR l
  else
    aassert (negb (rd =? CMPRES2));;
    LoadImmediate CMPRES2 imm;;
    BranchUnsignedGreater CMPRES2 rd l.

Definition BranchSignedLessEqual (rd rs : Register) (l : Label) : AsmM Label :=
  assert_not_in_delay_slot;;
  BranchSignedGreaterEqual rs rd l.

Definition BranchSignedLessEqual_imm (rd : Register) (imm : Z) (l : Label) : AsmM Label :=
  assert_not_in_delay_slot;;
  if imm =? 0 then blez rd l
  else if Utils.IsInt kImmBits (imm + 1) then slti CMPRES2 rd (imm + 1);; bne CMPRES2 ZR l
  else
    aassert (negb (rd =? CMPRES2));;
    LoadImmediate CMPRES2 imm;;
    BranchSignedGreaterEqual CMPRES2 rd l.

Definition BranchUnsignedLessEqual (rd rs : Register) (l : Label) : AsmM Label :=
  assert_not_in_delay_slot;;
  BranchUnsignedGreaterEqual rs rd l.

Definition BranchUnsignedLessEqual_imm (rd : Register) (imm : Z) (l : Label) : AsmM Label :=
  assert_not_in_delay_slot;;
  if imm =? 0 then beq rd ZR l
  else if negb (imm =? -1) && Utils.IsInt kImmBits (imm + 1) then
    sltiu CMPRES2 rd (imm + 1);; bne CMPRES2 ZR l
  else
    aassert (negb (rd =? CMPRES2));;
    LoadImmediate CMPRES2 imm;;
    BranchUnsignedGreaterEqual CMPRES2 rd l.

(** ** Stack, frames and memory *)

Definition Drop (stack_elements : Z) : AsmM unit :=
  aassert (stack_elements >=? 0);;
  if stack_elements >? 0 then addiu SP SP (stack_elements * kWordSize) else aret ().

Definition Push (rt : Register) : AsmM unit :=
  assert_not_in_delay_slot;;
  addiu SP SP (- kWordSize);;
  sw rt (mkAddress SP 0).

Definition Pop (rt : Register) : AsmM unit :=
  assert_not_in_delay_slot;;
  lw rt (mkAddress SP 0);;
  addiu SP SP kWordSize.

Definition Ret : AsmM unit := jr RA.

Definition SmiTag (dst src : Register) : AsmM unit := sll dst src kSmiTagSize.
Definition SmiUntag (dst src : Register) : AsmM unit := sra dst src kSmiTagSize.

Definition LoadFromOffset (reg base : Register) (offset : Z) : AsmM unit :=
  assert_not_in_delay_slot;;
  if Utils.IsInt kImmBits offset then lw reg (mkAddress base offset)
  else
    LoadImmediate TMP offset;;
    addu TMP base TMP;;
    lw reg (mkAddress TMP 0).

Definition LoadFieldFromOffset (reg base : Register) (offset : Z) : AsmM unit :=
  LoadFromOffset reg base (offset - kHeapObjectTag).

Definition StoreToOffset (reg base : Register) (offset : Z) : AsmM unit :=
  assert_not_in_delay_slot;;
  if Utils.IsInt kImmBits offset then sw reg (mkAddress base offset)
  else
    LoadImmediate TMP offset;;
    addu TMP base TMP;;
    sw reg (mkAddress TMP 0).

Definition StoreFieldToOffset (reg base : Register) (offset : Z) : AsmM unit :=
  StoreToOffset reg base (offset - kHeapObjectTag).

Definition StoreDToOffset (reg : DRegister) (base : Register) (offset : Z) : AsmM unit :=
  assert_not_in_delay_slot;;
  let lo := reg * 2 in
  let hi := reg * 2 + 1 in
  swc1 lo (mkAddress base offset);;
  swc1 hi (mkAddress base (offset + kWordSize)).

Definition LoadDFromOffset (reg : DRegister) (base : Register) (offset : Z) : AsmM unit :=
  assert_not_in_delay_slot;;
  let lo := reg * 2 in
  let hi := reg * 2 + 1 in
  lwc1 lo (mkAddress base offset);;
  lwc1 hi (mkAddress base (offset + kWordSize)).

Definition GetNextPC (dest temp : Register) : AsmM unit :=
  (if negb (temp =? kNoRegister) then mov temp RA else aret ());;
  EmitRegImmType REGIMM R0 BGEZAL 1;;
  mov dest RA;;
  if negb (temp =? kNoRegister) then mov RA temp else aret ().

Definition LoadWordFromPoolOffset (rd : Register) (offset : Z) (pp : Register) : AsmM unit :=
  a ← aget;
  aassert (negb (pp =? PP) || constant_pool_allowed_ a);;
  assert_not_in_delay_slot;;
  aassert (negb (rd =? pp));;
  if CanHoldOffset offset then lw rd (mkAddress pp offset)
  else
    let offset_low := s16 (Utils.Low16Bits offset) in
    let offset := s32 (offset - offset_low) in
    let offset_high := u16 (Utils.High16Bits offset) in
    if negb (offset_high =? 0) then
      lui rd offset_high;;
      addu rd rd pp;;
      lw rd (mkAddress rd offset_low)
    else lw rd (mkAddress pp offset_low).

Definition EnterFrame : AsmM unit :=
  assert_not_in_delay_slot;;
  addiu SP SP (-2 * kWordSize);;
  sw RA (mkAddress SP (1 * kWordSize));;
  sw FP (mkAddress SP (0 * kWordSize));;
  mov FP SP.

Definition LeaveFrameAndReturn : AsmM unit :=
  assert_not_in_delay_slot;;
  mov SP FP;;
  lw RA (mkAddress SP (1 * kWordSize));;
  lw FP (mkAddress SP (0 * kWordSize));;
  Ret;;
  delay_slot;;
  addiu SP SP (2 * kWordSize).

(** [ReserveAlignedFrameSpace]; [alignment] is [OS::ActivationFrameAlignment()]. *)
Definition ReserveAlignedFrameSpace (alignment frame_space : Z) : AsmM unit :=
  assert_not_in_delay_slot;;
  AddImmediate SP SP (- frame_space);;
  if alignment >? 1 then
    LoadImmediate TMP (Z.lnot (alignment - 1));;
    and_ SP SP TMP
  else aret ().

End MipsMacros.
