(* ===== verification/MipsInvariant.v ===== *)
(** * The simulator keeps its state well formed

    [sim_wf]: every register holds a 32-bit value, every byte of memory 8 bits.
    Each operation of simulator_mips.cc preserves it, and so do one
    instruction, its delay slot and the dispatch loop, provided the host
    functions the code calls do ([HostOk]).  The recursion between
    [InstructionDecode] and [ExecuteDelaySlot] ends after one delay slot. *)

From stdpp Require Import base numbers list gmap.
From Stdlib Require Import ZArith Lia Btauto.
From S2P Require Import Prelude Utils Double MipsConstants MipsSimulator.

Local Open Scope Z_scope.
Local Open Scope mach_scope.

Module MipsInvariant.
Import Mips MipsSimulator.

Record sim_wf (s : Simulator) : Prop := {
  wf_hi : isS 32 (hi_reg_ s);
  wf_lo : isS 32 (lo_reg_ s);
  wf_registers_length : length (registers_ s) = 32%nat;
  wf_registers : Forall (isS 32) (registers_ s);
  wf_fregisters_length : length (fregisters_ s) = 32%nat;
  wf_fregisters : Forall (isS 32) (fregisters_ s);
  wf_fcsr : isS 32 (fcsr_ s);
  wf_pc : isU 32 (pc_ s);
  wf_icount : isU 64 (icount_ s);
  wf_mem : map_Forall (fun _ b => isU 8 b) (mem s)
}.

Definition outcome_wf {A} (o : host_outcome A) : Prop :=
  match o with Returned _ s | Threw s => sim_wf s end.

(** What the simulator relies on: a host function gives back a well-formed state. *)
Class HostOk `{Host} := {
  runtime_call_ok t a0 a1 a2 a3 s o :
    sim_wf s -> runtime_call t a0 a1 a2 a3 s = Ok o -> outcome_wf o;
  leaf_runtime_call_ok t a0 a1 a2 a3 s o :
    sim_wf s -> leaf_runtime_call t a0 a1 a2 a3 s = Ok o -> outcome_wf o;
  leaf_float_runtime_call_ok t d6 d7 s o :
    sim_wf s -> leaf_float_runtime_call t d6 d7 s = Ok o -> outcome_wf o;
  bootstrap_native_call_ok t a0 s o :
    sim_wf s -> bootstrap_native_call t a0 s = Ok o -> outcome_wf o;
  native_call_ok t a0 a1 s o :
    sim_wf s -> native_call t a0 a1 s = Ok o -> outcome_wf o
}.

(** ** Values of 32 bits *)

Lemma isS_shiftr w a k : 0 < w -> 0 <= k -> isS w a -> isS w (a >>> k).
Proof.
  unfold isS. intros Hw Hk Ha. rewrite Z.shiftr_div_pow2 by lia.
  pose proof (pow2_pos k Hk). pose proof (pow2_pos (w - 1) ltac:(lia)).
  split; [apply Z.div_le_lower_bound; nia|apply Z.div_lt_upper_bound; nia].
Qed.

Lemma isS_quot a b :
  isS 32 a -> isS 32 b -> b <> 0 -> ~ (a = - 2 ^ 31 /\ b = -1) -> isS 32 (Z.quot a b).
Proof.
  unfold isS. change (2 ^ (32 - 1)) with 2147483648. change (2 ^ 31) with 2147483648.
  intros Ha Hb Hb0 Hne.
  pose proof (Z.quot_rem a b Hb0) as E. pose proof (Z.rem_bound_abs a b Hb0).
  pose proof (Z.rem_sign_mul a b Hb0). nia.
Qed.

Lemma isS_rem a b : isS 32 a -> isS 32 b -> b <> 0 -> isS 32 (Z.rem a b).
Proof.
  unfold isS. change (2 ^ (32 - 1)) with 2147483648. intros Ha Hb Hb0.
  pose proof (Z.rem_bound_abs a b Hb0). pose proof (Z.rem_sign_mul a b Hb0). nia.
Qed.

Lemma Bits_isU instr sh n : 0 <= n -> isU n (Bits instr sh n).
Proof.
  intros. unfold Bits. rewrite Z.shiftl_1_l, <- ones_pow2, land_ones_wrapU by lia.
  apply wrapU_range. lia.
Qed.

Lemma clo_loop_bound fuel v c : c <= clo_loop fuel v c <= c + Z.of_nat fuel.
Proof.
  revert v c. induction fuel as [|fuel IH]; intros v c; simpl; [lia|].
  destruct (v <? 0); [|lia]. specialize (IH (s32 (v <<< 1)) (c + 1)). lia.
Qed.
Lemma clz_loop_bound fuel v c : c <= clz_loop fuel v c <= c + Z.of_nat fuel.
Proof.
  revert v c. induction fuel as [|fuel IH]; intros v c; simpl; [lia|].
  destruct (v >? 0); [|lia]. specialize (IH (s32 (v <<< 1)) (c + 1)). lia.
Qed.

(** ** Accessors *)

Lemma get_register_isS s r : sim_wf s -> isS 32 (get_register s r).
Proof.
  intros H. unfold get_register. destruct (r =? R0); [done|].
  destruct (registers_ s !! Z.to_nat r) as [v|] eqn:E; simpl; [|done].
  eapply Forall_lookup_1; [apply wf_registers|]; eauto.
Qed.

Lemma freg_isS s i : sim_wf s -> isS 32 (default 0 (fregisters_ s !! i)).
Proof.
  intros H. destruct (fregisters_ s !! i) as [v|] eqn:E; simpl; [|done].
  eapply Forall_lookup_1; [apply wf_fregisters|]; eauto.
Qed.

Lemma get_fregister_isS s r v : sim_wf s -> get_fregister s r = Ok v -> isS 32 v.
Proof.
  intros H. unfold get_fregister. intros (?&_&[= <-])%bind_ok. by apply freg_isS.
Qed.

Local Ltac wf_record := intros [] ?; constructor; simpl; auto.

Lemma with_hi_wf s v : sim_wf s -> isS 32 v -> sim_wf (with_hi s v).
Proof. wf_record. Qed.
Lemma with_lo_wf s v : sim_wf s -> isS 32 v -> sim_wf (with_lo s v).
Proof. wf_record. Qed.
Lemma with_fcsr_wf s v : sim_wf s -> isS 32 v -> sim_wf (with_fcsr s v).
Proof. wf_record. Qed.
Lemma with_pc_wf s v : sim_wf s -> isU 32 v -> sim_wf (with_pc s v).
Proof. wf_record. Qed.
Lemma with_icount_wf s v : sim_wf s -> isU 64 v -> sim_wf (with_icount s v).
Proof. wf_record. Qed.
Lemma with_mem_wf s m : sim_wf s -> map_Forall (fun _ b => isU 8 b) m -> sim_wf (with_mem s m).
Proof. wf_record. Qed.
Lemma with_delay_slot_wf s b : sim_wf s -> sim_wf (with_delay_slot s b).
Proof. intros []; constructor; auto. Qed.

Lemma set_register_wf s r v : sim_wf s -> isS 32 v -> sim_wf (set_register s r v).
Proof.
  intros [] ?. unfold set_register. destruct (negb _); constructor; simpl; auto.
  - by rewrite length_insert.
  - by apply Forall_insert.
Qed.

Lemma with_fregister_wf s i v :
  sim_wf s -> isS 32 v -> sim_wf (with_fregisters s (<[i := v]> (fregisters_ s))).
Proof.
  intros [] ?. constructor; simpl; auto.
  - by rewrite length_insert.
  - by apply Forall_insert.
Qed.

(** ** Computations that end in a well-formed state *)

Definition wfM (r : M Simulator) : Prop := match r with Ok s => sim_wf s | Err _ => True end.

Lemma wfM_ok s : sim_wf s -> wfM (Ok s).
Proof. done. Qed.
Lemma wfM_err e : wfM (Err e).
Proof. done. Qed.
Lemma wfM_bind {A} (m : M A) (f : A -> M Simulator) :
  (forall a, m = Ok a -> wfM (f a)) -> wfM (m ≫= f).
Proof. destruct m; simpl; auto. Qed.
Lemma wfM_bind_wf (m : M Simulator) (f : Simulator -> M Simulator) :
  wfM m -> (forall s, sim_wf s -> wfM (f s)) -> wfM (m ≫= f).
Proof. destruct m; simpl; auto. Qed.

Lemma set_fregister_wf s r v : sim_wf s -> isS 32 v -> wfM (set_fregister s r v).
Proof. intros. do 2 (apply wfM_bind; intros ? _). by apply with_fregister_wf. Qed.

Lemma set_fregister_long_wf s r v : sim_wf s -> wfM (set_fregister_long s r v).
Proof.
  intros. do 3 (apply wfM_bind; intros ? _). simpl.
  apply (with_fregister_wf (with_fregisters s _)); [apply with_fregister_wf|]; auto with mach.
  all: apply wrapS_range; lia.
Qed.

Lemma set_dregister_bits_wf s r v : sim_wf s -> wfM (set_dregister_bits s r v).
Proof.
  intros. do 2 (apply wfM_bind; intros ? _).
  apply wfM_bind_wf; [|intros]; apply set_fregister_wf; auto; apply wrapS_range; lia.
Qed.

Lemma set_fcsr_bit_wf s cc v : sim_wf s -> sim_wf (set_fcsr_bit s cc v).
Proof. intros. unfold set_fcsr_bit. destruct v; apply with_fcsr_wf; auto; apply wrapS_range; lia. Qed.

(** ** Memory *)

Lemma load_le_isU m addr n v :
  map_Forall (fun _ b => isU 8 b) m -> load_le m addr n = Ok v -> isU (8 * Z.of_nat n) v.
Proof.
  intros Hm. revert addr v. induction n as [|n IH]; intros addr v; simpl.
  { intros [= <-]. done. }
  destruct (m !! addr) as [b|] eqn:E; [|done].
  intros (r&Hr&[= <-])%bind_ok. apply IH in Hr. apply Hm in E. simpl in E.
  rewrite Z.lor_comm, lor_shiftl_add by (done || lia).
  replace (8 * Z.of_nat (S n)) with (8 + 8 * Z.of_nat n) by lia.
  unfold isU in *. rewrite Z.pow_add_r by lia. nia.
Qed.

Lemma store_le_wf m addr n v m' :
  map_Forall (fun _ b => isU 8 b) m -> store_le m addr n v = Ok m' -> map_Forall (fun _ b => isU 8 b) m'.
Proof.
  revert m addr v. induction n as [|n IH]; intros m addr v Hm; simpl; [by intros [= <-]|].
  destruct (m !! addr); [|done]. apply IH. apply map_Forall_insert_2; [|done].
  apply wrapU_range; lia.
Qed.

Lemma ReadB_isS s a v : sim_wf s -> ReadB s a = Ok v -> isS 32 v.
Proof.
  intros ? (b&_&[= <-])%bind_ok. pose proof (wrapS_range 8 b ltac:(lia)). unfold isS in *. lia.
Qed.
Lemma ReadBU_isS s a v : sim_wf s -> ReadBU s a = Ok v -> isS 32 v.
Proof. intros H Hr. apply load_le_isU in Hr; [|apply wf_mem, H]. apply (isS_of_isU 8); [lia|done]. Qed.
Lemma ReadH_isS s a v : sim_wf s -> ReadH s a = Ok v -> isS 32 v.
Proof.
  intros ?. unfold ReadH. destruct (_ =? _); [|done]. intros (b&_&[= <-])%bind_ok.
  pose proof (wrapS_range 16 b ltac:(lia)). unfold isS in *. lia.
Qed.
Lemma ReadHU_isS s a v : sim_wf s -> ReadHU s a = Ok v -> isS 32 v.
Proof.
  intros H. unfold ReadHU. destruct (_ =? _); [|done]. intros Hr.
  apply load_le_isU in Hr; [|apply wf_mem, H]. apply (isS_of_isU 16); [lia|done].
Qed.
Lemma ReadW_isS s a v : sim_wf s -> ReadW s a = Ok v -> isS 32 v.
Proof.
  intros ?. unfold ReadW. destruct (_ =? _); [|done]. intros (b&_&[= <-])%bind_ok.
  apply wrapS_range; lia.
Qed.

(** Each of the four stores. *)
Lemma store_wf s a n v : sim_wf s -> wfM (m ← store_le (mem s) a n v; Ok (with_mem s m)).
Proof.
  intros H. apply wfM_bind. intros m Hm. apply with_mem_wf; [done|].
  eapply store_le_wf; [|done]. apply wf_mem, H.
Qed.
Lemma WriteB_wf s a v : sim_wf s -> wfM (WriteB s a v).
Proof. apply store_wf. Qed.
Lemma WriteH_wf s a v : sim_wf s -> wfM (WriteH s a v).
Proof. unfold WriteH. destruct (_ =? _); [apply store_wf|done]. Qed.
Lemma WriteW_wf s a v : sim_wf s -> wfM (WriteW s a v).
Proof. unfold WriteW. destruct (_ =? _); [apply store_wf|done]. Qed.
Lemma WriteD_wf s a v : sim_wf s -> wfM (WriteD s a v).
Proof. unfold WriteD. destruct (_ =? _); [apply store_wf|done]. Qed.

(** ** One instruction *)

Create HintDb wf.
#[export] Hint Constants Opaque : wf.
#[export] Hint Resolve get_register_isS wf_hi wf_lo with_hi_wf with_lo_wf with_pc_wf
  with_icount_wf with_delay_slot_wf set_register_wf set_fregister_wf set_fregister_long_wf
  set_fcsr_bit_wf WriteB_wf WriteH_wf WriteW_wf
  WriteD_wf isS_lnot : wf.
#[export] Hint Extern 1 (isS _ (wrapS _ _)) => (apply wrapS_range; lia) : wf.
#[export] Hint Extern 1 (isU _ (wrapU _ _)) => (apply wrapU_range; lia) : wf.
#[export] Hint Extern 1 (isS _ (_ .& _)) => (apply isS_land; [lia| |]) : wf.
#[export] Hint Extern 1 (isS _ (_ .| _)) => (apply isS_lor; [lia| |]) : wf.
#[export] Hint Extern 1 (isS _ (_ .^ _)) => (apply isS_lxor; [lia| |]) : wf.
#[export] Hint Extern 1 (isS _ (if _ then _ else _)) => case_match : wf.
#[export] Hint Extern 1 (isS _ (Zpos _)) => (split; done) : wf.
#[export] Hint Extern 1 (isS _ (Zneg _)) => (split; done) : wf.
#[export] Hint Extern 1 (isS _ Z0) => (split; done) : wf.
#[export] Hint Extern 1 (isS _ (- 2 ^ 31)) => (split; done) : wf.
#[export] Hint Extern 1 (isS _ (UImmField _)) =>
  (apply (isS_of_isU 16); [lia|apply (Bits_isU _ kImmShift kImmBits); done]) : wf.

Lemma sa_nonneg instr : 0 <= SaField instr.
Proof. apply (Bits_isU instr kSaShift kSaBits). done. Qed.
Lemma land31_nonneg v : 0 <= v .& 31.
Proof. apply Z.land_nonneg. lia. Qed.
#[export] Hint Resolve sa_nonneg land31_nonneg : wf.
#[export] Hint Extern 1 (isS _ (_ >>> _)) => (apply isS_shiftr; [lia| |]) : wf.

Lemma clo_isS v : isS 32 (clo_loop 32 v 0).
Proof. pose proof (clo_loop_bound 32 v 0). unfold isS. lia. Qed.
Lemma clz_isS v : isS 32 (clz_loop 32 v 0).
Proof. pose proof (clz_loop_bound 32 v 0). unfold isS. lia. Qed.
#[export] Hint Resolve clo_isS clz_isS : wf.

Section Preservation.
Context `{HostOk}.

Lemma zap_registers_wf s : sim_wf s -> sim_wf (zap_registers s).
Proof using. unfold zap_registers. generalize zapped_registers. intros l. revert s.
  induction l; simpl; auto 6 with wf. Qed.

Lemma zap_fregisters_wf n i v s : isS 32 v -> sim_wf s -> wfM (zap_fregisters n i v s).
Proof using.
  intros Hv. revert i s. induction n as [|n IH]; intros i s Hs; simpl; [done|].
  apply wfM_bind_wf; auto with wf.
Qed.

Lemma on_return_wf {A} (k : A -> Simulator -> M Simulator) o o' :
  outcome_wf o -> (forall v s, sim_wf s -> wfM (k v s)) -> on_return k o = Ok o' -> outcome_wf o'.
Proof using.
  intros Ho Hk. destruct o as [v s|s]; simpl; [|by intros [= <-]].
  intros (s'&Hs&[= <-])%bind_ok. specialize (Hk v s Ho). by rewrite Hs in Hk.
Qed.

Lemma zap_results_wf s : sim_wf s -> sim_wf (zap_results s).
Proof using. intros. unfold zap_results. auto with wf. Qed.

Lemma DoBreak_wf s instr : sim_wf s -> wfM (DoBreak s instr).
Proof using All.
  intros Hs. unfold DoBreak. destruct (_ =? _); [|done]. destruct (List.find _ _) as [r|]; [|done].
  apply wfM_bind. intros o Ho.
  assert (outcome_wf o) as Hw.
  { destruct (call_kind_ r); repeat (apply bind_ok in Ho as (?&?&Ho)); revert Ho; apply on_return_wf;
      eauto using runtime_call_ok, leaf_runtime_call_ok, leaf_float_runtime_call_ok,
        bootstrap_native_call_ok, native_call_ok.
    all: intros; unfold set_fregister_double, zap_results; auto 7 with wf;
      apply wfM_ok; auto 7 with wf. }
  destruct o as [v s'|s']; simpl in Hw; [|apply wfM_ok; auto with wf].
  apply wfM_bind_wf; [apply zap_fregisters_wf; auto using zap_registers_wf with wf|].
  intros. apply wfM_ok. auto with wf.
Qed.

Lemma Low32Bits_isS v : isS 32 (Utils.Low32Bits v).
Proof using. apply wrapS_range. lia. Qed.
Lemma High32Bits_isS v : isS 32 (Utils.High32Bits v).
Proof using. apply wrapS_range. lia. Qed.
#[local] Hint Resolve Low32Bits_isS High32Bits_isS : wf.

(** The quotient stays in range: the one overflow has a case of its own. *)
Lemma DIV_wf s a b :
  sim_wf s -> isS 32 a -> isS 32 b -> (b =? 0) = false ->
  (a =? s32 0x80000000) && (b =? s32 0xffffffff) = false ->
  sim_wf (with_hi (with_lo s (Z.quot a b)) (Z.rem a b)).
Proof using.
  intros Hs Ha Hb Hb0 Hov. apply Z.eqb_neq in Hb0.
  apply with_hi_wf; [apply with_lo_wf; [done|]|by apply isS_rem].
  apply isS_quot; try done. intros [-> ->]. by vm_compute in Hov.
Qed.

(** Walk a decoder down to its [Ok] leaves. *)
Ltac wfM_step :=
  match goal with
  | |- wfM (assert_ _ ≫= _) => apply wfM_bind; intros _ _
  | |- wfM (Ok _) => apply wfM_ok
  | |- wfM (Err _) => apply wfM_err
  | |- wfM (match ?x with _ => _ end) => destruct x eqn:?
  | |- wfM (_ ≫= _) => apply wfM_bind; intros ? ?
  | |- wfM (DoBreak _ _) => apply DoBreak_wf
  end.
(** The range of the value a computation returned. *)
Ltac ranges :=
  repeat match goal with
  | E : get_fregister _ _ = Ok _ |- _ => apply get_fregister_isS in E; [|assumption]
  | E : ReadB _ _ = Ok _ |- _ => apply ReadB_isS in E; [|assumption]
  | E : ReadBU _ _ = Ok _ |- _ => apply ReadBU_isS in E; [|assumption]
  | E : ReadH _ _ = Ok _ |- _ => apply ReadH_isS in E; [|assumption]
  | E : ReadHU _ _ = Ok _ |- _ => apply ReadHU_isS in E; [|assumption]
  | E : ReadW _ _ = Ok _ |- _ => apply ReadW_isS in E; [|assumption]
  end.
Ltac wfM_walk := cbv beta iota zeta; repeat wfM_step; ranges; auto 7 with wf.

Section Decoders.
Context (eds : Simulator -> M Simulator) (Heds : forall s, sim_wf s -> wfM (eds s)).

Lemma eds_wf s s' : sim_wf s -> eds s = Ok s' -> sim_wf s'.
Proof using Heds. intros Hs E. specialize (Heds s Hs). by rewrite E in Heds. Qed.

Lemma DecodeSpecial_wf s instr : sim_wf s -> wfM (DecodeSpecial eds s instr).
Proof using All.
  intros Hs. unfold DecodeSpecial.
  destruct (enum_of_Z _ _ _) as [f|]; [|apply wfM_err].
  destruct f; cbv beta iota zeta; repeat wfM_step.
  all: try match goal with |- context [Z.quot] => by apply DIV_wf; auto with wf end.
  all: try match goal with E : eds _ = Ok _ |- _ => apply eds_wf in E; [|auto with wf] end.
  all: auto 7 with wf.
Qed.

Lemma DecodeSpecial2_wf s instr : sim_wf s -> wfM (DecodeSpecial2 s instr).
Proof using.
  intros Hs. unfold DecodeSpecial2. destruct (enum_of_Z _ _ _) as [f|]; [|apply wfM_err].
  destruct f; wfM_walk.
Qed.

Lemma DoBranch_wf s instr taken likely : sim_wf s -> wfM (DoBranch eds s instr taken likely).
Proof using Heds.
  intros Hs. unfold DoBranch. apply wfM_bind; intros _ _.
  apply wfM_bind_wf; [destruct (_ && _); auto|]. intros s1 H1.
  apply wfM_bind_wf; [destruct (negb _); auto|]. intros. apply wfM_ok. auto with wf.
Qed.
#[local] Hint Resolve DoBranch_wf : wf.

Lemma DecodeRegImm_wf s instr : sim_wf s -> wfM (DecodeRegImm eds s instr).
Proof using Heds.
  intros Hs. unfold DecodeRegImm. destruct (RegImmFnField instr) as [[]|]; wfM_walk.
Qed.

Lemma DecodeCop1_wf s instr : sim_wf s -> wfM (DecodeCop1 eds s instr).
Proof using Heds.
  intros Hs. unfold DecodeCop1, set_fregister_double, set_fregister_float, get_fregister_float.
  destruct (HasFormat instr).
  - do 2 (apply wfM_bind; intros ? _).
    destruct (Cop1FunctionField instr) as [[]|]; wfM_walk.
  - destruct (Cop1SubField instr) as [[]|]; wfM_walk.
Qed.

#[local] Hint Resolve DecodeSpecial_wf DecodeSpecial2_wf DecodeRegImm_wf DecodeCop1_wf : wf.
Lemma InstructionDecode_body_wf s instr : sim_wf s -> wfM (InstructionDecode_body eds s instr).
Proof using All.
  intros Hs. unfold InstructionDecode_body, set_fregister_double. cbv zeta. apply wfM_bind_wf.
  - destruct (OpcodeField instr) as [[]|]; wfM_walk.
  - intros. apply wfM_ok. auto with wf.
Qed.
End Decoders.

Lemma ExecuteDelaySlot_with_wf decode s :
  (forall s instr, sim_wf s -> wfM (decode s instr)) -> sim_wf s -> wfM (ExecuteDelaySlot_with decode s).
Proof using.
  intros Hd Hs. unfold ExecuteDelaySlot_with. do 2 (apply wfM_bind; intros ? _).
  apply wfM_bind_wf; [apply Hd; auto with wf|]. intros. apply wfM_ok. auto with wf.
Qed.

Lemma InstructionDecode_upto_wf level s instr : sim_wf s -> wfM (InstructionDecode_upto level s instr).
Proof using All.
  revert s instr. induction level as [|level IH]; intros s instr Hs; cbn [InstructionDecode_upto];
    apply InstructionDecode_body_wf; try done; intros; apply ExecuteDelaySlot_with_wf; try done.
Qed.

Lemma InstructionDecode_wf s instr : sim_wf s -> wfM (InstructionDecode s instr).
Proof using All. apply InstructionDecode_upto_wf. Qed.

Lemma Step_wf s : sim_wf s -> wfM (Step s).
Proof using All.
  intros Hs. unfold Step. cbv zeta. destruct (IsIllegalAddress _); [apply wfM_err|].
  apply wfM_bind; intros ? _. apply InstructionDecode_wf. auto with wf.
Qed.

Lemma Execute_wf fuel s : sim_wf s -> wfM (Execute fuel s).
Proof using All.
  revert s. induction fuel as [|fuel IH]; intros s Hs; cbn [Execute]; destruct (_ =? _);
    [apply wfM_ok, Hs|apply wfM_err|apply wfM_ok, Hs|].
  apply wfM_bind_wf; [by apply Step_wf|done].
Qed.
End Preservation.

Lemma Simulator_new_wf stack_top hi lo m :
  isS 32 hi -> isS 32 lo -> map_Forall (fun _ b => isU 8 b) m -> sim_wf (Simulator_new stack_top hi lo m).
Proof.
  intros. constructor; simpl; try done.
  all: repeat (apply Forall_cons_2; [first [apply wrapS_range; lia|split; done]|]); apply Forall_nil_2.
Qed.

(** ** The depth of delay slots *)

Section Levels.
Context `{Host} (e1 e2 : Simulator -> M Simulator) (s : Simulator) (Hslot : delay_slot_ s = true).

(** In a delay slot every control transfer fails its assertion before it could
    execute a delay slot of its own. *)
Lemma DoBranch_in_slot instr taken likely :
  DoBranch e1 s instr taken likely = DoBranch e2 s instr taken likely.
Proof using Hslot. unfold DoBranch. by rewrite Hslot. Qed.

Lemma DecodeSpecial_in_slot instr : DecodeSpecial e1 s instr = DecodeSpecial e2 s instr.
Proof using Hslot.
  unfold DecodeSpecial. destruct (enum_of_Z _ _ _) as [[]|]; try reflexivity.
  all: rewrite Hslot; unfold assert_; cbn [negb]; repeat case_match; reflexivity.
Qed.

Lemma DecodeRegImm_in_slot instr : DecodeRegImm e1 s instr = DecodeRegImm e2 s instr.
Proof using Hslot.
  unfold DecodeRegImm, DoBranch, set_register.
  destruct (RegImmFnField instr) as [[]|]; try reflexivity.
  all: destruct (negb _); cbn [delay_slot_ with_registers]; rewrite Hslot; reflexivity.
Qed.

Lemma DecodeCop1_in_slot instr : DecodeCop1 e1 s instr = DecodeCop1 e2 s instr.
Proof using Hslot.
  unfold DecodeCop1. destruct (HasFormat instr); [reflexivity|].
  destruct (Cop1SubField instr) as [[]|]; try reflexivity. by rewrite !DoBranch_in_slot.
Qed.

Lemma InstructionDecode_body_in_slot instr :
  InstructionDecode_body e1 s instr = InstructionDecode_body e2 s instr.
Proof using Hslot.
  unfold InstructionDecode_body.
  rewrite DecodeSpecial_in_slot, DecodeRegImm_in_slot, DecodeCop1_in_slot, !DoBranch_in_slot.
  reflexivity.
Qed.
End Levels.


(** The decoders depend on the values of [ExecuteDelaySlot] only. *)
Section Extensionality.
Context `{Host} (e1 e2 : Simulator -> M Simulator) (He : forall s, e1 s = e2 s).

Lemma DoBranch_ext s instr taken likely :
  DoBranch e1 s instr taken likely = DoBranch e2 s instr taken likely.
Proof using He. unfold DoBranch. destruct taken, likely; cbn -[assert_];
  first [reflexivity|by setoid_rewrite He]. Qed.

Lemma DecodeSpecial_ext s instr : DecodeSpecial e1 s instr = DecodeSpecial e2 s instr.
Proof using He.
  unfold DecodeSpecial. destruct (enum_of_Z _ _ _) as [[]|]; try reflexivity; by setoid_rewrite He.
Qed.

Lemma InstructionDecode_body_ext s instr :
  InstructionDecode_body e1 s instr = InstructionDecode_body e2 s instr.
Proof using He.
  unfold InstructionDecode_body, DecodeRegImm, DecodeCop1. rewrite DecodeSpecial_ext.
  destruct (OpcodeField instr) as [[]|]; try reflexivity; rewrite ?DoBranch_ext; reflexivity.
Qed.
End Extensionality.

Lemma ExecuteDelaySlot_with_in_slot d1 d2 s :
  (forall s instr, delay_slot_ s = true -> d1 s instr = d2 s instr) ->
  ExecuteDelaySlot_with d1 s = ExecuteDelaySlot_with d2 s.
Proof.
  intros Hd. unfold ExecuteDelaySlot_with. destruct (assert_ _); [|done]. simpl.
  destruct (InstrAt _ _) as [instr|]; [|done]. simpl. by rewrite Hd.
Qed.

(** ** The decoder ends *)

(** A computation that does not run out of levels. *)
Definition ends {A} (m : M A) : Prop := m <> Err OutOfFuel.

(** The host functions end by themselves. *)
Class HostEnds `{Host} : Prop := {
  runtime_call_ends t a0 a1 a2 a3 s : ends (runtime_call t a0 a1 a2 a3 s);
  leaf_runtime_call_ends t a0 a1 a2 a3 s : ends (leaf_runtime_call t a0 a1 a2 a3 s);
  leaf_float_runtime_call_ends t d6 d7 s : ends (leaf_float_runtime_call t d6 d7 s);
  bootstrap_native_call_ends t a0 s : ends (bootstrap_native_call t a0 s);
  native_call_ends t a0 a1 s : ends (native_call t a0 a1 s)
}.

Lemma ends_bind {A B} (m : M A) (f : A -> M B) : ends m -> (forall a, ends (f a)) -> ends (m ≫= f).
Proof. intros Hm Hf. destruct m as [a|e]; [apply Hf|]. intros E. apply Hm. cbn in E. congruence. Qed.

Create HintDb ends.

Ltac ends_step :=
  match goal with
  | |- ends (Ok _) => discriminate
  | |- ends (Err _) => discriminate
  | |- ends (assert_ ?b) => destruct b; discriminate
  | |- ends (_ ≫= _) => apply ends_bind; [|intros ?]
  | |- ends (mret _) => discriminate
  | |- ends (let '(_, _) := ?p in _) => destruct p
  | |- ends (match ?x with _ => _ end) => destruct x
  | |- _ => solve [eauto with ends]
  end.
Ltac ends := cbv zeta; repeat (ends_step; cbv zeta).

Lemma set_fregister_ends s r v : ends (set_fregister s r v).
Proof. unfold set_fregister. ends. Qed.
Lemma get_fregister_ends s r : ends (get_fregister s r).
Proof. unfold get_fregister. ends. Qed.
#[export] Hint Resolve set_fregister_ends get_fregister_ends : ends.

Lemma set_fregister_long_ends s r v : ends (set_fregister_long s r v).
Proof. unfold set_fregister_long. ends. Qed.
Lemma get_fregister_long_ends s r : ends (get_fregister_long s r).
Proof. unfold get_fregister_long. ends. Qed.
#[export] Hint Resolve set_fregister_long_ends get_fregister_long_ends : ends.

Lemma load_le_ends m a n : ends (load_le m a n).
Proof. revert a. induction n as [|n IH]; intros a; cbn [load_le]; ends. Qed.
Lemma store_le_ends m a n v : ends (store_le m a n v).
Proof. revert m a v. induction n as [|n IH]; intros m a v; cbn [store_le]; ends. Qed.
#[export] Hint Resolve load_le_ends store_le_ends : ends.

Lemma zap_fregisters_ends n i z s : ends (zap_fregisters n i z s).
Proof. revert i s. induction n as [|n IH]; intros i s; cbn [zap_fregisters]; ends. Qed.
#[export] Hint Resolve zap_fregisters_ends : ends.

Section Ends.
Context `{HostEnds}.

Lemma DoBreak_ends s instr : ends (DoBreak s instr).
Proof.
  unfold DoBreak, on_return, get_fregister_double, set_fregister_double.
  pose proof runtime_call_ends. pose proof leaf_runtime_call_ends. pose proof leaf_float_runtime_call_ends.
  pose proof bootstrap_native_call_ends. pose proof native_call_ends. ends.
Qed.

Context (e : Simulator -> M Simulator) (He : forall s, ends (e s)).

Lemma DoBranch_ends s instr taken likely : ends (DoBranch e s instr taken likely).
Proof using He. unfold DoBranch. ends. Qed.

Lemma DecodeSpecial_ends s instr : ends (DecodeSpecial e s instr).
Proof using All. pose proof DoBreak_ends. unfold DecodeSpecial. ends. Qed.

Lemma DecodeSpecial2_ends s instr : ends (DecodeSpecial2 s instr).
Proof. unfold DecodeSpecial2. ends. Qed.

Lemma DecodeRegImm_ends s instr : ends (DecodeRegImm e s instr).
Proof using He. pose proof DoBranch_ends. unfold DecodeRegImm. ends. Qed.

Lemma DecodeCop1_ends s instr : ends (DecodeCop1 e s instr).
Proof using He.
  pose proof DoBranch_ends. unfold DecodeCop1, get_fregister_float, set_fregister_float, get_fregister_double, set_fregister_double. ends.
Qed.

Lemma InstructionDecode_body_ends s instr : ends (InstructionDecode_body e s instr).
Proof using All.
  pose proof DoBranch_ends. pose proof DecodeSpecial_ends. pose proof DecodeSpecial2_ends. pose proof DecodeRegImm_ends. pose proof DecodeCop1_ends.
  unfold InstructionDecode_body, effective_address, ReadB, ReadBU, ReadH, ReadHU, ReadW, ReadD, WriteB, WriteH, WriteW, WriteD,
    get_fregister_float, set_fregister_float, get_fregister_double, set_fregister_double. ends.
Qed.

Lemma ExecuteDelaySlot_with_ends d s :
  (forall s instr, delay_slot_ s = true -> ends (d s instr)) -> ends (ExecuteDelaySlot_with d s).
Proof.
  intros Hd. unfold ExecuteDelaySlot_with, InstrAt. ends.
Qed.
End Ends.

(** In a delay slot no other delay slot is executed: any [ExecuteDelaySlot] will do. *)
Lemma InstructionDecode_ends `{HostEnds} s instr : ends (InstructionDecode s instr).
Proof.
  unfold InstructionDecode. cbn [InstructionDecode_upto]. apply InstructionDecode_body_ends. intros s1.
  apply ExecuteDelaySlot_with_ends. intros s2 instr2 Hs2.
  rewrite (InstructionDecode_body_in_slot _ (fun s => Ok s) s2 Hs2). by apply InstructionDecode_body_ends.
Qed.

(** A host without redirections: simulated code that never leaves the simulator. *)
#[export] Instance no_host : Host := {|
  redirections := [];
  runtime_call _ _ _ _ _ s := Ok (Returned () s);
  leaf_runtime_call _ _ _ _ _ s := Ok (Returned 0 s);
  leaf_float_runtime_call _ _ _ s := Ok (Returned 0 s);
  bootstrap_native_call _ _ s := Ok (Returned () s);
  native_call _ _ _ s := Ok (Returned () s)
|}.
#[export] Instance no_host_ends : HostEnds (H := no_host).
Proof. by split. Qed.
#[export] Instance no_host_ok : HostOk.
Proof. split; intros * Hs [= <-]; exact Hs. Qed.

(** ** Properties *)

(** C36: [InstructionDecode] and [ExecuteDelaySlot] call each other, and the recursion
    ends: for host functions that end by themselves, one delay slot below the
    instruction is all that is needed, in any state and for any instruction word, and
    allowing more levels does not change the result. *)
Theorem InstructionDecode_levels `{HostEnds} level s instr :
  InstructionDecode s instr <> Err OutOfFuel /\ InstructionDecode_upto (S level) s instr = InstructionDecode s instr.
Proof.
  split; [apply InstructionDecode_ends|].
  unfold InstructionDecode. cbn [InstructionDecode_upto]. apply InstructionDecode_body_ext.
  intros s'. destruct level; [done|]. apply ExecuteDelaySlot_with_in_slot.
  intros. by apply InstructionDecode_body_in_slot.
Qed.

(** Executing code keeps the simulated machine well formed: if every register
    is a 32-bit value, the register file has its 32 entries and memory holds
    bytes, the same is true after any number of steps that did not stop, host
    calls and delay slots included. *)
Theorem Execute_preserves_wf `{HostOk} fuel s s' :
  sim_wf s -> Execute fuel s = Ok s' -> sim_wf s'.
Proof. intros Hs E. pose proof (Execute_wf fuel s Hs) as Hw. by rewrite E in Hw. Qed.

(** [jr ra; nop] at address 0x10000, entered with the end marker in RA. *)
Fixpoint words_at (addr : Z) (ws : list Z) (m : gmap Z Z) : gmap Z Z :=
  match ws with
  | [] => m
  | w :: ws =>
      words_at (addr + 4) ws
        (<[addr := u8 w]> (<[addr + 1 := u8 (w >>> 8)]> (<[addr + 2 := u8 (w >>> 16)]>
          (<[addr + 3 := u8 (w >>> 24)]> m))))
  end.

Definition return_state : Simulator :=
  with_pc (set_register (Simulator_new 0x20000 0 0 (words_at 0x10000 [0x03e00008; 0] ∅)) RA (-1)) 0x10000.

Lemma words_at_bytes addr ws m :
  map_Forall (fun _ b => isU 8 b) m -> map_Forall (fun _ b => isU 8 b) (words_at addr ws m).
Proof.
  revert addr m. induction ws as [|w ws IH]; intros addr m Hm; simpl; [done|].
  apply IH. repeat (apply map_Forall_insert_2; [apply wrapU_range; lia|]). done.
Qed.

Lemma return_state_wf : sim_wf return_state.
Proof.
  apply with_pc_wf; [|done]. apply set_register_wf; [|done]. apply Simulator_new_wf; [done..|].
  apply words_at_bytes. apply map_Forall_empty.
Qed.

(** A branch in a delay slot: its assertion ends the recursion. *)
Definition branch_in_slot : Simulator :=
  with_pc (Simulator_new 0x20000 0 0 (words_at 0x10000 [0x10000001; 0x10000001] ∅)) 0x10000.

Lemma InstructionDecode_levels_witness :
  InstructionDecode branch_in_slot 0x10000001 = Err AssertFailed /\ InstructionDecode branch_in_slot 0x10000001 <> Err OutOfFuel /\
  InstructionDecode_upto 8 branch_in_slot 0x10000001 = Err AssertFailed.
Proof.
  assert (InstructionDecode branch_in_slot 0x10000001 = Err AssertFailed) as E by (vm_compute; reflexivity).
  destruct (InstructionDecode_levels 7 branch_in_slot 0x10000001) as [Hne Heq].
  split; [exact E|]. split; [exact Hne|]. rewrite Heq. exact E.
Defined.

Lemma Execute_preserves_wf_witness :
  exists s, Execute 2 return_state = Ok s /\ pc_ s = kEndSimulatingPC /\ sim_wf s.
Proof.
  destruct (Execute 2 return_state) as [s|] eqn:E; [|vm_compute in E; discriminate E].
  exists s. split; [done|]. split; [vm_compute in E; injection E as <-; reflexivity|].
  exact (Execute_preserves_wf 2 return_state s return_state_wf E).
Defined.

End MipsInvariant.
