(* ===== verification/MipsExec.v ===== *)
(** * Assembled code runs on the simulator as intended

    The assembler (MipsAssembler, MipsMacros) and the simulator meet here.
    [emits m ws]: the assembler method [m] appends the words [ws] to the
    buffer.  [runs m P]: it does, and the simulator executes these words, one
    after the other, from every well-formed state [s] to a state [s'] with
    [P s s'].  [Steps_block] ties this to the dispatch loop: a straight-line
    block placed in memory at the pc is executed by as many rounds of the
    loop. *)

From stdpp Require Import base numbers list gmap.
From Stdlib Require Import ZArith Lia.
From S2P Require Import Prelude Utils BitField Double MipsConstants MipsEncoding MipsSimulator MipsAssembler MipsInvariant.

Local Open Scope Z_scope.
Local Open Scope mach_scope.

Module MipsExec.
Import Mips MipsEncoding MipsSimulator MipsAssembler MipsInvariant.
Local Open Scope asm_scope.

(** ** Emitted words *)

Definition emits {A} (m : AsmM A) (x : A) (ws : list Z) : Prop :=
  forall a, in_delay_slot_ a = false -> exists a',
    m a = Ok (x, a') /\ buffer_ a' = buffer_ a ++ ws /\ in_delay_slot_ a' = false
    /\ fixups_ a' = fixups_ a /\ use_far_branches_ a' = use_far_branches_ a
    /\ constant_pool_allowed_ a' = constant_pool_allowed_ a.

Lemma emits_ret {A} (x : A) : emits (aret x) x [].
Proof. intros a Ha. exists a. rewrite app_nil_r. auto 10. Qed.

Lemma emits_Emit w : emits (Emit w) () [w].
Proof. intros a Ha. eexists. split; [reflexivity|]. simpl. auto 10. Qed.

Lemma emits_bind {A B} (m : AsmM A) (k : A -> AsmM B) x y ws1 ws2 :
  emits m x ws1 -> emits (k x) y ws2 -> emits (abind m k) y (ws1 ++ ws2).
Proof.
  intros H1 H2 a Ha. destruct (H1 a Ha) as (a1&E1&B1&D1&F1&U1&C1).
  destruct (H2 a1 D1) as (a2&E2&B2&D2&F2&U2&C2). exists a2. unfold abind. rewrite E1.
  rewrite app_assoc, <- B1. repeat split; congruence.
Qed.

Lemma emits_assert {B} (c : bool) (k : AsmM B) y ws :
  c = true -> emits k y ws -> emits (aassert c;; k) y ws.
Proof. intros -> Hk. apply (emits_bind _ _ () y [] ws); [apply emits_ret|done]. Qed.

Lemma emits_not_in_delay_slot {B} (k : AsmM B) y ws :
  emits k y ws -> emits (assert_not_in_delay_slot;; k) y ws.
Proof.
  intros Hk a Ha. destruct (Hk a Ha) as (a'&E&H). exists a'.
  unfold abind, assert_not_in_delay_slot. rewrite Ha. done.
Qed.

(** A CPU register number that fits its field. *)
Abbreviation reg r := (isU 5 r).

Lemma emits_EmitIType op rs rt imm :
  reg rs -> reg rt -> isU 16 imm ->
  emits (EmitIType op rs rt imm) () [s32 (itype (Opcode_value op) rs rt imm)].
Proof. intros. unfold EmitIType. rewrite lor_itype by done. apply emits_Emit. Qed.

Lemma emits_EmitRType op rs rt rd sa f :
  reg rs -> reg rt -> reg rd -> isU 5 sa ->
  emits (EmitRType op rs rt rd sa f) () [s32 (rtype (Opcode_value op) rs rt rd sa (SpecialFunction_value f))].
Proof.
  intros ? ? ? Hsa. unfold EmitRType. rewrite lor_rtype by auto with fields.
  apply emits_assert; [by apply Utils.IsUint_spec|apply emits_Emit].
Qed.

Lemma emits_EmitRegImmType b rs imm :
  reg rs -> isU 16 imm ->
  emits (EmitRegImmType REGIMM rs b imm) () [s32 (itype (Opcode_value REGIMM) rs (RtRegImm_value b) imm)].
Proof. intros. unfold EmitRegImmType. rewrite lor_itype by auto with fields. apply emits_Emit. Qed.

(** ** Reference semantics of the arithmetic instructions *)

(** Three registers: the result from the values of rs and rt. *)
Definition alu (f : SpecialFunction) : option (Z -> Z -> Z) :=
  match f with
  | ADDU => Some (fun a b => s32 (a + b))
  | SUBU => Some (fun a b => s32 (a - b))
  | AND => Some Z.land
  | OR => Some Z.lor
  | XOR => Some Z.lxor
  | NOR => Some (fun a b => Z.lnot (Z.lor a b))
  | SLT => Some (fun a b => Z.b2z (a <? b))
  | SLTU => Some (fun a b => Z.b2z (a mod 2 ^ 32 <? b mod 2 ^ 32))
  | MOVZ | MOVN => None
  | SLLV => Some (fun a b => s32 (b * 2 ^ (a mod 32)))
  | SRLV => Some (fun a b => s32 ((b mod 2 ^ 32) / 2 ^ (a mod 32)))
  | SRAV => Some (fun a b => b / 2 ^ (a mod 32))
  | _ => None
  end.

(** Shifts by a constant. *)
Definition shift_alu (f : SpecialFunction) : option (Z -> Z -> Z) :=
  match f with
  | SLL => Some (fun b sa => s32 (b * 2 ^ sa))
  | SRL => Some (fun b sa => s32 ((b mod 2 ^ 32) / 2 ^ sa))
  | SRA => Some (fun b sa => b / 2 ^ sa)
  | _ => None
  end.

(** A register and a 16-bit immediate. *)
Definition imm_alu (op : Opcode) : option (Z -> Z -> Z) :=
  match op with
  | ADDIU => Some (fun a imm => s32 (a + s16 imm))
  | SLTI => Some (fun a imm => Z.b2z (a <? s16 imm))
  | SLTIU => Some (fun a imm => Z.b2z (a mod 2 ^ 32 <? s16 imm mod 2 ^ 32))
  | ANDI => Some Z.land
  | ORI => Some Z.lor
  | XORI => Some Z.lxor
  | _ => None
  end.

(** ** Execution of a block *)

Definition tick (s : Simulator) : Simulator := with_icount s (u64 (icount_ s + 1)).

Section Exec.
Context `{HostOk}.

Fixpoint exec_block (ws : list Z) (s : Simulator) : M Simulator :=
  match ws with
  | [] => Ok s
  | w :: ws => InstructionDecode (tick s) w ≫= exec_block ws
  end.

Lemma exec_block_app ws1 ws2 s :
  exec_block (ws1 ++ ws2) s = exec_block ws1 s ≫= exec_block ws2.
Proof using.
  revert s. induction ws1 as [|w ws1 IH]; intros s; [done|].
  cbn [exec_block app]. destruct (InstructionDecode (tick s) w) as [s'|]; [apply IH|done].
Qed.

(** An instruction word that falls through to the next one and leaves memory,
    hence the code, alone. *)
Definition sequential (w : Z) : Prop :=
  isS 32 w /\
  forall s s', sim_wf s -> InstructionDecode s w = Ok s' ->
    pc_ s' = u32 (pc_ s + kInstrSize) /\ mem s' = mem s /\ delay_slot_ s' = delay_slot_ s.

Definition runs {A} (m : AsmM A) (x : A) (P : Simulator -> Simulator -> Prop) : Prop :=
  exists ws, emits m x ws /\ Forall sequential ws /\
    forall s, sim_wf s -> exists s', exec_block ws s = Ok s' /\ sim_wf s' /\ P s s'.

Lemma runs_ret {A} (x : A) : runs (aret x) x eq.
Proof using. exists []. split; [apply emits_ret|]. eauto. Qed.

Lemma runs_bind {A B} (m : AsmM A) (k : A -> AsmM B) x y P Q :
  runs m x P -> runs (k x) y Q ->
  runs (abind m k) y (fun s s' => exists s1, sim_wf s1 /\ P s s1 /\ Q s1 s').
Proof using.
  intros (ws1&E1&F1&R1) (ws2&E2&F2&R2). exists (ws1 ++ ws2). split; [by eapply emits_bind|].
  split; [by apply Forall_app|]. intros s Hs. destruct (R1 s Hs) as (s1&X1&W1&P1).
  destruct (R2 s1 W1) as (s2&X2&W2&P2). exists s2. rewrite exec_block_app, X1. cbn. eauto 10.
Qed.

Lemma runs_weaken {A} (m : AsmM A) x (P Q : Simulator -> Simulator -> Prop) :
  (forall s s', sim_wf s -> sim_wf s' -> P s s' -> Q s s') -> runs m x P -> runs m x Q.
Proof using.
  intros HPQ (ws&E&F&R). exists ws. do 2 (split; [done|]). intros s Hs.
  destruct (R s Hs) as (s'&X&W&HP). eauto 10.
Qed.

Lemma runs_assert {B} (c : bool) (k : AsmM B) y P : c = true -> runs k y P -> runs (aassert c;; k) y P.
Proof using. intros Hc (ws&E&R). exists ws. split; [by apply emits_assert|done]. Qed.

Lemma runs_not_in_delay_slot {B} (k : AsmM B) y P : runs k y P -> runs (assert_not_in_delay_slot;; k) y P.
Proof using. intros (ws&E&R). exists ws. split; [by apply emits_not_in_delay_slot|done]. Qed.

(** ** The dispatch loop on a block in memory *)

Fixpoint Steps (n : nat) (s : Simulator) : M Simulator :=
  match n with O => Ok s | S n => Step s ≫= Steps n end.

(** The words [ws] are in memory at [addr]. *)
Fixpoint code_at (m : gmap Z Z) (addr : Z) (ws : list Z) : Prop :=
  match ws with
  | [] => True
  | w :: ws => load_le m addr 4 = Ok (u32 w) /\ code_at m (addr + 4) ws
  end.

(** The block [ws] is at the pc, in legal memory, with room behind it. *)
Definition loaded (s : Simulator) (ws : list Z) : Prop :=
  64 * 1024 <= pc_ s /\ pc_ s + 4 * Z.of_nat (length ws) < 2 ^ 32 /\ code_at (mem s) (pc_ s) ws.

Lemma Step_loaded s w ws :
  isS 32 w -> loaded s (w :: ws) -> Step s = InstructionDecode (tick s) w.
Proof using.
  intros Hw (Hlo&_&Hc&_). unfold Step, tick. cbn [pc_ with_icount]. unfold IsIllegalAddress.
  rewrite (proj2 (Z.ltb_ge _ _)) by lia. unfold InstrAt. cbn [mem with_icount]. rewrite Hc.
  cbn -[wrapS wrapU InstructionDecode]. by rewrite wrapS_wrapU, wrapS_id.
Qed.

Lemma tick_wf s : sim_wf s -> sim_wf (tick s).
Proof using. intros. apply with_icount_wf; [done|]. apply wrapU_range. lia. Qed.

(** Fetching a block from memory executes it. *)
Lemma Steps_block ws s s' :
  Forall sequential ws -> sim_wf s -> loaded s ws -> exec_block ws s = Ok s' ->
  Steps (length ws) s = Ok s' /\ pc_ s' = pc_ s + 4 * Z.of_nat (length ws) /\ mem s' = mem s
  /\ delay_slot_ s' = delay_slot_ s.
Proof using All.
  intros HF. revert s. induction HF as [|w ws [Hw Hseq] HF IH]; intros s Hs Hl.
  { intros [= <-]. cbn. rewrite Z.add_0_r. done. }
  cbn [exec_block length Steps]. rewrite (Step_loaded s w ws) by done.
  destruct (InstructionDecode (tick s) w) as [s1|] eqn:E; [|done]. cbn [mbind result_bind].
  destruct (Hseq _ _ (tick_wf s Hs) E) as (Hpc&Hm&Hd). intros X.
  pose proof (InstructionDecode_wf (tick s) w (tick_wf s Hs)) as Hwf. rewrite E in Hwf.
  destruct Hl as (Hlo&Hhi&_&Hc). cbn [length] in Hhi.
  cbn [pc_ tick with_icount mem delay_slot_] in Hpc, Hm, Hd.
  unfold kInstrSize in Hpc. rewrite wrapU_id in Hpc by (unfold isU; lia).
  destruct (IH s1 Hwf) as (XS&Xpc&Xm&Xd); [|done|].
  { split; [lia|]. split; [lia|]. by rewrite Hpc, Hm. }
  split; [done|]. split; [lia|]. split; congruence.
Qed.

(** [m] assembles to a block that, placed in memory at the pc, brings the
    machine from [s] to a state [s'] with [P s s'] and the pc behind it. *)
Definition computes (m : AsmM unit) (P : Simulator -> Simulator -> Prop) : Prop :=
  exists ws, emits m () ws /\
    forall s, sim_wf s -> loaded s ws -> exists s',
      Steps (length ws) s = Ok s' /\ sim_wf s' /\ pc_ s' = pc_ s + 4 * Z.of_nat (length ws) /\ P s s'.

Lemma runs_computes m P : runs m () P -> computes m P.
Proof using All.
  intros (ws&E&F&R). exists ws. split; [done|]. intros s Hs Hl. destruct (R s Hs) as (s'&X&W&HP).
  destruct (Steps_block ws s s' F Hs Hl X) as (XS&Xpc&_). eauto 10.
Qed.

(** ** One instruction *)

(** The effect of an instruction that writes one register and falls through. *)
Definition writes (s : Simulator) (rd : Register) (v : Z) (s' : Simulator) : Prop :=
  s' = with_pc (set_register (tick s) rd v) (u32 (pc_ s + kInstrSize)).

Lemma get_register_tick s r : get_register (tick s) r = get_register s r.
Proof using. done. Qed.

Lemma pc_set_register s r v : pc_ (set_register s r v) = pc_ s.
Proof using. unfold set_register. by destruct (negb _). Qed.
Lemma delay_slot_set_register s r v : delay_slot_ (set_register s r v) = delay_slot_ s.
Proof using. unfold set_register. by destruct (negb _). Qed.

Lemma mem_set_register s r v : mem (set_register s r v) = mem s.
Proof using. unfold set_register. by destruct (negb _). Qed.

(** A word that writes register [rd] with a value [f s] of 32 bits. *)
Lemma runs_writes (m : AsmM unit) w rd (f : Simulator -> Z) :
  emits m () [w] -> isS 32 w ->
  (forall s, InstructionDecode s w =
     Ok (with_pc (set_register s rd (f s)) (u32 (pc_ s + kInstrSize)))) ->
  (forall s, f (tick s) = f s) ->
  runs m () (fun s s' => writes s rd (f s) s').
Proof using All.
  intros Hm H32 Hw Hf. exists [w]. split; [done|]. split.
  - apply Forall_singleton. split; [done|]. intros s s' _. rewrite Hw. intros [= <-].
    cbn [pc_ mem delay_slot_ with_pc]. by rewrite mem_set_register, delay_slot_set_register.
  - intros s Hs. pose proof (InstructionDecode_wf (tick s) w (tick_wf s Hs)) as Hwf.
    rewrite Hw in Hwf. cbn [exec_block]. rewrite Hw.
    eexists. split; [reflexivity|]. split; [exact Hwf|]. rewrite Hf. reflexivity.
Qed.

Lemma land31_mod v : v .& 0x1f = v mod 32.
Proof using. change 0x1f with (Z.ones 5). by rewrite Z.land_ones by lia. Qed.
Lemma mod32_nonneg v : 0 <= v mod 32.
Proof using. apply Z.mod_pos_bound. lia. Qed.

Lemma u32_mod32 v : u32 v mod 32 = v mod 32.
Proof using. unfold wrapU. change (2 ^ 32) with 4294967296. divlia. Qed.

Lemma decode_alu f g rs rt rd s :
  alu f = Some g -> reg rs -> reg rt -> reg rd ->
  InstructionDecode s (s32 (rtype (Opcode_value SPECIAL) rs rt rd 0 (SpecialFunction_value f))) =
  Ok (with_pc (set_register s rd (g (get_register s rs) (get_register s rt))) (u32 (pc_ s + kInstrSize))).
Proof using.
  intros Hf Hrs Hrt Hrd. unfold InstructionDecode. cbn [InstructionDecode_upto].
  unfold InstructionDecode_body, DecodeSpecial. autorewrite with fields.
  destruct f; try discriminate Hf; injection Hf as <-; cbn -[wrapU wrapS rtype Z.shiftl Z.shiftr Z.land].
  all: rewrite pc_set_register; do 3 f_equal.
  all: rewrite ?land31_mod, ?Z.shiftl_mul_pow2, ?Z.shiftr_div_pow2 by apply mod32_nonneg.
  all: try reflexivity. by rewrite u32_mod32.
Qed.

Lemma decode_shift f g rt rd sa s :
  shift_alu f = Some g -> reg rt -> reg rd -> isU 5 sa ->
  InstructionDecode s (s32 (rtype (Opcode_value SPECIAL) 0 rt rd sa (SpecialFunction_value f))) =
  Ok (with_pc (set_register s rd (g (get_register s rt) sa)) (u32 (pc_ s + kInstrSize))).
Proof using.
  intros Hf Hrt Hrd Hsa. unfold InstructionDecode. cbn [InstructionDecode_upto].
  unfold InstructionDecode_body, DecodeSpecial. autorewrite with fields.
  destruct f; try discriminate Hf; injection Hf as <-; cbn -[wrapU wrapS rtype Z.shiftl Z.shiftr].
  - destruct ((rd =? R0) && (rt =? R0) && (sa =? 0)) eqn:E.
    + apply andb_true_iff in E as [[->%Z.eqb_eq _]%andb_true_iff _]. done.
    + cbn -[wrapU wrapS Z.shiftl]. rewrite pc_set_register. do 4 f_equal. apply Z.shiftl_mul_pow2, Hsa.
  - rewrite pc_set_register. do 4 f_equal. apply Z.shiftr_div_pow2, Hsa.
  - rewrite pc_set_register. do 3 f_equal. apply Z.shiftr_div_pow2, Hsa.
Qed.

Lemma decode_imm op g rs rt imm s :
  imm_alu op = Some g -> reg rs -> reg rt -> isU 16 imm ->
  InstructionDecode s (s32 (itype (Opcode_value op) rs rt imm)) =
  Ok (with_pc (set_register s rt (g (get_register s rs) imm)) (u32 (pc_ s + kInstrSize))).
Proof using.
  intros Hf Hrs Hrt Hi. unfold InstructionDecode. cbn [InstructionDecode_upto].
  unfold InstructionDecode_body. autorewrite with fields.
  destruct op; try discriminate Hf; injection Hf as <-; cbn -[wrapU wrapS itype Z.land Z.lor Z.lxor].
  all: rewrite pc_set_register; reflexivity.
Qed.

Lemma decode_lui rt imm s :
  reg rt -> isU 16 imm ->
  InstructionDecode s (s32 (itype (Opcode_value LUI) 0 rt imm)) =
  Ok (with_pc (set_register s rt (s32 (imm * 2 ^ 16))) (u32 (pc_ s + kInstrSize))).
Proof using.
  intros Hrt Hi. unfold InstructionDecode. cbn [InstructionDecode_upto].
  unfold InstructionDecode_body. autorewrite with fields. cbn -[wrapU wrapS itype Z.shiftl Z.mul].
  rewrite pc_set_register, Z.shiftl_mul_pow2 by lia. reflexivity.
Qed.

(** ** The instructions the macros are made of *)

Lemma runs_alu f g rs rt rd :
  alu f = Some g -> reg rs -> reg rt -> reg rd ->
  runs (EmitRType SPECIAL rs rt rd 0 f) ()
    (fun s s' => writes s rd (g (get_register s rs) (get_register s rt)) s').
Proof using All.
  intros Hf ? ? ?. eapply runs_writes; [by apply emits_EmitRType|apply wrapS_range; lia| |done].
  intros. by apply decode_alu.
Qed.

Lemma runs_shift f g rt rd sa :
  shift_alu f = Some g -> reg rt -> reg rd -> isU 5 sa ->
  runs (EmitRType SPECIAL R0 rt rd sa f) () (fun s s' => writes s rd (g (get_register s rt) sa) s').
Proof using All.
  intros Hf ? ? ?. eapply runs_writes; [by apply emits_EmitRType|apply wrapS_range; lia| |done].
  intros. by apply decode_shift.
Qed.

Lemma runs_imm op g rs rt imm :
  imm_alu op = Some g -> reg rs -> reg rt -> isU 16 imm ->
  runs (EmitIType op rs rt imm) () (fun s s' => writes s rt (g (get_register s rs) imm) s').
Proof using All.
  intros Hf ? ? ?. eapply runs_writes; [by apply emits_EmitIType|apply wrapS_range; lia| |done].
  intros. by apply decode_imm.
Qed.

Lemma runs_lui rt imm :
  reg rt -> isU 16 imm -> runs (lui rt imm) () (fun s s' => writes s rt (s32 (imm * 2 ^ 16)) s').
Proof using All.
  intros ? Hi. apply runs_assert; [by apply Utils.IsUint_spec|]. rewrite (wrapU_id 16) by done.
  apply (runs_writes _ _ _ (fun _ => s32 (imm * 2 ^ 16)) (emits_EmitIType LUI R0 rt imm ltac:(done) ltac:(done) Hi));
    [apply wrapS_range; lia| |done].
  intros. by apply decode_lui.
Qed.
End Exec.

End MipsExec.
