(* ===== verification/MipsMacroProps.v ===== *)
(** * The macro instructions compute what they promise

    For each macro of MipsMacros.v that is straight-line code: the words it
    emits, executed by the simulator from any well-formed state, leave the
    promised value in the destination and change no other register than the
    ones the macro may clobber. *)

From stdpp Require Import base numbers list gmap.
From Stdlib Require Import ZArith Lia.
From S2P Require Import Prelude Utils MipsConstants MipsEncoding MipsSimulator MipsAssembler MipsMacros MipsInvariant MipsExec.

Local Open Scope Z_scope.
Local Open Scope mach_scope.

Module MipsMacroProps.
Import Mips MipsEncoding MipsSimulator MipsAssembler MipsMacros MipsInvariant MipsExec.
Local Open Scope asm_scope.

(** [keeps X s s']: only the registers in [X], the pc and the instruction count
    may differ. *)
Record keeps (X : list Register) (s s' : Simulator) : Prop := {
  keeps_regs r : reg r -> r ∉ X -> get_register s' r = get_register s r;
  keeps_mem : mem s' = mem s;
  keeps_fregs : fregisters_ s' = fregisters_ s;
  keeps_hi : hi_reg_ s' = hi_reg_ s;
  keeps_lo : lo_reg_ s' = lo_reg_ s;
  keeps_fcsr : fcsr_ s' = fcsr_ s
}.

Lemma keeps_refl X s : keeps X s s.
Proof. by constructor. Qed.

Lemma keeps_trans_same X s1 s2 s3 : keeps X s1 s2 -> keeps X s2 s3 -> keeps X s1 s3.
Proof.
  intros H1 H2. constructor; [|destruct H1, H2; congruence..].
  intros r Hr Hn. by rewrite (keeps_regs X s2 s3 H2), (keeps_regs X s1 s2 H1).
Qed.

Lemma keeps_mono X Y s s' : X ⊆ Y -> keeps X s s' -> keeps Y s s'.
Proof. intros HXY []. by constructor; auto. Qed.

Lemma get_set_register s rd v r :
  sim_wf s -> reg rd -> reg r ->
  get_register (set_register s rd v) r = if (r =? rd) && negb (rd =? R0) then v else get_register s r.
Proof.
  intros Hs Hrd Hr. unfold get_register, set_register. unfold isU in *.
  destruct (Z.eqb_spec rd R0) as [->|Hne]; simpl; [by rewrite andb_false_r|]. rewrite andb_true_r.
  destruct (Z.eqb_spec r rd) as [->|Hneq].
  - rewrite (proj2 (Z.eqb_neq rd R0)) by done.
    rewrite list_lookup_insert_eq; [done|]. rewrite (wf_registers_length s Hs). lia.
  - rewrite list_lookup_insert_ne; [done|]. lia.
Qed.

Lemma get_writes s rd v s' r :
  sim_wf s -> reg rd -> reg r -> writes s rd v s' ->
  get_register s' r = if (r =? rd) && negb (rd =? R0) then v else get_register s r.
Proof.
  intros Hs Hrd Hr ->. rewrite <- get_set_register by done.
  unfold get_register, set_register. by destruct (negb _).
Qed.

Lemma get_writes_same s rd v s' :
  writes s rd v s' -> sim_wf s -> reg rd -> rd <> R0 -> get_register s' rd = v.
Proof.
  intros Hw ? ? Hne. rewrite (get_writes s rd v s' rd) by done.
  rewrite Z.eqb_refl. by rewrite (proj2 (Z.eqb_neq rd R0)).
Qed.

Lemma get_writes_other s rd v s' r :
  writes s rd v s' -> sim_wf s -> reg rd -> reg r -> r <> rd -> get_register s' r = get_register s r.
Proof. intros Hw ? ? ? Hne. rewrite (get_writes s rd v s' r) by done. by rewrite (proj2 (Z.eqb_neq r rd)). Qed.

Lemma writes_keeps s rd v s' : writes s rd v s' -> sim_wf s -> reg rd -> keeps [rd] s s'.
Proof.
  intros Hw Hs Hrd. constructor.
  { intros r Hr Hn. assert (r <> rd) by set_solver. by eapply (get_writes_other s rd). }
  all: rewrite Hw; unfold set_register; by destruct (negb _).
Qed.

Lemma writes_keeps_in X s rd v s' : writes s rd v s' -> sim_wf s -> reg rd -> rd ∈ X -> keeps X s s'.
Proof.
  intros Hw Hs Hrd Hin. eapply keeps_mono, (writes_keeps s rd v s'); [|done..].
  intros r Hr. apply list_elem_of_singleton in Hr. by subst.
Qed.

(** A binary operation with an immediate: directly, or through TMP. *)
Definition binop_imm (rd rs : Register) (f : Z -> Z) (s s' : Simulator) : Prop :=
  get_register s' rd = f (get_register s rs) /\ keeps [rd; TMP] s s'.

Lemma writes_binop rd rs f s s' :
  sim_wf s -> reg rd -> rd <> ZR -> writes s rd (f (get_register s rs)) s' -> binop_imm rd rs f s s'.
Proof.
  intros. split; [by eapply get_writes_same|]. eapply writes_keeps_in; [done..|]. rewrite !elem_of_cons. auto.
Qed.

(** ** Instructions *)

Section Macros.
Context `{HostOk}.

Lemma runs_addu rd rs rt :
  reg rd -> reg rs -> reg rt ->
  runs (addu rd rs rt) () (fun s s' => writes s rd (s32 (get_register s rs + get_register s rt)) s').
Proof using All. intros. by apply (runs_alu ADDU _ rs rt rd eq_refl). Qed.
Lemma runs_subu rd rs rt :
  reg rd -> reg rs -> reg rt ->
  runs (subu rd rs rt) () (fun s s' => writes s rd (s32 (get_register s rs - get_register s rt)) s').
Proof using All. intros. by apply (runs_alu SUBU _ rs rt rd eq_refl). Qed.
Lemma runs_and rd rs rt :
  reg rd -> reg rs -> reg rt ->
  runs (and_ rd rs rt) () (fun s s' => writes s rd (get_register s rs .& get_register s rt) s').
Proof using All. intros. by apply (runs_alu AND _ rs rt rd eq_refl). Qed.
Lemma runs_or rd rs rt :
  reg rd -> reg rs -> reg rt ->
  runs (or_ rd rs rt) () (fun s s' => writes s rd (get_register s rs .| get_register s rt) s').
Proof using All. intros. by apply (runs_alu OR _ rs rt rd eq_refl). Qed.
Lemma runs_xor rd rs rt :
  reg rd -> reg rs -> reg rt ->
  runs (xor_ rd rs rt) () (fun s s' => writes s rd (get_register s rs .^ get_register s rt) s').
Proof using All. intros. by apply (runs_alu XOR _ rs rt rd eq_refl). Qed.

Lemma runs_mov rd rs :
  reg rd -> reg rs -> runs (mov rd rs) () (fun s s' => writes s rd (get_register s rs) s').
Proof using All.
  intros. eapply runs_weaken; [|by apply runs_or].
  intros s s' _ _. cbv beta. change (get_register s ZR) with 0. by rewrite Z.lor_0_r.
Qed.

Lemma runs_addiu rt rs imm :
  reg rt -> reg rs -> isS 16 imm ->
  runs (addiu rt rs imm) () (fun s s' => writes s rt (s32 (get_register s rs + imm)) s').
Proof using All.
  intros ? ? Hi. apply runs_assert; [by apply Utils.IsInt_spec|].
  eapply runs_weaken; [|apply (runs_imm ADDIU _ rs rt (u16 imm) eq_refl); [done..|apply wrapU_range; lia]].
  intros s s' _ _. cbv beta. by rewrite wrapS_wrapU, (wrapS_id 16) by done.
Qed.

Lemma runs_ori rt rs imm :
  reg rt -> reg rs -> isU 16 imm ->
  runs (ori rt rs imm) () (fun s s' => writes s rt (get_register s rs .| imm) s').
Proof using All.
  intros ? ? Hi. apply runs_assert; [by apply Utils.IsUint_spec|]. rewrite (wrapU_id 16) by done.
  by apply (runs_imm ORI _ rs rt imm eq_refl).
Qed.
Lemma runs_andi rt rs imm :
  reg rt -> reg rs -> isU 16 imm ->
  runs (andi rt rs imm) () (fun s s' => writes s rt (get_register s rs .& imm) s').
Proof using All.
  intros ? ? Hi. apply runs_assert; [by apply Utils.IsUint_spec|]. rewrite (wrapU_id 16) by done.
  by apply (runs_imm ANDI _ rs rt imm eq_refl).
Qed.
Lemma runs_xori rt rs imm :
  reg rt -> reg rs -> isU 16 imm ->
  runs (xori rt rs imm) () (fun s s' => writes s rt (get_register s rs .^ imm) s').
Proof using All.
  intros ? ? Hi. apply runs_assert; [by apply Utils.IsUint_spec|]. rewrite (wrapU_id 16) by done.
  by apply (runs_imm XORI _ rs rt imm eq_refl).
Qed.

(** ** Immediates *)

Lemma lui_ori_value v :
  isS 32 v -> s32 (u16 (Utils.High16Bits v) * 2 ^ 16) .| u16 (Utils.Low16Bits v) = v.
Proof using.
  intros Hv. rewrite <- (wrapS_id 32 v) at 3 by done. rewrite <- Z.shiftl_mul_pow2 by lia.
  unfold Utils.High16Bits, Utils.Low16Bits. change 0xffff with (Z.ones 16). zbits.
  destruct (Z.ltb_spec i 16); simpl.
  - rewrite !Z.min_l by lia. destruct (Z.leb_spec 16 i); [lia|]. by rewrite andb_true_r.
  - rewrite orb_false_r. destruct (Z.leb_spec 16 (Z.min i (32 - 1))); [simpl|lia].
    autorewrite with bits. rewrite (proj2 (Z.ltb_lt _ 16)) by lia. simpl. f_equal. lia.
Qed.

Lemma runs_LoadImmediate rd v :
  reg rd -> rd <> ZR -> isS 32 v ->
  runs (LoadImmediate rd v) () (fun s s' => get_register s' rd = v /\ keeps [rd] s s').
Proof using All.
  intros Hrd Hz Hv. apply runs_not_in_delay_slot. destruct (Utils.IsInt kImmBits v) eqn:E.
  - apply Utils.IsInt_spec in E; [|done].
    eapply runs_weaken; [|by apply runs_addiu]. intros s s' Hs _ Hw. cbv beta in Hw.
    change (get_register s ZR) with 0 in Hw. rewrite Z.add_0_l, wrapS_id in Hw by done.
    split; [by eapply get_writes_same|by eapply writes_keeps].
  - pose proof (wrapU_range 16 (Utils.High16Bits v) ltac:(lia)) as Hh.
    pose proof (wrapU_range 16 (Utils.Low16Bits v) ltac:(lia)) as Hl.
    pose proof (lui_ori_value v Hv) as Hval.
    cbv zeta. destruct (Z.eqb_spec (u16 (Utils.Low16Bits v)) 0) as [E0|E0]; cbn [negb].
    + eapply runs_weaken; [|eapply runs_bind; [by apply runs_lui|apply runs_ret]].
      intros s s' Hs _ (s1&_&Hw&<-). rewrite E0, Z.lor_0_r in Hval. rewrite Hval in Hw.
      split; [by eapply get_writes_same|by eapply writes_keeps].
    + eapply runs_weaken; [|eapply runs_bind; [by apply runs_lui|by apply runs_ori]].
      intros s s' Hs _ (s1&Hs1&Hw1&Hw2). split.
      * rewrite (get_writes_same s rd _ s1) in Hw2 by done. rewrite Hval in Hw2.
        by eapply get_writes_same.
      * eapply keeps_trans_same; by eapply writes_keeps.
Qed.

(** The value of a register after a chain of writes. *)
Local Ltac regs :=
  repeat match goal with
  | Hw : writes ?s ?rd ?v ?s', Hs : sim_wf ?s |- context [get_register ?s' ?r] =>
      first [rewrite (get_writes_same s rd v s') by (done || discriminate)
            |rewrite (get_writes_other s rd v s' r Hw) by (done || discriminate)]
  end.
(** Run a sequence of instructions. *)
Local Ltac instruction :=
  match goal with
  | |- runs (addu _ _ _) _ _ => by apply runs_addu
  | |- runs (subu _ _ _) _ _ => by apply runs_subu
  | |- runs (and_ _ _ _) _ _ => by apply runs_and
  | |- runs (xor_ _ _ _) _ _ => by apply runs_xor
  | |- runs (mov _ _) _ _ => by apply runs_mov
  end.
Local Ltac instructions :=
  eapply runs_weaken; [|
    repeat match goal with |- runs (abind _ _) _ _ => eapply runs_bind; [instruction|] end; instruction].
Local Ltac chain :=
  intros; repeat (cbv beta in *; match goal with X : exists _, _ |- _ => destruct X as (?&?&?&X) end).
Local Ltac keep :=
  lazymatch goal with
  | |- keeps _ ?s ?s => apply keeps_refl
  | Hw : writes ?s1 _ _ ?s' |- keeps ?X ?s ?s' =>
      apply (keeps_trans_same X s s1 s');
      [keep|apply (writes_keeps_in _ _ _ _ _ Hw); [done|done|rewrite !elem_of_cons; auto 10]]
  | HK : keeps ?X ?s1 ?s' |- keeps ?X ?s ?s' => apply (keeps_trans_same X s s1 s'); [keep|exact HK]
  end.

(** Load the immediate into TMP, then apply a three-register instruction. *)
Lemma via_tmp_binop (op : Register -> Register -> Register -> AsmM unit) (g : Z -> Z -> Z) rd rs v :
  (forall rd rs rt, reg rd -> reg rs -> reg rt ->
     runs (op rd rs rt) () (fun s s' => writes s rd (g (get_register s rs) (get_register s rt)) s')) ->
  reg rd -> rd <> ZR -> reg rs -> rs <> TMP -> isS 32 v ->
  runs (LoadImmediate TMP v;; op rd rs TMP) () (binop_imm rd rs (fun x => g x v)).
Proof using All.
  intros Hop Hrd Hz Hrs Ht Hv. eapply runs_weaken; [|eapply runs_bind; [by apply runs_LoadImmediate|by apply Hop]].
  intros s s' Hs _ (s1&Hs1&[E1 K1]&Hw). cbv beta in Hw.
  rewrite E1, (keeps_regs _ _ _ K1 rs) in Hw by (done || by rewrite list_elem_of_singleton). split.
  - by eapply get_writes_same.
  - eapply (keeps_mono _ [rd; TMP]) in K1; [|by intros r ->%list_elem_of_singleton; rewrite !elem_of_cons; auto].
    keep.
Qed.

Lemma runs_AddImmediate rd rs v :
  reg rd -> rd <> ZR -> reg rs -> rs <> TMP -> isS 32 v ->
  runs (AddImmediate rd rs v) () (binop_imm rd rs (fun x => s32 (x + v))).
Proof using All.
  intros Hrd Hz Hrs Ht Hv. apply runs_not_in_delay_slot. destruct ((v =? 0) && (rd =? rs)) eqn:E.
  - apply andb_true_iff in E as [->%Z.eqb_eq ->%Z.eqb_eq].
    eapply runs_weaken; [|apply runs_ret]. intros s s' Hs _ <-. split; [|apply keeps_refl].
    rewrite Z.add_0_r, wrapS_id; [done..|]. by apply get_register_isS.
  - destruct (Utils.IsInt kImmBits v) eqn:Ei; [|by apply (via_tmp_binop _ (fun x y => s32 (x + y)) _ _ _ runs_addu)].
    apply Utils.IsInt_spec in Ei; [|done]. eapply runs_weaken; [|by apply runs_addiu].
    intros s s' Hs _ Hw. by apply writes_binop.
Qed.

(** The three logical macros share one shape: a move for 0, a short and a long form. *)
Lemma runs_logical_imm op3 opi (g : Z -> Z -> Z) rd rs z v :
  (forall rd rs rt, reg rd -> reg rs -> reg rt ->
     runs (op3 rd rs rt) () (fun s s' => writes s rd (g (get_register s rs) (get_register s rt)) s')) ->
  (forall rt rs imm, reg rt -> reg rs -> isU 16 imm ->
     runs (opi rt rs imm) () (fun s s' => writes s rt (g (get_register s rs) imm) s')) ->
  reg z -> (forall s, get_register s z = g (get_register s rs) 0) ->
  reg rd -> rd <> ZR -> reg rs -> rs <> TMP -> isS 32 v ->
  runs (assert_not_in_delay_slot;;
        if v =? 0 then mov rd z
        else if Utils.IsUint kImmBits v then opi rd rs v
        else LoadImmediate TMP v;; op3 rd rs TMP) () (binop_imm rd rs (fun x => g x v)).
Proof using All.
  intros H3 Hi Hz Hg Hrd Hrd0 Hrs Ht Hv. apply runs_not_in_delay_slot.
  destruct (Z.eqb_spec v 0) as [->|_].
  - eapply runs_weaken; [|by apply runs_mov]. intros s s' Hs _ Hw. cbv beta in Hw. rewrite Hg in Hw.
    by apply writes_binop.
  - destruct (Utils.IsUint kImmBits v) eqn:Ei; [|by apply (via_tmp_binop op3)].
    apply Utils.IsUint_spec in Ei; [|done]. eapply runs_weaken; [|by apply Hi].
    intros s s' Hs _ Hw. by apply writes_binop.
Qed.

Lemma runs_AndImmediate rd rs v :
  reg rd -> rd <> ZR -> reg rs -> rs <> TMP -> isS 32 v ->
  runs (AndImmediate rd rs v) () (binop_imm rd rs (fun x => x .& v)).
Proof using All.
  apply (runs_logical_imm _ _ _ _ _ ZR _ runs_and runs_andi); [done|]. intros. by rewrite Z.land_0_r.
Qed.
Lemma runs_OrImmediate rd rs v :
  reg rd -> rd <> ZR -> reg rs -> rs <> TMP -> isS 32 v ->
  runs (OrImmediate rd rs v) () (binop_imm rd rs (fun x => x .| v)).
Proof using All.
  intros ? ? Hrs ? ?.
  apply (runs_logical_imm _ _ _ _ _ rs _ runs_or runs_ori); try done. intros. by rewrite Z.lor_0_r.
Qed.
Lemma runs_XorImmediate rd rs v :
  reg rd -> rd <> ZR -> reg rs -> rs <> TMP -> isS 32 v ->
  runs (XorImmediate rd rs v) () (binop_imm rd rs (fun x => x .^ v)).
Proof using All.
  intros ? ? Hrs ? ?.
  apply (runs_logical_imm _ _ _ _ _ rs _ runs_xor runs_xori); try done. intros. by rewrite Z.lxor_0_r.
Qed.

(** ** Overflow *)

(** The sign of [(r ^ a) & (r ^ b)] tells whether [a + b] overflowed. *)
Lemma add_overflow_sign a b :
  isS 32 a -> isS 32 b ->
  ((s32 (a + b) .^ a) .& (s32 (a + b) .^ b) < 0 <-> ~ isS 32 (a + b)).
Proof using.
  intros Ha Hb. rewrite Z.land_neg. pose proof (Z.lxor_nonneg (s32 (a + b)) a).
  pose proof (Z.lxor_nonneg (s32 (a + b)) b). unfold isS, wrapS in *.
  change (2 ^ (32 - 1)) with 2147483648 in *. change (2 ^ 32) with 4294967296 in *. divlia.
Qed.

Lemma sub_overflow_sign a b :
  isS 32 a -> isS 32 b ->
  ((a .^ b) .& (s32 (a - b) .^ a) < 0 <-> ~ isS 32 (a - b)).
Proof using.
  intros Ha Hb. rewrite Z.land_neg. pose proof (Z.lxor_nonneg (s32 (a - b)) a).
  pose proof (Z.lxor_nonneg a b). unfold isS, wrapS in *.
  change (2 ^ (32 - 1)) with 2147483648 in *. change (2 ^ 32) with 4294967296 in *. divlia.
Qed.

(** The sum in [rd], the overflow in the sign of [ro]. *)
Definition detects (f : Z -> Z -> Z) (rd rs rt ro : Register) (X : list Register) (s s' : Simulator) : Prop :=
  get_register s' rd = s32 (f (get_register s rs) (get_register s rt))
  /\ (get_register s' ro < 0 <-> ~ isS 32 (f (get_register s rs) (get_register s rt)))
  /\ keeps X s s'.

(** The code shapes of [AdduDetectOverflow] and [SubuDetectOverflow]; operands
    and destinations distinct from TMP. *)
Section Shapes.
Context (rd rs rt ro : Register) (Hrd : reg rd) (Hrs : reg rs) (Hrt : reg rt) (Hro : reg ro).
Context (Hrd0 : rd <> ZR) (Hro0 : ro <> ZR) (Hrdro : rd <> ro) (HrdT : rd <> TMP) (HroT : ro <> TMP).
Context (Hrors : ro <> rs) (Hrort : ro <> rt) (HrsT : rs <> TMP) (HrtT : rt <> TMP).

Local Ltac shape sign :=
  instructions; chain; split; [regs; done|split; [|keep]];
  regs; rewrite <- sign by auto using get_register_isS.

Lemma runs_add_rd_rs :
  rd <> rt ->
  runs (mov TMP rd;; addu rd rd rt;; xor_ TMP rd TMP;; xor_ ro rd rt;; and_ ro ro TMP) ()
    (detects Z.add rd rd rt ro [rd; ro; TMP]).
Proof using All. intros Hne. shape add_overflow_sign. by rewrite Z.land_comm. Qed.

Lemma runs_add_rd_rt :
  rd <> rs ->
  runs (mov TMP rd;; addu rd rs rd;; xor_ TMP rd TMP;; xor_ ro rd rs;; and_ ro ro TMP) ()
    (detects Z.add rd rs rd ro [rd; ro; TMP]).
Proof using All. intros Hne. shape add_overflow_sign. done. Qed.

Lemma runs_add_rd :
  rd <> rs -> rd <> rt ->
  runs (addu rd rs rt;; xor_ ro rd rs;; xor_ TMP rd rt;; and_ ro TMP ro) ()
    (detects Z.add rd rs rt ro [rd; ro; TMP]).
Proof using All. intros Hne Hne'. shape add_overflow_sign. by rewrite Z.land_comm. Qed.

Lemma runs_sub_rd_rt :
  rd <> rs ->
  runs (mov TMP rd;; subu rd rs rd;; xor_ ro rd rs;; xor_ TMP rs TMP;; and_ ro TMP ro) ()
    (detects Z.sub rd rs rd ro [rd; ro; TMP]).
Proof using All. intros Hne. shape sub_overflow_sign. done. Qed.

Lemma runs_sub_rd :
  rd <> rs -> rd <> rt ->
  runs (subu rd rs rt;; xor_ ro rd rs;; xor_ TMP rs rt;; and_ ro TMP ro) ()
    (detects Z.sub rd rs rt ro [rd; ro; TMP]).
Proof using All. intros Hne Hne'. shape sub_overflow_sign. done. Qed.

(** In place, the code compares the result with the original left operand
    twice and never looks at the right one. *)
Lemma runs_sub_rd_rs :
  rd <> rt ->
  runs (mov TMP rd;; subu rd rd rt;; xor_ ro rd TMP;; xor_ TMP TMP rd;; and_ ro TMP ro) ()
    (fun s s' =>
       let a := get_register s rd in
       let r := s32 (a - get_register s rt) in
       get_register s' rd = r /\ get_register s' ro = r .^ a /\ keeps [rd; ro; TMP] s s').
Proof using All.
  intros Hne. instructions. chain. cbv zeta. split; [regs; done|split; [|keep]]. regs.
  by rewrite (Z.lxor_comm (get_register _ _)), Z.land_diag.
Qed.
End Shapes.

Lemma neqb_true a b : a <> b -> negb (a =? b) = true.
Proof using. intros. by apply negb_true_iff, Z.eqb_neq. Qed.
Local Ltac asserts := apply runs_not_in_delay_slot; repeat (apply runs_assert; [by apply neqb_true|]).

Lemma detects_mono f rd rs rt ro X Y s s' :
  X ⊆ Y -> detects f rd rs rt ro X s s' -> detects f rd rs rt ro Y s s'.
Proof using. intros HXY (?&?&?). split; [done|]. split; [done|]. by eapply keeps_mono. Qed.

(** The scratch register is needed when all three registers are one. *)
Lemma runs_AdduDetectOverflow rd rs rt ro scratch :
  reg rd -> reg rs -> reg rt -> reg ro -> rd <> ZR -> ro <> ZR ->
  rd <> ro -> rd <> TMP -> ro <> TMP -> ro <> rs -> ro <> rt -> rs <> TMP -> rt <> TMP ->
  (rd = rs -> rs = rt ->
     reg scratch /\ scratch <> ZR /\ scratch <> TMP /\ scratch <> rd /\ scratch <> ro) ->
  runs (AdduDetectOverflow rd rs rt ro scratch) () (detects Z.add rd rs rt ro [scratch; rd; ro; TMP]).
Proof using All.
  intros Hrd Hrs Hrt Hro Hrd0 Hro0 Hrdro HrdT HroT Hrors Hrort HrsT HrtT Hsc. asserts.
  destruct ((rs =? rt) && (rd =? rs)) eqn:Esame.
  - apply andb_true_iff in Esame as [<-%Z.eqb_eq <-%Z.eqb_eq].
    destruct (Hsc eq_refl eq_refl) as (Hsr&Hs0&HsT&Hsrd&Hsro). cbn [andb].
    eapply runs_weaken; [|eapply (runs_bind _ _ scratch)].
    2: { apply runs_assert; [apply neqb_true; unfold kNoRegister, isU in *; lia|].
         repeat (apply runs_assert; [by apply neqb_true|]).
         eapply runs_bind; [by apply runs_mov|apply runs_ret]. }
    2: { cbv beta. rewrite Z.eqb_refl. by apply (runs_add_rd_rs rd rd scratch ro). }
    intros s s' Hs _ (s1&Hs1&(?&_&Hw&<-)&(E1&E2&HK)). cbv beta in Hw.
    rewrite (get_writes_same _ _ _ _ Hw), (get_writes_other _ _ _ _ rd Hw) in E1, E2 by done.
    split; [done|]. split; [done|]. apply (keeps_mono _ (scratch :: [rd; ro; TMP])) in HK; [|by right].
    apply (keeps_trans_same _ _ _ _ ltac:(eapply (writes_keeps_in _ _ _ _ _ Hw); [done..|by left]) HK).
  - eapply (runs_weaken _ _ (detects Z.add rd rs rt ro [rd; ro; TMP]));
      [intros s s' _ _; apply detects_mono; by right|].
    eapply runs_weaken; [|eapply runs_bind; [apply runs_ret|]]; cbv beta.
    + intros s s' _ _ (s1&_&<-&HP). exact HP.
    + destruct (Z.eqb_spec rd rs) as [<-|Hne]; [|destruct (Z.eqb_spec rd rt) as [<-|Hne']].
      * apply (runs_add_rd_rs rd rd rt ro); try done. rewrite andb_true_r in Esame. apply Z.eqb_neq in Esame. done.
      * by apply (runs_add_rd_rt rd rs rd ro).
      * by apply runs_add_rd.
Qed.

Lemma runs_SubuDetectOverflow rd rs rt ro :
  reg rd -> reg rs -> reg rt -> reg ro -> rd <> ZR -> ro <> ZR ->
  rd <> ro -> rd <> TMP -> ro <> TMP -> ro <> rs -> ro <> rt -> rs <> TMP -> rt <> TMP ->
  rd <> rs \/ rs = rt ->
  runs (SubuDetectOverflow rd rs rt ro) () (detects Z.sub rd rs rt ro [rd; ro; TMP]).
Proof using All.
  intros Hrd Hrs Hrt Hro Hrd0 Hro0 Hrdro HrdT HroT Hrors Hrort HrsT HrtT Hne. asserts.
  destruct (Z.eqb_spec rs rt) as [<-|Hrsrt].
  - instructions. chain. change (get_register _ ZR) with 0 in *. split; [|split; [|keep]]; regs.
    + by rewrite Z.sub_diag.
    + change (get_register _ ZR) with 0. rewrite Z.sub_diag. unfold isS. lia.
  - destruct Hne as [Hne|]; [|done]. rewrite (proj2 (Z.eqb_neq rd rs)) by done.
    destruct (Z.eqb_spec rd rt) as [<-|Hne'].
    + by apply (runs_sub_rd_rt rd rs rd ro).
    + by apply runs_sub_rd.
Qed.

(** [rd == rs]: the result is right, but the sign of [ro] says only that the
    result and the left operand differ in sign. *)
Lemma runs_SubuDetectOverflow_in_place rd rt ro :
  reg rd -> reg rt -> reg ro -> rd <> ZR -> ro <> ZR ->
  rd <> ro -> rd <> TMP -> ro <> TMP -> ro <> rt -> rt <> TMP -> rd <> rt ->
  runs (SubuDetectOverflow rd rd rt ro) () (fun s s' =>
    let a := get_register s rd in
    let r := s32 (a - get_register s rt) in
    get_register s' rd = r /\ get_register s' ro = r .^ a /\ keeps [rd; ro; TMP] s s').
Proof using All.
  intros. asserts. rewrite (proj2 (Z.eqb_neq rd rt)) by done. rewrite Z.eqb_refl.
  by apply (runs_sub_rd_rs rd rd rt ro).
Qed.

(** The immediate is loaded into [rd] first, so [rs] must be another register. *)
Lemma runs_AddImmediateDetectOverflow rd rs imm ro scratch :
  reg rd -> reg rs -> reg ro -> rd <> ZR -> ro <> ZR -> isS 32 imm ->
  rd <> ro -> rd <> TMP -> ro <> TMP -> ro <> rs -> rs <> TMP -> rd <> rs ->
  runs (AddImmediateDetectOverflow rd rs imm ro scratch) () (fun s s' =>
    get_register s' rd = s32 (get_register s rs + imm)
    /\ (get_register s' ro < 0 <-> ~ isS 32 (get_register s rs + imm))
    /\ keeps [scratch; rd; ro; TMP] s s').
Proof using All.
  intros Hrd Hrs Hro Hrd0 Hro0 Hi Hrdro HrdT HroT Hrors HrsT Hne. apply runs_not_in_delay_slot.
  eapply runs_weaken; [|eapply runs_bind;
    [by apply runs_LoadImmediate|apply runs_AdduDetectOverflow; try done; by intros ->]].
  intros s s' Hs _ (s1&Hs1&[E1 K1]&E2&E3&K2).
  rewrite E1, (keeps_regs _ _ _ K1 rs) in E2, E3 by (done || by rewrite list_elem_of_singleton).
  split; [done|]. split; [done|]. eapply keeps_trans_same; [|exact K2].
  eapply keeps_mono; [|exact K1]. intros r ->%list_elem_of_singleton. rewrite !elem_of_cons. auto.
Qed.
End Macros.

(** ** Properties *)

(** [LoadImmediate rd value] assembles, for every 32-bit value and every
    register but ZR, to a block that leaves the value in [rd] and changes
    nothing else, whichever of its three code shapes is chosen. *)
Theorem LoadImmediate_correct `{HostOk} rd value :
  reg rd -> rd <> ZR -> isS 32 value ->
  computes (LoadImmediate rd value) (fun s s' => get_register s' rd = value /\ keeps [rd] s s').
Proof. intros. by apply runs_computes, runs_LoadImmediate. Qed.

Lemma LoadImmediate_correct_witness :
  computes (LoadImmediate T0 0x12345678)
    (fun s s' => get_register s' T0 = 0x12345678 /\ keeps [T0] s s').
Proof. apply (LoadImmediate_correct T0 0x12345678); done. Defined.

(** [AddImmediate], [AndImmediate], [OrImmediate] and [XorImmediate] apply
    their operation to [rs] and any 32-bit constant, clobbering at most TMP. *)
Theorem immediate_macros_correct `{HostOk} rd rs value :
  reg rd -> rd <> ZR -> reg rs -> rs <> TMP -> isS 32 value ->
  computes (AddImmediate rd rs value) (binop_imm rd rs (fun x => s32 (x + value)))
  /\ computes (AndImmediate rd rs value) (binop_imm rd rs (fun x => x .& value))
  /\ computes (OrImmediate rd rs value) (binop_imm rd rs (fun x => x .| value))
  /\ computes (XorImmediate rd rs value) (binop_imm rd rs (fun x => x .^ value)).
Proof.
  intros. repeat split; apply runs_computes.
  - by apply runs_AddImmediate.
  - by apply runs_AndImmediate.
  - by apply runs_OrImmediate.
  - by apply runs_XorImmediate.
Qed.

Lemma immediate_macros_correct_witness :
  computes (AddImmediate T0 T1 0x12345) (binop_imm T0 T1 (fun x => s32 (x + 0x12345))).
Proof. apply (immediate_macros_correct T0 T1 0x12345); done. Defined.

(** C29: After [AdduDetectOverflow rd rs rt ro scratch], [rd] holds the 32-bit sum
    and [ro] is negative exactly when the signed addition overflowed, for every
    aliasing of [rd], [rs] and [rt]; only [rd], [ro], TMP and [scratch] change.  [rd]
    and [ro] are distinct and neither ZR nor TMP, [ro] is not an operand, no operand is
    TMP, and [scratch] is a further register when all three are the same. *)
Theorem AdduDetectOverflow_correct `{HostOk} rd rs rt ro scratch :
  reg rd -> reg rs -> reg rt -> reg ro -> rd <> ZR -> ro <> ZR ->
  rd <> ro -> rd <> TMP -> ro <> TMP -> ro <> rs -> ro <> rt -> rs <> TMP -> rt <> TMP ->
  (rd = rs -> rs = rt ->
     reg scratch /\ scratch <> ZR /\ scratch <> TMP /\ scratch <> rd /\ scratch <> ro) ->
  computes (AdduDetectOverflow rd rs rt ro scratch) (detects Z.add rd rs rt ro [scratch; rd; ro; TMP]).
Proof. intros. by apply runs_computes, runs_AdduDetectOverflow. Qed.

Lemma AdduDetectOverflow_correct_witness :
  computes (AdduDetectOverflow T0 T0 T0 CMPRES1 T1) (detects Z.add T0 T0 T0 CMPRES1 [T1; T0; CMPRES1; TMP]).
Proof. apply (AdduDetectOverflow_correct T0 T0 T0 CMPRES1 T1); done. Defined.

(** After [SubuDetectOverflow rd rs rt ro] with [rd] different from [rs] (or
    [rs] equal to [rt]), [rd] holds the 32-bit difference and [ro] is negative
    exactly when the signed subtraction overflowed; only [rd], [ro] and TMP
    change. *)
Theorem SubuDetectOverflow_correct `{HostOk} rd rs rt ro :
  reg rd -> reg rs -> reg rt -> reg ro -> rd <> ZR -> ro <> ZR ->
  rd <> ro -> rd <> TMP -> ro <> TMP -> ro <> rs -> ro <> rt -> rs <> TMP -> rt <> TMP ->
  rd <> rs \/ rs = rt ->
  computes (SubuDetectOverflow rd rs rt ro) (detects Z.sub rd rs rt ro [rd; ro; TMP]).
Proof. intros. by apply runs_computes, runs_SubuDetectOverflow. Qed.

Lemma SubuDetectOverflow_correct_witness :
  computes (SubuDetectOverflow V0 T0 T1 CMPRES1) (detects Z.sub V0 T0 T1 CMPRES1 [V0; CMPRES1; TMP]).
Proof. apply (SubuDetectOverflow_correct V0 T0 T1 CMPRES1); try done. by left. Defined.

(** [SubuDetectOverflow rd rd rt ro], subtracting in place, never looks at the
    right operand again: [ro] is negative exactly when the result and the left
    operand differ in sign, so a genuine overflow is always reported but so is,
    for example, [1 - 2]. *)
Theorem SubuDetectOverflow_in_place `{HostOk} rd rt ro :
  reg rd -> reg rt -> reg ro -> rd <> ZR -> ro <> ZR ->
  rd <> ro -> rd <> TMP -> ro <> TMP -> ro <> rt -> rt <> TMP -> rd <> rt ->
  computes (SubuDetectOverflow rd rd rt ro) (fun s s' =>
    let a := get_register s rd in
    let d := a - get_register s rt in
    get_register s' rd = s32 d
    /\ (get_register s' ro < 0 <-> (a < 0 <-> 0 <= s32 d))
    /\ (~ isS 32 d -> get_register s' ro < 0)
    /\ (a = 1 -> get_register s rt = 2 -> isS 32 d /\ get_register s' ro < 0)).
Proof.
  intros. apply runs_computes. eapply runs_weaken; [|by apply runs_SubuDetectOverflow_in_place].
  intros s s' Hs _ (E1&E2&_). cbv zeta in *.
  pose proof (get_register_isS s rd Hs) as Ha. pose proof (get_register_isS s rt Hs) as Hb.
  pose proof (Z.lxor_nonneg (s32 (get_register s rd - get_register s rt)) (get_register s rd)) as Hx.
  rewrite <- E2 in Hx. revert Ha Hb Hx. rewrite E1. generalize (get_register s rd), (get_register s rt).
  generalize (get_register s' ro). unfold isS, wrapS. change (2 ^ (32 - 1)) with 2147483648.
  intros o a b Ha Hb Hx. split; [done|]. split; [lia|]. split; [divlia|]. intros -> ->.
  change ((1 - 2 + 2147483648) mod 2 ^ 32 - 2147483648) with (-1) in Hx. lia.
Qed.

Lemma SubuDetectOverflow_in_place_witness :
  exists P, computes (SubuDetectOverflow T0 T0 T1 CMPRES1) P.
Proof. eexists. apply (SubuDetectOverflow_in_place T0 T1 CMPRES1); done. Defined.

(** [AddImmediateDetectOverflow rd rs imm ro scratch] with [rd] different from
    [rs] adds the constant and detects the overflow.  With [rd == rs], which
    the comment on the method allows when a scratch register is given, it
    loads the constant over the operand and computes [imm + imm]. *)
Theorem AddImmediateDetectOverflow_correct `{HostOk} rd rs imm ro scratch :
  reg rd -> reg rs -> reg ro -> rd <> ZR -> ro <> ZR -> isS 32 imm ->
  rd <> ro -> rd <> TMP -> ro <> TMP -> ro <> rs -> rs <> TMP ->
  reg scratch -> scratch <> ZR -> scratch <> TMP -> scratch <> rd -> scratch <> ro ->
  computes (AddImmediateDetectOverflow rd rs imm ro scratch) (fun s s' =>
    if rd =? rs then get_register s' rd = s32 (imm + imm)
    else get_register s' rd = s32 (get_register s rs + imm)
         /\ (get_register s' ro < 0 <-> ~ isS 32 (get_register s rs + imm))
         /\ keeps [scratch; rd; ro; TMP] s s').
Proof.
  intros. apply runs_computes. destruct (Z.eqb_spec rd rs) as [<-|Hne].
  - apply runs_not_in_delay_slot. eapply runs_weaken; [|eapply runs_bind;
      [by apply runs_LoadImmediate|by apply runs_AdduDetectOverflow]].
    intros s s' Hs _ (s1&Hs1&[E1 _]&E2&_). by rewrite E1 in E2.
  - by apply runs_AddImmediateDetectOverflow.
Qed.

Lemma AddImmediateDetectOverflow_correct_witness :
  exists P, computes (AddImmediateDetectOverflow T7 T4 2 T5 T6) P.
Proof. eexists. apply (AddImmediateDetectOverflow_correct T7 T4 2 T5 T6); done. Defined.

End MipsMacroProps.
