(* ===== verification/MipsBranch.v ===== *)
(** * Branches: encoding, execution, and the compare-and-branch macros

    A conditional branch assembled to a bound label, placed in memory with the
    nop of its delay slot, brings the machine to the label exactly when its
    condition holds; the macros ([BranchOnCondition], [BranchSignedGreater],
    ...) branch exactly on the relation they are named after. *)

From stdpp Require Import base numbers list gmap.
From Stdlib Require Import ZArith Lia.
From S2P Require Import Prelude Utils BitField MipsConstants MipsEncoding MipsSimulator MipsAssembler MipsMacros MipsInvariant MipsExec MipsMacroProps.

Local Open Scope Z_scope.
Local Open Scope mach_scope.

Module MipsBranch.
Import Mips MipsEncoding MipsSimulator MipsAssembler MipsMacros MipsInvariant MipsExec MipsMacroProps.
Local Open Scope asm_scope.

(** ** Branch offsets *)

Lemma low16_replace instr v : (instr .& Z.lnot kBranchOffsetMask) .| (v .& kBranchOffsetMask) =
  (instr / 2 ^ 16) * 2 ^ 16 + v mod 2 ^ 16.
Proof.
  unfold kBranchOffsetMask. change 0x0000ffff with (Z.ones 16). rewrite Z.land_ones by lia.
  rewrite <- lor_shiftl_add by (try lia; apply Z.mod_pos_bound; lia). f_equal.
  rewrite <- Z.shiftr_div_pow2 by lia. zbits.
  destruct (Z.ltb_spec i 16), (Z.leb_spec 16 i); try lia; simpl; rewrite ?andb_true_r, ?andb_false_r; try done.
  rewrite Z.shiftr_spec by lia. by replace (i - 16 + 16) with i by lia.
Qed.

Lemma aligned4 z : Utils.IsAligned z 4 = true <-> z mod 4 = 0.
Proof. apply (Utils.IsAligned_spec z 2). lia. Qed.

Lemma CanEncode_eval offset a :
  offset mod 4 = 0 -> CanEncodeBranchOffset offset a = Ok (Utils.IsInt 18 offset, a).
Proof. intros Hal. unfold CanEncodeBranchOffset, abind. by rewrite (proj2 (aligned4 offset) Hal). Qed.

(** The offset replaces the low half of the word. *)
Lemma EncodeBranchOffset_eval offset instr a :
  offset mod 4 = 0 -> isS 18 offset ->
  EncodeBranchOffset offset instr a = Ok ((instr / 2 ^ 16) * 2 ^ 16 + (offset / 4) mod 2 ^ 16, a).
Proof.
  intros Hal Hr. unfold EncodeBranchOffset, abind. rewrite CanEncode_eval by done.
  rewrite (proj2 (Utils.IsInt_spec 18 offset ltac:(lia))) by done.
  unfold aret. by rewrite low16_replace, Z.shiftr_div_pow2 by lia.
Qed.

(** An offset out of range ends the compilation of the function. *)
Lemma EncodeBranchOffset_error offset instr a :
  offset mod 4 = 0 -> ~ isS 18 offset -> use_far_branches_ a = false ->
  EncodeBranchOffset offset instr a = Err BranchOffsetError.
Proof.
  intros Hal Hr Hf. unfold EncodeBranchOffset, abind. rewrite CanEncode_eval by done.
  destruct (Utils.IsInt 18 offset) eqn:E; [by apply Utils.IsInt_spec in E|].
  unfold use_far_branches. by rewrite Hf.
Qed.

Lemma DecodeBranchOffset_eval w : DecodeBranchOffset w = 4 * s16 w.
Proof.
  unfold DecodeBranchOffset, kBranchOffsetMask. change 0x0000ffff with (Z.ones 16).
  rewrite Z.land_ones by lia.
  rewrite Z.shiftl_mul_pow2, Z.shiftr_div_pow2 by lia. unfold wrapS.
  change (2 ^ 16) with 65536. change (2 ^ (16 - 1)) with 32768. change (2 ^ 14) with 16384.
  change (2 ^ (32 - 1)) with 2147483648. change (2 ^ 32) with 4294967296. divlia.
Qed.

(** ** A branch instruction and its delay slot *)

(** What executing a taken or untaken branch at [s] leaves: the nop of the delay
    slot has been executed too. *)
Definition branched (s : Simulator) (target : Z) : Simulator :=
  with_pc (with_delay_slot (with_icount s (u64 (icount_ s + 1))) false) target.

Section Branch.
Context `{HostOk}.

Lemma decode_nop level s : InstructionDecode_upto level s kNopInstruction =
  Ok (with_pc s (u32 (pc_ s + kInstrSize))).
Proof using. destruct level; reflexivity. Qed.

Lemma ExecuteDelaySlot_nop level s :
  pc_ s + 4 < 2 ^ 32 -> 0 <= pc_ s -> load_le (mem s) (pc_ s + 4) 4 = Ok 0 ->
  ExecuteDelaySlot_with (InstructionDecode_upto level) s =
  Ok (branched s (pc_ s + 4)).
Proof using.
  intros Hpc Hlo Hnop. unfold ExecuteDelaySlot_with, kEndSimulatingPC.
  rewrite (proj2 (Z.eqb_neq (pc_ s) 4294967295)) by lia. cbn [assert_ negb mbind result_bind]. cbv zeta.
  unfold InstrAt. cbn [mem with_icount with_delay_slot pc_]. unfold kInstrSize.
  rewrite (wrapU_id 32) by (unfold isU; lia). rewrite Hnop. cbn [mbind result_bind].
  change (s32 0) with kNopInstruction. rewrite decode_nop. cbn [mbind result_bind pc_ with_icount with_delay_slot].
  unfold kInstrSize. by rewrite (wrapU_id 32) by (unfold isU; lia).
Qed.

(** A branch word at the pc with offset [dest], and the nop behind it. *)
Definition at_branch (s : Simulator) (dest : Z) : Prop :=
  delay_slot_ s = false /\ 0 <= pc_ s /\ pc_ s + 8 < 2 ^ 32 /\ 0 <= pc_ s + 4 + dest < 2 ^ 32 /\
  load_le (mem s) (pc_ s + 4) 4 = Ok 0.

Lemma DoBranch_exec level s w taken dest :
  at_branch s dest -> SImmField w = dest / 4 -> dest mod 4 = 0 -> isS 18 dest ->
  (s ← DoBranch (ExecuteDelaySlot_with (InstructionDecode_upto level)) s w taken false;
   Ok (with_pc s (u32 (pc_ s + kInstrSize))))%stdpp =
  Ok (branched s (if taken then pc_ s + 4 + dest else pc_ s + 8)).
Proof using.
  intros (Hd&Hlo&Hhi&Ht&Hnop) Himm Hal Hr. unfold DoBranch. rewrite Hd.
  cbn [assert_ negb mbind result_bind]. cbv zeta. rewrite andb_false_r. cbn [mbind result_bind].
  rewrite ExecuteDelaySlot_nop by (done || lia). cbn [mbind result_bind branched with_pc pc_].
  do 2 f_equal. rewrite Himm, Z.shiftl_mul_pow2 by lia. unfold kInstrSize, isS, wrapS, wrapU in *.
  change (2 ^ (32 - 1)) with 2147483648. change (2 ^ 2) with 4. change (2 ^ (18 - 1)) with 131072 in Hr.
  change (2 ^ 32) with 4294967296 in *. destruct taken; divlia.
Qed.

(** The condition of each branch opcode, on the values of rs and rt. *)
Definition branch_cond (op : Opcode) : option (Z -> Z -> bool) :=
  match op with
  | BEQ => Some Z.eqb
  | BNE => Some (fun a b => negb (a =? b))
  | BGTZ => Some (fun a _ => 0 <? a)
  | BLEZ => Some (fun a _ => a <=? 0)
  | _ => None
  end.

Definition regimm_cond (b : RtRegImm) : option (Z -> bool) :=
  match b with
  | BLTZ => Some (fun a => a <? 0)
  | BGEZ => Some (fun a => 0 <=? a)
  | _ => None
  end.

Definition one_operand (op : Opcode) : bool := match op with BGTZ | BLEZ => true | _ => false end.

Lemma SImm_of_dest o rs rt dest :
  reg rs -> reg rt -> isS 18 dest -> SImmField (s32 (itype (Opcode_value o) rs rt (u16 (dest / 4)))) = dest / 4.
Proof using.
  intros ? ? Hr. rewrite SImmField_itype by auto with fields. rewrite (wrapS_wrapU 16), wrapS_id; try lia.
  unfold isS in *. change (2 ^ (18 - 1)) with 131072 in Hr. change (2 ^ (16 - 1)) with 32768. divlia.
Qed.

Lemma decode_branch op g rs rt dest s :
  branch_cond op = Some g -> reg rs -> reg rt -> (one_operand op = true -> rt = R0) ->
  dest mod 4 = 0 -> isS 18 dest -> at_branch s dest ->
  InstructionDecode s (s32 (itype (Opcode_value op) rs rt (u16 (dest / 4)))) =
  Ok (branched s (if g (get_register s rs) (get_register s rt) then pc_ s + 4 + dest else pc_ s + 8)).
Proof using.
  intros Hg Hrs Hrt H1 Hal Hr Hat. rewrite <- (DoBranch_exec 0 _ _ _ _ Hat (SImm_of_dest op rs rt dest Hrs Hrt Hr) Hal Hr).
  unfold InstructionDecode. cbn [InstructionDecode_upto].
  unfold InstructionDecode_body. autorewrite with fields. cbv zeta.
  destruct op; try discriminate Hg; injection Hg as <-; try reflexivity.
  all: rewrite (H1 eq_refl); cbn -[DoBranch itype wrapS wrapU]; rewrite ?Z.gtb_ltb; reflexivity.
Qed.

Lemma decode_regimm b g rs dest s :
  regimm_cond b = Some g -> reg rs -> dest mod 4 = 0 -> isS 18 dest -> at_branch s dest ->
  InstructionDecode s (s32 (itype (Opcode_value REGIMM) rs (RtRegImm_value b) (u16 (dest / 4)))) =
  Ok (branched s (if g (get_register s rs) then pc_ s + 4 + dest else pc_ s + 8)).
Proof using.
  intros Hg Hrs Hal Hr Hat. pose proof (RtRegImm_isU b) as Hb.
  rewrite <- (DoBranch_exec 0 _ _ _ _ Hat (SImm_of_dest REGIMM rs _ dest Hrs Hb Hr) Hal Hr).
  unfold InstructionDecode. cbn [InstructionDecode_upto].
  unfold InstructionDecode_body, DecodeRegImm. autorewrite with fields. cbv zeta.
  rewrite (RegImmFnField_eq _ b) by (apply RtField_itype; auto with fields).
  destruct b; try discriminate Hg; injection Hg as <-; rewrite ?Z.geb_leb; reflexivity.
Qed.
End Branch.

(** ** Assembling a branch to a bound label *)

(** The label bound at byte position [p]. *)
Definition bound_at (p : Z) : Label := - p - kWordSize.

Definition assembles {A} (a : Assembler) (m : AsmM A) (x : A) (ws : list Z) : Prop :=
  exists a', m a = Ok (x, a') /\ buffer_ a' = buffer_ a ++ ws /\ in_delay_slot_ a' = false
    /\ use_far_branches_ a' = use_far_branches_ a.

Lemma emits_assembles {A} (m : AsmM A) x ws a : emits m x ws -> in_delay_slot_ a = false -> assembles a m x ws.
Proof. intros Hm Ha. destruct (Hm a Ha) as (a'&?&?&?&?&?&?). exists a'. auto. Qed.

Lemma assembles_bind {A B} a (m : AsmM A) (k : A -> AsmM B) x y ws1 ws2 :
  assembles a m x ws1 ->
  (forall a', buffer_ a' = buffer_ a ++ ws1 -> in_delay_slot_ a' = false ->
     use_far_branches_ a' = use_far_branches_ a -> assembles a' (k x) y ws2) ->
  assembles a (abind m k) y (ws1 ++ ws2).
Proof.
  intros (a1&E1&B1&D1&U1) H2. destruct (H2 a1 B1 D1 U1) as (a2&E2&B2&D2&U2).
  exists a2. unfold abind. rewrite E1, E2, B2, B1, <- app_assoc, U2. auto.
Qed.

Lemma assembles_in_slot {A} a (k : AsmM A) x ws :
  in_delay_slot_ a = false -> assembles a k x ws -> assembles a (assert_not_in_delay_slot;; k) x ws.
Proof. intros Ha (a'&E&H). exists a'. unfold abind, assert_not_in_delay_slot. by rewrite Ha. Qed.

Lemma Position_bound p a : 0 <= p -> Position (bound_at p) a = Ok (p, a).
Proof.
  intros. unfold Position, IsUnused, IsBound, bound_at, kWordSize, abind, aassert.
  rewrite (proj2 (Z.eqb_neq _ _)), (proj2 (Z.ltb_lt _ _)) by lia. unfold aret. simpl. do 2 f_equal. lia.
Qed.

Lemma IsBound_bound_at p : 0 <= p -> IsBound (bound_at p) = true.
Proof. intros. unfold IsBound, bound_at, kWordSize. lia. Qed.

(** The distance from a branch emitted next to the label at [p]. *)
Definition distance (a : Assembler) (p : Z) : Z := p - (Size a + kInstrSize).

(** [p] is a position in the buffer that a branch emitted after [n] more words
    can reach, without far branches. *)
Record reachable (a : Assembler) (p : Z) (n : Z) : Prop := {
  r_slot : in_delay_slot_ a = false;
  r_near : use_far_branches_ a = false;
  r_pos : 0 <= p;
  r_aligned : p mod 4 = 0;
  r_range : isS 18 (distance a p) /\ isS 18 (distance a p - 4 * n)
}.

Lemma distance_aligned a p : p mod 4 = 0 -> distance a p mod 4 = 0.
Proof. intros. unfold distance, Size, kInstrSize. divlia. Qed.

Lemma Size_app a a' ws :
  buffer_ a' = buffer_ a ++ ws -> Size a' = Size a + 4 * Z.of_nat (length ws).
Proof. intros E. unfold Size, kInstrSize. rewrite E, length_app. lia. Qed.

Lemma isS18_s32 z : isS 18 z -> s32 z = z.
Proof. intros. apply wrapS_id; [lia|]. unfold isS in *. lia. Qed.

Lemma assembles_EmitBranch op rs rt a p :
  reachable a p 0 -> reg rs -> reg rt ->
  assembles a (EmitBranch op rs rt (bound_at p)) (bound_at p)
    [s32 (itype (Opcode_value op) rs rt (u16 (distance a p / 4)))].
Proof.
  intros [Hd Hn Hp Hal [Hr _]] Hrs Hrt. apply assembles_in_slot; [done|].
  destruct (emits_EmitIType op rs rt (u16 (distance a p / 4)) Hrs Hrt ltac:(apply wrapU_range; lia) a Hd)
    as (a'&E&B&D&_&U&_).
  exists a'. split; [|auto]. unfold abind, use_far_branches, aget. rewrite Hn, IsBound_bound_at by done.
  rewrite Position_bound by done. unfold aret. cbn [andb]. fold (distance a p). rewrite isS18_s32 by done.
  rewrite EncodeBranchOffset_eval by auto using distance_aligned.
  change (0 / 2 ^ 16 * 2 ^ 16 + (distance a p / 4) mod 2 ^ 16) with (u16 (distance a p / 4)).
  rewrite (wrapU_id 16 (u16 _)) by (apply wrapU_range; lia). by rewrite E.
Qed.

Lemma assembles_EmitRegImmBranch b rs a p :
  reachable a p 0 -> reg rs ->
  assembles a (EmitRegImmBranch b rs (bound_at p)) (bound_at p)
    [s32 (itype (Opcode_value REGIMM) rs (RtRegImm_value b) (u16 (distance a p / 4)))].
Proof.
  intros [Hd Hn Hp Hal [Hr _]] Hrs. apply assembles_in_slot; [done|].
  pose proof (emits_EmitRegImmType b rs (u16 (distance a p / 4)) Hrs ltac:(apply wrapU_range; lia) a Hd)
    as (a'&E&B&D&_&U&_).
  exists a'. split; [|auto]. unfold abind, use_far_branches, aget. rewrite Hn, IsBound_bound_at by done.
  rewrite Position_bound by done. unfold aret. cbn [andb]. fold (distance a p). rewrite isS18_s32 by done.
  rewrite EncodeBranchOffset_eval by auto using distance_aligned.
  change (0 / 2 ^ 16 * 2 ^ 16 + (distance a p / 4) mod 2 ^ 16) with (u16 (distance a p / 4)).
  rewrite (wrapU_id 16 (u16 _)) by (apply wrapU_range; lia). by rewrite E.
Qed.

Lemma assembles_nop_ret {A} a (x : A) :
  in_delay_slot_ a = false -> assembles a (EmitBranchDelayNop;; aret x) x [kNopInstruction].
Proof. intros. eexists. split; [reflexivity|]. cbn. auto. Qed.

(** ** Compare and branch *)

Section BranchCode.
Context `{HostOk}.

(** [m label] assembles, for every label that is bound and reachable (with [n]
    words before the branch), to code that goes to the label when [C] holds
    and falls through otherwise, changing only the registers in [X]. *)
Definition branch_code (n : Z) (m : Label -> AsmM Label) (C : Simulator -> bool) (X : list Register) : Prop :=
  forall a p, reachable a p n -> exists ws,
    assembles a (m (bound_at p)) (bound_at p) ws /\
    forall s, sim_wf s -> delay_slot_ s = false -> loaded s ws -> 0 <= pc_ s - Size a + p < 2 ^ 32 ->
    exists k s', Steps k s = Ok s' /\ sim_wf s' /\ delay_slot_ s' = false
      /\ pc_ s' = (if C s then pc_ s - Size a + p else pc_ s + 4 * Z.of_nat (length ws))
      /\ keeps X s s'.

Lemma branched_keeps s pc : keeps [] s (branched (tick s) pc).
Proof using. by constructor. Qed.

Lemma branched_wf s pc : sim_wf s -> isU 32 pc -> sim_wf (branched s pc).
Proof using.
  intros. unfold branched. apply with_pc_wf; [|done]. apply with_delay_slot_wf, with_icount_wf; [done|].
  apply wrapU_range. lia.
Qed.

(** One branch word with its nop. *)
Lemma branch_word (m : Label -> AsmM Label) (word : Z -> Z) (C : Simulator -> bool) :
  (forall a p, reachable a p 0 -> assembles a (m (bound_at p)) (bound_at p) [word (distance a p); kNopInstruction]) ->
  (forall d, isS 32 (word d)) ->
  (forall s d, d mod 4 = 0 -> isS 18 d -> at_branch s d ->
     InstructionDecode s (word d) = Ok (branched s (if C s then pc_ s + 4 + d else pc_ s + 8))) ->
  (forall s, C (tick s) = C s) ->
  branch_code 0 m C [].
Proof using All.
  intros Hm Hw Hexec HC a p Hr. exists [word (distance a p); kNopInstruction]. split; [by apply Hm|].
  intros s Hs Hd Hl Hbase. pose proof Hl as (Hlo&Hhi&Hc1&Hc2&_). cbn [length] in Hhi.
  assert (pc_ s - Size a + p = pc_ s + 4 + distance a p) as Ep by (unfold distance, kInstrSize; lia).
  assert (at_branch (tick s) (distance a p)) as Hat.
  { unfold at_branch, tick. cbn [delay_slot_ pc_ mem with_icount]. split; [done|]. repeat split; try lia. done. }
  pose proof (Hexec (tick s) (distance a p) (distance_aligned a p (r_aligned _ _ _ Hr))
                (proj1 (r_range _ _ _ Hr)) Hat) as Hx.
  rewrite HC in Hx. exists 1%nat. eexists. split.
  { cbn [Steps]. rewrite (Step_loaded s _ _ (Hw _) Hl), Hx. reflexivity. }
  cbn [pc_ tick with_icount length] in *. split.
  { apply branched_wf; [by apply tick_wf|]. unfold isU. destruct (C s); lia. }
  split; [done|]. split; [|apply branched_keeps].
  cbn [branched with_pc pc_]. destruct (C s); lia.
Qed.

Lemma code_EmitBranch op g rs rt :
  branch_cond op = Some g -> reg rs -> reg rt -> (one_operand op = true -> rt = R0) ->
  branch_code 0 (fun l => assert_not_in_delay_slot;; l ← EmitBranch op rs rt l; EmitBranchDelayNop;; aret l)
    (fun s => g (get_register s rs) (get_register s rt)) [].
Proof using All.
  intros Hg Hrs Hrt H1.
  apply (branch_word _ (fun d => s32 (itype (Opcode_value op) rs rt (u16 (d / 4))))); [|..|done].
  - intros a p Hr. apply assembles_in_slot; [apply Hr|].
    apply (assembles_bind _ _ _ (bound_at p) _ [_] [_]); [by apply assembles_EmitBranch|].
    intros. by apply assembles_nop_ret.
  - intros. apply wrapS_range. lia.
  - intros s d ? ? ?. by apply decode_branch.
Qed.

Lemma code_EmitRegImmBranch b g rs :
  regimm_cond b = Some g -> reg rs ->
  branch_code 0 (fun l => assert_not_in_delay_slot;; l ← EmitRegImmBranch b rs l; EmitBranchDelayNop;; aret l)
    (fun s => g (get_register s rs)) [].
Proof using All.
  intros Hg Hrs.
  apply (branch_word _ (fun d => s32 (itype (Opcode_value REGIMM) rs (RtRegImm_value b) (u16 (d / 4))))); [|..|done].
  - intros a p Hr. apply assembles_in_slot; [apply Hr|].
    apply (assembles_bind _ _ _ (bound_at p) _ [_] [_]); [by apply assembles_EmitRegImmBranch|].
    intros. by apply assembles_nop_ret.
  - intros. apply wrapS_range. lia.
  - intros s d ? ? ?. by apply decode_regimm.
Qed.

Lemma code_beq rs rt : reg rs -> reg rt -> branch_code 0 (beq rs rt) (fun s => get_register s rs =? get_register s rt) [].
Proof using All. intros. by apply (code_EmitBranch BEQ Z.eqb). Qed.
Lemma code_bne rs rt :
  reg rs -> reg rt -> branch_code 0 (bne rs rt) (fun s => negb (get_register s rs =? get_register s rt)) [].
Proof using All. intros. by apply (code_EmitBranch BNE (fun a b => negb (a =? b))). Qed.
Lemma code_bgtz rs : reg rs -> branch_code 0 (bgtz rs) (fun s => 0 <? get_register s rs) [].
Proof using All. intros. by apply (code_EmitBranch BGTZ (fun a _ => 0 <? a)). Qed.
Lemma code_blez rs : reg rs -> branch_code 0 (blez rs) (fun s => get_register s rs <=? 0) [].
Proof using All. intros. by apply (code_EmitBranch BLEZ (fun a _ => a <=? 0)). Qed.
Lemma code_bltz rs : reg rs -> branch_code 0 (bltz rs) (fun s => get_register s rs <? 0) [].
Proof using All. intros. by apply (code_EmitRegImmBranch BLTZ (fun a => a <? 0)). Qed.
Lemma code_bgez rs : reg rs -> branch_code 0 (bgez rs) (fun s => 0 <=? get_register s rs) [].
Proof using All. intros. by apply (code_EmitRegImmBranch BGEZ (fun a => 0 <=? a)). Qed.

(** ** A computation before the branch *)

Lemma emits_functional {A} (m : AsmM A) x y ws1 ws2 : emits m x ws1 -> emits m y ws2 -> ws1 = ws2.
Proof using.
  intros H1 H2. destruct (H1 (empty_assembler false) eq_refl) as (a1&E1&B1&_).
  destruct (H2 (empty_assembler false) eq_refl) as (a2&E2&B2&_). rewrite E1 in E2. injection E2 as <- <-. simpl in *. congruence.
Qed.

Lemma Steps_app n k s : Steps (n + k) s = (Steps n s ≫= Steps k)%stdpp.
Proof using.
  revert s. induction n as [|n IH]; intros s; [done|]. cbn [Nat.add Steps].
  destruct (Step s); [apply IH|done].
Qed.

Lemma code_at_app m addr ws1 ws2 :
  code_at m addr (ws1 ++ ws2) <-> code_at m addr ws1 /\ code_at m (addr + 4 * Z.of_nat (length ws1)) ws2.
Proof using.
  revert addr. induction ws1 as [|w ws1 IH]; intros addr; cbn [app code_at length].
  - rewrite Z.add_0_r. tauto.
  - rewrite IH. replace (addr + 4 + 4 * Z.of_nat (length ws1)) with (addr + 4 * Z.of_nat (S (length ws1))) by lia.
    tauto.
Qed.

Lemma loaded_app s ws1 ws2 :
  loaded s (ws1 ++ ws2) ->
  loaded s ws1 /\ (forall s', pc_ s' = pc_ s + 4 * Z.of_nat (length ws1) -> mem s' = mem s -> loaded s' ws2).
Proof using.
  intros (Hlo&Hhi&Hc). rewrite length_app in Hhi. apply code_at_app in Hc as [Hc1 Hc2]. split.
  - split; [done|]. split; [lia|done].
  - intros s' Hpc Hm. unfold loaded. rewrite Hpc, Hm. split; [lia|]. split; [lia|done].
Qed.

(** [m] assembles to at most [n] words. *)
Definition short (n : Z) (m : AsmM unit) : Prop := exists ws, emits m () ws /\ Z.of_nat (length ws) <= n.

Lemma reachable_after a a' p ws n k :
  reachable a p (n + k) -> Z.of_nat (length ws) <= n -> 0 <= k ->
  buffer_ a' = buffer_ a ++ ws -> in_delay_slot_ a' = false -> use_far_branches_ a' = use_far_branches_ a ->
  reachable a' p k.
Proof using.
  intros [Hd Hn Hp Hal Hr] Hlen Hk Hb Hd' Hu. constructor; try congruence.
  unfold distance in *. rewrite (Size_app a a' ws Hb). unfold isS, kInstrSize in *. lia.
Qed.

Lemma branch_after n k (m : AsmM unit) br (P : Simulator -> Simulator -> Prop) C D X Y :
  runs m () P -> short n m -> branch_code k br C Y -> 0 <= k ->
  (forall s s', sim_wf s -> sim_wf s' -> P s s' -> C s' = D s /\ keeps X s s') -> Y ⊆ X ->
  branch_code (n + k) (fun l => m;; br l) D X.
Proof using All.
  intros (ws1&Em&Fm&Rm) (ws1'&Em'&Hlen) Hbr Hk HCD HYX a p Hr.
  rewrite (emits_functional m _ _ _ _ Em' Em) in Hlen. clear ws1' Em'.
  destruct (Em a (r_slot _ _ _ Hr)) as (a1&E1&B1&D1&_&U1&_).
  pose proof (reachable_after a a1 p ws1 n k Hr Hlen Hk B1 D1 U1) as Hr1.
  destruct (Hbr a1 p Hr1) as (ws2&(a2&E2&B2&D2&U2)&Hx). exists (ws1 ++ ws2). split.
  { exists a2. unfold abind. rewrite E1, E2, B2, B1, <- app_assoc, U2. auto. }
  intros s Hs Hd Hl Hbase. apply loaded_app in Hl as [Hl1 Hl2].
  destruct (Rm s Hs) as (s1&X1&W1&HP). destruct (HCD s s1 Hs W1 HP) as [HC HK].
  destruct (Steps_block ws1 s s1 Fm Hs Hl1 X1) as (XS&Xpc&Xm&Xd).
  pose proof (Size_app a a1 ws1 B1) as Hsz.
  destruct (Hx s1 W1 ltac:(congruence) (Hl2 s1 Xpc Xm) ltac:(lia)) as (j&s2&X2&W2&Hd2&Hpc2&HK2).
  exists (length ws1 + j)%nat, s2. rewrite Steps_app, XS. cbn [mbind result_bind].
  split; [done|]. split; [done|]. split; [done|]. split.
  - rewrite Hpc2, HC, length_app, Hsz, Xpc. destruct (D s); lia.
  - eapply keeps_trans_same; [exact HK|]. by eapply keeps_mono.
Qed.

Lemma branch_code_more n k m C X Y :
  branch_code n m C X -> 0 <= n <= k -> X ⊆ Y -> branch_code k m C Y.
Proof using.
  intros Hm Hnk HXY a p [Hd Hn Hp Hal Hr].
  destruct (Hm a p) as (ws&Ha&Hx); [constructor; try done; unfold isS in *; lia|].
  exists ws. split; [done|]. intros s Hs Hds Hl Hb. destruct (Hx s Hs Hds Hl Hb) as (k'&s'&?&?&?&?&?).
  exists k', s'. do 4 (split; [done|]). by eapply keeps_mono.
Qed.

Lemma branch_code_ext n m C D X : branch_code n m C X -> (forall s, sim_wf s -> C s = D s) -> branch_code n m D X.
Proof using.
  intros Hm HCD a p Hr. destruct (Hm a p Hr) as (ws&Ha&Hx). exists ws. split; [done|].
  intros s Hs Hds Hl Hb. destruct (Hx s Hs Hds Hl Hb) as (k'&s'&?&?&?&Hpc&?).
  rewrite (HCD s Hs) in Hpc. eauto 10.
Qed.

(** ** Instructions that compare into a register *)

Lemma short_EmitRType op rs rt rd f : reg rs -> reg rt -> reg rd -> short 1 (EmitRType op rs rt rd 0 f).
Proof using. intros. eexists. split; [by apply emits_EmitRType|done]. Qed.

Lemma short_imm op rs rt imm :
  reg rs -> reg rt -> isS 16 imm ->
  short 1 (aassert (Utils.IsInt kImmBits imm);; EmitIType op rs rt (u16 imm)).
Proof using.
  intros. eexists. split; [|].
  - apply emits_assert; [by apply Utils.IsInt_spec|]. apply emits_EmitIType; [done..|apply wrapU_range; lia].
  - done.
Qed.

(** A signed immediate that goes through its 16 bits. *)
Lemma runs_signed_imm op g rs rt imm :
  imm_alu op = Some g -> reg rs -> reg rt -> isS 16 imm ->
  runs (aassert (Utils.IsInt kImmBits imm);; EmitIType op rs rt (u16 imm)) ()
    (fun s s' => writes s rt (g (get_register s rs) (u16 imm)) s').
Proof using All.
  intros. apply runs_assert; [by apply Utils.IsInt_spec|]. apply runs_imm; [done..|apply wrapU_range; lia].
Qed.

Definition ucmp (a b : Z) : bool := a mod 2 ^ 32 <? b mod 2 ^ 32.

Lemma runs_slt rd rs rt : reg rd -> reg rs -> reg rt ->
  runs (slt rd rs rt) () (fun s s' => writes s rd (Z.b2z (get_register s rs <? get_register s rt)) s').
Proof using All. intros. by apply (runs_alu SLT _ rs rt rd eq_refl). Qed.
Lemma runs_sltu rd rs rt : reg rd -> reg rs -> reg rt ->
  runs (sltu rd rs rt) () (fun s s' => writes s rd (Z.b2z (ucmp (get_register s rs) (get_register s rt))) s').
Proof using All. intros. by apply (runs_alu SLTU _ rs rt rd eq_refl). Qed.
Lemma runs_slti rt rs imm : reg rt -> reg rs -> isS 16 imm ->
  runs (slti rt rs imm) () (fun s s' => writes s rt (Z.b2z (get_register s rs <? imm)) s').
Proof using All.
  intros ? ? Hi. eapply runs_weaken; [|by apply (runs_signed_imm SLTI _ rs rt imm eq_refl)].
  intros s s' _ _. cbv beta. by rewrite wrapS_wrapU, wrapS_id by (done || lia).
Qed.
Lemma runs_sltiu rt rs imm : reg rt -> reg rs -> isS 16 imm ->
  runs (sltiu rt rs imm) () (fun s s' => writes s rt (Z.b2z (ucmp (get_register s rs) imm)) s').
Proof using All.
  intros ? ? Hi. eapply runs_weaken; [|by apply (runs_signed_imm SLTIU _ rs rt imm eq_refl)].
  intros s s' _ _. cbv beta. unfold ucmp. by rewrite wrapS_wrapU, wrapS_id by (done || lia).
Qed.

(** Set a register to 0 or 1 and branch on it. *)
Lemma code_set_bne (m : AsmM unit) (f : Simulator -> bool) d :
  runs m () (fun s s' => writes s d (Z.b2z (f s)) s') -> short 1 m -> reg d -> d <> ZR ->
  branch_code 1 (fun l => m;; bne d ZR l) f [d].
Proof using All.
  intros Hm Hsh Hd Hz. eapply (branch_after 1 0 m (bne d ZR)); [done..|by apply code_bne|lia| |].
  - intros s s' Hs _ Hw. cbv beta in Hw. split; [|by eapply writes_keeps].
    rewrite (get_writes_same _ _ _ _ Hw) by done. by destruct (f s).
  - intros r Hr. by apply not_elem_of_nil in Hr.
Qed.

Lemma code_set_beq (m : AsmM unit) (f : Simulator -> bool) d :
  runs m () (fun s s' => writes s d (Z.b2z (f s)) s') -> short 1 m -> reg d -> d <> ZR ->
  branch_code 1 (fun l => m;; beq d ZR l) (fun s => negb (f s)) [d].
Proof using All.
  intros Hm Hsh Hd Hz. eapply (branch_after 1 0 m (beq d ZR)); [done..|by apply code_beq|lia| |].
  - intros s s' Hs _ Hw. cbv beta in Hw. split; [|by eapply writes_keeps].
    rewrite (get_writes_same _ _ _ _ Hw) by done. by destruct (f s).
  - intros r Hr. by apply not_elem_of_nil in Hr.
Qed.
End BranchCode.

(** ** Conditions *)

Lemma RelationOperator_isU op : isU 4 (RelationOperator_value op).
Proof. destruct op; done. Qed.

Lemma valid_register_isU r : IsValidRegister r = true -> isU 6 r /\ r <> AT /\ (r <> IMM -> reg r).
Proof.
  unfold IsValidRegister, ZR, R0, IMM, AT, R1, isU. intros H.
  apply andb_true_iff in H as [[?%Z.leb_le ?%Z.leb_le]%andb_true_iff ?%negb_true_iff%Z.eqb_neq]. lia.
Qed.

(** The constructor leaves [bits_] uninitialised, but sets every field. *)
Lemma mkCondition_fields junk l r op i c :
  isU 32 junk -> mkCondition junk l r op i = Some c ->
  left c = l /\ right c = r /\ rel_op c = Some op /\ imm c = i /\
  IsValidRegister l = true /\ IsValidRegister r = true /\ IsValidImm i = true.
Proof.
  intros Hj. unfold mkCondition. destruct (_ && _); [|done].
  unfold set_left, set_right, set_imm.
  destruct (IsValidRegister l) eqn:El; [|done]. simpl. destruct (IsValidRegister r) eqn:Er; [|done]. simpl.
  destruct (IsValidImm i) eqn:Ei; [|done]. intros [= <-].
  apply valid_register_isU in El as Hl. apply valid_register_isU in Er as Hr.
  destruct Hl as [Hl _], Hr as [Hr _]. pose proof (RelationOperator_isU op) as Hop.
  pose proof (wrapU_range 16 i ltac:(lia)) as Hi.
  unfold left, right, rel_op, imm, set_rel_op. change kLeftPos with 0. change kLeftSize with 6.
  change kRightPos with 6. change kRightSize with 6. change kRelOpPos with 12. change kRelOpSize with 4.
  change kCondImmPos with 16. change kCondImmSize with 16.
  assert (isU 32 (BitField.update 32 0 6 l junk)) as H1 by (apply BitField.update_range; done || lia).
  assert (isU 32 (BitField.update 32 6 6 r (BitField.update 32 0 6 l junk))) as H2
    by (apply BitField.update_range; done || lia).
  assert (isU 32 (BitField.update 32 12 4 (RelationOperator_value op)
            (BitField.update 32 6 6 r (BitField.update 32 0 6 l junk)))) as H3
    by (apply BitField.update_range; done || lia).
  repeat split; try done.
  - do 3 rewrite BitField.decode_update_disjoint by (done || lia). apply BitField.decode_update; done || lia.
  - do 2 rewrite BitField.decode_update_disjoint by (done || lia). apply BitField.decode_update; done || lia.
  - rewrite BitField.decode_update_disjoint, BitField.decode_update by (done || lia). by destruct op.
  - rewrite BitField.decode_update; try done; try lia. rewrite wrapS_wrapU, wrapS_id; [done|lia| |lia].
    unfold IsValidImm in Ei. unfold isS. change (2 ^ (16 - 1)) with 32768. lia.
Qed.

(** The relation a [Condition] stands for. *)
Definition holds (op : RelationOperator) (a b : Z) : bool :=
  match op with
  | AL => true
  | NV => false
  | EQ => a =? b
  | NE => negb (a =? b)
  | GT => b <? a
  | GE => b <=? a
  | LT => a <? b
  | LE => a <=? b
  | UGT => ucmp b a
  | UGE => negb (ucmp a b)
  | ULT => ucmp a b
  | ULE => negb (ucmp b a)
  end.

Definition is_unsigned (op : RelationOperator) : bool :=
  match op with UGT | UGE | ULT | ULE => true | _ => false end.

(** The value of an operand: the immediate, or a register. *)
Definition operand (i : Z) (r : Register) (s : Simulator) : Z := if r =? IMM then i else get_register s r.

Section Conditions.
Context `{HostOk}.

Lemma code_never X : branch_code 1 aret (fun _ => false) X.
Proof using.
  intros a p Hr. exists []. split.
  { exists a. rewrite app_nil_r. split; [done|]. split; [done|]. split; [apply Hr|done]. }
  intros s Hs Hd Hl Hb. exists 0%nat, s. cbn. rewrite Z.add_0_r. auto using keeps_refl.
Qed.

Lemma code_slot n m C X : branch_code n m C X -> branch_code n (fun l => assert_not_in_delay_slot;; m l) C X.
Proof using.
  intros Hm a p Hr. destruct (Hm a p Hr) as (ws&Ha&Hx). exists ws. split; [|done].
  apply assembles_in_slot; [apply Hr|done].
Qed.

Lemma code_assert n c m C X : c = true -> branch_code n m C X -> branch_code n (fun l => aassert c;; m l) C X.
Proof using. intros -> Hm a p Hr. exact (Hm a p Hr). Qed.

(** The branches of [BranchOnCondition], with AT as the only register clobbered. *)
Lemma code_direct m C D : branch_code 0 m C [] -> (forall s, sim_wf s -> C s = D s) -> branch_code 1 m D [AT].
Proof using.
  intros Hm HCD. eapply branch_code_ext; [|exact HCD]. eapply branch_code_more; [done|lia|].
  intros r Hr. by apply not_elem_of_nil in Hr.
Qed.

(** [addiu AT, ZR, imm] before an equality test. *)
Lemma code_imm_eq (m : Label -> AsmM Label) C D i :
  branch_code 0 m C [] -> isS 16 i ->
  (forall s s', keeps [AT] s s' -> get_register s' AT = i -> C s' = D s) ->
  branch_code 1 (fun l => addiu AT ZR i;; m l) D [AT].
Proof using All.
  intros Hm Hi HCD. eapply (branch_after 1 0 (addiu AT ZR i) m); [by apply runs_addiu|by apply short_imm|done|lia| |].
  - intros s s' Hs _ Hw. cbv beta in Hw. change (get_register s ZR) with 0 in Hw.
    rewrite Z.add_0_l, (wrapS_id 32) in Hw by (lia || (unfold isS in *; lia)).
    pose proof (writes_keeps _ _ _ _ Hw Hs ltac:(done)) as HK. split; [|done].
    apply HCD; [done|]. by apply (get_writes_same _ _ _ _ Hw).
  - intros r Hr. by apply not_elem_of_nil in Hr.
Qed.

Lemma mkCondition_one_constant junk l r op i c :
  mkCondition junk l r op i = Some c -> ~ ((l = ZR \/ l = IMM) /\ (r = ZR \/ r = IMM)).
Proof using.
  unfold mkCondition. destruct (_ && Bool.eqb _ _) eqn:E; [|done]. intros _.
  apply andb_true_iff in E as [E%negb_true_iff _]. intros [Hl Hr]. revert E.
  by destruct Hl as [->| ->], Hr as [->| ->].
Qed.

Lemma code_set_bne_at m f D :
  runs m () (fun s s' => writes s AT (Z.b2z (f s)) s') -> short 1 m -> (forall s, sim_wf s -> f s = D s) ->
  branch_code 1 (fun l => m;; bne AT ZR l) D [AT].
Proof using All. intros. eapply branch_code_ext; [by apply code_set_bne|done]. Qed.

Lemma code_set_beq_at m f D :
  runs m () (fun s s' => writes s AT (Z.b2z (f s)) s') -> short 1 m -> (forall s, sim_wf s -> negb (f s) = D s) ->
  branch_code 1 (fun l => m;; beq AT ZR l) D [AT].
Proof using All. intros. eapply branch_code_ext; [by apply code_set_beq|done]. Qed.

Lemma keeps_AT s s' r : keeps [AT] s s' -> reg r -> r <> AT -> get_register s' r = get_register s r.
Proof using. intros HK Hr Hne. apply (keeps_regs _ _ _ HK); [done|]. by rewrite list_elem_of_singleton. Qed.

Lemma ucmp_0_l x : isS 32 x -> ucmp 0 x = negb (x =? 0).
Proof using.
  unfold ucmp, isS. intros Hx. change (2 ^ (32 - 1)) with 2147483648 in Hx. change (2 ^ 32) with 4294967296.
  destruct (Z.eqb_spec x 0) as [->|]; [done|]. simpl. apply Z.ltb_lt. divlia.
Qed.
Lemma ucmp_0_r x : ucmp x 0 = false.
Proof using. unfold ucmp. apply Z.ltb_ge. change (0 mod 2 ^ 32) with 0. apply Z.mod_pos_bound. lia. Qed.

(** A test of two operands, by cases on which of them is a constant. *)
Section Operands.
Context (l r : Register) (i : Z).
Context (Hlr : l <> IMM -> reg l) (Hrr : r <> IMM -> reg r) (Hlat : l <> AT) (Hrat : r <> AT).
Context (H1c : ~ ((l = ZR \/ l = IMM) /\ (r = ZR \/ r = IMM))).
Context (Hi : isS 16 i) (Hi1 : isS 16 (i + 1)).

Lemma code_eq_ne :
  branch_code 1 (fun lb => if l =? IMM then addiu AT ZR i;; beq AT r lb
                           else if r =? IMM then addiu AT ZR i;; beq l AT lb else beq l r lb)
    (fun s => operand i l s =? operand i r s) [AT]
  /\ branch_code 1 (fun lb => if l =? IMM then addiu AT ZR i;; bne AT r lb
                           else if r =? IMM then addiu AT ZR i;; bne l AT lb else bne l r lb)
    (fun s => negb (operand i l s =? operand i r s)) [AT].
Proof using All.
  unfold operand. destruct (Z.eqb_spec l IMM) as [->|Hl]; [|destruct (Z.eqb_spec r IMM) as [->|Hr]].
  - destruct (Z.eqb_spec r IMM) as [->|Hr]; [tauto|]. specialize (Hrr Hr).
    split; [eapply (code_imm_eq (beq AT r)); [by apply code_beq|done|]
           |eapply (code_imm_eq (bne AT r)); [by apply code_bne|done|]].
    all: intros s s' HK E; cbv beta; by rewrite E, (keeps_AT s s' r).
  - specialize (Hlr Hl).
    split; [eapply (code_imm_eq (beq l AT)); [by apply code_beq|done|]
           |eapply (code_imm_eq (bne l AT)); [by apply code_bne|done|]].
    all: intros s s' HK E; cbv beta; by rewrite E, (keeps_AT s s' l).
  - specialize (Hlr Hl). specialize (Hrr Hr).
    split; [eapply (code_direct (beq l r)); [by apply code_beq|done]
           |eapply (code_direct (bne l r)); [by apply code_bne|done]].
Qed.

(** Apply the lemma of the branch at hand; the two relations remain to be compared. *)
Local Ltac branch :=
  lazymatch goal with
  | |- branch_code _ (fun _ => aret _) _ _ => eapply branch_code_ext; [apply code_never|]
  | |- branch_code _ (fun _ => bltz ?x _) _ _ => eapply (code_direct (bltz x)); [by apply code_bltz|]
  | |- branch_code _ (fun _ => bgtz ?x _) _ _ => eapply (code_direct (bgtz x)); [by apply code_bgtz|]
  | |- branch_code _ (fun _ => blez ?x _) _ _ => eapply (code_direct (blez x)); [by apply code_blez|]
  | |- branch_code _ (fun _ => bgez ?x _) _ _ => eapply (code_direct (bgez x)); [by apply code_bgez|]
  | |- branch_code _ (fun _ => beq ?x ?y _) _ _ => eapply (code_direct (beq x y)); [by apply code_beq|]
  | |- branch_code _ (fun _ => bne ?x ?y _) _ _ => eapply (code_direct (bne x y)); [by apply code_bne|]
  | |- branch_code _ (fun _ => slti ?d ?x ?k;; bne _ _ _) _ _ =>
      eapply (code_set_bne_at (slti d x k)); [by apply runs_slti|by apply short_imm|]
  | |- branch_code _ (fun _ => slti ?d ?x ?k;; beq _ _ _) _ _ =>
      eapply (code_set_beq_at (slti d x k)); [by apply runs_slti|by apply short_imm|]
  | |- branch_code _ (fun _ => slt ?d ?x ?y;; bne _ _ _) _ _ =>
      eapply (code_set_bne_at (slt d x y)); [by apply runs_slt|by apply short_EmitRType|]
  | |- branch_code _ (fun _ => slt ?d ?x ?y;; beq _ _ _) _ _ =>
      eapply (code_set_beq_at (slt d x y)); [by apply runs_slt|by apply short_EmitRType|]
  | |- branch_code _ (fun _ => sltu ?d ?x ?y;; bne _ _ _) _ _ =>
      eapply (code_set_bne_at (sltu d x y)); [by apply runs_sltu|by apply short_EmitRType|]
  | |- branch_code _ (fun _ => sltu ?d ?x ?y;; beq _ _ _) _ _ =>
      eapply (code_set_beq_at (sltu d x y)); [by apply runs_sltu|by apply short_EmitRType|]
  end; intros s Hs; cbv beta; change (get_register s ZR) with 0.

(** Split on the constant operands, the way the code does. *)
Local Ltac operands :=
  unfold operand;
  destruct (Z.eqb_spec l ZR) as [El0|Hl0];
  [rewrite El0 in *; assert (r <> IMM) as Hr by tauto; specialize (Hrr Hr)
  |destruct (Z.eqb_spec r ZR) as [Er0|Hr0];
   [rewrite Er0 in *; assert (l <> IMM) as Hl by tauto; specialize (Hlr Hl)
   |destruct (Z.eqb_spec l IMM) as [El|Hl];
    [rewrite El in *; assert (r <> IMM) as Hr by tauto; specialize (Hrr Hr)
    |specialize (Hlr Hl); destruct (Z.eqb_spec r IMM) as [Er|Hr]; [|specialize (Hrr Hr)]]]];
  rewrite ?(proj2 (Z.eqb_neq r IMM)), ?(proj2 (Z.eqb_neq l IMM)) by done.

Lemma code_GT :
  branch_code 1 (fun lb =>
    if l =? ZR then bltz r lb
    else if r =? ZR then bgtz l lb
    else if l =? IMM then slti AT r i;; bne AT ZR lb
    else if r =? IMM then slti AT l (i + 1);; beq AT ZR lb
    else slt AT r l;; bne AT ZR lb) (fun s => operand i r s <? operand i l s) [AT].
Proof using All. operands; branch; cbn; lia. Qed.

Lemma code_GE :
  branch_code 1 (fun lb =>
    if l =? ZR then blez r lb
    else if r =? ZR then bgez l lb
    else if l =? IMM then slti AT r (i + 1);; bne AT ZR lb
    else if r =? IMM then slti AT l i;; beq AT ZR lb
    else slt AT l r;; beq AT ZR lb) (fun s => operand i r s <=? operand i l s) [AT].
Proof using All. operands; branch; cbn; lia. Qed.

Lemma code_LT :
  branch_code 1 (fun lb =>
    if l =? ZR then bgtz r lb
    else if r =? ZR then bltz l lb
    else if l =? IMM then slti AT r (i + 1);; beq AT ZR lb
    else if r =? IMM then slti AT l i;; bne AT ZR lb
    else slt AT l r;; bne AT ZR lb) (fun s => operand i l s <? operand i r s) [AT].
Proof using All. operands; branch; cbn; lia. Qed.

Lemma code_LE :
  branch_code 1 (fun lb =>
    if l =? ZR then bgez r lb
    else if r =? ZR then blez l lb
    else if l =? IMM then slti AT r i;; beq AT ZR lb
    else if r =? IMM then slti AT l (i + 1);; bne AT ZR lb
    else slt AT r l;; beq AT ZR lb) (fun s => operand i l s <=? operand i r s) [AT].
Proof using All. operands; branch; cbn; lia. Qed.

(** The unsigned tests take registers only. *)
Context (Hl : l <> IMM) (Hr : r <> IMM).

Local Ltac uoperands :=
  unfold operand; specialize (Hlr Hl); specialize (Hrr Hr);
  apply code_assert; [by rewrite (proj2 (Z.eqb_neq l IMM)), (proj2 (Z.eqb_neq r IMM))|];
  destruct (Z.eqb_spec l ZR) as [El0|Hl0]; [rewrite El0 in *|
    destruct (Z.eqb_spec r ZR) as [Er0|Hr0]; [rewrite Er0 in *|]];
  rewrite ?(proj2 (Z.eqb_neq r IMM)), ?(proj2 (Z.eqb_neq l IMM)) by done;
  branch; cbn -[ucmp].

Lemma code_UGT :
  branch_code 1 (fun lb =>
    aassert (negb (l =? IMM) && negb (r =? IMM));;
    if l =? ZR then aret lb
    else if r =? ZR then bne l ZR lb
    else sltu AT r l;; bne AT ZR lb) (fun s => ucmp (operand i r s) (operand i l s)) [AT].
Proof using All. uoperands; [by rewrite ucmp_0_r|by rewrite ucmp_0_l by auto using get_register_isS|done]. Qed.

Lemma code_UGE :
  branch_code 1 (fun lb =>
    aassert (negb (l =? IMM) && negb (r =? IMM));;
    if l =? ZR then beq r ZR lb
    else if r =? ZR then beq ZR ZR lb
    else sltu AT l r;; beq AT ZR lb) (fun s => negb (ucmp (operand i l s) (operand i r s))) [AT].
Proof using All.
  uoperands; [rewrite ucmp_0_l by auto using get_register_isS; by rewrite negb_involutive|by rewrite ucmp_0_r|done].
Qed.

Lemma code_ULT :
  branch_code 1 (fun lb =>
    aassert (negb (l =? IMM) && negb (r =? IMM));;
    if l =? ZR then bne r ZR lb
    else if r =? ZR then aret lb
    else sltu AT l r;; bne AT ZR lb) (fun s => ucmp (operand i l s) (operand i r s)) [AT].
Proof using All. uoperands; [by rewrite ucmp_0_l by auto using get_register_isS|by rewrite ucmp_0_r|done]. Qed.

Lemma code_ULE :
  branch_code 1 (fun lb =>
    aassert (negb (l =? IMM) && negb (r =? IMM));;
    if l =? ZR then beq ZR ZR lb
    else if r =? ZR then beq l ZR lb
    else sltu AT r l;; beq AT ZR lb) (fun s => negb (ucmp (operand i r s) (operand i l s))) [AT].
Proof using All.
  uoperands; [by rewrite ucmp_0_r|rewrite ucmp_0_l by auto using get_register_isS; by rewrite negb_involutive|done].
Qed.
End Operands.

Lemma code_BranchOnCondition junk l r op i c :
  isU 32 junk -> mkCondition junk l r op i = Some c ->
  (is_unsigned op = true -> l <> IMM /\ r <> IMM) ->
  branch_code 1 (BranchOnCondition c) (fun s => holds op (operand i l s) (operand i r s)) [AT].
Proof using All.
  intros Hj Hc Hu. destruct (mkCondition_fields junk l r op i c Hj Hc) as (El&Er&Eo&Ei&Vl&Vr&Vi).
  pose proof (mkCondition_one_constant _ _ _ _ _ _ Hc) as H1c.
  apply code_slot. rewrite El, Er, Eo, Ei.
  apply valid_register_isU in Vl as (_&Hlat&Hlr). apply valid_register_isU in Vr as (_&Hrat&Hrr).
  assert (isS 16 i /\ isS 16 (i + 1)) as [Hi Hi1].
  { unfold IsValidImm in Vi. unfold isS. change (2 ^ (16 - 1)) with 32768. lia. }
  destruct op; cbn [is_unsigned holds] in *; try (specialize (Hu eq_refl) as [Hul Hur]).
  - eapply (code_direct (beq R0 R0)); [by apply code_beq|]. intros. done.
  - apply code_never.
  - apply (code_eq_ne l r i Hlr Hrr Hlat Hrat H1c Hi Hi1).
  - apply (code_eq_ne l r i Hlr Hrr Hlat Hrat H1c Hi Hi1).
  - by apply code_GT.
  - by apply code_GE.
  - by apply code_LT.
  - by apply code_LE.
  - by apply code_UGT.
  - by apply code_UGE.
  - by apply code_ULT.
  - by apply code_ULE.
Qed.

(** ** The Branch* macros, which clobber CMPRES2 *)

Lemma emits_lui rt imm : reg rt -> isU 16 imm -> emits (lui rt imm) () [s32 (itype (Opcode_value LUI) R0 rt imm)].
Proof using.
  intros. apply emits_assert; [by apply Utils.IsUint_spec|]. cbv zeta. rewrite (wrapU_id 16) by done.
  by apply emits_EmitIType.
Qed.
Lemma emits_ori rt rs imm :
  reg rt -> reg rs -> isU 16 imm -> emits (ori rt rs imm) () [s32 (itype (Opcode_value ORI) rs rt imm)].
Proof using.
  intros. apply emits_assert; [by apply Utils.IsUint_spec|]. cbv zeta. rewrite (wrapU_id 16) by done.
  by apply emits_EmitIType.
Qed.

Lemma short_LoadImmediate rd v : reg rd -> short 2 (LoadImmediate rd v).
Proof using.
  intros Hrd. unfold LoadImmediate. destruct (Utils.IsInt kImmBits v) eqn:E.
  - apply Utils.IsInt_spec in E; [|done].
    destruct (short_imm ADDIU ZR rd v ltac:(done) Hrd E) as (ws&Hws&Hlen).
    exists ws. split; [by apply emits_not_in_delay_slot|lia].
  - cbv zeta. pose proof (wrapU_range 16 (Utils.High16Bits v) ltac:(lia)).
    pose proof (wrapU_range 16 (Utils.Low16Bits v) ltac:(lia)). destruct (negb _).
    + eexists. split; [apply emits_not_in_delay_slot; eapply emits_bind; [by apply emits_lui|by apply emits_ori]|done].
    + eexists. split; [apply emits_not_in_delay_slot; eapply emits_bind; [by apply emits_lui|apply emits_ret]|done].
Qed.

Lemma keeps_CMPRES2 s s' r : keeps [CMPRES2] s s' -> reg r -> r <> CMPRES2 -> get_register s' r = get_register s r.
Proof using. intros HK Hr Hne. apply (keeps_regs _ _ _ HK); [done|]. by rewrite list_elem_of_singleton. Qed.

(** Load the constant into CMPRES2, then compare registers. *)
Lemma code_via_CMPRES2 (m : Label -> AsmM Label) C D v :
  isS 32 v -> branch_code 1 m C [CMPRES2] ->
  (forall s s', sim_wf s -> keeps [CMPRES2] s s' -> get_register s' CMPRES2 = v -> C s' = D s) ->
  branch_code 3 (fun l => LoadImmediate CMPRES2 v;; m l) D [CMPRES2].
Proof using All.
  intros Hv Hm HCD.
  eapply (branch_after 2 1 (LoadImmediate CMPRES2 v) m);
    [by apply runs_LoadImmediate|by apply short_LoadImmediate|done|lia| |done].
  intros s s' Hs _ [E HK]. auto.
Qed.

Lemma code_simple m C D : branch_code 0 m C [] -> (forall s, sim_wf s -> C s = D s) -> branch_code 3 m D [CMPRES2].
Proof using.
  intros Hm HCD. eapply branch_code_ext; [|exact HCD]. eapply branch_code_more; [done|lia|].
  intros r Hr. by apply not_elem_of_nil in Hr.
Qed.

Lemma code_set_bne_C m f D :
  runs m () (fun s s' => writes s CMPRES2 (Z.b2z (f s)) s') -> short 1 m -> (forall s, sim_wf s -> f s = D s) ->
  branch_code 3 (fun l => m;; bne CMPRES2 ZR l) D [CMPRES2].
Proof using All.
  intros. eapply (branch_code_ext _ _ f); [|done]. eapply branch_code_more; [by apply code_set_bne|lia|done].
Qed.
Lemma code_set_beq_C m f D :
  runs m () (fun s s' => writes s CMPRES2 (Z.b2z (f s)) s') -> short 1 m ->
  (forall s, sim_wf s -> negb (f s) = D s) ->
  branch_code 3 (fun l => m;; beq CMPRES2 ZR l) D [CMPRES2].
Proof using All.
  intros. eapply (branch_code_ext _ _ (fun s => negb (f s))); [|done].
  eapply branch_code_more; [by apply code_set_beq|lia|done].
Qed.

Section Registers.
Context (rd rs : Register) (Hrd : reg rd) (Hrs : reg rs).

Lemma code_BranchSignedGreater :
  branch_code 1 (BranchSignedGreater rd rs) (fun s => get_register s rs <? get_register s rd) [CMPRES2].
Proof using All. apply code_slot, code_set_bne; [by apply runs_slt|by apply short_EmitRType|done..]. Qed.
Lemma code_BranchSignedGreaterEqual :
  branch_code 1 (BranchSignedGreaterEqual rd rs) (fun s => negb (get_register s rd <? get_register s rs)) [CMPRES2].
Proof using All. apply code_slot, code_set_beq; [by apply runs_slt|by apply short_EmitRType|done..]. Qed.
Lemma code_BranchUnsignedGreater :
  branch_code 1 (BranchUnsignedGreater rd rs) (fun s => ucmp (get_register s rs) (get_register s rd)) [CMPRES2].
Proof using All. apply code_slot, code_set_bne; [by apply runs_sltu|by apply short_EmitRType|done..]. Qed.
Lemma code_BranchUnsignedGreaterEqual :
  branch_code 1 (BranchUnsignedGreaterEqual rd rs)
    (fun s => negb (ucmp (get_register s rd) (get_register s rs))) [CMPRES2].
Proof using All. apply code_slot, code_set_beq; [by apply runs_sltu|by apply short_EmitRType|done..]. Qed.
End Registers.

Section Immediates.
Context (rd : Register) (imm : Z) (Hrd : reg rd) (HrdC : rd <> CMPRES2) (Himm : isS 32 imm).

Lemma ucmp_succ x : isS 32 x -> imm <> -1 -> negb (ucmp x (imm + 1)) = ucmp imm x.
Proof using Himm.
  unfold ucmp, isS in *. change (2 ^ (32 - 1)) with 2147483648 in *. change (2 ^ 32) with 4294967296.
  intros Hx Hne. apply bool_eqb_iff. rewrite negb_true_iff, Z.ltb_ge, Z.ltb_lt. divlia.
Qed.

Lemma code_equal_imm :
  branch_code 3 (BranchEqual_imm rd imm) (fun s => get_register s rd =? imm) [CMPRES2].
Proof using All.
  apply code_slot. destruct (Z.eqb_spec imm 0) as [->|]; [eapply (code_simple (beq rd ZR)); [by apply code_beq|done]|].
  apply code_assert; [by apply neqb_true|].
  eapply (code_via_CMPRES2 (beq rd CMPRES2)); [done|eapply branch_code_more; [by apply code_beq|lia|]|].
  - intros r Hr. by apply not_elem_of_nil in Hr.
  - intros s s' Hs HK E. cbv beta. by rewrite E, (keeps_CMPRES2 s s' rd).
Qed.

Lemma code_not_equal_imm :
  branch_code 3 (BranchNotEqual_imm rd imm) (fun s => negb (get_register s rd =? imm)) [CMPRES2].
Proof using All.
  apply code_slot. destruct (Z.eqb_spec imm 0) as [->|]; [eapply (code_simple (bne rd ZR)); [by apply code_bne|done]|].
  apply code_assert; [by apply neqb_true|].
  eapply (code_via_CMPRES2 (bne rd CMPRES2)); [done|eapply branch_code_more; [by apply code_bne|lia|]|].
  - intros r Hr. by apply not_elem_of_nil in Hr.
  - intros s s' Hs HK E. cbv beta. by rewrite E, (keeps_CMPRES2 s s' rd).
Qed.

Lemma code_greater_imm :
  branch_code 3 (BranchSignedGreater_imm rd imm) (fun s => imm <? get_register s rd) [CMPRES2].
Proof using All.
  apply code_slot. destruct (Z.eqb_spec imm 0) as [->|]; [eapply (code_simple (bgtz rd)); [by apply code_bgtz|done]|].
  destruct (Utils.IsInt kImmBits (imm + 1)) eqn:E.
  - apply Utils.IsInt_spec in E; [|done].
    eapply (code_set_beq_C (slti CMPRES2 rd (imm + 1))); [by apply runs_slti|by apply short_imm|].
    intros s Hs. cbv beta. lia.
  - apply code_assert; [by apply neqb_true|].
    eapply (code_via_CMPRES2 (BranchSignedGreater rd CMPRES2)); [done|by apply code_BranchSignedGreater|].
    intros s s' Hs HK E'. cbv beta. by rewrite E', (keeps_CMPRES2 s s' rd).
Qed.

Lemma code_unsigned_greater_imm :
  branch_code 3 (BranchUnsignedGreater_imm rd imm) (fun s => ucmp imm (get_register s rd)) [CMPRES2].
Proof using All.
  apply code_slot. destruct (Z.eqb_spec imm 0) as [->|].
  { apply code_slot. rewrite Z.eqb_refl.
    eapply (code_simple (bne rd ZR)); [by apply code_bne|]. intros s Hs. cbv beta.
    by rewrite ucmp_0_l by auto using get_register_isS. }
  destruct (negb (imm =? -1) && Utils.IsInt kImmBits (imm + 1)) eqn:E.
  - apply andb_true_iff in E as [E1%negb_true_iff%Z.eqb_neq E]. apply Utils.IsInt_spec in E; [|done].
    eapply (code_set_beq_C (sltiu CMPRES2 rd (imm + 1))); [by apply runs_sltiu|by apply short_imm|].
    intros s Hs. cbv beta. apply ucmp_succ; auto using get_register_isS.
  - apply code_assert; [by apply neqb_true|].
    eapply (code_via_CMPRES2 (BranchUnsignedGreater rd CMPRES2)); [done|by apply code_BranchUnsignedGreater|].
    intros s s' Hs HK E'. cbv beta. by rewrite E', (keeps_CMPRES2 s s' rd).
Qed.

Lemma code_greater_equal_imm :
  branch_code 3 (BranchSignedGreaterEqual_imm rd imm) (fun s => imm <=? get_register s rd) [CMPRES2].
Proof using All.
  apply code_slot. destruct (Z.eqb_spec imm 0) as [->|]; [eapply (code_simple (bgez rd)); [by apply code_bgez|done]|].
  destruct (Utils.IsInt kImmBits imm) eqn:E.
  - apply Utils.IsInt_spec in E; [|done].
    eapply (code_set_beq_C (slti CMPRES2 rd imm)); [by apply runs_slti|by apply short_imm|].
    intros s Hs. cbv beta. lia.
  - apply code_assert; [by apply neqb_true|].
    eapply (code_via_CMPRES2 (BranchSignedGreaterEqual rd CMPRES2)); [done|by apply code_BranchSignedGreaterEqual|].
    intros s s' Hs HK E'. cbv beta. rewrite E', (keeps_CMPRES2 s s' rd) by done. lia.
Qed.

Lemma code_unsigned_greater_equal_imm :
  branch_code 3 (BranchUnsignedGreaterEqual_imm rd imm) (fun s => negb (ucmp (get_register s rd) imm)) [CMPRES2].
Proof using All.
  apply code_slot. destruct (Z.eqb_spec imm 0) as [->|].
  { eapply (code_simple (beq R0 R0)); [by apply code_beq|]. intros s Hs. by rewrite ucmp_0_r. }
  destruct (Utils.IsInt kImmBits imm) eqn:E.
  - apply Utils.IsInt_spec in E; [|done].
    eapply (code_set_beq_C (sltiu CMPRES2 rd imm)); [by apply runs_sltiu|by apply short_imm|]. done.
  - apply code_assert; [by apply neqb_true|].
    eapply (code_via_CMPRES2 (BranchUnsignedGreaterEqual rd CMPRES2)); [done|by apply code_BranchUnsignedGreaterEqual|].
    intros s s' Hs HK E'. cbv beta. by rewrite E', (keeps_CMPRES2 s s' rd).
Qed.

Lemma code_less_imm :
  branch_code 3 (BranchSignedLess_imm rd imm) (fun s => get_register s rd <? imm) [CMPRES2].
Proof using All.
  apply code_slot. destruct (Z.eqb_spec imm 0) as [->|]; [eapply (code_simple (bltz rd)); [by apply code_bltz|done]|].
  destruct (Utils.IsInt kImmBits imm) eqn:E.
  - apply Utils.IsInt_spec in E; [|done].
    eapply (code_set_bne_C (slti CMPRES2 rd imm)); [by apply runs_slti|by apply short_imm|]. done.
  - apply code_assert; [by apply neqb_true|].
    eapply (code_via_CMPRES2 (BranchSignedGreater CMPRES2 rd)); [done|by apply code_BranchSignedGreater|].
    intros s s' Hs HK E'. cbv beta. by rewrite E', (keeps_CMPRES2 s s' rd).
Qed.

Lemma code_unsigned_less_imm :
  branch_code 3 (BranchUnsignedLess_imm rd imm) (fun s => ucmp (get_register s rd) imm) [CMPRES2].
Proof using All.
  apply code_slot. destruct (Z.eqb_spec imm 0) as [->|].
  { eapply branch_code_ext; [eapply (branch_code_more 1); [apply (code_never [CMPRES2])|lia|done]|].
    intros s Hs. by rewrite ucmp_0_r. }
  destruct (Utils.IsInt kImmBits imm) eqn:E.
  - apply Utils.IsInt_spec in E; [|done].
    eapply (code_set_bne_C (sltiu CMPRES2 rd imm)); [by apply runs_sltiu|by apply short_imm|]. done.
  - apply code_assert; [by apply neqb_true|].
    eapply (code_via_CMPRES2 (BranchUnsignedGreater CMPRES2 rd)); [done|by apply code_BranchUnsignedGreater|].
    intros s s' Hs HK E'. cbv beta. by rewrite E', (keeps_CMPRES2 s s' rd).
Qed.

Lemma code_less_equal_imm :
  branch_code 3 (BranchSignedLessEqual_imm rd imm) (fun s => get_register s rd <=? imm) [CMPRES2].
Proof using All.
  apply code_slot. destruct (Z.eqb_spec imm 0) as [->|]; [eapply (code_simple (blez rd)); [by apply code_blez|done]|].
  destruct (Utils.IsInt kImmBits (imm + 1)) eqn:E.
  - apply Utils.IsInt_spec in E; [|done].
    eapply (code_set_bne_C (slti CMPRES2 rd (imm + 1))); [by apply runs_slti|by apply short_imm|].
    intros s Hs. cbv beta. lia.
  - apply code_assert; [by apply neqb_true|].
    eapply (code_via_CMPRES2 (BranchSignedGreaterEqual CMPRES2 rd)); [done|by apply code_BranchSignedGreaterEqual|].
    intros s s' Hs HK E'. cbv beta. rewrite E', (keeps_CMPRES2 s s' rd) by done. lia.
Qed.

Lemma code_unsigned_less_equal_imm :
  branch_code 3 (BranchUnsignedLessEqual_imm rd imm) (fun s => negb (ucmp imm (get_register s rd))) [CMPRES2].
Proof using All.
  apply code_slot. destruct (Z.eqb_spec imm 0) as [->|].
  { eapply (code_simple (beq rd ZR)); [by apply code_beq|]. intros s Hs. cbv beta.
    rewrite ucmp_0_l by auto using get_register_isS. by rewrite negb_involutive. }
  destruct (negb (imm =? -1) && Utils.IsInt kImmBits (imm + 1)) eqn:E.
  - apply andb_true_iff in E as [E1%negb_true_iff%Z.eqb_neq E]. apply Utils.IsInt_spec in E; [|done].
    eapply (code_set_bne_C (sltiu CMPRES2 rd (imm + 1))); [by apply runs_sltiu|by apply short_imm|].
    intros s Hs. cbv beta. rewrite <- ucmp_succ by auto using get_register_isS. by rewrite negb_involutive.
  - apply code_assert; [by apply neqb_true|].
    eapply (code_via_CMPRES2 (BranchUnsignedGreaterEqual CMPRES2 rd)); [done|by apply code_BranchUnsignedGreaterEqual|].
    intros s s' Hs HK E'. cbv beta. by rewrite E', (keeps_CMPRES2 s s' rd).
Qed.
End Immediates.
End Conditions.

(** ** Properties *)

(** C24: [BranchOnCondition cond label], for a condition the constructor accepts
    (whatever its uninitialised bits held) and a label that is bound and in reach of a
    near branch, assembles to code that, run by the simulator, transfers control to the
    label exactly when the relation holds between the two operands, registers or, for
    the signed relations, an immediate, and otherwise falls through; only AT is
    clobbered.  An unsigned relation with an immediate fails the assertion of the code,
    for any label and any state of the assembler. *)
Theorem BranchOnCondition_correct `{HostOk} junk l r op i cond :
  isU 32 junk -> mkCondition junk l r op i = Some cond ->
  ((is_unsigned op = true -> l <> IMM /\ r <> IMM) ->
   branch_code 1 (BranchOnCondition cond) (fun s => holds op (operand i l s) (operand i r s)) [AT]) /\
  (is_unsigned op = true -> l = IMM \/ r = IMM -> forall label a, BranchOnCondition cond label a = Err AsmAssertFailed).
Proof.
  intros Hj Hc. split; [by apply (code_BranchOnCondition junk)|]. intros Hu Himm label a.
  destruct (mkCondition_fields junk l r op i cond Hj Hc) as (Hl & Hr & Ho & _). unfold BranchOnCondition, assert_not_in_delay_slot, abind, aget.
  destruct (negb (in_delay_slot_ a)); cbn [aassert aret afail]; [|done]. rewrite Ho, Hl, Hr.
  assert (negb (l =? IMM) && negb (r =? IMM) = false) as E.
  { destruct Himm as [-> | ->]; rewrite Z.eqb_refl; [done|apply andb_false_r]. }
  destruct op; try discriminate Hu; by rewrite E.
Qed.

Lemma BranchOnCondition_correct_witness :
  exists cond, mkCondition 0xdeadbeef T0 IMM GT 5 = Some cond /\
    branch_code 1 (BranchOnCondition cond) (fun s => holds GT (operand 5 T0 s) (operand 5 IMM s)) [AT].
Proof.
  destruct (mkCondition 0xdeadbeef T0 IMM GT 5) as [cond|] eqn:E; [|vm_compute in E; discriminate E].
  exists cond. split; [done|]. apply (BranchOnCondition_correct 0xdeadbeef T0 IMM GT 5 cond); done.
Defined.

(** The [Condition] constructor stores its operands, its relation and its
    signed 16-bit immediate so that the accessors return them, for any content
    of the memory it is constructed in. *)
Theorem Condition_roundtrip junk l r op i cond :
  isU 32 junk -> mkCondition junk l r op i = Some cond ->
  left cond = l /\ right cond = r /\ rel_op cond = Some op /\ imm cond = i.
Proof. intros Hj Hc. destruct (mkCondition_fields junk l r op i cond Hj Hc) as (?&?&?&?&_). auto. Qed.

Lemma Condition_roundtrip_witness :
  exists cond, mkCondition 0xffffffff IMM A3 ULE (-7) = Some cond /\ left cond = IMM /\ imm cond = -7.
Proof.
  destruct (mkCondition 0xffffffff IMM A3 ULE (-7)) as [cond|] eqn:E; [|vm_compute in E; discriminate E].
  exists cond. split; [done|].
  destruct (Condition_roundtrip 0xffffffff IMM A3 ULE (-7) cond ltac:(done) E) as (?&?&?&?). auto.
Defined.

(** The ten compare-with-immediate macros branch exactly on the relation they
    are named after, for every 32-bit immediate and whichever code shape is
    chosen (no compare for 0, [slti]/[sltiu] when the immediate fits, a load
    into CMPRES2 otherwise); only CMPRES2 is clobbered. *)
Theorem compare_imm_macros_correct `{HostOk} rd imm :
  reg rd -> rd <> CMPRES2 -> isS 32 imm ->
  branch_code 3 (BranchEqual_imm rd imm) (fun s => get_register s rd =? imm) [CMPRES2]
  /\ branch_code 3 (BranchNotEqual_imm rd imm) (fun s => negb (get_register s rd =? imm)) [CMPRES2]
  /\ branch_code 3 (BranchSignedGreater_imm rd imm) (fun s => imm <? get_register s rd) [CMPRES2]
  /\ branch_code 3 (BranchSignedGreaterEqual_imm rd imm) (fun s => imm <=? get_register s rd) [CMPRES2]
  /\ branch_code 3 (BranchSignedLess_imm rd imm) (fun s => get_register s rd <? imm) [CMPRES2]
  /\ branch_code 3 (BranchSignedLessEqual_imm rd imm) (fun s => get_register s rd <=? imm) [CMPRES2]
  /\ branch_code 3 (BranchUnsignedGreater_imm rd imm) (fun s => ucmp imm (get_register s rd)) [CMPRES2]
  /\ branch_code 3 (BranchUnsignedGreaterEqual_imm rd imm) (fun s => negb (ucmp (get_register s rd) imm)) [CMPRES2]
  /\ branch_code 3 (BranchUnsignedLess_imm rd imm) (fun s => ucmp (get_register s rd) imm) [CMPRES2]
  /\ branch_code 3 (BranchUnsignedLessEqual_imm rd imm) (fun s => negb (ucmp imm (get_register s rd))) [CMPRES2].
Proof.
  intros. split_and!.
  - by apply code_equal_imm.
  - by apply code_not_equal_imm.
  - by apply code_greater_imm.
  - by apply code_greater_equal_imm.
  - by apply code_less_imm.
  - by apply code_less_equal_imm.
  - by apply code_unsigned_greater_imm.
  - by apply code_unsigned_greater_equal_imm.
  - by apply code_unsigned_less_imm.
  - by apply code_unsigned_less_equal_imm.
Qed.

Lemma compare_imm_macros_correct_witness :
  branch_code 3 (BranchEqual_imm T0 0x12345) (fun s => get_register s T0 =? 0x12345) [CMPRES2].
Proof. apply (compare_imm_macros_correct T0 0x12345); done. Defined.

End MipsBranch.
