(* ===== verification/MipsBind.v ===== *)
(** * Labels: the chain of linked branches and Bind

    A label that is not bound yet is the head of a list threaded through the
    branch words that refer to it: each word's 16-bit offset holds the link to
    the branch before it.  [linked] describes the list, emitting a branch
    extends it, and [Bind] walks it and gives every branch its offset. *)

From stdpp Require Import base numbers list gmap.
From Stdlib Require Import ZArith Lia.
From S2P Require Import Prelude Utils MipsConstants MipsEncoding MipsAssembler MipsInvariant MipsExec MipsBranch.

Local Open Scope Z_scope.
Local Open Scope mach_scope.

Module MipsBind.
Import Mips MipsEncoding MipsAssembler MipsExec MipsBranch.
Local Open Scope asm_scope.

(** [linked buf label ps]: the branches linked through [label], latest first. *)
Inductive linked (buf : list Z) : Label -> list Z -> Prop :=
| linked_none : linked buf 0 []
| linked_branch p w ps :
    0 <= p -> p mod 4 = 0 -> buf !! Z.to_nat (p / 4) = Some w -> DecodeBranchOffset w <= p ->
    linked buf (DecodeBranchOffset w) ps -> linked buf (p + kWordSize) (p :: ps).

(** The word [w] with its branch offset replaced. *)
Definition retarget (w dest : Z) : Z := (w / 2 ^ 16) * 2 ^ 16 + (dest / 4) mod 2 ^ 16.

(** What [Bind] does to the word at [p], for a label bound at [bound_pc]. *)
Definition patch (bound_pc : Z) (buf : list Z) (p : Z) : list Z :=
  alter (fun w => retarget w (bound_pc - (p + kInstrSize))) (Z.to_nat (p / 4)) buf.

Lemma linked_bound buf label ps :
  linked buf label ps ->
  0 <= label /\ 4 * Z.of_nat (length ps) <= label /\ Forall (fun p => 0 <= p /\ p + 4 <= label /\ p mod 4 = 0) ps.
Proof.
  induction 1 as [|p w ps Hp Hal Hw Hle Hl (IH0&IH1&IH2)]; [simpl; auto with lia|].
  unfold kWordSize. cbn [length]. split; [lia|]. split; [lia|]. constructor; [lia|].
  eapply Forall_impl; [exact IH2|]. simpl. lia.
Qed.

Lemma linked_length buf label ps : linked buf label ps -> (length ps <= length buf)%nat.
Proof.
  intros H. destruct H as [|p w ps Hp Hal Hw Hle Hl]; [simpl; lia|].
  pose proof (linked_bound _ _ _ Hl) as (_&Hb&_). apply lookup_lt_Some in Hw.
  cbn [length]. assert (Z.of_nat (length ps) <= p / 4); [divlia|lia].
Qed.

(** Words at and above the label do not belong to the chain. *)
Lemma linked_agree buf buf' label ps :
  linked buf label ps ->
  (forall i, 4 * Z.of_nat i < label -> buf' !! i = buf !! i) -> linked buf' label ps.
Proof.
  induction 1 as [|p w ps Hp Hal Hw Hle Hl IH]; intros Hag; [constructor|].
  unfold kWordSize in Hag. apply (linked_branch _ p w); try done.
  - rewrite Hag; [done|]. divlia.
  - apply IH. intros i Hi. apply Hag. lia.
Qed.

Lemma patch_lookup bound_pc buf p i :
  0 <= p -> p mod 4 = 0 ->
  patch bound_pc buf p !! i =
    if decide (p = 4 * Z.of_nat i) then (fun w => retarget w (bound_pc - (p + kInstrSize))) <$> buf !! i
    else buf !! i.
Proof.
  intros Hp Hal. unfold patch. destruct (decide _) as [E|E].
  - replace (Z.to_nat (p / 4)) with i; [apply list_lookup_alter_eq|]. divlia.
  - apply list_lookup_alter_ne. intros Hi. apply E. divlia.
Qed.

(** ** Bind, near *)

Lemma Position_linked p a : 0 <= p -> Position (p + kWordSize) a = Ok (p, a).
Proof.
  intros. unfold Position, IsUnused, IsBound, kWordSize, abind, aassert.
  rewrite (proj2 (Z.eqb_neq _ _)), (proj2 (Z.ltb_ge _ _)) by lia. unfold aret. simpl. do 2 f_equal. lia.
Qed.

Lemma aligned_land3 p : p mod 4 = 0 -> (p .& 3 =? 0) = true.
Proof. intros E. change 3 with (Z.ones 2). rewrite Z.land_ones by lia. change (2 ^ 2) with 4. by rewrite E. Qed.

Lemma LoadW_eval p w a :
  0 <= p -> p mod 4 = 0 -> buffer_ a !! Z.to_nat (p / 4) = Some w -> LoadW p a = Ok (w, a).
Proof.
  intros Hp Hal Hw. unfold LoadW. rewrite aligned_land3, (proj2 (Z.leb_le 0 p)) by done. simpl. by rewrite Hw.
Qed.

Lemma StoreW_eval p v a :
  0 <= p -> p mod 4 = 0 -> p < Size a ->
  StoreW p v a = Ok ((), with_buffer a (<[Z.to_nat (p / 4) := v]> (buffer_ a))).
Proof.
  intros Hp Hal Hs. unfold StoreW. rewrite aligned_land3, (proj2 (Z.leb_le 0 p)), (proj2 (Z.ltb_lt p (Size a))) by done.
  done.
Qed.

Lemma insert_alter {A} (f : A -> A) (l : list A) i x : l !! i = Some x -> <[i := f x]> l = alter f i l.
Proof.
  intros Hx. apply list_eq. intros j. destruct (decide (i = j)) as [<-|Hne].
  - rewrite list_lookup_insert_eq, list_lookup_alter_eq, Hx by (eapply lookup_lt_Some; eauto). done.
  - by rewrite list_lookup_insert_ne, list_lookup_alter_ne.
Qed.

(** One round of the loop. *)
Lemma Bind_loop_step fuel bound_pc p w a :
  use_far_branches_ a = false -> 0 <= p -> p mod 4 = 0 -> bound_pc mod 4 = 0 ->
  buffer_ a !! Z.to_nat (p / 4) = Some w -> isS 18 (bound_pc - (p + kInstrSize)) ->
  Bind_loop (S fuel) bound_pc (p + kWordSize) a =
  Bind_loop fuel bound_pc (DecodeBranchOffset w) (with_buffer a (patch bound_pc (buffer_ a) p)).
Proof.
  intros Hf Hp Hal Hbal Hw Hr. cbn [Bind_loop].
  assert (IsLinked (p + kWordSize) = true) as -> by (unfold IsLinked, kWordSize; lia).
  unfold abind at 1. rewrite Position_linked by done. unfold abind, use_far_branches. rewrite Hf.
  unfold aret. cbn [andb]. rewrite (LoadW_eval p w) by done. rewrite isS18_s32 by done.
  rewrite EncodeBranchOffset_eval; [|unfold kInstrSize in *; divlia|done].
  apply lookup_lt_Some in Hw as Hlt. rewrite StoreW_eval; [|done|done|unfold Size, kInstrSize; divlia].
  f_equal. f_equal. unfold patch. by rewrite <- (insert_alter _ _ _ w) by done.
Qed.

Lemma Bind_loop_near fuel bound_pc label ps a :
  use_far_branches_ a = false -> bound_pc mod 4 = 0 -> linked (buffer_ a) label ps -> (length ps <= fuel)%nat ->
  Forall (fun p => isS 18 (bound_pc - (p + kInstrSize))) ps ->
  Bind_loop fuel bound_pc label a = Ok (0, with_buffer a (fold_left (patch bound_pc) ps (buffer_ a))).
Proof.
  intros Hf Hbal. revert fuel label a Hf. induction ps as [|p ps IH]; intros fuel label a Hf Hl Hfuel HF.
  { inversion Hl; subst. destruct a. by destruct fuel. }
  inversion Hl as [|p' w ps' Hp Hal Hw Hle Hl']; subst.
  destruct fuel as [|fuel]; [simpl in Hfuel; lia|]. apply Forall_cons in HF as [Hr HF].
  rewrite (Bind_loop_step fuel bound_pc p w a) by done. rewrite IH; [done|done| |simpl in Hfuel; lia|done].
  apply (linked_agree (buffer_ a)); [done|]. intros i Hi. simpl. rewrite patch_lookup by done.
  rewrite decide_False by lia. done.
Qed.

(** The words after all patches: only the linked branches changed. *)
Lemma patches_lookup bound_pc ps buf i :
  Forall (fun p => 0 <= p /\ p mod 4 = 0) ps -> NoDup ps ->
  fold_left (patch bound_pc) ps buf !! i =
    if decide (4 * Z.of_nat i ∈ ps)
    then (fun w => retarget w (bound_pc - (4 * Z.of_nat i + kInstrSize))) <$> buf !! i else buf !! i.
Proof.
  revert buf. induction ps as [|p ps IH]; intros buf HF HN; [by rewrite decide_False by apply not_elem_of_nil|].
  apply Forall_cons in HF as [[Hp Hal] HF]. apply NoDup_cons in HN as [Hnp HN].
  cbn [fold_left]. rewrite IH, patch_lookup by done.
  destruct (decide (p = 4 * Z.of_nat i)) as [->|Hne].
  - rewrite decide_False by done. rewrite decide_True by (rewrite elem_of_cons; auto). done.
  - destruct (decide (4 * Z.of_nat i ∈ ps)).
    + rewrite decide_True by (rewrite elem_of_cons; auto). done.
    + rewrite decide_False; [done|]. rewrite elem_of_cons. intros [?|?]; [lia|done].
Qed.

Lemma linked_NoDup buf label ps : linked buf label ps -> NoDup ps.
Proof.
  induction 1 as [|p w ps Hp Hal Hw Hle Hl IH]; constructor; [|done].
  intros Hin. apply linked_bound in Hl as (_&_&HF). rewrite Forall_forall in HF.
  specialize (HF p Hin). lia.
Qed.

Lemma linked_positions buf label ps : linked buf label ps -> Forall (fun p => 0 <= p /\ p mod 4 = 0) ps.
Proof. intros (_&_&HF)%linked_bound. eapply Forall_impl; [exact HF|]. simpl. lia. Qed.

Lemma Size_aligned a : Size a mod 4 = 0.
Proof. unfold Size, kInstrSize. divlia. Qed.

Lemma Bind_loop_too_far fuel bound_pc label ps a :
  use_far_branches_ a = false -> bound_pc mod 4 = 0 -> isS 32 bound_pc -> linked (buffer_ a) label ps ->
  label <= bound_pc -> (length ps <= fuel)%nat ->
  Exists (fun p => ~ isS 18 (bound_pc - (p + kInstrSize))) ps ->
  Bind_loop fuel bound_pc label a = Err BranchOffsetError.
Proof.
  intros Hf Hbal Hb32. revert fuel label a Hf.
  induction ps as [|p ps IH]; intros fuel label a Hf Hl Hle Hfuel HE; [by apply Exists_nil in HE|].
  inversion Hl as [|p' w ps' Hp Hal Hw Hlep Hl']; subst.
  destruct fuel as [|fuel]; [simpl in Hfuel; lia|].
  destruct (decide (isS 18 (bound_pc - (p + kInstrSize)))) as [Hr|Hr].
  - rewrite (Bind_loop_step fuel bound_pc p w a) by done. apply IH.
    + done.
    + apply (linked_agree (buffer_ a)); [done|]. intros i Hi. simpl. rewrite patch_lookup by done.
      rewrite decide_False by lia. done.
    + unfold kWordSize in Hle. lia.
    + simpl in Hfuel. lia.
    + apply Exists_cons in HE as [?|?]; [done|done].
  - cbn [Bind_loop]. assert (IsLinked (p + kWordSize) = true) as -> by (unfold IsLinked, kWordSize; lia).
    unfold abind at 1. rewrite Position_linked by done. unfold abind, use_far_branches. rewrite Hf.
    unfold aret. cbn [andb]. rewrite (LoadW_eval p w) by done.
    rewrite wrapS_id by (unfold isS, kInstrSize, kWordSize in *; lia).
    by rewrite EncodeBranchOffset_error by (done || (unfold kInstrSize; divlia)).
Qed.

(** A chain in a buffer that has grown. *)
Lemma linked_app buf ws label ps :
  linked buf label ps -> label <= 4 * Z.of_nat (length buf) -> linked (buf ++ ws) label ps.
Proof.
  intros Hl Hle. eapply linked_agree; [exact Hl|]. intros i Hi. apply lookup_app_l. lia.
Qed.

Lemma linked_in_buffer buf label ps : linked buf label ps -> label <= 4 * Z.of_nat (length buf).
Proof.
  intros H. destruct H as [|p w ps Hp Hal Hw Hle Hl]; [lia|]. apply lookup_lt_Some in Hw.
  unfold kWordSize. divlia.
Qed.

Lemma linked_aligned buf label ps : linked buf label ps -> label mod 4 = 0.
Proof. intros []; [done|]. unfold kWordSize. divlia. Qed.

(** An I-type word with another immediate. *)
Lemma retarget_itype op rs rt imm dest :
  isU 6 op -> reg rs -> reg rt -> isU 16 imm ->
  retarget (s32 (itype op rs rt imm)) dest = s32 (itype op rs rt (u16 (dest / 4))).
Proof.
  intros Hop Hrs Hrt Hi. unfold retarget, itype, wrapS, wrapU, isU in *.
  pose proof (Z.mod_pos_bound (dest / 4) (2 ^ 16) ltac:(lia)) as Hd. revert Hd.
  generalize ((dest / 4) mod 2 ^ 16). intros d Hd.
  change (2 ^ 16) with 65536 in *. change (2 ^ 26) with 67108864. change (2 ^ 21) with 2097152.
  change (2 ^ (32 - 1)) with 2147483648. change (2 ^ 32) with 4294967296.
  change (2 ^ 5) with 32 in *. change (2 ^ 6) with 64 in *. divlia.
Qed.

Lemma DecodeBranchOffset_itype op rs rt label :
  isU 6 op -> reg rs -> reg rt -> label mod 4 = 0 -> isS 18 label ->
  DecodeBranchOffset (s32 (itype op rs rt (u16 (label / 4)))) = label.
Proof.
  intros Hop Hrs Hrt Hal Hl. rewrite DecodeBranchOffset_eval.
  rewrite (wrapS_congr 16 _ (label / 4)); [|lia|].
  - rewrite wrapS_id; [divlia|lia|]. unfold isS in *. change (2 ^ (18 - 1)) with 131072 in Hl.
    change (2 ^ (16 - 1)) with 32768. divlia.
  - unfold wrapS, itype, wrapU. change (2 ^ (32 - 1)) with 2147483648. change (2 ^ 32) with 4294967296.
    change (2 ^ 16) with 65536. change (2 ^ 26) with 67108864. change (2 ^ 21) with 2097152. divlia.
Qed.

(** ** Flipping a branch *)

(** Overwriting [n] bits at position [p]. *)
Lemma replace_field z v p n :
  0 <= p -> 0 <= n -> isU n v ->
  (v <<< p) .| (z .& Z.lnot (Z.ones n <<< p)) = (z / 2 ^ (p + n)) * 2 ^ (p + n) + v * 2 ^ p + z mod 2 ^ p.
Proof.
  intros Hp Hn Hv. pose proof (Z.mod_pos_bound z (2 ^ p) (pow2_pos p Hp)) as Hm.
  replace ((z / 2 ^ (p + n)) * 2 ^ (p + n) + v * 2 ^ p + z mod 2 ^ p)
    with ((z / 2 ^ (p + n) * 2 ^ n + v) * 2 ^ p + z mod 2 ^ p) by (rewrite (Z.pow_add_r 2 p n) by lia; lia).
  rewrite <- lor_shiftl_add, <- (lor_shiftl_add _ v n), Z.shiftl_lor, Z.shiftl_shiftl by (done || lia).
  rewrite <- Z.shiftr_div_pow2, <- Z.land_ones by lia. zbits.
  destruct (Z.leb_spec p i), (Z.ltb_spec i p); try lia; cbn [andb]; rewrite ?testbit_ones by lia.
  - destruct (Z.ltb_spec (i - p) n), (Z.leb_spec (n + p) i); try lia; cbn [andb negb orb].
    + by rewrite andb_false_r, orb_false_r.
    + rewrite (testbit_above_isU n v) by (lia || done). rewrite Z.shiftr_spec by lia.
      replace (i - (n + p) + (p + n)) with i by lia. by rewrite ?andb_true_r, ?andb_false_r, ?orb_false_r.
  - destruct (Z.leb_spec (n + p) i); [lia|]. cbn. by rewrite !andb_true_r.
Qed.

Lemma SetOpcodeField_itype b op rs rt imm :
  isU 6 op -> reg rs -> reg rt -> isU 16 imm ->
  SetOpcodeField (s32 (itype op rs rt imm)) b = s32 (itype (Opcode_value b) rs rt imm).
Proof.
  intros Hop Hrs Hrt Hi. unfold SetOpcodeField, kOpcodeShift.
  change (Z.lnot (s32 (((1 <<< kOpcodeBits) - 1) <<< 26))) with (Z.ones 26). rewrite Z.land_ones by lia.
  rewrite lor_shiftl_add by (try lia; apply Z.mod_pos_bound; lia). f_equal.
  unfold itype, wrapS, isU in *. change (2 ^ (32 - 1)) with 2147483648. change (2 ^ 32) with 4294967296.
  change (2 ^ 26) with 67108864. change (2 ^ 21) with 2097152. change (2 ^ 16) with 65536 in *.
  change (2 ^ 5) with 32 in *. change (2 ^ 6) with 64 in *. divlia.
Qed.

Lemma SetRegImmFnField_itype b op rs fn imm :
  isU 6 op -> reg rs -> reg fn -> isU 16 imm ->
  SetRegImmFnField (s32 (itype op rs fn imm)) b = s32 (itype op rs (RtRegImm_value b) imm).
Proof.
  intros Hop Hrs Hfn Hi. unfold SetRegImmFnField, kRtShift.
  change (((1 <<< kRtBits) - 1) <<< 16) with (Z.ones 5 <<< 16).
  rewrite replace_field by (try lia; apply RtRegImm_isU). pose proof (RtRegImm_isU b) as Hb.
  apply wrapS_congr; [lia|]. revert Hb. generalize (RtRegImm_value b). intros v Hv.
  unfold itype, wrapS, isU in *. change (2 ^ (32 - 1)) with 2147483648. change (2 ^ 32) with 4294967296.
  change (2 ^ (16 + 5)) with 2097152.
  change (2 ^ 26) with 67108864. change (2 ^ 21) with 2097152. change (2 ^ 16) with 65536 in *.
  change (2 ^ 5) with 32 in *. change (2 ^ 6) with 64 in *. divlia.
Qed.

(** ** Properties *)

(** Emitting a branch to a label that is not bound yet (near branches) appends
    one word and links it in front of the label's chain, as long as the link
    fits the 16-bit offset field. *)
Theorem EmitBranch_links b rs rt label a ps :
  in_delay_slot_ a = false -> use_far_branches_ a = false -> reg rs -> reg rt ->
  linked (buffer_ a) label ps -> isS 18 label ->
  exists a', EmitBranch b rs rt label a = Ok (Size a + kWordSize, a')
    /\ buffer_ a' = buffer_ a ++ [s32 (itype (Opcode_value b) rs rt (u16 (label / 4)))]
    /\ linked (buffer_ a') (Size a + kWordSize) (Size a :: ps).
Proof.
  intros Hd Hf Hrs Hrt Hl Hr. pose proof (linked_bound _ _ _ Hl) as (H0&_).
  pose proof (linked_aligned _ _ _ Hl) as Hal. pose proof (linked_in_buffer _ _ _ Hl) as Hin.
  destruct (emits_EmitIType b rs rt (u16 (label / 4)) Hrs Hrt ltac:(apply wrapU_range; lia) a Hd)
    as (a'&E&B&_). exists a'.
  assert (IsBound label = false) as Hnb by (unfold IsBound; lia).
  split; [|split; [done|]].
  - unfold EmitBranch, abind, assert_not_in_delay_slot, use_far_branches, aget. rewrite Hd.
    cbn [negb aassert aret]. rewrite Hnb, Hf. rewrite EncodeBranchOffset_eval by done.
    change (0 / 2 ^ 16 * 2 ^ 16 + (label / 4) mod 2 ^ 16) with (u16 (label / 4)).
    rewrite (wrapU_id 16 (u16 _)) by (apply wrapU_range; lia). rewrite E.
    unfold LinkTo, abind. rewrite Hnb. cbn [negb aassert aret].
    assert (IsLinked (Size a + kWordSize) = true) as -> by (unfold IsLinked, Size, kInstrSize, kWordSize; lia). done.
  - assert (Z.to_nat (Size a / 4) = length (buffer_ a)) as Ei by (unfold Size, kInstrSize; divlia).
    assert (label <= Size a) as Hle by (unfold Size, kInstrSize; lia).
    pose proof (DecodeBranchOffset_itype (Opcode_value b) rs rt label (Opcode_isU b) Hrs Hrt Hal Hr) as Hdec.
    apply (linked_branch _ _ (s32 (itype (Opcode_value b) rs rt (u16 (label / 4))))).
    + unfold Size, kInstrSize. lia.
    + apply Size_aligned.
    + rewrite B, Ei. by rewrite lookup_app_r, Nat.sub_diag by lia.
    + by rewrite Hdec.
    + rewrite Hdec, B. by apply linked_app.
Qed.

Lemma EmitBranch_links_witness :
  exists a', EmitBranch BEQ T0 T1 0 (empty_assembler false) = Ok (4, a') /\ linked (buffer_ a') 4 [0].
Proof.
  destruct (EmitBranch_links BEQ T0 T1 0 (empty_assembler false) []) as (a'&E&_&Hl);
    [done..|apply linked_none|split; done|]. by exists a'.
Defined.

(** C25: with near branches ([use_far_branches_] off), [Bind] resolves every branch
    linked through the label: if all of them are within reach, it succeeds, leaves the label bound at the end of the buffer,
    gives each linked branch the offset from its delay slot to that position
    and changes no other word; if one is out of reach it reports the branch
    offset error instead.  The loop ends within as many rounds as the buffer
    has words. *)
Theorem Bind_resolves label a ps :
  use_far_branches_ a = false -> linked (buffer_ a) label ps -> Size a < 2 ^ 31 ->
  (Forall (fun p => isS 18 (Size a - (p + kInstrSize))) ps ->
   exists a', Bind label a = Ok (bound_at (Size a), a') /\
     forall i, buffer_ a' !! i =
       if decide (4 * Z.of_nat i ∈ ps)
       then (fun w => retarget w (Size a - (4 * Z.of_nat i + kInstrSize))) <$> buffer_ a !! i
       else buffer_ a !! i)
  /\ (Exists (fun p => ~ isS 18 (Size a - (p + kInstrSize))) ps -> Bind label a = Err BranchOffsetError).
Proof.
  intros Hf Hl Hsz. pose proof (linked_bound _ _ _ Hl) as (H0&_). pose proof (linked_length _ _ _ Hl) as Hlen.
  assert (IsBound label = false) as Hnb by (unfold IsBound; lia).
  assert (0 <= Size a) as Hs0 by (unfold Size, kInstrSize; lia). split; intros HP.
  - eexists. split.
    + unfold Bind, abind, aget. rewrite Hnb. cbn [negb aassert aret].
      rewrite (Bind_loop_near _ _ _ ps) by (auto using Size_aligned). unfold BindTo, abind. cbn [IsBound aassert aret negb].
      assert (IsBound (- Size a - kWordSize) = true) as -> by (unfold IsBound, kWordSize; lia). reflexivity.
    + intros i. cbn [buffer_ with_buffer]. apply patches_lookup; eauto using linked_positions, linked_NoDup.
  - unfold Bind, abind, aget. rewrite Hnb. cbn [negb aassert aret].
    rewrite (Bind_loop_too_far _ _ _ ps); auto using Size_aligned.
    + unfold isS. lia.
    + pose proof (linked_in_buffer _ _ _ Hl). unfold Size, kInstrSize. lia.
Qed.

(** A branch, its nop and a third word; the label is bound behind them. *)
Definition one_forward_branch : Assembler :=
  mkAsm [s32 (itype (Opcode_value BEQ) T0 T1 0); 0; 0] [] false false false false.

Lemma one_forward_branch_linked : linked (buffer_ one_forward_branch) 4 [0].
Proof.
  apply (linked_branch _ 0 (s32 (itype (Opcode_value BEQ) T0 T1 0)) []); [done..|].
  change (DecodeBranchOffset _) with 0. apply linked_none.
Qed.

Lemma Bind_resolves_witness :
  exists a', Bind 4 one_forward_branch = Ok (bound_at 12, a') /\
    buffer_ a' !! 0%nat = Some (retarget (s32 (itype (Opcode_value BEQ) T0 T1 0)) 8).
Proof.
  destruct (Bind_resolves 4 one_forward_branch [0] eq_refl one_forward_branch_linked eq_refl) as [Hok _].
  destruct Hok as (a'&E&Hb); [repeat constructor; done|]. exists a'. split; [exact E|]. apply (Hb 0%nat).
Defined.

(** [FlipBranchInstruction], which turns the test of a far branch around,
    keeps the registers and the offset of a conditional branch and negates its
    condition; a linking REGIMM branch loses the link, which the far jump
    then makes. *)
Theorem FlipBranch_negates a rs rt imm :
  reg rs -> reg rt -> isU 16 imm ->
  (forall op g, branch_cond op = Some g -> exists op' g',
     FlipBranchInstruction (s32 (itype (Opcode_value op) rs rt imm)) a
       = Ok (s32 (itype (Opcode_value op') rs rt imm), a)
     /\ branch_cond op' = Some g' /\ forall x y, g' x y = negb (g x y))
  /\ (forall b g, regimm_cond b = Some g -> exists b' g',
     FlipBranchInstruction (s32 (itype (Opcode_value REGIMM) rs (RtRegImm_value b) imm)) a
       = Ok (s32 (itype (Opcode_value REGIMM) rs (RtRegImm_value b') imm), a)
     /\ regimm_cond b' = Some g' /\ forall x, g' x = negb (g x)).
Proof.
  intros Hrs Hrt Hi. split.
  - intros op g Hg. unfold FlipBranchInstruction. rewrite OpcodeField_itype by done.
    destruct op; try discriminate Hg; injection Hg as <-; cbn -[itype wrapS SetOpcodeField];
      rewrite SetOpcodeField_itype by auto with fields; do 2 eexists; (split; [reflexivity|split; [reflexivity|]]);
      intros; cbn; rewrite ?negb_involutive; lia.
  - intros b g Hg. unfold FlipBranchInstruction. rewrite OpcodeField_itype by auto with fields.
    rewrite (RegImmFnField_eq _ b) by (apply RtField_itype; auto with fields).
    destruct b; try discriminate Hg; injection Hg as <-; cbn -[itype wrapS SetRegImmFnField];
      rewrite SetRegImmFnField_itype by (done || apply Opcode_isU); do 2 eexists;
      (split; [reflexivity|split; [reflexivity|]]); intros; cbn; lia.
Qed.

Lemma FlipBranch_negates_witness :
  exists op' g', FlipBranchInstruction (s32 (itype (Opcode_value BEQ) T0 T1 4)) (empty_assembler true)
    = Ok (s32 (itype (Opcode_value op') T0 T1 4), empty_assembler true)
  /\ branch_cond op' = Some g' /\ forall x y, g' x y = negb (x =? y).
Proof.
  apply (proj1 (FlipBranch_negates (empty_assembler true) T0 T1 4 ltac:(done) ltac:(done) ltac:(done))). done.
Defined.

(** ** Far branches *)

(** [lui T9; ori T9; jr T9] (or [jalr]) to the position [dest], to be relocated. *)
Definition far_jump (dest : Z) (link : bool) : list Z :=
  [s32 (itype (Opcode_value LUI) R0 T9 (u16 (Utils.High16Bits dest)));
   s32 (itype (Opcode_value ORI) T9 T9 (u16 (Utils.Low16Bits dest)));
   if link then s32 (rtype (Opcode_value SPECIAL) T9 R0 RA 0 (SpecialFunction_value JALR))
   else s32 (rtype (Opcode_value SPECIAL) T9 R0 R0 0 (SpecialFunction_value JR))].

(** The branch word of [bc1t]/[bc1f]. *)
Definition fpu_branch_word (kind : bool) (imm : Z) : Z :=
  s32 ((Opcode_value COP1 <<< kOpcodeShift) .| (Cop1Sub_value COP1_BC <<< kCop1SubShift)
       .| (if kind then 1 <<< 16 else 0) .| imm).

(** The state after emitting words. *)
Definition pushed (a : Assembler) (ws : list Z) : Assembler :=
  mkAsm (buffer_ a ++ ws) (fixups_ a) (use_far_branches_ a) false false (constant_pool_allowed_ a).

Lemma pushed_pushed a ws1 ws2 : pushed (pushed a ws1) ws2 = pushed a (ws1 ++ ws2).
Proof. unfold pushed. cbn. by rewrite <- app_assoc. Qed.

Lemma Emit_eval w a : Emit w a = Ok ((), pushed a [w]).
Proof. done. Qed.
Lemma EmitIType_eval op rs rt imm a :
  reg rs -> reg rt -> isU 16 imm ->
  EmitIType op rs rt imm a = Ok ((), pushed a [s32 (itype (Opcode_value op) rs rt imm)]).
Proof. intros. unfold EmitIType. by rewrite lor_itype. Qed.
Lemma EmitRType_eval op rs rt rd f a :
  reg rs -> reg rt -> reg rd ->
  EmitRType op rs rt rd 0 f a = Ok ((), pushed a [s32 (rtype (Opcode_value op) rs rt rd 0 (SpecialFunction_value f))]).
Proof. intros. unfold EmitRType, abind. rewrite lor_rtype by auto with fields. done. Qed.
Lemma EmitRegImmType_eval b rs imm a :
  reg rs -> isU 16 imm ->
  EmitRegImmType REGIMM rs b imm a = Ok ((), pushed a [s32 (itype (Opcode_value REGIMM) rs (RtRegImm_value b) imm)]).
Proof. intros. unfold EmitRegImmType. by rewrite lor_itype by auto with fields. Qed.

Lemma opposite_branch op g a :
  branch_cond op = Some g -> exists op' g',
    OppositeBranchOpcode op a = Ok (op', a) /\ branch_cond op' = Some g' /\ forall x y, g' x y = negb (g x y).
Proof.
  intros Hg. destruct op; try discriminate Hg; injection Hg as <-; do 2 eexists;
    (split; [reflexivity|split; [reflexivity|]]); intros; cbn; rewrite ?negb_involutive; lia.
Qed.

Lemma lui_eval rt imm a :
  reg rt -> isU 16 imm -> lui rt imm a = Ok ((), pushed a [s32 (itype (Opcode_value LUI) R0 rt imm)]).
Proof.
  intros ? Hi. unfold lui, abind. rewrite (proj2 (Utils.IsUint_spec kImmBits imm ltac:(done)) Hi).
  cbn [aassert aret]. rewrite wrapU_id by done. by apply EmitIType_eval.
Qed.
Lemma ori_eval rt rs imm a :
  reg rt -> reg rs -> isU 16 imm -> ori rt rs imm a = Ok ((), pushed a [s32 (itype (Opcode_value ORI) rs rt imm)]).
Proof.
  intros ? ? Hi. unfold ori, abind. rewrite (proj2 (Utils.IsUint_spec kImmBits imm ltac:(done)) Hi).
  cbn [aassert aret]. rewrite wrapU_id by done. by apply EmitIType_eval.
Qed.

Lemma EmitFarJump_eval dest link a :
  in_delay_slot_ a = false -> use_far_branches_ a = true ->
  exists a', EmitFarJump dest link a = Ok ((), a') /\ buffer_ a' = buffer_ a ++ far_jump dest link.
Proof.
  intros Hd Hf. unfold EmitFarJump, abind, assert_not_in_delay_slot, use_far_branches. rewrite Hd.
  cbn [negb aassert aret]. rewrite Hf. cbn [negb aassert aret].
  pose proof (wrapU_range 16 (Utils.High16Bits dest) ltac:(lia)) as Hh.
  pose proof (wrapU_range 16 (Utils.Low16Bits dest) ltac:(lia)) as Hl.
  destruct (EmitFixup a) as [[[] a1]|] eqn:E1; [|done]. injection E1 as E1.
  rewrite lui_eval, ori_eval by done. rewrite pushed_pushed.
  destruct link; rewrite EmitRType_eval by done; eexists; (split; [reflexivity|]);
    rewrite pushed_pushed, <- E1; reflexivity.
Qed.

(** The far branch: skip the jump when the given branch is taken. *)
Lemma far_branch_words (branch : AsmM unit) w dest link a :
  in_delay_slot_ a = false -> use_far_branches_ a = true -> branch a = Ok ((), pushed a [w]) ->
  exists a', (assert_not_in_delay_slot;; branch;; nop;; EmitFarJump dest link) a = Ok ((), a')
    /\ buffer_ a' = buffer_ a ++ w :: kNopInstruction :: far_jump dest link.
Proof.
  intros Hd Hf Hb. unfold abind, assert_not_in_delay_slot. rewrite Hd. cbn [negb aassert aret]. rewrite Hb.
  unfold nop. rewrite Emit_eval, pushed_pushed.
  destruct (EmitFarJump_eval dest link (pushed a ([w] ++ [kNopInstruction])) eq_refl Hf) as (a'&E&B).
  exists a'. split; [done|]. rewrite B. cbn [pushed buffer_]. by rewrite <- app_assoc.
Qed.

(** C37: a branch to a bound label out of reach becomes, when far branches are on, a
    branch that skips a jump to the label.  For BEQ and its like the skipping
    branch tests the opposite condition.  For REGIMM branches it does too, but
    the jump never links, also when the branch was BLTZAL or BGEZAL.  For
    floating point branches the skipping branch tests the condition itself,
    so that the code jumps to the label exactly when it should not. *)
Theorem far_bound_branches a p rs rt :
  in_delay_slot_ a = false -> use_far_branches_ a = true -> 0 <= p -> p mod 4 = 0 ->
  isS 32 (distance a p) -> ~ isS 18 (distance a p) -> reg rs -> reg rt ->
  (forall op g, branch_cond op = Some g -> exists op' g' a',
     EmitBranch op rs rt (bound_at p) a = Ok (bound_at p, a')
     /\ buffer_ a' = buffer_ a ++ s32 (itype (Opcode_value op') rs rt 4) :: kNopInstruction :: far_jump p false
     /\ branch_cond op' = Some g' /\ forall x y, g' x y = negb (g x y))
  /\ (forall b, In b [BLTZ; BGEZ; BLTZAL; BGEZAL] -> exists b' a',
     EmitRegImmBranch b rs (bound_at p) a = Ok (bound_at p, a')
     /\ buffer_ a' = buffer_ a ++ s32 (itype (Opcode_value REGIMM) rs (RtRegImm_value b') 4)
                               :: kNopInstruction :: far_jump p false
     /\ b' = match b with BLTZ | BLTZAL => BGEZ | _ => BLTZ end)
  /\ (forall kind, exists a',
     EmitFpuBranch kind (bound_at p) a = Ok (bound_at p, a')
     /\ buffer_ a' = buffer_ a ++ fpu_branch_word kind 4 :: kNopInstruction :: far_jump p false).
Proof.
  intros Hd Hf Hp Hal H32 H18 Hrs Hrt.
  assert (Utils.IsInt 18 (distance a p) = false) as Hno.
  { destruct (Utils.IsInt 18 (distance a p)) eqn:E; [|done]. by apply Utils.IsInt_spec in E. }
  assert (s32 (p - (Size a + kInstrSize)) = distance a p) as Es by (apply wrapS_id; done || lia).
  pose proof (CanEncode_eval (distance a p) a (distance_aligned a p Hal)) as Hcan. rewrite Hno in Hcan.
  pose proof (IsBound_bound_at p Hp) as Hb. pose proof (Position_bound p a Hp) as Hpos.
  split_and!.
  - intros op g Hg. destruct (opposite_branch op g a Hg) as (op'&g'&Eo&Hg'&Hneg).
    destruct (far_branch_words (EmitIType op' rs rt 4) _ p false a Hd Hf (EmitIType_eval op' rs rt 4 a Hrs Hrt ltac:(done)))
      as (a'&E&B). exists op', g', a'. split; [|done].
    cbv [EmitBranch abind assert_not_in_delay_slot use_far_branches aget aret aassert].
    rewrite Hd. cbn [negb]. rewrite Hf, Hb, Hpos. cbn [negb]. rewrite Es, Hcan. cbn [andb negb]. rewrite Eo.
    unfold EmitFarBranch. by rewrite E.
  - intros b Hin. set (b' := match b with BLTZ | BLTZAL => BGEZ | _ => BLTZ end).
    destruct (far_branch_words (EmitRegImmType REGIMM rs b' 4) _ p false a Hd Hf
                (EmitRegImmType_eval b' rs 4 a Hrs ltac:(done))) as (a'&E&B).
    exists b', a'. split; [|done].
    cbv [EmitRegImmBranch abind assert_not_in_delay_slot use_far_branches aget aret aassert].
    rewrite Hd. cbn [negb]. rewrite Hf, Hb, Hpos. cbn [negb]. rewrite Es, Hcan. cbn [andb negb].
    simpl in Hin. destruct Hin as [<-|[<-|[<-|[<-|[]]]]]; subst b'; cbn [OppositeBranchNoLink];
      unfold aret, EmitFarRegImmBranch; by rewrite E.
  - intros kind.
    destruct (far_branch_words (Emit (fpu_branch_word kind 4)) _ p false a Hd Hf (Emit_eval _ a)) as (a'&E&B).
    exists a'. split; [|done].
    cbv [EmitFpuBranch abind assert_not_in_delay_slot use_far_branches aget aret aassert].
    rewrite Hd. cbn [negb]. rewrite Hf, Hb, Hpos. cbn [negb]. rewrite Es, Hcan. cbn [andb negb].
    unfold EmitFarFpuBranch. unfold fpu_branch_word in E. by rewrite E.
Qed.


(** 128 KB of code behind a label bound at its start. *)
Definition large_assembler : Assembler :=
  mkAsm (repeat kNopInstruction (Z.to_nat 40000)) [] true false false false.

Lemma large_assembler_distance : distance large_assembler 0 = -160004.
Proof. unfold distance, Size, large_assembler. cbn [buffer_]. rewrite repeat_length, Z2Nat.id by lia. done. Qed.

Lemma far_bound_branches_witness :
  exists a', EmitFpuBranch true (bound_at 0) large_assembler = Ok (bound_at 0, a')
    /\ buffer_ a' = buffer_ large_assembler ++ fpu_branch_word true 4 :: kNopInstruction :: far_jump 0 false.
Proof.
  apply (far_bound_branches large_assembler 0 T0 T1 eq_refl eq_refl ltac:(lia) eq_refl); rewrite ?large_assembler_distance.
  - unfold isS. lia.
  - unfold isS. lia.
  - done.
  - done.
Defined.

End MipsBind.
