(* ===== verification/MipsExclusive.v ===== *)
(** * vm/simulator_mips.cc: exclusive access (load linked, store conditional)

    The reservations of all threads live in one array of address tags, guarded
    by a lock; each operation below runs with the lock held, so an execution
    of several threads is a sequence of operations, each by some thread.  A
    thread is its address (not 0), an address tag a pair of a thread and the
    address it reserved. *)

From stdpp Require Import base numbers list gmap.
From Stdlib Require Import ZArith Lia.
From S2P Require Import Prelude MipsConstants MipsSimulator.

Local Open Scope Z_scope.
Local Open Scope mach_scope.

Module MipsExclusive.
Import MipsSimulator.

(** ** State and operations *)

Definition kNumAddressTags : nat := 16.

Record AddressTag := mkTag { thread : Z; addr : Z }.

Record Exclusive := mkExclusive {
  exclusive_access_state_ : list AddressTag;
  next_address_tag_ : nat
}.

Definition Exclusive_init : Exclusive := mkExclusive (repeat (mkTag 0 0) kNumAddressTags) 0.

(** Find an entry for this thread; the index is the length when there is none. *)
Fixpoint find_tag (tags : list AddressTag) (t : Z) : nat :=
  match tags with
  | [] => O
  | tag :: tags => if thread tag =? t then O else S (find_tag tags t)
  end.

Definition SetExclusiveAccess (x : Exclusive) (t a : Z) : Exclusive :=
  let i := find_tag (exclusive_access_state_ x) t in
  if (i =? length (exclusive_access_state_ x))%nat then
    let i := next_address_tag_ x in
    let next := S (next_address_tag_ x) in
    let next := if (next =? kNumAddressTags)%nat then O else next in
    mkExclusive (<[i := mkTag t a]> (exclusive_access_state_ x)) next
  else mkExclusive (<[i := mkTag t a]> (exclusive_access_state_ x)) (next_address_tag_ x).

(** The loop of [HasExclusiveAccessAndOpen]. *)
Definition open_tag (t a : Z) (tag : AddressTag) : AddressTag :=
  if thread tag =? t then mkTag (thread tag) 0
  else if addr tag =? a then mkTag (thread tag) 0
  else tag.

Definition HasExclusiveAccessAndOpen (x : Exclusive) (t a : Z) : M (bool * Exclusive) :=
  assert_ (negb (a =? 0));;
  let result := existsb (fun tag => (thread tag =? t) && (addr tag =? a)) (exclusive_access_state_ x) in
  Ok (result, mkExclusive (open_tag t a <$> exclusive_access_state_ x) (next_address_tag_ x)).

Definition ClearExclusive (x : Exclusive) (t : Z) : Exclusive := SetExclusiveAccess x t 0.

Definition ReadExclusiveW (x : Exclusive) (s : Simulator) (t a : Z) : M (Z * Exclusive) :=
  let x := SetExclusiveAccess x t a in
  v ← ReadW s a;
  Ok (v, x).

(** The result is 0 for success, 1 for failure. *)
Definition WriteExclusiveW (x : Exclusive) (s : Simulator) (t a value : Z) : M (Z * Exclusive * Simulator) :=
  r ← HasExclusiveAccessAndOpen x t a;
  let '(write_allowed, x) := (r : bool * Exclusive) in
  if write_allowed then
    s ← WriteW s a value;
    Ok (0, x, s)
  else Ok (1, x, s).

(** [*address] is a 32-bit word of the memory shared by the simulators. *)
Definition CompareExchange (x : Exclusive) (m : gmap Z Z) (t address compare_value new_value : Z)
  : M (Z * Exclusive * gmap Z Z) :=
  value ← load_le m address 4;
  if value =? compare_value then
    m ← store_le m address 4 new_value;
    r ← HasExclusiveAccessAndOpen x t address;
    let '(_, x) := (r : bool * Exclusive) in
    Ok (value, x, m)
  else Ok (value, SetExclusiveAccess x t address, m).

(** ** Invariant *)

(** Thread [t] has address [a] reserved. *)
Definition reserved (x : Exclusive) (t a : Z) : Prop := mkTag t a ∈ exclusive_access_state_ x.

Record exclusive_wf (x : Exclusive) : Prop := {
  x_length : length (exclusive_access_state_ x) = kNumAddressTags;
  x_next : (next_address_tag_ x < kNumAddressTags)%nat;
  (** each thread is associated to at most one address tag *)
  x_one_tag i j tag tag' :
    exclusive_access_state_ x !! i = Some tag -> exclusive_access_state_ x !! j = Some tag' ->
    thread tag = thread tag' -> thread tag <> 0 -> i = j
}.

Lemma find_tag_le tags t : (find_tag tags t <= length tags)%nat.
Proof. induction tags as [|tag tags IH]; simpl; [lia|]. destruct (_ =? _); lia. Qed.

Lemma find_tag_found tags t :
  (find_tag tags t < length tags)%nat -> exists a, tags !! find_tag tags t = Some (mkTag t a).
Proof.
  induction tags as [|[t' a'] tags IH]; simpl; [lia|].
  destruct (Z.eqb_spec t' t) as [->|_]; simpl; [eauto|]. intros. apply IH. lia.
Qed.

Lemma find_tag_missing tags t : find_tag tags t = length tags -> forall tag, tag ∈ tags -> thread tag <> t.
Proof.
  induction tags as [|[t' a'] tags IH]; simpl; [intros _ tag Ht; by apply not_elem_of_nil in Ht|].
  destruct (Z.eqb_spec t' t) as [->|Hne]; [done|]. intros [= E] tag Ht.
  apply elem_of_cons in Ht as [->|Ht]; [done|]. by apply IH.
Qed.

(** The slot [SetExclusiveAccess] writes: the thread's own, or a victim's when it has none. *)
Lemma SetExclusiveAccess_slot x t a :
  exclusive_wf x ->
  exists i, (i < kNumAddressTags)%nat
    /\ exclusive_access_state_ (SetExclusiveAccess x t a) = <[i := mkTag t a]> (exclusive_access_state_ x)
    /\ (forall j tag, exclusive_access_state_ x !! j = Some tag -> thread tag = t -> t <> 0 -> j = i)
    /\ (next_address_tag_ (SetExclusiveAccess x t a) < kNumAddressTags)%nat.
Proof.
  intros [Hlen Hnext Hone]. unfold SetExclusiveAccess.
  destruct (Nat.eqb_spec (find_tag (exclusive_access_state_ x) t) (length (exclusive_access_state_ x))) as [E|E]; simpl.
  - exists (next_address_tag_ x). split; [done|]. split; [done|]. split.
    + intros j tag Hj Ht _. apply list_elem_of_lookup_2 in Hj. by apply (find_tag_missing _ _ E) in Hj.
    + unfold kNumAddressTags in *. case_match eqn:En; [lia|]. apply Nat.eqb_neq in En. lia.
  - pose proof (find_tag_le (exclusive_access_state_ x) t) as Hle.
    destruct (find_tag_found (exclusive_access_state_ x) t ltac:(lia)) as [a0 Ha0].
    eexists. split; [|split; [reflexivity|split; [|done]]]; [lia|].
    intros j tag Hj Ht Hnz. eapply (Hone j _ tag (mkTag t a0)); [done..|]. congruence.
Qed.

Lemma Exclusive_init_wf : exclusive_wf Exclusive_init.
Proof.
  constructor; [done|unfold kNumAddressTags; simpl; lia|]. intros i j tag tag' Hi _ _ Hnz.
  apply list_elem_of_lookup_2, list_elem_of_In, repeat_spec in Hi. by subst.
Qed.

Lemma SetExclusiveAccess_wf x t a : exclusive_wf x -> exclusive_wf (SetExclusiveAccess x t a).
Proof.
  intros Hx. destruct (SetExclusiveAccess_slot x t a Hx) as (i&Hi&E&Hown&Hn). destruct Hx as [Hlen Hnext Hone].
  constructor; [by rewrite E, length_insert|done|]. rewrite E. intros j k tag tag' Hj Hk Ht Hnz.
  apply list_lookup_insert_Some in Hj as [(<-&<-&_)|[Hij Hj]], Hk as [(<-&<-&_)|[Hik Hk]]; simpl in *; subst.
  - done.
  - symmetry. eapply Hown; [exact Hk|done|done].
  - eapply Hown; [exact Hj|done|congruence].
  - eapply Hone; eauto.
Qed.

Lemma open_tag_thread t a tag : thread (open_tag t a tag) = thread tag.
Proof. unfold open_tag. by destruct (thread tag =? t), (addr tag =? a). Qed.

Lemma HasExclusiveAccessAndOpen_wf x t a r x' :
  exclusive_wf x -> HasExclusiveAccessAndOpen x t a = Ok (r, x') -> exclusive_wf x'.
Proof.
  intros [Hlen Hnext Hone] (?&_&[= <- <-])%bind_ok. constructor; simpl; [by rewrite length_fmap|done|].
  intros i j tag tag' Hi Hj. apply list_lookup_fmap_Some in Hi as (tag0&->&Hi), Hj as (tag1&->&Hj).
  rewrite !open_tag_thread. eauto.
Qed.

(** ** Reservations *)

(** Reserving makes exactly one new reservation. *)
Lemma reserved_SetExclusiveAccess x t a t' a' :
  exclusive_wf x -> reserved (SetExclusiveAccess x t a) t' a' ->
  (t' = t /\ a' = a) \/ (reserved x t' a' /\ (t' = t -> t = 0)).
Proof.
  intros Hx. destruct (SetExclusiveAccess_slot x t a Hx) as (i&Hi&E&Hown&_). unfold reserved. rewrite E.
  intros (j&Hj)%list_elem_of_lookup. apply list_lookup_insert_Some in Hj as [(<-&[= -> ->]&_)|[Hij Hj]]; [auto|].
  right. split; [by eapply list_elem_of_lookup_2|]. intros ->.
  destruct (Z.eq_dec t 0) as [|Hnz]; [done|]. by specialize (Hown j _ Hj eq_refl Hnz).
Qed.

Lemma reserved_after_Set x t a : exclusive_wf x -> reserved (SetExclusiveAccess x t a) t a.
Proof.
  intros Hx. destruct (SetExclusiveAccess_slot x t a Hx) as (i&Hi&E&_). unfold reserved. rewrite E.
  apply list_elem_of_lookup. exists i. apply list_lookup_insert_eq. by rewrite (x_length x Hx).
Qed.

Lemma reserved_open x t a r x' t' a' :
  HasExclusiveAccessAndOpen x t a = Ok (r, x') -> a' <> 0 -> reserved x' t' a' ->
  reserved x t' a' /\ a' <> a /\ t' <> t.
Proof.
  intros (?&_&[= <- <-])%bind_ok Hnz. unfold reserved. simpl. intros (tag&E&Ht)%list_elem_of_fmap.
  revert E. unfold open_tag. destruct (Z.eqb_spec (thread tag) t) as [Et|Et].
  { intros [= _ ->]. done. }
  destruct (Z.eqb_spec (addr tag) a) as [Ea|Ea].
  { intros [= _ ->]. done. }
  intros <-. auto.
Qed.

Lemma open_result x t a r x' : HasExclusiveAccessAndOpen x t a = Ok (r, x') -> (r = true <-> reserved x t a).
Proof.
  intros (?&_&[= <- _])%bind_ok. rewrite existsb_exists. unfold reserved. split.
  - intros ([t' a']&Hin&[Et%Z.eqb_eq Ea%Z.eqb_eq]%andb_true_iff). simpl in *. subst. by apply list_elem_of_In.
  - intros Hin%list_elem_of_In. exists (mkTag t a). simpl. by rewrite !Z.eqb_refl.
Qed.

(** ** Interleavings *)

(** The operations on reservations, as the threads interleave them. *)
Inductive exclusive_op :=
| LoadLinked (t a : Z)          (* ReadExclusiveW, or a CompareExchange that fails *)
| StoreConditional (t a : Z)    (* WriteExclusiveW, or a CompareExchange that succeeds *)
| Clear (t : Z).                (* ClearExclusive *)

(** The new state, and whether a store took place. *)
Definition exclusive_step (x : Exclusive) (op : exclusive_op) : M (bool * Exclusive) :=
  match op with
  | LoadLinked t a => Ok (false, SetExclusiveAccess x t a)
  | StoreConditional t a => HasExclusiveAccessAndOpen x t a
  | Clear t => Ok (false, ClearExclusive x t)
  end.

Fixpoint exclusive_run (x : Exclusive) (ops : list exclusive_op) : M Exclusive :=
  match ops with
  | [] => Ok x
  | op :: ops => r ← exclusive_step x op; exclusive_run (r : bool * Exclusive).2 ops
  end.

Lemma exclusive_step_wf x op r x' : exclusive_wf x -> exclusive_step x op = Ok (r, x') -> exclusive_wf x'.
Proof.
  intros Hx. destruct op; simpl; [intros [= _ <-]; by apply SetExclusiveAccess_wf| |].
  - by apply HasExclusiveAccessAndOpen_wf.
  - intros [= _ <-]. by apply SetExclusiveAccess_wf.
Qed.

Lemma exclusive_run_wf x ops x' : exclusive_wf x -> exclusive_run x ops = Ok x' -> exclusive_wf x'.
Proof.
  revert x. induction ops as [|op ops IH]; intros x Hx; simpl; [by intros [= <-]|].
  intros ([r x1]&E&Hr)%bind_ok. eapply IH; [|exact Hr]. eapply exclusive_step_wf; eauto.
Qed.

(** Only a load linked of the thread itself reserves an address for it. *)
Lemma exclusive_step_reserved x op r x' t a :
  exclusive_wf x -> a <> 0 -> exclusive_step x op = Ok (r, x') -> reserved x' t a ->
  reserved x t a \/ op = LoadLinked t a.
Proof.
  intros Hx Ha. destruct op as [t' a'|t' a'|t']; simpl.
  - intros [= _ <-] Hr. apply reserved_SetExclusiveAccess in Hr as [[-> ->]|[? _]]; auto.
  - intros E Hr. destruct (reserved_open _ _ _ _ _ _ _ E Ha Hr) as [? _]. auto.
  - intros [= _ <-] Hr. apply reserved_SetExclusiveAccess in Hr as [[_ ->]|[? _]]; auto; done.
Qed.

Lemma exclusive_run_reserved x ops x' t a :
  exclusive_wf x -> a <> 0 -> exclusive_run x ops = Ok x' -> reserved x' t a ->
  reserved x t a \/ LoadLinked t a ∈ ops.
Proof.
  intros Hx Ha. revert x Hx. induction ops as [|op ops IH]; intros x Hx; simpl; [intros [= <-]; auto|].
  intros ([r x1]&E&Hr)%bind_ok Hres. simpl in Hr.
  destruct (IH x1 (exclusive_step_wf _ _ _ _ Hx E) Hr Hres) as [H1|H1].
  - destruct (exclusive_step_reserved _ _ _ _ _ _ Hx Ha E H1) as [?| ->]; [auto|].
    right. apply elem_of_cons. auto.
  - right. apply elem_of_cons. auto.
Qed.

(** ** Properties *)

(** The exclusive access state keeps its invariant under every operation of
    every interleaving: sixteen tags, the round-robin index in range, and each
    thread associated to at most one tag. *)
Theorem exclusive_invariant ops x :
  exclusive_run Exclusive_init ops = Ok x -> exclusive_wf x.
Proof. apply exclusive_run_wf, Exclusive_init_wf. Qed.

Lemma exclusive_invariant_witness :
  exists x, exclusive_run Exclusive_init [LoadLinked 1 8; LoadLinked 2 8; StoreConditional 1 8; Clear 2] = Ok x
    /\ exclusive_wf x.
Proof. eexists. split; [reflexivity|]. by apply (exclusive_invariant [LoadLinked 1 8; LoadLinked 2 8; StoreConditional 1 8; Clear 2]). Defined.

(** C32: mutual exclusion of load linked / store conditional.  After a store
    conditional to an address (successful or not) no thread has the address
    reserved, so whatever the threads do next, a store conditional to it
    succeeds only for a thread that has executed a load linked of it since;
    and a store conditional right after its own load linked succeeds. *)
Theorem store_conditional_exclusive x t1 a r x1 ops x2 t2 r2 x3 :
  exclusive_wf x -> a <> 0 -> exclusive_step x (StoreConditional t1 a) = Ok (r, x1) ->
  exclusive_run x1 ops = Ok x2 -> exclusive_step x2 (StoreConditional t2 a) = Ok (r2, x3) ->
  (forall t, ~ reserved x1 t a) /\ (r2 = true -> LoadLinked t2 a ∈ ops)
  /\ (forall t, exists x', exclusive_step (SetExclusiveAccess x t a) (StoreConditional t a) = Ok (true, x')).
Proof.
  intros Hx Ha E1 E2 E3. simpl in E1, E3.
  assert (forall t, ~ reserved x1 t a) as Hnone by (intros t (_&?&_)%(reserved_open _ _ _ _ _ _ _ E1 Ha); done).
  split; [done|]. split.
  - intros ->. pose proof (proj1 (open_result _ _ _ _ _ E3) eq_refl) as Hr.
    destruct (exclusive_run_reserved x1 ops x2 t2 a) as [H1|H1]; try done.
    + eapply HasExclusiveAccessAndOpen_wf; eauto.
    + by apply Hnone in H1.
  - intros t. simpl. destruct (HasExclusiveAccessAndOpen (SetExclusiveAccess x t a) t a) as [[r' x']|e] eqn:E.
    + exists x'. do 2 f_equal. apply (open_result _ _ _ _ _ E), reserved_after_Set, Hx.
    + exfalso. unfold HasExclusiveAccessAndOpen in E. by rewrite (proj2 (Z.eqb_neq a 0) Ha) in E.
Qed.

Lemma store_conditional_exclusive_witness :
  exists x1 x2 x3, exclusive_step (SetExclusiveAccess Exclusive_init 1 8) (StoreConditional 1 8) = Ok (true, x1)
    /\ exclusive_run x1 [LoadLinked 2 8] = Ok x2
    /\ exclusive_step x2 (StoreConditional 2 8) = Ok (true, x3) /\ forall t, ~ reserved x1 t 8.
Proof.
  do 3 eexists. do 3 (split; [reflexivity|]).
  apply (store_conditional_exclusive (SetExclusiveAccess Exclusive_init 1 8) 1 8 true _ [LoadLinked 2 8] _ 2 true _
           (SetExclusiveAccess_wf _ 1 8 Exclusive_init_wf) ltac:(done) eq_refl eq_refl eq_refl).
Defined.

End MipsExclusive.
