(* ===== verification/DataStream.v ===== *)
(** * vm/datastream.h

    The variable-length integer encoding of snapshots: seven data bits per
    byte, the last byte marked by its high bit.  [ReadStream] reads from a
    fixed buffer, [WriteStream] writes into a buffer it grows with the
    allocation function it is given.  [W] is the width of the integer type
    [T] of a template; [intptr_t] has 64 bits. *)

From stdpp Require Import base numbers list.
From Stdlib Require Import ZArith Lia.
From S2P Require Import Prelude Utils.

Local Open Scope Z_scope.
Local Open Scope mach_scope.

Module DataStream.

Definition kDataBitsPerByte : Z := 7.
Definition kByteMask : Z := (1 <<< kDataBitsPerByte) - 1.
Definition kMaxUnsignedDataPerByte : Z := kByteMask.
Definition kMinDataPerByte : Z := - (1 <<< (kDataBitsPerByte - 1)).
Definition kMaxDataPerByte : Z := Z.lnot kMinDataPerByte .& kByteMask.
Definition kEndByteMarker : Z := 255 - kMaxDataPerByte.
Definition kEndUnsignedByteMarker : Z := 255 - kMaxUnsignedDataPerByte.

Inductive ds_error :=
| DsAssertFailed
| ThrowOOM
| DsOutOfFuel.

Abbreviation M A := (result ds_error A).
Definition assert_ (b : bool) : M unit := if b then Ok () else Err DsAssertFailed.

(** ** ReadStream *)

(** [current_] is the offset of the next byte; [end_] is the end of the buffer. *)
Record ReadStream := mkRead { buffer_ : list Z; current_ : Z }.

Definition end_ (st : ReadStream) : Z := Z.of_nat (length (buffer_ st)).

Definition SetStream (buffer : list Z) : ReadStream := mkRead buffer 0.

(** [ASSERT(c < end_); b = *c++;] *)
Definition ReadByte (st : ReadStream) : M (Z * ReadStream) :=
  if current_ st <? end_ st then
    match buffer_ st !! Z.to_nat (current_ st) with
    | Some b => Ok (b, mkRead (buffer_ st) (current_ st + 1))
    | None => Err DsAssertFailed
    end
  else Err DsAssertFailed.

Definition ReadBytes (st : ReadStream) (len : Z) : M (list Z * ReadStream) :=
  assert_ (end_ st - current_ st >=? len);;
  Ok (take (Z.to_nat len) (drop (Z.to_nat (current_ st)) (buffer_ st)), mkRead (buffer_ st) (current_ st + len)).

Definition Position (st : ReadStream) : Z := current_ st.

Definition SetPosition (st : ReadStream) (value : Z) : M ReadStream :=
  assert_ (end_ st >? value);;
  Ok (mkRead (buffer_ st) value).

Definition Advance (st : ReadStream) (value : Z) : M ReadStream :=
  assert_ (end_ st - current_ st >? value);;
  Ok (mkRead (buffer_ st) (current_ st + value)).

Definition PendingBytes (st : ReadStream) : M Z :=
  assert_ (end_ st >=? current_ st);;
  Ok (end_ st - current_ st).

(** The loop of [Read<T>]; [b] is the byte just read, [s] an [uint8_t]. *)
Fixpoint Read_loop (fuel : nat) (W end_byte_marker r s b : Z) (st : ReadStream) : M (Z * ReadStream) :=
  match fuel with
  | O => Err DsOutOfFuel
  | S fuel =>
      let r := r .| wrapS W (b <<< s) in
      let s := u8 (s + kDataBitsPerByte) in
      ReadByte st ≫= fun '(b, st) =>
      if b <=? kMaxUnsignedDataPerByte then Read_loop fuel W end_byte_marker r s b st
      else Ok (r .| wrapS W ((b - end_byte_marker) <<< s), st)
  end.

Definition Read (W end_byte_marker : Z) (st : ReadStream) : M (Z * ReadStream) :=
  ReadByte st ≫= fun '(b, st) =>
  if b >? kMaxUnsignedDataPerByte then Ok (wrapS W (b - end_byte_marker), st)
  else Read_loop (length (buffer_ st)) W end_byte_marker 0 0 b st.

(** [Read16], [Read32] and [Read64] are that loop unrolled: one round per shift,
    where the last byte must be an end byte. *)
Fixpoint Read_unrolled (W end_byte_marker : Z) (shifts : list Z) (r : Z) (st : ReadStream) : M (Z * ReadStream) :=
  match shifts with
  | [] => Err DsAssertFailed
  | s :: shifts =>
      ReadByte st ≫= fun '(b, st) =>
      if b >? kMaxUnsignedDataPerByte then Ok (wrapS W (r .| ((b - end_byte_marker) <<< s)), st)
      else Read_unrolled W end_byte_marker shifts (wrapS W (r .| (b <<< s))) st
  end.

Definition Read16 (end_byte_marker : Z) : ReadStream -> M (Z * ReadStream) :=
  Read_unrolled 16 end_byte_marker [0; 7; 14] 0.
Definition Read32 (end_byte_marker : Z) : ReadStream -> M (Z * ReadStream) :=
  Read_unrolled 32 end_byte_marker [0; 7; 14; 21; 28] 0.
Definition Read64 (end_byte_marker : Z) : ReadStream -> M (Z * ReadStream) :=
  Read_unrolled 64 end_byte_marker [0; 7; 14; 21; 28; 35; 42; 49; 56; 63] 0.

Definition ReadUnsigned : ReadStream -> M (Z * ReadStream) := Read 64 kEndUnsignedByteMarker.

(** [Raw<N, T>::Read]. *)
Definition Raw_Read (N : Z) (st : ReadStream) : M (Z * ReadStream) :=
  if N =? 1 then ReadByte st ≫= fun '(b, st) => Ok (s8 b, st)
  else if N =? 2 then Read16 kEndByteMarker st
  else if N =? 4 then Read32 kEndByteMarker st
  else Read64 kEndByteMarker st.

(** ** WriteStream *)

(** The allocated bytes, of which the first [w_current] are written. *)
Record WriteStream := mkWrite { w_buffer : list Z; w_current : Z; initial_size_ : Z }.

Definition current_size_ (st : WriteStream) : Z := Z.of_nat (length (w_buffer st)).
Definition bytes_written (st : WriteStream) : Z := w_current st.

(** [ReAlloc]: the buffer moved to one of the new size, or NULL. *)
Class ReAlloc := alloc_ : list Z -> Z -> option (list Z).

Section Write.
Context `{ReAlloc}.

Definition WriteStream_new (initial_size : Z) : M WriteStream :=
  match alloc_ [] initial_size with
  | Some buf => Ok (mkWrite buf 0 initial_size)
  | None => Err ThrowOOM
  end.

(** [RoundUp] asserts that its second argument is a power of two. *)
Definition Resize (st : WriteStream) (size_needed : Z) : M WriteStream :=
  let increment_size := current_size_ st in
  increment_size ←
    (if size_needed >? increment_size then
       assert_ (Utils.IsPowerOfTwo (initial_size_ st));;
       Ok (Utils.RoundUp (wrapS 64) size_needed (initial_size_ st))
     else Ok increment_size);
  let new_size := s64 (current_size_ st + increment_size) in
  assert_ (new_size >? current_size_ st);;
  match alloc_ (w_buffer st) new_size with
  | Some buf => Ok (mkWrite buf (w_current st) (initial_size_ st))
  | None => Err ThrowOOM
  end.

Definition WriteByte (st : WriteStream) (value : Z) : M WriteStream :=
  st ← (if w_current st >=? current_size_ st then Resize st 1 else Ok st);
  assert_ (w_current st <? current_size_ st);;
  Ok (mkWrite (<[Z.to_nat (w_current st) := value]> (w_buffer st)) (w_current st + 1) (initial_size_ st)).

Definition WriteBytes (st : WriteStream) (bytes : list Z) : M WriteStream :=
  let len := Z.of_nat (length bytes) in
  st ← (if current_size_ st - w_current st <? len then Resize st len else Ok st);
  assert_ (current_size_ st - w_current st >=? len);;
  Ok (mkWrite (list_inserts (Z.to_nat (w_current st)) bytes (w_buffer st)) (w_current st + len) (initial_size_ st)).

(** The loop of [Write<T>]: the shifts leave at most ten bytes of 64 bits. *)
Fixpoint Write_loop (fuel : nat) (v : Z) (st : WriteStream) : M WriteStream :=
  if (v <? kMinDataPerByte) || (v >? kMaxDataPerByte) then
    match fuel with
    | O => Err DsOutOfFuel
    | S fuel => st ← WriteByte st (u8 (v .& kByteMask)); Write_loop fuel (v >>> kDataBitsPerByte) st
    end
  else WriteByte st (u8 (v + kEndByteMarker)).

Definition Write (st : WriteStream) (value : Z) : M WriteStream := Write_loop 9 value st.

Fixpoint WriteUnsigned_loop (fuel : nat) (value : Z) (st : WriteStream) : M WriteStream :=
  if value >? kMaxUnsignedDataPerByte then
    match fuel with
    | O => Err DsOutOfFuel
    | S fuel => st ← WriteByte st (u8 (value .& kByteMask)); WriteUnsigned_loop fuel (value >>> kDataBitsPerByte) st
    end
  else WriteByte st (u8 (value + kEndUnsignedByteMarker)).

Definition WriteUnsigned (st : WriteStream) (value : Z) : M WriteStream :=
  assert_ ((value >=? 0) && (value <=? Utils.kMaxInt64));;
  WriteUnsigned_loop 9 value st.

(** [Raw<N, T>::Write]. *)
Definition Raw_Write (N : Z) (st : WriteStream) (value : Z) : M WriteStream :=
  if N =? 1 then WriteByte st (u8 value) else Write st value.
End Write.

(** ** The encoding *)

(** The bytes of a signed and of an unsigned integer, as lists. *)
Fixpoint encode (fuel : nat) (v : Z) : list Z :=
  if (v <? -64) || (v >? 63) then
    match fuel with O => [] | S fuel => v mod 128 :: encode fuel (v / 128) end
  else [v + 192].

Fixpoint encode_unsigned (fuel : nat) (v : Z) : list Z :=
  if v >? 127 then
    match fuel with O => [] | S fuel => v mod 128 :: encode_unsigned fuel (v / 128) end
  else [v + 128].

(** [bs] is what comes next in the stream. *)
Definition pending (st : ReadStream) (bs : list Z) : Prop :=
  0 <= current_ st <= end_ st /\ exists rest, drop (Z.to_nat (current_ st)) (buffer_ st) = bs ++ rest.

Definition advanced (st : ReadStream) (n : nat) : ReadStream := mkRead (buffer_ st) (current_ st + Z.of_nat n).

Lemma ReadByte_pending st b bs :
  pending st (b :: bs) -> ReadByte st = Ok (b, advanced st 1) /\ pending (advanced st 1) bs.
Proof.
  intros (H0&rest&E). assert (buffer_ st !! Z.to_nat (current_ st) = Some b) as Hb.
  { rewrite <- (Nat.add_0_r (Z.to_nat (current_ st))), <- lookup_drop, E. done. }
  apply lookup_lt_Some in Hb as Hlt. split.
  - unfold ReadByte, end_. rewrite (proj2 (Z.ltb_lt _ _)) by lia. by rewrite Hb.
  - unfold end_ in H0. split; [unfold end_; simpl; lia|]. exists rest. simpl.
    replace (Z.to_nat (current_ st + Z.of_nat 1)) with (Z.to_nat (current_ st) + 1)%nat by lia.
    rewrite <- drop_drop, E. done.
Qed.

Lemma advanced_advanced st n k : advanced (advanced st n) k = advanced st (n + k).
Proof. unfold advanced. simpl. f_equal. lia. Qed.

Lemma shiftr7 v : v >>> kDataBitsPerByte = v / 128.
Proof. apply Z.shiftr_div_pow2. done. Qed.

Lemma land127 v : u8 (v .& kByteMask) = v mod 128.
Proof.
  change kByteMask with (Z.ones 7). rewrite Z.land_ones by lia. apply wrapU_id.
  pose proof (Z.mod_pos_bound v (2 ^ 7) ltac:(lia)). unfold isU. change (2 ^ 7) with 128 in *. lia.
Qed.

(** ** Reading signed integers *)

Fixpoint shifts_from (n : nat) (s : Z) : list Z :=
  match n with O => [] | S n => s :: shifts_from n (s + 7) end.

(** The end byte. *)
Lemma Read_unrolled_last W s shifts r v st :
  0 < W -> 0 <= s -> isU s r -> -64 <= v <= 63 -> isS W (v * 2 ^ s + r) -> pending st [v + 192] ->
  Read_unrolled W kEndByteMarker (s :: shifts) r st = Ok (v * 2 ^ s + r, advanced st 1).
Proof.
  intros HW Hs Hr Hv Htot Hp. cbn [Read_unrolled].
  destruct (ReadByte_pending _ _ _ Hp) as [E _]. rewrite E. cbn [mbind result_bind].
  assert ((v + 192 >? kMaxUnsignedDataPerByte) = true) as -> by (change kMaxUnsignedDataPerByte with 127; lia).
  change kEndByteMarker with 192. replace (v + 192 - 192) with v by lia.
  rewrite Z.lor_comm, lor_shiftl_add, wrapS_id by (done || lia). done.
Qed.

Lemma Read_unrolled_encode W n fuel s r v st :
  0 <= s -> isU s r -> s < W -> isS (W - s) v -> W - s <= 7 * Z.of_nat n -> (n <= S fuel)%nat ->
  pending st (encode fuel v) ->
  Read_unrolled W kEndByteMarker (shifts_from n s) r st =
  Ok (v * 2 ^ s + r, advanced st (length (encode fuel v))).
Proof.
  revert fuel s r v st. induction n as [|n IH]; intros fuel s r v st Hs Hr HsW Hv Hn Hf Hp; [lia|].
  cbn [shifts_from]. pose proof (pow2_pos s Hs) as H2s.
  assert (isS W (v * 2 ^ s + r)) as Htot.
  { unfold isS, isU in *. replace (W - 1) with ((W - s - 1) + s) by lia. rewrite Z.pow_add_r by lia. nia. }
  destruct fuel as [|fuel].
  - (* one round left *)
    assert (isS 7 v) as Hv7.
    { unfold isS in *. pose proof (Z.pow_le_mono_r 2 (W - s - 1) (7 - 1) ltac:(lia) ltac:(lia)). lia. }
    unfold isS in Hv7. change (2 ^ (7 - 1)) with 64 in Hv7. revert Hp. unfold encode.
    assert ((v <? -64) || (v >? 63) = false) as -> by lia. intros Hp. apply Read_unrolled_last; done || lia.
  - cbn [encode] in Hp |- *. destruct ((v <? -64) || (v >? 63)) eqn:Ev.
    + cbn [Read_unrolled]. destruct (ReadByte_pending _ _ _ Hp) as [E Hp']. rewrite E. cbn [mbind result_bind].
      pose proof (Z.mod_pos_bound v 128 ltac:(lia)) as Hm.
      assert ((v mod 128 >? kMaxUnsignedDataPerByte) = false) as -> by (change kMaxUnsignedDataPerByte with 127; lia).
      assert (8 <= W - s) as HW8.
      { destruct (Z.le_gt_cases 8 (W - s)); [done|]. exfalso. unfold isS in Hv.
        pose proof (Z.pow_le_mono_r 2 (W - s - 1) (7 - 1) ltac:(lia) ltac:(lia)) as Hpow.
        change (2 ^ (7 - 1)) with 64 in Hpow. lia. }
      rewrite Z.lor_comm, lor_shiftl_add by (done || lia).
      assert (isU (s + 7) (v mod 128 * 2 ^ s + r)) as Hr'.
      { unfold isU in *. rewrite Z.pow_add_r by lia. change (2 ^ 7) with 128. nia. }
      rewrite wrapS_id; [|lia|apply (isS_of_isU (s + 7)); [lia|done]].
      rewrite (IH fuel (s + 7) _ (v / 128)); [|lia|done|lia| |lia|lia|done].
      * cbn [length]. rewrite advanced_advanced. do 2 f_equal.
        rewrite Z.pow_add_r by lia. change (2 ^ 7) with 128. pose proof (Z.div_mod v 128 ltac:(lia)). nia.
      * unfold isS in *. replace (W - s - 1) with ((W - (s + 7) - 1) + 7) in Hv by lia.
        rewrite Z.pow_add_r in Hv by lia. change (2 ^ 7) with 128 in Hv.
        pose proof (Z.div_mod v 128 ltac:(lia)). lia.
    + apply Read_unrolled_last; done || lia.
Qed.

(** ** Reading unsigned integers *)

Lemma pow7_succ n : 2 ^ (7 * (Z.of_nat (S n) + 1)) = 128 * 2 ^ (7 * (Z.of_nat n + 1)).
Proof. replace (7 * (Z.of_nat (S n) + 1)) with (7 + 7 * (Z.of_nat n + 1)) by lia. by rewrite Z.pow_add_r by lia. Qed.

Lemma encode_unsigned_nonempty n v : v < 2 ^ (7 * (Z.of_nat n + 1)) -> (1 <= length (encode_unsigned n v))%nat.
Proof.
  intros Hv. destruct n; cbn [encode_unsigned]; destruct (v >? 127) eqn:E; simpl; lia.
Qed.

(** The end byte. *)
Lemma Read_loop_last fuel s r b v st :
  0 <= s -> s + 7 < 63 -> r .| wrapS 64 (b <<< s) = b * 2 ^ s + r -> isU (s + 7) (b * 2 ^ s + r) ->
  0 <= v <= 127 -> (v * 128 + b) * 2 ^ s + r < 2 ^ 63 -> 0 <= b * 2 ^ s + r -> pending st [v + 128] ->
  Read_loop (S fuel) 64 kEndUnsignedByteMarker r s b st = Ok ((v * 128 + b) * 2 ^ s + r, advanced st 1).
Proof.
  intros Hs Hs7 Er Hr Hv Htot H0 Hp. cbn [Read_loop]. rewrite Er. change kDataBitsPerByte with 7.
  rewrite (wrapU_id 8) by (unfold isU; lia).
  destruct (ReadByte_pending _ _ _ Hp) as [E _]. rewrite E. cbn [mbind result_bind].
  assert ((v + 128 <=? kMaxUnsignedDataPerByte) = false) as -> by (change kMaxUnsignedDataPerByte with 127; lia).
  change kEndUnsignedByteMarker with 128. replace (v + 128 - 128) with v by lia.
  pose proof (pow2_pos s Hs) as H2s.
  assert (v * 2 ^ (s + 7) = v * 128 * 2 ^ s) as Ev by (rewrite Z.pow_add_r by lia; lia).
  rewrite wrapS_id, Z.lor_comm, lor_shiftl_add; [|lia|done|lia|].
  - do 2 f_equal. lia.
  - rewrite Z.shiftl_mul_pow2 by lia. unfold isS. change (2 ^ (64 - 1)) with (2 ^ 63). nia.
Qed.

(** A loop round: the byte [b] read before, the rest [v] of the value to come. *)
Lemma Read_loop_encode n fuel s r b v st :
  0 <= s -> isU s r -> 0 <= b < 128 -> 1 <= v < 2 ^ (7 * (Z.of_nat n + 1)) ->
  (v * 128 + b) * 2 ^ s + r < 2 ^ 63 ->
  pending st (encode_unsigned n v) -> (length (encode_unsigned n v) <= fuel)%nat ->
  Read_loop fuel 64 kEndUnsignedByteMarker r s b st =
  Ok ((v * 128 + b) * 2 ^ s + r, advanced st (length (encode_unsigned n v))).
Proof.
  revert fuel s r b v st. induction n as [|n IH]; intros fuel s r b v st Hs Hr Hb Hv Htot Hp Hf.
  all: pose proof (pow2_pos s Hs) as H2s; unfold isU in Hr.
  all: pose proof (encode_unsigned_nonempty _ v (proj2 Hv)) as Hne.
  all: destruct fuel as [|fuel]; [lia|].
  all: assert (2 ^ (s + 7) = 128 * 2 ^ s) as Hs7 by (rewrite Z.pow_add_r by lia; lia).
  all: assert (s + 7 < 63) as Hs63 by (apply (Z.pow_lt_mono_r_iff 2); [lia..|]; nia).
  all: assert (isU (s + 7) (b * 2 ^ s + r)) as Hr' by (unfold isU; rewrite Hs7; nia).
  all: assert (r .| wrapS 64 (b <<< s) = b * 2 ^ s + r) as Er by
    (rewrite wrapS_id, Z.lor_comm, lor_shiftl_add; [done|lia|done|lia|];
     rewrite Z.shiftl_mul_pow2 by lia; unfold isS; change (2 ^ (64 - 1)) with (2 ^ 63); nia).
  all: cbn [encode_unsigned] in Hp, Hf |- *.
  - change (2 ^ (7 * (Z.of_nat 0 + 1))) with 128 in Hv. assert ((v >? 127) = false) as Ev by lia.
    rewrite Ev in *. apply Read_loop_last; done || nia.
  - destruct (v >? 127) eqn:Ev; [|apply Read_loop_last; done || nia].
    destruct (ReadByte_pending _ _ _ Hp) as [E Hp'].
    cbn [Read_loop]. rewrite Er. change kDataBitsPerByte with 7.
    rewrite (wrapU_id 8) by (unfold isU; lia). rewrite E. cbn [mbind result_bind].
    pose proof (Z.mod_pos_bound v 128 ltac:(lia)) as Hm. pose proof (Z.div_mod v 128 ltac:(lia)) as Hdm.
    assert ((v mod 128 <=? kMaxUnsignedDataPerByte) = true) as -> by (change kMaxUnsignedDataPerByte with 127; lia).
    rewrite pow7_succ in Hv.
    assert ((v / 128 * 128 + v mod 128) * 2 ^ (s + 7) + (b * 2 ^ s + r) = (v * 128 + b) * 2 ^ s + r) as Etot
      by (replace (v / 128 * 128 + v mod 128) with v by lia; rewrite Hs7; lia).
    rewrite (IH fuel (s + 7) (b * 2 ^ s + r) (v mod 128) (v / 128)); [|lia|done|lia|lia| |done|simpl in Hf; lia].
    + cbn [length]. rewrite advanced_advanced. by rewrite Etot.
    + by rewrite Etot.
Qed.

Lemma ReadUnsigned_encode v st :
  0 <= v < 2 ^ 63 -> pending st (encode_unsigned 9 v) ->
  ReadUnsigned st = Ok (v, advanced st (length (encode_unsigned 9 v))).
Proof.
  intros Hv Hp. unfold ReadUnsigned, Read. change 9%nat with (S 8) in *.
  assert (length (encode_unsigned (S 8) v) <= length (buffer_ st))%nat as Hlen.
  { destruct Hp as (_&rest&E). apply (f_equal length) in E. rewrite length_drop, length_app in E. lia. }
  cbn [encode_unsigned] in Hp, Hlen |- *. destruct (v >? 127) eqn:Ev.
  - destruct (ReadByte_pending _ _ _ Hp) as [E Hp']. rewrite E. cbn [mbind result_bind].
    pose proof (Z.mod_pos_bound v 128 ltac:(lia)) as Hm. pose proof (Z.div_mod v 128 ltac:(lia)) as Hdm.
    assert ((v mod 128 >? kMaxUnsignedDataPerByte) = false) as -> by (change kMaxUnsignedDataPerByte with 127; lia).
    rewrite (Read_loop_encode 8 _ 0 0 (v mod 128) (v / 128)).
    + cbn [length]. rewrite advanced_advanced. do 2 f_equal. lia.
    + lia.
    + split; done.
    + lia.
    + change (2 ^ (7 * (Z.of_nat 8 + 1))) with (2 ^ 63). divlia.
    + change (2 ^ 0) with 1. lia.
    + done.
    + simpl in Hlen |- *. lia.
  - destruct (ReadByte_pending _ _ _ Hp) as [E _]. rewrite E. cbn [mbind result_bind].
    assert ((v + 128 >? kMaxUnsignedDataPerByte) = true) as -> by (change kMaxUnsignedDataPerByte with 127; lia).
    change kEndUnsignedByteMarker with 128. rewrite wrapS_id; [|lia|unfold isS; lia]. do 3 f_equal. lia.
Qed.

(** ** Writing *)

(** What the stream relies on of its allocation function: a successful call
    gives a buffer of the new size that starts with the old bytes. *)
Class ReAllocOk `{ReAlloc} : Prop := {
  alloc_length old n new : 0 <= n -> alloc_ old n = Some new -> Z.of_nat (length new) = n;
  alloc_prefix old n new : alloc_ old n = Some new -> (length old <= length new)%nat -> take (length old) new = old;
}.

(** The bytes written so far. *)
Definition content (st : WriteStream) : list Z := take (Z.to_nat (w_current st)) (w_buffer st).

(** The write position is inside the buffer and the buffer is at most twice as
    long as what was written to it. *)
Record ws_wf (st : WriteStream) : Prop := {
  wf_current : 0 <= w_current st <= current_size_ st;
  wf_initial : exists k, 0 <= k /\ initial_size_ st = 2 ^ k;
  wf_bound : current_size_ st <= initial_size_ st + 2 * w_current st;
}.

(** [n] more bytes keep the sizes far from the largest [intptr_t]. *)
Definition roomy (st : WriteStream) (n : nat) : Prop := initial_size_ st + w_current st + Z.of_nat n <= 2 ^ 60.

(** Giving up: the allocation function returned NULL. *)
Definition oom `{ReAlloc} (e : ds_error) : Prop := e = ThrowOOM /\ exists old n, alloc_ old n = None.

(** The outcome of an operation that appends [bs]: that, or an out of memory error. *)
Definition appends `{ReAlloc} (st : WriteStream) (bs : list Z) (r : M WriteStream) : Prop :=
  match r with
  | Ok st' => ws_wf st' /\ content st' = content st ++ bs /\ initial_size_ st' = initial_size_ st /\
              w_current st' = w_current st + Z.of_nat (length bs)
  | Err e => oom e
  end.

Section WriteProofs.
Context `{ReAllocOk}.

(** A stream that may be longer than [ws_wf] allows until [n] bytes are written. *)
Definition resized (st : WriteStream) (n : Z) (st' : WriteStream) : Prop :=
  w_current st' = w_current st /\ initial_size_ st' = initial_size_ st /\ content st' = content st /\
  w_current st + n <= current_size_ st' <= initial_size_ st + 2 * (w_current st + n).

Lemma Resize_spec st n :
  ws_wf st -> 0 < n -> current_size_ st - w_current st < n -> roomy st (Z.to_nat n) ->
  match Resize st n with Ok st' => resized st n st' | Err e => oom e end.
Proof.
  intros [Hc (k&Hk&Hi) Hb] Hn Hlt Hr. unfold Resize, roomy in *. rewrite Z2Nat.id in Hr by lia.
  pose proof (pow2_pos k Hk) as H2k. set (size := current_size_ st) in *.
  assert (exists inc, (if n >? size then assert_ (Utils.IsPowerOfTwo (initial_size_ st));;
    Ok (Utils.RoundUp (wrapS 64) n (initial_size_ st)) else Ok size) = Ok inc /\
    0 < inc /\ w_current st + n <= size + inc <= initial_size_ st + 2 * (w_current st + n)) as (inc&->&Hinc&Hsz).
  { destruct (n >? size) eqn:En; [|exists size; split; [done|]; lia].
    assert (Utils.IsPowerOfTwo (initial_size_ st) = true) as -> by (apply Utils.IsPowerOfTwo_spec; [lia|eauto]).
    cbn [assert_ mbind result_bind]. eexists. split; [done|]. rewrite Hi in *.
    assert (forall y, 0 <= y <= n + 2 ^ k - 1 -> wrapS 64 y = y) as Hid
      by (intros; apply wrapS_id; [lia|]; unfold isS; change (2 ^ (64 - 1)) with (2 ^ 63); lia).
    destruct (Utils.RoundUp_least (wrapS 64) n k Hk (Hid (n + 2 ^ k - 1) ltac:(lia)) Hid ltac:(lia)) as [? _]. lia. }
  cbn [mbind result_bind]. rewrite wrapS_id by (lia || unfold isS; change (2 ^ (64 - 1)) with (2 ^ 63); lia).
  assert ((size + inc >? size) = true) as -> by lia. cbn [assert_ mbind result_bind].
  destruct (alloc_ (w_buffer st) (size + inc)) as [buf|] eqn:E; [|by split; eauto].
  apply alloc_length in E as Hlen; [|lia]. unfold resized, current_size_, content. cbn [w_buffer w_current initial_size_].
  split_and!; [done..| |lia|lia]. unfold size, current_size_ in *.
  apply alloc_prefix in E; [|lia]. rewrite <- E, take_take. f_equal. lia.
Qed.

(** Storing [bs] at the write position of a large enough buffer. *)
Lemma store_appends st st' bs :
  ws_wf st -> resized st (Z.of_nat (length bs)) st' ->
  appends st bs (Ok (mkWrite (list_inserts (Z.to_nat (w_current st')) bs (w_buffer st'))
                       (w_current st' + Z.of_nat (length bs)) (initial_size_ st'))).
Proof.
  intros [Hc Hi Hb] (Ec&Ei&Eb&Hsz). unfold appends, current_size_, content in *. cbn [w_buffer w_current initial_size_] in *.
  rewrite Ec, Ei. split_and!; [|rewrite <- Eb, Ec|done..].
  - split; unfold current_size_; cbn [w_buffer w_current initial_size_]; rewrite ?length_inserts; [lia|done|lia].
  - apply list_eq. intros i. replace (Z.to_nat (w_current st + Z.of_nat (length bs)))
      with (Z.to_nat (w_current st) + length bs)%nat by lia.
    destruct (decide (i < Z.to_nat (w_current st))%nat) as [Hlo|Hlo];
      [|destruct (decide (i < Z.to_nat (w_current st) + length bs)%nat) as [Hm|Hm]].
    + rewrite lookup_take_lt, list_lookup_inserts_lt, lookup_app_l, lookup_take_lt by (rewrite ?length_take; lia). done.
    + rewrite lookup_take_lt, list_lookup_inserts, lookup_app_r by (rewrite ?length_take; lia).
      f_equal. rewrite length_take. lia.
    + rewrite lookup_take_ge, lookup_ge_None_2 by (rewrite ?length_app, ?length_take; lia). done.
Qed.

Lemma WriteBytes_appends st bs :
  ws_wf st -> roomy st (length bs) -> appends st bs (WriteBytes st bs).
Proof.
  intros Hwf Hr. unfold WriteBytes. set (n := Z.of_nat (length bs)).
  assert (match (if current_size_ st - w_current st <? n then Resize st n else Ok st) with
          | Ok st' => resized st n st' | Err e => oom e end) as Hres.
  { destruct (Z.ltb_spec (current_size_ st - w_current st) n) as [Hlt|Hge].
    - apply Resize_spec; [done|..]; destruct Hwf; [lia|lia|]. unfold n. by rewrite Nat2Z.id.
    - destruct Hwf as [? (k&?&Hk) ?]. pose proof (pow2_pos k). unfold resized. split_and!; [done..|lia|nia]. }
  destruct (if _ <? n then _ else _) as [st'|e]; [|done]. cbn [mbind result_bind].
  assert ((current_size_ st' - w_current st' >=? n) = true) as ->
    by (destruct Hres as (->&_&_&?); lia).
  cbn [assert_ mbind result_bind]. by apply store_appends.
Qed.

(** One byte is a block of length one. *)
Lemma WriteByte_WriteBytes st b : ws_wf st -> WriteByte st b = WriteBytes st [b].
Proof.
  intros [Hc Hi Hb]. unfold WriteByte, WriteBytes. cbn [length]. change (Z.of_nat 1) with 1.
  replace (current_size_ st - w_current st <? 1) with (w_current st >=? current_size_ st) by (apply bool_eqb_iff; lia).
  destruct (if w_current st >=? current_size_ st then Resize st 1 else Ok st) as [st'|e]; [|done].
  cbn [mbind result_bind].
  replace (current_size_ st' - w_current st' >=? 1) with (w_current st' <? current_size_ st') by (apply bool_eqb_iff; lia).
  done.
Qed.

Lemma WriteByte_appends st b : ws_wf st -> roomy st 1 -> appends st [b] (WriteByte st b).
Proof. intros. rewrite WriteByte_WriteBytes by done. by apply WriteBytes_appends. Qed.

(** Appending in sequence. *)
Lemma appends_bind st bs1 bs2 m (f : WriteStream -> M WriteStream) :
  appends st bs1 m -> roomy st (length (bs1 ++ bs2)) ->
  (forall st', ws_wf st' -> roomy st' (length bs2) -> appends st' bs2 (f st')) ->
  appends st (bs1 ++ bs2) (m ≫= f).
Proof.
  intros Hm Hr Hf. destruct m as [st1|e]; [|done]. destruct Hm as (Hwf&Hc&Hi&Hw). cbn [mbind result_bind].
  assert (roomy st1 (length bs2)) as Hr1 by (unfold roomy in *; rewrite length_app in Hr; lia).
  specialize (Hf st1 Hwf Hr1). destruct (f st1) as [st2|e]; [|done].
  destruct Hf as (Hwf2&Hc2&Hi2&Hw2). split; [done|]. rewrite Hc2, Hc, Hi2, Hi, Hw2, Hw, length_app, (assoc app).
  split_and!; [done..|lia].
Qed.

Lemma Write_loop_appends fuel v st :
  ws_wf st -> isS (7 * (Z.of_nat fuel + 1)) v -> roomy st (length (encode fuel v)) ->
  appends st (encode fuel v) (Write_loop fuel v st).
Proof.
  revert v st. induction fuel as [|fuel IH]; intros v st Hwf Hv Hr; cbn [encode Write_loop] in *.
  all: change kMinDataPerByte with (-64); change kMaxDataPerByte with 63; change kEndByteMarker with 192.
  all: unfold isS in Hv; destruct ((v <? -64) || (v >? 63)) eqn:Ev.
  - change (2 ^ (7 * (Z.of_nat 0 + 1) - 1)) with 64 in Hv. lia.
  - rewrite wrapU_id by (unfold isU; lia). by apply WriteByte_appends.
  - rewrite land127, shiftr7. apply (appends_bind st [_]); [|done|].
    + apply WriteByte_appends; [done|]. unfold roomy in *. cbn [length] in Hr. lia.
    + intros st' Hwf' Hr'. apply IH; [done| |done]. unfold isS.
      replace (7 * (Z.of_nat (S fuel) + 1) - 1) with ((7 * (Z.of_nat fuel + 1) - 1) + 7) in Hv by lia.
      rewrite Z.pow_add_r in Hv by lia. change (2 ^ 7) with 128 in Hv. divlia.
  - rewrite wrapU_id by (unfold isU; lia). by apply WriteByte_appends.
Qed.

Lemma Write_appends v st :
  ws_wf st -> isS 64 v -> roomy st (length (encode 9 v)) -> appends st (encode 9 v) (Write st v).
Proof.
  intros Hwf Hv Hr. apply Write_loop_appends; [done| |done]. unfold isS in *.
  pose proof (Z.pow_le_mono_r 2 (64 - 1) (7 * (Z.of_nat 9 + 1) - 1) ltac:(lia) ltac:(lia)). lia.
Qed.

Lemma WriteUnsigned_loop_appends fuel v st :
  ws_wf st -> 0 <= v < 2 ^ (7 * (Z.of_nat fuel + 1)) -> roomy st (length (encode_unsigned fuel v)) ->
  appends st (encode_unsigned fuel v) (WriteUnsigned_loop fuel v st).
Proof.
  revert v st. induction fuel as [|fuel IH]; intros v st Hwf Hv Hr; cbn [encode_unsigned WriteUnsigned_loop] in *.
  all: change kMaxUnsignedDataPerByte with 127; change kEndUnsignedByteMarker with 128.
  all: destruct (v >? 127) eqn:Ev.
  - change (2 ^ (7 * (Z.of_nat 0 + 1))) with 128 in Hv. lia.
  - rewrite wrapU_id by (unfold isU; lia). by apply WriteByte_appends.
  - rewrite land127, shiftr7. apply (appends_bind st [_]); [|done|].
    + apply WriteByte_appends; [done|]. unfold roomy in *. cbn [length] in Hr. lia.
    + intros st' Hwf' Hr'. apply IH; [done| |done]. rewrite pow7_succ in Hv. divlia.
  - rewrite wrapU_id by (unfold isU; lia). by apply WriteByte_appends.
Qed.

Lemma WriteUnsigned_appends v st :
  ws_wf st -> 0 <= v < 2 ^ 63 -> roomy st (length (encode_unsigned 9 v)) ->
  appends st (encode_unsigned 9 v) (WriteUnsigned st v).
Proof.
  intros Hwf Hv Hr. unfold WriteUnsigned, Utils.kMaxInt64.
  assert ((v >=? 0) && (v <=? 2 ^ 63 - 1) = true) as -> by lia. cbn [assert_ mbind result_bind].
  apply WriteUnsigned_loop_appends; [done| |done].
  pose proof (Z.pow_le_mono_r 2 63 (7 * (Z.of_nat 9 + 1)) ltac:(lia) ltac:(lia)). lia.
Qed.

Lemma WriteStream_new_spec k :
  0 <= k -> match WriteStream_new (2 ^ k) with
            | Ok st => ws_wf st /\ content st = [] /\ w_current st = 0 /\ initial_size_ st = 2 ^ k
            | Err e => oom e
            end.
Proof.
  intros Hk. unfold WriteStream_new. destruct (alloc_ [] (2 ^ k)) as [buf|] eqn:E; [|by split; eauto].
  pose proof (pow2_pos k Hk). apply alloc_length in E as Hlen; [|lia]. split_and!; [|done..].
  split; unfold current_size_; cbn [w_buffer w_current initial_size_]; [lia|eauto|lia].
Qed.
End WriteProofs.

(** ** Round trip *)

(** What a client writes and reads: a [Raw<N, T>], an unsigned integer or a block of bytes. *)
Inductive item :=
| IRaw (N v : Z)
| IUnsigned (v : Z)
| IBytes (bs : list Z).

Inductive shape :=
| SRaw (N : Z)
| SUnsigned
| SBytes (len : Z).

Definition shape_of (i : item) : shape :=
  match i with
  | IRaw N _ => SRaw N
  | IUnsigned _ => SUnsigned
  | IBytes bs => SBytes (Z.of_nat (length bs))
  end.

(** [N] is the size of the type of [v] in bytes. *)
Definition item_ok (i : item) : Prop :=
  match i with
  | IRaw N v => N ∈ [1; 2; 4; 8] /\ isS (8 * N) v
  | IUnsigned v => isU 63 v
  | IBytes _ => True
  end.

Definition item_bytes (i : item) : list Z :=
  match i with
  | IRaw N v => if N =? 1 then [u8 v] else encode 9 v
  | IUnsigned v => encode_unsigned 9 v
  | IBytes bs => bs
  end.

Definition items_size (is_ : list item) : nat := length (is_ ≫= item_bytes).

Section Items.
Context `{ReAlloc}.

Definition write_item (st : WriteStream) (i : item) : M WriteStream :=
  match i with
  | IRaw N v => Raw_Write N st v
  | IUnsigned v => WriteUnsigned st v
  | IBytes bs => WriteBytes st bs
  end.

Fixpoint write_items (is_ : list item) (st : WriteStream) : M WriteStream :=
  match is_ with
  | [] => Ok st
  | i :: is_ => write_item st i ≫= write_items is_
  end.
End Items.

Definition read_item (s : shape) (st : ReadStream) : M (item * ReadStream) :=
  match s with
  | SRaw N => '(v, st) ← Raw_Read N st; Ok (IRaw N v, st)
  | SUnsigned => '(v, st) ← ReadUnsigned st; Ok (IUnsigned v, st)
  | SBytes len => '(bs, st) ← ReadBytes st len; Ok (IBytes bs, st)
  end.

Fixpoint read_items (ss : list shape) (st : ReadStream) : M (list item * ReadStream) :=
  match ss with
  | [] => Ok ([], st)
  | s :: ss =>
      '(i, st) ← read_item s st;
      '(is_, st) ← read_items ss st;
      Ok (i :: is_, st)
  end.

Lemma write_item_appends `{ReAllocOk} i st :
  ws_wf st -> item_ok i -> roomy st (length (item_bytes i)) -> appends st (item_bytes i) (write_item st i).
Proof.
  destruct i as [N v|v|bs]; cbn [item_ok item_bytes write_item]; intros Hwf Hok Hr.
  - destruct Hok as [HN Hv]. unfold Raw_Write. destruct (N =? 1); [by apply WriteByte_appends|].
    apply Write_appends; [done| |done]. unfold isS in *.
    assert (1 <= 8 * N <= 64) as HN' by (rewrite !elem_of_cons, elem_of_nil in HN; lia).
    pose proof (Z.pow_le_mono_r 2 (8 * N - 1) (64 - 1)). lia.
  - by apply WriteUnsigned_appends.
  - by apply WriteBytes_appends.
Qed.

Lemma appends_nil `{ReAlloc} st : ws_wf st -> appends st [] (Ok st).
Proof. intros. split_and!; [done|by rewrite app_nil_r|done|simpl; lia]. Qed.

Lemma write_items_appends `{ReAllocOk} is_ st :
  ws_wf st -> Forall item_ok is_ -> roomy st (items_size is_) -> appends st (is_ ≫= item_bytes) (write_items is_ st).
Proof.
  revert st. induction is_ as [|i is_ IH]; intros st Hwf Hok Hr; cbn [write_items]; [by apply appends_nil|].
  apply Forall_cons in Hok as [Hi Hok]. unfold items_size in *. rewrite bind_cons in *.
  apply appends_bind; [|done|by intros; apply IH].
  apply write_item_appends; [done..|]. unfold roomy in *. rewrite length_app in Hr. lia.
Qed.

Lemma pending_app st bs rest : pending st (bs ++ rest) -> pending st bs /\ pending (advanced st (length bs)) rest.
Proof.
  intros (H0&rest'&E). unfold end_ in *.
  pose proof (f_equal length E) as Hl. rewrite length_drop, !length_app in Hl.
  split; (split; [unfold end_; simpl; lia|]).
  - exists (rest ++ rest'). by rewrite E, (assoc app).
  - exists rest'. simpl. replace (Z.to_nat (current_ st + Z.of_nat (length bs)))
      with (Z.to_nat (current_ st) + length bs)%nat by lia.
    rewrite <- drop_drop, E, <- (assoc app), drop_app_length. done.
Qed.

Lemma ReadBytes_pending st bs :
  pending st bs -> ReadBytes st (Z.of_nat (length bs)) = Ok (bs, advanced st (length bs)).
Proof.
  intros (H0&rest&E). unfold ReadBytes, end_.
  pose proof (f_equal length E) as Hl. rewrite length_drop, length_app in Hl.
  unfold end_ in H0. assert ((Z.of_nat (length (buffer_ st)) - current_ st >=? Z.of_nat (length bs)) = true) as -> by lia.
  cbn [assert_ mbind result_bind]. by rewrite E, Nat2Z.id, take_app_length.
Qed.

Lemma read_item_bytes i st :
  item_ok i -> pending st (item_bytes i) ->
  read_item (shape_of i) st = Ok (i, advanced st (length (item_bytes i))).
Proof.
  destruct i as [N v|v|bs]; cbn [item_ok item_bytes read_item shape_of]; intros Hok Hp.
  - destruct Hok as [HN Hv]. unfold Raw_Read. rewrite !elem_of_cons, elem_of_nil in HN.
    destruct HN as [->|[->|[->|[->|[]]]]]; cbn [Z.eqb Pos.eqb] in *.
    + destruct (ReadByte_pending _ _ _ Hp) as [-> _]. cbn [mbind result_bind].
      by rewrite wrapS_wrapU, wrapS_id by (done || lia).
    + unfold Read16. change [0; 7; 14] with (shifts_from 3 0).
      rewrite (Read_unrolled_encode 16 3 9 0 0 v st) by (done || lia). cbn [mbind result_bind].
      do 3 f_equal. lia.
    + unfold Read32. change [0; 7; 14; 21; 28] with (shifts_from 5 0).
      rewrite (Read_unrolled_encode 32 5 9 0 0 v st) by (done || lia). cbn [mbind result_bind].
      do 3 f_equal. lia.
    + unfold Read64. change [0; 7; 14; 21; 28; 35; 42; 49; 56; 63] with (shifts_from 10 0).
      rewrite (Read_unrolled_encode 64 10 9 0 0 v st) by (done || lia). cbn [mbind result_bind].
      do 3 f_equal. lia.
  - by rewrite (ReadUnsigned_encode v).
  - by rewrite ReadBytes_pending.
Qed.

Lemma read_items_bytes is_ st :
  Forall item_ok is_ -> pending st (is_ ≫= item_bytes) ->
  read_items (shape_of <$> is_) st = Ok (is_, advanced st (items_size is_)).
Proof.
  revert st. induction is_ as [|i is_ IH]; intros st Hok Hp; cbn [read_items fmap list_fmap].
  - unfold advanced. simpl. rewrite Z.add_0_r. by destruct st.
  - apply Forall_cons in Hok as [Hi Hok]. unfold items_size in *. rewrite bind_cons in *.
    apply pending_app in Hp as [Hp Hp']. rewrite read_item_bytes by done. cbn [mbind result_bind].
    change (list_fmap item shape shape_of is_) with (shape_of <$> is_).
    rewrite IH by done. cbn [mbind result_bind]. by rewrite advanced_advanced, length_app.
Qed.

(** C30: Whatever mix of 1, 2, 4 and 8 byte integers, unsigned integers and byte
    blocks is written to a fresh [WriteStream], reading the bytes written back
    with the same types gives the same values and leaves no byte pending; the
    writer can only fail because the allocation function returned NULL. *)
Theorem stream_roundtrip `{ReAllocOk} (k : Z) (is_ : list item) :
  0 <= k -> Forall item_ok is_ -> 2 ^ k + Z.of_nat (items_size is_) <= 2 ^ 60 ->
  match WriteStream_new (2 ^ k) ≫= write_items is_ with
  | Ok st =>
      bytes_written st = Z.of_nat (items_size is_) /\
      exists r, read_items (shape_of <$> is_) (SetStream (content st)) = Ok (is_, r) /\ PendingBytes r = Ok 0
  | Err e => e = ThrowOOM /\ exists old n, alloc_ old n = None
  end.
Proof.
  intros Hk Hok Hsz. pose proof (WriteStream_new_spec k Hk) as Hnew.
  destruct (WriteStream_new (2 ^ k)) as [st0|e]; [|done]. destruct Hnew as (Hwf&Hc&Hw&Hi). cbn [mbind result_bind].
  assert (roomy st0 (items_size is_)) as Hr by (unfold roomy; lia).
  pose proof (write_items_appends is_ st0 Hwf Hok Hr) as Happ.
  destruct (write_items is_ st0) as [st|e]; [|done]. destruct Happ as (_&Hc'&_&Hw').
  rewrite Hc in Hc'. simpl in Hc'. unfold bytes_written. rewrite Hw', Hw, Hc'. split; [done|].
  eexists. split; [apply read_items_bytes; [done|]|].
  - split; [unfold end_; simpl; lia|]. exists []. simpl. by rewrite app_nil_r.
  - unfold PendingBytes, end_, advanced, items_size. simpl. rewrite (proj2 (Z.geb_le _ _)) by lia. simpl. f_equal. lia.
Qed.

(** An allocation function over a heap that never runs out. *)
Definition realloc_example : ReAlloc :=
  fun old n => Some (take (Z.to_nat n) old ++ replicate (Z.to_nat n - length old) 0).

Lemma realloc_example_ok : @ReAllocOk realloc_example.
Proof.
  split; unfold alloc_, realloc_example; intros old n new; [intros Hn|]; intros [= <-].
  - rewrite length_app, length_take, length_replicate. lia.
  - rewrite length_app, length_take, length_replicate. intros Hl.
    rewrite (take_ge old (Z.to_nat n)) by lia. apply take_app_length.
Qed.

Definition items_example : list item :=
  [IRaw 4 (-300); IUnsigned 1000; IBytes [1; 2; 3]; IRaw 8 (2 ^ 63 - 1); IRaw 1 (-5); IRaw 2 (-64)].

Lemma stream_roundtrip_witness :
  exists st r, @WriteStream_new realloc_example (2 ^ 2) ≫= @write_items realloc_example items_example = Ok st /\
               bytes_written st = 19 /\ read_items (shape_of <$> items_example) (SetStream (content st)) = Ok (items_example, r).
Proof.
  assert (Forall item_ok items_example) as Hok by (repeat constructor; unfold isS, isU; (by repeat (left || right)) || lia).
  pose proof (@stream_roundtrip realloc_example realloc_example_ok 2 items_example ltac:(lia) Hok ltac:(vm_compute; congruence)) as Hrt.
  destruct (@WriteStream_new realloc_example (2 ^ 2) ≫= @write_items realloc_example items_example) as [st|e] eqn:E.
  - destruct Hrt as (_&r&Hr&_). exists st, r. split; [done|]. split; [|done].
    revert E. vm_compute. intros [= <-]. reflexivity.
  - destruct Hrt as (_&old&n&[=]).
Defined.

(** ** The unrolled readers and the loop *)

Lemma wrapS_lor W r x : 0 < W -> isS W r -> wrapS W (r .| x) = r .| wrapS W x.
Proof.
  intros HW Hr. zbits. f_equal. by rewrite <- testbit_wrapS, wrapS_id by (done || lia).
Qed.

Lemma ReadByte_Ok st b st' :
  ReadByte st = Ok (b, st') -> current_ st < end_ st /\ st' = mkRead (buffer_ st) (current_ st + 1).
Proof.
  unfold ReadByte. destruct (Z.ltb_spec (current_ st) (end_ st)); [|done].
  destruct (buffer_ st !! _); [|done]. by intros [= -> <-].
Qed.

Lemma Read_loop_unrolled W m n fuel s r b st x :
  0 < W -> 0 <= s -> s + 7 * Z.of_nat n <= 255 -> isS W r -> 0 <= current_ st ->
  end_ st - current_ st <= Z.of_nat fuel ->
  Read_unrolled W m (shifts_from n (s + 7)) (wrapS W (r .| (b <<< s))) st = Ok x ->
  Read_loop fuel W m r s b st = Ok x.
Proof.
  revert fuel s r b st. induction n as [|n IH]; intros fuel s r b st HW Hs Hn Hr Hc Hf; [done|].
  cbn [shifts_from Read_unrolled]. destruct (ReadByte st) as [[b' st']|e] eqn:E; [|done]. cbn [mbind result_bind].
  apply ReadByte_Ok in E as E'. destruct E' as [Hlt ->]. destruct fuel as [|fuel]; [lia|].
  cbn [Read_loop]. rewrite E. cbn [mbind result_bind]. change kDataBitsPerByte with 7.
  rewrite (wrapU_id 8) by (unfold isU; lia). rewrite <- (wrapS_lor W r) by done.
  rewrite Z.gtb_ltb, Z.leb_antisym. destruct (kMaxUnsignedDataPerByte <? b') eqn:Eb; cbn [negb].
  - rewrite wrapS_lor by (auto with mach). done.
  - apply IH; [lia..|auto with mach|simpl; lia|unfold end_ in *; simpl; lia].
Qed.

(** The unrolled [Read16], [Read32] and [Read64] agree with the generic loop
    [Read<T>] of the same width: wherever an unrolled reader returns a value, for
    any bytes and either end marker, the loop returns the same value and leaves
    the stream at the same position. *)
Theorem Read_unrolled_agrees (m : Z) (st : ReadStream) (x : Z * ReadStream) :
  0 <= current_ st ->
  (Read16 m st = Ok x -> Read 16 m st = Ok x) /\
  (Read32 m st = Ok x -> Read 32 m st = Ok x) /\
  (Read64 m st = Ok x -> Read 64 m st = Ok x).
Proof.
  intros Hc.
  assert (forall W n, 0 < W -> 7 * Z.of_nat n <= 255 ->
    Read_unrolled W m (shifts_from (S n) 0) 0 st = Ok x -> Read W m st = Ok x) as Hgen.
  { intros W n HW Hn. unfold Read. cbn [shifts_from Read_unrolled].
    destruct (ReadByte st) as [[b st']|e] eqn:E; [|done]. cbn [mbind result_bind].
    apply ReadByte_Ok in E as [Hlt ->]. destruct (b >? kMaxUnsignedDataPerByte).
    - by rewrite Z.shiftl_0_r, Z.lor_0_l.
    - apply Read_loop_unrolled; [lia..| |simpl; lia|unfold end_; simpl; lia].
      unfold isS. pose proof (pow2_pos (W - 1)). lia. }
  split_and!.
  - apply (Hgen 16 2%nat); lia.
  - apply (Hgen 32 4%nat); lia.
  - apply (Hgen 64 9%nat); lia.
Qed.

Lemma Read_unrolled_agrees_witness :
  Read 16 kEndByteMarker (SetStream [84; 125; 191]) = Ok (-300, mkRead [84; 125; 191] 3).
Proof. apply (Read_unrolled_agrees kEndByteMarker (SetStream [84; 125; 191])); [simpl; lia|vm_compute; reflexivity]. Defined.

End DataStream.
