(* ===== verification/Unicode.v ===== *)
(** * vm/unicode.h, vm/unicode.cc

    UTF-8 and UTF-16: encoding and decoding of code points, validation, the
    bulk decoders and the code point iterator of [String] (vm/object.h,
    vm/object.cc).  Arrays are lists; a read or a write outside of one is the
    error [OutOfBounds]. *)

From stdpp Require Import base numbers list.
From Stdlib Require Import ZArith Lia.
From S2P Require Import Prelude.

Local Open Scope Z_scope.
Local Open Scope mach_scope.

Module Unicode.

Inductive u_error :=
| UAssertFailed
| OutOfBounds
| UOutOfFuel.

Abbreviation M A := (result u_error A).
Definition assert_ (b : bool) : M unit := if b then Ok () else Err UAssertFailed.

Definition len_ (a : list Z) : Z := Z.of_nat (length a).

(** [a[i]] as a value and as the target of an assignment. *)
Definition at_ (a : list Z) (i : Z) : M Z :=
  if i <? 0 then Err OutOfBounds else match a !! Z.to_nat i with Some x => Ok x | None => Err OutOfBounds end.
Definition store (dst : list Z) (j v : Z) : M (list Z) :=
  if (0 <=? j) && (j <? len_ dst) then Ok (<[Z.to_nat j := v]> dst) else Err OutOfBounds.

(** ** Utf *)

Definition kMaxCodePoint : Z := 0x10FFFF.
Definition IsLatin1 (code_point : Z) : bool := (code_point >=? 0) && (code_point <=? 0xFF).
Definition IsBmp (code_point : Z) : bool := (code_point >=? 0) && (code_point <=? 0xFFFF).
Definition IsSupplementary (code_point : Z) : bool := (code_point >? 0xFFFF) && (code_point <=? kMaxCodePoint).
Definition IsOutOfRange (code_point : Z) : bool := (code_point <? 0) || (code_point >? kMaxCodePoint).

(** ** Utf8 *)

Inductive Utf8_Type := kLatin1 | kBMP | kSupplementary.

Definition kTrailBytes : list Z :=
  [1; 1; 1; 1; 1; 1; 1; 1; 1; 1; 1; 1; 1; 1; 1; 1;
   1; 1; 1; 1; 1; 1; 1; 1; 1; 1; 1; 1; 1; 1; 1; 1;
   1; 1; 1; 1; 1; 1; 1; 1; 1; 1; 1; 1; 1; 1; 1; 1;
   1; 1; 1; 1; 1; 1; 1; 1; 1; 1; 1; 1; 1; 1; 1; 1;
   1; 1; 1; 1; 1; 1; 1; 1; 1; 1; 1; 1; 1; 1; 1; 1;
   1; 1; 1; 1; 1; 1; 1; 1; 1; 1; 1; 1; 1; 1; 1; 1;
   1; 1; 1; 1; 1; 1; 1; 1; 1; 1; 1; 1; 1; 1; 1; 1;
   1; 1; 1; 1; 1; 1; 1; 1; 1; 1; 1; 1; 1; 1; 1; 1;
   0; 0; 0; 0; 0; 0; 0; 0; 0; 0; 0; 0; 0; 0; 0; 0;
   0; 0; 0; 0; 0; 0; 0; 0; 0; 0; 0; 0; 0; 0; 0; 0;
   0; 0; 0; 0; 0; 0; 0; 0; 0; 0; 0; 0; 0; 0; 0; 0;
   0; 0; 0; 0; 0; 0; 0; 0; 0; 0; 0; 0; 0; 0; 0; 0;
   2; 2; 2; 2; 2; 2; 2; 2; 2; 2; 2; 2; 2; 2; 2; 2;
   2; 2; 2; 2; 2; 2; 2; 2; 2; 2; 2; 2; 2; 2; 2; 2;
   3; 3; 3; 3; 3; 3; 3; 3; 3; 3; 3; 3; 3; 3; 3; 3;
   4; 4; 4; 4; 4; 4; 4; 4; 5; 5; 5; 5; 6; 6; 0; 0].
Definition kMagicBits : list Z :=
  [0; 0x00000000; 0x00003080; 0x000E2080; 0x03C82080; 0xFA082080; 0x82082080].
Definition kOverlongMinimum : list Z := [0; 0x0; 0x80; 0x800; 0x10000; 0xFFFFFFFF; 0xFFFFFFFF].

Definition kMaxOneByteChar : Z := 0x7F.
Definition kMaxTwoByteChar : Z := 0x7FF.
Definition kMaxThreeByteChar : Z := 0xFFFF.
Definition kMaxFourByteChar : Z := kMaxCodePoint.

Definition IsTrailByte (code_unit : Z) : bool := code_unit .& 0xC0 =? 0x80.
Definition IsNonShortestForm (code_point num_code_units : Z) : M bool :=
  minimum ← at_ kOverlongMinimum num_code_units; Ok (code_point <? minimum).
Definition IsLatin1SequenceStart (code_unit : Z) : bool := code_unit <=? 0xC3.
Definition IsSupplementarySequenceStart (code_unit : Z) : bool := code_unit >=? 0xF0.

(** One round of the loop over the code units. *)
Definition CodeUnitCount_step (acc : Z * Utf8_Type) (code_unit : Z) : Z * Utf8_Type :=
  let '(len, char_type) := acc in
  if negb (IsTrailByte code_unit) then
    if negb (IsLatin1SequenceStart code_unit) then
      if IsSupplementarySequenceStart code_unit then (len + 1 + 1, kSupplementary)
      else (len + 1, match char_type with kLatin1 => kBMP | _ => char_type end)
    else (len + 1, char_type)
  else (len, char_type).

Definition CodeUnitCount (utf8_array : list Z) : Z * Utf8_Type :=
  foldl CodeUnitCount_step (0, kLatin1) utf8_array.

(** The loop over the trail bytes of the sequence at [i], in [IsValid] and in
    [Decode]: [None] when the array ends inside of the sequence. *)
Fixpoint trail_loop (fuel : nat) (utf8_array : list Z) (i j num_trail_bytes ch : Z) (is_malformed : bool)
    : M (option (Z * Z * bool)) :=
  if j <? num_trail_bytes then
    match fuel with
    | O => Err UOutOfFuel
    | S fuel =>
        if i + j <? len_ utf8_array then
          code_unit ← at_ utf8_array (i + j);
          trail_loop fuel utf8_array i (j + 1) num_trail_bytes
            (u32 (u32 (ch <<< 6) + code_unit)) (is_malformed || negb (IsTrailByte code_unit))
        else Ok None
    end
  else Ok (Some (ch, j, is_malformed)).

(** [!(!is_malformed && (j == num_trail_bytes) && !IsOutOfRange(ch) && !IsNonShortestForm(ch, j))] *)
Definition rejected (is_malformed : bool) (j num_trail_bytes ch : Z) : M bool :=
  if negb is_malformed && (j =? num_trail_bytes) && negb (IsOutOfRange ch)
  then IsNonShortestForm ch j else Ok true.

(** The body of the loop of [IsValid]: the length of the sequence at [i], or [None] to return false. *)
Definition IsValid_sequence (utf8_array : list Z) (i : Z) : M (option Z) :=
  b ← at_ utf8_array i;
  let ch := b .& 0xFF in
  if ch >=? 0x80 then
    num_trail_bytes ← at_ kTrailBytes ch;
    r ← trail_loop 6 utf8_array i 1 num_trail_bytes ch false;
    match r with
    | None => Ok None
    | Some (ch, j, is_malformed) =>
        magic ← at_ kMagicBits num_trail_bytes;
        bad ← rejected is_malformed j num_trail_bytes (u32 (ch - magic));
        Ok (if bad : bool then None else Some j)
    end
  else Ok (Some 1).

Fixpoint IsValid_loop (fuel : nat) (utf8_array : list Z) (i : Z) : M bool :=
  if i <? len_ utf8_array then
    match fuel with
    | O => Err UOutOfFuel
    | S fuel =>
        r ← IsValid_sequence utf8_array i;
        match r with
        | None => Ok false
        | Some j => IsValid_loop fuel utf8_array (i + j)
        end
    end
  else Ok true.

Definition IsValid (utf8_array : list Z) : M bool := IsValid_loop (length utf8_array) utf8_array 0.

Definition Utf8_Length (ch : Z) : M Z :=
  if ch <=? kMaxOneByteChar then Ok 1
  else if ch <=? kMaxTwoByteChar then Ok 2
  else if ch <=? kMaxThreeByteChar then Ok 3
  else assert_ (ch <=? kMaxFourByteChar);; Ok 4.

(** The bytes stored to [dst]; their number is the result. *)
Definition Utf8_Encode (ch : Z) : M (list Z) :=
  let kMask := Z.lnot (1 <<< 6) in
  if ch <=? kMaxOneByteChar then Ok [u8 ch]
  else if ch <=? kMaxTwoByteChar then
    Ok [u8 (0xC0 .| (ch >>> 6)); u8 (0x80 .| (ch .& kMask))]
  else if ch <=? kMaxThreeByteChar then
    Ok [u8 (0xE0 .| (ch >>> 12)); u8 (0x80 .| ((ch >>> 6) .& kMask)); u8 (0x80 .| (ch .& kMask))]
  else
    assert_ (ch <=? kMaxFourByteChar);;
    Ok [u8 (0xF0 .| (ch >>> 18)); u8 (0x80 .| ((ch >>> 12) .& kMask));
        u8 (0x80 .| ((ch >>> 6) .& kMask)); u8 (0x80 .| (ch .& kMask))].

(** The code point stored to [dst] and the result. *)
Definition Utf8_Decode (utf8_array : list Z) : M (Z * Z) :=
  b ← at_ utf8_array 0;
  let ch := b .& 0xFF in
  if ch >=? 0x80 then
    num_trail_bytes ← at_ kTrailBytes ch;
    r ← trail_loop 6 utf8_array 0 1 num_trail_bytes ch false;
    match r with
    | None => Ok (-1, 0)
    | Some (ch, i, is_malformed) =>
        magic ← at_ kMagicBits num_trail_bytes;
        let ch := u32 (ch - magic) in
        bad ← rejected is_malformed i num_trail_bytes ch;
        Ok (if bad : bool then (-1, 0) else (s32 ch, i))
    end
  else Ok (ch, 1).

(** ** Utf16 *)

Definition kMaxCodeUnit : Z := 0xFFFF.
Definition kLeadSurrogateOffset : Z := 0xD800 - (0x10000 >>> 10).

Definition Utf16_Length (ch : Z) : Z := if ch <=? kMaxCodeUnit then 1 else 2.
(** [int32_t & uint32_t] is computed in [uint32_t]. *)
Definition IsSurrogate (ch : Z) : bool := u32 ch .& 0xFFFFF800 =? 0xD800.
Definition IsLeadSurrogate (ch : Z) : bool := u32 ch .& 0xFFFFFC00 =? 0xD800.
Definition IsTrailSurrogate (ch : Z) : bool := u32 ch .& 0xFFFFFC00 =? 0xDC00.
Definition Utf16_Decode (lead trail : Z) : Z := 0x10000 + ((lead .& 0x3FF) <<< 10) + (trail .& 0x3FF).

Definition Utf16_Encode (codepoint : Z) : M (list Z) :=
  assert_ (codepoint >? kMaxCodeUnit);;
  Ok [u16 (kLeadSurrogateOffset + (codepoint >>> 10)); u16 (0xDC00 + (codepoint .& 0x3FF))].

(** [Next] returns the character and the new [*i]. *)
Definition Utf16_Next (characters : list Z) (i len : Z) : M (Z * Z) :=
  ch ← at_ characters i;
  if IsLeadSurrogate ch && (i <? len - 1) then
    ch2 ← at_ characters (i + 1);
    if IsTrailSurrogate ch2 then Ok (Utf16_Decode ch ch2, i + 1 + 1) else Ok (ch, i + 1)
  else Ok (ch, i + 1).

(** ** The bulk decoders *)

(** [DecodeToLatin1], [DecodeToUTF16] and [DecodeToUTF32] are one loop around
    what they assert of the first byte of a sequence ([pre]) and how they store
    the code point ([put], which advances [j]). *)
Section DecodeTo.
Context (pre : Z -> M unit) (put : Z -> Z -> list Z -> Z -> M (list Z * Z)).

Fixpoint DecodeTo_loop (fuel : nat) (utf8_array dst : list Z) (len i j : Z) : M (bool * list Z) :=
  if (i <? len_ utf8_array) && (j <? len) then
    match fuel with
    | O => Err UOutOfFuel
    | S fuel =>
        b ← at_ utf8_array i;
        pre b;;
        '(ch, num_bytes) ← Utf8_Decode (drop (Z.to_nat i) utf8_array);
        if ch =? -1 then Ok (false, dst)
        else '(dst, j) ← put b ch dst j; DecodeTo_loop fuel utf8_array dst len (i + num_bytes) (j + 1)
    end
  else Ok (negb ((i <? len_ utf8_array) && (j =? len)), dst).

Definition DecodeTo (utf8_array dst : list Z) : M (bool * list Z) :=
  DecodeTo_loop (length utf8_array) utf8_array dst (len_ dst) 0 0.
End DecodeTo.

Definition DecodeToLatin1 : list Z -> list Z -> M (bool * list Z) :=
  DecodeTo (fun b => assert_ (IsLatin1SequenceStart b))
    (fun _ ch dst j => assert_ (IsLatin1 ch);; dst ← store dst j (u8 ch); Ok (dst, j)).

Definition DecodeToUTF16 : list Z -> list Z -> M (bool * list Z) :=
  DecodeTo (fun _ => Ok ())
    (fun b ch dst j =>
       if IsSupplementarySequenceStart b then
         units ← Utf16_Encode ch;
         lead ← at_ units 0;
         trail ← at_ units 1;
         dst ← store dst j lead;
         dst ← store dst (j + 1) trail;
         Ok (dst, j + 1)
       else dst ← store dst j (u16 ch); Ok (dst, j)).

Definition DecodeToUTF32 : list Z -> list Z -> M (bool * list Z) :=
  DecodeTo (fun _ => Ok ()) (fun _ ch dst j => dst ← store dst j ch; Ok (dst, j)).

(** [strlen], for a string that is NUL terminated. *)
Fixpoint strlen (str : list Z) : M nat :=
  match str with
  | [] => Err OutOfBounds
  | c :: str => if c =? 0 then Ok O else n ← strlen str; Ok (S n)
  end.

Definition DecodeCStringToUTF32 (str dst : list Z) : M (bool * list Z) :=
  array_len ← strlen str;
  DecodeToUTF32 (take array_len str) dst.

(** ** String::CodePointIterator *)

Record CodePointIterator := mkIt { str_ : list Z; ch_ : Z; index_ : Z; end_ : Z }.

Definition CodePointIterator_new (str : list Z) : CodePointIterator := mkIt str 0 (-1) (len_ str).

Definition Current (it : CodePointIterator) : M Z :=
  assert_ (index_ it >=? 0);; assert_ (index_ it <? end_ it);; Ok (ch_ it).

Definition Next (it : CodePointIterator) : M (bool * CodePointIterator) :=
  assert_ (index_ it >=? -1);;
  let length := Utf16_Length (ch_ it) in
  if index_ it <? end_ it - length then
    let index := index_ it + length in
    ch ← at_ (str_ it) index;
    ch ← (if IsLeadSurrogate ch && (index <? end_ it - 1) then
            ch2 ← at_ (str_ it) (index + 1);
            Ok (if IsTrailSurrogate ch2 then Utf16_Decode ch ch2 else ch)
          else Ok ch);
    Ok (true, mkIt (str_ it) ch index (end_ it))
  else Ok (false, mkIt (str_ it) (ch_ it) (end_ it) (end_ it)).

(** [Utf8::Length(const String&)] and [Utf8::Encode(const String&, char*, intptr_t)]. *)
Fixpoint String_Length_loop (fuel : nat) (it : CodePointIterator) (length : Z) : M Z :=
  '(more, it) ← Next it;
  if more : bool then
    match fuel with
    | O => Err UOutOfFuel
    | S fuel =>
        ch ← Current it;
        n ← Utf8_Length ch;
        String_Length_loop fuel it (length + n)
    end
  else Ok length.

Definition String_Length (str : list Z) : M Z :=
  String_Length_loop (length str) (CodePointIterator_new str) 0.

Fixpoint String_Encode_loop (fuel : nat) (it : CodePointIterator) (dst : list Z) (len : Z) : M (list Z) :=
  '(more, it) ← Next it;
  if more : bool then
    match fuel with
    | O => Err UOutOfFuel
    | S fuel =>
        ch ← Current it;
        num_bytes ← Utf8_Length ch;
        if len_ dst + num_bytes >? len then Ok dst
        else bytes ← Utf8_Encode ch; String_Encode_loop fuel it (dst ++ bytes) len
    end
  else Ok dst.

(** The bytes stored to [dst], [pos] of them. *)
Definition String_Encode (str : list Z) (len : Z) : M (list Z) :=
  String_Encode_loop (length str) (CodePointIterator_new str) [] len.

(** ** The encodings, arithmetically *)

Definition cp_ok (ch : Z) : Prop := 0 <= ch <= 0x10FFFF.
Definition is_byte (b : Z) : Prop := isU 8 b.

Definition utf8_char (ch : Z) : list Z :=
  if ch <? 128 then [ch]
  else if ch <? 2048 then [192 + ch / 64; 128 + ch mod 64]
  else if ch <? 65536 then [224 + ch / 4096; 128 + (ch / 64) mod 64; 128 + ch mod 64]
  else [240 + ch / 262144; 128 + (ch / 4096) mod 64; 128 + (ch / 64) mod 64; 128 + ch mod 64].

Definition utf16_char (ch : Z) : list Z :=
  if ch <? 65536 then [ch] else [55296 + (ch - 65536) / 1024; 56320 + ch mod 1024].

Abbreviation utf8 cps := (cps ≫= utf8_char).
Abbreviation utf16 cps := (cps ≫= utf16_char).

(** A byte with its high bits set: [|] is [+]. *)
Lemma lead_byte n a x : 0 <= n -> 0 <= a < 2 ^ (8 - n) -> n <= 8 -> 0 <= x < 2 ^ n -> u8 ((a <<< n) .| x) = a * 2 ^ n + x.
Proof.
  intros Hn Ha Hn8 Hx. rewrite lor_shiftl_add by done. apply wrapU_id. unfold isU.
  replace 8 with ((8 - n) + n) by lia. rewrite Z.pow_add_r by lia. nia.
Qed.

Lemma trail_byte x : u8 (0x80 .| (x .& Z.lnot (1 <<< 6))) = 128 + x mod 64.
Proof.
  assert (128 + x mod 64 = (2 <<< 6) .| wrapU 6 x) as ->.
  { rewrite lor_shiftl_add by (lia || apply wrapU_range; lia). done. }
  zbits.
  assert (i < 8 \/ 8 <= i) as [Hi8|Hi8] by lia.
  - assert (i = 0 \/ i = 1 \/ i = 2 \/ i = 3 \/ i = 4 \/ i = 5 \/ i = 6 \/ i = 7) as Hcase by lia.
    destruct Hcase as [->|[->|[->|[->|[->|[->|[->| ->]]]]]]]; simpl; rewrite ?andb_true_r, ?andb_false_r, ?orb_true_r; done.
  - rewrite (proj2 (Z.ltb_ge i 8)), (proj2 (Z.ltb_ge i 6)), (proj2 (Z.leb_le 6 i)) by lia.
    simpl. rewrite (testbit_above_isU 2 2) by (lia || done). done.
Qed.

Lemma Utf8_Encode_char ch : cp_ok ch -> Utf8_Encode ch = Ok (utf8_char ch).
Proof.
  unfold cp_ok. intros Hch. unfold Utf8_Encode, utf8_char. cbv zeta.
  change kMaxOneByteChar with 127. change kMaxTwoByteChar with 2047. change kMaxThreeByteChar with 65535.
  change kMaxFourByteChar with 1114111. rewrite !trail_byte, !Z.shiftr_div_pow2 by lia.
  change (2 ^ 6) with 64. change (2 ^ 12) with 4096. change (2 ^ 18) with 262144.
  replace (ch <? 128) with (ch <=? 127) by lia. destruct (Z.leb_spec ch 127); [rewrite wrapU_id by (unfold isU; lia); done|].
  replace (ch <? 2048) with (ch <=? 2047) by lia. destruct (Z.leb_spec ch 2047).
  { change 0xC0 with (6 <<< 5). rewrite lead_byte; [done|lia|lia|lia|divlia]. }
  replace (ch <? 65536) with (ch <=? 65535) by lia. destruct (Z.leb_spec ch 65535).
  { change 0xE0 with (14 <<< 4). rewrite lead_byte; [done|lia|lia|lia|divlia]. }
  rewrite (proj2 (Z.leb_le _ _)) by lia. cbn [assert_ mbind result_bind].
  change 0xF0 with (30 <<< 3). rewrite lead_byte; [done|lia|lia|lia|divlia].
Qed.

Lemma Utf8_Length_char ch : cp_ok ch -> Utf8_Length ch = Ok (len_ (utf8_char ch)).
Proof.
  unfold cp_ok, Utf8_Length, utf8_char. intros Hch.
  change kMaxOneByteChar with 127. change kMaxTwoByteChar with 2047. change kMaxThreeByteChar with 65535.
  change kMaxFourByteChar with 1114111.
  destruct (Z.leb_spec ch 127); [rewrite (proj2 (Z.ltb_lt ch 128)) by lia; done|].
  rewrite (proj2 (Z.ltb_ge ch 128)) by lia.
  destruct (Z.leb_spec ch 2047); [rewrite (proj2 (Z.ltb_lt ch 2048)) by lia; done|].
  rewrite (proj2 (Z.ltb_ge ch 2048)) by lia.
  destruct (Z.leb_spec ch 65535); [rewrite (proj2 (Z.ltb_lt ch 65536)) by lia; done|].
  rewrite (proj2 (Z.ltb_ge ch 65536)), (proj2 (Z.leb_le ch 1114111)) by lia. done.
Qed.

(** Facts about bytes are checked for each of the 256. *)
Definition all_bytes : list Z := Z.of_nat <$> seq 0 256.

Lemma byte_forall (P : Z -> bool) : forallb P all_bytes = true -> forall b, is_byte b -> P b = true.
Proof.
  intros Hall b Hb. unfold is_byte, isU in Hb. change (2 ^ 8) with 256 in Hb. eapply forallb_forall in Hall; [done|].
  apply list_elem_of_In, list_elem_of_fmap. exists (Z.to_nat b). split; [lia|]. apply elem_of_seq. lia.
Qed.

Lemma IsTrailByte_range b : is_byte b -> IsTrailByte b = (128 <=? b) && (b <? 192).
Proof.
  intros Hb. apply eqb_prop.
  apply (byte_forall (fun b => eqb (IsTrailByte b) ((128 <=? b) && (b <? 192)))); [reflexivity|done].
Qed.

Lemma land_byte b : is_byte b -> b .& 0xFF = b.
Proof. intros. change 0xFF with (Z.ones 8). rewrite Z.land_ones by lia. by apply Z.mod_small. Qed.

(** The number of bytes of a sequence that starts with [b]. *)
Definition trail_bytes (b : Z) : Z :=
  if b <? 128 then 1 else if b <? 192 then 0 else if b <? 224 then 2 else if b <? 240 then 3
  else if b <? 248 then 4 else if b <? 252 then 5 else if b <? 254 then 6 else 0.

Lemma kTrailBytes_at b : is_byte b -> at_ kTrailBytes b = Ok (trail_bytes b).
Proof.
  intros Hb. pose proof (byte_forall (fun b => match at_ kTrailBytes b with Ok n => n =? trail_bytes b | Err _ => false end)
    ltac:(reflexivity) b Hb) as H. simpl in H. destruct (at_ kTrailBytes b); [|done]. f_equal. lia.
Qed.

(** ** One sequence *)

Definition tr (b : Z) : bool := (128 <=? b) && (b <? 192).

(** The code point of the sequence at the start of [bs] and the length of it. *)
Definition seq_of (bs : list Z) : option (Z * Z) :=
  match bs with
  | [] => None
  | b0 :: r =>
      if b0 <? 128 then Some (b0, 1)
      else if b0 <? 192 then None
      else if b0 <? 224 then
        match r with
        | b1 :: _ =>
            let ch := (b0 - 192) * 64 + (b1 - 128) in
            if tr b1 && (128 <=? ch) then Some (ch, 2) else None
        | _ => None
        end
      else if b0 <? 240 then
        match r with
        | b1 :: b2 :: _ =>
            let ch := (b0 - 224) * 4096 + (b1 - 128) * 64 + (b2 - 128) in
            if tr b1 && tr b2 && (2048 <=? ch) then Some (ch, 3) else None
        | _ => None
        end
      else if b0 <? 248 then
        match r with
        | b1 :: b2 :: b3 :: _ =>
            let ch := (b0 - 240) * 262144 + (b1 - 128) * 4096 + (b2 - 128) * 64 + (b3 - 128) in
            if tr b1 && tr b2 && tr b3 && (65536 <=? ch) && (ch <=? 1114111) then Some (ch, 4) else None
        | _ => None
        end
      else None
  end.

(** The value accumulated so far: no wrap-around for up to four bytes. *)
Lemma acc_step ch b : 0 <= ch < 2 ^ 26 - 64 -> is_byte b -> u32 (u32 (ch <<< 6) + b) = ch * 64 + b.
Proof.
  unfold is_byte, isU. intros Hch Hb. rewrite Z.shiftl_mul_pow2 by lia. change (2 ^ 6) with 64.
  rewrite (wrapU_id _ (ch * 64)), wrapU_id by (unfold isU; lia). done.
Qed.

Lemma trail_loop_step fuel a j n ch m b :
  j < n -> 0 <= j -> a !! Z.to_nat j = Some b ->
  trail_loop (S fuel) a 0 j n ch m =
  trail_loop fuel a 0 (j + 1) n (u32 (u32 (ch <<< 6) + b)) (m || negb (IsTrailByte b)).
Proof.
  intros Hj H0 Hb. cbn [trail_loop]. rewrite (proj2 (Z.ltb_lt j n)) by lia.
  apply lookup_lt_Some in Hb as Hlt. unfold len_, at_. rewrite Z.add_0_l, (proj2 (Z.ltb_lt j _)), (proj2 (Z.ltb_ge j 0)) by lia.
  by rewrite Hb.
Qed.

Lemma trail_loop_short fuel a j n ch m :
  j < n -> len_ a <= j -> trail_loop (S fuel) a 0 j n ch m = Ok None.
Proof. intros Hj Hl. cbn [trail_loop]. by rewrite (proj2 (Z.ltb_lt j n)), (proj2 (Z.ltb_ge (0 + j) _)) by lia. Qed.

Lemma trail_loop_end fuel a i n ch m : trail_loop fuel a i n n ch m = Ok (Some (ch, n, m)).
Proof. destruct fuel; cbn [trail_loop]; by rewrite Z.ltb_irrefl. Qed.

Lemma trail_loop_total fuel a j n ch m :
  0 <= j -> j <= n <= j + Z.of_nat fuel ->
  trail_loop fuel a 0 j n ch m = Ok None \/ exists ch' m', trail_loop fuel a 0 j n ch m = Ok (Some (ch', n, m')).
Proof.
  revert j ch m. induction fuel as [|fuel IH]; intros j ch m H0 Hj.
  all: destruct (decide (j = n)) as [->|Hne]; [rewrite trail_loop_end; eauto|].
  { lia. }
  destruct (decide (j < len_ a)) as [Hlt|Hge]; [|left; apply trail_loop_short; lia].
  destruct (lookup_lt_is_Some_2 a (Z.to_nat j)) as [b Hb]; [unfold len_ in Hlt; lia|].
  erewrite trail_loop_step by (done || lia). apply IH; lia.
Qed.

(** What [Utf8_Decode] and [IsValid_sequence] do with a sequence of [n] bytes. *)
Definition decode_tail (a : list Z) (b n : Z) : M (Z * Z) :=
  r ← trail_loop 6 a 0 1 n b false;
  match r with
  | None => Ok (-1, 0)
  | Some (ch, i, is_malformed) =>
      magic ← at_ kMagicBits n;
      let ch := u32 (ch - magic) in
      bad ← rejected is_malformed i n ch;
      Ok (if bad : bool then (-1, 0) else (s32 ch, i))
  end.

Definition or_invalid (r : option (Z * Z)) : Z * Z := match r with Some x => x | None => (-1, 0) end.

Lemma rejected_spec m n ch :
  1 <= n <= 6 -> 0 <= ch ->
  rejected m n n ch = Ok (m || (1114111 <? ch) || negb (nth (Z.to_nat n) kOverlongMinimum 0 <=? ch)).
Proof.
  intros Hn Hch. unfold rejected, IsNonShortestForm, IsOutOfRange, at_. rewrite Z.eqb_refl, (proj2 (Z.ltb_ge n 0)) by lia.
  change kMaxCodePoint with 1114111. rewrite (proj2 (Z.ltb_ge ch 0)), Z.gtb_ltb by lia.
  destruct m, (1114111 <? ch); simpl; [done..|].
  assert (n = 1 \/ n = 2 \/ n = 3 \/ n = 4 \/ n = 5 \/ n = 6) as [->|[->|[->|[->|[->| ->]]]]] by lia; simpl.
  all: f_equal; apply Z.ltb_antisym.
Qed.

Lemma decode_tail_long a b n : n = 5 \/ n = 6 -> decode_tail a b n = Ok (-1, 0).
Proof.
  intros Hn. unfold decode_tail.
  destruct (trail_loop_total 6 a 1 n b false) as [->|(ch'&m'&->)]; [lia..|done|]. cbn [mbind result_bind].
  assert (exists magic, at_ kMagicBits n = Ok magic) as [magic ->] by (destruct Hn as [-> | ->]; eexists; reflexivity).
  cbn [mbind result_bind]. pose proof (wrapU_range 32 (ch' - magic) ltac:(lia)) as Hr. unfold isU in Hr.
  rewrite rejected_spec by lia.
  assert (nth (Z.to_nat n) kOverlongMinimum 0 = 0xFFFFFFFF) as -> by (by destruct Hn as [-> | ->]).
  cbn [mbind result_bind]. set (x := u32 (ch' - magic)) in *.
  replace (m' || (1114111 <? x) || negb (0xFFFFFFFF <=? x)) with true; [done|]. destruct m'; simpl; [done|]. lia.
Qed.

Lemma IsTrailByte_tr b : is_byte b -> negb (IsTrailByte b) = negb (tr b).
Proof. intros. by rewrite IsTrailByte_range. Qed.

(** The end of a sequence of two to four bytes: the value without the magic bits. *)
Lemma decode_tail_finish acc m n magic lo :
  2 <= n <= 4 -> nth (Z.to_nat n) kMagicBits 0 = magic -> nth (Z.to_nat n) kOverlongMinimum 0 = lo ->
  (m = false -> 0 <= acc - magic < 2 ^ 31) ->
  (magic ← at_ kMagicBits n; bad ← rejected m n n (u32 (acc - magic));
   Ok (if bad : bool then (-1, 0) else (s32 (u32 (acc - magic)), n))) =
  Ok (or_invalid (if negb m && (lo <=? acc - magic) && (acc - magic <=? 1114111) then Some (acc - magic, n) else None)) .
Proof.
  intros Hn <- <- Hacc. assert (at_ kMagicBits n = Ok (nth (Z.to_nat n) kMagicBits 0)) as ->.
  { assert (n = 2 \/ n = 3 \/ n = 4) as [->|[->| ->]] by lia; reflexivity. }
  cbn [mbind result_bind]. set (magic := nth (Z.to_nat n) kMagicBits 0) in *.
  set (lo := nth (Z.to_nat n) kOverlongMinimum 0).
  pose proof (wrapU_range 32 (acc - magic) ltac:(lia)) as Hr. rewrite rejected_spec by (unfold isU in Hr; lia).
  fold lo. cbn [mbind result_bind]. destruct m; [done|]. specialize (Hacc eq_refl).
  rewrite (wrapU_id 32 (acc - magic)), wrapS_id by (unfold isU, isS; lia). cbn [orb negb andb].
  destruct (Z.ltb_spec 1114111 (acc - magic)), (Z.leb_spec lo (acc - magic)), (Z.leb_spec (acc - magic) 1114111);
    simpl; try done; lia.
Qed.

Ltac trail_steps :=
  repeat (erewrite trail_loop_step by (lia || reflexivity); cbn [Z.add Pos.add Pos.succ]);
  rewrite ?trail_loop_end.

(** The malformed cases agree; otherwise both sides test the same value. *)
Ltac seq_cases :=
  do 2 f_equal;
  repeat match goal with |- context [tr ?b] => let E := fresh in destruct (tr b) eqn:E end;
  cbn [orb negb andb]; try done; unfold tr in *;
  match goal with
  | |- (if _ && (?x <=? 1114111) then Some (?x, _) else None) = (if _ then Some (?ch, _) else None) =>
      replace x with ch by lia
  end;
  repeat match goal with |- context [?a <=? ?b] => destruct (Z.leb_spec a b) end; simpl; (done || lia).

Lemma decode_tail_seq b0 r :
  is_byte b0 -> 128 <= b0 -> Forall is_byte r ->
  decode_tail (b0 :: r) b0 (trail_bytes b0) = Ok (or_invalid (seq_of (b0 :: r))).
Proof.
  intros Hb0 H128 Hr. unfold is_byte, isU in Hb0. change (2 ^ 8) with 256 in Hb0.
  unfold trail_bytes, seq_of. rewrite (proj2 (Z.ltb_ge b0 128)) by lia.
  destruct (Z.ltb_spec b0 192); [reflexivity|].
  destruct (Z.ltb_spec b0 224); [|destruct (Z.ltb_spec b0 240); [|destruct (Z.ltb_spec b0 248)]].
  4: { destruct (b0 <? 252); [apply decode_tail_long; lia|]. destruct (b0 <? 254); [apply decode_tail_long; lia|reflexivity]. }
  all: unfold decode_tail.
  - destruct r as [|b1 r]; [by rewrite trail_loop_short by (unfold len_; simpl; lia)|].
    apply Forall_cons in Hr as [Hb1 _]. trail_steps. cbn [mbind result_bind].
    rewrite !IsTrailByte_tr, !acc_step by (done || lia). unfold is_byte, isU in *. change (2 ^ 8) with 256 in *.
    rewrite decode_tail_finish with (magic := 0x3080) (lo := 128) by (done || lia || (unfold tr; lia)).
    seq_cases.
  - destruct r as [|b1 r]; [by rewrite trail_loop_short by (unfold len_; simpl; lia)|].
    apply Forall_cons in Hr as [Hb1 Hr]. destruct r as [|b2 r].
    { trail_steps. by rewrite trail_loop_short by (unfold len_; simpl; lia). }
    apply Forall_cons in Hr as [Hb2 _]. trail_steps. cbn [mbind result_bind].
    rewrite !IsTrailByte_tr by done. unfold is_byte, isU in *. change (2 ^ 8) with 256 in *.
    rewrite (acc_step b0 b1), (acc_step (_ + _) b2) by (unfold is_byte, isU; lia).
    rewrite decode_tail_finish with (magic := 0xE2080) (lo := 0x800) by (done || lia || (unfold tr; lia)).
    seq_cases.
  - destruct r as [|b1 r]; [by rewrite trail_loop_short by (unfold len_; simpl; lia)|].
    apply Forall_cons in Hr as [Hb1 Hr]. destruct r as [|b2 r].
    { trail_steps. by rewrite trail_loop_short by (unfold len_; simpl; lia). }
    apply Forall_cons in Hr as [Hb2 Hr]. destruct r as [|b3 r].
    { trail_steps. by rewrite trail_loop_short by (unfold len_; simpl; lia). }
    apply Forall_cons in Hr as [Hb3 _]. trail_steps. cbn [mbind result_bind].
    rewrite !IsTrailByte_tr by done. unfold is_byte, isU in *. change (2 ^ 8) with 256 in *.
    rewrite (acc_step b0 b1), (acc_step (_ + _) b2), (acc_step (_ + _) b3) by (unfold is_byte, isU; lia).
    rewrite decode_tail_finish with (magic := 0x3C82080) (lo := 0x10000) by (done || lia || (unfold tr; lia)).
    seq_cases.
Qed.

Lemma Utf8_Decode_seq bs : bs <> [] -> Forall is_byte bs -> Utf8_Decode bs = Ok (or_invalid (seq_of bs)).
Proof.
  destruct bs as [|b0 r]; [done|]. intros _ [Hb0 Hr]%Forall_cons. unfold Utf8_Decode.
  change (at_ (b0 :: r) 0) with (@Ok u_error Z b0). cbn [mbind result_bind]. rewrite land_byte by done.
  rewrite Z.geb_leb. destruct (Z.leb_spec 128 b0).
  - rewrite kTrailBytes_at by done. cbn [mbind result_bind]. by apply decode_tail_seq.
  - unfold seq_of. by rewrite (proj2 (Z.ltb_lt b0 128)) by lia.
Qed.

Lemma utf8_char_bytes ch : cp_ok ch -> Forall is_byte (utf8_char ch).
Proof.
  unfold cp_ok, utf8_char. intros Hch.
  destruct (Z.ltb_spec ch 128); [|destruct (Z.ltb_spec ch 2048); [|destruct (Z.ltb_spec ch 65536)]].
  all: repeat constructor; unfold is_byte, isU; change (2 ^ 8) with 256; divlia.
Qed.

Lemma seq_of_char ch rest : cp_ok ch -> seq_of (utf8_char ch ++ rest) = Some (ch, len_ (utf8_char ch)).
Proof.
  unfold cp_ok, utf8_char. intros Hch.
  destruct (Z.ltb_spec ch 128) as [H1|H1]; [|destruct (Z.ltb_spec ch 2048) as [H2|H2]; [|destruct (Z.ltb_spec ch 65536) as [H3|H3]]].
  - simpl. by rewrite (proj2 (Z.ltb_lt ch 128)) by lia.
  - cbn [app seq_of]. rewrite (proj2 (Z.ltb_ge _ 128)), (proj2 (Z.ltb_ge _ 192)), (proj2 (Z.ltb_lt _ 224)) by divlia.
    replace ((192 + ch / 64 - 192) * 64 + (128 + ch mod 64 - 128)) with ch by divlia.
    assert (tr (128 + ch mod 64) && (128 <=? ch) = true) as -> by (unfold tr; divlia). done.
  - cbn [app seq_of]. rewrite (proj2 (Z.ltb_ge _ 128)), (proj2 (Z.ltb_ge _ 192)), (proj2 (Z.ltb_ge _ 224)), (proj2 (Z.ltb_lt _ 240)) by divlia.
    replace ((224 + ch / 4096 - 224) * 4096 + (128 + (ch / 64) mod 64 - 128) * 64 + (128 + ch mod 64 - 128)) with ch by divlia.
    assert (tr (128 + (ch / 64) mod 64) && tr (128 + ch mod 64) && (2048 <=? ch) = true) as -> by (unfold tr; divlia). done.
  - cbn [app seq_of].
    rewrite (proj2 (Z.ltb_ge _ 128)), (proj2 (Z.ltb_ge _ 192)), (proj2 (Z.ltb_ge _ 224)), (proj2 (Z.ltb_ge _ 240)), (proj2 (Z.ltb_lt _ 248)) by divlia.
    replace ((240 + ch / 262144 - 240) * 262144 + (128 + (ch / 4096) mod 64 - 128) * 4096
      + (128 + (ch / 64) mod 64 - 128) * 64 + (128 + ch mod 64 - 128)) with ch by divlia.
    assert (tr (128 + (ch / 4096) mod 64) && tr (128 + (ch / 64) mod 64) && tr (128 + ch mod 64) &&
      (65536 <=? ch) && (ch <=? 1114111) = true) as -> by (unfold tr; divlia). done.
Qed.

Lemma seq_of_inv bs ch n :
  Forall is_byte bs -> seq_of bs = Some (ch, n) ->
  cp_ok ch /\ n = len_ (utf8_char ch) /\ exists rest, bs = utf8_char ch ++ rest.
Proof.
  destruct bs as [|b0 r]; [done|]. intros [Hb0 _]%Forall_cons. unfold is_byte, isU in Hb0.
  cbn [seq_of]. unfold cp_ok, utf8_char.
  destruct (Z.ltb_spec b0 128); [intros [= <- <-]; rewrite (proj2 (Z.ltb_lt b0 128)) by lia; split; [lia|]; eauto|].
  destruct (Z.ltb_spec b0 192); [done|]. destruct (Z.ltb_spec b0 224).
  { destruct r as [|b1 r]; [done|]. destruct (_ && _) eqn:E; [|done]. intros [= <- <-]. unfold tr in E.
    rewrite (proj2 (Z.ltb_ge _ 128)), (proj2 (Z.ltb_lt _ 2048)) by lia.
    split; [lia|]. split; [done|]. exists r. cbn [app]. repeat f_equal; divlia. }
  destruct (Z.ltb_spec b0 240).
  { destruct r as [|b1 [|b2 r]]; [done..|]. destruct (_ && _) eqn:E; [|done]. intros [= <- <-]. unfold tr in E.
    rewrite (proj2 (Z.ltb_ge _ 128)), (proj2 (Z.ltb_ge _ 2048)), (proj2 (Z.ltb_lt _ 65536)) by lia.
    split; [lia|]. split; [done|]. exists r. cbn [app]. repeat f_equal; divlia. }
  destruct (Z.ltb_spec b0 248); [|done].
  destruct r as [|b1 [|b2 [|b3 r]]]; [done..|]. destruct (_ && _) eqn:E; [|done]. intros [= <- <-]. unfold tr in E.
  rewrite (proj2 (Z.ltb_ge _ 128)), (proj2 (Z.ltb_ge _ 2048)), (proj2 (Z.ltb_ge _ 65536)) by lia.
  split; [lia|]. split; [done|]. exists r. cbn [app]. repeat f_equal; divlia.
Qed.

(** ** Validation *)

Lemma at_drop a i j : 0 <= i -> 0 <= j -> at_ (drop (Z.to_nat i) a) j = at_ a (i + j).
Proof.
  intros. unfold at_. rewrite (proj2 (Z.ltb_ge j 0)), (proj2 (Z.ltb_ge (i + j) 0)), lookup_drop by lia.
  by rewrite Z2Nat.inj_add by lia.
Qed.

Lemma trail_loop_drop fuel a i j n ch m :
  0 <= i <= len_ a -> 0 <= j -> trail_loop fuel a i j n ch m = trail_loop fuel (drop (Z.to_nat i) a) 0 j n ch m.
Proof.
  revert j ch m. induction fuel as [|fuel IH]; intros j ch m Hi Hj; cbn [trail_loop]; destruct (j <? n); try done.
  rewrite Z.add_0_l. assert ((i + j <? len_ a) = (j <? len_ (drop (Z.to_nat i) a))) as ->.
  { unfold len_ in *. rewrite length_drop. apply bool_eqb_iff. rewrite !Z.ltb_lt. lia. }
  destruct (_ <? _); [|done]. rewrite at_drop by lia. destruct (at_ a (i + j)); [|done]. cbn [mbind result_bind]. apply IH; lia.
Qed.

Lemma trail_loop_ge fuel a i j n ch m ch' j' m' :
  trail_loop fuel a i j n ch m = Ok (Some (ch', j', m')) -> j <= j'.
Proof.
  revert j ch m. induction fuel as [|fuel IH]; intros j ch m; cbn [trail_loop]; destruct (j <? n); [done|intros [=]; lia| |intros [=]; lia].
  destruct (_ <? _); [|done]. destruct (at_ a (i + j)); [|done]. cbn [mbind result_bind]. intros H%IH. lia.
Qed.

(** [IsValid] accepts what [Decode] decodes. *)
Lemma IsValid_sequence_seq a i :
  0 <= i < len_ a -> Forall is_byte a -> IsValid_sequence a i = Ok (snd <$> seq_of (drop (Z.to_nat i) a)).
Proof.
  intros Hi Ha. unfold IsValid_sequence. set (bs := drop (Z.to_nat i) a).
  assert (Forall is_byte bs) as Hbs by (by apply Forall_drop).
  assert (bs <> []) as Hne.
  { intros E. apply (f_equal length) in E. unfold bs, len_ in *. rewrite length_drop in E. simpl in E. lia. }
  replace (at_ a i) with (at_ bs 0) by (unfold bs; rewrite at_drop by lia; f_equal; lia).
  destruct bs as [|b0 r] eqn:Ebs; [done|]. clear Hne. apply Forall_cons in Hbs as [Hb0 Hr].
  change (at_ (b0 :: r) 0) with (@Ok u_error Z b0). cbn [mbind result_bind]. rewrite land_byte by done.
  rewrite Z.geb_leb. destruct (Z.leb_spec 128 b0) as [H128|]; [|unfold seq_of; by rewrite (proj2 (Z.ltb_lt b0 128)) by lia].
  rewrite kTrailBytes_at by done. cbn [mbind result_bind]. rewrite trail_loop_drop by lia. fold bs. rewrite Ebs.
  pose proof (decode_tail_seq b0 r Hb0 H128 Hr) as E. unfold decode_tail in E. revert E.
  destruct (seq_of (b0 :: r)) as [[ch n]|] eqn:Es; cbn [or_invalid].
  - apply seq_of_inv in Es as (Hch&Hn&_); [|by constructor]. unfold cp_ok, len_ in *.
    destruct (trail_loop _ _ _ _ _ _ _) as [[[[ch' j] m]|]|]; cbn [mbind result_bind]; [|intros [= <- <-]; lia|done].
    destruct (at_ kMagicBits _); [|done]. cbn [mbind result_bind]. destruct (rejected _ _ _ _) as [[]|]; [|by intros [= _ <-]|done].
    intros [= <- <-]. lia.
  - destruct (trail_loop _ _ _ _ _ _ _) as [[[[ch' j] m]|]|] eqn:Et; cbn [mbind result_bind]; [|done..].
    destruct (at_ kMagicBits _); [|done]. cbn [mbind result_bind]. destruct (rejected _ _ _ _) as [[]|]; [done| |done].
    cbn [mbind result_bind]. intros [= Ech Ej]. apply trail_loop_ge in Et. lia.
Qed.

(** The array between position [i] and its end, as code points. *)
Lemma seq_of_utf8 cps :
  Forall cp_ok cps -> cps <> [] ->
  exists ch cps', cps = ch :: cps' /\ seq_of (utf8 cps) = Some (ch, len_ (utf8_char ch)).
Proof.
  destruct cps as [|ch cps]; [done|]. intros [Hch _]%Forall_cons _. exists ch, cps. split; [done|].
  rewrite bind_cons. by apply seq_of_char.
Qed.

Lemma utf8_char_length ch : 1 <= len_ (utf8_char ch) <= 4.
Proof. unfold utf8_char, len_. repeat destruct (_ <? _); simpl; lia. Qed.

Lemma drop_len (a : list Z) i n : 0 <= i -> 0 <= n -> drop (Z.to_nat (i + n)) a = drop (Z.to_nat n) (drop (Z.to_nat i) a).
Proof. intros. rewrite drop_drop. f_equal. lia. Qed.

Lemma drop_len_app (x y : list Z) : drop (Z.to_nat (len_ x)) (x ++ y) = y.
Proof. unfold len_. rewrite Nat2Z.id. apply drop_app_length. Qed.

Lemma utf8_bytes cps : Forall cp_ok cps -> Forall is_byte (utf8 cps).
Proof.
  induction 1; [constructor|]. rewrite bind_cons. apply Forall_app. split; [by apply utf8_char_bytes|done].
Qed.

Lemma IsValid_loop_spec fuel a i :
  0 <= i <= len_ a -> len_ a - i <= Z.of_nat fuel -> Forall is_byte a ->
  exists b, IsValid_loop fuel a i = Ok b /\
    (b = true <-> exists cps, Forall cp_ok cps /\ drop (Z.to_nat i) a = utf8 cps).
Proof.
  revert i. induction fuel as [|fuel IH]; intros i Hi Hf Ha; cbn [IsValid_loop].
  all: destruct (Z.ltb_spec i (len_ a)) as [Hlt|Hge].
  1: lia.
  1, 3: exists true; split; [done|]; split; [intros _|done]; exists []; split; [constructor|];
    apply drop_ge; unfold len_ in *; lia.
  rewrite IsValid_sequence_seq by (done || lia). cbn [mbind result_bind].
  destruct (seq_of (drop (Z.to_nat i) a)) as [[ch n]|] eqn:E; cbn [fmap option_fmap option_map snd].
  - apply seq_of_inv in E as (Hch&->&rest&E); [|by apply Forall_drop].
    pose proof (utf8_char_length ch) as Hn. pose proof (f_equal length E) as Hl. rewrite length_drop, length_app in Hl.
    destruct (IH (i + len_ (utf8_char ch))) as (b&Hb&Hiff); [unfold len_ in *; lia..|done|].
    rewrite drop_len, E, drop_len_app in Hiff by lia. exists b. split; [done|]. rewrite Hiff, E. split.
    + intros (cps&Hok&->). exists (ch :: cps). split; [by constructor|]. by rewrite bind_cons.
    + intros (cps&Hok&Ecps). destruct (seq_of_utf8 cps Hok) as (ch'&cps'&->&Es).
      { intros ->. simpl in Ecps. apply (f_equal length) in Ecps. rewrite length_app in Ecps. unfold len_ in Hn. simpl in Ecps. lia. }
      rewrite <- Ecps, seq_of_char in Es by done. injection Es as <-. apply Forall_cons in Hok as [_ Hok].
      exists cps'. split; [done|]. rewrite bind_cons in Ecps. by apply (inj (app (utf8_char ch))).
  - exists false. split; [done|]. split; [done|]. intros (cps&Hok&Ecps). exfalso. rewrite Ecps in E.
    destruct (seq_of_utf8 cps Hok) as (ch'&cps'&->&Es); [|congruence]. intros ->.
    apply (f_equal length) in Ecps. rewrite length_drop in Ecps. unfold len_ in *. simpl in Ecps. lia.
Qed.

(** [Utf8::Encode] of each code point, one after the other. *)
Fixpoint encode_all (cps : list Z) : M (list Z) :=
  match cps with
  | [] => Ok []
  | ch :: cps => bytes ← Utf8_Encode ch; rest ← encode_all cps; Ok (bytes ++ rest)
  end.

Lemma encode_all_utf8 cps : Forall cp_ok cps -> encode_all cps = Ok (utf8 cps).
Proof.
  induction 1 as [|ch cps Hch Hcps IH]; cbn [encode_all]; [done|].
  rewrite Utf8_Encode_char, IH by done. done.
Qed.

(** C34: [Utf8::IsValid] terminates on every byte array without reading outside of
    it and accepts exactly the concatenations of the encodings, in shortest form,
    of code points up to U+10FFFF. *)
Theorem IsValid_correct (bs : list Z) :
  Forall is_byte bs ->
  exists b, IsValid bs = Ok b /\
    (b = true <-> exists cps, Forall cp_ok cps /\ encode_all cps = Ok bs).
Proof.
  intros Hbs. destruct (IsValid_loop_spec (length bs) bs 0) as (b&Hb&Hiff); [unfold len_; lia..|done|].
  exists b. split; [done|]. rewrite Hiff, drop_0. split; intros (cps&Hok&E); exists cps; split; try done.
  - by rewrite encode_all_utf8, E.
  - rewrite encode_all_utf8 in E by done. by injection E as ->.
Qed.

Lemma IsValid_correct_witness :
  IsValid [0xE2; 0x82; 0xAC] = Ok true /\ exists cps, Forall cp_ok cps /\ encode_all cps = Ok [0xE2; 0x82; 0xAC].
Proof.
  split; [reflexivity|]. destruct (IsValid_correct [0xE2; 0x82; 0xAC]) as (b&Hb&Hiff).
  - repeat constructor; unfold is_byte, isU; lia.
  - apply Hiff. vm_compute in Hb. congruence.
Defined.

(** [Utf8::Decode] undoes [Utf8::Encode] for every code point, whatever bytes
    follow, and consumes [Utf8::Length] bytes; on any other input it stores -1 and
    returns 0, so that no overlong, truncated or out of range sequence decodes. *)
Theorem Decode_Encode (bs : list Z) :
  bs <> [] -> Forall is_byte bs ->
  (forall ch enc rest, cp_ok ch -> Utf8_Encode ch = Ok enc -> bs = enc ++ rest ->
     exists n, Utf8_Length ch = Ok n /\ n = len_ enc /\ Utf8_Decode bs = Ok (ch, n)) /\
  (forall ch n, Utf8_Decode bs = Ok (ch, n) -> ch <> -1 ->
     exists enc rest, cp_ok ch /\ Utf8_Encode ch = Ok enc /\ bs = enc ++ rest /\ n = len_ enc) /\
  (exists ch n, Utf8_Decode bs = Ok (ch, n) /\ (ch = -1 -> n = 0)).
Proof.
  intros Hne Hbs. rewrite Utf8_Decode_seq by done. split_and!.
  - intros ch enc rest Hch He ->. rewrite Utf8_Encode_char in He by done. injection He as <-.
    rewrite Utf8_Length_char, seq_of_char by done. eauto.
  - intros ch n [= E] Hm. destruct (seq_of bs) as [[ch' n']|] eqn:Es; simpl in E; [|congruence].
    injection E as <- <-. apply seq_of_inv in Es as (Hch&Hn&rest&->); [|done].
    exists (utf8_char ch'), rest. by rewrite Utf8_Encode_char.
  - destruct (seq_of bs) as [[ch n]|] eqn:Es; [|by exists (-1), 0].
    apply seq_of_inv in Es as (Hch&_); [|done]. exists ch, n. split; [done|]. unfold cp_ok in Hch. lia.
Qed.

Lemma Decode_Encode_witness :
  Utf8_Encode 0x1F600 = Ok [0xF0; 0x9F; 0x98; 0x80] /\ Utf8_Decode [0xF0; 0x9F; 0x98; 0x80; 0x41] = Ok (0x1F600, 4).
Proof.
  split; [reflexivity|].
  destruct (Decode_Encode [0xF0; 0x9F; 0x98; 0x80; 0x41]) as (H&_); [done|repeat constructor; unfold is_byte, isU; lia|].
  destruct (H 0x1F600 [0xF0; 0x9F; 0x98; 0x80] [0x41]) as (n&_&->&->); [unfold cp_ok; lia|reflexivity..].
Defined.

(** ** UTF-16 *)

Definition is_unit (u : Z) : Prop := isU 16 u.

Lemma surrogate_mask u : isU 32 u -> u .& 0xFFFFFC00 = u / 1024 * 1024.
Proof.
  intros Hu. change 1024 with (2 ^ 10). rewrite <- Z.shiftl_mul_pow2, <- Z.shiftr_div_pow2 by lia.
  change 0xFFFFFC00 with (Z.ones 22 <<< 10). zbits. destruct (Z.leb_spec 10 i); [|by rewrite andb_false_r].
  simpl. rewrite testbit_ones, Z.shiftr_spec, Z.sub_add by lia. destruct (Z.ltb_spec (i - 10) 22); [by rewrite andb_true_r|].
  by rewrite (testbit_above_isU 32 u) by (done || lia).
Qed.

Lemma IsLeadSurrogate_range u : is_unit u -> IsLeadSurrogate u = (0xD800 <=? u) && (u <? 0xDC00).
Proof.
  unfold is_unit, isU. intros Hu. unfold IsLeadSurrogate.
  rewrite wrapU_id, surrogate_mask by (unfold isU; lia). apply bool_eqb_iff. divlia.
Qed.

Lemma IsTrailSurrogate_range u : is_unit u -> IsTrailSurrogate u = (0xDC00 <=? u) && (u <? 0xE000).
Proof.
  unfold is_unit, isU. intros Hu. unfold IsTrailSurrogate.
  rewrite wrapU_id, surrogate_mask by (unfold isU; lia). apply bool_eqb_iff. divlia.
Qed.

Lemma land_3FF u : u .& 0x3FF = u mod 1024.
Proof. change 0x3FF with (Z.ones 10). by rewrite Z.land_ones by lia. Qed.

Lemma Utf16_Encode_char ch : 0x10000 <= ch <= 0x10FFFF -> Utf16_Encode ch = Ok (utf16_char ch).
Proof.
  intros Hch. unfold Utf16_Encode, utf16_char. change kMaxCodeUnit with 65535. change kLeadSurrogateOffset with 55232.
  rewrite (proj2 (Z.gtb_lt ch 65535)), (proj2 (Z.ltb_ge ch 65536)), land_3FF by lia. cbn [assert_ mbind result_bind].
  rewrite Z.shiftr_div_pow2 by lia. change (2 ^ 10) with 1024.
  rewrite !wrapU_id by (unfold isU; change (2 ^ 16) with 65536; divlia). do 2 f_equal. divlia.
Qed.

(** The code points of a string of 16-bit code units. *)
Fixpoint codepoints (units : list Z) : list Z :=
  match units with
  | [] => []
  | u :: rest =>
      match rest with
      | u2 :: rest' =>
          if IsLeadSurrogate u && IsTrailSurrogate u2 then Utf16_Decode u u2 :: codepoints rest' else u :: codepoints rest
      | [] => [u]
      end
  end.

(** A surrogate pair decodes to the code point it encodes. *)
Lemma Utf16_Decode_pair u u2 :
  is_unit u -> is_unit u2 -> IsLeadSurrogate u = true -> IsTrailSurrogate u2 = true ->
  0x10000 <= Utf16_Decode u u2 <= 0x10FFFF /\ utf16_char (Utf16_Decode u u2) = [u; u2].
Proof.
  intros Hu Hu2. rewrite IsLeadSurrogate_range, IsTrailSurrogate_range by done. intros H1 H2.
  unfold Utf16_Decode. rewrite !land_3FF, Z.shiftl_mul_pow2 by lia. change (2 ^ 10) with 1024.
  assert (u mod 1024 = u - 0xD800) as -> by divlia. assert (u2 mod 1024 = u2 - 0xDC00) as -> by divlia.
  split; [lia|]. unfold utf16_char. rewrite (proj2 (Z.ltb_ge _ 65536)) by lia. repeat f_equal; divlia.
Qed.

Lemma utf16_char_unit u : is_unit u -> utf16_char u = [u].
Proof. unfold is_unit, isU, utf16_char. intros. by rewrite (proj2 (Z.ltb_lt u 65536)) by lia. Qed.

Lemma unit_cp_ok u : is_unit u -> cp_ok u.
Proof. unfold is_unit, isU, cp_ok. lia. Qed.

Lemma codepoints_step u rest :
  Forall is_unit (u :: rest) ->
  exists c rest', codepoints (u :: rest) = c :: codepoints rest' /\ u :: rest = utf16_char c ++ rest' /\ cp_ok c /\
    Forall is_unit rest' /\ Utf16_Length c = len_ (utf16_char c) /\
    (if IsLeadSurrogate u then
       match rest with u2 :: _ => if IsTrailSurrogate u2 then Utf16_Decode u u2 else u | [] => u end else u) = c.
Proof.
  intros [Hu Hr]%Forall_cons.
  assert (exists c rest', u :: codepoints rest = c :: codepoints rest' /\ u :: rest = utf16_char c ++ rest' /\ cp_ok c /\
    Forall is_unit rest' /\ Utf16_Length c = len_ (utf16_char c) /\ u = c) as Hplain.
  { exists u, rest. rewrite utf16_char_unit by done. split_and!; try done; [by apply unit_cp_ok|].
    unfold Utf16_Length, is_unit, isU in *. change kMaxCodeUnit with 65535. by rewrite (proj2 (Z.leb_le _ _)) by lia. }
  destruct rest as [|u2 rest]; [by destruct (IsLeadSurrogate u)|]. cbn [codepoints].
  destruct (IsLeadSurrogate u) eqn:E1; [|done]. destruct (IsTrailSurrogate u2) eqn:E2; [|done].
  apply Forall_cons in Hr as [Hu2 Hr]. destruct (Utf16_Decode_pair u u2) as [Hc Hp]; [done..|].
  exists (Utf16_Decode u u2), rest. rewrite Hp. unfold cp_ok. split_and!; try (done || lia).
  unfold Utf16_Length. change kMaxCodeUnit with 65535. by rewrite (proj2 (Z.leb_gt _ _)) by lia.
Qed.

Lemma codepoints_spec units :
  Forall is_unit units -> utf16 (codepoints units) = units /\ Forall cp_ok (codepoints units).
Proof.
  induction units as [units IH] using (induction_ltof1 _ (@length Z)). intros Hu.
  destruct units as [|u rest]; [split; [done|constructor]|].
  destruct (codepoints_step u rest Hu) as (c&rest'&->&E&Hc&Hr'&_).
  destruct (IH rest') as [E' Hok]; [|done|].
  - unfold ltof. rewrite E, length_app. unfold utf16_char. destruct (c <? 65536); simpl; lia.
  - rewrite bind_cons, E', E. split; [done|by constructor].
Qed.

(** ** The iterator *)

(** Where the next code point starts. *)
Definition position (it : CodePointIterator) : Z := index_ it + Utf16_Length (ch_ it).

(** The iterator has [units] left. *)
Definition left_ (it : CodePointIterator) (units : list Z) : Prop :=
  -1 <= index_ it /\ end_ it = len_ (str_ it) /\ 0 <= position it <= end_ it /\
  drop (Z.to_nat (position it)) (str_ it) = units.

Lemma left_new str : left_ (CodePointIterator_new str) str.
Proof.
  unfold left_, position, CodePointIterator_new, len_. cbn [index_ ch_ end_ str_]. change (Utf16_Length 0) with 1.
  split_and!; done || lia.
Qed.

Lemma Next_done it : left_ it [] -> exists it', Next it = Ok (false, it').
Proof.
  intros (Hi&He&Hp&Hd). apply (f_equal length) in Hd. rewrite length_drop in Hd. simpl in Hd.
  unfold Next, position, len_ in *. rewrite (proj2 (Z.geb_le _ _)), (proj2 (Z.ltb_ge _ _)) by lia. simpl. eauto.
Qed.

Lemma Next_more it units :
  left_ it units -> Forall is_unit units -> units <> [] ->
  exists c rest it', codepoints units = c :: codepoints rest /\ Next it = Ok (true, it') /\ Current it' = Ok c /\
    left_ it' rest /\ Forall is_unit rest /\ (length rest < length units)%nat /\ cp_ok c.
Proof.
  intros (Hi&He&Hp&Hd) Hu Hne. destruct units as [|u rest]; [done|].
  destruct (codepoints_step u rest Hu) as (c&rest'&Ec&Es&Hc&Hr&Hl&Hch). exists c, rest'.
  pose proof (f_equal length Hd) as Hlen. rewrite length_drop in Hlen. cbn [length] in Hlen.
  set (pos := position it) in *. exists (mkIt (str_ it) c pos (end_ it)).
  assert (forall k, 0 <= k -> at_ (str_ it) (pos + k) = at_ (u :: rest) k) as Hat
    by (intros; rewrite <- Hd; symmetry; apply at_drop; lia).
  assert (1 <= len_ (utf16_char c)) as Hc1 by (unfold utf16_char, len_; destruct (_ <? _); simpl; lia).
  pose proof (f_equal length Es) as Hlen'. rewrite length_app in Hlen'. cbn [length] in Hlen'.
  unfold len_ in *. split_and!; [done|..].
  - unfold Next. change (index_ it + Utf16_Length (ch_ it)) with pos.
    rewrite (proj2 (Z.geb_le _ _)), (proj2 (Z.ltb_lt _ _)) by (subst pos; unfold position in *; lia). cbn [assert_ mbind result_bind].
    replace (at_ (str_ it) pos) with (at_ (u :: rest) 0) by (rewrite <- Hat by lia; f_equal; lia).
    change (at_ (u :: rest) 0) with (@Ok u_error Z u). rewrite Hat by lia. cbn [mbind result_bind].
    destruct (IsLeadSurrogate u); cbn [andb]; [|by rewrite <- Hch].
    destruct rest as [|u2 rest]; cbn [length] in *.
    + rewrite (proj2 (Z.ltb_ge _ _)) by lia. by rewrite <- Hch.
    + rewrite (proj2 (Z.ltb_lt _ _)) by lia. change (at_ (u :: u2 :: rest) 1) with (@Ok u_error Z u2). by rewrite <- Hch.
  - unfold Current. simpl. rewrite (proj2 (Z.geb_le _ _)), (proj2 (Z.ltb_lt _ _)) by lia. done.
  - unfold left_, position, len_. cbn [index_ ch_ end_ str_]. split_and!; [lia|done|lia|rewrite Hl; lia|].
    rewrite Hl, drop_len, Hd, Es by lia. apply (drop_len_app (utf16_char c)).
  - done.
  - cbn [length]. lia.
  - done.
Qed.

(** The prefix of the code points whose encodings fit in [room] bytes. *)
Fixpoint fit (room : Z) (cps : list Z) : list Z :=
  match cps with
  | [] => []
  | ch :: cps => if len_ (utf8_char ch) >? room then [] else ch :: fit (room - len_ (utf8_char ch)) cps
  end.

Lemma String_Encode_loop_spec fuel it units dst len :
  left_ it units -> Forall is_unit units -> (length units <= fuel)%nat ->
  String_Encode_loop fuel it dst len = Ok (dst ++ utf8 (fit (len - len_ dst) (codepoints units))).
Proof.
  revert it units dst. induction fuel as [|fuel IH]; intros it units dst Hl Hu Hf; cbn [String_Encode_loop].
  all: destruct units as [|u rest]; [destruct (Next_done it Hl) as [it' ->]; simpl; by rewrite app_nil_r|].
  { simpl in Hf. lia. }
  destruct (Next_more it _ Hl Hu) as (c&rest'&it'&->&->&Hcur&Hl'&Hu'&Hlt&Hc); [done|]. cbn [mbind result_bind].
  rewrite Hcur. cbn [mbind result_bind]. rewrite Utf8_Length_char by done. cbn [mbind result_bind fit].
  replace (len_ dst + len_ (utf8_char c) >? len) with (len_ (utf8_char c) >? len - len_ dst) by (apply bool_eqb_iff; rewrite !Z.gtb_lt; lia).
  destruct (_ >? _); [by rewrite app_nil_r|]. rewrite Utf8_Encode_char by done. cbn [mbind result_bind].
  rewrite (IH it' rest') by (done || simpl in *; lia). rewrite bind_cons, (assoc app).
  do 4 f_equal. unfold len_. rewrite length_app. lia.
Qed.

Lemma String_Length_loop_spec fuel it units n :
  left_ it units -> Forall is_unit units -> (length units <= fuel)%nat ->
  String_Length_loop fuel it n = Ok (n + len_ (utf8 (codepoints units))).
Proof.
  revert it units n. induction fuel as [|fuel IH]; intros it units n Hl Hu Hf; cbn [String_Length_loop].
  all: destruct units as [|u rest]; [destruct (Next_done it Hl) as [it' ->]; unfold len_; simpl; f_equal; lia|].
  { simpl in Hf. lia. }
  destruct (Next_more it _ Hl Hu) as (c&rest'&it'&->&->&Hcur&Hl'&Hu'&Hlt&Hc); [done|]. cbn [mbind result_bind].
  rewrite Hcur. cbn [mbind result_bind]. rewrite Utf8_Length_char by done. cbn [mbind result_bind].
  rewrite (IH it' rest') by (done || simpl in *; lia). rewrite bind_cons. unfold len_. rewrite length_app. f_equal. lia.
Qed.

Lemma fit_all room cps : len_ (utf8 cps) <= room -> fit room cps = cps.
Proof.
  revert room. induction cps as [|c cps IH]; intros room; [done|]. rewrite bind_cons. unfold len_ in *. rewrite length_app.
  intros. cbn [fit]. unfold len_. rewrite Z.gtb_ltb, (proj2 (Z.ltb_ge _ _)) by lia. f_equal. apply IH. lia.
Qed.

(** ** Counting *)

Definition type_of (ch : Z) : Utf8_Type := if ch <? 256 then kLatin1 else if ch <? 65536 then kBMP else kSupplementary.

(** The less restricted of two coding forms. *)
Definition join (t1 t2 : Utf8_Type) : Utf8_Type :=
  match t1, t2 with
  | kSupplementary, _ | _, kSupplementary => kSupplementary
  | kBMP, _ | _, kBMP => kBMP
  | kLatin1, kLatin1 => kLatin1
  end.

Lemma count_char n t ch :
  cp_ok ch -> foldl CodeUnitCount_step (n, t) (utf8_char ch) = (n + len_ (utf16_char ch), join t (type_of ch)).
Proof.
  intros Hch. pose proof (utf8_char_bytes ch Hch) as Hb. unfold cp_ok in Hch.
  unfold utf8_char, utf16_char, type_of in *.
  destruct (Z.ltb_spec ch 128); [|destruct (Z.ltb_spec ch 2048); [|destruct (Z.ltb_spec ch 65536)]].
  all: repeat match goal with H : Forall is_byte (_ :: _) |- _ => apply Forall_cons in H as [? ?] end.
  all: cbn [foldl]; unfold CodeUnitCount_step, IsLatin1SequenceStart, IsSupplementarySequenceStart;
    rewrite !IsTrailByte_range by done.
  - assert ((128 <=? ch) && (ch <? 192) = false) as -> by lia. rewrite (proj2 (Z.leb_le ch 195)) by lia.
    rewrite (proj2 (Z.ltb_lt ch 256)), (proj2 (Z.ltb_lt ch 65536)) by lia. by destruct t.
  - assert ((128 <=? 192 + ch / 64) && (192 + ch / 64 <? 192) = false) as -> by divlia.
    assert ((128 <=? 128 + ch mod 64) && (128 + ch mod 64 <? 192) = true) as -> by divlia.
    rewrite (proj2 (Z.ltb_lt ch 65536)) by lia.
    destruct (Z.ltb_spec ch 256); [rewrite (proj2 (Z.leb_le _ 195)) by divlia; by destruct t|].
    rewrite (proj2 (Z.leb_gt _ 195)), Z.geb_leb, (proj2 (Z.leb_gt 240 _)) by divlia. by destruct t.
  - assert ((128 <=? 224 + ch / 4096) && (224 + ch / 4096 <? 192) = false) as -> by divlia.
    assert ((128 <=? 128 + (ch / 64) mod 64) && (128 + (ch / 64) mod 64 <? 192) = true) as -> by divlia.
    assert ((128 <=? 128 + ch mod 64) && (128 + ch mod 64 <? 192) = true) as -> by divlia.
    rewrite (proj2 (Z.ltb_ge ch 256)), (proj2 (Z.leb_gt _ 195)), Z.geb_leb, (proj2 (Z.leb_gt 240 _)) by divlia. by destruct t.
  - assert ((128 <=? 240 + ch / 262144) && (240 + ch / 262144 <? 192) = false) as -> by divlia.
    assert ((128 <=? 128 + (ch / 4096) mod 64) && (128 + (ch / 4096) mod 64 <? 192) = true) as -> by divlia.
    assert ((128 <=? 128 + (ch / 64) mod 64) && (128 + (ch / 64) mod 64 <? 192) = true) as -> by divlia.
    assert ((128 <=? 128 + ch mod 64) && (128 + ch mod 64 <? 192) = true) as -> by divlia.
    rewrite (proj2 (Z.ltb_ge ch 256)), (proj2 (Z.leb_gt _ 195)), Z.geb_leb, (proj2 (Z.leb_le 240 _)) by divlia.
    cbn [negb]. f_equal; [unfold len_; simpl; lia|by destruct t].
Qed.

Lemma CodeUnitCount_utf8 cps :
  Forall cp_ok cps -> CodeUnitCount (utf8 cps) = (len_ (utf16 cps), foldl join kLatin1 (type_of <$> cps)).
Proof.
  unfold CodeUnitCount. intros Hok. replace (len_ (utf16 cps)) with (0 + len_ (utf16 cps)) by lia.
  generalize 0, kLatin1. induction Hok as [|ch cps Hch _ IH]; intros n t; [unfold len_; simpl; f_equal; lia|].
  rewrite !bind_cons, foldl_app, count_char, IH by done. rewrite fmap_cons. cbn [foldl]. f_equal.
  unfold len_. rewrite length_app. lia.
Qed.

(** ** The bulk decoders *)

Lemma utf8_length_ge cps : (length cps <= length (utf8 cps))%nat.
Proof.
  induction cps as [|ch cps IH]; [done|]. rewrite bind_cons, length_app. cbn [length].
  pose proof (utf8_char_length ch). unfold len_ in *. lia.
Qed.

Section DecodeToProofs.
Context (pre : Z -> M unit) (put : Z -> Z -> list Z -> Z -> M (list Z * Z)).

(** The loop at a code point: the assertion, the store, the next round. *)
Lemma DecodeTo_loop_char fuel a dst len i j ch rest b :
  Forall is_byte a -> cp_ok ch -> 0 <= i -> drop (Z.to_nat i) a = utf8_char ch ++ rest -> head (utf8_char ch) = Some b ->
  j < len ->
  DecodeTo_loop pre put (S fuel) a dst len i j =
  (pre b;; '(dst, j) ← put b ch dst j; DecodeTo_loop pre put fuel a dst len (i + len_ (utf8_char ch)) (j + 1)).
Proof.
  intros Ha Hch Hi Hd Hb Hj. cbn [DecodeTo_loop].
  pose proof (utf8_char_length ch) as Hl. unfold len_ in Hl.
  pose proof (f_equal length Hd) as Hlen. rewrite length_drop, length_app in Hlen.
  rewrite (proj2 (Z.ltb_lt i _)), (proj2 (Z.ltb_lt j _)) by (unfold len_; lia). cbn [andb].
  assert (at_ a i = Ok b) as ->.
  { replace i with (i + 0) by lia. rewrite <- at_drop, Hd by lia. destruct (utf8_char ch); [done|]. by injection Hb as ->. }
  cbn [mbind result_bind]. destruct (pre b) as [[]|]; [|done]. cbn [mbind result_bind].
  rewrite Utf8_Decode_seq; [|rewrite Hd; destruct (utf8_char ch); done|by apply Forall_drop].
  rewrite Hd, seq_of_char by done. cbn [or_invalid mbind result_bind].
  unfold cp_ok in Hch. by rewrite (proj2 (Z.eqb_neq ch (-1))) by lia.
Qed.

(** A store stays inside of [dst]. *)
Hypothesis put_safe : forall b ch dst j dst' j',
  0 <= j -> put b ch dst j = Ok (dst', j') -> len_ dst' = len_ dst /\ 0 <= j' < len_ dst.

Lemma DecodeTo_loop_valid fuel a dst i j dst' :
  Forall is_byte a -> 0 <= i -> 0 <= j <= len_ dst ->
  DecodeTo_loop pre put fuel a dst (len_ dst) i j = Ok (true, dst') ->
  exists cps, Forall cp_ok cps /\ drop (Z.to_nat i) a = utf8 cps.
Proof.
  revert dst i j. induction fuel as [|fuel IH]; intros dst i j Ha Hi Hj; cbn [DecodeTo_loop].
  all: destruct (Z.ltb_spec i (len_ a)) as [Hlt|Hge]; cbn [andb];
    [|intros _; exists []; split; [constructor|]; apply drop_ge; unfold len_ in *; lia].
  all: destruct (Z.ltb_spec j (len_ dst)) as [Hlt'|Hge']; [|rewrite (proj2 (Z.eqb_eq j (len_ dst))) by lia; done].
  1: done.
  destruct (at_ a i) as [b|]; [|done]. cbn [mbind result_bind]. destruct (pre b); [|done]. cbn [mbind result_bind].
  assert (drop (Z.to_nat i) a <> []) as Hne.
  { intros E. apply (f_equal length) in E. rewrite length_drop in E. unfold len_ in *. simpl in E. lia. }
  rewrite Utf8_Decode_seq by (done || by apply Forall_drop). cbn [mbind result_bind].
  destruct (seq_of _) as [[ch n]|] eqn:Es; cbn [or_invalid]; [|done].
  apply seq_of_inv in Es as (Hch&->&rest&Hd); [|by apply Forall_drop]. destruct (ch =? -1); [done|].
  destruct (put b ch dst j) as [[dst1 j1]|] eqn:Ep; [|done]. cbn [mbind result_bind].
  apply put_safe in Ep as [Hl Hj1]; [|lia]. rewrite <- Hl. intros E.
  pose proof (utf8_char_length ch). apply IH in E as (cps&Hok&Ed); [|done|lia..].
  exists (ch :: cps). split; [by constructor|]. rewrite bind_cons, <- Ed, drop_len, Hd, drop_len_app by lia. done.
Qed.

(** What is stored for a code point that the decoder accepts. *)
Context (good : Z -> Prop) (unit_of : Z -> list Z).
Hypothesis pre_good : forall ch b, cp_ok ch -> good ch -> head (utf8_char ch) = Some b -> pre b = Ok ().
Hypothesis put_good : forall ch b done tail, cp_ok ch -> good ch -> head (utf8_char ch) = Some b ->
  (length (unit_of ch) <= length tail)%nat ->
  put b ch (done ++ tail) (len_ done) =
  Ok (done ++ unit_of ch ++ drop (length (unit_of ch)) tail, len_ done + len_ (unit_of ch) - 1).
Hypothesis unit_pos : forall ch, (1 <= length (unit_of ch))%nat.

Lemma DecodeTo_loop_good fuel a cps rest done tail i len :
  Forall is_byte a -> Forall cp_ok cps -> Forall good cps -> 0 <= i ->
  drop (Z.to_nat i) a = utf8 cps ++ rest -> (length (cps ≫= unit_of) <= length tail)%nat ->
  len = len_ done + len_ tail -> (length cps <= fuel)%nat ->
  DecodeTo_loop pre put fuel a (done ++ tail) len i (len_ done) =
  DecodeTo_loop pre put (fuel - length cps) a
    (done ++ (cps ≫= unit_of) ++ drop (length (cps ≫= unit_of)) tail) len (i + len_ (utf8 cps))
    (len_ done + len_ (cps ≫= unit_of)).
Proof.
  revert fuel done tail i. induction cps as [|ch cps IH]; intros fuel done tail i Ha Hok Hgood Hi Hd Hfit Hlen Hf.
  - cbn [mbind list_bind]. change (len_ []) with 0. rewrite !Z.add_0_r, drop_0, Nat.sub_0_r. done.
  - apply Forall_cons in Hok as [Hch Hok]. apply Forall_cons in Hgood as [Hg Hgood].
    rewrite !bind_cons in *. rewrite length_app in Hfit. rewrite <- (assoc app) in Hd.
    destruct fuel as [|fuel]; [simpl in Hf; lia|]. pose proof (unit_pos ch) as Hu.
    assert (exists b, head (utf8_char ch) = Some b) as [b Hb].
    { pose proof (utf8_char_length ch). destruct (utf8_char ch); [unfold len_ in *; simpl in *; lia|eauto]. }
    erewrite DecodeTo_loop_char by (done || (unfold len_ in *; lia)).
    rewrite pre_good with (ch := ch) by done. cbn [mbind result_bind].
    rewrite put_good by (done || lia). cbn [mbind result_bind].
    rewrite (assoc app). replace (len_ done + len_ (unit_of ch) - 1 + 1) with (len_ (done ++ unit_of ch))
      by (unfold len_; rewrite length_app; lia).
    pose proof (utf8_char_length ch) as Hcl.
    rewrite IH; [|done..|lia| | | |simpl in Hf; lia].
    + rewrite drop_drop. f_equal.
      * by rewrite <- !(assoc app), length_app.
      * unfold len_. rewrite length_app. lia.
      * unfold len_. rewrite !length_app. lia.
    + by rewrite drop_len, Hd, drop_len_app by lia.
    + rewrite length_drop. lia.
    + subst len. unfold len_. rewrite length_app, length_drop. lia.
Qed.

Lemma DecodeTo_good cps dst :
  Forall cp_ok cps -> Forall good cps -> (length (cps ≫= unit_of) <= length dst)%nat ->
  DecodeTo pre put (utf8 cps) dst = Ok (true, (cps ≫= unit_of) ++ drop (length (cps ≫= unit_of)) dst).
Proof.
  intros Hok Hgood Hfit. unfold DecodeTo.
  pose proof (utf8_length_ge cps) as Hcl.
  rewrite (DecodeTo_loop_good _ _ cps [] [] dst 0 (len_ dst)); [|by apply utf8_bytes|done|done|done|by rewrite app_nil_r|done|done|done].
  rewrite Z.add_0_l. destruct (_ - _)%nat; cbn [DecodeTo_loop]; by rewrite Z.ltb_irrefl.
Qed.
End DecodeToProofs.

Lemma store_app done x tail v :
  store (done ++ x :: tail) (len_ done) v = Ok (done ++ v :: tail).
Proof.
  unfold store, len_. rewrite length_app. cbn [length].
  rewrite (proj2 (Z.leb_le _ _)), (proj2 (Z.ltb_lt _ _)) by lia. cbn [andb].
  by rewrite Nat2Z.id, insert_app_r_alt, Nat.sub_diag by lia.
Qed.

Lemma store_safe dst j v dst' : store dst j v = Ok dst' -> len_ dst' = len_ dst /\ 0 <= j < len_ dst.
Proof.
  unfold store. destruct ((0 <=? j) && (j <? len_ dst)) eqn:E; [|done]. intros [= <-]. unfold len_ in *. rewrite length_insert. lia.
Qed.

Ltac store_one tail :=
  destruct tail as [|? tail]; [simpl in *; lia|]; rewrite store_app; cbn [mbind result_bind].

Lemma bind_single (cps : list Z) : (cps ≫= fun ch => [ch]) = cps.
Proof. induction cps as [|ch cps IH]; [done|]. by rewrite bind_cons, IH. Qed.

Lemma DecodeToUTF32_good cps dst :
  Forall cp_ok cps -> (length cps <= length dst)%nat -> DecodeToUTF32 (utf8 cps) dst = Ok (true, cps ++ drop (length cps) dst).
Proof.
  intros Hok Hfit. pose proof (bind_single cps) as E.
  unfold DecodeToUTF32. rewrite (DecodeTo_good _ _ (fun _ => True) (fun ch => [ch])); [by rewrite E|..|by rewrite E].
  - done.
  - intros ch b done tail _ _ _ Hl. store_one tail. f_equal. f_equal. simpl. unfold len_. simpl. lia.
  - done.
  - done.
  - by apply Forall_true.
Qed.

Lemma head_byte ch b : cp_ok ch -> head (utf8_char ch) = Some b -> (b <=? 0xC3) = (ch <? 256) /\ (b >=? 0xF0) = (65536 <=? ch).
Proof.
  unfold cp_ok, utf8_char. intros Hch.
  destruct (Z.ltb_spec ch 128); [|destruct (Z.ltb_spec ch 2048); [|destruct (Z.ltb_spec ch 65536)]].
  all: intros [= <-]; split; apply bool_eqb_iff; rewrite ?Z.geb_leb, ?Z.leb_le, ?Z.ltb_lt; divlia.
Qed.

Lemma DecodeToLatin1_good cps dst :
  Forall (fun ch => IsLatin1 ch = true) cps -> (length cps <= length dst)%nat ->
  DecodeToLatin1 (utf8 cps) dst = Ok (true, cps ++ drop (length cps) dst).
Proof.
  intros Hok Hfit. pose proof (bind_single cps) as E.
  assert (Forall cp_ok cps) as Hcp.
  { eapply Forall_impl; [done|]. intros ch. unfold IsLatin1, cp_ok. lia. }
  unfold DecodeToLatin1. rewrite (DecodeTo_good _ _ (fun ch => IsLatin1 ch = true) (fun ch => [ch])); [by rewrite E|..|by rewrite E].
  - intros ch b Hch Hl Hb. unfold IsLatin1SequenceStart. destruct (head_byte ch b Hch Hb) as [-> _].
    unfold IsLatin1 in Hl. by rewrite (proj2 (Z.ltb_lt _ _)) by lia.
  - intros ch b done tail _ Hg _ Hl. rewrite Hg. cbn [assert_ mbind result_bind]. store_one tail.
    unfold IsLatin1 in Hg. rewrite wrapU_id by (unfold isU; lia). f_equal. f_equal. unfold len_. simpl. lia.
  - done.
  - done.
  - done.
Qed.

(** The stores of [DecodeToUTF16]. *)
Lemma put_utf16 ch b done tail :
  cp_ok ch -> head (utf8_char ch) = Some b -> (length (utf16_char ch) <= length tail)%nat ->
  (if IsSupplementarySequenceStart b then
     units ← Utf16_Encode ch; lead ← at_ units 0; trail ← at_ units 1;
     dst ← store (done ++ tail) (len_ done) lead; dst ← store dst (len_ done + 1) trail; Ok (dst, len_ done + 1)
   else dst ← store (done ++ tail) (len_ done) (u16 ch); Ok (dst, len_ done)) =
  Ok (done ++ utf16_char ch ++ drop (length (utf16_char ch)) tail, len_ done + len_ (utf16_char ch) - 1).
Proof.
  intros Hch Hb Hl. unfold IsSupplementarySequenceStart. destruct (head_byte ch b Hch Hb) as [_ ->]. unfold cp_ok in Hch.
  destruct (Z.leb_spec 65536 ch).
  - rewrite Utf16_Encode_char by lia. unfold utf16_char in *. rewrite (proj2 (Z.ltb_ge ch 65536)) in * by lia.
    cbn [mbind result_bind]. revert Hl. generalize (55296 + (ch - 65536) / 1024), (56320 + ch mod 1024). intros x y Hl.
    change (at_ [x; y] 0) with (@Ok u_error Z x). change (at_ [x; y] 1) with (@Ok u_error Z y). cbn [mbind result_bind].
    store_one tail. destruct tail as [|b' tail]; [simpl in *; lia|].
    replace (done ++ x :: b' :: tail) with ((done ++ [x]) ++ b' :: tail) by (by rewrite <- (assoc app)).
    replace (len_ done + 1) with (len_ (done ++ [x])) by (unfold len_; rewrite length_app; simpl; lia).
    rewrite store_app. cbn [mbind result_bind length drop app]. rewrite <- (assoc app). cbn [app].
    f_equal. f_equal. unfold len_. rewrite length_app. simpl. lia.
  - unfold utf16_char in *. rewrite (proj2 (Z.ltb_lt ch 65536)) in * by lia. store_one tail.
    rewrite wrapU_id by (unfold isU; lia). f_equal. f_equal. unfold len_. simpl. lia.
Qed.

Lemma utf16_char_length ch : (1 <= length (utf16_char ch))%nat.
Proof. unfold utf16_char. destruct (_ <? _); simpl; lia. Qed.

Lemma DecodeToUTF16_good cps dst :
  Forall cp_ok cps -> (length (utf16 cps) <= length dst)%nat ->
  DecodeToUTF16 (utf8 cps) dst = Ok (true, utf16 cps ++ drop (length (utf16 cps)) dst).
Proof.
  intros Hok Hfit. unfold DecodeToUTF16.
  rewrite (DecodeTo_good _ _ (fun _ => True) utf16_char); [done|done| |apply utf16_char_length|done|by apply Forall_true|done].
  intros ch b dn tail Hch _. by apply put_utf16.
Qed.

(** The three bulk decoders agree with the code points of their input: given
    the encoding of code points that fit into [dst] (all of them Latin-1 for
    [DecodeToLatin1]) each returns true and stores exactly the code points, for
    [DecodeToUTF16] their UTF-16 code units; and none returns true for a byte
    array that is not such an encoding. *)
Theorem DecodeTo_correct (bs dst : list Z) :
  Forall is_byte bs ->
  (forall cps, Forall cp_ok cps -> encode_all cps = Ok bs ->
     ((length cps <= length dst)%nat -> DecodeToUTF32 bs dst = Ok (true, cps ++ drop (length cps) dst)) /\
     ((length (utf16 cps) <= length dst)%nat ->
        DecodeToUTF16 bs dst = Ok (true, utf16 cps ++ drop (length (utf16 cps)) dst)) /\
     (Forall (fun ch => IsLatin1 ch = true) cps -> (length cps <= length dst)%nat ->
        DecodeToLatin1 bs dst = Ok (true, cps ++ drop (length cps) dst))) /\
  (forall dst', DecodeToUTF32 bs dst = Ok (true, dst') \/ DecodeToUTF16 bs dst = Ok (true, dst') \/
                DecodeToLatin1 bs dst = Ok (true, dst') ->
     exists cps, Forall cp_ok cps /\ encode_all cps = Ok bs).
Proof.
  intros Hbs. split.
  - intros cps Hok He. rewrite encode_all_utf8 in He by done. injection He as <-. split_and!.
    + by apply DecodeToUTF32_good.
    + by apply DecodeToUTF16_good.
    + by apply DecodeToLatin1_good.
  - intros dst' H. assert (exists cps, Forall cp_ok cps /\ drop 0 bs = utf8 cps) as (cps&Hok&Hd).
    { destruct H as [H|[H|H]]; apply DecodeTo_loop_valid in H; try done; try (unfold len_; lia).
      all: cbn beta; intros b ch d j d' j' Hj.
      - destruct (store d j ch) eqn:E; [|done]. apply store_safe in E as []. by intros [= <- <-].
      - destruct (IsSupplementarySequenceStart b).
        + destruct (Utf16_Encode ch); [|done]. cbn [mbind result_bind]. destruct (at_ _ 0); [|done]. cbn [mbind result_bind].
          destruct (at_ _ 1); [|done]. cbn [mbind result_bind]. destruct (store d _ _) eqn:E; [|done]. cbn [mbind result_bind].
          apply store_safe in E as [<- _]. destruct (store _ _ _) eqn:E; [|done]. apply store_safe in E as [? ?]. by intros [= <- <-].
        + destruct (store _ _ _) eqn:E; [|done]. apply store_safe in E as []. by intros [= <- <-].
      - destruct (assert_ _); [|done]. cbn [mbind result_bind]. destruct (store _ _ _) eqn:E; [|done].
        apply store_safe in E as []. by intros [= <- <-]. }
    exists cps. by rewrite encode_all_utf8, <- Hd, drop_0.
Qed.

Lemma DecodeTo_correct_witness :
  DecodeToUTF16 [0xC3; 0xA9; 0xF0; 0x9F; 0x98; 0x80] [0; 0; 0; 7] = Ok (true, [0xE9; 0xD83D; 0xDE00; 7]).
Proof.
  destruct (DecodeTo_correct [0xC3; 0xA9; 0xF0; 0x9F; 0x98; 0x80] [0; 0; 0; 7]) as [H _].
  - repeat constructor; unfold is_byte, isU; lia.
  - apply (H [0xE9; 0x1F600]); [repeat constructor; unfold cp_ok; lia|reflexivity|vm_compute; lia].
Defined.

(** C31: Every string of 16-bit code units, lone surrogates included, survives the
    trip through UTF-8: [Utf8::Length] is the number of bytes [Utf8::Encode]
    stores, these bytes are valid, [CodeUnitCount] counts the code units of the
    string, and [DecodeToUTF16] into a buffer of that size gives the string back. *)
Theorem String_roundtrip (str : list Z) :
  Forall is_unit str ->
  exists bytes t, String_Length str = Ok (len_ bytes) /\ String_Encode str (len_ bytes) = Ok bytes /\
    IsValid bytes = Ok true /\ CodeUnitCount bytes = (len_ str, t) /\
    DecodeToUTF16 bytes (replicate (length str) 0) = Ok (true, str).
Proof.
  intros Hs. destruct (codepoints_spec str Hs) as [E Hok]. eexists (utf8 (codepoints str)), _. split_and!.
  - unfold String_Length. rewrite (String_Length_loop_spec _ _ str) by (done || apply left_new). f_equal; lia.
  - unfold String_Encode. rewrite (String_Encode_loop_spec _ _ str) by (done || apply left_new).
    rewrite fit_all; [done|]. unfold len_. simpl. lia.
  - destruct (IsValid_loop_spec (length (utf8 (codepoints str))) (utf8 (codepoints str)) 0) as (b&Hb&Hiff);
      [unfold len_; lia..|by apply utf8_bytes|].
    unfold IsValid. rewrite Hb. f_equal. apply Hiff. exists (codepoints str). by rewrite drop_0.
  - rewrite CodeUnitCount_utf8, E by done. done.
  - rewrite DecodeToUTF16_good, E by (rewrite ?E, ?length_replicate; done). by rewrite drop_ge, app_nil_r by (by rewrite length_replicate).
Qed.

Lemma String_roundtrip_witness :
  Forall is_unit [0x41; 0xD83D; 0xDE00; 0xD800] /\
  exists bytes t, String_Length [0x41; 0xD83D; 0xDE00; 0xD800] = Ok (len_ bytes) /\
    CodeUnitCount bytes = (4, t) /\ DecodeToUTF16 bytes (replicate 4 0) = Ok (true, [0x41; 0xD83D; 0xDE00; 0xD800]).
Proof.
  assert (Forall is_unit [0x41; 0xD83D; 0xDE00; 0xD800]) as Hs by (repeat constructor; unfold is_unit, isU; lia).
  split; [done|]. destruct (String_roundtrip _ Hs) as (bytes&t&H1&_&_&H2&H3). exists bytes, t. split; [done|]. split; [exact H2|exact H3].
Defined.

(** [DecodeToUTF16] checks the room left for one code unit only: when a
    supplementary character comes where one code unit of [dst] is left, it stores
    the trail surrogate one past the end of [dst]. *)
Theorem DecodeToUTF16_overflow (cps : list Z) (ch : Z) (bs dst : list Z) :
  Forall cp_ok cps -> 0x10000 <= ch <= 0x10FFFF -> encode_all (cps ++ [ch]) = Ok bs ->
  length dst = (length (utf16 cps) + 1)%nat ->
  DecodeToUTF16 bs dst = Err OutOfBounds.
Proof.
  intros Hok Hch He Hlen. assert (cp_ok ch) as Hcp by (unfold cp_ok; lia).
  rewrite encode_all_utf8 in He by (apply Forall_app; split; [done|by constructor]). injection He as <-.
  rewrite bind_app, bind_cons. change (utf8 []) with (@nil Z). rewrite app_nil_r.
  assert (Forall is_byte (utf8 cps ++ utf8_char ch)) as Hb.
  { apply Forall_app. split; [by apply utf8_bytes|by apply utf8_char_bytes]. }
  pose proof (utf8_char_length ch) as Hcl. unfold len_ in Hcl.
  assert (length cps <= length (utf8 cps))%nat as Hl by apply utf8_length_ge.
  unfold DecodeToUTF16, DecodeTo.
  rewrite (DecodeTo_loop_good _ _ (fun _ => True) utf16_char) with (cps := cps) (rest := utf8_char ch) (done := []) (tail := dst) (i := 0).
  2: done. 2: intros ? ? ? ? ? _; by apply put_utf16. 2: apply utf16_char_length. 2-5: done || by apply Forall_true.
  2: done. 2: lia. 2: done. 2: rewrite length_app; lia.
  rewrite Z.add_0_l. destruct (length (utf8 cps ++ utf8_char ch) - length cps)%nat as [|fuel] eqn:Ef.
  { rewrite length_app in Ef. lia. }
  assert (exists b, head (utf8_char ch) = Some b) as [b Hhd] by (destruct (utf8_char ch); [simpl in *; lia|eauto]).
  erewrite DecodeTo_loop_char; [|done|done|unfold len_; lia| |done|unfold len_; simpl; lia].
  2: rewrite drop_len_app; symmetry; apply app_nil_r.
  cbn [mbind result_bind]. unfold IsSupplementarySequenceStart. destruct (head_byte ch b Hcp Hhd) as [_ ->].
  rewrite (proj2 (Z.leb_le _ _)), Utf16_Encode_char by lia. assert (exists x y, utf16_char ch = [x; y]) as (x&y&->)
    by (unfold utf16_char; rewrite (proj2 (Z.ltb_ge ch 65536)) by lia; eauto).
  cbn [mbind result_bind]. change (at_ [x; y] 0) with (@Ok u_error Z x). change (at_ [x; y] 1) with (@Ok u_error Z y).
  cbn [mbind result_bind app]. change (len_ []) with 0. rewrite Z.add_0_l.
  destruct (drop (length (utf16 cps)) dst) as [|a [|]] eqn:Ed; apply (f_equal length) in Ed;
    rewrite length_drop, Hlen in Ed; simpl in Ed; [lia| |lia].
  rewrite store_app. cbn [mbind result_bind]. unfold store, len_. rewrite length_app. cbn [length].
  rewrite (proj2 (Z.ltb_ge (_ + 1) _)) by lia. by rewrite andb_false_r.
Qed.

Lemma DecodeToUTF16_overflow_witness :
  encode_all ([0x41] ++ [0x1F600]) = Ok [0x41; 0xF0; 0x9F; 0x98; 0x80] /\
  DecodeToUTF16 [0x41; 0xF0; 0x9F; 0x98; 0x80] [0; 0] = Err OutOfBounds.
Proof.
  split; [reflexivity|]. apply (DecodeToUTF16_overflow [0x41] 0x1F600); [repeat constructor; unfold cp_ok; lia|lia|reflexivity..].
Defined.

(** [Utf16::Next], called again and again from index 0, visits the code points
    of the string: at every index inside of it the result is the first code point
    of the rest, a surrogate pair counting as one, and the index moves past
    exactly the code units that encode it. *)
Theorem Utf16_Next_correct (str : list Z) (i : Z) :
  Forall is_unit str -> 0 <= i < len_ str ->
  exists c, Utf16_Next str i (len_ str) = Ok (c, i + Utf16_Length c) /\
    codepoints (drop (Z.to_nat i) str) = c :: codepoints (drop (Z.to_nat (i + Utf16_Length c)) str) /\
    drop (Z.to_nat i) str = utf16_char c ++ drop (Z.to_nat (i + Utf16_Length c)) str.
Proof.
  intros Hs Hi. destruct (drop (Z.to_nat i) str) as [|u rest] eqn:Hd.
  { apply (f_equal length) in Hd. rewrite length_drop in Hd. unfold len_ in Hi. simpl in Hd. lia. }
  assert (Forall is_unit (u :: rest)) as Hu by (rewrite <- Hd; by apply Forall_drop).
  destruct (codepoints_step u rest Hu) as (c&rest'&Ec&Es&Hc&Hr&Hl&Hch). exists c.
  assert (0 <= Utf16_Length c) as Hl0 by (rewrite Hl; unfold len_; lia).
  assert (drop (Z.to_nat (i + Utf16_Length c)) str = rest') as -> by
    (rewrite drop_len, Hd, Es, Hl by lia; apply drop_len_app).
  rewrite <- Es. split_and!; [|done..].
  assert (forall k, 0 <= k -> at_ str (i + k) = at_ (u :: rest) k) as Hat
    by (intros; rewrite <- Hd; symmetry; apply at_drop; lia).
  pose proof (f_equal length Hd) as Hlen. rewrite length_drop in Hlen. cbn [length] in Hlen. unfold len_ in Hi.
  unfold Utf16_Next. replace (at_ str i) with (at_ (u :: rest) 0) by (rewrite <- Hat by lia; f_equal; lia).
  change (at_ (u :: rest) 0) with (@Ok u_error Z u). rewrite Hat by lia. cbn [mbind result_bind].
  apply Forall_cons in Hu as [Hu Hrest].
  assert (Utf16_Length u = 1) as Hu1.
  { unfold Utf16_Length, is_unit, isU in *. change kMaxCodeUnit with 65535. by rewrite (proj2 (Z.leb_le _ _)) by lia. }
  destruct (IsLeadSurrogate u) eqn:El; cbn [andb]; [|by rewrite <- Hch, Hu1].
  destruct rest as [|u2 rest]; cbn [length] in *; unfold len_.
  - rewrite (proj2 (Z.ltb_ge _ _)) by lia. by rewrite <- Hch, Hu1.
  - rewrite (proj2 (Z.ltb_lt _ _)) by lia. change (at_ (u :: u2 :: rest) 1) with (@Ok u_error Z u2). cbn [mbind result_bind].
    destruct (IsTrailSurrogate u2) eqn:Et; [|by rewrite <- Hch, Hu1]. apply Forall_cons in Hrest as [Hu2 _].
    destruct (Utf16_Decode_pair u u2 Hu Hu2 El Et) as [Hpair _]. rewrite <- Hch. unfold Utf16_Length.
    change kMaxCodeUnit with 65535. rewrite (proj2 (Z.leb_gt _ _)) by lia. do 2 f_equal. lia.
Qed.

Lemma Utf16_Next_correct_witness :
  exists c, Utf16_Next [0x41; 0xD83D; 0xDE00] 1 3 = Ok (c, 1 + Utf16_Length c) /\ c = 0x1F600.
Proof.
  destruct (Utf16_Next_correct [0x41; 0xD83D; 0xDE00] 1) as (c&Hn&_&_);
    [repeat constructor; unfold is_unit, isU; lia|unfold len_; simpl; lia|].
  exists c. split; [exact Hn|]. change (Utf16_Next _ 1 _) with (@Ok u_error (Z * Z) (0x1F600, 3)) in Hn. injection Hn as <- _. done.
Defined.

End Unicode.
