(* ===== verification/CaseMapping.v ===== *)
(** * CaseMapping: vm/unicode.h, vm/unicode_data.cc

    Upper and lower case by two-stage tables: [stage1_] maps a block of 256 code
    points to a block of [stage2_], whose entries hold a delta or an index into
    the exception table.  A read outside of a table is [OutOfBounds]. *)

From stdpp Require Import base numbers list.
From Stdlib Require Import ZArith Lia.
From S2P Require Import Prelude Unicode.
Import Unicode.

Local Open Scope Z_scope.
Local Open Scope mach_scope.

Module CaseMapping.

Definition stage1_ : list Z :=
  [0; 1; 2; 3; 4; 5; 6; 6; 6; 6; 6; 6; 6; 6; 6; 6; 7; 6; 6; 6;
   6; 6; 6; 6; 6; 6; 6; 6; 6; 8; 9; 10; 6; 11; 6; 6; 12; 6; 6; 6;
   6; 6; 6; 6; 13; 14; 6; 6; 6; 6; 6; 6; 6; 6; 6; 6; 6; 6; 6; 6;
   6; 6; 6; 6; 6; 6; 6; 6; 6; 6; 6; 6; 6; 6; 6; 6; 6; 6; 6; 6;
   6; 6; 6; 6; 6; 6; 6; 6; 6; 6; 6; 6; 6; 6; 6; 6; 6; 6; 6; 6;
   6; 6; 6; 6; 6; 6; 6; 6; 6; 6; 6; 6; 6; 6; 6; 6; 6; 6; 6; 6;
   6; 6; 6; 6; 6; 6; 6; 6; 6; 6; 6; 6; 6; 6; 6; 6; 6; 6; 6; 6;
   6; 6; 6; 6; 6; 6; 6; 6; 6; 6; 6; 6; 6; 6; 6; 6; 6; 6; 6; 6;
   6; 6; 6; 6; 6; 6; 15; 16; 6; 6; 6; 6; 6; 6; 6; 6; 6; 6; 6; 6;
   6; 6; 6; 6; 6; 6; 6; 6; 6; 6; 6; 6; 6; 6; 6; 6; 6; 6; 6; 6;
   6; 6; 6; 6; 6; 6; 6; 6; 6; 6; 6; 6; 6; 6; 6; 6; 6; 6; 6; 6;
   6; 6; 6; 6; 6; 6; 6; 6; 6; 6; 6; 6; 6; 6; 6; 6; 6; 6; 6; 6;
   6; 6; 6; 6; 6; 6; 6; 6; 6; 6; 6; 6; 6; 6; 6; 17; 6; 6; 6; 6;
   18].

Definition stage2_ : list Z :=
  [0; 0; 0; 0; 0; 0; 0; 0; 0; 0; 0; 0; 0; 0; 0; 0;
   0; 0; 0; 0; 0; 0; 0; 0; 0; 0; 0; 0; 0; 0; 0; 0;
   0; 0; 0; 0; 0; 0; 0; 0; 0; 0; 0; 0; 0; 0; 0; 0;
   0; 0; 0; 0; 0; 0; 0; 0; 0; 0; 0; 0; 0; 0; 0; 0;
   0; 130; 130; 130; 130; 130; 130; 130; 130; 130; 130; 130; 130; 130; 130; 130;
   130; 130; 130; 130; 130; 130; 130; 130; 130; 130; 130; 0; 0; 0; 0; 0;
   0; -127; -127; -127; -127; -127; -127; -127; -127; -127; -127; -127; -127; -127; -127; -127;
   -127; -127; -127; -127; -127; -127; -127; -127; -127; -127; -127; 0; 0; 0; 0; 0;
   0; 0; 0; 0; 0; 0; 0; 0; 0; 0; 0; 0; 0; 0; 0; 0;
   0; 0; 0; 0; 0; 0; 0; 0; 0; 0; 0; 0; 0; 0; 0; 0;
   0; 0; 0; 0; 0; 0; 0; 0; 0; 0; 0; 0; 0; 0; 0; 0;
   0; 0; 0; 0; 0; 2973; 0; 0; 0; 0; 0; 0; 0; 0; 0; 0;
   130; 130; 130; 130; 130; 130; 130; 130; 130; 130; 130; 130; 130; 130; 130; 130;
   130; 130; 130; 130; 130; 130; 130; 0; 130; 130; 130; 130; 130; 130; 130; 0;
   -127; -127; -127; -127; -127; -127; -127; -127; -127; -127; -127; -127; -127; -127; -127; -127;
   -127; -127; -127; -127; -127; -127; -127; 0; -127; -127; -127; -127; -127; -127; -127; 485;
   6; -3; 6; -3; 6; -3; 6; -3; 6; -3; 6; -3; 6; -3; 6; -3;
   6; -3; 6; -3; 6; -3; 6; -3; 6; -3; 6; -3; 6; -3; 6; -3;
   6; -3; 6; -3; 6; -3; 6; -3; 6; -3; 6; -3; 6; -3; 6; -3;
   -794; -927; 6; -3; 6; -3; 6; -3; 0; 6; -3; 6; -3; 6; -3; 6;
   -3; 6; -3; 6; -3; 6; -3; 6; -3; 0; 6; -3; 6; -3; 6; -3;
   6; -3; 6; -3; 6; -3; 6; -3; 6; -3; 6; -3; 6; -3; 6; -3;
   6; -3; 6; -3; 6; -3; 6; -3; 6; -3; 6; -3; 6; -3; 6; -3;
   6; -3; 6; -3; 6; -3; 6; -3; -482; 6; -3; 6; -3; 6; -3; -1199;
   781; 842; 6; -3; 6; -3; 826; 6; -3; 822; 822; 6; -3; 0; 318; 810;
   814; 6; -3; 822; 830; 389; 846; 838; 6; -3; 653; 0; 846; 854; 521; 858;
   6; -3; 6; -3; 6; -3; 874; 6; -3; 874; 0; 0; 6; -3; 874; 6;
   -3; 870; 870; 6; -3; 6; -3; 878; 6; -3; 0; 0; 6; -3; 0; 225;
   0; 0; 0; 0; 10; 3; -7; 10; 7; -7; 10; 11; -7; 6; -3; 6;
   -3; 6; -3; 6; -3; 6; -3; 6; -3; 6; -3; 6; -3; -315; 6; -3;
   6; -3; 6; -3; 6; -3; 6; -3; 6; -3; 6; -3; 6; -3; 6; -3;
   0; 10; 15; -7; 6; -3; -386; -222; 6; -3; 6; -3; 6; -3; 6; -3;
   6; -3; 6; -3; 6; -3; 6; -3; 6; -3; 6; -3; 6; -3; 6; -3;
   6; -3; 6; -3; 6; -3; 6; -3; 6; -3; 6; -3; 6; -3; 6; -3;
   -518; 0; 6; -3; 6; -3; 6; -3; 6; -3; 6; -3; 6; -3; 6; -3;
   6; -3; 6; -3; 0; 0; 0; 0; 0; 0; 19; 6; -3; -650; 23; 0;
   0; 6; -3; -778; 278; 286; 6; -3; 6; -3; 6; -3; 6; -3; 6; -3;
   27; 31; 0; -839; -823; 0; -819; -819; 0; -807; 0; -811; 0; 0; 0; 0;
   -819; 0; 0; -827; 0; 0; 0; 0; -835; -843; 0; 35; 0; 0; 0; -843;
   0; 39; -851; 0; 0; -855; 0; 0; 0; 0; 0; 0; 0; 43; 0; 0;
   -871; 0; 0; -871; 0; 0; 0; 0; -871; -275; -867; -867; -283; 0; 0; 0;
   0; 0; -875; 0; 0; 0; 0; 0; 0; 0; 0; 0; 0; 0; 0; 0;
   0; 0; 0; 0; 0; 0; 0; 0; 0; 0; 0; 0; 0; 0; 0; 0;
   0; 0; 0; 0; 0; 0; 0; 0; 0; 0; 0; 0; 0; 0; 0; 0;
   0; 0; 0; 0; 0; 0; 0; 0; 0; 0; 0; 0; 0; 0; 0; 0;
   0; 0; 0; 0; 0; 0; 0; 0; 0; 0; 0; 0; 0; 0; 0; 0;
   0; 0; 0; 0; 0; 0; 0; 0; 0; 0; 0; 0; 0; 0; 0; 0;
   0; 0; 0; 0; 0; 0; 0; 0; 0; 0; 0; 0; 0; 0; 0; 0;
   0; 0; 0; 0; 0; 0; 0; 0; 0; 0; 0; 0; 0; 0; 0; 0;
   0; 0; 0; 0; 0; 0; 0; 0; 0; 0; 0; 0; 0; 0; 0; 0;
   0; 0; 0; 0; 0; 0; 0; 0; 0; 0; 0; 0; 0; 0; 0; 0;
   0; 0; 0; 0; 0; 0; 0; 0; 0; 0; 0; 0; 0; 0; 0; 0;
   0; 0; 0; 0; 0; 337; 0; 0; 0; 0; 0; 0; 0; 0; 0; 0;
   0; 0; 0; 0; 0; 0; 0; 0; 0; 0; 0; 0; 0; 0; 0; 0;
   0; 0; 0; 0; 0; 0; 0; 0; 0; 0; 0; 0; 0; 0; 0; 0;
   6; -3; 6; -3; 0; 0; 6; -3; 0; 0; 0; 521; 521; 521; 0; 0;
   0; 0; 0; 0; 0; 0; 154; 0; 150; 150; 150; 0; 258; 0; 254; 254;
   0; 130; 130; 130; 130; 130; 130; 130; 130; 130; 130; 130; 130; 130; 130; 130;
   130; 130; 0; 130; 130; 130; 130; 130; 130; 130; 130; 130; -151; -147; -147; -147;
   0; -127; -127; -127; -127; -127; -127; -127; -127; -127; -127; -127; -127; -127; -127; -127;
   -127; -127; -123; -127; -127; -127; -127; -127; -127; -127; -127; -127; -255; -251; -251; 34;
   -247; -227; 0; 0; 0; -187; -215; -31; 6; -3; 6; -3; 6; -3; 6; -3;
   6; -3; 6; -3; 6; -3; 6; -3; 6; -3; 6; -3; 6; -3; 6; -3;
   -343; -319; 29; 0; -238; -383; 0; 6; -3; -26; 6; -3; 0; -518; -518; -518;
   322; 322; 322; 322; 322; 322; 322; 322; 322; 322; 322; 322; 322; 322; 322; 322;
   130; 130; 130; 130; 130; 130; 130; 130; 130; 130; 130; 130; 130; 130; 130; 130;
   130; 130; 130; 130; 130; 130; 130; 130; 130; 130; 130; 130; 130; 130; 130; 130;
   -127; -127; -127; -127; -127; -127; -127; -127; -127; -127; -127; -127; -127; -127; -127; -127;
   -127; -127; -127; -127; -127; -127; -127; -127; -127; -127; -127; -127; -127; -127; -127; -127;
   -319; -319; -319; -319; -319; -319; -319; -319; -319; -319; -319; -319; -319; -319; -319; -319;
   6; -3; 6; -3; 6; -3; 6; -3; 6; -3; 6; -3; 6; -3; 6; -3;
   6; -3; 6; -3; 6; -3; 6; -3; 6; -3; 6; -3; 6; -3; 6; -3;
   6; -3; 0; 0; 0; 0; 0; 0; 0; 0; 6; -3; 6; -3; 6; -3;
   6; -3; 6; -3; 6; -3; 6; -3; 6; -3; 6; -3; 6; -3; 6; -3;
   6; -3; 6; -3; 6; -3; 6; -3; 6; -3; 6; -3; 6; -3; 6; -3;
   6; -3; 6; -3; 6; -3; 6; -3; 6; -3; 6; -3; 6; -3; 6; -3;
   62; 6; -3; 6; -3; 6; -3; 6; -3; 6; -3; 6; -3; 6; -3; -59;
   6; -3; 6; -3; 6; -3; 6; -3; 6; -3; 6; -3; 6; -3; 6; -3;
   6; -3; 6; -3; 6; -3; 6; -3; 6; -3; 6; -3; 6; -3; 6; -3;
   6; -3; 6; -3; 6; -3; 6; -3; 6; -3; 6; -3; 6; -3; 6; -3;
   6; -3; 6; -3; 6; -3; 6; -3; 6; -3; 6; -3; 6; -3; 6; -3;
   6; -3; 6; -3; 6; -3; 6; -3; 6; -3; 6; -3; 6; -3; 6; -3;
   6; -3; 6; -3; 0; 0; 0; 0; 0; 0; 0; 0; 0; 0; 0; 0;
   0; 194; 194; 194; 194; 194; 194; 194; 194; 194; 194; 194; 194; 194; 194; 194;
   194; 194; 194; 194; 194; 194; 194; 194; 194; 194; 194; 194; 194; 194; 194; 194;
   194; 194; 194; 194; 194; 194; 194; 0; 0; 0; 0; 0; 0; 0; 0; 0;
   0; -191; -191; -191; -191; -191; -191; -191; -191; -191; -191; -191; -191; -191; -191; -191;
   -191; -191; -191; -191; -191; -191; -191; -191; -191; -191; -191; -191; -191; -191; -191; -191;
   -191; -191; -191; -191; -191; -191; -191; 0; 0; 0; 0; 0; 0; 0; 0; 0;
   0; 0; 0; 0; 0; 0; 0; 0; 0; 0; 0; 0; 0; 0; 0; 0;
   0; 0; 0; 0; 0; 0; 0; 0; 0; 0; 0; 0; 0; 0; 0; 0;
   0; 0; 0; 0; 0; 0; 0; 0; 0; 0; 0; 0; 0; 0; 0; 0;
   0; 0; 0; 0; 0; 0; 0; 0; 0; 0; 0; 0; 0; 0; 0; 0;
   0; 0; 0; 0; 0; 0; 0; 0; 0; 0; 0; 0; 0; 0; 0; 0;
   0; 0; 0; 0; 0; 0; 0; 0; 0; 0; 0; 0; 0; 0; 0; 0;
   0; 0; 0; 0; 0; 0; 0; 0; 0; 0; 0; 0; 0; 0; 0; 0;
   0; 0; 0; 0; 0; 0; 0; 0; 0; 0; 0; 0; 0; 0; 0; 0;
   0; 0; 0; 0; 0; 0; 0; 0; 0; 0; 0; 0; 0; 0; 0; 0;
   0; 0; 0; 0; 0; 0; 0; 0; 0; 0; 0; 0; 0; 0; 0; 0;
   0; 0; 0; 0; 0; 0; 0; 0; 0; 0; 0; 0; 0; 0; 0; 0;
   0; 0; 0; 0; 0; 0; 0; 0; 0; 0; 0; 0; 0; 0; 0; 0;
   0; 0; 0; 0; 0; 0; 0; 0; 0; 0; 0; 0; 0; 0; 0; 0;
   0; 0; 0; 0; 0; 0; 0; 0; 0; 0; 0; 0; 0; 0; 0; 0;
   0; 0; 0; 0; 0; 0; 0; 0; 0; 0; 0; 0; 0; 0; 0; 0;
   0; 0; 0; 0; 0; 0; 0; 0; 0; 0; 0; 0; 0; 0; 0; 0;
   0; 0; 0; 0; 0; 0; 0; 0; 0; 0; 0; 0; 0; 0; 0; 0;
   0; 0; 0; 0; 0; 0; 0; 0; 0; 0; 0; 0; 0; 0; 0; 0;
   0; 0; 0; 0; 0; 0; 0; 0; 0; 0; 0; 0; 0; 0; 0; 0;
   0; 0; 0; 0; 0; 0; 0; 0; 0; 0; 0; 0; 0; 0; 0; 0;
   0; 0; 0; 0; 0; 0; 0; 0; 0; 0; 0; 0; 0; 0; 0; 0;
   0; 0; 0; 0; 0; 0; 0; 0; 0; 0; 0; 0; 0; 0; 0; 0;
   0; 0; 0; 0; 0; 0; 0; 0; 0; 0; 0; 0; 0; 0; 0; 0;
   0; 0; 0; 0; 0; 0; 0; 0; 0; 0; 0; 0; 0; 0; 0; 0;
   0; 0; 0; 0; 0; 0; 0; 0; 0; 0; 0; 0; 0; 0; 0; 0;
   0; 0; 0; 0; 0; 0; 0; 0; 0; 0; 0; 0; 0; 0; 0; 0;
   0; 0; 0; 0; 0; 0; 0; 0; 0; 0; 0; 0; 0; 0; 0; 0;
   0; 0; 0; 0; 0; 0; 0; 0; 0; 0; 0; 0; 0; 0; 0; 0;
   0; 0; 0; 0; 0; 0; 0; 0; 0; 0; 0; 0; 0; 0; 0; 0;
   0; 0; 0; 0; 0; 0; 0; 0; 0; 0; 0; 0; 0; 0; 0; 0;
   0; 0; 0; 0; 0; 0; 0; 0; 0; 0; 0; 0; 0; 0; 0; 0;
   0; 0; 0; 0; 0; 0; 0; 0; 0; 0; 0; 0; 0; 0; 0; 0;
   0; 0; 0; 0; 0; 0; 0; 0; 0; 0; 0; 0; 0; 0; 0; 0;
   29058; 29058; 29058; 29058; 29058; 29058; 29058; 29058; 29058; 29058; 29058; 29058; 29058; 29058; 29058; 29058;
   29058; 29058; 29058; 29058; 29058; 29058; 29058; 29058; 29058; 29058; 29058; 29058; 29058; 29058; 29058; 29058;
   29058; 29058; 29058; 29058; 29058; 29058; 0; 0; 0; 0; 0; 0; 0; 0; 0; 0;
   0; 0; 0; 0; 0; 0; 0; 0; 0; 0; 0; 0; 0; 0; 0; 0;
   0; 0; 0; 0; 0; 0; 0; 0; 0; 0; 0; 0; 0; 0; 0; 0;
   0; 0; 0; 0; 0; 0; 0; 0; 0; 0; 0; 0; 0; 0; 0; 0;
   0; 0; 0; 0; 0; 0; 0; 0; 0; 0; 0; 0; 0; 0; 0; 0;
   0; 0; 0; 0; 0; 0; 0; 0; 0; 0; 0; 0; 0; 0; 0; 0;
   0; 0; 0; 0; 0; 0; 0; 0; 0; 0; 0; 0; 0; 0; 0; 0;
   0; 0; 0; 0; 0; 0; 0; 0; 0; 0; 0; 0; 0; 0; 0; 0;
   0; 0; 0; 0; 0; 0; 0; 0; 0; 0; 0; 0; 0; 0; 0; 0;
   0; 0; 0; 0; 0; 0; 0; 0; 0; 0; 0; 0; 0; 0; 0; 0;
   0; 0; 0; 0; 0; 0; 0; 0; 0; 0; 0; 0; 0; 0; 0; 0;
   0; 0; 0; 0; 0; 0; 0; 0; 0; 47; 0; 0; 0; 15257; 0; 0;
   0; 0; 0; 0; 0; 0; 0; 0; 0; 0; 0; 0; 0; 0; 0; 0;
   0; 0; 0; 0; 0; 0; 0; 0; 0; 0; 0; 0; 0; 0; 0; 0;
   0; 0; 0; 0; 0; 0; 0; 0; 0; 0; 0; 0; 0; 0; 0; 0;
   0; 0; 0; 0; 0; 0; 0; 0; 0; 0; 0; 0; 0; 0; 0; 0;
   0; 0; 0; 0; 0; 0; 0; 0; 0; 0; 0; 0; 0; 0; 0; 0;
   0; 0; 0; 0; 0; 0; 0; 0; 0; 0; 0; 0; 0; 0; 0; 0;
   0; 0; 0; 0; 0; 0; 0; 0; 0; 0; 0; 0; 0; 0; 0; 0;
   0; 0; 0; 0; 0; 0; 0; 0; 0; 0; 0; 0; 0; 0; 0; 0;
   6; -3; 6; -3; 6; -3; 6; -3; 6; -3; 6; -3; 6; -3; 6; -3;
   6; -3; 6; -3; 6; -3; 6; -3; 6; -3; 6; -3; 6; -3; 6; -3;
   6; -3; 6; -3; 6; -3; 6; -3; 6; -3; 6; -3; 6; -3; 6; -3;
   6; -3; 6; -3; 6; -3; 6; -3; 6; -3; 6; -3; 6; -3; 6; -3;
   6; -3; 6; -3; 6; -3; 6; -3; 6; -3; 6; -3; 6; -3; 6; -3;
   6; -3; 6; -3; 6; -3; 6; -3; 6; -3; 6; -3; 6; -3; 6; -3;
   6; -3; 6; -3; 6; -3; 6; -3; 6; -3; 6; -3; 6; -3; 6; -3;
   6; -3; 6; -3; 6; -3; 6; -3; 6; -3; 6; -3; 6; -3; 6; -3;
   6; -3; 6; -3; 6; -3; 6; -3; 6; -3; 6; -3; 6; -3; 6; -3;
   6; -3; 6; -3; 6; -3; 0; 0; 0; 0; 0; -235; 0; 0; -30458; 0;
   6; -3; 6; -3; 6; -3; 6; -3; 6; -3; 6; -3; 6; -3; 6; -3;
   6; -3; 6; -3; 6; -3; 6; -3; 6; -3; 6; -3; 6; -3; 6; -3;
   6; -3; 6; -3; 6; -3; 6; -3; 6; -3; 6; -3; 6; -3; 6; -3;
   6; -3; 6; -3; 6; -3; 6; -3; 6; -3; 6; -3; 6; -3; 6; -3;
   6; -3; 6; -3; 6; -3; 6; -3; 6; -3; 6; -3; 6; -3; 6; -3;
   6; -3; 6; -3; 6; -3; 6; -3; 6; -3; 6; -3; 6; -3; 6; -3;
   33; 33; 33; 33; 33; 33; 33; 33; -30; -30; -30; -30; -30; -30; -30; -30;
   33; 33; 33; 33; 33; 33; 0; 0; -30; -30; -30; -30; -30; -30; 0; 0;
   33; 33; 33; 33; 33; 33; 33; 33; -30; -30; -30; -30; -30; -30; -30; -30;
   33; 33; 33; 33; 33; 33; 33; 33; -30; -30; -30; -30; -30; -30; -30; -30;
   33; 33; 33; 33; 33; 33; 0; 0; -30; -30; -30; -30; -30; -30; 0; 0;
   0; 33; 0; 33; 0; 33; 0; 33; 0; -30; 0; -30; 0; -30; 0; -30;
   33; 33; 33; 33; 33; 33; 33; 33; -30; -30; -30; -30; -30; -30; -30; -30;
   297; 297; 345; 345; 345; 345; 401; 401; 513; 513; 449; 449; 505; 505; 0; 0;
   33; 33; 33; 33; 33; 33; 33; 33; -30; -30; -30; -30; -30; -30; -30; -30;
   33; 33; 33; 33; 33; 33; 33; 33; -30; -30; -30; -30; -30; -30; -30; -30;
   33; 33; 33; 33; 33; 33; 33; 33; -30; -30; -30; -30; -30; -30; -30; -30;
   33; 33; 0; 37; 0; 0; 0; 0; -30; -30; -294; -294; -34; 0; -28819; 0;
   0; 0; 0; 37; 0; 0; 0; 0; -342; -342; -342; -342; -34; 0; 0; 0;
   33; 33; 0; 0; 0; 0; 0; 0; -30; -30; -398; -398; 0; 0; 0; 0;
   33; 33; 0; 0; 0; 29; 0; 0; -30; -30; -446; -446; -26; 0; 0; 0;
   0; 0; 0; 37; 0; 0; 0; 0; -510; -510; -502; -502; -34; 0; 0; 0;
   0; 0; 0; 0; 0; 0; 0; 0; 0; 0; 0; 0; 0; 0; 0; 0;
   0; 0; 0; 0; 0; 0; 0; 0; 0; 0; 0; 0; 0; 0; 0; 0;
   0; 0; 0; 0; 0; 0; -30066; 0; 0; 0; 51; 55; 0; 0; 0; 0;
   0; 0; 114; 0; 0; 0; 0; 0; 0; 0; 0; 0; 0; 0; 0; 0;
   0; 0; 0; 0; 0; 0; 0; 0; 0; 0; 0; 0; 0; 0; -111; 0;
   0; 0; 0; 0; 0; 0; 0; 0; 0; 0; 0; 0; 0; 0; 0; 0;
   66; 66; 66; 66; 66; 66; 66; 66; 66; 66; 66; 66; 66; 66; 66; 66;
   -63; -63; -63; -63; -63; -63; -63; -63; -63; -63; -63; -63; -63; -63; -63; -63;
   0; 0; 0; 6; -3; 0; 0; 0; 0; 0; 0; 0; 0; 0; 0; 0;
   0; 0; 0; 0; 0; 0; 0; 0; 0; 0; 0; 0; 0; 0; 0; 0;
   0; 0; 0; 0; 0; 0; 0; 0; 0; 0; 0; 0; 0; 0; 0; 0;
   0; 0; 0; 0; 0; 0; 0; 0; 0; 0; 0; 0; 0; 0; 0; 0;
   0; 0; 0; 0; 0; 0; 0; 0; 0; 0; 0; 0; 0; 0; 0; 0;
   0; 0; 0; 0; 0; 0; 0; 0; 0; 0; 0; 0; 0; 0; 0; 0;
   0; 0; 0; 0; 0; 0; 0; 0; 0; 0; 0; 0; 0; 0; 0; 0;
   0; 0; 0; 0; 0; 0; 0; 0; 0; 0; 0; 0; 0; 0; 0; 0;
   0; 0; 0; 0; 0; 0; 0; 0; 0; 0; 0; 0; 0; 0; 0; 0;
   0; 0; 0; 0; 0; 0; 0; 0; 0; 0; 0; 0; 0; 0; 0; 0;
   0; 0; 0; 0; 0; 0; 0; 0; 0; 0; 0; 0; 0; 0; 0; 0;
   0; 0; 0; 0; 0; 0; 0; 0; 0; 0; 0; 0; 0; 0; 0; 0;
   0; 0; 0; 0; 0; 0; 0; 0; 0; 0; 0; 0; 0; 0; 0; 0;
   0; 0; 0; 0; 0; 0; 0; 0; 0; 0; 0; 0; 0; 0; 0; 0;
   0; 0; 0; 0; 0; 0; 0; 0; 0; 0; 0; 0; 0; 0; 0; 0;
   0; 0; 0; 0; 0; 0; 0; 0; 0; 0; 0; 0; 0; 0; 0; 0;
   0; 0; 0; 0; 0; 0; 0; 0; 0; 0; 0; 0; 0; 0; 0; 0;
   0; 0; 0; 0; 0; 0; 0; 0; 0; 0; 0; 0; 0; 0; 0; 0;
   0; 0; 0; 0; 0; 0; 0; 0; 0; 0; 0; 0; 0; 0; 0; 0;
   0; 0; 0; 0; 0; 0; 106; 106; 106; 106; 106; 106; 106; 106; 106; 106;
   106; 106; 106; 106; 106; 106; 106; 106; 106; 106; 106; 106; 106; 106; 106; 106;
   -103; -103; -103; -103; -103; -103; -103; -103; -103; -103; -103; -103; -103; -103; -103; -103;
   -103; -103; -103; -103; -103; -103; -103; -103; -103; -103; 0; 0; 0; 0; 0; 0;
   0; 0; 0; 0; 0; 0; 0; 0; 0; 0; 0; 0; 0; 0; 0; 0;
   194; 194; 194; 194; 194; 194; 194; 194; 194; 194; 194; 194; 194; 194; 194; 194;
   194; 194; 194; 194; 194; 194; 194; 194; 194; 194; 194; 194; 194; 194; 194; 194;
   194; 194; 194; 194; 194; 194; 194; 194; 194; 194; 194; 194; 194; 194; 194; 0;
   -191; -191; -191; -191; -191; -191; -191; -191; -191; -191; -191; -191; -191; -191; -191; -191;
   -191; -191; -191; -191; -191; -191; -191; -191; -191; -191; -191; -191; -191; -191; -191; -191;
   -191; -191; -191; -191; -191; -191; -191; -191; -191; -191; -191; -191; -191; -191; -191; 0;
   6; -3; 59; -15254; 63; 67; 71; 6; -3; 6; -3; 6; -3; 75; 79; 83;
   0; 0; 6; -3; 0; 6; -3; 0; 0; 0; 0; 0; 0; 0; 0; 0;
   6; -3; 6; -3; 6; -3; 6; -3; 6; -3; 6; -3; 6; -3; 6; -3;
   6; -3; 6; -3; 6; -3; 6; -3; 6; -3; 6; -3; 6; -3; 6; -3;
   6; -3; 6; -3; 6; -3; 6; -3; 6; -3; 6; -3; 6; -3; 6; -3;
   6; -3; 6; -3; 6; -3; 6; -3; 6; -3; 6; -3; 6; -3; 6; -3;
   6; -3; 6; -3; 6; -3; 6; -3; 6; -3; 6; -3; 6; -3; 6; -3;
   6; -3; 6; -3; 6; -3; 6; -3; 6; -3; 6; -3; 6; -3; 6; -3;
   6; -3; 6; -3; 0; 0; 0; 0; 0; 0; 0; 0; 0; 0; 0; 0;
   0; 0; 0; 0; 0; 0; 0; 0; 0; 0; 0; 0; 0; 0; 0; 0;
   -29055; -29055; -29055; -29055; -29055; -29055; -29055; -29055; -29055; -29055; -29055; -29055; -29055; -29055; -29055; -29055;
   -29055; -29055; -29055; -29055; -29055; -29055; -29055; -29055; -29055; -29055; -29055; -29055; -29055; -29055; -29055; -29055;
   -29055; -29055; -29055; -29055; -29055; -29055; 0; 0; 0; 0; 0; 0; 0; 0; 0; 0;
   0; 0; 0; 0; 0; 0; 0; 0; 0; 0; 0; 0; 0; 0; 0; 0;
   0; 0; 0; 0; 0; 0; 0; 0; 0; 0; 0; 0; 0; 0; 0; 0;
   0; 0; 0; 0; 0; 0; 0; 0; 0; 0; 0; 0; 0; 0; 0; 0;
   0; 0; 0; 0; 0; 0; 0; 0; 0; 0; 0; 0; 0; 0; 0; 0;
   0; 0; 0; 0; 0; 0; 0; 0; 0; 0; 0; 0; 0; 0; 0; 0;
   0; 0; 0; 0; 0; 0; 0; 0; 0; 0; 0; 0; 0; 0; 0; 0;
   0; 0; 0; 0; 0; 0; 0; 0; 0; 0; 0; 0; 0; 0; 0; 0;
   0; 0; 0; 0; 0; 0; 0; 0; 0; 0; 0; 0; 0; 0; 0; 0;
   0; 0; 0; 0; 0; 0; 0; 0; 0; 0; 0; 0; 0; 0; 0; 0;
   0; 0; 0; 0; 0; 0; 0; 0; 0; 0; 0; 0; 0; 0; 0; 0;
   0; 0; 0; 0; 0; 0; 0; 0; 0; 0; 0; 0; 0; 0; 0; 0;
   0; 0; 0; 0; 0; 0; 0; 0; 0; 0; 0; 0; 0; 0; 0; 0;
   0; 0; 0; 0; 0; 0; 0; 0; 0; 0; 0; 0; 0; 0; 0; 0;
   0; 0; 0; 0; 0; 0; 0; 0; 0; 0; 0; 0; 0; 0; 0; 0;
   0; 0; 0; 0; 0; 0; 0; 0; 0; 0; 0; 0; 0; 0; 0; 0;
   0; 0; 0; 0; 0; 0; 0; 0; 0; 0; 0; 0; 0; 0; 0; 0;
   0; 0; 0; 0; 0; 0; 0; 0; 0; 0; 0; 0; 0; 0; 0; 0;
   6; -3; 6; -3; 6; -3; 6; -3; 6; -3; 6; -3; 6; -3; 6; -3;
   6; -3; 6; -3; 6; -3; 6; -3; 6; -3; 6; -3; 6; -3; 6; -3;
   0; 0; 6; -3; 6; -3; 6; -3; 6; -3; 6; -3; 6; -3; 0; 0;
   0; 0; 0; 0; 0; 0; 0; 0; 0; 0; 0; 0; 0; 0; 0; 0;
   6; -3; 6; -3; 6; -3; 6; -3; 6; -3; 6; -3; 6; -3; 6; -3;
   6; -3; 6; -3; 6; -3; 6; -3; 0; 0; 0; 0; 0; 0; 0; 0;
   0; 0; 0; 0; 0; 0; 0; 0; 0; 0; 0; 0; 0; 0; 0; 0;
   0; 0; 0; 0; 0; 0; 0; 0; 0; 0; 0; 0; 0; 0; 0; 0;
   0; 0; 0; 0; 0; 0; 0; 0; 0; 0; 0; 0; 0; 0; 0; 0;
   0; 0; 0; 0; 0; 0; 0; 0; 0; 0; 0; 0; 0; 0; 0; 0;
   0; 0; 0; 0; 0; 0; 0; 0; 0; 0; 0; 0; 0; 0; 0; 0;
   0; 0; 0; 0; 0; 0; 0; 0; 0; 0; 0; 0; 0; 0; 0; 0;
   0; 0; 0; 0; 0; 0; 0; 0; 0; 0; 0; 0; 0; 0; 0; 0;
   0; 0; 0; 0; 0; 0; 0; 0; 0; 0; 0; 0; 0; 0; 0; 0;
   0; 0; 6; -3; 6; -3; 6; -3; 6; -3; 6; -3; 6; -3; 6; -3;
   0; 0; 6; -3; 6; -3; 6; -3; 6; -3; 6; -3; 6; -3; 6; -3;
   6; -3; 6; -3; 6; -3; 6; -3; 6; -3; 6; -3; 6; -3; 6; -3;
   6; -3; 6; -3; 6; -3; 6; -3; 6; -3; 6; -3; 6; -3; 6; -3;
   6; -3; 6; -3; 6; -3; 6; -3; 6; -3; 6; -3; 6; -3; 6; -3;
   0; 0; 0; 0; 0; 0; 0; 0; 0; 6; -3; 6; -3; 87; 6; -3;
   6; -3; 6; -3; 6; -3; 6; -3; 0; 0; 0; 6; -3; 0; 0; 0;
   0; 0; 0; 0; 0; 0; 0; 0; 0; 0; 0; 0; 0; 0; 0; 0;
   0; 0; 0; 0; 0; 0; 0; 0; 0; 0; 0; 0; 0; 0; 0; 0;
   0; 0; 0; 0; 0; 0; 0; 0; 0; 0; 0; 0; 0; 0; 0; 0;
   0; 0; 0; 0; 0; 0; 0; 0; 0; 0; 0; 0; 0; 0; 0; 0;
   0; 0; 0; 0; 0; 0; 0; 0; 0; 0; 0; 0; 0; 0; 0; 0;
   0; 0; 0; 0; 0; 0; 0; 0; 0; 0; 0; 0; 0; 0; 0; 0;
   0; 0; 0; 0; 0; 0; 0; 0; 0; 0; 0; 0; 0; 0; 0; 0;
   0; 0; 0; 0; 0; 0; 0; 0; 0; 0; 0; 0; 0; 0; 0; 0;
   0; 0; 0; 0; 0; 0; 0; 0; 0; 0; 0; 0; 0; 0; 0; 0;
   0; 130; 130; 130; 130; 130; 130; 130; 130; 130; 130; 130; 130; 130; 130; 130;
   130; 130; 130; 130; 130; 130; 130; 130; 130; 130; 130; 0; 0; 0; 0; 0;
   0; -127; -127; -127; -127; -127; -127; -127; -127; -127; -127; -127; -127; -127; -127; -127;
   -127; -127; -127; -127; -127; -127; -127; -127; -127; -127; -127; 0; 0; 0; 0; 0;
   0; 0; 0; 0; 0; 0; 0; 0; 0; 0; 0; 0; 0; 0; 0; 0;
   0; 0; 0; 0; 0; 0; 0; 0; 0; 0; 0; 0; 0; 0; 0; 0;
   0; 0; 0; 0; 0; 0; 0; 0; 0; 0; 0; 0; 0; 0; 0; 0;
   0; 0; 0; 0; 0; 0; 0; 0; 0; 0; 0; 0; 0; 0; 0; 0;
   0; 0; 0; 0; 0; 0; 0; 0; 0; 0; 0; 0; 0; 0; 0; 0;
   0; 0; 0; 0; 0; 0; 0; 0; 0; 0; 0; 0; 0; 0; 0; 0;
   0; 0; 0; 0; 0; 0; 0; 0; 0; 0; 0; 0; 0; 0; 0; 0;
   0; 0; 0; 0; 0; 0; 0; 0; 0; 0; 0; 0; 0; 0; 0; 0;
   0; 0; 0; 0; 0; 0; 0; 0; 0; 0; 0; 0; 0; 0; 0; 0;
   0; 0; 0; 0; 0; 0; 0; 0; 0; 0; 0; 0; 0; 0; 0; 0;
   162; 162; 162; 162; 162; 162; 162; 162; 162; 162; 162; 162; 162; 162; 162; 162;
   162; 162; 162; 162; 162; 162; 162; 162; 162; 162; 162; 162; 162; 162; 162; 162;
   162; 162; 162; 162; 162; 162; 162; 162; -159; -159; -159; -159; -159; -159; -159; -159;
   -159; -159; -159; -159; -159; -159; -159; -159; -159; -159; -159; -159; -159; -159; -159; -159;
   -159; -159; -159; -159; -159; -159; -159; -159; -159; -159; -159; -159; -159; -159; -159; -159;
   0; 0; 0; 0; 0; 0; 0; 0; 0; 0; 0; 0; 0; 0; 0; 0;
   0; 0; 0; 0; 0; 0; 0; 0; 0; 0; 0; 0; 0; 0; 0; 0;
   0; 0; 0; 0; 0; 0; 0; 0; 0; 0; 0; 0; 0; 0; 0; 0;
   0; 0; 0; 0; 0; 0; 0; 0; 0; 0; 0; 0; 0; 0; 0; 0;
   0; 0; 0; 0; 0; 0; 0; 0; 0; 0; 0; 0; 0; 0; 0; 0;
   0; 0; 0; 0; 0; 0; 0; 0; 0; 0; 0; 0; 0; 0; 0; 0;
   0; 0; 0; 0; 0; 0; 0; 0; 0; 0; 0; 0; 0; 0; 0; 0;
   0; 0; 0; 0; 0; 0; 0; 0; 0; 0; 0; 0; 0; 0; 0; 0;
   0; 0; 0; 0; 0; 0; 0; 0; 0; 0; 0; 0; 0; 0; 0; 0;
   0; 0; 0; 0; 0; 0; 0; 0; 0; 0; 0; 0; 0; 0; 0; 0;
   0; 0; 0; 0; 0; 0; 0; 0; 0; 0; 0; 0; 0; 0; 0; 0].

Definition stage2_exception_ : list (Z * Z) :=
  [(-1, 1);
   (-1, 1);
   (-1, 1);
   (-1, 1);
   (0, 10795);
   (0, 10792);
   (10783, 0);
   (10780, 0);
   (10743, 0);
   (10749, 0);
   (10727, 0);
   (35332, 0);
   (0, -8383);
   (0, -8262);
   (0, -10743);
   (0, -10727);
   (-10795, 0);
   (-10792, 0);
   (0, -10780);
   (0, -10749);
   (0, -10783);
   (0, -35332)].

Definition kUppercase : Z := 1.
Definition kLowercase : Z := 2.
Definition kException : Z := 3.
Definition kTypeShift : Z := 2.
Definition kTypeMask : Z := 3.
Definition kStage1Size : Z := 261.
Definition kBlockSizeLog2 : Z := 8.
Definition kBlockSize : Z := 1 <<< kBlockSizeLog2.

(** [stage2_exception_[i][k]] *)
Definition exception_at (i k : Z) : M Z :=
  if i <? 0 then Err OutOfBounds else
  match stage2_exception_ !! Z.to_nat i with
  | Some (upper, lower) => if k =? 0 then Ok upper else if k =? 1 then Ok lower else Err OutOfBounds
  | None => Err OutOfBounds
  end.

Definition Convert (ch mapping : Z) : M Z :=
  if IsLatin1 ch then
    info ← at_ stage2_ ch;
    if info .& kTypeMask =? mapping then Ok (s32 (ch + (info >>> kTypeShift))) else Ok ch
  else if ch <=? (kStage1Size <<< kBlockSizeLog2) then
    block ← at_ stage1_ (ch >>> kBlockSizeLog2);
    let offset := s16 (block <<< kBlockSizeLog2) in
    info ← at_ stage2_ (offset + (ch .& (kBlockSize - 1)));
    let type := info .& kTypeMask in
    if type =? mapping then Ok (s32 (ch + (info >>> kTypeShift)))
    else if type =? kException then
      delta ← exception_at (info >>> kTypeShift) (mapping - 1);
      Ok (s32 (ch + delta))
    else Ok ch
  else Ok ch.

Definition ToUpper (code_point : Z) : M Z := Convert code_point kUppercase.
Definition ToLower (code_point : Z) : M Z := Convert code_point kLowercase.

(** ** Proofs *)

(** What [Convert] does with the entry [info] of [ch]. *)
Definition convert_info (mapping ch info : Z) : M Z :=
  let type := info .& kTypeMask in
  if type =? mapping then Ok (s32 (ch + (info >>> kTypeShift)))
  else if type =? kException then
    delta ← exception_at (info >>> kTypeShift) (mapping - 1);
    Ok (s32 (ch + delta))
  else Ok ch.

(** The result for an entry is a code point that the mapping does not change. *)
Definition stable (mapping ch info : Z) : bool :=
  if info =? 0 then true else
  match convert_info mapping ch info with
  | Ok r =>
      (r =? ch) ||
      match Convert r mapping with
      | Ok r' => (r' =? r) && (0 <=? r) && (r <? kStage1Size <<< kBlockSizeLog2)
      | Err _ => false
      end
  | Err _ => false
  end.

(** All entries of the block of [stage2_] that starts at [off], for the code points from [ch] on. *)
Fixpoint stable_block (mapping ch : Z) (infos : list Z) (n : nat) : bool :=
  match n, infos with
  | S n, info :: infos => stable mapping ch info && stable_block mapping (ch + 1) infos n
  | O, _ => true
  | _, [] => false
  end.

Fixpoint stable_from (mapping ch : Z) (blocks : list Z) : bool :=
  match blocks with
  | [] => true
  | b :: blocks =>
      (0 <=? b) && (b <? 128) && stable_block mapping ch (drop (256 * Z.to_nat b) stage2_) 256 &&
      stable_from mapping (ch + 256) blocks
  end.

Lemma tables_stable : stable_from kUppercase 0 stage1_ && stable_from kLowercase 0 stage1_ = true.
Proof. vm_compute. reflexivity. Qed.

(** The Latin-1 branch does not look for exceptions: its block has none. *)
Lemma latin1_no_exceptions : forallb (fun info => negb (info .& kTypeMask =? kException)) (take 256 stage2_) = true.
Proof. vm_compute. reflexivity. Qed.

Lemma stable_block_lookup mapping ch infos n k :
  stable_block mapping ch infos n = true -> (k < n)%nat ->
  exists info, infos !! k = Some info /\ stable mapping (ch + Z.of_nat k) info = true.
Proof.
  revert ch infos k. induction n as [|n IH]; intros ch infos k; [lia|]. destruct infos as [|info infos]; [done|].
  cbn [stable_block]. intros [H1 H2]%andb_true_iff Hk. destruct k as [|k].
  - exists info. split; [done|]. by rewrite Z.add_0_r.
  - destruct (IH _ _ k H2 ltac:(lia)) as (info'&E&Hs). exists info'. split; [done|].
    by replace (ch + Z.of_nat (S k)) with (ch + 1 + Z.of_nat k) by lia.
Qed.

Lemma stable_from_lookup mapping ch blocks i k :
  stable_from mapping ch blocks = true -> (i < length blocks)%nat -> (k < 256)%nat ->
  exists b info, blocks !! i = Some b /\ 0 <= b < 128 /\ stage2_ !! (256 * Z.to_nat b + k)%nat = Some info /\
    stable mapping (ch + 256 * Z.of_nat i + Z.of_nat k) info = true.
Proof.
  revert ch i. induction blocks as [|b blocks IH]; intros ch i; [simpl; lia|]. cbn [stable_from].
  intros [[Hb H1]%andb_true_iff H2]%andb_true_iff Hi Hk. destruct i as [|i].
  - destruct (stable_block_lookup _ _ _ _ k H1 Hk) as (info&E&Hs). rewrite lookup_drop in E.
    exists b, info. split_and!; [done|lia|lia|done|]. by rewrite Z.mul_0_r, Z.add_0_r.
  - destruct (IH (ch + 256) i H2) as (b'&info&E&Hb'&E2&Hs); [simpl in Hi; lia|done|]. exists b', info.
    split_and!; [done|lia|lia|done|]. by replace (ch + 256 * Z.of_nat (S i)) with (ch + 256 + 256 * Z.of_nat i) by lia.
Qed.

Lemma at_lookup a i x : a !! Z.to_nat i = Some x -> 0 <= i -> at_ a i = Ok x.
Proof. intros E Hi. unfold at_. by rewrite (proj2 (Z.ltb_ge i 0)), E by lia. Qed.

Definition is_mapping (m : Z) : Prop := m = kUppercase \/ m = kLowercase.

(** Below U+10500 [Convert] looks up one entry, and the entry is stable. *)
Lemma Convert_entry m ch :
  is_mapping m -> 0 <= ch < 0x10500 ->
  exists info, Convert ch m = convert_info m ch info /\ stable m ch info = true.
Proof.
  intros Hm Hch. pose proof tables_stable as [Hu Hl]%andb_true_iff.
  assert (stable_from m 0 stage1_ = true) as Hs by (destruct Hm as [-> | ->]; assumption). clear Hu Hl.
  assert (Z.to_nat (ch / 256) < 261)%nat as Hi by divlia. assert (Z.to_nat (ch mod 256) < 256)%nat as Hk by divlia.
  destruct (stable_from_lookup m 0 stage1_ _ _ Hs Hi Hk) as (b&info&E1&Hb&E2&Hst).
  exists info. replace (0 + 256 * Z.of_nat (Z.to_nat (ch / 256)) + Z.of_nat (Z.to_nat (ch mod 256))) with ch in Hst by divlia.
  split; [|done]. unfold Convert. change (kStage1Size <<< kBlockSizeLog2) with 66816. destruct (IsLatin1 ch) eqn:El.
  - unfold IsLatin1 in El. assert (ch / 256 = 0) as E0 by divlia. rewrite E0 in E1. injection E1 as <-.
    assert (ch mod 256 = ch) as Em by divlia. rewrite Em in E2. rewrite (at_lookup _ _ _ E2) by lia. cbn [mbind result_bind].
    unfold convert_info. destruct (_ =? m); [done|].
    pose proof latin1_no_exceptions as Hno. rewrite forallb_forall in Hno.
    rewrite (proj1 (negb_true_iff _) (Hno info ltac:(apply list_elem_of_In, list_elem_of_lookup; exists (Z.to_nat ch); rewrite lookup_take_lt by divlia; exact E2))).
    done.
  - rewrite (proj2 (Z.leb_le _ _)) by lia. change kBlockSizeLog2 with 8. change (kBlockSize - 1) with (Z.ones 8).
    rewrite Z.shiftr_div_pow2, Z.land_ones by lia. change (2 ^ 8) with 256.
    rewrite (at_lookup _ _ _ E1) by divlia. cbn [mbind result_bind].
    rewrite Z.shiftl_mul_pow2 by lia. change (2 ^ 8) with 256. rewrite wrapS_id by (unfold isS; lia).
    rewrite (at_lookup stage2_ (b * 256 + ch mod 256) info); [done| |divlia].
    rewrite <- E2. f_equal. divlia.
Qed.

(** [ToUpper] and [ToLower] never read outside of their tables for a code
    point other than U+10500, whose block number is one past the end of
    [stage1_]; the result is a code point, and mapping it again changes nothing. *)
Theorem Convert_stable (m ch : Z) :
  is_mapping m -> cp_ok ch ->
  if ch =? 0x10500 then Convert ch m = Err OutOfBounds
  else exists r, Convert ch m = Ok r /\ cp_ok r /\ Convert r m = Ok r.
Proof.
  intros Hm Hch. unfold cp_ok in *. destruct (Z.eqb_spec ch 0x10500) as [->|Hne].
  { by destruct Hm as [-> | ->]. }
  destruct (Z.lt_ge_cases ch 0x10500) as [Hlt|Hge].
  - destruct (Convert_entry m ch Hm) as (info&E&Hs); [lia|]. unfold stable in Hs.
    destruct (Z.eqb_spec info 0) as [->|_].
    { exists ch. rewrite E. by destruct Hm as [-> | ->]. }
    rewrite <- E in Hs. destruct (Convert ch m) as [r|] eqn:Ec; [|done]. exists r. split; [done|].
    destruct (Z.eqb_spec r ch) as [->|_]; [split; [lia|done]|]. cbn [orb] in Hs.
    destruct (Convert r m) as [r'|]; [|done]. change (kStage1Size <<< kBlockSizeLog2) with 66816 in Hs.
    split; [lia|]. f_equal. lia.
  - exists ch. assert (Convert ch m = Ok ch) as E.
    { unfold Convert, IsLatin1. change (kStage1Size <<< kBlockSizeLog2) with 66816.
      rewrite (proj2 (Z.leb_gt ch 0xFF)), andb_false_r, (proj2 (Z.leb_gt ch 66816)) by lia. done. }
    done.
Qed.

Lemma Convert_stable_witness : exists r, ToUpper 0x3B1 = Ok r /\ ToUpper r = Ok r /\ r = 0x391.
Proof.
  destruct (Convert_stable kUppercase 0x3B1) as (r&H1&_&H2); [by left|unfold cp_ok; lia|].
  exists r. split; [done|]. split; [done|]. revert H1. vm_compute. congruence.
Defined.

End CaseMapping.
