(* ===== verification/RangeAnalysis.v ===== *)
(** * vm/flow_graph_range_analysis.h, vm/flow_graph_range_analysis.cc: ranges

    The symbolic intervals the optimizing compiler computes for integer
    definitions: boundaries ([RangeBoundary]), intervals ([Range]) and their
    arithmetic, joins, widening and narrowing, the inference of a range for each
    kind of instruction ([InferRange_defn]), the iteration over a graph, and the
    decision whether an array bounds check is redundant ([IsRedundant]).

    A [Definition*] is the index of its definition in the flow graph, a list of
    records with the fields the analysis reads; [range_] and [can_overflow_] are
    the fields it writes.  Bounds of symbols are computed recursively through the
    ranges of other symbols; the model gives these recursions and loops as much
    fuel as the graph has definitions, and stops with [ROutOfStack] when that is
    not enough, which happens only for cyclic symbols.  A shift the language
    leaves undefined stops with [RUndefined]. *)

From stdpp Require Import base numbers list.
From Stdlib Require Import ZArith Lia.
From S2P Require Import Prelude Utils.

Local Open Scope Z_scope.
Local Open Scope mach_scope.

Module RangeAnalysis.

Inductive range_error :=
| RAssertFailed
| RUnreachable
| RUndefined
| ROutOfStack
| RNoDefinition.

Abbreviation M A := (result range_error A).
Definition assert_ (b : bool) : M unit := if b then Ok () else Err RAssertFailed.

Definition kMinInt32 : Z := - 2 ^ 31.
Definition kMaxInt32 : Z := 2 ^ 31 - 1.
Definition kMaxUint32 : Z := 2 ^ 32 - 1.

Inductive RangeSize := kRangeBoundarySmi | kRangeBoundaryInt32 | kRangeBoundaryInt64.

(** [RangeBoundary]: the kinds with the fields they use; the constructors of the
    class leave the other fields zero.  A symbol is a definition and an offset. *)
Inductive RangeBoundary :=
| Unknown
| NegativeInfinity
| PositiveInfinity
| Symbol (symbol : nat) (offset : Z)
| FromConstant (value : Z).

Record Range := mkRange { min_ : RangeBoundary; max_ : RangeBoundary }.

(** The kinds of [Token::Kind] that the analysis distinguishes. *)
Inductive Token :=
| kADD | kSUB | kMUL | kSHL | kSHR | kBIT_AND | kBIT_OR | kBIT_XOR | kTRUNCDIV | kMOD
| kEQ | kNE | kLT | kGT | kLTE | kGTE | kEQ_STRICT | kNE_STRICT | kIS | kISNOT | kILLEGAL.

Inductive Object := SmiObject (value : Z) | MintObject (value : Z) | OtherObject.

Inductive Representation :=
| kTagged | kUnboxedInt32 | kUnboxedUint32 | kUnboxedMint | kOtherRepresentation.

Inductive RecognizedKind :=
| kObjectArrayLength | kImmutableArrayLength | kTypedDataLength | kStringBaseLength | kOtherField.

Inductive ClassId :=
| kTypedDataInt8ArrayCid | kTypedDataUint8ArrayCid | kTypedDataUint8ClampedArrayCid
| kExternalTypedDataUint8ArrayCid | kExternalTypedDataUint8ClampedArrayCid
| kTypedDataInt16ArrayCid | kTypedDataUint16ArrayCid | kTypedDataInt32ArrayCid | kTypedDataUint32ArrayCid
| kOneByteStringCid | kTwoByteStringCid | kExternalOneByteStringCid | kExternalTwoByteStringCid
| kSmiCid | kMintCid | kOtherCid.

Inductive BinaryIntegerOp := BinarySmiOp | BinaryInt32Op | BinaryMintOp | ShiftMintOp.

(** The instructions with a range inference of their own; the operands are definitions.
    [value_cid] is [value()->Type()->ToCid()], the class of the type reaching this use. *)
Inductive Instr :=
| IConstant (value : Object)
| IConstraint (value : nat) (constraint : Range)
| IBinaryIntegerOp (cls : BinaryIntegerOp) (op_kind : Token) (left right : nat) (can_overflow is_truncating : bool)
| IPhi (inputs : list nat)
| ILoadField (instance : nat) (recognized_kind : RecognizedKind)
| ILoadIndexed (class_id : ClassId)
| ILoadCodeUnits (class_id : ClassId)
| IIfThenElse (if_true if_false : Z)
| IBoxInteger (is_int64 : bool) (value : nat)
| IUnboxInt32 (value : nat) (value_cid : ClassId) (is_truncating : bool)
| IUnboxUint32 (value : nat) (value_cid : ClassId)
| IUnboxInt64 (value : nat)
| IUnboxedIntConverter (from to : Representation) (value : nat)
| IUnaryMintOp (value : nat)
| IOther.

(** What the analysis reads of a definition besides its instruction: the range
    computed so far, [Type()->ToCid()], [Type()->IsInt()], [representation()],
    the block, and what [Instruction::Equals] compares. *)
Record Defn := mkDefn {
  instr : Instr;
  range_ : option Range;
  type_cid : ClassId;
  type_is_int : bool;
  representation : Representation;
  block : nat;
  allows_cse : bool;
  no_dependencies : bool;
  tag : Z;
  inputs_ : list nat;
  attributes : list Z
}.

(** The definitions, and the immediate dominator of each block. *)
Record FlowGraph := mkGraph { definitions : list Defn; dominator : list (option nat) }.

#[export] Instance RangeSize_eq_dec : EqDecision RangeSize.
Proof. solve_decision. Defined.
#[export] Instance RangeBoundary_eq_dec : EqDecision RangeBoundary.
Proof. solve_decision. Defined.
#[export] Instance Token_eq_dec : EqDecision Token.
Proof. solve_decision. Defined.
#[export] Instance ClassId_eq_dec : EqDecision ClassId.
Proof. solve_decision. Defined.
#[export] Instance Representation_eq_dec : EqDecision Representation.
Proof. solve_decision. Defined.

Section range_analysis.
Context `{Target}.

(** ** Smi *)

Definition kSmiBits : Z := kBitsPerWord - 2.
Definition kSmiMax : Z := (1 <<< kSmiBits) - 1.
Definition kSmiMin : Z := - (1 <<< kSmiBits).

Definition Smi_IsValid (value : Z) : bool := (value >=? kSmiMin) && (value <=? kSmiMax).

(** ** RangeBoundary *)

Definition MinConstantValue (size : RangeSize) : Z :=
  match size with
  | kRangeBoundarySmi => kSmiMin
  | kRangeBoundaryInt32 => kMinInt32
  | kRangeBoundaryInt64 => Utils.kMinInt64
  end.

Definition MaxConstantValue (size : RangeSize) : Z :=
  match size with
  | kRangeBoundarySmi => kSmiMax
  | kRangeBoundaryInt32 => kMaxInt32
  | kRangeBoundaryInt64 => Utils.kMaxInt64
  end.

Definition MinConstant (size : RangeSize) : RangeBoundary := FromConstant (MinConstantValue size).
Definition MaxConstant (size : RangeSize) : RangeBoundary := FromConstant (MaxConstantValue size).
Definition MinSmi : RangeBoundary := FromConstant kSmiMin.
Definition MaxSmi : RangeBoundary := FromConstant kSmiMax.

Definition IsUnknown (b : RangeBoundary) : bool := match b with Unknown => true | _ => false end.
Definition IsConstant (b : RangeBoundary) : bool := match b with FromConstant _ => true | _ => false end.
Definition IsSymbol (b : RangeBoundary) : bool := match b with Symbol _ _ => true | _ => false end.
Definition IsNegativeInfinity (b : RangeBoundary) : bool :=
  match b with NegativeInfinity => true | _ => false end.
Definition IsPositiveInfinity (b : RangeBoundary) : bool :=
  match b with PositiveInfinity => true | _ => false end.
Definition IsInfinity (b : RangeBoundary) : bool := IsNegativeInfinity b || IsPositiveInfinity b.
Definition IsConstantOrInfinity (b : RangeBoundary) : bool := IsConstant b || IsInfinity b.

Definition ConstantValue (b : RangeBoundary) : M Z :=
  match b with FromConstant v => Ok v | _ => Err RAssertFailed end.
Definition symbol (b : RangeBoundary) : M nat :=
  match b with Symbol s _ => Ok s | _ => Err RAssertFailed end.
Definition offset (b : RangeBoundary) : Z := match b with Symbol _ o => o | _ => 0 end.

Definition Clamp (b : RangeBoundary) (size : RangeSize) : RangeBoundary :=
  match b with
  | NegativeInfinity => MinConstant size
  | PositiveInfinity => MaxConstant size
  | FromConstant v =>
      if v <=? MinConstantValue size then MinConstant size
      else if v >=? MaxConstantValue size then MaxConstant size
      else b
  | _ => b
  end.

Definition OverflowedSmi (b : RangeBoundary) : bool :=
  match b with FromConstant v => negb (Smi_IsValid v) | _ => IsInfinity b end.

Definition OverflowedMint (b : RangeBoundary) : bool := IsInfinity b.

Definition IsMinimumOrBelow (b : RangeBoundary) (size : RangeSize) : bool :=
  match b with NegativeInfinity => true | FromConstant v => v <=? MinConstantValue size | _ => false end.

Definition IsMaximumOrAbove (b : RangeBoundary) (size : RangeSize) : bool :=
  match b with PositiveInfinity => true | FromConstant v => v >=? MaxConstantValue size | _ => false end.

(** Undefined behaviour of a callee. *)
Definition defined {A} (o : option A) : M A := match o with Some a => Ok a | None => Err RUndefined end.

Definition Add (a b overflow : RangeBoundary) : M RangeBoundary :=
  if IsInfinity a || IsInfinity b then Ok overflow
  else
    assert_ (IsConstant a && IsConstant b);;
    va ← ConstantValue a;
    vb ← ConstantValue b;
    ov ← defined (Utils.WillAddOverflow va vb);
    if ov : bool then Ok overflow else Ok (FromConstant (s64 (va + vb))).

Definition Sub (a b overflow : RangeBoundary) : M RangeBoundary :=
  if IsInfinity a || IsInfinity b then Ok overflow
  else
    assert_ (IsConstant a && IsConstant b);;
    va ← ConstantValue a;
    vb ← ConstantValue b;
    ov ← defined (Utils.WillSubOverflow va vb);
    if ov : bool then Ok overflow else Ok (FromConstant (s64 (va - vb))).

(** Zero stays zero for any count.  [IsInt] asserts that its width is below 64,
    which holds as the count is not zero. *)
Definition Shl (value_boundary : RangeBoundary) (shift_count : Z) (overflow : RangeBoundary) : M RangeBoundary :=
  assert_ (IsConstant value_boundary);;
  assert_ (shift_count >=? 0);;
  let limit := s64 (64 - shift_count) in
  value ← ConstantValue value_boundary;
  if (value =? 0) || (shift_count =? 0) || ((limit >? 0) && Utils.IsInt limit value)
  then Ok (FromConstant (s64 (value <<< shift_count)))
  else Ok overflow.

(** [value >> shift_count] is undefined from 64 on. *)
Definition Shr (value_boundary : RangeBoundary) (shift_count : Z) : M RangeBoundary :=
  assert_ (IsConstant value_boundary);;
  assert_ (shift_count >=? 0);;
  value ← ConstantValue value_boundary;
  if shift_count <? 64 then Ok (FromConstant (value >>> shift_count)) else Err RUndefined.

(** ** Definitions of the graph *)

Definition defn_at (g : FlowGraph) (d : nat) : M Defn :=
  match definitions g !! d with Some defn => Ok defn | None => Err RNoDefinition end.

Definition FromDefinition (g : FlowGraph) (d : nat) (offs : Z) : M RangeBoundary :=
  defn ← defn_at g d;
  match instr defn with
  | IConstant (SmiObject v) => Ok (FromConstant (s64 (v + offs)))
  | _ => Ok (Symbol d offs)
  end.

Definition stack_of (g : FlowGraph) : nat := S (length (definitions g)).

(** [LowerBound] through [Range::ConstantMinSmi] of the symbol's range. *)
Fixpoint LowerBound_upto (fuel : nat) (g : FlowGraph) (b : RangeBoundary) : M RangeBoundary :=
  match b with
  | NegativeInfinity | PositiveInfinity => Ok NegativeInfinity
  | FromConstant _ => Ok b
  | Unknown => Err RAssertFailed
  | Symbol s o =>
      match fuel with
      | O => Err ROutOfStack
      | S fuel =>
          defn ← defn_at g s;
          m ← match range_ defn with
              | None => Ok MinSmi
              | Some r => lb ← LowerBound_upto fuel g (min_ r); Ok (Clamp lb kRangeBoundarySmi)
              end;
          Add m (FromConstant o) NegativeInfinity
      end
  end.

Fixpoint UpperBound_upto (fuel : nat) (g : FlowGraph) (b : RangeBoundary) : M RangeBoundary :=
  match b with
  | NegativeInfinity | PositiveInfinity => Ok PositiveInfinity
  | FromConstant _ => Ok b
  | Unknown => Err RAssertFailed
  | Symbol s o =>
      match fuel with
      | O => Err ROutOfStack
      | S fuel =>
          defn ← defn_at g s;
          m ← match range_ defn with
              | None => Ok MaxSmi
              | Some r => ub ← UpperBound_upto fuel g (max_ r); Ok (Clamp ub kRangeBoundarySmi)
              end;
          Add m (FromConstant o) PositiveInfinity
      end
  end.

Definition LowerBound (g : FlowGraph) (b : RangeBoundary) : M RangeBoundary := LowerBound_upto (stack_of g) g b.
Definition UpperBound (g : FlowGraph) (b : RangeBoundary) : M RangeBoundary := UpperBound_upto (stack_of g) g b.

Definition LowerBoundValue (g : FlowGraph) (b : RangeBoundary) (size : RangeSize) : M Z :=
  lb ← LowerBound g b; ConstantValue (Clamp lb size).
Definition UpperBoundValue (g : FlowGraph) (b : RangeBoundary) (size : RangeSize) : M Z :=
  ub ← UpperBound g b; ConstantValue (Clamp ub size).

Fixpoint UnwrapConstraint_upto (fuel : nat) (g : FlowGraph) (d : nat) : M nat :=
  defn ← defn_at g d;
  match instr defn with
  | IConstraint v _ => match fuel with O => Err ROutOfStack | S fuel => UnwrapConstraint_upto fuel g v end
  | _ => Ok d
  end.
Definition UnwrapConstraint (g : FlowGraph) (d : nat) : M nat := UnwrapConstraint_upto (stack_of g) g d.

(** [Instruction::Equals]: the loop runs over the inputs of the first instruction. *)
Definition Instruction_Equals (a b : Defn) : bool :=
  if negb (tag a =? tag b) then false
  else if negb (bool_decide (inputs_ a = take (length (inputs_ a)) (inputs_ b))) then false
  else bool_decide (attributes a = attributes b).

Definition AreEqualDefinitions (g : FlowGraph) (a b : nat) : M bool :=
  a ← UnwrapConstraint g a;
  b ← UnwrapConstraint g b;
  da ← defn_at g a;
  db ← defn_at g b;
  Ok ((a =? b)%nat ||
      (allows_cse da && no_dependencies da && allows_cse db && no_dependencies db && Instruction_Equals da db)).

Definition DependOnSameSymbol (g : FlowGraph) (a b : RangeBoundary) : M bool :=
  match a, b with
  | Symbol sa _, Symbol sb _ => AreEqualDefinitions g sa sb
  | _, _ => Ok false
  end.

Definition Equals (g : FlowGraph) (a b : RangeBoundary) : M bool :=
  match a, b with
  | FromConstant va, FromConstant vb => Ok (va =? vb)
  | NegativeInfinity, NegativeInfinity | PositiveInfinity, PositiveInfinity => Ok true
  | Symbol _ oa, Symbol _ ob => if oa =? ob then DependOnSameSymbol g a b else Ok false
  | Unknown, Unknown => Ok true
  | _, _ => Ok false
  end.

Definition Overflowed (g : FlowGraph) (b : RangeBoundary) (size : RangeSize) : M bool :=
  assert_ (IsConstantOrInfinity b);;
  eq ← Equals g b (Clamp b size);
  Ok (negb eq).

(** [None] when the attempt fails. *)
Definition SymbolicAdd_symbol (g : FlowGraph) (a b : RangeBoundary) : M (option RangeBoundary) :=
  match a, b with
  | Symbol s o, FromConstant v =>
      ov ← defined (Utils.WillAddOverflow o v);
      if ov : bool then Ok None
      else r ← FromDefinition g s (s64 (o + v)); Ok (Some r)
  | _, _ => Ok None
  end.

Definition SymbolicAdd (g : FlowGraph) (a b : RangeBoundary) : M (option RangeBoundary) :=
  if IsSymbol a && IsConstant b then SymbolicAdd_symbol g a b
  else if IsSymbol b && IsConstant a then SymbolicAdd_symbol g b a
  else Ok None.

Definition SymbolicSub (g : FlowGraph) (a b : RangeBoundary) : M (option RangeBoundary) :=
  match a, b with
  | Symbol s o, FromConstant v =>
      ov ← defined (Utils.WillSubOverflow o v);
      if ov : bool then Ok None
      else r ← FromDefinition g s (s64 (o - v)); Ok (Some r)
  | _, _ => Ok None
  end.

Definition Smi_Cast (defn : Defn) : M (option Z) :=
  match instr defn with
  | IConstant (SmiObject v) => Ok (Some v)
  | IConstant _ => Err RAssertFailed
  | _ => Ok None
  end.

(** One round of the loop of [CanonicalizeBoundary]: [CDone] when nothing changed. *)
Inductive canonical_step := CDone | COverflow | CNext (symbol : nat) (offset : Z).

Definition CanonicalizeBoundary_step (g : FlowGraph) (s : nat) (o : Z) : M canonical_step :=
  defn ← defn_at g s;
  match instr defn with
  | IConstraint v _ => Ok (CNext v o)
  | IBinaryIntegerOp BinarySmiOp op l r _ _ =>
      left ← defn_at g l;
      right ← defn_at g r;
      match op with
      | kADD =>
          rc ← Smi_Cast right;
          match rc with
          | Some rhs => ov ← defined (Utils.WillAddOverflow o rhs); Ok (if ov : bool then COverflow else CNext l (s64 (o + rhs)))
          | None =>
              lc ← Smi_Cast left;
              match lc with
              | Some rhs => ov ← defined (Utils.WillAddOverflow o rhs); Ok (if ov : bool then COverflow else CNext r (s64 (o + rhs)))
              | None => Ok CDone
              end
          end
      | kSUB =>
          rc ← Smi_Cast right;
          match rc with
          | Some rhs => ov ← defined (Utils.WillSubOverflow o rhs); Ok (if ov : bool then COverflow else CNext l (s64 (o - rhs)))
          | None => Ok CDone
          end
      | _ => Ok CDone
      end
  | _ => Ok CDone
  end.

Fixpoint CanonicalizeBoundary_loop (fuel : nat) (g : FlowGraph) (s : nat) (o : Z) (overflow : RangeBoundary)
    : M RangeBoundary :=
  r ← CanonicalizeBoundary_step g s o;
  match r with
  | CDone => FromDefinition g s o
  | COverflow => Ok overflow
  | CNext s o =>
      match fuel with O => Err ROutOfStack | S fuel => CanonicalizeBoundary_loop fuel g s o overflow end
  end.

Definition CanonicalizeBoundary (g : FlowGraph) (a overflow : RangeBoundary) : M RangeBoundary :=
  match a with
  | FromConstant _ | NegativeInfinity | PositiveInfinity => Ok a
  | Symbol s o => CanonicalizeBoundary_loop (stack_of g) g s o overflow
  | Unknown => Err RAssertFailed
  end.

(** The two functions differ in the side of the range they follow.  The result is
    [None] where the code returns false. *)
Definition CanonicalizeSide (side : Range -> RangeBoundary) (infinity : RangeBoundary)
    (g : FlowGraph) (a : RangeBoundary) : M (option RangeBoundary) :=
  match a with
  | Symbol s o =>
      defn ← defn_at g s;
      match range_ defn with
      | None => Ok None
      | Some r =>
          match side r with
          | Symbol s' o' =>
              ov ← defined (Utils.WillAddOverflow o' o);
              if ov : bool then Ok (Some infinity)
              else
                b ← FromDefinition g s' (s64 (o' + o));
                c ← CanonicalizeBoundary g b infinity;
                Ok (Some c)
          | _ => Ok None
          end
      end
  | _ => Ok None
  end.

Definition CanonicalizeMaxBoundary : FlowGraph -> RangeBoundary -> M (option RangeBoundary) :=
  CanonicalizeSide max_ PositiveInfinity.
Definition CanonicalizeMinBoundary : FlowGraph -> RangeBoundary -> M (option RangeBoundary) :=
  CanonicalizeSide min_ NegativeInfinity.

(** The loop: each round canonicalizes [a], or else [b]. *)
Fixpoint CanonicalizeForComparison_loop (fuel : nat) (g : FlowGraph) (a b : RangeBoundary)
    (op : FlowGraph -> RangeBoundary -> M (option RangeBoundary)) : M (option (RangeBoundary * RangeBoundary)) :=
  same ← DependOnSameSymbol g a b;
  if same : bool then Ok (Some (a, b))
  else
    match fuel with
    | O => Err ROutOfStack
    | S fuel =>
        ra ← op g a;
        match ra with
        | Some a => CanonicalizeForComparison_loop fuel g a b op
        | None =>
            rb ← op g b;
            match rb with
            | Some b => CanonicalizeForComparison_loop fuel g a b op
            | None => Ok None
            end
        end
    end.

Definition CanonicalizeForComparison (g : FlowGraph) (a b : RangeBoundary)
    (op : FlowGraph -> RangeBoundary -> M (option RangeBoundary)) : M (option (RangeBoundary * RangeBoundary)) :=
  if negb (IsSymbol a) || negb (IsSymbol b) then Ok None
  else CanonicalizeForComparison_loop (2 * stack_of g) g a b op.

(** ** Joins and intersections of boundaries *)

Definition JoinMin (g : FlowGraph) (a b : RangeBoundary) (size : RangeSize) : M RangeBoundary :=
  eq ← Equals g a b;
  if eq : bool then Ok b
  else
    c ← CanonicalizeForComparison g a b CanonicalizeMinBoundary;
    match c with
    | Some (a, b) => Ok (if offset a <=? offset b then a else b)
    | None =>
        inf_a ← LowerBoundValue g a size;
        inf_b ← LowerBoundValue g b size;
        sup_a ← UpperBoundValue g a size;
        sup_b ← UpperBoundValue g b size;
        low_a ← LowerBound g a;
        over_a ← Overflowed g low_a size;
        low_b ← LowerBound g b;
        over_b ← Overflowed g low_b size;
        Ok (if (sup_a <=? inf_b) && negb over_a then a
            else if (sup_b <=? inf_a) && negb over_b then b
            else FromConstant (Utils.Minimum inf_a inf_b))
    end.

Definition JoinMax (g : FlowGraph) (a b : RangeBoundary) (size : RangeSize) : M RangeBoundary :=
  eq ← Equals g a b;
  if eq : bool then Ok b
  else
    c ← CanonicalizeForComparison g a b CanonicalizeMaxBoundary;
    match c with
    | Some (a, b) => Ok (if offset a >=? offset b then a else b)
    | None =>
        inf_a ← LowerBoundValue g a size;
        inf_b ← LowerBoundValue g b size;
        sup_a ← UpperBoundValue g a size;
        sup_b ← UpperBoundValue g b size;
        up_b ← UpperBound g b;
        over_b ← Overflowed g up_b size;
        up_a ← UpperBound g a;
        over_a ← Overflowed g up_a size;
        Ok (if (sup_a <=? inf_b) && negb over_b then b
            else if (sup_b <=? inf_a) && negb over_a then a
            else FromConstant (Utils.Maximum sup_a sup_b))
    end.

Definition IntersectionMin (g : FlowGraph) (a b : RangeBoundary) : M RangeBoundary :=
  assert_ (negb (IsPositiveInfinity a) && negb (IsPositiveInfinity b));;
  assert_ (negb (IsUnknown a) && negb (IsUnknown b));;
  eq ← Equals g a b;
  if eq : bool then Ok a
  else if IsMinimumOrBelow a kRangeBoundarySmi then Ok b
  else if IsMinimumOrBelow b kRangeBoundarySmi then Ok a
  else
    c ← CanonicalizeForComparison g a b CanonicalizeMinBoundary;
    match c with
    | Some (a, b) => Ok (if offset a >=? offset b then a else b)
    | None =>
        inf_a ← LowerBoundValue g a kRangeBoundarySmi;
        inf_b ← LowerBoundValue g b kRangeBoundarySmi;
        Ok (if inf_a >=? inf_b then a else b)
    end.

Definition IntersectionMax (g : FlowGraph) (a b : RangeBoundary) : M RangeBoundary :=
  assert_ (negb (IsNegativeInfinity a) && negb (IsNegativeInfinity b));;
  assert_ (negb (IsUnknown a) && negb (IsUnknown b));;
  eq ← Equals g a b;
  if eq : bool then Ok a
  else if IsMaximumOrAbove a kRangeBoundarySmi then Ok b
  else if IsMaximumOrAbove b kRangeBoundarySmi then Ok a
  else
    c ← CanonicalizeForComparison g a b CanonicalizeMaxBoundary;
    match c with
    | Some (a, b) => Ok (if offset a <=? offset b then a else b)
    | None =>
        sup_a ← UpperBoundValue g a kRangeBoundarySmi;
        sup_b ← UpperBoundValue g b kRangeBoundarySmi;
        Ok (if sup_a <=? sup_b then a else b)
    end.

(** ** Range *)

Definition Range_new (min max : RangeBoundary) : M Range :=
  assert_ (Bool.eqb (IsUnknown min) (IsUnknown max));;
  Ok (mkRange min max).

Definition Range_unknown : Range := mkRange Unknown Unknown.

Definition Range_IsUnknown (other : option Range) : bool :=
  match other with None => true | Some r => IsUnknown (min_ r) end.

Definition Full (size : RangeSize) : Range := mkRange (MinConstant size) (MaxConstant size).

Definition Range_Equals (g : FlowGraph) (r : Range) (other : option Range) : M bool :=
  assert_ (Bool.eqb (IsUnknown (min_ r)) (IsUnknown (max_ r)));;
  match other with
  | None => Ok (IsUnknown (min_ r))
  | Some o =>
      eq ← Equals g (min_ r) (min_ o);
      if eq : bool then Equals g (max_ r) (max_ o) else Ok false
  end.

Definition ConstantMin (g : FlowGraph) (range : option Range) (size : RangeSize) : M RangeBoundary :=
  match range with
  | None => Ok (MinConstant size)
  | Some r => lb ← LowerBound g (min_ r); Ok (Clamp lb size)
  end.

Definition ConstantMax (g : FlowGraph) (range : option Range) (size : RangeSize) : M RangeBoundary :=
  match range with
  | None => Ok (MaxConstant size)
  | Some r => ub ← UpperBound g (max_ r); Ok (Clamp ub size)
  end.

(** [ConstantMin(range).ConstantValue()] at the default size. *)
Definition ConstantMinValue (g : FlowGraph) (range : option Range) (size : RangeSize) : M Z :=
  b ← ConstantMin g range size; ConstantValue b.
Definition ConstantMaxValue (g : FlowGraph) (range : option Range) (size : RangeSize) : M Z :=
  b ← ConstantMax g range size; ConstantValue b.

Definition OnlyLessThanOrEqualTo (g : FlowGraph) (r : Range) (val : Z) : M bool :=
  upper_bound ← UpperBound g (max_ r);
  if negb (IsPositiveInfinity upper_bound) then v ← ConstantValue upper_bound; Ok (v <=? val) else Ok false.

Definition OnlyGreaterThanOrEqualTo (g : FlowGraph) (r : Range) (val : Z) : M bool :=
  lower_bound ← LowerBound g (min_ r);
  if negb (IsNegativeInfinity lower_bound) then v ← ConstantValue lower_bound; Ok (v >=? val) else Ok false.

Definition IsPositive (g : FlowGraph) (r : Range) : M bool := OnlyGreaterThanOrEqualTo g r 0.

Definition IsWithin (g : FlowGraph) (r : Range) (min_int max_int : Z) : M bool :=
  ge ← OnlyGreaterThanOrEqualTo g r min_int;
  if ge : bool then OnlyLessThanOrEqualTo g r max_int else Ok false.

Definition Overlaps (g : FlowGraph) (r : Range) (min_int max_int : Z) : M bool :=
  lower ← LowerBound g (min_ r);
  upper ← UpperBound g (max_ r);
  this_min ← (if IsNegativeInfinity lower then Ok Utils.kMinInt64 else ConstantValue lower);
  this_max ← (if IsPositiveInfinity upper then Ok Utils.kMaxInt64 else ConstantValue upper);
  Ok (if (this_min <=? min_int) && (min_int <=? this_max) then true
      else if (this_min <=? max_int) && (max_int <=? this_max) then true
      else (min_int <? this_min) && (max_int >? this_max)).

Definition IsUnsatisfiable (g : FlowGraph) (r : Range) : M bool :=
  if IsPositiveInfinity (min_ r) || IsNegativeInfinity (max_ r) then Ok true
  else
    lo ← ConstantMinValue g (Some r) kRangeBoundaryInt64;
    hi ← ConstantMaxValue g (Some r) kRangeBoundaryInt64;
    if lo >? hi then Ok true
    else
      same ← DependOnSameSymbol g (min_ r) (max_ r);
      Ok (same && (offset (min_ r) >? offset (max_ r))).

Definition IsFinite (r : Range) : bool := negb (IsInfinity (min_ r)) && negb (IsInfinity (max_ r)).

Definition Intersect (g : FlowGraph) (r other : Range) : M Range :=
  mn ← IntersectionMin g (min_ r) (min_ other);
  mx ← IntersectionMax g (max_ r) (max_ other);
  Range_new mn mx.

Definition Fits (g : FlowGraph) (r : Range) (size : RangeSize) : M bool :=
  lo ← LowerBound g (min_ r);
  over ← Overflowed g lo size;
  if over : bool then Ok false
  else
    hi ← UpperBound g (max_ r);
    over ← Overflowed g hi size;
    Ok (negb over).

Definition Range_Clamp (r : Range) (size : RangeSize) : Range := mkRange (Clamp (min_ r) size) (Clamp (max_ r) size).

Definition Range_Shl (g : FlowGraph) (left right : Range) : M (RangeBoundary * RangeBoundary) :=
  left_max ← ConstantMax g (Some left) kRangeBoundaryInt64;
  left_min ← ConstantMin g (Some left) kRangeBoundaryInt64;
  rmax ← ConstantMaxValue g (Some right) kRangeBoundaryInt64;
  let right_max := Utils.Maximum rmax 0 in
  rmin ← ConstantMinValue g (Some right) kRangeBoundaryInt64;
  let right_min := Utils.Maximum rmin 0 in
  lmin ← ConstantValue left_min;
  result_min ← Shl left_min (if lmin >? 0 then right_min else right_max)
                   (if lmin >? 0 then PositiveInfinity else NegativeInfinity);
  lmax ← ConstantValue left_max;
  result_max ← Shl left_max (if lmax >? 0 then right_max else right_min)
                   (if lmax >? 0 then PositiveInfinity else NegativeInfinity);
  Ok (result_min, result_max).

Definition Range_Shr (g : FlowGraph) (left right : Range) : M (RangeBoundary * RangeBoundary) :=
  left_max ← ConstantMax g (Some left) kRangeBoundaryInt64;
  left_min ← ConstantMin g (Some left) kRangeBoundaryInt64;
  rmax ← ConstantMaxValue g (Some right) kRangeBoundaryInt64;
  let right_max := Utils.Maximum rmax 0 in
  rmin ← ConstantMinValue g (Some right) kRangeBoundaryInt64;
  let right_min := Utils.Maximum rmin 0 in
  lmin ← ConstantValue left_min;
  result_min ← Shr left_min (if lmin >? 0 then right_max else right_min);
  lmax ← ConstantValue left_max;
  result_max ← Shr left_max (if lmax >? 0 then right_min else right_max);
  Ok (result_min, result_max).

Definition BitSize (g : FlowGraph) (range : Range) : M Z :=
  min ← ConstantMinValue g (Some range) kRangeBoundaryInt64;
  max ← ConstantMaxValue g (Some range) kRangeBoundaryInt64;
  Ok (Utils.Maximum (Utils.BitLength min) (Utils.BitLength max)).

Definition BitwiseOp (g : FlowGraph) (left_range right_range : Range) : M (RangeBoundary * RangeBoundary) :=
  bl ← BitSize g left_range;
  br ← BitSize g right_range;
  let bitsize := Utils.Maximum bl br in
  pl ← IsPositive g left_range;
  pr ← (if pl : bool then IsPositive g right_range else Ok false);
  let result_min := if pr : bool then FromConstant 0 else FromConstant (s64 ((-1) <<< bitsize)) in
  Ok (result_min, FromConstant (s64 (u64 (u64 (1 <<< bitsize) - 1)))).

Definition Range_And (g : FlowGraph) (left_range right_range : Range) : M (RangeBoundary * RangeBoundary) :=
  rmin ← ConstantMinValue g (Some right_range) kRangeBoundaryInt64;
  if rmin >=? 0 then
    rmax ← ConstantMax g (Some right_range) kRangeBoundaryInt64;
    Ok (FromConstant 0, rmax)
  else
    lmin ← ConstantMinValue g (Some left_range) kRangeBoundaryInt64;
    if lmin >=? 0 then
      lmax ← ConstantMax g (Some left_range) kRangeBoundaryInt64;
      Ok (FromConstant 0, lmax)
    else BitwiseOp g left_range right_range.

Definition IsImmutableLengthLoad (k : RecognizedKind) : bool :=
  match k with
  | kObjectArrayLength | kImmutableArrayLength | kTypedDataLength | kStringBaseLength => true
  | kOtherField => false
  end.

Definition IsArrayLength (g : FlowGraph) (d : option nat) : M bool :=
  match d with
  | None => Ok false
  | Some d =>
      u ← UnwrapConstraint g d;
      defn ← defn_at g u;
      Ok (match instr defn with ILoadField _ k => IsImmutableLengthLoad k | _ => false end)
  end.

(** The length itself is used as the left boundary when the left operand is an array length. *)
Definition left_boundary (g : FlowGraph) (left_defn : option nat) (b : RangeBoundary) : M RangeBoundary :=
  is_length ← IsArrayLength g left_defn;
  match left_defn with
  | Some d => if is_length : bool then FromDefinition g d 0 else Ok b
  | None => Ok b
  end.

Definition Range_Add (g : FlowGraph) (left_range right_range : Range) (left_defn : option nat)
    : M (RangeBoundary * RangeBoundary) :=
  left_min ← left_boundary g left_defn (min_ left_range);
  left_max ← left_boundary g left_defn (max_ left_range);
  smin ← SymbolicAdd g left_min (min_ right_range);
  result_min ←
    match smin with
    | Some r => Ok r
    | None => ll ← LowerBound g (min_ left_range); rl ← LowerBound g (min_ right_range); Add ll rl NegativeInfinity
    end;
  smax ← SymbolicAdd g left_max (max_ right_range);
  result_max ←
    match smax with
    | Some r => Ok r
    | None => ru ← UpperBound g (max_ right_range); lu ← UpperBound g (max_ left_range); Add ru lu PositiveInfinity
    end;
  Ok (result_min, result_max).

Definition Range_Sub (g : FlowGraph) (left_range right_range : Range) (left_defn : option nat)
    : M (RangeBoundary * RangeBoundary) :=
  left_min ← left_boundary g left_defn (min_ left_range);
  left_max ← left_boundary g left_defn (max_ left_range);
  smin ← SymbolicSub g left_min (max_ right_range);
  result_min ←
    match smin with
    | Some r => Ok r
    | None => ll ← LowerBound g (min_ left_range); ru ← UpperBound g (max_ right_range); Sub ll ru NegativeInfinity
    end;
  smax ← SymbolicSub g left_max (min_ right_range);
  result_max ←
    match smax with
    | Some r => Ok r
    | None => lu ← UpperBound g (max_ left_range); rl ← LowerBound g (min_ right_range); Sub lu rl PositiveInfinity
    end;
  Ok (result_min, result_max).

Definition OnlyPositiveOrZero (g : FlowGraph) (a b : Range) : M bool :=
  pa ← OnlyGreaterThanOrEqualTo g a 0;
  if pa : bool then OnlyGreaterThanOrEqualTo g b 0 else Ok false.

Definition OnlyNegativeOrZero (g : FlowGraph) (a b : Range) : M bool :=
  na ← OnlyLessThanOrEqualTo g a 0;
  if na : bool then OnlyLessThanOrEqualTo g b 0 else Ok false.

Definition ConstantAbsMax (g : FlowGraph) (range : option Range) : M Z :=
  match range with
  | None => Ok Utils.kMaxInt64
  | Some _ =>
      lo ← ConstantMinValue g range kRangeBoundaryInt64;
      hi ← ConstantMaxValue g range kRangeBoundaryInt64;
      Ok (Utils.Maximum (Utils.Abs (wrapS 64) lo) (Utils.Abs (wrapS 64) hi))
  end.

Definition ConstantAbsMin (g : FlowGraph) (range : option Range) : M Z :=
  match range with
  | None => Ok 0
  | Some _ =>
      lo ← ConstantMinValue g range kRangeBoundaryInt64;
      hi ← ConstantMaxValue g range kRangeBoundaryInt64;
      Ok (Utils.Minimum (Utils.Abs (wrapS 64) lo) (Utils.Abs (wrapS 64) hi))
  end.

Definition same_sign (g : FlowGraph) (a b : Range) : M bool :=
  pos ← OnlyPositiveOrZero g a b;
  if pos : bool then Ok true else OnlyNegativeOrZero g a b.

(** C++ division truncates: [Z.quot]. *)
Definition Range_Mul (g : FlowGraph) (left_range right_range : Range) : M (RangeBoundary * RangeBoundary) :=
  left_max ← ConstantAbsMax g (Some left_range);
  right_max ← ConstantAbsMax g (Some right_range);
  if (left_max <=? - kSmiMin) && (right_max <=? - kSmiMin)
     && ((left_max =? 0) || (right_max <=? Z.quot Utils.kMaxInt64 left_max))
  then
    let mul_max := s64 (left_max * right_max) in
    same ← same_sign g left_range right_range;
    if same : bool then
      labs ← ConstantAbsMin g (Some left_range);
      rabs ← ConstantAbsMin g (Some right_range);
      Ok (FromConstant (s64 (labs * rabs)), FromConstant mul_max)
    else Ok (FromConstant (s64 (- mul_max)), FromConstant mul_max)
  else
    same ← same_sign g left_range right_range;
    if same : bool then Ok (FromConstant 0, PositiveInfinity)
    else Ok (NegativeInfinity, PositiveInfinity).

Definition BinaryOp (g : FlowGraph) (op : Token) (left_range right_range : Range) (left_defn : option nat)
    : M Range :=
  assert_ (IsFinite left_range);;
  assert_ (IsFinite right_range);;
  mm ←
    match op with
    | kADD => r ← Range_Add g left_range right_range left_defn; Ok (Some r)
    | kSUB => r ← Range_Sub g left_range right_range left_defn; Ok (Some r)
    | kMUL => r ← Range_Mul g left_range right_range; Ok (Some r)
    | kSHL => r ← Range_Shl g left_range right_range; Ok (Some r)
    | kSHR => r ← Range_Shr g left_range right_range; Ok (Some r)
    | kBIT_AND => r ← Range_And g left_range right_range; Ok (Some r)
    | kBIT_XOR | kBIT_OR => r ← BitwiseOp g left_range right_range; Ok (Some r)
    | _ => Ok None
    end;
  match mm with
  | Some (min, max) =>
      assert_ (negb (IsUnknown min) && negb (IsUnknown max));;
      Range_new min max
  | None => Range_new NegativeInfinity PositiveInfinity
  end.

(** ** Widening and narrowing *)

Definition WidenMin (g : FlowGraph) (range new_range : Range) (size : RangeSize) : M RangeBoundary :=
  let constants :=
    min ← ConstantMin g (Some range) size;
    new_min ← ConstantMin g (Some new_range) size;
    v ← ConstantValue min;
    new_v ← ConstantValue new_min;
    Ok (if v <=? new_v then min else MinConstant size) in
  let min := min_ range in
  let new_min := min_ new_range in
  if IsSymbol min then
    lb ← LowerBound g min;
    over ← Overflowed g lb size;
    if over : bool then Ok (MinConstant size)
    else
      same ← DependOnSameSymbol g min new_min;
      if same : bool then Ok (if offset min <=? offset new_min then min else MinConstant size)
      else
        ub ← UpperBoundValue g min size;
        new_lb ← LowerBoundValue g new_min size;
        if ub <=? new_lb then Ok min else constants
  else constants.

Definition WidenMax (g : FlowGraph) (range new_range : Range) (size : RangeSize) : M RangeBoundary :=
  let constants :=
    max ← ConstantMax g (Some range) size;
    new_max ← ConstantMax g (Some new_range) size;
    v ← ConstantValue max;
    new_v ← ConstantValue new_max;
    Ok (if v >=? new_v then max else MaxConstant size) in
  let max := max_ range in
  let new_max := max_ new_range in
  if IsSymbol max then
    ub ← UpperBound g max;
    over ← Overflowed g ub size;
    if over : bool then Ok (MaxConstant size)
    else
      same ← DependOnSameSymbol g max new_max;
      if same : bool then Ok (if offset max >=? offset new_max then max else MaxConstant size)
      else
        lb ← LowerBoundValue g max size;
        new_ub ← UpperBoundValue g new_max size;
        if lb >=? new_ub then Ok max else constants
  else constants.

Definition NarrowMin (g : FlowGraph) (range new_range : Range) (size : RangeSize) : M RangeBoundary :=
  min ← ConstantMinValue g (Some range) size;
  new_min ← ConstantMinValue g (Some new_range) size;
  Ok (if min >? new_min then min_ range
      else if IsMinimumOrBelow (min_ range) size then min_ new_range else min_ range).

Definition NarrowMax (g : FlowGraph) (range new_range : Range) (size : RangeSize) : M RangeBoundary :=
  max ← ConstantMaxValue g (Some range) size;
  new_max ← ConstantMaxValue g (Some new_range) size;
  Ok (if max <? new_max then max_ range
      else if IsMaximumOrAbove (max_ range) size then max_ new_range else max_ range).

(** ** Join of a range with the range of a definition *)

Definition DependsOnSymbol (g : FlowGraph) (a : RangeBoundary) (symbol : nat) : M bool :=
  match a with
  | Symbol s _ => u ← UnwrapConstraint g s; Ok (u =? symbol)%nat
  | _ => Ok false
  end.

Definition Join (g : FlowGraph) (range : Range) (defn : nat) (defn_range : option Range) (size : RangeSize)
    : M Range :=
  match defn_range with
  | None => Ok range
  | Some dr =>
      if IsUnknown (min_ dr) then Ok range
      else if IsUnknown (min_ range) then Ok dr
      else
        unwrapped ← UnwrapConstraint g defn;
        dmin ← DependsOnSymbol g (min_ range) unwrapped;
        dmax ← (if dmin : bool then Ok true else DependsOnSymbol g (max_ range) unwrapped);
        other ← (if dmax : bool then
                   a ← FromDefinition g defn 0;
                   b ← FromDefinition g defn 0;
                   Range_new a b
                 else Ok dr);
        inf_range ← LowerBoundValue g (min_ range) size;
        inf_other ← LowerBoundValue g (min_ other) size;
        sup_range ← UpperBoundValue g (max_ range) size;
        sup_other ← UpperBoundValue g (max_ other) size;
        if sup_range <=? inf_other then Ok (mkRange (min_ range) (max_ other))
        else if sup_other <=? inf_range then Ok (mkRange (min_ other) (max_ range))
        else
          mn ← JoinMin g (min_ range) (min_ other) size;
          mx ← JoinMax g (max_ range) (max_ other) size;
          Range_new mn mx
  end.

(** ** Range inference *)

(** [BlockEntryInstr::Dominates] walks the immediate dominators of [other]. *)
Fixpoint Dominates_upto (fuel : nat) (g : FlowGraph) (a other : nat) : bool :=
  if (other =? a)%nat then true
  else
    match fuel with
    | O => false
    | S fuel =>
        match dominator g !! other with
        | Some (Some d) => Dominates_upto fuel g a d
        | _ => false
        end
    end.
Definition Dominates (g : FlowGraph) (a other : nat) : bool :=
  Dominates_upto (length (dominator g)) g a other.

Definition DominatesPhi (g : FlowGraph) (a phi_block : nat) : bool :=
  Dominates g a phi_block && negb (a =? phi_block)%nat.

Definition EnsureAcyclicSymbol (g : FlowGraph) (phi_block : nat) (a limit : RangeBoundary) : M RangeBoundary :=
  match a with
  | Symbol s o =>
      defn ← defn_at g s;
      if DominatesPhi g (block defn) phi_block then Ok a
      else
        unwrapped ← UnwrapConstraint g s;
        udefn ← defn_at g unwrapped;
        if negb (unwrapped =? s)%nat && DominatesPhi g (block udefn) phi_block
        then FromDefinition g unwrapped o
        else Ok limit
  | _ => Ok a
  end.

Definition GetSmiRange (g : FlowGraph) (d : nat) : M (option Range) :=
  defn ← defn_at g d;
  match range_ defn with
  | None => if bool_decide (type_cid defn = kSmiCid) then Ok None else Ok (Some (Full kRangeBoundarySmi))
  | r => Ok r
  end.

Definition GetIntRange (g : FlowGraph) (d : nat) : M (option Range) :=
  defn ← defn_at g d;
  match range_ defn with
  | None => if type_is_int defn then Ok None else Ok (Some (Full kRangeBoundaryInt64))
  | r => Ok r
  end.

Definition GetInputRange (g : FlowGraph) (size : RangeSize) (input : nat) : M (option Range) :=
  match size with
  | kRangeBoundarySmi => GetSmiRange g input
  | kRangeBoundaryInt32 => defn ← defn_at g input; Ok (range_ defn)
  | kRangeBoundaryInt64 => GetIntRange g input
  end.

Definition RangeSizeForPhi (defn : Defn) : M RangeSize :=
  match instr defn with
  | IPhi _ =>
      if bool_decide (type_cid defn = kSmiCid) then Ok kRangeBoundarySmi
      else if bool_decide (representation defn = kUnboxedInt32) then Ok kRangeBoundaryInt32
      else if type_is_int defn then Ok kRangeBoundaryInt64
      else Err RUnreachable
  | _ => Err RAssertFailed
  end.

Definition IsMintDefinition (defn : Defn) : bool :=
  bool_decide (type_cid defn = kMintCid) ||
  match instr defn with
  | IBinaryIntegerOp BinaryMintOp _ _ _ _ _ | IBinaryIntegerOp ShiftMintOp _ _ _ _ _ => true
  | IUnaryMintOp _ | IBoxInteger true _ | IUnboxInt64 _ => true
  | _ => false
  end.

Definition IsInt32Definition (defn : Defn) : bool :=
  match instr defn with
  | IBinaryIntegerOp BinaryInt32Op _ _ _ _ _ => true
  | IBoxInteger false _ | IUnboxInt32 _ _ _ | IUnboxedIntConverter _ _ _ => true
  | _ => false
  end.

(** [Definition::InferRange]. *)
Definition InferRange_default (defn : Defn) : M Range :=
  if bool_decide (type_cid defn = kSmiCid) then Ok (Full kRangeBoundarySmi)
  else if IsMintDefinition defn then Ok (Full kRangeBoundaryInt64)
  else if IsInt32Definition defn then Ok (Full kRangeBoundaryInt32)
  else if type_is_int defn then Ok (Full kRangeBoundaryInt64)
  else Err RUnreachable.

Fixpoint Phi_join (g : FlowGraph) (size : RangeSize) (inputs : list nat) (range : Range) : M Range :=
  match inputs with
  | [] => Ok range
  | input :: inputs =>
      input_range ← GetInputRange g size input;
      range ← Join g range input input_range size;
      Phi_join g size inputs range
  end.

Definition InferRange_Phi (g : FlowGraph) (defn : Defn) (inputs : list nat) : M Range :=
  size ← RangeSizeForPhi defn;
  range ← Phi_join g size inputs Range_unknown;
  mn ← EnsureAcyclicSymbol g (block defn) (min_ range) MinSmi;
  mx ← EnsureAcyclicSymbol g (block defn) (max_ range) MaxSmi;
  Ok (mkRange mn mx).

Definition InferRange_Constant (value : Object) : M Range :=
  match value with
  | SmiObject v | MintObject v => Ok (mkRange (FromConstant v) (FromConstant v))
  | OtherObject => Err RUnreachable
  end.

Definition InferRange_Constraint (g : FlowGraph) (value : nat) (constraint : Range) : M Range :=
  value_range ← GetSmiRange g value;
  match value_range with
  | None => Ok Range_unknown
  | Some vr =>
      if IsUnknown (min_ vr) then Ok Range_unknown
      else
        result ← Intersect g vr constraint;
        unsat ← IsUnsatisfiable g result;
        Ok (if unsat : bool then Range_unknown else result)
  end.

(** [kBytesPerElement] of an array is the word size, a two-byte string's is 2. *)
Definition Array_kMaxElements : Z := kSmiMax / (kBitsPerWord / 8).
Definition String_kMaxElements : Z := kSmiMax / 2.

Definition InferRange_LoadField (defn : Defn) (k : RecognizedKind) : M Range :=
  match k with
  | kObjectArrayLength | kImmutableArrayLength => Ok (mkRange (FromConstant 0) (FromConstant Array_kMaxElements))
  | kTypedDataLength => Ok (mkRange (FromConstant 0) MaxSmi)
  | kStringBaseLength => Ok (mkRange (FromConstant 0) (FromConstant String_kMaxElements))
  | kOtherField => InferRange_default defn
  end.

Definition InferRange_LoadIndexed (defn : Defn) (class_id : ClassId) : M Range :=
  match class_id with
  | kTypedDataInt8ArrayCid => Ok (mkRange (FromConstant (-128)) (FromConstant 127))
  | kTypedDataUint8ArrayCid | kTypedDataUint8ClampedArrayCid
  | kExternalTypedDataUint8ArrayCid | kExternalTypedDataUint8ClampedArrayCid =>
      Ok (mkRange (FromConstant 0) (FromConstant 255))
  | kTypedDataInt16ArrayCid => Ok (mkRange (FromConstant (-32768)) (FromConstant 32767))
  | kTypedDataUint16ArrayCid => Ok (mkRange (FromConstant 0) (FromConstant 65535))
  | kTypedDataInt32ArrayCid => Ok (mkRange (FromConstant kMinInt32) (FromConstant kMaxInt32))
  | kTypedDataUint32ArrayCid => Ok (mkRange (FromConstant 0) (FromConstant kMaxUint32))
  | kOneByteStringCid => Ok (mkRange (FromConstant 0) (FromConstant 0xFF))
  | kTwoByteStringCid => Ok (mkRange (FromConstant 0) (FromConstant 0xFFFF))
  | _ => InferRange_default defn
  end.

Definition InferRange_LoadCodeUnits (class_id : ClassId) : M Range :=
  match class_id with
  | kOneByteStringCid | kTwoByteStringCid | kExternalOneByteStringCid | kExternalTwoByteStringCid =>
      Ok (mkRange (FromConstant 0) (FromConstant kMaxUint32))
  | _ => Err RUnreachable
  end.

Definition InferRange_IfThenElse (if_true if_false : Z) : M Range :=
  Ok (mkRange (FromConstant (Utils.Minimum if_true if_false)) (FromConstant (Utils.Maximum if_true if_false))).

Definition RepresentationToRangeSize (r : Representation) : M RangeSize :=
  match r with
  | kTagged => Ok kRangeBoundarySmi
  | kUnboxedInt32 => Ok kRangeBoundaryInt32
  | kUnboxedMint => Ok kRangeBoundaryInt64
  | _ => Err RUnreachable
  end.

(** The range, and the new value of [can_overflow_] when it is set. *)
Definition InferRangeHelper (g : FlowGraph) (defn : Defn) (op : Token) (left : nat) (is_truncating : bool)
    (left_range right_range : option Range) : M (Range * option bool) :=
  match left_range, right_range with
  | Some lr, Some rr =>
      if IsUnknown (min_ lr) || IsUnknown (min_ rr) then Ok (Range_unknown, None)
      else
        range ← BinaryOp g op lr rr (Some left);
        assert_ (negb (IsUnknown (min_ range)));;
        range_size ← RepresentationToRangeSize (representation defn);
        overflow ← (if negb is_truncating then fits ← Fits g range range_size; Ok (Some (negb fits)) else Ok None);
        Ok (Range_Clamp range range_size, overflow)
  | _, _ => Ok (Range_unknown, None)
  end.

Definition InferRange_BinaryIntegerOp (g : FlowGraph) (defn : Defn) (cls : BinaryIntegerOp) (op : Token)
    (left right : nat) (is_truncating : bool) : M (Range * option bool) :=
  match cls with
  | BinarySmiOp | BinaryInt32Op =>
      lr ← GetSmiRange g left;
      rr ← GetSmiRange g right;
      InferRangeHelper g defn op left is_truncating lr rr
  | BinaryMintOp | ShiftMintOp =>
      ld ← defn_at g left;
      rd ← defn_at g right;
      InferRangeHelper g defn op left is_truncating (range_ ld) (range_ rd)
  end.

Definition known_or_unknown (r : option Range) : Range :=
  match r with
  | Some r => if IsUnknown (min_ r) then Range_unknown else r
  | None => Range_unknown
  end.

Definition InferRange_BoxInteger (g : FlowGraph) (value : nat) : M Range :=
  vd ← defn_at g value;
  Ok (known_or_unknown (range_ vd)).

(** The third branch of the code repeats the condition of the first and is never taken. *)
Definition InferRange_UnboxInt32 (g : FlowGraph) (value : nat) (value_cid : ClassId) : M Range :=
  vd ← defn_at g value;
  if bool_decide (value_cid = kSmiCid) then r ← GetSmiRange g value; Ok (known_or_unknown r)
  else if type_is_int vd then r ← GetIntRange g value; Ok (known_or_unknown r)
  else Ok (Full kRangeBoundaryInt32).

Definition uint32_range : Range := mkRange (FromConstant 0) (FromConstant kMaxUint32).

Definition InferRange_UnboxUint32 (g : FlowGraph) (value : nat) (value_cid : ClassId) : M Range :=
  vd ← defn_at g value;
  let from_range value_range :=
    match value_range with
    | Some vr =>
        if IsUnknown (min_ vr) then Ok Range_unknown
        else pos ← IsPositive g vr; Ok (if pos : bool then vr else uint32_range)
    | None => Ok Range_unknown
    end in
  if bool_decide (value_cid = kSmiCid) then r ← GetSmiRange g value; from_range r
  else if type_is_int vd then r ← GetIntRange g value; from_range r
  else Ok uint32_range.

Definition InferRange_UnboxInt64 (g : FlowGraph) (value : nat) : M Range :=
  vd ← defn_at g value;
  match range_ vd with
  | Some r => Ok r
  | None =>
      Ok (if negb (IsMintDefinition vd) && negb (bool_decide (type_cid vd = kSmiCid))
          then Full kRangeBoundaryInt64 else Range_unknown)
  end.

Definition InferRange_UnboxedIntConverter (g : FlowGraph) (from to : Representation) (value : nat) : M Range :=
  let ok r := match r with kUnboxedInt32 | kUnboxedMint | kUnboxedUint32 => true | _ => false end in
  assert_ (ok from);;
  assert_ (ok to);;
  vd ← defn_at g value;
  match range_ vd with
  | None => Ok Range_unknown
  | Some vr =>
      if IsUnknown (min_ vr) then Ok Range_unknown
      else
        match to with
        | kUnboxedUint32 => Ok uint32_range
        | kUnboxedInt32 => Ok (Range_Clamp vr kRangeBoundaryInt32)
        | _ => Ok vr
        end
  end.

(** The virtual method [InferRange]: the range, unknown when it is left alone,
    and the overflow flag when it is set. *)
Definition InferRange_defn (g : FlowGraph) (d : nat) : M (Range * option bool) :=
  defn ← defn_at g d;
  let plain (m : M Range) : M (Range * option bool) := r ← m; Ok (r, None) in
  match instr defn with
  | IConstant v => plain (InferRange_Constant v)
  | IConstraint v c => plain (InferRange_Constraint g v c)
  | IBinaryIntegerOp cls op l r _ tr => InferRange_BinaryIntegerOp g defn cls op l r tr
  | IPhi inputs => plain (InferRange_Phi g defn inputs)
  | ILoadField _ k => plain (InferRange_LoadField defn k)
  | ILoadIndexed cid => plain (InferRange_LoadIndexed defn cid)
  | ILoadCodeUnits cid => plain (InferRange_LoadCodeUnits cid)
  | IIfThenElse t f => plain (InferRange_IfThenElse t f)
  | IBoxInteger _ v => plain (InferRange_BoxInteger g v)
  | IUnboxInt32 v cid _ => plain (InferRange_UnboxInt32 g v cid)
  | IUnboxUint32 v cid => plain (InferRange_UnboxUint32 g v cid)
  | IUnboxInt64 v => plain (InferRange_UnboxInt64 g v)
  | IUnboxedIntConverter from to v => plain (InferRange_UnboxedIntConverter g from to v)
  | IUnaryMintOp _ | IOther => plain (InferRange_default defn)
  end.

(** ** The analysis *)

Inductive JoinOperator := NONE | WIDEN | NARROW.

Definition with_range (defn : Defn) (r : Range) : Defn :=
  mkDefn (instr defn) (Some r) (type_cid defn) (type_is_int defn) (representation defn) (block defn)
    (allows_cse defn) (no_dependencies defn) (tag defn) (inputs_ defn) (attributes defn).

Definition set_range (g : FlowGraph) (d : nat) (r : Range) : FlowGraph :=
  mkGraph (alter (fun defn => with_range defn r) d (definitions g)) (dominator g).

Definition with_can_overflow (defn : Defn) (overflow : bool) : Defn :=
  match instr defn with
  | IBinaryIntegerOp cls op l r _ tr =>
      mkDefn (IBinaryIntegerOp cls op l r overflow tr) (range_ defn) (type_cid defn) (type_is_int defn)
        (representation defn) (block defn) (allows_cse defn) (no_dependencies defn) (tag defn)
        (inputs_ defn) (attributes defn)
  | _ => defn
  end.

Definition set_can_overflow (g : FlowGraph) (d : nat) (overflow : option bool) : FlowGraph :=
  match overflow with
  | None => g
  | Some o => mkGraph (alter (fun defn => with_can_overflow defn o) d (definitions g)) (dominator g)
  end.

(** [RangeAnalysis::InferRange]: whether the range of the definition changed. *)
Definition InferRange (g : FlowGraph) (op : JoinOperator) (d : nat) : M (bool * FlowGraph) :=
  ro ← InferRange_defn g d;
  let '(range, overflow) := (ro : Range * option bool) in
  let g := set_can_overflow g d overflow in
  defn ← defn_at g d;
  if IsUnknown (min_ range) then Ok (false, g)
  else
    range ←
      match range_ defn, instr defn, op with
      | Some old, IPhi _, WIDEN =>
          if IsUnknown (min_ old) then Ok range
          else
            size ← RangeSizeForPhi defn;
            mn ← WidenMin g old range size;
            mx ← WidenMax g old range size;
            Range_new mn mx
      | Some old, IPhi _, NARROW =>
          if IsUnknown (min_ old) then Ok range
          else
            size ← RangeSizeForPhi defn;
            mn ← NarrowMin g old range size;
            mx ← NarrowMax g old range size;
            Range_new mn mx
      | _, _, _ => Ok range
      end;
    eq ← Range_Equals g range (range_ defn);
    Ok (if negb eq then (true, set_range g d range) else (false, g)).

Fixpoint Iterate_pass (g : FlowGraph) (op : JoinOperator) (defns : list nat) (changed : bool)
    : M (bool * FlowGraph) :=
  match defns with
  | [] => Ok (changed, g)
  | d :: defns =>
      cg ← InferRange g op d;
      let '(c, g) := (cg : bool * FlowGraph) in
      Iterate_pass g op defns (changed || c)
  end.

(** [max_iterations] rounds at most; the first is always run. *)
Fixpoint Iterate_loop (rounds : nat) (g : FlowGraph) (op : JoinOperator) (defns : list nat) : M FlowGraph :=
  cg ← Iterate_pass g op defns false;
  let '(changed, g) := (cg : bool * FlowGraph) in
  match rounds with
  | S rounds => if changed : bool then Iterate_loop rounds g op defns else Ok g
  | O => Ok g
  end.
Definition Iterate (g : FlowGraph) (op : JoinOperator) (defns : list nat) (max_iterations : nat) : M FlowGraph :=
  Iterate_loop (max_iterations - 1) g op defns.

(** The three phases of [RangeAnalysis::InferRanges]; [max_iterations] stands for [kMaxInt32]. *)
Definition InferRanges (g : FlowGraph) (defns : list nat) (max_iterations : nat) : M FlowGraph :=
  g ← Iterate g NONE defns 2;
  g ← Iterate g WIDEN defns max_iterations;
  Iterate g NARROW defns max_iterations.

(** ** Constraints *)

Definition FlipComparison (op : Token) : M Token :=
  match op with
  | kEQ => Ok kEQ
  | kNE => Ok kNE
  | kLT => Ok kGT
  | kGT => Ok kLT
  | kLTE => Ok kGTE
  | kGTE => Ok kLTE
  | _ => Err RUnreachable
  end.

Definition NegateComparison (op : Token) : M Token :=
  match op with
  | kEQ => Ok kNE
  | kNE => Ok kEQ
  | kLT => Ok kGTE
  | kGT => Ok kLTE
  | kLTE => Ok kGT
  | kGTE => Ok kLT
  | kEQ_STRICT => Ok kNE_STRICT
  | kNE_STRICT => Ok kEQ_STRICT
  | kIS => Ok kISNOT
  | kISNOT => Ok kIS
  | _ => Err RUnreachable
  end.

Definition ConstraintSmiRange (g : FlowGraph) (op : Token) (boundary : nat) : M Range :=
  match op with
  | kEQ => a ← FromDefinition g boundary 0; b ← FromDefinition g boundary 0; Range_new a b
  | kNE => Ok (Full kRangeBoundarySmi)
  | kLT => b ← FromDefinition g boundary (-1); Range_new MinSmi b
  | kGT => a ← FromDefinition g boundary 1; Range_new a MaxSmi
  | kLTE => b ← FromDefinition g boundary 0; Range_new MinSmi b
  | kGTE => a ← FromDefinition g boundary 0; Range_new a MaxSmi
  | _ => Err RUnreachable
  end.

(** The two constraints of [ConstrainValueAfterBranch], for the true and for the
    false successor; [use_index] says which operand of the comparison is constrained. *)
Definition BranchConstraints (g : FlowGraph) (kind : Token) (use_index : nat) (left right : nat)
    : M (Range * Range) :=
  ob ← (if (use_index =? 0)%nat then Ok (kind, right)
        else assert_ (use_index =? 1)%nat;; op ← FlipComparison kind; Ok (op, left));
  let '(op_kind, boundary) := (ob : Token * nat) in
  t ← ConstraintSmiRange g op_kind boundary;
  neg ← NegateComparison op_kind;
  f ← ConstraintSmiRange g neg boundary;
  Ok (t, f).

(** The range of [ConstrainValueAfterCheckArrayBound]. *)
Definition CheckArrayBoundConstraint (g : FlowGraph) (is_index : bool) (length index : nat) : M Range :=
  if is_index then b ← FromDefinition g length (-1); Range_new (FromConstant 0) b
  else a ← FromDefinition g index 1; Range_new a MaxSmi.

(** ** CheckArrayBoundInstr::IsRedundant *)

Fixpoint IsRedundant_loop (fuel : nat) (g : FlowGraph) (max canonical_length : RangeBoundary) : M bool :=
  same ← DependOnSameSymbol g max canonical_length;
  if same : bool then Ok (offset max <? offset canonical_length)
  else
    match fuel with
    | O => Err ROutOfStack
    | S fuel =>
        m ← CanonicalizeMaxBoundary g max;
        match m with
        | Some max => IsRedundant_loop fuel g max canonical_length
        | None =>
            l ← CanonicalizeMinBoundary g canonical_length;
            match l with
            | Some canonical_length => IsRedundant_loop fuel g max canonical_length
            | None => Ok false
            end
        end
    end.

Definition IsRedundant (g : FlowGraph) (index : nat) (length : RangeBoundary) : M (bool * FlowGraph) :=
  idefn ← defn_at g index;
  start ←
    match range_ idefn with
    | Some r => Ok (Some (g, r))
    | None =>
        match instr idefn with
        | IConstant (SmiObject v) =>
            range ← InferRange_Constant (SmiObject v);
            assert_ (negb (IsUnknown (min_ range)));;
            Ok (Some (set_range g index range, range))
        | _ => Ok None
        end
    end;
  match start with
  | None => Ok (false, g)
  | Some (g, index_range) =>
      lo ← ConstantMinValue g (Some index_range) kRangeBoundarySmi;
      if lo <? 0 then Ok (false, g)
      else
        b ← FromDefinition g index 0;
        max ← CanonicalizeBoundary g b PositiveInfinity;
        if OverflowedSmi max then Ok (false, g)
        else
          max_upper ← UpperBound g max;
          length_lower ← LowerBound g length;
          if OverflowedSmi max_upper || OverflowedSmi length_lower then Ok (false, g)
          else
            mu ← ConstantValue max_upper;
            ll ← ConstantValue length_lower;
            if mu <? ll then Ok (true, g)
            else
              canonical_length ← CanonicalizeBoundary g length PositiveInfinity;
              if OverflowedSmi canonical_length then Ok (false, g)
              else
                r ← IsRedundant_loop (2 * stack_of g) g max canonical_length;
                Ok (r, g)
  end.

End range_analysis.
End RangeAnalysis.
