(* ===== verification/RangeSound.v ===== *)
(** * Soundness of the range analysis

    [rho] gives the run-time value of each definition.  A boundary denotes a
    lower bound ([above]) or an upper bound ([below]) of values, a range the set
    [in_range] of the values it admits; the unknown range is the empty set.  The
    theorems say that the operations on ranges over-approximate the operations on
    values, for any graph whose recorded ranges contain the values of their
    definitions ([graph_ok]).  [rank] is the order in which symbols depend on
    each other: every operation is total on graphs without cyclic symbols. *)

From stdpp Require Import base numbers list.
From Stdlib Require Import ZArith Lia.
From S2P Require Import Prelude Utils RangeAnalysis.

Local Open Scope Z_scope.
Local Open Scope mach_scope.

Module RangeSound.
Import RangeAnalysis.

(** Splits [if]s and comparisons over integers and closes linear goals. *)
Ltac zcase :=
  repeat match goal with
  | |- context [?a <=? ?b] => destruct (Z.leb_spec a b)
  | |- context [?a <? ?b] => destruct (Z.ltb_spec a b)
  | |- context [?a >=? ?b] => rewrite (Z.geb_leb a b)
  | |- context [?a >? ?b] => rewrite (Z.gtb_ltb a b)
  | |- context [?a =? ?b] => destruct (Z.eqb_spec a b)
  end; cbn [andb orb negb].

Section denotation.
Context `{T : Target}.

(** ** Values and boundaries *)

Definition Smi (v : Z) : Prop := kSmiMin <= v <= kSmiMax.
Definition int64 (v : Z) : Prop := Utils.kMinInt64 <= v <= Utils.kMaxInt64.
Definition fits (size : RangeSize) (v : Z) : Prop := MinConstantValue size <= v <= MaxConstantValue size.

Variable rho : nat -> Z.

Definition bval (b : RangeBoundary) : option Z :=
  match b with
  | Symbol s o => Some (rho s + o)
  | FromConstant c => Some c
  | _ => None
  end.

(** Values at or above a lower boundary; an infinite boundary lies outside of the 64-bit integers. *)
Definition above (b : RangeBoundary) (v : Z) : Prop :=
  match b with
  | Unknown => False
  | NegativeInfinity => True
  | PositiveInfinity => Utils.kMaxInt64 < v
  | Symbol s o => rho s + o <= v
  | FromConstant c => c <= v
  end.

Definition below (b : RangeBoundary) (v : Z) : Prop :=
  match b with
  | Unknown => False
  | NegativeInfinity => v < Utils.kMinInt64
  | PositiveInfinity => True
  | Symbol s o => v <= rho s + o
  | FromConstant c => v <= c
  end.

Definition in_range (r : Range) (v : Z) : Prop := above (min_ r) v /\ below (max_ r) v.

Definition is_constant_instr (i : Instr) : bool := match i with IConstant _ => true | _ => false end.

(** An operand of a small integer operation: a constant operand is a small integer. *)
Definition operand_ok (g : FlowGraph) (s : nat) : Prop :=
  exists defn, definitions g !! s = Some defn /\ Smi (rho s) /\
    match instr defn with IConstant (SmiObject _) => True | IConstant _ => False | _ => True end.

(** A definition that may be the symbol of a boundary. *)
Definition symbol_ok (g : FlowGraph) (s : nat) : Prop :=
  exists defn, definitions g !! s = Some defn /\ Smi (rho s) /\ is_constant_instr (instr defn) = false.

Definition boundary_ok (g : FlowGraph) (b : RangeBoundary) : Prop :=
  match b with
  | Unknown => False
  | Symbol s o => isS 64 o /\ symbol_ok g s
  | FromConstant c => isS 64 c
  | _ => True
  end.

Definition range_ok (g : FlowGraph) (r : Range) : Prop := boundary_ok g (min_ r) /\ boundary_ok g (max_ r).

Section graph.
Variable rank : nat -> nat.

Definition weight (b : RangeBoundary) : nat := match b with Symbol s _ => S (rank s) | _ => O end.

(** What the values owe to the instructions that the analysis looks through. *)
Definition instr_ok (g : FlowGraph) (d : nat) (i : Instr) : Prop :=
  match i with
  | IConstant (SmiObject v) => rho d = v /\ Smi v
  | IConstraint v _ => rho d = rho v /\ symbol_ok g v /\ (rank v < rank d)%nat
  | IBinaryIntegerOp BinarySmiOp kADD l r _ _ =>
      rho d = rho l + rho r /\ operand_ok g l /\ operand_ok g r /\ (symbol_ok g l \/ symbol_ok g r) /\
      (rank l < rank d)%nat /\ (rank r < rank d)%nat
  | IBinaryIntegerOp BinarySmiOp kSUB l r _ _ =>
      rho d = rho l - rho r /\ operand_ok g l /\ operand_ok g r /\ (symbol_ok g l \/ symbol_ok g r) /\
      (rank l < rank d)%nat /\ (rank r < rank d)%nat
  | IBinaryIntegerOp BinarySmiOp _ l r _ _ => operand_ok g l /\ operand_ok g r
  | ILoadField _ k => IsImmutableLengthLoad k = true -> Smi (rho d)
  | _ => True
  end.

Record graph_ok (g : FlowGraph) : Prop := {
  ok_rank : forall d defn, definitions g !! d = Some defn -> (rank d < length (definitions g))%nat;
  ok_instr : forall d defn, definitions g !! d = Some defn -> instr_ok g d (instr defn);
  ok_range : forall d defn r, definitions g !! d = Some defn -> range_ defn = Some r ->
    range_ok g r /\ in_range r (rho d) /\ (weight (min_ r) <= rank d)%nat /\ (weight (max_ r) <= rank d)%nat;
  ok_cse : forall a b da db, definitions g !! a = Some da -> definitions g !! b = Some db ->
    allows_cse da && no_dependencies da && allows_cse db && no_dependencies db && Instruction_Equals da db = true ->
    rho a = rho b
}.

(** ** Small integers *)

Lemma kSmi_eq : kSmiMin = - (kSmiMax + 1) /\ 2 ^ 30 - 1 <= kSmiMax <= 2 ^ 62 - 1.
Proof.
  unfold kSmiMin, kSmiMax, kSmiBits. destruct kBitsPerWord_ok as [->| ->]; vm_compute; intuition congruence.
Qed.

Lemma Smi_int64 v : Smi v -> - 2 ^ 62 <= v <= 2 ^ 62 - 1.
Proof. unfold Smi. pose proof kSmi_eq. lia. Qed.

Lemma int64_isS v : int64 v <-> isS 64 v.
Proof. unfold int64, isS, Utils.kMinInt64, Utils.kMaxInt64. change (64 - 1) with 63. lia. Qed.

Lemma fits_int64 size v : fits size v -> int64 v.
Proof.
  pose proof kSmi_eq. unfold fits, int64, Utils.kMinInt64, Utils.kMaxInt64.
  destruct size; cbn [MinConstantValue MaxConstantValue]; unfold kMinInt32, kMaxInt32, Utils.kMinInt64, Utils.kMaxInt64;
    lia.
Qed.

Lemma size_bounds size :
  Utils.kMinInt64 <= MinConstantValue size < 0 /\ 0 < MaxConstantValue size <= Utils.kMaxInt64.
Proof.
  pose proof kSmi_eq. destruct size; cbn [MinConstantValue MaxConstantValue];
    unfold kMinInt32, kMaxInt32, Utils.kMinInt64, Utils.kMaxInt64; lia.
Qed.

(** ** Constant bounds *)

(** A constant lower bound of [v], as [LowerBound] returns them; likewise for upper bounds. *)
Definition lowb (b : RangeBoundary) (v : Z) : Prop :=
  match b with NegativeInfinity => True | FromConstant c => isS 64 c /\ c <= v | _ => False end.
Definition upb (b : RangeBoundary) (v : Z) : Prop :=
  match b with PositiveInfinity => True | FromConstant c => isS 64 c /\ v <= c | _ => False end.

Definition is_lowb (b : RangeBoundary) : Prop :=
  match b with NegativeInfinity => True | FromConstant c => isS 64 c | _ => False end.
Definition is_upb (b : RangeBoundary) : Prop :=
  match b with PositiveInfinity => True | FromConstant c => isS 64 c | _ => False end.

Lemma lowb_above b v : lowb b v -> above b v.
Proof. destruct b; simpl; tauto. Qed.
Lemma upb_below b v : upb b v -> below b v.
Proof. destruct b; simpl; tauto. Qed.

Lemma Clamp_constant b size :
  is_lowb b \/ is_upb b ->
  exists c, Clamp b size = FromConstant c /\ fits size c /\
    (forall v, lowb b v -> fits size v -> c <= v) /\ (forall v, upb b v -> fits size v -> v <= c).
Proof.
  intros Hb. pose proof (size_bounds size) as Hs. unfold fits.
  destruct b as [| | |s o|c]; try (simpl in Hb; tauto).
  - exists (MinConstantValue size). simpl. repeat split; try lia; intros; tauto || lia.
  - exists (MaxConstantValue size). simpl. repeat split; try lia; intros; tauto || lia.
  - cbn [Clamp lowb upb]. unfold MinConstant, MaxConstant. zcase.
    all: eexists; split; [reflexivity|]; repeat split; try lia; intros v [??] ?; lia.
Qed.

(** The overflow tests are defined on 64-bit values; each either reports an overflow
    or the operation fits. *)
Lemma add_overflow a b :
  isS 64 a -> isS 64 b -> exists ov, Utils.WillAddOverflow a b = Some ov /\ (ov = false -> isS 64 (a + b)).
Proof.
  intros Ha Hb. eexists. split; [apply Utils.WillAddOverflow_spec; done|].
  case_bool_decide; [done|]. intros _. destruct (decide (isS 64 (a + b))); tauto.
Qed.

Lemma sub_overflow a b :
  isS 64 a -> isS 64 b -> exists ov, Utils.WillSubOverflow a b = Some ov /\ (ov = false -> isS 64 (a - b)).
Proof.
  intros Ha Hb. eexists. split; [apply Utils.WillSubOverflow_spec; done|].
  case_bool_decide; [done|]. intros _. destruct (decide (isS 64 (a - b))); tauto.
Qed.

(** Splits on the overflow test of the goal, whose arguments have hypotheses [isS]. *)
Ltac overflow_cases a b E :=
  let ov := fresh "ov" in let EQ := fresh in
  first [destruct (add_overflow a b) as (ov & EQ & E); [done|done|]; rewrite EQ
        |destruct (sub_overflow a b) as (ov & EQ & E); [done|done|]; rewrite EQ];
  clear EQ; cbn [defined mbind result_bind]; destruct ov; [clear E|specialize (E eq_refl)].

Lemma Add_low a b v w :
  is_lowb a -> is_lowb b ->
  exists c, Add a b NegativeInfinity = Ok c /\ is_lowb c /\ (lowb a v -> lowb b w -> lowb c (v + w)).
Proof.
  destruct a as [| | | |ca], b as [| | | |cb]; simpl; try tauto; intros Ha Hb;
    try (eexists; split; [reflexivity|]; simpl; tauto).
  unfold Add. cbn. overflow_cases ca cb E; [eexists; split; [done|]; simpl; tauto|].
  rewrite wrapS_id by (done || lia). eexists; split; [done|]. simpl. split; [done|]. intros [??] [??]. split; [done|lia].
Qed.

Lemma Add_up a b v w :
  is_upb a -> is_upb b ->
  exists c, Add a b PositiveInfinity = Ok c /\ is_upb c /\ (upb a v -> upb b w -> upb c (v + w)).
Proof.
  destruct a as [| | | |ca], b as [| | | |cb]; simpl; try tauto; intros Ha Hb;
    try (eexists; split; [reflexivity|]; simpl; tauto).
  unfold Add. cbn. overflow_cases ca cb E; [eexists; split; [done|]; simpl; tauto|].
  rewrite wrapS_id by (done || lia). eexists; split; [done|]. simpl. split; [done|]. intros [??] [??]. split; [done|lia].
Qed.

(** The bounds of boundaries: total, and on the right side of the value. *)
Section bounds.
Variable g : FlowGraph.
Hypothesis Hg : graph_ok g.

Lemma LowerBound_upto_ok fuel b :
  boundary_ok g b -> (weight b <= fuel)%nat ->
  exists lb, LowerBound_upto fuel g b = Ok lb /\ is_lowb lb /\ forall v, above b v -> lowb lb v.
Proof.
  revert b. induction fuel as [|fuel IH]; intros [| | |s o|c] Hb Hw; cbn [weight] in Hw; try lia; try (by destruct Hb).
  all: try (eexists; split; [reflexivity|]; simpl in *; tauto).
  destruct Hb as [Ho (defn & Hd & Hs & _)]. cbn [LowerBound_upto]. unfold defn_at. rewrite Hd. cbn [mbind result_bind].
  assert (exists m, match range_ defn with
      | Some r => LowerBound_upto fuel g (min_ r) ≫= fun lb => Ok (Clamp lb kRangeBoundarySmi)
      | None => Ok MinSmi end = Ok (FromConstant m) /\ isS 64 m /\ m <= rho s) as (m & -> & Hm & Hms).
  { pose proof (Smi_int64 _ Hs). destruct (range_ defn) as [r|] eqn:Er.
    - destruct (ok_range _ Hg _ _ _ Hd Er) as ([Hmin _] & [Hin _] & Hwr & _).
      destruct (IH (min_ r) Hmin ltac:(lia)) as (lb & -> & Hl & Hv).
      destruct (Clamp_constant lb kRangeBoundarySmi ltac:(tauto)) as (c & Hc & Hf & Hle & _).
      exists c. cbn [mbind result_bind]. rewrite Hc. split; [done|]. split; [by apply int64_isS, (fits_int64 _ _ Hf)|].
      apply Hle; [by apply Hv|exact Hs].
    - exists kSmiMin. split; [done|]. pose proof kSmi_eq. unfold isS, Smi in *. change (64 - 1) with 63. lia. }
  cbn [mbind result_bind]. destruct (Add_low (FromConstant m) (FromConstant o) (rho s) o) as (c & -> & Hc & Hcv); [done..|].
  exists c. split; [done|]. split; [done|]. intros v Hv. simpl in Hv. specialize (Hcv (conj Hm Hms) (conj Ho (Z.le_refl _))).
  destruct c; simpl in *; try tauto. intuition lia.
Qed.

Lemma UpperBound_upto_ok fuel b :
  boundary_ok g b -> (weight b <= fuel)%nat ->
  exists ub, UpperBound_upto fuel g b = Ok ub /\ is_upb ub /\ forall v, below b v -> upb ub v.
Proof.
  revert b. induction fuel as [|fuel IH]; intros [| | |s o|c] Hb Hw; cbn [weight] in Hw; try lia; try (by destruct Hb).
  all: try (eexists; split; [reflexivity|]; simpl in *; tauto).
  destruct Hb as [Ho (defn & Hd & Hs & _)]. cbn [UpperBound_upto]. unfold defn_at. rewrite Hd. cbn [mbind result_bind].
  assert (exists m, match range_ defn with
      | Some r => UpperBound_upto fuel g (max_ r) ≫= fun ub => Ok (Clamp ub kRangeBoundarySmi)
      | None => Ok MaxSmi end = Ok (FromConstant m) /\ isS 64 m /\ rho s <= m) as (m & -> & Hm & Hms).
  { pose proof (Smi_int64 _ Hs). destruct (range_ defn) as [r|] eqn:Er.
    - destruct (ok_range _ Hg _ _ _ Hd Er) as ([_ Hmax] & [_ Hin] & _ & Hwr).
      destruct (IH (max_ r) Hmax ltac:(lia)) as (ub & -> & Hl & Hv).
      destruct (Clamp_constant ub kRangeBoundarySmi ltac:(tauto)) as (c & Hc & Hf & _ & Hle).
      exists c. cbn [mbind result_bind]. rewrite Hc. split; [done|]. split; [by apply int64_isS, (fits_int64 _ _ Hf)|].
      apply Hle; [by apply Hv|exact Hs].
    - exists kSmiMax. split; [done|]. pose proof kSmi_eq. unfold isS, Smi in *. change (64 - 1) with 63. lia. }
  cbn [mbind result_bind]. destruct (Add_up (FromConstant m) (FromConstant o) (rho s) o) as (c & -> & Hc & Hcv); [done..|].
  exists c. split; [done|]. split; [done|]. intros v Hv. simpl in Hv. specialize (Hcv (conj Hm Hms) (conj Ho (Z.le_refl _))).
  destruct c; simpl in *; try tauto. intuition lia.
Qed.

Lemma weight_stack b : boundary_ok g b -> (weight b < stack_of g)%nat.
Proof.
  unfold stack_of. destruct b; simpl; try lia. intros [_ (defn & Hd & _)]. apply (ok_rank _ Hg) in Hd. lia.
Qed.

Lemma LowerBound_ok b :
  boundary_ok g b -> exists lb, LowerBound g b = Ok lb /\ is_lowb lb /\ forall v, above b v -> lowb lb v.
Proof. intros Hb. apply LowerBound_upto_ok; [done|]. pose proof (weight_stack b Hb). lia. Qed.

Lemma UpperBound_ok b :
  boundary_ok g b -> exists ub, UpperBound g b = Ok ub /\ is_upb ub /\ forall v, below b v -> upb ub v.
Proof. intros Hb. apply UpperBound_upto_ok; [done|]. pose proof (weight_stack b Hb). lia. Qed.

Lemma LowerBoundValue_ok b size :
  boundary_ok g b ->
  exists c, LowerBoundValue g b size = Ok c /\ fits size c /\ forall v, above b v -> fits size v -> c <= v.
Proof.
  intros Hb. unfold LowerBoundValue. destruct (LowerBound_ok b Hb) as (lb & -> & Hl & Hv).
  destruct (Clamp_constant lb size ltac:(tauto)) as (c & Hc & Hf & Hle & _).
  cbn [mbind result_bind]. rewrite Hc. exists c. split; [done|]. eauto.
Qed.

Lemma UpperBoundValue_ok b size :
  boundary_ok g b ->
  exists c, UpperBoundValue g b size = Ok c /\ fits size c /\ forall v, below b v -> fits size v -> v <= c.
Proof.
  intros Hb. unfold UpperBoundValue. destruct (UpperBound_ok b Hb) as (ub & -> & Hu & Hv).
  destruct (Clamp_constant ub size ltac:(tauto)) as (c & Hc & Hf & _ & Hle).
  cbn [mbind result_bind]. rewrite Hc. exists c. split; [done|]. eauto.
Qed.

(** ** Symbols *)

Lemma UnwrapConstraint_upto_ok fuel d defn :
  definitions g !! d = Some defn -> (rank d < fuel)%nat ->
  exists u udefn, UnwrapConstraint_upto fuel g d = Ok u /\ definitions g !! u = Some udefn /\ rho u = rho d /\
    (is_constant_instr (instr udefn) || is_constant_instr (instr defn) = true -> u = d) /\ match instr udefn with IConstraint _ _ => False | _ => True end.
Proof.
  revert d defn. induction fuel as [|fuel IH]; intros d defn Hd Hr; [lia|].
  cbn [UnwrapConstraint_upto]. unfold defn_at. rewrite Hd. cbn [mbind result_bind].
  pose proof (ok_instr _ Hg _ _ Hd) as Hi. destruct (instr defn) eqn:Ei.
  2:{ destruct Hi as (Hv & (vdefn & Hvd & Hsm & Hnc) & Hrk).
      destruct (IH _ _ Hvd ltac:(lia)) as (u & ud & -> & Hud & Hru & Hc & Hn).
      exists u, ud. split; [done|]. split; [done|]. split; [by rewrite Hru|]. split; [|done].
      cbn [is_constant_instr]. rewrite orb_false_r. intros Hk. assert (u = value) as -> by (apply Hc; by rewrite Hk).
      rewrite Hvd in Hud. simplify_eq. congruence. }
  all: exists d, defn; rewrite Ei; done.
Qed.

Lemma UnwrapConstraint_ok d defn :
  definitions g !! d = Some defn ->
  exists u udefn, UnwrapConstraint g d = Ok u /\ definitions g !! u = Some udefn /\ rho u = rho d /\
    (is_constant_instr (instr udefn) || is_constant_instr (instr defn) = true -> u = d) /\ match instr udefn with IConstraint _ _ => False | _ => True end.
Proof.
  intros Hd. eapply UnwrapConstraint_upto_ok; [done|]. apply (ok_rank _ Hg) in Hd. unfold stack_of. lia.
Qed.

Lemma AreEqualDefinitions_ok a b da db :
  definitions g !! a = Some da -> definitions g !! b = Some db ->
  exists r, AreEqualDefinitions g a b = Ok r /\ (r = true -> rho a = rho b).
Proof.
  intros Ha Hb. unfold AreEqualDefinitions.
  destruct (UnwrapConstraint_ok _ _ Ha) as (u & ud & -> & Hu & Hru & _).
  destruct (UnwrapConstraint_ok _ _ Hb) as (w & wd & -> & Hw & Hrw & _).
  cbn [mbind result_bind]. unfold defn_at. rewrite Hu, Hw. cbn [mbind result_bind].
  eexists; split; [reflexivity|]. rewrite <- Hru, <- Hrw. intros [->%Nat.eqb_eq|Hc]%orb_true_iff; [done|].
  exact (ok_cse _ Hg _ _ _ _ Hu Hw Hc).
Qed.

Lemma DependOnSameSymbol_ok a b :
  boundary_ok g a -> boundary_ok g b ->
  exists r, DependOnSameSymbol g a b = Ok r /\
    (r = true -> exists sa oa sb ob, a = Symbol sa oa /\ b = Symbol sb ob /\ rho sa = rho sb).
Proof.
  intros Ha Hb. destruct a, b; try (eexists; split; [reflexivity|done]).
  destruct Ha as [_ (da & Hda & _)], Hb as [_ (db & Hdb & _)].
  destruct (AreEqualDefinitions_ok _ _ _ _ Hda Hdb) as (r & Hr & Hs). exists r. split; [done|].
  intros Ht. do 4 eexists. eauto.
Qed.

Lemma Equals_ok a b :
  boundary_ok g a -> boundary_ok g b ->
  exists r, Equals g a b = Ok r /\ (r = true -> (forall v, above a v <-> above b v) /\ (forall v, below a v <-> below b v)).
Proof.
  intros Ha Hb. destruct a as [| | |sa oa|ca], b as [| | |sb ob|cb]; cbn [Equals];
    try (eexists; split; [reflexivity|]; try done; intros; split; done).
  - destruct (Z.eqb_spec oa ob) as [->|]; [|eexists; split; [reflexivity|done]].
    destruct (DependOnSameSymbol_ok _ _ Ha Hb) as (r & -> & Hs). exists r. split; [done|].
    intros (? & ? & ? & ? & [= <- <-] & [= <- <-] & Heq)%Hs. simpl. rewrite Heq. done.
  - eexists; split; [reflexivity|]. intros ->%Z.eqb_eq. done.
Qed.

Lemma Overflowed_ok b size :
  is_lowb b \/ is_upb b ->
  exists r, Overflowed g b size = Ok r /\ (r = false -> exists c, b = FromConstant c /\ fits size c).
Proof.
  intros Hb. destruct b as [| | | |c]; try (simpl in Hb; tauto).
  1-2: eexists; split; [reflexivity|done].
  unfold Overflowed. cbn [IsConstantOrInfinity IsConstant orb assert_ mbind result_bind Clamp].
  pose proof (size_bounds size). unfold MinConstant, MaxConstant, fits. zcase; cbn [Equals mbind result_bind].
  all: eexists; split; [reflexivity|]; intros Hn%negb_false_iff%Z.eqb_eq; exists c; split; [done|lia].
Qed.

Lemma FromDefinition_symbol s o :
  symbol_ok g s -> isS 64 o -> FromDefinition g s o = Ok (Symbol s o).
Proof.
  intros (defn & Hd & _ & Hc) _. unfold FromDefinition, defn_at. rewrite Hd. cbn [mbind result_bind].
  destruct (instr defn) as [[]| | | | | | | | | | | | | |]; done.
Qed.

(** A definition with a small offset, constants included. *)
Lemma FromDefinition_ok d o :
  operand_ok g d -> -1 <= o <= 1 ->
  exists b, FromDefinition g d o = Ok b /\ boundary_ok g b /\ bval b = Some (rho d + o).
Proof.
  intros (defn & Hd & Hs & Hc) Ho. unfold FromDefinition, defn_at. rewrite Hd. cbn [mbind result_bind].
  pose proof (Smi_int64 _ Hs) as Hb. pose proof (ok_instr _ Hg _ _ Hd) as Hi.
  assert (isS 64 o) by (unfold isS; change (64 - 1) with 63; lia).
  assert (is_constant_instr (instr defn) = false ->
    exists b, Ok (E := range_error) (Symbol d o) = Ok b /\ boundary_ok g b /\ bval b = Some (rho d + o)) as Hsym.
  { intros Hn. eexists. split; [reflexivity|]. split; [|done]. split; [done|]. exists defn. done. }
  destruct (instr defn) as [[]| | | | | | | | | | | | | |]; try (by apply Hsym); try done.
  destruct Hi as [<- _]. eexists; split; [reflexivity|].
  assert (isS 64 (rho d + o)) by (unfold isS; change (64 - 1) with 63; lia).
  rewrite wrapS_id by (done || lia). done.
Qed.

Lemma bval_above b x v : bval b = Some x -> above b v <-> x <= v.
Proof. destruct b; simpl; try done; intros [= <-]; done. Qed.
Lemma bval_below b x v : bval b = Some x -> below b v <-> v <= x.
Proof. destruct b; simpl; try done; intros [= <-]; done. Qed.

Lemma SymbolicAdd_symbol_ok a b :
  boundary_ok g a -> boundary_ok g b ->
  exists r, SymbolicAdd_symbol g a b = Ok r /\
    forall c, r = Some c -> boundary_ok g c /\ exists x y, bval a = Some x /\ bval b = Some y /\ bval c = Some (x + y).
Proof.
  intros Ha Hb. destruct a as [| | |s o|], b as [| | | |v]; try (eexists; split; [reflexivity|done]).
  destruct Ha as [Ho Hs]. cbn [SymbolicAdd_symbol]. overflow_cases o v E; [eexists; split; [done|done]|].
  rewrite wrapS_id by (done || lia). rewrite FromDefinition_symbol by done.
  eexists; split; [reflexivity|]. intros c [= <-]. split; [done|]. do 2 eexists. split; [done|]. split; [done|].
  simpl. f_equal. lia.
Qed.

Lemma SymbolicAdd_ok a b :
  boundary_ok g a -> boundary_ok g b ->
  exists r, SymbolicAdd g a b = Ok r /\
    forall c, r = Some c -> boundary_ok g c /\ exists x y, bval a = Some x /\ bval b = Some y /\ bval c = Some (x + y).
Proof.
  intros Ha Hb. unfold SymbolicAdd. destruct (IsSymbol a && IsConstant b); [by apply SymbolicAdd_symbol_ok|].
  destruct (IsSymbol b && IsConstant a); [|eexists; split; [reflexivity|done]].
  destruct (SymbolicAdd_symbol_ok b a Hb Ha) as (r & Hr & Hc). exists r. split; [done|].
  intros c (Hbc & x & y & Hx & Hy & Hxy)%Hc. split; [done|]. exists y, x. split; [done|]. split; [done|]. by rewrite Z.add_comm.
Qed.

Lemma SymbolicSub_ok a b :
  boundary_ok g a -> boundary_ok g b ->
  exists r, SymbolicSub g a b = Ok r /\
    forall c, r = Some c -> boundary_ok g c /\ exists x y, bval a = Some x /\ bval b = Some y /\ bval c = Some (x - y).
Proof.
  intros Ha Hb. destruct a as [| | |s o|], b as [| | | |v]; try (eexists; split; [reflexivity|done]).
  destruct Ha as [Ho Hs]. cbn [SymbolicSub]. overflow_cases o v E; [eexists; split; [done|done]|].
  rewrite wrapS_id by (done || lia). rewrite FromDefinition_symbol by done.
  eexists; split; [reflexivity|]. intros c [= <-]. split; [done|]. do 2 eexists. split; [done|]. split; [done|].
  simpl. f_equal. lia.
Qed.

(** ** Canonical boundaries *)

Lemma Smi_Cast_ok s defn :
  operand_ok g s -> definitions g !! s = Some defn ->
  exists r, Smi_Cast defn = Ok r /\ (forall v, r = Some v -> rho s = v /\ isS 64 v /\ ~ symbol_ok g s).
Proof.
  intros (defn' & Hd & Hs & Hc) Hd'. rewrite Hd in Hd'. simplify_eq. pose proof (ok_instr _ Hg _ _ Hd) as Hi.
  pose proof (Smi_int64 _ Hs). unfold Smi_Cast. destruct (instr defn) as [[]| | | | | | | | | | | | | |] eqn:Ei; try done.
  all: eexists; split; [reflexivity|]; try done. intros v [= <-]. destruct Hi as [Hv _]. split; [done|].
  split; [unfold isS; change (64 - 1) with 63; lia|]. intros (d'' & Hd'' & _ & Hn). simplify_eq. by rewrite Ei in Hn.
Qed.

Definition canonical_ok (s : nat) (o : Z) (r : canonical_step) : Prop :=
  match r with
  | CNext s' o' => symbol_ok g s' /\ isS 64 o' /\ rho s' + o' = rho s + o /\ (rank s' < rank s)%nat
  | _ => True
  end.

Lemma CanonicalizeBoundary_step_ok s o :
  symbol_ok g s -> isS 64 o -> exists r, CanonicalizeBoundary_step g s o = Ok r /\ canonical_ok s o r.
Proof.
  intros (defn & Hd & Hs & Hc) Ho. unfold CanonicalizeBoundary_step, defn_at. rewrite Hd. cbn [mbind result_bind].
  pose proof (ok_instr _ Hg _ _ Hd) as Hi.
  destruct (instr defn) as [|v cr|cls op l r co tr| | | | | | | | | | | |] eqn:Ei; try (eexists; split; [reflexivity|done]).
  { destruct Hi as (Hv & Hsv & Hr). eexists; split; [reflexivity|]. simpl. rewrite Hv. done. }
  destruct cls; try (eexists; split; [reflexivity|done]).
  assert (operand_ok g l /\ operand_ok g r) as [Hl Hr] by (destruct op; simpl in Hi; tauto).
  pose proof Hl as (dl & Hdl & _). pose proof Hr as (dr & Hdr & _). rewrite Hdl, Hdr. cbn [mbind result_bind].
  destruct op; try (eexists; split; [reflexivity|done]).
  - destruct Hi as (Hsum & _ & _ & Hsym & Hrl & Hrr).
    destruct (Smi_Cast_ok r dr Hr Hdr) as (rc & -> & Hrc). cbn [mbind result_bind]. destruct rc as [v|].
    + destruct (Hrc v eq_refl) as (Hrv & Hv & Hns). overflow_cases o v E; [eexists; split; [reflexivity|done]|].
      rewrite wrapS_id by (done || lia).
      eexists; split; [reflexivity|]. simpl. split; [tauto|]. split; [done|]. split; [lia|done].
    + destruct (Smi_Cast_ok l dl Hl Hdl) as (lc & -> & Hlc). cbn [mbind result_bind].
      destruct lc as [v|]; [|eexists; split; [reflexivity|done]].
      destruct (Hlc v eq_refl) as (Hlv & Hv & Hns). overflow_cases o v E; [eexists; split; [reflexivity|done]|].
      rewrite wrapS_id by (done || lia).
      eexists; split; [reflexivity|]. simpl. split; [tauto|]. split; [done|]. split; [lia|done].
  - destruct Hi as (Hsum & _ & _ & Hsym & Hrl & Hrr).
    destruct (Smi_Cast_ok r dr Hr Hdr) as (rc & -> & Hrc). cbn [mbind result_bind]. destruct rc as [v|].
    2: eexists; split; [reflexivity|done].
    destruct (Hrc v eq_refl) as (Hrv & Hv & Hns). overflow_cases o v E; [eexists; split; [reflexivity|done]|].
    rewrite wrapS_id by (done || lia).
    eexists; split; [reflexivity|]. simpl. split; [tauto|]. split; [done|]. split; [lia|done].
Qed.

Lemma CanonicalizeBoundary_loop_ok fuel s o overflow :
  symbol_ok g s -> isS 64 o -> (rank s <= fuel)%nat ->
  exists c, CanonicalizeBoundary_loop fuel g s o overflow = Ok c /\
    (c = overflow \/ exists s' o', c = Symbol s' o' /\ symbol_ok g s' /\ isS 64 o' /\ rho s' + o' = rho s + o /\ (rank s' <= rank s)%nat).
Proof.
  revert s o. induction fuel as [|fuel IH]; intros s o Hs Ho Hr; cbn [CanonicalizeBoundary_loop].
  all: destruct (CanonicalizeBoundary_step_ok s o Hs Ho) as (r & -> & Hok); cbn [mbind result_bind].
  all: destruct r as [| |s' o']; [rewrite FromDefinition_symbol by done; eexists; split; [reflexivity|]; right; eauto 10|eauto|].
  all: destruct Hok as (Hs' & Ho' & Heq & Hlt).
  { lia. }
  destruct (IH s' o' Hs' Ho' ltac:(lia)) as (c & -> & Hc). exists c. split; [done|].
  destruct Hc as [->|(s2 & o2 & -> & ? & ? & ? & ?)]; [by left|]. right. exists s2, o2. split; [done|]. split; [done|]. split; [done|]. split; [congruence|lia].
Qed.

Lemma CanonicalizeBoundary_ok a overflow :
  boundary_ok g a ->
  exists c, CanonicalizeBoundary g a overflow = Ok c /\
    (c = overflow \/ (boundary_ok g c /\ (weight c <= weight a)%nat /\ bval c = bval a /\ (IsSymbol a = false -> c = a))).
Proof.
  intros Ha. destruct a as [| | |s o|v]; try done.
  1-2,4: eexists; split; [reflexivity|]; right; done.
  destruct Ha as [Ho Hs]. pose proof Hs as (defn & Hd & _). apply (ok_rank _ Hg) in Hd.
  destruct (CanonicalizeBoundary_loop_ok (stack_of g) s o overflow Hs Ho) as (c & Hc & Hok); [unfold stack_of; lia|].
  exists c. split; [done|]. destruct Hok as [->|(s' & o' & -> & Hs' & Ho' & Heq & Hr)]; [by left|]. right.
  split; [done|]. split; [simpl; lia|]. split; [simpl; f_equal; lia|done].
Qed.

(** Following the minimum of a symbol's range gives a smaller boundary, its maximum a greater one. *)
Lemma CanonicalizeMinBoundary_ok a :
  boundary_ok g a ->
  exists r, CanonicalizeMinBoundary g a = Ok r /\
    forall c, r = Some c -> boundary_ok g c /\ (weight c < weight a)%nat /\ forall v, above a v -> above c v.
Proof.
  intros Ha. unfold CanonicalizeMinBoundary, CanonicalizeSide.
  destruct a as [| | |s o|v]; try (eexists; split; [reflexivity|done]).
  destruct Ha as [Ho (defn & Hd & Hs & Hc)]. unfold defn_at. rewrite Hd. cbn [mbind result_bind].
  destruct (range_ defn) as [r|] eqn:Er; [|eexists; split; [reflexivity|done]].
  destruct (ok_range _ Hg _ _ _ Hd Er) as ([Hmin _] & [Hin _] & Hwr & _).
  destruct (min_ r) as [| | |s' o'|]; try (eexists; split; [reflexivity|done]).
  destruct Hmin as [Ho' Hs']. simpl in Hin, Hwr.
  overflow_cases o' o E.
  { eexists; split; [reflexivity|]. intros c [= <-]. split; [done|]. split; [simpl; lia|done]. }
  rewrite wrapS_id by (done || lia).
  rewrite FromDefinition_symbol by done. cbn [mbind result_bind].
  destruct (CanonicalizeBoundary_ok (Symbol s' (o' + o)) NegativeInfinity (conj E Hs')) as (c & -> & Hok).
  cbn [mbind result_bind]. eexists; split; [reflexivity|]. intros c' [= <-].
  destruct Hok as [->|(Hb & Hw & Hv & _)]; [split; [done|]; split; [simpl; lia|done]|].
  split; [done|]. split; [simpl in *; lia|]. intros v Hav. apply (bval_above c _ v Hv). simpl in Hav. lia.
Qed.

Lemma CanonicalizeMaxBoundary_ok a :
  boundary_ok g a ->
  exists r, CanonicalizeMaxBoundary g a = Ok r /\
    forall c, r = Some c -> boundary_ok g c /\ (weight c < weight a)%nat /\ forall v, below a v -> below c v.
Proof.
  intros Ha. unfold CanonicalizeMaxBoundary, CanonicalizeSide.
  destruct a as [| | |s o|v]; try (eexists; split; [reflexivity|done]).
  destruct Ha as [Ho (defn & Hd & Hs & Hc)]. unfold defn_at. rewrite Hd. cbn [mbind result_bind].
  destruct (range_ defn) as [r|] eqn:Er; [|eexists; split; [reflexivity|done]].
  destruct (ok_range _ Hg _ _ _ Hd Er) as ([_ Hmax] & [_ Hin] & _ & Hwr).
  destruct (max_ r) as [| | |s' o'|]; try (eexists; split; [reflexivity|done]).
  destruct Hmax as [Ho' Hs']. simpl in Hin, Hwr.
  overflow_cases o' o E.
  { eexists; split; [reflexivity|]. intros c [= <-]. split; [done|]. split; [simpl; lia|done]. }
  rewrite wrapS_id by (done || lia).
  rewrite FromDefinition_symbol by done. cbn [mbind result_bind].
  destruct (CanonicalizeBoundary_ok (Symbol s' (o' + o)) PositiveInfinity (conj E Hs')) as (c & -> & Hok).
  cbn [mbind result_bind]. eexists; split; [reflexivity|]. intros c' [= <-].
  destruct Hok as [->|(Hb & Hw & Hv & _)]; [split; [done|]; split; [simpl; lia|done]|].
  split; [done|]. split; [simpl in *; lia|]. intros v Hav. apply (bval_below c _ v Hv). simpl in Hav. lia.
Qed.

(** What [CanonicalizeForComparison] needs of its operator, [side] being [above] or [below]. *)
Definition boundary_op_ok (side : RangeBoundary -> Z -> Prop)
    (op : FlowGraph -> RangeBoundary -> M (option RangeBoundary)) : Prop :=
  forall a, boundary_ok g a ->
  exists r, op g a = Ok r /\
    forall c, r = Some c -> boundary_ok g c /\ (weight c < weight a)%nat /\ forall v, side a v -> side c v.

Lemma CanonicalizeForComparison_loop_ok side op fuel a b :
  boundary_op_ok side op -> boundary_ok g a -> boundary_ok g b -> (weight a + weight b < fuel)%nat ->
  exists r, CanonicalizeForComparison_loop fuel g a b op = Ok r /\
    forall a' b', r = Some (a', b') ->
    boundary_ok g a' /\ boundary_ok g b' /\ (forall v, side a v -> side a' v) /\ (forall v, side b v -> side b' v) /\
    exists sa oa sb ob, a' = Symbol sa oa /\ b' = Symbol sb ob /\ rho sa = rho sb.
Proof.
  intros Hop. revert a b. induction fuel as [|fuel IH]; intros a b Ha Hb Hf; [lia|].
  cbn [CanonicalizeForComparison_loop]. destruct (DependOnSameSymbol_ok a b Ha Hb) as (same & -> & Hsame).
  cbn [mbind result_bind]. destruct same.
  { eexists; split; [reflexivity|]. intros a' b' [= <- <-]. eauto 10. }
  destruct (Hop a Ha) as (ra & -> & Hra). cbn [mbind result_bind]. destruct ra as [a2|].
  - destruct (Hra a2 eq_refl) as (Ha2 & Hw2 & Hs2). destruct (IH a2 b Ha2 Hb ltac:(lia)) as (r & -> & Hr).
    exists r. split; [done|]. intros a' b' (? & ? & ? & ? & ?)%Hr. eauto 10.
  - destruct (Hop b Hb) as (rb & -> & Hrb). cbn [mbind result_bind]. destruct rb as [b2|]; [|eexists; split; [reflexivity|done]].
    destruct (Hrb b2 eq_refl) as (Hb2 & Hw2 & Hs2). destruct (IH a b2 Ha Hb2 ltac:(lia)) as (r & -> & Hr).
    exists r. split; [done|]. intros a' b' (? & ? & ? & ? & ?)%Hr. eauto 10.
Qed.

Lemma CanonicalizeForComparison_ok side op a b :
  boundary_op_ok side op -> boundary_ok g a -> boundary_ok g b ->
  exists r, CanonicalizeForComparison g a b op = Ok r /\
    forall a' b', r = Some (a', b') ->
    boundary_ok g a' /\ boundary_ok g b' /\ (forall v, side a v -> side a' v) /\ (forall v, side b v -> side b' v) /\
    exists sa oa sb ob, a' = Symbol sa oa /\ b' = Symbol sb ob /\ rho sa = rho sb.
Proof.
  intros Hop Ha Hb. unfold CanonicalizeForComparison.
  destruct (negb (IsSymbol a) || negb (IsSymbol b)); [eexists; split; [reflexivity|done]|].
  apply CanonicalizeForComparison_loop_ok; [done..|]. pose proof (weight_stack a Ha). pose proof (weight_stack b Hb). lia.
Qed.

(** ** Joins and intersections *)

(** A boundary whose value is not beyond the given end of the size. *)
Definition at_most (x : Z) (b : RangeBoundary) : Prop := forall y, bval b = Some y -> y <= x.
Definition at_least (x : Z) (b : RangeBoundary) : Prop := forall y, bval b = Some y -> x <= y.

Lemma LowerBound_finite b c : LowerBound g b = Ok (FromConstant c) -> exists x, bval b = Some x.
Proof. destruct b; simpl; eauto; done. Qed.
Lemma UpperBound_finite b c : UpperBound g b = Ok (FromConstant c) -> exists x, bval b = Some x.
Proof. destruct b; simpl; eauto; done. Qed.

Lemma fits_isS size c : fits size c -> isS 64 c.
Proof. intros Hf. by apply int64_isS, (fits_int64 _ _ Hf). Qed.

(** The comparison in [JoinMin]: [a] may stand for both when it is nowhere above [b]. *)
Lemma JoinMin_select a b size ia ib ua over v :
  boundary_ok g a ->
  LowerBoundValue g b size = Ok ib -> (forall v, above b v -> fits size v -> ib <= v) ->
  UpperBoundValue g a size = Ok ua -> (forall v, below a v -> fits size v -> v <= ua) ->
  LowerBound g a = Ok ia -> Overflowed g ia size = Ok over ->
  ua <= ib -> over = false -> fits size v -> at_most (MaxConstantValue size) a ->
  above a v \/ above b v -> above a v.
Proof.
  intros Ha _ Hib _ Hua Hia Hov Hle -> Hv Hm [Hav|Hbv]; [done|].
  destruct (LowerBound_ok a Ha) as (la & Hla & Hl & Hlv). assert (la = ia) as -> by congruence.
  destruct (Overflowed_ok ia size ltac:(tauto)) as (r & Hr & Hrf). assert (r = false) as -> by congruence.
  destruct (Hrf eq_refl) as (c & -> & Hc). destruct (LowerBound_finite _ _ Hla) as (x & Hx).
  specialize (Hm x Hx). apply (bval_above a x v Hx).
  assert (lowb (FromConstant c) x) as [_ Hcx] by (apply Hlv, (bval_above a x x Hx); lia).
  assert (x <= ua) by (apply Hua; [apply (bval_below a x x Hx); lia|unfold fits in *; lia]).
  specialize (Hib v Hbv Hv). lia.
Qed.

Lemma JoinMax_select a b size ua ub ib over v :
  boundary_ok g b ->
  UpperBoundValue g a size = Ok ua -> (forall v, below a v -> fits size v -> v <= ua) ->
  LowerBoundValue g b size = Ok ib -> (forall v, above b v -> fits size v -> ib <= v) ->
  UpperBound g b = Ok ub -> Overflowed g ub size = Ok over ->
  ua <= ib -> over = false -> fits size v -> at_least (MinConstantValue size) b ->
  below a v \/ below b v -> below b v.
Proof.
  intros Hb _ Hua _ Hib Hub Hov Hle -> Hv Hm [Hav|Hbv]; [|done].
  destruct (UpperBound_ok b Hb) as (lb & Hlb & Hl & Hlv). assert (lb = ub) as -> by congruence.
  destruct (Overflowed_ok ub size ltac:(tauto)) as (r & Hr & Hrf). assert (r = false) as -> by congruence.
  destruct (Hrf eq_refl) as (c & -> & Hc). destruct (UpperBound_finite _ _ Hlb) as (x & Hx).
  specialize (Hm x Hx). apply (bval_below b x v Hx).
  assert (upb (FromConstant c) x) as [_ Hcx] by (apply Hlv, (bval_below b x x Hx); lia).
  assert (ib <= x) by (apply Hib; [apply (bval_above b x x Hx); lia|unfold fits in *; lia]).
  specialize (Hua v Hav Hv). lia.
Qed.

Lemma JoinMin_ok a b size :
  boundary_ok g a -> boundary_ok g b ->
  exists c, JoinMin g a b size = Ok c /\ boundary_ok g c /\
    forall v, fits size v -> at_most (MaxConstantValue size) a -> at_most (MaxConstantValue size) b ->
    above a v \/ above b v -> above c v.
Proof.
  intros Ha Hb. unfold JoinMin. destruct (Equals_ok a b Ha Hb) as (eq & -> & Heq). cbn [mbind result_bind].
  destruct eq; [exists b; split; [done|]; split; [done|]; intros v _ _ _ [Hv|Hv]; [by apply Heq|done]|]. clear Heq.
  destruct (CanonicalizeForComparison_ok above CanonicalizeMinBoundary a b CanonicalizeMinBoundary_ok Ha Hb)
    as (c & -> & Hc). cbn [mbind result_bind]. destruct c as [[a' b']|].
  { destruct (Hc a' b' eq_refl) as (Ha' & Hb' & Hsa & Hsb & sa & oa & sb & ob & -> & -> & Hrho). clear Hc. cbn [offset].
    eexists; split; [reflexivity|]. split; [by destruct (oa <=? ob)|]. intros v _ _ _ Hv.
    assert (rho sb + Z.min oa ob <= v) as Hmin by (destruct Hv as [Hv|Hv]; [apply Hsa in Hv|apply Hsb in Hv]; simpl in Hv; lia).
    zcase; simpl; lia. }
  clear Hc. destruct (LowerBoundValue_ok a size Ha) as (ia & Eia & Hfa & Hia).
  destruct (LowerBoundValue_ok b size Hb) as (ib & Eib & Hfb & Hib).
  destruct (UpperBoundValue_ok a size Ha) as (ua & Eua & _ & Hua).
  destruct (UpperBoundValue_ok b size Hb) as (ub & Eub & _ & Hub).
  destruct (LowerBound_ok a Ha) as (la & Ela & Hla & _), (LowerBound_ok b Hb) as (lb & Elb & Hlb & _).
  destruct (Overflowed_ok la size ltac:(tauto)) as (ova & Eova & _), (Overflowed_ok lb size ltac:(tauto)) as (ovb & Eovb & _).
  rewrite Eia, Eib, Eua, Eub, Ela, Elb. cbn [mbind result_bind]. rewrite Eova, Eovb. cbn [mbind result_bind].
  destruct ((ua <=? ib) && negb ova) eqn:E1; [|destruct ((ub <=? ia) && negb ovb) eqn:E2].
  - apply andb_prop in E1 as [?%Z.leb_le ->%negb_true_iff]. eexists; split; [reflexivity|]. split; [done|].
    intros v Hv Hma _. by apply (JoinMin_select a b size la ib ua false).
  - apply andb_prop in E2 as [?%Z.leb_le ->%negb_true_iff]. eexists; split; [reflexivity|]. split; [done|].
    intros v Hv _ Hmb Hor. apply or_comm in Hor. by apply (JoinMin_select b a size lb ia ub false).
  - eexists; split; [reflexivity|]. unfold Utils.Minimum. simpl. apply fits_isS in Hfa as ?, Hfb as ?.
    split; [by destruct (ia <? ib)|]. intros v Hv _ _ [Hx|Hx]; [specialize (Hia v Hx Hv)|specialize (Hib v Hx Hv)]; zcase; lia.
Qed.

Lemma JoinMax_ok a b size :
  boundary_ok g a -> boundary_ok g b ->
  exists c, JoinMax g a b size = Ok c /\ boundary_ok g c /\
    forall v, fits size v -> at_least (MinConstantValue size) a -> at_least (MinConstantValue size) b ->
    below a v \/ below b v -> below c v.
Proof.
  intros Ha Hb. unfold JoinMax. destruct (Equals_ok a b Ha Hb) as (eq & -> & Heq). cbn [mbind result_bind].
  destruct eq; [exists b; split; [done|]; split; [done|]; intros v _ _ _ [Hv|Hv]; [by apply Heq|done]|]. clear Heq.
  destruct (CanonicalizeForComparison_ok below CanonicalizeMaxBoundary a b CanonicalizeMaxBoundary_ok Ha Hb)
    as (c & -> & Hc). cbn [mbind result_bind]. destruct c as [[a' b']|].
  { destruct (Hc a' b' eq_refl) as (Ha' & Hb' & Hsa & Hsb & sa & oa & sb & ob & -> & -> & Hrho). clear Hc. cbn [offset].
    eexists; split; [reflexivity|]. split; [by destruct (oa >=? ob)|]. intros v _ _ _ Hv.
    assert (v <= rho sb + Z.max oa ob) as Hmin by (destruct Hv as [Hv|Hv]; [apply Hsa in Hv|apply Hsb in Hv]; simpl in Hv; lia).
    zcase; simpl; lia. }
  clear Hc. destruct (LowerBoundValue_ok a size Ha) as (ia & Eia & _ & Hia).
  destruct (LowerBoundValue_ok b size Hb) as (ib & Eib & _ & Hib).
  destruct (UpperBoundValue_ok a size Ha) as (ua & Eua & Hfa & Hua).
  destruct (UpperBoundValue_ok b size Hb) as (ub & Eub & Hfb & Hub).
  destruct (UpperBound_ok a Ha) as (la & Ela & Hla & _), (UpperBound_ok b Hb) as (lb & Elb & Hlb & _).
  destruct (Overflowed_ok la size ltac:(tauto)) as (ova & Eova & _), (Overflowed_ok lb size ltac:(tauto)) as (ovb & Eovb & _).
  rewrite Eia, Eib, Eua, Eub, Ela, Elb. cbn [mbind result_bind]. rewrite Eova, Eovb. cbn [mbind result_bind].
  destruct ((ua <=? ib) && negb ovb) eqn:E1; [|destruct ((ub <=? ia) && negb ova) eqn:E2].
  - apply andb_prop in E1 as [?%Z.leb_le ->%negb_true_iff]. eexists; split; [reflexivity|]. split; [done|].
    intros v Hv _ Hmb. by apply (JoinMax_select a b size ua lb ib false).
  - apply andb_prop in E2 as [?%Z.leb_le ->%negb_true_iff]. eexists; split; [reflexivity|]. split; [done|].
    intros v Hv Hma _ Hor. apply or_comm in Hor. by apply (JoinMax_select b a size ub la ia false).
  - eexists; split; [reflexivity|]. unfold Utils.Maximum. simpl. apply fits_isS in Hfa as ?, Hfb as ?.
    split; [by destruct (ua >? ub)|]. intros v Hv _ _ [Hx|Hx]; [specialize (Hua v Hx Hv)|specialize (Hub v Hx Hv)]; zcase; lia.
Qed.

(** The intersection keeps every value that both sides admit. *)
Lemma IntersectionMin_ok a b :
  boundary_ok g a -> boundary_ok g b -> a <> PositiveInfinity -> b <> PositiveInfinity ->
  exists c, IntersectionMin g a b = Ok c /\ boundary_ok g c /\ forall v, above a v -> above b v -> above c v.
Proof.
  intros Ha Hb Hpa Hpb. unfold IntersectionMin.
  assert (negb (IsPositiveInfinity a) && negb (IsPositiveInfinity b) = true) as -> by (destruct a, b; done).
  assert (negb (IsUnknown a) && negb (IsUnknown b) = true) as -> by (destruct a, b; done).
  cbn [assert_ mbind result_bind]. destruct (Equals_ok a b Ha Hb) as (eq & -> & _). cbn [mbind result_bind].
  destruct eq; [eauto|]. destruct (IsMinimumOrBelow a _); [eauto|]. destruct (IsMinimumOrBelow b _); [eauto|].
  destruct (CanonicalizeForComparison_ok above CanonicalizeMinBoundary a b CanonicalizeMinBoundary_ok Ha Hb)
    as (c & -> & Hc). cbn [mbind result_bind]. destruct c as [[a' b']|].
  - destruct (Hc a' b' eq_refl) as (Ha' & Hb' & Hsa & Hsb & _). eexists; split; [reflexivity|].
    destruct (offset a' >=? offset b'); eauto.
  - destruct (LowerBoundValue_ok a kRangeBoundarySmi Ha) as (ia & -> & _).
    destruct (LowerBoundValue_ok b kRangeBoundarySmi Hb) as (ib & -> & _). cbn [mbind result_bind].
    eexists; split; [reflexivity|]. destruct (ia >=? ib); eauto.
Qed.

Lemma IntersectionMax_ok a b :
  boundary_ok g a -> boundary_ok g b -> a <> NegativeInfinity -> b <> NegativeInfinity ->
  exists c, IntersectionMax g a b = Ok c /\ boundary_ok g c /\ forall v, below a v -> below b v -> below c v.
Proof.
  intros Ha Hb Hpa Hpb. unfold IntersectionMax.
  assert (negb (IsNegativeInfinity a) && negb (IsNegativeInfinity b) = true) as -> by (destruct a, b; done).
  assert (negb (IsUnknown a) && negb (IsUnknown b) = true) as -> by (destruct a, b; done).
  cbn [assert_ mbind result_bind]. destruct (Equals_ok a b Ha Hb) as (eq & -> & _). cbn [mbind result_bind].
  destruct eq; [eauto|]. destruct (IsMaximumOrAbove a _); [eauto|]. destruct (IsMaximumOrAbove b _); [eauto|].
  destruct (CanonicalizeForComparison_ok below CanonicalizeMaxBoundary a b CanonicalizeMaxBoundary_ok Ha Hb)
    as (c & -> & Hc). cbn [mbind result_bind]. destruct c as [[a' b']|].
  - destruct (Hc a' b' eq_refl) as (Ha' & Hb' & Hsa & Hsb & _). eexists; split; [reflexivity|].
    destruct (offset a' <=? offset b'); eauto.
  - destruct (UpperBoundValue_ok a kRangeBoundarySmi Ha) as (ia & -> & _).
    destruct (UpperBoundValue_ok b kRangeBoundarySmi Hb) as (ib & -> & _). cbn [mbind result_bind].
    eexists; split; [reflexivity|]. destruct (ia <=? ib); eauto.
Qed.

(** ** Constant bounds of ranges *)

Lemma ConstantMin_ok r size :
  boundary_ok g (min_ r) ->
  exists c, ConstantMin g (Some r) size = Ok (FromConstant c) /\ fits size c /\
    forall v, above (min_ r) v -> fits size v -> c <= v.
Proof.
  intros Hb. unfold ConstantMin. destruct (LowerBound_ok _ Hb) as (lb & -> & Hl & Hv).
  destruct (Clamp_constant lb size ltac:(tauto)) as (c & Hc & Hf & Hle & _).
  cbn [mbind result_bind]. rewrite Hc. eauto 10.
Qed.

Lemma ConstantMax_ok r size :
  boundary_ok g (max_ r) ->
  exists c, ConstantMax g (Some r) size = Ok (FromConstant c) /\ fits size c /\
    forall v, below (max_ r) v -> fits size v -> v <= c.
Proof.
  intros Hb. unfold ConstantMax. destruct (UpperBound_ok _ Hb) as (ub & -> & Hu & Hv).
  destruct (Clamp_constant ub size ltac:(tauto)) as (c & Hc & Hf & _ & Hle).
  cbn [mbind result_bind]. rewrite Hc. eauto 10.
Qed.

(** The 64-bit hull of a range. *)
Definition hull (r : Range) (lo hi : Z) : Prop :=
  ConstantMin g (Some r) kRangeBoundaryInt64 = Ok (FromConstant lo) /\
  ConstantMax g (Some r) kRangeBoundaryInt64 = Ok (FromConstant hi) /\ int64 lo /\ int64 hi.

Lemma hull_exists r : range_ok g r -> exists lo hi, hull r lo hi /\ forall v, in_range r v -> int64 v -> lo <= v <= hi.
Proof.
  intros [Hmin Hmax]. destruct (ConstantMin_ok r kRangeBoundaryInt64 Hmin) as (lo & El & Hfl & Hlo).
  destruct (ConstantMax_ok r kRangeBoundaryInt64 Hmax) as (hi & Eh & Hfh & Hhi).
  exists lo, hi. split; [done|]. intros v [Ha Hb] Hv. split; auto.
Qed.

Lemma hull_value r lo hi :
  hull r lo hi ->
  ConstantMinValue g (Some r) kRangeBoundaryInt64 = Ok lo /\ ConstantMaxValue g (Some r) kRangeBoundaryInt64 = Ok hi.
Proof. intros (El & Eh & _). unfold ConstantMinValue, ConstantMaxValue. by rewrite El, Eh. Qed.

(** 64-bit constants are not changed by the clamping. *)
Lemma Clamp_int64 c : isS 64 c -> Clamp (FromConstant c) kRangeBoundaryInt64 = FromConstant c.
Proof.
  intros Hc%int64_isS. unfold int64 in Hc. cbn [Clamp MinConstantValue MaxConstantValue].
  unfold MinConstant, MaxConstant. cbn [MinConstantValue MaxConstantValue]. zcase; f_equal; lia.
Qed.

Lemma OnlyGreaterThanOrEqualTo_ok r lo hi val :
  range_ok g r -> hull r lo hi ->
  exists b, OnlyGreaterThanOrEqualTo g r val = Ok b /\ (b = true -> val <= lo).
Proof.
  intros [Hmin _] (El & _). unfold OnlyGreaterThanOrEqualTo, ConstantMin in *.
  destruct (LowerBound_ok _ Hmin) as (lb & E & Hl & _). rewrite E in *. cbn [mbind result_bind] in *.
  destruct lb as [| | | |c]; try done; cbn [IsNegativeInfinity negb ConstantValue mbind result_bind] in *.
  - eexists; split; [reflexivity|done].
  - rewrite Clamp_int64 in El by done. injection El as ->. eexists; split; [reflexivity|]. rewrite Z.geb_leb. by intros ?%Z.leb_le.
Qed.

Lemma OnlyLessThanOrEqualTo_ok r lo hi val :
  range_ok g r -> hull r lo hi ->
  exists b, OnlyLessThanOrEqualTo g r val = Ok b /\ (b = true -> hi <= val).
Proof.
  intros [_ Hmax] (_ & Eh & _). unfold OnlyLessThanOrEqualTo, ConstantMax in *.
  destruct (UpperBound_ok _ Hmax) as (ub & E & Hu & _). rewrite E in *. cbn [mbind result_bind] in *.
  destruct ub as [| | | |c]; try done; cbn [IsPositiveInfinity negb ConstantValue mbind result_bind] in *.
  - eexists; split; [reflexivity|done].
  - rewrite Clamp_int64 in Eh by done. injection Eh as ->. eexists; split; [reflexivity|]. by intros ?%Z.leb_le.
Qed.

(** ** Arithmetic *)

(** The result of an operation on boundaries covers [z]. *)
Definition covers (m : M (RangeBoundary * RangeBoundary)) (z : Z) : Prop :=
  exists mn mx, m = Ok (mn, mx) /\ boundary_ok g mn /\ boundary_ok g mx /\ above mn z /\ below mx z.

Lemma lowb_boundary b : is_lowb b -> boundary_ok g b.
Proof. destruct b; simpl; tauto. Qed.
Lemma upb_boundary b : is_upb b -> boundary_ok g b.
Proof. destruct b; simpl; tauto. Qed.

(** The left operand of an addition may be an array length, whose definition is used as its boundary. *)
Definition left_defn_ok (ld : option nat) (x : Z) : Prop :=
  forall d, ld = Some d -> rho d = x /\ exists defn, definitions g !! d = Some defn.

Lemma left_boundary_ok ld x b :
  left_defn_ok ld x -> boundary_ok g b ->
  exists c, left_boundary g ld b = Ok c /\ boundary_ok g c /\ (c = b \/ bval c = Some x).
Proof.
  intros Hld Hb. unfold left_boundary, IsArrayLength. destruct ld as [d|]; [|eauto 10].
  destruct (Hld d eq_refl) as (Hx & defn & Hd).
  destruct (UnwrapConstraint_ok _ _ Hd) as (u & ud & -> & Hu & Hru & Hcu & _). cbn [mbind result_bind].
  unfold defn_at at 1. rewrite Hu. cbn [mbind result_bind]. pose proof (ok_instr _ Hg _ _ Hu) as Hi.
  destruct (instr ud) as [| | | |inst k| | | | | | | | | |] eqn:Eu; try (eauto 10; fail).
  destruct (IsImmutableLengthLoad k) eqn:Ek; [|eauto 10]. specialize (Hi Ek). rewrite Hru in Hi.
  destruct (FromDefinition_ok d 0) as (c & -> & Hc & Hbv); [|lia|].
  - exists defn. split; [done|]. split; [done|]. destruct (is_constant_instr (instr defn)) eqn:Ec.
    + assert (u = d) as -> by (apply Hcu; by rewrite orb_true_r). simplify_eq. by rewrite Eu in Ec.
    + destruct (instr defn); done.
  - exists c. split; [done|]. split; [done|]. right. by rewrite Hbv, Hx, Z.add_0_r.
Qed.

Lemma above_trans b v w : above b v -> v <= w -> above b w.
Proof. destruct b; simpl; lia. Qed.
Lemma below_trans b v w : below b v -> w <= v -> below b w.
Proof. destruct b; simpl; lia. Qed.

(** The symbolic boundary when there is one, else the constant one. *)
Lemma symbolic_low (s : option RangeBoundary) (m : M RangeBoundary) c z :
  (forall c, s = Some c -> boundary_ok g c /\ above c z) -> m = Ok c -> is_lowb c -> lowb c z ->
  exists c, match s with Some r => Ok r | None => m end = Ok c /\ boundary_ok g c /\ above c z.
Proof.
  intros Hs Hm Hc Hz. destruct s as [b|]; [exists b; split; [done|]; by apply Hs|].
  exists c. split; [done|]. split; [by apply lowb_boundary|by apply lowb_above].
Qed.

Lemma symbolic_up (s : option RangeBoundary) (m : M RangeBoundary) c z :
  (forall c, s = Some c -> boundary_ok g c /\ below c z) -> m = Ok c -> is_upb c -> upb c z ->
  exists c, match s with Some r => Ok r | None => m end = Ok c /\ boundary_ok g c /\ below c z.
Proof.
  intros Hs Hm Hc Hz. destruct s as [b|]; [exists b; split; [done|]; by apply Hs|].
  exists c. split; [done|]. split; [by apply upb_boundary|by apply upb_below].
Qed.

(** The value of the boundary used for the left operand. *)
Lemma left_low b c x a : c = b \/ bval c = Some x -> above b x -> bval c = Some a -> a <= x.
Proof. intros [->|H] Hb Ha; [by apply (bval_above b a x Ha)|]. rewrite Ha in H. injection H. lia. Qed.
Lemma left_up b c x a : c = b \/ bval c = Some x -> below b x -> bval c = Some a -> x <= a.
Proof. intros [->|H] Hb Ha; [by apply (bval_below b a x Ha)|]. rewrite Ha in H. injection H. lia. Qed.

Lemma Range_Add_ok l r ld x y :
  range_ok g l -> range_ok g r -> in_range l x -> in_range r y -> left_defn_ok ld x ->
  covers (Range_Add g l r ld) (x + y).
Proof.
  intros [Hlmin Hlmax] [Hrmin Hrmax] [Hxa Hxb] [Hya Hyb] Hld. unfold Range_Add.
  destruct (left_boundary_ok ld x (min_ l) Hld Hlmin) as (lm & -> & Hlm & Hlmv).
  destruct (left_boundary_ok ld x (max_ l) Hld Hlmax) as (lM & -> & HlM & HlMv). cbn [mbind result_bind].
  destruct (SymbolicAdd_ok lm (min_ r) Hlm Hrmin) as (smin & -> & Hsmin).
  destruct (SymbolicAdd_ok lM (max_ r) HlM Hrmax) as (smax & -> & Hsmax). cbn [mbind result_bind].
  destruct (LowerBound_ok _ Hlmin) as (ll & -> & Hll & Hllv), (LowerBound_ok _ Hrmin) as (rl & -> & Hrl & Hrlv).
  destruct (UpperBound_ok _ Hlmax) as (lu & -> & Hlu & Hluv), (UpperBound_ok _ Hrmax) as (ru & -> & Hru & Hruv).
  destruct (Add_low ll rl x y Hll Hrl) as (cl & Ecl & Hcl & Hclv), (Add_up ru lu y x Hru Hlu) as (cu & Ecu & Hcu & Hcuv).
  cbn [mbind result_bind].
  destruct (symbolic_low smin (Add ll rl NegativeInfinity) cl (x + y)) as (mn & Emn & Hmn & Hmnv); [|by auto..|].
  { intros c (Hc & a & b & Ha & Hb & Hab)%Hsmin. split; [done|]. apply (bval_above _ _ _ Hab).
    pose proof (left_low _ _ _ _ Hlmv Hxa Ha). apply (bval_above _ _ y Hb) in Hya. lia. }
  destruct (symbolic_up smax (Add ru lu PositiveInfinity) cu (x + y)) as (mx & Emx & Hmx & Hmxv);
    [|by auto|by auto|rewrite Z.add_comm; by auto|].
  { intros c (Hc & a & b & Ha & Hb & Hab)%Hsmax. split; [done|]. apply (bval_below _ _ _ Hab).
    pose proof (left_up _ _ _ _ HlMv Hxb Ha). apply (bval_below _ _ y Hb) in Hyb. lia. }
  rewrite Emn. cbn [mbind result_bind]. rewrite Emx. cbn [mbind result_bind]. exists mn, mx. done.
Qed.

Lemma Sub_low a b v w :
  is_lowb a -> is_upb b ->
  exists c, Sub a b NegativeInfinity = Ok c /\ is_lowb c /\ (lowb a v -> upb b w -> lowb c (v - w)).
Proof.
  destruct a as [| | | |ca], b as [| | | |cb]; simpl; try tauto; intros Ha Hb;
    try (eexists; split; [reflexivity|]; simpl; tauto).
  unfold Sub. cbn. overflow_cases ca cb E; [eexists; split; [done|]; simpl; tauto|].
  rewrite wrapS_id by (done || lia).
  eexists; split; [done|]. simpl. split; [done|]. intros [??] [??]. split; [done|lia].
Qed.

Lemma Sub_up a b v w :
  is_upb a -> is_lowb b ->
  exists c, Sub a b PositiveInfinity = Ok c /\ is_upb c /\ (upb a v -> lowb b w -> upb c (v - w)).
Proof.
  destruct a as [| | | |ca], b as [| | | |cb]; simpl; try tauto; intros Ha Hb;
    try (eexists; split; [reflexivity|]; simpl; tauto).
  unfold Sub. cbn. overflow_cases ca cb E; [eexists; split; [done|]; simpl; tauto|].
  rewrite wrapS_id by (done || lia).
  eexists; split; [done|]. simpl. split; [done|]. intros [??] [??]. split; [done|lia].
Qed.

Lemma Range_Sub_ok l r ld x y :
  range_ok g l -> range_ok g r -> in_range l x -> in_range r y -> left_defn_ok ld x ->
  covers (Range_Sub g l r ld) (x - y).
Proof.
  intros [Hlmin Hlmax] [Hrmin Hrmax] [Hxa Hxb] [Hya Hyb] Hld. unfold Range_Sub.
  destruct (left_boundary_ok ld x (min_ l) Hld Hlmin) as (lm & -> & Hlm & Hlmv).
  destruct (left_boundary_ok ld x (max_ l) Hld Hlmax) as (lM & -> & HlM & HlMv). cbn [mbind result_bind].
  destruct (SymbolicSub_ok lm (max_ r) Hlm Hrmax) as (smin & -> & Hsmin).
  destruct (SymbolicSub_ok lM (min_ r) HlM Hrmin) as (smax & -> & Hsmax). cbn [mbind result_bind].
  destruct (LowerBound_ok _ Hlmin) as (ll & -> & Hll & Hllv), (LowerBound_ok _ Hrmin) as (rl & -> & Hrl & Hrlv).
  destruct (UpperBound_ok _ Hlmax) as (lu & -> & Hlu & Hluv), (UpperBound_ok _ Hrmax) as (ru & -> & Hru & Hruv).
  destruct (Sub_low ll ru x y Hll Hru) as (cl & Ecl & Hcl & Hclv), (Sub_up lu rl x y Hlu Hrl) as (cu & Ecu & Hcu & Hcuv).
  cbn [mbind result_bind].
  destruct (symbolic_low smin (Sub ll ru NegativeInfinity) cl (x - y)) as (mn & Emn & Hmn & Hmnv); [|by auto..|].
  { intros c (Hc & a & b & Ha & Hb & Hab)%Hsmin. split; [done|]. apply (bval_above _ _ _ Hab).
    pose proof (left_low _ _ _ _ Hlmv Hxa Ha). apply (bval_below _ _ y Hb) in Hyb. lia. }
  destruct (symbolic_up smax (Sub lu rl PositiveInfinity) cu (x - y)) as (mx & Emx & Hmx & Hmxv); [|by auto..|].
  { intros c (Hc & a & b & Ha & Hb & Hab)%Hsmax. split; [done|]. apply (bval_below _ _ _ Hab).
    pose proof (left_up _ _ _ _ HlMv Hxb Ha). apply (bval_above _ _ y Hb) in Hya. lia. }
  rewrite Emn. cbn [mbind result_bind]. rewrite Emx. cbn [mbind result_bind]. exists mn, mx. done.
Qed.

End bounds.

End graph.
End denotation.
End RangeSound.
