(* ===== verification/RangeOps.v ===== *)
(** * Soundness of the range analysis: operations and inference

    The arithmetic of ranges, joins, widening and narrowing, the inference of
    ranges for instructions, the constraints added after branches, and the
    redundancy of bounds checks, against the values of [RangeSound]. *)

From stdpp Require Import base numbers list.
From Stdlib Require Import ZArith Lia.
From S2P Require Import Prelude Utils RangeAnalysis RangeSound.

Local Open Scope Z_scope.
Local Open Scope mach_scope.

Module RangeOps.
Import RangeAnalysis RangeSound.

Section operations.
Context `{T : Target}.
Variable rho : nat -> Z.
Variable rank : nat -> nat.
Variable g : FlowGraph.
Hypothesis Hg : graph_ok rho rank g.

Local Abbreviation above := (above rho).
Local Abbreviation below := (below rho).
Local Abbreviation in_range := (in_range rho).
Local Abbreviation boundary_ok := (boundary_ok rho).
Local Abbreviation range_ok := (range_ok rho).
Local Abbreviation operand_ok := (operand_ok rho).
Local Abbreviation symbol_ok := (symbol_ok rho).
Local Abbreviation covers := (covers rho g).
Local Abbreviation hull := (hull g).
Local Abbreviation bval := (bval rho).

(** The absolute values that [Range_Mul] computes with: [Abs] wraps only for the least 64-bit integer. *)
Lemma Abs_int64 v : int64 v -> v <> Utils.kMinInt64 -> Utils.Abs (wrapS 64) v = Z.abs v.
Proof.
  unfold int64, Utils.Abs, Utils.kMinInt64, Utils.kMaxInt64. intros Hv Hn. zcase; [|lia].
  rewrite wrapS_id; [lia|lia|]. unfold isS. change (64 - 1) with 63. lia.
Qed.

Lemma same_sign_ok l r lo1 hi1 lo2 hi2 :
  range_ok g l -> range_ok g r -> hull l lo1 hi1 -> hull r lo2 hi2 ->
  exists b, same_sign g l r = Ok b /\ (b = true -> (0 <= lo1 /\ 0 <= lo2) \/ (hi1 <= 0 /\ hi2 <= 0)).
Proof.
  intros Hl Hr H1 H2. unfold same_sign, OnlyPositiveOrZero, OnlyNegativeOrZero.
  destruct (OnlyGreaterThanOrEqualTo_ok rho rank g Hg l lo1 hi1 0 Hl H1) as (b1 & -> & Hb1).
  destruct (OnlyGreaterThanOrEqualTo_ok rho rank g Hg r lo2 hi2 0 Hr H2) as (b2 & -> & Hb2).
  destruct (OnlyLessThanOrEqualTo_ok rho rank g Hg l lo1 hi1 0 Hl H1) as (b3 & -> & Hb3).
  destruct (OnlyLessThanOrEqualTo_ok rho rank g Hg r lo2 hi2 0 Hr H2) as (b4 & -> & Hb4).
  cbn [mbind result_bind].
  destruct b1, b2, b3, b4; cbn [mbind result_bind]; eexists; (split; [reflexivity|]); naive_solver.
Qed.

(** Products of values within the hulls. *)
Lemma mul_bounds lo1 hi1 lo2 hi2 x y :
  lo1 <= x <= hi1 -> lo2 <= y <= hi2 ->
  let m1 := Z.max (Z.abs lo1) (Z.abs hi1) in let m2 := Z.max (Z.abs lo2) (Z.abs hi2) in
  - (m1 * m2) <= x * y <= m1 * m2 /\
  (((0 <= lo1 /\ 0 <= lo2) \/ (hi1 <= 0 /\ hi2 <= 0)) ->
   0 <= Z.min (Z.abs lo1) (Z.abs hi1) * Z.min (Z.abs lo2) (Z.abs hi2) <= x * y).
Proof.
  intros Hx Hy m1 m2. assert (Z.abs x <= m1) by lia. assert (Z.abs y <= m2) by lia.
  assert (Z.abs (x * y) <= m1 * m2) as Hm by (rewrite Z.abs_mul; apply Z.mul_le_mono_nonneg; lia).
  split; [lia|]. intros Hs. set (n1 := Z.min (Z.abs lo1) (Z.abs hi1)). set (n2 := Z.min (Z.abs lo2) (Z.abs hi2)).
  assert (0 <= n1 <= Z.abs x) by lia. assert (0 <= n2 <= Z.abs y) by lia.
  assert (x * y = Z.abs x * Z.abs y) as ->.
  { destruct Hs as [[??]|[??]]; [rewrite !Z.abs_eq by lia; done|rewrite !Z.abs_neq by lia; ring]. }
  split; [apply Z.mul_nonneg_nonneg; lia|apply Z.mul_le_mono_nonneg; lia].
Qed.

Lemma s64_id v : int64 v -> s64 v = v.
Proof. intros Hv%int64_isS. apply wrapS_id; [lia|done]. Qed.

Lemma Maximum_max x y : Utils.Maximum x y = Z.max x y.
Proof. unfold Utils.Maximum. zcase; lia. Qed.
Lemma Minimum_min x y : Utils.Minimum x y = Z.min x y.
Proof. unfold Utils.Minimum. zcase; lia. Qed.

Lemma ConstantAbs_ok r lo hi :
  hull r lo hi -> lo <> Utils.kMinInt64 -> lo <= hi ->
  ConstantAbsMax g (Some r) = Ok (Z.max (Z.abs lo) (Z.abs hi)) /\
  ConstantAbsMin g (Some r) = Ok (Z.min (Z.abs lo) (Z.abs hi)).
Proof.
  intros Hh Hn Hle. destruct (hull_value _ _ _ _ Hh) as [El Eh]. destruct Hh as (_ & _ & Hlo & Hhi).
  unfold ConstantAbsMax, ConstantAbsMin. rewrite El, Eh. cbn [mbind result_bind].
  rewrite Maximum_max, Minimum_min, !Abs_int64; try done. unfold int64 in *. lia.
Qed.

Lemma product_fits m1 m2 :
  0 <= m1 -> 0 <= m2 -> (m1 =? 0) || (m2 <=? Z.quot Utils.kMaxInt64 m1) = true -> m1 * m2 <= Utils.kMaxInt64.
Proof.
  intros H1 H2 [->%Z.eqb_eq|Hq%Z.leb_le]%orb_true_iff; [unfold Utils.kMaxInt64; lia|].
  destruct (Z.eq_dec m1 0) as [->|Hn]; [unfold Utils.kMaxInt64; lia|].
  rewrite Z.quot_div_nonneg in Hq by (unfold Utils.kMaxInt64; lia).
  pose proof (Z.mul_div_le Utils.kMaxInt64 m1 ltac:(lia)). nia.
Qed.

Lemma covers_constants m lo hi z : m = Ok (FromConstant lo, FromConstant hi) -> int64 lo -> int64 hi -> lo <= z <= hi -> covers m z.
Proof. intros -> Hl%int64_isS Hh%int64_isS Hz. exists (FromConstant lo), (FromConstant hi). simpl. tauto. Qed.

Lemma Range_Mul_ok l r lo1 hi1 lo2 hi2 x y :
  range_ok g l -> range_ok g r -> hull l lo1 hi1 -> hull r lo2 hi2 ->
  lo1 <= x <= hi1 -> lo2 <= y <= hi2 -> lo1 <> Utils.kMinInt64 -> lo2 <> Utils.kMinInt64 ->
  covers (Range_Mul g l r) (x * y).
Proof.
  intros Hl Hr H1 H2 Hx Hy Hn1 Hn2. unfold Range_Mul.
  destruct (ConstantAbs_ok l lo1 hi1 H1 Hn1 ltac:(lia)) as [-> ->].
  destruct (ConstantAbs_ok r lo2 hi2 H2 Hn2 ltac:(lia)) as [-> ->]. cbn [mbind result_bind].
  destruct (same_sign_ok l r _ _ _ _ Hl Hr H1 H2) as (b & -> & Hb).
  destruct (mul_bounds lo1 hi1 lo2 hi2 x y Hx Hy) as [Hm Hp]. cbv zeta in Hm.
  assert (b = true -> 0 <= Z.min (Z.abs lo1) (Z.abs hi1) * Z.min (Z.abs lo2) (Z.abs hi2) <= x * y) as Hp' by auto.
  assert (0 <= Z.max (Z.abs lo1) (Z.abs hi1)) as Hm1 by lia. assert (0 <= Z.max (Z.abs lo2) (Z.abs hi2)) as Hm2 by lia.
  clear Hp Hb. revert Hm Hp' Hm1 Hm2.
  generalize (Z.max (Z.abs lo1) (Z.abs hi1)) (Z.max (Z.abs lo2) (Z.abs hi2))
    (Z.min (Z.abs lo1) (Z.abs hi1) * Z.min (Z.abs lo2) (Z.abs hi2)) (x * y).
  clear. intros m1 m2 p z Hm Hp Hm1 Hm2.
  assert (0 <= m1 * m2) by (apply Z.mul_nonneg_nonneg; lia).
  destruct ((m1 <=? - kSmiMin) && (m2 <=? - kSmiMin) && _) eqn:E; cbn [mbind result_bind].
  - apply andb_prop in E as [_ E]. apply product_fits in E; [|lia..]. revert Hm E H. generalize (m1 * m2). intros q Hm E H.
    assert (int64 q) as Hi by (unfold int64, Utils.kMinInt64 in *; lia). rewrite (s64_id q) by done.
    destruct b; cbn [mbind result_bind].
    + specialize (Hp eq_refl). assert (int64 p) as Hi' by (unfold int64, Utils.kMinInt64 in *; lia).
      rewrite s64_id by done. eapply covers_constants; [reflexivity|done..|lia].
    + assert (int64 (- q)) as Hi' by (unfold int64, Utils.kMinInt64, Utils.kMaxInt64 in *; lia).
      rewrite s64_id by done. eapply covers_constants; [reflexivity|done..|lia].
  - destruct b; do 2 eexists; (split; [reflexivity|]); simpl; [|done]. specialize (Hp eq_refl).
    split; [unfold isS; change (64 - 1) with 63; lia|]. split; [done|]. split; [lia|done].
Qed.

(** Whether a shifted value stays in 64 bits, as [IsInt] decides it. *)
Lemma shifted_int64 v n :
  0 < n < 64 -> (Utils.IsInt (64 - n) v = true <-> int64 (v * 2 ^ n)) /\
  (Utils.IsInt (64 - n) v = false -> (0 < v -> Utils.kMaxInt64 < v * 2 ^ n) /\ (v <= 0 -> v * 2 ^ n < Utils.kMinInt64)).
Proof.
  intros Hn. rewrite <- not_true_iff_false, Utils.IsInt_spec by lia. unfold isS, int64, Utils.kMinInt64, Utils.kMaxInt64.
  replace (64 - n - 1) with (63 - n) by lia. pose proof (pow2_pos n ltac:(lia)). pose proof (pow2_pos (63 - n) ltac:(lia)).
  assert (2 ^ 63 = 2 ^ (63 - n) * 2 ^ n) as -> by (rewrite <- Z.pow_add_r by lia; f_equal; lia).
  generalize dependent (2 ^ (63 - n)). generalize dependent (2 ^ n). intros q Hq p Hp.
  pose proof (Z.mul_lt_mono_pos_r q v p Hq) as Hlt. pose proof (Z.mul_le_mono_pos_r (- p) v q Hq) as Hle.
  rewrite Z.mul_opp_l in Hle. assert (0 < v -> 0 < v * q) by (intros; by apply Z.mul_pos_pos).
  assert (v <= 0 -> v * q <= 0) by (intros; apply Z.mul_nonpos_nonneg; lia).
  assert (0 < p * q) by (by apply Z.mul_pos_pos). revert Hlt Hle. generalize dependent (v * q). generalize dependent (p * q).
  intros. lia.
Qed.

(** Shifting a constant boundary left: the exact product, or an overflow in the direction of the sign. *)
Lemma Shl_ok v n overflow :
  int64 v -> 0 <= n <= Utils.kMaxInt64 ->
  exists b, Shl (FromConstant v) n overflow = Ok b /\
    (b = FromConstant (v * 2 ^ n) /\ int64 (v * 2 ^ n) \/
     b = overflow /\ (0 < v -> Utils.kMaxInt64 < v * 2 ^ n) /\ (v <= 0 -> v * 2 ^ n < Utils.kMinInt64)).
Proof.
  intros Hv Hn. unfold Shl. cbn [IsConstant assert_ mbind result_bind ConstantValue].
  rewrite Z.geb_leb, (proj2 (Z.leb_le 0 n)) by lia. cbn [assert_ mbind result_bind].
  rewrite Z.shiftl_mul_pow2 by lia. rewrite (s64_id (64 - n)) by (unfold int64, Utils.kMinInt64, Utils.kMaxInt64 in *; lia).
  destruct (Z.eqb_spec v 0) as [->|Hv0]; [eexists; split; [reflexivity|]; left; rewrite s64_id by done; done|].
  destruct (Z.eqb_spec n 0) as [->|Hn0]; cbn [orb].
  { rewrite Z.pow_0_r, Z.mul_1_r, s64_id by done. eauto. }
  rewrite Z.gtb_ltb. destruct (Z.ltb_spec 0 (64 - n)) as [Hl|Hl]; cbn [andb].
  - destruct (shifted_int64 v n ltac:(lia)) as [Hin Hout]. destruct (Utils.IsInt (64 - n) v).
    + rewrite s64_id by (by apply Hin). eexists; split; [reflexivity|]. left. split; [done|by apply Hin].
    + eexists; split; [reflexivity|]. right. split; [done|]. by apply Hout.
  - eexists; split; [reflexivity|]. right. split; [done|].
    pose proof (Z.pow_le_mono_r 2 64 n ltac:(lia) ltac:(lia)) as Hp. change (2 ^ 64) with 18446744073709551616 in Hp.
    unfold Utils.kMaxInt64, Utils.kMinInt64. generalize dependent (2 ^ n). intros q Hq. split; intros; nia.
Qed.

Lemma scaled_bounds lo hi x p q r :
  lo <= x <= hi -> 0 < p <= q /\ q <= r ->
  (0 < lo -> lo * p <= x * q) /\ (lo <= 0 -> lo * r <= x * q) /\ (0 < hi -> x * q <= hi * r) /\ (hi <= 0 -> x * q <= hi * p).
Proof.
  intros Hx Hp. repeat split; intros.
  - apply Z.mul_le_mono_nonneg; lia.
  - transitivity (lo * q); [apply Z.mul_le_mono_nonpos_l; lia|apply Z.mul_le_mono_nonneg_r; lia].
  - transitivity (hi * q); [apply Z.mul_le_mono_nonneg_r; lia|apply Z.mul_le_mono_nonneg_l; lia].
  - transitivity (hi * q); [apply Z.mul_le_mono_nonneg_r; lia|apply Z.mul_le_mono_nonpos_l; lia].
Qed.

Lemma Range_Shl_ok l r lo1 hi1 lo2 hi2 x y :
  hull l lo1 hi1 -> hull r lo2 hi2 -> lo1 <= x <= hi1 -> lo2 <= y <= hi2 -> 0 <= y ->
  covers (Range_Shl g l r) (x * 2 ^ y).
Proof.
  intros H1 H2 Hx Hy Hy0. unfold Range_Shl. destruct (hull_value _ _ _ _ H2) as [-> ->].
  destruct H1 as (-> & -> & Hlo1 & Hhi1), H2 as (_ & _ & Hlo2 & Hhi2). cbn [mbind result_bind ConstantValue].
  rewrite !Maximum_max, !Z.gtb_ltb.
  set (rmax := Z.max hi2 0). set (rmin := Z.max lo2 0).
  assert (0 <= rmin <= y) as Hrm by lia. assert (y <= rmax <= Utils.kMaxInt64) as HrM by (unfold int64 in *; lia).
  pose proof (Z.pow_le_mono_r 2 rmin y ltac:(lia) ltac:(lia)) as Hp1.
  pose proof (Z.pow_le_mono_r 2 y rmax ltac:(lia) ltac:(lia)) as Hp2. pose proof (pow2_pos rmin ltac:(lia)) as Hp0.
  destruct (Shl_ok lo1 (if 0 <? lo1 then rmin else rmax) (if 0 <? lo1 then PositiveInfinity else NegativeInfinity))
    as (mn & -> & Hmn); [done|by destruct (0 <? lo1); lia|].
  cbn [mbind result_bind].
  destruct (Shl_ok hi1 (if 0 <? hi1 then rmax else rmin) (if 0 <? hi1 then PositiveInfinity else NegativeInfinity))
    as (mx & -> & Hmx); [done|by destruct (0 <? hi1); lia|].
  cbn [mbind result_bind]. exists mn, mx. split; [done|].
  destruct (scaled_bounds lo1 hi1 x (2 ^ rmin) (2 ^ y) (2 ^ rmax) ltac:(lia) ltac:(lia)) as (Hb1 & Hb2 & Hb3 & Hb4).
  assert (boundary_ok g mn /\ above mn (x * 2 ^ y)) as [? ?].
  { revert Hmn. destruct (Z.ltb_spec 0 lo1); intros [[-> Hi]|(-> & Ho & _)]; simpl; try done.
    - split; [by apply int64_isS|by apply Hb1].
    - split; [done|]. specialize (Ho ltac:(lia)). specialize (Hb1 ltac:(lia)). lia.
    - split; [by apply int64_isS|by apply Hb2]. }
  assert (boundary_ok g mx /\ below mx (x * 2 ^ y)) as [? ?]; [|done].
  revert Hmx. destruct (Z.ltb_spec 0 hi1); intros [[-> Hi]|(-> & _ & Ho)]; simpl; try done.
  - split; [by apply int64_isS|by apply Hb3].
  - split; [by apply int64_isS|by apply Hb4].
  - split; [done|]. specialize (Ho ltac:(lia)). specialize (Hb4 ltac:(lia)). lia.
Qed.

Lemma Range_Shr_ok l r lo1 hi1 lo2 hi2 x y :
  hull l lo1 hi1 -> hull r lo2 hi2 -> lo1 <= x <= hi1 -> lo2 <= y <= hi2 -> 0 <= y -> hi2 < 64 ->
  covers (Range_Shr g l r) (x / 2 ^ y).
Proof.
  intros H1 H2 Hx Hy Hy0 Hh. unfold Range_Shr. destruct (hull_value _ _ _ _ H2) as [-> ->].
  destruct H1 as (-> & -> & Hlo1 & Hhi1), H2 as (_ & _ & Hlo2 & Hhi2). cbn [mbind result_bind ConstantValue].
  rewrite !Maximum_max, !Z.gtb_ltb.
  set (rmax := Z.max hi2 0). set (rmin := Z.max lo2 0).
  assert (0 <= rmin <= y) as Hrm by lia. assert (y <= rmax < 64) as HrM by lia.
  assert (forall v n, 0 <= n < 64 -> Shr (FromConstant v) n = Ok (FromConstant (v / 2 ^ n))) as Hshr.
  { intros v n Hn. unfold Shr. cbn [IsConstant assert_ mbind result_bind ConstantValue].
    rewrite Z.geb_leb, (proj2 (Z.leb_le 0 n)), (proj2 (Z.ltb_lt n 64)) by lia. cbn [assert_ mbind result_bind].
    by rewrite Z.shiftr_div_pow2 by lia. }
  assert (forall v n, int64 v -> 0 <= n -> int64 (v / 2 ^ n)) as Hin.
  { intros v n Hv Hn. unfold int64, Utils.kMinInt64, Utils.kMaxInt64 in *. pose proof (pow2_pos n Hn). split; [|].
    - apply Z.div_le_lower_bound; [lia|]. nia.
    - apply Z.div_le_upper_bound; [lia|]. nia. }
  rewrite !Hshr by (destruct (0 <? lo1), (0 <? hi1); lia). cbn [mbind result_bind].
  assert (forall a b n m, a <= b -> 0 <= n <= m -> 0 <= b -> a / 2 ^ m <= b / 2 ^ n) as Hpos.
  { intros a b n m Hab Hnm Hb0. pose proof (pow2_pos n ltac:(lia)). pose proof (Z.pow_le_mono_r 2 n m ltac:(lia) ltac:(lia)).
    transitivity (b / 2 ^ m); [apply Z.div_le_mono; lia|]. apply Z.div_le_compat_l; lia. }
  assert (forall a b n m, a <= b -> 0 <= n <= m -> a < 0 -> a / 2 ^ n <= b / 2 ^ m) as Hneg.
  { intros a b n m Hab Hnm Hb0. pose proof (pow2_pos n ltac:(lia)). pose proof (Z.pow_le_mono_r 2 n m ltac:(lia) ltac:(lia)).
    transitivity (a / 2 ^ m); [|apply Z.div_le_mono; lia].
    apply Z.div_le_lower_bound; [lia|]. pose proof (Z.mul_div_le a (2 ^ n) ltac:(lia)).
    assert (a / 2 ^ n < 0) by (apply Z.div_lt_upper_bound; lia). nia. }
  eapply covers_constants; [reflexivity|apply Hin; [done|destruct (0 <? lo1); lia]|apply Hin; [done|destruct (0 <? hi1); lia]|].
  split.
  - destruct (Z.ltb_spec 0 lo1); [apply Hpos; lia|]. destruct (Z.eq_dec lo1 0) as [->|]; [|apply Hneg; lia].
    rewrite Z.div_0_l by (pose proof (pow2_pos rmin); lia). apply Z.div_pos; [lia|]. apply pow2_pos. lia.
  - destruct (Z.ltb_spec 0 hi1); [apply Hpos; lia|]. destruct (Z.eq_dec x 0) as [->|]; [|apply Hneg; lia].
    assert (hi1 = 0) as -> by lia. rewrite !Z.div_0_l by (pose proof (pow2_pos y); pose proof (pow2_pos rmax); lia). lia.
Qed.

Lemma BitSize_ok r lo hi :
  hull r lo hi ->
  exists n, BitSize g r = Ok n /\ 0 <= n <= 63 /\ forall v m, lo <= v <= hi -> n <= m -> isS (m + 1) v.
Proof.
  intros Hh. destruct (hull_value _ _ _ _ Hh) as [El Eh]. destruct Hh as (_ & _ & Hlo%int64_isS & Hhi%int64_isS).
  unfold BitSize. rewrite El, Eh. cbn [mbind result_bind]. rewrite Maximum_max. eexists; split; [reflexivity|].
  destruct (Utils.BitLength_spec lo Hlo) as [Hbl Hsl], (Utils.BitLength_spec hi Hhi) as [Hbh Hsh].
  split; [lia|]. intros v m Hv Hm. unfold isS. replace (m + 1 - 1) with m by lia.
  pose proof (proj2 (Hsl m ltac:(lia)) ltac:(lia)). pose proof (proj2 (Hsh m ltac:(lia)) ltac:(lia)). lia.
Qed.

Lemma IsPositive_ok r lo hi :
  range_ok g r -> hull r lo hi -> exists b, IsPositive g r = Ok b /\ (b = true -> 0 <= lo).
Proof. intros. by apply (OnlyGreaterThanOrEqualTo_ok rho rank g Hg r lo hi). Qed.

(** [BitwiseOp] covers any operation that keeps to the bits of its operands. *)
Lemma BitwiseOp_ok l r lo1 hi1 lo2 hi2 x y z :
  range_ok g l -> range_ok g r -> hull l lo1 hi1 -> hull r lo2 hi2 -> lo1 <= x <= hi1 -> lo2 <= y <= hi2 ->
  (forall w, 0 < w -> isS w x -> isS w y -> isS w z) -> (0 <= x -> 0 <= y -> 0 <= z) ->
  covers (BitwiseOp g l r) z.
Proof.
  intros Hl Hr H1 H2 Hx Hy Hbits Hsign. unfold BitwiseOp.
  destruct (BitSize_ok l lo1 hi1 H1) as (n1 & -> & Hn1 & Hv1), (BitSize_ok r lo2 hi2 H2) as (n2 & -> & Hn2 & Hv2).
  cbn [mbind result_bind]. rewrite Maximum_max. set (n := Z.max n1 n2).
  assert (isS (n + 1) z) as Hz by (apply Hbits; [lia|apply Hv1; lia|apply Hv2; lia]).
  unfold isS in Hz. replace (n + 1 - 1) with n in Hz by lia.
  assert (0 < 2 ^ n <= 2 ^ 63) as Hp by (split; [apply pow2_pos|apply Z.pow_le_mono_r]; lia).
  destruct (IsPositive_ok l lo1 hi1 Hl H1) as (b1 & -> & Hb1), (IsPositive_ok r lo2 hi2 Hr H2) as (b2 & -> & Hb2).
  cbn [mbind result_bind]. rewrite !Z.shiftl_mul_pow2 by lia. rewrite Z.mul_1_l.
  assert (s64 (u64 (u64 (2 ^ n) - 1)) = 2 ^ n - 1) as ->.
  { rewrite (wrapU_id 64 (2 ^ n)) by (unfold isU; lia). rewrite (wrapU_id 64) by (unfold isU; lia).
    apply s64_id. unfold int64, Utils.kMinInt64, Utils.kMaxInt64. lia. }
  assert (s64 (-1 * 2 ^ n) = - 2 ^ n) as ->.
  { rewrite s64_id; [lia|]. unfold int64, Utils.kMinInt64, Utils.kMaxInt64. lia. }
  assert (0 <= 2 ^ n - 1 <= Utils.kMaxInt64) by (unfold Utils.kMaxInt64; lia).
  assert (Utils.kMinInt64 <= - 2 ^ n) by (unfold Utils.kMinInt64; lia).
  assert (covers (Ok (FromConstant (- 2 ^ n), FromConstant (2 ^ n - 1))) z) as Hall.
  { eapply covers_constants; [reflexivity|unfold int64, Utils.kMinInt64, Utils.kMaxInt64 in *; lia..|lia]. }
  destruct b1, b2; cbn [mbind result_bind]; try done.
  eapply covers_constants; [reflexivity|unfold int64, Utils.kMinInt64, Utils.kMaxInt64 in *; lia..|].
  specialize (Hb1 eq_refl). specialize (Hb2 eq_refl). specialize (Hsign ltac:(lia) ltac:(lia)). lia.
Qed.

Lemma land_bounds x y : 0 <= y -> 0 <= x .& y <= y.
Proof.
  intros Hy. assert (0 <= x .& y) by (apply Z.land_nonneg; by right). split; [done|].
  assert (0 <= y - x .& y); [|lia]. rewrite Z.sub_nocarry_ldiff; [apply Z.ldiff_nonneg; by left|].
  apply Z.bits_inj'. intros i Hi. rewrite Z.ldiff_spec, Z.land_spec, Z.bits_0. by destruct (Z.testbit x i), (Z.testbit y i).
Qed.

Lemma Range_And_ok l r lo1 hi1 lo2 hi2 x y :
  range_ok g l -> range_ok g r -> hull l lo1 hi1 -> hull r lo2 hi2 -> lo1 <= x <= hi1 -> lo2 <= y <= hi2 ->
  covers (Range_And g l r) (x .& y).
Proof.
  intros Hl Hr H1 H2 Hx Hy. unfold Range_And. destruct (hull_value _ _ _ _ H1) as [-> _], (hull_value _ _ _ _ H2) as [-> _].
  cbn [mbind result_bind]. assert (int64 0) by done. rewrite !Z.geb_leb. destruct (Z.leb_spec 0 lo2).
  - pose proof H2 as (_ & -> & _ & Hi). pose proof (land_bounds x y ltac:(lia)). eapply covers_constants; [reflexivity|done..|lia].
  - destruct (Z.leb_spec 0 lo1).
    + pose proof H1 as (_ & -> & _ & Hi). pose proof (land_bounds y x ltac:(lia)) as Hb. rewrite Z.land_comm in Hb.
      eapply covers_constants; [reflexivity|done..|lia].
    + eapply BitwiseOp_ok; eauto; intros; [by apply isS_land|]. apply Z.land_nonneg. by left.
Qed.

(** ** BinaryOp *)

(** The exact result of an operation; a negative shift count throws. *)
Definition eval_op (op : Token) (x y : Z) : option Z :=
  match op with
  | kADD => Some (x + y)
  | kSUB => Some (x - y)
  | kMUL => Some (x * y)
  | kSHL => if 0 <=? y then Some (x * 2 ^ y) else None
  | kSHR => if 0 <=? y then Some (x / 2 ^ y) else None
  | kBIT_AND => Some (x .& y)
  | kBIT_OR => Some (x .| y)
  | kBIT_XOR => Some (x .^ y)
  | kTRUNCDIV => if y =? 0 then None else Some (Z.quot x y)
  | kMOD => if y =? 0 then None else Some (x mod Z.abs y)
  | _ => None
  end.

(** The operands for which the code computes a sound range: the absolute value of
    the least 64-bit integer overflows, and so do shift counts above 63. *)
Definition op_defined (op : Token) (l r : Range) : Prop :=
  match op with
  | kMUL => ConstantMinValue g (Some l) kRangeBoundaryInt64 <> Ok Utils.kMinInt64 /\
            ConstantMinValue g (Some r) kRangeBoundaryInt64 <> Ok Utils.kMinInt64
  | kSHR => exists hi, ConstantMaxValue g (Some r) kRangeBoundaryInt64 = Ok hi /\ hi < 64
  | _ => True
  end.

Lemma BinaryOp_covers op l r ld (m : M (RangeBoundary * RangeBoundary)) z :
  IsFinite l = true -> IsFinite r = true ->
  BinaryOp g op l r ld =
    (mm ← (r ← m; Ok (Some r));
     match mm with
     | Some (min, max) => assert_ (negb (IsUnknown min) && negb (IsUnknown max));; Range_new min max
     | None => Range_new NegativeInfinity PositiveInfinity
     end) ->
  covers m z -> exists res, BinaryOp g op l r ld = Ok res /\ range_ok g res /\ in_range res z.
Proof.
  intros _ _ -> (mn & mx & -> & Hmn & Hmx & Ha & Hb). cbn [mbind result_bind].
  assert (IsUnknown mn = false) as Hu1 by (by destruct mn). assert (IsUnknown mx = false) as Hu2 by (by destruct mx).
  rewrite Hu1, Hu2. unfold Range_new. rewrite Hu1, Hu2. cbn. eexists. split; [reflexivity|]. done.
Qed.

Lemma BinaryOp_ok op l r ld x y z :
  range_ok g l -> range_ok g r -> IsFinite l = true -> IsFinite r = true ->
  in_range l x -> in_range r y -> int64 x -> int64 y -> left_defn_ok rho g ld x ->
  op_defined op l r -> eval_op op x y = Some z ->
  exists res, BinaryOp g op l r ld = Ok res /\ range_ok g res /\ in_range res z.
Proof.
  intros Hl Hr Hfl Hfr Hx Hy Hx64 Hy64 Hld Hdef Hz.
  destruct (hull_exists rho rank g Hg l Hl) as (lo1 & hi1 & H1 & Hin1). specialize (Hin1 x Hx Hx64).
  destruct (hull_exists rho rank g Hg r Hr) as (lo2 & hi2 & H2 & Hin2). specialize (Hin2 y Hy Hy64).
  assert (forall m, covers m z -> BinaryOp g op l r ld =
    (mm ← (r ← m; Ok (Some r));
     match mm with
     | Some (min, max) => assert_ (negb (IsUnknown min) && negb (IsUnknown max));; Range_new min max
     | None => Range_new NegativeInfinity PositiveInfinity
     end) -> exists res, BinaryOp g op l r ld = Ok res /\ range_ok g res /\ in_range res z) as Hcov.
  { intros m Hm E. by eapply BinaryOp_covers. }
  destruct op; cbn [eval_op] in Hz; try done.
  - injection Hz as <-. eapply Hcov; [by apply (Range_Add_ok rho rank g Hg l r ld)|]. unfold BinaryOp. by rewrite Hfl, Hfr.
  - injection Hz as <-. eapply Hcov; [by apply (Range_Sub_ok rho rank g Hg l r ld)|]. unfold BinaryOp. by rewrite Hfl, Hfr.
  - injection Hz as <-. destruct Hdef as [Hd1 Hd2]. destruct (hull_value _ _ _ _ H1) as [E1 _], (hull_value _ _ _ _ H2) as [E2 _].
    rewrite E1 in Hd1. rewrite E2 in Hd2.
    eapply Hcov; [apply (Range_Mul_ok l r lo1 hi1 lo2 hi2); try done; congruence|]. unfold BinaryOp. by rewrite Hfl, Hfr.
  - destruct (Z.leb_spec 0 y); [|done]. injection Hz as <-.
    eapply Hcov; [by apply (Range_Shl_ok l r lo1 hi1 lo2 hi2)|]. unfold BinaryOp. by rewrite Hfl, Hfr.
  - destruct (Z.leb_spec 0 y); [|done]. injection Hz as <-. destruct Hdef as (h & Eh & Hh).
    destruct (hull_value _ _ _ _ H2) as [_ E2]. assert (hi2 = h) as -> by congruence.
    eapply Hcov; [by apply (Range_Shr_ok l r lo1 hi1 lo2 h)|]. unfold BinaryOp. by rewrite Hfl, Hfr.
  - injection Hz as <-. eapply Hcov; [by apply (Range_And_ok l r lo1 hi1 lo2 hi2)|]. unfold BinaryOp. by rewrite Hfl, Hfr.
  - injection Hz as <-. eapply Hcov; [|unfold BinaryOp; by rewrite Hfl, Hfr].
    apply (BitwiseOp_ok l r lo1 hi1 lo2 hi2 x y); try done; intros; [by apply isS_lor|]. by apply Z.lor_nonneg.
  - injection Hz as <-. eapply Hcov; [|unfold BinaryOp; by rewrite Hfl, Hfr].
    apply (BitwiseOp_ok l r lo1 hi1 lo2 hi2 x y); try done; intros; [by apply isS_lxor|]. apply Z.lxor_nonneg. tauto.
  - unfold BinaryOp. rewrite Hfl, Hfr. cbn. by eexists.
  - unfold BinaryOp. rewrite Hfl, Hfr. cbn. by eexists.
Qed.

(** ** Join, widening, narrowing *)

Lemma inhabited_most b w size : fits size w -> above b w -> at_most rho (MaxConstantValue size) b.
Proof. intros [_ Hw] Ha y Hy. apply (bval_above rho b y w Hy) in Ha. lia. Qed.
Lemma inhabited_least b w size : fits size w -> below b w -> at_least rho (MinConstantValue size) b.
Proof. intros [Hw _] Ha y Hy. apply (bval_below rho b y w Hy) in Ha. lia. Qed.

Lemma DependsOnSymbol_ok b u :
  boundary_ok g b ->
  exists r, DependsOnSymbol g b u = Ok r /\
    (r = true -> Smi (rho u) /\ exists udefn, definitions g !! u = Some udefn /\ is_constant_instr (instr udefn) = false).
Proof.
  intros Hb. destruct b as [| | |s o|]; try (eexists; split; [reflexivity|done]).
  destruct Hb as [_ (defn & Hd & Hs & Hc)]. cbn [DependsOnSymbol].
  destruct (UnwrapConstraint_ok rho rank g Hg _ _ Hd) as (w & wd & -> & Hw & Hrw & Hcw & _). cbn [mbind result_bind].
  eexists; split; [reflexivity|]. intros ->%Nat.eqb_eq. rewrite Hrw. split; [done|]. exists wd. split; [done|].
  destruct (is_constant_instr (instr wd)) eqn:E; [|done]. assert (u = s) as -> by (by apply Hcw). congruence.
Qed.

(** The range [Join] merges into: its own range, or the definition itself as a symbol. *)
Lemma Join_other_ok range d defn dr :
  definitions g !! d = Some defn -> range_ok g range -> range_ok g dr -> in_range dr (rho d) ->
  exists u dmin (dmax : bool) other, UnwrapConstraint g d = Ok u /\ DependsOnSymbol g (min_ range) u = Ok dmin /\
    (if dmin : bool then Ok true else DependsOnSymbol g (max_ range) u) = Ok dmax /\
    (if dmax then a ← FromDefinition g d 0; b ← FromDefinition g d 0; Range_new a b else Ok dr) = Ok other /\
    range_ok g other /\ in_range other (rho d).
Proof.
  intros Hd [Hmin Hmax] Hdr Hin. destruct (UnwrapConstraint_ok rho rank g Hg _ _ Hd) as (u & ud & Hu & Hud & Hru & Hcu & _).
  destruct (DependsOnSymbol_ok (min_ range) u Hmin) as (dmin & Edmin & Hdmin).
  destruct (DependsOnSymbol_ok (max_ range) u Hmax) as (dmx & Edmx & Hdmx).
  exists u, dmin, (if dmin then true else dmx).
  destruct (if dmin then true else dmx) eqn:E.
  2:{ exists dr. split; [done|]. split; [done|]. split; [destruct dmin; congruence|]. done. }
  assert (Smi (rho u) /\ exists udefn, definitions g !! u = Some udefn /\ is_constant_instr (instr udefn) = false) as [Hs (ud' & Hud' & Hnc)]
    by (destruct dmin; auto).
  simplify_eq. destruct (FromDefinition_ok rho rank g Hg d 0) as (b & Eb & Hb & Hbv); [|lia|].
  { exists defn. split; [done|]. rewrite <- Hru. split; [done|]. destruct (is_constant_instr (instr defn)) eqn:Ec.
    - assert (u = d) as -> by (apply Hcu; by rewrite orb_true_r). simplify_eq. congruence.
    - by destruct (instr defn). }
  exists (mkRange b b). split; [done|]. split; [done|]. split; [destruct dmin; congruence|].
  rewrite Z.add_0_r in Hbv. split; [|split; [done|]].
  - rewrite Eb. cbn [mbind result_bind]. unfold Range_new. destruct (IsUnknown b); done.
  - split; [by apply (bval_above rho b _ _ Hbv)|by apply (bval_below rho b _ _ Hbv)].
Qed.

Lemma Join_ok range d defn dr size w :
  definitions g !! d = Some defn -> range_ok g range -> range_ok g dr ->
  in_range range w -> fits size w -> in_range dr (rho d) -> fits size (rho d) ->
  exists res, Join g range d (Some dr) size = Ok res /\ range_ok g res /\
    forall v, fits size v -> in_range range v \/ v = rho d -> in_range res v.
Proof.
  intros Hd Hr Hdr Hw Hwf Hin Hdf. unfold Join. pose proof Hr as [Hmin Hmax]. pose proof Hdr as [Hdmin _].
  assert (IsUnknown (min_ dr) = false) as -> by (by destruct (min_ dr)).
  assert (IsUnknown (min_ range) = false) as -> by (by destruct (min_ range)).
  destruct (Join_other_ok range d defn dr Hd Hr Hdr Hin) as (u & dmin & dmax & other & E1 & E2 & E3 & E4 & Ho & Hoin).
  rewrite E1. cbn [mbind result_bind]. rewrite E2. cbn [mbind result_bind]. rewrite E3. cbn [mbind result_bind]. rewrite E4.
  clear E1 E2 E3 E4. cbn [mbind result_bind]. pose proof Ho as [Homin Homax]. destruct Hw as [Hwa Hwb], Hoin as [Hoa Hob].
  destruct (LowerBoundValue_ok rho rank g Hg (min_ range) size Hmin) as (ir & -> & _ & Hir).
  destruct (LowerBoundValue_ok rho rank g Hg (min_ other) size Homin) as (io & -> & _ & Hio).
  destruct (UpperBoundValue_ok rho rank g Hg (max_ range) size Hmax) as (sr & -> & _ & Hsr).
  destruct (UpperBoundValue_ok rho rank g Hg (max_ other) size Homax) as (so & -> & _ & Hso).
  cbn [mbind result_bind]. specialize (Hio _ Hoa Hdf). specialize (Hso _ Hob Hdf).
  pose proof (Hir _ Hwa Hwf). pose proof (Hsr _ Hwb Hwf).
  destruct (Z.leb_spec sr io) as [Hle|]; [|destruct (Z.leb_spec so ir) as [Hle|]].
  - eexists; split; [reflexivity|]. split; [done|]. intros v Hv [[Hva Hvb]| ->].
    + split; [done|]. apply (below_trans rho _ (rho d)); [done|]. specialize (Hsr v Hvb Hv). lia.
    + split; [|done]. apply (above_trans rho _ w); [done|lia].
  - eexists; split; [reflexivity|]. split; [done|]. intros v Hv [[Hva Hvb]| ->].
    + split; [|done]. apply (above_trans rho _ (rho d)); [done|]. specialize (Hir v Hva Hv). lia.
    + split; [done|]. apply (below_trans rho _ w); [done|lia].
  - destruct (JoinMin_ok rho rank g Hg (min_ range) (min_ other) size Hmin Homin) as (mn & -> & Hmn & Hmnv).
    destruct (JoinMax_ok rho rank g Hg (max_ range) (max_ other) size Hmax Homax) as (mx & -> & Hmx & Hmxv).
    cbn [mbind result_bind]. unfold Range_new. assert (IsUnknown mn = false) as -> by (by destruct mn).
    assert (IsUnknown mx = false) as -> by (by destruct mx). eexists; split; [reflexivity|]. split; [done|].
    assert (at_most rho (MaxConstantValue size) (min_ range)) by (by apply (inhabited_most _ w)).
    assert (at_most rho (MaxConstantValue size) (min_ other)) by (by apply (inhabited_most _ (rho d))).
    assert (at_least rho (MinConstantValue size) (max_ range)) by (by apply (inhabited_least _ w)).
    assert (at_least rho (MinConstantValue size) (max_ other)) by (by apply (inhabited_least _ (rho d))).
    intros v Hv [[Hva Hvb]| ->]; split; auto.
Qed.

Lemma ConstantMinValue_ok r size :
  boundary_ok g (min_ r) ->
  exists c, ConstantMinValue g (Some r) size = Ok c /\ fits size c /\ forall v, above (min_ r) v -> fits size v -> c <= v.
Proof.
  intros Hb. destruct (ConstantMin_ok rho rank g Hg r size Hb) as (c & E & Hc). unfold ConstantMinValue. rewrite E. by exists c.
Qed.

Lemma ConstantMaxValue_ok r size :
  boundary_ok g (max_ r) ->
  exists c, ConstantMaxValue g (Some r) size = Ok c /\ fits size c /\ forall v, below (max_ r) v -> fits size v -> v <= c.
Proof.
  intros Hb. destruct (ConstantMax_ok rho rank g Hg r size Hb) as (c & E & Hc). unfold ConstantMaxValue. rewrite E. by exists c.
Qed.

(** The last resort of the widening: constant bounds, or the end of the size. *)
Lemma Widen_constants_min r n size :
  range_ok g r -> range_ok g n ->
  exists c, (min ← ConstantMin g (Some r) size; new_min ← ConstantMin g (Some n) size;
             v ← ConstantValue min; new_v ← ConstantValue new_min;
             Ok (if v <=? new_v then min else MinConstant size)) = Ok c /\ boundary_ok g c /\
    forall v, fits size v -> in_range r v \/ in_range n v -> above c v.
Proof.
  intros [Hr _] [Hn _]. destruct (ConstantMin_ok rho rank g Hg r size Hr) as (a & -> & Hfa & Ha).
  destruct (ConstantMin_ok rho rank g Hg n size Hn) as (b & -> & Hfb & Hb). cbn [mbind result_bind ConstantValue].
  eexists; split; [reflexivity|]. unfold MinConstant. pose proof (size_bounds size) as Hs.
  assert (isS 64 (MinConstantValue size)) by (apply (fits_isS size); unfold fits; lia). apply fits_isS in Hfa.
  split; [by destruct (a <=? b)|]. intros v Hv Hor. zcase; simpl; [|by destruct Hv].
  destruct Hor as [[Hx _]|[Hx _]]; [by apply Ha|]. specialize (Hb v Hx Hv). lia.
Qed.

Lemma Widen_constants_max r n size :
  range_ok g r -> range_ok g n ->
  exists c, (max ← ConstantMax g (Some r) size; new_max ← ConstantMax g (Some n) size;
             v ← ConstantValue max; new_v ← ConstantValue new_max;
             Ok (if v >=? new_v then max else MaxConstant size)) = Ok c /\ boundary_ok g c /\
    forall v, fits size v -> in_range r v \/ in_range n v -> below c v.
Proof.
  intros [_ Hr] [_ Hn]. destruct (ConstantMax_ok rho rank g Hg r size Hr) as (a & -> & Hfa & Ha).
  destruct (ConstantMax_ok rho rank g Hg n size Hn) as (b & -> & Hfb & Hb). cbn [mbind result_bind ConstantValue].
  eexists; split; [reflexivity|]. unfold MaxConstant. pose proof (size_bounds size) as Hs.
  assert (isS 64 (MaxConstantValue size)) by (apply (fits_isS size); unfold fits; lia). apply fits_isS in Hfa.
  split; [by destruct (a >=? b)|]. intros v Hv Hor. zcase; simpl; [|by destruct Hv].
  destruct Hor as [[_ Hx]|[_ Hx]]; [by apply Ha|]. specialize (Hb v Hx Hv). lia.
Qed.

Lemma MinConstant_ok size : boundary_ok g (MinConstant size) /\ forall v, fits size v -> above (MinConstant size) v.
Proof.
  pose proof (size_bounds size). split; [apply (fits_isS size); unfold fits; lia|]. by intros v [??].
Qed.
Lemma MaxConstant_ok size : boundary_ok g (MaxConstant size) /\ forall v, fits size v -> below (MaxConstant size) v.
Proof.
  pose proof (size_bounds size). split; [apply (fits_isS size); unfold fits; lia|]. by intros v [??].
Qed.

Lemma WidenMin_ok r n size w :
  range_ok g r -> range_ok g n -> in_range r w -> fits size w ->
  exists c, WidenMin g r n size = Ok c /\ boundary_ok g c /\
    forall v, fits size v -> in_range r v \/ in_range n v -> above c v.
Proof.
  intros Hr Hn [Hw _] Hwf. unfold WidenMin. destruct (Widen_constants_min r n size Hr Hn) as (k & Hk & Hok).
  rewrite Hk. pose proof Hr as [Ha _]. pose proof Hn as [Hb _].
  destruct (IsSymbol (min_ r)) eqn:Es; [|by exists k].
  destruct (LowerBound_ok rho rank g Hg _ Ha) as (lb & El & Hl & _). rewrite El. cbn [mbind result_bind].
  destruct (Overflowed_ok g lb size ltac:(tauto)) as (over & Eo & _). rewrite Eo. cbn [mbind result_bind].
  destruct (MinConstant_ok size) as [Hmc Hmv].
  destruct over; [exists (MinConstant size); eauto|].
  destruct (DependOnSameSymbol_ok rho rank g Hg _ _ Ha Hb) as (same & -> & Hsame). cbn [mbind result_bind]. destruct same.
  - destruct (Hsame eq_refl) as (sa & oa & sb & ob & Ea & Eb & Hrho). rewrite Ea, Eb. cbn [offset]. eexists; split; [reflexivity|].
    rewrite <- Ea. destruct (Z.leb_spec oa ob); [|eauto]. split; [done|]. rewrite Ea.
    intros v Hv [[Hx _]|[Hx _]]; rewrite ?Ea, ?Eb in Hx; simpl in *; lia.
  - clear Hsame. destruct (UpperBoundValue_ok rho rank g Hg _ size Ha) as (ub & Eub & _ & Hub). rewrite Eub.
    destruct (LowerBoundValue_ok rho rank g Hg _ size Hb) as (nl & Enl & _ & Hnl). rewrite Enl. cbn [mbind result_bind].
    destruct (Z.leb_spec ub nl); [|by exists k]. eexists; split; [reflexivity|]. split; [done|].
    intros v Hv Hor. apply (JoinMin_select rho rank g Hg (min_ r) (min_ n) size lb nl ub false); try done.
    + by apply (inhabited_most _ w).
    + destruct Hor as [[Hx _]|[Hx _]]; eauto.
Qed.

Lemma WidenMax_ok r n size w :
  range_ok g r -> range_ok g n -> in_range r w -> fits size w ->
  exists c, WidenMax g r n size = Ok c /\ boundary_ok g c /\
    forall v, fits size v -> in_range r v \/ in_range n v -> below c v.
Proof.
  intros Hr Hn [_ Hw] Hwf. unfold WidenMax. destruct (Widen_constants_max r n size Hr Hn) as (k & Hk & Hok).
  rewrite Hk. pose proof Hr as [_ Ha]. pose proof Hn as [_ Hb].
  destruct (IsSymbol (max_ r)) eqn:Es; [|by exists k].
  destruct (UpperBound_ok rho rank g Hg _ Ha) as (lb & El & Hl & _). rewrite El. cbn [mbind result_bind].
  destruct (Overflowed_ok g lb size ltac:(tauto)) as (over & Eo & _). rewrite Eo. cbn [mbind result_bind].
  destruct (MaxConstant_ok size) as [Hmc Hmv].
  destruct over; [exists (MaxConstant size); eauto|].
  destruct (DependOnSameSymbol_ok rho rank g Hg _ _ Ha Hb) as (same & -> & Hsame). cbn [mbind result_bind]. destruct same.
  - destruct (Hsame eq_refl) as (sa & oa & sb & ob & Ea & Eb & Hrho). rewrite Ea, Eb. cbn [offset]. eexists; split; [reflexivity|].
    rewrite Z.geb_leb, <- Ea. destruct (Z.leb_spec ob oa); [|eauto]. split; [done|]. rewrite Ea.
    intros v Hv [[_ Hx]|[_ Hx]]; rewrite ?Ea, ?Eb in Hx; simpl in *; lia.
  - clear Hsame. destruct (LowerBoundValue_ok rho rank g Hg _ size Ha) as (ub & Eub & _ & Hub). rewrite Eub.
    destruct (UpperBoundValue_ok rho rank g Hg _ size Hb) as (nl & Enl & _ & Hnl). rewrite Enl. cbn [mbind result_bind].
    rewrite Z.geb_leb. destruct (Z.leb_spec nl ub); [|by exists k]. eexists; split; [reflexivity|]. split; [done|].
    intros v Hv Hor. apply (JoinMax_select rho rank g Hg (max_ n) (max_ r) size nl lb ub false); try done.
    + by apply (inhabited_least _ w).
    + destruct Hor as [[_ Hx]|[_ Hx]]; eauto.
Qed.

(** Narrowing keeps the values of both ranges. *)
Lemma Narrow_ok r n size :
  range_ok g r -> range_ok g n ->
  exists mn mx, NarrowMin g r n size = Ok mn /\ NarrowMax g r n size = Ok mx /\ boundary_ok g mn /\ boundary_ok g mx /\
    forall v, in_range r v -> in_range n v -> above mn v /\ below mx v.
Proof.
  intros [Ha Hb] [Hc Hd]. unfold NarrowMin, NarrowMax.
  destruct (ConstantMinValue_ok r size Ha) as (a & -> & _), (ConstantMinValue_ok n size Hc) as (c & -> & _).
  destruct (ConstantMaxValue_ok r size Hb) as (b & -> & _), (ConstantMaxValue_ok n size Hd) as (d & -> & _).
  cbn [mbind result_bind]. do 2 eexists. split; [reflexivity|]. split; [reflexivity|].
  split; [by destruct (a >? c), (IsMinimumOrBelow (min_ r) size)|]. split; [by destruct (b <? d), (IsMaximumOrAbove (max_ r) size)|].
  intros v [Hv1 Hv2] [Hv3 Hv4]. split; [by destruct (a >? c), (IsMinimumOrBelow (min_ r) size)|by destruct (b <? d), (IsMaximumOrAbove (max_ r) size)].
Qed.

End operations.
End RangeOps.
