(* ===== verification/RangeInfer.v ===== *)
(** * Soundness of the range analysis: instructions, branches, bounds checks

    The inference of a range for each instruction from the ranges of its inputs,
    the removal of overflow checks, the constraints that a branch or a bounds
    check adds, and the elimination of redundant bounds checks. *)

From stdpp Require Import base numbers list sets.
From Stdlib Require Import ZArith Lia.
From S2P Require Import Prelude Utils RangeAnalysis RangeSound RangeOps.

Local Open Scope Z_scope.
Local Open Scope mach_scope.

Module RangeInfer.
Import RangeAnalysis RangeSound RangeOps.

Section inference.
Context `{T : Target}.
Variable rho : nat -> Z.
Variable rank : nat -> nat.
Variable g : FlowGraph.
Hypothesis Hg : graph_ok rho rank g.

Local Abbreviation above := (above rho).
Local Abbreviation below := (below rho).
Local Abbreviation in_range := (in_range rho).
Local Abbreviation boundary_ok := (boundary_ok rho).
Local Abbreviation range_ok := (range_ok rho).
Local Abbreviation operand_ok := (operand_ok rho).
Local Abbreviation symbol_ok := (symbol_ok rho).
Local Abbreviation bval := (bval rho).

(** ** Ranges of inputs *)

Definition smi_input (d : nat) : Prop := Smi (rho d) /\ exists defn, definitions g !! d = Some defn.
Definition int_input (d : nat) : Prop := int64 (rho d) /\ exists defn, definitions g !! d = Some defn.

Lemma Full_ok size : range_ok g (Full size) /\ forall v, fits size v -> in_range (Full size) v.
Proof.
  destruct (MinConstant_ok rho g size) as [Ha Hav], (MaxConstant_ok rho g size) as [Hb Hbv].
  split; [done|]. intros v Hv. split; [by apply Hav|by apply Hbv].
Qed.

Lemma range_known d defn r : definitions g !! d = Some defn -> range_ defn = Some r -> range_ok g r /\ in_range r (rho d).
Proof. intros Hd Hr. by destruct (ok_range _ _ _ Hg _ _ _ Hd Hr) as (? & ? & _). Qed.

Lemma range_ok_known r : range_ok g r -> IsUnknown (min_ r) = false /\ IsUnknown (max_ r) = false.
Proof. intros [Ha Hb]. destruct (min_ r), (max_ r); done. Qed.

Lemma GetSmiRange_ok d :
  smi_input d -> exists o, GetSmiRange g d = Ok o /\ forall r, o = Some r -> range_ok g r /\ in_range r (rho d).
Proof.
  intros [Hs (defn & Hd)]. unfold GetSmiRange, defn_at. rewrite Hd. cbn [mbind result_bind].
  destruct (range_ defn) as [r|] eqn:Er.
  - eexists; split; [reflexivity|]. intros r' [= <-]. by eapply range_known.
  - destruct (bool_decide _); eexists; (split; [reflexivity|]); [done|]. intros r' [= <-].
    split; [apply (Full_ok kRangeBoundarySmi)|by apply (proj2 (Full_ok kRangeBoundarySmi))].
Qed.

Lemma GetIntRange_ok d :
  int_input d -> exists o, GetIntRange g d = Ok o /\ forall r, o = Some r -> range_ok g r /\ in_range r (rho d).
Proof.
  intros [Hs (defn & Hd)]. unfold GetIntRange, defn_at. rewrite Hd. cbn [mbind result_bind].
  destruct (range_ defn) as [r|] eqn:Er.
  - eexists; split; [reflexivity|]. intros r' [= <-]. by eapply range_known.
  - destruct (type_is_int defn); eexists; (split; [reflexivity|]); [done|]. intros r' [= <-].
    split; [apply (Full_ok kRangeBoundaryInt64)|by apply (proj2 (Full_ok kRangeBoundaryInt64))].
Qed.

(** ** Overflow checks *)

Lemma Fits_ok r size :
  range_ok g r -> exists b, Fits g r size = Ok b /\ (b = true -> forall v, in_range r v -> fits size v).
Proof.
  intros [Ha Hb]. unfold Fits. destruct (LowerBound_ok rho rank g Hg _ Ha) as (lo & -> & Hlo & Hlov). cbn [mbind result_bind].
  destruct (Overflowed_ok g lo size ltac:(tauto)) as (o1 & -> & Ho1). cbn [mbind result_bind].
  destruct o1; [eexists; split; [reflexivity|done]|].
  destruct (UpperBound_ok rho rank g Hg _ Hb) as (hi & -> & Hhi & Hhiv). cbn [mbind result_bind].
  destruct (Overflowed_ok g hi size ltac:(tauto)) as (o2 & -> & Ho2). cbn [mbind result_bind].
  eexists; split; [reflexivity|]. intros ->%negb_true_iff v [Hva Hvb].
  destruct (Ho1 eq_refl) as (c1 & -> & Hc1), (Ho2 eq_refl) as (c2 & -> & Hc2).
  destruct (Hlov v Hva) as [_ ?], (Hhiv v Hvb) as [_ ?]. unfold fits in *. lia.
Qed.

Lemma Range_Clamp_ok r size v : range_ok g r -> in_range r v -> fits size v -> range_ok g (Range_Clamp r size) /\ in_range (Range_Clamp r size) v.
Proof.
  intros [Ha Hb] [Hva Hvb] Hv. pose proof (size_bounds size) as Hs.
  assert (isS 64 (MinConstantValue size) /\ isS 64 (MaxConstantValue size)) as [Hi1 Hi2]
    by (split; apply (fits_isS size); unfold fits; lia).
  unfold fits in Hv. split; split; unfold Range_Clamp; cbn [min_ max_].
  - destruct (min_ r); simpl in *; try done. zcase; done.
  - destruct (max_ r); simpl in *; try done. zcase; done.
  - destruct (min_ r); simpl in *; try done; unfold MinConstant, MaxConstant.
    + lia.
    + pose proof (fits_int64 size v Hv) as [_ ?]. lia.
    + zcase; simpl; lia.
  - destruct (max_ r); simpl in *; try done; unfold MinConstant, MaxConstant.
    + pose proof (fits_int64 size v Hv) as [? _]. lia.
    + lia.
    + zcase; simpl; lia.
Qed.

(** The range of a binary operation that does not truncate: what the analysis asks of
    the inputs, the exact result [z], and the size of the representation. *)
Lemma InferRangeHelper_ok defn op l x y z lr rr size :
  RepresentationToRangeSize (representation defn) = Ok size ->
  range_ok g lr -> range_ok g rr -> IsFinite lr = true -> IsFinite rr = true ->
  in_range lr x -> in_range rr y -> int64 x -> int64 y -> left_defn_ok rho g (Some l) x ->
  op_defined g op lr rr -> eval_op op x y = Some z ->
  exists r o, InferRangeHelper g defn op l false (Some lr) (Some rr) = Ok (r, Some o) /\
    (o = false -> fits size z) /\ (fits size z -> range_ok g r /\ in_range r z).
Proof.
  intros Hrep Hl Hr Hfl Hfr Hx Hy Hx64 Hy64 Hld Hdef Hz. unfold InferRangeHelper.
  destruct (range_ok_known lr Hl) as [-> _], (range_ok_known rr Hr) as [-> _]. cbn [orb].
  destruct (BinaryOp_ok rho rank g Hg op lr rr (Some l) x y z) as (res & -> & Hres & Hin); try done. cbn [mbind result_bind].
  destruct (range_ok_known res Hres) as [-> _]. rewrite Hrep. cbn [negb assert_ mbind result_bind].
  destruct (Fits_ok res size Hres) as (b & -> & Hb). cbn [mbind result_bind].
  do 2 eexists. split; [reflexivity|]. split; [intros ->%negb_false_iff; by apply Hb|].
  intros Hfz. by apply Range_Clamp_ok.
Qed.

(** ** Phis *)

Definition inhabited_range (r : Range) : Prop :=
  r = Range_unknown \/ (range_ok g r /\ exists w, in_range r w /\ Smi w).

Lemma Phi_join_ok inputs range :
  Forall smi_input inputs -> inhabited_range range ->
  exists res, Phi_join g kRangeBoundarySmi inputs range = Ok res /\ inhabited_range res /\
    (forall v, Smi v -> in_range range v -> in_range res v) /\
    (forall i r, i ∈ inputs -> GetSmiRange g i = Ok (Some r) -> in_range res (rho i)).
Proof.
  intros Hin. revert range. induction Hin as [|i inputs Hi Hin IH]; intros range Hr.
  { exists range. split; [done|]. split; [done|]. split; [done|]. set_solver. }
  cbn [Phi_join GetInputRange]. destruct (GetSmiRange_ok i Hi) as (o & Eo & Ho). rewrite Eo. cbn [mbind result_bind].
  pose proof Hi as [Hs (defn & Hd)].
  assert (exists res, Join g range i o kRangeBoundarySmi = Ok res /\ inhabited_range res /\
    (forall v, Smi v -> in_range range v -> in_range res v) /\ (forall r, o = Some r -> in_range res (rho i)))
    as (res & -> & Hres & Hkeep & Hnew).
  { destruct o as [dr|]; [|exists range; done]. destruct (Ho dr eq_refl) as [Hdr Hdin].
    destruct Hr as [->|(Hrok & w & Hw & Hws)].
    - exists dr. unfold Join. destruct (range_ok_known dr Hdr) as [-> _]. split; [done|].
      split; [right; eauto|]. split; [intros v _ [? _]; done|]. by intros r' [= <-].
    - destruct (Join_ok rho rank g Hg range i defn dr kRangeBoundarySmi w) as (res & -> & Hres & Hv); try done.
      exists res. split; [done|]. split; [|split].
      + right. split; [done|]. exists (rho i). split; [apply Hv; [done|by right]|done].
      + intros v Hvs Hvin. apply Hv; [done|by left].
      + intros r' [= <-]. apply Hv; [done|by right]. }
  cbn [mbind result_bind]. destruct (IH res Hres) as (final & -> & Hfin & Hk & Hn).
  exists final. split; [done|]. split; [done|]. split; [eauto|].
  intros j r [->|Hj]%elem_of_cons Hjr; [|by eapply Hn]. apply Hk; [done|]. apply (Hnew r). congruence.
Qed.

Lemma EnsureAcyclicSymbol_ok b a limit :
  boundary_ok g limit -> boundary_ok g a ->
  exists c, EnsureAcyclicSymbol g b a limit = Ok c /\ boundary_ok g c /\
    (forall v, above limit v -> above a v -> above c v) /\ (forall v, below limit v -> below a v -> below c v).
Proof.
  intros Hl Ha. destruct a as [| | |s o|v]; try (exists (FromConstant v); done); try (eexists; split; [reflexivity|done]).
  pose proof Ha as [Ho (defn & Hd & Hs & Hc)]. unfold EnsureAcyclicSymbol, defn_at. rewrite Hd. cbn [mbind result_bind].
  destruct (DominatesPhi g (block defn) b); [eauto|].
  destruct (UnwrapConstraint_ok rho rank g Hg _ _ Hd) as (u & ud & -> & Hu & Hru & Hcu & _). cbn [mbind result_bind].
  rewrite Hu. cbn [mbind result_bind]. destruct (_ && _); [|eauto].
  assert (symbol_ok g u) as Hsym.
  { exists ud. split; [done|]. rewrite Hru. split; [done|]. destruct (is_constant_instr (instr ud)) eqn:E; [|done].
    assert (u = s) as -> by (by apply Hcu). congruence. }
  rewrite FromDefinition_symbol with (rho := rho) by done. eexists; split; [reflexivity|]. split; [done|].
  simpl. rewrite Hru. done.
Qed.

(** The range is unknown so far, or it contains the value. *)
Definition inferred (r : Range) (v : Z) : Prop := IsUnknown (min_ r) = true \/ (range_ok g r /\ in_range r v).

Lemma InferRange_Phi_ok d defn inputs i r :
  definitions g !! d = Some defn -> instr defn = IPhi inputs -> type_cid defn = kSmiCid ->
  Forall smi_input inputs -> i ∈ inputs -> rho d = rho i -> GetSmiRange g i = Ok (Some r) ->
  exists res, InferRange_Phi g defn inputs = Ok res /\ inferred res (rho d).
Proof.
  intros Hd Hi Ht Hin Hii Hval Hr. unfold InferRange_Phi, RangeSizeForPhi. rewrite Hi, Ht. cbn [mbind result_bind bool_decide decide_rel].
  rewrite bool_decide_true by done. cbn [mbind result_bind].
  destruct (Phi_join_ok inputs Range_unknown Hin (or_introl eq_refl)) as (res & -> & Hres & _ & Hall). cbn [mbind result_bind].
  specialize (Hall i r Hii Hr). destruct Hres as [->|([Ha Hb] & _)]; [by destruct Hall|].
  assert (Smi (rho i)) as Hs by (rewrite Forall_forall in Hin; by apply Hin).
  destruct (MinConstant_ok rho g kRangeBoundarySmi) as [Hmn Hmnv], (MaxConstant_ok rho g kRangeBoundarySmi) as [Hmx Hmxv].
  destruct (EnsureAcyclicSymbol_ok (block defn) (min_ res) MinSmi Hmn Ha) as (a & -> & Hao & Hav & _).
  destruct (EnsureAcyclicSymbol_ok (block defn) (max_ res) MaxSmi Hmx Hb) as (b & -> & Hbo & _ & Hbv).
  cbn [mbind result_bind]. eexists; split; [reflexivity|]. right. rewrite Hval. destruct Hall as [Hal Hbe].
  split; [done|]. split; [by apply Hav; [apply Hmnv|]|by apply Hbv; [apply Hmxv|]].
Qed.

(** ** Constraints *)

Lemma Smi_not_infinite v : Smi v -> ~ above PositiveInfinity v /\ ~ below NegativeInfinity v.
Proof. intros Hs%Smi_int64. simpl. unfold Utils.kMaxInt64, Utils.kMinInt64. lia. Qed.

Lemma IsUnsatisfiable_ok r v :
  range_ok g r -> in_range r v -> int64 v -> IsUnsatisfiable g r = Ok false.
Proof.
  intros Hr [Ha Hb] Hv. unfold IsUnsatisfiable.
  assert (IsPositiveInfinity (min_ r) || IsNegativeInfinity (max_ r) = false) as ->.
  { unfold int64 in Hv. destruct (min_ r), (max_ r); simpl in *; try done; lia. }
  pose proof Hr as [Hmin Hmax].
  destruct (ConstantMinValue_ok rho rank g Hg r kRangeBoundaryInt64 Hmin) as (lo & -> & _ & Hlo).
  destruct (ConstantMaxValue_ok rho rank g Hg r kRangeBoundaryInt64 Hmax) as (hi & -> & _ & Hhi). cbn [mbind result_bind].
  specialize (Hlo v Ha Hv). specialize (Hhi v Hb Hv). rewrite Z.gtb_ltb. destruct (Z.ltb_spec hi lo); [lia|].
  destruct (DependOnSameSymbol_ok rho rank g Hg _ _ Hmin Hmax) as (same & -> & Hs). cbn [mbind result_bind].
  destruct same; [|done]. destruct (Hs eq_refl) as (sa & oa & sb & ob & Ea & Eb & Hrho). rewrite Ea in *. rewrite Eb in *.
  cbn [offset andb]. simpl in Ha, Hb. f_equal. rewrite Z.gtb_ltb. apply Z.ltb_ge. lia.
Qed.

Lemma InferRange_Constraint_ok v c :
  smi_input v -> range_ok g c -> in_range c (rho v) ->
  exists res, InferRange_Constraint g v c = Ok res /\ inferred res (rho v).
Proof.
  intros Hv Hc Hin. unfold InferRange_Constraint. destruct (GetSmiRange_ok v Hv) as (o & -> & Ho). cbn [mbind result_bind].
  destruct o as [vr|]; [|eexists; split; [reflexivity|by left]]. destruct (Ho vr eq_refl) as [Hvr Hvin].
  destruct (range_ok_known vr Hvr) as [-> _]. pose proof Hv as [Hs _]. destruct (Smi_not_infinite _ Hs) as [Hnp Hnn].
  unfold Intersect. destruct Hvr as [Hva Hvb], Hc as [Hca Hcb], Hvin as [Hvia Hvib], Hin as [Hcia Hcib].
  destruct (IntersectionMin_ok rho rank g Hg (min_ vr) (min_ c)) as (mn & -> & Hmn & Hmnv);
    [done|done|by intros Heq; rewrite Heq in Hvia|by intros Heq; rewrite Heq in Hcia|].
  destruct (IntersectionMax_ok rho rank g Hg (max_ vr) (max_ c)) as (mx & -> & Hmx & Hmxv);
    [done|done|by intros Heq; rewrite Heq in Hvib|by intros Heq; rewrite Heq in Hcib|].
  cbn [mbind result_bind]. assert (range_ok g (mkRange mn mx)) as Hok by done.
  assert (in_range (mkRange mn mx) (rho v)) as Hres by (split; [by apply Hmnv|by apply Hmxv]).
  unfold Range_new. destruct (range_ok_known _ Hok) as [Hu1 Hu2]. cbn [min_ max_] in Hu1, Hu2. rewrite Hu1, Hu2.
  cbn [Bool.eqb assert_ mbind result_bind]. rewrite (IsUnsatisfiable_ok _ (rho v)); [|done..|].
  - eexists; split; [reflexivity|]. by right.
  - pose proof (Smi_int64 _ Hs). unfold int64, Utils.kMinInt64, Utils.kMaxInt64. lia.
Qed.

(** ** All instructions *)

(** The values of a definition whose range is derived from its type alone. *)
Definition typed_value (defn : Defn) (v : Z) : Prop :=
  if bool_decide (type_cid defn = kSmiCid) then Smi v
  else if IsMintDefinition defn then int64 v
  else if IsInt32Definition defn then fits kRangeBoundaryInt32 v
  else type_is_int defn = true /\ int64 v.

(** The elements of arrays and strings: whether they are signed, and their bits. *)
Definition element_type (cid : ClassId) : option (bool * Z) :=
  match cid with
  | kTypedDataInt8ArrayCid => Some (true, 8)
  | kTypedDataUint8ArrayCid | kTypedDataUint8ClampedArrayCid
  | kExternalTypedDataUint8ArrayCid | kExternalTypedDataUint8ClampedArrayCid | kOneByteStringCid => Some (false, 8)
  | kTypedDataInt16ArrayCid => Some (true, 16)
  | kTypedDataUint16ArrayCid | kTwoByteStringCid => Some (false, 16)
  | kTypedDataInt32ArrayCid => Some (true, 32)
  | kTypedDataUint32ArrayCid => Some (false, 32)
  | _ => None
  end.

(** A load extends the bits it finds in memory. *)
Definition loaded_value (signed : bool) (w bits : Z) : Z := if signed then wrapS w bits else wrapU w bits.

(** The ranges of the inputs are such that a binary operation on them is inferred soundly. *)
Definition binary_inputs (op : Token) (lr rr : option Range) : Prop :=
  forall a b, lr = Some a -> rr = Some b -> IsFinite a = true /\ IsFinite b = true /\ op_defined g op a b.

Definition binary_operands (cls : BinaryIntegerOp) (op : Token) (l r : nat) : Prop :=
  match cls with
  | BinarySmiOp | BinaryInt32Op =>
      smi_input l /\ smi_input r /\
      (forall lr rr, GetSmiRange g l = Ok lr -> GetSmiRange g r = Ok rr -> binary_inputs op lr rr)
  | BinaryMintOp | ShiftMintOp =>
      int_input l /\ int_input r /\
      (forall ld rd, definitions g !! l = Some ld -> definitions g !! r = Some rd ->
         binary_inputs op (range_ ld) (range_ rd))
  end.

(** The run-time value of a definition, by its instruction.  Truncating operations
    are left out: their exact result is not their value.  The value that
    [UnboxUint32] truncates has to fit when its range is used as it is.  A load from an
    array or a string extends the bits of the element; the elements of an object array
    or a string, whose length a field gives, take up a number of bytes that is a small
    integer; [LoadCodeUnits] loads up to 32 bits. *)
Definition instr_value (d : nat) (defn : Defn) : Prop :=
  match instr defn with
  | IConstant (SmiObject v) | IConstant (MintObject v) => rho d = v /\ int64 v
  | IConstant OtherObject => False
  | IConstraint v c => rho d = rho v /\ smi_input v /\ range_ok g c /\ in_range c (rho v)
  | IBinaryIntegerOp cls op l r _ tr =>
      tr = false /\ eval_op op (rho l) (rho r) = Some (rho d) /\
      (exists size, RepresentationToRangeSize (representation defn) = Ok size /\ fits size (rho d)) /\
      binary_operands cls op l r
  | IPhi inputs =>
      type_cid defn = kSmiCid /\ Forall smi_input inputs /\
      exists i r, i ∈ inputs /\ rho d = rho i /\ GetSmiRange g i = Ok (Some r)
  | ILoadField _ (kObjectArrayLength | kImmutableArrayLength) => 0 <= rho d /\ Smi (rho d * (kBitsPerWord / 8))
  | ILoadField _ kTypedDataLength => 0 <= rho d /\ Smi (rho d)
  | ILoadField _ kStringBaseLength => 0 <= rho d /\ Smi (rho d * 2)
  | ILoadField _ kOtherField => typed_value defn (rho d)
  | ILoadIndexed cid =>
      match element_type cid with
      | Some (signed, w) => exists bits, rho d = loaded_value signed w bits
      | None => typed_value defn (rho d)
      end
  | ILoadCodeUnits cid =>
      match cid with
      | kOneByteStringCid | kTwoByteStringCid | kExternalOneByteStringCid | kExternalTwoByteStringCid =>
          exists bits, rho d = loaded_value false 32 bits
      | _ => False
      end
  | IIfThenElse t f => (rho d = t \/ rho d = f) /\ int64 t /\ int64 f
  | IBoxInteger _ v => rho d = rho v /\ int_input v
  | IUnboxInt32 v cid _ =>
      rho d = rho v /\ fits kRangeBoundaryInt32 (rho v) /\ int_input v /\ (cid = kSmiCid -> Smi (rho v))
  | IUnboxUint32 v cid =>
      rho d = u32 (rho v) /\ int_input v /\ (cid = kSmiCid -> Smi (rho v)) /\ (0 <= rho v -> rho v < 2 ^ 32)
  | IUnboxInt64 v => rho d = rho v /\ int_input v
  | IUnboxedIntConverter from to v =>
      int_input v /\ (from = kUnboxedInt32 \/ from = kUnboxedMint \/ from = kUnboxedUint32) /\
      (to = kUnboxedUint32 /\ rho d = u32 (rho v) \/
       to = kUnboxedInt32 /\ rho d = rho v /\ fits kRangeBoundaryInt32 (rho v) \/
       to = kUnboxedMint /\ rho d = rho v)
  | IUnaryMintOp _ | IOther => typed_value defn (rho d)
  end.

Lemma inferred_constants lo hi v :
  int64 lo -> int64 hi -> lo <= v <= hi -> inferred (mkRange (FromConstant lo) (FromConstant hi)) v.
Proof. intros Hl%int64_isS Hh%int64_isS Hv. right. split; [done|]. split; simpl; lia. Qed.

Lemma InferRange_default_ok defn v :
  typed_value defn v -> exists r, InferRange_default defn = Ok r /\ inferred r v.
Proof.
  unfold typed_value, InferRange_default. intros Hv.
  assert (forall size, fits size v -> exists r, Ok (E := range_error) (Full size) = Ok r /\ inferred r v) as Hfull.
  { intros size Hf. eexists; split; [reflexivity|]. right. by split; [apply Full_ok|apply (proj2 (Full_ok size))]. }
  destruct (bool_decide _); [by apply (Hfull kRangeBoundarySmi)|].
  destruct (IsMintDefinition defn); [by apply (Hfull kRangeBoundaryInt64)|].
  destruct (IsInt32Definition defn); [by apply (Hfull kRangeBoundaryInt32)|].
  destruct Hv as [-> Hv]. by apply (Hfull kRangeBoundaryInt64).
Qed.

Lemma kSmiMax_int64 : 0 <= kSmiMax <= Utils.kMaxInt64.
Proof. pose proof kSmi_eq. unfold Utils.kMaxInt64. lia. Qed.

Lemma InferRange_LoadField_ok d defn inst k :
  instr defn = ILoadField inst k -> instr_value d defn ->
  exists r, InferRange_LoadField defn k = Ok r /\ inferred r (rho d).
Proof.
  intros Hi Hv. unfold instr_value in Hv. rewrite Hi in Hv. pose proof kSmiMax_int64 as Hk.
  assert (forall n, 0 < n -> int64 (kSmiMax / n)) as Hq.
  { intros n Hn. unfold int64, Utils.kMinInt64. split; [pose proof (Z.div_pos kSmiMax n); lia|].
    transitivity kSmiMax; [|lia]. apply Z.div_le_upper_bound; [lia|]. nia. }
  assert (int64 0) by done. assert (int64 kSmiMax) by (unfold int64, Utils.kMinInt64; lia).
  assert (0 < kBitsPerWord / 8) by (destruct kBitsPerWord_ok as [->| ->]; done).
  destruct k; try (by apply InferRange_default_ok); destruct Hv as [Hnn [_ Hmax]]; eexists; (split; [reflexivity|]);
    apply inferred_constants; try done; unfold Array_kMaxElements, String_kMaxElements in *; auto with lia.
  all: try (by apply Hq). all: try (split; [lia|]; try (apply Z.div_le_lower_bound; [lia|]; rewrite Z.mul_comm; exact Hmax)).
Qed.

Lemma InferRange_LoadIndexed_ok d defn cid :
  instr defn = ILoadIndexed cid -> instr_value d defn ->
  exists r, InferRange_LoadIndexed defn cid = Ok r /\ inferred r (rho d).
Proof.
  intros Hi Hv. unfold instr_value in Hv. rewrite Hi in Hv.
  assert (forall w bits, 0 < w -> - 2 ^ (w - 1) <= wrapS w bits <= 2 ^ (w - 1) - 1) as Hs.
  { intros w bits Hw. pose proof (wrapS_range w bits Hw) as [? ?]. lia. }
  assert (forall w bits, 0 <= w -> 0 <= wrapU w bits <= 2 ^ w - 1) as Hu.
  { intros w bits Hw. pose proof (wrapU_range w bits Hw) as [? ?]. lia. }
  destruct cid; cbn [element_type] in Hv; try (by apply InferRange_default_ok).
  all: destruct Hv as [bits ->]; unfold loaded_value; eexists; (split; [reflexivity|]); apply inferred_constants; try done.
  all: first [apply (Hs 8); lia|apply (Hu 8); lia|apply (Hs 16); lia|apply (Hu 16); lia|apply (Hs 32); lia|apply (Hu 32); lia].
Qed.

Lemma smi_int_input d : smi_input d -> int_input d.
Proof.
  intros [Hs Hd]. split; [|done]. apply Smi_int64 in Hs. unfold int64, Utils.kMinInt64, Utils.kMaxInt64. lia.
Qed.

(** The ranges that a binary operation starts from, and the helper it calls with them. *)
Lemma InferRange_BinaryIntegerOp_start defn cls op l r tr :
  binary_operands cls op l r ->
  exists lr rr, InferRange_BinaryIntegerOp g defn cls op l r tr = InferRangeHelper g defn op l tr lr rr /\
    int_input l /\ int_input r /\ binary_inputs op lr rr /\
    (forall a, lr = Some a -> range_ok g a /\ in_range a (rho l)) /\ (forall a, rr = Some a -> range_ok g a /\ in_range a (rho r)).
Proof.
  intros Hops. destruct cls; destruct Hops as (Hl & Hr & Hb); cbn [InferRange_BinaryIntegerOp].
  1-2: destruct (GetSmiRange_ok l Hl) as (lo & El & Hlo), (GetSmiRange_ok r Hr) as (ro & Er & Hro);
    exists lo, ro; rewrite El, Er; eauto 10 using smi_int_input.
  all: pose proof Hl as [_ (ld & Hld)]; pose proof Hr as [_ (rd & Hrd)]; exists (range_ ld), (range_ rd); unfold defn_at;
    rewrite Hld, Hrd; (split; [done|]); eauto 10 using range_known.
Qed.

(** A binary operation whose inputs have ranges: the overflow flag is cleared only
    when the exact result fits, and a result that fits is in the range. *)
Lemma InferRange_BinaryIntegerOp_ok defn cls op l r size z :
  binary_operands cls op l r -> RepresentationToRangeSize (representation defn) = Ok size ->
  eval_op op (rho l) (rho r) = Some z ->
  exists res o, InferRange_BinaryIntegerOp g defn cls op l r false = Ok (res, o) /\
    (o = Some false -> fits size z) /\ (fits size z -> inferred res z).
Proof.
  intros Hops Hrep Hz. destruct (InferRange_BinaryIntegerOp_start defn cls op l r false Hops)
    as (lr & rr & -> & [Hl (ld & Hld)] & [Hr _] & Hin & Hlr & Hrr).
  destruct lr as [a|]; [|do 2 eexists; split; [reflexivity|]; split; [done|by left]].
  destruct rr as [b|]; [|do 2 eexists; split; [reflexivity|]; split; [done|by left]].
  destruct (Hin a b eq_refl eq_refl) as (Hfa & Hfb & Hdef), (Hlr a eq_refl) as [Ha Hai], (Hrr b eq_refl) as [Hb Hbi].
  destruct (InferRangeHelper_ok defn op l (rho l) (rho r) z a b size) as (res & o & -> & Ho & Hres); try done.
  { intros d' [= <-]. split; [done|]. eauto. }
  do 2 eexists. split; [reflexivity|]. split; [by intros [= ->]; apply Ho|]. intros Hf. right. by apply Hres.
Qed.

Lemma inferred_known o v :
  (forall r, o = Some r -> range_ok g r /\ in_range r v) -> inferred (known_or_unknown o) v.
Proof.
  intros Ho. destruct o as [r|]; [|by left]. destruct (Ho r eq_refl) as [Hr Hin].
  unfold known_or_unknown. destruct (range_ok_known r Hr) as [-> _]. by right.
Qed.

Lemma InferRange_UnboxInt32_ok v cid :
  int_input v -> fits kRangeBoundaryInt32 (rho v) -> (cid = kSmiCid -> Smi (rho v)) ->
  exists r, InferRange_UnboxInt32 g v cid = Ok r /\ inferred r (rho v).
Proof.
  intros Hv Hf Hs. pose proof Hv as [_ (vd & Hvd)]. unfold InferRange_UnboxInt32, defn_at. rewrite Hvd. cbn [mbind result_bind].
  case_bool_decide as Hc; [|destruct (type_is_int vd)].
  - destruct (GetSmiRange_ok v) as (o & -> & Ho); [by split; [apply Hs|eauto]|]. eexists; split; [reflexivity|]. by apply inferred_known.
  - destruct (GetIntRange_ok v Hv) as (o & -> & Ho). eexists; split; [reflexivity|]. by apply inferred_known.
  - eexists; split; [reflexivity|]. right. split; [apply Full_ok|by apply (proj2 (Full_ok kRangeBoundaryInt32))].
Qed.

Lemma uint32_inferred v : inferred uint32_range (u32 v).
Proof.
  pose proof (wrapU_range 32 v ltac:(lia)) as Hr. unfold isU in Hr. apply inferred_constants; [done|done|unfold kMaxUint32; lia].
Qed.

Lemma InferRange_UnboxUint32_ok v cid :
  int_input v -> (cid = kSmiCid -> Smi (rho v)) -> (0 <= rho v -> rho v < 2 ^ 32) ->
  exists r, InferRange_UnboxUint32 g v cid = Ok r /\ inferred r (u32 (rho v)).
Proof.
  intros Hv Hs Hfit. pose proof Hv as [_ (vd & Hvd)]. unfold InferRange_UnboxUint32, defn_at. rewrite Hvd. cbn [mbind result_bind].
  assert (forall o, (forall r, o = Some r -> range_ok g r /\ in_range r (rho v)) ->
    exists r, match o with
      | Some vr => if IsUnknown (min_ vr) then Ok Range_unknown
                   else pos ← IsPositive g vr; Ok (if pos : bool then vr else uint32_range)
      | None => Ok Range_unknown end = Ok r /\ inferred r (u32 (rho v))) as Hfrom.
  { intros [vr|] Ho; [|eexists; split; [reflexivity|by left]]. destruct (Ho vr eq_refl) as [Hvr Hin].
    destruct (range_ok_known vr Hvr) as [-> _].
    destruct (hull_exists rho rank g Hg vr Hvr) as (lo & hi & Hh & Hhv).
    destruct (IsPositive_ok rho rank g Hg vr lo hi Hvr Hh) as (b & -> & Hb). cbn [mbind result_bind].
    eexists; split; [reflexivity|]. destruct b; [|apply uint32_inferred].
    specialize (Hb eq_refl). pose proof Hv as [Hv64 _]. specialize (Hhv _ Hin Hv64).
    right. split; [done|]. rewrite wrapU_id; [done|]. unfold isU. lia. }
  case_bool_decide as Hc; [|destruct (type_is_int vd)].
  - destruct (GetSmiRange_ok v) as (o & -> & Ho); [by split; [apply Hs|eauto]|]. by apply Hfrom.
  - destruct (GetIntRange_ok v Hv) as (o & -> & Ho). by apply Hfrom.
  - eexists; split; [reflexivity|]. apply uint32_inferred.
Qed.

Lemma InferRange_UnboxInt64_ok v : int_input v -> exists r, InferRange_UnboxInt64 g v = Ok r /\ inferred r (rho v).
Proof.
  intros [Hv (vd & Hvd)]. unfold InferRange_UnboxInt64, defn_at. rewrite Hvd. cbn [mbind result_bind].
  destruct (range_ vd) as [r|] eqn:Er; [eexists; split; [reflexivity|]; right; by eapply range_known|].
  destruct (_ && _); eexists; (split; [reflexivity|]); [|by left].
  right. split; [apply Full_ok|by apply (proj2 (Full_ok kRangeBoundaryInt64))].
Qed.

Lemma InferRange_UnboxedIntConverter_ok d defn from to v :
  instr defn = IUnboxedIntConverter from to v -> instr_value d defn ->
  exists r, InferRange_UnboxedIntConverter g from to v = Ok r /\ inferred r (rho d).
Proof.
  intros Hi Hv. unfold instr_value in Hv. rewrite Hi in Hv. destruct Hv as ([Hv64 (vd & Hvd)] & Hfrom & Hto).
  unfold InferRange_UnboxedIntConverter. assert (forall A (k : M A), (assert_ true;; k) = k) as Ha by done.
  assert (match from with kUnboxedInt32 | kUnboxedMint | kUnboxedUint32 => true | _ => false end = true) as ->
    by (destruct Hfrom as [->|[->| ->]]; done).
  assert (match to with kUnboxedInt32 | kUnboxedMint | kUnboxedUint32 => true | _ => false end = true) as ->
    by (destruct Hto as [[-> _]|[[-> _]|[-> _]]]; done).
  unfold defn_at. cbn [assert_ mbind result_bind]. rewrite Hvd. cbn [mbind result_bind].
  destruct (range_ vd) as [vr|] eqn:Er; [|eexists; split; [reflexivity|by left]].
  destruct (range_known v vd vr Hvd Er) as [Hvr Hin]. destruct (range_ok_known vr Hvr) as [-> _].
  destruct Hto as [[-> ->]|[(-> & -> & Hf)|[-> ->]]]; eexists; (split; [reflexivity|]).
  - apply uint32_inferred.
  - right. by apply Range_Clamp_ok.
  - by right.
Qed.

Lemma InferRange_defn_ok d defn :
  definitions g !! d = Some defn -> instr_value d defn ->
  exists r o, InferRange_defn g d = Ok (r, o) /\ inferred r (rho d).
Proof.
  intros Hd Hv. unfold InferRange_defn, defn_at. rewrite Hd. cbn [mbind result_bind].
  assert (forall m : M Range, (exists r, m = Ok r /\ inferred r (rho d)) ->
    exists r o, (x ← m; Ok (x, None)) = Ok (r, (o : option bool)) /\ inferred r (rho d)) as Hplain.
  { intros m (r & -> & Hr). by exists r, None. }
  destruct (instr defn) as [c|v c|cls op l r co tr|inputs|inst k|cid|cid|tv fv|b v|v cid tr|v cid|v|from to v|v|] eqn:Ei.
  3:{ unfold instr_value in Hv. rewrite Ei in Hv. destruct Hv as (-> & Hz & (size & Hrep & Hf) & Hops).
      destruct (InferRange_BinaryIntegerOp_ok defn cls op l r size (rho d) Hops Hrep Hz) as (res & o & E & _ & Hres). eauto. }
  all: apply Hplain; try (by eapply InferRange_LoadField_ok); try (by eapply InferRange_LoadIndexed_ok);
    try (by eapply InferRange_UnboxedIntConverter_ok); unfold instr_value in Hv; rewrite Ei in Hv.
  - destruct c as [z|z|]; [| |done]; destruct Hv as [-> Hz]; eexists; (split; [reflexivity|]); apply inferred_constants; done || lia.
  - destruct Hv as (-> & Hs & Hc & Hin). by apply InferRange_Constraint_ok.
  - destruct Hv as (Ht & Hs & i & r & Hii & Hval & Hr). by eapply InferRange_Phi_ok.
  - unfold InferRange_LoadCodeUnits. destruct cid; try done; destruct Hv as [bits ->]; eexists; (split; [reflexivity|]);
      apply inferred_constants; try done; pose proof (wrapU_range 32 bits ltac:(lia)) as [? ?]; unfold loaded_value, kMaxUint32; lia.
  - destruct Hv as (Hor & Ht & Hf). eexists; split; [reflexivity|]. rewrite Minimum_min, Maximum_max.
    apply inferred_constants; unfold int64 in *; lia.
  - destruct Hv as (-> & [_ (vd & Hvd)]). unfold InferRange_BoxInteger, defn_at. rewrite Hvd. cbn [mbind result_bind].
    eexists; split; [reflexivity|]. apply inferred_known. intros r Hr. by eapply range_known.
  - destruct Hv as (-> & Hf & Hin & Hs). by apply InferRange_UnboxInt32_ok.
  - destruct Hv as (-> & Hin & Hs & Hf). by apply InferRange_UnboxUint32_ok.
  - destruct Hv as (-> & Hin). by apply InferRange_UnboxInt64_ok.
  - by apply InferRange_default_ok.
  - by apply InferRange_default_ok.
Qed.

(** ** Branches and bounds checks add constraints *)

Definition compare (op : Token) (x y : Z) : bool :=
  match op with
  | kEQ => x =? y
  | kNE => negb (x =? y)
  | kLT => x <? y
  | kGT => y <? x
  | kLTE => x <=? y
  | kGTE => y <=? x
  | _ => false
  end.

Definition is_comparison (op : Token) : bool :=
  match op with kEQ | kNE | kLT | kGT | kLTE | kGTE => true | _ => false end.

Lemma Smi_constant v : Smi v -> boundary_ok g (FromConstant v).
Proof. intros Hv%Smi_int64. simpl. unfold isS. change (64 - 1) with 63. lia. Qed.

Lemma ConstraintSmiRange_ok op b x :
  is_comparison op = true -> operand_ok g b -> Smi x ->
  exists r, ConstraintSmiRange g op b = Ok r /\ range_ok g r /\ (compare op x (rho b) = true -> in_range r x).
Proof.
  intros Hop Hb Hx. destruct (MinConstant_ok rho g kRangeBoundarySmi) as [Hmn Hmnv], (MaxConstant_ok rho g kRangeBoundarySmi) as [Hmx Hmxv].
  specialize (Hmnv x Hx). specialize (Hmxv x Hx).
  assert (forall o, -1 <= o <= 1 -> exists c, FromDefinition g b o = Ok c /\ boundary_ok g c /\ IsUnknown c = false /\
    (rho b + o <= x -> above c x) /\ (x <= rho b + o -> below c x)) as Hfd.
  { intros o Ho. destruct (FromDefinition_ok rho rank g Hg b o Hb Ho) as (c & Hc & Hok & Hv). exists c. split; [done|]. split; [done|].
    split; [by destruct c|]. split; intros; [by apply (bval_above rho c _ _ Hv)|by apply (bval_below rho c _ _ Hv)]. }
  destruct (Hfd 0 ltac:(lia)) as (c0 & E0 & Hc0 & Hu0 & Ha0 & Hb0), (Hfd 1 ltac:(lia)) as (c1 & E1 & Hc1 & Hu1 & Ha1 & _),
    (Hfd (-1) ltac:(lia)) as (cm & Em & Hcm & Hum & _ & Hbm).
  destruct op; try done; cbn [ConstraintSmiRange compare]; rewrite ?E0, ?E1, ?Em; cbn [mbind result_bind]; unfold Range_new;
    rewrite ?Hu0, ?Hu1, ?Hum; cbn [IsUnknown MinSmi MaxSmi Bool.eqb assert_ mbind result_bind];
    eexists; (split; [reflexivity|]); (split; [done|]); intros Hcmp.
  - apply Z.eqb_eq in Hcmp. split; [apply Ha0|apply Hb0]; lia.
  - done.
  - apply Z.ltb_lt in Hcmp. split; [done|apply Hbm; lia].
  - apply Z.ltb_lt in Hcmp. split; [apply Ha1; lia|done].
  - apply Z.leb_le in Hcmp. split; [done|apply Hb0; lia].
  - apply Z.leb_le in Hcmp. split; [apply Ha0; lia|done].
Qed.

Lemma FlipComparison_ok op x y :
  is_comparison op = true ->
  exists op', FlipComparison op = Ok op' /\ is_comparison op' = true /\ compare op' y x = compare op x y.
Proof. destruct op; intros Hc; try done; eexists; (split; [reflexivity|]); (split; [done|]); simpl; zcase; done || lia. Qed.

Lemma NegateComparison_ok op x y :
  is_comparison op = true ->
  exists op', NegateComparison op = Ok op' /\ is_comparison op' = true /\ compare op' x y = negb (compare op x y).
Proof. destruct op; intros Hc; try done; eexists; (split; [reflexivity|]); (split; [done|]); simpl; zcase; done || lia. Qed.

Lemma BranchConstraints_ok kind use_index l r :
  is_comparison kind = true -> (use_index < 2)%nat -> operand_ok g l -> operand_ok g r ->
  exists t f, BranchConstraints g kind use_index l r = Ok (t, f) /\ range_ok g t /\ range_ok g f /\
    in_range (if compare kind (rho l) (rho r) then t else f) (rho (if (use_index =? 0)%nat then l else r)).
Proof.
  intros Hk Hu Hl Hr. unfold BranchConstraints.
  assert (forall op d b, is_comparison op = true -> operand_ok g d -> operand_ok g b ->
    compare op (rho d) (rho b) = compare kind (rho l) (rho r) ->
    exists t f, (t ← ConstraintSmiRange g op b; neg ← NegateComparison op; f ← ConstraintSmiRange g neg b; Ok (t, f)) = Ok (t, f) /\
      range_ok g t /\ range_ok g f /\ in_range (if compare kind (rho l) (rho r) then t else f) (rho d)) as Hgen.
  { intros op d b Hop (dd & Hdd & Hds & Hdc) Hb Heq. destruct (ConstraintSmiRange_ok op b (rho d) Hop Hb Hds) as (t & -> & Ht & Htin).
    destruct (NegateComparison_ok op (rho d) (rho b) Hop) as (neg & -> & Hneg & Hnv). cbn [mbind result_bind].
    destruct (ConstraintSmiRange_ok neg b (rho d) Hneg Hb Hds) as (f & -> & Hf & Hfin). cbn [mbind result_bind].
    exists t, f. split; [done|]. split; [done|]. split; [done|]. rewrite <- Heq. rewrite Hnv in Hfin.
    destruct (compare op (rho d) (rho b)); auto. }
  destruct use_index as [|[|]]; [| |lia]; cbn [Nat.eqb mbind result_bind assert_].
  - by apply (Hgen kind l r).
  - destruct (FlipComparison_ok kind (rho l) (rho r) Hk) as (op' & -> & Hop' & Heq). cbn [mbind result_bind].
    by apply (Hgen op' r l).
Qed.

Lemma CheckArrayBoundConstraint_ok is_index len index :
  operand_ok g len -> operand_ok g index -> 0 <= rho index < rho len ->
  exists r, CheckArrayBoundConstraint g is_index len index = Ok r /\ range_ok g r /\
    in_range r (rho (if is_index : bool then index else len)).
Proof.
  intros Hlen Hidx Hlt. unfold CheckArrayBoundConstraint. destruct is_index.
  - destruct (FromDefinition_ok rho rank g Hg len (-1) Hlen ltac:(lia)) as (c & -> & Hc & Hv). cbn [mbind result_bind].
    unfold Range_new. assert (IsUnknown c = false) as -> by (by destruct c). eexists; split; [reflexivity|].
    split; [done|]. split; [simpl; lia|]. apply (bval_below rho c _ _ Hv). lia.
  - destruct (FromDefinition_ok rho rank g Hg index 1 Hidx ltac:(lia)) as (c & -> & Hc & Hv). cbn [mbind result_bind].
    unfold Range_new. assert (IsUnknown c = false) as -> by (by destruct c). eexists; split; [reflexivity|].
    destruct (MaxConstant_ok rho g kRangeBoundarySmi) as [Hmx Hmxv]. split; [done|]. destruct Hlen as (ld & _ & Hs & _).
    split; [apply (bval_above rho c _ _ Hv); lia|by apply Hmxv].
Qed.

(** ** Redundant bounds checks *)

Lemma IsRedundant_loop_ok fuel max len v l :
  boundary_ok g max -> boundary_ok g len -> (weight rank max + weight rank len < fuel)%nat ->
  below max v -> above len l ->
  exists b, IsRedundant_loop fuel g max len = Ok b /\ (b = true -> v < l).
Proof.
  revert max len. induction fuel as [|fuel IH]; intros max len Hm Hl Hf Hv Hlen; [lia|]. cbn [IsRedundant_loop].
  destruct (DependOnSameSymbol_ok rho rank g Hg max len Hm Hl) as (same & -> & Hs). cbn [mbind result_bind]. destruct same.
  { destruct (Hs eq_refl) as (sa & oa & sb & ob & -> & -> & Hrho). cbn [offset]. eexists; split; [reflexivity|].
    intros Hlt%Z.ltb_lt. simpl in Hv, Hlen. lia. }
  destruct (CanonicalizeMaxBoundary_ok rho rank g Hg max Hm) as (m & -> & Hmax). cbn [mbind result_bind]. destruct m as [max'|].
  - destruct (Hmax max' eq_refl) as (Hok & Hw & Hbe). apply IH; auto. lia.
  - destruct (CanonicalizeMinBoundary_ok rho rank g Hg len Hl) as (m & -> & Hmin). cbn [mbind result_bind].
    destruct m as [len'|]; [|eexists; split; [reflexivity|done]].
    destruct (Hmin len' eq_refl) as (Hok & Hw & Hab). apply IH; auto. lia.
Qed.

(** The tests of [IsRedundant], once the range of the index is known. *)
Lemma IsRedundant_ranged index defn r len l :
  definitions g !! index = Some defn -> range_ defn = Some r -> operand_ok g index ->
  boundary_ok g len -> bval len = Some l ->
  exists b, IsRedundant g index len = Ok (b, g) /\ (b = true -> 0 <= rho index < l).
Proof.
  intros Hd Hr Hop Hlen Hl. unfold IsRedundant, defn_at. rewrite Hd. cbn [mbind result_bind]. rewrite Hr. cbn [mbind result_bind].
  destruct (range_known index defn r Hd Hr) as [[Hrmin _] [Hra _]]. pose proof Hop as (defn' & Hd' & Hs & Hci). simplify_eq.
  destruct (ConstantMinValue_ok rho rank g Hg r kRangeBoundarySmi Hrmin) as (lo & -> & _ & Hlo). specialize (Hlo _ Hra Hs).
  cbn [mbind result_bind]. destruct (Z.ltb_spec lo 0); [eexists; split; [reflexivity|done]|].
  destruct (FromDefinition_ok rho rank g Hg index 0 Hop ltac:(lia)) as (b & -> & Hb & Hbv). rewrite Z.add_0_r in Hbv. cbn [mbind result_bind].
  destruct (CanonicalizeBoundary_ok rho rank g Hg b PositiveInfinity Hb) as (max & -> & Hmax). cbn [mbind result_bind].
  destruct (OverflowedSmi max) eqn:Eov; [eexists; split; [reflexivity|done]|].
  destruct Hmax as [->|(Hmax & _ & Hmv & _)]; [done|]. rewrite Hbv in Hmv.
  assert (below max (rho index)) as Hbel by (by apply (bval_below rho max _ _ Hmv)).
  assert (above len l) as Hab by (by apply (bval_above rho len _ _ Hl)).
  destruct (UpperBound_ok rho rank g Hg max Hmax) as (mu & -> & Hmu & Hmuv).
  destruct (LowerBound_ok rho rank g Hg len Hlen) as (ll & -> & Hll & Hllv). cbn [mbind result_bind].
  destruct (OverflowedSmi mu || OverflowedSmi ll) eqn:Eo; [eexists; split; [reflexivity|done]|].
  apply orb_false_iff in Eo as [Eo1 Eo2]. specialize (Hmuv _ Hbel). specialize (Hllv _ Hab).
  destruct mu as [| | | |cu]; try done. destruct ll as [| | | |cl]; try done. cbn [ConstantValue mbind result_bind].
  destruct Hmuv as [_ Hmuv], Hllv as [_ Hllv].
  destruct (Z.ltb_spec cu cl); [eexists; split; [reflexivity|]; intros _; lia|].
  destruct (CanonicalizeBoundary_ok rho rank g Hg len PositiveInfinity Hlen) as (cn & -> & Hcn). cbn [mbind result_bind].
  destruct (OverflowedSmi cn) eqn:Ecn; [eexists; split; [reflexivity|done]|].
  destruct Hcn as [->|(Hcn & _ & Hcv & _)]; [done|]. rewrite Hl in Hcv.
  assert (above cn l) as Hcab by (by apply (bval_above rho cn _ _ Hcv)).
  destruct (IsRedundant_loop_ok (2 * stack_of g) max cn (rho index) l Hmax Hcn) as (res & -> & Hres); [|done|done|].
  { pose proof (weight_stack rho rank g Hg max Hmax). pose proof (weight_stack rho rank g Hg cn Hcn). lia. }
  cbn [mbind result_bind]. eexists; split; [reflexivity|]. intros Ht. specialize (Hres Ht). lia.
Qed.

End inference.

(** ** Recording a range *)

Section recording.
Context `{T : Target}.
Variable rho : nat -> Z.
Variable rank : nat -> nat.

Lemma lookup_set_range g d r e :
  definitions (set_range g d r) !! e =
  (fun defn => if decide (e = d) then with_range defn r else defn) <$> (definitions g !! e).
Proof.
  unfold set_range. cbn [definitions]. destruct (decide (e = d)) as [->|Hne].
  - by rewrite list_lookup_alter_eq.
  - rewrite list_lookup_alter_ne by done. by destruct (definitions g !! e).
Qed.

Lemma symbol_ok_set_range g d r s : symbol_ok rho g s -> symbol_ok rho (set_range g d r) s.
Proof.
  intros (defn & Hd & Hs & Hc). exists (if decide (s = d) then with_range defn r else defn).
  rewrite lookup_set_range, Hd. split; [done|]. split; [done|]. by destruct (decide (s = d)).
Qed.

Lemma operand_ok_set_range g d r s : operand_ok rho g s -> operand_ok rho (set_range g d r) s.
Proof.
  intros (defn & Hd & Hs & Hc). exists (if decide (s = d) then with_range defn r else defn).
  rewrite lookup_set_range, Hd. split; [done|]. split; [done|]. by destruct (decide (s = d)).
Qed.

Lemma boundary_ok_set_range g d r b : boundary_ok rho g b -> boundary_ok rho (set_range g d r) b.
Proof. destruct b; simpl; try done. intros [? ?]. split; [done|]. by apply symbol_ok_set_range. Qed.

(** Recording a range that contains the value and refers to earlier symbols only keeps the graph sound. *)
Lemma graph_ok_set_range g d r :
  graph_ok rho rank g -> range_ok rho g r -> in_range rho r (rho d) ->
  (weight rank (min_ r) <= rank d)%nat -> (weight rank (max_ r) <= rank d)%nat ->
  graph_ok rho rank (set_range g d r).
Proof.
  intros Hg Hr Hin Hw1 Hw2. split.
  - intros e defn. rewrite lookup_set_range. intros (e' & He & _)%fmap_Some. cbn [set_range definitions].
    rewrite length_alter. by eapply ok_rank.
  - intros e defn. rewrite lookup_set_range. intros (e' & He & ->)%fmap_Some. apply (ok_instr _ _ _ Hg) in He.
    assert (instr (if decide (e = d) then with_range e' r else e') = instr e') as -> by (by destruct (decide (e = d))).
    pose proof (symbol_ok_set_range g d r). pose proof (operand_ok_set_range g d r).
    destruct (instr e') as [[]| |cls op ? ? ? ?| | | | | | | | | | | |]; try done; [simpl in *; intuition auto|].
    destruct cls; try done. destruct op; simpl in *; intuition auto.
  - intros e defn r' Hl Hr'. rewrite lookup_set_range in Hl. apply fmap_Some in Hl as (e' & He & ->).
    destruct (decide (e = d)) as [->|Hne].
    + simpl in Hr'. injection Hr' as <-. split; [|done]. destruct Hr. split; by apply boundary_ok_set_range.
    + destruct (ok_range _ _ _ Hg _ _ _ He Hr') as ([? ?] & ? & ? & ?). split; [|done]. split; by apply boundary_ok_set_range.
  - intros a b da db Ha Hb Hc. rewrite lookup_set_range in Ha, Hb.
    apply fmap_Some in Ha as (a' & Ha & ->), Hb as (b' & Hb & ->). apply (ok_cse _ _ _ Hg a b a' b' Ha Hb).
    destruct (decide (a = d)), (decide (b = d)); exact Hc.
Qed.

End recording.
End RangeInfer.
