(* ===== verification/RangeProps.v ===== *)
(** * The range analysis: theorems

    What the optimizing compiler relies on, stated for whole operations: the
    range computed for an operation or an instruction contains the value, joins
    and widening lose no value, overflow checks and bounds checks are removed
    only where they cannot fail, the constraints after a branch hold on it; and
    where the code does not have these properties. *)

From stdpp Require Import base numbers list sets.
From Stdlib Require Import ZArith Lia.
From S2P Require Import Prelude Utils RangeAnalysis RangeSound RangeOps RangeInfer.

Local Open Scope Z_scope.
Local Open Scope mach_scope.

Module RangeProps.
Import RangeAnalysis RangeSound RangeOps RangeInfer.

(** ** A graph for the witnesses

    On a 64-bit target: a constant 10, the length of an array, an index known to
    be below the length, the sum of the index and the constant. *)

#[export] Instance Target64 : Target := {| kBitsPerWord := 64; kBitsPerWord_ok := or_intror eq_refl |}.

Definition smi_defn (i : Instr) (r : option Range) : Defn :=
  mkDefn i r kSmiCid true kTagged 0 false false 0 [] [].

Definition length_range : Range := mkRange (FromConstant 0) (FromConstant 1000).
Definition index_range : Range := mkRange (FromConstant 0) (Symbol 1 (-1)).
Definition constant_range : Range := mkRange (FromConstant 10) (FromConstant 10).

Definition example_graph : FlowGraph :=
  mkGraph
    [smi_defn (IConstant (SmiObject 10)) (Some constant_range);
     smi_defn (ILoadField 9 kObjectArrayLength) (Some length_range);
     smi_defn IOther (Some index_range);
     smi_defn (IBinaryIntegerOp BinarySmiOp kADD 2 0 true false) None;
     smi_defn (IPhi [0%nat; 2%nat]) None]
    [None].

Definition example_rho (d : nat) : Z :=
  match d with O => 10 | 1%nat => 7 | 2%nat => 3 | 3%nat => 13 | _ => 3 end.

Lemma example_smi d : Smi (example_rho d).
Proof. destruct d as [|[|[|[|]]]]; vm_compute; split; discriminate. Qed.

Lemma example_symbol s : s = 1%nat \/ s = 2%nat -> symbol_ok example_rho example_graph s.
Proof. intros [->| ->]; eexists; (split; [reflexivity|]); (split; [apply example_smi|reflexivity]). Qed.

Lemma example_operand s : (s < 3)%nat -> operand_ok example_rho example_graph s.
Proof.
  intros Hs. destruct s as [|[|[|]]]; [| | |lia]; eexists; (split; [reflexivity|]); (split; [apply example_smi|done]).
Qed.

Lemma example_index_range : range_ok example_rho example_graph index_range /\ in_range example_rho index_range 3.
Proof.
  split; split; simpl; try lia; try (unfold isS; simpl; lia).
  split; [unfold isS; simpl; lia|]. apply example_symbol. tauto.
Qed.

Lemma constant_range_ok rho g lo hi : int64 lo -> int64 hi -> range_ok rho g (mkRange (FromConstant lo) (FromConstant hi)).
Proof. intros Hl%int64_isS Hh%int64_isS. done. Qed.

Lemma example_ok : graph_ok example_rho (fun d => d) example_graph.
Proof.
  assert (forall d defn, definitions example_graph !! d = Some defn -> (d < 5)%nat) as Hlen.
  { intros d defn Hd. exact (lookup_lt_Some _ _ _ Hd). }
  split.
  - exact Hlen.
  - intros d defn Hd. pose proof (Hlen _ _ Hd) as Hlt. destruct d as [|[|[|[|[|]]]]]; try lia; injection Hd as <-; simpl; try done.
    split; [done|]. split; [by apply example_operand; lia|]. split; [by apply example_operand; lia|].
    split; [left; apply example_symbol; tauto|lia].
  - intros d defn r Hd. pose proof (Hlen _ _ Hd) as Hlt.
    destruct d as [|[|[|[|[|]]]]]; try lia; injection Hd as <-; intros Hr; try discriminate Hr; injection Hr as <-.
    + repeat split; simpl; try lia; unfold isS; simpl; lia.
    + repeat split; simpl; try lia; unfold isS; simpl; lia.
    + split; [apply example_index_range|]. split; [apply example_index_range|]. simpl. lia.
  - intros a b da db Ha Hb Hc. exfalso. pose proof (Hlen _ _ Ha) as Hlt.
    destruct a as [|[|[|[|[|]]]]]; try lia; injection Ha as <-; discriminate Hc.
Qed.

(** ** Arithmetic of ranges *)

(** C28: [Range::BinaryOp] is a sound abstraction of integer arithmetic: for operands in
    the given ranges it returns, and the range it returns contains the exact result, for
    every operator.  Left out are products with a range that starts at the least 64-bit
    integer and right shifts by a range that goes beyond 63 ([op_defined]). *)
Theorem BinaryOp_sound {T : Target} rho rank g op l r ld x y z :
  graph_ok rho rank g -> range_ok rho g l -> range_ok rho g r -> IsFinite l = true -> IsFinite r = true ->
  in_range rho l x -> in_range rho r y -> int64 x -> int64 y -> left_defn_ok rho g ld x ->
  op_defined g op l r -> eval_op op x y = Some z ->
  exists res, BinaryOp g op l r ld = Ok res /\ range_ok rho g res /\ in_range rho res z.
Proof. intros Hg. exact (BinaryOp_ok rho rank g Hg op l r ld x y z). Qed.

Lemma BinaryOp_sound_witness :
  BinaryOp example_graph kADD index_range constant_range None = Ok (mkRange (FromConstant 10) (Symbol 1 9)) /\
  in_range example_rho (mkRange (FromConstant 10) (Symbol 1 9)) 13.
Proof.
  destruct (BinaryOp_sound example_rho (fun d => d) example_graph kADD index_range constant_range None 3 10 13) as (res & E & _ & Hin).
  - exact example_ok.
  - apply example_index_range.
  - apply constant_range_ok; done.
  - reflexivity.
  - reflexivity.
  - apply example_index_range.
  - split; simpl; lia.
  - done.
  - done.
  - intros d. discriminate.
  - exact I.
  - reflexivity.
  - assert (BinaryOp example_graph kADD index_range constant_range None = Ok (mkRange (FromConstant 10) (Symbol 1 9))) as E'
      by (vm_compute; reflexivity).
    split; [exact E'|]. rewrite E' in E. injection E as <-. exact Hin.
Defined.



(** C39: for a binary integer operation that does not truncate, whose operands are in the
    ranges recorded for them and whose ranges the operation is defined on
    ([binary_operands]: finite ranges, no product with a range from the least 64-bit
    integer, no right shift by a range beyond 63), inference returns and removes the
    overflow check ([can_overflow] becomes false) only if the exact result fits the
    representation of the operation. *)
Theorem overflow_check_removed {T : Target} rho rank g d defn cls op l r co size z :
  graph_ok rho rank g -> definitions g !! d = Some defn -> instr defn = IBinaryIntegerOp cls op l r co false ->
  binary_operands rho g cls op l r -> RepresentationToRangeSize (representation defn) = Ok size ->
  eval_op op (rho l) (rho r) = Some z ->
  exists res o, InferRange_defn g d = Ok (res, o) /\ (o = Some false -> fits size z).
Proof.
  intros Hg Hd Hi Hops Hrep Hz.
  destruct (InferRange_BinaryIntegerOp_ok rho rank g Hg defn cls op l r size z Hops Hrep Hz) as (res & o & E & Ho & _).
  exists res, o. split; [|exact Ho]. unfold InferRange_defn, defn_at. rewrite Hd. cbn [mbind result_bind]. rewrite Hi. exact E.
Qed.

Lemma overflow_check_removed_witness :
  InferRange_defn example_graph 3 = Ok (mkRange (FromConstant 10) (Symbol 1 9), Some false) /\ fits kRangeBoundarySmi 13.
Proof.
  assert (InferRange_defn example_graph 3 = Ok (mkRange (FromConstant 10) (Symbol 1 9), Some false)) as E
    by (vm_compute; reflexivity).
  destruct (overflow_check_removed example_rho (fun d => d) example_graph 3
    (smi_defn (IBinaryIntegerOp BinarySmiOp kADD 2 0 true false) None) BinarySmiOp kADD 2 0 true kRangeBoundarySmi 13)
    as (res & o & E' & Ho).
  - exact example_ok.
  - reflexivity.
  - reflexivity.
  - split; [split; [apply example_smi|eexists; reflexivity]|]. split; [split; [apply example_smi|eexists; reflexivity]|].
    intros lr rr Hl Hr a b -> ->. injection Hl as <-. injection Hr as <-. split; [reflexivity|]. split; [reflexivity|exact I].
  - reflexivity.
  - reflexivity.
  - split; [exact E|]. rewrite E in E'. injection E' as <- <-. apply Ho. reflexivity.
Defined.

(** ** Joins *)

(** Joining a range with the range of a definition keeps the values of both, widening
    keeps the values of the old and of the new range, narrowing keeps the values they
    share; all three always return.  Both ranges have to be inhabited. *)
Theorem Join_Widen_Narrow_sound {T : Target} rho rank g range d defn dr size w :
  graph_ok rho rank g -> definitions g !! d = Some defn -> range_ok rho g range -> range_ok rho g dr ->
  in_range rho range w -> fits size w -> in_range rho dr (rho d) -> fits size (rho d) ->
  (exists res, Join g range d (Some dr) size = Ok res /\
     forall v, fits size v -> in_range rho range v \/ v = rho d -> in_range rho res v) /\
  (exists mn mx, WidenMin g range dr size = Ok mn /\ WidenMax g range dr size = Ok mx /\
     forall v, fits size v -> in_range rho range v \/ in_range rho dr v -> in_range rho (mkRange mn mx) v) /\
  (exists mn mx, NarrowMin g range dr size = Ok mn /\ NarrowMax g range dr size = Ok mx /\
     forall v, in_range rho range v -> in_range rho dr v -> in_range rho (mkRange mn mx) v).
Proof.
  intros Hg Hd Hr Hdr Hw Hwf Hin Hdf. split; [|split].
  - destruct (Join_ok rho rank g Hg range d defn dr size w) as (res & E & _ & Hv); try done. by exists res.
  - destruct (WidenMin_ok rho rank g Hg range dr size w) as (mn & E1 & _ & H1); try done.
    destruct (WidenMax_ok rho rank g Hg range dr size w) as (mx & E2 & _ & H2); try done.
    exists mn, mx. split; [done|]. split; [done|]. intros v Hv Hor. split; [by apply H1|by apply H2].
  - destruct (Narrow_ok rho rank g Hg range dr size Hr Hdr) as (mn & mx & E1 & E2 & _ & _ & Hv). by exists mn, mx.
Qed.

Lemma Join_Widen_Narrow_sound_witness :
  Join example_graph constant_range 2 (Some index_range) kRangeBoundarySmi = Ok (mkRange (FromConstant 0) (FromConstant 999)) /\
  in_range example_rho (mkRange (FromConstant 0) (FromConstant 999)) 10 /\
  in_range example_rho (mkRange (FromConstant 0) (FromConstant 999)) 3.
Proof.
  assert (Join example_graph constant_range 2 (Some index_range) kRangeBoundarySmi = Ok (mkRange (FromConstant 0) (FromConstant 999)))
    as E by (vm_compute; reflexivity).
  destruct (Join_Widen_Narrow_sound example_rho (fun d => d) example_graph constant_range 2 (smi_defn IOther (Some index_range))
    index_range kRangeBoundarySmi 10) as [(res & E' & Hv) _].
  - exact example_ok.
  - reflexivity.
  - apply constant_range_ok; done.
  - apply example_index_range.
  - split; simpl; lia.
  - exact (example_smi 0).
  - apply example_index_range.
  - exact (example_smi 2).
  - rewrite E in E'. injection E' as <-. split; [exact E|]. split; apply Hv.
    + exact (example_smi 0).
    + left. split; simpl; lia.
    + exact (example_smi 2).
    + right. reflexivity.
Defined.

(** ** Constraints and bounds checks *)

(** The constraints placed on an operand of a comparison hold on the branch they are
    placed on, for each comparison and each operand, and those placed after a bounds check
    hold when the check passed. *)
Theorem constraints_sound {T : Target} rho rank g kind use_index l r len index is_index :
  graph_ok rho rank g -> is_comparison kind = true -> (use_index < 2)%nat -> operand_ok rho g l -> operand_ok rho g r ->
  operand_ok rho g len -> operand_ok rho g index -> 0 <= rho index < rho len ->
  (exists t f, BranchConstraints g kind use_index l r = Ok (t, f) /\
     in_range rho (if compare kind (rho l) (rho r) then t else f) (rho (if (use_index =? 0)%nat then l else r))) /\
  (exists c, CheckArrayBoundConstraint g is_index len index = Ok c /\
     in_range rho c (rho (if is_index : bool then index else len))).
Proof.
  intros Hg Hk Hu Hl Hr Hlen Hidx Hlt. split.
  - destruct (BranchConstraints_ok rho rank g Hg kind use_index l r) as (t & f & E & _ & _ & Hin); try done. by exists t, f.
  - destruct (CheckArrayBoundConstraint_ok rho rank g Hg is_index len index) as (c & E & _ & Hin); try done. by exists c.
Qed.

Lemma constraints_sound_witness :
  BranchConstraints example_graph kLT 1 2 1 = Ok (mkRange (Symbol 2 1) MaxSmi, mkRange MinSmi (Symbol 2 0)) /\
  in_range example_rho (mkRange (Symbol 2 1) MaxSmi) 7.
Proof.
  destruct (constraints_sound example_rho (fun d => d) example_graph kLT 1 2 1 1 2 true) as [(t & f & E & Hin) _].
  - exact example_ok.
  - reflexivity.
  - lia.
  - apply example_operand. lia.
  - apply example_operand. lia.
  - apply example_operand. lia.
  - apply example_operand. lia.
  - simpl. lia.
  - assert (BranchConstraints example_graph kLT 1 2 1 = Ok (mkRange (Symbol 2 1) MaxSmi, mkRange MinSmi (Symbol 2 0))) as E'
      by (vm_compute; reflexivity).
    split; [exact E'|]. rewrite E' in E. injection E as <- <-. exact Hin.
Defined.

(** C26: a bounds check is reported redundant only if the index is within bounds at run
    time, so that removing it is safe; the decision terminates on every graph whose
    symbols are acyclic, and the range it may record for a constant index keeps the graph
    sound. *)
Theorem IsRedundant_sound {T : Target} rho rank g index defn len l :
  graph_ok rho rank g -> definitions g !! index = Some defn -> operand_ok rho g index ->
  boundary_ok rho g len -> bval rho len = Some l ->
  exists b g', IsRedundant g index len = Ok (b, g') /\ graph_ok rho rank g' /\ (b = true -> 0 <= rho index < l).
Proof.
  intros Hg Hd Hop Hlen Hl. destruct (range_ defn) as [r|] eqn:Er.
  { destruct (IsRedundant_ranged rho rank g Hg index defn r len l Hd Er Hop Hlen Hl) as (b & E & Hb). by exists b, g. }
  destruct (instr defn) as [c| | | | | | | | | | | | | |] eqn:Ei.
  2-15: exists false, g; unfold IsRedundant, defn_at; rewrite Hd; cbn [mbind result_bind]; rewrite Er, Ei; done.
  pose proof Hop as (defn' & Hd' & Hs & Hc). simplify_eq. rewrite Ei in Hc. destruct c as [v| |]; try done.
  pose proof (ok_instr _ _ _ Hg _ _ Hd) as Hv. rewrite Ei in Hv. destruct Hv as [Hv _].
  set (r := mkRange (FromConstant v) (FromConstant v)). set (g' := set_range g index r).
  assert (boundary_ok rho g (FromConstant v)) as Hbv by (apply Smi_constant; by rewrite <- Hv).
  assert (graph_ok rho rank g') as Hg'.
  { apply graph_ok_set_range; simpl; try done; [split; simpl; lia|lia|lia]. }
  assert (definitions g' !! index = Some (with_range defn r)) as Hd'.
  { unfold g'. rewrite lookup_set_range, Hd. simpl. by rewrite decide_True. }
  destruct (IsRedundant_ranged rho rank g' Hg' index (with_range defn r) r len l) as (b & E & Hb); try done.
  { by apply operand_ok_set_range. }
  { by apply boundary_ok_set_range. }
  exists b, g'. split; [|done]. rewrite <- E. unfold IsRedundant, defn_at at 1 2. rewrite Hd, Hd'. cbn [mbind result_bind].
  rewrite Er, Ei. reflexivity.
Qed.

Lemma IsRedundant_sound_witness :
  IsRedundant example_graph 2 (Symbol 1 0) = Ok (true, example_graph) /\ 0 <= example_rho 2 < 7.
Proof.
  assert (IsRedundant example_graph 2 (Symbol 1 0) = Ok (true, example_graph)) as E by (vm_compute; reflexivity).
  destruct (IsRedundant_sound example_rho (fun d => d) example_graph 2 (smi_defn IOther (Some index_range)) (Symbol 1 0) 7)
    as (b & g' & E' & _ & Hb).
  - exact example_ok.
  - reflexivity.
  - apply example_operand. lia.
  - split; [unfold isS; simpl; lia|]. apply example_symbol. tauto.
  - reflexivity.
  - split; [exact E|]. rewrite E in E'. injection E' as <- <-. apply Hb. reflexivity.
Defined.

(** ** Where the analysis is not sound *)

(** A value of any size: the range of a definition that may be any small integer. *)
Definition gap_graph : FlowGraph :=
  mkGraph
    [smi_defn IOther (Some (Full kRangeBoundarySmi));
     mkDefn IOther (Some (mkRange (FromConstant (2 ^ 32)) (FromConstant (2 ^ 33)))) kMintCid true kUnboxedMint 0 false false 0 [] []]
    [None].
Definition constants (lo hi : Z) : Range := mkRange (FromConstant lo) (FromConstant hi).

(** Four cases in which the computed range misses a value.  The product of
    [-2^63, 0] with 2 is inferred to be zero, since the absolute value of the least
    integer wraps; a right shift by a count that may reach 64 shifts a 64-bit value by
    64, which C++ leaves undefined; [JoinMin] of [v + 1] and the greatest small integer is
    [v + 1], which exceeds the latter when [v] is the greatest small integer; the range of
    a truncating [UnboxUint32] of a value from 2^32 on is that of the value. *)
Theorem range_analysis_gaps :
  (BinaryOp gap_graph kMUL (constants Utils.kMinInt64 0) (constants 2 2) None = Ok (constants 0 0) /\
   in_range (fun _ => 0) (constants Utils.kMinInt64 0) (-1) /\ ~ in_range (fun _ => 0) (constants 0 0) (-1 * 2)) /\
  BinaryOp gap_graph kSHR (constants 5 5) (constants 0 64) None = Err RUndefined /\
  (JoinMin gap_graph (Symbol 0 1) (FromConstant kSmiMax) kRangeBoundarySmi = Ok (Symbol 0 1) /\
   above (fun _ => kSmiMax) (FromConstant kSmiMax) kSmiMax /\ ~ above (fun _ => kSmiMax) (Symbol 0 1) kSmiMax) /\
  (InferRange_UnboxUint32 gap_graph 1 kMintCid = Ok (constants (2 ^ 32) (2 ^ 33)) /\
   in_range (fun _ => 0) (constants (2 ^ 32) (2 ^ 33)) (2 ^ 32) /\
   ~ in_range (fun _ => 0) (constants (2 ^ 32) (2 ^ 33)) (u32 (2 ^ 32))).
Proof.
  split; [|split; [|split]].
  - split; [vm_compute; reflexivity|]. split; [split; simpl; unfold Utils.kMinInt64; lia|]. intros [Hlo _]. simpl in Hlo. lia.
  - vm_compute. reflexivity.
  - split; [vm_compute; reflexivity|]. split; [simpl; lia|]. simpl. lia.
  - split; [vm_compute; reflexivity|]. split; [split; simpl; lia|]. intros [Hlo _]. vm_compute in Hlo. by apply Hlo.
Qed.

End RangeProps.
