(* ===== verification/Locations.v ===== *)
(** * vm/locations.h, vm/locations.cc

    [Location]: where a value lives, encoded in one machine word ([uword]): a
    tag or a kind in the low bits, a payload above it.  [SmallSet] and
    [RegisterSet]: sets of registers as bits of a machine word.  The word size
    is that of the class [Target]; a location is the value of its word. *)

From stdpp Require Import base numbers list sets gmap.
From Stdlib Require Import ZArith Lia.
From S2P Require Import Prelude BitField RangeAnalysis MipsConstants.

Local Open Scope Z_scope.
Local Open Scope mach_scope.

Module Locations.

Inductive loc_error := LAssertFailed | LUnreachable | LUndefined | LOutOfStack.

Abbreviation M A := (result loc_error A).
Definition assert_ (b : bool) : M unit := if b then Ok () else Err LAssertFailed.

Abbreviation Location := Z.

(** The MIPS target. *)
Definition mips_target : Target := {| kBitsPerWord := 32; kBitsPerWord_ok := or_introl eq_refl |}.

Inductive Policy :=
| kAny | kPrefersRegister | kRequiresRegister | kRequiresFpuRegister | kWritableRegister | kSameAsFirstInput.

Definition Policy_value (p : Policy) : Z :=
  match p with
  | kAny => 0 | kPrefersRegister => 1 | kRequiresRegister => 2
  | kRequiresFpuRegister => 3 | kWritableRegister => 4 | kSameAsFirstInput => 5
  end.
Definition all_Policy : list Policy :=
  [kAny; kPrefersRegister; kRequiresRegister; kRequiresFpuRegister; kWritableRegister; kSameAsFirstInput].

(** [Kind]. *)
Definition kInvalid : Z := 0.
Definition kConstantTag : Z := 1.
Definition kPairLocationTag : Z := 2.
Definition kUnallocated : Z := 3.
Definition kStackSlot : Z := 4.
Definition kDoubleStackSlot : Z := 7.
Definition kQuadStackSlot : Z := 11.
Definition kRegister : Z := 8.
Definition kFpuRegister : Z := 12.

Definition kBitsForKind : Z := 4.
Definition kInvalidLocation : Z := 0.
Definition kLocationTagMask : Z := 0x3.
Definition kBitsForBaseReg : Z := 5.

Section locations.
Context {T : Target}.

Definition kBitsForPayload : Z := kBitsPerWord - kBitsForKind.
Definition kBitsForStackIndex : Z := kBitsForPayload - kBitsForBaseReg.
Definition kStackIndexBias : Z := 1 <<< (kBitsForStackIndex - 1).

(** ** Encoding *)

(** [Location(Kind kind, uword payload)]. *)
Definition Location_new (kind payload : Z) : M Location :=
  assert_ (BitField.is_valid kBitsPerWord kBitsForKind kind);;
  assert_ (BitField.is_valid kBitsPerWord kBitsForPayload payload);;
  Ok (BitField.encode kBitsPerWord 0 kind .| BitField.encode kBitsPerWord kBitsForKind payload).

Definition kind (l : Location) : Z := BitField.decode kBitsPerWord 0 kBitsForKind l.
Definition payload (l : Location) : Z := BitField.decode kBitsPerWord kBitsForKind kBitsForPayload l.

Definition NoLocation : Location := kInvalidLocation.
Definition IsInvalid (l : Location) : bool := l =? kInvalidLocation.

Definition IsConstant (l : Location) : bool := l .& kLocationTagMask =? kConstantTag.
Definition IsPairLocation (l : Location) : bool := l .& kLocationTagMask =? kPairLocationTag.

Definition constant_instruction (l : Location) : M Z :=
  assert_ (IsConstant l);;
  Ok (l .& wrapU kBitsPerWord (Z.lnot kLocationTagMask)).

(** The argument is the address of the [ConstantInstr]. *)
Definition Constant (obj : Z) : M Location :=
  let loc := obj .| kConstantTag in
  i ← constant_instruction loc;
  assert_ (obj =? i);;
  Ok loc.

(** [PairLocation], an array of two locations. *)
Record PairLocation := mkPairLocation { locations_0 : Location; locations_1 : Location }.

Definition PairLocation_new : M PairLocation :=
  assert_ (IsInvalid NoLocation);; Ok (mkPairLocation NoLocation NoLocation).

Definition PairLocation_At (p : PairLocation) (i : Z) : M Location :=
  assert_ (i >=? 0);; assert_ (i <? 2);;
  Ok (if i =? 0 then locations_0 p else locations_1 p).

Definition PairLocation_SetAt (p : PairLocation) (i : Z) (loc : Location) : M PairLocation :=
  assert_ (i >=? 0);; assert_ (i <? 2);;
  Ok (if i =? 0 then mkPairLocation loc (locations_1 p) else mkPairLocation (locations_0 p) loc).

(** The pairs by address; [pair_location] is the address that [new] returns. *)
Definition Pair (zone : gmap Z PairLocation) (pair_location : Z) (first second : Location)
    : M (gmap Z PairLocation * Location) :=
  p ← PairLocation_new;
  assert_ (pair_location .& kLocationTagMask =? 0);;
  p ← PairLocation_SetAt p 0 first;
  p ← PairLocation_SetAt p 1 second;
  Ok (<[pair_location := p]> zone, pair_location .| kPairLocationTag).

Definition AsPairLocation (l : Location) : M Z :=
  assert_ (IsPairLocation l);;
  Ok (l .& wrapU kBitsPerWord (Z.lnot kLocationTagMask)).

(** [Copy] of a location; its elements are no pairs and copied by value. *)
Definition Copy (zone : gmap Z PairLocation) (new_pair : Z) (l : Location) : M (gmap Z PairLocation * Location) :=
  if IsPairLocation l then
    a ← AsPairLocation l;
    match zone !! a with
    | None => Err LUndefined
    | Some pl =>
        first ← PairLocation_At pl 0;
        second ← PairLocation_At pl 1;
        assert_ (negb (IsPairLocation first));;
        assert_ (negb (IsPairLocation second));;
        Pair zone new_pair first second
    end
  else Ok (zone, l).

Definition IsUnallocated (l : Location) : bool := kind l =? kUnallocated.

Definition UnallocatedLocation (policy : Policy) : M Location :=
  assert_ (BitField.is_valid kBitsPerWord 3 (Policy_value policy));;
  Location_new kUnallocated (BitField.encode kBitsPerWord 0 (Policy_value policy)).

Definition Any : M Location := UnallocatedLocation kAny.

Definition policy (l : Location) : M (option Policy) :=
  assert_ (IsUnallocated l);;
  Ok (enum_of_Z Policy_value all_Policy (BitField.decode kBitsPerWord 0 3 (payload l))).

Definition RegisterLocation (reg : Z) : M Location := Location_new kRegister reg.
Definition IsRegister (l : Location) : bool := kind l =? kRegister.
Definition reg (l : Location) : M Z := assert_ (IsRegister l);; Ok (payload l).

Definition FpuRegisterLocation (reg : Z) : M Location := Location_new kFpuRegister reg.
Definition IsFpuRegister (l : Location) : bool := kind l =? kFpuRegister.
Definition fpu_reg (l : Location) : M Z := assert_ (IsFpuRegister l);; Ok (payload l).

Definition IsMachineRegisterKind (kind : Z) : bool := (kind =? kRegister) || (kind =? kFpuRegister).

Definition MachineRegisterLocation (kind reg : Z) : M Location :=
  if kind =? kRegister then RegisterLocation reg
  else assert_ (kind =? kFpuRegister);; FpuRegisterLocation reg.

Definition IsMachineRegister (l : Location) : bool := IsMachineRegisterKind (kind l).
Definition register_code (l : Location) : M Z := assert_ (IsMachineRegister l);; Ok (payload l).

Definition EncodeStackIndex (stack_index : Z) : M Z :=
  assert_ ((- kStackIndexBias <=? stack_index) && (stack_index <? kStackIndexBias));;
  Ok (wrapU kBitsPerWord (kStackIndexBias + stack_index)).

Definition IsStackSlot (l : Location) : bool := kind l =? kStackSlot.
Definition IsDoubleStackSlot (l : Location) : bool := kind l =? kDoubleStackSlot.
Definition IsQuadStackSlot (l : Location) : bool := kind l =? kQuadStackSlot.
Definition HasStackIndex (l : Location) : bool := IsStackSlot l || IsDoubleStackSlot l || IsQuadStackSlot l.

Definition base_reg (l : Location) : M Z :=
  assert_ (HasStackIndex l);; Ok (BitField.decode kBitsPerWord 0 kBitsForBaseReg (payload l)).

Definition stack_index (l : Location) : M Z :=
  assert_ (HasStackIndex l);;
  Ok (BitField.decode kBitsPerWord kBitsForBaseReg kBitsForStackIndex (payload l) - kStackIndexBias).

(** The three constructors of slots differ in the kind; only [StackSlot] has a base other than [FPREG]. *)
Definition slot_of_kind (kind base stack_index_ : Z) : M Location :=
  assert_ (BitField.is_valid kBitsPerWord kBitsForBaseReg base);;
  e ← EncodeStackIndex stack_index_;
  assert_ (BitField.is_valid kBitsPerWord kBitsForStackIndex e);;
  loc ← Location_new kind
          (BitField.encode kBitsPerWord 0 base .| BitField.encode kBitsPerWord kBitsForBaseReg e);
  i ← stack_index loc;
  assert_ (i =? stack_index_);;
  Ok loc.

Definition StackSlot (stack_index base : Z) : M Location := slot_of_kind kStackSlot base stack_index.
Definition DoubleStackSlot (stack_index : Z) : M Location := slot_of_kind kDoubleStackSlot Mips.FPREG stack_index.
Definition QuadStackSlot (stack_index : Z) : M Location := slot_of_kind kQuadStackSlot Mips.FPREG stack_index.

Definition Equals (l other : Location) : bool := l =? other.

(** vm/stack_frame_mips.h. *)
Definition kFirstLocalSlotFromFp : Z := -3.
Definition kParamEndSlotFromFp : Z := 1.
Definition kWordSize : Z := kBitsPerWord / 8.

Definition ToStackSlotOffset (l : Location) : M Z :=
  index ← stack_index l;
  base ← base_reg l;
  if base =? Mips.FPREG then
    if index <? 0 then Ok ((kParamEndSlotFromFp - index) * kWordSize)
    else Ok ((kFirstLocalSlotFromFp - index) * kWordSize)
  else
    assert_ (base =? Mips.SPREG);;
    Ok (index * kWordSize).

(** ** SmallSet *)

(** [1 << value] is a shift of an [int], 32 bits wide, converted to [intptr_t]:
    bit 31 is the sign, and there is no bit 32. *)
Definition ToMask (value : Z) : M Z :=
  assert_ (value <? kBitsPerWord);;
  if (0 <=? value) && (value <? 32) then Ok (s32 (1 <<< value)) else Err LUndefined.

Definition SmallSet_empty : Z := 0.
Definition SmallSet_Contains (data_ value : Z) : M bool :=
  m ← ToMask value; Ok (negb (data_ .& m =? 0)).
Definition SmallSet_Add (data_ value : Z) : M Z := m ← ToMask value; Ok (data_ .| m).
Definition SmallSet_Remove (data_ value : Z) : M Z := m ← ToMask value; Ok (data_ .& Z.lnot m).
Definition SmallSet_IsEmpty (data_ : Z) : bool := data_ =? 0.

(** ** RegisterSet *)

Record RegisterSet := mkRegisterSet {
  cpu_registers_ : Z;
  untagged_cpu_registers_ : Z;
  fpu_registers_ : Z
}.

Definition RegisterSet_new : RegisterSet := mkRegisterSet SmallSet_empty SmallSet_empty SmallSet_empty.

Definition MarkUntagged (s : RegisterSet) (loc : Location) : M RegisterSet :=
  assert_ (IsRegister loc);;
  r ← reg loc;
  u ← SmallSet_Add (untagged_cpu_registers_ s) r;
  Ok (mkRegisterSet (cpu_registers_ s) u (fpu_registers_ s)).

Definition RegisterSet_Add (s : RegisterSet) (loc : Location) (rep : RangeAnalysis.Representation)
    : M RegisterSet :=
  if IsRegister loc then
    r ← reg loc;
    c ← SmallSet_Add (cpu_registers_ s) r;
    let s := mkRegisterSet c (untagged_cpu_registers_ s) (fpu_registers_ s) in
    match rep with RangeAnalysis.kTagged => Ok s | _ => MarkUntagged s loc end
  else if IsFpuRegister loc then
    r ← fpu_reg loc;
    f ← SmallSet_Add (fpu_registers_ s) r;
    Ok (mkRegisterSet (cpu_registers_ s) (untagged_cpu_registers_ s) f)
  else Ok s.

Definition RegisterSet_Remove (s : RegisterSet) (loc : Location) : M RegisterSet :=
  if IsRegister loc then
    r ← reg loc;
    c ← SmallSet_Remove (cpu_registers_ s) r;
    Ok (mkRegisterSet c (untagged_cpu_registers_ s) (fpu_registers_ s))
  else if IsFpuRegister loc then
    r ← fpu_reg loc;
    f ← SmallSet_Remove (fpu_registers_ s) r;
    Ok (mkRegisterSet (cpu_registers_ s) (untagged_cpu_registers_ s) f)
  else Ok s.

Definition ContainsRegister (s : RegisterSet) (reg : Z) : M bool := SmallSet_Contains (cpu_registers_ s) reg.
Definition ContainsFpuRegister (s : RegisterSet) (reg : Z) : M bool := SmallSet_Contains (fpu_registers_ s) reg.

Definition RegisterSet_Contains (s : RegisterSet) (loc : Location) : M bool :=
  if IsRegister loc then r ← reg loc; ContainsRegister s r
  else if IsFpuRegister loc then r ← fpu_reg loc; ContainsFpuRegister s r
  else Err LUnreachable.

Definition HasUntaggedValues (s : RegisterSet) : bool :=
  negb (SmallSet_IsEmpty (untagged_cpu_registers_ s)) || negb (SmallSet_IsEmpty (fpu_registers_ s)).

Definition IsTagged (s : RegisterSet) (reg : Z) : M bool :=
  b ← SmallSet_Contains (untagged_cpu_registers_ s) reg; Ok (negb b).

(** Kernighan's loop; [None] when the rounds run out. *)
Fixpoint RegisterCount_loop (rounds : nat) (count registers : Z) : option Z :=
  if registers =? 0 then Some count
  else
    match rounds with
    | O => None
    | S rounds =>
        RegisterCount_loop rounds (count + 1) (registers .& wrapS kBitsPerWord (registers - 1))
    end.

Definition RegisterCount (registers : Z) : option Z :=
  RegisterCount_loop (Z.to_nat kBitsPerWord) 0 registers.

Definition CpuRegisterCount (s : RegisterSet) : option Z := RegisterCount (cpu_registers_ s).
Definition FpuRegisterCount (s : RegisterSet) : option Z := RegisterCount (fpu_registers_ s).

End locations.

(** ** Words and fields *)

(** What a location stands for. *)
Inductive place :=
| PNone
| PConstant (instr : Z)
| PPair (pair_location : Z)
| PUnallocated (policy : Policy)
| PStackSlot (index base : Z)
| PDoubleStackSlot (index : Z)
| PQuadStackSlot (index : Z)
| PRegister (reg : Z)
| PFpuRegister (reg : Z).

#[export] Instance Policy_eq_dec : EqDecision Policy.
Proof. solve_decision. Defined.
#[export] Instance place_eq_dec : EqDecision place.
Proof. solve_decision. Defined.

Section encoding.
Context {T : Target}.

Lemma decode_div_mod p s l :
  0 <= p -> 0 < s -> p + s <= kBitsPerWord -> BitField.decode kBitsPerWord p s l = (l / 2 ^ p) mod 2 ^ s.
Proof.
  intros Hp Hs Hps. unfold BitField.decode. fold (BitField.mask kBitsPerWord s).
  rewrite (BitField.mask_ones kBitsPerWord p s), land_ones_wrapU, Z.shiftr_div_pow2 by lia. done.
Qed.

Lemma is_valid_true p s v : 0 <= p -> 0 < s -> p + s <= kBitsPerWord -> isU s v -> BitField.is_valid kBitsPerWord s v = true.
Proof.
  intros Hp Hs Hps Hv. apply (BitField.is_valid_spec kBitsPerWord p s); try done.
  unfold isU in *. pose proof (Z.pow_le_mono_r 2 s kBitsPerWord). lia.
Qed.

(** Two fields side by side are a sum. *)
Lemma encode_fields p s a b :
  0 <= p -> 0 < s -> p + s <= kBitsPerWord -> isU p a -> isU s b ->
  BitField.encode kBitsPerWord 0 a .| BitField.encode kBitsPerWord p b = b * 2 ^ p + a.
Proof.
  intros Hp Hs Hps Ha Hb. unfold BitField.encode, isU in *.
  pose proof (Z.pow_le_mono_r 2 p kBitsPerWord). pose proof (Z.pow_le_mono_r 2 s kBitsPerWord).
  rewrite Z.shiftl_0_r, !(wrapU_id _ a), (wrapU_id _ b) by (unfold isU; lia).
  rewrite wrapU_id.
  - rewrite Z.lor_comm. apply lor_shiftl_add; done.
  - unfold isU. rewrite Z.shiftl_mul_pow2 by done.
    assert (2 ^ s * 2 ^ p <= 2 ^ kBitsPerWord) by (rewrite <- Z.pow_add_r by lia; apply Z.pow_le_mono_r; lia).
    pose proof (pow2_pos p). nia.
Qed.

Lemma word_size_cases (P : Z -> Prop) : P 32 -> P 64 -> P kBitsPerWord.
Proof. destruct kBitsPerWord_ok as [-> | ->]; done. Qed.

Lemma word_size_large : 32 <= kBitsPerWord.
Proof. apply word_size_cases; lia. Qed.

Lemma Location_new_ok k p : isU 4 k -> isU kBitsForPayload p -> Location_new k p = Ok (p * 16 + k).
Proof.
  intros Hk Hp. pose proof word_size_large. unfold Location_new, kBitsForPayload, kBitsForKind in *.
  rewrite (is_valid_true 0 4), (is_valid_true 4 (kBitsPerWord - 4)) by (done || lia). cbn [assert_ mbind result_bind].
  rewrite (encode_fields 4 (kBitsPerWord - 4)) by (done || lia). done.
Qed.

Lemma kind_mod l : kind l = l mod 16.
Proof. pose proof word_size_large. unfold kind, kBitsForKind. rewrite decode_div_mod by lia. by rewrite Z.div_1_r. Qed.

Lemma payload_div l : isU kBitsPerWord l -> payload l = l / 16.
Proof.
  pose proof word_size_large. unfold payload, kBitsForKind, kBitsForPayload, kBitsForKind, isU. intros Hl.
  rewrite decode_div_mod by lia. change (2 ^ 4) with 16. apply Z.mod_small.
  replace kBitsPerWord with (4 + (kBitsPerWord - 4)) in Hl by lia. rewrite Z.pow_add_r in Hl by lia.
  change (2 ^ 4) with 16 in Hl. split; [apply Z.div_pos; lia|]. apply Z.div_lt_upper_bound; lia.
Qed.

Lemma tag_mod l : l .& kLocationTagMask = l mod 4.
Proof. unfold kLocationTagMask. change 3 with (Z.ones 2). by rewrite Z.land_ones. Qed.

Lemma location_fields k p :
  isU 4 k -> isU kBitsForPayload p ->
  kind (p * 16 + k) = k /\ payload (p * 16 + k) = p /\ isU kBitsPerWord (p * 16 + k).
Proof.
  intros Hk Hp. pose proof word_size_large.
  assert (isU kBitsPerWord (p * 16 + k)) as Hl.
  { unfold isU, kBitsForPayload, kBitsForKind in *. change (2 ^ 4) with 16 in Hk.
    replace kBitsPerWord with (4 + (kBitsPerWord - 4)) by lia. rewrite Z.pow_add_r by lia. change (2 ^ 4) with 16. lia. }
  unfold isU in Hk. change (2 ^ 4) with 16 in Hk. rewrite kind_mod, payload_div by done. split; [|split; [|done]]; divlia.
Qed.

Lemma payload_range l : isU kBitsForPayload (payload l).
Proof. pose proof word_size_large. apply BitField.decode_range; unfold kBitsForKind, kBitsForPayload, kBitsForKind; lia. Qed.

(** The payload of a slot. *)
Lemma slot_of_kind_ok k b i :
  isU 4 k -> k = kStackSlot \/ k = kDoubleStackSlot \/ k = kQuadStackSlot -> isU 5 b ->
  - kStackIndexBias <= i < kStackIndexBias ->
  let l := ((i + kStackIndexBias) * 32 + b) * 16 + k in
  slot_of_kind k b i = Ok l /\ kind l = k /\ base_reg l = Ok b /\ stack_index l = Ok i.
Proof.
  intros Hk Hkind Hb Hi l. pose proof word_size_large.
  set (e := i + kStackIndexBias) in *.
  assert (2 * kStackIndexBias = 2 ^ kBitsForStackIndex) as Hbias.
  { unfold kStackIndexBias. rewrite Z.shiftl_1_l. symmetry. apply pow2_half.
    unfold kBitsForStackIndex, kBitsForPayload, kBitsForKind, kBitsForBaseReg. lia. }
  assert (isU kBitsForStackIndex e) as He by (unfold isU; lia).
  assert (isU kBitsForPayload (e * 32 + b)) as Hp.
  { unfold isU in *. change (2 ^ 5) with 32 in Hb.
    replace kBitsForPayload with (kBitsForStackIndex + 5) by (unfold kBitsForStackIndex, kBitsForBaseReg; lia).
    rewrite Z.pow_add_r by (unfold kBitsForStackIndex, kBitsForPayload, kBitsForKind, kBitsForBaseReg; lia).
    change (2 ^ 5) with 32. lia. }
  destruct (location_fields k (e * 32 + b) Hk Hp) as (Hlk & Hlp & Hlu). fold l in Hlk, Hlp, Hlu.
  assert (HasStackIndex l = true) as Hhas.
  { unfold HasStackIndex, IsStackSlot, IsDoubleStackSlot, IsQuadStackSlot. rewrite Hlk.
    destruct Hkind as [-> | [-> | ->]]; done. }
  assert (stack_index l = Ok i) as Hsi.
  { unfold stack_index. rewrite Hhas. cbn [assert_ mbind result_bind]. rewrite Hlp, decode_div_mod.
    2-4: unfold kBitsForStackIndex, kBitsForPayload, kBitsForKind, kBitsForBaseReg; lia.
    unfold isU in Hb, He. change (2 ^ 5) with 32 in Hb. change (2 ^ kBitsForBaseReg) with 32.
    rewrite Z.div_add_l, (Z.div_small b), Z.add_0_r, Z.mod_small by lia. f_equal. lia. }
  assert (base_reg l = Ok b) as Hbr.
  { unfold base_reg. rewrite Hhas. cbn [assert_ mbind result_bind]. rewrite Hlp, decode_div_mod by (unfold kBitsForBaseReg; lia).
    unfold isU in Hb. change (2 ^ 5) with 32 in Hb. change (2 ^ kBitsForBaseReg) with 32. rewrite Z.div_1_r. f_equal. divlia. }
  split; [|done]. unfold slot_of_kind, EncodeStackIndex.
  rewrite (is_valid_true 0 kBitsForBaseReg) by (done || (unfold kBitsForBaseReg; lia)). cbn [assert_ mbind result_bind].
  replace ((- kStackIndexBias <=? i) && (i <? kStackIndexBias)) with true by (symmetry; apply andb_true_iff; lia).
  cbn [assert_ mbind result_bind].
  assert (isU kBitsPerWord e) as HeW.
  { unfold isU in *. pose proof (Z.pow_le_mono_r 2 kBitsForStackIndex kBitsPerWord).
    assert (kBitsForStackIndex <= kBitsPerWord) by (unfold kBitsForStackIndex, kBitsForPayload, kBitsForKind, kBitsForBaseReg; lia). lia. }
  replace (kStackIndexBias + i) with e by lia. rewrite (wrapU_id _ e) by done.
  rewrite (is_valid_true kBitsForBaseReg kBitsForStackIndex)
    by (done || (unfold kBitsForStackIndex, kBitsForPayload, kBitsForKind, kBitsForBaseReg; lia)).
  cbn [assert_ mbind result_bind].
  rewrite (encode_fields kBitsForBaseReg kBitsForStackIndex)
    by (done || (unfold kBitsForStackIndex, kBitsForPayload, kBitsForKind, kBitsForBaseReg; lia)).
  change (2 ^ kBitsForBaseReg) with 32. rewrite Location_new_ok by done. fold l. cbn [mbind result_bind].
  rewrite Hsi. cbn [mbind result_bind]. rewrite Z.eqb_refl. done.
Qed.

(** ** Places *)

Definition valid_index (i : Z) : Prop := - kStackIndexBias <= i < kStackIndexBias.

(** Instructions and pairs are allocated at multiples of the word size. *)
Definition valid_place (p : place) : Prop :=
  match p with
  | PNone | PUnallocated _ => True
  | PConstant a | PPair a => isU kBitsPerWord a /\ a mod 4 = 0
  | PStackSlot i b => valid_index i /\ isU 5 b
  | PDoubleStackSlot i | PQuadStackSlot i => valid_index i
  | PRegister r | PFpuRegister r => isU 5 r
  end.

Definition location_of (p : place) : M Location :=
  match p with
  | PNone => Ok NoLocation
  | PConstant a => Constant a
  | PPair a => r ← Pair ∅ a NoLocation NoLocation; Ok (snd r)
  | PUnallocated q => UnallocatedLocation q
  | PStackSlot i b => StackSlot i b
  | PDoubleStackSlot i => DoubleStackSlot i
  | PQuadStackSlot i => QuadStackSlot i
  | PRegister r => RegisterLocation r
  | PFpuRegister r => FpuRegisterLocation r
  end.

(** The predicates and accessors of [Location], in the order the code tests them. *)
Definition place_of (l : Location) : M place :=
  if IsInvalid l then Ok PNone
  else if IsConstant l then a ← constant_instruction l; Ok (PConstant a)
  else if IsPairLocation l then a ← AsPairLocation l; Ok (PPair a)
  else if IsUnallocated l then
    q ← policy l; match q with Some q => Ok (PUnallocated q) | None => Err LUnreachable end
  else if IsStackSlot l then i ← stack_index l; b ← base_reg l; Ok (PStackSlot i b)
  else if IsDoubleStackSlot l then i ← stack_index l; Ok (PDoubleStackSlot i)
  else if IsQuadStackSlot l then i ← stack_index l; Ok (PQuadStackSlot i)
  else if IsRegister l then r ← reg l; Ok (PRegister r)
  else if IsFpuRegister l then r ← fpu_reg l; Ok (PFpuRegister r)
  else Err LUnreachable.

(** The tests decide by the low four bits. *)
Lemma kind_tests l k :
  kind l = k -> k <> 0 ->
  IsInvalid l = false /\ IsConstant l = (k mod 4 =? 1) /\ IsPairLocation l = (k mod 4 =? 2) /\ IsUnallocated l = (k =? 3) /\ IsStackSlot l = (k =? 4) /\
  IsDoubleStackSlot l = (k =? 7) /\ IsQuadStackSlot l = (k =? 11) /\ IsRegister l = (k =? 8) /\ IsFpuRegister l = (k =? 12).
Proof.
  intros Hk Hk0. unfold IsUnallocated, IsStackSlot, IsDoubleStackSlot, IsQuadStackSlot, IsRegister, IsFpuRegister.
  rewrite Hk. unfold IsConstant, IsPairLocation. rewrite tag_mod. rewrite kind_mod in Hk.
  split; [|split; [|split; [|done]]].
  - unfold IsInvalid, kInvalidLocation. apply Z.eqb_neq. intros ->. done.
  - unfold kConstantTag. subst k. f_equal. divlia.
  - unfold kPairLocationTag. subst k. f_equal. divlia.
Qed.

Local Ltac tests Hk :=
  let H := fresh in
  pose proof (kind_tests _ _ Hk ltac:(done)) as H;
  destruct H as (-> & -> & -> & -> & -> & -> & -> & -> & ->); vm_compute (_ mod _); cbn [Z.eqb Pos.eqb].

Lemma small_payload r s : 0 <= s -> isU s r -> s <= 28 -> isU kBitsForPayload r.
Proof.
  unfold isU. intros Hs Hr Hle. pose proof word_size_large.
  pose proof (Z.pow_le_mono_r 2 s kBitsForPayload ltac:(lia)). unfold kBitsForPayload, kBitsForKind in *. lia.
Qed.

(** A pointer and its tag. *)
Lemma tagged_pointer a t :
  isU kBitsPerWord a -> a mod 4 = 0 -> 0 <= t < 4 ->
  a .| t = a + t /\ (a + t) mod 4 = t /\ (a + t) .& wrapU kBitsPerWord (Z.lnot kLocationTagMask) = a.
Proof.
  intros Ha H4 Ht. pose proof word_size_large. split_and!; [|divlia|].
  - assert (a = (a / 4) <<< 2) as E4 by (rewrite Z.shiftl_mul_pow2 by lia; change (2 ^ 2) with 4; divlia).
    rewrite E4 at 1. rewrite lor_shiftl_add by (unfold isU; lia). change (2 ^ 2) with 4. divlia.
  - assert (isU kBitsPerWord (a + t)).
    { unfold isU in *. assert (2 ^ kBitsPerWord mod 4 = 0) by (apply word_size_cases; done). divlia. }
    transitivity ((a + t) .& Z.lnot (Z.ones 2)).
    + unfold kLocationTagMask. change 3 with (Z.ones 2). zbits. zcmp. rewrite (testbit_above_isU kBitsPerWord) by (done || lia). done.
    + rewrite <- Z.ldiff_land, Z.ldiff_ones_r, Z.shiftl_mul_pow2, Z.shiftr_div_pow2 by lia. divlia.
Qed.

(** [Pair] puts the two locations at the address it is given. *)
Lemma place_of_Pair zone a first second :
  isU kBitsPerWord a -> a mod 4 = 0 ->
  Pair zone a first second = Ok (<[a := mkPairLocation first second]> zone, a + 2) /\ place_of (a + 2) = Ok (PPair a).
Proof.
  intros Ha H4. destruct (tagged_pointer a 2 Ha H4 ltac:(lia)) as (E & Em & Ep). split.
  - unfold Pair, kPairLocationTag. rewrite tag_mod, H4, E. done.
  - unfold place_of, AsPairLocation, IsConstant, IsPairLocation, kConstantTag, kPairLocationTag. rewrite tag_mod, Em. cbn [Z.eqb Pos.eqb].
    unfold IsInvalid, kInvalidLocation. unfold isU in Ha. destruct (Z.eqb_spec (a + 2) 0); [lia|].
    cbn [assert_ mbind result_bind]. by rewrite Ep.
Qed.

Lemma place_of_Constant a :
  isU kBitsPerWord a -> a mod 4 = 0 -> Constant a = Ok (a + 1) /\ place_of (a + 1) = Ok (PConstant a).
Proof.
  intros Ha H4. destruct (tagged_pointer a 1 Ha H4 ltac:(lia)) as (E & Em & Ep).
  assert (IsConstant (a + 1) = true) as Hc by (unfold IsConstant; by rewrite tag_mod, Em).
  assert (constant_instruction (a + 1) = Ok a) as Hi by (unfold constant_instruction; by rewrite Hc, Ep).
  split.
  - unfold Constant, kConstantTag. rewrite E, Hi. cbn [mbind result_bind]. by rewrite Z.eqb_refl.
  - unfold place_of. rewrite Hc, Hi. unfold IsInvalid, kInvalidLocation. unfold isU in Ha.
    destruct (Z.eqb_spec (a + 1) 0); [lia|]. done.
Qed.

Lemma place_of_Unallocated q :
  exists l, UnallocatedLocation q = Ok l /\ place_of l = Ok (PUnallocated q).
Proof.
  pose proof word_size_large. set (v := Policy_value q).
  assert (isU 3 v) as Hv by (destruct q; vm_compute; split; done).
  assert (BitField.encode kBitsPerWord 0 v = v) as Hev.
  { assert (isU kBitsPerWord v) as HvW.
    { unfold isU in *. pose proof (Z.pow_le_mono_r 2 3 kBitsPerWord). lia. }
    unfold BitField.encode. rewrite Z.shiftl_0_r. by rewrite !(wrapU_id _ v). }
  pose proof (small_payload v 3 ltac:(lia) Hv ltac:(lia)) as Hp.
  exists (v * 16 + 3). unfold UnallocatedLocation. fold v.
  rewrite (is_valid_true 0 3) by (done || lia). cbn [assert_ mbind result_bind]. rewrite Hev.
  unfold kUnallocated. rewrite Location_new_ok by (done || (unfold isU; lia)). split; [done|].
  destruct (location_fields 3 v ltac:(unfold isU; lia) Hp) as (Hk & Hpl & _).
  unfold place_of, policy. tests Hk. cbn [assert_ mbind result_bind]. rewrite Hpl.
  rewrite decode_div_mod, Z.div_1_r, Z.mod_small by (unfold isU in Hv; lia).
  unfold v. rewrite enum_of_Z_value; [done| |].
  - by apply (bool_decide_unpack _).
  - destruct q; apply list_elem_of_In; simpl; tauto.
Qed.

Lemma place_of_register k r :
  k = kRegister \/ k = kFpuRegister -> isU 5 r ->
  exists l, Location_new k r = Ok l /\
    place_of l = Ok (if k =? kRegister then PRegister r else PFpuRegister r) /\ kind l = k /\ payload l = r.
Proof.
  intros Hk Hr. pose proof (small_payload r 5 ltac:(lia) Hr ltac:(lia)) as Hp.
  assert (isU 4 k) as Hk4 by (destruct Hk as [-> | ->]; vm_compute; split; done).
  exists (r * 16 + k). rewrite Location_new_ok by done. split; [done|].
  destruct (location_fields k r Hk4 Hp) as (Hlk & Hlp & _). split; [|done].
  unfold place_of, reg, fpu_reg.
  destruct Hk as [-> | ->]; unfold kRegister, kFpuRegister in *; tests Hlk; cbn [assert_ mbind result_bind]; by rewrite Hlp.
Qed.

Lemma place_of_slot k b i :
  k = kStackSlot \/ k = kDoubleStackSlot \/ k = kQuadStackSlot -> isU 5 b -> valid_index i ->
  exists l, slot_of_kind k b i = Ok l /\
    place_of l = Ok (if k =? kStackSlot then PStackSlot i b else
                     if k =? kDoubleStackSlot then PDoubleStackSlot i else PQuadStackSlot i) /\
    kind l = k /\ base_reg l = Ok b /\ stack_index l = Ok i.
Proof.
  intros Hk Hb Hi.
  assert (isU 4 k) as Hk4 by (destruct Hk as [-> | [-> | ->]]; vm_compute; split; done).
  destruct (slot_of_kind_ok k b i Hk4 Hk Hb Hi) as (E & Hlk & Hlb & Hli). eexists. split; [exact E|].
  split; [|done]. unfold place_of. rewrite Hlb, Hli.
  destruct Hk as [-> | [-> | ->]]; unfold kStackSlot, kDoubleStackSlot, kQuadStackSlot in *; tests Hlk; done.
Qed.

Lemma location_of_place p : valid_place p -> exists l, location_of p = Ok l /\ place_of l = Ok p.
Proof.
  destruct p as [|a|a|q|i b|i|i|r|r]; simpl; intros Hp.
  - exists NoLocation. done.
  - destruct Hp as [Ha H4]. destruct (place_of_Constant a Ha H4) as [E1 E2]. eauto.
  - destruct Hp as [Ha H4]. destruct (place_of_Pair ∅ a NoLocation NoLocation Ha H4) as [E1 E2]. rewrite E1. eauto.
  - apply place_of_Unallocated.
  - destruct Hp as [Hi Hb]. destruct (place_of_slot kStackSlot b i) as (l & E1 & E2 & _); eauto.
  - destruct (place_of_slot kDoubleStackSlot Mips.FPREG i) as (l & E1 & E2 & _); eauto. unfold isU. vm_compute; split; done.
  - destruct (place_of_slot kQuadStackSlot Mips.FPREG i) as (l & E1 & E2 & _); eauto. unfold isU. vm_compute; split; done.
  - destruct (place_of_register kRegister r) as (l & E1 & E2 & _); eauto.
  - destruct (place_of_register kFpuRegister r) as (l & E1 & E2 & _); eauto.
Qed.
End encoding.

(** C35: every constructor of [Location] (no location, a constant, a pair, unallocated
    with a policy, the three kinds of stack slots, the two kinds of registers) succeeds
    on the places of its kind, with pointers that are multiples of four, and the
    predicates and accessors give the place back; so two places never share an
    encoding, for either word size.  [Pair] leaves the two locations it is given where
    [AsPairLocation] finds them. *)
Theorem Location_roundtrip {T : Target} p q :
  valid_place p -> valid_place q ->
  exists l m, location_of p = Ok l /\ location_of q = Ok m /\ place_of l = Ok p /\ place_of m = Ok q /\
    (Equals l m = true <-> p = q) /\
    (forall zone a first second, p = PPair a ->
       exists pl, Pair zone a first second = Ok (<[a := pl]> zone, l) /\ AsPairLocation l = Ok a /\
         PairLocation_At pl 0 = Ok first /\ PairLocation_At pl 1 = Ok second).
Proof.
  intros Hp Hq. destruct (location_of_place p Hp) as (l & El & Pl). destruct (location_of_place q Hq) as (m & Em & Pm).
  exists l, m. repeat split; try done.
  - unfold Equals. intros E%Z.eqb_eq. subst. congruence.
  - intros ->. unfold Equals. apply Z.eqb_eq. congruence.
  - intros zone a first second ->. destruct Hp as [Ha H4]. exists (mkPairLocation first second).
    destruct (place_of_Pair ∅ a NoLocation NoLocation Ha H4) as [E0 _]. simpl in El. rewrite E0 in El. simpl in El. injection El as <-.
    destruct (place_of_Pair zone a first second Ha H4) as [E1 _]. destruct (tagged_pointer a 2 Ha H4 ltac:(lia)) as (_ & Etag & Eptr).
    split_and!; [done| |done|done]. unfold AsPairLocation, IsPairLocation. by rewrite tag_mod, Etag, Eptr.
Qed.

(** A copy of a pair is a new pair of the same locations. *)
Lemma Copy_pair {T : Target} zone a b first second :
  valid_place (PPair a) -> valid_place (PPair b) -> IsPairLocation first = false -> IsPairLocation second = false ->
  zone !! a = Some (mkPairLocation first second) ->
  exists l m, location_of (PPair a) = Ok l /\ location_of (PPair b) = Ok m /\
    Copy zone b l = Ok (<[b := mkPairLocation first second]> zone, m).
Proof.
  intros [Ha H4] [Hb Hb4] H1 H2 Hz. destruct (place_of_Pair ∅ a NoLocation NoLocation Ha H4) as [E0 _].
  destruct (place_of_Pair ∅ b NoLocation NoLocation Hb Hb4) as [E1 _]. exists (a + 2), (b + 2). simpl. rewrite E0, E1. split_and!; [done..|].
  destruct (tagged_pointer a 2 Ha H4 ltac:(lia)) as (_ & Em & Ep). unfold Copy, AsPairLocation.
  assert (IsPairLocation (a + 2) = true) as -> by (unfold IsPairLocation; by rewrite tag_mod, Em).
  cbn [assert_ mbind result_bind]. rewrite Ep, Hz. cbn [mbind result_bind PairLocation_At locations_0 locations_1 Z.eqb Z.geb Z.ltb Z.compare assert_ Pos.compare Pos.compare_cont].
  rewrite H1, H2. by apply (place_of_Pair zone b first second).
Qed.

Lemma Location_roundtrip_witness :
  exists l m, location_of (T := mips_target) (PStackSlot (-5) Mips.FPREG) = Ok l /\ DoubleStackSlot (T := mips_target) 7 = Ok m /\
    place_of (T := mips_target) l = Ok (PStackSlot (-5) Mips.FPREG) /\ place_of (T := mips_target) m = Ok (PDoubleStackSlot 7) /\
    (Equals l m = true <-> PStackSlot (-5) Mips.FPREG = PDoubleStackSlot 7) /\
    exists p, location_of (T := mips_target) (PPair 64) = Ok p /\ place_of (T := mips_target) p = Ok (PPair 64) /\ Equals p l = false.
Proof.
  assert (valid_place (T := mips_target) (PStackSlot (-5) Mips.FPREG)) as H1 by (split; vm_compute; split; congruence).
  assert (valid_place (T := mips_target) (PDoubleStackSlot 7)) as H2 by (vm_compute; split; congruence).
  assert (valid_place (T := mips_target) (PPair 64)) as H3 by (split; [vm_compute; split; congruence|reflexivity]).
  destruct (Location_roundtrip (T := mips_target) _ _ H1 H2) as (l & m & El & Em & Pl & Pm & Hlm & _).
  destruct (Location_roundtrip (T := mips_target) _ _ H3 H1) as (p & l' & Ep & El' & Pp & _ & Hpl & _).
  exists l, m. split_and!; [exact El|exact Em|exact Pl|exact Pm|exact Hlm|].
  exists p. split; [exact Ep|]. split; [exact Pp|]. rewrite El in El'. injection El' as <-.
  destruct (Equals p l); [|reflexivity]. discriminate (proj1 Hpl eq_refl).
Defined.

(** ** Sets of registers *)

(** A word as the set of its bits. *)
Definition bitset (n x : Z) : gset Z := list_to_set (filter (fun i => Z.testbit x i = true) (seqZ 0 n)).

Lemma elem_of_bitset n x i : i ∈ bitset n x <-> (0 <= i < n /\ Z.testbit x i = true).
Proof. unfold bitset. rewrite elem_of_list_to_set, list_elem_of_filter, elem_of_seqZ. intuition lia. Qed.

(** Signed words are determined by the bits of their width. *)
Lemma isS_bits_ext w a b :
  0 < w -> isS w a -> isS w b -> (forall i, 0 <= i < w -> Z.testbit a i = Z.testbit b i) -> a = b.
Proof.
  intros Hw Ha Hb Hab. rewrite <- (wrapS_id w a), <- (wrapS_id w b) by done.
  apply Z.bits_inj'. intros i Hi. rewrite !testbit_wrapS by done.
  apply Hab. lia.
Qed.

Lemma bitset_empty w x : 0 < w -> isS w x -> bitset w x = ∅ <-> x = 0.
Proof.
  intros Hw Hx. split.
  - intros E. apply (isS_bits_ext w); [done..|unfold isS; pose proof (pow2_pos (w - 1)); lia|].
    intros i Hi. rewrite Z.bits_0. apply not_true_is_false. intros Ht.
    assert (i ∈ bitset w x) by (by apply elem_of_bitset). set_solver.
  - intros ->. apply set_eq. intros i. rewrite elem_of_bitset, Z.bits_0. set_solver.
Qed.

Lemma lowest_bit x i :
  0 <= i -> Z.testbit x i = true ->
  exists k, 0 <= k <= i /\ Z.testbit x k = true /\ forall j, 0 <= j < k -> Z.testbit x j = false.
Proof.
  revert i. apply (Z_lt_induction (fun i => Z.testbit x i = true -> _)).
  intros i IH Hi.
  destruct (decide (Exists (fun j => Z.testbit x j = true) (seqZ 0 i))) as [He|Hn].
  - apply Exists_exists in He as (j & Hj%elem_of_seqZ & Htj).
    destruct (IH j) as (k & ? & ? & ?); [lia|done|]. exists k. repeat split; (done || lia).
  - destruct (Z.le_gt_cases 0 i) as [Hi0|Hi0]; [|by rewrite Z.testbit_neg_r in Hi by lia].
    exists i. split; [lia|]. split; [done|]. intros j Hj. apply not_true_is_false. intros Ht.
    apply Hn, Exists_exists. exists j. rewrite elem_of_seqZ. split; [lia|done].
Qed.

(** Subtracting one turns the lowest set bit off and the bits below it on. *)
Lemma testbit_pred x k i :
  0 <= k -> Z.testbit x k = true -> (forall j, 0 <= j < k -> Z.testbit x j = false) -> 0 <= i ->
  Z.testbit (x - 1) i = if i <? k then true else if i =? k then false else Z.testbit x i.
Proof.
  intros Hk Hkt Hlow Hi.
  assert (x mod 2 ^ (k + 1) = 2 ^ k) as Hmod.
  { apply Z.bits_inj'. intros j Hj. fold (wrapU (k + 1) x). rewrite testbit_wrapU, Z.pow2_bits_eqb by lia.
    destruct (Z.ltb_spec j (k + 1)); simpl; destruct (Z.eqb_spec k j); try lia; subst; auto. apply Hlow. lia. }
  pose proof (pow2_pos k Hk) as Hp.
  assert (isU (k + 1) (Z.ones k)) as Hones.
  { unfold isU. rewrite ones_pow2. rewrite Z.pow_add_r by lia. lia. }
  assert (x - 1 = (x / 2 ^ (k + 1)) <<< (k + 1) .| Z.ones k) as ->.
  { rewrite lor_shiftl_add, ones_pow2 by (done || lia).
    pose proof (Z.div_mod x (2 ^ (k + 1)) ltac:(pose proof (pow2_pos (k + 1)); lia)). lia. }
  rewrite Z.lor_spec, testbit_ones by lia. rewrite testbit_shiftl' by lia.
  destruct (Z.ltb_spec i k); [by rewrite orb_true_r|]. rewrite orb_false_r.
  destruct (Z.eqb_spec i k); [zcmp|]. zcmp. rewrite Z.div_pow2_bits by lia. f_equal. lia.
Qed.

Section register_sets.
Context {T : Target}.

(** One round of Kernighan's loop removes the lowest bit. *)
Lemma bitset_clear_lowest x :
  isS kBitsPerWord x -> x <> 0 ->
  let y := x .& wrapS kBitsPerWord (x - 1) in
  isS kBitsPerWord y /\ size (bitset kBitsPerWord x) = S (size (bitset kBitsPerWord y)).
Proof.
  intros Hx Hx0 y. pose proof word_size_large as HW.
  split; [apply isS_land; [lia|done|apply wrapS_range; lia]|].
  destruct (set_choose_or_empty (bitset kBitsPerWord x)) as [[i Hi%elem_of_bitset]|He].
  2:{ apply leibniz_equiv_iff, (bitset_empty kBitsPerWord x) in He; [done|lia|done]. }
  destruct (lowest_bit x i) as (k & Hk & Hkt & Hlow); [lia|tauto|].
  assert (bitset kBitsPerWord x = {[k]} ∪ bitset kBitsPerWord y) as ->.
  { apply set_eq. intros j. rewrite elem_of_union, elem_of_singleton, !elem_of_bitset. unfold y.
    split.
    - intros [Hj Hjt]. destruct (decide (j = k)) as [->|Hne]; [by left|right]. split; [done|].
      rewrite Z.land_spec, testbit_wrapS, Z.min_l, (testbit_pred x k), Hjt by (done || lia). zcmp.
    - intros [->|[Hj Hjt]]; [split; [lia|done]|]. split; [done|]. by rewrite Z.land_spec, andb_true_iff in Hjt; destruct Hjt. }
  rewrite size_union, size_singleton; [done|]. intros j ->%elem_of_singleton [_ Hj]%elem_of_bitset. revert Hj. unfold y.
  rewrite Z.land_spec, testbit_wrapS, Z.min_l, (testbit_pred x k) by (done || lia). zcmp.
Qed.

Lemma RegisterCount_loop_size rounds : forall count x,
  isS kBitsPerWord x -> (size (bitset kBitsPerWord x) <= rounds)%nat ->
  RegisterCount_loop rounds count x = Some (count + Z.of_nat (size (bitset kBitsPerWord x))).
Proof.
  assert (0 < kBitsPerWord) as HW0 by (pose proof word_size_large; lia).
  induction rounds as [|rounds IH]; intros count x Hx Hsz; simpl.
  all: destruct (Z.eqb_spec x 0) as [->|Hx0];
    [rewrite (proj2 (bitset_empty kBitsPerWord 0 HW0 Hx) eq_refl), size_empty; f_equal; lia|].
  all: destruct (bitset_clear_lowest x Hx Hx0) as [Hy Hsize].
  - lia.
  - rewrite IH by (done || lia). f_equal. lia.
Qed.

Lemma RegisterCount_size x : isS kBitsPerWord x -> RegisterCount x = Some (Z.of_nat (size (bitset kBitsPerWord x))).
Proof.
  intros Hx. unfold RegisterCount. rewrite RegisterCount_loop_size; [done|done|].
  unfold bitset. rewrite size_list_to_set by (apply NoDup_filter, NoDup_seqZ).
  etransitivity; [apply length_filter|]. by rewrite length_seqZ.
Qed.

(** What the three words mean: sets of register numbers below 32. *)
Definition represents (data : Z) (s : gset Z) : Prop := isS 32 data /\ s = bitset 32 data.

Lemma ToMask_ok r :
  0 <= r < 32 -> exists m, ToMask r = Ok m /\ isS 32 m /\ forall i, 0 <= i < 32 -> Z.testbit m i = (i =? r).
Proof.
  intros Hr. pose proof word_size_large as HW. exists (s32 (1 <<< r)). unfold ToMask.
  destruct (Z.ltb_spec r kBitsPerWord); [|lia]. cbn [assert_ mbind result_bind].
  replace ((0 <=? r) && (r <? 32)) with true by (symmetry; apply andb_true_iff; lia).
  split; [done|]. split; [apply wrapS_range; lia|]. intros i Hi.
  rewrite testbit_wrapS, Z.min_l, Z.shiftl_1_l, Z.pow2_bits_eqb by lia. apply Z.eqb_sym.
Qed.

Lemma Contains_ok data s r :
  represents data s -> 0 <= r < 32 -> SmallSet_Contains data r = Ok (bool_decide (r ∈ s)).
Proof.
  intros [Hd ->] Hr. destruct (ToMask_ok r Hr) as (m & E & Hm & Hb). unfold SmallSet_Contains. rewrite E. cbn [mbind result_bind].
  f_equal. apply bool_eqb_iff. rewrite bool_decide_eq_true, elem_of_bitset, negb_true_iff, Z.eqb_neq. split.
  - intros H0. split; [done|]. apply not_false_is_true. intros Hf. apply H0.
    apply (isS_bits_ext 32); [lia|by apply isS_land|unfold isS; lia|]. intros i Hi. rewrite Z.land_spec, Hb, Z.bits_0 by done.
    destruct (Z.eqb_spec i r); [subst; by rewrite Hf|by rewrite andb_false_r].
  - intros [_ Ht] E0. apply (f_equal (fun z => Z.testbit z r)) in E0. rewrite Z.land_spec, Hb, Ht, Z.eqb_refl in E0 by done. by rewrite Z.bits_0 in E0.
Qed.

Lemma Add_ok data s r :
  represents data s -> 0 <= r < 32 -> exists d, SmallSet_Add data r = Ok d /\ represents d ({[r]} ∪ s).
Proof.
  intros [Hd ->] Hr. destruct (ToMask_ok r Hr) as (m & E & Hm & Hb). unfold SmallSet_Add. rewrite E. cbn [mbind result_bind].
  eexists. split; [done|]. split; [by apply isS_lor|]. apply set_eq. intros i.
  rewrite elem_of_union, elem_of_singleton, !elem_of_bitset, Z.lor_spec, orb_true_iff.
  destruct (decide (0 <= i < 32)); [rewrite Hb, Z.eqb_eq by done|]; intuition (subst; tauto || lia).
Qed.

Lemma Remove_ok data s r :
  represents data s -> 0 <= r < 32 -> exists d, SmallSet_Remove data r = Ok d /\ represents d (s ∖ {[r]}).
Proof.
  intros [Hd ->] Hr. destruct (ToMask_ok r Hr) as (m & E & Hm & Hb). unfold SmallSet_Remove. rewrite E. cbn [mbind result_bind].
  eexists. split; [done|]. split; [apply isS_land; [lia|done|by apply isS_lnot]|]. apply set_eq. intros i.
  rewrite elem_of_difference, elem_of_singleton, !elem_of_bitset, Z.land_spec, andb_true_iff.
  destruct (decide (0 <= i < 32)); [rewrite Z.lnot_spec, Hb, negb_true_iff, Z.eqb_neq by lia|]; intuition (subst; tauto || lia).
Qed.

(** On a 64-bit target register 31 sets all the bits from 31 on. *)
Lemma count_represents data s :
  represents data s ->
  RegisterCount data = Some (Z.of_nat (size s) + (if bool_decide (31 ∈ s) then kBitsPerWord - 32 else 0)).
Proof.
  intros [Hd Hs]. assert (isS kBitsPerWord data) as HdW.
  { unfold isS in *. pose proof (Z.pow_le_mono_r 2 31 (kBitsPerWord - 1)). pose proof word_size_large. change (32 - 1) with 31 in Hd. lia. }
  rewrite RegisterCount_size by done. f_equal.
  assert (bitset kBitsPerWord data = s ∪ (if bool_decide (31 ∈ s) then list_to_set (seqZ 32 (kBitsPerWord - 32)) else ∅)) as ->.
  { apply set_eq. intros i. rewrite elem_of_union, elem_of_bitset. pose proof word_size_large as HW.
    assert (32 <= i -> Z.testbit data i = bool_decide (31 ∈ s)) as Hhigh.
    { intros Hi. rewrite <- (wrapS_id 32 data) by (done || lia). rewrite testbit_wrapS, Z.min_r by lia.
      apply bool_eqb_iff. rewrite bool_decide_eq_true, Hs, elem_of_bitset. intuition lia. }
    assert (i ∈ (if bool_decide (31 ∈ s) then list_to_set (seqZ 32 (kBitsPerWord - 32)) else (∅ : gset Z)) <->
            32 <= i < kBitsPerWord /\ bool_decide (31 ∈ s) = true) as ->.
    { case_bool_decide; [rewrite elem_of_list_to_set, elem_of_seqZ; intuition lia|set_solver]. }
    rewrite Hs at 1. rewrite elem_of_bitset. destruct (decide (i < 32)); [intuition lia|rewrite Hhigh by lia; intuition lia]. }
  rewrite size_union.
  - case_bool_decide; [|rewrite size_empty; lia]. rewrite size_list_to_set by apply NoDup_seqZ. rewrite length_seqZ. pose proof word_size_large. lia.
  - intros i Hi. rewrite Hs, elem_of_bitset in Hi. case_bool_decide; [|set_solver]. intros Hi'%elem_of_list_to_set%elem_of_seqZ. lia.
Qed.
End register_sets.

(** *** The abstract register set *)

Record RegSpec := mkRegSpec { spec_cpu : gset Z; spec_untagged : gset Z; spec_fpu : gset Z }.

Inductive reg_op :=
| OpAdd (p : place) (rep : RangeAnalysis.Representation)
| OpRemove (p : place).

Definition op_place (o : reg_op) : place := match o with OpAdd p _ | OpRemove p => p end.

Definition is_tagged (rep : RangeAnalysis.Representation) : bool :=
  match rep with RangeAnalysis.kTagged => true | _ => false end.

Definition spec_op (s : RegSpec) (o : reg_op) : RegSpec :=
  match o with
  | OpAdd (PRegister r) rep =>
      mkRegSpec ({[r]} ∪ spec_cpu s) (if is_tagged rep then spec_untagged s else {[r]} ∪ spec_untagged s) (spec_fpu s)
  | OpAdd (PFpuRegister r) _ => mkRegSpec (spec_cpu s) (spec_untagged s) ({[r]} ∪ spec_fpu s)
  | OpRemove (PRegister r) => mkRegSpec (spec_cpu s ∖ {[r]}) (spec_untagged s) (spec_fpu s)
  | OpRemove (PFpuRegister r) => mkRegSpec (spec_cpu s) (spec_untagged s) (spec_fpu s ∖ {[r]})
  | _ => s
  end.

Definition run_op {T : Target} (s : RegisterSet) (o : reg_op) : M RegisterSet :=
  loc ← location_of (op_place o);
  match o with
  | OpAdd _ rep => RegisterSet_Add s loc rep
  | OpRemove _ => RegisterSet_Remove s loc
  end.

Fixpoint run_ops {T : Target} (s : RegisterSet) (ops : list reg_op) : M RegisterSet :=
  match ops with [] => Ok s | o :: ops => s ← run_op s o; run_ops s ops end.

Section refinement.
Context {T : Target}.

(** The refinement relation. *)
Definition refines (s : RegisterSet) (a : RegSpec) : Prop :=
  represents (cpu_registers_ s) (spec_cpu a) /\ represents (untagged_cpu_registers_ s) (spec_untagged a) /\
  represents (fpu_registers_ s) (spec_fpu a).

(** What the code asks of the location of a place. *)
Lemma location_tests p l :
  valid_place p -> location_of p = Ok l ->
  match p with
  | PRegister r => IsRegister l = true /\ reg l = Ok r
  | PFpuRegister r => IsRegister l = false /\ IsFpuRegister l = true /\ fpu_reg l = Ok r
  | _ => IsRegister l = false /\ IsFpuRegister l = false
  end.
Proof.
  intros Hp E. destruct (location_of_place p Hp) as (l' & E' & Hl). rewrite E in E'. injection E' as <-.
  unfold place_of in Hl. destruct (IsInvalid l) eqn:Hinv.
  { injection Hl as <-. unfold IsInvalid in Hinv. apply Z.eqb_eq in Hinv. subst l.
    unfold IsRegister, IsFpuRegister. rewrite kind_mod. done. }
  destruct (IsConstant l) eqn:Hc.
  { destruct (constant_instruction l); [|done]. injection Hl as <-. unfold IsConstant in Hc. rewrite tag_mod in Hc.
    apply Z.eqb_eq in Hc. unfold IsRegister, IsFpuRegister, kConstantTag, kRegister, kFpuRegister in *. rewrite kind_mod.
    rewrite !Z.eqb_neq. split; divlia. }
  destruct (IsPairLocation l) eqn:Hpr.
  { destruct (AsPairLocation l); [|done]. injection Hl as <-. unfold IsPairLocation in Hpr. rewrite tag_mod in Hpr.
    apply Z.eqb_eq in Hpr. unfold IsRegister, IsFpuRegister, kPairLocationTag, kRegister, kFpuRegister in *. rewrite kind_mod.
    rewrite !Z.eqb_neq. split; divlia. }
  unfold IsUnallocated, IsStackSlot, IsDoubleStackSlot, IsQuadStackSlot, IsRegister, IsFpuRegister in *.
  unfold reg, fpu_reg, IsRegister, IsFpuRegister in *.
  repeat match type of Hl with context [if (kind l =? ?k) then _ else _] => destruct (Z.eqb_spec (kind l) k) as [Hk|] end; try done.
  all: rewrite ?Hk.
  - destruct (policy l) as [[?|]|]; [injection Hl as <-|done..]. done.
  - destruct (stack_index l), (base_reg l); [injection Hl as <-|done..]. done.
  - destruct (stack_index l); [injection Hl as <-|done]. done.
  - destruct (stack_index l); [injection Hl as <-|done]. done.
  - injection Hl as <-. done.
  - injection Hl as <-. done.
Qed.

Lemma run_op_refines s a o :
  refines s a -> valid_place (op_place o) -> exists s', run_op s o = Ok s' /\ refines s' (spec_op a o).
Proof.
  intros (Hc & Hu & Hf) Hv. unfold run_op. destruct (location_of_place _ Hv) as (l & E & _). rewrite E.
  pose proof (location_tests _ _ Hv E) as Ht. cbn [mbind result_bind]. unfold isU in Hv.
  destruct o as [p rep|p]; simpl in *; destruct p as [| | | | | | |r|r]; destruct_and?; simpl in *.
  all: unfold RegisterSet_Add, RegisterSet_Remove, MarkUntagged;
    repeat match goal with H : _ = _ |- _ => rewrite H end; cbn [assert_ mbind result_bind].
  all: try (eexists; split; [done|unfold refines; simpl; tauto]).
  - destruct (Add_ok _ _ r Hc) as (d & -> & Hd); [done|]. cbn [mbind result_bind].
    destruct (Add_ok _ _ r Hu) as (e & Ee & He); [done|].
    destruct rep; simpl; rewrite ?Ee; cbn [mbind result_bind]; eexists; (split; [done|unfold refines; simpl; tauto]).
  - destruct (Add_ok _ _ r Hf) as (d & -> & Hd); [done|]. cbn [mbind result_bind]. eexists. split; [done|unfold refines; simpl; tauto].
  - destruct (Remove_ok _ _ r Hc) as (d & -> & Hd); [done|]. cbn [mbind result_bind]. eexists. split; [done|unfold refines; simpl; tauto].
  - destruct (Remove_ok _ _ r Hf) as (d & -> & Hd); [done|]. cbn [mbind result_bind]. eexists. split; [done|unfold refines; simpl; tauto].
Qed.

Lemma run_ops_refines ops : forall s a,
  refines s a -> Forall (fun o => valid_place (op_place o)) ops ->
  exists s', run_ops s ops = Ok s' /\ refines s' (foldl spec_op a ops).
Proof.
  induction ops as [|o ops IH]; intros s a Hr Hops; simpl; [by eauto|].
  inversion Hops as [|? ? Ho Hops']; subst. destruct (run_op_refines s a o Hr Ho) as (s' & -> & Hr').
  cbn [mbind result_bind]. by apply IH.
Qed.

Lemma refines_new : refines RegisterSet_new (mkRegSpec ∅ ∅ ∅).
Proof.
  assert (represents 0 ∅) as H0.
  { assert (isS 32 0) by (unfold isS; lia). split; [done|]. symmetry. by apply bitset_empty. }
  done.
Qed.

Lemma HasUntaggedValues_ok s a :
  refines s a -> HasUntaggedValues s = bool_decide (spec_untagged a <> ∅ \/ spec_fpu a <> ∅).
Proof.
  intros (_ & [Hu Eu] & [Hf Ef]). unfold HasUntaggedValues, SmallSet_IsEmpty. apply bool_eqb_iff.
  rewrite bool_decide_eq_true, orb_true_iff, !negb_true_iff, !Z.eqb_neq, Eu, Ef, !bitset_empty by (done || lia). done.
Qed.
End refinement.

(** [RegisterSet] refines three sets of register numbers: after any sequence of
    additions and removals of locations the queries answer from the abstract sets, and
    [CpuRegisterCount] counts the members (and 32 more for register 31 where [intptr_t]
    has 64 bits, since its mask is a sign-extended 32-bit integer). *)
Theorem RegisterSet_refines {T : Target} ops r :
  Forall (fun o => valid_place (op_place o)) ops -> 0 <= r < 32 ->
  exists s lr lf, run_ops RegisterSet_new ops = Ok s /\ RegisterLocation r = Ok lr /\ FpuRegisterLocation r = Ok lf /\
    let a := foldl spec_op (mkRegSpec ∅ ∅ ∅) ops in
    RegisterSet_Contains s lr = Ok (bool_decide (r ∈ spec_cpu a)) /\
    RegisterSet_Contains s lf = Ok (bool_decide (r ∈ spec_fpu a)) /\
    IsTagged s r = Ok (bool_decide (r ∉ spec_untagged a)) /\
    HasUntaggedValues s = bool_decide (spec_untagged a <> ∅ \/ spec_fpu a <> ∅) /\
    CpuRegisterCount s =
      Some (Z.of_nat (size (spec_cpu a)) + (if bool_decide (31 ∈ spec_cpu a) then kBitsPerWord - 32 else 0)).
Proof.
  intros Hops Hr. destruct (run_ops_refines ops _ _ refines_new Hops) as (s & E & Href).
  assert (isU 5 r) as H5 by done.
  destruct (location_of_place (PRegister r) H5) as (lr & Er & _). destruct (location_of_place (PFpuRegister r) H5) as (lf & Ef & _).
  pose proof (location_tests _ _ (H5 : valid_place (PRegister r)) Er) as [Hr1 Hr2].
  pose proof (location_tests _ _ (H5 : valid_place (PFpuRegister r)) Ef) as (Hf1 & Hf2 & Hf3).
  exists s, lr, lf. split; [done|]. split; [done|]. split; [done|]. intros a. fold a in Href.
  unfold RegisterSet_Contains, ContainsRegister, ContainsFpuRegister, IsTagged.
  rewrite Hr1, Hr2, Hf1, Hf2, Hf3. cbn [mbind result_bind]. pose proof Href as (Hc & Hu & Hf).
  rewrite (Contains_ok _ _ r Hc Hr), (Contains_ok _ _ r Hf Hr), (Contains_ok _ _ r Hu Hr). cbn [mbind result_bind].
  split; [done|]. split; [done|]. split; [by rewrite bool_decide_not|].
  split; [by apply HasUntaggedValues_ok|]. by apply count_represents.
Qed.

Lemma RegisterSet_refines_witness :
  exists s, run_ops (T := mips_target) RegisterSet_new
      [OpAdd (PRegister 3) RangeAnalysis.kUnboxedInt32; OpAdd (PFpuRegister 4) RangeAnalysis.kTagged; OpRemove (PRegister 3);
       OpAdd (PRegister 31) RangeAnalysis.kTagged] = Ok s /\
    IsTagged (T := mips_target) s 3 = Ok false /\ CpuRegisterCount (T := mips_target) s = Some 1.
Proof.
  destruct (RegisterSet_refines (T := mips_target)
      [OpAdd (PRegister 3) RangeAnalysis.kUnboxedInt32; OpAdd (PFpuRegister 4) RangeAnalysis.kTagged; OpRemove (PRegister 3);
       OpAdd (PRegister 31) RangeAnalysis.kTagged] 3) as (s & lr & lf & E & _ & _ & _ & _ & Ht & _ & Hn).
  - repeat constructor; vm_compute; congruence.
  - lia.
  - exists s. split; [exact E|]. split; [rewrite Ht; vm_compute; reflexivity|rewrite Hn; vm_compute; reflexivity].
Defined.

End Locations.
