(* ===== verification/ParallelMove.v ===== *)
(** * ParallelMoveResolver (vm/flow_graph_compiler.cc, vm/flow_graph_compiler_mips.cc)

    A parallel move assigns many locations at once.  The resolver turns it into
    a sequence of moves and swaps.  [MoveOperands] is from
    vm/intermediate_language.h.  What differs between targets, the code of one
    move and of one swap, is the class [Emitter]; [Mips] below holds the MIPS
    code, a list of calls of the assembler. *)

From stdpp Require Import base numbers list sets gmap.
From Stdlib Require Import ZArith Lia.
From S2P Require Import Prelude Utils MipsConstants Locations.

Local Open Scope Z_scope.
Local Open Scope mach_scope.

Module ParallelMove.
Import Locations.

(** ** MoveOperands *)

Record MoveOperands := mkMove { dest_ : Location; src_ : Location }.

#[export] Instance MoveOperands_eq_dec : EqDecision MoveOperands.
Proof. solve_decision. Defined.

(** The assertion of [IsPending] and [IsEliminated]. *)
Definition operands_ok (m : MoveOperands) : bool := negb (IsInvalid (src_ m)) || IsInvalid (dest_ m).

Definition IsPending (m : MoveOperands) : M bool :=
  assert_ (operands_ok m);;
  Ok (IsInvalid (dest_ m) && negb (IsInvalid (src_ m))).

Definition IsEliminated (m : MoveOperands) : M bool :=
  assert_ (operands_ok m);;
  Ok (IsInvalid (src_ m)).

Definition MarkPending (m : MoveOperands) : M (Location * MoveOperands) :=
  p ← IsPending m;
  assert_ (negb p);;
  Ok (dest_ m, mkMove NoLocation (src_ m)).

Definition ClearPending (m : MoveOperands) (dest : Location) : M MoveOperands :=
  p ← IsPending m;
  assert_ p;;
  Ok (mkMove dest (src_ m)).

Definition Blocks (m : MoveOperands) (loc : Location) : M bool :=
  e ← IsEliminated m;
  Ok (negb e && Equals (src_ m) loc).

Definition IsRedundant (m : MoveOperands) : M bool :=
  e ← IsEliminated m;
  Ok (e || IsInvalid (dest_ m) || Equals (src_ m) (dest_ m)).

Definition Eliminate : MoveOperands := mkMove NoLocation NoLocation.

Definition set_src (m : MoveOperands) (value : Location) : MoveOperands := mkMove (dest_ m) value.

(** ** The resolver *)

(** The code that a target emits for a move and for a swap from [source] to
    [destination], given the moves not yet resolved. *)
Class Emitter := {
  Op : Type;
  move_code : list MoveOperands -> Location -> Location -> M (list Op);
  swap_code : list MoveOperands -> Location -> Location -> M (list Op)
}.

Section resolver.
Context {E : Emitter}.

(** The list [moves_] and the code emitted so far. *)
Record Resolver := mkResolver { moves_ : list MoveOperands; code_ : list Op }.

Definition move_at (ms : list MoveOperands) (index : nat) : M MoveOperands :=
  match ms !! index with Some m => Ok m | None => Err LUndefined end.

Definition set_move (st : Resolver) (index : nat) (m : MoveOperands) : Resolver :=
  mkResolver (<[index := m]> (moves_ st)) (code_ st).

Definition EmitMove (st : Resolver) (index : nat) : M Resolver :=
  move ← move_at (moves_ st) index;
  ops ← move_code (moves_ st) (src_ move) (dest_ move);
  Ok (mkResolver (<[index := Eliminate]> (moves_ st)) (code_ st ++ ops)).

(** The sources of the other moves follow the values that were swapped. *)
Fixpoint retarget (ms : list MoveOperands) (source destination : Location) : M (list MoveOperands) :=
  match ms with
  | [] => Ok []
  | m :: ms =>
      b ← Blocks m source;
      m' ← (if b : bool then Ok (set_src m destination)
            else b' ← Blocks m destination; Ok (if b' : bool then set_src m source else m));
      ms' ← retarget ms source destination;
      Ok (m' :: ms')
  end.

Definition EmitSwap (st : Resolver) (index : nat) : M Resolver :=
  move ← move_at (moves_ st) index;
  ops ← swap_code (moves_ st) (src_ move) (dest_ move);
  ms ← retarget (<[index := Eliminate]> (moves_ st)) (src_ move) (dest_ move);
  Ok (mkResolver ms (code_ st ++ ops)).

(** The first loop of [PerformMove]. *)
Fixpoint perform_blocking (perform : Resolver -> nat -> M Resolver) (destination : Location)
    (indices : list nat) (st : Resolver) : M Resolver :=
  match indices with
  | [] => Ok st
  | i :: indices =>
      other_move ← move_at (moves_ st) i;
      b ← Blocks other_move destination;
      p ← (if b : bool then IsPending other_move else Ok true);
      st ← (if b && negb p then perform st i else Ok st);
      perform_blocking perform destination indices st
  end.

(** The second loop: whether a move blocks the destination. *)
Fixpoint blocked (ms : list MoveOperands) (destination : Location) : M bool :=
  match ms with
  | [] => Ok false
  | other_move :: ms =>
      b ← Blocks other_move destination;
      if b : bool then p ← IsPending other_move; assert_ p;; Ok true
      else blocked ms destination
  end.

Fixpoint PerformMove (fuel : nat) (st : Resolver) (index : nat) : M Resolver :=
  match fuel with
  | O => Err LOutOfStack
  | S fuel =>
      move ← move_at (moves_ st) index;
      p ← IsPending move;
      assert_ (negb p);;
      r ← IsRedundant move;
      assert_ (negb r);;
      assert_ (negb (IsInvalid (src_ move)));;
      dm ← MarkPending move;
      let '(destination, pending) := (dm : Location * MoveOperands) in
      st ← perform_blocking (PerformMove fuel) destination (seq 0 (length (moves_ st))) (set_move st index pending);
      move ← move_at (moves_ st) index;
      move ← ClearPending move destination;
      let st := set_move st index move in
      if Equals (src_ move) destination then Ok (set_move st index Eliminate)
      else
        b ← blocked (moves_ st) destination;
        if b : bool then EmitSwap st index else EmitMove st index
  end.

Fixpoint BuildInitialMoveList (parallel_move : list MoveOperands) : M (list MoveOperands) :=
  match parallel_move with
  | [] => Ok []
  | m :: ms =>
      r ← IsRedundant m;
      ms' ← BuildInitialMoveList ms;
      Ok (if r : bool then ms' else m :: ms')
  end.

(** The two loops of [EmitNativeCode]; the recursion of [PerformMove] is not deeper
    than the number of moves. *)
Fixpoint perform_moves (indices : list nat) (st : Resolver) : M Resolver :=
  match indices with
  | [] => Ok st
  | i :: indices =>
      move ← move_at (moves_ st) i;
      e ← IsEliminated move;
      st ← (if negb e && negb (IsConstant (src_ move)) then PerformMove (S (length (moves_ st))) st i else Ok st);
      perform_moves indices st
  end.

Fixpoint perform_constants (indices : list nat) (st : Resolver) : M Resolver :=
  match indices with
  | [] => Ok st
  | i :: indices =>
      move ← move_at (moves_ st) i;
      e ← IsEliminated move;
      st ← (if negb e then assert_ (IsConstant (src_ move));; EmitMove st i else Ok st);
      perform_constants indices st
  end.

Definition EmitNativeCode (parallel_move : list MoveOperands) : M (list Op) :=
  ms ← BuildInitialMoveList parallel_move;
  st ← perform_moves (seq 0 (length ms)) (mkResolver ms []);
  st ← perform_constants (seq 0 (length ms)) st;
  Ok (code_ st).

End resolver.

(** ** Scratch locations *)

Fixpoint any_blocks (ms : list MoveOperands) (loc : Location) : M bool :=
  match ms with
  | [] => Ok false
  | m :: ms => b ← Blocks m loc; if b : bool then Ok true else any_blocks ms loc
  end.

Definition IsScratchLocation (ms : list MoveOperands) (loc : Location) : M bool :=
  b ← any_blocks ms loc;
  if b : bool then Ok false else Ok (existsb (fun m => Equals (dest_ m) loc) ms).

(** ** MIPS *)

Module Mips.
Import MipsConstants.Mips.

(** The calls of the assembler; [LoadObject] has the [ConstantInstr] whose object it loads. *)
Inductive Asm :=
| mov (rd rs : Register)
| LoadFromOffset (reg base : Register) (offset : Z)
| StoreToOffset (reg base : Register) (offset : Z)
| movd (dd ds : DRegister)
| LoadDFromOffset (reg : DRegister) (base : Register) (offset : Z)
| StoreDToOffset (reg : DRegister) (base : Register) (offset : Z)
| LoadImmediate (rd : Register) (value : Z)
| LoadObject (rd : Register) (constant : Z)
| AddImmediate (rd : Register) (imm : Z)
| Push (rt : Register)
| Pop (rt : Register).

(** What the code reads of the constants and of the object layout. *)
Class Constants := {
  unboxed_int32 : Z -> option Z;
  Double_value_offset : Z
}.

Definition kHeapObjectTag : Z := 1.
Definition kDoubleSize : Z := 8.
Definition DTMP : DRegister := 9.
Definition kNoDRegister : DRegister := -1.

#[local] Existing Instance mips_target.

(** The assembler asserts that both offsets fit the instruction. *)
Definition load_d (reg : DRegister) (base : Register) (offset : Z) : M Asm :=
  assert_ (Utils.IsInt 16 offset && Utils.IsInt 16 (offset + 4));; Ok (LoadDFromOffset reg base offset).
Definition store_d (reg : DRegister) (base : Register) (offset : Z) : M Asm :=
  assert_ (Utils.IsInt 16 offset && Utils.IsInt 16 (offset + 4));; Ok (StoreDToOffset reg base offset).

(** *** Scratch registers *)

Definition RegMaskBit (reg : Register) : Z := if negb (reg =? kNoRegister) then u32 (1 <<< reg) else 0.

Definition kReservedCpuRegisters : Z :=
  RegMaskBit SPREG .| RegMaskBit FPREG .| RegMaskBit TMP .| RegMaskBit TMP2 .| RegMaskBit PP .| RegMaskBit THR.

Definition is_free (blocked_mask reg : Z) : bool := u32 (1 <<< reg) .& blocked_mask =? 0.

Fixpoint find_scratch (ms : list MoveOperands) (kind blocked_mask : Z) (regs : list Z) : M (option Z) :=
  match regs with
  | [] => Ok None
  | reg :: regs =>
      s ← (if is_free blocked_mask reg then
             loc ← MachineRegisterLocation kind reg; IsScratchLocation ms loc
           else Ok false);
      if s : bool then Ok (Some reg) else find_scratch ms kind blocked_mask regs
  end.

(** The register, -1 if all are blocked, and whether it has to be spilled. *)
Definition AllocateScratchRegister (ms : list MoveOperands) (kind blocked_mask first_free_register last_free_register : Z)
    : M (Z * bool) :=
  let regs := seqZ first_free_register (last_free_register - first_free_register + 1) in
  scratch ← find_scratch ms kind blocked_mask regs;
  match scratch with
  | Some reg => Ok (reg, false)
  | None => Ok (match List.find (is_free blocked_mask) regs with Some reg => reg | None => -1 end, true)
  end.

Definition SpillScratch (reg : Register) : list Asm := [Push reg].
Definition RestoreScratch (reg : Register) : list Asm := [Pop reg].

(** [__ AddImmediate(SP, -kDoubleSize); __ StoreDToOffset(reg, SP, 0)] and back. *)
Definition SpillFpuScratch (reg : DRegister) : list Asm := [AddImmediate SP (- kDoubleSize); StoreDToOffset reg SP 0].
Definition RestoreFpuScratch (reg : DRegister) : list Asm := [LoadDFromOffset reg SP 0; AddImmediate SP kDoubleSize].

Section emit.
Context {C : Constants} (intrinsic_mode : bool) (ms : list MoveOperands).

(** [ScratchRegisterScope]: the code between its constructor and its destructor. *)
Definition ScratchRegisterScope (blocked : Register) (body : Register -> M (list Asm)) : M (list Asm) :=
  let blocked_mask := RegMaskBit blocked .| kReservedCpuRegisters in
  let blocked_mask := if intrinsic_mode then blocked_mask .| RegMaskBit ARGS_DESC_REG else blocked_mask in
  a ← AllocateScratchRegister ms kRegister blocked_mask kFirstFreeCpuRegister kLastFreeCpuRegister;
  let '(reg_, spilled_) := (a : Z * bool) in
  code ← body reg_;
  Ok (if spilled_ then SpillScratch reg_ ++ code ++ RestoreScratch reg_ else code).

Definition ScratchFpuRegisterScope (blocked : DRegister) (body : DRegister -> M (list Asm)) : M (list Asm) :=
  let blocked_mask := (if negb (blocked =? kNoDRegister) then u32 (1 <<< blocked) else 0) .| u32 (1 <<< DTMP) in
  a ← AllocateScratchRegister ms kFpuRegister blocked_mask 0 (kNumberOfDRegisters - 1);
  let '(reg_, spilled_) := (a : Z * bool) in
  code ← body reg_;
  Ok (if spilled_ then SpillFpuScratch reg_ ++ code ++ RestoreFpuScratch reg_ else code).

(** A constant into a register. *)
Definition load_constant (rd : Register) (constant : Z) : Asm :=
  match unboxed_int32 constant with Some v => LoadImmediate rd v | None => LoadObject rd constant end.

Definition Mips_EmitMove (source destination : Location) : M (list Asm) :=
  if IsRegister source then
    if IsRegister destination then d ← reg destination; s ← reg source; Ok [mov d s]
    else
      assert_ (IsStackSlot destination);;
      dest_offset ← ToStackSlotOffset destination;
      s ← reg source; b ← base_reg destination;
      Ok [StoreToOffset s b dest_offset]
  else if IsStackSlot source then
    if IsRegister destination then
      source_offset ← ToStackSlotOffset source;
      d ← reg destination; b ← base_reg source;
      Ok [LoadFromOffset d b source_offset]
    else
      assert_ (IsStackSlot destination);;
      source_offset ← ToStackSlotOffset source;
      dest_offset ← ToStackSlotOffset destination;
      ScratchRegisterScope kNoRegister (fun tmp =>
        sb ← base_reg source; db ← base_reg destination;
        Ok [LoadFromOffset tmp sb source_offset; StoreToOffset tmp db dest_offset])
  else if IsFpuRegister source then
    if IsFpuRegister destination then dst ← fpu_reg destination; src ← fpu_reg source; Ok [movd dst src]
    else
      assert_ (IsDoubleStackSlot destination);;
      dest_offset ← ToStackSlotOffset destination;
      src ← fpu_reg source; b ← base_reg destination;
      i ← store_d src b dest_offset; Ok [i]
  else if IsDoubleStackSlot source then
    if IsFpuRegister destination then
      source_offset ← ToStackSlotOffset source;
      dst ← fpu_reg destination; b ← base_reg source;
      i ← load_d dst b source_offset; Ok [i]
    else
      assert_ (IsDoubleStackSlot destination);;
      source_offset ← ToStackSlotOffset source;
      dest_offset ← ToStackSlotOffset destination;
      sb ← base_reg source; db ← base_reg destination;
      i ← load_d DTMP sb source_offset;
      j ← store_d DTMP db dest_offset;
      Ok [i; j]
  else
    assert_ (IsConstant source);;
    constant ← constant_instruction source;
    if IsRegister destination then d ← reg destination; Ok [load_constant d constant]
    else if IsFpuRegister destination then
      d ← fpu_reg destination;
      i ← load_d d TMP (Double_value_offset - kHeapObjectTag);
      Ok [LoadObject TMP constant; i]
    else if IsDoubleStackSlot destination then
      dest_offset ← ToStackSlotOffset destination;
      i ← load_d DTMP TMP (Double_value_offset - kHeapObjectTag);
      b ← base_reg destination;
      j ← store_d DTMP b dest_offset;
      Ok [LoadObject TMP constant; i; j]
    else
      assert_ (IsStackSlot destination);;
      dest_offset ← ToStackSlotOffset destination;
      ScratchRegisterScope kNoRegister (fun tmp =>
        b ← base_reg destination;
        Ok [load_constant tmp constant; StoreToOffset tmp b dest_offset]).

(** [Exchange] of a register and a slot, and of two slots. *)
Definition Exchange (reg base_reg : Register) (stack_offset : Z) : M (list Asm) :=
  ScratchRegisterScope reg (fun tmp =>
    Ok [mov tmp reg; LoadFromOffset reg base_reg stack_offset; StoreToOffset tmp base_reg stack_offset]).

Definition Exchange_slots (base_reg1 : Register) (stack_offset1 : Z) (base_reg2 : Register) (stack_offset2 : Z)
    : M (list Asm) :=
  ScratchRegisterScope kNoRegister (fun tmp1 =>
    ScratchRegisterScope tmp1 (fun tmp2 =>
      Ok [LoadFromOffset tmp1 base_reg1 stack_offset1; LoadFromOffset tmp2 base_reg2 stack_offset2;
          StoreToOffset tmp1 base_reg1 stack_offset2; StoreToOffset tmp2 base_reg2 stack_offset1])).

Definition Mips_EmitSwap (source destination : Location) : M (list Asm) :=
  if IsRegister source && IsRegister destination then
    s ← reg source; d ← reg destination;
    assert_ (negb (s =? TMP));; assert_ (negb (d =? TMP));;
    Ok [mov TMP s; mov s d; mov d TMP]
  else if IsRegister source && IsStackSlot destination then
    s ← reg source; b ← base_reg destination; o ← ToStackSlotOffset destination;
    Exchange s b o
  else if IsStackSlot source && IsRegister destination then
    d ← reg destination; b ← base_reg source; o ← ToStackSlotOffset source;
    Exchange d b o
  else if IsStackSlot source && IsStackSlot destination then
    b1 ← base_reg source; o1 ← ToStackSlotOffset source;
    b2 ← base_reg destination; o2 ← ToStackSlotOffset destination;
    Exchange_slots b1 o1 b2 o2
  else if IsFpuRegister source && IsFpuRegister destination then
    dst ← fpu_reg destination; src ← fpu_reg source;
    Ok [movd DTMP src; movd src dst; movd dst DTMP]
  else if IsFpuRegister source || IsFpuRegister destination then
    assert_ (IsDoubleStackSlot destination || IsDoubleStackSlot source);;
    reg ← (if IsFpuRegister source then fpu_reg source else fpu_reg destination);
    base_reg ← (if IsFpuRegister source then base_reg destination else base_reg source);
    slot_offset ← (if IsFpuRegister source then ToStackSlotOffset destination else ToStackSlotOffset source);
    i ← load_d DTMP base_reg slot_offset;
    j ← store_d reg base_reg slot_offset;
    Ok [i; j; movd reg DTMP]
  else if IsDoubleStackSlot source && IsDoubleStackSlot destination then
    source_offset ← ToStackSlotOffset source;
    dest_offset ← ToStackSlotOffset destination;
    ScratchFpuRegisterScope DTMP (fun scratch =>
      sb ← base_reg source; db ← base_reg destination;
      i ← load_d DTMP sb source_offset;
      j ← load_d scratch db dest_offset;
      k ← store_d DTMP db dest_offset;
      l ← store_d scratch sb source_offset;
      Ok [i; j; k; l])
  else Err LUnreachable.

End emit.

(** The MIPS code generator as an [Emitter]. *)
Definition Mips_Emitter {C : Constants} (intrinsic_mode : bool) : Emitter :=
  {| Op := Asm;
     move_code ms source destination := Mips_EmitMove intrinsic_mode ms source destination;
     swap_code ms source destination := Mips_EmitSwap intrinsic_mode ms source destination |}.

End Mips.
End ParallelMove.
