(* ===== verification/ParallelMoveProps.v ===== *)
(** * The resolver implements parallel assignment

    [EmitterOk] is what a code generator promises to the resolver: the code of
    a move or swap does that and leaves every other location alone, except
    those that [IsScratchLocation] allows it to use.  From this the code of a
    whole parallel move is correct ([EmitNativeCode_ok]). *)

From stdpp Require Import base numbers list sets gmap.
From Stdlib Require Import ZArith Lia.
From S2P Require Import Prelude Locations ParallelMove.

Local Open Scope Z_scope.

Module ParallelMoveProps.
Import Locations ParallelMove.

(** ** The interface between the resolver and a code generator *)

(** A move is in one of three states: eliminated, pending or active. *)
Definition operands_wf (m : MoveOperands) : Prop := operands_ok m = true.

(** [IsScratchLocation] as a proposition. *)
Definition scratch (ms : list MoveOperands) (l : Location) : Prop :=
  (exists m, m ∈ ms /\ dest_ m = l) /\ forall m, m ∈ ms -> src_ m <> l.

Class EmitterOk (E : Emitter) := {
  State : Type;
  Value : Type;
  exec : Op -> State -> State;
  read : State -> Location -> Value;
  state_ok : State -> Prop;
  (** The locations the register allocator hands out, by the kind of value they hold. *)
  allocated : Location -> Prop;
  value_kind : Location -> Z;
  (** Constants that can be moved to a location, and what they put there. *)
  constant_ok : Location -> Location -> Prop;
  constant_value : Location -> Location -> Value;
  allocated_valid l : allocated l -> l <> NoLocation /\ IsConstant l = false;
  constant_valid d c : constant_ok d c -> IsConstant c = true;
  move_code_ok ms s src dest :
    state_ok s -> Forall operands_wf ms -> allocated dest -> src <> dest ->
    (allocated src /\ value_kind src = value_kind dest) \/ constant_ok dest src ->
    exists ops, move_code ms src dest = Ok ops /\
      let s' := foldl (flip exec) s ops in
      state_ok s' /\
      read s' dest = (if IsConstant src then constant_value dest src else read s src) /\
      forall l, allocated l -> l <> dest -> ~ scratch ms l -> read s' l = read s l;
  swap_code_ok ms s src dest :
    state_ok s -> Forall operands_wf ms -> allocated dest -> allocated src -> src <> dest ->
    value_kind src = value_kind dest ->
    exists ops, swap_code ms src dest = Ok ops /\
      let s' := foldl (flip exec) s ops in
      state_ok s' /\ read s' dest = read s src /\ read s' src = read s dest /\
      forall l, allocated l -> l <> dest -> l <> src -> ~ scratch ms l -> read s' l = read s l
}.

(** ** Moves *)

Lemma IsInvalid_spec l : IsInvalid l = true <-> l = NoLocation.
Proof. apply Z.eqb_eq. Qed.

Lemma IsInvalid_false l : IsInvalid l = false <-> l <> NoLocation.
Proof. apply Z.eqb_neq. Qed.

Lemma Equals_false a b : Equals a b = false <-> a <> b.
Proof. apply Z.eqb_neq. Qed.

Lemma IsEliminated_ok m : operands_wf m -> IsEliminated m = Ok (IsInvalid (src_ m)).
Proof. unfold IsEliminated. by intros ->. Qed.

Lemma IsPending_ok m : operands_wf m -> IsPending m = Ok (IsInvalid (dest_ m) && negb (IsInvalid (src_ m))).
Proof. unfold IsPending. by intros ->. Qed.

Lemma Blocks_ok m l : operands_wf m -> Blocks m l = Ok (negb (IsInvalid (src_ m)) && Equals (src_ m) l).
Proof. intros H. unfold Blocks. by rewrite IsEliminated_ok. Qed.

(** A valid location blocks by its source alone. *)
Lemma Blocks_src m l : operands_wf m -> l <> NoLocation -> Blocks m l = Ok (Equals (src_ m) l).
Proof.
  intros H Hl. rewrite Blocks_ok by done. f_equal. unfold Equals, IsInvalid, kInvalidLocation, NoLocation, kInvalidLocation in *.
  destruct (Z.eqb_spec (src_ m) l); destruct (Z.eqb_spec (src_ m) 0); simpl; congruence.
Qed.

Lemma blocked_ok ms d :
  Forall operands_wf ms -> d <> NoLocation -> (forall m, m ∈ ms -> src_ m = d -> dest_ m = NoLocation) ->
  exists b, blocked ms d = Ok b /\ (b = true -> exists m, m ∈ ms /\ src_ m = d) /\ (b = false -> forall m, m ∈ ms -> src_ m <> d).
Proof.
  intros Hwf Hd. induction Hwf as [|m ms Hm Hwf IH]; intros Hp; simpl.
  { exists false. split; [done|]. split; [done|]. set_solver. }
  rewrite Blocks_src by done. cbn [mbind result_bind]. destruct (Equals (src_ m) d) eqn:E.
  - apply Z.eqb_eq in E. assert (dest_ m = NoLocation) as Hdm by (apply Hp; [set_solver|done]).
    rewrite IsPending_ok, Hdm, E, (proj2 (IsInvalid_false d)) by done. cbn.
    exists true. split; [done|]. split; [exists m; set_solver|done].
  - apply Equals_false in E. destruct IH as (b & Eb & Ht & Hf); [set_solver|].
    exists b. split; [done|]. split.
    + intros Hb. destruct (Ht Hb) as (m' & ? & ?). exists m'. set_solver.
    + intros Hb m' [->|Hm']%elem_of_cons; [done|]. by apply Hf.
Qed.

Lemma move_at_ok ms i m : ms !! i = Some m -> move_at ms i = Ok m.
Proof. unfold move_at. by intros ->. Qed.

(** The source of a move after a swap. *)
Definition swapped (a b l : Location) : Location := if decide (l = a) then b else if decide (l = b) then a else l.

Lemma retarget_ok ms a b :
  Forall operands_wf ms -> a <> NoLocation -> b <> NoLocation ->
  retarget ms a b = Ok ((fun m => mkMove (dest_ m) (swapped a b (src_ m))) <$> ms).
Proof.
  intros Hwf Ha Hb. induction Hwf as [|m ms Hm Hwf IH]; simpl; [done|].
  rewrite !Blocks_src by done. cbn [mbind result_bind]. rewrite IH. unfold swapped, Equals, set_src.
  destruct m as [dm sm]; simpl. destruct (Z.eqb_spec sm a), (Z.eqb_spec sm b); cbn [mbind result_bind negb]; repeat case_decide; done.
Qed.

(** ** Invariant of the resolution *)

Section resolution.
Context {E : Emitter} {EO : EmitterOk E}.

Definition run (s : State) (ops : list Op) : State := foldl (flip exec) s ops.

Lemma run_app s ops ops' : run s (ops ++ ops') = run (run s ops) ops'.
Proof. apply foldl_app. Qed.

Definition source_value (s : State) (dest src : Location) : Value :=
  if IsConstant src then constant_value dest src else read s src.

Definition source_ok (dest src : Location) : Prop :=
  (allocated src /\ value_kind src = value_kind dest) \/ constant_ok dest src.

(** The moves of the worklist: [D i] is the destination and [V i] the value of move [i]. *)
Context (n : nat) (D : nat -> Location) (V : nat -> Value) (s0 : State).
Context (D_allocated : forall i, (i < n)%nat -> allocated (D i)).
Context (D_distinct : forall i j, (i < n)%nat -> (j < n)%nat -> D i = D j -> i = j).

(** The state of move [i] while the moves [stk] are pending and the machine is in state [s]. *)
Inductive move_state (stk : list nat) (s : State) (i : nat) : MoveOperands -> Prop :=
| move_eliminated : i ∉ stk -> read s (D i) = V i -> move_state stk s i Eliminate
| move_pending src : i ∈ stk -> allocated src -> value_kind src = value_kind (D i) -> read s src = V i ->
    move_state stk s i (mkMove NoLocation src)
| move_active src : i ∉ stk -> src <> D i -> source_ok (D i) src -> source_value s (D i) src = V i ->
    move_state stk s i (mkMove (D i) src).

Record inv (stk : list nat) (ms : list MoveOperands) (s : State) : Prop := mk_inv {
  inv_length : length ms = n;
  inv_stack i : i ∈ stk -> (i < n)%nat;
  inv_nodup : NoDup stk;
  (** Each pending move but the first waits for the one that was pending before it. *)
  inv_chain k x y : stk !! k = Some x -> stk !! S k = Some y -> ms !! x = Some (mkMove NoLocation (D y));
  inv_move i m : ms !! i = Some m -> move_state stk s i m;
  inv_frame l : allocated l -> (forall i, (i < n)%nat -> l <> D i) -> read s l = read s0 l;
  inv_state : state_ok s
}.

(** What performing a move may do to another one, with [stk] pending: an active move may
    be eliminated, or follow its value to a location that no pending move waits for. *)
Definition move_rel (stk : list nat) (m m' : MoveOperands) : Prop :=
  (src_ m = NoLocation -> m' = m) /\
  (dest_ m = NoLocation -> dest_ m' = NoLocation) /\
  (dest_ m <> NoLocation ->
     m' = Eliminate \/
     (dest_ m' = dest_ m /\ IsConstant (src_ m') = IsConstant (src_ m) /\
      (src_ m' = src_ m \/ forall p, p ∈ stk -> src_ m' <> D p))).

Definition moves_rel (stk : list nat) (ms ms' : list MoveOperands) : Prop :=
  forall i m, ms !! i = Some m -> exists m', ms' !! i = Some m' /\ move_rel stk m m'.

Lemma move_rel_refl stk m : move_rel stk m m.
Proof. split; [done|]. split; [done|]. right. auto. Qed.

Lemma moves_rel_refl stk ms : moves_rel stk ms ms.
Proof. intros i m Hm. exists m. split; [done|apply move_rel_refl]. Qed.

Lemma move_rel_trans stk m1 m2 m3 : move_rel stk m1 m2 -> move_rel stk m2 m3 -> move_rel stk m1 m3.
Proof.
  intros (Ha1 & Hb1 & Hc1) (Ha2 & Hb2 & Hc2). split; [|split].
  - intros H. rewrite (Ha1 H) in *. auto.
  - auto.
  - intros H. destruct (Hc1 H) as [->|(Hd & Hk & Hs)].
    + left. by apply Ha2.
    + destruct Hc2 as [->|(Hd' & Hk' & Hs')]; [congruence|by left|]. right.
      split; [congruence|]. split; [congruence|].
      destruct Hs' as [Hs'|Hs']; [|by right]. destruct Hs as [Hs|Hs]; [left; congruence|right; by rewrite Hs'].
Qed.

Lemma moves_rel_trans stk ms1 ms2 ms3 : moves_rel stk ms1 ms2 -> moves_rel stk ms2 ms3 -> moves_rel stk ms1 ms3.
Proof.
  intros H1 H2 i m Hm. destruct (H1 i m Hm) as (m2 & Hm2 & R2). destruct (H2 i m2 Hm2) as (m3 & Hm3 & R3).
  exists m3. split; [done|]. by eapply move_rel_trans.
Qed.

Lemma move_rel_weaken i stk m m' : move_rel (i :: stk) m m' -> move_rel stk m m'.
Proof.
  intros (Ha & Hb & Hc). split; [done|]. split; [done|]. intros H. destruct (Hc H) as [->|(Hd & Hk & [Hs|Hs])]; [by left|right..].
  - auto.
  - split; [done|]. split; [done|]. right. intros p Hp. apply Hs. by right.
Qed.

(** *** Consequences of the invariant *)

Lemma allocated_no l : allocated l -> l <> NoLocation.
Proof. intros H. by apply allocated_valid. Qed.

Lemma source_ok_no d src : source_ok d src -> src <> NoLocation.
Proof.
  intros [[H _]|H]; [by apply allocated_no|]. apply constant_valid in H. intros ->. vm_compute in H. done.
Qed.

Section inv.
Context (stk : list nat) (ms : list MoveOperands) (s : State) (HI : inv stk ms s).

Lemma inv_index i m : ms !! i = Some m -> (i < n)%nat.
Proof using HI. intros H. rewrite <- (inv_length _ _ _ HI). by eapply lookup_lt_Some. Qed.

Lemma inv_wf : Forall operands_wf ms.
Proof using HI.
  apply Forall_lookup. intros i m Hm. pose proof (inv_index i m Hm). destruct (inv_move _ _ _ HI i m Hm); unfold operands_wf, operands_ok; simpl.
  - done.
  - apply orb_true_r.
  - rewrite (proj2 (IsInvalid_false src)) by (by eapply source_ok_no). done.
Qed.

(** A location that a generator may use as scratch is the destination of an active move. *)
Lemma scratch_active l : scratch ms l -> l <> NoLocation -> exists i src, ms !! i = Some (mkMove (D i) src) /\ l = D i.
Proof using HI.
  intros [(m & Hm & Hd) _] Hl. apply list_elem_of_lookup in Hm as [i Hi].
  destruct (inv_move _ _ _ HI i m Hi); simpl in *; [congruence..|]. eauto.
Qed.

Lemma not_scratch_done i : (i < n)%nat -> ms !! i = Some Eliminate -> ~ scratch ms (D i).
Proof using HI D_allocated D_distinct.
  intros Hi He Hs. destruct (scratch_active _ Hs) as (k & src & Hk & Heq); [by apply allocated_no, D_allocated|].
  apply D_distinct in Heq; [|done|by eapply inv_index]. subst k. rewrite He in Hk. injection Hk as Hd _.
  by apply (allocated_no (D i)); [apply D_allocated|].
Qed.

Lemma not_scratch_source i m : ms !! i = Some m -> ~ scratch ms (src_ m).
Proof using. intros Hm [_ Hs]. apply (Hs m); [|done]. by eapply list_elem_of_lookup_2. Qed.

Lemma not_scratch_frame l : allocated l -> (forall i, (i < n)%nat -> l <> D i) -> ~ scratch ms l.
Proof using HI.
  intros Hl Hf Hs. destruct (scratch_active _ Hs) as (k & src & Hk & ->); [by apply allocated_no|]. by eapply Hf; [eapply inv_index|].
Qed.
End inv.

(** *** Emitting one move *)

(** What writing a destination, and possibly scratch locations, leaves of the other moves. *)
Lemma EmitMove_ok st stk i src :
  let ms := moves_ st in
  inv stk ms (run s0 (code_ st)) -> i ∉ stk -> ms !! i = Some (mkMove (D i) src) ->
  (forall m, m ∈ ms -> src_ m <> D i) ->
  exists st', EmitMove st i = Ok st' /\ inv stk (moves_ st') (run s0 (code_ st')) /\
    moves_ st' = <[i := Eliminate]> ms.
Proof using D_allocated D_distinct.
  intros ms HI Hstk Hi Hfree. pose proof (inv_index _ _ _ HI _ _ Hi) as Hn.
  pose proof (inv_move _ _ _ HI _ _ Hi) as Hst. inversion Hst as [? ? Heq|? ? ? ? ? Heq|? ? Hne Hok Hval].
  1,2: by destruct (allocated_no (D i)); [apply D_allocated|].
  destruct (move_code_ok ms (run s0 (code_ st)) src (D i)) as (ops & E1 & Hs' & Hd & Hother); try done.
  { apply (inv_state _ _ _ HI). } { eapply inv_wf; eassumption. } { by apply D_allocated. }
  fold (run (run s0 (code_ st)) ops) in Hs', Hd, Hother. set (s' := run (run s0 (code_ st)) ops) in *.
  unfold EmitMove. fold ms. rewrite (move_at_ok _ _ _ Hi). cbn [mbind result_bind]. simpl. rewrite E1. cbn [mbind result_bind].
  eexists. split; [done|]. split; [|done]. simpl. rewrite run_app. fold s'. split.
  - rewrite length_insert. apply (inv_length _ _ _ HI).
  - apply (inv_stack _ _ _ HI).
  - apply (inv_nodup _ _ _ HI).
  - intros k x y Hx Hy. rewrite list_lookup_insert_ne by (intros <-; by apply Hstk; eapply list_elem_of_lookup_2).
    by apply (inv_chain _ _ _ HI k).
  - intros j m Hj. destruct (decide (j = i)) as [->|Hne'].
    { rewrite list_lookup_insert_eq in Hj by (rewrite (inv_length _ _ _ HI); done). injection Hj as <-. constructor; [done|]. by rewrite Hd. }
    rewrite list_lookup_insert_ne in Hj by done. pose proof (inv_index _ _ _ HI _ _ Hj) as Hjn.
    assert (D j <> D i) as HD by (intros ?; by apply Hne', D_distinct).
    assert (src_ m <> D i) as Hsrc by (apply Hfree; by eapply list_elem_of_lookup_2).
    pose proof (not_scratch_source _ _ _ Hj) as Hns.
    pose proof (inv_move _ _ _ HI _ _ Hj) as Hj'. destruct Hj' as [? Hv|src' ? ? ? Hv|src' ? ? [[Ha Hk]|Hc] Hv]; simpl in *.
    + constructor; [done|]. rewrite Hother; [done|by apply D_allocated|done|]. by eapply not_scratch_done.
    + constructor; try done. by rewrite Hother.
    + constructor; try done; [by left|]. revert Hv. unfold source_value. destruct (IsConstant src'); [done|]. by rewrite Hother.
    + constructor; try done; [by right|]. revert Hv. unfold source_value. by rewrite (constant_valid _ _ Hc).
  - intros l Hl Hf. rewrite Hother; [by apply (inv_frame _ _ _ HI)|done|by apply Hf|]. by eapply not_scratch_frame.
  - done.
Qed.

Lemma swapped_spec a b l : swapped a b l = l /\ l <> a /\ l <> b \/ l = a /\ swapped a b l = b \/ l <> a /\ l = b /\ swapped a b l = a.
Proof. unfold swapped. repeat case_decide; subst; tauto. Qed.

(** The source of a move that is swapped is the destination of the move that waits for it. *)
Lemma EmitSwap_ok st h rest i :
  let ms := moves_ st in let stk := h :: rest in let src := D h in
  inv stk ms (run s0 (code_ st)) -> i ∉ stk -> ms !! i = Some (mkMove (D i) src) ->
  (forall m, m ∈ ms -> src_ m = D i -> dest_ m = NoLocation) ->
  exists st', EmitSwap st i = Ok st' /\ inv stk (moves_ st') (run s0 (code_ st')) /\
    moves_rel stk ms (moves_ st') /\ moves_ st' !! i = Some Eliminate.
Proof using D_allocated D_distinct.
  intros ms stk src HI Hstk Hi Hpend.
  assert (h < n)%nat as Hh by (apply (inv_stack _ _ _ HI); left). pose proof (D_allocated h Hh : allocated src) as Hsrc. pose proof (inv_index _ _ _ HI _ _ Hi) as Hn.
  pose proof (inv_move _ _ _ HI _ _ Hi) as Hst. inversion Hst as [? ? Heq|? ? ? ? ? Heq|? ? Hne Hok Hval].
  1,2: by destruct (allocated_no (D i)); [apply D_allocated|].
  pose proof (D_allocated i Hn) as Hdi. destruct (allocated_valid _ Hsrc) as [Hsno Hsc]. destruct (allocated_valid _ Hdi) as [Hdno Hdc].
  assert (value_kind src = value_kind (D i)) as Hkind.
  { destruct Hok as [[_ ?]|Hc]; [done|]. by rewrite (constant_valid _ _ Hc) in Hsc. }
  destruct (swap_code_ok ms (run s0 (code_ st)) src (D i)) as (ops & E1 & Hs' & Hd & Hs & Hother); try done.
  { apply (inv_state _ _ _ HI). } { eapply inv_wf; eassumption. }
  fold (run (run s0 (code_ st)) ops) in Hs', Hd, Hs, Hother. set (s' := run (run s0 (code_ st)) ops) in *.
  assert (Forall operands_wf (<[i := Eliminate]> ms)) as Hwf.
  { apply Forall_insert; [eapply inv_wf; eassumption|done]. }
  unfold EmitSwap. fold ms. rewrite (move_at_ok _ _ _ Hi). cbn [mbind result_bind]. simpl. rewrite E1. cbn [mbind result_bind].
  rewrite retarget_ok by done. cbn [mbind result_bind]. eexists. split; [done|]. simpl. rewrite run_app. fold s'.
  assert (forall l, swapped src (D i) l = NoLocation <-> l = NoLocation) as Hswno.
  { intros l. destruct (swapped_spec src (D i) l) as [(-> & _)|[[-> ->]|(_ & -> & ->)]]; done. }
  assert (forall l, IsConstant (swapped src (D i) l) = IsConstant l) as Hswc.
  { intros l. destruct (swapped_spec src (D i) l) as [(-> & _)|[[-> ->]|(_ & -> & ->)]]; congruence. }
  assert (forall l, allocated l -> ~ scratch ms l ->
    allocated (swapped src (D i) l) /\ value_kind (swapped src (D i) l) = value_kind l /\
    read s' (swapped src (D i) l) = read (run s0 (code_ st)) l) as Hread.
  { intros l Hl Hsl. destruct (swapped_spec src (D i) l) as [(-> & ? & ?)|[[-> ->]|(_ & -> & ->)]]; auto. }
  assert (forall c, IsConstant c = true -> swapped src (D i) c = c) as Hconst.
  { intros c Hc. destruct (swapped_spec src (D i) c) as [(-> & _)|[[-> _]|(_ & -> & _)]]; congruence. }
  split; [split|split].
  - rewrite length_fmap, length_insert. apply (inv_length _ _ _ HI).
  - apply (inv_stack _ _ _ HI).
  - apply (inv_nodup _ _ _ HI).
  - intros k x y Hx Hy. assert (x ∈ stk) as Hxs by (by eapply list_elem_of_lookup_2). assert (y ∈ stk) as Hys by (by eapply list_elem_of_lookup_2).
    rewrite list_lookup_fmap, list_lookup_insert_ne by congruence. rewrite (inv_chain _ _ _ HI k x y) by done. simpl. do 2 f_equal.
    destruct (swapped_spec src (D i) (D y)) as [(? & _)|[[Heq _]|(_ & Heq & _)]]; [done|exfalso..].
    + apply D_distinct in Heq as ->; [|by apply (inv_stack _ _ _ HI)|done].
      pose proof (NoDup_lookup _ _ _ _ (inv_nodup _ _ _ HI) Hy (eq_refl : stk !! 0%nat = Some h)). lia.
    + apply D_distinct in Heq as ->; [done|by apply (inv_stack _ _ _ HI)|done].
  - intros j m Hj. rewrite list_lookup_fmap in Hj. destruct (decide (j = i)) as [->|Hne'].
    { rewrite list_lookup_insert_eq in Hj by (rewrite (inv_length _ _ _ HI); done). simpl in Hj. injection Hj as <-.
      rewrite (proj2 (Hswno NoLocation) eq_refl). apply move_eliminated; [done|]. rewrite Hd. unfold source_value in Hval. by rewrite Hsc in Hval. }
    rewrite list_lookup_insert_ne in Hj by done. destruct (ms !! j) as [m0|] eqn:Hj0; [|done]. simpl in Hj. injection Hj as <-.
    pose proof (inv_index _ _ _ HI _ _ Hj0) as Hjn.
    assert (D j <> D i) as HD by (intros ?; by apply Hne', D_distinct).
    pose proof (not_scratch_source _ _ _ Hj0) as Hns.
    pose proof (inv_move _ _ _ HI _ _ Hj0) as Hj'. destruct Hj' as [Hjs Hv|src' ? ? ? Hv|src' ? Hsd [[Ha Hk]|Hc] Hv]; simpl in *.
    + rewrite (proj2 (Hswno NoLocation) eq_refl). apply move_eliminated; [done|].
      rewrite Hother; [done|by apply D_allocated|done| |by eapply not_scratch_done].
      intros ->%D_distinct; [|done..]. apply Hjs. left.
    + destruct (Hread src') as (? & ? & ?); [done|done|]. constructor; congruence.
    + destruct (Hread src') as (? & ? & ?); [done|done|]. constructor; [done| | |].
      * destruct (swapped_spec src (D i) src') as [(-> & ?)|[[-> ->]|(_ & -> & _)]]; [done|by intros ?; apply HD|].
        exfalso. apply (allocated_no (D j)); [by apply D_allocated|]. apply (Hpend (mkMove (D j) (D i))); [by eapply list_elem_of_lookup_2|done].
      * left. split; congruence.
      * revert Hv. unfold source_value. rewrite Hswc, (proj2 (allocated_valid _ Ha)). congruence.
    + rewrite Hconst by (by eapply constant_valid). constructor; [done|done|by right|]. revert Hv. unfold source_value. by rewrite (constant_valid _ _ Hc).
  - intros l Hl Hf. rewrite Hother; [by apply (inv_frame _ _ _ HI)|done|by apply Hf|by apply Hf|]. by eapply not_scratch_frame.
  - done.
  - intros j m Hj. rewrite list_lookup_fmap. destruct (decide (j = i)) as [->|Hne'].
    { rewrite list_lookup_insert_eq by (rewrite (inv_length _ _ _ HI); done). simpl. rewrite (proj2 (Hswno NoLocation) eq_refl).
      eexists. split; [done|]. rewrite Hi in Hj. injection Hj as <-. split; [done|]. split; [done|]. by left. }
    rewrite list_lookup_insert_ne, Hj by done. simpl. eexists. split; [done|]. split; [|split]; simpl.
    + intros Hno. rewrite (proj2 (Hswno _) Hno). destruct m; simpl in *; congruence.
    + done.
    + intros Hdm. right. split; [done|]. split; [by rewrite Hswc|].
      destruct (swapped_spec src (D i) (src_ m)) as [(-> & ?)|[[_ ->]|(_ & Heq & _)]]; [by left| |].
      * right. intros p Hp Heq. apply D_distinct in Heq as ->; [done|done|by apply (inv_stack _ _ _ HI)].
      * exfalso. apply Hdm, Hpend; [by eapply list_elem_of_lookup_2|done].
  - rewrite list_lookup_fmap, list_lookup_insert_eq by (rewrite (inv_length _ _ _ HI); done). simpl. by rewrite (proj2 (Hswno NoLocation) eq_refl).
Qed.

(** *** Performing a move *)

Definition is_active (ms : list MoveOperands) (i : nat) : bool :=
  match ms !! i with Some m => negb (IsInvalid (dest_ m)) | None => false end.

(** The moves that are neither eliminated nor pending bound the depth of the recursion. *)
Definition active (ms : list MoveOperands) : gset nat :=
  list_to_set (filter (fun i => is_active ms i = true) (seq 0 (length ms))).

Lemma elem_of_active ms i : i ∈ active ms <-> exists m, ms !! i = Some m /\ dest_ m <> NoLocation.
Proof.
  unfold active. rewrite elem_of_list_to_set, list_elem_of_filter, elem_of_seq. unfold is_active. split.
  - intros [H _]. destruct (ms !! i) as [m|]; [|done]. exists m. split; [done|]. by apply IsInvalid_false, negb_true_iff.
  - intros (m & Hm & Hd). rewrite Hm. split; [by apply negb_true_iff, IsInvalid_false|]. apply lookup_lt_Some in Hm. lia.
Qed.

Lemma active_rel stk ms ms' : length ms = length ms' -> moves_rel stk ms ms' -> (size (active ms') <= size (active ms))%nat.
Proof.
  intros Hlen Hrel. apply subseteq_size. intros i. rewrite !elem_of_active. intros (m' & Hm' & Hd').
  destruct (lookup_lt_is_Some_2 ms i) as [m Hm]; [rewrite Hlen; by eapply lookup_lt_Some|].
  destruct (Hrel i m Hm) as (m'' & Hm'' & _ & Hno & _). rewrite Hm' in Hm''. injection Hm'' as <-.
  exists m. split; [done|]. intros Hd. by apply Hd', Hno.
Qed.

Lemma active_insert ms i m m0 :
  ms !! i = Some m0 -> dest_ m0 <> NoLocation -> dest_ m = NoLocation ->
  size (active ms) = S (size (active (<[i := m]> ms))).
Proof.
  intros Hi Hd Hm. pose proof (lookup_lt_Some _ _ _ Hi) as Hlt.
  assert (active ms = {[i]} ∪ active (<[i := m]> ms)) as ->.
  { apply set_eq. intros j. rewrite elem_of_union, elem_of_singleton, !elem_of_active. destruct (decide (j = i)) as [->|Hne].
    - rewrite list_lookup_insert_eq by done. naive_solver.
    - rewrite list_lookup_insert_ne by done. naive_solver. }
  rewrite size_union, size_singleton; [done|]. intros j ->%elem_of_singleton Hj%elem_of_active.
  rewrite list_lookup_insert_eq in Hj by done. naive_solver.
Qed.

(** Marking an active move pending, and making it active again. *)
Lemma inv_mark stk ms s i src :
  inv stk ms s -> i ∉ stk -> ms !! i = Some (mkMove (D i) src) -> allocated src ->
  (forall h, head stk = Some h -> src = D h) -> inv (i :: stk) (<[i := mkMove NoLocation src]> ms) s.
Proof using D_allocated.
  intros HI Hstk Hi Hsrc Hhead. pose proof (inv_index _ _ _ HI _ _ Hi) as Hn. pose proof (inv_length _ _ _ HI) as Hlen. split.
  - by rewrite length_insert.
  - intros j [->|Hj]%elem_of_cons; [done|]. by apply (inv_stack _ _ _ HI).
  - constructor; [done|]. apply (inv_nodup _ _ _ HI).
  - intros [|k] x y Hx Hy; simpl in *.
    + injection Hx as <-. rewrite list_lookup_insert_eq by lia. rewrite (Hhead y); [done|]. by destruct stk.
    + rewrite list_lookup_insert_ne by (intros <-; by apply Hstk; eapply list_elem_of_lookup_2). by apply (inv_chain _ _ _ HI k).
  - intros j m Hj. destruct (decide (j = i)) as [->|Hne].
    + rewrite list_lookup_insert_eq in Hj by lia. injection Hj as <-.
      pose proof (inv_move _ _ _ HI _ _ Hi) as Hst. inversion Hst as [? ? Heq|? ? ? ? ? Heq|? ? ? Hok Hval].
      1,2: by destruct (allocated_no (D i)); [apply D_allocated|].
      destruct (allocated_valid _ Hsrc) as [_ Hc]. unfold source_value in Hval. rewrite Hc in Hval.
      constructor; [by left|done| |done]. destruct Hok as [[_ ?]|Hcon]; [done|]. by rewrite (constant_valid _ _ Hcon) in Hc.
    + rewrite list_lookup_insert_ne in Hj by done. destruct (inv_move _ _ _ HI _ _ Hj); constructor; try done; (by right) || (by intros [?|?]%elem_of_cons).
  - apply (inv_frame _ _ _ HI).
  - apply (inv_state _ _ _ HI).
Qed.

Lemma inv_unmark stk ms s i src m :
  inv (i :: stk) ms s -> ms !! i = Some (mkMove NoLocation src) -> move_state stk s i m -> inv stk (<[i := m]> ms) s.
Proof using.
  intros HI Hi Hm. pose proof (inv_index _ _ _ HI _ _ Hi) as Hn. pose proof (inv_length _ _ _ HI) as Hlen.
  pose proof (inv_nodup _ _ _ HI) as [Hstk Hnd]%NoDup_cons. split.
  - by rewrite length_insert.
  - intros j Hj. apply (inv_stack _ _ _ HI). by right.
  - done.
  - intros k x y Hx Hy. rewrite list_lookup_insert_ne by (intros <-; by apply Hstk; eapply list_elem_of_lookup_2).
    by apply (inv_chain _ _ _ HI (S k)).
  - intros j m' Hj. destruct (decide (j = i)) as [->|Hne].
    + rewrite list_lookup_insert_eq in Hj by lia. by injection Hj as <-.
    + rewrite list_lookup_insert_ne in Hj by done. destruct (inv_move _ _ _ HI _ _ Hj) as [Hj'|? Hj'|? Hj'].
      * constructor; [|done]. intros ?. by apply Hj'; right.
      * apply elem_of_cons in Hj' as [->|Hj']; [done|]. by constructor.
      * constructor; try done. intros ?. by apply Hj'; right.
  - apply (inv_frame _ _ _ HI).
  - apply (inv_state _ _ _ HI).
Qed.

Lemma inv_pending stk ms s i : inv stk ms s -> i ∈ stk ->
  exists src, ms !! i = Some (mkMove NoLocation src) /\ allocated src /\ value_kind src = value_kind (D i) /\ read s src = V i.
Proof using D_allocated.
  intros HI Hi. pose proof (inv_stack _ _ _ HI i Hi) as Hn.
  destruct (lookup_lt_is_Some_2 ms i) as [m Hm]; [by rewrite (inv_length _ _ _ HI)|].
  destruct (inv_move _ _ _ HI _ _ Hm) as [?|src ? ? ?|?]; [done| |done]. by exists src.
Qed.

(** What [PerformMove] does, as the induction hypothesis of its first loop needs it. *)
Definition performs (perform : Resolver -> nat -> M Resolver) (bound : nat) : Prop :=
  forall st stk i src,
    inv stk (moves_ st) (run s0 (code_ st)) -> i ∉ stk -> moves_ st !! i = Some (mkMove (D i) src) -> allocated src ->
    (forall h, head stk = Some h -> src = D h) -> (size (active (moves_ st)) <= bound)%nat ->
    exists st', perform st i = Ok st' /\ inv stk (moves_ st') (run s0 (code_ st')) /\
      moves_rel stk (moves_ st) (moves_ st') /\ moves_ st' !! i = Some Eliminate.

Lemma perform_blocking_ok perform bound i stk : performs perform bound -> forall indices st,
  inv (i :: stk) (moves_ st) (run s0 (code_ st)) -> (size (active (moves_ st)) <= bound)%nat ->
  Forall (fun k => k < n)%nat indices ->
  (forall j m, moves_ st !! j = Some m -> dest_ m <> NoLocation -> src_ m = D i -> j ∈ indices) ->
  exists st', perform_blocking perform (D i) indices st = Ok st' /\ inv (i :: stk) (moves_ st') (run s0 (code_ st')) /\
    moves_rel (i :: stk) (moves_ st) (moves_ st') /\
    forall j m, moves_ st' !! j = Some m -> dest_ m <> NoLocation -> src_ m <> D i.
Proof using D_allocated.
  intros Hperf indices. induction indices as [|k indices IH]; intros st HI Hsz Hidx Hin; simpl.
  { exists st. split; [done|]. split; [done|]. split; [apply moves_rel_refl|]. intros j m Hm Hd Hs. by apply (not_elem_of_nil j), (Hin j m). }
  inversion Hidx as [|? ? Hk Hidx']; subst.
  assert (i < n)%nat as Hn by (apply (inv_stack _ _ _ HI); left). pose proof (allocated_no _ (D_allocated i Hn)) as Hdi.
  destruct (lookup_lt_is_Some_2 (moves_ st) k) as [mk Hmk]; [by rewrite (inv_length _ _ _ HI)|].
  assert (operands_wf mk) as Hwf by (pose proof (inv_wf _ _ _ HI) as HF; rewrite Forall_lookup in HF; by eapply HF).
  rewrite (move_at_ok _ _ _ Hmk). cbn [mbind result_bind]. rewrite Blocks_src by done. cbn [mbind result_bind].
  assert ((dest_ mk <> NoLocation -> src_ mk <> D i) -> exists st', perform_blocking perform (D i) indices st = Ok st' /\
    inv (i :: stk) (moves_ st') (run s0 (code_ st')) /\ moves_rel (i :: stk) (moves_ st) (moves_ st') /\
    forall j m, moves_ st' !! j = Some m -> dest_ m <> NoLocation -> src_ m <> D i) as Hskip.
  { intros Hno. apply IH; try done. intros j m Hm Hd Hs. pose proof (Hin j m Hm Hd Hs) as [->|?]%elem_of_cons; [|done].
    rewrite Hmk in Hm. injection Hm as <-. by destruct (Hno Hd). }
  destruct (Equals (src_ mk) (D i)) eqn:Eb; cbn [andb].
  2:{ cbn [mbind result_bind]. apply Hskip. intros _. by apply Equals_false. }
  apply Z.eqb_eq in Eb. rewrite IsPending_ok by done. rewrite Eb, (proj2 (IsInvalid_false (D i))) by done. cbn [mbind result_bind negb].
  rewrite andb_true_r. destruct (IsInvalid (dest_ mk)) eqn:Ed; cbn [negb mbind result_bind].
  { apply Hskip. intros Hd. by apply IsInvalid_spec in Ed. }
  apply IsInvalid_false in Ed.
  pose proof (inv_move _ _ _ HI _ _ Hmk) as Hst. destruct Hst as [?|? ?|src Hks Hne Hok Hv]; [done..|]. simpl in Eb. subst src.
  destruct (Hperf st (i :: stk) k (D i)) as (st1 & -> & HI1 & Hrel1 & He1); try done.
  { by apply D_allocated. } { by intros h [= <-]. }
  cbn [mbind result_bind]. destruct (IH st1) as (st2 & E2 & HI2 & Hrel2 & Hno2); try done.
  - pose proof (active_rel _ _ _ (eq_trans (inv_length _ _ _ HI) (eq_sym (inv_length _ _ _ HI1))) Hrel1). lia.
  - intros j m1 Hm1 Hd1 Hs1. destruct (lookup_lt_is_Some_2 (moves_ st) j) as [m Hm].
    { rewrite (inv_length _ _ _ HI). by eapply inv_index. }
    destruct (Hrel1 j m Hm) as (m1' & Hm1' & _ & Hnod & Hact). rewrite Hm1 in Hm1'. injection Hm1' as <-.
    destruct Hact as [->|(Hd' & _ & [Hs'|Hs'])]; [by intros ?; apply Hd1, Hnod|done| |by destruct (Hs' i); [left|]].
    pose proof (Hin j m Hm ltac:(congruence) ltac:(congruence)) as [->|?]%elem_of_cons; [|done]. rewrite He1 in Hm1. by injection Hm1 as <-.
  - exists st2. split; [done|]. split; [done|]. split; [by eapply moves_rel_trans|done].
Qed.

(** Rejoining the relation after move [i], pending during the loop, is eliminated. *)
Lemma moves_rel_perform stk ms ms2 ms3 i src pending :
  ms !! i = Some (mkMove (D i) src) -> moves_rel (i :: stk) (<[i := pending]> ms) ms2 ->
  (forall j m, j <> i -> ms2 !! j = Some m -> exists m', ms3 !! j = Some m' /\ move_rel stk m m') ->
  src <> NoLocation -> ms3 !! i = Some Eliminate -> moves_rel stk ms ms3.
Proof using.
  intros Hi Hrel Hrel' Hsrc He j m Hm. destruct (decide (j = i)) as [->|Hne].
  - rewrite Hi in Hm. injection Hm as <-. exists Eliminate. split; [done|]. split; [done|]. split; [done|]. by left.
  - destruct (Hrel j m) as (m2 & Hm2 & R2); [by rewrite list_lookup_insert_ne|].
    destruct (Hrel' j m2 Hne Hm2) as (m3 & Hm3 & R3). exists m3. split; [done|].
    eapply move_rel_trans; [by eapply move_rel_weaken|done].
Qed.

Lemma PerformMove_ok fuel : performs (PerformMove fuel) fuel.
Proof using D_allocated D_distinct.
  induction fuel as [|fuel IH]; intros st stk i src HI Hstk Hi Hsrc Hhead Hsz.
  all: pose proof (inv_index _ _ _ HI _ _ Hi) as Hn; pose proof (allocated_no _ (D_allocated i Hn)) as Hdi.
  all: pose proof (active_insert (moves_ st) i (mkMove NoLocation src) _ Hi Hdi eq_refl) as Hact.
  { lia. }
  pose proof (allocated_no _ Hsrc) as Hsno.
  assert (src <> D i) as Hne.
  { pose proof (inv_move _ _ _ HI _ _ Hi) as Hst. inversion Hst as [? ? Heq|? ? ? ? ? Heq|]; [by destruct Hdi..|done]. }
  assert (operands_wf (mkMove (D i) src)) as Hwf by (pose proof (inv_wf _ _ _ HI) as HF; rewrite Forall_lookup in HF; by eapply HF).
  cbn [PerformMove]. rewrite (move_at_ok _ _ _ Hi). cbn [mbind result_bind].
  unfold MarkPending. rewrite IsPending_ok by done. unfold IsRedundant. rewrite IsEliminated_ok by done. cbn [mbind result_bind dest_ src_].
  rewrite (proj2 (IsInvalid_false (D i))), (proj2 (IsInvalid_false src)), (proj2 (Equals_false src (D i))) by done.
  cbn [andb orb negb assert_ mbind result_bind].
  set (st1 := set_move st i (mkMove NoLocation src)).
  assert (inv (i :: stk) (moves_ st1) (run s0 (code_ st1))) as HI1 by (by apply inv_mark).
  destruct (perform_blocking_ok (PerformMove fuel) fuel i stk IH (seq 0 (length (moves_ st))) st1) as (st2 & -> & HI2 & Hrel2 & Hfree); try done.
  { simpl. lia. }
  { apply Forall_forall. intros k Hk%elem_of_seq. rewrite (inv_length _ _ _ HI) in Hk. lia. }
  { intros j m Hm _ _. apply elem_of_seq. rewrite (inv_length _ _ _ HI). pose proof (inv_index _ _ _ HI1 _ _ Hm). lia. }
  cbn [mbind result_bind]. destruct (inv_pending _ _ _ i HI2) as (src2 & Hi2 & Ha2 & Hk2 & Hv2); [left|].
  pose proof (allocated_valid _ Ha2) as [Hsno2 Hsc2]. pose proof (inv_length _ _ _ HI2) as Hlen2.
  rewrite (move_at_ok _ _ _ Hi2). cbn [mbind result_bind]. unfold ClearPending.
  rewrite IsPending_ok by (unfold operands_wf, operands_ok; simpl; apply orb_true_r). cbn [dest_ src_].
  rewrite (proj2 (IsInvalid_false src2)) by done. cbn [IsInvalid NoLocation Z.eqb kInvalidLocation andb negb assert_ mbind result_bind src_].
  assert (forall m, move_state stk (run s0 (code_ st2)) i m -> inv stk (<[i := m]> (moves_ st2)) (run s0 (code_ st2))) as Hunmark
    by (intros m; by eapply inv_unmark).
  destruct (Equals src2 (D i)) eqn:Eq.
  { apply Z.eqb_eq in Eq. subst src2. eexists. split; [done|]. simpl. rewrite list_insert_insert_eq. split; [apply Hunmark; by constructor|].
    assert (<[i := Eliminate]> (moves_ st2) !! i = Some Eliminate) as He by (apply list_lookup_insert_eq; lia). split; [|done].
    apply (moves_rel_perform stk _ (moves_ st2) _ i src (mkMove NoLocation src) Hi Hrel2); [|done|done]. intros j m Hji Hm. rewrite list_lookup_insert_ne by done. eauto using move_rel_refl. }
  apply Equals_false in Eq. set (st3 := set_move st2 i (mkMove (D i) src2)).
  assert (inv stk (moves_ st3) (run s0 (code_ st3))) as HI3.
  { apply Hunmark. constructor; [done|done|by left|]. unfold source_value. by rewrite Hsc2. }
  assert (moves_ st3 !! i = Some (mkMove (D i) src2)) as Hi3 by (apply list_lookup_insert_eq; lia).
  assert (forall m, m ∈ moves_ st3 -> src_ m = D i -> dest_ m = NoLocation) as Hpend.
  { intros m [j Hj]%list_elem_of_lookup Hs. destruct (decide (j = i)) as [->|Hji]; [rewrite Hi3 in Hj; injection Hj as <-; by destruct Eq|].
    unfold st3 in Hj. simpl in Hj. rewrite list_lookup_insert_ne in Hj by done. destruct (decide (dest_ m = NoLocation)); [done|].
    by destruct (Hfree j m). }
  destruct (blocked_ok (moves_ st3) (D i)) as (b & -> & Ht & Hf); [by eapply inv_wf|done|done|]. cbn [mbind result_bind].
  destruct b.
  - destruct (Ht eq_refl) as (m & [j Hj]%list_elem_of_lookup & Hs).
    assert (dest_ m = NoLocation) as Hd by (apply Hpend; [by eapply list_elem_of_lookup_2|done]).
    assert (j ∈ stk) as Hjs.
    { destruct (inv_move _ _ _ HI3 _ _ Hj); simpl in *; [by destruct Hdi|done|]. by destruct (allocated_no (D j)); [apply D_allocated; by eapply inv_index|]. }
    destruct stk as [|h rest]; [by apply not_elem_of_nil in Hjs|].
    assert (src2 = D h) as ->.
    { pose proof (inv_chain _ _ _ HI2 0 i h eq_refl eq_refl) as Hc. rewrite Hi2 in Hc. by injection Hc. }
    destruct (EmitSwap_ok st3 h rest i) as (st4 & -> & HI4 & Hrel4 & He4); try done.
    exists st4. split; [done|]. split; [done|]. split; [|done]. apply (moves_rel_perform (h :: rest) _ (moves_ st2) _ i src (mkMove NoLocation src) Hi Hrel2); [|done|done].
    intros k mk Hki Hmk. apply Hrel4. simpl. by rewrite list_lookup_insert_ne.
  - destruct (EmitMove_ok st3 stk i src2) as (st4 & -> & HI4 & Hms4); try done. { by apply Hf. }
    exists st4. split; [done|]. split; [done|].
    assert (moves_ st4 !! i = Some Eliminate) as He by (rewrite Hms4; apply list_lookup_insert_eq; rewrite (inv_length _ _ _ HI3); lia).
    split; [|done]. apply (moves_rel_perform stk _ (moves_ st2) _ i src (mkMove NoLocation src) Hi Hrel2); [|done|done]. intros k mk Hki Hmk. rewrite Hms4. simpl.
    rewrite !list_lookup_insert_ne by done. eauto using move_rel_refl.
Qed.

(** *** The two loops of [EmitNativeCode] *)

Lemma perform_moves_ok : forall indices st,
  inv [] (moves_ st) (run s0 (code_ st)) -> Forall (fun k => k < n)%nat indices ->
  (forall j m, moves_ st !! j = Some m -> dest_ m <> NoLocation -> IsConstant (src_ m) = false -> j ∈ indices) ->
  exists st', perform_moves indices st = Ok st' /\ inv [] (moves_ st') (run s0 (code_ st')) /\
    forall j m, moves_ st' !! j = Some m -> dest_ m <> NoLocation -> IsConstant (src_ m) = true.
Proof using D_allocated D_distinct.
  induction indices as [|k indices IH]; intros st HI Hidx Hin; cbn [perform_moves].
  { exists st. split; [done|]. split; [done|]. intros j m Hm Hd. apply not_false_is_true. intros Hc.
    by apply (not_elem_of_nil j), (Hin j m). }
  inversion Hidx as [|? ? Hk Hidx']; subst.
  destruct (lookup_lt_is_Some_2 (moves_ st) k) as [mk Hmk]; [by rewrite (inv_length _ _ _ HI)|].
  assert (operands_wf mk) as Hwf by (pose proof (inv_wf _ _ _ HI) as HF; rewrite Forall_lookup in HF; by eapply HF).
  rewrite (move_at_ok _ _ _ Hmk). cbn [mbind result_bind]. rewrite IsEliminated_ok by done. cbn [mbind result_bind].
  destruct (negb (IsInvalid (src_ mk)) && negb (IsConstant (src_ mk))) eqn:Eb.
  - rewrite andb_true_iff, !negb_true_iff in Eb. destruct Eb as [Hs Hc].
    destruct (inv_move _ _ _ HI _ _ Hmk) as [|? Hst|src ? ? Hok]; [done|by apply not_elem_of_nil in Hst|]. cbn [src_ dest_] in *.
    destruct Hok as [[Ha _]|Hcon]; [|by rewrite (constant_valid _ _ Hcon) in Hc].
    destruct (PerformMove_ok (S (length (moves_ st))) st [] k src) as (st1 & -> & HI1 & Hrel & He); try done.
    { unfold active. rewrite size_list_to_set by (apply NoDup_filter, NoDup_seq). etransitivity; [apply length_filter|]. rewrite length_seq. lia. }
    cbn [mbind result_bind]. apply IH; try done. intros j m1 Hm1 Hd1 Hc1.
    destruct (lookup_lt_is_Some_2 (moves_ st) j) as [m Hm]; [rewrite (inv_length _ _ _ HI); by eapply inv_index|].
    destruct (Hrel j m Hm) as (m1' & Hm1' & _ & Hno & Hact). rewrite Hm1 in Hm1'. injection Hm1' as <-.
    destruct Hact as [->|(Hd' & Hc' & _)]; [by intros ?; apply Hd1, Hno|done|].
    pose proof (Hin j m Hm ltac:(congruence) ltac:(congruence)) as [->|?]%elem_of_cons; [|done]. rewrite He in Hm1. by injection Hm1 as <-.
  - cbn [mbind result_bind]. apply IH; try done. intros j m Hm Hd Hc. pose proof (Hin j m Hm Hd Hc) as [->|?]%elem_of_cons; [|done].
    rewrite Hmk in Hm. injection Hm as <-. rewrite Hc in Eb. rewrite andb_true_r in Eb. apply negb_false_iff, IsInvalid_spec in Eb.
    destruct (inv_move _ _ _ HI _ _ Hmk) as [|? ?|src ? ? Hok]; [done..|]. by destruct (source_ok_no _ _ Hok).
Qed.

Lemma perform_constants_ok : forall indices st,
  inv [] (moves_ st) (run s0 (code_ st)) -> Forall (fun k => k < n)%nat indices ->
  (forall j m, moves_ st !! j = Some m -> dest_ m <> NoLocation -> IsConstant (src_ m) = true) ->
  (forall j m, moves_ st !! j = Some m -> dest_ m <> NoLocation -> j ∈ indices) ->
  exists st', perform_constants indices st = Ok st' /\ inv [] (moves_ st') (run s0 (code_ st')) /\
    forall j m, moves_ st' !! j = Some m -> m = Eliminate.
Proof using D_allocated D_distinct.
  induction indices as [|k indices IH]; intros st HI Hidx Hconst Hin; simpl.
  { exists st. split; [done|]. split; [done|]. intros j m Hm. destruct (inv_move _ _ _ HI _ _ Hm) as [|? Hst|src ? ? ? ?]; [done|by apply not_elem_of_nil in Hst|].
    exfalso. apply (not_elem_of_nil j), (Hin j _ Hm). by apply allocated_no, D_allocated; eapply inv_index. }
  inversion Hidx as [|? ? Hk Hidx']; subst.
  destruct (lookup_lt_is_Some_2 (moves_ st) k) as [mk Hmk]; [by rewrite (inv_length _ _ _ HI)|].
  assert (operands_wf mk) as Hwf by (pose proof (inv_wf _ _ _ HI) as HF; rewrite Forall_lookup in HF; by eapply HF).
  rewrite (move_at_ok _ _ _ Hmk). cbn [mbind result_bind]. rewrite IsEliminated_ok by done. cbn [mbind result_bind].
  destruct (inv_move _ _ _ HI _ _ Hmk) as [? ?|? Hst|src ? ? Hok ?]; [|by apply not_elem_of_nil in Hst|]; cbn [src_ dest_].
  - cbn [mbind result_bind]. apply IH; try done. intros j m Hm Hd. pose proof (Hin j m Hm Hd) as [->|?]%elem_of_cons; [|done].
    rewrite Hmk in Hm. by injection Hm as <-.
  - pose proof (allocated_no _ (D_allocated k Hk)) as Hdk. pose proof (Hconst k _ Hmk Hdk) as Hc. simpl in Hc.
    rewrite (proj2 (IsInvalid_false src)) by (by eapply source_ok_no). cbn [negb src_]. rewrite Hc. cbn [assert_ mbind result_bind].
    destruct (EmitMove_ok st [] k src) as (st1 & -> & HI1 & Hms1); try done.
    { intros m [j Hj]%list_elem_of_lookup Hs.
      assert (IsConstant (D k) = false) as Hdc by (by apply allocated_valid, D_allocated).
      destruct (inv_move _ _ _ HI _ _ Hj) as [|? Hst|src' ? ? ?]; simpl in Hs; [by destruct Hdk|by apply not_elem_of_nil in Hst|].
      assert (D j <> NoLocation) as Hdj by (by apply allocated_no, D_allocated; eapply inv_index).
      pose proof (Hconst j _ Hj Hdj) as Hcj. simpl in Hcj. congruence. }
    cbn [mbind result_bind].
    assert (forall j m, moves_ st1 !! j = Some m -> dest_ m <> NoLocation -> j <> k /\ moves_ st !! j = Some m) as Hback.
    { intros j m Hm Hd. rewrite Hms1 in Hm. destruct (decide (j = k)) as [->|Hne].
      - rewrite list_lookup_insert_eq in Hm by (by rewrite (inv_length _ _ _ HI)). by injection Hm as <-.
      - by rewrite list_lookup_insert_ne in Hm. }
    apply IH; try done.
    + intros j m Hm Hd. destruct (Hback j m Hm Hd). by eapply Hconst.
    + intros j m Hm Hd. destruct (Hback j m Hm Hd) as [Hjk Hj]. pose proof (Hin j m Hj Hd) as [->|?]%elem_of_cons; done.
Qed.
End resolution.

(** ** The whole parallel move *)

Section parallel.
Context {E : Emitter} {EO : EmitterOk E}.

(** A well-formed parallel move: destinations are distinct, sources hold values of the
    kind of their destination; a move may also be eliminated or have no destination. *)
Definition move_ok (m : MoveOperands) : Prop :=
  (dest_ m = NoLocation) \/ (allocated (dest_ m) /\ source_ok (dest_ m) (src_ m)).

Definition destinations (ms : list MoveOperands) : list Location :=
  dest_ <$> filter (fun m => dest_ m <> NoLocation) ms.

Definition needed (m : MoveOperands) : Prop := dest_ m <> NoLocation /\ src_ m <> dest_ m.
#[local] Instance needed_dec m : Decision (needed m).
Proof. unfold needed. apply _. Defined.

Lemma move_ok_wf m : move_ok m -> operands_wf m.
Proof.
  unfold operands_wf, operands_ok. intros [->|[_ Hs]]; [apply orb_true_r|].
  by rewrite (proj2 (IsInvalid_false (src_ m)) (source_ok_no _ _ Hs)).
Qed.

Lemma BuildInitialMoveList_ok ms : Forall move_ok ms -> BuildInitialMoveList ms = Ok (filter needed ms).
Proof.
  induction 1 as [|m ms Hm Hms IH]; simpl; [done|].
  unfold IsRedundant. rewrite IsEliminated_ok by (by apply move_ok_wf). cbn [mbind result_bind]. rewrite IH. cbn [mbind result_bind].
  assert (IsInvalid (src_ m) || IsInvalid (dest_ m) || Equals (src_ m) (dest_ m) = negb (bool_decide (needed m))) as ->.
  { apply bool_eqb_iff. rewrite !orb_true_iff, !IsInvalid_spec, negb_true_iff, bool_decide_eq_false. unfold Equals, needed. rewrite Z.eqb_eq.
    destruct Hm as [Hd|[_ Hs%source_ok_no]]; [tauto|]. destruct (decide (dest_ m = NoLocation)); [tauto|].
    destruct (decide (src_ m = dest_ m)); tauto. }
  rewrite filter_cons. by case_bool_decide; rewrite ?decide_True, ?decide_False by done.
Qed.

Lemma NoDup_fmap_filter {A B} (f : A -> B) (P Q : A -> Prop) `{forall x, Decision (P x), forall x, Decision (Q x)} l :
  (forall x, Q x -> P x) -> NoDup (f <$> filter P l) -> NoDup (f <$> filter Q l).
Proof.
  intros HQP. induction l as [|x l IH]; [done|]. rewrite !filter_cons. intros Hnd. destruct (decide (Q x)) as [HQ|HQ].
  - rewrite decide_True in Hnd by auto. rewrite fmap_cons in *. apply NoDup_cons in Hnd as [Hx Hnd]. constructor; [|by apply IH].
    intros (y & Hy & Hin)%list_elem_of_fmap. apply Hx, list_elem_of_fmap. exists y. rewrite list_elem_of_filter in *. intuition auto.
  - apply IH. destruct (decide (P x)); [|done]. rewrite fmap_cons in Hnd. by apply NoDup_cons in Hnd as [_ ?].
Qed.

Lemma destinations_inj ms m m' :
  NoDup (destinations ms) -> m ∈ ms -> m' ∈ ms -> dest_ m <> NoLocation -> dest_ m = dest_ m' -> m = m'.
Proof.
  unfold destinations. intros Hnd Hm Hm' Hd Heq.
  assert (m ∈ filter (fun m => dest_ m <> NoLocation) ms) as [i Hi]%list_elem_of_lookup by (by apply list_elem_of_filter).
  assert (m' ∈ filter (fun m => dest_ m <> NoLocation) ms) as [j Hj]%list_elem_of_lookup by (apply list_elem_of_filter; by rewrite <- Heq).
  assert (i = j) as ->; [|by rewrite Hi in Hj; injection Hj].
  eapply (NoDup_lookup _ i j (dest_ m) Hnd); rewrite list_lookup_fmap; [by rewrite Hi|by rewrite Hj, Heq].
Qed.

(** The emitted code performs all moves at once: every destination receives the value its
    source had before, and no other location changes. *)
Lemma EmitNativeCode_ok ms s :
  state_ok s -> Forall move_ok ms -> NoDup (destinations ms) ->
  exists code, EmitNativeCode ms = Ok code /\ state_ok (run s code) /\
    (forall m, m ∈ ms -> dest_ m <> NoLocation -> read (run s code) (dest_ m) = source_value s (dest_ m) (src_ m)) /\
    (forall l, allocated l -> l ∉ destinations ms -> read (run s code) l = read s l).
Proof.
  intros Hs Hok Hnd. unfold EmitNativeCode. rewrite BuildInitialMoveList_ok by done. cbn [mbind result_bind].
  set (ws := filter needed ms). set (n := length ws).
  set (D := fun i => match ws !! i with Some m => dest_ m | None => NoLocation end).
  set (V := fun i => match ws !! i with Some m => source_value s (dest_ m) (src_ m) | None => read s NoLocation end).
  assert (forall i m, ws !! i = Some m -> m ∈ ms /\ dest_ m <> NoLocation /\ src_ m <> dest_ m /\ allocated (dest_ m) /\ source_ok (dest_ m) (src_ m)) as Hws.
  { intros i m Hm. apply list_elem_of_lookup_2, list_elem_of_filter in Hm as [[? ?] Hin]. rewrite Forall_forall in Hok.
    destruct (Hok m Hin) as [?|[? ?]]; tauto. }
  assert (forall i, (i < n)%nat -> allocated (D i)) as HDa.
  { intros i [m Hm]%lookup_lt_is_Some_2. unfold D. rewrite Hm. by eapply Hws. }
  assert (NoDup (dest_ <$> ws)) as HndW.
  { eapply NoDup_fmap_filter; [|exact Hnd]. by intros m [? _]. }
  assert (forall i j, (i < n)%nat -> (j < n)%nat -> D i = D j -> i = j) as HDd.
  { intros i j [m Hm]%lookup_lt_is_Some_2 [m' Hm']%lookup_lt_is_Some_2. unfold D. rewrite Hm, Hm'. intros Heq.
    eapply (NoDup_lookup _ i j _ HndW); rewrite list_lookup_fmap; [by rewrite Hm|by rewrite Hm', Heq]. }
  assert (inv n D V s [] ws (run s [])) as HI.
  { split; [done|by intros i ?%elem_of_nil|constructor|done| |done|done].
    intros i m Hm. destruct (Hws i m Hm) as (_ & Hd & Hne & Ha & Hso).
    assert (D i = dest_ m) as HD by (unfold D; by rewrite Hm).
    destruct m as [d src]; simpl in *. rewrite <- HD. constructor; [by apply not_elem_of_nil|congruence|congruence|].
    unfold V. rewrite Hm. simpl. by rewrite HD. }
  assert (Forall (fun k => k < n)%nat (seq 0 n)) as Hseq by (apply Forall_forall; intros k Hk%elem_of_seq; lia).
  destruct (perform_moves_ok n D V s HDa HDd (seq 0 n) (mkResolver ws [])) as (st1 & -> & HI1 & Hc1); [done|done| |].
  { intros j m Hm _ _. apply elem_of_seq. apply lookup_lt_Some in Hm. simpl in Hm. fold n in Hm. lia. }
  cbn [mbind result_bind].
  destruct (perform_constants_ok n D V s HDa HDd (seq 0 n) st1) as (st2 & -> & HI2 & He2); [done|done|done| |].
  { intros j m Hm _. apply elem_of_seq. pose proof (inv_index _ _ _ _ _ _ _ HI1 _ _ Hm). lia. }
  cbn [mbind result_bind].
  assert (forall l, allocated l -> (forall m, m ∈ ms -> needed m -> l <> dest_ m) -> read (run s (code_ st2)) l = read s l) as Hframe.
  { intros l Hl Hnot. apply (inv_frame _ _ _ _ _ _ _ HI2); [done|]. intros i [m Hm]%lookup_lt_is_Some_2. unfold D. rewrite Hm.
    destruct (Hws i m Hm) as (? & ? & ? & _). by apply Hnot. }
  exists (code_ st2). split; [done|]. split; [apply (inv_state _ _ _ _ _ _ _ HI2)|]. split.
  - intros m Hm Hd. destruct (decide (needed m)) as [Hn|Hn].
    + assert (m ∈ ws) as [i Hi]%list_elem_of_lookup by (by apply list_elem_of_filter).
      pose proof (lookup_lt_Some _ _ _ Hi) as Hlt. fold n in Hlt.
      destruct (lookup_lt_is_Some_2 (moves_ st2) i) as [m2 Hm2]; [by rewrite (inv_length _ _ _ _ _ _ _ HI2)|].
      pose proof (He2 _ _ Hm2) as ->. pose proof (inv_move _ _ _ _ _ _ _ HI2 _ _ Hm2) as Hst.
      unfold V, D in Hst. inversion Hst as [? Hv|? Hst'|? ? ? ? ? Hx]; [|by apply not_elem_of_nil in Hst'|].
      * by rewrite Hi in Hv.
      * rewrite Hi in Hx. by destruct Hd.
    + assert (src_ m = dest_ m) as Heq by (unfold needed in Hn; destruct (decide (src_ m = dest_ m)); tauto).
      rewrite Forall_forall in Hok. destruct (Hok m Hm) as [?|[Ha Hso]]; [done|].
      unfold source_value. rewrite Heq, (proj2 (allocated_valid _ Ha)). apply Hframe; [done|].
      intros m' Hm' Hn' Heq'. by rewrite <- (destinations_inj ms m m') in Hn'.
  - intros l Hl Hnot. apply Hframe; [done|]. intros m Hm [Hd _] ->. apply Hnot. unfold destinations.
    apply list_elem_of_fmap. exists m. split; [done|]. by apply list_elem_of_filter.
Qed.
End parallel.
End ParallelMoveProps.
