(* ===== verification/ParallelMoveMips.v ===== *)
(** * The MIPS code of moves and swaps

    A machine with the registers and the memory words that the calls of the
    assembler act on, and the proof that [EmitMove] and [EmitSwap] of
    vm/flow_graph_compiler_mips.cc keep the promise [EmitterOk] for the slots
    of a frame; scratch registers are either free to use or saved on the stack. *)

From stdpp Require Import base numbers list sets gmap.
From Stdlib Require Import ZArith Lia.
From S2P Require Import Prelude Utils MipsConstants Locations ParallelMove ParallelMoveProps.

Local Open Scope Z_scope.
Local Open Scope mach_scope.

Module ParallelMoveMips.
Import Locations ParallelMove ParallelMoveProps ParallelMove.Mips MipsConstants.Mips.
#[local] Existing Instance mips_target.

(** ** The machine *)

(** A double register or slot holds two words. *)
Inductive value := VWord (w : Z) | VDouble (lo hi : Z).

(** Memory by the addresses of its words. *)
Record Machine := mkMachine { R : Z -> Z; DR : Z -> Z * Z; mem : Z -> Z }.

Definition upd {A} (f : Z -> A) (k : Z) (v : A) : Z -> A := fun x => if x =? k then v else f x.

Definition set_R (s : Machine) (r w : Z) : Machine := mkMachine (upd (R s) r w) (DR s) (mem s).
Definition set_DR (s : Machine) (d : Z) (w : Z * Z) : Machine := mkMachine (R s) (upd (DR s) d w) (mem s).
Definition set_mem (s : Machine) (a w : Z) : Machine := mkMachine (R s) (DR s) (upd (mem s) a w).

(** A frame: its pointers, the slots in use, and the heap words that constants refer to. *)
Class Frame := {
  fp : Z;
  sp : Z;
  slots : list place;
  heap : Z -> option Z;
  object_pointer : Z -> Z
}.

Section machine.
Context {C : Constants} {F : Frame}.

(** [LoadFromOffset] and [StoreToOffset] compute a far address in [TMP]. *)
Definition far_address (s : Machine) (base offset : Z) : Machine :=
  if Utils.IsInt 16 offset then s else set_R s TMP (u32 (R s base + offset)).

Definition exec_asm (i : Asm) (s : Machine) : Machine :=
  match i with
  | mov rd rs => set_R s rd (R s rs)
  | LoadFromOffset reg base offset => set_R (far_address s base offset) reg (mem s (u32 (R s base + offset)))
  | StoreToOffset reg base offset =>
      set_mem (far_address s base offset) (u32 (R s base + offset)) (R (far_address s base offset) reg)
  | movd dd ds => set_DR s dd (DR s ds)
  | LoadDFromOffset reg base offset =>
      set_DR s reg (mem s (u32 (R s base + offset)), mem s (u32 (R s base + offset + 4)))
  | StoreDToOffset reg base offset =>
      set_mem (set_mem s (u32 (R s base + offset)) (DR s reg).1) (u32 (R s base + offset + 4)) (DR s reg).2
  | LoadImmediate rd value => set_R s rd (u32 value)
  | LoadObject rd constant => set_R s rd (object_pointer constant)
  | AddImmediate rd imm => set_R s rd (u32 (R s rd + imm))
  | Push rt => let s := set_R s SP (u32 (R s SP - 4)) in set_mem s (R s SP) (R s rt)
  | Pop rt => let s := set_R s rt (mem s (R s SP)) in set_R s SP (u32 (R s SP + 4))
  end.

(** ** Places *)

Definition slot_offset (i : Z) : Z :=
  if i <? 0 then (kParamEndSlotFromFp - i) * 4 else (kFirstLocalSlotFromFp - i) * 4.

(** The words of the stack that a slot occupies. *)
Definition words (p : place) : list Z :=
  match p with
  | PStackSlot i _ => [fp + slot_offset i]
  | PDoubleStackSlot i => [fp + slot_offset i; fp + slot_offset i + 4]
  | _ => []
  end.

Definition slot_ok (p : place) : Prop :=
  valid_place p /\ Forall (fun a => sp <= a < 2 ^ 32) (words p) /\
  match p with
  | PStackSlot _ b => b = FPREG
  | PDoubleStackSlot i => Utils.IsInt 16 (slot_offset i) = true /\ Utils.IsInt 16 (slot_offset i + 4) = true
  | _ => False
  end.

(** The slots are disjoint, as the comment of class [Location] demands, lie above the stack
    pointer, and the heap lies elsewhere. *)
Class FrameOk : Prop := {
  stack_room : 8 <= sp < 2 ^ 32;
  fp_range : isU 32 fp;
  slots_ok : Forall slot_ok slots;
  slots_disjoint p q a : p ∈ slots -> q ∈ slots -> a ∈ words p -> a ∈ words q -> p = q;
  heap_outside a v : heap a = Some v -> ~ (sp - 8 <= a < sp) /\ forall p, p ∈ slots -> a ∉ words p
}.

(** The places that the register allocator uses. *)
Definition place_ok (p : place) : Prop :=
  match p with
  | PRegister r => 2 <= r < 32 /\ r <> SP /\ r <> FP
  | PFpuRegister d => 0 <= d < 16 /\ d <> DTMP
  | PStackSlot _ _ | PDoubleStackSlot _ => p ∈ slots
  | _ => False
  end.

Definition is_double (p : place) : bool :=
  match p with PFpuRegister _ | PDoubleStackSlot _ => true | _ => false end.

Definition typed (p : place) (v : value) : Prop :=
  match v with VWord _ => is_double p = false | VDouble _ _ => is_double p = true end.

Definition read_place (s : Machine) (p : place) : value :=
  match p with
  | PFpuRegister d => VDouble (DR s d).1 (DR s d).2
  | PDoubleStackSlot i => VDouble (mem s (fp + slot_offset i)) (mem s (fp + slot_offset i + 4))
  | PStackSlot i _ => VWord (mem s (fp + slot_offset i))
  | PRegister r => VWord (R s r)
  | _ => VWord 0
  end.

Definition write_place (p : place) (v : value) (s : Machine) : Machine :=
  match p, v with
  | PRegister r, VWord w => set_R s r w
  | PFpuRegister d, VDouble lo hi => set_DR s d (lo, hi)
  | PStackSlot i _, VWord w => set_mem s (fp + slot_offset i) w
  | PDoubleStackSlot i, VDouble lo hi => set_mem (set_mem s (fp + slot_offset i) lo) (fp + slot_offset i + 4) hi
  | _, _ => s
  end.

Definition machine_ok (s : Machine) : Prop :=
  R s FP = fp /\ R s SP = sp /\ forall a v, heap a = Some v -> mem s a = v.

(** Machines that differ only in the assembler's temporaries and between two addresses. *)
Definition eqvB (lo hi : Z) (s s' : Machine) : Prop :=
  (forall r, r <> TMP -> R s r = R s' r) /\ (forall d, d <> DTMP -> DR s d = DR s' d) /\
  (forall a, ~ (lo <= a < hi) -> mem s a = mem s' a).

(** The words below the stack pointer are free. *)
Definition eqv : Machine -> Machine -> Prop := eqvB (sp - 8) sp.

Context {FO : FrameOk}.

Lemma upd_eq {A} (f : Z -> A) k v : upd f k v k = v.
Proof. unfold upd. by rewrite Z.eqb_refl. Qed.

Lemma upd_ne {A} (f : Z -> A) k v x : x <> k -> upd f k v x = f x.
Proof. unfold upd. intros H. by rewrite (proj2 (Z.eqb_neq x k)). Qed.

Lemma slots_word p a : p ∈ slots -> a ∈ words p -> sp <= a < 2 ^ 32.
Proof using FO.
  intros Hp Ha. pose proof slots_ok as H. rewrite Forall_forall in H. destruct (H p Hp) as (_ & Hw & _).
  rewrite Forall_forall in Hw. by apply Hw.
Qed.

Lemma slot_word_double i : fp + slot_offset i <> fp + slot_offset i + 4.
Proof. lia. Qed.

Lemma read_eqv s s' p : eqv s s' -> place_ok p -> read_place s p = read_place s' p.
Proof using FO.
  intros (HR & HD & Hm) Hp.
  assert (forall a, p ∈ slots -> a ∈ words p -> mem s a = mem s' a) as Hmem.
  { intros a Hps Ha. apply Hm. pose proof (slots_word p a Hps Ha). lia. }
  destruct p; simpl in *; try done.
  - rewrite Hmem by (done || left). done.
  - rewrite !Hmem by (done || left || (right; left)). done.
  - rewrite HR; [done|]. unfold TMP, AT, R1. lia.
  - rewrite HD by (by destruct Hp). done.
Qed.

Lemma read_write_same s p v : place_ok p -> typed p v -> read_place (write_place p v s) p = v.
Proof using.
  intros Hp Ht. destruct p, v; simpl in *; try done; rewrite ?upd_eq; try done.
  rewrite upd_ne by lia. by rewrite upd_eq.
Qed.

Lemma read_write_other s p q v : place_ok p -> place_ok q -> p <> q -> read_place (write_place p v s) q = read_place s q.
Proof using FO.
  intros Hp Hq Hpq.
  assert (forall a b, p ∈ slots -> q ∈ slots -> a ∈ words p -> b ∈ words q -> b <> a) as Hdis.
  { intros a b Hps Hqs Ha Hb ->. by apply Hpq, (slots_disjoint p q a). }
  destruct p, v, q; simpl in *; try done.
  all: rewrite ?upd_ne; try done; try (by intros ->); try (by apply Hdis; (done || left || (right; left))).
Qed.

Lemma machine_ok_write s p v : machine_ok s -> place_ok p -> machine_ok (write_place p v s).
Proof using FO.
  intros (Hf & Hs & Hh) Hp.
  assert (forall a b w, p ∈ slots -> b ∈ words p -> heap a = Some w -> a <> b) as Hout.
  { intros a b w Hps Hb Ha ->. by apply (proj2 (heap_outside b w Ha) p Hps). }
  destruct p, v; simpl in *; try done; (split; [|split]); simpl; rewrite ?upd_ne; try done.
  all: try (destruct Hp as (? & ? & ?); congruence).
  all: intros a w0 Ha; rewrite ?upd_ne; [by apply Hh|by eapply Hout; [|(left || (right; left))|]..].
Qed.

Lemma machine_ok_eqv s s' : machine_ok s' -> eqv s s' -> machine_ok s.
Proof using FO.
  intros (Hf & Hs & Hh) (HR & HD & Hm). split; [by rewrite HR|]. split; [by rewrite HR|].
  intros a v Ha. rewrite Hm by (by apply (heap_outside a v)). by apply Hh.
Qed.

(** ** Executing the code *)

Definition steps (s : Machine) (ops : list Asm) : Machine := foldl (flip exec_asm) s ops.

#[export] Instance eqvB_equivalence lo hi : Equivalence (eqvB lo hi).
Proof.
  split.
  - done.
  - intros s s' (HR & HD & Hm). split; [|split]; intros; symmetry; auto.
  - intros s1 s2 s3 (HR & HD & Hm) (HR' & HD' & Hm').
    split; [|split]; intros; (etransitivity; [by (apply HR || apply HD || apply Hm)|by (apply HR' || apply HD' || apply Hm')]).
Qed.

Lemma eqvB_weaken lo hi lo' hi' s s' : lo' <= lo -> hi <= hi' -> eqvB lo hi s s' -> eqvB lo' hi' s s'.
Proof. intros ? ? (? & ? & Hm). split; [done|]. split; [done|]. intros a Ha. apply Hm. lia. Qed.

(** Writing values to several places, the first of the list last. *)
Definition writes (ws : list (place * value)) (s : Machine) : Machine :=
  foldr (fun pv s => write_place pv.1 pv.2 s) s ws.

(** A write changes what it writes, whatever the machine. *)
Lemma writes_R ws s s' r : R s r = R s' r -> R (writes ws s) r = R (writes ws s') r.
Proof. intros H. induction ws as [|[[] []] ws IH]; simpl; auto. unfold upd. by destruct (_ =? _). Qed.
Lemma writes_DR ws s s' d : DR s d = DR s' d -> DR (writes ws s) d = DR (writes ws s') d.
Proof. intros H. induction ws as [|[[] []] ws IH]; simpl; auto. unfold upd. by destruct (_ =? _). Qed.
Lemma writes_mem ws s s' a : mem s a = mem s' a -> mem (writes ws s) a = mem (writes ws s') a.
Proof. intros H. induction ws as [|[[] []] ws IH]; simpl; auto; unfold upd; by repeat destruct (_ =? _). Qed.

Lemma writes_eqvB ws lo hi s s' : eqvB lo hi s s' -> eqvB lo hi (writes ws s) (writes ws s').
Proof. intros (HR & HD & Hm). split; [|split]; intros; [apply writes_R|apply writes_DR|apply writes_mem]; auto. Qed.

Definition all_ok (ws : list (place * value)) : Prop := Forall (fun pv => place_ok pv.1) ws.

(** The pointers and the words below the stack pointer survive. *)
Lemma writes_R_other ws s r : (forall v, (PRegister r, v) ∉ ws) -> R (writes ws s) r = R s r.
Proof.
  induction ws as [|[p v] ws IH]; intros Hn; simpl; [done|].
  assert (R (writes ws s) r = R s r) as HI by (apply IH; intros w Hw; apply (Hn w); by right).
  destruct p, v; simpl; try done. rewrite upd_ne; [done|]. intros ->. apply (Hn (VWord w)). left.
Qed.

Lemma writes_pointer ws s r : all_ok ws -> r = SP \/ r = FP -> R (writes ws s) r = R s r.
Proof.
  intros Hok Hr. apply writes_R_other. intros v Hv. unfold all_ok in Hok. rewrite Forall_forall in Hok.
  destruct (Hok _ Hv) as (? & ? & ?). destruct Hr; congruence.
Qed.

Lemma writes_below ws s a : all_ok ws -> a < sp -> mem (writes ws s) a = mem s a.
Proof using FO.
  intros Hok Ha. induction Hok as [|[p v] ws Hp Hws IH]; simpl; [done|]. simpl in Hp.
  assert (forall b, p ∈ slots -> b ∈ words p -> a <> b) as Hne by (intros b Hps Hb; pose proof (slots_word p b Hps Hb); lia).
  destruct p, v; simpl in *; try done; rewrite ?upd_ne by (apply Hne; (done || left || (right; left))); done.
Qed.

(** Reads and writes of the words of a slot. *)
Lemma slot_address p a : p ∈ slots -> a ∈ words p -> u32 a = a.
Proof using FO. intros Hp Ha. apply wrapU_id. pose proof (slots_word p a Hp Ha). pose proof stack_room. unfold isU. lia. Qed.

Lemma word_slot_address i b : PStackSlot i b ∈ slots -> u32 (fp + slot_offset i) = fp + slot_offset i.
Proof using FO. intros Hp. apply (slot_address (PStackSlot i b)); [done|left]. Qed.

Lemma double_slot_address i : PDoubleStackSlot i ∈ slots ->
  u32 (fp + slot_offset i) = fp + slot_offset i /\ u32 (fp + slot_offset i + 4) = fp + slot_offset i + 4.
Proof using FO. intros Hp. split; apply (slot_address (PDoubleStackSlot i)); (done || left || (right; left)). Qed.

Lemma word_slot_above i b : PStackSlot i b ∈ slots -> sp <= fp + slot_offset i.
Proof using FO. intros Hp. apply (slots_word (PStackSlot i b)); [done|left]. Qed.

Lemma double_slot_above i : PDoubleStackSlot i ∈ slots -> sp <= fp + slot_offset i.
Proof using FO. intros Hp. apply (slots_word (PDoubleStackSlot i)); [done|left]. Qed.

Lemma spill_address k : 0 <= k <= 8 -> u32 (sp - k) = sp - k.
Proof using FO. intros Hk. apply wrapU_id. pose proof stack_room. unfold isU. lia. Qed.

(** One load or store of a frame slot, up to [TMP]. *)
Lemma exec_load s r i b :
  R s FP = fp -> PStackSlot i b ∈ slots ->
  eqvB 0 0 (exec_asm (LoadFromOffset r FPREG (slot_offset i)) s) (set_R s r (mem s (fp + slot_offset i))).
Proof using FO.
  intros HF Hi. simpl. unfold FPREG. rewrite HF, (word_slot_address i b) by done. split; [|split].
  - intros x Hx. simpl. unfold upd. destruct (x =? r); [done|]. unfold far_address. destruct (Utils.IsInt _ _); simpl; [done|by rewrite upd_ne].
  - intros d _. unfold far_address. by destruct (Utils.IsInt _ _).
  - intros a _. unfold far_address. by destruct (Utils.IsInt _ _).
Qed.

Lemma exec_store s r i b :
  R s FP = fp -> PStackSlot i b ∈ slots -> r <> TMP ->
  eqvB 0 0 (exec_asm (StoreToOffset r FPREG (slot_offset i)) s) (set_mem s (fp + slot_offset i) (R s r)).
Proof using FO.
  intros HF Hi Hr. simpl. unfold FPREG. rewrite HF, (word_slot_address i b) by done. split; [|split].
  - intros x Hx. simpl. unfold far_address. destruct (Utils.IsInt _ _); simpl; [done|by rewrite upd_ne].
  - intros d _. unfold far_address. by destruct (Utils.IsInt _ _).
  - intros a _. unfold far_address. destruct (Utils.IsInt _ _); simpl; [done|by rewrite (upd_ne _ _ _ r)].
Qed.

#[export] Instance set_R_proper lo hi : Proper (eqvB lo hi ==> eq ==> eq ==> eqvB lo hi) set_R.
Proof. intros s s' (HR & HD & Hm) r ? <- w ? <-. split; [|done]. intros x Hx. simpl. unfold upd. destruct (x =? r); auto. Qed.
#[export] Instance set_DR_proper lo hi : Proper (eqvB lo hi ==> eq ==> eq ==> eqvB lo hi) set_DR.
Proof. intros s s' (HR & HD & Hm) d ? <- w ? <-. split; [done|]. split; [|done]. intros x Hx. simpl. unfold upd. destruct (x =? d); auto. Qed.
#[export] Instance set_mem_proper lo hi : Proper (eqvB lo hi ==> eq ==> eq ==> eqvB lo hi) set_mem.
Proof. intros s s' (HR & HD & Hm) a ? <- w ? <-. split; [done|]. split; [done|]. intros x Hx. simpl. unfold upd. destruct (x =? a); auto. Qed.

Lemma eqvB_exact lo hi s s' : eqvB 0 0 s s' -> eqvB lo hi s s'.
Proof. intros (? & ? & Hm). split; [done|]. split; [done|]. intros a _. apply Hm. lia. Qed.

Lemma eqvB_R lo hi s s' r : eqvB lo hi s s' -> r <> TMP -> R s r = R s' r.
Proof. intros (H & _). auto. Qed.

Lemma eqvB_mem s s' a : eqvB 0 0 s s' -> mem s a = mem s' a.
Proof. intros (_ & _ & H). apply H. lia. Qed.

(** *** Sequences between slots and registers *)

Lemma copy_slot s t i b j b' :
  R s FP = fp -> PStackSlot i b ∈ slots -> PStackSlot j b' ∈ slots -> t <> TMP -> t <> FP ->
  let v := mem s (fp + slot_offset i) in
  eqvB 0 0 (steps s [LoadFromOffset t FPREG (slot_offset i); StoreToOffset t FPREG (slot_offset j)])
    (set_mem (set_R s t v) (fp + slot_offset j) v).
Proof using FO.
  intros HF Hi Hj Ht HtF v. pose proof (exec_load s t i b HF Hi) as H1. fold v in H1. unfold steps. cbn [foldl flip].
  set (s1 := exec_asm (LoadFromOffset t FPREG (slot_offset i)) s) in *.
  assert (R s1 FP = fp) as HF1 by (rewrite (eqvB_R _ _ _ _ _ H1) by done; simpl; by rewrite upd_ne).
  rewrite (exec_store s1 t j b' HF1 Hj Ht). rewrite (eqvB_R _ _ _ _ t H1 Ht). simpl. rewrite upd_eq. by rewrite H1.
Qed.

Lemma exchange_register_slot s t r i b :
  R s FP = fp -> PStackSlot i b ∈ slots -> t <> TMP -> t <> FP -> r <> TMP -> r <> FP -> r <> t ->
  eqvB 0 0 (steps s [mov t r; LoadFromOffset r FPREG (slot_offset i); StoreToOffset t FPREG (slot_offset i)])
    (set_mem (set_R (set_R s t (R s r)) r (mem s (fp + slot_offset i))) (fp + slot_offset i) (R s r)).
Proof using FO.
  intros HF Hi Ht HtF Hr HrF Hrt. unfold steps. cbn [foldl flip].
  assert (exec_asm (mov t r) s = set_R s t (R s r)) as -> by done. set (s1 := set_R s t (R s r)).
  assert (R s1 FP = fp) as HF1 by (simpl; by rewrite upd_ne).
  pose proof (exec_load s1 r i b HF1 Hi) as H2. set (s2 := exec_asm (LoadFromOffset r FPREG (slot_offset i)) s1) in *.
  assert (R s2 FP = fp) as HF2 by (rewrite (eqvB_R _ _ _ _ _ H2) by done; simpl; by rewrite !upd_ne).
  rewrite (exec_store s2 t i b HF2 Hi Ht). rewrite (eqvB_R _ _ _ _ t H2 Ht). simpl. rewrite upd_ne, upd_eq by done. by rewrite H2.
Qed.

Lemma exchange_slots s t1 t2 i b j b' :
  R s FP = fp -> PStackSlot i b ∈ slots -> PStackSlot j b' ∈ slots -> t1 <> TMP -> t1 <> FP -> t2 <> TMP -> t2 <> FP -> t1 <> t2 ->
  let v1 := mem s (fp + slot_offset i) in let v2 := mem s (fp + slot_offset j) in
  eqvB 0 0 (steps s [LoadFromOffset t1 FPREG (slot_offset i); LoadFromOffset t2 FPREG (slot_offset j);
                     StoreToOffset t1 FPREG (slot_offset j); StoreToOffset t2 FPREG (slot_offset i)])
    (set_mem (set_mem (set_R (set_R s t1 v1) t2 v2) (fp + slot_offset j) v1) (fp + slot_offset i) v2).
Proof using FO.
  intros HF Hi Hj Ht1 Hf1 Ht2 Hf2 Ht v1 v2. unfold steps. cbn [foldl flip].
  pose proof (exec_load s t1 i b HF Hi) as H1. fold v1 in H1. set (s1 := exec_asm (LoadFromOffset t1 FPREG (slot_offset i)) s) in *.
  assert (R s1 FP = fp) as HF1 by (rewrite (eqvB_R _ _ _ _ _ H1) by done; simpl; by rewrite upd_ne).
  pose proof (exec_load s1 t2 j b' HF1 Hj) as H2. rewrite (eqvB_mem _ _ _ H1) in H2. cbn [mem set_R] in H2. fold v2 in H2.
  set (s2 := exec_asm (LoadFromOffset t2 FPREG (slot_offset j)) s1) in *.
  assert (eqvB 0 0 s2 (set_R (set_R s t1 v1) t2 v2)) as H2' by (rewrite H2; by rewrite H1). clear H2; rename H2' into H2.
  assert (R s2 FP = fp) as HF2 by (rewrite (eqvB_R _ _ _ _ _ H2) by done; simpl; by rewrite !upd_ne).
  pose proof (exec_store s2 t1 j b' HF2 Hj Ht1) as H3. rewrite (eqvB_R _ _ _ _ t1 H2 Ht1) in H3. cbn [R set_R] in H3. rewrite upd_ne, upd_eq in H3 by done.
  set (s3 := exec_asm (StoreToOffset t1 FPREG (slot_offset j)) s2) in *.
  assert (eqvB 0 0 s3 (set_mem (set_R (set_R s t1 v1) t2 v2) (fp + slot_offset j) v1)) as H3' by (rewrite H3; by rewrite H2). clear H3; rename H3' into H3.
  assert (R s3 FP = fp) as HF3 by (rewrite (eqvB_R _ _ _ _ _ H3) by done; simpl; by rewrite !upd_ne).
  rewrite (exec_store s3 t2 i b HF3 Hi Ht2). rewrite (eqvB_R _ _ _ _ t2 H3 Ht2). simpl. rewrite upd_eq. by rewrite H3.
Qed.

(** *** Saving a scratch register on the stack *)

Lemma push_spec s r cur :
  R s SP = cur -> sp - 4 <= cur <= sp -> r <> SP ->
  exec_asm (Push r) s = set_mem (set_R s SP (cur - 4)) (cur - 4) (R s r).
Proof using FO.
  intros HS Hc Hr. simpl. rewrite !upd_eq, HS, upd_ne by done.
  replace (cur - 4) with (sp - (sp - cur + 4)) by lia. by rewrite spill_address by lia.
Qed.

Lemma spilled_scope s r cur ops ws w :
  R s SP = cur -> sp - 4 <= cur <= sp -> r <> SP -> r <> TMP -> all_ok ws -> (forall v, (PRegister r, v) ∉ ws) ->
  let s1 := exec_asm (Push r) s in
  eqvB (sp - 8) (cur - 4) (steps s1 ops) (writes ws (set_R s1 r w)) ->
  eqvB (sp - 8) cur (steps s (Push r :: ops ++ [Pop r])) (writes ws s).
Proof using FO.
  intros HS Hc HrS HrT Hok Hnr s1 H1. pose proof (push_spec s r cur HS Hc HrS) as E1. fold s1 in E1.
  unfold steps in *. cbn [foldl flip]. fold s1. clearbody s1. rewrite foldl_app. set (s2 := foldl (flip exec_asm) s1 ops) in *. cbn [foldl flip].
  pose proof H1 as (HR & HD & Hm).
  assert (R s2 SP = cur - 4) as HS2.
  { rewrite HR by done. rewrite writes_pointer by auto. simpl. rewrite upd_ne, E1 by done. simpl. by rewrite upd_eq. }
  assert (mem s2 (cur - 4) = R s r) as Hm2.
  { rewrite Hm by lia. rewrite writes_below by (done || lia). simpl. rewrite E1. simpl. by rewrite upd_eq. }
  assert (u32 (cur - 4 + 4) = cur) as Hcur.
  { replace (cur - 4 + 4) with (sp - (sp - cur)) by lia. rewrite spill_address by lia. lia. }
  assert (exec_asm (Pop r) s2 = set_R (set_R s2 r (R s r)) SP cur) as ->.
  { simpl. rewrite HS2, Hm2. rewrite upd_ne, HS2, Hcur by done. done. }
  split; [|split]; simpl.
  - intros x Hx. unfold upd at 1. destruct (Z.eqb_spec x SP) as [->|HxS]; [by rewrite writes_pointer by auto|].
    unfold upd at 1. destruct (Z.eqb_spec x r) as [->|Hxr]; [by rewrite writes_R_other|].
    rewrite HR by done. apply writes_R. simpl. rewrite upd_ne, E1 by done. simpl. by rewrite upd_ne.
  - intros d Hd. rewrite HD by done. apply writes_DR. simpl. by rewrite E1.
  - intros a Ha. rewrite Hm by lia. apply writes_mem. simpl. rewrite E1. simpl. rewrite upd_ne by lia. done.
Qed.

(** *** Choosing a scratch register *)

Lemma any_blocks_ok ms l :
  Forall operands_wf ms -> l <> NoLocation ->
  exists b, any_blocks ms l = Ok b /\ (b = false -> forall m, m ∈ ms -> src_ m <> l).
Proof using.
  intros Hwf Hl. induction Hwf as [|m ms Hm Hwf IH]; simpl; [exists false; split; [done|intros; by apply not_elem_of_nil in H0]|].
  rewrite Blocks_src by done. cbn [mbind result_bind]. destruct (Equals (src_ m) l) eqn:E; [by exists true|].
  destruct IH as (b & -> & Hb). exists b. split; [done|]. intros Hf m' [->|Hm']%elem_of_cons; [by apply Equals_false|by apply Hb].
Qed.

Lemma IsScratchLocation_ok ms l :
  Forall operands_wf ms -> l <> NoLocation -> exists b, IsScratchLocation ms l = Ok b /\ (b = true -> scratch ms l).
Proof using.
  intros Hwf Hl. unfold IsScratchLocation. destruct (any_blocks_ok ms l Hwf Hl) as ([] & -> & Hb); cbn [mbind result_bind]; [by exists false|].
  eexists. split; [done|]. intros (m & Hm & Hd)%existsb_exists. split; [|by apply Hb].
  exists m. split; [by apply list_elem_of_In|by apply Z.eqb_eq].
Qed.

(** The place of a machine register. *)
Definition register_place (kind r : Z) : place := if kind =? kRegister then PRegister r else PFpuRegister r.

Lemma register_location kind r :
  kind = kRegister \/ kind = kFpuRegister -> 0 <= r < 32 ->
  exists l, MachineRegisterLocation kind r = Ok l /\ location_of (register_place kind r) = Ok l /\ l <> NoLocation.
Proof using.
  intros Hk Hr. destruct (place_of_register kind r Hk Hr) as (l & E & Hp & Hkind & _). exists l.
  unfold MachineRegisterLocation, RegisterLocation, FpuRegisterLocation, register_place in *.
  assert (l <> NoLocation) by (intros ->; destruct Hk as [-> | ->]; vm_compute in Hkind; done).
  destruct Hk as [-> | ->]; done.
Qed.

Lemma find_scratch_ok ms kind mask : forall regs,
  kind = kRegister \/ kind = kFpuRegister -> Forall operands_wf ms -> Forall (fun r => 0 <= r < 32) regs ->
  exists o, find_scratch ms kind mask regs = Ok o /\
    forall r, o = Some r -> r ∈ regs /\ is_free mask r = true /\
      exists l, location_of (register_place kind r) = Ok l /\ scratch ms l.
Proof using.
  induction regs as [|r regs IH]; intros Hk Hwf Hregs; simpl; [by exists None|].
  inversion Hregs as [|? ? Hr Hregs']; subst. destruct IH as (o & Eo & Ho); [done..|].
  assert (exists o, find_scratch ms kind mask regs = Ok o /\
    forall r', o = Some r' -> r' ∈ r :: regs /\ is_free mask r' = true /\
      exists l, location_of (register_place kind r') = Ok l /\ scratch ms l) as Hrest.
  { exists o. split; [done|]. intros r' Hr'. destruct (Ho r' Hr') as (? & ? & ?). split; [by right|done]. }
  destruct (is_free mask r) eqn:Ef; [|done].
  destruct (register_location kind r Hk Hr) as (l & -> & El & Hl). cbn [mbind result_bind].
  destruct (IsScratchLocation_ok ms l Hwf Hl) as ([] & -> & Hs); cbn [mbind result_bind]; [|done].
  exists (Some r). split; [done|]. intros r' [= <-]. split; [left|]. split; [done|]. exists l. auto.
Qed.

(** The free registers, by evaluation. *)
Definition cpu_mask (intrinsic_mode : bool) (blocked : Z) : Z :=
  let m := RegMaskBit blocked .| kReservedCpuRegisters in if intrinsic_mode then m .| RegMaskBit ARGS_DESC_REG else m.

Definition cpu_regs : list Z := seqZ kFirstFreeCpuRegister (kLastFreeCpuRegister - kFirstFreeCpuRegister + 1).
Definition fpu_regs : list Z := seqZ 0 (kNumberOfDRegisters - 1 - 0 + 1).

Definition cpu_check (intrinsic_mode : bool) (blocked : Z) : bool :=
  forallb (fun r => negb (is_free (cpu_mask intrinsic_mode blocked) r) || negb (r =? blocked)) cpu_regs
  && match List.find (is_free (cpu_mask intrinsic_mode blocked)) cpu_regs with Some _ => true | None => false end.

Lemma cpu_check_all im blocked : -1 <= blocked < 32 -> cpu_check im blocked = true.
Proof using.
  intros Hb. assert (forallb (fun b => cpu_check true b && cpu_check false b) (seqZ (-1) 33) = true) as H by (vm_compute; reflexivity).
  rewrite forallb_forall in H. specialize (H blocked). rewrite andb_true_iff in H.
  destruct H as [? ?]; [apply list_elem_of_In, elem_of_seqZ; lia|]. by destruct im.
Qed.

Lemma cpu_scratch_ok im ms blocked :
  Forall operands_wf ms -> -1 <= blocked < 32 ->
  exists t spilled, AllocateScratchRegister ms kRegister (cpu_mask im blocked) kFirstFreeCpuRegister kLastFreeCpuRegister = Ok (t, spilled) /\
    2 <= t <= 21 /\ t <> blocked /\ (spilled = false -> exists l, location_of (PRegister t) = Ok l /\ scratch ms l).
Proof using.
  intros Hwf Hb. unfold AllocateScratchRegister. fold cpu_regs.
  assert (forall r, r ∈ cpu_regs -> 2 <= r <= 21) as Hregs by (intros r Hr%elem_of_seqZ; unfold kFirstFreeCpuRegister, kLastFreeCpuRegister in Hr; lia).
  pose proof (cpu_check_all im blocked Hb) as [Hall Hex]%andb_true_iff. rewrite forallb_forall in Hall.
  assert (forall r, r ∈ cpu_regs -> is_free (cpu_mask im blocked) r = true -> r <> blocked) as Hne.
  { intros r Hr Hf. pose proof (Hall r (proj1 (list_elem_of_In _ _) Hr)) as Hnb. rewrite Hf in Hnb. by apply Z.eqb_neq, negb_true_iff. }
  destruct (find_scratch_ok ms kRegister (cpu_mask im blocked) cpu_regs) as (o & -> & Ho); [by left|done| |].
  { apply Forall_forall. intros r Hr. pose proof (Hregs r Hr). lia. }
  cbn [mbind result_bind]. destruct o as [t|].
  - destruct (Ho t eq_refl) as (Ht & Hf & Hl). exists t, false. split; [done|]. split; [by apply Hregs|]. split; [by apply Hne|done].
  - destruct (List.find _ _) as [t|] eqn:E; [|done]. apply List.find_some in E as [Ht%list_elem_of_In Hf]. exists t, true. split; [done|]. split; [by apply Hregs|]. split; [by apply Hne|done].
Qed.

Lemma fpu_scratch_ok ms :
  Forall operands_wf ms ->
  exists t spilled, AllocateScratchRegister ms kFpuRegister (u32 (1 <<< DTMP) .| u32 (1 <<< DTMP)) 0 (kNumberOfDRegisters - 1) = Ok (t, spilled) /\
    0 <= t < 16 /\ t <> DTMP /\ (spilled = false -> exists l, location_of (PFpuRegister t) = Ok l /\ scratch ms l).
Proof using.
  intros Hwf. unfold AllocateScratchRegister. fold fpu_regs. set (mask := u32 (1 <<< DTMP) .| u32 (1 <<< DTMP)).
  assert (forall r, r ∈ fpu_regs -> 0 <= r < 16) as Hregs by (intros r Hr%elem_of_seqZ; unfold kNumberOfDRegisters in Hr; lia).
  assert (forall r, is_free mask r = true -> r <> DTMP) as Hne by (intros r Hf ->; vm_compute in Hf; done).
  destruct (find_scratch_ok ms kFpuRegister mask fpu_regs) as (o & -> & Ho); [by right|done| |].
  { apply Forall_forall. intros r Hr. pose proof (Hregs r Hr). lia. }
  cbn [mbind result_bind]. destruct o as [t|].
  - destruct (Ho t eq_refl) as (Ht & Hf & Hl). exists t, false. split; [done|]. split; [by apply Hregs|]. split; [by apply Hne|done].
  - exists 0, true. split; [vm_compute; reflexivity|]. split; [lia|]. split; [vm_compute; done|done].
Qed.

(** *** The code between the ends of a scope *)

(** Scratch locations that the code has overwritten. *)
Definition clobbers (ms : list MoveOperands) (ws : list (place * value)) : Prop :=
  all_ok ws /\ forall p v, (p, v) ∈ ws -> exists l, location_of p = Ok l /\ scratch ms l.

Definition reads_as (s s1 : Machine) : Prop :=
  R s1 FP = fp /\ forall p, place_ok p -> read_place s1 p = read_place s p.

Lemma reads_as_push s r cur : R s FP = fp -> R s SP = cur -> sp - 4 <= cur <= sp -> r <> SP -> reads_as s (exec_asm (Push r) s).
Proof using FO.
  intros HF HS Hc Hr. rewrite (push_spec s r cur) by done. split; [simpl; by rewrite upd_ne|]. intros p Hp.
  assert (forall a, p ∈ slots -> a ∈ words p -> a <> cur - 4) as Hw by (intros a Hps Ha; pose proof (slots_word p a Hps Ha); lia).
  destruct p; simpl in *; try done; rewrite ?upd_ne; try done; try (by apply Hw; (done || left || (right; left))). by destruct Hp as (_ & ? & _).
Qed.

Lemma ScratchRegisterScope_ok im ms blocked body s cur ws :
  Forall operands_wf ms -> -1 <= blocked < 32 -> R s SP = cur -> sp - 4 <= cur <= sp -> R s FP = fp -> all_ok ws ->
  (forall t, 2 <= t <= 21 -> t <> blocked -> (forall v, (PRegister t, v) ∉ ws) /\
    exists ops, body t = Ok ops /\ forall s1, reads_as s s1 -> R s1 SP = cur \/ R s1 SP = cur - 4 ->
      exists clob w, clobbers ms clob /\ (forall v, (PRegister t, v) ∉ clob) /\ (forall v, (PRegister blocked, v) ∉ clob) /\
        eqvB (sp - 8) (R s1 SP) (steps s1 ops) (writes (ws ++ clob) (set_R s1 t w))) ->
  exists code, ScratchRegisterScope im ms blocked body = Ok code /\
    exists clob, clobbers ms clob /\ (forall v, (PRegister blocked, v) ∉ clob) /\
      eqvB (sp - 8) cur (steps s code) (writes (ws ++ clob) s).
Proof using FO.
  intros Hwf Hb HS Hc HF Hok Hbody. unfold ScratchRegisterScope. fold (cpu_mask im blocked).
  destruct (cpu_scratch_ok im ms blocked Hwf Hb) as (t & spilled & -> & Ht & Htb & Hsc). cbn [mbind result_bind].
  destruct (Hbody t Ht Htb) as (Hnt & ops & -> & Hops). cbn [mbind result_bind].
  assert (place_ok (PRegister t)) as Hpt by (simpl; unfold SP, FP, R29, R30; lia).
  assert (t <> SP /\ t <> TMP) as [HtS HtT] by (unfold SP, TMP, AT, R1, R29; lia).
  eexists. split; [done|]. destruct spilled.
  - destruct (Hops (exec_asm (Push t) s)) as (clob & w & Hcl & Hntc & Hnb & He).
    { by eapply reads_as_push. }
    { right. rewrite (push_spec s t cur) by done. simpl. by rewrite upd_eq. }
    exists clob. split; [done|]. split; [done|]. unfold SpillScratch, RestoreScratch. simpl app.
    apply (spilled_scope s t cur ops (ws ++ clob) w); try done.
    + by apply Forall_app; split; [|apply Hcl].
    + intros v [?|?]%elem_of_app; [by apply (Hnt v)|by apply (Hntc v)].
    + by rewrite (push_spec s t cur) in He |- *.
  - destruct (Hops s) as (clob & w & Hcl & Hntc & Hnb & He); [done|by left|]. rewrite HS in He.
    exists (clob ++ [(PRegister t, VWord w)]). split; [|split].
    + destruct Hcl as [Hclo Hcls]. split; [apply Forall_app; split; [done|by constructor]|].
      intros p v [?|[= -> ->]%list_elem_of_singleton]%elem_of_app; [by eapply Hcls|by apply Hsc].
    + intros v [?|[= ? ?]%list_elem_of_singleton]%elem_of_app; [by apply (Hnb v)|congruence].
    + unfold writes in *. by rewrite app_assoc, foldr_app.
Qed.

(** *** What the code generator asks of a location *)

Lemma place_ok_valid p : place_ok p -> valid_place p.
Proof using FO.
  intros Hp. pose proof slots_ok as Hs. rewrite Forall_forall in Hs.
  destruct p; simpl in *; try done; try (by apply (Hs _ Hp)); unfold isU; lia.
Qed.

Lemma place_location p : place_ok p -> exists l, location_of p = Ok l /\ place_of l = Ok p.
Proof using FO. intros Hp. by apply location_of_place, place_ok_valid. Qed.

Definition place_facts (p : place) (l : Location) : Prop :=
  IsConstant l = false /\
  match p with
  | PRegister r => (IsRegister l, IsStackSlot l, IsFpuRegister l, IsDoubleStackSlot l) = (true, false, false, false) /\ reg l = Ok r
  | PStackSlot i _ => (IsRegister l, IsStackSlot l, IsFpuRegister l, IsDoubleStackSlot l) = (false, true, false, false) /\
      base_reg l = Ok FPREG /\ ToStackSlotOffset l = Ok (slot_offset i)
  | PFpuRegister d => (IsRegister l, IsStackSlot l, IsFpuRegister l, IsDoubleStackSlot l) = (false, false, true, false) /\ fpu_reg l = Ok d
  | PDoubleStackSlot i => (IsRegister l, IsStackSlot l, IsFpuRegister l, IsDoubleStackSlot l) = (false, false, false, true) /\
      base_reg l = Ok FPREG /\ ToStackSlotOffset l = Ok (slot_offset i)
  | _ => False
  end.

Lemma slot_facts k i l :
  k = kStackSlot \/ k = kDoubleStackSlot -> slot_of_kind k FPREG i = Ok l -> valid_index i ->
  kind l = k /\ base_reg l = Ok FPREG /\ ToStackSlotOffset l = Ok (slot_offset i).
Proof using.
  intros Hk E Hi. destruct (place_of_slot k FPREG i) as (l' & E' & _ & Hl & Hb & Hs); [by destruct Hk; auto|vm_compute; done|done|].
  rewrite E in E'. injection E' as <-. split; [done|]. split; [done|].
  unfold ToStackSlotOffset. rewrite Hs, Hb. cbn [mbind result_bind]. rewrite Z.eqb_refl. unfold slot_offset. by destruct (i <? 0).
Qed.

Lemma place_facts_ok p l : place_ok p -> location_of p = Ok l -> place_facts p l.
Proof using FO.
  intros Hp El. pose proof (place_ok_valid p Hp) as Hv. pose proof slots_ok as Hs. rewrite Forall_forall in Hs.
  assert (kind l = 8 \/ kind l = 12 \/ kind l = 4 \/ kind l = 7 -> exists k, kind l = k /\ k <> 0 /\ (k = 8 \/ k = 12 \/ k = 4 \/ k = 7)) as Hk
    by (intros [-> | [-> | [-> | ->]]]; eexists; intuition done).
  destruct p as [| | | |i b|i| |r|r]; simpl in Hp, El, Hv; try done.
  - destruct (Hs _ Hp) as (_ & _ & ->). destruct (slot_facts kStackSlot i l) as (Hkl & Hb & Ho); [by left|done|by destruct Hv|].
    destruct (kind_tests l 4 Hkl) as (_ & Hc & _ & _ & H1 & H2 & _ & H3 & H4); [done|]. unfold place_facts. by rewrite Hc, H1, H2, H3, H4.
  - destruct (slot_facts kDoubleStackSlot i l) as (Hkl & Hb & Ho); [by right|done|done|].
    destruct (kind_tests l 7 Hkl) as (_ & Hc & _ & _ & H1 & H2 & _ & H3 & H4); [done|]. unfold place_facts. by rewrite Hc, H1, H2, H3, H4.
  - destruct (place_of_register kRegister r) as (l' & E' & _ & Hkl & Hpl); [by left|done|]. unfold RegisterLocation in El. rewrite El in E'. injection E' as <-.
    destruct (kind_tests l 8 Hkl) as (_ & Hc & _ & _ & H1 & H2 & _ & H3 & H4); [done|]. unfold place_facts, reg. rewrite Hc, H1, H2, H3, H4. by rewrite Hpl.
  - destruct (place_of_register kFpuRegister r) as (l' & E' & _ & Hkl & Hpl); [by right|done|]. unfold FpuRegisterLocation in El. rewrite El in E'. injection E' as <-.
    destruct (kind_tests l 12 Hkl) as (_ & Hc & _ & _ & H1 & H2 & _ & H3 & H4); [done|]. unfold place_facts, fpu_reg. rewrite Hc, H1, H2, H3, H4. by rewrite Hpl.
Qed.

Lemma constant_facts c :
  IsConstant c = true ->
  (IsRegister c, IsStackSlot c, IsFpuRegister c, IsDoubleStackSlot c) = (false, false, false, false) /\
  exists a, constant_instruction c = Ok a.
Proof using.
  intros Hc. split; [|unfold constant_instruction; rewrite Hc; by eexists].
  unfold IsConstant in Hc. rewrite tag_mod in Hc. apply Z.eqb_eq in Hc. unfold kConstantTag in Hc.
  unfold IsRegister, IsStackSlot, IsFpuRegister, IsDoubleStackSlot, kRegister, kStackSlot, kFpuRegister, kDoubleStackSlot. rewrite kind_mod.
  repeat f_equal; apply Z.eqb_neq; divlia.
Qed.

(** *** Doubles *)

Lemma load_d_ok r i : PDoubleStackSlot i ∈ slots -> load_d r FPREG (slot_offset i) = Ok (LoadDFromOffset r FPREG (slot_offset i)).
Proof using FO.
  intros Hi. pose proof slots_ok as Hs. rewrite Forall_forall in Hs. destruct (Hs _ Hi) as (_ & _ & H1 & H2). unfold load_d. by rewrite H1, H2.
Qed.

Lemma store_d_ok r i : PDoubleStackSlot i ∈ slots -> store_d r FPREG (slot_offset i) = Ok (StoreDToOffset r FPREG (slot_offset i)).
Proof using FO.
  intros Hi. pose proof slots_ok as Hs. rewrite Forall_forall in Hs. destruct (Hs _ Hi) as (_ & _ & H1 & H2). unfold store_d. by rewrite H1, H2.
Qed.

Definition slot_pair (s : Machine) (i : Z) : Z * Z := (mem s (fp + slot_offset i), mem s (fp + slot_offset i + 4)).

Lemma exec_load_d s r i :
  R s FP = fp -> PDoubleStackSlot i ∈ slots -> exec_asm (LoadDFromOffset r FPREG (slot_offset i)) s = set_DR s r (slot_pair s i).
Proof using FO. intros HF Hi. simpl. unfold FPREG. rewrite HF. destruct (double_slot_address i Hi) as [-> ->]. done. Qed.

Lemma exec_store_d s r i :
  R s FP = fp -> PDoubleStackSlot i ∈ slots ->
  exec_asm (StoreDToOffset r FPREG (slot_offset i)) s = write_place (PDoubleStackSlot i) (VDouble (DR s r).1 (DR s r).2) s.
Proof using FO. intros HF Hi. simpl. unfold FPREG. rewrite HF. destruct (double_slot_address i Hi) as [-> ->]. done. Qed.

Lemma set_DTMP s w : eqvB 0 0 (set_DR s DTMP w) s.
Proof using. split; [done|]. split; [|done]. intros d Hd. simpl. by rewrite upd_ne. Qed.

Lemma set_TMP s w : eqvB 0 0 (set_R s TMP w) s.
Proof using. split; [|done]. intros d Hd. simpl. by rewrite upd_ne. Qed.

(** The exchange of two double slots through [DTMP] and another register. *)
Lemma exchange_double_slots s t i j :
  R s FP = fp -> PDoubleStackSlot i ∈ slots -> PDoubleStackSlot j ∈ slots -> i <> j -> t <> DTMP ->
  eqvB 0 0 (steps s [LoadDFromOffset DTMP FPREG (slot_offset i); LoadDFromOffset t FPREG (slot_offset j);
                     StoreDToOffset DTMP FPREG (slot_offset j); StoreDToOffset t FPREG (slot_offset i)])
    (writes [(PDoubleStackSlot i, read_place s (PDoubleStackSlot j)); (PDoubleStackSlot j, read_place s (PDoubleStackSlot i))]
       (set_DR s t (slot_pair s j))).
Proof using FO.
  intros HF Hi Hj Hij Ht. unfold steps. cbn [foldl flip].
  rewrite (exec_load_d s) by done. set (s1 := set_DR s DTMP (slot_pair s i)).
  rewrite (exec_load_d s1) by done. set (s2 := set_DR s1 t (slot_pair s1 j)).
  rewrite (exec_store_d s2) by done. set (s3 := write_place (PDoubleStackSlot j) _ s2).
  rewrite (exec_store_d s3) by done.
  assert (DR s2 DTMP = slot_pair s i) as E2 by (simpl; rewrite upd_ne by done; by rewrite upd_eq).
  assert (DR s3 t = slot_pair s j) as E3 by (simpl; by rewrite upd_eq).
  rewrite E3. unfold s3. rewrite E2. unfold writes. cbn [foldr fst snd].
  change (read_place s (PDoubleStackSlot ?k)) with (VDouble (slot_pair s k).1 (slot_pair s k).2).
  assert (eqvB 0 0 s2 (set_DR s t (slot_pair s j))) as Hs2 by (apply set_DR_proper; [apply set_DTMP|done|done]).
  cbn [write_place]. by repeat apply set_mem_proper.
Qed.

(** Saving and restoring the second register around it. *)
Lemma spilled_fpu_scope s t ops ws w :
  R s SP = sp -> t <> DTMP -> all_ok ws -> (forall v, (PFpuRegister t, v) ∉ ws) ->
  (forall s1, reads_as s s1 -> R s FP = R s1 FP -> eqvB 0 0 (steps s1 ops) (writes ws (set_DR s1 t w))) -> R s FP = fp ->
  eqv (steps s (SpillFpuScratch t ++ ops ++ RestoreFpuScratch t)) (writes ws s).
Proof using FO.
  intros HS Ht Hok Hnt Hops HF. unfold steps. rewrite !foldl_app. unfold SpillFpuScratch. cbn [foldl flip].
  pose proof stack_room as Hroom.
  assert (exec_asm (AddImmediate SP (- kDoubleSize)) s = set_R s SP (sp - 8)) as ->.
  { unfold exec_asm. rewrite HS. replace (sp + - kDoubleSize) with (sp - 8) by (unfold kDoubleSize; lia). by rewrite spill_address by lia. }
  set (s0 := set_R s SP (sp - 8)). assert (R s0 SP = sp - 8) as HS0 by (simpl; by rewrite upd_eq).
  set (s1 := exec_asm (StoreDToOffset t SP 0) s0).
  assert (s1 = set_mem (set_mem s0 (sp - 8) (DR s t).1) (sp - 4) (DR s t).2) as E1.
  { unfold s1, exec_asm. rewrite HS0. replace (sp - 8 + 0) with (sp - 8) by lia. replace (sp - 8 + 4) with (sp - 4) by lia.
    by rewrite !spill_address by lia. }
  assert (reads_as s s1) as Hreads.
  { split; [rewrite E1; simpl; by rewrite upd_ne|]. intros p Hp. rewrite E1.
    assert (forall a, p ∈ slots -> a ∈ words p -> a <> sp - 8 /\ a <> sp - 4) as Hw by (intros a Hps Ha; pose proof (slots_word p a Hps Ha); lia).
    destruct p; simpl in *; try done; rewrite ?upd_ne; try done; try (by apply Hw; (done || left || (right; left))). by destruct Hp as (_ & ? & _). }
  assert (R s1 FP = R s FP) as HF1 by (rewrite E1; simpl; by rewrite upd_ne).
  pose proof (Hops s1 Hreads (eq_sym HF1)) as H2. unfold steps in H2. set (s2 := foldl (flip exec_asm) s1 ops) in *. clearbody s2.
  clearbody s1. pose proof H2 as (HR & HD & Hm).
  assert (R s2 SP = sp - 8) as HS2.
  { rewrite HR by done. rewrite writes_pointer by auto. simpl. rewrite E1. done. }
  assert (forall a, a < sp -> mem s2 a = mem s1 a) as Hbelow.
  { intros a Ha. rewrite Hm by lia. by rewrite writes_below by done. }
  assert (exec_asm (LoadDFromOffset t SP 0) s2 = set_DR s2 t (DR s t)) as E3.
  { unfold exec_asm. rewrite HS2. replace (sp - 8 + 0) with (sp - 8) by lia. replace (sp - 8 + 4) with (sp - 4) by lia.
    rewrite !spill_address, !Hbelow by lia. rewrite E1. simpl. rewrite upd_ne, !upd_eq by lia. by destruct (DR s t). }
  unfold RestoreFpuScratch. cbn [foldl flip]. rewrite E3.
  assert (exec_asm (AddImmediate SP kDoubleSize) (set_DR s2 t (DR s t)) = set_R (set_DR s2 t (DR s t)) SP sp) as ->.
  { simpl. rewrite HS2. unfold kDoubleSize. replace (sp - 8 + 8) with (sp - 0) by lia. rewrite spill_address by lia. by rewrite Z.sub_0_r. }
  split; [|split]; simpl.
  - intros x Hx. unfold upd at 1. destruct (Z.eqb_spec x SP) as [->|HxS]; [by rewrite writes_pointer by auto|].
    rewrite HR by done. apply writes_R. simpl. rewrite E1. simpl. by rewrite upd_ne.
  - intros d Hd. unfold upd at 1. destruct (Z.eqb_spec d t) as [->|Hdt].
    + symmetry. clear -Hnt. induction ws as [|[p v] ws IH]; simpl; [done|].
      assert (DR (writes ws s) t = DR s t) as HI by (apply IH; intros v' Hv'; apply (Hnt v'); by right).
      destruct p, v; simpl; try done. rewrite upd_ne; [done|]. intros ->. apply (Hnt (VDouble lo hi)). left.
    + rewrite HD by done. apply writes_DR. simpl. rewrite upd_ne by done. by rewrite E1.
  - intros a Ha. rewrite Hm by lia. apply writes_mem. simpl. rewrite E1. simpl. rewrite !upd_ne by lia. done.
Qed.

(** *** Moves *)

(** The code writes [ws], and perhaps scratch locations before that. *)
Definition effect (ms : list MoveOperands) (s : Machine) (code : list Asm) (ws : list (place * value)) : Prop :=
  exists clob, clobbers ms clob /\ eqv (steps s code) (writes (ws ++ clob) s).

Lemma clobbers_nil ms : clobbers ms [].
Proof using. split; [constructor|]. intros p v H. by apply not_elem_of_nil in H. Qed.

Lemma effect_exact ms s code ws : eqvB 0 0 (steps s code) (writes ws s) -> effect ms s code ws.
Proof using. intros H. exists []. split; [apply clobbers_nil|]. rewrite app_nil_r. by apply eqvB_exact. Qed.

(** A scope whose body uses its register and nothing else. *)
Lemma scope_effect im ms blocked body s ws :
  Forall operands_wf ms -> -1 <= blocked < 32 -> machine_ok s -> all_ok ws ->
  (forall t, 2 <= t <= 21 -> t <> blocked -> (forall v, (PRegister t, v) ∉ ws) /\
    exists ops, body t = Ok ops /\ forall s1, reads_as s s1 -> exists w, eqvB 0 0 (steps s1 ops) (writes ws (set_R s1 t w))) ->
  exists code, ScratchRegisterScope im ms blocked body = Ok code /\ effect ms s code ws.
Proof using FO.
  intros Hwf Hb (HF & HS & _) Hok Hbody.
  destruct (ScratchRegisterScope_ok im ms blocked body s sp ws) as (code & E & clob & Hcl & _ & He); try done; [lia| |].
  - intros t Ht Htb. destruct (Hbody t Ht Htb) as (Hnt & ops & Eo & Hops). split; [done|]. exists ops. split; [done|].
    intros s1 Hs1 _. destruct (Hops s1 Hs1) as (w & He). exists [], w. split; [apply clobbers_nil|].
    split; [intros v; apply not_elem_of_nil|]. split; [intros v; apply not_elem_of_nil|]. rewrite app_nil_r. by apply eqvB_exact.
  - exists code. split; [done|]. by exists clob.
Qed.

Lemma scratch_register_ne t : 2 <= t <= 21 -> t <> TMP /\ t <> FP.
Proof using. unfold TMP, AT, FP, R1, R30. lia. Qed.

(** Evaluates the tests that the code generator makes on the locations of known places. *)
Local Ltac emit_code :=
  repeat match goal with H : place_facts _ _ |- _ => destruct H as [? H]; simpl in H; destruct_and? end;
  repeat match goal with H : (_, _, _, _) = (_, _, _, _) |- _ => injection H as ? ? ? ? end;
  repeat match goal with H : ?f ?l = _ |- context [?f ?l] => rewrite H end; cbn [assert_ mbind result_bind andb orb negb].

Lemma move_word_effect im ms s ps pd ls ld :
  machine_ok s -> Forall operands_wf ms -> place_ok ps -> place_ok pd -> is_double ps = false -> is_double pd = false ->
  location_of ps = Ok ls -> location_of pd = Ok ld ->
  exists code, Mips_EmitMove im ms ls ld = Ok code /\ effect ms s code [(pd, read_place s ps)].
Proof using FO.
  intros Hm Hwf Hps Hpd Hds Hdd Es Ed.
  pose proof (place_facts_ok ps ls Hps Es) as Fs. pose proof (place_facts_ok pd ld Hpd Ed) as Fd. pose proof Hm as (HF & HS & _).
  unfold Mips_EmitMove. destruct ps as [| | | |i b| | |r|]; try done; destruct pd as [| | | |j b'| | |d|]; try done; emit_code.
  - apply scope_effect; [done|vm_compute; done|done|by repeat constructor|]. intros t Ht _. destruct (scratch_register_ne t Ht).
    split; [intros v [=]%list_elem_of_singleton|]. eexists. split; [done|]. intros s1 (HF1 & Hr).
    eexists. rewrite (copy_slot s1 t i b j b') by done. pose proof (Hr _ Hps) as Hri. simpl in Hri. injection Hri as Hri. by rewrite Hri.
  - eexists. split; [done|]. apply effect_exact. unfold steps. cbn [foldl flip]. by rewrite (exec_load s d i b).
  - eexists. split; [done|]. apply effect_exact. unfold steps. cbn [foldl flip]. rewrite (exec_store s r j b'); [done|done|done|].
    unfold TMP, AT, R1. simpl in Hps. lia.
  - eexists. split; [done|]. by apply effect_exact.
Qed.

Lemma move_double_effect im ms s ps pd ls ld :
  machine_ok s -> place_ok ps -> place_ok pd -> is_double ps = true -> is_double pd = true ->
  location_of ps = Ok ls -> location_of pd = Ok ld ->
  exists code, Mips_EmitMove im ms ls ld = Ok code /\ effect ms s code [(pd, read_place s ps)].
Proof using FO.
  intros Hm Hps Hpd Hds Hdd Es Ed.
  pose proof (place_facts_ok ps ls Hps Es) as Fs. pose proof (place_facts_ok pd ld Hpd Ed) as Fd. pose proof Hm as (HF & HS & _).
  unfold Mips_EmitMove. destruct ps as [| | | | |i| | |r]; try done; destruct pd as [| | | | |j| | |d]; try done; emit_code.
  - simpl in Hps, Hpd. rewrite load_d_ok, store_d_ok by done. cbn [mbind result_bind]. eexists. split; [done|]. apply effect_exact.
    unfold steps. cbn [foldl flip]. rewrite exec_load_d by done. rewrite exec_store_d by done. simpl DR. rewrite upd_eq.
    unfold writes. cbn [foldr fst snd write_place]. repeat apply set_mem_proper; try done. apply set_DTMP.
  - simpl in Hps. rewrite load_d_ok by done. cbn [mbind result_bind]. eexists. split; [done|]. apply effect_exact.
    unfold steps. cbn [foldl flip]. by rewrite exec_load_d.
  - simpl in Hpd. rewrite store_d_ok by done. cbn [mbind result_bind]. eexists. split; [done|]. apply effect_exact.
    unfold steps. cbn [foldl flip]. by rewrite exec_store_d.
  - eexists. split; [done|]. apply effect_exact. unfold steps, writes. simpl. by destruct (DR s r).
Qed.

(** What a constant puts into a place. *)
Definition constant_word (a : Z) : Z := match unboxed_int32 a with Some v => u32 v | None => object_pointer a end.

Definition value_address (a : Z) : Z := object_pointer a + (Double_value_offset - kHeapObjectTag).

Definition constant_double (a : Z) : value :=
  VDouble (default 0 (heap (u32 (value_address a)))) (default 0 (heap (u32 (value_address a + 4)))).

Definition constant_place_value (p : place) (a : Z) : value := if is_double p then constant_double a else VWord (constant_word a).

(** A double constant is an object with its value in the heap. *)
Definition double_constant_ok (a : Z) : Prop :=
  is_Some (heap (u32 (value_address a))) /\ is_Some (heap (u32 (value_address a + 4))) /\
  Utils.IsInt 16 (Double_value_offset - kHeapObjectTag) = true /\ Utils.IsInt 16 (Double_value_offset - kHeapObjectTag + 4) = true.

Lemma load_double_constant s a r :
  machine_ok s -> double_constant_ok a ->
  load_d r TMP (Double_value_offset - kHeapObjectTag) = Ok (LoadDFromOffset r TMP (Double_value_offset - kHeapObjectTag)) /\
  exists lo hi, constant_double a = VDouble lo hi /\
    steps s [LoadObject TMP a; LoadDFromOffset r TMP (Double_value_offset - kHeapObjectTag)] =
      set_DR (set_R s TMP (object_pointer a)) r (lo, hi).
Proof using.
  intros (_ & _ & Hh) ([lo Hlo] & [hi Hhi] & H1 & H2). split; [unfold load_d; by rewrite H1, H2|].
  exists lo, hi. unfold constant_double. rewrite Hlo, Hhi. split; [done|]. unfold steps. cbn [foldl flip exec_asm set_R R mem].
  rewrite upd_eq. fold (value_address a). by rewrite (Hh _ _ Hlo), (Hh _ _ Hhi).
Qed.

Lemma load_constant_effect s rd a : exec_asm (load_constant rd a) s = set_R s rd (constant_word a).
Proof using. unfold load_constant, constant_word. by destruct (unboxed_int32 a). Qed.

Lemma move_constant_effect im ms s c a pd ld :
  machine_ok s -> Forall operands_wf ms -> IsConstant c = true -> constant_instruction c = Ok a -> place_ok pd ->
  (is_double pd = true -> double_constant_ok a) -> location_of pd = Ok ld ->
  exists code, Mips_EmitMove im ms c ld = Ok code /\ effect ms s code [(pd, constant_place_value pd a)].
Proof using FO.
  intros Hm Hwf Hc Ha Hpd Hdbl Ed. pose proof (place_facts_ok pd ld Hpd Ed) as Fd. pose proof Hm as (HF & HS & _).
  destruct (constant_facts c Hc) as [Fc _]. unfold Mips_EmitMove. unfold constant_place_value.
  destruct pd as [| | | |j b'|j| |d|d]; try done; simpl in Hdbl; emit_code.
  - apply scope_effect; [done|vm_compute; done|done|by repeat constructor|]. intros t Ht _. destruct (scratch_register_ne t Ht).
    split; [intros v [=]%list_elem_of_singleton|]. eexists. split; [done|]. intros s1 (HF1 & _).
    exists (constant_word a). unfold steps. cbn [foldl flip]. rewrite load_constant_effect.
    rewrite (exec_store _ t j b'); [|simpl; by rewrite upd_ne|done|done]. simpl. by rewrite upd_eq.
  - simpl in Hpd. destruct (load_double_constant s a DTMP Hm (Hdbl eq_refl)) as (-> & lo & hi & -> & Est). cbn [mbind result_bind].
    rewrite store_d_ok by done. cbn [mbind result_bind]. eexists. split; [done|]. apply effect_exact.
    change (?x :: ?y :: [?z]) with ([x; y] ++ [z]). unfold steps in *. rewrite foldl_app, Est. cbn [foldl flip].
    rewrite exec_store_d by done. simpl DR. rewrite upd_eq. unfold writes. cbn [foldr fst snd write_place].
    repeat apply set_mem_proper; try done. rewrite set_DTMP. apply set_TMP.
  - eexists. split; [done|]. apply effect_exact. unfold steps. cbn [foldl flip]. by rewrite load_constant_effect.
  - destruct (load_double_constant s a d Hm (Hdbl eq_refl)) as (-> & lo & hi & -> & Est). cbn [mbind result_bind].
    eexists. split; [done|]. apply effect_exact. rewrite Est. unfold writes. cbn [foldr fst snd write_place].
    apply set_DR_proper; [apply set_TMP|done|done].
Qed.

(** *** Swaps *)

Lemma all_ok_pair p v q w : place_ok p -> place_ok q -> all_ok [(p, v); (q, w)].
Proof using. intros Hp Hq. constructor; [done|]. by constructor. Qed.

Lemma Exchange_effect im ms s r i b :
  machine_ok s -> Forall operands_wf ms -> place_ok (PRegister r) -> PStackSlot i b ∈ slots ->
  exists code, Exchange im ms r FPREG (slot_offset i) = Ok code /\
    effect ms s code [(PStackSlot i b, read_place s (PRegister r)); (PRegister r, read_place s (PStackSlot i b))].
Proof using FO.
  intros Hm Hwf Hr Hi. unfold Exchange. apply scope_effect; [done|simpl in Hr; lia|done|by apply all_ok_pair|].
  intros t Ht Htd. destruct (scratch_register_ne t Ht). split; [intros v [[=]|[= ?]%list_elem_of_singleton]%elem_of_cons; congruence|].
  eexists. split; [done|]. intros s1 (HF1 & Hread). exists (R s1 r).
  rewrite (exchange_register_slot s1 t r i b); try done; [|simpl in Hr; unfold TMP, AT, R1; lia|by destruct Hr as (_ & _ & ?)].
  pose proof (Hread _ Hr) as Hrr. pose proof (Hread (PStackSlot i b) Hi) as Hri. simpl in Hri, Hrr. injection Hri as Hri. injection Hrr as Hrr.
  unfold writes. simpl. by rewrite Hri, Hrr.
Qed.

Lemma set_R_writes ws s t w :
  (forall v, (PRegister t, v) ∉ ws) -> eqvB 0 0 (set_R (writes ws s) t w) (writes ws (set_R s t w)).
Proof using.
  intros Hn. split; [|split].
  - intros x _. simpl. unfold upd at 1. destruct (Z.eqb_spec x t) as [->|Hx].
    + rewrite writes_R_other by done. simpl. by rewrite upd_eq.
    + apply writes_R. simpl. by rewrite upd_ne.
  - intros d _. by apply writes_DR.
  - intros a _. by apply writes_mem.
Qed.

(** The scope of the second register inside the scope of the first. *)
Lemma Exchange_inner im ms s t1 i b j b' s1 :
  let ws := [(PStackSlot i b, read_place s (PStackSlot j b')); (PStackSlot j b', read_place s (PStackSlot i b))] in
  Forall operands_wf ms -> PStackSlot i b ∈ slots -> PStackSlot j b' ∈ slots -> 2 <= t1 <= 21 ->
  reads_as s s1 -> R s1 SP = sp \/ R s1 SP = sp - 4 ->
  exists code, ScratchRegisterScope im ms t1 (fun tmp2 =>
      Ok [LoadFromOffset t1 FPREG (slot_offset i); LoadFromOffset tmp2 FPREG (slot_offset j);
          StoreToOffset t1 FPREG (slot_offset j); StoreToOffset tmp2 FPREG (slot_offset i)]) = Ok code /\
    exists clob w, clobbers ms clob /\ (forall v, (PRegister t1, v) ∉ clob) /\
      eqvB (sp - 8) (R s1 SP) (steps s1 code) (writes (ws ++ clob) (set_R s1 t1 w)).
Proof using FO.
  intros ws Hwf Hi Hj Ht1 Hr HS. pose proof Hr as [HF Hread]. destruct (scratch_register_ne t1 Ht1) as [Ht1T Ht1F].
  assert (place_ok (PRegister t1)) as Hp1 by (simpl; unfold SP, FP, R29, R30; lia).
  pose proof (Hread (PStackSlot i b) Hi) as Hri. pose proof (Hread (PStackSlot j b') Hj) as Hrj. simpl in Hri, Hrj. injection Hri as Hri. injection Hrj as Hrj.
  set (v1 := mem s (fp + slot_offset i)) in *. set (v2 := mem s (fp + slot_offset j)) in *.
  destruct (ScratchRegisterScope_ok im ms t1 (fun tmp2 =>
      Ok [LoadFromOffset t1 FPREG (slot_offset i); LoadFromOffset tmp2 FPREG (slot_offset j);
          StoreToOffset t1 FPREG (slot_offset j); StoreToOffset tmp2 FPREG (slot_offset i)])
      s1 (R s1 SP) (ws ++ [(PRegister t1, VWord v1)])) as (code & E & clob & Hcl & Hnt & He); try done; [lia|lia|by apply Forall_app; split; [apply all_ok_pair|constructor]| |].
  - intros t2 Ht2 Hne. destruct (scratch_register_ne t2 Ht2) as [Ht2T Ht2F].
    split; [intros v [[=]|[[=]|[= ? ?]%list_elem_of_singleton]%elem_of_cons]%elem_of_cons; congruence|].
    eexists. split; [done|]. intros s2 [HF2 Hread2] _. exists [], v2. split; [apply clobbers_nil|].
    split; [intros v; apply not_elem_of_nil|]. split; [intros v; apply not_elem_of_nil|]. rewrite app_nil_r. apply eqvB_exact.
    rewrite (exchange_slots s2 t1 t2 i b j b') by done.
    pose proof (Hread2 (PStackSlot i b) Hi) as Hi2. pose proof (Hread2 (PStackSlot j b') Hj) as Hj2. simpl in Hi2, Hj2.
    injection Hi2 as Hi2. injection Hj2 as Hj2. rewrite Hi2, Hj2, Hri, Hrj. unfold writes, ws. cbn [app foldr fst snd write_place read_place]. fold v1 v2.
    do 2 (apply set_mem_proper; [|done..]). split; [|done]. intros x _. simpl. unfold upd. by destruct (Z.eqb_spec x t2), (Z.eqb_spec x t1); congruence.
  - exists code. split; [done|]. exists clob, v1. split; [done|]. split; [done|]. rewrite He. apply eqvB_exact.
    unfold writes. rewrite !foldr_app. cbn [foldr fst snd write_place]. fold (writes clob s1). fold (writes clob (set_R s1 t1 v1)).
    apply (writes_eqvB ws). by apply set_R_writes.
Qed.

Lemma Exchange_slots_effect im ms s i b j b' :
  machine_ok s -> Forall operands_wf ms -> PStackSlot i b ∈ slots -> PStackSlot j b' ∈ slots ->
  exists code, Exchange_slots im ms FPREG (slot_offset i) FPREG (slot_offset j) = Ok code /\
    effect ms s code [(PStackSlot i b, read_place s (PStackSlot j b')); (PStackSlot j b', read_place s (PStackSlot i b))].
Proof using FO.
  intros (HF & HS & _) Hwf Hi Hj. unfold Exchange_slots. set (ws := [_; _]).
  match goal with |- context [ScratchRegisterScope im ms kNoRegister ?body] =>
    destruct (ScratchRegisterScope_ok im ms kNoRegister body s sp ws) as (code & -> & clob & Hcl & _ & He); try done end;
    [lia|by apply all_ok_pair| |exists code; split; [done|by exists clob]].
  intros t1 Ht1 _. split; [by intros v [[=]|[=]%list_elem_of_singleton]%elem_of_cons|].
  destruct (Exchange_inner im ms s t1 i b j b' s) as (code & E & _); [done..|by left|].
  exists code. split; [done|]. intros s1 Hr HS1. destruct (Exchange_inner im ms s t1 i b j b' s1) as (code' & E' & clob & w & Hcl & Hnt & He); [done..|].
  rewrite E in E'. injection E' as <-. exists clob, w. split; [done|]. split; [done|]. split; [|done].
  intros v Hv. destruct Hcl as [Hok _]. unfold all_ok in Hok. rewrite Forall_forall in Hok. destruct (Hok _ Hv) as [Hb _]. unfold kNoRegister in Hb. simpl in Hb. lia.
Qed.

(** The two values end up exchanged, in either order of writing. *)
Definition exchanged (s : Machine) (p q : place) (ws : list (place * value)) : Prop :=
  ws = [(q, read_place s p); (p, read_place s q)] \/ ws = [(p, read_place s q); (q, read_place s p)].

Lemma swap_word_effect im ms s ps pd ls ld :
  machine_ok s -> Forall operands_wf ms -> place_ok ps -> place_ok pd -> is_double ps = false -> is_double pd = false -> ps <> pd ->
  location_of ps = Ok ls -> location_of pd = Ok ld ->
  exists code ws, Mips_EmitSwap im ms ls ld = Ok code /\ effect ms s code ws /\ exchanged s ps pd ws.
Proof using FO.
  intros Hm Hwf Hps Hpd Hds Hdd Hne Es Ed.
  pose proof (place_facts_ok ps ls Hps Es) as Fs. pose proof (place_facts_ok pd ld Hpd Ed) as Fd.
  unfold Mips_EmitSwap. destruct ps as [| | | |i b| | |r|]; try done; destruct pd as [| | | |j b'| | |d|]; try done; emit_code.
  - destruct (Exchange_slots_effect im ms s i b j b') as (code & E & He); [done..|]. rewrite E. eexists _, _. split; [done|]. split; [exact He|by right].
  - destruct (Exchange_effect im ms s d i b) as (code & E & He); [done..|]. rewrite E. eexists _, _. split; [done|]. split; [exact He|by right].
  - destruct (Exchange_effect im ms s r j b') as (code & E & He); [done..|]. rewrite E. eexists _, _. split; [done|]. split; [exact He|by left].
  - simpl in Hps, Hpd. assert (r <> TMP /\ d <> TMP /\ r <> d) as (HrT & HdT & Hrd).
    { unfold TMP, AT, R1. split; [lia|]. split; [lia|congruence]. }
    rewrite (proj2 (Z.eqb_neq r TMP)), (proj2 (Z.eqb_neq d TMP)) by done. cbn [assert_ mbind result_bind negb].
    eexists _, _. split; [done|]. split; [|by left]. apply effect_exact. unfold steps, writes. simpl.
    rewrite (upd_ne _ r _ TMP), upd_eq, (upd_ne _ TMP) by congruence. split; [|done]. intros x Hx. simpl. unfold upd.
    destruct (Z.eqb_spec x d), (Z.eqb_spec x r); try done. all: rewrite ?(proj2 (Z.eqb_neq r TMP)), ?(proj2 (Z.eqb_neq d TMP)), ?(proj2 (Z.eqb_neq x TMP)) by done; try done.
Qed.

(** A register and a slot are exchanged through [DTMP]. *)
Lemma exchange_double s d i :
  machine_ok s -> place_ok (PFpuRegister d) -> PDoubleStackSlot i ∈ slots ->
  exists ops, (a ← load_d DTMP FPREG (slot_offset i); b ← store_d d FPREG (slot_offset i); Ok [a; b; movd d DTMP]) = Ok ops /\
    eqvB 0 0 (steps s ops)
      (writes [(PFpuRegister d, read_place s (PDoubleStackSlot i)); (PDoubleStackSlot i, read_place s (PFpuRegister d))] s).
Proof using FO.
  intros (HF & _) [_ Hd] Hi. rewrite load_d_ok, store_d_ok by done. cbn [mbind result_bind]. eexists. split; [done|].
  unfold steps. cbn [foldl flip]. rewrite exec_load_d by done. rewrite exec_store_d by done.
  simpl DR at 1 2. rewrite upd_ne by done. unfold writes. cbn [foldr fst snd read_place write_place exec_asm]. cbn [DR set_mem set_DR]. rewrite upd_eq.
  apply set_DR_proper; [|done|done]. do 2 (apply set_mem_proper; [|done..]). apply set_DTMP.
Qed.

Lemma double_scope_effect ms s i j :
  machine_ok s -> Forall operands_wf ms -> PDoubleStackSlot i ∈ slots -> PDoubleStackSlot j ∈ slots -> i <> j ->
  exists code, ScratchFpuRegisterScope ms DTMP (fun scratch =>
      a ← load_d DTMP FPREG (slot_offset i); b ← load_d scratch FPREG (slot_offset j);
      c ← store_d DTMP FPREG (slot_offset j); d ← store_d scratch FPREG (slot_offset i); Ok [a; b; c; d]) = Ok code /\
    effect ms s code [(PDoubleStackSlot i, read_place s (PDoubleStackSlot j)); (PDoubleStackSlot j, read_place s (PDoubleStackSlot i))].
Proof using FO.
  intros (HF & HS & _) Hwf Hi Hj Hij. unfold ScratchFpuRegisterScope. change (negb (DTMP =? kNoDRegister)) with true. cbv iota zeta.
  destruct (fpu_scratch_ok ms Hwf) as (t & spilled & -> & Ht & HtD & Hsc). cbn [mbind result_bind].
  rewrite !load_d_ok, !store_d_ok by done. cbn [mbind result_bind]. eexists. split; [done|].
  assert (forall s1, reads_as s s1 -> R s FP = R s1 FP -> eqvB 0 0 (steps s1 [LoadDFromOffset DTMP FPREG (slot_offset i); LoadDFromOffset t FPREG (slot_offset j);
      StoreDToOffset DTMP FPREG (slot_offset j); StoreDToOffset t FPREG (slot_offset i)])
    (writes [(PDoubleStackSlot i, read_place s (PDoubleStackSlot j)); (PDoubleStackSlot j, read_place s (PDoubleStackSlot i))] (set_DR s1 t (slot_pair s j)))) as Hbody.
  { intros s1 [HF1 Hr] _. rewrite (exchange_double_slots s1 t i j) by done.
    rewrite (Hr (PDoubleStackSlot i)), (Hr (PDoubleStackSlot j)) by done.
    pose proof (Hr (PDoubleStackSlot j) Hj) as Hrj. simpl in Hrj. injection Hrj as H1 H2. unfold slot_pair. by rewrite H1, H2. }
  destruct spilled.
  - exists []. split; [apply clobbers_nil|]. rewrite app_nil_r.
    apply (spilled_fpu_scope s t _ _ (slot_pair s j)); try done; [by apply all_ok_pair|].
    intros v [[=]|[=]%list_elem_of_singleton]%elem_of_cons.
  - exists [(PFpuRegister t, VDouble (slot_pair s j).1 (slot_pair s j).2)]. split.
    + split; [by constructor|]. intros p v [= -> ->]%list_elem_of_singleton. by apply Hsc.
    + apply eqvB_exact, Hbody; [done|done].
Qed.

Lemma swap_double_effect im ms s ps pd ls ld :
  machine_ok s -> Forall operands_wf ms -> place_ok ps -> place_ok pd -> is_double ps = true -> is_double pd = true -> ps <> pd ->
  location_of ps = Ok ls -> location_of pd = Ok ld ->
  exists code ws, Mips_EmitSwap im ms ls ld = Ok code /\ effect ms s code ws /\ exchanged s ps pd ws.
Proof using FO.
  intros Hm Hwf Hps Hpd Hds Hdd Hne Es Ed.
  pose proof (place_facts_ok ps ls Hps Es) as Fs. pose proof (place_facts_ok pd ld Hpd Ed) as Fd.
  unfold Mips_EmitSwap. destruct ps as [| | | | |i| | |r]; try done; destruct pd as [| | | | |j| | |d]; try done; emit_code.
  - destruct (double_scope_effect ms s i j) as (code & E & He); [done..|congruence|]. rewrite E. eexists _, _. split; [done|]. split; [exact He|by right].
  - destruct (exchange_double s d i) as (code & E & He); [done..|]. rewrite E. eexists _, _. split; [done|]. split; [by apply effect_exact|by left].
  - destruct (exchange_double s r j) as (code & E & He); [done..|]. rewrite E. eexists _, _. split; [done|]. split; [by apply effect_exact|by right].
  - simpl in Hps, Hpd. assert (r <> DTMP /\ d <> DTMP /\ r <> d) as (HrT & HdT & Hrd) by (destruct Hps, Hpd; repeat split; congruence).
    eexists _, _. split; [done|]. split; [|by left]. apply effect_exact. unfold steps, writes. simpl.
    rewrite (upd_ne _ r _ DTMP), upd_eq, (upd_ne _ DTMP) by congruence. split; [done|]. split; [|done]. intros x Hx. simpl. unfold upd.
    rewrite <- !surjective_pairing. destruct (Z.eqb_spec x d), (Z.eqb_spec x r); try done. all: rewrite ?(proj2 (Z.eqb_neq r DTMP)), ?(proj2 (Z.eqb_neq d DTMP)), ?(proj2 (Z.eqb_neq x DTMP)) by done; try done.
Qed.

(** ** The promise to the resolver *)

Lemma machine_ok_writes ws s : machine_ok s -> all_ok ws -> machine_ok (writes ws s).
Proof using FO. intros Hm Hok. induction Hok as [|[p v] ws Hp Hws IH]; simpl; [done|]. by apply machine_ok_write. Qed.

Lemma read_writes_other ws s q :
  all_ok ws -> place_ok q -> (forall v, (q, v) ∉ ws) -> read_place (writes ws s) q = read_place s q.
Proof using FO.
  intros Hok Hq. induction Hok as [|[p v] ws Hp Hws IH]; intros Hn; simpl; [done|].
  rewrite read_write_other; [|done|done|intros ->; by apply (Hn v); left].
  apply IH. intros w Hw. apply (Hn w). by right.
Qed.

Lemma typed_read s p q : place_ok q -> is_double p = is_double q -> typed p (read_place s q).
Proof using. intros Hq Hd. destruct q; simpl in *; done. Qed.

Lemma place_unique p q l : place_ok p -> place_ok q -> location_of p = Ok l -> location_of q = Ok l -> p = q.
Proof using FO.
  intros Hp Hq Ep Eq. destruct (place_location p Hp) as (l1 & E1 & H1). destruct (place_location q Hq) as (l2 & E2 & H2). congruence.
Qed.

(** What an effect leaves behind: a well-formed machine, the values written, the rest. *)
Lemma effect_reads ms s code ws :
  machine_ok s -> all_ok ws -> effect ms s code ws ->
  machine_ok (steps s code) /\
  (forall p v rest, ws = (p, v) :: rest -> typed p v -> read_place (steps s code) p = v) /\
  (forall p v q w rest, ws = (p, v) :: (q, w) :: rest -> p <> q -> typed q w -> read_place (steps s code) q = w) /\
  (forall q l, place_ok q -> location_of q = Ok l -> ~ scratch ms l -> (forall v, (q, v) ∉ ws) ->
     read_place (steps s code) q = read_place s q).
Proof using FO.
  intros Hm Hok (clob & [Hcok Hcs] & He). assert (all_ok (ws ++ clob)) as Hall by (by apply Forall_app).
  split; [|split; [|split]].
  - eapply machine_ok_eqv; [|done]. by apply machine_ok_writes.
  - intros p v rest -> Ht. inversion Hok as [|? ? Hp _]; subst. rewrite (read_eqv _ _ _ He) by done. simpl. by apply read_write_same.
  - intros p v q w rest -> Hpq Ht. inversion Hok as [|? ? Hp Hok']; subst. inversion Hok' as [|? ? Hq _]; subst.
    rewrite (read_eqv _ _ _ He) by done. simpl. rewrite read_write_other by done. by apply read_write_same.
  - intros q l Hq El Hns Hnw. rewrite (read_eqv _ _ _ He) by done. apply read_writes_other; [done|done|].
    intros v [?|Hv]%elem_of_app; [by apply (Hnw v)|]. destruct (Hcs q v Hv) as (l' & El' & Hs). by rewrite El in El'; injection El' as <-.
Qed.

Definition read_location (s : Machine) (l : Location) : value :=
  match place_of l with Ok p => read_place s p | Err _ => VWord 0 end.

Definition location_allocated (l : Location) : Prop := exists p, place_ok p /\ location_of p = Ok l.

Definition location_kind (l : Location) : Z :=
  match place_of l with Ok p => if is_double p then 1 else 0 | Err _ => 0 end.

Definition location_constant_ok (d c : Location) : Prop :=
  IsConstant c = true /\ forall p a, place_of d = Ok p -> constant_instruction c = Ok a -> is_double p = true -> double_constant_ok a.

Definition location_constant_value (d c : Location) : value :=
  match place_of d, constant_instruction c with Ok p, Ok a => constant_place_value p a | _, _ => VWord 0 end.

Lemma allocated_place l : location_allocated l -> exists p, place_ok p /\ location_of p = Ok l /\ place_of l = Ok p.
Proof using FO. intros (p & Hp & El). exists p. destruct (place_location p Hp) as (l' & El' & Hl). by rewrite El in El'; injection El' as <-. Qed.

Lemma kinds_agree l m p q :
  place_of l = Ok p -> place_of m = Ok q -> location_kind l = location_kind m -> is_double p = is_double q.
Proof using. unfold location_kind. intros -> ->. by destruct (is_double p), (is_double q). Qed.

(** Reads of the other locations after an effect. *)
Lemma effect_others ms s code ws :
  machine_ok s -> all_ok ws -> effect ms s code ws ->
  forall l, location_allocated l -> ~ scratch ms l -> (forall p v, (p, v) ∈ ws -> location_of p <> Ok l) ->
    read_location (steps s code) l = read_location s l.
Proof using FO.
  intros Hm Hok He l Hl Hs Hn. destruct (allocated_place l Hl) as (p & Hp & El & Pl). unfold read_location. rewrite Pl.
  destruct (effect_reads ms s code ws Hm Hok He) as (_ & _ & _ & Hother). eapply Hother; try done. intros v Hv. by apply (Hn p v).
Qed.

Lemma mips_move_ok im ms s src dest :
  machine_ok s -> Forall operands_wf ms -> location_allocated dest -> src <> dest ->
  (location_allocated src /\ location_kind src = location_kind dest) \/ location_constant_ok dest src ->
  exists ops, Mips_EmitMove im ms src dest = Ok ops /\ machine_ok (steps s ops) /\
    read_location (steps s ops) dest = (if IsConstant src then location_constant_value dest src else read_location s src) /\
    forall l, location_allocated l -> l <> dest -> ~ scratch ms l -> read_location (steps s ops) l = read_location s l.
Proof using FO.
  intros Hm Hwf Hd Hne Hsrc. destruct (allocated_place dest Hd) as (pd & Hpd & Ed & Pd).
  assert (exists ops v, Mips_EmitMove im ms src dest = Ok ops /\ effect ms s ops [(pd, v)] /\ typed pd v /\
    v = (if IsConstant src then location_constant_value dest src else read_location s src)) as (ops & v & E & He & Ht & Ev).
  { destruct Hsrc as [[Hs Hk]|[Hc Hcd]].
    - destruct (allocated_place src Hs) as (ps & Hps & Es & Ps). pose proof (kinds_agree _ _ _ _ Ps Pd Hk) as Hdbl.
      destruct (place_facts_ok ps src Hps Es) as [Hnc _]. rewrite Hnc. unfold read_location. rewrite Ps.
      destruct (is_double ps) eqn:Eps.
      + destruct (move_double_effect im ms s ps pd src dest) as (ops & E & He); try done.
        eexists _, _. split; [done|]. split; [done|]. split; [|done]. apply typed_read; [done|congruence].
      + destruct (move_word_effect im ms s ps pd src dest) as (ops & E & He); try done.
        eexists _, _. split; [done|]. split; [done|]. split; [|done]. apply typed_read; [done|congruence].
    - destruct (constant_facts src Hc) as [_ [a Ha]]. rewrite Hc. unfold location_constant_value. rewrite Pd, Ha.
      destruct (move_constant_effect im ms s src a pd dest) as (ops & E & He); try done. { by apply Hcd. }
      eexists _, _. split; [done|]. split; [done|]. split; [|done]. unfold constant_place_value. by destruct (is_double pd) eqn:?. }
  assert (all_ok [(pd, v)]) as Hok by (by constructor).
  destruct (effect_reads ms s ops _ Hm Hok He) as (Hm' & Hw & _ & _).
  exists ops. split; [done|]. split; [done|]. split.
  - unfold read_location at 1. rewrite Pd, (Hw pd v []) by done. done.
  - intros l Hl Hld Hs. eapply effect_others; try done. intros p w [= -> ->]%list_elem_of_singleton. congruence.
Qed.

Lemma mips_swap_ok im ms s src dest :
  machine_ok s -> Forall operands_wf ms -> location_allocated dest -> location_allocated src -> src <> dest ->
  location_kind src = location_kind dest ->
  exists ops, Mips_EmitSwap im ms src dest = Ok ops /\ machine_ok (steps s ops) /\
    read_location (steps s ops) dest = read_location s src /\ read_location (steps s ops) src = read_location s dest /\
    forall l, location_allocated l -> l <> dest -> l <> src -> ~ scratch ms l -> read_location (steps s ops) l = read_location s l.
Proof using FO.
  intros Hm Hwf Hd Hs Hne Hk. destruct (allocated_place dest Hd) as (pd & Hpd & Ed & Pd). destruct (allocated_place src Hs) as (ps & Hps & Es & Ps).
  pose proof (kinds_agree _ _ _ _ Ps Pd Hk) as Hdbl. assert (ps <> pd) as Hpne by congruence.
  assert (exists ops ws, Mips_EmitSwap im ms src dest = Ok ops /\ effect ms s ops ws /\ exchanged s ps pd ws) as (ops & ws & E & He & Hx).
  { destruct (is_double ps) eqn:Eps; [apply swap_double_effect|apply swap_word_effect]; done. }
  assert (all_ok ws) as Hok by (destruct Hx as [-> | ->]; by apply all_ok_pair).
  assert (typed pd (read_place s ps)) as Htd by (by apply typed_read). assert (typed ps (read_place s pd)) as Hts by (by apply typed_read).
  destruct (effect_reads ms s ops _ Hm Hok He) as (Hm' & Hw1 & Hw2 & _).
  exists ops. split; [done|]. split; [done|]. unfold read_location at 1 2 3 4. rewrite Pd, Ps. split; [|split].
  - destruct Hx as [-> | ->]; [by eapply Hw1|by eapply Hw2].
  - destruct Hx as [-> | ->]; [by eapply Hw2|by eapply Hw1].
  - intros l Hl Hld Hls Hns. eapply effect_others; try done. intros p w Hp Heq.
    assert (p = pd \/ p = ps) as [-> | ->]; [|congruence..].
    destruct Hx as [-> | ->]; apply elem_of_cons in Hp as [[= -> _]|[= -> _]%list_elem_of_singleton]; auto.
Qed.

#[export] Instance MipsEmitterOk im : EmitterOk (Mips_Emitter im).
Proof using FO.
  refine (Build_EmitterOk (Mips_Emitter im) Machine value exec_asm read_location machine_ok
            location_allocated location_kind location_constant_ok location_constant_value _ _ _ _).
  - intros l Hl. destruct (allocated_place l Hl) as (p & Hp & El & Pl). split; [|by apply (place_facts_ok p l)].
    intros ->. vm_compute in Pl. injection Pl as <-. done.
  - intros d c [Hc _]. done.
  - intros ms s src dest. apply mips_move_ok.
  - intros ms s src dest. apply mips_swap_ok.
Defined.

(** ** Parallel moves between places *)

Definition encode_move (m : place * place) : M MoveOperands :=
  d ← location_of m.1; s ← location_of m.2; Ok (mkMove d s).

Fixpoint encode_moves (moves : list (place * place)) : M (list MoveOperands) :=
  match moves with
  | [] => Ok []
  | m :: moves => o ← encode_move m; os ← encode_moves moves; Ok (o :: os)
  end.

(** A source is a place of the same kind or a constant. *)
Definition source_place_ok (d src : place) : Prop :=
  match src with
  | PConstant a => valid_place src /\ (is_double d = true -> double_constant_ok a)
  | _ => place_ok src /\ is_double src = is_double d
  end.

Definition assigned (s : Machine) (d src : place) : value :=
  match src with PConstant a => constant_place_value d a | _ => read_place s src end.

Lemma constant_location a l :
  valid_place (PConstant a) -> location_of (PConstant a) = Ok l -> IsConstant l = true /\ constant_instruction l = Ok a.
Proof using.
  intros Hv El. destruct (location_of_place (PConstant a) Hv) as (l' & El' & Hl). rewrite El in El'. injection El' as <-.
  unfold place_of in Hl. destruct (IsInvalid l); [done|]. destruct (IsConstant l) eqn:Ec.
  - split; [done|]. destruct (constant_instruction l); [|done]. by injection Hl as ->.
  - repeat match type of Hl with context [if ?c then _ else _] => destruct c end; try done.
    all: repeat match type of Hl with context [mbind _ ?r] => destruct r; cbn [mbind result_bind] in Hl end; try done.
    all: by repeat case_match.
Qed.

Lemma encode_moves_ok im moves s :
  Forall (fun m => place_ok m.1 /\ source_place_ok m.1 m.2) moves ->
  exists ms, encode_moves moves = Ok ms /\ Forall (move_ok (E := Mips_Emitter im)) ms /\ destinations ms = dest_ <$> ms /\
    (forall d src, (d, src) ∈ moves -> exists m, m ∈ ms /\ location_of d = Ok (dest_ m) /\
       source_value (E := Mips_Emitter im) s (dest_ m) (src_ m) = assigned s d src) /\
    Forall2 (fun mv m => location_of mv.1 = Ok (dest_ m)) moves ms.
Proof using FO.
  induction 1 as [|[d src] moves [Hd Hsrc] Hmoves IH].
  { exists []. split; [done|]. split; [constructor|]. split; [done|]. split; [|constructor]. intros d src H. by apply not_elem_of_nil in H. }
  destruct IH as (ms & E & Hok & Hdest & Hin & Hf2). simpl in Hd, Hsrc.
  destruct (place_location d Hd) as (ld & Ed & Pd).
  assert (exists ls, location_of src = Ok ls /\ source_ok (E := Mips_Emitter im) ld ls /\
    source_value (E := Mips_Emitter im) s ld ls = assigned s d src) as (ls & Es & Hso & Hval).
  { assert (forall p, src = p -> place_ok p -> is_double p = is_double d -> assigned s d p = read_place s p -> exists ls, location_of p = Ok ls /\
      source_ok (E := Mips_Emitter im) ld ls /\ source_value (E := Mips_Emitter im) s ld ls = assigned s d p) as Hplace.
    { intros p _ Hp Hk Ha. destruct (place_location p Hp) as (ls & Es & Ps). exists ls. split; [done|]. split.
      - left. split; [by exists p|]. simpl. unfold location_kind. rewrite Pd, Ps. by rewrite Hk.
      - unfold source_value. destruct (place_facts_ok p ls Hp Es) as [-> _]. simpl. unfold read_location. by rewrite Ps, Ha. }
    destruct src as [|a| | | | | | |]; simpl in Hsrc; try (by destruct Hsrc); try (destruct Hsrc; by apply Hplace).
    destruct Hsrc as [Hv' Hdbl]. assert (valid_place (PConstant a)) as Hv by exact Hv'. destruct (location_of_place (PConstant a) Hv) as (ls & Es & _). exists ls. split; [done|].
    destruct (constant_location a ls Hv Es) as [Hc Hi]. split.
    - right. split; [done|]. intros p a' Hp Ha. rewrite Pd in Hp. injection Hp as <-. rewrite Hi in Ha. injection Ha as <-. done.
    - unfold source_value. rewrite Hc. simpl. unfold location_constant_value. by rewrite Pd, Hi. }
  exists (mkMove ld ls :: ms). cbn [encode_moves]. unfold encode_move. cbn [fst snd]. rewrite Ed, Es. cbn [mbind result_bind]. rewrite E.
  assert (ld <> NoLocation) as Hno by (intros ->; vm_compute in Pd; by injection Pd as <-).
  split; [done|]. split; [constructor; [right; split; [by exists d|done]|done]|].
  split; [unfold destinations in *; rewrite filter_cons, decide_True by done; by rewrite !fmap_cons, Hdest|].
  split; [|by constructor]. intros d' src' [[= -> ->]|Hm]%elem_of_cons; [exists (mkMove ld ls); split; [left|done]|].
  destruct (Hin d' src' Hm) as (m & Hmm & ? & ?). exists m. split; [by right|done].
Qed.

Lemma destinations_places moves ms :
  Forall (fun m => place_ok m.1 /\ source_place_ok m.1 m.2) moves -> Forall2 (fun mv m => location_of mv.1 = Ok (dest_ m)) moves ms ->
  (forall p l, place_ok p -> location_of p = Ok l -> l ∈ dest_ <$> ms -> p ∈ moves.*1) /\ (NoDup moves.*1 -> NoDup (dest_ <$> ms)).
Proof using FO.
  intros Hok Hf2. induction Hf2 as [|[d src] m moves ms Hd Hf2 IH].
  { split; [|intros _; constructor]. intros p l _ _ H. by apply not_elem_of_nil in H. }
  inversion Hok as [|? ? [Hpd _] Hok']; subst. simpl in Hpd, Hd. rewrite !fmap_cons. cbn [fst]. destruct (IH Hok') as [Hin Hnd]. split.
  - intros p l Hp El [->|Hl]%elem_of_cons; [|right; by eapply Hin]. rewrite (place_unique p d (dest_ m)) by done. left.
  - intros [Hnin Hnd']%NoDup_cons. constructor; [|by apply Hnd]. intros Hl. apply Hnin. by eapply Hin.
Qed.
End machine.

(** C3: the code that [EmitNativeCode] emits for MIPS, a sequence of moves, swaps and
    spills, refines the parallel assignment.  The moves have distinct destinations, which
    are allocatable core and double registers and the frame's word and double stack
    slots, all relative to the frame pointer, disjoint and above the stack pointer; their
    sources are such places of the same kind, or constants.  In any order and with any
    cycles, the code is emitted without a failed assertion, and running it leaves in each
    destination the value its source had before, the stack and frame pointers restored,
    and every other allocatable place unchanged.  Slots relative to the stack pointer, as
    intrinsics have for their arguments, are not covered ([exchange_two_bases]). *)
Theorem EmitNativeCode_correct {C : Constants} {F : Frame} {FO : FrameOk} im moves s :
  machine_ok s -> Forall (fun m => place_ok m.1 /\ source_place_ok m.1 m.2) moves -> NoDup moves.*1 ->
  exists ms code, encode_moves moves = Ok ms /\ EmitNativeCode (E := Mips_Emitter im) ms = Ok code /\
    machine_ok (steps s code) /\
    (forall d src, (d, src) ∈ moves -> read_place (steps s code) d = assigned s d src) /\
    (forall p, place_ok p -> p ∉ moves.*1 -> read_place (steps s code) p = read_place s p).
Proof.
  intros Hm Hok Hnd. destruct (encode_moves_ok im moves s Hok) as (ms & E & Hmok & Hdest & Hin & Hf2).
  destruct (destinations_places moves ms Hok Hf2) as [Hpl HndW].
  destruct (EmitNativeCode_ok (E := Mips_Emitter im) (EO := MipsEmitterOk im) ms s Hm Hmok) as (code & Ec & Hm' & Hread & Hframe).
  { rewrite Hdest. by apply HndW. }
  exists ms, code. split; [done|]. split; [done|]. split; [done|].
  assert (forall p l, location_of p = Ok l -> place_ok p -> read_location (steps s code) l = read_place (steps s code) p /\ read_location s l = read_place s p) as Hrl.
  { intros p l El Hp. destruct (place_location p Hp) as (l' & El' & Pl). rewrite El in El'. injection El' as <-. unfold read_location. by rewrite Pl. }
  split.
  - intros d src Hds. destruct (Hin d src Hds) as (m & Hmm & El & Hv). rewrite Forall_forall in Hok. destruct (Hok _ Hds) as [Hd _].
    rewrite <- Hv. rewrite <- (Hread m Hmm).
    + symmetry. by apply (Hrl d (dest_ m)).
    + destruct (place_location d Hd) as (l' & El' & Pl). rewrite El in El'. injection El' as <-. intros Hno. rewrite Hno in Pl. vm_compute in Pl. by injection Pl as <-.
  - intros p Hp Hnp. destruct (place_location p Hp) as (l & El & _). destruct (Hrl p l El Hp) as [<- <-].
    apply (Hframe l); [by exists p|]. rewrite Hdest. intros Hl. by apply Hnp, (Hpl p l).
Qed.

(** The code of [Exchange_slots] for slots of two base registers, with near offsets: the
    second slot is not written at all, as the stores exchange the offsets but not the
    bases. *)
Lemma exchange_two_bases {C : Constants} {F : Frame} s t1 t2 b1 o1 b2 o2 :
  Utils.IsInt 16 o1 = true -> Utils.IsInt 16 o2 = true -> t1 <> b1 -> t1 <> b2 -> t2 <> b1 -> t2 <> b2 ->
  u32 (R s b1 + o2) <> u32 (R s b2 + o2) -> u32 (R s b2 + o1) <> u32 (R s b2 + o2) ->
  mem (steps s [LoadFromOffset t1 b1 o1; LoadFromOffset t2 b2 o2; StoreToOffset t1 b1 o2; StoreToOffset t2 b2 o1])
    (u32 (R s b2 + o2)) = mem s (u32 (R s b2 + o2)).
Proof.
  intros H1 H2 Ht1 Ht1' Ht2 Ht2' Hb Ho. unfold steps. cbn [foldl flip]. cbn [exec_asm]. unfold far_address. rewrite H1, H2.
  cbn [R mem set_R set_mem]. rewrite ?(upd_ne _ t2 _ b1), ?(upd_ne _ t2 _ b2) by congruence.
  rewrite ?(upd_ne _ t1 _ b1), ?(upd_ne _ t1 _ b2) by congruence. rewrite !upd_ne by congruence. done.
Qed.

(** A frame with two word slots and a double slot. *)
Definition example_constants : Constants := {| unboxed_int32 := fun _ => None; Double_value_offset := 8 |}.
Definition example_frame : Frame :=
  {| fp := 0x10000; sp := 0x8000; slots := [PStackSlot 0 FPREG; PStackSlot (-2) FPREG; PDoubleStackSlot 3];
     heap := fun _ => None; object_pointer := fun a => a + 1 |}.

Lemma example_frame_ok : @FrameOk example_frame.
Proof.
  split; try done.
  - repeat constructor; vm_compute; try done; try (split; done); repeat constructor; done.
  - intros p q a Hp Hq Ha Hb.
    apply list_elem_of_In in Hp, Hq, Ha, Hb. simpl in Hp, Hq.
    destruct Hp as [<-|[<-|[<-|[]]]], Hq as [<-|[<-|[<-|[]]]]; try done; vm_compute in Ha, Hb; intuition congruence.
Qed.

Definition example_machine : Machine := mkMachine (fun r => if r =? FP then 0x10000 else if r =? SP then 0x8000 else r) (fun d => (d, d)) (fun a => a).

(** A cycle through a register and both word slots, and a double that is spilled. *)
Lemma EmitNativeCode_correct_witness :
  exists code,
    EmitNativeCode (E := Mips_Emitter (C := example_constants) false)
      (match encode_moves [(PRegister 2, PStackSlot 0 FPREG); (PStackSlot 0 FPREG, PStackSlot (-2) FPREG);
                           (PStackSlot (-2) FPREG, PRegister 2); (PDoubleStackSlot 3, PFpuRegister 4); (PRegister 5, PConstant 64)] with
       | Ok ms => ms | Err _ => [] end) = Ok code /\
    read_place (F := example_frame) (steps (F := example_frame) example_machine code) (PStackSlot (-2) FPREG) = VWord 2.
Proof.
  destruct (EmitNativeCode_correct (C := example_constants) (F := example_frame) (FO := example_frame_ok) false
    [(PRegister 2, PStackSlot 0 FPREG); (PStackSlot 0 FPREG, PStackSlot (-2) FPREG);
     (PStackSlot (-2) FPREG, PRegister 2); (PDoubleStackSlot 3, PFpuRegister 4); (PRegister 5, PConstant 64)] example_machine)
    as (ms & code & Em & Ec & _ & Hr & _).
  - split; [done|]. split; [done|]. done.
  - repeat constructor; vm_compute; try done; repeat (apply list_elem_of_here || apply list_elem_of_further).
  - apply (bool_decide_unpack _). vm_compute. done.
  - rewrite Em. exists code. split; [exact Ec|]. rewrite (Hr (PStackSlot (-2) FPREG) (PRegister 2)); [reflexivity|].
    apply list_elem_of_In. simpl. tauto.
Defined.

End ParallelMoveMips.
