(* ===== verification/Probing.v ===== *)
(** * Linear probing

    The part that the tables of platform/hashmap.cc and vm/port.cc have in
    common: slots [0, cap) in a circle, a search that starts at a slot and goes
    forward until it may stop, and what keeps entries within reach of such a
    search when slots are filled, emptied and moved. *)

From stdpp Require Import base numbers list.
From Stdlib Require Import ZArith Lia.
From S2P Require Import Prelude.

Module Probing.

Local Open Scope nat_scope.

(** The slot after [i], wrapping at the end of the array. *)
Definition next_slot (cap i : nat) : nat := if S i =? cap then 0 else S i.

(** How far forward [j] lies from [i]. *)
Definition dist (cap i j : nat) : nat := if i <=? j then j - i else cap - i + j.

(** The loop [while (go(p)) p = next(p);] *)
Fixpoint scan (go : nat -> bool) (cap fuel p : nat) : option nat :=
  if go p then
    match fuel with
    | O => None
    | S fuel => scan go cap fuel (next_slot cap p)
    end
  else Some p.

(** All slots from [s] up to, but not including, [i] satisfy [P]. *)
Definition path (cap : nat) (P : nat -> Prop) (s i : nat) : Prop :=
  forall j, j < cap -> dist cap s j < dist cap s i -> P j.

Ltac circle :=
  unfold dist, next_slot in *;
  repeat match goal with
  | |- context [?a <=? ?b] => destruct (Nat.leb_spec a b)
  | |- context [?a =? ?b] => destruct (Nat.eqb_spec a b)
  | H : context [?a <=? ?b] |- _ => destruct (Nat.leb_spec a b)
  | H : context [?a =? ?b] |- _ => destruct (Nat.eqb_spec a b)
  end; try lia.

Section circle.
Context {cap : nat}.
Implicit Types (i j s p q : nat) (P Q : nat -> Prop).

Lemma next_slot_lt i : i < cap -> next_slot cap i < cap.
Proof. circle. Qed.

Lemma next_slot_mod i : i < cap -> next_slot cap i = (i + 1) mod cap.
Proof.
  intros Hi. unfold next_slot. destruct (Nat.eqb_spec (S i) cap) as [<-|Hne].
  - rewrite Nat.add_1_r, Nat.Div0.mod_same. done.
  - rewrite Nat.mod_small; lia.
Qed.

Lemma dist_lt i j : i < cap -> j < cap -> dist cap i j < cap.
Proof. circle. Qed.

Lemma dist_0 i : dist cap i i = 0.
Proof. circle. Qed.

Lemma dist_inj s i j : s < cap -> i < cap -> j < cap -> dist cap s i = dist cap s j -> i = j.
Proof. circle. Qed.

Lemma dist_next s i : s < cap -> i < cap -> next_slot cap i <> s -> dist cap s (next_slot cap i) = S (dist cap s i).
Proof. circle. Qed.

(** Walking one slot ahead shortens the way to everything but the slot left. *)
Lemma dist_step p j : p < cap -> j < cap -> j <> p -> dist cap p j = S (dist cap (next_slot cap p) j).
Proof. circle. Qed.

Lemma path_mono P Q s i : (forall j, j < cap -> P j -> Q j) -> path cap P s i -> path cap Q s i.
Proof. unfold path. auto. Qed.

(** Two searches from one slot that may not pass each other's end meet. *)
Lemma path_meet P Q s i j :
  s < cap -> i < cap -> j < cap ->
  path cap P s i -> path cap Q s j -> ~ P j -> ~ Q i -> i = j.
Proof.
  intros Hs Hi Hj Hp Hq Hnj Hni. apply (dist_inj s); try done.
  destruct (Nat.lt_trichotomy (dist cap s i) (dist cap s j)) as [?|[?|?]]; [|done|].
  - destruct Hni. by apply Hq.
  - destruct Hnj. by apply Hp.
Qed.

(** A search for a slot that exists ends, at the first such slot. *)
Lemma scan_reaches go fuel p q :
  p < cap -> q < cap -> go q = false -> dist cap p q <= fuel ->
  exists r, scan go cap fuel p = Some r /\ r < cap /\ go r = false /\ dist cap p r <= dist cap p q /\
    path cap (fun j => go j = true) p r.
Proof.
  revert p. induction fuel as [|fuel IH]; intros p Hp Hq Hgo Hd; simpl.
  all: destruct (go p) eqn:Egp.
  - assert (p = q) as -> by (apply (dist_inj p); rewrite ?dist_0; lia). congruence.
  - exists p. rewrite dist_0. split_and!; [done..|lia|]. intros j _. rewrite dist_0. lia.
  - assert (q <> p) as Hne by congruence.
    pose proof (dist_step p q Hp Hq Hne) as Hs.
    destruct (IH (next_slot cap p)) as (r & -> & Hr & Hgr & Hdr & Hpath);
      [by apply next_slot_lt|done|done|lia|].
    exists r. assert (r <> p) as Hrp by congruence. pose proof (dist_step p r Hp Hr Hrp).
    split_and!; [done..|lia|]. intros j Hj Hdj. destruct (decide (j = p)) as [->|Hjp]; [done|].
    apply Hpath; [done|]. pose proof (dist_step p j Hp Hj Hjp). lia.
  - exists p. rewrite dist_0. split_and!; [done..|lia|]. intros j _. rewrite dist_0. lia.
Qed.

Lemma scan_finds go p q :
  p < cap -> q < cap -> go q = false ->
  exists r, scan go cap cap p = Some r /\ r < cap /\ go r = false /\ path cap (fun j => go j = true) p r.
Proof.
  intros Hp Hq Hgo. pose proof (dist_lt p q Hp Hq).
  destruct (scan_reaches go cap p q) as (r & ? & ? & ? & _ & ?); eauto; lia.
Qed.

End circle.

(** ** Deletion by moving entries back *)

(** The slots as a function to what is in them; [start a] is the slot where the
    search for [a] starts. *)
Section deletion.
Context {A : Type} (start : A -> nat) (cap : nat).
Implicit Types (slots : nat -> option A) (c n i j : nat) (a : A).

Definition filled slots j : Prop := slots j <> None.

Definition reachable slots : Prop :=
  forall i a, i < cap -> slots i = Some a -> start a < cap /\ path cap (filled slots) (start a) i.

(** The slot [c] has just been emptied and the slots after it up to [n] have been
    examined: only entries beyond [n] may have lost their path, and only at [c]. *)
Record hole slots c n : Prop := {
  hole_empty : slots c = None;
  hole_run : forall j, j < cap -> 0 < dist cap c j <= dist cap c n -> filled slots j;
  hole_start : forall i a, i < cap -> slots i = Some a -> start a < cap;
  hole_path : forall i a j, i < cap -> slots i = Some a -> j < cap ->
    dist cap (start a) j < dist cap (start a) i ->
    filled slots j \/ j = c /\ dist cap c n < dist cap c i
}.

Definition slot_set slots c (x : option A) : nat -> option A := fun i => if i =? c then x else slots i.

Lemma slot_set_eq slots c x : slot_set slots c x c = x.
Proof. unfold slot_set. by rewrite Nat.eqb_refl. Qed.

Lemma slot_set_ne slots c x i : i <> c -> slot_set slots c x i = slots i.
Proof. intros ?. unfold slot_set. by rewrite (proj2 (Nat.eqb_neq i c)). Qed.

Lemma hole_open slots c : c < cap -> reachable slots -> hole (slot_set slots c None) c c.
Proof.
  intros Hc Hr. split.
  - apply slot_set_eq.
  - intros j _. rewrite dist_0. lia.
  - intros i a Hi Hia. destruct (decide (i = c)) as [->|Hne]; [by rewrite slot_set_eq in Hia|].
    rewrite slot_set_ne in Hia by done. by apply (Hr i).
  - intros i a j Hi Hia Hj Hd. destruct (decide (i = c)) as [->|Hne]; [by rewrite slot_set_eq in Hia|].
    rewrite slot_set_ne in Hia by done. destruct (Hr i a Hi Hia) as [Hs Hp].
    destruct (decide (j = c)) as [->|Hjc].
    + right. split; [done|]. rewrite dist_0. circle.
    + left. unfold filled. rewrite slot_set_ne by done. by apply Hp.
Qed.

(** As long as some other slot is empty, the examination does not come back to [c]. *)
Lemma hole_next slots c n e :
  c < cap -> n < cap -> e < cap -> hole slots c n -> slots e = None -> e <> c ->
  next_slot cap n <> c /\ dist cap c (next_slot cap n) = S (dist cap c n) /\ dist cap c n < dist cap c e.
Proof.
  intros Hc Hn He Hh Hee Hne.
  assert (dist cap c n < dist cap c e) as Hd.
  { destruct (Nat.lt_ge_cases (dist cap c n) (dist cap c e)); [done|].
    destruct (hole_run _ _ _ Hh e); [done|circle|done]. }
  split_and!; [|apply dist_next|]; [circle|done|done|circle|done].
Qed.

(** The examination has come to an empty slot: all entries have their path. *)
Lemma hole_close slots c n :
  c < cap -> n < cap -> hole slots c n -> next_slot cap n <> c -> slots (next_slot cap n) = None -> reachable slots.
Proof.
  intros Hc Hn Hh Hnc Hnull i a Hi Hia. pose proof (hole_start _ _ _ Hh i a Hi Hia) as Hs. split; [done|].
  intros j Hj Hd. destruct (hole_path _ _ _ Hh i a j Hi Hia Hj Hd) as [?|[-> Hb]]; [done|]. exfalso.
  assert (i <> next_slot cap n) as Hin by congruence.
  assert (next_slot cap n < cap) as Hnn by (by apply next_slot_lt).
  destruct (hole_path _ _ _ Hh i a (next_slot cap n) Hi Hia Hnn) as [?|[? _]]; [circle|done..].
Qed.

(** The entry in the next slot is searched for from between [c] and itself: it stays. *)
Lemma hole_stay slots c n a :
  c < cap -> n < cap -> hole slots c n -> next_slot cap n <> c -> slots (next_slot cap n) = Some a ->
  dist cap (start a) (next_slot cap n) <= dist cap (start a) c -> hole slots c (next_slot cap n).
Proof.
  intros Hc Hn Hh Hnc Hna Hd. pose proof (dist_next c n Hc Hn Hnc) as Hdn. split.
  - apply Hh.
  - intros j Hj Hdj. destruct (decide (dist cap c j = S (dist cap c n))) as [He|Hne].
    + rewrite <- Hdn in He. apply dist_inj in He; [|done..|by apply next_slot_lt]. subst j.
      unfold filled. congruence.
    + apply (hole_run _ _ _ Hh); [done|lia].
  - apply Hh.
  - intros i b j Hi Hib Hj Hdj. destruct (hole_path _ _ _ Hh i b j Hi Hib Hj Hdj) as [?|[-> Hb]]; [by left|].
    right. split; [done|]. rewrite Hdn. destruct (decide (dist cap c i = S (dist cap c n))) as [He|]; [|lia].
    rewrite <- Hdn in He. apply dist_inj in He; [|done..|by apply next_slot_lt]. subst i. simplify_eq. lia.
Qed.

(** It is searched for from before [c]: it moves into [c] and leaves the next hole. *)
Lemma hole_move slots c n a :
  c < cap -> n < cap -> hole slots c n -> next_slot cap n <> c -> slots (next_slot cap n) = Some a ->
  dist cap (start a) c < dist cap (start a) (next_slot cap n) ->
  hole (slot_set (slot_set slots c (Some a)) (next_slot cap n) None) (next_slot cap n) (next_slot cap n).
Proof.
  intros Hc Hn Hh Hnc Hna Hd. pose proof (next_slot_lt n Hn) as Hnn.
  set (n' := next_slot cap n) in *. set (slots' := slot_set _ n' None).
  assert (slots' c = Some a) as Hca by (unfold slots'; rewrite slot_set_ne, slot_set_eq; done).
  assert (forall j, j <> c -> j <> n' -> slots' j = slots j) as Hother.
  { intros j Hjc Hjn. unfold slots'. by rewrite !slot_set_ne. }
  assert (slots' n' = None) as Hn' by (unfold slots'; apply slot_set_eq).
  split.
  - done.
  - intros j _. rewrite dist_0. lia.
  - intros i b Hi Hib. destruct (decide (i = n')) as [->|Hin]; [congruence|].
    destruct (decide (i = c)) as [->|Hic].
    + rewrite Hca in Hib. simplify_eq. by apply (hole_start _ _ _ Hh n').
    + rewrite Hother in Hib by done. by apply (hole_start _ _ _ Hh i).
  - intros i b j Hi Hib Hj Hdj. destruct (decide (j = n')) as [->|Hjn].
    + right. split; [done|]. rewrite dist_0. assert (i <> n') by congruence. circle.
    + left. destruct (decide (j = c)) as [->|Hjc]; [unfold filled; congruence|].
      unfold filled. rewrite Hother by done.
      destruct (decide (i = n')) as [->|Hin]; [congruence|]. destruct (decide (i = c)) as [->|Hic].
      * rewrite Hca in Hib. simplify_eq.
        destruct (hole_path _ _ _ Hh n' b j) as [?|[? _]]; [done..|lia|done|done].
      * rewrite Hother in Hib by done. by destruct (hole_path _ _ _ Hh i b j) as [?|[? _]].
Qed.

End deletion.
End Probing.
