(* ===== verification/HashMap.v ===== *)
(** * platform/hashmap.h, platform/hashmap.cc

    [HashMap]: an open-addressing hash table from keys to values, both pointers.
    A pointer is its address, [NULL] is 0; an [Entry*] into the table is the
    index of its slot.  The hash values are given by the caller, as the code
    has it; the function that compares keys is the class [MatchFun].  What
    [malloc] returns, its contents included, is the class [Malloc]. *)

From stdpp Require Import base numbers list sets.
From Stdlib Require Import ZArith Lia.
From S2P Require Import Prelude Utils Probing.

Local Open Scope Z_scope.
Local Open Scope mach_scope.

Module HashMap.
Import Probing.

Inductive hash_error :=
| HAssertFailed
| HFatal        (* out of memory *)
| HUndefined    (* an access outside the table *)
| HNoReturn.    (* the rounds of a loop, or the depth of a recursion, ran out *)

Abbreviation M A := (result hash_error A).
Definition assert_ (b : bool) : M unit := if b then Ok () else Err HAssertFailed.

Record Entry := mkEntry { key : Z; value : Z; hash : Z }.

(** [match_]. *)
Class MatchFun := { match_ : Z -> Z -> bool }.

(** [malloc] of that many entries. *)
Class Malloc := {
  malloc : nat -> option (list Entry);
  malloc_length n l : malloc n = Some l -> length l = n
}.

(** [capacity_] and [occupancy_] are [uint32_t]. *)
Record HashMap := mkHashMap { map_ : list Entry; capacity_ : Z; occupancy_ : Z }.

Definition SamePointerValue (key1 key2 : Z) : bool := key1 =? key2.

(** A string is its characters, signed bytes, before the terminating zero. *)
Definition hash_char (hash_ c : Z) : Z :=
  let hash_ := u32 (hash_ + c) in
  let hash_ := u32 (hash_ + u32 (hash_ <<< 10)) in
  hash_ .^ (hash_ >>> 6).

Definition StringHash (key : option (list Z)) : Z :=
  match key with
  | None => 0
  | Some chars =>
      let hash_ := fold_left hash_char chars 0 in
      let hash_ := u32 (hash_ + u32 (hash_ <<< 3)) in
      let hash_ := hash_ .^ (hash_ >>> 11) in
      let hash_ := u32 (hash_ + u32 (hash_ <<< 15)) in
      if hash_ =? 0 then 1 else hash_
  end.

(** [strcmp(key1, key2) == 0]. *)
Definition SameStringValue (key1 key2 : list Z) : bool := bool_decide (key1 = key2).

Definition slots (m : HashMap) : nat := Z.to_nat (capacity_ m).

Definition entry_at (m : HashMap) (p : nat) : M Entry :=
  match map_ m !! p with Some e => Ok e | None => Err HUndefined end.

Definition set_entry (m : HashMap) (p : nat) (e : Entry) : HashMap :=
  mkHashMap (<[p := e]> (map_ m)) (capacity_ m) (occupancy_ m).

Definition set_occupancy (m : HashMap) (n : Z) : HashMap := mkHashMap (map_ m) (capacity_ m) n.

Definition clear_key (e : Entry) : Entry := mkEntry 0 (value e) (hash e).
Definition set_entry_value (e : Entry) (v : Z) : Entry := mkEntry (key e) v (hash e).

(** [p->value = v] by the client. *)
Definition set_value (m : HashMap) (p : nat) (v : Z) : M HashMap :=
  e ← entry_at m p; Ok (set_entry m p (set_entry_value e v)).

Definition initial_slot (m : HashMap) (hash : Z) : nat := Z.to_nat (hash .& (capacity_ m - 1)).

Definition Clear (m : HashMap) : HashMap :=
  mkHashMap (clear_key <$> map_ m) (capacity_ m) 0.

(** The loop of [Next], from slot [p] on. *)
Fixpoint Next_loop (entries : list Entry) (p : nat) : option nat :=
  match entries with
  | [] => None
  | e :: entries => if negb (key e =? 0) then Some p else Next_loop entries (S p)
  end.

(** [Next(map_ + (p - 1))]: the pointer before the first entry is [p = 0]. *)
Definition Next (m : HashMap) (p : nat) : M (option nat) :=
  assert_ (p <=? slots m)%nat;;
  Ok (Next_loop (drop p (map_ m)) p).

Definition Start (m : HashMap) : M (option nat) := Next m 0.

(** [for (p = Start(); p != NULL; p = Next(p))]: the slots visited. *)
Fixpoint visit (fuel : nat) (m : HashMap) (p : option nat) : M (list nat) :=
  match p with
  | None => Ok []
  | Some p =>
      match fuel with
      | O => Err HNoReturn
      | S fuel => n ← Next m (S p); ps ← visit fuel m n; Ok (p :: ps)
      end
  end.

Definition iterate (m : HashMap) : M (list nat) := p ← Start m; visit (S (slots m)) m p.

Section hash_map.
Context {MF : MatchFun} {ML : Malloc}.

Definition Initialize (capacity : Z) : M HashMap :=
  assert_ (Utils.IsPowerOfTwo capacity);;
  match malloc (Z.to_nat capacity) with
  | None => Err HFatal
  | Some entries => Ok (Clear (mkHashMap entries capacity 0))
  end.

Definition HashMap_new (initial_capacity : Z) : M HashMap := Initialize initial_capacity.

(** The condition of the loop of [Probe]: the search goes past the entry. *)
Definition probe_past (key_ hash_ : Z) (e : Entry) : bool :=
  negb (key e =? 0) && (negb (hash_ =? hash e) || negb (match_ key_ (key e))).

Definition past_slot (m : HashMap) (key hash : Z) (p : nat) : bool :=
  match map_ m !! p with Some e => probe_past key hash e | None => false end.

Definition Probe (m : HashMap) (key hash : Z) : M nat :=
  assert_ (negb (key =? 0));;
  assert_ (Utils.IsPowerOfTwo (capacity_ m));;
  let p := initial_slot m hash in
  assert_ (p <? slots m)%nat;;
  assert_ (occupancy_ m <? capacity_ m);;
  match scan (past_slot m key hash) (slots m) (slots m) p with
  | Some p => Ok p
  | None => Err HNoReturn
  end.

(** The loop of [Resize] over the old entries, [n] of which are in use. *)
Fixpoint rehash (lookup : HashMap -> Z -> Z -> bool -> M (option nat * HashMap)) (entries : list Entry) (n : Z)
    (m : HashMap) : M HashMap :=
  if n >? 0 then
    match entries with
    | [] => Err HUndefined
    | e :: entries =>
        if negb (key e =? 0) then
          r ← lookup m (key e) (hash e) true;
          let '(p, m) := (r : option nat * HashMap) in
          match p with
          | None => Err HUndefined
          | Some p => m ← set_value m p (value e); rehash lookup entries (n - 1) m
          end
        else rehash lookup entries n m
    end
  else Ok m.

Definition Resize (lookup : HashMap -> Z -> Z -> bool -> M (option nat * HashMap)) (m : HashMap) : M HashMap :=
  let map := map_ m in
  let n := occupancy_ m in
  m ← Initialize (u32 (capacity_ m * 2));
  rehash lookup map n m.

(** [depth] bounds the calls of [Lookup] inside of [Resize]. *)
Fixpoint Lookup_upto (depth : nat) (m : HashMap) (key_ hash_ : Z) (insert : bool) : M (option nat * HashMap) :=
  p ← Probe m key_ hash_;
  e ← entry_at m p;
  if negb (key e =? 0) then Ok (Some p, m)
  else if insert then
    let m := set_entry m p (mkEntry key_ 0 hash_) in
    let m := set_occupancy m (u32 (occupancy_ m + 1)) in
    if u32 (occupancy_ m + occupancy_ m / 4) >=? capacity_ m then
      match depth with
      | O => Err HNoReturn
      | S depth =>
          m ← Resize (Lookup_upto depth) m;
          p ← Probe m key_ hash_;
          Ok (Some p, m)
      end
    else Ok (Some p, m)
  else Ok (None, m).

Definition Lookup (m : HashMap) (key hash : Z) (insert : bool) : M (option nat * HashMap) :=
  Lookup_upto 1 m key hash insert.

(** The comparisons of pointers in [Remove]: whether the entry at [next] moves. *)
Definition moves_back (candidate next start : nat) : bool :=
  ((candidate <? next) && ((start <=? candidate) || (next <? start)) ||
   (next <? candidate) && ((start <=? candidate) && (next <? start)))%nat.

Fixpoint Remove_loop (fuel : nat) (m : HashMap) (candidate next : nat) : M (nat * HashMap) :=
  match fuel with
  | O => Err HNoReturn
  | S fuel =>
      let next := next_slot (slots m) next in
      e ← entry_at m next;
      if key e =? 0 then Ok (candidate, m)
      else
        let start := initial_slot m (hash e) in
        if moves_back candidate next start then Remove_loop fuel (set_entry m candidate e) next next
        else Remove_loop fuel m candidate next
  end.

Definition Remove (m : HashMap) (key_ hash_ : Z) : M HashMap :=
  candidate ← Probe m key_ hash_;
  e ← entry_at m candidate;
  if key e =? 0 then Ok m
  else
    assert_ (occupancy_ m <? capacity_ m);;
    r ← Remove_loop (slots m) m candidate candidate;
    let '(candidate, m) := (r : nat * HashMap) in
    e ← entry_at m candidate;
    let m := set_entry m candidate (clear_key e) in
    Ok (set_occupancy m (u32 (occupancy_ m - 1))).

End hash_map.

(** ** Specification *)

(** What a client promises: its comparison is an equivalence on the keys it uses,
    and the hash it passes is a function of the key that respects it. *)
Class HashClient {MF : MatchFun} := {
  hash_of : Z -> Z;
  hash_of_range k : isU 32 (hash_of k);
  match_refl k : k <> 0 -> match_ k k = true;
  match_sym k1 k2 : match_ k1 k2 = true -> match_ k2 k1 = true;
  match_trans k1 k2 k3 : match_ k1 k2 = true -> match_ k2 k3 = true -> match_ k1 k3 = true;
  match_hash k1 k2 : match_ k1 k2 = true -> hash_of k1 = hash_of k2
}.

(** What is in a slot. *)
Definition contents (m : HashMap) (i : nat) : option Entry :=
  match map_ m !! i with
  | Some e => if key e =? 0 then None else Some e
  | None => None
  end.

Definition holds (m : HashMap) (e : Entry) : Prop := exists i, contents m i = Some e.

Definition in_use (e : Entry) : Prop := key e <> 0.
#[export] Instance in_use_dec e : Decision (in_use e).
Proof. unfold in_use. apply _. Defined.

Definition count (l : list Entry) : nat := length (filter in_use l).

(** What a client can ask for. *)
Inductive cmd :=
| CLookup (k : Z)            (* [Lookup(k, hash, false)], then [->value] *)
| CAdd (k : Z)               (* [Lookup(k, hash, true)], then [->value] *)
| CInsert (k v : Z)          (* [Lookup(k, hash, true)->value = v] *)
| CRemove (k : Z)
| CClear.

Definition cmd_ok (c : cmd) : Prop :=
  match c with CLookup k | CAdd k | CInsert k _ | CRemove k => k <> 0 | CClear => True end.
#[export] Instance cmd_ok_dec c : Decision (cmd_ok c).
Proof. destruct c; simpl; apply _. Defined.

Section refinement.
Context {MF : MatchFun} {ML : Malloc} {HC : HashClient}.

Definition run_cmd (m : HashMap) (c : cmd) : M (option Z * HashMap) :=
  match c with
  | CLookup k =>
      r ← Lookup m k (hash_of k) false;
      match (r : option nat * HashMap) with
      | (None, m) => Ok (None, m)
      | (Some p, m) => e ← entry_at m p; Ok (Some (value e), m)
      end
  | CAdd k =>
      r ← Lookup m k (hash_of k) true;
      match (r : option nat * HashMap) with
      | (None, m) => Err HUndefined
      | (Some p, m) => e ← entry_at m p; Ok (Some (value e), m)
      end
  | CInsert k v =>
      r ← Lookup m k (hash_of k) true;
      match (r : option nat * HashMap) with
      | (None, m) => Err HUndefined
      | (Some p, m) => m ← set_value m p v; Ok (Some v, m)
      end
  | CRemove k => m ← Remove m k (hash_of k); Ok (None, m)
  | CClear => Ok (None, Clear m)
  end.

Fixpoint run_cmds (m : HashMap) (cs : list cmd) : M (list (option Z) * HashMap) :=
  match cs with
  | [] => Ok ([], m)
  | c :: cs =>
      r ← run_cmd m c;
      let '(a, m) := (r : option Z * HashMap) in
      r ← run_cmds m cs;
      let '(answers, m) := (r : list (option Z) * HashMap) in
      Ok (a :: answers, m)
  end.

(** The abstract map: a value for some of the keys, the same for matching keys. *)
Definition update (f : Z -> option Z) (k : Z) (x : option Z) : Z -> option Z :=
  fun j => if match_ k j then x else f j.

Definition spec_cmd (f : Z -> option Z) (c : cmd) : option Z * (Z -> option Z) :=
  match c with
  | CLookup k => (f k, f)
  | CAdd k => let v := default 0 (f k) in (Some v, update f k (Some v))
  | CInsert k v => (Some v, update f k (Some v))
  | CRemove k => (None, update f k None)
  | CClear => (None, fun _ => None)
  end.

Fixpoint spec_cmds (f : Z -> option Z) (cs : list cmd) : list (option Z) * (Z -> option Z) :=
  match cs with
  | [] => ([], f)
  | c :: cs =>
      let '(a, f) := spec_cmd f c in
      let '(answers, f) := spec_cmds f cs in
      (a :: answers, f)
  end.

Definition denotes (m : HashMap) (f : Z -> option Z) : Prop :=
  forall k v, k <> 0 -> f k = Some v <-> exists e, holds m e /\ match_ k (key e) = true /\ value e = v.

(** ** The invariant *)

Definition start (m : HashMap) (e : Entry) : nat := initial_slot m (hash e).

Definition apart (l : list Entry) : Prop :=
  forall i j a b, l !! i = Some a -> l !! j = Some b -> in_use a -> in_use b ->
  match_ (key a) (key b) = true -> i = j.

(** [table_ok] also holds of a table that has just been filled up. *)
Record table_ok (m : HashMap) : Prop := {
  ok_capacity : exists k, 0 <= k <= 31 /\ capacity_ m = 2 ^ k;
  ok_length : length (map_ m) = slots m;
  ok_occupancy : occupancy_ m = Z.of_nat (count (map_ m));
  ok_hash : forall e, e ∈ map_ m -> in_use e -> hash e = hash_of (key e);
  ok_apart : apart (map_ m);
  ok_reach : reachable (start m) (slots m) (contents m)
}.

Definition wf (m : HashMap) : Prop := table_ok m /\ occupancy_ m < capacity_ m.

(** ** Lemmas on slots *)

Lemma contents_Some m i e : contents m i = Some e <-> map_ m !! i = Some e /\ in_use e.
Proof.
  unfold contents, in_use. destruct (map_ m !! i) as [e'|]; [|naive_solver].
  destruct (Z.eqb_spec (key e') 0); naive_solver.
Qed.

Lemma contents_None m i e : map_ m !! i = Some e -> contents m i = None <-> key e = 0.
Proof. unfold contents. intros ->. destruct (Z.eqb_spec (key e) 0); naive_solver. Qed.

Lemma contents_set m p e i :
  (p < length (map_ m))%nat ->
  contents (set_entry m p e) i = slot_set (contents m) p (if key e =? 0 then None else Some e) i.
Proof.
  intros Hp. unfold contents, slot_set. cbn [set_entry map_]. destruct (Nat.eqb_spec i p) as [->|Hne].
  - rewrite list_lookup_insert_eq by done. done.
  - rewrite list_lookup_insert_ne by done. done.
Qed.

Lemma hash_entry_at_ok m p e : map_ m !! p = Some e -> entry_at m p = Ok e.
Proof. unfold entry_at. by intros ->. Qed.

Lemma count_insert l i a b :
  l !! i = Some a ->
  (count (<[i := b]> l) + (if decide (in_use a) then 1 else 0) = count l + (if decide (in_use b) then 1 else 0))%nat.
Proof.
  intros Hi. unfold count. pose proof (take_drop_middle l i a Hi) as Hl.
  rewrite insert_take_drop by (by eapply lookup_lt_Some). rewrite <- Hl at 3.
  rewrite !filter_app, !filter_cons. repeat case_decide; rewrite !length_app; cbn [length]; lia.
Qed.

Lemma count_lt l : (count l < length l)%nat -> exists i e, l !! i = Some e /\ key e = 0.
Proof.
  unfold count. induction l as [|a l IH]; cbn [length]; [cbn; lia|].
  rewrite filter_cons. destruct (decide (in_use a)) as [Ha|Ha]; cbn [length]; intros Hc.
  - destruct IH as (i & e & ? & ?); [lia|]. by exists (S i), e.
  - exists 0%nat, a. split; [done|]. destruct (decide (key a = 0)); done.
Qed.

Lemma slots_pos m : table_ok m -> (0 < slots m)%nat /\ capacity_ m = Z.of_nat (slots m).
Proof.
  intros [(k & Hk & Hc) _ _ _ _ _]. unfold slots. pose proof (pow2_pos k). lia.
Qed.

Lemma initial_slot_lt m h : table_ok m -> (initial_slot m h < slots m)%nat.
Proof.
  intros Hm. destruct (slots_pos m Hm) as [Hp Hs]. destruct (ok_capacity m Hm) as (k & Hk & Hc).
  unfold initial_slot, slots. rewrite Hc, <- ones_pow2, land_ones_wrapU by lia.
  pose proof (wrapU_range k h ltac:(lia)) as [? ?]. lia.
Qed.

Lemma wf_empty m : wf m -> exists i, (i < slots m)%nat /\ contents m i = None.
Proof.
  intros [Hm Ho]. destruct (slots_pos m Hm) as [_ Hs]. destruct (count_lt (map_ m)) as (i & e & Hi & He).
  { rewrite (ok_length m Hm). pose proof (ok_occupancy m Hm). lia. }
  exists i. split; [rewrite <- (ok_length m Hm); by eapply lookup_lt_Some|]. by apply (contents_None _ _ _ Hi).
Qed.

Lemma holds_elem m e : holds m e <-> e ∈ map_ m /\ in_use e.
Proof.
  unfold holds. rewrite list_elem_of_lookup. setoid_rewrite contents_Some. naive_solver.
Qed.

Lemma holds_unique m a b :
  table_ok m -> holds m a -> holds m b -> match_ (key a) (key b) = true -> a = b.
Proof.
  intros Hm [i [Hi ?]%contents_Some] [j [Hj ?]%contents_Some] Hab.
  pose proof (ok_apart m Hm i j a b Hi Hj) as Heq. rewrite Heq in Hi by done. congruence.
Qed.

(** ** Probe *)

Record probed (m : HashMap) (k : Z) (p : nat) (e : Entry) : Prop := {
  probed_slot : map_ m !! p = Some e;
  probed_stop : key e = 0 /\ path (slots m) (filled (contents m)) (initial_slot m (hash_of k)) p /\
                  (forall e', holds m e' -> match_ k (key e') = false)
                \/ holds m e /\ match_ k (key e) = true
}.

Lemma Probe_ok m k : wf m -> k <> 0 -> exists p e, Probe m k (hash_of k) = Ok p /\ probed m k p e.
Proof.
  intros Hwf Hk. pose proof Hwf as [Hm Ho]. destruct (slots_pos m Hm) as [Hpos Hs].
  pose proof (initial_slot_lt m (hash_of k) Hm) as Hstart. unfold Probe.
  assert (Utils.IsPowerOfTwo (capacity_ m) = true) as ->.
  { destruct (ok_capacity m Hm) as (n & Hn & ->). apply Utils.IsPowerOfTwo_spec; [|exists n; lia]. pose proof (pow2_pos n). lia. }
  rewrite (proj2 (Z.eqb_neq k 0)), (proj2 (Nat.ltb_lt _ _) Hstart), (proj2 (Z.ltb_lt _ _) Ho) by done.
  cbn [negb assert_ mbind result_bind]. destruct (wf_empty m Hwf) as (q & Hq & Hqe).
  set (go := past_slot m k (hash_of k)). assert (go q = false) as Hgq.
  { revert Hqe. unfold go, past_slot, contents. destruct (map_ m !! q) as [e|]; [|done].
    unfold probe_past. by destruct (Z.eqb_spec (key e) 0). }
  destruct (scan_finds go _ _ Hstart Hq Hgq) as (p & -> & Hp & Hgp & Hpath).
  destruct (lookup_lt_is_Some_2 (map_ m) p) as [e He]; [rewrite (ok_length m Hm); done|].
  exists p, e. split; [done|]. split; [done|]. unfold go, past_slot in Hgp. rewrite He in Hgp. unfold probe_past in Hgp.
  destruct (Z.eqb_spec (key e) 0) as [He0|He0]; cbn [negb andb] in Hgp.
  - left. assert (path (slots m) (filled (contents m)) (initial_slot m (hash_of k)) p) as Hpf.
    { revert Hpath. apply path_mono. intros j Hj. unfold go, past_slot, filled, contents. destruct (map_ m !! j) as [a|]; [|done].
      unfold probe_past. by destruct (key a =? 0). }
    split_and!; [done..|]. intros a [i Hi]. apply not_true_is_false. intros Hma.
    pose proof Hi as Hic. apply contents_Some in Hi as [Hi Hin].
    assert (i < slots m)%nat as Hil by (rewrite <- (ok_length m Hm); by eapply lookup_lt_Some).
    destruct (ok_reach m Hm i a Hil Hic) as [_ Hra]. unfold start in Hra.
    assert (hash a = hash_of k) as Hha.
    { rewrite (match_hash _ _ Hma). apply (ok_hash m Hm); [by eapply list_elem_of_lookup_2|done]. }
    rewrite Hha in Hra.
    assert (p = i) as ->; [|rewrite He in Hi; by simplify_eq].
    apply (path_meet (fun j => go j = true) _ _ _ _ Hstart Hp Hil Hpath Hra).
    + unfold go, past_slot. rewrite Hi. unfold probe_past. rewrite Hma, Hha, Z.eqb_refl. cbn. by rewrite andb_false_r.
    + unfold filled. rewrite (proj2 (contents_None m p e He)) by done. by intros [].
  - right. apply orb_false_iff in Hgp as [_ Hgp]. split; [|by destruct (match_ k (key e))].
    exists p. by apply contents_Some.
Qed.

(** ** Filling a slot *)

Lemma reachable_fill {A} (st : A -> nat) cap (s : nat -> option A) p a :
  reachable st cap s -> s p = None -> (st a < cap)%nat -> path cap (filled s) (st a) p ->
  reachable st cap (slot_set s p (Some a)).
Proof.
  intros Hr Hp Ha Hpath.
  assert (forall j, (j < cap)%nat -> filled s j -> filled (slot_set s p (Some a)) j) as Hmono.
  { intros j _ Hj. unfold filled, slot_set. by destruct (j =? p)%nat. }
  intros i b Hi Hib. destruct (decide (i = p)) as [->|Hne].
  - rewrite slot_set_eq in Hib. simplify_eq. split; [done|]. by eapply path_mono.
  - rewrite slot_set_ne in Hib by done. destruct (Hr i b Hi Hib). split; [done|]. by eapply path_mono.
Qed.

Lemma reachable_ext {A} (st : A -> nat) cap (s s' : nat -> option A) :
  (forall i, s i = s' i) -> reachable st cap s -> reachable st cap s'.
Proof.
  intros He Hr i a Hi Hia. rewrite <- He in Hia. destruct (Hr i a Hi Hia) as [? Hp]. split; [done|].
  revert Hp. apply path_mono. intros j _. unfold filled. by rewrite He.
Qed.

(** Writing [e] over an entry of the same key, or over an empty slot on the way. *)
Lemma apart_insert l p e :
  apart l -> (forall i a, l !! i = Some a -> in_use a -> match_ (key e) (key a) = true -> i = p) ->
  apart (<[p := e]> l).
Proof.
  intros Hl Hp i j a b Hi Hj Ha Hb Hab.
  apply list_lookup_insert_Some in Hi as [(<- & <- & _)|[Hpi Hi]]; apply list_lookup_insert_Some in Hj as [(Hpj & <- & _)|[Hpj Hj]].
  - done.
  - symmetry. by apply (Hp j b).
  - rewrite <- Hpj. apply (Hp i a); [done..|]. by apply match_sym.
  - by apply (Hl i j a b).
Qed.

Lemma fill_ok m k v p e :
  wf m -> k <> 0 -> probed m k p e -> key e = 0 ->
  let m' := set_occupancy (set_entry m p (mkEntry k v (hash_of k))) (occupancy_ m + 1) in
  table_ok m' /\ (forall a, holds m' a <-> a = mkEntry k v (hash_of k) \/ holds m a).
Proof.
  intros [Hm Ho] Hk [Hp Hstop] He m'. set (x := mkEntry k v (hash_of k)) in *.
  destruct Hstop as [(_ & Hpath & Hno)|[Hh _]]; [|by apply holds_elem in Hh as [_ []]].
  pose proof (lookup_lt_Some _ _ _ Hp) as Hpl.
  assert (forall i, contents m' i = slot_set (contents m) p (Some x) i) as Hcont.
  { intros i. unfold m'. change (contents (set_occupancy ?y _) i) with (contents y i).
    rewrite contents_set by done. unfold x. cbn [key]. by rewrite (proj2 (Z.eqb_neq k 0)). }
  assert (forall a, holds m' a <-> a = x \/ holds m a) as Hholds.
  { intros a. unfold holds. setoid_rewrite Hcont. split.
    - intros [i Hi]. destruct (decide (i = p)) as [->|Hne].
      + rewrite slot_set_eq in Hi. left. congruence.
      + rewrite slot_set_ne in Hi by done. eauto.
    - intros [->|[i Hi]]; [exists p; apply slot_set_eq|]. exists i. rewrite slot_set_ne; [done|].
      intros ->. apply contents_Some in Hi as [Hi Hu]. rewrite Hi in Hp. simplify_eq. }
  split; [|done]. destruct Hm as [Hcap Hlen Hocc Hhash Hap Hr]. split.
  - done.
  - unfold m'. cbn. by rewrite length_insert.
  - unfold m'. cbn [occupancy_ map_ set_occupancy set_entry]. pose proof (count_insert (map_ m) p e x Hp) as Hc.
    rewrite decide_False, decide_True in Hc by (unfold in_use, x; cbn; tauto). rewrite Hocc. lia.
  - intros a Ha Hu. destruct (proj1 (Hholds a)) as [->|Hold]; [by apply holds_elem|done|].
    apply holds_elem in Hold as [? ?]. by apply Hhash.
  - apply apart_insert; [done|]. intros i a Hi Hu Hma. exfalso. unfold x in Hma. cbn [key] in Hma.
    rewrite Hno in Hma; [done|]. exists i. by apply contents_Some.
  - apply (reachable_ext _ _ (slot_set (contents m) p (Some x))); [done|].
    apply reachable_fill; [done|by apply (contents_None m p e)| |done].
    apply (initial_slot_lt m). by split.
Qed.

Lemma set_value_ok m p v e :
  wf m -> map_ m !! p = Some e -> in_use e ->
  let x := set_entry_value e v in
  set_value m p v = Ok (set_entry m p x) /\ wf (set_entry m p x) /\
  (forall a, holds (set_entry m p x) a <-> a = x \/ holds m a /\ a <> e).
Proof.
  intros [Hm Ho] Hp He x. unfold set_value. rewrite (hash_entry_at_ok _ _ _ Hp). split; [done|].
  pose proof (lookup_lt_Some _ _ _ Hp) as Hpl.
  assert (in_use x) as Hx by done.
  assert (forall i, contents (set_entry m p x) i = slot_set (contents m) p (Some x) i) as Hcont.
  { intros i. rewrite contents_set by done. unfold x. cbn [key set_entry_value]. by rewrite (proj2 (Z.eqb_neq _ 0)). }
  assert (forall j, filled (contents m) j -> filled (contents (set_entry m p x)) j) as Hmono.
  { intros j Hj. unfold filled in *. rewrite Hcont. unfold slot_set. by destruct (j =? p)%nat. }
  assert (forall a, holds (set_entry m p x) a <-> a = x \/ holds m a /\ a <> e) as Hholds.
  { intros a. unfold holds. setoid_rewrite Hcont. split.
    - intros [i Hi]. destruct (decide (i = p)) as [->|Hne].
      + rewrite slot_set_eq in Hi. left. congruence.
      + rewrite slot_set_ne in Hi by done. right. split; [eauto|]. intros ->.
        apply contents_Some in Hi as [Hi _]. apply Hne, (ok_apart m Hm i p e e Hi Hp He He).
        by apply match_refl.
    - intros [->|[[i Hi] Hae]]; [exists p; apply slot_set_eq|]. exists i. rewrite slot_set_ne; [done|].
      intros ->. apply contents_Some in Hi as [Hi _]. congruence. }
  split; [|done]. split; [|done]. destruct Hm as [Hcap Hlen Hocc Hhash Hap Hr]. split.
  - done.
  - cbn. by rewrite length_insert.
  - cbn [occupancy_ map_ set_occupancy set_entry]. pose proof (count_insert (map_ m) p e x Hp) as Hc. rewrite !decide_True in Hc by done. rewrite Hocc. lia.
  - intros a Ha Hu. destruct (proj1 (Hholds a)) as [->|[Hold _]]; [by apply holds_elem| |].
    + apply (Hhash e); [by eapply list_elem_of_lookup_2|done].
    + apply holds_elem in Hold as [? ?]. by apply Hhash.
  - apply apart_insert; [done|]. intros i a Hi Hu Hma. by apply (Hap i p a e); [..|apply match_sym].
  - intros i a Hi Hia. rewrite Hcont in Hia. destruct (decide (i = p)) as [->|Hne].
    + rewrite slot_set_eq in Hia. simplify_eq. destruct (Hr p e Hi) as [Hs Hpath]; [by apply contents_Some|].
      split; [done|]. revert Hpath. apply path_mono. auto.
    + rewrite slot_set_ne in Hia by done. destruct (Hr i a Hi Hia) as [Hs Hpath].
      split; [done|]. revert Hpath. apply path_mono. auto.
Qed.

(** ** Lookup *)

Definition absent (m : HashMap) (k : Z) : Prop := forall e, holds m e -> match_ k (key e) = false.

Lemma present_or_absent m k : (exists e, holds m e /\ match_ k (key e) = true) \/ absent m k.
Proof.
  destruct (decide (Exists (fun e => in_use e /\ match_ k (key e) = true) (map_ m))) as [H|H].
  - left. apply Exists_exists in H as (e & ? & ? & ?). exists e. by rewrite holds_elem.
  - right. intros e [He Hu]%holds_elem. apply not_true_is_false. intros Hm. apply H, Exists_exists. eauto.
Qed.

Lemma wf_bounds m : table_ok m -> 0 < capacity_ m <= 2 ^ 31 /\ 0 <= occupancy_ m <= capacity_ m.
Proof.
  intros Hm. destruct (slots_pos m Hm) as [Hp Hs]. destruct (ok_capacity m Hm) as (k & Hk & Hc).
  rewrite (ok_occupancy m Hm). pose proof (Z.pow_le_mono_r 2 k 31 ltac:(lia) ltac:(lia)).
  pose proof (ok_length m Hm). pose proof (length_filter in_use (map_ m)). unfold count. lia.
Qed.

Lemma Lookup_present d m k e ins :
  wf m -> k <> 0 -> holds m e -> match_ k (key e) = true ->
  exists p, Lookup_upto d m k (hash_of k) ins = Ok (Some p, m) /\ map_ m !! p = Some e /\ in_use e.
Proof.
  intros Hwf Hk He Hm. destruct (Probe_ok m k Hwf Hk) as (p & e' & Hpr & Hp). exists p.
  destruct Hp as [Hp [(_ & _ & Hno)|[Hh Hm']]]; [by rewrite Hno in Hm|].
  assert (e' = e) as -> by (apply (holds_unique m); [apply Hwf|done..|]; eapply match_trans; [by apply match_sym|done]).
  apply holds_elem in Hh as [_ Hu]. split; [|done].
  destruct d; cbn [Lookup_upto]; rewrite Hpr; cbn [mbind result_bind]; rewrite (hash_entry_at_ok _ _ _ Hp);
    cbn [mbind result_bind]; by rewrite (proj2 (Z.eqb_neq _ 0)).
Qed.

Lemma Lookup_absent d m k :
  wf m -> k <> 0 -> absent m k -> Lookup_upto d m k (hash_of k) false = Ok (None, m).
Proof.
  intros Hwf Hk Ha. destruct (Probe_ok m k Hwf Hk) as (p & e & Hpr & [Hp [(He & _)|[Hh Hm]]]); [|by rewrite Ha in Hm].
  destruct d; cbn [Lookup_upto]; rewrite Hpr; cbn [mbind result_bind]; rewrite (hash_entry_at_ok _ _ _ Hp);
    cbn [mbind result_bind]; by rewrite He.
Qed.

(** The new entry is in its slot; what is left is the decision to grow. *)
Lemma Lookup_new d m k :
  wf m -> k <> 0 -> absent m k -> let x := mkEntry k 0 (hash_of k) in
  exists p m1, table_ok m1 /\ map_ m1 !! p = Some x /\ capacity_ m1 = capacity_ m /\
    occupancy_ m1 = occupancy_ m + 1 /\ (forall a, holds m1 a <-> a = x \/ holds m a) /\
    Lookup_upto d m k (hash_of k) true =
      if occupancy_ m1 + occupancy_ m1 / 4 >=? capacity_ m1 then
        match d with
        | O => Err HNoReturn
        | S d => m2 ← Resize (Lookup_upto d) m1; p ← Probe m2 k (hash_of k); Ok (Some p, m2)
        end
      else Ok (Some p, m1).
Proof.
  intros Hwf Hk Ha x. pose proof Hwf as [Hm Ho]. pose proof (wf_bounds m Hm) as Hb.
  destruct (Probe_ok m k Hwf Hk) as (p & e & Hpr & Hp). pose proof Hp as [Hps [(He & _)|[Hh Hm']]]; [|by rewrite Ha in Hm'].
  destruct (fill_ok m k 0 p e Hwf Hk Hp He) as [Hok Hholds]. fold x in Hok, Hholds.
  set (m1 := set_occupancy (set_entry m p x) (occupancy_ m + 1)) in *.
  exists p, m1. split_and!; [done| |done..|].
  { cbn. apply list_lookup_insert_eq. by eapply lookup_lt_Some. }
  assert (set_occupancy (set_entry m p x) (u32 (occupancy_ (set_entry m p x) + 1)) = m1) as Hm1.
  { unfold m1. f_equal. cbn. apply wrapU_id. unfold isU. lia. }
  assert (u32 (occupancy_ m1 + occupancy_ m1 / 4) = occupancy_ m1 + occupancy_ m1 / 4) as Hw.
  { apply wrapU_id. unfold isU. cbn. divlia. }
  destruct d; cbn [Lookup_upto]; rewrite Hpr; cbn [mbind result_bind]; rewrite (hash_entry_at_ok _ _ _ Hps);
    cbn [mbind result_bind]; rewrite He; cbn [Z.eqb negb]; fold x; by rewrite Hm1, Hw.
Qed.

(** ** Initialize, Clear *)

(** The only way to fail. *)
Definition out_of_memory (e : hash_error) : Prop := e = HFatal /\ exists n, malloc n = None.

Lemma cleared_holds l c o e : ~ holds (mkHashMap (clear_key <$> l) c o) e.
Proof. intros [He Hu]%holds_elem. cbn in He. apply list_elem_of_fmap in He as (a & -> & _). by destruct Hu. Qed.

Lemma cleared_wf l k :
  0 <= k <= 31 -> length l = Z.to_nat (2 ^ k) -> wf (mkHashMap (clear_key <$> l) (2 ^ k) 0).
Proof.
  intros Hk Hl. pose proof (pow2_pos k ltac:(lia)). set (m := mkHashMap _ _ _).
  assert (forall e, ~ holds m e) as Hno by apply cleared_holds.
  split; [|cbn; lia]. split.
  - cbn. eauto.
  - cbn. by rewrite length_fmap.
  - cbn [occupancy_ m map_]. unfold count. replace (filter in_use (clear_key <$> l)) with (@nil Entry); [done|].
    clear. induction l as [|e l IH]; [done|]. cbn [fmap list_fmap].
    rewrite filter_cons_False; [done|]. by intros [].
  - intros e He Hu. destruct (Hno e). by apply holds_elem.
  - intros i j a b Hi _ Ha _ _. destruct (Hno a). apply holds_elem. split; [by eapply list_elem_of_lookup_2|done].
  - intros i a _ Hia. destruct (Hno a). by exists i.
Qed.

Lemma Initialize_ok k :
  0 <= k <= 31 ->
  match Initialize (2 ^ k) with
  | Ok m => wf m /\ capacity_ m = 2 ^ k /\ occupancy_ m = 0 /\ forall e, ~ holds m e
  | Err e => out_of_memory e
  end.
Proof.
  intros Hk. unfold Initialize. pose proof (pow2_pos k ltac:(lia)).
  rewrite (proj2 (Utils.IsPowerOfTwo_spec (2 ^ k) ltac:(lia))) by (exists k; lia). cbn [assert_ mbind result_bind].
  destruct (malloc (Z.to_nat (2 ^ k))) as [l|] eqn:El; [|split; [done|by eexists]].
  unfold Clear. cbn [map_ capacity_]. split_and!; [|done..|intros e; apply cleared_holds].
  apply cleared_wf; [done|]. by apply malloc_length in El.
Qed.

Lemma Clear_ok m : wf m -> wf (Clear m) /\ forall e, ~ holds (Clear m) e.
Proof.
  intros [Hm _]. unfold Clear. split; [|intros e; apply cleared_holds].
  destruct (ok_capacity m Hm) as (k & Hk & Hc). pose proof (ok_length m Hm) as Hl. unfold slots in Hl.
  rewrite Hc in *. by apply cleared_wf.
Qed.

(** ** Resize *)

Lemma apart_cons e l :
  apart (e :: l) -> apart l /\ (in_use e -> forall a, a ∈ l -> in_use a -> match_ (key e) (key a) = false).
Proof.
  intros Hl. split.
  - intros i j a b Hi Hj Ha Hb Hab. by apply (inj S), (Hl (S i) (S j) a b).
  - intros He a [i Hi]%list_elem_of_lookup Ha. apply not_true_is_false. intros Hm.
    by specialize (Hl 0%nat (S i) e a eq_refl Hi He Ha Hm).
Qed.

Lemma count_cons e l : count (e :: l) = ((if decide (in_use e) then 1 else 0) + count l)%nat.
Proof. unfold count. rewrite filter_cons. by case_decide. Qed.

Lemma rehash_ok : forall entries c m,
  wf m -> capacity_ m = 2 * c -> apart entries ->
  (forall e, e ∈ entries -> in_use e -> hash e = hash_of (key e)) ->
  (forall a b, holds m a -> b ∈ entries -> in_use b -> match_ (key b) (key a) = false) ->
  occupancy_ m + Z.of_nat (count entries) <= c ->
  exists m', rehash (Lookup_upto 0) entries (Z.of_nat (count entries)) m = Ok m' /\ wf m' /\
    capacity_ m' = capacity_ m /\ occupancy_ m' = occupancy_ m + Z.of_nat (count entries) /\
    forall a, holds m' a <-> holds m a \/ a ∈ entries /\ in_use a.
Proof.
  induction entries as [|e l IH]; intros c m Hwf Hcap Hap Hhash Hsep Hroom.
  { exists m. cbn. split_and!; [done..|lia|]. set_solver. }
  apply apart_cons in Hap as [Hap Hel]. rewrite count_cons in *. cbn [rehash].
  destruct (decide (in_use e)) as [He|He].
  2:{ apply dec_stable in He. destruct (IH c m) as (m' & Hm' & Hw' & Hc' & Ho' & Hh'); [set_solver..|lia|].
      exists m'. cbn [Nat.add] in *. rewrite Hm', He. split_and!; [|done..|].
      - cbn [Z.eqb negb]. destruct (Z.gtb_spec (Z.of_nat (count l)) 0) as [|Hz]; [done|].
        replace (Z.of_nat (count l)) with 0 in Hm' by lia. destruct l; cbn in Hm'; simplify_eq; done.
      - intros a. rewrite Hh', elem_of_cons. split; [tauto|]. intros [?|[[->|?] ?]]; [tauto|done|tauto]. }
  rewrite (proj2 (Z.eqb_neq (key e) 0) He). cbn [negb].
  destruct (Z.gtb_spec (Z.of_nat (1 + count l)) 0) as [_|]; [|lia].
  rewrite (Hhash e) by (done || left).
  assert (absent m (key e)) as Habs by (intros a Ha; by apply Hsep; [|left|]).
  destruct (Lookup_new 0 m (key e) Hwf He Habs) as (p & m1 & Hok1 & Hp1 & Hc1 & Ho1 & Hh1 & ->).
  assert (0 <= occupancy_ m) by (pose proof (wf_bounds m (proj1 Hwf)); lia).
  destruct (Z.geb_spec (occupancy_ m1 + occupancy_ m1 / 4) (capacity_ m1)) as [Hbig|_]; [divlia|].
  cbn [mbind result_bind]. set (x := mkEntry (key e) 0 (hash_of (key e))) in *.
  assert (wf m1) as Hw1 by (split; [done|lia]).
  destruct (set_value_ok m1 p (value e) x Hw1 Hp1) as (-> & Hw2 & Hh2); [done|].
  assert (set_entry_value x (value e) = e) as Hxe.
  { unfold set_entry_value, x. cbn. rewrite <- (Hhash e) by (done || left). by destruct e. }
  rewrite Hxe in *. set (m2 := set_entry m1 p e) in *. cbn [mbind result_bind].
  assert (forall a, holds m2 a <-> a = e \/ holds m a) as Hh.
  { intros a. rewrite Hh2, Hh1. split; [tauto|]. intros [->|Ha]; [by left|]. right. split; [by right|].
    intros ->. specialize (Habs _ Ha). unfold x in Habs. cbn [key] in Habs. by rewrite match_refl in Habs. }
  destruct (IH c m2) as (m' & Hm' & Hw' & Hc' & Ho' & Hh'); try done.
  - change (capacity_ m2) with (capacity_ m1). lia.
  - set_solver.
  - intros a b Ha Hb Hub. apply Hh in Ha as [->|Ha].
    + apply not_true_is_false. intros Hbe. apply match_sym in Hbe. by rewrite Hel in Hbe.
    + apply Hsep; [done|by right|done].
  - change (occupancy_ m2) with (occupancy_ m1). lia.
  - exists m'. replace (Z.of_nat (1 + count l) - 1) with (Z.of_nat (count l)) by lia. rewrite Hm'.
    change (occupancy_ m2) with (occupancy_ m1) in Ho'. change (capacity_ m2) with (capacity_ m1) in Hc'.
    split_and!; [done..|lia|lia|]. intros a. rewrite Hh', Hh, elem_of_cons.
    split; [intros [[->|?]|[? ?]]; tauto|tauto].
Qed.

Lemma Resize_ok m :
  table_ok m -> capacity_ m <= 2 ^ 30 ->
  match Resize (Lookup_upto 0) m with
  | Ok m' => wf m' /\ capacity_ m' = 2 * capacity_ m /\ occupancy_ m' = occupancy_ m /\ forall a, holds m' a <-> holds m a
  | Err e => out_of_memory e
  end.
Proof.
  intros Hm Hc. unfold Resize. pose proof (wf_bounds m Hm) as [Hb Ho].
  rewrite wrapU_id by (unfold isU; lia). destruct (ok_capacity m Hm) as (k & Hk & Hck).
  assert (k < 31) as Hk30 by (apply (Z.pow_lt_mono_r_iff 2); lia).
  rewrite Z.mul_comm, Hck, <- Z.pow_succ_r by lia. pose proof (Initialize_ok (Z.succ k) ltac:(lia)) as Hi.
  destruct (Initialize (2 ^ Z.succ k)) as [m0|]; [|done]. destruct Hi as (Hw0 & Hc0 & Ho0 & Hh0). cbn [mbind result_bind].
  rewrite (ok_occupancy m Hm) in *. rewrite Z.pow_succ_r in * by lia. rewrite <- Hck in *.
  destruct (rehash_ok (map_ m) (capacity_ m) m0) as (m' & -> & Hw' & Hc' & Ho' & Hh'); try done.
  - apply Hm.
  - intros e He Hu. by apply (ok_hash m Hm).
  - intros a b Ha. by destruct (Hh0 a).
  - lia.
  - split_and!; [done|lia|lia|]. intros a. rewrite Hh', (holds_elem m). pose proof (Hh0 a). tauto.
Qed.

(** ** Insertion *)

Lemma Lookup_insert m k :
  wf m -> k <> 0 -> absent m k -> capacity_ m <= 2 ^ 30 -> let x := mkEntry k 0 (hash_of k) in
  match Lookup m k (hash_of k) true with
  | Ok (Some p, m') =>
      wf m' /\ map_ m' !! p = Some x /\ occupancy_ m' = occupancy_ m + 1 /\
      capacity_ m' <= Z.max (capacity_ m) (3 * occupancy_ m') /\ forall a, holds m' a <-> a = x \/ holds m a
  | Ok (None, _) => False
  | Err e => out_of_memory e
  end.
Proof.
  intros Hwf Hk Ha Hc x. unfold Lookup.
  destruct (Lookup_new 1 m k Hwf Hk Ha) as (p & m1 & Hok1 & Hp1 & Hc1 & Ho1 & Hh1 & ->). fold x in Hp1, Hh1.
  pose proof (wf_bounds m1 Hok1) as [Hb1 Hb2].
  destruct (Z.geb_spec (occupancy_ m1 + occupancy_ m1 / 4) (capacity_ m1)) as [Hbig|Hsmall].
  - pose proof (Resize_ok m1 Hok1 ltac:(lia)) as Hr. destruct (Resize (Lookup_upto 0) m1) as [m2|]; [|done].
    destruct Hr as (Hw2 & Hc2 & Ho2 & Hh2). cbn [mbind result_bind].
    destruct (Probe_ok m2 k Hw2 Hk) as (q & e & -> & [Hq Hstop]). cbn [mbind result_bind].
    assert (holds m2 x) as Hx by (apply Hh2, Hh1; by left).
    destruct Hstop as [(_ & _ & Hno)|[He Hm]].
    { specialize (Hno x Hx). unfold x in Hno. cbn [key] in Hno. by rewrite match_refl in Hno. }
    assert (e = x) as -> by (apply (holds_unique m2); [apply Hw2|done..|]; by apply match_sym).
    split_and!; [done|done|lia| |intros a; by rewrite Hh2, Hh1].
    assert (capacity_ m2 <= 3 * occupancy_ m2); [|lia]. rewrite Hc2, Ho2. divlia.
  - split_and!; [split; [done|]|done|lia|lia|done]. divlia.
Qed.

(** ** Removal *)

Lemma moves_back_dist cap c n s :
  (c < cap)%nat -> (n < cap)%nat -> (s < cap)%nat -> n <> c ->
  moves_back c n s = (dist cap s c <? dist cap s n)%nat.
Proof.
  intros Hc Hn Hs Hne. apply bool_eqb_iff. unfold moves_back.
  rewrite orb_true_iff, !andb_true_iff, orb_true_iff, !Nat.ltb_lt, Nat.leb_le. circle.
Qed.

Definition apart_slots (s : nat -> option Entry) : Prop :=
  forall i j a b, s i = Some a -> s j = Some b -> match_ (key a) (key b) = true -> i = j.

Lemma apart_contents m : apart (map_ m) <-> apart_slots (contents m).
Proof.
  split.
  - intros H i j a b [Hi Ha]%contents_Some [Hj Hb]%contents_Some. by apply H.
  - intros H i j a b Hi Hj Ha Hb. apply (H i j a b); by apply contents_Some.
Qed.

(** Both slot functions have the same entries, each in one slot. *)
Definition same_entries (s s' : nat -> option Entry) : Prop :=
  forall a, (exists i, s i = Some a) <-> (exists i, s' i = Some a).

#[export] Instance same_entries_equiv : Equivalence same_entries.
Proof.
  split.
  - by intros s a.
  - intros s s' H a. symmetry. apply H.
  - intros s s' s'' H H' a. etransitivity; [apply H|apply H'].
Qed.

Lemma move_entries s c n a :
  s c = None -> s n = Some a -> apart_slots s ->
  same_entries s (slot_set (slot_set s c (Some a)) n None) /\ apart_slots (slot_set (slot_set s c (Some a)) n None).
Proof.
  intros Hc Hn Hap. assert (c <> n) as Hcn by congruence. set (s' := slot_set _ n None).
  assert (forall i b, s' i = Some b <-> i = c /\ b = a \/ i <> n /\ i <> c /\ s i = Some b) as Hs'.
  { intros i b. unfold s'. destruct (decide (i = n)) as [->|Hin]; [rewrite slot_set_eq; naive_solver|].
    rewrite slot_set_ne by done. destruct (decide (i = c)) as [->|Hic]; [rewrite slot_set_eq; naive_solver|].
    rewrite slot_set_ne by done. naive_solver. }
  split.
  - intros b. setoid_rewrite Hs'. split.
    + intros [i Hi]. destruct (decide (i = n)) as [->|Hin]; [exists c; left; split; congruence|].
      exists i. right. split_and!; [done| |done]. congruence.
    + intros [i [[-> ->]|(_ & _ & Hi)]]; eauto.
  - assert (forall j b, j <> n -> s j = Some b -> match_ (key a) (key b) = true -> False) as Hno.
    { intros j b Hjn Hj Hm. by apply Hjn, (Hap j n b a); [..|apply match_sym]. }
    intros i j x y [[-> ->]|(Hin & Hic & Hi)]%Hs' [[-> ->]|(Hjn & Hjc & Hj)]%Hs' Hxy.
    + done.
    + by destruct (Hno j y).
    + destruct (Hno i x); [done..|by apply match_sym].
    + by apply (Hap i j x y).
Qed.

(** The table while the entry at [c] is being removed and [n] has been examined. *)
Record removing (m : HashMap) (c n : nat) : Prop := {
  rm_capacity : exists k, 0 <= k <= 31 /\ capacity_ m = 2 ^ k;
  rm_length : length (map_ m) = slots m;
  rm_range : (c < slots m /\ n < slots m)%nat;
  rm_stale : filled (contents m) c;
  rm_apart : apart_slots (slot_set (contents m) c None);
  rm_hole : hole (start m) (slots m) (slot_set (contents m) c None) c n
}.

Lemma removing_move m c n e :
  let n' := next_slot (slots m) n in
  removing m c n -> n' <> c -> contents m n' = Some e ->
  (dist (slots m) (start m e) c < dist (slots m) (start m e) n')%nat ->
  removing (set_entry m c e) n' n' /\
  same_entries (slot_set (contents m) c None) (slot_set (contents (set_entry m c e)) n' None).
Proof.
  intros n' [Hcap Hlen [Hc Hn] Hst Hap Hh] Hne He Hd.
  assert (slot_set (contents m) c None n' = Some e) as Hse by (by rewrite slot_set_ne).
  destruct (move_entries _ c n' e (slot_set_eq _ _ _) Hse Hap) as [Hsame Hap'].
  assert (forall i, slot_set (slot_set (slot_set (contents m) c None) c (Some e)) n' None i =
                    slot_set (contents (set_entry m c e)) n' None i) as Hext.
  { intros i. unfold slot_set at 1 4. destruct (i =? n')%nat; [done|].
    rewrite contents_set by (by rewrite Hlen). apply contents_Some in He as [_ He].
    rewrite (proj2 (Z.eqb_neq (key e) 0) He). unfold slot_set. by destruct (i =? c)%nat. }
  split.
  - split; cbn [set_entry capacity_ map_].
    + done.
    + by rewrite length_insert.
    + split; by apply next_slot_lt.
    + unfold filled. rewrite contents_set, slot_set_ne by (done || by rewrite Hlen). congruence.
    + intros i j a b. rewrite <- !Hext. apply Hap'.
    + pose proof (hole_move (start m) (slots m) _ c n e Hc Hn Hh Hne Hse Hd) as [H1 H2 H3 H4]. fold n' in H1, H2, H3, H4.
      split; intros *; unfold filled in *; rewrite <- ?Hext; eauto.
  - intros a. setoid_rewrite <- Hext. apply Hsame.
Qed.

Lemma Remove_loop_ok z : forall fuel m c n,
  removing m c n -> n <> z -> (z < slots m)%nat -> contents m z = None -> (dist (slots m) n z <= fuel)%nat ->
  exists c' m', Remove_loop fuel m c n = Ok (c', m') /\
    (c' < slots m)%nat /\ filled (contents m') c' /\ capacity_ m' = capacity_ m /\ occupancy_ m' = occupancy_ m /\
    length (map_ m') = length (map_ m) /\ count (map_ m') = count (map_ m) /\
    apart_slots (slot_set (contents m') c' None) /\
    reachable (start m) (slots m) (slot_set (contents m') c' None) /\
    same_entries (slot_set (contents m) c None) (slot_set (contents m') c' None).
Proof.
  induction fuel as [|fuel IH]; intros m c n Hr Hnz Hz Hze Hfuel.
  all: pose proof Hr as [Hcap Hlen [Hc Hn] Hst Hap Hh].
  { destruct Hnz. apply (dist_inj (cap := slots m) n); [done..|]. rewrite dist_0. lia. }
  assert (z <> c) as Hzc by (unfold filled in Hst; congruence).
  destruct (hole_next _ _ _ c n z Hc Hn Hz Hh) as (Hnc & Hdn & Hdz); [by rewrite slot_set_ne|done|].
  cbn [Remove_loop]. set (n' := next_slot (slots m) n) in *. pose proof (next_slot_lt n Hn) as Hn'. fold n' in Hn'.
  destruct (lookup_lt_is_Some_2 (map_ m) n') as [e He]; [by rewrite Hlen|].
  rewrite (hash_entry_at_ok _ _ _ He). cbn [mbind result_bind]. destruct (Z.eqb_spec (key e) 0) as [He0|He0].
  - exists c, m. split_and!; try done. apply (hole_close (start m) (slots m) _ c n); try done.
    fold n'. rewrite slot_set_ne by done. by apply (contents_None m n' e).
  - assert (contents m n' = Some e) as Hce by (by apply contents_Some).
    assert (n' <> z) as Hn'z by congruence.
    assert (dist (slots m) n' z <= fuel)%nat as Hf.
    { pose proof (dist_step (cap := slots m) n z Hn Hz (not_eq_sym Hnz)) as Hs. fold n' in Hs. lia. }
    assert (start m e < slots m)%nat as Hs.
    { apply (hole_start _ _ _ _ _ Hh n' e Hn'). by rewrite slot_set_ne. }
    change (initial_slot m (hash e)) with (start m e).
    rewrite (moves_back_dist (slots m)) by done. destruct (Nat.ltb_spec (dist (slots m) (start m e) c) (dist (slots m) (start m e) n')) as [Hlt|Hge].
    + destruct (removing_move m c n e Hr Hnc Hce Hlt) as [Hr' Hsame]. fold n' in Hr', Hsame.
      destruct (lookup_lt_is_Some_2 (map_ m) c) as [old Hold]; [by rewrite Hlen|].
      destruct (IH (set_entry m c e) n' n' Hr' Hn'z Hz) as (c' & m' & -> & H1 & H2 & H3 & H4 & H5 & H6 & H7 & H8 & H9); [|done|].
      { rewrite contents_set by (by rewrite Hlen). by rewrite slot_set_ne. }
      exists c', m'. split_and!; try done.
      * rewrite H5. cbn. by rewrite length_insert.
      * rewrite H6. cbn [set_entry map_]. pose proof (count_insert (map_ m) c old e Hold) as Hcnt.
        rewrite !decide_True in Hcnt; [lia|done|]. intros Ho. apply Hst. by apply (contents_None m c old).
      * by rewrite Hsame.
    + apply IH; try done. split; try done. apply (hole_stay (start m) (slots m) _ c n e); try done.
      by fold n'; rewrite slot_set_ne.
Qed.

Lemma HashMap_Remove_ok m k :
  wf m -> k <> 0 ->
  exists m', Remove m k (hash_of k) = Ok m' /\ wf m' /\ capacity_ m' = capacity_ m /\ occupancy_ m' <= occupancy_ m /\
    forall a, holds m' a <-> holds m a /\ match_ k (key a) = false.
Proof.
  intros Hwf Hk. pose proof Hwf as [Hm Ho]. pose proof (wf_bounds m Hm) as [Hb1 Hb2]. unfold Remove.
  destruct (Probe_ok m k Hwf Hk) as (c & e & -> & [Hc Hstop]). cbn [mbind result_bind].
  rewrite (hash_entry_at_ok _ _ _ Hc). cbn [mbind result_bind].
  destruct Hstop as [(He & _ & Hno)|[Hh Hma]].
  { rewrite He. exists m. split_and!; [done..|lia|]. intros a. split; [|tauto]. auto. }
  apply holds_elem in Hh as [_ Hu]. rewrite (proj2 (Z.eqb_neq (key e) 0) Hu), (proj2 (Z.ltb_lt _ _) Ho). cbn [assert_ mbind result_bind].
  assert (contents m c = Some e) as Hce by (by apply contents_Some).
  assert (c < slots m)%nat as Hcl by (rewrite <- (ok_length m Hm); by eapply lookup_lt_Some).
  assert (apart_slots (contents m)) as Hap by (apply apart_contents, Hm).
  destruct (wf_empty m Hwf) as (z & Hz & Hze). assert (c <> z) as Hcz by congruence.
  destruct (Remove_loop_ok z (slots m) m c c) as (c' & m' & -> & H1 & H2 & H3 & H4 & H5 & H6 & H7 & H8 & H9); try done.
  { split; try done; [apply Hm|apply Hm|unfold filled; congruence| |apply hole_open; [done|apply Hm]].
    intros i j a b Hi Hj. unfold slot_set in Hi, Hj. destruct (i =? c)%nat, (j =? c)%nat; try done. by apply Hap. }
  { pose proof (dist_lt (cap := slots m) c z). lia. }
  destruct (lookup_lt_is_Some_2 (map_ m') c') as [x Hx]; [by rewrite H5, (ok_length m Hm)|].
  cbn [mbind result_bind]. rewrite (hash_entry_at_ok _ _ _ Hx). cbn [mbind result_bind].
  set (m1 := set_entry m' c' (clear_key x)).
  assert (forall i, slot_set (contents m') c' None i = contents m1 i) as Hext.
  { intros i. unfold m1. rewrite contents_set by (by eapply lookup_lt_Some). done. }
  assert (in_use x) as Hxu by (intros ?; apply H2; by apply (contents_None m' c' x)).
  assert (forall a, holds m1 a <-> holds m a /\ match_ k (key a) = false) as Hholds.
  { intros a. unfold holds. setoid_rewrite <- Hext. rewrite <- (H9 a). split.
    - intros [i Hi]. destruct (decide (i = c)) as [->|Hne]; [by rewrite slot_set_eq in Hi|].
      rewrite slot_set_ne in Hi by done. split; [eauto|]. apply not_true_is_false. intros Hka.
      apply Hne, (Hap i c a e Hi Hce). by eapply match_trans; [apply match_sym|].
    - intros [[i Hi] Hka]. exists i. rewrite slot_set_ne; [done|]. intros ->. rewrite Hce in Hi. simplify_eq. congruence. }
  pose proof (count_insert (map_ m') c' x (clear_key x) Hx) as Hcnt.
  rewrite decide_True, decide_False in Hcnt by (done || by intros []). fold (map_ m1) in Hcnt.
  assert (u32 (occupancy_ m1 - 1) = Z.of_nat (count (map_ m1))) as Hocc.
  { change (occupancy_ m1) with (occupancy_ m'). change (map_ m1) with (<[c' := clear_key x]> (map_ m')).
    rewrite H4, (ok_occupancy m Hm). rewrite (ok_occupancy m Hm) in *. rewrite wrapU_id by (unfold isU; lia). lia. }
  exists (set_occupancy m1 (u32 (occupancy_ m1 - 1))). split; [done|]. split_and!.
  - split; [split|].
    + cbn. rewrite H3. apply Hm.
    + cbn. rewrite length_insert, H5. unfold slots. cbn. rewrite H3. apply Hm.
    + done.
    + intros a Ha Hua. destruct (proj1 (Hholds a)) as [Hold _]; [by apply holds_elem|].
      apply holds_elem in Hold as [? ?]. by apply (ok_hash m Hm).
    + apply apart_contents. intros i j a b Hi Hj. change (contents (set_occupancy m1 _)) with (contents m1) in *.
      rewrite <- Hext in Hi, Hj. by apply H7.
    + assert (slots (set_occupancy m1 (u32 (occupancy_ m1 - 1))) = slots m) as -> by (unfold slots; cbn; by rewrite H3).
      apply (reachable_ext _ _ (slot_set (contents m') c' None)); [done|].
      intros i a Hi Hia. destruct (H8 i a Hi Hia) as [? ?].
      assert (start (set_occupancy m1 (u32 (occupancy_ m1 - 1))) a = start m a) as -> by (unfold start, initial_slot; cbn; by rewrite H3).
      done.
    + cbn [occupancy_ set_occupancy capacity_]. rewrite Hocc. change (capacity_ m1) with (capacity_ m').
      change (map_ m1) with (<[c' := clear_key x]> (map_ m')). rewrite (ok_occupancy m Hm) in *. lia.
  - done.
  - cbn [occupancy_ set_occupancy]. rewrite Hocc. change (map_ m1) with (<[c' := clear_key x]> (map_ m')).
    rewrite (ok_occupancy m Hm) in *. lia.
  - done.
Qed.

(** ** Refinement *)

Lemma denotes_present m f k e :
  denotes m f -> k <> 0 -> holds m e -> match_ k (key e) = true -> f k = Some (value e).
Proof. intros Hd Hk He Hm. apply Hd; eauto. Qed.

Lemma denotes_absent m f k : denotes m f -> k <> 0 -> absent m k -> f k = None.
Proof.
  intros Hd Hk Ha. destruct (f k) as [v|] eqn:Hf; [|done].
  apply Hd in Hf as (e & He & Hm & _); [|done]. by rewrite Ha in Hm.
Qed.

(** Dropping the entries that match [k], and perhaps adding one, updates [f] at [k]. *)
Lemma denotes_update m m' f k (x : option Entry) :
  denotes m f -> (forall e, x = Some e -> match_ k (key e) = true) ->
  (forall a, holds m' a <-> x = Some a \/ holds m a /\ match_ k (key a) = false) ->
  denotes m' (update f k (value <$> x)).
Proof.
  intros Hd Hx Hh j v Hj. unfold update. destruct (match_ k j) eqn:Hkj.
  - split.
    + intros Hv. destruct x as [e|]; [|done]. cbn in Hv. simplify_eq. exists e. split_and!; [apply Hh; by left| |done].
      eapply match_trans; [by apply match_sym|by apply Hx].
    + intros (e & [->|[_ Hke]]%Hh & Hje & <-); [done|]. by rewrite (match_trans k j (key e)) in Hke.
  - rewrite (Hd j v Hj). split.
    + intros (e & He & Hje & <-). exists e. split_and!; [|done..]. apply Hh. right. split; [done|].
      apply not_true_is_false. intros Hke. apply match_sym in Hje. by rewrite (match_trans k (key e) j) in Hkj.
    + intros (e & [->|[He _]]%Hh & Hje & <-); [|by exists e]. pose proof (Hx e eq_refl) as Hke. apply match_sym in Hje.
      by rewrite (match_trans k (key e) j) in Hkj.
Qed.

(** Adding an entry for a key that is absent. *)
Lemma denotes_add m m' f k x :
  denotes m f -> match_ k (key x) = true -> absent m k -> (forall a, holds m' a <-> a = x \/ holds m a) ->
  denotes m' (update f k (Some (value x))).
Proof.
  intros Hd Hx Ha Hh. apply (denotes_update m m' f k (Some x)); [done|by intros e [= <-]|].
  intros a. rewrite Hh. split; [|naive_solver]. intros [->|?]; [by left|]. right. auto.
Qed.

(** Replacing the entry of a key that is present. *)
Lemma denotes_replace m m' f k e x :
  table_ok m -> denotes m f -> holds m e -> match_ k (key e) = true -> match_ k (key x) = true ->
  (forall a, holds m' a <-> a = x \/ holds m a /\ a <> e) -> denotes m' (update f k (Some (value x))).
Proof.
  intros Hm Hd He Hke Hkx Hh. apply (denotes_update m m' f k (Some x)); [done|by intros ? [= <-]|].
  intros a. rewrite Hh. split.
  - intros [->|[Ha Hae]]; [by left|]. right. split; [done|]. apply not_true_is_false. intros Hka. apply Hae.
    apply (holds_unique m); [done..|]. by eapply match_trans; [apply match_sym|].
  - intros [[= ->]|[Ha Hka]]; [by left|]. right. split; [done|]. intros ->. congruence.
Qed.

(** A slot that holds the entry found for [k] is overwritten with the value. *)
Lemma write_value_ok m f k p e v :
  wf m -> denotes m f -> map_ m !! p = Some e -> in_use e -> match_ k (key e) = true ->
  exists m', set_value m p v = Ok m' /\ wf m' /\ capacity_ m' = capacity_ m /\ occupancy_ m' = occupancy_ m /\
    denotes m' (update f k (Some v)).
Proof.
  intros Hwf Hd Hp Hu Hm. destruct (set_value_ok m p v e Hwf Hp Hu) as (Hs & Hw & Hh).
  eexists. split; [exact Hs|]. split_and!; [done..|].
  apply (denotes_replace m _ f k e (set_entry_value e v)); [apply Hwf|done| |done..].
  apply holds_elem. split; [by eapply list_elem_of_lookup_2|done].
Qed.

(** The map [f] is a function of the keys up to [match_]. *)
Lemma denotes_same m f g : denotes m f -> (forall k, k <> 0 -> f k = g k) -> denotes m g.
Proof. intros Hd He k v Hk. rewrite <- He by done. by apply Hd. Qed.

Lemma denotes_respects m f j k :
  denotes m f -> j <> 0 -> k <> 0 -> match_ k j = true -> f k = f j.
Proof.
  intros Hd Hj Hk Hm. destruct (present_or_absent m k) as [(e & He & Hke)|Ha].
  - rewrite (denotes_present m f k e), (denotes_present m f j e); try done.
    by eapply match_trans; [apply match_sym|].
  - rewrite (denotes_absent m f k), (denotes_absent m f j); try done. intros e He. apply not_true_is_false. intros Hje.
    specialize (Ha e He). by rewrite (match_trans k j (key e)) in Ha.
Qed.

Record simulates (m : HashMap) (o : Z) (c : Z) (f : Z -> option Z) : Prop := {
  sim_wf : wf m;
  sim_denotes : denotes m f;
  sim_occupancy : occupancy_ m <= o;
  sim_capacity : capacity_ m <= Z.max c (3 * o)
}.

Lemma run_cmd_ok m o c f cm :
  cmd_ok cm -> simulates m o c f -> c <= 2 ^ 30 -> 0 <= o -> 3 * o <= 2 ^ 30 ->
  match run_cmd m cm with
  | Ok (a, m') => a = (spec_cmd f cm).1 /\ simulates m' (o + 1) c (spec_cmd f cm).2
  | Err e => out_of_memory e
  end.
Proof.
  intros Hk [Hwf Hd Ho Hc] Hcb Ho0 Hob. destruct cm as [k|k|k v|k|]; cbn [run_cmd cmd_ok spec_cmd fst snd] in *.
  - destruct (present_or_absent m k) as [(e & He & Hm)|Ha].
    + destruct (Lookup_present 1 m k e false Hwf Hk He Hm) as (p & Hl & Hp & _). unfold Lookup. rewrite Hl. cbn [mbind result_bind].
      rewrite (hash_entry_at_ok _ _ _ Hp). cbn [mbind result_bind].
      split; [symmetry; by apply (denotes_present m)|]. split; [done..|lia|lia].
    + unfold Lookup. rewrite Lookup_absent by done. cbn [mbind result_bind].
      split; [symmetry; by apply (denotes_absent m)|]. split; [done..|lia|lia].
  - destruct (present_or_absent m k) as [(e & He & Hm)|Ha].
    + destruct (Lookup_present 1 m k e true Hwf Hk He Hm) as (p & Hl & Hp & _). unfold Lookup. rewrite Hl. cbn [mbind result_bind].
      rewrite (hash_entry_at_ok _ _ _ Hp). cbn [mbind result_bind].
      rewrite (denotes_present m f k e) by done. cbn [default]. split; [done|]. split; [done| |lia|lia].
      apply (denotes_same m f); [done|]. intros j Hj. unfold update. destruct (match_ k j) eqn:Hkj; [|done].
      rewrite <- (denotes_respects m f j k) by done. by apply (denotes_present m).
    + pose proof (Lookup_insert m k Hwf Hk Ha ltac:(lia)) as Hl. destruct (Lookup m k (hash_of k) true) as [[[p|] m']|]; [|done..].
      destruct Hl as (Hw & Hp & Hocc & Hcap & Hh). cbn [mbind result_bind]. rewrite (hash_entry_at_ok _ _ _ Hp). cbn [mbind result_bind].
      rewrite (denotes_absent m f k) by done. split; [done|]. split; [done| |lia|lia].
      apply (denotes_add m m' f k (mkEntry k 0 (hash_of k))); try done. by apply match_refl.
  - destruct (present_or_absent m k) as [(e & He & Hm)|Ha].
    + destruct (Lookup_present 1 m k e true Hwf Hk He Hm) as (p & Hl & Hp & Hu). unfold Lookup. rewrite Hl. cbn [mbind result_bind].
      destruct (write_value_ok m f k p e v) as (m' & -> & Hw & Hc' & Ho' & Hd'); try done. cbn [mbind result_bind].
      split; [done|]. split; [done..|lia|lia].
    + pose proof (Lookup_insert m k Hwf Hk Ha ltac:(lia)) as Hl. destruct (Lookup m k (hash_of k) true) as [[[p|] m1]|]; [|done..].
      destruct Hl as (Hw & Hp & Hocc & Hcap & Hh). cbn [mbind result_bind].
      assert (denotes m1 (update f k (Some 0))) as Hd1.
      { apply (denotes_add m m1 f k (mkEntry k 0 (hash_of k))); try done. by apply match_refl. }
      destruct (write_value_ok m1 _ k p _ v Hw Hd1 Hp) as (m' & -> & Hw' & Hc' & Ho' & Hd'); [done|by apply match_refl|].
      cbn [mbind result_bind]. split; [done|]. split; [done| |lia|lia].
      apply (denotes_same m' _ _ Hd'). intros j Hj. unfold update. by destruct (match_ k j).
  - destruct (HashMap_Remove_ok m k Hwf Hk) as (m' & -> & Hw & Hcap & Hocc & Hh). cbn [mbind result_bind]. split; [done|].
    split; [done| |lia|lia]. apply (denotes_update m m' f k None); [done..|]. intros a. rewrite Hh. naive_solver.
  - destruct (Clear_ok m Hwf) as [Hw Hh]. split; [done|]. split; [done| |cbn; lia|cbn; lia].
    intros k v _. split; [done|]. intros (e & He & _). by destruct (Hh e).
Qed.

Lemma run_cmds_ok : forall cs m o c f,
  Forall cmd_ok cs -> simulates m o c f -> c <= 2 ^ 30 -> 0 <= o -> 3 * (o + Z.of_nat (length cs)) <= 2 ^ 30 ->
  match run_cmds m cs with
  | Ok (answers, m') => answers = (spec_cmds f cs).1 /\ wf m' /\ denotes m' (spec_cmds f cs).2
  | Err e => out_of_memory e
  end.
Proof.
  induction cs as [|cm cs IH]; intros m o c f Hcs Hs Hc Ho Hb; cbn [run_cmds spec_cmds].
  { split; [done|]. split; apply Hs. }
  inversion Hcs as [|? ? Hcm Hcs']; subst. cbn [length] in Hb.
  pose proof (run_cmd_ok m o c f cm Hcm Hs Hc Ho ltac:(lia)) as Hr.
  destruct (run_cmd m cm) as [[a m1]|]; [|done]. destruct Hr as [-> Hs1]. cbn [mbind result_bind].
  specialize (IH m1 (o + 1) c _ Hcs' Hs1 Hc ltac:(lia) ltac:(lia)).
  destruct (spec_cmd f cm) as [a f1]. cbn [fst snd] in *.
  destruct (run_cmds m1 cs) as [[answers m']|]; [|done]. destruct IH as (-> & ? & ?). cbn [mbind result_bind].
  destruct (spec_cmds f1 cs) as [answers' f']. done.
Qed.

(** C15: a [HashMap] behaves as the abstract map: every sequence of up to 2^28
    operations on a new table, of any size up to 2^30 entries, returns what the
    operations on a partial function from keys to values return, with growth,
    collisions and the moving of entries on removal; it stops only when [malloc]
    fails, and the table that is left is well formed and denotes that function. *)
Theorem HashMap_refines cs k :
  Forall cmd_ok cs -> 0 <= k <= 30 -> Z.of_nat (length cs) <= 2 ^ 28 ->
  match (m ← HashMap_new (2 ^ k); run_cmds m cs) with
  | Ok (answers, m') =>
      answers = (spec_cmds (fun _ => None) cs).1 /\ wf m' /\ denotes m' (spec_cmds (fun _ => None) cs).2
  | Err e => out_of_memory e
  end.
Proof.
  intros Hcs Hk Hlen. pose proof (Initialize_ok k ltac:(lia)) as Hi. unfold HashMap_new.
  destruct (Initialize (2 ^ k)) as [m|]; [|done]. destruct Hi as (Hw & Hc & Ho & Hh). cbn [mbind result_bind].
  pose proof (Z.pow_le_mono_r 2 k 30 ltac:(lia) ltac:(lia)).
  apply (run_cmds_ok cs m 0 (2 ^ k)); [done| |lia..]. split; [done| |lia|lia].
  intros j v _. split; [done|]. intros (e & He & _). by destruct (Hh e).
Qed.

(** ** Iteration *)

Lemma visit_ok m : forall n p fuel,
  (p + n = slots m)%nat -> length (map_ m) = slots m -> (n <= fuel)%nat ->
  visit fuel m (Next_loop (drop p (map_ m)) p) = Ok (filter (fun i => is_Some (contents m i)) (seq p n)).
Proof.
  induction n as [|n IH]; intros p fuel Hp Hl Hf.
  - rewrite drop_ge by lia. by destruct fuel.
  - destruct (lookup_lt_is_Some_2 (map_ m) p) as [e He]; [lia|].
    rewrite (drop_S _ e p He). cbn [Next_loop seq]. rewrite filter_cons.
    destruct (Z.eqb_spec (key e) 0) as [H0|H0]; cbn [negb].
    + rewrite decide_False; [apply IH; lia|]. rewrite (proj2 (contents_None m p e He)) by done. by intros [].
    + rewrite decide_True by (exists e; by apply contents_Some). destruct fuel as [|fuel]; [lia|]. cbn [visit].
      unfold Next. rewrite (proj2 (Nat.leb_le (S p) (slots m))) by lia. cbn [assert_ mbind result_bind].
      rewrite IH by lia. done.
Qed.

(** The loop [for (p = Start(); p != NULL; p = Next(p))] ends and visits the slots in
    use, each of them once and in the order of the table. *)
Theorem iterate_complete m :
  length (map_ m) = slots m -> iterate m = Ok (filter (fun i => is_Some (contents m i)) (seq 0 (slots m))).
Proof.
  intros Hm. unfold iterate, Start, Next. cbn [Nat.leb assert_ mbind result_bind].
  apply visit_ok; [done|done|lia].
Qed.

End refinement.

(** ** Clients *)

(** Keys compared by their address. *)
Definition PointerMatch : MatchFun := {| match_ := SamePointerValue |}.

(** Keys that point to strings; [chars] is what is there. *)
Definition StringMatch (chars : Z -> list Z) : MatchFun :=
  {| match_ := fun a b => SameStringValue (chars a) (chars b) |}.

Lemma StringHash_range key : isU 32 (StringHash key).
Proof.
  destruct key as [chars|]; [|done]. unfold StringHash.
  match goal with |- isU 32 (if ?h =? 0 then _ else _) => assert (isU 32 h) as Hh by (apply wrapU_range; lia) end.
  destruct (_ =? 0); [done|exact Hh].
Qed.

Definition StringClient (chars : Z -> list Z) : HashClient (MF := StringMatch chars).
Proof.
  refine {| hash_of := fun k => StringHash (Some (chars k)) |}; cbn [match_ StringMatch]; unfold SameStringValue.
  - intros k. apply StringHash_range.
  - intros. by apply bool_decide_eq_true.
  - intros k1 k2. rewrite !bool_decide_eq_true. done.
  - intros k1 k2 k3. rewrite !bool_decide_eq_true. congruence.
  - intros k1 k2 ->%bool_decide_eq_true. done.
Defined.

Definition pointer_client : HashClient (MF := PointerMatch).
Proof.
  refine {| hash_of := fun k => u32 k |}; cbn [match_ PointerMatch]; unfold SamePointerValue.
  - intros k. apply wrapU_range. lia.
  - intros. apply Z.eqb_refl.
  - intros k1 k2. rewrite !Z.eqb_eq. done.
  - intros k1 k2 k3. rewrite !Z.eqb_eq. congruence.
  - intros k1 k2 ->%Z.eqb_eq. done.
Defined.

(** A [malloc] that succeeds, and leaves what was in memory before. *)
Definition dirty_malloc : Malloc.
Proof. refine {| malloc := fun n => Some (replicate n (mkEntry 7 7 7)) |}. intros n l [= <-]. apply length_replicate. Defined.

Definition demo_chars (k : Z) : list Z := [97; k mod 128].
Definition demo_cmds : list cmd :=
  [CInsert 1 10; CInsert 2 20; CInsert 3 30; CAdd 131; CLookup 129; CRemove 2; CLookup 130; CLookup 3; CClear; CLookup 3].

Lemma HashMap_refines_witness :
  Forall cmd_ok demo_cmds /\
  match (m ← HashMap_new (ML := dirty_malloc) (2 ^ 0);
         run_cmds (ML := dirty_malloc) (HC := StringClient demo_chars) m demo_cmds) with
  | Ok (answers, _) => answers = [Some 10; Some 20; Some 30; Some 30; Some 10; None; None; Some 30; None; None]
  | Err _ => False
  end.
Proof.
  assert (Forall cmd_ok demo_cmds) as Hcs by (by vm_compute; repeat constructor).
  split; [exact Hcs|].
  pose proof (HashMap_refines (ML := dirty_malloc) (HC := StringClient demo_chars) demo_cmds 0 Hcs ltac:(lia) ltac:(vm_compute; congruence)) as H.
  destruct (mbind _ _) as [[answers m']|e].
  - destruct H as [-> _]. vm_compute. reflexivity.
  - destruct H as [_ [n Hn]]. discriminate Hn.
Defined.

Definition demo_table : HashMap :=
  mkHashMap [mkEntry 9 90 1; mkEntry 5 50 1; mkEntry 0 7 7; mkEntry 3 30 3] 4 3.

Lemma iterate_complete_witness : iterate demo_table = Ok [0; 1; 3]%nat.
Proof. apply (iterate_complete demo_table eq_refl). Defined.

End HashMap.
