(* ===== verification/Message.v ===== *)
(** * vm/message.h, vm/message.cc

    [Message] and [MessageQueue].  A queue is a list linked through the
    messages themselves, so the messages are cells of a heap: a [Message*] is an
    address, [NULL] is 0, and a queue is the addresses of its first and last
    message.  The build is the one with assertions ([DEBUG]). *)

From stdpp Require Import base numbers list sets gmap.
From Stdlib Require Import ZArith Lia.
From S2P Require Import Prelude.

Local Open Scope Z_scope.

Module Message.

Inductive msg_error :=
| MAssertFailed
| MUndefined      (* an access through a pointer to no message *)
| MNoReturn.      (* the rounds of a loop ran out *)

Abbreviation M A := (result msg_error A).
Definition assert_ (b : bool) : M unit := if b then Ok () else Err MAssertFailed.

Inductive Priority := kNormalPriority | kOOBPriority.

Definition Priority_value (p : Priority) : Z := match p with kNormalPriority => 0 | kOOBPriority => 1 end.

#[export] Instance Priority_eq_dec : EqDecision Priority.
Proof. solve_decision. Defined.

Definition kIllegalPort : Z := 0.

Record Message := mkMessage {
  next_ : Z;
  dest_port_ : Z;
  delivery_failure_port_ : Z;
  data_ : Z;
  len_ : Z;
  priority_ : Priority
}.

#[export] Instance Message_eq_dec : EqDecision Message.
Proof. solve_decision. Defined.

Definition set_next_ (m : Message) (next : Z) : Message :=
  mkMessage next (dest_port_ m) (delivery_failure_port_ m) (data_ m) (len_ m) (priority_ m).

(** The constructor. *)
Definition Message_new (dest_port data len : Z) (priority : Priority) (delivery_failure_port : Z) : M Message :=
  assert_ (bool_decide (priority = kNormalPriority) || (delivery_failure_port =? kIllegalPort));;
  Ok (mkMessage 0 dest_port delivery_failure_port data len priority).

Definition IsOOB (m : Message) : bool := bool_decide (priority_ m = kOOBPriority).

(** The result and the message after the call. *)
Definition RedirectToDeliveryFailurePort (m : Message) : bool * Message :=
  if delivery_failure_port_ m =? kIllegalPort then (false, m)
  else (true, mkMessage (next_ m) (delivery_failure_port_ m) kIllegalPort (data_ m) (len_ m) (priority_ m)).

Abbreviation Heap := (gmap Z Message).

(** [*p]. *)
Definition deref (h : Heap) (p : Z) : M Message :=
  match h !! p with Some m => Ok m | None => Err MUndefined end.

(** [p->next_ = next]. *)
Definition set_next (h : Heap) (p next : Z) : M Heap :=
  m ← deref h p; Ok (<[p := set_next_ m next]> h).

(** [delete p], with the destructor. *)
Definition delete_message (h : Heap) (p : Z) : M Heap :=
  m ← deref h p;
  assert_ (delivery_failure_port_ m =? kIllegalPort);;
  Ok (delete p h).

(** ** MessageQueue *)

Record MessageQueue := mkQueue { head_ : Z; tail_ : Z }.

Definition MessageQueue_new : MessageQueue := mkQueue 0 0.

Definition IsEmpty (q : MessageQueue) : bool := head_ q =? 0.

(** The loop of [Enqueue] that goes past the control messages. *)
Fixpoint Enqueue_loop (fuel : nat) (h : Heap) (q : MessageQueue) (msg cur : Z) : M (Heap * MessageQueue) :=
  match fuel with
  | O => Err MNoReturn
  | S fuel =>
      c ← deref h cur;
      if negb (next_ c =? 0) then
        n ← deref h (next_ c);
        if negb (dest_port_ n =? kIllegalPort) then
          h ← set_next h msg (next_ c);
          h ← set_next h cur msg;
          Ok (h, q)
        else Enqueue_loop fuel h q msg (next_ c)
      else
        assert_ (tail_ q =? cur);;
        t ← deref h (tail_ q);
        assert_ (dest_port_ t =? kIllegalPort);;
        h ← set_next h (tail_ q) msg;
        Ok (h, mkQueue (head_ q) msg)
  end.

Definition Enqueue (h : Heap) (q : MessageQueue) (msg : Z) (before_events : bool) : M (Heap * MessageQueue) :=
  m ← deref h msg;
  assert_ (next_ m =? 0);;
  if head_ q =? 0 then
    assert_ (tail_ q =? 0);;
    Ok (h, mkQueue msg msg)
  else
    assert_ (negb (tail_ q =? 0));;
    if negb before_events then
      h ← set_next h (tail_ q) msg;
      Ok (h, mkQueue (head_ q) msg)
    else
      assert_ (dest_port_ m =? kIllegalPort);;
      hd ← deref h (head_ q);
      if negb (dest_port_ hd =? kIllegalPort) then
        h ← set_next h msg (head_ q);
        Ok (h, mkQueue msg (tail_ q))
      else Enqueue_loop (size h) h q msg (head_ q).

Definition Dequeue (h : Heap) (q : MessageQueue) : M (option Z * (Heap * MessageQueue)) :=
  let result := head_ q in
  if negb (result =? 0) then
    r ← deref h result;
    let head := next_ r in
    let tail := if head =? 0 then 0 else tail_ q in
    h ← set_next h result result;
    Ok (Some result, (h, mkQueue head tail))
  else Ok (None, (h, q)).

(** [Iterator]: its field [next_]. *)
Definition Iterator_new (q : MessageQueue) : Z := head_ q.
Definition HasNext (it : Z) : bool := negb (it =? 0).
Definition Iterator_Next (h : Heap) (it : Z) : M (Z * Z) := m ← deref h it; Ok (it, next_ m).

Fixpoint Length_loop (fuel : nat) (h : Heap) (it length : Z) : M Z :=
  if HasNext it then
    match fuel with
    | O => Err MNoReturn
    | S fuel => r ← Iterator_Next h it; Length_loop fuel h (r : Z * Z).2 (length + 1)
    end
  else Ok length.

Definition Length (h : Heap) (q : MessageQueue) : M Z := Length_loop (size h) h (Iterator_new q) 0.

Fixpoint FindMessageById_loop (fuel : nat) (h : Heap) (it id : Z) : M (option Z) :=
  if HasNext it then
    match fuel with
    | O => Err MNoReturn
    | S fuel =>
        r ← Iterator_Next h it;
        let '(current, it) := (r : Z * Z) in
        assert_ (negb (current =? 0));;
        if current =? id then Ok (Some current) else FindMessageById_loop fuel h it id
    end
  else Ok None.

Definition FindMessageById (h : Heap) (q : MessageQueue) (id : Z) : M (option Z) :=
  FindMessageById_loop (size h) h (Iterator_new q) id.

(** [Clear] posts messages to other queues through the port map: the state [W] of
    which the heap is a part, and [PortMap::PostMessage] on it. *)
Section clear.
Context {W : Type} (heap_of : W -> Heap) (set_heap : W -> Heap -> W) (PostMessage : W -> Z -> M (bool * W)).

Fixpoint Clear_loop (fuel : nat) (w : W) (cur : Z) : M W :=
  if cur =? 0 then Ok w
  else
    match fuel with
    | O => Err MNoReturn
    | S fuel =>
        m ← deref (heap_of w) cur;
        let next := next_ m in
        let '(redirected, m) := RedirectToDeliveryFailurePort m in
        let w := set_heap w (<[cur := m]> (heap_of w)) in
        w ← (if redirected then r ← PostMessage w cur; Ok (r : bool * W).2
             else h ← delete_message (heap_of w) cur; Ok (set_heap w h));
        Clear_loop fuel w next
    end.

Definition Clear (w : W) (q : MessageQueue) : M (W * MessageQueue) :=
  w ← Clear_loop (size (heap_of w)) w (head_ q);
  Ok (w, mkQueue 0 0).

End clear.

(** ** The queue as a list *)

(** The messages linked from [p] on up to [q]. *)
Fixpoint seg (h : Heap) (p : Z) (l : list Z) (q : Z) : Prop :=
  match l with
  | [] => p = q
  | a :: l => p = a /\ a <> 0 /\ exists m, h !! a = Some m /\ seg h (next_ m) l q
  end.

(** The queue [q] consists of the messages [l]. *)
Record is_queue (h : Heap) (q : MessageQueue) (l : list Z) : Prop := {
  queue_seg : seg h (head_ q) l 0;
  queue_NoDup : NoDup l;
  queue_tail : tail_ q = default 0 (last l)
}.

(** A message without its link. *)
Definition body (m : Message) : Message := set_next_ m 0.
Definition bodies (h : Heap) (l : list Z) : list (option Message) := (fun a => body <$> h !! a) <$> l.

Definition control (h : Heap) (a : Z) : Prop := dest_port_ <$> h !! a = Some kIllegalPort.
#[export] Instance control_dec h a : Decision (control h a).
Proof. unfold control. apply _. Defined.

(** Where a message goes: at the end, or before the first event. *)
Fixpoint before_first_event (h : Heap) (l : list Z) (msg : Z) : list Z :=
  match l with
  | [] => [msg]
  | a :: l => if decide (control h a) then a :: before_first_event h l msg else msg :: a :: l
  end.

Definition enqueued (h : Heap) (l : list Z) (msg : Z) (before_events : bool) : list Z :=
  if before_events then before_first_event h l msg else l ++ [msg].

Lemma seg_app h p l1 l2 q : seg h p (l1 ++ l2) q <-> exists r, seg h p l1 r /\ seg h r l2 q.
Proof.
  revert p. induction l1 as [|a l1 IH]; intros p; cbn [app seg].
  - split; [eauto|]. by intros (? & <- & ?).
  - setoid_rewrite IH. naive_solver.
Qed.

Lemma seg_frame h h' p l q : (forall a, a ∈ l -> next_ <$> h !! a = next_ <$> h' !! a) -> seg h p l q -> seg h' p l q.
Proof.
  revert p. induction l as [|a l IH]; intros p Hf; cbn [seg]; [done|].
  intros (-> & Ha & m & Hm & Hs). split_and!; [done..|].
  specialize (Hf a ltac:(left)) as Hfa. rewrite Hm in Hfa. destruct (h' !! a) as [m'|] eqn:Hm'; [|done].
  exists m'. split; [done|]. cbn in Hfa. injection Hfa as Hn. rewrite <- Hn. apply IH; [|done].
  intros b Hb. apply Hf. by right.
Qed.

Lemma seg_in h p l q a : seg h p l q -> a ∈ l -> a <> 0 /\ is_Some (h !! a).
Proof.
  revert p. induction l as [|b l IH]; intros p; cbn [seg]; [set_solver|].
  intros (-> & Hb & m & Hm & Hs) [->|Ha]%elem_of_cons; eauto.
Qed.

Lemma set_next_ok h a m n : h !! a = Some m -> set_next h a n = Ok (<[a := set_next_ m n]> h).
Proof. intros H. unfold set_next, deref. by rewrite H. Qed.

Lemma deref_ok h a m : h !! a = Some m -> deref h a = Ok m.
Proof. unfold deref. by intros ->. Qed.

(** Linking [a], the last message of a segment, to something else. *)
Lemma seg_relink h p l a m q n :
  h !! a = Some m -> seg h p (l ++ [a]) q -> NoDup (l ++ [a]) -> seg (<[a := set_next_ m n]> h) p (l ++ [a]) n.
Proof.
  intros Ha (r & Hl & -> & Ha0 & m' & Hm' & _)%seg_app [_ [Hnot _]]%NoDup_app. apply seg_app. exists a. split.
  - revert Hl. apply seg_frame. intros b Hb. rewrite lookup_insert_ne; [done|]. intros <-. by apply (Hnot a Hb); left.
  - cbn [seg]. split_and!; [done..|]. exists (set_next_ m n). by rewrite lookup_insert_eq.
Qed.

Lemma queue_head h q l : is_queue h q l -> head_ q = default 0 (head l).
Proof. intros [Hs _ _]. destruct l as [|a l]; cbn in *; [done|]. by destruct Hs. Qed.

Lemma queue_empty h q l : is_queue h q l -> IsEmpty q = bool_decide (l = []).
Proof.
  intros [Hs _ _]. unfold IsEmpty. destruct l as [|a l]; cbn in Hs; [by rewrite Hs|].
  destruct Hs as (-> & Ha & _). apply bool_eqb_iff. rewrite Z.eqb_eq, bool_decide_eq_true. done.
Qed.

(** A queue does not see changes of messages that are not in it. *)
Lemma queue_frame h h' q l :
  (forall a, a ∈ l -> next_ <$> h !! a = next_ <$> h' !! a) -> is_queue h q l -> is_queue h' q l.
Proof. intros Hf [Hs Hn Ht]. split; [|done..]. by apply (seg_frame h). Qed.

(** What an operation may change: the links of the messages [l]. *)
Definition only_links (h h' : Heap) (l : list Z) : Prop :=
  forall a, body <$> h' !! a = body <$> h !! a /\ (a ∉ l -> h' !! a = h !! a).

Lemma only_links_set h a m n l : h !! a = Some m -> a ∈ l -> only_links h (<[a := set_next_ m n]> h) l.
Proof.
  intros Hm Ha b. destruct (decide (b = a)) as [->|Hne].
  - rewrite lookup_insert_eq, Hm. done.
  - by rewrite lookup_insert_ne.
Qed.

Lemma only_links_trans h h' h'' l : only_links h h' l -> only_links h' h'' l -> only_links h h'' l.
Proof.
  intros H H' a. destruct (H a) as [H1 H2], (H' a) as [H1' H2']. split; [by rewrite H1'|].
  intros Ha. by rewrite H2', H2.
Qed.

Lemma only_links_refl h l : only_links h h l.
Proof. done. Qed.
#[local] Hint Resolve only_links_refl : core.

(** ** Enqueue, Dequeue *)

Lemma before_first_event_app h pre l msg :
  Forall (control h) pre -> before_first_event h (pre ++ l) msg = pre ++ before_first_event h l msg.
Proof. induction 1 as [|a pre Ha _ IH]; [done|]. cbn. by rewrite decide_True, IH. Qed.

Lemma control_spec h a m : h !! a = Some m -> control h a <-> dest_port_ m = kIllegalPort.
Proof. unfold control. intros ->. cbn. split; [by intros [= ->]|by intros ->]. Qed.

(** Appending at the tail of a queue that is not empty. *)
Lemma append_ok h q l msg m a t :
  is_queue h q (l ++ [a]) -> msg ∉ l ++ [a] -> msg <> 0 -> h !! msg = Some m -> next_ m = 0 -> h !! a = Some t ->
  is_queue (<[a := set_next_ t msg]> h) (mkQueue (head_ q) msg) ((l ++ [a]) ++ [msg]).
Proof.
  intros [Hs Hn Ht] Hmsg H0 Hm Hm0 Ha. split; cbn [head_ tail_].
  - apply seg_app. exists msg. split; [by eapply seg_relink|]. cbn [seg]. split_and!; [done..|]. exists m.
    rewrite lookup_insert_ne; [done|]. set_solver.
  - apply NoDup_app. split_and!; [done|set_solver|apply NoDup_singleton].
  - by rewrite last_snoc.
Qed.

(** Linking [msg] between the messages [pre] and the messages [post]. *)
Lemma splice_ok h q pre c cm b post msg m :
  is_queue h q (pre ++ c :: b :: post) -> msg ∉ pre ++ c :: b :: post -> msg <> 0 ->
  h !! msg = Some m -> h !! c = Some cm ->
  is_queue (<[c := set_next_ cm msg]> (<[msg := set_next_ m b]> h)) q (pre ++ c :: msg :: b :: post).
Proof.
  intros [Hs Hn Ht] Hmsg H0 Hm Hc. set (h1 := <[msg := set_next_ m b]> h).
  assert (c <> msg) as Hcm by set_solver.
  assert (seg h1 (head_ q) (pre ++ c :: b :: post) 0) as Hs1.
  { revert Hs. apply seg_frame. intros a Ha. unfold h1. rewrite lookup_insert_ne; [done|]. by intros <-. }
  assert (h1 !! c = Some cm) as Hc1 by (unfold h1; by rewrite lookup_insert_ne).
  rewrite (cons_middle c), app_assoc in Hs1. apply seg_app in Hs1 as (r & Hpre & Hpost).
  assert (r = b) as -> by (by destruct Hpost). rewrite (cons_middle c), app_assoc in Hn.
  split; cbn [head_ tail_].
  - rewrite (cons_middle c), app_assoc. apply seg_app. exists msg. split.
    + eapply seg_relink; [done..|]. by apply NoDup_app in Hn as [? _].
    + cbn [seg]. split_and!; [done..|]. exists (set_next_ m b). split; [rewrite lookup_insert_ne by done; unfold h1; by rewrite lookup_insert_eq|].
      change (next_ (set_next_ m b)) with b. change (seg (<[c:=set_next_ cm msg]> h1) b (b :: post) 0). revert Hpost. apply seg_frame.
      intros a Ha. rewrite lookup_insert_ne; [done|]. intros <-. apply NoDup_app in Hn as (_ & Hnot & _). apply (Hnot c); [set_solver|done].
  - rewrite (cons_middle c), app_assoc. apply NoDup_app in Hn as (Hn1 & Hn2 & Hn3). apply NoDup_app. split_and!; [done| |].
    + intros x Hx [->|Hx']%elem_of_cons; [set_solver|]. by apply (Hn2 x).
    + apply NoDup_cons. split; [set_solver|done].
  - rewrite Ht, !last_app_cons. done.
Qed.

Lemma Enqueue_loop_ok h q msg m : forall post fuel pre c,
  is_queue h q (pre ++ c :: post) -> Forall (control h) (pre ++ [c]) ->
  msg ∉ pre ++ c :: post -> msg <> 0 -> h !! msg = Some m -> next_ m = 0 -> (length post < fuel)%nat ->
  exists h' q', Enqueue_loop fuel h q msg c = Ok (h', q') /\
    is_queue h' q' (pre ++ c :: before_first_event h post msg) /\ only_links h h' (msg :: pre ++ c :: post).
Proof.
  induction post as [|b post IH]; intros fuel pre c Hq Hctl Hmsg H0 Hm Hm0 Hfuel.
  all: destruct fuel as [|fuel]; [cbn in Hfuel; lia|]; cbn [Enqueue_loop].
  all: pose proof Hq as [Hs Hn Ht].
  all: destruct (seg_in _ _ _ _ c Hs ltac:(set_solver)) as [Hc0 [cm Hc]].
  all: rewrite (deref_ok _ _ _ Hc); cbn [mbind result_bind].
  all: pose proof Hs as (r & Hpre & Hr)%seg_app; cbn [seg] in Hr; destruct Hr as (-> & _ & cm' & Hc' & Hr).
  all: rewrite Hc in Hc'; injection Hc' as <-.
  - rewrite Hr. rewrite last_snoc in Ht. cbn in Ht. rewrite Ht, (Z.eqb_refl c). cbn [Z.eqb negb assert_ mbind result_bind].
    rewrite (deref_ok _ _ _ Hc). cbn [mbind result_bind].
    rewrite Forall_app, Forall_singleton in Hctl. destruct Hctl as [_ Hcc]. rewrite (control_spec h c cm Hc) in Hcc.
    rewrite Hcc. cbn [Z.eqb kIllegalPort assert_ mbind result_bind]. rewrite (set_next_ok _ _ _ _ Hc). cbn [mbind result_bind].
    do 2 eexists. split; [done|]. cbn [before_first_event]. rewrite (cons_middle c), app_assoc. split; [by eapply append_ok|].
    apply only_links_set; [done|set_solver].
  - destruct Hr as (Hnext & Hb0 & bm & Hb & _). rewrite Hnext, (proj2 (Z.eqb_neq b 0)) by done. cbn [negb].
    rewrite (deref_ok _ _ _ Hb). cbn [mbind result_bind before_first_event]. destruct (Z.eqb_spec (dest_port_ bm) kIllegalPort) as [Hev|Hev]; cbn [negb].
    + rewrite decide_True by (by rewrite (control_spec h b bm)).
      destruct (IH fuel (pre ++ [c]) b) as (h' & q' & He & Hq' & Hl); rewrite <- ?(assoc_L app); cbn [app]; try done.
      * rewrite (cons_middle c), app_assoc, Forall_app, Forall_singleton, (control_spec h b bm); done.
      * cbn in Hfuel. lia.
      * exists h', q'. rewrite <- !(assoc_L app) in *. done.
    + rewrite decide_False by (by rewrite (control_spec h b bm)).
      rewrite (set_next_ok _ _ _ _ Hm). cbn [mbind result_bind].
      assert (c <> msg) as Hcm by set_solver.
      rewrite (set_next_ok _ c cm) by (by rewrite lookup_insert_ne). cbn [mbind result_bind].
      do 2 eexists. split; [done|]. split; [by apply splice_ok|].
      eapply only_links_trans; [apply (only_links_set h msg m); [done|set_solver]|].
      apply only_links_set; [by rewrite lookup_insert_ne|set_solver].
Qed.

Lemma queue_length_heap h q l : is_queue h q l -> (length l <= size h)%nat.
Proof.
  intros [Hs Hn _]. rewrite <- (size_list_to_set (C := gset Z) l) by done. rewrite <- size_dom. apply subseteq_size.
  intros a Ha%elem_of_list_to_set. apply elem_of_dom. by eapply seg_in.
Qed.

Lemma Enqueue_ok h q l msg m b :
  is_queue h q l -> msg ∉ l -> msg <> 0 -> h !! msg = Some m -> next_ m = 0 ->
  (b = true -> dest_port_ m = kIllegalPort) ->
  exists h' q', Enqueue h q msg b = Ok (h', q') /\ is_queue h' q' (enqueued h l msg b) /\ only_links h h' (msg :: l).
Proof.
  intros Hq Hmsg H0 Hm Hm0 Hb. pose proof Hq as [Hs Hn Ht]. unfold Enqueue, enqueued.
  rewrite (deref_ok _ _ _ Hm). cbn [mbind result_bind]. rewrite Hm0. cbn [mbind result_bind Z.eqb assert_]. destruct l as [|a l].
  { cbn in Hs, Ht. rewrite Hs, Ht. cbn [Z.eqb assert_ mbind result_bind]. do 2 eexists. split; [done|]. split; [|done].
    assert (is_queue h (mkQueue msg msg) [msg]) as Hq1.
    { split; cbn; [split_and!; eauto|apply NoDup_singleton|done]. }
    by destruct b. }
  destruct (seg_in _ _ _ _ a Hs ltac:(left)) as [Ha0 [am Ha]]. pose proof (queue_head _ _ _ Hq) as Hhd. cbn in Hhd.
  rewrite Hhd, (proj2 (Z.eqb_neq a 0)) by done.
  destruct (exists_last (l := a :: l) ltac:(done)) as (l' & z & Hl).
  destruct (seg_in _ _ _ _ z Hs) as [Hz0 [zm Hz]]; [rewrite Hl; set_solver|].
  assert (tail_ q = z) as Htz by (rewrite Ht, Hl, last_snoc; done). rewrite Htz, (proj2 (Z.eqb_neq z 0)) by done.
  cbn [negb assert_ mbind result_bind]. destruct b; cbn [negb].
  - rewrite (Hb eq_refl). cbn [Z.eqb kIllegalPort assert_ mbind result_bind]. rewrite (deref_ok _ _ _ Ha). cbn [mbind result_bind before_first_event].
    destruct (Z.eqb_spec (dest_port_ am) kIllegalPort) as [Hev|Hev]; cbn [negb].
    + rewrite decide_True by (by rewrite (control_spec h a am)).
      destruct (Enqueue_loop_ok h q msg m l (size h) [] a) as (h' & q' & He & Hq' & Hol); try done.
      * cbn [app]. by rewrite Forall_singleton, (control_spec h a am).
      * pose proof (queue_length_heap _ _ _ Hq) as Hsz. cbn in Hsz. lia.
      * exists h', q'. done.
    + rewrite decide_False by (by rewrite (control_spec h a am)).
      rewrite (set_next_ok _ _ _ _ Hm). cbn [mbind result_bind]. do 2 eexists. split; [done|].
      split; [|by apply only_links_set; [|left]]. split; cbn [head_ tail_].
      * cbn [seg]. split_and!; [done..|]. exists (set_next_ m a). rewrite lookup_insert_eq. split; [done|].
        change (seg (<[msg:=set_next_ m a]> h) a (a :: l) 0). rewrite Hhd in Hs. revert Hs. apply seg_frame.
        intros x Hx. rewrite lookup_insert_ne; [done|]. by intros <-.
      * by apply NoDup_cons.
      * rewrite <- Htz, Ht. done.
  - rewrite (set_next_ok _ _ _ _ Hz). cbn [mbind result_bind]. rewrite Hl in *. do 2 eexists. split; [done|].
    rewrite <- Hhd. split; [by eapply append_ok|]. apply only_links_set; [done|set_solver].
Qed.

Lemma Dequeue_ok h q l :
  is_queue h q l ->
  match l with
  | [] => Dequeue h q = Ok (None, (h, q))
  | a :: l => exists h' q', Dequeue h q = Ok (Some a, (h', q')) /\ is_queue h' q' l /\ only_links h h' [a]
  end.
Proof.
  intros Hq. pose proof (queue_head _ _ _ Hq) as Hhd. destruct Hq as [Hs Hn Ht]. unfold Dequeue. destruct l as [|a l]; cbn in Hhd.
  { by rewrite Hhd. }
  cbn [seg] in Hs. destruct Hs as (_ & Ha0 & m & Hm & Hs). rewrite Hhd, (proj2 (Z.eqb_neq a 0)) by done. cbn [negb].
  rewrite (deref_ok _ _ _ Hm). cbn [mbind result_bind]. rewrite (set_next_ok _ _ _ _ Hm). cbn [mbind result_bind].
  do 2 eexists. split; [done|]. split; [|by apply only_links_set; [|left]].
  apply NoDup_cons in Hn as [Ha Hn]. split; cbn [head_ tail_]; [|done|].
  - revert Hs. apply seg_frame. intros b Hb. rewrite lookup_insert_ne; [done|]. by intros <-.
  - destruct l as [|b l]; cbn [seg] in Hs; [by rewrite Hs|]. destruct Hs as (-> & Hb & _).
    rewrite (proj2 (Z.eqb_neq b 0)) by done. done.
Qed.

(** ** Iteration *)

Lemma Length_loop_ok h : forall l fuel p n,
  seg h p l 0 -> (length l <= fuel)%nat -> Length_loop fuel h p n = Ok (n + Z.of_nat (length l)).
Proof.
  induction l as [|a l IH]; intros fuel p n Hs Hf; cbn [seg] in Hs.
  - subst p. destruct fuel; cbn; f_equal; lia.
  - destruct Hs as (-> & Ha & m & Hm & Hs). destruct fuel as [|fuel]; [cbn in Hf; lia|]. cbn [Length_loop].
    unfold HasNext. rewrite (proj2 (Z.eqb_neq a 0)) by done. cbn [negb]. unfold Iterator_Next.
    rewrite (deref_ok _ _ _ Hm). cbn [mbind result_bind snd]. rewrite IH by (done || cbn in Hf; lia). f_equal. cbn. lia.
Qed.

Lemma FindMessageById_loop_ok h id : forall l fuel p,
  seg h p l 0 -> (length l <= fuel)%nat ->
  FindMessageById_loop fuel h p id = Ok (if decide (id ∈ l) then Some id else None).
Proof.
  induction l as [|a l IH]; intros fuel p Hs Hf; cbn [seg] in Hs.
  - subst p. rewrite decide_False by set_solver. by destruct fuel.
  - destruct Hs as (-> & Ha & m & Hm & Hs). destruct fuel as [|fuel]; [cbn in Hf; lia|]. cbn [FindMessageById_loop].
    unfold HasNext. rewrite (proj2 (Z.eqb_neq a 0)) by done. cbn [negb]. unfold Iterator_Next.
    rewrite (deref_ok _ _ _ Hm). cbn [mbind result_bind]. rewrite (proj2 (Z.eqb_neq a 0)) by done.
    cbn [negb assert_ mbind result_bind]. destruct (Z.eqb_spec a id) as [->|Hne].
    + rewrite decide_True by left. done.
    + rewrite IH by (done || cbn in Hf; lia). f_equal. destruct (decide (id ∈ l)).
      * by rewrite decide_True by (by right).
      * rewrite decide_False; [done|]. set_solver.
Qed.

(** C27: The linked queue is a list of messages.  [Enqueue] puts a message at the
    end, or, with [before_events], after the leading control messages;
    [Dequeue] takes the first one; [Length] and [FindMessageById] count and
    search the list; they end without a failed assertion, and no message changes
    but for the links of the queue's own messages. *)
Theorem MessageQueue_refines h q l :
  is_queue h q l ->
  (forall msg m before_events,
     msg ∉ l -> msg <> 0 -> h !! msg = Some m -> next_ m = 0 ->
     (before_events = true -> dest_port_ m = kIllegalPort) ->
     exists h' q', Enqueue h q msg before_events = Ok (h', q') /\
       is_queue h' q' (enqueued h l msg before_events) /\ only_links h h' (msg :: l)) /\
  match l with
  | [] => Dequeue h q = Ok (None, (h, q))
  | a :: l => exists h' q', Dequeue h q = Ok (Some a, (h', q')) /\ is_queue h' q' l /\ only_links h h' [a]
  end /\
  Length h q = Ok (Z.of_nat (length l)) /\
  (forall id, FindMessageById h q id = Ok (if decide (id ∈ l) then Some id else None)) /\
  IsEmpty q = bool_decide (l = []).
Proof.
  intros Hq. pose proof (queue_length_heap _ _ _ Hq) as Hsz. split_and!.
  - intros msg m b ? ? ? ? ?. by apply (Enqueue_ok h q l msg m).
  - by apply Dequeue_ok.
  - unfold Length, Iterator_new. rewrite (Length_loop_ok h l); [done|apply Hq|done].
  - intros id. unfold FindMessageById, Iterator_new. apply FindMessageById_loop_ok; [apply Hq|done].
  - by apply (queue_empty h).
Qed.

(** Two control messages and an event. *)
Definition demo_heap : Heap :=
  {[ 16 := mkMessage 32 kIllegalPort 0 100 8 kNormalPriority;
     32 := mkMessage 48 kIllegalPort 0 108 8 kNormalPriority;
     48 := mkMessage 0 77 0 116 8 kNormalPriority;
     64 := mkMessage 0 kIllegalPort 0 124 8 kNormalPriority ]}.
Definition demo_queue : MessageQueue := mkQueue 16 48.

Lemma demo_is_queue : is_queue demo_heap demo_queue [16; 32; 48].
Proof.
  split.
  - cbn [seg demo_queue head_]. repeat (split; [done|]; split; [done|]; eexists; split; [vm_compute; reflexivity|]; cbn [next_]).
    done.
  - by apply (bool_decide_eq_true_1 _); vm_compute.
  - done.
Qed.

Lemma MessageQueue_refines_witness :
  exists h' q', Enqueue demo_heap demo_queue 64 true = Ok (h', q') /\ is_queue h' q' [16; 32; 64; 48].
Proof.
  destruct (MessageQueue_refines demo_heap demo_queue [16; 32; 48] demo_is_queue) as (He & _).
  destruct (He 64 (mkMessage 0 kIllegalPort 0 124 8 kNormalPriority) true) as (h' & q' & H1 & H2 & _).
  - intros ?%(bool_decide_eq_true_2 _). done.
  - done.
  - vm_compute. reflexivity.
  - done.
  - done.
  - exists h', q'. split; [exact H1|]. vm_compute in H2. exact H2.
Defined.

(** ** Clear *)

Section clear_props.
Context {W : Type} (heap_of : W -> Heap) (set_heap : W -> Heap -> W) (PostMessage : W -> Z -> M (bool * W)).
Hypothesis heap_of_set : forall w h, heap_of (set_heap w h) = h.
Hypothesis set_heap_set : forall w h h', set_heap (set_heap w h) h' = set_heap w h'.
Hypothesis set_heap_of : forall w, set_heap w (heap_of w) = w.

(** A message that nobody is told about. *)
Definition final (h : Heap) (a : Z) : Prop := delivery_failure_port_ <$> h !! a = Some kIllegalPort.

Definition delete_all (h : Heap) (l : list Z) : Heap := foldl (fun h a => delete a h) h l.

Lemma Clear_loop_final : forall l fuel w p,
  seg (heap_of w) p l 0 -> NoDup l -> Forall (final (heap_of w)) l -> (length l <= fuel)%nat ->
  Clear_loop heap_of set_heap PostMessage fuel w p = Ok (set_heap w (delete_all (heap_of w) l)).
Proof.
  induction l as [|a l IH]; intros fuel w p Hs Hn Hf Hfuel; cbn [seg] in Hs.
  - subst p. destruct fuel; cbn; by rewrite set_heap_of.
  - destruct Hs as (-> & Ha & m & Hm & Hs). apply NoDup_cons in Hn as [Hal Hn]. apply Forall_cons in Hf as [Hfa Hf].
    destruct fuel as [|fuel]; [cbn in Hfuel; lia|]. cbn [Clear_loop]. rewrite (proj2 (Z.eqb_neq a 0)) by done.
    rewrite (deref_ok _ _ _ Hm). cbn [mbind result_bind]. unfold final in Hfa. rewrite Hm in Hfa. cbn in Hfa. injection Hfa as Hfa.
    unfold RedirectToDeliveryFailurePort. rewrite Hfa. cbn [Z.eqb kIllegalPort]. rewrite heap_of_set.
    unfold delete_message. rewrite (deref_ok _ a m) by apply lookup_insert_eq. cbn [mbind result_bind]. rewrite Hfa.
    cbn [Z.eqb kIllegalPort assert_ mbind result_bind]. rewrite set_heap_set, delete_insert_eq.
    rewrite IH; rewrite ?heap_of_set, ?set_heap_set; [done| |done| |cbn in Hfuel; lia].
    + revert Hs. apply seg_frame. intros b Hb. rewrite lookup_delete_ne; [done|]. by intros <-.
    + rewrite Forall_forall in *. intros b Hb. unfold final. rewrite lookup_delete_ne; [by apply Hf|]. by intros <-.
Qed.

Lemma Clear_final w q l :
  is_queue (heap_of w) q l -> Forall (final (heap_of w)) l ->
  Clear heap_of set_heap PostMessage w q = Ok (set_heap w (delete_all (heap_of w) l), MessageQueue_new).
Proof.
  intros Hq Hf. unfold Clear. pose proof (queue_length_heap _ _ _ Hq). destruct Hq as [Hs Hn _].
  rewrite (Clear_loop_final l) by done. done.
Qed.

End clear_props.

End Message.
