(* ===== verification/MessageHandler.v ===== *)
(** * vm/message_handler.h, vm/message_handler.cc

    [MessageHandler]: the two queues of an isolate, the task that empties them on
    a thread pool, and the states in which it waits.  All fields are protected by
    [monitor_]; what a thread does between acquiring and releasing it is one
    step.  The monitor is released while the subclass handles a message and
    while callbacks run: what happens to the handler in that time, from the
    callback or from other threads, is a list of [action]s that the class
    [HandlerClient] gives.  Tracing, [StartIsolateScope] and the wake-up of the
    thread interrupter do not touch the handler; [MessageNotify] does nothing
    unless a subclass overrides it. *)

From stdpp Require Import base numbers list sets gmap.
From Stdlib Require Import ZArith Lia.
From S2P Require Import Prelude Message.

Local Open Scope Z_scope.

Module MessageHandler.
Import Message.

(** Pointers to the pool, the task and the callbacks: whether they are set. *)
Record MessageHandler := mkHandler {
  queue_ : MessageQueue;
  oob_queue_ : MessageQueue;
  oob_message_handling_allowed_ : bool;
  live_ports_ : Z;
  paused_ : Z;
  pause_on_start_ : bool;
  pause_on_exit_ : bool;
  paused_on_start_ : bool;
  paused_on_exit_ : bool;
  paused_timestamp_ : Z;
  pool_ : bool;
  task_ : bool;
  start_callback_ : bool;
  end_callback_ : bool
}.

Definition MessageHandler_new : MessageHandler :=
  mkHandler MessageQueue_new MessageQueue_new true 0 0 false false false false (-1) false false false false.

Definition set_queue (x : MessageQueue) (h : MessageHandler) : MessageHandler :=
  mkHandler x (oob_queue_ h) (oob_message_handling_allowed_ h) (live_ports_ h) (paused_ h) (pause_on_start_ h) (pause_on_exit_ h)
    (paused_on_start_ h) (paused_on_exit_ h) (paused_timestamp_ h) (pool_ h) (task_ h) (start_callback_ h) (end_callback_ h).
Definition set_oob_queue (x : MessageQueue) (h : MessageHandler) : MessageHandler :=
  mkHandler (queue_ h) x (oob_message_handling_allowed_ h) (live_ports_ h) (paused_ h) (pause_on_start_ h) (pause_on_exit_ h)
    (paused_on_start_ h) (paused_on_exit_ h) (paused_timestamp_ h) (pool_ h) (task_ h) (start_callback_ h) (end_callback_ h).
Definition set_oob_allowed (x : bool) (h : MessageHandler) : MessageHandler :=
  mkHandler (queue_ h) (oob_queue_ h) x (live_ports_ h) (paused_ h) (pause_on_start_ h) (pause_on_exit_ h)
    (paused_on_start_ h) (paused_on_exit_ h) (paused_timestamp_ h) (pool_ h) (task_ h) (start_callback_ h) (end_callback_ h).
Definition set_live_ports (x : Z) (h : MessageHandler) : MessageHandler :=
  mkHandler (queue_ h) (oob_queue_ h) (oob_message_handling_allowed_ h) x (paused_ h) (pause_on_start_ h) (pause_on_exit_ h)
    (paused_on_start_ h) (paused_on_exit_ h) (paused_timestamp_ h) (pool_ h) (task_ h) (start_callback_ h) (end_callback_ h).
Definition set_paused (x : Z) (h : MessageHandler) : MessageHandler :=
  mkHandler (queue_ h) (oob_queue_ h) (oob_message_handling_allowed_ h) (live_ports_ h) x (pause_on_start_ h) (pause_on_exit_ h)
    (paused_on_start_ h) (paused_on_exit_ h) (paused_timestamp_ h) (pool_ h) (task_ h) (start_callback_ h) (end_callback_ h).
Definition set_pause_on_start (x : bool) (h : MessageHandler) : MessageHandler :=
  mkHandler (queue_ h) (oob_queue_ h) (oob_message_handling_allowed_ h) (live_ports_ h) (paused_ h) x (pause_on_exit_ h)
    (paused_on_start_ h) (paused_on_exit_ h) (paused_timestamp_ h) (pool_ h) (task_ h) (start_callback_ h) (end_callback_ h).
Definition set_pause_on_exit (x : bool) (h : MessageHandler) : MessageHandler :=
  mkHandler (queue_ h) (oob_queue_ h) (oob_message_handling_allowed_ h) (live_ports_ h) (paused_ h) (pause_on_start_ h) x
    (paused_on_start_ h) (paused_on_exit_ h) (paused_timestamp_ h) (pool_ h) (task_ h) (start_callback_ h) (end_callback_ h).
Definition set_paused_on_start (x : bool) (time : Z) (h : MessageHandler) : MessageHandler :=
  mkHandler (queue_ h) (oob_queue_ h) (oob_message_handling_allowed_ h) (live_ports_ h) (paused_ h) (pause_on_start_ h) (pause_on_exit_ h)
    x (paused_on_exit_ h) time (pool_ h) (task_ h) (start_callback_ h) (end_callback_ h).
Definition set_paused_on_exit (x : bool) (time : Z) (h : MessageHandler) : MessageHandler :=
  mkHandler (queue_ h) (oob_queue_ h) (oob_message_handling_allowed_ h) (live_ports_ h) (paused_ h) (pause_on_start_ h) (pause_on_exit_ h)
    (paused_on_start_ h) x time (pool_ h) (task_ h) (start_callback_ h) (end_callback_ h).
Definition set_pool (x : bool) (h : MessageHandler) : MessageHandler :=
  mkHandler (queue_ h) (oob_queue_ h) (oob_message_handling_allowed_ h) (live_ports_ h) (paused_ h) (pause_on_start_ h) (pause_on_exit_ h)
    (paused_on_start_ h) (paused_on_exit_ h) (paused_timestamp_ h) x (task_ h) (start_callback_ h) (end_callback_ h).
Definition set_task (x : bool) (h : MessageHandler) : MessageHandler :=
  mkHandler (queue_ h) (oob_queue_ h) (oob_message_handling_allowed_ h) (live_ports_ h) (paused_ h) (pause_on_start_ h) (pause_on_exit_ h)
    (paused_on_start_ h) (paused_on_exit_ h) (paused_timestamp_ h) (pool_ h) x (start_callback_ h) (end_callback_ h).
Definition set_callbacks (start finish : bool) (h : MessageHandler) : MessageHandler :=
  mkHandler (queue_ h) (oob_queue_ h) (oob_message_handling_allowed_ h) (live_ports_ h) (paused_ h) (pause_on_start_ h) (pause_on_exit_ h)
    (paused_on_start_ h) (paused_on_exit_ h) (paused_timestamp_ h) (pool_ h) (task_ h) start finish.

Definition HasLivePorts (h : MessageHandler) : bool := live_ports_ h >? 0.
Definition paused (h : MessageHandler) : bool := paused_ h >? 0.

(** What can happen to a handler while its monitor is free. *)
Inductive action :=
| APost (m : Message) (before_events : bool)
| AIncrementPaused
| ADecrementPaused
| ASetPauseOnStart (b : bool)
| ASetPauseOnExit (b : bool)
| AIncrementLivePorts
| ADecrementLivePorts.

(** The subclass, the callbacks and everything else that runs beside the handler.
    [new_address] is where [new Message] allocates; [pool_runs] the result of
    [ThreadPool::Run]; [now] the clock. *)
Class HandlerClient := {
  client : Type;
  HandleMessage : client -> Message -> bool * list action * client;
  StartCallback : client -> bool * list action * client;
  NotifyPauseOnStart : client -> list action * client;
  NotifyPauseOnExit : client -> list action * client;
  pool_runs : bool;
  now : client -> Z;
  new_address : Heap -> Z;
  new_address_fresh h : new_address h <> 0 /\ h !! new_address h = None
}.

Section handler.
Context {HC : HandlerClient}.

(** The messages, the handler, the rest of the world, and the messages handed to
    [HandleMessage] so far. *)
Record State := mkState { heap : Heap; hd : MessageHandler; env : client; trace : list Message }.

Definition set_hd (st : State) (h : MessageHandler) : State := mkState (heap st) h (env st) (trace st).
Definition set_env (st : State) (e : client) : State := mkState (heap st) (hd st) e (trace st).
Definition on_hd (f : MessageHandler -> MessageHandler) (st : State) : State := set_hd st (f (hd st)).

Definition PostMessage (st : State) (message : Z) (before_events : bool) : M State :=
  m ← deref (heap st) message;
  st ← (if IsOOB m then
          r ← Enqueue (heap st) (oob_queue_ (hd st)) message before_events;
          let '(h, q) := (r : Heap * MessageQueue) in
          Ok (mkState h (set_oob_queue q (hd st)) (env st) (trace st))
        else
          r ← Enqueue (heap st) (queue_ (hd st)) message before_events;
          let '(h, q) := (r : Heap * MessageQueue) in
          Ok (mkState h (set_queue q (hd st)) (env st) (trace st)));
  if pool_ (hd st) && negb (task_ (hd st)) then
    assert_ pool_runs;; Ok (on_hd (set_task true) st)
  else Ok st.

Definition Run (st : State) (start_callback end_callback : bool) : M State :=
  assert_ (negb (pool_ (hd st)));;
  let st := on_hd (fun h => set_task true (set_callbacks start_callback end_callback (set_pool true h))) st in
  assert_ pool_runs;; Ok st.

Definition increment_live_ports (st : State) : State := on_hd (fun h => set_live_ports (live_ports_ h + 1) h) st.
Definition decrement_live_ports (st : State) : State := on_hd (fun h => set_live_ports (live_ports_ h - 1) h) st.

Definition run_action (st : State) (a : action) : M State :=
  match a with
  | APost m before_events =>
      let p := new_address (heap st) in
      PostMessage (mkState (<[p := m]> (heap st)) (hd st) (env st) (trace st)) p before_events
  | AIncrementPaused => Ok (on_hd (fun h => set_paused (paused_ h + 1) h) st)
  | ADecrementPaused => assert_ (paused (hd st));; Ok (on_hd (fun h => set_paused (paused_ h - 1) h) st)
  | ASetPauseOnStart b => Ok (on_hd (set_pause_on_start b) st)
  | ASetPauseOnExit b => Ok (on_hd (set_pause_on_exit b) st)
  | AIncrementLivePorts => Ok (increment_live_ports st)
  | ADecrementLivePorts => Ok (decrement_live_ports st)
  end.

(** Between [monitor_.Exit()] and [monitor_.Enter()]. *)
Fixpoint released (st : State) (acts : list action) : M State :=
  match acts with
  | [] => Ok st
  | a :: acts => st ← run_action st a; released st acts
  end.

Definition DequeueMessage (st : State) (min_priority : Priority) : M (option Z * State) :=
  r ← Dequeue (heap st) (oob_queue_ (hd st));
  let '(message, (h, q)) := (r : option Z * (Heap * MessageQueue)) in
  let st := mkState h (set_oob_queue q (hd st)) (env st) (trace st) in
  match message with
  | Some m => Ok (Some m, st)
  | None =>
      if Priority_value min_priority <? Priority_value kOOBPriority then
        r ← Dequeue (heap st) (queue_ (hd st));
        let '(message, (h, q)) := (r : option Z * (Heap * MessageQueue)) in
        Ok (message, mkState h (set_queue q (hd st)) (env st) (trace st))
      else Ok (None, st)
  end.

Definition min_priority (st : State) (allow_normal_messages : bool) : Priority :=
  if allow_normal_messages && negb (paused (hd st)) then kNormalPriority else kOOBPriority.

(** [HandleMessage(message)] takes the message over; it is no longer ours. *)
Definition call_HandleMessage (st : State) (message : Z) : M (bool * State) :=
  m ← deref (heap st) message;
  let '(result, acts, e) := HandleMessage (env st) (body m) in
  st ← released (mkState (delete message (heap st)) (hd st) e (trace st ++ [body m])) acts;
  Ok (result, st).

(** One round of the loop of [HandleMessages]: it is over, or goes on. *)
Inductive round := Over (result : bool) (st : State) | Again (st : State).

Definition HandleMessages_round (allow_normal_messages allow_multiple_normal_messages : bool) (st : State) : M round :=
  r ← DequeueMessage st (min_priority st allow_normal_messages);
  let '(message, st) := (r : option Z * State) in
  match message with
  | None => Ok (Over true st)
  | Some message =>
      m ← deref (heap st) message;
      let saved_priority := priority_ m in
      r ← call_HandleMessage st message;
      let '(result, st) := (r : bool * State) in
      if negb result then Ok (Over false st)
      else if bool_decide (saved_priority = kNormalPriority) && negb allow_multiple_normal_messages then Ok (Over true st)
      else Ok (Again st)
  end.

(** [fuel] bounds the number of messages handled. *)
Fixpoint HandleMessages (fuel : nat) (allow_normal_messages allow_multiple_normal_messages : bool) (st : State)
    : M (bool * State) :=
  match fuel with
  | O => Err MNoReturn
  | S fuel =>
      r ← HandleMessages_round allow_normal_messages allow_multiple_normal_messages st;
      match r with
      | Over result st => Ok (result, st)
      | Again st => HandleMessages fuel allow_normal_messages allow_multiple_normal_messages st
      end
  end.

Definition HandleNextMessage (fuel : nat) (st : State) : M (bool * State) :=
  assert_ (negb (pool_ (hd st)));; HandleMessages fuel true false st.

Definition HandleOOBMessages (fuel : nat) (st : State) : M (bool * State) :=
  if negb (oob_message_handling_allowed_ (hd st)) then Ok (true, st) else HandleMessages fuel false false st.

Definition HasOOBMessages (st : State) : bool := negb (IsEmpty (oob_queue_ (hd st))).

(** Pausing before the start callback: whether the task goes on. *)
Definition pause_at_start (fuel : nat) (st : State) : M (bool * State) :=
  if pause_on_start_ (hd st) then
    st ← (if negb (paused_on_start_ (hd st)) then
            let st := on_hd (set_paused_on_start true (now (env st))) st in
            let '(acts, e) := NotifyPauseOnStart (env st) in
            released (set_env st e) acts
          else Ok st);
    r ← HandleMessages fuel false false st;
    let st := (r : bool * State).2 in
    if pause_on_start_ (hd st) then
      assert_ (IsEmpty (oob_queue_ (hd st)));;
      Ok (false, on_hd (set_task false) st)
    else Ok (true, on_hd (set_paused_on_start false (-1)) st)
  else Ok (true, st).

Definition run_start_callback (st : State) : M (bool * State) :=
  if start_callback_ (hd st) then
    let '(ok, acts, e) := StartCallback (env st) in
    st ← released (set_env st e) acts;
    Ok (ok, on_hd (fun h => set_callbacks false (end_callback_ h) h) st)
  else Ok (true, st).

Definition pause_at_exit (fuel : nat) (st : State) : M (bool * State) :=
  if pause_on_exit_ (hd st) then
    st ← (if negb (paused_on_exit_ (hd st)) then
            let st := on_hd (set_paused_on_exit true (now (env st))) st in
            let '(acts, e) := NotifyPauseOnExit (env st) in
            released (set_env st e) acts
          else Ok st);
    r ← HandleMessages fuel false false st;
    let st := (r : bool * State).2 in
    if pause_on_exit_ (hd st) then
      assert_ (IsEmpty (oob_queue_ (hd st)));;
      Ok (false, on_hd (set_task false) st)
    else Ok (true, on_hd (set_paused_on_exit false (-1)) st)
  else Ok (true, st).

(** The end of [TaskCallback]; the result is whether the end callback is to run. *)
Definition finish_task (run_end_callback : bool) (st : State) : M (bool * State) :=
  assert_ (IsEmpty (oob_queue_ (hd st)));;
  let st := on_hd (set_task false) st in
  Ok (run_end_callback && end_callback_ (hd st), st).

Definition TaskCallback (fuel : nat) (st : State) : M (bool * State) :=
  r ← pause_at_start fuel st;
  let '(go, st) := (r : bool * State) in
  if negb go then Ok (false, st)
  else
    r ← run_start_callback st;
    let '(ok, st) := (r : bool * State) in
    r ← (if ok : bool then HandleMessages fuel true true st else Ok (false, st));
    let '(ok, st) := (r : bool * State) in
    if negb ok || negb (HasLivePorts (hd st)) then
      r ← pause_at_exit fuel st;
      let '(go, st) := (r : bool * State) in
      if negb go then Ok (false, st)
      else finish_task true (on_hd (set_pool false) st)
    else finish_task false st.

(** [AcquiredQueues]: while they are held the monitor is, and OOB messages wait. *)
Definition AcquireQueues (st : State) : State := on_hd (set_oob_allowed false) st.
Definition ReleaseQueues (st : State) : State := on_hd (set_oob_allowed true) st.

(** [CloseAllPorts]: the queues are cleared; [post] is how [Clear] sends a message to
    its delivery failure port. *)
Definition set_heap (st : State) (h : Heap) : State := mkState h (hd st) (env st) (trace st).

Definition CloseAllPorts (post : State -> Z -> M (bool * State)) (st : State) : M State :=
  r ← Clear heap set_heap post st (queue_ (hd st));
  let '(st, q) := (r : State * MessageQueue) in
  let st := on_hd (set_queue q) st in
  r ← Clear heap set_heap post st (oob_queue_ (hd st));
  let '(st, q) := (r : State * MessageQueue) in
  Ok (on_hd (set_oob_queue q) st).

End handler.

(** ** The queues as lists of messages *)

(** Where [Enqueue] puts a message, on message contents. *)
Fixpoint before_events_insert (ms : list Message) (m : Message) : list Message :=
  match ms with
  | [] => [m]
  | a :: ms => if dest_port_ a =? kIllegalPort then a :: before_events_insert ms m else m :: a :: ms
  end.

Definition enqueue (ms : list Message) (m : Message) (before_events : bool) : list Message :=
  if before_events then before_events_insert ms m else ms ++ [m].

(** A message as its creator hands it over. *)
Definition message_ok (m : Message) (before_events : bool) : Prop :=
  next_ m = 0 /\ (before_events = true -> dest_port_ m = kIllegalPort).

Definition action_ok (a : action) : Prop :=
  match a with APost m before_events => message_ok m before_events | _ => True end.

(** The messages at the addresses [l] have the contents [ms] and the given priority. *)
Definition holds (h : Heap) (l : list Z) (ms : list Message) (p : Priority) : Prop :=
  Forall2 (fun a m => body <$> h !! a = Some m /\ priority_ m = p) l ms.

Record linked (h : Heap) (x : MessageHandler) (n o : list Z) (ns os : list Message) : Prop := {
  linked_normal : is_queue h (queue_ x) n;
  linked_oob : is_queue h (oob_queue_ x) o;
  linked_apart : forall a, a ∈ n -> a ∉ o;
  linked_ns : holds h n ns kNormalPriority;
  linked_os : holds h o os kOOBPriority
}.

(** The queues of the handler contain the messages [ns] and [os]. *)
Definition pending {HC : HandlerClient} (st : State) (ns os : list Message) : Prop :=
  exists n o, linked (heap st) (hd st) n o ns os.

(** Two handlers that differ in their queues only. *)
Record same_flags (x y : MessageHandler) : Prop := {
  sf_live : live_ports_ x = live_ports_ y;
  sf_paused : paused_ x = paused_ y;
  sf_on_start : pause_on_start_ x = pause_on_start_ y;
  sf_on_exit : pause_on_exit_ x = pause_on_exit_ y;
  sf_pool : pool_ x = pool_ y;
  sf_task : task_ x = task_ y;
  sf_start : start_callback_ x = start_callback_ y;
  sf_end : end_callback_ x = end_callback_ y;
  sf_at_start : paused_on_start_ x = paused_on_start_ y;
  sf_at_exit : paused_on_exit_ x = paused_on_exit_ y
}.

Lemma holds_mono h h' l ms p : (forall a, a ∈ l -> body <$> h' !! a = body <$> h !! a) -> holds h l ms p -> holds h' l ms p.
Proof.
  intros Hb Hl. induction Hl as [|a m l ms [Ha Hp] Hl IH]; [by constructor|]. constructor.
  - split; [|done]. rewrite Hb; [done|left].
  - apply IH. intros c Hc. apply Hb. by right.
Qed.

Lemma only_links_body h h' l a : only_links h h' l -> body <$> h' !! a = body <$> h !! a.
Proof. intros H. apply H. Qed.

Lemma only_links_next h h' l a : only_links h h' l -> a ∉ l -> next_ <$> h !! a = next_ <$> h' !! a.
Proof. intros H Ha. destruct (H a) as [_ Hn]. by rewrite Hn. Qed.

Lemma body_dest m : dest_port_ (body m) = dest_port_ m.
Proof. done. Qed.

Lemma holds_enqueued h l ms p msg m b :
  holds h l ms p -> body <$> h !! msg = Some m -> priority_ m = p ->
  holds h (enqueued h l msg b) (enqueue ms m b) p.
Proof.
  intros Hl Hm Hp. unfold enqueued, enqueue. destruct b.
  - induction Hl as [|a x l ms [Ha Hx] Hl IH]; cbn [before_first_event before_events_insert]; [by repeat constructor|].
    assert (control h a <-> dest_port_ x = kIllegalPort) as Hc.
    { unfold control. destruct (h !! a) as [y|]; [|done]. cbn in Ha. injection Ha as <-. cbn.
      split; [by intros [= ->]|by intros ->]. }
    destruct (Z.eqb_spec (dest_port_ x) kIllegalPort) as [He|He].
    + rewrite decide_True by tauto. by constructor.
    + rewrite decide_False by tauto. repeat constructor; done.
  - apply Forall2_app; [done|by repeat constructor].
Qed.

Lemma is_queue_no h q l a : is_queue h q l -> h !! a = None -> a ∉ l.
Proof. intros [Hs _ _] Ha Hin. destruct (seg_in _ _ _ _ a Hs Hin) as [_ [m Hm]]. congruence. Qed.

Lemma enqueued_in h l msg b a : a ∈ enqueued h l msg b -> a = msg \/ a ∈ l.
Proof.
  unfold enqueued. destruct b; [|set_solver]. induction l as [|c l IH]; cbn [before_first_event]; [set_solver|].
  destruct (decide (control h c)); set_solver.
Qed.

(** Allocating a message does not disturb the queues. *)
Lemma linked_new h x n o ns os p m :
  h !! p = None -> linked h x n o ns os -> linked (<[p := m]> h) x n o ns os.
Proof.
  intros Hp [Hn Ho Ha Hns Hos].
  pose proof (is_queue_no _ _ _ _ Hn Hp) as Hpn. pose proof (is_queue_no _ _ _ _ Ho Hp) as Hpo.
  assert (forall a, a <> p -> (<[p := m]> h : Heap) !! a = h !! a) as He by (intros a Hne; by rewrite lookup_insert_ne).
  split; [| |done| |].
  - revert Hn. apply queue_frame. intros a Hin. rewrite He; [done|]. by intros ->.
  - revert Ho. apply queue_frame. intros a Hin. rewrite He; [done|]. by intros ->.
  - revert Hns. apply holds_mono. intros a Hin. rewrite He; [done|]. by intros ->.
  - revert Hos. apply holds_mono. intros a Hin. rewrite He; [done|]. by intros ->.
Qed.

(** A message that is in none of the queues goes away. *)
Lemma linked_delete h x n o ns os p :
  p ∉ n -> p ∉ o -> linked h x n o ns os -> linked (delete p h) x n o ns os.
Proof.
  intros Hpn Hpo [Hn Ho Ha Hns Hos].
  assert (forall a, a <> p -> (delete p h : Heap) !! a = h !! a) as He by (intros a Hne; by rewrite lookup_delete_ne).
  split; [| |done| |].
  - revert Hn. apply queue_frame. intros a Hin. rewrite He; [done|]. by intros ->.
  - revert Ho. apply queue_frame. intros a Hin. rewrite He; [done|]. by intros ->.
  - revert Hns. apply holds_mono. intros a Hin. rewrite He; [done|]. by intros ->.
  - revert Hos. apply holds_mono. intros a Hin. rewrite He; [done|]. by intros ->.
Qed.

Lemma message_body m : next_ m = 0 -> body m = m.
Proof. destruct m. cbn. by intros ->. Qed.

(** Enqueueing touches the links of one queue only: the other one stays. *)
Lemma linked_enqueue h x n o ns os p m b (oob : bool) :
  linked h x n o ns os -> h !! p = Some m -> p ∉ n -> p ∉ o -> p <> 0 -> message_ok m b -> IsOOB m = oob ->
  exists h' q', Enqueue h (if oob then oob_queue_ x else queue_ x) p b = Ok (h', q') /\
    only_links h h' (p :: if oob then o else n) /\
    if oob then linked h' (set_oob_queue q' x) n (enqueued h o p b) ns (enqueue os m b)
    else linked h' (set_queue q' x) (enqueued h n p b) o (enqueue ns m b) os.
Proof.
  intros [Hn Ho Hap Hns Hos] Hm Hpn Hpo Hp0 [Hm0 Hb] Hoob.
  assert (body <$> h !! p = Some m) as Hbody by (rewrite Hm; cbn; by rewrite message_body).
  destruct oob.
  - destruct (Enqueue_ok h (oob_queue_ x) o p m b) as (h' & q' & He & Hq & Hl); [done..|].
    exists h', q'. split; [done|]. split; [done|]. split; cbn [queue_ oob_queue_ set_oob_queue].
    + revert Hn. apply queue_frame. intros a Ha. eapply only_links_next; [done|]. set_solver.
    + done.
    + intros a Ha [->|Hao]%enqueued_in; [done|]. by apply (Hap a).
    + revert Hns. apply holds_mono. intros a _. by eapply only_links_body.
    + eapply holds_mono; [intros a _; by eapply only_links_body|]. apply holds_enqueued; [done..|].
      by apply bool_decide_eq_true in Hoob.
  - destruct (Enqueue_ok h (queue_ x) n p m b) as (h' & q' & He & Hq & Hl); [done..|].
    exists h', q'. split; [done|]. split; [done|]. split; cbn [queue_ oob_queue_ set_queue].
    + done.
    + revert Ho. apply queue_frame. intros a Ha. eapply only_links_next; [done|]. intros [->|Hin]%elem_of_cons; [done|]. by apply (Hap a).
    + intros a [->|Han]%enqueued_in; [done|]. by apply Hap.
    + eapply holds_mono; [intros a _; by eapply only_links_body|]. apply holds_enqueued; [done..|].
      unfold IsOOB in Hoob. apply bool_decide_eq_false in Hoob. by destruct (priority_ m).
    + revert Hos. apply holds_mono. intros a _. by eapply only_links_body.
Qed.

Section behaviour.
Context {HC : HandlerClient}.
Implicit Types (st : State) (ns os : list Message).

(** The handler wakes its task when it has a pool and no task yet. *)
Definition woken (x : MessageHandler) : MessageHandler := if pool_ x && negb (task_ x) then set_task true x else x.

(** Changes of the flags do not disturb the queues. *)
Lemma linked_flags h x y n o ns os :
  queue_ y = queue_ x -> oob_queue_ y = oob_queue_ x -> linked h x n o ns os -> linked h y n o ns os.
Proof. intros Hq Ho [H1 H2 H3 H4 H5]. split; rewrite ?Hq, ?Ho; done. Qed.

(** [PostMessage] of a message that is in no queue yet. *)
Lemma PostMessage_linked st n o ns os p m b :
  linked (heap st) (hd st) n o ns os -> heap st !! p = Some m -> p ∉ n -> p ∉ o -> p <> 0 -> message_ok m b -> pool_runs = true ->
  exists st', PostMessage st p b = Ok st' /\ same_flags (hd st') (woken (hd st)) /\ env st' = env st /\ trace st' = trace st /\
    only_links (heap st) (heap st') (p :: if IsOOB m then o else n) /\
    if IsOOB m then linked (heap st') (hd st') n (enqueued (heap st) o p b) ns (enqueue os m b)
    else linked (heap st') (hd st') (enqueued (heap st) n p b) o (enqueue ns m b) os.
Proof.
  intros Hl Hm Hpn Hpo Hp0 Hok Hpool.
  destruct (linked_enqueue (heap st) (hd st) n o ns os p m b (IsOOB m)) as (h' & q' & He & Hol & Hl'); [done..|].
  unfold PostMessage. rewrite (deref_ok _ _ _ Hm). cbn [mbind result_bind].
  destruct (IsOOB m) eqn:Eoob; rewrite He; cbn [mbind result_bind heap hd env trace pool_ task_ set_oob_queue set_queue].
  all: unfold woken; destruct (pool_ (hd st) && negb (task_ (hd st))) eqn:Ew;
    [rewrite Hpool; cbn [assert_ mbind result_bind]|].
  all: eexists; split; [reflexivity|].
  all: split_and!; [by split|done|done|done|by eapply linked_flags; [..|exact Hl']].
Qed.

Lemma post_ok st ns os m b :
  pending st ns os -> message_ok m b -> pool_runs = true ->
  exists st', run_action st (APost m b) = Ok st' /\ same_flags (hd st') (woken (hd st)) /\
    env st' = env st /\ trace st' = trace st /\
    if IsOOB m then pending st' ns (enqueue os m b) else pending st' (enqueue ns m b) os.
Proof.
  intros (n & o & Hl) Hm Hpool. cbn [run_action]. destruct (new_address_fresh (heap st)) as [Hp0 Hfresh].
  set (p := new_address (heap st)) in *.
  assert ((p ∉ n) /\ (p ∉ o)) as [Hpn Hpo] by (split; eapply is_queue_no; [apply Hl|done|apply Hl|done]).
  destruct (PostMessage_linked (mkState (<[p := m]> (heap st)) (hd st) (env st) (trace st)) n o ns os p m b) as (st' & Hr & Hf & He & Ht & _ & Hl').
  { by apply linked_new. }
  { apply lookup_insert_eq. }
  all: try done.
  exists st'. split_and!; [done..|]. unfold pending. by destruct (IsOOB m); do 2 eexists.
Qed.

(** The head of a queue, taken out. *)
Lemma linked_take h x n o ns os (oob : bool) m ms :
  linked h x n o ns os -> (if oob then os else ns) = m :: ms ->
  exists a c h' q', Dequeue h (if oob then oob_queue_ x else queue_ x) = Ok (Some a, (h', q')) /\
    h' !! a = Some c /\ body c = m /\ priority_ m = (if oob then kOOBPriority else kNormalPriority) /\ only_links h h' [a] /\
    if oob then exists o', o = a :: o' /\ (a ∉ n ++ o') /\ linked h' (set_oob_queue q' x) n o' ns ms
    else exists n', n = a :: n' /\ (a ∉ n' ++ o) /\ linked h' (set_queue q' x) n' o ms os.
Proof.
  intros [Hn Ho Hap Hns Hos] Hm. destruct oob; subst.
  - inversion Hos as [|a y o' ? [Ha Hp] Hos']; subst. pose proof (Dequeue_ok _ _ _ Ho) as (h' & q' & Hd & Hq & Hl).
    assert (a ∉ o') as Hao by (pose proof (queue_NoDup _ _ _ Ho) as Hnd; by apply NoDup_cons in Hnd as [? _]).
    assert (a ∉ n) as Han by (intros Hin; apply (Hap a Hin); left).
    assert (exists c, h' !! a = Some c /\ body c = m) as (c & Hc & Hcm).
    { pose proof (only_links_body _ _ _ a Hl) as Hb. rewrite Ha in Hb. destruct (h' !! a) as [c|]; [|done]. exists c. cbn in Hb. split; congruence. }
    exists a, c, h', q'. split_and!; [done..|]. exists o'. split; [done|]. split; [by rewrite not_elem_of_app|].
    split; cbn [queue_ oob_queue_ set_oob_queue].
    + revert Hn. apply queue_frame. intros b Hb. eapply only_links_next; [done|]. intros ->%list_elem_of_singleton. done.
    + done.
    + intros b Hb Hb'. apply (Hap b Hb). by right.
    + revert Hns. apply holds_mono. intros b _. by eapply only_links_body.
    + revert Hos'. apply holds_mono. intros b _. by eapply only_links_body.
  - inversion Hns as [|a y n' ? [Ha Hp] Hns']; subst. pose proof (Dequeue_ok _ _ _ Hn) as (h' & q' & Hd & Hq & Hl).
    assert (a ∉ n') as Han by (pose proof (queue_NoDup _ _ _ Hn) as Hnd; by apply NoDup_cons in Hnd as [? _]).
    assert (a ∉ o) as Hao by (apply (Hap a); left).
    assert (exists c, h' !! a = Some c /\ body c = m) as (c & Hc & Hcm).
    { pose proof (only_links_body _ _ _ a Hl) as Hb. rewrite Ha in Hb. destruct (h' !! a) as [c|]; [|done]. exists c. cbn in Hb. split; congruence. }
    exists a, c, h', q'. split_and!; [done..|]. exists n'. split; [done|]. split; [by rewrite not_elem_of_app|].
    split; cbn [queue_ oob_queue_ set_queue].
    + done.
    + revert Ho. apply queue_frame. intros b Hb. eapply only_links_next; [done|]. intros ->%list_elem_of_singleton. done.
    + intros b Hb. apply (Hap b). by right.
    + revert Hns'. apply holds_mono. intros b _. by eapply only_links_body.
    + revert Hos. apply holds_mono. intros b _. by eapply only_links_body.
Qed.

(** Taken out and handed over. *)
Lemma linked_dequeue h x n o ns os (oob : bool) m ms :
  linked h x n o ns os -> (if oob then os else ns) = m :: ms ->
  exists a c h' q', Dequeue h (if oob then oob_queue_ x else queue_ x) = Ok (Some a, (h', q')) /\
    h' !! a = Some c /\ body c = m /\ priority_ m = (if oob then kOOBPriority else kNormalPriority) /\
    if oob then exists o', linked (delete a h') (set_oob_queue q' x) n o' ns ms
    else exists n', linked (delete a h') (set_queue q' x) n' o ms os.
Proof.
  intros Hl Hm. destruct (linked_take h x n o ns os oob m ms Hl Hm) as (a & c & h' & q' & Hd & Hc & Hcm & Hp & _ & Hr).
  exists a, c, h', q'. split_and!; [done..|].
  destruct oob; destruct Hr as (l & _ & [? ?]%not_elem_of_app & Hl'); exists l; by apply linked_delete.
Qed.

(** Which message a round takes, and what is left. *)
Definition next_message (st : State) (allow_normal : bool) (ns os : list Message)
    : option (Message * list Message * list Message) :=
  match os with
  | m :: os => Some (m, ns, os)
  | [] =>
      if allow_normal && negb (paused (hd st)) then
        match ns with m :: ns => Some (m, ns, []) | [] => None end
      else None
  end.

Definition after_round (allow_multiple result : bool) (p : Priority) (st : State) : round :=
  if negb result then Over false st
  else if bool_decide (p = kNormalPriority) && negb allow_multiple then Over true st
  else Again st.

Lemma min_priority_normal st an :
  (Priority_value (min_priority st an) <? Priority_value kOOBPriority) = an && negb (paused (hd st)).
Proof. unfold min_priority. by destruct (an && negb (paused (hd st))). Qed.

Lemma pending_oob_nil st ns : pending st ns [] -> Dequeue (heap st) (oob_queue_ (hd st)) = Ok (None, (heap st, oob_queue_ (hd st))).
Proof.
  intros (n & o & [_ Ho _ _ Hos]). inversion Hos; subst. apply (Dequeue_ok _ _ _ Ho).
Qed.

Lemma state_eta st : mkState (heap st) (set_oob_queue (oob_queue_ (hd st)) (hd st)) (env st) (trace st) = st.
Proof. by destruct st as [? [] ? ?]. Qed.

Lemma round_none st ns os an am :
  pending st ns os -> next_message st an ns os = None -> HandleMessages_round an am st = Ok (Over true st).
Proof.
  intros Hp Hn. unfold next_message in Hn. destruct os as [|? ?]; [|done].
  unfold HandleMessages_round, DequeueMessage. rewrite (pending_oob_nil st ns Hp). cbn [mbind result_bind].
  rewrite state_eta, min_priority_normal. destruct (an && negb (paused (hd st))); [|done]. destruct ns; [|done].
  destruct Hp as (n & o & [Hq _ _ Hns _]). inversion Hns; subst. rewrite (Dequeue_ok _ _ _ Hq). cbn [mbind result_bind].
  by destruct st as [? [] ? ?].
Qed.

(** The rest of a round, with the message at [a] taken from its queue. *)
Lemma round_rest st a c am res acts e :
  heap st !! a = Some c -> HandleMessage (env st) (body c) = (res, acts, e) ->
  (m ← deref (heap st) a;
   r ← call_HandleMessage st a;
   let '(result, st) := (r : bool * State) in
   if negb result then Ok (Over false st)
   else if bool_decide (priority_ m = kNormalPriority) && negb am then Ok (Over true st)
   else Ok (Again st)) =
  (st2 ← released (mkState (delete a (heap st)) (hd st) e (trace st ++ [body c])) acts;
   Ok (after_round am res (priority_ (body c)) st2)).
Proof.
  intros Hc Hh. rewrite (deref_ok _ _ _ Hc). cbn [mbind result_bind]. unfold call_HandleMessage.
  rewrite (deref_ok _ _ _ Hc). cbn [mbind result_bind]. rewrite Hh. unfold after_round.
  destruct (released _ acts) as [st2|]; [|done]. cbn [mbind result_bind]. change (priority_ (body c)) with (priority_ c).
  by destruct (negb res), (bool_decide (priority_ c = kNormalPriority) && negb am).
Qed.

Lemma round_some st ns os an am m ns' os' res acts e :
  pending st ns os -> next_message st an ns os = Some (m, ns', os') -> HandleMessage (env st) m = (res, acts, e) ->
  exists st1, pending st1 ns' os' /\ same_flags (hd st1) (hd st) /\ env st1 = e /\ trace st1 = trace st ++ [m] /\
    HandleMessages_round an am st = (st2 ← released st1 acts; Ok (after_round am res (priority_ m) st2)).
Proof.
  intros Hp Hn Hh. unfold HandleMessages_round, DequeueMessage. unfold next_message in Hn.
  destruct os as [|y os2]; simplify_eq.
  - destruct (an && negb (paused (hd st))) eqn:Ean; [|done]. destruct ns as [|y ns2]; simplify_eq.
    rewrite (pending_oob_nil st _ Hp). cbn [mbind result_bind]. rewrite state_eta, min_priority_normal, Ean.
    destruct Hp as (n & o & Hl). destruct (linked_dequeue _ _ _ _ _ _ false m ns' Hl eq_refl) as (a & c & h' & q' & -> & Hc & <- & _ & n' & Hl').
    exists (mkState (delete a h') (set_queue q' (hd st)) e (trace st ++ [body c])).
    split_and!; [by exists n', o|by split|done|done|].
    apply (round_rest (mkState h' (set_queue q' (hd st)) (env st) (trace st)) a c am res acts e Hc Hh).
  - destruct Hp as (n & o & Hl). destruct (linked_dequeue _ _ _ _ _ _ true m os' Hl eq_refl) as (a & c & h' & q' & -> & Hc & <- & _ & o' & Hl').
    exists (mkState (delete a h') (set_oob_queue q' (hd st)) e (trace st ++ [body c])).
    split_and!; [by exists n, o'|by split|done|done|].
    apply (round_rest (mkState h' (set_oob_queue q' (hd st)) (env st) (trace st)) a c am res acts e Hc Hh).
Qed.

(** ** Every message is handled *)

(** What a client does that neither pauses the handler nor sends messages that
    overtake others. *)
Definition calm (a : action) : Prop :=
  match a with
  | APost m before_events => next_ m = 0 /\ IsOOB m = false /\ before_events = false
  | AIncrementPaused | ADecrementPaused => False
  | _ => True
  end.

Definition calm_client : Prop :=
  forall e m, let '(result, acts, _) := HandleMessage e m in result = true /\ Forall calm acts.

Lemma pending_on_hd st ns os f :
  (forall x, queue_ (f x) = queue_ x /\ oob_queue_ (f x) = oob_queue_ x) -> pending st ns os -> pending (on_hd f st) ns os.
Proof.
  intros Hf (n & o & [H1 H2 H3 H4 H5]). exists n, o. destruct (Hf (hd st)) as [Hq Ho].
  split; cbn [on_hd set_hd heap hd]; rewrite ?Hq, ?Ho; done.
Qed.

Lemma woken_paused x y : same_flags x (woken y) -> paused_ x = paused_ y.
Proof. intros H. rewrite (sf_paused _ _ H). unfold woken. by destruct (pool_ y && negb (task_ y)). Qed.

Lemma released_calm : forall acts st ns os,
  pool_runs = true -> Forall calm acts -> pending st ns os ->
  exists st' more, released st acts = Ok st' /\ pending st' (ns ++ more) os /\ paused_ (hd st') = paused_ (hd st) /\
    env st' = env st /\ trace st' = trace st.
Proof.
  induction acts as [|a acts IH]; intros st ns os Hpool Hc Hp.
  { exists st, []. rewrite app_nil_r. done. }
  apply Forall_cons in Hc as [Ha Hc]. cbn [released].
  assert (exists st1 more, run_action st a = Ok st1 /\ pending st1 (ns ++ more) os /\ paused_ (hd st1) = paused_ (hd st) /\
    env st1 = env st /\ trace st1 = trace st) as (st1 & more & -> & Hp1 & H1 & H2 & H3).
  { destruct a as [m b| | |b|b| |]; cbn [calm] in Ha; try done.
    1: { destruct Ha as (Hm & Hoob & ->).
         destruct (post_ok st ns os m false Hp) as (st1 & Hr & Hf & He & Ht & Hpe); [by split|done|]. rewrite Hoob in Hpe.
         exists st1, [m]. split_and!; [done|done|by apply woken_paused|done|done]. }
    all: eexists _, []; rewrite app_nil_r; split; [done|]; split_and!; [by apply pending_on_hd|done..]. }
  cbn [mbind result_bind]. destruct (IH st1 (ns ++ more) os Hpool Hc Hp1) as (st' & more' & Hr & Hp' & H1' & H2' & H3').
  exists st', (more ++ more'). rewrite Hr, (assoc_L app), H1', H2', H3'. done.
Qed.

Lemma rounds_handled : forall k st ns os,
  calm_client -> pool_runs = true -> paused (hd st) = false -> pending st ns os -> (k <= length (os ++ ns))%nat ->
  exists st' ns' os' more, pending st' ns' os' /\ os' = drop k os /\ os' ++ ns' = drop k (os ++ ns) ++ more /\ paused (hd st') = false /\
    trace st' = trace st ++ take k (os ++ ns) /\
    (forall fuel, HandleMessages (k + fuel) true true st = HandleMessages fuel true true st').
Proof.
  induction k as [|k IH]; intros st ns os Hcalm Hpool Hpa Hp Hk.
  { exists st, ns, os, []. rewrite !app_nil_r. done. }
  assert (exists m ns1 os1, next_message st true ns os = Some (m, ns1, os1) /\ os ++ ns = m :: os1 ++ ns1 /\ os1 = drop 1 os)
    as (m & ns1 & os1 & Hnext & Hall & Hos1).
  { unfold next_message. rewrite Hpa. destruct os as [|m os]; [|by eexists _, _, _]. destruct ns as [|m ns]; [cbn in Hk; lia|].
    by eexists _, _, _. }
  destruct (HandleMessage (env st) m) as [[res acts] e] eqn:Eh.
  pose proof (Hcalm (env st) m) as Hc. rewrite Eh in Hc. destruct Hc as [-> Hacts].
  destruct (round_some st ns os true true m ns1 os1 true acts e Hp Hnext Eh) as (st1 & Hp1 & Hf1 & He1 & Ht1 & Hround).
  destruct (released_calm acts st1 ns1 os1 Hpool Hacts Hp1) as (st2 & more & Hrel & Hp2 & Hpa2 & He2 & Ht2).
  rewrite Hrel in Hround. cbn [mbind result_bind after_round negb] in Hround. rewrite andb_false_r in Hround.
  rewrite Hall in Hk |- *. cbn [length] in Hk.
  destruct (IH st2 (ns1 ++ more) os1) as (st' & ns' & os' & more' & Hp' & Ho' & Hq' & Hpa' & Ht' & Hfuel); [done|done| |done| |].
  { unfold paused in *. by rewrite Hpa2, (sf_paused _ _ Hf1). }
  { rewrite !length_app in *. lia. }
  exists st', ns', os', (more ++ more'). split_and!; [done|by rewrite Ho', Hos1, drop_drop| |done| |].
  - rewrite Hq', (assoc_L app os1), drop_app_le by lia. rewrite <- (assoc_L app). done.
  - rewrite Ht', Ht2, Ht1, (assoc_L app os1), take_app_le by lia. rewrite <- (assoc_L app). done.
  - intros fuel. cbn [Nat.add HandleMessages]. rewrite Hround. cbn [mbind result_bind]. apply Hfuel.
Qed.

(** C20: messages are not starved.  When the handler is not paused, every call of
    [HandleMessage] succeeds, and what runs meanwhile neither pauses the handler nor
    posts OOB messages or messages before events, but as many ordinary ones as it
    likes, [HandleMessages(true, true)] hands every message that is pending when it
    starts to the client within as many rounds as there are such messages, the OOB
    messages first, then the others in the order of the queue.  When none was posted
    meanwhile the loop then returns. *)
Theorem pending_handled st ns os :
  calm_client -> pool_runs = true -> paused (hd st) = false -> pending st ns os ->
  exists st' more, trace st' = trace st ++ os ++ ns /\ pending st' more [] /\
    (forall fuel, HandleMessages (length (os ++ ns) + fuel) true true st = HandleMessages fuel true true st') /\
    (more = [] -> HandleMessages (S (length (os ++ ns))) true true st = Ok (true, st')).
Proof.
  intros Hcalm Hpool Hpa Hp.
  destruct (rounds_handled (length (os ++ ns)) st ns os) as (st' & more & os' & _ & Hp' & Ho' & _ & Hpa' & Ht & Hf); [done..|].
  rewrite drop_ge in Ho' by (rewrite length_app; lia). subst os'. rewrite take_ge in Ht by done.
  exists st', more. split_and!; [done..|]. intros ->. rewrite <- Nat.add_1_r, Hf. cbn [HandleMessages].
  rewrite (round_none st' [] []) by (done || (unfold next_message; by rewrite Hpa')). done.
Qed.

(** ** No message is forgotten *)

(** The clients post well-formed messages and the thread pool has not been shut down. *)
Class ClientOk := {
  handle_acts e m : Forall action_ok (HandleMessage e m).1.2;
  start_acts e : Forall action_ok (StartCallback e).1.2;
  notify_start_acts e : Forall action_ok (NotifyPauseOnStart e).1;
  notify_exit_acts e : Forall action_ok (NotifyPauseOnExit e).1;
  pool_runs_ok : pool_runs = true
}.

Context {CO : ClientOk}.

(** From [st] to [st'] the pool stays and the task is not taken away. *)
Record keeps (st st' : State) : Prop := {
  keeps_pending : exists ns os, pending st' ns os;
  keeps_pool : pool_ (hd st') = pool_ (hd st);
  keeps_task : task_ (hd st) = true -> task_ (hd st') = true
}.

Lemma keeps_trans st1 st2 st3 : keeps st1 st2 -> keeps st2 st3 -> keeps st1 st3.
Proof. intros [_ H1 H2] [H3 H4 H5]. split; [done|congruence|auto]. Qed.

Lemma keeps_on_hd st f :
  (forall x, queue_ (f x) = queue_ x /\ oob_queue_ (f x) = oob_queue_ x /\ pool_ (f x) = pool_ x /\ (task_ x = true -> task_ (f x) = true)) ->
  (exists ns os, pending st ns os) -> keeps st (on_hd f st).
Proof.
  intros Hf (ns & os & Hp). destruct (Hf (hd st)) as (_ & _ & H3 & H4). split; [|done..].
  exists ns, os. apply pending_on_hd; [|done]. intros x. by destruct (Hf x) as (? & ? & _).
Qed.

Lemma woken_keeps x y : same_flags x (woken y) -> pool_ x = pool_ y /\ (task_ y = true -> task_ x = true).
Proof.
  intros H. rewrite (sf_pool _ _ H), (sf_task _ _ H). unfold woken. destruct (pool_ y && negb (task_ y)) eqn:E; [|done].
  split; [done|]. done.
Qed.

Lemma run_action_keeps st st' a :
  action_ok a -> (exists ns os, pending st ns os) -> run_action st a = Ok st' -> keeps st st'.
Proof.
  intros Ha Hp Hr. destruct a as [m b| | |b|b| |]; cbn [run_action] in Hr; simplify_eq.
  1: { destruct Hp as (ns & os & Hp). destruct (post_ok st ns os m b Hp Ha pool_runs_ok) as (st1 & Hr1 & Hf & _ & _ & Hp1).
       cbn [run_action] in Hr1. rewrite Hr in Hr1. simplify_eq. destruct (woken_keeps _ _ Hf) as [? ?].
       split; [|done..]. destruct (IsOOB m); eauto. }
  2: { destruct (paused (hd st)); cbn [assert_ mbind result_bind] in Hr; simplify_eq. by apply keeps_on_hd. }
  all: by apply keeps_on_hd.
Qed.

Lemma released_keeps : forall acts st st',
  Forall action_ok acts -> (exists ns os, pending st ns os) -> released st acts = Ok st' -> keeps st st'.
Proof.
  induction acts as [|a acts IH]; intros st st' Ha Hp Hr; cbn [released] in Hr; [by simplify_eq|].
  apply Forall_cons in Ha as [Ha Hacts]. apply bind_ok in Hr as (st1 & H1 & Hr).
  pose proof (run_action_keeps st st1 a Ha Hp H1) as Hk. eapply keeps_trans; [done|].
  apply IH; [done|apply Hk|done].
Qed.

Lemma HandleMessages_keeps : forall fuel an am st r st',
  (exists ns os, pending st ns os) -> HandleMessages fuel an am st = Ok (r, st') ->
  keeps st st' /\ (r = true -> am = true -> exists ns os, pending st' ns os /\ next_message st' an ns os = None).
Proof.
  induction fuel as [|fuel IH]; intros an am st r st' (ns & os & Hp) Hh; cbn [HandleMessages] in Hh; [done|].
  destruct (next_message st an ns os) as [[[m ns1] os1]|] eqn:Hn.
  - destruct (HandleMessage (env st) m) as [[res acts] e] eqn:Eh.
    pose proof (handle_acts (env st) m) as Hacts. rewrite Eh in Hacts. cbn [fst snd] in Hacts.
    destruct (round_some st ns os an am m ns1 os1 res acts e Hp Hn Eh) as (st1 & Hp1 & Hf1 & _ & _ & Hround).
    rewrite Hround in Hh. destruct (released st1 acts) as [st2|] eqn:Hrel; [|done]. cbn [mbind result_bind] in Hh.
    assert (keeps st st2) as Hk.
    { eapply keeps_trans; [|eapply released_keeps; eauto]. split; [eauto|apply Hf1|]. by rewrite (sf_task _ _ Hf1). }
    unfold after_round in Hh. destruct (negb res) eqn:Eres; [simplify_eq; split; [done|done]|].
    destruct (bool_decide _ && negb am) eqn:Em.
    + simplify_eq. split; [done|]. intros _ ->. by rewrite andb_false_r in Em.
    + destruct (IH an am st2 r st') as [Hk' Hend]; [apply Hk|done|]. split; [by eapply keeps_trans|done].
  - rewrite (round_none st ns os an am Hp Hn) in Hh. cbn [mbind result_bind] in Hh. simplify_eq.
    split; [split; eauto|eauto].
Qed.

(** The states in which ordinary messages wait: the client has paused the handler, or
    its task has stopped before the start callback, or before the exit, has told the
    client so, and is still asked to. *)
Definition at_pause (x : MessageHandler) : bool :=
  paused x || (pause_on_start_ x && paused_on_start_ x) || (pause_on_exit_ x && paused_on_exit_ x).

(** The handler has nothing to do, or somebody will do it: with a pool and without
    a task no OOB message is pending, and ordinary ones only while it is paused. *)
Definition settled (st : State) : Prop :=
  exists ns os, pending st ns os /\
    (pool_ (hd st) = true -> task_ (hd st) = false -> os = [] /\ (ns = [] \/ at_pause (hd st) = true)).

(** Whether the task has stopped at a pause is changed by [TaskCallback] itself only. *)
Definition same_stop (st st' : State) : Prop :=
  paused_on_start_ (hd st') = paused_on_start_ (hd st) /\ paused_on_exit_ (hd st') = paused_on_exit_ (hd st).

Lemma same_stop_trans st1 st2 st3 : same_stop st1 st2 -> same_stop st2 st3 -> same_stop st1 st3.
Proof. intros [? ?] [? ?]. split; congruence. Qed.

Lemma PostMessage_stop st p b st' : PostMessage st p b = Ok st' -> same_stop st st'.
Proof.
  unfold PostMessage. intros (m & _ & H)%bind_ok. apply bind_ok in H as (st1 & H1 & H).
  assert (same_stop st st1) as Hs by (destruct (IsOOB m); apply bind_ok in H1 as ([h q] & _ & H1); by simplify_eq).
  eapply same_stop_trans; [exact Hs|]. destruct (pool_ (hd st1) && negb (task_ (hd st1))); [|by simplify_eq].
  apply bind_ok in H as (? & _ & H). by simplify_eq.
Qed.

Lemma run_action_stop st a st' : run_action st a = Ok st' -> same_stop st st'.
Proof.
  destruct a; cbn [run_action]; intros H; try (by simplify_eq).
  - by apply PostMessage_stop in H.
  - apply bind_ok in H as (? & _ & H). by simplify_eq.
Qed.

Lemma released_stop acts st st' : released st acts = Ok st' -> same_stop st st'.
Proof.
  revert st. induction acts as [|a acts IH]; intros st H; cbn [released] in H; [by simplify_eq|].
  apply bind_ok in H as (st1 & H1 & H). eapply same_stop_trans; [by eapply run_action_stop|by apply IH].
Qed.

Lemma DequeueMessage_stop st p m st' : DequeueMessage st p = Ok (m, st') -> same_stop st st'.
Proof.
  unfold DequeueMessage. intros ([m1 [h1 q1]] & _ & H)%bind_ok. destruct m1; [by simplify_eq|].
  destruct (_ <? _); [|by simplify_eq]. apply bind_ok in H as ([m2 [h2 q2]] & _ & H). by simplify_eq.
Qed.

Lemma HandleMessages_stop fuel an am st r st' : HandleMessages fuel an am st = Ok (r, st') -> same_stop st st'.
Proof.
  revert st. induction fuel as [|fuel IH]; intros st H; cbn [HandleMessages] in H; [done|]. apply bind_ok in H as (rd & Hr & H).
  unfold HandleMessages_round in Hr. apply bind_ok in Hr as ([m st1] & H1 & Hr). apply DequeueMessage_stop in H1.
  destruct m as [a|]; [|by simplify_eq]. apply bind_ok in Hr as (m & _ & Hr). apply bind_ok in Hr as ([res st2] & H2 & Hr).
  assert (same_stop st st2) as Hs.
  { eapply same_stop_trans; [exact H1|]. unfold call_HandleMessage in H2. apply bind_ok in H2 as (m2 & _ & H2).
    destruct (HandleMessage (env st1) (body m2)) as [[res' acts] e]. apply bind_ok in H2 as (st3 & H3 & H2). simplify_eq.
    by apply released_stop in H3. }
  destruct (negb res); [by simplify_eq|]. destruct (bool_decide _ && _); [by simplify_eq|]. simplify_eq.
  eapply same_stop_trans; [exact Hs|]. by apply IH.
Qed.

Lemma pending_IsEmpty st ns os : pending st ns os -> IsEmpty (oob_queue_ (hd st)) = true -> os = [].
Proof.
  intros (n & o & [_ Ho _ _ Hos]) He. rewrite (queue_empty _ _ _ Ho) in He. apply bool_decide_eq_true in He. subst o.
  by inversion Hos.
Qed.

Lemma settled_busy st : (exists ns os, pending st ns os) -> task_ (hd st) = true -> settled st.
Proof. intros (ns & os & Hp) Ht. exists ns, os. split; [done|]. congruence. Qed.

Lemma settled_no_pool st : (exists ns os, pending st ns os) -> pool_ (hd st) = false -> settled st.
Proof. intros (ns & os & Hp) Ht. exists ns, os. split; [done|]. congruence. Qed.

(** A task that leaves the handler waiting at a pause. *)
Lemma settled_waiting st :
  (exists ns os, pending st ns os) -> IsEmpty (oob_queue_ (hd st)) = true ->
  at_pause (hd st) = true -> settled (on_hd (set_task false) st).
Proof.
  intros (ns & os & Hp) He Hw. exists ns, os. split; [by apply pending_on_hd|]. intros _ _.
  split; [by eapply pending_IsEmpty|]. by right.
Qed.

(** Notifying the client of a pause, then handling OOB messages. *)
Lemma pause_messages_keep fuel st (c : bool) f acts e st1 r st2 :
  (exists ns os, pending st ns os) ->
  (forall x, queue_ (f x) = queue_ x /\ oob_queue_ (f x) = oob_queue_ x /\ pool_ (f x) = pool_ x /\ (task_ x = true -> task_ (f x) = true)) ->
  Forall action_ok acts ->
  (if c then released (set_env (on_hd f st) e) acts else Ok st) = Ok st1 ->
  HandleMessages fuel false false st1 = Ok (r, st2) -> keeps st st2.
Proof.
  intros Hp Hf Ha Hs Hh. assert (keeps st st1) as Hk1.
  { destruct c; simplify_eq; [|by split]. eapply keeps_trans; [by apply (keeps_on_hd st f)|].
    assert (keeps (on_hd f st) (set_env (on_hd f st) e)) as Hk0.
    { split; [|done..]. destruct (keeps_on_hd st f Hf Hp) as [(ns & os & n & o & Hl) _ _]. by exists ns, os, n, o. }
    eapply keeps_trans; [exact Hk0|]. eapply released_keeps; [done|apply Hk0|done]. }
  eapply keeps_trans; [done|]. eapply HandleMessages_keeps; [apply Hk1|done].
Qed.

Lemma pause_at_start_ok fuel st go st' :
  (exists ns os, pending st ns os) -> pause_at_start fuel st = Ok (go, st') ->
  if go then keeps st st' else settled st'.
Proof.
  intros Hp Hr. unfold pause_at_start in Hr. destruct (pause_on_start_ (hd st)) eqn:Eon; [|simplify_eq; by split].
  destruct (NotifyPauseOnStart (env (on_hd (set_paused_on_start true (now (env st))) st))) as [acts e] eqn:En.
  apply bind_ok in Hr as (st1 & H1 & Hr). apply bind_ok in Hr as ([r st2] & H2 & Hr). cbn [snd] in Hr.
  assert (Forall action_ok acts) as Hacts by (pose proof (notify_start_acts (env (on_hd (set_paused_on_start true (now (env st))) st))) as H; by rewrite En in H).
  assert (keeps st st2) as Hk.
  { refine (pause_messages_keep fuel st _ (set_paused_on_start true (now (env st))) acts e st1 r st2 Hp _ Hacts H1 H2). done. }
  destruct (pause_on_start_ (hd st2)) eqn:Ep.
  - apply bind_ok in Hr as (? & He & Hr). simplify_eq. destruct (IsEmpty (oob_queue_ (hd st2))) eqn:Ee; [|done].
    apply settled_waiting; [apply Hk|done|]. unfold at_pause. rewrite Ep.
    assert (paused_on_start_ (hd st2) = true) as ->; [|by rewrite orb_true_r].
    rewrite (proj1 (HandleMessages_stop _ _ _ _ _ _ H2)). destruct (paused_on_start_ (hd st)) eqn:E0; cbn [negb] in H1; [by simplify_eq|].
    by rewrite (proj1 (released_stop _ _ _ H1)).
  - simplify_eq. eapply keeps_trans; [done|]. apply keeps_on_hd; [done|apply Hk].
Qed.

Lemma pause_at_exit_ok fuel st go st' :
  (exists ns os, pending st ns os) -> pause_at_exit fuel st = Ok (go, st') ->
  if go then keeps st st' else settled st'.
Proof.
  intros Hp Hr. unfold pause_at_exit in Hr. destruct (pause_on_exit_ (hd st)) eqn:Eon; [|simplify_eq; by split].
  destruct (NotifyPauseOnExit (env (on_hd (set_paused_on_exit true (now (env st))) st))) as [acts e] eqn:En.
  apply bind_ok in Hr as (st1 & H1 & Hr). apply bind_ok in Hr as ([r st2] & H2 & Hr). cbn [snd] in Hr.
  assert (Forall action_ok acts) as Hacts by (pose proof (notify_exit_acts (env (on_hd (set_paused_on_exit true (now (env st))) st))) as H; by rewrite En in H).
  assert (keeps st st2) as Hk.
  { refine (pause_messages_keep fuel st _ (set_paused_on_exit true (now (env st))) acts e st1 r st2 Hp _ Hacts H1 H2). done. }
  destruct (pause_on_exit_ (hd st2)) eqn:Ep.
  - apply bind_ok in Hr as (? & He & Hr). simplify_eq. destruct (IsEmpty (oob_queue_ (hd st2))) eqn:Ee; [|done].
    apply settled_waiting; [apply Hk|done|]. unfold at_pause. rewrite Ep.
    assert (paused_on_exit_ (hd st2) = true) as ->; [|by rewrite orb_true_r].
    rewrite (proj2 (HandleMessages_stop _ _ _ _ _ _ H2)). destruct (paused_on_exit_ (hd st)) eqn:E0; cbn [negb] in H1; [by simplify_eq|].
    by rewrite (proj2 (released_stop _ _ _ H1)).
  - simplify_eq. eapply keeps_trans; [done|]. apply keeps_on_hd; [done|apply Hk].
Qed.

Lemma run_start_callback_keeps st ok st' :
  (exists ns os, pending st ns os) -> run_start_callback st = Ok (ok, st') -> keeps st st'.
Proof.
  intros Hp Hr. unfold run_start_callback in Hr. destruct (start_callback_ (hd st)); [|simplify_eq; by split].
  destruct (StartCallback (env st)) as [[ok1 acts] e] eqn:Es. pose proof (start_acts (env st)) as Hacts. rewrite Es in Hacts.
  apply bind_ok in Hr as (st1 & H1 & Hr). simplify_eq.
  assert (keeps st (set_env st e)) as Hk0 by (by split).
  assert (keeps st st1) as Hk by (eapply keeps_trans; [exact Hk0|]; eapply released_keeps; [done|apply Hk0|done]).
  eapply keeps_trans; [done|]. apply keeps_on_hd; [done|apply Hk].
Qed.

Lemma finish_task_pending b st c st' :
  (exists ns os, pending st ns os) -> finish_task b st = Ok (c, st') -> (exists ns os, pending st' ns os) /\ hd st' = set_task false (hd st).
Proof.
  intros (ns & os & Hp) Hr. unfold finish_task in Hr. apply bind_ok in Hr as (? & _ & Hr). simplify_eq.
  split; [|done]. exists ns, os. by apply pending_on_hd.
Qed.

Lemma TaskCallback_settles fuel st b st' :
  (exists ns os, pending st ns os) -> TaskCallback fuel st = Ok (b, st') -> settled st'.
Proof.
  intros Hp Hr. unfold TaskCallback in Hr. apply bind_ok in Hr as ([go st1] & H1 & Hr).
  pose proof (pause_at_start_ok _ _ _ _ Hp H1) as Hs. destruct go; cbn [negb] in Hr; [|by simplify_eq].
  apply bind_ok in Hr as ([ok st2] & H2 & Hr). pose proof (run_start_callback_keeps _ _ _ (keeps_pending _ _ Hs) H2) as Hk2.
  apply bind_ok in Hr as ([ok3 st3] & H3 & Hr).
  assert (keeps st2 st3 /\ (ok3 = true -> exists ns os, pending st3 ns os /\ next_message st3 true ns os = None)) as [Hk3 Hend].
  { destruct ok.
    - destruct (HandleMessages_keeps _ _ _ _ _ _ (keeps_pending _ _ Hk2) H3) as [? Hn]. split; [done|]. intros ->. by apply Hn.
    - simplify_eq. split; [split; [apply Hk2|done..]|done]. }
  destruct (negb ok3 || negb (HasLivePorts (hd st3))) eqn:Ex.
  - apply bind_ok in Hr as ([go st4] & H4 & Hr). pose proof (pause_at_exit_ok _ _ _ _ (keeps_pending _ _ Hk3) H4) as Hk4.
    destruct go; cbn [negb] in Hr; [|by simplify_eq]. destruct (keeps_pending _ _ Hk4) as (ns & os & Hp4).
    apply finish_task_pending in Hr as [Hp' Hhd]; [|exists ns, os; by apply pending_on_hd].
    apply settled_no_pool; [done|]. by rewrite Hhd.
  - apply orb_false_iff in Ex as [Eok _]. destruct ok3; [|done]. destruct (Hend eq_refl) as (ns & os & Hp3 & Hn).
    unfold finish_task in Hr. apply bind_ok in Hr as (? & _ & Hr). simplify_eq.
    exists ns, os. split; [by apply pending_on_hd|]. intros _ _. unfold next_message in Hn. destruct os; [|done]. split; [done|].
    change (at_pause (hd (on_hd (set_task false) st3))) with (at_pause (hd st3)). unfold at_pause.
    destruct (paused (hd st3)) eqn:Epa; [by right|]. destruct ns; [by left|done].
Qed.

(** ** Steps of the threads *)

(** Nobody is told about the messages of the queues when they are dropped. *)
Definition all_final (st : State) : Prop :=
  exists ns os, pending st ns os /\ Forall (fun m => delivery_failure_port_ m = kIllegalPort) (ns ++ os).

(** Other threads post messages and open and close ports at any time, and hold the
    queues; the isolate's own thread handles OOB messages out of turn; the ports are
    closed with the messages in the queues; the embedder sets the handler up, runs it
    or drives it by hand; the pool runs its task. *)
Inductive step : State -> State -> Prop :=
| step_post st m b st' : message_ok m b -> run_action st (APost m b) = Ok st' -> step st st'
| step_open st : step st (increment_live_ports st)
| step_close st : step st (decrement_live_ports st)
| step_setup st a st' : pool_ (hd st) = false -> action_ok a -> run_action st a = Ok st' -> step st st'
| step_run st start finish st' : Run st start finish = Ok st' -> step st st'
| step_next st fuel r st' : HandleNextMessage fuel st = Ok (r, st') -> step st st'
| step_oob st fuel r st' : HandleOOBMessages fuel st = Ok (r, st') -> step st st'
| step_close_all st post st' : all_final st -> CloseAllPorts post st = Ok st' -> step st st'
| step_acquire st : step st (AcquireQueues st)
| step_release st : step st (ReleaseQueues st)
| step_task st fuel b st' : task_ (hd st) = true -> TaskCallback fuel st = Ok (b, st') -> step st st'.

Lemma settled_keeps st st' :
  settled st -> keeps st st' -> pool_ (hd st) = false \/ task_ (hd st') = true -> settled st'.
Proof.
  intros Hs [Hp Hpool Htask] [H|H]; [apply settled_no_pool; [done|congruence]|by apply settled_busy].
Qed.

(** With a pool and no task there is nothing to handle out of turn. *)
Lemma HandleOOBMessages_settled fuel st r st' : settled st -> HandleOOBMessages fuel st = Ok (r, st') -> settled st'.
Proof.
  intros Hs Hr. unfold HandleOOBMessages in Hr. destruct (negb (oob_message_handling_allowed_ (hd st))); [by simplify_eq|].
  pose proof Hs as (ns & os & Hp & Hq). destruct (HandleMessages_keeps fuel false false st r st') as [Hk _]; [by eauto|done|].
  destruct (pool_ (hd st)) eqn:Epool; [|apply (settled_keeps st); [done..|by left]].
  destruct (task_ (hd st)) eqn:Etask; [apply (settled_keeps st); [done..|right; by apply Hk]|].
  destruct (Hq eq_refl eq_refl) as [-> _]. destruct fuel as [|fuel]; [done|]. cbn [HandleMessages] in Hr.
  rewrite (round_none st ns [] false false Hp eq_refl) in Hr. cbn [mbind result_bind] in Hr. by simplify_eq.
Qed.

Lemma delete_all_lookup l h a : a ∉ l -> delete_all h l !! a = h !! a.
Proof.
  revert h. induction l as [|b l IH]; intros h Ha; [done|]. apply not_elem_of_cons in Ha as [Hb Ha]. cbn [delete_all foldl].
  rewrite (IH (delete b h)) by done. by rewrite lookup_delete_ne.
Qed.

Lemma holds_final h l ms p : holds h l ms p -> Forall (fun m => delivery_failure_port_ m = kIllegalPort) ms -> Forall (final h) l.
Proof.
  intros Hl Hf. induction Hl as [|a m l ms [Ha _] Hl IH]; [constructor|]. apply Forall_cons in Hf as [Hm Hf].
  constructor; [|by apply IH]. unfold final. destruct (h !! a) as [c|]; [|done]. cbn in *. injection Ha as <-. by rewrite <- Hm.
Qed.

Lemma CloseAllPorts_empty post st st' : all_final st -> CloseAllPorts post st = Ok st' -> pending st' [] [].
Proof.
  intros (ns & os & (n & o & [Hn Ho Hap Hns Hos]) & [Hfn Hfo]%Forall_app) Hr.
  pose proof (holds_final _ _ _ _ Hns Hfn) as Fn. pose proof (holds_final _ _ _ _ Hos Hfo) as Fo.
  assert (forall a, a ∈ o -> delete_all (heap st) n !! a = heap st !! a) as Hsame.
  { intros a Ha. apply delete_all_lookup. intros Hin. by apply (Hap a). }
  unfold CloseAllPorts in Hr. rewrite (Clear_final heap set_heap post) with (l := n) in Hr by (done || by intros []). cbn [mbind result_bind] in Hr.
  rewrite (Clear_final heap set_heap post) with (l := o) in Hr; [|done|done|by intros []| |].
  - cbn [mbind result_bind] in Hr. simplify_eq. exists [], []. split; [split..|set_solver| |]; try done; try constructor.
  - cbn. revert Ho. apply queue_frame. intros a Ha. by rewrite Hsame.
  - cbn. rewrite Forall_forall in *. intros a Ha. unfold final. rewrite Hsame by done. by apply Fo.
Qed.

Lemma step_settled st st' : settled st -> step st st' -> settled st'.
Proof.
  intros Hs Hstep. assert (exists ns os, pending st ns os) as Hp by (destruct Hs as (ns & os & ? & _); eauto).
  destruct Hstep as [st m b st' Hm Hr|st|st|st a st' Hpool Ha Hr|st s f st' Hr|st fuel r st' Hr
    |st fuel r st' Hr|st post st' Hf Hr|st|st|st fuel b st' Ht Hr].
  - pose proof (run_action_keeps st st' (APost m b) Hm Hp Hr) as Hk. apply (settled_keeps st); [done..|].
    destruct Hp as (ns & os & Hp). destruct (post_ok st ns os m b Hp Hm pool_runs_ok) as (st1 & Hr1 & Hf & _).
    rewrite Hr in Hr1. simplify_eq. rewrite (sf_task _ _ Hf). unfold woken.
    destruct (pool_ (hd st)); [|by left]. right. cbn [andb]. by destruct (task_ (hd st)) eqn:E.
  - destruct Hs as (ns & os & Hs & Hq). exists ns, os. split; [by apply pending_on_hd|done].
  - destruct Hs as (ns & os & Hs & Hq). exists ns, os. split; [by apply pending_on_hd|done].
  - pose proof (run_action_keeps st st' a Ha Hp Hr) as Hk. apply (settled_keeps st); [done..|by left].
  - unfold Run in Hr. apply bind_ok in Hr as (? & _ & Hr). apply bind_ok in Hr as (? & _ & Hr). simplify_eq.
    destruct Hp as (ns & os & Hp). apply settled_busy; [|done]. exists ns, os. by apply pending_on_hd.
  - unfold HandleNextMessage in Hr. apply bind_ok in Hr as (? & Hpool & Hr). destruct (HandleMessages_keeps _ _ _ _ _ _ Hp Hr) as [Hk _].
    apply (settled_keeps st); [done..|]. left. by destruct (pool_ (hd st)).
  - by apply (HandleOOBMessages_settled fuel st r).
  - apply (CloseAllPorts_empty post st st' Hf) in Hr. exists [], []. split; [done|]. intros _ _. split; [done|by left].
  - destruct Hs as (ns & os & Hs & Hq). exists ns, os. split; [by apply pending_on_hd|done].
  - destruct Hs as (ns & os & Hs & Hq). exists ns, os. split; [by apply pending_on_hd|done].
  - by apply (TaskCallback_settles fuel st b).
Qed.

Definition initial (e : client) : State := mkState ∅ MessageHandler_new e [].

Lemma initial_settled e : settled (initial e).
Proof.
  apply settled_no_pool; [|done]. exists [], [], [], []. split; [split..|set_solver| |]; try done; try constructor.
Qed.

Lemma steps_settled st st' : rtc step st st' -> settled st -> settled st'.
Proof. induction 1 as [|x y z Hxy _ IH]; [done|]. intros Hx. by apply IH, (step_settled x). Qed.

(** C18: no wake-up is lost.  After any sequence of posts, port openings and closings,
    [Run], the task, [HandleNextMessage], [HandleOOBMessages], [CloseAllPorts] on queues
    without delivery failure ports, and acquiring and releasing the queues (the pause
    settings being changed before [Run] or by what runs while messages are handled), a
    handler that has a pool but no task has no OOB message left, and ordinary messages
    only if it is paused, or has stopped before the start or the exit and is still
    asked to; and posting a message to a handler with a pool leaves it with a task. *)
Theorem no_lost_wakeup e st :
  rtc step (initial e) st ->
  settled st /\
  (forall m b st', message_ok m b -> pool_ (hd st) = true -> run_action st (APost m b) = Ok st' -> task_ (hd st') = true).
Proof.
  intros Hsteps. assert (settled st) as Hs by (by eapply steps_settled; [|apply initial_settled]).
  split; [done|]. intros m b st' Hm Hpool Hr. destruct Hs as (ns & os & Hp & _).
  destruct (post_ok st ns os m b Hp Hm pool_runs_ok) as (st1 & Hr1 & Hf & _). rewrite Hr in Hr1. simplify_eq.
  rewrite (sf_task _ _ Hf). unfold woken. rewrite Hpool. cbn [andb]. by destruct (task_ (hd st)) eqn:E.
Qed.

(** An error while an OOB message is handled leaves the other OOB messages in
    the queue; when the handler does not pause on exit, the assertion at the end of
    [TaskCallback] that there are none fails. *)
Theorem error_leaves_oob_messages st ns m1 m2 os e fuel :
  pending st ns (m1 :: m2 :: os) -> HandleMessage (env st) m1 = (false, [], e) ->
  pause_on_start_ (hd st) = false -> start_callback_ (hd st) = false -> pause_on_exit_ (hd st) = false ->
  TaskCallback (S fuel) st = Err MAssertFailed.
Proof.
  intros Hp Hh Hs Hc He. unfold TaskCallback, pause_at_start. rewrite Hs. cbn [mbind result_bind negb].
  unfold run_start_callback. rewrite Hc. cbn [mbind result_bind HandleMessages].
  destruct (round_some st ns _ true true m1 ns (m2 :: os) false [] e Hp eq_refl Hh) as (st1 & Hp1 & Hf & _ & _ & ->).
  cbn [released after_round negb mbind result_bind orb]. unfold pause_at_exit. rewrite (sf_on_exit _ _ Hf), He. cbn [mbind result_bind negb].
  unfold finish_task. destruct (IsEmpty (oob_queue_ (hd (on_hd (set_pool false) st1)))) eqn:Ee; [|done].
  by pose proof (pending_IsEmpty st1 ns _ Hp1 Ee).
Qed.

End behaviour.

(** ** A client *)

Definition above (h : Heap) : Z := 1 + foldr Z.max 0 (elements (dom h)).

Lemma above_fresh h : above h <> 0 /\ h !! above h = None.
Proof.
  unfold above. assert (forall l : list Z, 0 <= foldr Z.max 0 l /\ forall a, a ∈ l -> a <= foldr Z.max 0 l) as Hl.
  { induction l as [|b l [IH1 IH2]]; cbn; [split; [lia|set_solver]|]. split; [lia|].
    intros a [->|Ha]%elem_of_cons; [lia|]. specialize (IH2 a Ha). lia. }
  destruct (Hl (elements (dom h))) as [H0 Hmax]. split; [lia|]. apply not_elem_of_dom. intros Hin.
  apply elem_of_elements, Hmax in Hin. lia.
Qed.

(** Messages to port 5 are answered to port 6; messages to port 9 fail. *)
Definition demo_client : HandlerClient := {|
  client := unit;
  HandleMessage e m :=
    (negb (dest_port_ m =? 9), if dest_port_ m =? 5 then [APost (mkMessage 0 6 0 0 8 kNormalPriority) false] else [], e);
  StartCallback e := (true, [AIncrementLivePorts], e);
  NotifyPauseOnStart e := ([], e);
  NotifyPauseOnExit e := ([], e);
  pool_runs := true;
  now e := 1000;
  new_address := above;
  new_address_fresh := above_fresh
|}.

Definition demo_ok : ClientOk (HC := demo_client).
Proof.
  split; try done; cbn.
  - intros e m. destruct (dest_port_ m =? 5); repeat constructor; done.
  - intros e. by repeat constructor.
Defined.

(** Like [demo_client], but no message fails. *)
Definition calm_demo : HandlerClient := {|
  client := unit;
  HandleMessage e m := (true, if dest_port_ m =? 5 then [APost (mkMessage 0 6 0 0 8 kNormalPriority) false] else [], e);
  StartCallback e := (true, [AIncrementLivePorts], e);
  NotifyPauseOnStart e := ([], e);
  NotifyPauseOnExit e := ([], e);
  pool_runs := true;
  now e := 1000;
  new_address := above;
  new_address_fresh := above_fresh
|}.

Definition to_port (port : Z) (p : Priority) : Message := mkMessage 0 port 0 0 8 p.

Definition or_else {A} (d : A) (r : M A) : A := match r with Ok a => a | Err _ => d end.

(** Two messages posted to a new handler. *)
Lemma pending_demo {HC : HandlerClient} (e : client) m1 m2 :
  pool_runs = true -> message_ok m1 false -> message_ok m2 false -> IsOOB m1 = false -> IsOOB m2 = true ->
  exists st, released (initial e) [APost m1 false; APost m2 false] = Ok st /\ pending st [m1] [m2] /\
    same_flags (hd st) MessageHandler_new /\ env st = e /\ trace st = [].
Proof.
  intros Hpool Hm1 Hm2 Ho1 Ho2.
  assert (pending (initial e) [] []) as Hp0.
  { exists [], []. split; [split..|set_solver| |]; try done; try constructor. }
  destruct (post_ok (initial e) [] [] m1 false Hp0 Hm1 Hpool) as (st1 & H1 & Hf1 & He1 & Ht1 & Hp1). rewrite Ho1 in Hp1.
  destruct (post_ok st1 _ _ m2 false Hp1 Hm2 Hpool) as (st2 & H2 & Hf2 & He2 & Ht2 & Hp2). rewrite Ho2 in Hp2.
  exists st2. cbn [released]. rewrite H1. cbn [mbind result_bind]. rewrite H2. cbn [mbind result_bind].
  assert (woken (hd st1) = hd st1) as Hw by (unfold woken; by rewrite (sf_pool _ _ Hf1)). rewrite Hw in Hf2.
  split_and!; [done|done| |by rewrite He2, He1|by rewrite Ht2, Ht1].
  destruct Hf1, Hf2. split; by etransitivity.
Qed.

Lemma pending_handled_witness :
  exists (st st' : State (HC := calm_demo)) more,
    pending st [to_port 5 kNormalPriority] [to_port 7 kOOBPriority] /\
    trace st' = [to_port 7 kOOBPriority; to_port 5 kNormalPriority] /\ pending st' more [].
Proof.
  destruct (pending_demo (HC := calm_demo) () (to_port 5 kNormalPriority) (to_port 7 kOOBPriority))
    as (st & _ & Hp & Hf & _ & Ht); [done..|].
  destruct (pending_handled (HC := calm_demo) st [to_port 5 kNormalPriority] [to_port 7 kOOBPriority]) as (st' & more & Ht' & Hp' & _).
  - intros e m. cbn. split; [done|]. destruct (dest_port_ m =? 5); repeat constructor.
  - reflexivity.
  - unfold paused. rewrite (sf_paused _ _ Hf). reflexivity.
  - exact Hp.
  - exists st, st', more. rewrite Ht', Ht. done.
Defined.

Definition demo_started : State (HC := demo_client) := or_else (initial (HC := demo_client) ()) (Run (initial (HC := demo_client) ()) true true).
Definition demo_posted : State (HC := demo_client) := or_else demo_started (run_action demo_started (APost (to_port 5 kNormalPriority) false)).
Definition demo_done : State (HC := demo_client) := (or_else (false, demo_posted) (TaskCallback 5 demo_posted)).2.

Lemma no_lost_wakeup_witness :
  pool_ (hd demo_done) = true /\ task_ (hd demo_done) = false /\
  trace demo_done = [to_port 5 kNormalPriority; to_port 6 kNormalPriority] /\ settled demo_done.
Proof.
  split_and!; [vm_compute; reflexivity..|].
  refine (proj1 (no_lost_wakeup (HC := demo_client) (CO := demo_ok) () demo_done _)).
  eapply rtc_l; [apply (step_run _ true true demo_started); vm_compute; reflexivity|].
  eapply rtc_l; [apply (step_post _ (to_port 5 kNormalPriority) false demo_posted); [done|vm_compute; reflexivity]|].
  apply rtc_once, (step_task _ 5 false); vm_compute; reflexivity.
Defined.

Lemma error_leaves_oob_messages_witness :
  exists st : State (HC := demo_client), TaskCallback 3 st = Err MAssertFailed.
Proof.
  assert (exists st : State (HC := demo_client), pending st [to_port 5 kNormalPriority] [to_port 9 kOOBPriority; to_port 7 kOOBPriority] /\
    pause_on_start_ (hd st) = false /\ start_callback_ (hd st) = false /\ pause_on_exit_ (hd st) = false /\ env st = ())
    as (st & Hp & H1 & H2 & H3 & He).
  { destruct (pending_demo (HC := demo_client) () (to_port 5 kNormalPriority) (to_port 9 kOOBPriority))
      as (st & _ & Hp & Hf & He & Ht); [done..|].
    destruct (post_ok (HC := demo_client) st _ _ (to_port 7 kOOBPriority) false Hp) as (st2 & _ & Hf2 & He2 & _ & Hp2); [done..|].
    assert (woken (hd st) = hd st) as Hw by (unfold woken; by rewrite (sf_pool _ _ Hf)). rewrite Hw in Hf2.
    exists st2. split; [exact Hp2|]. rewrite (sf_on_start _ _ Hf2), (sf_start _ _ Hf2), (sf_on_exit _ _ Hf2).
    rewrite (sf_on_start _ _ Hf), (sf_start _ _ Hf), (sf_on_exit _ _ Hf). by destruct (env st2). }
  exists st. apply (error_leaves_oob_messages (HC := demo_client) st _ _ _ _ () 2 Hp); [by rewrite He|done..].
Defined.

End MessageHandler.
