(* ===== verification/PortMap.v ===== *)
(** * vm/port.h, vm/port.cc, vm/random.h, vm/random.cc

    [PortMap]: the table from port numbers to message handlers, open-addressed
    with deleted entries, and the random numbers ports are made of.  A handler is
    its address; the handlers and the messages they hold are part of the state,
    since opening and closing ports counts them and posting enqueues in them.
    All operations hold [mutex_] and are steps as a whole.  [next_slot] of
    [Probing] is [(index + 1) % capacity_]. *)

From stdpp Require Import base numbers list sets gmap.
From Stdlib Require Import ZArith Lia.
From S2P Require Import Prelude Utils Probing Message MessageHandler.

Local Open Scope Z_scope.
Local Open Scope mach_scope.

(** ** Random *)

Module Random.

(** [_state], 64 bits. *)
Definition MASK_32 : Z := 0xffffffff.
Definition A : Z := 0xffffda61.

Definition NextState (state : Z) : Z :=
  let state_lo := state .& MASK_32 in
  let state_hi := (state >>> 32) .& MASK_32 in
  u64 (u64 (A * state_lo) + state_hi).

Definition Initialize (seed : Z) : option Z :=
  if negb (seed =? 0) then Some (NextState (NextState (NextState (NextState seed)))) else None.

Definition NextUInt32 (state : Z) : Z * Z :=
  let state := NextState state in (u32 (state .& MASK_32), state).

Definition NextUInt64 (state : Z) : Z * Z :=
  let '(hi, state) := NextUInt32 state in
  let '(lo, state) := NextUInt32 state in
  ((hi <<< 32) .| lo, state).

Lemma NextState_split s : isU 64 s -> NextState s = A * (s mod 2 ^ 32) + s / 2 ^ 32.
Proof.
  intros Hs. unfold isU in Hs. unfold NextState. change MASK_32 with (Z.ones 32). rewrite !land_ones_wrapU, Z.shiftr_div_pow2 by lia.
  unfold wrapU at 4. unfold wrapU at 3. change (2 ^ 64) with (2 ^ 32 * 2 ^ 32) in Hs.
  pose proof (Z.mod_pos_bound s (2 ^ 32) ltac:(lia)).
  assert (0 <= s / 2 ^ 32 < 2 ^ 32) by (split; [apply Z.div_pos; lia|apply Z.div_lt_upper_bound; lia]).
  rewrite (Z.mod_small (s / 2 ^ 32)) by lia. rewrite (wrapU_id 64 (A * _)) by (unfold isU, A; nia).
  apply wrapU_id. unfold isU, A. nia.
Qed.

(** One step of the generator is a step of the multiplicative generator with
    modulus [A * 2^32 - 1]: the new state times [2^32] is the old state, modulo
    that number.  A state that is not zero stays so and the arithmetic never
    overflows, but one state is its own successor: from a seed of that value every
    number drawn is [0xffffffff]. *)
Theorem NextState_multiplicative s :
  isU 64 s ->
  (NextState s * 2 ^ 32) mod (A * 2 ^ 32 - 1) = s mod (A * 2 ^ 32 - 1) /\
  isU 64 (NextState s) /\ (s <> 0 -> NextState s <> 0) /\
  NextState 0xffffda60ffffffff = 0xffffda60ffffffff.
Proof.
  intros Hs. rewrite (NextState_split s Hs). unfold isU in *. pose proof (Z.div_mod s (2 ^ 32) ltac:(lia)) as Hdm.
  pose proof (Z.mod_pos_bound s (2 ^ 32) ltac:(lia)).
  assert (0 <= s / 2 ^ 32 < 2 ^ 32) by (split; [apply Z.div_pos; lia|apply Z.div_lt_upper_bound; [lia|]; change (2 ^ 32 * 2 ^ 32) with (2 ^ 64); lia]).
  set (lo := s mod 2 ^ 32) in *. set (hi := s / 2 ^ 32) in *. split_and!.
  - replace ((A * lo + hi) * 2 ^ 32) with (s + lo * (A * 2 ^ 32 - 1)) by (rewrite Hdm; ring).
    apply Z.mod_add. unfold A. lia.
  - unfold A. nia.
  - unfold A. nia.
  - unfold A. nia.
  - vm_compute. reflexivity.
Qed.

Lemma NextState_multiplicative_witness :
  (NextState 12345678901234567 * 2 ^ 32) mod (A * 2 ^ 32 - 1) = 12345678901234567 mod (A * 2 ^ 32 - 1).
Proof. apply (NextState_multiplicative 12345678901234567). unfold isU. lia. Defined.

End Random.

Module PortMap.
Import Probing.
Import Message (Message, dest_port_, Heap, MessageQueue).
Import MessageHandler (HandlerClient, mkState, client).

Inductive port_error :=
| PAssertFailed
| PUndefined                       (* an access outside the table, or of a deleted handler *)
| PNoReturn
| PMessage (e : Message.msg_error).

Abbreviation M A := (result port_error A).
Definition assert_ (b : bool) : M unit := if b then Ok () else Err PAssertFailed.
Definition lift {A} (r : result Message.msg_error A) : M A := match r with Ok a => Ok a | Err e => Err (PMessage e) end.

Inductive PortState := kNewPort | kLivePort | kControlPort.
#[export] Instance PortState_eq_dec : EqDecision PortState.
Proof. solve_decision. Defined.

Definition ILLEGAL_PORT : Z := 0.
Definition deleted_entry_ : Z := 1.

Record Entry := mkEntry { port : Z; handler : Z; state : PortState }.

#[export] Instance Entry_eq_dec : EqDecision Entry.
Proof. solve_decision. Defined.

(** [memset(map, 0, ...)]. *)
Definition free_entry : Entry := mkEntry 0 0 kNewPort.

Record PortMap := mkPortMap { map_ : list Entry; capacity_ : Z; used_ : Z; deleted_ : Z }.

Definition slots (m : PortMap) : nat := Z.to_nat (capacity_ m).

Definition entry_at (m : PortMap) (index : Z) : M Entry :=
  if index <? 0 then Err PUndefined
  else match map_ m !! Z.to_nat index with Some e => Ok e | None => Err PUndefined end.

Definition set_map (m : PortMap) (l : list Entry) : PortMap := mkPortMap l (capacity_ m) (used_ m) (deleted_ m).
Definition set_entry (m : PortMap) (index : nat) (e : Entry) : PortMap := set_map m (<[index := e]> (map_ m)).
Definition set_counts (m : PortMap) (used deleted : Z) : PortMap := mkPortMap (map_ m) (capacity_ m) used deleted.

(** [kInitialCapacity]. *)
Definition InitOnce : PortMap := mkPortMap (replicate 8 free_entry) 8 0 0.

(** ** Searching *)

(** The loop of [FindPort]; [None] stands for -1. *)
Fixpoint FindPort_loop (fuel : nat) (m : PortMap) (port_ : Z) (start_index index : nat) : M (option nat) :=
  match fuel with
  | O => Err PNoReturn
  | S fuel =>
      entry ← entry_at m (Z.of_nat index);
      if negb (handler entry =? 0) then
        if port entry =? port_ then Ok (Some index)
        else
          let index := next_slot (slots m) index in
          assert_ (negb (index =? start_index)%nat);;
          FindPort_loop fuel m port_ start_index index
      else Ok None
  end.

(** [port % capacity_] has the sign of [port]. *)
Definition FindPort (m : PortMap) (port : Z) : M (option nat) :=
  if port =? ILLEGAL_PORT then Ok None
  else
    let index := Z.rem port (capacity_ m) in
    _ ← entry_at m index;
    FindPort_loop (slots m) m port (Z.to_nat index) (Z.to_nat index).

(** [while (ports[index].port != 0) index = (index + 1) % capacity;] *)
Definition port_in_use (l : list Entry) (index : nat) : bool :=
  match l !! index with Some e => negb (port e =? 0) | None => false end.

Definition find_unused (l : list Entry) (cap : nat) (index : nat) : M nat :=
  match scan (port_in_use l) cap cap index with Some i => Ok i | None => Err PNoReturn end.

(** The loop of [Rehash] over the old entries. *)
Fixpoint Rehash_loop (new_capacity : Z) (entries new_ports : list Entry) : M (list Entry) :=
  match entries with
  | [] => Ok new_ports
  | entry :: entries =>
      new_ports ←
        (if negb (port entry =? 0) then
           new_index ← find_unused new_ports (Z.to_nat new_capacity) (Z.to_nat (Z.rem (port entry) new_capacity));
           Ok (<[new_index := entry]> new_ports)
         else Ok new_ports);
      Rehash_loop new_capacity entries new_ports
  end.

Definition Rehash (m : PortMap) (new_capacity : Z) : M PortMap :=
  new_ports ← Rehash_loop new_capacity (map_ m) (replicate (Z.to_nat new_capacity) free_entry);
  Ok (mkPortMap new_ports new_capacity (used_ m) 0).

Definition MaintainInvariants (m : PortMap) : M PortMap :=
  let empty := capacity_ m - used_ m - deleted_ m in
  if used_ m >? capacity_ m / 4 * 3 then Rehash m (capacity_ m * 2)
  else if empty <? deleted_ m then Rehash m (capacity_ m)
  else Ok m.

(** [AllocatePort]: the port and the state of [prng_]; [draws] bounds the numbers drawn. *)
Fixpoint AllocatePort (draws : nat) (m : PortMap) (prng : Z) : M (Z * Z) :=
  match draws with
  | O => Err PNoReturn
  | S draws =>
      let '(number, prng) := Random.NextUInt32 prng in
      let result := number .& 0x3fffffff in
      if result =? 0 then AllocatePort draws m prng
      else
        found ← FindPort m result;
        match found with
        | Some _ => AllocatePort draws m prng
        | None => Ok (result, prng)
        end
  end.

(** The handlers' part in the virtual calls. *)
Class HandlerKind := { OwnedByPortMap : Z -> bool; IsCurrentIsolate : Z -> bool; isolate : Z -> Z }.

Section port_map.
Context {HC : HandlerClient} {HK : HandlerKind}.

Record World := mkWorld {
  heap : Heap;
  handlers : gmap Z MessageHandler.MessageHandler;
  env : client;
  pm : PortMap;
  prng_ : Z
}.

Definition set_heap (w : World) (h : Heap) : World := mkWorld h (handlers w) (env w) (pm w) (prng_ w).
Definition set_handlers (w : World) (hs : gmap Z MessageHandler.MessageHandler) : World :=
  mkWorld (heap w) hs (env w) (pm w) (prng_ w).
Definition set_pm (w : World) (m : PortMap) : World := mkWorld (heap w) (handlers w) (env w) m (prng_ w).
Definition set_prng (w : World) (s : Z) : World := mkWorld (heap w) (handlers w) (env w) (pm w) s.

Definition handler_at (w : World) (h : Z) : M MessageHandler.MessageHandler :=
  match handlers w !! h with Some x => Ok x | None => Err PUndefined end.

(** A method of [MessageHandler] on the handler [h]. *)
Definition on_handler (w : World) (h : Z)
    (f : MessageHandler.State -> result Message.msg_error MessageHandler.State) : M World :=
  x ← handler_at w h;
  st ← lift (f (mkState (heap w) x (env w) []));
  Ok (set_handlers (set_heap w (MessageHandler.heap st)) (<[h := MessageHandler.hd st]> (handlers w))).

Definition increment_live_ports (w : World) (h : Z) : M World :=
  on_handler w h (fun st => Ok (MessageHandler.increment_live_ports st)).
Definition decrement_live_ports (w : World) (h : Z) : M World :=
  on_handler w h (fun st => Ok (MessageHandler.decrement_live_ports st)).

Definition SetPortState (w : World) (port_ : Z) (state_ : PortState) : M World :=
  found ← FindPort (pm w) port_;
  match found with
  | None => Err PAssertFailed
  | Some index =>
      e ← entry_at (pm w) (Z.of_nat index);
      assert_ (bool_decide (state e = kNewPort));;
      let w := set_pm w (set_entry (pm w) index (mkEntry (port e) (handler e) state_)) in
      if bool_decide (state_ = kLivePort) then increment_live_ports w (handler e) else Ok w
  end.

Definition CreatePort (draws : nat) (w : World) (handler_ : Z) : M (Z * World) :=
  assert_ (negb (handler_ =? 0));;
  a ← AllocatePort draws (pm w) (prng_ w);
  let '(port_, prng) := (a : Z * Z) in
  let w := set_prng w prng in
  let m := pm w in
  found ← FindPort m port_;
  assert_ (match found with None => true | Some _ => false end);;
  index ← find_unused (map_ m) (slots m) (Z.to_nat (Z.rem port_ (capacity_ m)));
  cur ← entry_at m (Z.of_nat index);
  assert_ (port cur =? 0);;
  assert_ ((handler cur =? 0) || (handler cur =? deleted_entry_));;
  let deleted := if handler cur =? deleted_entry_ then deleted_ m - 1 else deleted_ m in
  let m := set_counts (set_entry m index (mkEntry port_ handler_ kNewPort)) (used_ m + 1) deleted in
  m ← MaintainInvariants m;
  Ok (port_, set_pm w m).

(** [PostMessage]; the message is deleted when there is no such port. *)
Definition PostMessage (w : World) (message : Z) : M (bool * World) :=
  msg ← lift (Message.deref (heap w) message);
  found ← FindPort (pm w) (dest_port_ msg);
  match found with
  | None => h ← lift (Message.delete_message (heap w) message); Ok (false, set_heap w h)
  | Some index =>
      assert_ (Z.of_nat index <? capacity_ (pm w));;
      e ← entry_at (pm w) (Z.of_nat index);
      assert_ (negb (port e =? 0));;
      assert_ (negb (handler e =? 0) && negb (handler e =? deleted_entry_));;
      w ← on_handler w (handler e) (fun st => MessageHandler.PostMessage st message false);
      Ok (true, w)
  end.

Definition post_for_clear (w : World) (message : Z) : result Message.msg_error (bool * World) :=
  match PostMessage w message with
  | Ok r => Ok r
  | Err (PMessage e) => Err e
  | Err _ => Err Message.MUndefined
  end.

(** [MessageHandler::CloseAllPorts]. *)
Definition CloseAllPorts (w : World) (h : Z) : M World :=
  x ← handler_at w h;
  r ← lift (Message.Clear heap set_heap post_for_clear w (MessageHandler.queue_ x));
  let '(w, q) := (r : World * MessageQueue) in
  x ← handler_at w h;
  let w := set_handlers w (<[h := MessageHandler.set_queue q x]> (handlers w)) in
  r ← lift (Message.Clear heap set_heap post_for_clear w (MessageHandler.oob_queue_ x));
  let '(w, q) := (r : World * MessageQueue) in
  x ← handler_at w h;
  Ok (set_handlers w (<[h := MessageHandler.set_oob_queue q x]> (handlers w))).

(** [delete handler]: the destructors of the queues clear them. *)
Definition delete_handler (w : World) (h : Z) : M World :=
  w ← CloseAllPorts w h; Ok (set_handlers w (delete h (handlers w))).

Definition ClosePort (w : World) (port_ : Z) : M (bool * World) :=
  found ← FindPort (pm w) port_;
  match found with
  | None => Ok (false, w)
  | Some index =>
      assert_ (Z.of_nat index <? capacity_ (pm w));;
      e ← entry_at (pm w) (Z.of_nat index);
      assert_ (negb (port e =? 0));;
      assert_ (negb (handler e =? deleted_entry_));;
      assert_ (negb (handler e =? 0));;
      let m := pm w in
      let w := set_pm w (set_entry m index (mkEntry 0 deleted_entry_ (state e))) in
      w ← (if bool_decide (state e = kLivePort) then decrement_live_ports w (handler e) else Ok w);
      m ← MaintainInvariants (set_counts (pm w) (used_ m - 1) (deleted_ m + 1));
      let w := set_pm w m in
      x ← handler_at w (handler e);
      w ← (if negb (MessageHandler.HasLivePorts x) && OwnedByPortMap (handler e) then delete_handler w (handler e) else Ok w);
      Ok (true, w)
  end.

(** The loop of [ClosePorts]: the entries after it, and how many were closed and
    how many of those were live. *)
Fixpoint ClosePorts_loop (entries : list Entry) (handler_ : Z) : list Entry * Z * Z :=
  match entries with
  | [] => ([], 0, 0)
  | e :: entries =>
      let '(entries, closed, live) := ClosePorts_loop entries handler_ in
      if handler e =? handler_ then
        (mkEntry 0 deleted_entry_ (state e) :: entries, closed + 1, if bool_decide (state e = kLivePort) then live + 1 else live)
      else (e :: entries, closed, live)
  end.

Fixpoint decrement_times (n : nat) (w : World) (h : Z) : M World :=
  match n with O => Ok w | S n => w ← decrement_live_ports w h; decrement_times n w h end.

Definition ClosePorts (w : World) (handler_ : Z) : M World :=
  let m := pm w in
  let '(entries, closed, live) := ClosePorts_loop (map_ m) handler_ in
  w ← decrement_times (Z.to_nat live) w handler_;
  m ← MaintainInvariants (set_counts (set_map m entries) (used_ m - closed) (deleted_ m + closed));
  CloseAllPorts (set_pm w m) handler_.

Definition IsLocalPort (w : World) (id : Z) : M bool :=
  found ← FindPort (pm w) id;
  match found with
  | None => Ok false
  | Some index => e ← entry_at (pm w) (Z.of_nat index); Ok (IsCurrentIsolate (handler e))
  end.

Definition GetIsolate (w : World) (id : Z) : M Z :=
  found ← FindPort (pm w) id;
  match found with
  | None => Ok 0
  | Some index => e ← entry_at (pm w) (Z.of_nat index); Ok (isolate (handler e))
  end.

End port_map.

(** ** The table *)

Definition in_use (e : Entry) : Prop := port e <> 0.
Definition tombstone (e : Entry) : Prop := port e = 0 /\ handler e <> 0.
#[export] Instance in_use_dec e : Decision (in_use e).
Proof. unfold in_use. apply _. Defined.
#[export] Instance tombstone_dec e : Decision (tombstone e).
Proof. unfold tombstone. apply _. Defined.

(** The open ports. *)
Definition ports (l : list Entry) : list Entry := filter in_use l.

Definition entry_ok (e : Entry) : Prop :=
  (port e = 0 -> handler e = 0 \/ handler e = deleted_entry_) /\
  (port e <> 0 -> 0 < port e < 2 ^ 30 /\ handler e <> 0 /\ handler e <> deleted_entry_).

Definition occupied (l : list Entry) (j : nat) : Prop := exists e, l !! j = Some e /\ handler e <> 0.

Definition start (cap : nat) (p : Z) : nat := Z.to_nat (p mod Z.of_nat cap).

(** A table of [cap] slots in which every open port is found. *)
Record table (cap : nat) (l : list Entry) : Prop := {
  tbl_length : length l = cap;
  tbl_entries : Forall entry_ok l;
  tbl_distinct : NoDup (port <$> ports l);
  tbl_reach : forall i e, l !! i = Some e -> in_use e -> path cap (occupied l) (start cap (port e)) i
}.

Lemma start_lt cap p : (0 < cap)%nat -> (start cap p < cap)%nat.
Proof. intros Hc. unfold start. pose proof (Z.mod_pos_bound p (Z.of_nat cap)). lia. Qed.

Lemma start_rem cap p : (0 < cap)%nat -> 0 <= p -> Z.to_nat (Z.rem p (Z.of_nat cap)) = start cap p.
Proof. intros Hc Hp. unfold start. by rewrite Z.rem_mod_nonneg by lia. Qed.

Lemma filter_insert_perm (P : Entry -> Prop) `{!forall e, Decision (P e)} l i a b :
  l !! i = Some a ->
  filter P (<[i := b]> l) ++ filter P [a] ≡ₚ filter P [b] ++ filter P l.
Proof.
  intros Hi. rewrite <- (take_drop_middle l i a Hi) at 2.
  rewrite insert_take_drop by (by eapply lookup_lt_Some). rewrite !filter_app, !(filter_cons P _ (drop (S i) l)), !filter_cons, !filter_nil.
  repeat case_decide; solve_Permutation.
Qed.

Lemma elem_of_ports l e : e ∈ ports l <-> e ∈ l /\ in_use e.
Proof. unfold ports. rewrite list_elem_of_filter. tauto. Qed.

Lemma occupied_insert l i a b j :
  l !! i = Some a -> handler b <> 0 -> occupied l j -> occupied (<[i := b]> l) j.
Proof.
  intros Hi Hb (e & He & Hh). destruct (decide (j = i)) as [->|Hne].
  - exists b. rewrite list_lookup_insert_eq; [done|]. by eapply lookup_lt_Some.
  - exists e. by rewrite list_lookup_insert_ne.
Qed.

(** Opening a port in an unused slot that its search reaches. *)
Lemma table_insert cap l i a e :
  table cap l -> l !! i = Some a -> port a = 0 -> entry_ok e -> in_use e -> port e ∉ port <$> ports l ->
  path cap (occupied l) (start cap (port e)) i ->
  table cap (<[i := e]> l) /\ ports (<[i := e]> l) ≡ₚ e :: ports l.
Proof.
  intros [Hlen Hok Hd Hr] Hi Ha He Hu Hnew Hpath.
  assert (ports (<[i := e]> l) ≡ₚ e :: ports l) as Hp.
  { unfold ports. pose proof (filter_insert_perm in_use l i a e Hi) as H.
    rewrite (filter_cons_False in_use a), (filter_cons_True in_use e) in H by (done || (unfold in_use; tauto)).
    rewrite filter_nil, app_nil_r in H. done. }
  assert (handler e <> 0) as Hh by (by apply He).
  split; [|done]. split.
  - by rewrite length_insert.
  - by apply Forall_insert.
  - rewrite Hp. cbn. by apply NoDup_cons.
  - intros j b Hj Hb. assert (forall x, (x < cap)%nat -> occupied l x -> occupied (<[i := e]> l) x) as Hm by (intros; by eapply occupied_insert).
    apply list_lookup_insert_Some in Hj as [(<- & <- & _)|[Hne Hj]].
    + by eapply path_mono.
    + eapply path_mono; [done|]. by apply Hr.
Qed.

(** Closing a port leaves a deleted entry. *)
Lemma table_close cap l i e s :
  table cap l -> l !! i = Some e -> in_use e ->
  table cap (<[i := mkEntry 0 deleted_entry_ s]> l) /\ ports l ≡ₚ e :: ports (<[i := mkEntry 0 deleted_entry_ s]> l).
Proof.
  intros [Hlen Hok Hd Hr] Hi Hu. set (x := mkEntry 0 deleted_entry_ s).
  assert (ports l ≡ₚ e :: ports (<[i := x]> l)) as Hp.
  { unfold ports. pose proof (filter_insert_perm in_use l i e x Hi) as H.
    rewrite (filter_cons_False in_use x), (filter_cons_True in_use e) in H by (done || (unfold in_use; cbn; tauto)).
    rewrite !filter_nil in H. cbn [app] in H. rewrite <- H. solve_Permutation. }
  split; [|done]. split.
  - by rewrite length_insert.
  - apply Forall_insert; [done|]. split; [right|]; done.
  - rewrite Hp in Hd. cbn in Hd. by apply NoDup_cons in Hd as [_ ?].
  - intros j b Hj Hb. apply list_lookup_insert_Some in Hj as [(<- & <- & _)|[Hne Hj]]; [by destruct Hb|].
    eapply path_mono; [intros; by eapply occupied_insert|]. by apply Hr.
Qed.

(** Two entries with one port are one entry. *)
Lemma NoDup_filter_lookup (l : list Entry) i j a b :
  NoDup (port <$> ports l) -> l !! i = Some a -> l !! j = Some b -> in_use a -> port a = port b -> i = j.
Proof.
  revert i j. induction l as [|x l IH]; intros i j Hd Hi Hj Ha Hab; [done|]. unfold ports in Hd. rewrite filter_cons in Hd.
  assert (in_use b) as Hb by (unfold in_use in *; congruence).
  assert (forall y n, l !! n = Some y -> in_use y -> port y ∈ port <$> filter in_use l) as Hin.
  { intros y n Hn Hy. apply list_elem_of_fmap. exists y. split; [done|]. apply list_elem_of_filter. split; [done|]. by eapply list_elem_of_lookup_2. }
  destruct i as [|i], j as [|j]; cbn in Hi, Hj; simplify_eq; [done| | |].
  - rewrite decide_True in Hd by done. cbn in Hd. apply NoDup_cons in Hd as [Hn _]. destruct Hn. rewrite Hab. by eapply Hin.
  - rewrite decide_True in Hd by done. cbn in Hd. apply NoDup_cons in Hd as [Hn _]. destruct Hn. rewrite <- Hab. by eapply Hin.
  - f_equal. apply IH; try done. case_decide; [|done]. cbn in Hd. by apply NoDup_cons in Hd as [_ ?].
Qed.

Lemma unused_slot cap l : table cap l -> (length (ports l) < cap)%nat -> exists i a, l !! i = Some a /\ port a = 0.
Proof.
  intros Ht. rewrite <- (tbl_length _ _ Ht). clear Ht. unfold ports. induction l as [|a l IH]; cbn [length]; [cbn; lia|].
  rewrite filter_cons. destruct (decide (in_use a)) as [Ha|Ha]; cbn [length]; intros Hc.
  - destruct IH as (i & e & ? & ?); [lia|]. by exists (S i), e.
  - exists 0%nat, a. split; [done|]. unfold in_use in Ha. destruct (decide (port a = 0)); [done|tauto].
Qed.

Lemma find_unused_ok cap l p :
  table cap l -> (length (ports l) < cap)%nat ->
  exists i a, find_unused l cap (start cap p) = Ok i /\ l !! i = Some a /\ port a = 0 /\ path cap (occupied l) (start cap p) i.
Proof.
  intros Ht Hroom. destruct (unused_slot cap l Ht Hroom) as (q & b & Hq & Hb).
  assert (q < cap)%nat as Hqc by (rewrite <- (tbl_length _ _ Ht); by eapply lookup_lt_Some).
  pose proof (start_lt cap p ltac:(lia)) as Hs. unfold find_unused.
  destruct (scan_finds (port_in_use l) (start cap p) q Hs Hqc) as (i & -> & Hi & Hgo & Hpath).
  { unfold port_in_use. rewrite Hq, Hb. done. }
  destruct (lookup_lt_is_Some_2 l i) as [a Ha]; [by rewrite (tbl_length _ _ Ht)|]. exists i, a. split_and!; try done.
  - unfold port_in_use in Hgo. rewrite Ha in Hgo. by destruct (Z.eqb_spec (port a) 0).
  - revert Hpath. apply path_mono. intros j Hj Hu. unfold port_in_use in Hu. destruct (l !! j) as [e|] eqn:He; [|done].
    exists e. split; [done|]. pose proof (tbl_entries _ _ Ht) as Hok. rewrite Forall_lookup in Hok.
    apply (Hok j e He). by destruct (Z.eqb_spec (port e) 0).
Qed.

(** A slot that stops every search. *)
Definition has_free (l : list Entry) : Prop := exists q e, l !! q = Some e /\ handler e = 0.

Lemma port_entry_at_ok m i e : map_ m !! i = Some e -> entry_at m (Z.of_nat i) = Ok e.
Proof.
  intros He. unfold entry_at. destruct (Z.ltb_spec (Z.of_nat i) 0) as [?|_]; [lia|]. by rewrite Nat2Z.id, He.
Qed.

Lemma FindPort_loop_ok m p s q : forall fuel i,
  let l := map_ m in
  length l = slots m -> (s < slots m)%nat -> (i < slots m)%nat -> (q < slots m)%nat ->
  (exists e, l !! q = Some e /\ handler e = 0) ->
  path (slots m) (fun j => exists e, l !! j = Some e /\ handler e <> 0 /\ port e <> p) s i ->
  (dist (slots m) s i <= dist (slots m) s q)%nat -> (dist (slots m) s q - dist (slots m) s i < fuel)%nat ->
  (exists k e, FindPort_loop fuel m p s i = Ok (Some k) /\ l !! k = Some e /\ port e = p) \/
  (exists k e, FindPort_loop fuel m p s i = Ok None /\ (k < slots m)%nat /\ l !! k = Some e /\ handler e = 0 /\
     path (slots m) (fun j => exists e, l !! j = Some e /\ handler e <> 0 /\ port e <> p) s k).
Proof.
  induction fuel as [|fuel IH]; intros i l Hlen Hs Hi Hq Hfree Hpath Hle Hfuel; [lia|].
  destruct (lookup_lt_is_Some_2 l i) as [e He]; [by rewrite Hlen|]. cbn [FindPort_loop].
  rewrite (port_entry_at_ok _ _ _ He). cbn [mbind result_bind].
  destruct (Z.eqb_spec (handler e) 0) as [Hh|Hh]; cbn [negb]; [right; by exists i, e|].
  destruct (Z.eqb_spec (port e) p) as [Hp|Hp]; [left; by exists i, e|].
  assert (i <> q) as Hiq by (destruct Hfree as (x & Hx & Hx0); congruence).
  assert (dist (slots m) s i < dist (slots m) s q)%nat as Hlt.
  { destruct (decide (dist (slots m) s i = dist (slots m) s q)) as [Heq|]; [|lia]. destruct Hiq. by apply (dist_inj (cap := slots m) s). }
  assert (next_slot (slots m) i <> s) as Hns by circle.
  pose proof (dist_next s i Hs Hi Hns) as Hdn. rewrite (proj2 (Nat.eqb_neq _ _) Hns). cbn [negb assert_ mbind result_bind].
  apply IH; try done; [by apply next_slot_lt| |lia|lia].
  intros j Hj Hd. rewrite Hdn in Hd. destruct (decide (j = i)) as [->|Hji]; [by exists e|].
  apply Hpath; [done|]. assert (dist (slots m) s j <> dist (slots m) s i) by (intros Heq; by apply Hji, (dist_inj (cap := slots m) s)). lia.
Qed.

Lemma FindPort_ok m p :
  table (slots m) (map_ m) -> 0 < capacity_ m -> has_free (map_ m) -> 0 < p ->
  (exists i e, FindPort m p = Ok (Some i) /\ map_ m !! i = Some e /\ port e = p) \/
  (FindPort m p = Ok None /\ p ∉ port <$> ports (map_ m)).
Proof.
  intros Ht Hc (q & fe & Hq & Hfe) Hp. unfold FindPort. unfold ILLEGAL_PORT. rewrite (proj2 (Z.eqb_neq p 0)) by lia.
  assert (capacity_ m = Z.of_nat (slots m)) as Hcap by (unfold slots; lia).
  pose proof (start_lt (slots m) p ltac:(lia)) as Hs. pose proof (tbl_length _ _ Ht) as Hlen.
  assert (q < slots m)%nat as Hqs by (rewrite <- Hlen; by eapply lookup_lt_Some).
  assert (Z.rem p (capacity_ m) = Z.of_nat (start (slots m) p)) as Hrem.
  { rewrite <- (start_rem (slots m) p) by lia. rewrite <- Hcap, Z2Nat.id; [done|]. apply Z.rem_nonneg; lia. }
  rewrite Hrem. destruct (lookup_lt_is_Some_2 (map_ m) (start (slots m) p)) as [e0 He0]; [by rewrite Hlen|].
  rewrite (port_entry_at_ok _ _ _ He0). cbn [mbind result_bind]. rewrite Nat2Z.id.
  pose proof (dist_lt (cap := slots m) _ _ Hs Hqs).
  destruct (FindPort_loop_ok m p (start (slots m) p) q (slots m) (start (slots m) p)) as [(k & e & Hf & Hk & He)|(k & e & Hf & Hks & Hk & He & Hpath)];
    try done; [by exists fe|intros j _; rewrite dist_0; lia|rewrite dist_0; lia|rewrite dist_0; lia|..].
  - left. by exists k, e.
  - right. split; [done|]. intros (x & Hx & Hxp)%list_elem_of_fmap. apply elem_of_ports in Hxp as [Hxl Hxu].
    apply list_elem_of_lookup in Hxl as [i Hi]. assert (i < slots m)%nat as Hil by (rewrite <- Hlen; by eapply lookup_lt_Some).
    pose proof (tbl_reach _ _ Ht i x Hi Hxu) as Hrx. rewrite <- Hx in Hrx.
    assert (k = i) as ->.
    { apply (path_meet _ _ (start (slots m) p) k i Hs Hks Hil Hpath Hrx).
      - intros (y & Hy & _ & Hyp). rewrite Hi in Hy. simplify_eq.
      - intros (y & Hy & Hyh). rewrite Hk in Hy. simplify_eq. }
    rewrite Hi in Hk. simplify_eq. pose proof (tbl_entries _ _ Ht) as Hok. rewrite Forall_lookup in Hok.
    destruct (Hok i e Hi) as [_ Hok2]. destruct (Hok2 Hxu) as (_ & Hn & _). done.
Qed.

Lemma FindPort_none_found m p i e :
  table (slots m) (map_ m) -> 0 < capacity_ m -> has_free (map_ m) -> map_ m !! i = Some e -> in_use e -> port e = p ->
  FindPort m p = Ok (Some i).
Proof.
  intros Ht Hc Hf Hi Hu Hp. pose proof (tbl_entries _ _ Ht) as Hok. rewrite Forall_lookup in Hok.
  destruct (Hok i e Hi) as [_ Hok2]. destruct (Hok2 Hu) as (Hrange & _).
  destruct (FindPort_ok m p Ht Hc Hf ltac:(lia)) as [(j & x & Hj & Hx & Hxp)|[_ Hn]].
  - rewrite Hj. f_equal. f_equal. symmetry. apply (NoDup_filter_lookup (map_ m) i j e x); [apply Ht|done..|congruence].
  - destruct Hn. apply list_elem_of_fmap. exists e. split; [done|]. apply elem_of_ports. split; [by eapply list_elem_of_lookup_2|done].
Qed.

End PortMap.
