(* ===== verification/PortMapProps.v ===== *)
(** * Correctness of vm/port.cc

    The counters and the capacity of the table ([map_ok], [balanced]), what
    [Rehash] and [MaintainInvariants] keep, and the invariant [world_ok] of the
    port map together with the message handlers and their queues: the
    operations preserve it, and messages arrive where they are sent. *)

From stdpp Require Import base numbers list sets gmap.
From Stdlib Require Import ZArith Lia.
From S2P Require Import Prelude Utils Probing Message MessageHandler PortMap.

Local Open Scope Z_scope.

Module PortMapProps.
Import Probing PortMap.
Import Message (Heap).
Import MessageHandler (HandlerClient).

(** ** Rehash *)

Definition no_tombstones (l : list Entry) : Prop := Forall (fun e => ~ tombstone e) l.

Lemma free_table cap : table cap (replicate cap free_entry) /\ ports (replicate cap free_entry) = [] /\ no_tombstones (replicate cap free_entry).
Proof.
  assert (ports (replicate cap free_entry) = []) as Hp.
  { unfold ports. induction cap as [|cap IH]; [done|]. cbn [replicate]. rewrite filter_cons_False; [done|]. by intros []. }
  split; [|split; [done|]].
  - split; [apply length_replicate| |by rewrite Hp; constructor|].
    + apply Forall_replicate. split; [by left|done].
    + intros i e [-> _]%lookup_replicate Hu. by destruct Hu.
  - apply Forall_replicate. intros [_ H]. done.
Qed.

Lemma Rehash_loop_ok cap : forall entries new,
  (0 < cap)%nat -> table cap new -> no_tombstones new -> Forall entry_ok entries ->
  NoDup (port <$> (ports entries ++ ports new)) -> (length (ports new) + length (ports entries) < cap)%nat ->
  exists new', Rehash_loop (Z.of_nat cap) entries new = Ok new' /\ table cap new' /\ no_tombstones new' /\
    ports new' ≡ₚ ports entries ++ ports new.
Proof.
  induction entries as [|e entries IH]; intros new Hc Ht Hno Hok Hd Hroom; cbn [Rehash_loop].
  { by exists new. }
  apply Forall_cons in Hok as [He Hok]. unfold ports in Hd, Hroom at 2. unfold ports at 2. rewrite filter_cons in *. fold (ports new) in *.
  destruct (decide (in_use e)) as [Hu|Hu].
  - rewrite (proj2 (Z.eqb_neq (port e) 0) Hu). cbn [negb]. rewrite Nat2Z.id. destruct He as [He0 He]. destruct (He Hu) as ((Hp0 & Hp1) & Hh & Hh').
    rewrite start_rem by lia. cbn [length] in Hroom.
    destruct (find_unused_ok cap new (port e) Ht ltac:(lia)) as (i & a & -> & Hi & Ha & Hpath). cbn [mbind result_bind].
    cbn [app fmap list_fmap] in Hd. apply NoDup_cons in Hd as [Hn Hd].
    destruct (table_insert cap new i a e Ht Hi Ha) as [Ht' Hp']; [by split|done| |done|].
    { intros Hin. apply Hn. rewrite fmap_app. apply elem_of_app. by right. }
    destruct (IH (<[i := e]> new)) as (new' & -> & Ht'' & Hno' & Hp''); [done|done| |done| | |].
    + apply Forall_insert; [done|]. intros [? _]. done.
    + rewrite fmap_app, Hp', <- fmap_app. cbn. rewrite <- Permutation_middle. cbn. by apply NoDup_cons.
    + rewrite Hp'. cbn [length]. unfold ports at 2. lia.
    + exists new'. split_and!; [done..|]. rewrite Hp'', Hp'. cbn. by rewrite <- Permutation_middle.
  - unfold in_use in Hu. destruct (Z.eqb_spec (port e) 0) as [_|?]; [|tauto]. cbn [negb mbind result_bind].
    apply IH; done.
Qed.

(** ** Counters *)

Record map_ok (m : PortMap) : Prop := {
  mo_capacity : exists k, 3 <= k <= 31 /\ capacity_ m = 2 ^ k;
  mo_table : table (slots m) (map_ m);
  mo_used : used_ m = Z.of_nat (length (ports (map_ m)));
  mo_deleted : deleted_ m = Z.of_nat (length (filter tombstone (map_ m)))
}.

(** What [MaintainInvariants] restores. *)
Definition balanced (m : PortMap) : Prop :=
  used_ m <= capacity_ m / 4 * 3 /\ deleted_ m <= capacity_ m - used_ m - deleted_ m.

Lemma slots_capacity m : map_ok m -> capacity_ m = Z.of_nat (slots m) /\ 8 <= capacity_ m <= 2 ^ 31 /\ capacity_ m mod 8 = 0.
Proof.
  intros Hm. destruct (mo_capacity m Hm) as (k & Hk & Hc). unfold slots. rewrite Hc.
  pose proof (Z.pow_le_mono_r 2 3 k ltac:(lia) ltac:(lia)). pose proof (Z.pow_le_mono_r 2 k 31 ltac:(lia) ltac:(lia)).
  split_and!; [lia|lia|lia|]. replace k with (k - 3 + 3) by lia. rewrite Z.pow_add_r by lia. change (2 ^ 3) with 8. apply Z.mod_mul. lia.
Qed.

Definition is_free (e : Entry) : Prop := port e = 0 /\ handler e = 0.
#[export] Instance is_free_dec e : Decision (is_free e).
Proof. unfold is_free. apply _. Defined.

Lemma count_slots l :
  (length l = length (ports l) + length (filter tombstone l) + length (filter is_free l))%nat.
Proof.
  unfold ports. induction l as [|e l IH]; [done|]. rewrite !filter_cons. unfold in_use, tombstone, is_free in *.
  repeat case_decide; cbn [length]; lia.
Qed.

Lemma balanced_free m : map_ok m -> balanced m -> has_free (map_ m).
Proof.
  intros Hm [Hu Hd]. destruct (slots_capacity m Hm) as (Hs & Hc & _).
  pose proof (count_slots (map_ m)) as Hcount. rewrite (tbl_length _ _ (mo_table m Hm)) in Hcount.
  pose proof (mo_used m Hm). pose proof (mo_deleted m Hm).
  destruct (filter is_free (map_ m)) as [|e l] eqn:El; [exfalso; cbn in Hcount; divlia|].
  assert (e ∈ filter is_free (map_ m)) as Hin by (rewrite El; left).
  apply list_elem_of_filter in Hin as [[_ Hh] [q Hq]%list_elem_of_lookup]. by exists q, e.
Qed.

(** Port numbers have 30 bits. *)
Lemma used_bound m : map_ok m -> used_ m < 2 ^ 30.
Proof.
  intros Hm. rewrite (mo_used m Hm). set (l := port <$> ports (map_ m)).
  assert (length (ports (map_ m)) = length l) as -> by (unfold l; by rewrite length_fmap).
  assert (length l <= length (seqZ 1 (2 ^ 30 - 1)))%nat as Hle.
  { apply NoDup_incl_length; [apply NoDup_ListNoDup, (mo_table m Hm)|].
    intros p Hp. apply list_elem_of_In in Hp. apply list_elem_of_In, elem_of_seqZ. unfold l in Hp.
    apply list_elem_of_fmap in Hp as (e & -> & [He Hu]%elem_of_ports). pose proof (tbl_entries _ _ (mo_table m Hm)) as Hok.
    rewrite Forall_forall in Hok. destruct (Hok e He) as [_ H]. destruct (H Hu) as [? _]. lia. }
  rewrite length_seqZ in Hle. lia.
Qed.

Lemma Rehash_ok m k :
  map_ok m -> 3 <= k <= 31 -> used_ m < 2 ^ k ->
  exists m', Rehash m (2 ^ k) = Ok m' /\ map_ok m' /\ capacity_ m' = 2 ^ k /\ used_ m' = used_ m /\ deleted_ m' = 0 /\
    ports (map_ m') ≡ₚ ports (map_ m).
Proof.
  intros Hm Hk Hroom. unfold Rehash. pose proof (pow2_pos k ltac:(lia)). set (cap := Z.to_nat (2 ^ k)).
  destruct (free_table cap) as (Ht & Hp & Hno). pose proof (mo_used m Hm) as Hu. pose proof (mo_table m Hm) as Htab.
  destruct (Rehash_loop_ok cap (map_ m) (replicate cap free_entry)) as (new & Hr & Ht' & Hno' & Hp'); [unfold cap; lia|done|done|apply Htab| | |].
  - rewrite Hp, app_nil_r. apply Htab.
  - rewrite Hp. unfold cap. cbn. lia.
  - replace (Z.of_nat cap) with (2 ^ k) in Hr by (unfold cap; lia). rewrite Hr. cbn [mbind result_bind]. eexists. split; [done|]. rewrite Hp, app_nil_r in Hp'.
    split_and!; [|done..]. split; cbn [capacity_ map_ used_ deleted_ slots].
    + eauto.
    + done.
    + by rewrite Hp'.
    + assert (filter tombstone new = []) as ->; [|done].
      clear -Hno'. induction Hno' as [|e l He Hl IH]; [done|]. by rewrite filter_cons_False.
Qed.

Lemma MaintainInvariants_ok m :
  map_ok m -> used_ m <= capacity_ m ->
  exists m', MaintainInvariants m = Ok m' /\ map_ok m' /\ balanced m' /\ ports (map_ m') ≡ₚ ports (map_ m).
Proof.
  intros Hm Hu. unfold MaintainInvariants, balanced. pose proof (used_bound m Hm) as Hb. destruct (slots_capacity m Hm) as (Hs & Hc & Hmod).
  destruct (mo_capacity m Hm) as (k & Hk & Hck). assert (0 <= used_ m) by (rewrite (mo_used m Hm); lia).
  assert (0 <= deleted_ m) by (rewrite (mo_deleted m Hm); lia).
  destruct (Z.gtb_spec (used_ m) (capacity_ m / 4 * 3)) as [Hbig|Hsmall].
  - assert (k < 31) as Hk31.
    { destruct (Z.lt_ge_cases k 31); [done|]. replace k with 31 in Hck by lia. rewrite Hck in Hbig. change (2 ^ 31 / 4 * 3) with 1610612736 in Hbig. lia. }
    assert (capacity_ m * 2 = 2 ^ (k + 1)) as -> by (rewrite Hck, Z.pow_add_r by lia; done).
    destruct (Rehash_ok m (k + 1)) as (m' & -> & Hm' & Hc' & Hu' & Hd' & Hp'); [done|lia|rewrite Z.pow_add_r by lia; lia|].
    exists m'. split_and!; [done..| | |done]; rewrite ?Hc', ?Hu', ?Hd', Z.pow_add_r, <- Hck by lia; divlia.
  - destruct (Z.ltb_spec (capacity_ m - used_ m - deleted_ m) (deleted_ m)) as [Hempty|Henough].
    + rewrite Hck. destruct (Rehash_ok m k) as (m' & -> & Hm' & Hc' & Hu' & Hd' & Hp'); [done|lia|divlia|].
      exists m'. rewrite Hc', Hu', Hd', <- Hck. split_and!; [done..|lia|lia|done].
    + exists m. split_and!; [done..|lia|done].
Qed.

(** ** Changes of one entry *)

(** The state of a port does not matter to the search. *)
Lemma table_set_state cap l i e s :
  table cap l -> l !! i = Some e -> in_use e ->
  let e' := mkEntry (port e) (handler e) s in
  table cap (<[i := e']> l) /\ exists rest, ports l ≡ₚ e :: rest /\ ports (<[i := e']> l) ≡ₚ e' :: rest.
Proof.
  intros Ht Hi Hu e'. destruct (table_close cap l i e s Ht Hi Hu) as [_ Hclose].
  set (rest := ports (<[i := mkEntry 0 deleted_entry_ s]> l)) in *.
  assert (ports (<[i := e']> l) ≡ₚ e' :: rest) as Hp.
  { unfold rest. rewrite <- (list_insert_insert_eq l i e' (mkEntry 0 deleted_entry_ s)).
    pose proof (filter_insert_perm in_use (<[i := mkEntry 0 deleted_entry_ s]> l) i (mkEntry 0 deleted_entry_ s) e') as H.
    rewrite list_lookup_insert_eq in H by (by eapply lookup_lt_Some). specialize (H eq_refl).
    rewrite (filter_cons_False in_use), (filter_cons_True in_use) in H by (done || (unfold in_use; cbn; tauto)).
    by rewrite filter_nil, app_nil_r in H. }
  split; [|eauto]. destruct Ht as [Hlen Hok Hd Hr]. split.
  - by rewrite length_insert.
  - apply Forall_insert; [done|]. rewrite Forall_lookup in Hok. by apply (Hok i e).
  - rewrite Hp. rewrite Hclose in Hd. done.
  - rewrite Forall_lookup in Hok. assert (handler e' <> 0) as Hh by (by apply (Hok i e Hi)).
    assert (forall x, (x < cap)%nat -> occupied l x -> occupied (<[i := e']> l) x) as Hm by (intros; by eapply occupied_insert).
    intros j b Hj Hb. apply list_lookup_insert_Some in Hj as [(<- & <- & _)|[Hne Hj]].
    + eapply path_mono; [done|]. by apply (Hr i e).
    + eapply path_mono; [done|]. by apply Hr.
Qed.

Lemma tombstones_insert l i a b :
  l !! i = Some a ->
  (length (filter tombstone (<[i := b]> l)) + (if decide (tombstone a) then 1 else 0) =
   length (filter tombstone l) + (if decide (tombstone b) then 1 else 0))%nat.
Proof.
  intros Hi. pose proof (Permutation_length (filter_insert_perm tombstone l i a b Hi)) as H.
  rewrite !length_app, !filter_cons, !filter_nil in H. repeat case_decide; cbn [length] in *; lia.
Qed.

(** ** The world *)

Definition live (h : Z) (e : Entry) : Prop := handler e = h /\ state e = kLivePort.
#[export] Instance live_dec h e : Decision (live h e).
Proof. unfold live. apply _. Defined.

Definition live_count (h : Z) (ps : list Entry) : Z := Z.of_nat (length (filter (live h) ps)).

#[export] Instance live_count_perm h : Proper (Permutation ==> eq) (live_count h).
Proof. intros x y H. unfold live_count. by rewrite H. Qed.

Lemma live_count_cons h e ps : live_count h (e :: ps) = live_count h ps + (if decide (live h e) then 1 else 0).
Proof. unfold live_count. rewrite filter_cons. case_decide; cbn [length]; lia. Qed.

Section world.
Context {HC : HandlerClient} {HK : HandlerKind}.

(** The queues of all handlers: [q h] are the messages of the handler [h]. *)
Record mail (hp : Heap) (hs : gmap Z MessageHandler.MessageHandler) (q : Z -> list Z * list Z) : Prop := {
  mail_linked : forall h x, hs !! h = Some x -> exists ns os, MessageHandler.linked hp x (q h).1 (q h).2 ns os;
  mail_apart : forall h h' a, is_Some (hs !! h) -> is_Some (hs !! h') -> h <> h' ->
    a ∈ (q h).1 ++ (q h).2 -> a ∉ (q h').1 ++ (q h').2;
  mail_final : forall a m, hp !! a = Some m -> Message.delivery_failure_port_ m = Message.kIllegalPort
}.

(** Every open port has a handler, which knows how many of its ports are live; a
    handler that the port map owns has one port. *)
Record ports_ok (ps : list Entry) (hs : gmap Z MessageHandler.MessageHandler) : Prop := {
  po_handler : forall e, e ∈ ps -> is_Some (hs !! handler e);
  po_keys : hs !! 0 = None /\ hs !! deleted_entry_ = None;
  po_live : forall h x, hs !! h = Some x -> MessageHandler.live_ports_ x = live_count h ps;
  po_owned : forall e e', e ∈ ps -> e' ∈ ps -> handler e = handler e' -> OwnedByPortMap (handler e) = true -> e = e'
}.

Record world_ok (w : World) (q : Z -> list Z * list Z) : Prop := {
  wo_map : map_ok (pm w);
  wo_balanced : balanced (pm w);
  wo_ports : ports_ok (ports (map_ (pm w))) (handlers w);
  wo_mail : mail (heap w) (handlers w) q
}.

(** Handlers with the same queues have the same mail. *)
Lemma mail_same_queues hp hs q h x y :
  hs !! h = Some x -> MessageHandler.queue_ y = MessageHandler.queue_ x -> MessageHandler.oob_queue_ y = MessageHandler.oob_queue_ x ->
  mail hp hs q -> mail hp (<[h := y]> hs) q.
Proof.
  intros Hx Hq Ho [Hl Ha Hf]. assert (forall k, is_Some ((<[h := y]> hs : gmap Z _) !! k) -> is_Some (hs !! k)) as Hs.
  { intros k. destruct (decide (k = h)) as [->|Hne]; [by rewrite Hx|by rewrite lookup_insert_ne]. }
  split; [|intros k k' a ? ?; apply Ha; auto|done].
  intros k z Hz. destruct (decide (k = h)) as [->|Hne].
  - rewrite lookup_insert_eq in Hz. simplify_eq. destruct (Hl h x Hx) as (ns & os & [H1 H2 H3 H4 H5]). exists ns, os.
    split; rewrite ?Hq, ?Ho; done.
  - rewrite lookup_insert_ne in Hz by done. by apply Hl.
Qed.

(** The world after a change of the live ports of one handler. *)
Definition with_live (w : World) (h : Z) (d : Z) (x : MessageHandler.MessageHandler) : World :=
  set_handlers w (<[h := MessageHandler.set_live_ports (MessageHandler.live_ports_ x + d) x]> (handlers w)).

Lemma increment_ok w h x : handlers w !! h = Some x -> increment_live_ports w h = Ok (with_live w h 1 x).
Proof.
  intros Hx. unfold increment_live_ports, on_handler, handler_at. rewrite Hx. cbn. unfold with_live. by destruct w.
Qed.

Lemma decrement_ok w h x : handlers w !! h = Some x -> decrement_live_ports w h = Ok (with_live w h (-1) x).
Proof.
  intros Hx. unfold decrement_live_ports, on_handler, handler_at. rewrite Hx. cbn. unfold with_live. by destruct w.
Qed.

(** Replacing the open ports [ps] by [ps'], of the same handlers, and adjusting one
    counter. *)
Lemma ports_ok_adjust ps ps' hs h x d :
  ports_ok ps hs -> hs !! h = Some x ->
  (forall e, e ∈ ps' -> is_Some (hs !! handler e)) ->
  (forall k, live_count k ps' = live_count k ps + (if decide (k = h) then d else 0)) ->
  (forall e e', e ∈ ps' -> e' ∈ ps' -> handler e = handler e' -> OwnedByPortMap (handler e) = true -> e = e') ->
  ports_ok ps' (<[h := MessageHandler.set_live_ports (MessageHandler.live_ports_ x + d) x]> hs).
Proof.
  intros [Hh [Hk0 Hk1] Hl Ho] Hx Hps Hcount Howned. split.
  - intros e He. destruct (decide (handler e = h)) as [->|Hne]; [rewrite lookup_insert_eq; eauto|].
    rewrite lookup_insert_ne by done. by apply Hps.
  - split; rewrite lookup_insert_ne; try done; intros ->; congruence.
  - intros k y Hy. rewrite Hcount. destruct (decide (k = h)) as [->|Hne].
    + rewrite lookup_insert_eq in Hy. simplify_eq. cbn. by rewrite (Hl h x Hx).
    + rewrite lookup_insert_ne in Hy by done. rewrite Z.add_0_r. by apply Hl.
  - done.
Qed.

Lemma ports_ok_perm ps ps' hs : ps ≡ₚ ps' -> ports_ok ps hs -> ports_ok ps' hs.
Proof.
  intros Hp [H1 H2 H3 H4]. split; [intros e; rewrite <- Hp; apply H1|done| |intros e e'; rewrite <- Hp; apply H4].
  intros h x Hx. rewrite <- Hp. by apply H3.
Qed.

(** ** SetPortState *)

Lemma find_open w q e :
  world_ok w q -> e ∈ ports (map_ (pm w)) ->
  exists i, FindPort (pm w) (port e) = Ok (Some i) /\ map_ (pm w) !! i = Some e /\ in_use e /\
    Z.of_nat i < capacity_ (pm w) /\ handler e <> 0 /\ handler e <> deleted_entry_.
Proof.
  intros [Hm Hb _ _] [He Hu]%elem_of_ports. apply list_elem_of_lookup in He as [i Hi]. destruct (slots_capacity _ Hm) as (Hs & Hc & _).
  pose proof (mo_table _ Hm) as Ht. exists i. split_and!; [|done|done| |..].
  - apply (FindPort_none_found (pm w) (port e) i e); [done|lia|by apply balanced_free|done..].
  - rewrite Hs, <- (tbl_length _ _ Ht). apply lookup_lt_Some in Hi. lia.
  - pose proof (tbl_entries _ _ Ht) as Hok. rewrite Forall_lookup in Hok. by apply (Hok i e).
  - pose proof (tbl_entries _ _ Ht) as Hok. rewrite Forall_lookup in Hok. by apply (Hok i e).
Qed.

Lemma find_closed w q p :
  world_ok w q -> 0 <= p -> p ∉ port <$> ports (map_ (pm w)) -> FindPort (pm w) p = Ok None.
Proof.
  intros [Hmap Hb _ _] H0 Hn. destruct (decide (p = 0)) as [Hz|Hnz]; [unfold FindPort; by rewrite Hz|].
  destruct (slots_capacity _ Hmap) as (_ & Hc & _).
  destruct (FindPort_ok (pm w) p (mo_table _ Hmap) ltac:(lia) (balanced_free _ Hmap Hb) ltac:(lia)) as [(i & e & _ & Hi & He)|[-> _]]; [|done].
  destruct Hn. apply list_elem_of_fmap. exists e. split; [done|]. apply elem_of_ports. split; [by eapply list_elem_of_lookup_2|]. unfold in_use. lia.
Qed.

Lemma SetPortState_ok w q e s :
  world_ok w q -> e ∈ ports (map_ (pm w)) -> state e = kNewPort ->
  exists w' rest, SetPortState w (port e) s = Ok w' /\ world_ok w' q /\ heap w' = heap w /\
    ports (map_ (pm w)) ≡ₚ e :: rest /\ ports (map_ (pm w')) ≡ₚ mkEntry (port e) (handler e) s :: rest.
Proof.
  intros Hw He Hs. pose proof Hw as [Hm Hb Hpo Hma]. destruct (find_open w q e Hw He) as (i & Hf & Hi & Hu & _).
  unfold SetPortState. rewrite Hf. cbn [mbind result_bind]. rewrite (port_entry_at_ok _ _ _ Hi). cbn [mbind result_bind].
  rewrite (bool_decide_true (state e = kNewPort)) by done. cbn [assert_ mbind result_bind].
  destruct (table_set_state _ _ i e s (mo_table _ Hm) Hi Hu) as (Ht & rest & Hp & Hp'). set (e' := mkEntry (port e) (handler e) s) in *.
  destruct (po_handler _ _ Hpo e He) as [x Hx].
  assert (map_ok (set_entry (pm w) i e')) as Hm'.
  { destruct Hm as [Hc _ Hused Hdel]. split; cbn [capacity_ map_ used_ deleted_ set_entry set_map slots]; try done.
    - rewrite Hused, Hp, Hp'. done.
    - pose proof (tombstones_insert (map_ (pm w)) i e e' Hi) as Ht'. rewrite !decide_False in Ht' by (intros [? _]; done). lia. }
  assert (forall k, live_count k (e' :: rest) = live_count k (ports (map_ (pm w))) + (if decide (k = handler e) then (if bool_decide (s = kLivePort) then 1 else 0) else 0)) as Hcount.
  { intros k. rewrite Hp, !live_count_cons. repeat first [case_decide|case_bool_decide]; unfold live, e' in *; cbn in *; first [lia|exfalso; naive_solver congruence]. }
  assert (forall a, a ∈ e' :: rest -> is_Some (handlers w !! handler a)) as Hhs.
  { intros a [->|Ha]%elem_of_cons; [by exists x|]. apply (po_handler _ _ Hpo). rewrite Hp. by right. }
  assert (forall a b, a ∈ e' :: rest -> b ∈ e' :: rest -> handler a = handler b -> OwnedByPortMap (handler a) = true -> a = b) as Howned.
  { intros a b Ha Hb' Hab Hown. pose proof (po_owned _ _ Hpo) as Ho. setoid_rewrite Hp in Ho.
    pose proof (tbl_distinct _ _ (mo_table _ Hm)) as Hd. rewrite Hp in Hd. cbn in Hd. apply NoDup_cons in Hd as [Hn _].
    assert (forall y, y ∈ rest -> handler y = handler e -> OwnedByPortMap (handler e) = true -> False) as Hno.
    { intros y Hy Hye Hown'. assert (e = y) as <- by (apply Ho; [left|by right|done|done]). apply Hn. apply list_elem_of_fmap. eauto. }
    apply elem_of_cons in Ha as [->|Ha]; apply elem_of_cons in Hb' as [->|Hb']; [done| | |].
    - destruct (Hno b); done.
    - destruct (Hno a); [done..|]. cbn in *. congruence.
    - apply Ho; [by right..|done|done]. }
  assert (ports_ok (e' :: rest) (<[handler e := MessageHandler.set_live_ports (MessageHandler.live_ports_ x + (if bool_decide (s = kLivePort) then 1 else 0)) x]> (handlers w))) as Hpo'
    by (by eapply ports_ok_adjust).
  case_bool_decide as Hlive.
  - rewrite (increment_ok _ _ x) by done. eexists _, rest. split; [done|]. split_and!; [|done|done|done]. split; cbn; [done..| |].
    + by eapply ports_ok_perm.
    + by eapply mail_same_queues.
  - eexists _, rest. split; [done|]. split_and!; [|done|done|done]. split; cbn; [done..| |done].
    eapply ports_ok_perm; [symmetry; done|]. rewrite insert_id in Hpo'; [done|].
    rewrite Hx. f_equal. rewrite Z.add_0_r. by destruct x.
Qed.

(** ** CreatePort *)

(** The numbers that [AllocatePort] tries. *)
Fixpoint drawn (n : nat) (prng : Z) : list Z :=
  match n with
  | O => []
  | S n => let '(number, prng) := Random.NextUInt32 prng in Z.land number 0x3fffffff :: drawn n prng
  end.

Lemma AllocatePort_ok m : forall draws prng,
  map_ok m -> balanced m ->
  match AllocatePort draws m prng with
  | Ok (p, _) => 0 < p < 2 ^ 30 /\ p ∉ port <$> ports (map_ m)
  | Err e => e = PNoReturn /\ Forall (fun p => p = 0 \/ p ∈ port <$> ports (map_ m)) (drawn draws prng)
  end.
Proof.
  induction draws as [|draws IH]; intros prng Hm Hb; cbn [AllocatePort drawn]; [by split|].
  destruct (Random.NextUInt32 prng) as [number prng'].
  assert (isU 30 (Z.land number 0x3fffffff)) as Hr.
  { change 0x3fffffff with (Z.ones 30). rewrite land_ones_wrapU by lia. apply wrapU_range. lia. }
  unfold isU in Hr. set (r := Z.land number 0x3fffffff) in *. specialize (IH prng' Hm Hb).
  destruct (Z.eqb_spec r 0) as [H0|H0].
  - destruct (AllocatePort draws m prng') as [[p s]|e]; [done|]. destruct IH as [-> IH]. split; [done|]. constructor; [by left|done].
  - destruct (slots_capacity m Hm) as (_ & Hc & _).
    destruct (FindPort_ok m r (mo_table m Hm) ltac:(lia) (balanced_free m Hm Hb) ltac:(lia)) as [(i & e & -> & Hi & He)|[-> Hn]]; cbn [mbind result_bind].
    + destruct (AllocatePort draws m prng') as [[p s]|e']; [done|]. destruct IH as [-> IH]. split; [done|]. constructor; [|done].
      right. apply list_elem_of_fmap. exists e. split; [done|]. apply elem_of_ports. split; [by eapply list_elem_of_lookup_2|]. unfold in_use. lia.
    + split; [lia|done].
Qed.

Lemma CreatePort_ok w q h draws :
  world_ok w q -> is_Some (handlers w !! h) -> (OwnedByPortMap h = true -> forall e, e ∈ ports (map_ (pm w)) -> handler e <> h) ->
  match CreatePort draws w h with
  | Ok (p, w') =>
      0 < p < 2 ^ 30 /\ (p ∉ port <$> ports (map_ (pm w))) /\ world_ok w' q /\ heap w' = heap w /\ handlers w' = handlers w /\
      ports (map_ (pm w')) ≡ₚ mkEntry p h kNewPort :: ports (map_ (pm w))
  | Err e => e = PNoReturn /\ Forall (fun p => p = 0 \/ p ∈ port <$> ports (map_ (pm w))) (drawn draws (prng_ w))
  end.
Proof.
  intros [Hm Hb Hpo Hma] [x Hx] Howned. unfold CreatePort. destruct (po_keys _ _ Hpo) as [Hk0 Hk1].
  assert (h <> 0) as Hh0 by congruence. assert (h <> deleted_entry_) as Hh1 by congruence.
  rewrite (proj2 (Z.eqb_neq h 0)) by done. cbn [negb assert_ mbind result_bind].
  pose proof (AllocatePort_ok (pm w) draws (prng_ w) Hm Hb) as Ha.
  destruct (AllocatePort draws (pm w) (prng_ w)) as [[p s]|e]; [|done]. destruct Ha as [Hp Hnew]. cbn [mbind result_bind].
  change (pm (set_prng w s)) with (pm w). destruct (slots_capacity _ Hm) as (Hs & Hc & _). pose proof (mo_table _ Hm) as Ht.
  destruct (FindPort_ok (pm w) p Ht ltac:(lia) (balanced_free _ Hm Hb) ltac:(lia)) as [(i & e & _ & Hi & He)|[-> _]].
  { destruct Hnew. apply list_elem_of_fmap. exists e. split; [done|]. apply elem_of_ports. split; [by eapply list_elem_of_lookup_2|]. unfold in_use. lia. }
  cbn [assert_ mbind result_bind]. replace (Z.to_nat (Z.rem p (capacity_ (pm w)))) with (start (slots (pm w)) p) by (rewrite Hs; symmetry; apply start_rem; lia).
  destruct Hb as [Hb1 Hb2]. pose proof (mo_used _ Hm) as Hused. pose proof (mo_deleted _ Hm) as Hdel.
  destruct (find_unused_ok (slots (pm w)) (map_ (pm w)) p Ht) as (i & a & -> & Hi & Hap & Hpath); [divlia|]. cbn [mbind result_bind].
  rewrite (port_entry_at_ok _ _ _ Hi). cbn [mbind result_bind]. rewrite Hap. cbn [Z.eqb assert_ mbind result_bind].
  assert (entry_ok a) as Hoka by (pose proof (tbl_entries _ _ Ht) as Hok; rewrite Forall_lookup in Hok; by apply (Hok i)).
  assert ((handler a =? 0) || (handler a =? deleted_entry_) = true) as ->.
  { destruct (proj1 Hoka Hap) as [-> | ->]; [done|]. by rewrite orb_true_r. }
  cbn [assert_ mbind result_bind]. set (e := mkEntry p h kNewPort).
  destruct (table_insert _ _ i a e Ht Hi Hap) as [Ht' Hp']; [split; [cbn; lia|done]|unfold in_use; cbn; lia|done|done|].
  set (m1 := set_counts _ _ _). assert (map_ok m1) as Hm1.
  { split; cbn [capacity_ map_ used_ deleted_ m1 set_counts set_entry set_map slots]; [apply Hm|done|rewrite Hp'; cbn [length]; lia|].
    pose proof (tombstones_insert (map_ (pm w)) i a e Hi) as Htomb. rewrite (decide_False (P := tombstone e)) in Htomb by (intros [? _]; cbn in *; lia).
    destruct (Z.eqb_spec (handler a) deleted_entry_) as [Hd|Hd].
    - rewrite decide_True in Htomb by (split; [done|by rewrite Hd]). lia.
    - rewrite decide_False in Htomb; [lia|]. intros [_ ?]. destruct (proj1 Hoka Hap); done. }
  destruct (MaintainInvariants_ok m1 Hm1) as (m2 & -> & Hm2 & Hb2' & Hp2); [cbn; divlia|]. cbn [mbind result_bind].
  cbn [map_ m1 set_counts set_entry set_map] in Hp2. rewrite Hp' in Hp2.
  split_and!; [lia|lia|done| |done|done|done]. split; cbn; [done..| |done].
  eapply ports_ok_perm; [symmetry; exact Hp2|]. split.
  - intros b [->|Hb]%elem_of_cons; [by exists x|]. by apply (po_handler _ _ Hpo).
  - done.
  - intros k y Hy. rewrite live_count_cons, decide_False by (intros [_ ?]; done). rewrite Z.add_0_r. by apply (po_live _ _ Hpo).
  - intros b c Hb Hc' Hbc Hown. apply elem_of_cons in Hb as [->|Hb]; apply elem_of_cons in Hc' as [->|Hc']; [done| | |].
    + cbn in Hbc, Hown. destruct (Howned Hown c Hc'). done.
    + cbn in Hbc. rewrite Hbc in Hown. destruct (Howned Hown b Hb). done.
    + by apply (po_owned _ _ Hpo).
Qed.

(** ** PostMessage *)

Lemma mail_no hp hs q h a : mail hp hs q -> is_Some (hs !! h) -> hp !! a = None -> a ∉ (q h).1 ++ (q h).2.
Proof.
  intros Hm [x Hx] Ha Hin. destruct (mail_linked _ _ _ Hm h x Hx) as (ns & os & Hl).
  apply elem_of_app in Hin as [Hin|Hin]; revert Hin; eapply MessageHandler.is_queue_no; try done; apply Hl.
Qed.

Definition unqueued (w : World) (q : Z -> list Z * list Z) (a : Z) : Prop :=
  forall h, is_Some (handlers w !! h) -> a ∉ (q h).1 ++ (q h).2.

Lemma mail_delete hp hs q a :
  mail hp hs q -> (forall h, is_Some (hs !! h) -> a ∉ (q h).1 ++ (q h).2) -> mail (delete a hp) hs q.
Proof.
  intros [Hl Hap Hf] Ha. split; [|done|].
  - intros h x Hx. destruct (Hl h x Hx) as (ns & os & Hlk). exists ns, os. specialize (Ha h ltac:(by exists x)).
    apply MessageHandler.linked_delete; [set_solver|set_solver|done].
  - intros b m Hb. apply lookup_delete_Some in Hb as [_ Hb]. by apply (Hf b).
Qed.

Definition q_set (q : Z -> list Z * list Z) (h : Z) (x : list Z * list Z) : Z -> list Z * list Z :=
  fun k => if k =? h then x else q k.

Lemma q_set_eq q h x : q_set q h x h = x.
Proof. unfold q_set. by rewrite Z.eqb_refl. Qed.
Lemma q_set_ne q h x k : k <> h -> q_set q h x k = q k.
Proof. intros. unfold q_set. by rewrite (proj2 (Z.eqb_neq k h)). Qed.

(** The mail after one handler's queues and the links of its messages have changed. *)
Lemma mail_change hp hp' hs q h x y n o ns os l :
  mail hp hs q -> hs !! h = Some x -> Message.only_links hp hp' l ->
  (forall a, a ∈ l -> a ∈ (q h).1 ++ (q h).2 \/ forall k, is_Some (hs !! k) -> a ∉ (q k).1 ++ (q k).2) ->
  (forall a, a ∈ n ++ o -> a ∈ l \/ a ∈ (q h).1 ++ (q h).2) ->
  MessageHandler.linked hp' y n o ns os -> mail hp' (<[h := y]> hs) (q_set q h (n, o)).
Proof.
  intros [Hl Hap Hf] Hx Hol Hin Hno Hlk.
  assert (forall k, k <> h -> is_Some (hs !! k) -> forall a, a ∈ l -> a ∉ (q k).1 ++ (q k).2) as Hother.
  { intros k Hne Hk a Ha. destruct (Hin a Ha) as [Hq|Hq]; [|by apply Hq]. apply (Hap h k a); [by exists x|done|congruence|done]. }
  split.
  - intros k z Hz. destruct (decide (k = h)) as [->|Hne].
    + rewrite lookup_insert_eq in Hz. simplify_eq. rewrite q_set_eq. by exists ns, os.
    + rewrite lookup_insert_ne in Hz by done. rewrite q_set_ne by done. destruct (Hl k z Hz) as (ns' & os' & [H1 H2 H3 H4 H5]).
      exists ns', os'. assert (forall a, a ∈ (q k).1 ++ (q k).2 -> a ∉ l) as Hnl.
      { intros a Ha Hal. by apply (Hother k Hne ltac:(by exists z) a Hal). }
      split; [| |done| |].
      * revert H1. apply Message.queue_frame. intros a Ha. eapply MessageHandler.only_links_next; [done|]. apply Hnl. set_solver.
      * revert H2. apply Message.queue_frame. intros a Ha. eapply MessageHandler.only_links_next; [done|]. apply Hnl. set_solver.
      * revert H4. apply MessageHandler.holds_mono. intros a _. by eapply MessageHandler.only_links_body.
      * revert H5. apply MessageHandler.holds_mono. intros a _. by eapply MessageHandler.only_links_body.
  - assert (forall k, is_Some ((<[h := y]> hs : gmap Z _) !! k) -> is_Some (hs !! k)) as Hs.
    { intros k. destruct (decide (k = h)) as [->|Hne]; [by rewrite Hx|by rewrite lookup_insert_ne]. }
    assert (forall k a, k <> h -> is_Some (hs !! k) -> a ∈ n ++ o -> a ∉ (q k).1 ++ (q k).2) as Hnew.
    { intros k a Hne Hk Ha. destruct (Hno a Ha) as [Ha'|Ha']; [by apply Hother|]. apply (Hap h k a); [by exists x|done|congruence|done]. }
    intros k k' a Hk%Hs Hk'%Hs Hne Ha. destruct (decide (k = h)) as [->|Hkh], (decide (k' = h)) as [->|Hkh']; [done| | |].
    + rewrite q_set_eq in Ha. rewrite q_set_ne by done. by apply Hnew.
    + rewrite q_set_eq. rewrite q_set_ne in Ha by done. intros Ha'. by apply (Hnew k a Hkh Hk Ha').
    + rewrite q_set_ne in * by done. by apply (Hap k k').
  - intros a m Ha. pose proof (MessageHandler.only_links_body _ _ _ a Hol) as Hb. rewrite Ha in Hb. destruct (hp !! a) as [m0|] eqn:E; [|done].
    cbn in Hb. injection Hb as Hb1. specialize (Hf a m0 E). destruct m, m0. cbn in *. by simplify_eq.
Qed.

(** What a message does to the queues of the handler it is posted to. *)
Definition delivered (hp : Heap) (q : list Z * list Z) (a : Z) (m : Message.Message) : list Z * list Z :=
  if Message.IsOOB m then (q.1, Message.enqueued hp q.2 a false) else (Message.enqueued hp q.1 a false, q.2).

Lemma PostMessage_open w q a m e :
  world_ok w q -> MessageHandler.pool_runs = true ->
  heap w !! a = Some m -> a <> 0 -> Message.next_ m = 0 -> unqueued w q a ->
  e ∈ ports (map_ (pm w)) -> port e = Message.dest_port_ m ->
  exists w', PostMessage w a = Ok (true, w') /\ pm w' = pm w /\
    world_ok w' (q_set q (handler e) (delivered (heap w) (q (handler e)) a m)).
Proof.
  intros Hw Hpool Hm Ha0 Hm0 Hunq He Hpe. pose proof Hw as [Hmap Hb Hpo Hma].
  destruct (find_open w q e Hw He) as (i & Hf & Hi & Hu & Hcap & Hh0 & Hh1). destruct (po_handler _ _ Hpo e He) as [x Hx].
  unfold PostMessage, lift. rewrite (Message.deref_ok _ _ _ Hm). cbn [mbind result_bind]. rewrite <- Hpe, Hf. cbn [mbind result_bind].
  rewrite (proj2 (Z.ltb_lt _ _) Hcap). cbn [assert_ mbind result_bind]. rewrite (port_entry_at_ok _ _ _ Hi). cbn [mbind result_bind].
  rewrite (proj2 (Z.eqb_neq (port e) 0) Hu), (proj2 (Z.eqb_neq (handler e) 0) Hh0), (proj2 (Z.eqb_neq _ _) Hh1). cbn [negb andb assert_ mbind result_bind].
  destruct (mail_linked _ _ _ Hma _ x Hx) as (ns & os & Hl). specialize (Hunq (handler e) ltac:(by exists x)) as Hunqe.
  destruct (MessageHandler.PostMessage_linked (MessageHandler.mkState (heap w) x (env w) []) (q (handler e)).1 (q (handler e)).2 ns os a m false)
    as (st & Hr & Hfl & _ & _ & Hol & Hl'); [done|done|set_solver|set_solver|done|by split|done|].
  unfold on_handler, handler_at, lift. rewrite Hx. cbn [mbind result_bind]. rewrite Hr. cbn [mbind result_bind].
  eexists. split; [done|]. split; [done|]. split; cbn; [done..| |].
  - destruct Hpo as [H1 [H2 H2'] H3 H4]. split; [| | |done].
    + intros b Hb'. destruct (decide (handler b = handler e)) as [->|Hne]; [rewrite lookup_insert_eq; eauto|]. rewrite lookup_insert_ne by done. auto.
    + split; rewrite lookup_insert_ne; done.
    + intros k y Hy. destruct (decide (k = handler e)) as [->|Hne].
      * rewrite lookup_insert_eq in Hy. simplify_eq. rewrite (MessageHandler.sf_live _ _ Hfl). unfold MessageHandler.woken.
        rewrite <- (H3 _ x Hx). by destruct (MessageHandler.pool_ _ && negb _).
      * rewrite lookup_insert_ne in Hy by done. by apply H3.
  - unfold delivered. destruct (Message.IsOOB m).
    all: eapply mail_change; [done|done|exact Hol| | |exact Hl'].
    all: cbn [MessageHandler.heap].
    1, 3: intros b [->|Hb']%elem_of_cons; [right; exact Hunq|left; set_solver].
    all: intros b [Hb'|Hb']%elem_of_app; try (apply MessageHandler.enqueued_in in Hb' as [->|?]); set_solver.
Qed.

Lemma FindPort_loop_port fuel m p s i j :
  FindPort_loop fuel m p s i = Ok (Some j) -> exists e, map_ m !! j = Some e /\ port e = p.
Proof.
  revert i. induction fuel as [|fuel IH]; intros i H; cbn [FindPort_loop] in H; [done|]. apply bind_ok in H as (e & He & H).
  destruct (negb (handler e =? 0)); [|done]. destruct (Z.eqb_spec (port e) p) as [Hp|_].
  - injection H as <-. exists e. split; [|done]. unfold entry_at in He. destruct (Z.of_nat i <? 0); [done|]. rewrite Nat2Z.id in He.
    destruct (map_ m !! i); by simplify_eq.
  - apply bind_ok in H as (? & _ & H). by eapply IH.
Qed.

(** A search that returns does not find what is not there, whatever the number. *)
Lemma find_none w q p r :
  world_ok w q -> p ∉ port <$> ports (map_ (pm w)) -> FindPort (pm w) p = Ok r -> r = None.
Proof.
  intros Hw Hn Hf. unfold FindPort in Hf. destruct (Z.eqb_spec p ILLEGAL_PORT) as [_|Hp]; [by simplify_eq|].
  apply bind_ok in Hf as (? & _ & Hf). destruct r as [j|]; [|done]. apply FindPort_loop_port in Hf as (e & He & <-).
  destruct Hn. apply list_elem_of_fmap. exists e. split; [done|]. apply elem_of_ports. split; [by eapply list_elem_of_lookup_2|done].
Qed.

(** A message nobody receives. *)
Lemma PostMessage_none w q a m :
  world_ok w q -> heap w !! a = Some m -> unqueued w q a -> FindPort (pm w) (Message.dest_port_ m) = Ok None ->
  PostMessage w a = Ok (false, set_heap w (delete a (heap w))) /\ world_ok (set_heap w (delete a (heap w))) q.
Proof.
  intros [Hmap Hb Hpo Hma] Hm Hunq Hf. unfold PostMessage, lift. rewrite (Message.deref_ok _ _ _ Hm). cbn [mbind result_bind].
  rewrite Hf. cbn [mbind result_bind]. unfold Message.delete_message. rewrite (Message.deref_ok _ _ _ Hm). cbn [mbind result_bind].
  rewrite (mail_final _ _ _ Hma a m Hm). cbn [Z.eqb Message.kIllegalPort Message.assert_ mbind result_bind]. split; [done|].
  split; cbn; [done..|]. by apply mail_delete.
Qed.

Lemma PostMessage_closed w q a m :
  world_ok w q -> heap w !! a = Some m -> unqueued w q a -> 0 <= Message.dest_port_ m ->
  Message.dest_port_ m ∉ port <$> ports (map_ (pm w)) ->
  PostMessage w a = Ok (false, set_heap w (delete a (heap w))) /\ world_ok (set_heap w (delete a (heap w))) q.
Proof. intros Hw Hm Hunq H0 Hn. apply (PostMessage_none w q a m); [done..|]. by apply (find_closed w q). Qed.

(** ** Handling *)

(** What [HandleMessages] does to the world in one round: a message is taken from the
    queues of the handler and handed over to [HandleMessage].  What that does with
    ports and messages are further steps. *)
Definition take_message (w : World) (h : Z) (min_priority : Message.Priority) : M (option Z * World) :=
  x ← handler_at w h;
  r ← lift (MessageHandler.DequeueMessage (MessageHandler.mkState (heap w) x (env w) []) min_priority);
  let '(message, st) := (r : option Z * MessageHandler.State) in
  let hp := match message with Some a => delete a (MessageHandler.heap st) | None => MessageHandler.heap st end in
  Ok (message, set_handlers (set_heap w hp) (<[h := MessageHandler.hd st]> (handlers w))).

(** The ports do not see a change of a handler that keeps its count of live ports. *)
Lemma ports_ok_same_live ps hs h x y :
  ports_ok ps hs -> hs !! h = Some x -> MessageHandler.live_ports_ y = MessageHandler.live_ports_ x -> ports_ok ps (<[h := y]> hs).
Proof.
  intros [H1 [H2 H2'] H3 H4] Hx Hy. split; [| | |done].
  - intros e He. destruct (decide (handler e = h)) as [->|Hne]; [rewrite lookup_insert_eq; eauto|]. rewrite lookup_insert_ne by done. auto.
  - split; rewrite lookup_insert_ne; try done; intros ->; congruence.
  - intros k z Hz. destruct (decide (k = h)) as [->|Hne]; [|rewrite lookup_insert_ne in Hz by done; auto].
    rewrite lookup_insert_eq in Hz. simplify_eq. rewrite Hy. auto.
Qed.

(** Mail after the head [a] of a queue of [h] has been taken out. *)
Lemma mail_take hp hp' hs q h x y n o ns os a :
  mail hp hs q -> hs !! h = Some x -> Message.only_links hp hp' [a] -> a ∈ (q h).1 ++ (q h).2 ->
  (forall b, b ∈ n ++ o -> b ∈ (q h).1 ++ (q h).2) -> a ∉ n ++ o ->
  MessageHandler.linked hp' y n o ns os -> mail (delete a hp') (<[h := y]> hs) (q_set q h (n, o)).
Proof.
  intros Hma Hx Hol Ha Hsub Hnot Hl. apply mail_delete.
  - eapply mail_change; [done|done|exact Hol| | |done].
    + intros b ->%list_elem_of_singleton. by left.
    + intros b Hb. right. by apply Hsub.
  - intros k Hk. destruct (decide (k = h)) as [->|Hne]; [by rewrite q_set_eq|]. rewrite q_set_ne by done.
    rewrite lookup_insert_ne in Hk by done. apply (mail_apart _ _ _ Hma h k a); [by exists x|done|congruence|done].
Qed.

Lemma take_message_ok w q h p r w' :
  world_ok w q -> take_message w h p = Ok (r, w') -> exists q', world_ok w' q'.
Proof.
  intros [Hm Hb Hpo Hma] Hr. unfold take_message, handler_at in Hr. destruct (handlers w !! h) as [x|] eqn:Hx; [|done].
  cbn [mbind result_bind] in Hr. apply bind_ok in Hr as ([message st] & Hd & Hr). injection Hr as <- <-.
  destruct (mail_linked _ _ _ Hma h x Hx) as (ns & os & Hl).
  unfold MessageHandler.DequeueMessage in Hd. cbn [MessageHandler.heap MessageHandler.hd MessageHandler.env MessageHandler.trace] in Hd.
  assert (forall y, MessageHandler.live_ports_ y = MessageHandler.live_ports_ x -> ports_ok (ports (map_ (pm w))) (<[h := y]> (handlers w))) as Hpo'.
  { intros y Hy. by apply (ports_ok_same_live _ _ h x). }
  destruct os as [|m os].
  - assert (Message.Dequeue (heap w) (MessageHandler.oob_queue_ x) = Ok (None, (heap w, MessageHandler.oob_queue_ x))) as Eo.
    { destruct Hl as [_ Ho _ _ Hos]. inversion Hos as [Hn|]. rewrite <- Hn in Ho. apply (Message.Dequeue_ok _ _ _ Ho). }
    rewrite Eo in Hd. cbn [mbind result_bind] in Hd. destruct (_ <? _).
    2:{ cbn in Hd. simplify_eq. exists q. split; cbn; [done..|by apply Hpo'|]. by eapply mail_same_queues. }
    cbn [MessageHandler.heap MessageHandler.hd MessageHandler.queue_ MessageHandler.set_oob_queue] in Hd. destruct ns as [|m ns].
    + assert (Message.Dequeue (heap w) (MessageHandler.queue_ x) = Ok (None, (heap w, MessageHandler.queue_ x))) as En.
      { destruct Hl as [Hq _ _ Hns _]. inversion Hns as [Hn|]. rewrite <- Hn in Hq. apply (Message.Dequeue_ok _ _ _ Hq). }
      rewrite En in Hd. cbn in Hd. simplify_eq. exists q. split; cbn; [done..|by apply Hpo'|]. by eapply mail_same_queues.
    + destruct (MessageHandler.linked_take _ _ _ _ _ _ false m ns Hl eq_refl) as (a & c & h' & q' & Ed & _ & _ & _ & Hol & n' & En & Hnot & Hl').
      cbn [negb] in Ed. rewrite Ed in Hd. cbn in Hd. simplify_eq. eexists. split; cbn; [done..|by apply Hpo'|].
      eapply (mail_take (heap w) h' (handlers w) q h x _ n' (q h).2 ns [] a); [done|done|exact Hol|rewrite En; left|rewrite En; intros b ?; by right|exact Hnot|].
      eapply MessageHandler.linked_flags; [..|exact Hl']; done.
  - destruct (MessageHandler.linked_take _ _ _ _ _ _ true m os Hl eq_refl) as (a & c & h' & q' & Ed & _ & _ & _ & Hol & o' & Eo & Hnot & Hl').
    rewrite Ed in Hd. cbn in Hd. simplify_eq. eexists. split; cbn; [done..|by apply Hpo'|].
    eapply (mail_take (heap w) h' (handlers w) q h x _ (q h).1 o' ns os a); [done|done|exact Hol| | |exact Hnot|done].
    + rewrite Eo. apply elem_of_app. right. left.
    + intros b [Hbo|Hbo]%elem_of_app; apply elem_of_app; [by left|right; rewrite Eo; by right].
Qed.

(** ** Closing *)

Lemma linked_delete_all : forall l hp x n o ns os,
  (forall a, a ∈ l -> a ∉ n ++ o) -> MessageHandler.linked hp x n o ns os ->
  MessageHandler.linked (Message.delete_all hp l) x n o ns os.
Proof.
  induction l as [|a l IH]; intros hp x n o ns os Ha Hl; [done|]. cbn. apply IH; [intros b Hb; apply Ha; by right|].
  specialize (Ha a ltac:(left)). apply MessageHandler.linked_delete; [set_solver|set_solver|done].
Qed.

Lemma delete_all_Some l : forall hp a m, Message.delete_all hp l !! a = Some m -> hp !! a = Some m.
Proof.
  induction l as [|b l IH]; intros hp a m; [done|]. cbn. intros H%IH. by apply lookup_delete_Some in H as [_ ?].
Qed.

(** A handler without messages. *)
Definition emptied (x : MessageHandler.MessageHandler) : MessageHandler.MessageHandler :=
  MessageHandler.set_oob_queue Message.MessageQueue_new (MessageHandler.set_queue Message.MessageQueue_new x).

Lemma empty_linked hp x : MessageHandler.linked hp (emptied x) [] [] [] [].
Proof. split; [split..|set_solver| |]; try done; try constructor. Qed.

Lemma CloseAllPorts_ok w q h x :
  mail (heap w) (handlers w) q -> handlers w !! h = Some x ->
  exists hp, CloseAllPorts w h = Ok (set_handlers (set_heap w hp) (<[h := emptied x]> (handlers w))) /\
    mail hp (<[h := emptied x]> (handlers w)) (q_set q h ([], [])) /\
    hp = Message.delete_all (Message.delete_all (heap w) (q h).1) (q h).2.
Proof.
  intros Hma Hx. pose proof Hma as [Hl Hap Hf]. destruct (Hl h x Hx) as (ns & os & Hlk). pose proof Hlk as [Hn Ho Hno Hns Hos].
  assert (forall hp l, (forall a m, hp !! a = Some m -> heap w !! a = Some m) -> (forall a, a ∈ l -> is_Some (hp !! a)) -> Forall (Message.final hp) l) as Hfin.
  { intros hp l Hsub Hin. apply Forall_forall. intros a Ha. destruct (Hin a Ha) as [m Hm]. unfold Message.final. rewrite Hm. cbn. f_equal. by apply (Hf a m), Hsub. }
  unfold CloseAllPorts, handler_at. rewrite Hx. cbn [mbind result_bind].
  rewrite (Message.Clear_final heap set_heap post_for_clear) with (l := (q h).1); [|done|done|by intros []|done|].
  2:{ apply Hfin; [done|]. intros a Ha. eapply Message.seg_in; [apply Hn|done]. }
  cbn [lift mbind result_bind handlers set_heap]. rewrite Hx. cbn [mbind result_bind].
  set (hp1 := Message.delete_all (heap w) (q h).1). set (w1 := set_handlers _ _).
  assert (Message.is_queue hp1 (MessageHandler.oob_queue_ x) (q h).2) as Ho1.
  { revert Ho. apply Message.queue_frame. intros a Ha. f_equal. symmetry. unfold hp1. generalize (heap w).
    assert (a ∉ (q h).1) as Hna by (intros Hin; by apply (Hno a)). revert Hna. generalize (q h).1. clear.
    induction l as [|b l IH]; intros Hna hp; [done|]. cbn. rewrite IH by set_solver. apply lookup_delete_ne. set_solver. }
  rewrite (Message.Clear_final heap set_heap post_for_clear) with (l := (q h).2); [|done|done|by intros []|done|].
  2:{ apply Hfin; [intros a m; apply delete_all_Some|]. intros a Ha. eapply Message.seg_in; [apply Ho1|done]. }
  cbn [lift mbind result_bind handlers set_heap w1 set_handlers]. rewrite lookup_insert_eq. cbn [mbind result_bind].
  exists (Message.delete_all hp1 (q h).2). split_and!; [|split|done].
  - unfold set_handlers, set_heap. cbn. by rewrite insert_insert_eq.
  - intros k y Hy. destruct (decide (k = h)) as [->|Hne].
    + rewrite lookup_insert_eq in Hy. simplify_eq. rewrite q_set_eq. exists [], []. apply empty_linked.
    + rewrite lookup_insert_ne in Hy by done. rewrite q_set_ne by done. destruct (Hl k y Hy) as (ns' & os' & Hlk'). exists ns', os'.
      assert (forall a, a ∈ (q h).1 ++ (q h).2 -> a ∉ (q k).1 ++ (q k).2) as Hd by (intros a; apply Hap; [by exists x|by exists y|congruence]).
      unfold hp1. apply linked_delete_all; [set_solver|]. apply linked_delete_all; [set_solver|done].
  - assert (forall k, is_Some ((<[h := emptied x]> (handlers w) : gmap Z _) !! k) -> is_Some (handlers w !! k)) as Hs.
    { intros k. destruct (decide (k = h)) as [->|Hne]; [by rewrite Hx|by rewrite lookup_insert_ne]. }
    intros k k' a Hk%Hs Hk'%Hs Hne Ha. unfold q_set in *. destruct (k =? h); [set_solver|]. destruct (k' =? h); [set_solver|]. by apply (Hap k k').
  - intros a m Ha%delete_all_Some%delete_all_Some. by apply (Hf a).
Qed.

Lemma mail_remove hp hs q h : mail hp hs q -> mail hp (delete h hs) q.
Proof.
  intros [Hl Ha Hf]. assert (forall k, is_Some ((delete h hs : gmap Z _) !! k) -> is_Some (hs !! k)) as Hs.
  { intros k [y Hy]. apply lookup_delete_Some in Hy as [_ Hy]. by exists y. }
  split; [|intros k k' a Hk%Hs Hk'%Hs; by apply Ha|done]. intros k x Hx. apply lookup_delete_Some in Hx as [_ Hx]. by apply Hl.
Qed.

(** The table after the slot of a port has been marked as deleted. *)
Lemma close_map_ok m i e :
  map_ok m -> balanced m -> map_ m !! i = Some e -> in_use e ->
  let m1 := set_counts (set_entry m i (mkEntry 0 deleted_entry_ (state e))) (used_ m - 1) (deleted_ m + 1) in
  exists m', MaintainInvariants m1 = Ok m' /\ map_ok m' /\ balanced m' /\ ports (map_ m) ≡ₚ e :: ports (map_ m').
Proof.
  intros Hm Hb Hi Hu m1. destruct (table_close _ _ i e (state e) (mo_table _ Hm) Hi Hu) as [Ht Hp].
  pose proof (mo_used _ Hm) as Hused. rewrite Hp in Hused. cbn [length] in Hused.
  assert (map_ok m1) as Hm1.
  { split; cbn [capacity_ map_ used_ deleted_ m1 set_counts set_entry set_map slots]; [apply Hm|done|lia|].
    pose proof (tombstones_insert (map_ m) i e (mkEntry 0 deleted_entry_ (state e)) Hi) as Htomb.
    rewrite decide_False in Htomb by (intros [? _]; done). rewrite decide_True in Htomb by done. rewrite (mo_deleted _ Hm). lia. }
  destruct (MaintainInvariants_ok m1 Hm1) as (m' & -> & Hm' & Hb' & Hp').
  { cbn. destruct Hb. destruct (slots_capacity m Hm) as (_ & ? & _). divlia. }
  exists m'. split_and!; try done. rewrite Hp, Hp'. done.
Qed.

Lemma ClosePort_ok w q e :
  world_ok w q -> e ∈ ports (map_ (pm w)) ->
  exists w' q', ClosePort w (port e) = Ok (true, w') /\ world_ok w' q' /\ ports (map_ (pm w)) ≡ₚ e :: ports (map_ (pm w')) /\
    (OwnedByPortMap (handler e) = false -> q' = q /\ heap w' = heap w).
Proof.
  intros Hw He. pose proof Hw as [Hm Hb Hpo Hma]. destruct (find_open w q e Hw He) as (i & Hf & Hi & Hu & Hcap & Hh0 & Hh1).
  destruct (po_handler _ _ Hpo e He) as [x Hx]. unfold ClosePort. rewrite Hf. cbn [mbind result_bind].
  rewrite (proj2 (Z.ltb_lt _ _) Hcap). cbn [assert_ mbind result_bind]. rewrite (port_entry_at_ok _ _ _ Hi). cbn [mbind result_bind].
  rewrite (proj2 (Z.eqb_neq (port e) 0) Hu), (proj2 (Z.eqb_neq (handler e) 0) Hh0), (proj2 (Z.eqb_neq _ _) Hh1). cbn [negb assert_ mbind result_bind].
  set (d := if bool_decide (state e = kLivePort) then -1 else 0).
  set (y := MessageHandler.set_live_ports (MessageHandler.live_ports_ x + d) x).
  set (m0 := set_entry (pm w) i (mkEntry 0 deleted_entry_ (state e))).
  assert ((if bool_decide (state e = kLivePort) then decrement_live_ports (set_pm w m0) (handler e) else Ok (set_pm w m0)) =
          Ok (set_handlers (set_pm w m0) (<[handler e := y]> (handlers w)))) as ->.
  { unfold y, d. case_bool_decide as Hs.
    - rewrite (decrement_ok _ _ x) by done. done.
    - rewrite insert_id; [by destruct w|]. rewrite Hx. f_equal. rewrite Z.add_0_r. by destruct x. }
  cbn [mbind result_bind]. destruct (close_map_ok (pm w) i e Hm Hb Hi Hu) as (m' & Hmi & Hm' & Hb' & Hp'). fold m0 in Hmi. cbn [pm set_handlers set_pm]. rewrite Hmi.
  cbn [mbind result_bind]. unfold handler_at. cbn [handlers set_handlers set_pm]. rewrite lookup_insert_eq. cbn [mbind result_bind].
  assert (forall a, a ∈ ports (map_ m') -> a ∈ ports (map_ (pm w))) as Hsub by (intros a Ha; rewrite Hp'; by right).
  assert (ports_ok (ports (map_ m')) (<[handler e := y]> (handlers w))) as Hpo'.
  { unfold y. eapply ports_ok_adjust; [exact Hpo|done|intros a Ha; by apply (po_handler _ _ Hpo), Hsub| |intros a b Ha Hb1; apply (po_owned _ _ Hpo); by apply Hsub].
    intros k. rewrite Hp', live_count_cons. unfold d. repeat first [case_decide|case_bool_decide]; unfold live in *; first [lia|exfalso; naive_solver congruence]. }
  assert (mail (heap w) (<[handler e := y]> (handlers w)) q) as Hma' by (by eapply mail_same_queues).
  destruct (negb (MessageHandler.HasLivePorts y) && OwnedByPortMap (handler e)) eqn:Edel.
  - apply andb_true_iff in Edel as [_ Hown]. unfold delete_handler.
    destruct (CloseAllPorts_ok (set_pm (set_handlers (set_pm w m0) (<[handler e:=y]> (handlers w))) m') q (handler e) y) as (hp & -> & Hma'' & _); [done|apply lookup_insert_eq|].
    cbn [mbind result_bind]. do 2 eexists. split; [done|]. split; [|split; [done|congruence]]. split; cbn; [done..| |by apply mail_remove].
    rewrite !delete_insert_eq. split.
    + intros a Ha. assert (handler a <> handler e) as Hne.
      { intros Heq. assert (e = a) as <- by (apply (po_owned _ _ Hpo); [done|by apply Hsub|done|done]).
        pose proof (tbl_distinct _ _ (mo_table _ Hm)) as Hd. rewrite Hp' in Hd. cbn in Hd. apply NoDup_cons in Hd as [Hd _].
        apply Hd, list_elem_of_fmap. eauto. }
      rewrite lookup_delete_ne by done. by apply (po_handler _ _ Hpo), Hsub.
    + destruct (po_keys _ _ Hpo) as [H1 H2]. by rewrite !lookup_delete_None; split; right.
    + intros k z Hz. apply lookup_delete_Some in Hz as [Hne Hz]. apply (po_live _ _ Hpo'). by rewrite lookup_insert_ne.
    + apply (po_owned _ _ Hpo').
  - exists (set_pm (set_handlers (set_pm w m0) (<[handler e:=y]> (handlers w))) m'), q. split; [done|].
    split; [|done]. by split.
Qed.

(** ** ClosePorts *)

Definition close_entry (h : Z) (e : Entry) : Entry := if handler e =? h then mkEntry 0 deleted_entry_ (state e) else e.

Lemma ClosePorts_loop_ok l h :
  Forall entry_ok l -> h <> 0 -> h <> deleted_entry_ ->
  exists closed, ClosePorts_loop l h = (close_entry h <$> l, Z.of_nat closed, live_count h (ports l)) /\
    ports (close_entry h <$> l) = filter (fun e => handler e <> h) (ports l) /\
    length (ports l) = (closed + length (ports (close_entry h <$> l)))%nat /\
    length (filter tombstone (close_entry h <$> l)) = (length (filter tombstone l) + closed)%nat.
Proof.
  intros Hok Hh0 Hh1. induction Hok as [|e l He Hok IH]; [by exists 0%nat|]. destruct IH as (closed & Hloop & Hp & Hlen & Htomb).
  cbn [ClosePorts_loop]. rewrite Hloop. change (close_entry h <$> e :: l) with (close_entry h e :: (close_entry h <$> l)).
  assert (close_entry h e = if handler e =? h then mkEntry 0 deleted_entry_ (state e) else e) as -> by done.
  destruct (Z.eqb_spec (handler e) h) as [Heq|Hne].
  - assert (in_use e) as Hu by (intros H0; destruct (proj1 He H0); congruence).
    exists (S closed). unfold ports in *. rewrite !(filter_cons in_use e), !decide_True by done.
    rewrite (filter_cons_False in_use (mkEntry _ _ _)) by (by intros []). rewrite live_count_cons. split_and!.
    + f_equal; [f_equal; lia|]. unfold live. destruct (bool_decide_reflect (state e = kLivePort)).
      * rewrite decide_True by done. done.
      * rewrite decide_False by (intros [_ ?]; done). lia.
    + rewrite (filter_cons_False _ e) by (by intros []). done.
    + cbn [length]. lia.
    + rewrite filter_cons_True by done. rewrite filter_cons_False by (intros [? _]; done). cbn [length]. lia.
  - exists closed. unfold ports in *. rewrite !(filter_cons in_use e). destruct (decide (in_use e)) as [Hu|Hu].
    + rewrite live_count_cons, decide_False by (intros [? _]; done). rewrite Z.add_0_r. split_and!; [done| | |].
      * rewrite filter_cons_True by done. by rewrite Hp.
      * cbn [length]. lia.
      * rewrite !filter_cons_False by (intros [? _]; done). done.
    + split_and!; [done..|]. rewrite !filter_cons. case_decide; cbn [length]; lia.
Qed.

Lemma table_close_all cap l h :
  h <> 0 -> h <> deleted_entry_ -> table cap l -> table cap (close_entry h <$> l).
Proof.
  intros Hh0 Hh1 [Hlen Hok Hd Hr]. destruct (ClosePorts_loop_ok l h Hok Hh0 Hh1) as (_ & _ & Hp & _). split.
  - by rewrite length_fmap.
  - apply Forall_fmap. eapply Forall_impl; [exact Hok|]. intros e He. cbn. unfold close_entry. destruct (handler e =? h); [|done].
    split; [by right|done].
  - rewrite Hp. assert (port <$> ports l ≡ₚ (port <$> filter (fun e => handler e <> h) (ports l)) ++ (port <$> filter (fun e => ~ handler e <> h) (ports l))) as Hsplit.
    { rewrite <- fmap_app, filter_app_complement. done. }
    rewrite Hsplit in Hd. by apply NoDup_app in Hd as [? _].
  - intros i e Hi Hu. apply list_lookup_fmap_Some_1 in Hi as (a & -> & Ha).
    assert (close_entry h a = a) as Hca by (unfold close_entry in *; destruct (handler a =? h); [by destruct Hu|done]). rewrite Hca in *.
    eapply path_mono; [|by apply (Hr i a)]. intros j _ (b & Hb & Hbh). exists (close_entry h b). rewrite list_lookup_fmap, Hb. split; [done|].
    unfold close_entry. by destruct (handler b =? h).
Qed.

Lemma decrement_times_ok n : forall w h x,
  handlers w !! h = Some x -> decrement_times n w h = Ok (with_live w h (- Z.of_nat n) x).
Proof.
  induction n as [|n IH]; intros w h x Hx; cbn [decrement_times].
  - unfold with_live. rewrite insert_id; [by destruct w|]. rewrite Hx. f_equal. cbn. rewrite Z.add_0_r. by destruct x.
  - rewrite (decrement_ok _ _ x Hx). cbn [mbind result_bind]. rewrite (IH _ _ (MessageHandler.set_live_ports (MessageHandler.live_ports_ x + -1) x)) by apply lookup_insert_eq.
    unfold with_live, set_handlers. cbn [heap handlers env pm prng_]. rewrite insert_insert_eq.
    change (MessageHandler.set_live_ports ?a (MessageHandler.set_live_ports ?b x)) with (MessageHandler.set_live_ports a x).
    change (MessageHandler.live_ports_ (MessageHandler.set_live_ports ?b x)) with b.
    replace (MessageHandler.live_ports_ x + -1 + - Z.of_nat n) with (MessageHandler.live_ports_ x + - Z.of_nat (S n)) by lia. done.
Qed.

Lemma live_count_filter k h ps :
  live_count k (filter (fun e => handler e <> h) ps) = if decide (k = h) then 0 else live_count k ps.
Proof.
  unfold live_count. induction ps as [|e ps IH]; [by case_decide|]. rewrite !filter_cons.
  destruct (decide (handler e <> h)) as [Hne|He].
  - rewrite filter_cons. destruct (decide (live k e)) as [[<- Hs]|Hn]; cbn [length]; [|done].
    rewrite decide_False in * by done. lia.
  - destruct (decide (k = h)) as [->|Hk]; [done|]. rewrite IH. rewrite decide_False; [done|]. intros [<- _]. apply He. congruence.
Qed.

Lemma ClosePorts_ok w q h x :
  world_ok w q -> handlers w !! h = Some x ->
  exists w', ClosePorts w h = Ok w' /\ world_ok w' (q_set q h ([], [])) /\
    ports (map_ (pm w')) ≡ₚ filter (fun e => handler e <> h) (ports (map_ (pm w))).
Proof.
  intros [Hm Hb Hpo Hma] Hx. destruct (po_keys _ _ Hpo) as [Hk0 Hk1]. assert (h <> 0) as Hh0 by congruence. assert (h <> deleted_entry_) as Hh1 by congruence.
  pose proof (mo_table _ Hm) as Ht. destruct (ClosePorts_loop_ok _ h (tbl_entries _ _ Ht) Hh0 Hh1) as (closed & Hloop & Hp & Hlen & Htomb).
  unfold ClosePorts. rewrite Hloop. set (n := live_count h (ports (map_ (pm w)))).
  assert (0 <= n) as Hn by (unfold n, live_count; lia). rewrite (decrement_times_ok _ w h x Hx). cbn [mbind result_bind].
  set (m1 := set_counts _ _ _). pose proof (mo_used _ Hm) as Hused. pose proof (mo_deleted _ Hm) as Hdel.
  assert (map_ok m1) as Hm1.
  { split; cbn [capacity_ map_ used_ deleted_ m1 set_counts set_map slots]; [apply Hm|by apply table_close_all|lia|lia]. }
  destruct (MaintainInvariants_ok m1 Hm1) as (m2 & -> & Hm2 & Hb2 & Hp2).
  { cbn. destruct Hb. destruct (slots_capacity _ Hm) as (_ & ? & _). divlia. }
  cbn [mbind result_bind]. cbn [map_ m1 set_counts set_map] in Hp2. rewrite Hp in Hp2. set (y := MessageHandler.set_live_ports (MessageHandler.live_ports_ x + - Z.of_nat (Z.to_nat n)) x).
  destruct (CloseAllPorts_ok (set_pm (with_live w h (- Z.of_nat (Z.to_nat n)) x) m2) q h y) as (hp & -> & Hma' & _); [by eapply mail_same_queues|apply lookup_insert_eq|].
  eexists. split; [done|]. split; [|done]. split; cbn; [done..| |done]. rewrite insert_insert_eq.
  eapply ports_ok_perm; [symmetry; exact Hp2|]. pose proof Hpo as [H1 H2 H3 H4].
  assert (forall e, e ∈ filter (fun e => handler e <> h) (ports (map_ (pm w))) -> e ∈ ports (map_ (pm w)) /\ handler e <> h) as Hin by (intros e [? ?]%list_elem_of_filter; done).
  split.
  - intros e [He Hne]%Hin. rewrite lookup_insert_ne by done. auto.
  - split; rewrite lookup_insert_ne; done.
  - intros k z Hz. rewrite live_count_filter. destruct (decide (k = h)) as [->|Hne].
    + rewrite lookup_insert_eq in Hz. simplify_eq. cbn. rewrite (H3 h x Hx). fold n. lia.
    + rewrite lookup_insert_ne in Hz by done. by apply H3.
  - intros e e' [He _]%Hin [He' _]%Hin. by apply H4.
Qed.

(** ** The theorems *)

(** C16: the table of ports is the set of open ports.  In a well-formed world
    [CreatePort] opens a port with a number between 1 and 2^30 that no open port
    has, or finds none among the numbers drawn; [SetPortState] changes the state
    of one port; [ClosePort] removes one port and answers false for a number that
    is not open; [ClosePorts] removes the ports of one handler; and all of them
    end without a failed assertion in a well-formed world. *)
Theorem PortMap_refines w q :
  world_ok w q ->
  let open := ports (map_ (pm w)) in
  (forall h draws, is_Some (handlers w !! h) -> (OwnedByPortMap h = true -> forall e, e ∈ open -> handler e <> h) ->
     match CreatePort draws w h with
     | Ok (p, w') => 0 < p < 2 ^ 30 /\ (p ∉ port <$> open) /\ world_ok w' q /\ ports (map_ (pm w')) ≡ₚ mkEntry p h kNewPort :: open
     | Err e => e = PNoReturn /\ Forall (fun p => p = 0 \/ p ∈ port <$> open) (drawn draws (prng_ w))
     end) /\
  (forall e s, e ∈ open -> state e = kNewPort ->
     exists w' rest, SetPortState w (port e) s = Ok w' /\ world_ok w' q /\
       open ≡ₚ e :: rest /\ ports (map_ (pm w')) ≡ₚ mkEntry (port e) (handler e) s :: rest) /\
  (forall e, e ∈ open -> exists w' q', ClosePort w (port e) = Ok (true, w') /\ world_ok w' q' /\ open ≡ₚ e :: ports (map_ (pm w'))) /\
  (forall p, 0 <= p -> p ∉ port <$> open -> ClosePort w p = Ok (false, w)) /\
  (forall h, is_Some (handlers w !! h) ->
     exists w', ClosePorts w h = Ok w' /\ world_ok w' (q_set q h ([], [])) /\ ports (map_ (pm w')) ≡ₚ filter (fun e => handler e <> h) open).
Proof.
  intros Hw open. split_and!.
  - intros h draws Hh Ho. pose proof (CreatePort_ok w q h draws Hw Hh Ho) as Hc. destruct (CreatePort draws w h) as [[p w']|e]; [|done].
    destruct Hc as (? & ? & ? & _ & _ & ?). done.
  - intros e s He Hs. destruct (SetPortState_ok w q e s Hw He Hs) as (w' & rest & ? & ? & _ & ? & ?). by exists w', rest.
  - intros e He. destruct (ClosePort_ok w q e Hw He) as (w' & q' & ? & ? & ? & _). by exists w', q'.
  - intros p Hp Hn. unfold ClosePort. by rewrite (find_closed w q p).
  - intros h [x Hx]. by apply (ClosePorts_ok w q h x).
Qed.

(** In a world whose messages have no delivery failure port, a
    message posted to an open port is appended to the queue of its priority of
    that port's handler, and no other queue changes; a message to a port that is
    not open is deleted and the call returns false. *)
Theorem PostMessage_delivers w q a m :
  world_ok w q -> MessageHandler.pool_runs = true ->
  heap w !! a = Some m -> a <> 0 -> Message.next_ m = 0 -> unqueued w q a -> 0 <= Message.dest_port_ m ->
  (exists e w', e ∈ ports (map_ (pm w)) /\ port e = Message.dest_port_ m /\ PostMessage w a = Ok (true, w') /\ pm w' = pm w /\
     world_ok w' (q_set q (handler e) (delivered (heap w) (q (handler e)) a m))) \/
  ((Message.dest_port_ m ∉ port <$> ports (map_ (pm w))) /\
   PostMessage w a = Ok (false, set_heap w (delete a (heap w))) /\ world_ok (set_heap w (delete a (heap w))) q).
Proof.
  intros Hw Hpool Hm Ha Hm0 Hu H0. destruct (decide (Message.dest_port_ m ∈ port <$> ports (map_ (pm w)))) as [Hin|Hn].
  - left. apply list_elem_of_fmap in Hin as (e & Hpe & He).
    destruct (PostMessage_open w q a m e) as (w' & ? & ? & ?); [done..|]. by exists e, w'.
  - right. split; [done|]. by apply (PostMessage_closed w q a m).
Qed.

(** What a section of a handler's monitor keeps that touches neither the queues nor the
    count of live ports: [Run], and the settings and states of [TaskCallback]. *)
Definition same_mail (x y : MessageHandler.MessageHandler) : Prop :=
  MessageHandler.queue_ y = MessageHandler.queue_ x /\ MessageHandler.oob_queue_ y = MessageHandler.oob_queue_ x /\
  MessageHandler.live_ports_ y = MessageHandler.live_ports_ x.

(** What threads and isolates do with ports and messages: each step is an operation
    that returns. *)
Inductive port_step : World -> World -> Prop :=
| ps_handler w h :
    h <> 0 -> h <> deleted_entry_ -> handlers w !! h = None ->
    port_step w (set_handlers w (<[h := MessageHandler.MessageHandler_new]> (handlers w)))
| ps_create w h draws p w' :
    is_Some (handlers w !! h) -> (OwnedByPortMap h = true -> forall e, e ∈ ports (map_ (pm w)) -> handler e <> h) ->
    CreatePort draws w h = Ok (p, w') -> port_step w w'
| ps_state w e s w' :
    e ∈ ports (map_ (pm w)) -> state e = kNewPort -> SetPortState w (port e) s = Ok w' -> port_step w w'
| ps_close w p b w' : ClosePort w p = Ok (b, w') -> port_step w w'
| ps_close_all w h w' : is_Some (handlers w !! h) -> ClosePorts w h = Ok w' -> port_step w w'
| ps_post w a m b w' :
    heap w !! a = None -> a <> 0 -> Message.next_ m = 0 -> Message.delivery_failure_port_ m = Message.kIllegalPort ->
    PostMessage (set_heap w (<[a := m]> (heap w))) a = Ok (b, w') -> port_step w w'
| ps_take w h p r w' : take_message w h p = Ok (r, w') -> port_step w w'
| ps_section w h x y : handlers w !! h = Some x -> same_mail x y -> port_step w (set_handlers w (<[h := y]> (handlers w))).

Definition initial_world (e : MessageHandler.client) (seed : Z) : World := mkWorld ∅ ∅ e InitOnce seed.

Lemma initial_world_ok e seed : world_ok (initial_world e seed) (fun _ => ([], [])).
Proof.
  destruct (free_table 8) as (Ht & Hp & _).
  split; cbn [initial_world pm handlers heap InitOnce map_]; rewrite ?Hp.
  - split; cbn [InitOnce capacity_ map_ used_ deleted_ slots]; [by exists 3|done|by rewrite Hp|done].
  - done.
  - split; [set_solver|done|intros h x Hx; by rewrite lookup_empty in Hx|set_solver].
  - split; [intros h x Hx; by rewrite lookup_empty in Hx|set_solver|intros a m Ha; by rewrite lookup_empty in Ha].
Qed.

Lemma new_handler_ok w q h :
  world_ok w q -> h <> 0 -> h <> deleted_entry_ -> handlers w !! h = None ->
  world_ok (set_handlers w (<[h := MessageHandler.MessageHandler_new]> (handlers w))) (q_set q h ([], [])).
Proof.
  intros [Hm Hb [H1 [H2 H2'] H3 H4] [Hl Hap Hf]] Hh0 Hh1 Hn. split; cbn; [done..| |].
  - split; [| | |done].
    + intros e He. rewrite lookup_insert_ne; [auto|]. intros ->. destruct (H1 e He). congruence.
    + split; by rewrite lookup_insert_ne.
    + intros k x Hx. destruct (decide (k = h)) as [->|Hne]; [|rewrite lookup_insert_ne in Hx by done; auto].
      rewrite lookup_insert_eq in Hx. simplify_eq. cbn. unfold live_count.
      assert (filter (live h) (ports (map_ (pm w))) = []) as ->; [|done].
      revert H1. clear -Hn. generalize (ports (map_ (pm w))). induction l as [|e l IH]; intros H1; [done|].
      rewrite filter_cons_False; [apply IH; intros a Ha; apply H1; by right|]. intros [He _].
      destruct (H1 e ltac:(left)) as [y Hy]. congruence.
  - split; [|intros k k' a Hk Hk' Hne|done].
    + intros k x Hx. destruct (decide (k = h)) as [->|Hne].
      * rewrite q_set_eq. rewrite lookup_insert_eq in Hx. simplify_eq. exists [], []. apply (empty_linked _ MessageHandler.MessageHandler_new).
      * rewrite q_set_ne by done. rewrite lookup_insert_ne in Hx by done. by apply Hl.
    + unfold q_set. destruct (Z.eqb_spec k h) as [->|Hkh], (Z.eqb_spec k' h) as [->|Hkh']; [set_solver..|].
      rewrite lookup_insert_ne in Hk, Hk' by done. by apply Hap.
Qed.

Lemma port_step_ok w q w' :
  MessageHandler.pool_runs = true -> world_ok w q -> port_step w w' -> exists q', world_ok w' q'.
Proof.
  intros Hpool Hw Hs. destruct Hs as [w h ? ? ?|w h draws p w' Hh Ho Hr|w e s w' He Hn Hr|w p b w' Hr|w h w' [x Hx] Hr
    |w a m b w' Ha Ha0 Hm0 Hmf Hr|w h p r w' Hr|w h x y Hx (Hq & Ho & Hlive)].
  - eexists. by apply new_handler_ok.
  - pose proof (CreatePort_ok w q h draws Hw Hh Ho) as Hc. rewrite Hr in Hc. destruct Hc as (_ & _ & ? & _). eauto.
  - destruct (SetPortState_ok w q e s Hw He Hn) as (w1 & rest & Hr1 & ? & _). rewrite Hr in Hr1. simplify_eq. eauto.
  - destruct (decide (p ∈ port <$> ports (map_ (pm w)))) as [Hin|Hn].
    + apply list_elem_of_fmap in Hin as (e & -> & He). destruct (ClosePort_ok w q e Hw He) as (w1 & q1 & Hr1 & ? & _). rewrite Hr in Hr1. simplify_eq. eauto.
    + unfold ClosePort in Hr. apply bind_ok in Hr as (r & Hf & Hr). rewrite (find_none w q p r Hw Hn Hf) in Hr. cbn in Hr. simplify_eq. eauto.
  - destruct (ClosePorts_ok w q h x Hw Hx) as (w1 & Hr1 & ? & _). rewrite Hr in Hr1. simplify_eq. eauto.
  - set (w1 := set_heap w (<[a := m]> (heap w))) in *. destruct Hw as [Hm Hb Hpo Hma].
    assert (forall h, is_Some (handlers w !! h) -> a ∉ (q h).1 ++ (q h).2) as Hu by (intros h Hh; by eapply mail_no).
    assert (world_ok w1 q) as Hw1.
    { split; cbn; [done..|]. destruct Hma as [Hl Hap Hf]. split; [|done|].
      - intros h x Hx. destruct (Hl h x Hx) as (ns & os & Hlk). exists ns, os. by apply MessageHandler.linked_new.
      - intros c mc Hc. apply lookup_insert_Some in Hc as [[<- <-]|[_ Hc]]; [done|by apply (Hf c)]. }
    destruct (decide (Message.dest_port_ m ∈ port <$> ports (map_ (pm w)))) as [Hin|Hn].
    + apply list_elem_of_fmap in Hin as (e & Hpe & He).
      destruct (PostMessage_open w1 q a m e Hw1 Hpool) as (w2 & Hr2 & _ & ?); try done; [apply lookup_insert_eq|]. rewrite Hr in Hr2. simplify_eq. eauto.
    + assert (FindPort (pm w1) (Message.dest_port_ m) = Ok None) as Hf.
      { unfold PostMessage, lift in Hr. rewrite (Message.deref_ok _ a m) in Hr by apply lookup_insert_eq. cbn [mbind result_bind] in Hr.
        destruct (FindPort (pm w1) (Message.dest_port_ m)) as [r|] eqn:Hf; [|done]. by rewrite (find_none w1 q _ r Hw1 Hn Hf). }
      destruct (PostMessage_none w1 q a m Hw1) as [Hr2 ?]; try done; [apply lookup_insert_eq|]. rewrite Hr in Hr2. simplify_eq. eauto.
  - by eapply take_message_ok.
  - destruct Hw as [Hm Hb Hpo Hma]. exists q. split; cbn; [done..| |].
    + by apply (ports_ok_same_live _ _ h x).
    + by apply (mail_same_queues _ _ _ h x).
Qed.

(** C17: the world stays well formed under any sequence of operations that return:
    handlers made, [CreatePort] (a handler the port map owns gets one port),
    [SetPortState] of new ports, [ClosePort] and [ClosePorts], [PostMessage] of new
    messages without a delivery failure port, messages taken from the queues to be
    handled, and sections of a handler that touch neither queues nor live ports; the
    thread pools accept tasks.  The table finds every open port and has a free slot,
    every open port has a handler, [live_ports_] of a handler is the number of its live
    ports, its queues are properly linked, and no message is in two queues. *)
Theorem PortMap_invariant e seed w :
  MessageHandler.pool_runs = true -> rtc port_step (initial_world e seed) w -> exists q, world_ok w q.
Proof.
  intros Hpool Hs. assert (exists q, world_ok (initial_world e seed) q) as Hq by (eexists; apply initial_world_ok).
  revert Hq. induction Hs as [|x y z Hxy _ IH]; [done|]. intros (q & Hx). apply IH. by eapply port_step_ok.
Qed.

(** C40: three inputs the code does not expect, in any world with a well-formed table of
    ports.  A negative port number that is not a multiple of the capacity makes
    [FindPort] read before the table.  A message with a delivery failure port, posted
    to a non-negative port number that is not open, fails the assertion in its
    destructor instead of being redirected.  [Clear] of a queue whose first message has
    a successor, and a delivery failure port that is open and has a handler, redirects
    the message without resetting its link, so that the assertion in [Enqueue] fails. *)
Theorem port_map_gaps w :
  map_ok (pm w) -> balanced (pm w) ->
  (forall p, p < 0 -> Z.rem p (capacity_ (pm w)) <> 0 -> FindPort (pm w) p = Err PUndefined) /\
  (forall a m, heap w !! a = Some m -> Message.delivery_failure_port_ m <> Message.kIllegalPort ->
     0 <= Message.dest_port_ m -> Message.dest_port_ m ∉ port <$> ports (map_ (pm w)) ->
     PostMessage w a = Err (PMessage Message.MAssertFailed)) /\
  (forall qu a b l m e, Message.is_queue (heap w) qu (a :: b :: l) -> heap w !! a = Some m ->
     e ∈ ports (map_ (pm w)) -> port e = Message.delivery_failure_port_ m -> is_Some (handlers w !! handler e) ->
     Message.Clear heap set_heap post_for_clear w qu = Err Message.MAssertFailed).
Proof.
  intros Hm Hb. destruct (slots_capacity _ Hm) as (Hsl & Hc & _). pose proof (mo_table _ Hm) as Ht. split_and!.
  - intros p Hp Hr. unfold FindPort, ILLEGAL_PORT. rewrite (proj2 (Z.eqb_neq p 0)) by lia. unfold entry_at.
    pose proof (Z.rem_sign_nz p (capacity_ (pm w)) ltac:(lia) Hr) as Hsg. destruct (Z.ltb_spec (Z.rem p (capacity_ (pm w))) 0) as [_|Hge]; [done|].
    destruct (Z.rem p (capacity_ (pm w))), p; cbn in Hsg; lia.
  - intros a m Ha Hfail Hd Hnot. unfold PostMessage, lift. rewrite (Message.deref_ok _ _ _ Ha). cbn [mbind result_bind].
    assert (FindPort (pm w) (Message.dest_port_ m) = Ok None) as ->.
    { destruct (decide (Message.dest_port_ m = 0)) as [Hz|Hnz]; [unfold FindPort; by rewrite Hz|].
      destruct (FindPort_ok (pm w) (Message.dest_port_ m) Ht ltac:(lia) (balanced_free _ Hm Hb) ltac:(lia)) as [(j & c & _ & Hj & Hcp)|[-> _]]; [|done].
      destruct Hnot. apply list_elem_of_fmap. exists c. split; [done|]. apply elem_of_ports. split; [by eapply list_elem_of_lookup_2|]. unfold in_use. lia. }
    cbn [mbind result_bind]. unfold Message.delete_message. rewrite (Message.deref_ok _ _ _ Ha). cbn [mbind result_bind].
    by rewrite (proj2 (Z.eqb_neq _ _) Hfail).
  - intros qu a b l m e [Hs Hn _] Ha He Hpe [x Hx]. apply elem_of_ports in He as [Hin Hu]. apply list_elem_of_lookup in Hin as [i Hi].
    assert (entry_ok e) as [_ Hok] by (pose proof (tbl_entries _ _ Ht) as H; rewrite Forall_lookup in H; by apply (H i)).
    destruct (Hok Hu) as (Hpr & Hh0 & Hh1). cbn [Message.seg] in Hs. destruct Hs as (Hhead & Ha0 & m' & Ha' & Hseg). rewrite Ha in Ha'. injection Ha' as <-.
    destruct Hseg as (Hnext & Hb0 & _). unfold Message.Clear. rewrite Hhead.
    assert (size (heap w) <> 0%nat) as Hsz by (intros Hz%map_size_empty_inv; rewrite Hz, lookup_empty in Ha; done).
    destruct (size (heap w)) as [|fuel]; [done|]. cbn [Message.Clear_loop]. rewrite (proj2 (Z.eqb_neq a 0)) by done.
    rewrite (Message.deref_ok _ _ _ Ha). cbn [mbind result_bind]. unfold Message.RedirectToDeliveryFailurePort.
    rewrite <- Hpe, (proj2 (Z.eqb_neq (port e) Message.kIllegalPort)) by (unfold Message.kIllegalPort; lia).
    set (m1 := Message.mkMessage _ _ _ _ _ _). set (w1 := set_heap w _).
    assert (PostMessage w1 a = Err (PMessage Message.MAssertFailed)) as Hpost.
    { unfold PostMessage, lift. rewrite (Message.deref_ok _ a m1) by apply lookup_insert_eq. cbn [mbind result_bind Message.dest_port_ m1 w1 set_heap pm].
      rewrite (FindPort_none_found (pm w) (port e) i e) by (done || lia || by apply balanced_free). cbn [mbind result_bind].
      rewrite (proj2 (Z.ltb_lt (Z.of_nat i) (capacity_ (pm w)))) by (rewrite Hsl, <- (tbl_length _ _ Ht); apply lookup_lt_Some in Hi; lia).
      cbn [assert_ mbind result_bind]. rewrite (port_entry_at_ok _ _ _ Hi). cbn [mbind result_bind].
      rewrite (proj2 (Z.eqb_neq (port e) 0) Hu), (proj2 (Z.eqb_neq (handler e) 0) Hh0), (proj2 (Z.eqb_neq _ _) Hh1). cbn [negb andb assert_ mbind result_bind].
      unfold on_handler, handler_at. cbn [handlers set_heap w1]. rewrite Hx. cbn [mbind result_bind].
      unfold MessageHandler.PostMessage. cbn [MessageHandler.heap MessageHandler.hd]. rewrite (Message.deref_ok _ a m1) by apply lookup_insert_eq.
      cbn [mbind result_bind]. unfold Message.Enqueue. rewrite (Message.deref_ok _ a m1) by apply lookup_insert_eq. cbn [mbind result_bind].
      cbn [Message.next_ m1]. rewrite Hnext, (proj2 (Z.eqb_neq b 0)) by done. by destruct (Message.IsOOB m1). }
    unfold post_for_clear. by rewrite Hpost.
Qed.

End world.

(** ** A world *)

(** The handler at 32 is owned by the port map. *)
Definition demo_kind : HandlerKind := {| OwnedByPortMap h := h =? 32; IsCurrentIsolate h := h =? 16; isolate h := h + 1000 |}.

Definition or_world {A} (d : A) (r : M A) : A := match r with Ok a => a | Err _ => d end.

Section demo.
Local Existing Instance MessageHandler.demo_client.
Local Existing Instance demo_kind.

Definition demo_w0 : World := initial_world (HC := MessageHandler.demo_client) () 12345678.
Definition demo_w1 : World := set_handlers demo_w0 (<[16 := MessageHandler.MessageHandler_new]> (handlers demo_w0)).
Definition demo_created : Z * World := or_world (0, demo_w1) (CreatePort 3 demo_w1 16).
Definition demo_port : Z := demo_created.1.
Definition demo_w2 : World := demo_created.2.
Definition demo_message (dest failure : Z) : Message.Message := Message.mkMessage 0 dest failure 0 8 Message.kNormalPriority.
Definition demo_entry : Entry := mkEntry demo_port 16 kNewPort.
Definition demo_w3 : World := or_world demo_w2 (SetPortState demo_w2 demo_port kLivePort).

Lemma demo_steps : rtc port_step demo_w0 demo_w3 /\ demo_entry ∈ ports (map_ (pm demo_w2)).
Proof.
  assert (demo_entry ∈ ports (map_ (pm demo_w2))) as He by (apply (bool_decide_eq_true_1 _); vm_compute; reflexivity).
  split; [|done].
  eapply rtc_l; [apply (ps_handler _ 16); vm_compute; done|].
  eapply rtc_l; [apply (ps_create _ 16 3 demo_port demo_w2); [by eexists|vm_compute; done|vm_compute; reflexivity]|].
  apply rtc_once. apply (ps_state _ demo_entry kLivePort); [done|done|vm_compute; reflexivity].
Qed.

Lemma PortMap_invariant_witness :
  exists q, world_ok demo_w3 q /\ MessageHandler.live_ports_ <$> handlers demo_w3 !! 16 = Some 1.
Proof.
  destruct (PortMap_invariant (HC := MessageHandler.demo_client) () 12345678 demo_w3 eq_refl (proj1 demo_steps)) as [q Hq].
  exists q. split; [exact Hq|vm_compute; reflexivity].
Defined.

Lemma demo_w3_ok : exists q, world_ok demo_w3 q.
Proof.
  destruct demo_steps as [Hs _]. revert Hs. assert (exists q, world_ok demo_w0 q) as Hq by (eexists; apply initial_world_ok).
  intros Hs. revert Hq. induction Hs as [|x y z Hxy _ IH]; [done|]. intros (q & Hx). apply IH. by eapply port_step_ok.
Qed.

Lemma PortMap_refines_witness :
  exists q w' q', world_ok demo_w3 q /\ ClosePort demo_w3 demo_port = Ok (true, w') /\ world_ok w' q'.
Proof.
  destruct demo_w3_ok as [q Hq]. destruct (PortMap_refines demo_w3 q Hq) as (_ & _ & Hc & _).
  destruct (Hc (mkEntry demo_port 16 kLivePort)) as (w' & q' & H1 & H2 & _).
  - apply (bool_decide_eq_true_1 _). vm_compute. reflexivity.
  - exists q, w', q'. split; [exact Hq|]. split; [exact H1|exact H2].
Defined.

Lemma PostMessage_delivers_witness :
  exists q w', PostMessage (set_heap demo_w3 {[ 64 := demo_message 5 0 ]}) 64 = Ok (false, w') /\ world_ok w' q.
Proof.
  destruct demo_w3_ok as [q Hq]. set (w := set_heap demo_w3 {[ 64 := demo_message 5 0 ]}).
  assert (unqueued w q 64) as Hu.
  { intros h Hh. eapply (mail_no (heap demo_w3)); [apply Hq|done|vm_compute; reflexivity]. }
  assert (world_ok w q) as Hw.
  { destruct Hq as [H1 H2 H3 [Hl Hap Hf]]. split; [done..|]. split; [|done|].
    - intros h x Hx. destruct (Hl h x Hx) as (ns & os & Hlk). exists ns, os.
      change (heap w) with (<[64 := demo_message 5 0]> (heap demo_w3)). apply MessageHandler.linked_new; [vm_compute; reflexivity|done].
    - intros a m Ha. change (heap w) with ({[ 64 := demo_message 5 0 ]} : Heap) in Ha.
      apply lookup_singleton_Some in Ha as [_ <-]. reflexivity. }
  destruct (PostMessage_delivers w q 64 (demo_message 5 0) Hw) as [(e & w' & He & Hpe & _)|(_ & H1 & H2)].
  - reflexivity.
  - vm_compute. reflexivity.
  - done.
  - reflexivity.
  - exact Hu.
  - vm_compute. discriminate.
  - exfalso. assert (Forall (fun e => port e <> 5) (ports (map_ (pm demo_w3)))) as Hf by (apply (bool_decide_eq_true_1 _); vm_compute; reflexivity).
    rewrite Forall_forall in Hf. exact (Hf e He Hpe).
  - eexists q, _. split; [exact H1|exact H2].
Defined.

(** Two messages in a queue, the first of which wants to be sent back. *)
Definition demo_back : World :=
  set_heap demo_w3 {[ 64 := Message.mkMessage 80 5 demo_port 0 8 Message.kNormalPriority; 80 := demo_message 6 0 ]}.

Lemma port_map_gaps_witness :
  FindPort (pm demo_back) (-3) = Err PUndefined /\
  PostMessage demo_back 64 = Err (PMessage Message.MAssertFailed) /\
  Message.Clear heap set_heap post_for_clear demo_back (Message.mkQueue 64 80) = Err Message.MAssertFailed.
Proof.
  destruct demo_w3_ok as [q [H1 H2 H3 _]]. destruct (port_map_gaps demo_back H1 H2) as (G1 & G2 & G3). split_and!.
  - apply G1; [reflexivity|vm_compute; discriminate].
  - eapply G2; [vm_compute; reflexivity|vm_compute; discriminate|vm_compute; discriminate|].
    apply (bool_decide_eq_true_1 _). vm_compute. reflexivity.
  - apply (G3 (Message.mkQueue 64 80) 64 80 [] (Message.mkMessage 80 5 demo_port 0 8 Message.kNormalPriority) (mkEntry demo_port 16 kLivePort)).
    + split.
      * cbn [Message.seg Message.head_]. repeat (split; [done|]; split; [done|]; eexists; split; [vm_compute; reflexivity|]; cbn [Message.next_]). reflexivity.
      * apply (bool_decide_eq_true_1 _). vm_compute. reflexivity.
      * reflexivity.
    + vm_compute. reflexivity.
    + apply (bool_decide_eq_true_1 _). vm_compute. reflexivity.
    + reflexivity.
    + vm_compute. eexists. reflexivity.
Defined.

End demo.

End PortMapProps.
