(* ===== verification/HeapMemory.v ===== *)
(** * The memory of the heap

    The words of heap pages and their protection (class [VirtualMemory] of
    vm/virtual_memory.h, vm/virtual_memory.cc, vm/virtual_memory_linux.cc), the
    tags in the first word of an object (class [RawObject] of vm/raw_object.h)
    and the elements of a free list (class [FreeListElement] of vm/freelist.h and
    vm/freelist.cc).  A pointer is its address.  The size of a page and the answer
    of [mprotect] are the class [OS]; the sizes of Dart objects that are not in
    their tags, which depend on their class, are the class [ObjectSizes]. *)

From stdpp Require Import base numbers list gmap.
From Stdlib Require Import ZArith Lia.
From S2P Require Import Prelude Utils BitField.

Local Open Scope Z_scope.
Local Open Scope mach_scope.

Module HeapMemory.

Inductive heap_error :=
| HAssertFailed
| HFault        (* an access to memory that is not mapped or is protected *)
| HUndefined    (* an index outside an array, an intrinsic at zero *)
| HNoReturn.    (* the rounds of a loop ran out *)

Abbreviation M A := (result heap_error A).
Definition assert_ (b : bool) : M unit := if b then Ok () else Err HAssertFailed.

(** ** Protection *)

Inductive Protection := kNoAccess | kReadOnly | kReadWrite | kReadExecute | kReadWriteExecute.

#[export] Instance Protection_eq_dec : EqDecision Protection.
Proof. solve_decision. Defined.

Definition can_read (p : Protection) : bool := negb (bool_decide (p = kNoAccess)).
Definition can_write (p : Protection) : bool :=
  bool_decide (p = kReadWrite) || bool_decide (p = kReadWriteExecute).

(** The operating system: [getpagesize], and whether [mprotect] of a page
    aligned range succeeds. *)
Class OS := {
  page_size_log2 : Z;
  page_size_ok : 12 <= page_size_log2 <= 24;
  mprotect_succeeds : Z -> Z -> bool
}.

(** [words]: the mapped words, by address; [prot]: the protection of the page
    that starts at an address. *)
Record Memory := mkMemory { words : gmap Z Z; prot : Z -> Protection }.

Section memory.
Context {T : Target} {Os : OS}.

Definition kWordSizeLog2 : Z := if kBitsPerWord =? 32 then 2 else 3.
Definition kWordSize : Z := if kBitsPerWord =? 32 then 4 else 8.
Definition kBitsPerByteLog2 : Z := 3.
Definition kBitsPerWordLog2 : Z := kWordSizeLog2 + kBitsPerByteLog2.
Definition uword (z : Z) : Z := wrapU kBitsPerWord z.
Definition intptr (z : Z) : Z := wrapS kBitsPerWord z.

Definition kObjectAlignment : Z := 2 * kWordSize.
Definition kObjectAlignmentLog2 : Z := kWordSizeLog2 + 1.
Definition kObjectAlignmentMask : Z := kObjectAlignment - 1.
Definition kOldObjectAlignmentOffset : Z := 0.
Definition kHeapObjectTag : Z := 1.
Definition kSmiTagMask : Z := 1.

Definition PageSize : Z := 2 ^ page_size_log2.

Definition page_of (a : Z) : Z := Utils.RoundDown uword a PageSize.
Definition InSamePage (address0 address1 : Z) : bool := page_of address0 =? page_of address1.

(** [mprotect(page_address, len, prot)] changes the pages that contain a part of
    the range. *)
Definition mprotect (mem : Memory) (page_address len : Z) (mode : Protection) : Memory :=
  mkMemory (words mem)
    (fun p => if (page_address <=? p) && (p <? page_address + len) then mode else prot mem p).

Definition Protect (mem : Memory) (address size : Z) (mode : Protection) : bool * Memory :=
  let start_address := address in
  let end_address := uword (start_address + size) in
  let page_address := page_of start_address in
  let len := uword (end_address - page_address) in
  if mprotect_succeeds page_address len then (true, mprotect mem page_address len mode) else (false, mem).

(** [bool status = Protect(...); ASSERT(status);] *)
Definition protect_ (mem : Memory) (address size : Z) (mode : Protection) : M Memory :=
  let '(status, mem) := Protect mem address size mode in
  assert_ status;; Ok mem.

Definition load (mem : Memory) (a : Z) : M Z :=
  if can_read (prot mem (page_of a)) then
    match words mem !! a with Some v => Ok v | None => Err HFault end
  else Err HFault.

Definition store (mem : Memory) (a v : Z) : M Memory :=
  if can_write (prot mem (page_of a)) then
    match words mem !! a with
    | Some _ => Ok (mkMemory (<[a := v]> (words mem)) (prot mem))
    | None => Err HFault
    end
  else Err HFault.

(** ** Tags *)

Definition kMarkBit : Z := 1.
Definition kReservedTagPos : Z := 5.
Definition kReservedTagSize : Z := if kBitsPerWord =? 32 then 3 else 11.
Definition kSizeTagPos : Z := kReservedTagPos + kReservedTagSize.
Definition kSizeTagSize : Z := if kBitsPerWord =? 32 then 8 else 16.
Definition kClassIdTagPos : Z := kSizeTagPos + kSizeTagSize.
Definition kClassIdTagSize : Z := if kBitsPerWord =? 32 then 16 else 32.

Definition kMaxSizeTag : Z := ((1 <<< kSizeTagSize) - 1) <<< kObjectAlignmentLog2.

(** [BitField::update] with its assertion. *)
Definition field_update (position size value original : Z) : M Z :=
  assert_ (BitField.is_valid kBitsPerWord size value);;
  Ok (BitField.update kBitsPerWord position size value original).

Definition SizeToTagValue (size : Z) : M Z :=
  assert_ (Utils.IsAligned size kObjectAlignment);;
  Ok (if size >? kMaxSizeTag then 0 else size >>> kObjectAlignmentLog2).

Definition TagValueToSize (value : Z) : Z := intptr (value <<< kObjectAlignmentLog2).

Definition SizeTag_decode (tag : Z) : Z :=
  TagValueToSize (intptr (BitField.decode kBitsPerWord kSizeTagPos kSizeTagSize tag)).

Definition SizeTag_update (size tag : Z) : M Z :=
  value ← SizeToTagValue size; field_update kSizeTagPos kSizeTagSize value tag.

Definition ClassIdTag_decode (tags : Z) : Z := intptr (BitField.decode kBitsPerWord kClassIdTagPos kClassIdTagSize tags).

Definition IsWellFormed (value : Z) : bool :=
  (value .& kSmiTagMask =? 0) || Utils.IsAligned (uword (value - kHeapObjectTag)) kWordSize.

Definition IsHeapObject (value : Z) : M bool :=
  assert_ (IsWellFormed value);; Ok (value .& kSmiTagMask =? kHeapObjectTag).

(** ** FreeListElement *)

(** 0 is [kIllegalCid]; then [Object] and the other 67 classes of [CLASS_LIST],
    the 14 typed data classes, their 14 views, [kByteDataViewCid], their 14
    external classes, [kByteBufferCid], [kNullCid], [kDynamicCid], [kVoidCid]. *)
Definition kFreeListElement : Z := 1 + 1 + 67 + 14 + 14 + 1 + 14 + 1 + 3.

Definition next_address (element : Z) : Z := uword (element + kWordSize).
Definition SizeAddress (element : Z) : Z := uword (next_address element + kWordSize).

Definition next (mem : Memory) (element : Z) : M Z := load mem (next_address element).
Definition set_next (mem : Memory) (element n : Z) : M Memory := store mem (next_address element) n.

Definition Size (mem : Memory) (element : Z) : M Z :=
  tags ← load mem element;
  let size := SizeTag_decode tags in
  if negb (size =? 0) then Ok size
  else size ← load mem (SizeAddress element); Ok (intptr size).

Definition AsElement (mem : Memory) (addr size : Z) : M Memory :=
  assert_ (kObjectAlignment <=? size);;
  assert_ (Utils.IsAligned size kObjectAlignment);;
  tags ← SizeTag_update size 0;
  tags ← field_update kClassIdTagPos kClassIdTagSize kFreeListElement tags;
  heap_object ← IsHeapObject tags;
  assert_ (negb heap_object);;
  mem ← store mem addr tags;
  mem ← (if size >? kMaxSizeTag then store mem (SizeAddress addr) (uword size) else Ok mem);
  set_next mem addr 0.

Definition HeaderSizeFor (size : Z) : Z :=
  if size =? 0 then 0 else (if size >? kMaxSizeTag then 3 else 2) * kWordSize.

(** ** Facts on words and pages *)

Lemma word_cases :
  (kBitsPerWord = 32 /\ kWordSize = 4 /\ kWordSizeLog2 = 2 /\ kSizeTagPos = 8 /\ kSizeTagSize = 8 /\ kClassIdTagPos = 16 /\ kClassIdTagSize = 16) \/
  (kBitsPerWord = 64 /\ kWordSize = 8 /\ kWordSizeLog2 = 3 /\ kSizeTagPos = 16 /\ kSizeTagSize = 16 /\ kClassIdTagPos = 32 /\ kClassIdTagSize = 32).
Proof.
  unfold kWordSize, kWordSizeLog2, kSizeTagPos, kClassIdTagPos, kSizeTagPos, kReservedTagPos, kReservedTagSize, kSizeTagSize, kClassIdTagSize.
  destruct kBitsPerWord_ok as [-> | ->]; cbn; auto 10.
Qed.

Lemma kWordSize_cases : kWordSize = 4 \/ kWordSize = 8.
Proof. destruct word_cases as [H|H]; intuition. Qed.

Lemma kObjectAlignment_pow2 : kObjectAlignment = 2 ^ kObjectAlignmentLog2.
Proof. unfold kObjectAlignment, kObjectAlignmentLog2. by destruct word_cases as [(_ & -> & -> & _)|(_ & -> & -> & _)]. Qed.

Lemma kMaxSizeTag_value : kMaxSizeTag = (2 ^ kSizeTagSize - 1) * kObjectAlignment.
Proof.
  unfold kMaxSizeTag. rewrite kObjectAlignment_pow2, Z.shiftl_mul_pow2, Z.shiftl_1_l; [done|].
  unfold kObjectAlignmentLog2. destruct word_cases as [H|H]; lia.
Qed.

Lemma aligned_iff s : Utils.IsAligned s kObjectAlignment = true <-> s mod kObjectAlignment = 0.
Proof.
  rewrite kObjectAlignment_pow2. apply Utils.IsAligned_spec.
  unfold kObjectAlignmentLog2. destruct word_cases as [H|H]; lia.
Qed.

(** The page of an address: rounding down. *)
Lemma page_of_spec a : isU kBitsPerWord a -> page_of a = a / PageSize * PageSize.
Proof.
  intros Ha. unfold page_of, Utils.RoundDown, PageSize, isU in *. pose proof page_size_ok.
  rewrite Utils.RoundDown_pow2 by lia. apply wrapU_id. unfold isU.
  pose proof (pow2_pos page_size_log2). pose proof (Z.mul_div_le a (2 ^ page_size_log2)).
  pose proof (Z.div_pos a (2 ^ page_size_log2)). nia.
Qed.

Lemma PageSize_pos : 4096 <= PageSize.
Proof. unfold PageSize. pose proof page_size_ok. apply (Z.pow_le_mono_r 2 12); lia. Qed.

Lemma page_of_le a : isU kBitsPerWord a -> page_of a <= a < page_of a + PageSize.
Proof.
  intros Ha. rewrite page_of_spec by done. pose proof PageSize_pos.
  pose proof (Z.div_mod a PageSize ltac:(lia)). pose proof (Z.mod_pos_bound a PageSize ltac:(lia)). lia.
Qed.

Lemma page_of_mono a b : isU kBitsPerWord a -> isU kBitsPerWord b -> a <= b -> page_of a <= page_of b.
Proof.
  intros Ha Hb Hab. rewrite !page_of_spec by done. pose proof PageSize_pos.
  apply Z.mul_le_mono_nonneg_r; [lia|]. apply Z.div_le_mono; lia.
Qed.

(** ** Blocks *)

(** A block of the heap: aligned, and inside the address space. *)
Record block_ok (a s : Z) : Prop := {
  bo_pos : 0 < a;
  bo_addr : a mod kObjectAlignment = 0;
  bo_min : kObjectAlignment <= s;
  bo_size : s mod kObjectAlignment = 0;
  bo_end : a + s < 2 ^ kBitsPerWord;
  bo_max : s < 2 ^ (kBitsPerWord - 1)
}.

Definition mapped (mem : Memory) (a s : Z) : Prop :=
  forall w, a <= w < a + s -> w mod kWordSize = 0 -> is_Some (words mem !! w).
Definition writable (mem : Memory) (a s : Z) : Prop :=
  forall w, a <= w < a + s -> can_write (prot mem (page_of w)) = true.
Definition readable (mem : Memory) : Prop :=
  forall w, is_Some (words mem !! w) -> can_read (prot mem (page_of w)) = true.

(** [mem'] differs from [mem] in words of [P] only, and maps the same words. *)
Definition changes (P : Z -> Prop) (mem mem' : Memory) : Prop :=
  (forall w, is_Some (words mem' !! w) <-> is_Some (words mem !! w)) /\
  (forall w, ~ P w -> words mem' !! w = words mem !! w).

Definition in_block (a s : Z) (w : Z) : Prop := a <= w < a + s.

#[global] Instance changes_refl P : Reflexive (changes P).
Proof. intros m. split; [done|done]. Qed.

Lemma changes_trans P Q R m1 m2 m3 :
  changes P m1 m2 -> changes Q m2 m3 -> (forall w, P w \/ Q w -> R w) -> changes R m1 m3.
Proof.
  intros [Ha Hb] [Hc Hd] HR. split; [intros w; by rewrite Hc|].
  intros w Hw. rewrite Hd, Hb; [done|..]; intros ?; apply Hw, HR; auto.
Qed.

Lemma changes_weaken (P Q : Z -> Prop) m1 m2 : changes P m1 m2 -> (forall w, P w -> Q w) -> changes Q m1 m2.
Proof. intros [Ha Hb] H. split; [done|]. intros w Hw. apply Hb. auto. Qed.

Lemma changes_mapped P m1 m2 a s : changes P m1 m2 -> mapped m1 a s -> mapped m2 a s.
Proof. intros [Ha _] Hm w Hw Hal. apply Ha, Hm; done. Qed.

Lemma load_ok mem a v : readable mem -> words mem !! a = Some v -> load mem a = Ok v.
Proof. intros Hr Ha. unfold load. by rewrite (Hr a), Ha by eauto. Qed.

Lemma store_ok mem a v :
  can_write (prot mem (page_of a)) = true -> is_Some (words mem !! a) ->
  store mem a v = Ok (mkMemory (<[a := v]> (words mem)) (prot mem)).
Proof. intros Hw [x Hx]. unfold store. by rewrite Hw, Hx. Qed.

Lemma store_changes mem a v :
  is_Some (words mem !! a) -> changes (eq a) mem (mkMemory (<[a := v]> (words mem)) (prot mem)).
Proof.
  intros Ha. split; cbn; intros w.
  - destruct (decide (a = w)) as [->|]; [rewrite lookup_insert_eq|rewrite lookup_insert_ne by done; done]. split; eauto.
  - intros Hw. by rewrite lookup_insert_ne.
Qed.

Lemma changes_readable P m1 m2 : changes P m1 m2 -> prot m2 = prot m1 -> readable m1 -> readable m2.
Proof. intros [Ha _] Hp Hr w Hw. rewrite Hp. apply Hr, Ha, Hw. Qed.

(** ** Tags *)

Lemma field_update_ok p n v o :
  0 <= p -> 0 < n -> p + n <= kBitsPerWord -> isU n v ->
  field_update p n v o = Ok (BitField.update kBitsPerWord p n v o).
Proof.
  intros Hp Hn Hpn Hv. unfold field_update. rewrite (proj2 (BitField.is_valid_spec kBitsPerWord p n Hp Hn Hpn v ltac:(
    unfold isU in *; pose proof (Z.pow_le_mono_r 2 n kBitsPerWord); lia))); done.
Qed.

Definition tag_value (s : Z) : Z := if s >? kMaxSizeTag then 0 else s >>> kObjectAlignmentLog2.
Definition element_tags (s : Z) : Z :=
  BitField.update kBitsPerWord kClassIdTagPos kClassIdTagSize kFreeListElement
    (BitField.update kBitsPerWord kSizeTagPos kSizeTagSize (tag_value s) 0).

Lemma tag_value_div s : tag_value s = if s >? kMaxSizeTag then 0 else s / kObjectAlignment.
Proof.
  unfold tag_value. rewrite kObjectAlignment_pow2, Z.shiftr_div_pow2; [done|].
  unfold kObjectAlignmentLog2. destruct word_cases as [H|H]; lia.
Qed.

Lemma tag_value_range s : 0 <= s -> isU kSizeTagSize (tag_value s).
Proof.
  intros Hs. rewrite tag_value_div. unfold isU.
  assert (0 < 2 ^ kSizeTagSize) by (apply pow2_pos; destruct word_cases as [H|H]; lia).
  pose proof kMaxSizeTag_value as Hm. pose proof kWordSize_cases. unfold kObjectAlignment in *.
  destruct (Z.gtb_spec s kMaxSizeTag); [lia|]. split; [apply Z.div_pos; lia|].
  apply Z.div_lt_upper_bound; nia.
Qed.

Lemma kFreeListElement_range : isU kClassIdTagSize kFreeListElement.
Proof. unfold isU, kFreeListElement. destruct word_cases as [(_&_&_&_&_&_&->)|(_&_&_&_&_&_&->)]; lia. Qed.

Lemma fields_fit :
  0 <= kSizeTagPos /\ 0 < kSizeTagSize /\ kSizeTagPos + kSizeTagSize = kClassIdTagPos /\ 0 < kClassIdTagSize /\
  kClassIdTagPos + kClassIdTagSize = kBitsPerWord /\ 4 < kSizeTagPos /\ kSizeTagSize + kObjectAlignmentLog2 < kBitsPerWord - 1.
Proof. unfold kObjectAlignmentLog2. destruct word_cases as [H|H]; lia. Qed.

Lemma element_tags_parts s :
  0 <= s -> isU kBitsPerWord (BitField.update kBitsPerWord kSizeTagPos kSizeTagSize (tag_value s) 0) /\
  isU kBitsPerWord (element_tags s).
Proof.
  intros Hs. destruct fields_fit as (?&?&?&?&?&?&?).
  assert (isU kBitsPerWord (BitField.update kBitsPerWord kSizeTagPos kSizeTagSize (tag_value s) 0)).
  { apply BitField.update_range; [lia..|by apply tag_value_range|]. unfold isU. pose proof (pow2_pos kBitsPerWord). lia. }
  split; [done|]. apply BitField.update_range; [lia..|apply kFreeListElement_range|done].
Qed.

(** The size field of a word of tags, in bytes. *)
Lemma SizeTag_decode_spec tags :
  SizeTag_decode tags = BitField.decode kBitsPerWord kSizeTagPos kSizeTagSize tags * kObjectAlignment.
Proof.
  destruct fields_fit as (?&?&?&?&?&?&?).
  assert (isU kSizeTagSize (BitField.decode kBitsPerWord kSizeTagPos kSizeTagSize tags)) as Hr by (apply BitField.decode_range; lia).
  set (v := BitField.decode _ _ _ tags) in *. unfold SizeTag_decode, TagValueToSize, intptr. fold v. unfold isU in Hr.
  assert (0 <= kObjectAlignmentLog2) by (unfold kObjectAlignmentLog2; destruct word_cases as [Hc|Hc]; lia).
  assert (2 ^ kSizeTagSize * 2 ^ kObjectAlignmentLog2 <= 2 ^ (kBitsPerWord - 1)).
  { rewrite <- Z.pow_add_r by lia. apply Z.pow_le_mono_r; lia. }
  pose proof (pow2_pos kObjectAlignmentLog2 ltac:(lia)).
  rewrite (wrapS_id _ v), wrapS_id, Z.shiftl_mul_pow2, kObjectAlignment_pow2; try (unfold isS; rewrite ?Z.shiftl_mul_pow2; nia).
Qed.

Lemma SizeTag_decode_element s :
  0 <= s -> s mod kObjectAlignment = 0 -> SizeTag_decode (element_tags s) = if s >? kMaxSizeTag then 0 else s.
Proof.
  intros Hs Ha. destruct fields_fit as (?&?&?&?&?&?&?). rewrite SizeTag_decode_spec. unfold element_tags.
  rewrite BitField.decode_update_disjoint; [|lia..|right; lia|apply kFreeListElement_range|by apply element_tags_parts].
  rewrite BitField.decode_update; [|lia..|by apply tag_value_range|unfold isU; pose proof (pow2_pos kBitsPerWord); lia].
  rewrite tag_value_div. destruct (s >? kMaxSizeTag); [done|].
  pose proof kWordSize_cases. unfold kObjectAlignment in *. pose proof (Z.div_mod s (2 * kWordSize) ltac:(lia)). lia.
Qed.

Lemma ClassIdTag_decode_element s : 0 <= s -> ClassIdTag_decode (element_tags s) = kFreeListElement.
Proof.
  intros Hs. destruct fields_fit as (?&?&?&?&?&?&?). unfold ClassIdTag_decode, element_tags.
  rewrite BitField.decode_update; [|lia..|apply kFreeListElement_range|by apply element_tags_parts].
  apply wrapS_id; [lia|]. unfold isS, kFreeListElement. destruct word_cases as [(->&_)|(->&_)]; lia.
Qed.

(** A word of tags looks like a small integer, and has no mark. *)
Lemma element_tags_bit s i : 0 <= s -> 0 <= i <= 4 -> Z.testbit (element_tags s) i = false.
Proof.
  intros Hs Hi. destruct fields_fit as (?&?&?&?&?&?&?). unfold element_tags.
  rewrite BitField.testbit_update; [|lia..|apply kFreeListElement_range|by apply element_tags_parts|lia]. zcmp.
  rewrite BitField.testbit_update; [|lia..|by apply tag_value_range|unfold isU; pose proof (pow2_pos kBitsPerWord); lia|lia]. zcmp.
  by rewrite Z.bits_0.
Qed.

Lemma land_1_testbit z : z .& 1 = Z.b2z (Z.testbit z 0).
Proof. change 1 with (Z.ones 1). rewrite land_ones_wrapU by lia. unfold wrapU. by rewrite Z.bit0_mod. Qed.

Lemma element_tags_smi s : 0 <= s -> IsHeapObject (element_tags s) = Ok false.
Proof.
  intros Hs. unfold IsHeapObject, IsWellFormed, kSmiTagMask, kHeapObjectTag.
  by rewrite land_1_testbit, element_tags_bit by lia.
Qed.

(** ** Elements *)

(** A free list element: its tags, its link, and its size when that does not fit
    into the tags. *)
Definition element (mem : Memory) (a s n : Z) : Prop :=
  words mem !! a = Some (element_tags s) /\ words mem !! (a + kWordSize) = Some n /\
  (kMaxSizeTag < s -> words mem !! (a + 2 * kWordSize) = Some s).

Lemma block_addresses a s :
  block_ok a s -> next_address a = a + kWordSize /\ (kMaxSizeTag < s -> SizeAddress a = a + 2 * kWordSize) /\
  HeaderSizeFor s <= s /\ 2 * kWordSize <= HeaderSizeFor s /\ (kMaxSizeTag < s -> HeaderSizeFor s = 3 * kWordSize).
Proof.
  intros [? ? Hm ? ? ?]. unfold next_address, SizeAddress, HeaderSizeFor, uword, kObjectAlignment in *. unfold next_address, uword.
  pose proof kWordSize_cases. pose proof kMaxSizeTag_value as Hmax. unfold kObjectAlignment in *.
  assert (2 * (2 * kWordSize) <= kMaxSizeTag).
  { rewrite Hmax. destruct word_cases as [(_&->&_&_&->&_)|(_&->&_&_&->&_)]; lia. }
  rewrite (wrapU_id _ (a + kWordSize)) by (unfold isU; lia).
  destruct (Z.eqb_spec s 0); [lia|]. destruct (Z.gtb_spec s kMaxSizeTag); split_and!; try lia.
  intros _. rewrite wrapU_id by (unfold isU; lia). lia.
Qed.

Lemma Size_ok mem a s n : readable mem -> block_ok a s -> element mem a s n -> Size mem a = Ok s.
Proof.
  intros Hr Hb (Ht & Hn & Hs). pose proof (block_addresses _ _ Hb) as (_ & Hsa & _).
  destruct Hb as [? ? Hm ? ? ?]. pose proof kWordSize_cases. unfold Size. rewrite (load_ok _ _ _ Hr Ht). cbn [mbind result_bind].
  rewrite SizeTag_decode_element by (unfold kObjectAlignment in *; lia). destruct (Z.gtb_spec s kMaxSizeTag) as [Hg|Hg].
  - rewrite Hsa by done. rewrite (load_ok _ _ _ Hr (Hs Hg)). cbn. unfold intptr. rewrite wrapS_id; [done|destruct word_cases as [Hc|Hc]; lia|].
    unfold isS, kObjectAlignment in *. lia.
  - destruct (Z.eqb_spec s 0); [unfold kObjectAlignment in *; lia|done].
Qed.

Lemma next_ok mem a s n : readable mem -> block_ok a s -> element mem a s n -> next mem a = Ok n.
Proof. intros Hr Hb (_ & Hn & _). unfold next. rewrite (proj1 (block_addresses _ _ Hb)). by apply load_ok. Qed.

Lemma element_set_next_ok mem a s n n' :
  block_ok a s -> element mem a s n -> can_write (prot mem (page_of (a + kWordSize))) = true ->
  exists mem', set_next mem a n' = Ok mem' /\ element mem' a s n' /\ prot mem' = prot mem /\ changes (eq (a + kWordSize)) mem mem'.
Proof.
  intros Hb (Ht & Hn & Hs) Hw. unfold set_next. rewrite (proj1 (block_addresses _ _ Hb)), store_ok by eauto.
  eexists. split; [done|]. pose proof kWordSize_cases. split_and!; [|done|by apply store_changes; eauto].
  split_and!; cbn; [by rewrite lookup_insert_ne by lia|by rewrite lookup_insert_eq|].
  intros. rewrite lookup_insert_ne by lia. auto.
Qed.

Lemma element_unchanged P mem mem' a s n :
  changes P mem mem' -> (forall w, a <= w < a + HeaderSizeFor s -> ~ P w) -> block_ok a s -> element mem a s n -> element mem' a s n.
Proof.
  intros [_ Hc] HP Hb (Ht & Hn & Hs). pose proof (block_addresses _ _ Hb) as (_ & _ & _ & H2 & H3). pose proof kWordSize_cases.
  split_and!; [rewrite Hc; [done|apply HP; lia]..|]. intros Hg. rewrite Hc; [auto|]. apply HP. rewrite (H3 Hg). lia.
Qed.

Lemma AsElement_ok mem a s :
  block_ok a s -> mapped mem a (HeaderSizeFor s) -> writable mem a (HeaderSizeFor s) ->
  exists mem', AsElement mem a s = Ok mem' /\ element mem' a s 0 /\ prot mem' = prot mem /\
    changes (in_block a (HeaderSizeFor s)) mem mem'.
Proof.
  intros Hb Hm Hw. pose proof (block_addresses _ _ Hb) as (Hna & Hsa & _ & H2 & H3). pose proof Hb as [Hp Ha Hmin Hs He Hx].
  pose proof kWordSize_cases as Hws. destruct fields_fit as (?&?&?&?&?&?&?). unfold AsElement.
  rewrite (proj2 (Z.leb_le _ _) Hmin), (proj2 (aligned_iff s) Hs). cbn [assert_ mbind result_bind].
  unfold SizeTag_update, SizeToTagValue. rewrite (proj2 (aligned_iff s) Hs). cbn [assert_ mbind result_bind]. fold (tag_value s).
  assert (0 <= s) as Hs0 by (unfold kObjectAlignment in *; lia).
  rewrite field_update_ok by (try lia; by apply tag_value_range). cbn [mbind result_bind].
  rewrite field_update_ok by (try lia; apply kFreeListElement_range). cbn [mbind result_bind]. fold (element_tags s).
  rewrite element_tags_smi by done. cbn [assert_ mbind result_bind negb].
  assert (forall k, k < 3 -> 0 <= k -> k * kWordSize < HeaderSizeFor s -> is_Some (words mem !! (a + k * kWordSize))) as Hmp.
  { intros k Hk Hk0 Hkh. apply Hm; [nia|]. unfold kObjectAlignment in Ha. rewrite Z.mod_add by lia.
    rewrite (Z.div_mod a (2 * kWordSize)), Ha, Z.add_0_r by lia. replace (2 * kWordSize * (a / (2 * kWordSize))) with (2 * (a / (2 * kWordSize)) * kWordSize) by lia.
    apply Z.mod_mul. lia. }
  pose proof (Hmp 0 ltac:(lia) ltac:(lia) ltac:(lia)) as Hm0. rewrite Z.mul_0_l, Z.add_0_r in Hm0.
  pose proof (Hmp 1 ltac:(lia) ltac:(lia) ltac:(lia)) as Hm1. rewrite Z.mul_1_l in Hm1.
  rewrite store_ok by (done || apply Hw; lia). cbn [mbind result_bind]. unfold set_next. rewrite Hna.
  set (m1 := mkMemory _ (prot mem)). assert (changes (in_block a (HeaderSizeFor s)) mem m1) as Hc1.
  { eapply changes_weaken; [by apply store_changes|]. unfold in_block. intros w <-. lia. }
  assert (exists m2, (if s >? kMaxSizeTag then store m1 (SizeAddress a) (uword s) else Ok m1) = Ok m2 /\ prot m2 = prot mem /\
    words m2 !! a = Some (element_tags s) /\ changes (in_block a (HeaderSizeFor s)) mem m2 /\
    (kMaxSizeTag < s -> words m2 !! (a + 2 * kWordSize) = Some s)) as (m2 & -> & Hp2 & Ht2 & Hc2 & Hs2).
  { destruct (Z.gtb_spec s kMaxSizeTag) as [Hg|Hg].
    - pose proof (Hmp 2 ltac:(lia) ltac:(lia) ltac:(rewrite (H3 Hg); lia)) as Hm2. rewrite (Hsa Hg), store_ok.
      + eexists. split; [done|]. unfold uword. rewrite wrapU_id by (unfold isU; lia). split_and!; cbn; [done|..].
        * rewrite lookup_insert_ne by lia. by rewrite lookup_insert_eq.
        * eapply changes_trans; [exact Hc1|apply (store_changes m1); by apply Hc1|]. unfold in_block. rewrite (H3 Hg). intros w [?|<-]; lia.
        * intros _. by rewrite lookup_insert_eq.
      + apply Hw. rewrite (H3 Hg). lia.
      + by apply Hc1.
    - eexists. split; [done|]. split_and!; [done|cbn; by rewrite lookup_insert_eq|done|lia]. }
  cbn [mbind result_bind]. rewrite store_ok by (rewrite ?Hp2; first [apply Hw; lia|by apply Hc2]).
  eexists. split; [done|]. split_and!; cbn; [split_and!|done|].
  - cbn. rewrite lookup_insert_ne by lia. done.
  - cbn. by rewrite lookup_insert_eq.
  - intros Hg. cbn. rewrite lookup_insert_ne by lia. auto.
  - eapply changes_trans; [exact Hc2|apply (store_changes m2); by apply Hc2|]. unfold in_block. intros w [?|<-]; lia.
Qed.

(** ** Memory from the operating system *)

(** [n] words from address [a] on, all zero. *)
Definition zeroed (a : Z) (n : nat) : gmap Z Z := list_to_map ((fun k => (a + k * kWordSize, 0)) <$> seqZ 0 (Z.of_nat n)).

Lemma zeroed_lookup a n w :
  zeroed a n !! w = if bool_decide ((w - a) mod kWordSize = 0 /\ 0 <= (w - a) / kWordSize < Z.of_nat n) then Some 0 else None.
Proof.
  unfold zeroed. pose proof kWordSize_cases as Hws. case_bool_decide as H.
  - destruct H as [H1 H2]. apply elem_of_list_to_map_1'; [by intros y (k & [= _ ->] & _)%list_elem_of_fmap|]. apply list_elem_of_fmap.
    exists ((w - a) / kWordSize). split; [|apply elem_of_seqZ; lia]. pose proof (Z.div_mod (w - a) kWordSize ltac:(lia)). f_equal. lia.
  - apply not_elem_of_list_to_map_1. rewrite <- list_fmap_compose. intros (k & Hw & Hk%elem_of_seqZ)%list_elem_of_fmap. cbn in Hw. apply H. subst w.
    replace (a + k * kWordSize - a) with (k * kWordSize) by lia. rewrite Z.mod_mul, Z.div_mul by lia. lia.
Qed.

Lemma zeroed_mapped a n p : a mod kWordSize = 0 -> mapped (mkMemory (zeroed a n) p) a (Z.of_nat n * kWordSize).
Proof.
  intros Ha w Hw Hal. cbn. rewrite zeroed_lookup. pose proof kWordSize_cases as Hws. rewrite bool_decide_true; [eauto|]. split.
  - by rewrite Zminus_mod, Ha, Hal, Z.mod_0_l by lia.
  - split; [apply Z.div_pos; lia|apply Z.div_lt_upper_bound; lia].
Qed.

End memory.

End HeapMemory.
