(* ===== verification/BitSet.v ===== *)
(** * vm/bit_set.h

    [BitSet<N>]: a set of numbers below [N] as the bits of an array of words.
    [CountLeadingZeros] and [CountTrailingZeros] (platform/utils_linux.h) are the
    compiler's intrinsics, which are undefined at zero. *)

From stdpp Require Import base numbers list.
From Stdlib Require Import ZArith Lia Btauto.
From S2P Require Import Prelude HeapMemory.

Local Open Scope Z_scope.
Local Open Scope mach_scope.

Module BitSet.
Import HeapMemory.

Fixpoint trailing_zeros (p : positive) : Z :=
  match p with xO p => 1 + trailing_zeros p | _ => 0 end.

Section bitset.
Context {T : Target}.

Definition CountTrailingZeros (x : Z) : M Z :=
  match x with Zpos p => Ok (trailing_zeros p) | _ => Err HUndefined end.
Definition CountLeadingZeros (x : Z) : M Z :=
  match x with Zpos _ => Ok (kBitsPerWord - 1 - Z.log2 x) | _ => Err HUndefined end.

(** [data_]. *)
Abbreviation BitSet := (list Z).

Context (N : Z).

Definition kLengthInWords : Z := 1 + Z.quot (N - 1) kBitsPerWord.

Definition word_at (data_ : BitSet) (w : Z) : M Z :=
  if w <? 0 then Err HUndefined
  else match data_ !! Z.to_nat w with Some d => Ok d | None => Err HUndefined end.

Definition Reset : BitSet := replicate (Z.to_nat kLengthInWords) 0.

Definition Set_ (data_ : BitSet) (i : Z) (value : bool) : M BitSet :=
  assert_ (0 <=? i);;
  assert_ (i <? N);;
  let mask := uword (1 <<< (i .& (kBitsPerWord - 1))) in
  d ← word_at data_ (i >>> kBitsPerWordLog2);
  Ok (<[Z.to_nat (i >>> kBitsPerWordLog2) := if value then d .| mask else d .& uword (Z.lnot mask)]> data_).

Definition Test (data_ : BitSet) (i : Z) : M bool :=
  assert_ (0 <=? i);;
  assert_ (i <? N);;
  let mask := uword (1 <<< (i .& (kBitsPerWord - 1))) in
  d ← word_at data_ (i >>> kBitsPerWordLog2);
  Ok (negb (d .& mask =? 0)).

(** [while (++w < kLengthInWords) ...]: [rest] is what is left of [data_] from
    word [w] on. *)
Fixpoint Next_loop (rest : list Z) (w : Z) : M Z :=
  match rest with
  | [] => Ok (-1)
  | d :: rest =>
      if negb (d =? 0) then tz ← CountTrailingZeros d; Ok ((w <<< kBitsPerWordLog2) + tz)
      else Next_loop rest (w + 1)
  end.

Definition Next (data_ : BitSet) (i : Z) : M Z :=
  assert_ (0 <=? i);;
  assert_ (i <? N);;
  let w := i >>> kBitsPerWordLog2 in
  let mask := uword (uword (Z.lnot 0) <<< (i .& (kBitsPerWord - 1))) in
  d ← word_at data_ w;
  if negb (d .& mask =? 0) then
    tz ← CountTrailingZeros (d .& mask);
    Ok ((w <<< kBitsPerWordLog2) + tz)
  else Next_loop (drop (Z.to_nat (w + 1)) data_) (w + 1).

(** The search backwards for a word that is not zero, from word [w] on: [seen] is
    the array below word [w], reversed; [bits] is word [w]. *)
Fixpoint find_previous (seen : list Z) (bits w : Z) : Z * Z :=
  if negb (bits =? 0) then (bits, w)
  else match seen with [] => (bits, w) | b :: seen => find_previous seen b (w - 1) end.

Definition last_of (p : Z * Z) : M Z :=
  let '(bits, w) := p in
  if bits =? 0 then Ok (-1)
  else lz ← CountLeadingZeros bits; Ok (((w + 1) <<< kBitsPerWordLog2) - lz - 1).

(** [for (int w = kLengthInWords - 1; w >= 0; --w)], over the reversed array. *)
Fixpoint Last_loop (rest : list Z) (w : Z) : M Z :=
  match rest with
  | [] => Ok (-1)
  | d :: rest =>
      if negb (d =? 0) then lz ← CountLeadingZeros d; Ok (((w + 1) <<< kBitsPerWordLog2) - lz - 1)
      else Last_loop rest (w - 1)
  end.

Definition Last (data_ : BitSet) : M Z := Last_loop (reverse data_) (kLengthInWords - 1).

Definition ClearLastAndFindPrevious (data_ : BitSet) (current_last : Z) : M (Z * BitSet) :=
  t ← Test data_ current_last;
  assert_ t;;
  l ← Last data_;
  assert_ (l =? current_last);;
  let w := current_last >>> kBitsPerWordLog2 in
  bits ← word_at data_ w;
  let bits := bits .^ uword (1 <<< (current_last .& (kBitsPerWord - 1))) in
  let data_ := <[Z.to_nat w := bits]> data_ in
  r ← last_of (find_previous (reverse (take (Z.to_nat w) data_)) bits w);
  Ok (r, data_).

(** ** The set a BitSet denotes *)

Definition has (data_ : BitSet) (i : Z) : bool :=
  (0 <=? i) && Z.testbit (default 0 (data_ !! Z.to_nat (i / kBitsPerWord))) (i mod kBitsPerWord).

Record bits_ok (data_ : BitSet) : Prop := {
  bk_length : Z.of_nat (length data_) = kLengthInWords;
  bk_words : Forall (isU kBitsPerWord) data_;
  bk_bound i : N <= i -> has data_ i = false
}.

(** [r] is the greatest number of the set below [bound], or -1. *)
Definition is_last (data_ : BitSet) (bound r : Z) : Prop :=
  (r = -1 /\ forall j, j < bound -> has data_ j = false) \/
  (0 <= r < bound /\ has data_ r = true /\ forall j, r < j < bound -> has data_ j = false).

(** [r] is the least number of the set from [start] on, or -1. *)
Definition is_next (data_ : BitSet) (start r : Z) : Prop :=
  (r = -1 /\ forall j, start <= j -> has data_ j = false) \/
  (start <= r /\ has data_ r = true /\ forall j, start <= j < r -> has data_ j = false).

Lemma bits_cases : kBitsPerWord = 2 ^ kBitsPerWordLog2 /\ 0 <= kBitsPerWordLog2 /\ 0 < kBitsPerWord.
Proof.
  unfold kBitsPerWordLog2, kBitsPerByteLog2, kWordSizeLog2. destruct kBitsPerWord_ok as [-> | ->]; cbn; lia.
Qed.

Lemma word_index i : i >>> kBitsPerWordLog2 = i / kBitsPerWord.
Proof. destruct bits_cases as (-> & ? & _). by apply Z.shiftr_div_pow2. Qed.

Lemma bit_index i : i .& (kBitsPerWord - 1) = i mod kBitsPerWord.
Proof. destruct bits_cases as (-> & ? & _). rewrite <- ones_pow2, land_ones_wrapU by done. done. Qed.

Lemma word_start w : w <<< kBitsPerWordLog2 = w * kBitsPerWord.
Proof. destruct bits_cases as (-> & ? & _). by apply Z.shiftl_mul_pow2. Qed.

Lemma bit_mask i : uword (1 <<< (i mod kBitsPerWord)) = 2 ^ (i mod kBitsPerWord).
Proof.
  destruct bits_cases as (_ & _ & HW). pose proof (Z.mod_pos_bound i kBitsPerWord HW). rewrite Z.shiftl_1_l.
  apply wrapU_id. split; [apply Z.pow_nonneg; lia|]. apply Z.pow_lt_mono_r; lia.
Qed.

Lemma has_word data_ w k : 0 <= w -> 0 <= k < kBitsPerWord ->
  has data_ (w * kBitsPerWord + k) = Z.testbit (default 0 (data_ !! Z.to_nat w)) k.
Proof.
  intros Hw Hk. unfold has. rewrite (proj2 (Z.leb_le _ _)) by nia.
  rewrite Z.div_add_l, Z.div_small, Z.add_0_r by lia.
  rewrite Z.add_comm, Z.mod_add, Z.mod_small by lia. done.
Qed.

Lemma trailing_zeros_spec p :
  0 <= trailing_zeros p /\ Z.testbit (Zpos p) (trailing_zeros p) = true /\
  forall k, 0 <= k < trailing_zeros p -> Z.testbit (Zpos p) k = false.
Proof.
  induction p as [p _|p (H0 & H1 & H2)|]; cbn [trailing_zeros]; [split_and!; [lia|done|lia]| |split_and!; [lia|done|lia]].
  rewrite Pos2Z.inj_xO. split_and!; [lia|by rewrite Z.add_1_l, Z.testbit_even_succ|].
  intros k Hk. destruct (decide (k = 0)) as [->|]; [by rewrite Z.testbit_even_0|].
  replace k with (Z.succ (k - 1)) by lia. rewrite Z.testbit_even_succ by lia. apply H2. lia.
Qed.

Lemma CountTrailingZeros_ok x :
  isU kBitsPerWord x -> x <> 0 -> exists t, CountTrailingZeros x = Ok t /\ 0 <= t < kBitsPerWord /\
    Z.testbit x t = true /\ forall k, 0 <= k < t -> Z.testbit x k = false.
Proof.
  intros Hx H0. destruct bits_cases as (_ & _ & HW). destruct x as [|p|p]; [done| |unfold isU in Hx; lia].
  destruct (trailing_zeros_spec p) as (? & Ht & ?). exists (trailing_zeros p). split_and!; try done.
  destruct (Z.ltb_spec (trailing_zeros p) kBitsPerWord); [done|].
  rewrite (testbit_above_isU kBitsPerWord) in Ht by (done || lia). done.
Qed.

Lemma CountLeadingZeros_ok x :
  isU kBitsPerWord x -> x <> 0 -> exists t, CountLeadingZeros x = Ok t /\ 0 <= t < kBitsPerWord /\
    Z.testbit x (kBitsPerWord - 1 - t) = true /\ forall k, kBitsPerWord - 1 - t < k -> Z.testbit x k = false.
Proof.
  intros Hx H0. destruct bits_cases as (_ & _ & HW). assert (0 < x) as Hp by (unfold isU in Hx; lia).
  exists (kBitsPerWord - 1 - Z.log2 x). pose proof (Z.log2_nonneg x). assert (Z.log2 x < kBitsPerWord) by (apply Z.log2_lt_pow2; [done|apply Hx]).
  split_and!; [by destruct x|lia|lia|..].
  - replace (kBitsPerWord - 1 - (kBitsPerWord - 1 - Z.log2 x)) with (Z.log2 x) by lia. by apply Z.bit_log2.
  - intros k Hk. apply Z.bits_above_log2; lia.
Qed.

Lemma word_at_ok data_ w : 0 <= w < Z.of_nat (length data_) -> word_at data_ w = Ok (default 0 (data_ !! Z.to_nat w)).
Proof.
  intros Hw. unfold word_at. destruct (Z.ltb_spec w 0); [lia|].
  destruct (lookup_lt_is_Some_2 data_ (Z.to_nat w) ltac:(lia)) as [d ->]. done.
Qed.

Lemma word_isU data_ w : Forall (isU kBitsPerWord) data_ -> isU kBitsPerWord (default 0 (data_ !! w)).
Proof.
  intros HF. destruct bits_cases as (_ & _ & HW). destruct (data_ !! w) as [d|] eqn:E; cbn.
  - by eapply Forall_lookup_1 in E.
  - unfold isU. pose proof (pow2_pos kBitsPerWord). lia.
Qed.

Lemma index_in_length i : 0 <= i < N -> 0 <= i / kBitsPerWord < kLengthInWords.
Proof.
  intros Hi. destruct bits_cases as (_ & _ & HW). unfold kLengthInWords. rewrite Z.quot_div_nonneg by lia.
  pose proof (Z.div_le_mono i (N - 1) kBitsPerWord). pose proof (Z.div_pos i kBitsPerWord). lia.
Qed.

(** Changing one word. *)
Lemma has_insert data_ w d j :
  0 <= w < Z.of_nat (length data_) ->
  has (<[Z.to_nat w := d]> data_) j =
  (0 <=? j) && if j / kBitsPerWord =? w then Z.testbit d (j mod kBitsPerWord) else has data_ j.
Proof.
  intros Hw. unfold has. destruct bits_cases as (_ & _ & HW). destruct (Z.leb_spec 0 j) as [Hj|]; [|done]. cbn [andb].
  pose proof (Z.div_pos j kBitsPerWord). destruct (Z.eqb_spec (j / kBitsPerWord) w) as [->|Hn].
  - by rewrite list_lookup_insert_eq by lia.
  - by rewrite list_lookup_insert_ne by lia.
Qed.

Lemma same_index i j : j / kBitsPerWord = i / kBitsPerWord -> j mod kBitsPerWord = i mod kBitsPerWord -> j = i.
Proof.
  intros Hd Hm. destruct bits_cases as (_ & _ & HW).
  rewrite (Z.div_mod j kBitsPerWord), (Z.div_mod i kBitsPerWord), Hd, Hm by lia. done.
Qed.

(** Changing bit [i] of its word. *)
Lemma insert_bit_ok data_ i v d' :
  bits_ok data_ -> 0 <= i < N -> isU kBitsPerWord d' ->
  (forall k, 0 <= k < kBitsPerWord -> Z.testbit d' k =
     if k =? i mod kBitsPerWord then v else Z.testbit (default 0 (data_ !! Z.to_nat (i / kBitsPerWord))) k) ->
  bits_ok (<[Z.to_nat (i / kBitsPerWord) := d']> data_) /\
  forall j, has (<[Z.to_nat (i / kBitsPerWord) := d']> data_) j = if j =? i then v else has data_ j.
Proof.
  intros [Hl HF Hb] Hi Hd' Hk. pose proof (index_in_length i Hi). destruct bits_cases as (_ & _ & HW).
  assert (forall j, has (<[Z.to_nat (i / kBitsPerWord) := d']> data_) j = if j =? i then v else has data_ j) as Hhas.
  { intros j. rewrite has_insert by lia. destruct (Z.leb_spec 0 j) as [Hj|Hj]; cbn [andb].
    - pose proof (Z.mod_pos_bound j kBitsPerWord HW). destruct (Z.eqb_spec (j / kBitsPerWord) (i / kBitsPerWord)) as [Hq|Hq].
      + rewrite Hk by lia. destruct (Z.eqb_spec (j mod kBitsPerWord) (i mod kBitsPerWord)) as [Hr|Hr].
        * rewrite (same_index i j Hq Hr). by rewrite Z.eqb_refl.
        * destruct (Z.eqb_spec j i) as [->|]; [done|]. unfold has. rewrite (proj2 (Z.leb_le 0 j)), Hq by lia. done.
      + destruct (Z.eqb_spec j i) as [->|]; [done|]. done.
    - destruct (Z.eqb_spec j i); [lia|]. unfold has. by rewrite (proj2 (Z.leb_gt 0 j)) by lia. }
  split; [split|done]; [by rewrite length_insert|by apply Forall_insert|].
  intros j Hj. rewrite Hhas. destruct (Z.eqb_spec j i); [lia|auto].
Qed.

Lemma Test_ok data_ i : bits_ok data_ -> 0 <= i < N -> Test data_ i = Ok (has data_ i).
Proof.
  intros [Hl HF _] Hi. pose proof (index_in_length i Hi). destruct bits_cases as (_ & _ & HW). unfold Test.
  rewrite (proj2 (Z.leb_le 0 i)), (proj2 (Z.ltb_lt i N)), bit_index, word_index, bit_mask by lia. cbn [assert_ mbind result_bind].
  rewrite word_at_ok by lia. cbn [mbind result_bind]. unfold has. rewrite (proj2 (Z.leb_le 0 i)) by lia. cbn [andb]. f_equal.
  set (d := default 0 _). pose proof (Z.mod_pos_bound i kBitsPerWord HW). destruct (Z.testbit d (i mod kBitsPerWord)) eqn:Eb.
  - apply negb_true_iff, Z.eqb_neq. intros Hz. apply (f_equal (fun z => Z.testbit z (i mod kBitsPerWord))) in Hz.
    rewrite Z.land_spec, Z.pow2_bits_true, Eb, Z.bits_0 in Hz by lia. done.
  - apply negb_false_iff, Z.eqb_eq. apply Z.bits_inj'. intros k Hk. rewrite Z.land_spec, Z.bits_0, Z.pow2_bits_eqb by lia.
    destruct (Z.eqb_spec (i mod kBitsPerWord) k) as [<-|]; [by rewrite Eb|apply andb_false_r].
Qed.

Lemma Set_ok data_ i v :
  bits_ok data_ -> 0 <= i < N ->
  exists data', Set_ data_ i v = Ok data' /\ bits_ok data' /\ forall j, has data' j = if j =? i then v else has data_ j.
Proof.
  intros Hb Hi. pose proof Hb as [Hl HF _]. pose proof (index_in_length i Hi). destruct bits_cases as (_ & _ & HW). unfold Set_.
  rewrite (proj2 (Z.leb_le 0 i)), (proj2 (Z.ltb_lt i N)), bit_index, word_index, bit_mask by lia. cbn [assert_ mbind result_bind].
  rewrite word_at_ok by lia. cbn [mbind result_bind]. pose proof (word_isU data_ (Z.to_nat (i / kBitsPerWord)) HF) as Hd.
  set (d := default 0 (data_ !! _)) in *. pose proof (Z.mod_pos_bound i kBitsPerWord HW) as Hm.
  assert (isU kBitsPerWord (2 ^ (i mod kBitsPerWord))) as Hmask by (split; [apply Z.pow_nonneg; lia|apply Z.pow_lt_mono_r; lia]).
  set (d' := if v then _ else _).
  assert (isU kBitsPerWord d' /\ forall k, 0 <= k < kBitsPerWord -> Z.testbit d' k = if k =? i mod kBitsPerWord then v else Z.testbit d k) as [Hd' Hk].
  { unfold d'. destruct v.
    - split.
      + apply isU_iff_bits; [lia|apply Z.lor_nonneg; unfold isU in *; lia|]. intros k Hk. rewrite Z.lor_spec.
        by rewrite !(testbit_above_isU kBitsPerWord) by (done || lia).
      + intros k Hk. rewrite Z.lor_spec, Z.pow2_bits_eqb by lia. rewrite (Z.eqb_sym k). destruct (_ =? k); [apply orb_true_r|apply orb_false_r].
    - split.
      + apply isU_iff_bits; [lia|apply Z.land_nonneg; left; apply Hd|]. intros k Hk. rewrite Z.land_spec.
        by rewrite (testbit_above_isU kBitsPerWord d) by (done || lia).
      + intros k Hk. rewrite Z.land_spec. unfold uword. rewrite testbit_wrapU, Z.lnot_spec, Z.pow2_bits_eqb by lia.
        rewrite (Z.eqb_sym k). destruct (_ =? k); zcmp; cbn; btauto. }
  eexists. split; [done|]. by apply insert_bit_ok.
Qed.

Lemma Reset_ok : 0 < N -> bits_ok Reset /\ forall i, has Reset i = false.
Proof.
  intros HN. destruct bits_cases as (_ & _ & HW).
  assert (forall i, has Reset i = false) as Hh.
  { intros i. unfold has, Reset. destruct (replicate _ 0 !! _) as [d|] eqn:E; cbn; [|by rewrite Z.bits_0, andb_false_r].
    apply lookup_replicate in E as [-> _]. by rewrite Z.bits_0, andb_false_r. }
  split; [|done]. split; [|apply Forall_replicate; unfold isU; pose proof (pow2_pos kBitsPerWord); lia|done].
  unfold Reset. rewrite length_replicate. pose proof (index_in_length 0 ltac:(lia)). rewrite Z.div_0_l in * by lia. lia.
Qed.

(** A word that is zero holds nothing. *)
Lemma has_zero_word data_ w j :
  0 <= w -> default 0 (data_ !! Z.to_nat w) = 0 -> w * kBitsPerWord <= j < (w + 1) * kBitsPerWord -> has data_ j = false.
Proof.
  intros Hw Hd Hj. replace j with (w * kBitsPerWord + (j - w * kBitsPerWord)) by lia. rewrite has_word by lia. by rewrite Hd, Z.bits_0.
Qed.

Lemma Next_loop_ok data_ rest w :
  Forall (isU kBitsPerWord) data_ -> 0 <= w -> rest = drop (Z.to_nat w) data_ ->
  exists r, Next_loop rest w = Ok r /\ is_next data_ (w * kBitsPerWord) r.
Proof.
  intros HF. destruct bits_cases as (_ & _ & HW). revert w. induction rest as [|d rest IH]; intros w Hw Hr.
  - exists (-1). split; [done|]. left. split; [done|]. intros j Hj. unfold has.
    apply (f_equal length) in Hr. rewrite length_drop in Hr. cbn in Hr.
    rewrite lookup_ge_None_2; [by rewrite Z.bits_0, andb_false_r|].
    pose proof (Z.div_le_lower_bound j kBitsPerWord w). lia.
  - assert (data_ !! Z.to_nat w = Some d /\ rest = drop (Z.to_nat (w + 1)) data_) as [Hd Hrest].
    { rewrite <- (Nat.add_0_r (Z.to_nat w)), <- lookup_drop, <- Hr. split; [done|].
      replace (Z.to_nat (w + 1)) with (Z.to_nat w + 1)%nat by lia. by rewrite <- drop_drop, <- Hr. }
    pose proof (Forall_lookup_1 _ _ _ _ HF Hd) as Hu. cbn [Next_loop]. destruct (Z.eqb_spec d 0) as [H0|H0]; cbn [negb].
    + destruct (IH (w + 1) ltac:(lia) Hrest) as (r & -> & Hn). exists r. split; [done|].
      assert (forall j, w * kBitsPerWord <= j < (w + 1) * kBitsPerWord -> has data_ j = false) as Hz.
      { intros j Hj. apply (has_zero_word data_ w); [done|by rewrite Hd|lia]. }
      destruct Hn as [[-> Hn]|(Hr1 & Hr2 & Hn)]; [left; split; [done|]|right; split_and!; [lia|done|]]; intros j Hj;
        (destruct (Z.ltb_spec j ((w + 1) * kBitsPerWord)); [apply Hz; lia|apply Hn; lia]).
    + destruct (CountTrailingZeros_ok d Hu H0) as (t & -> & Ht & Ht1 & Ht2). cbn [mbind result_bind]. eexists. split; [done|].
      rewrite word_start. right. split_and!; [lia|rewrite has_word, Hd by lia; done|]. intros j Hj.
      replace j with (w * kBitsPerWord + (j - w * kBitsPerWord)) by lia. rewrite has_word, Hd by lia. apply Ht2. lia.
Qed.

Lemma Next_ok data_ i :
  bits_ok data_ -> 0 <= i < N -> exists r, Next data_ i = Ok r /\ is_next data_ i r /\ r < N.
Proof.
  intros [Hl HF Hbound] Hi. pose proof (index_in_length i Hi). destruct bits_cases as (_ & _ & HW).
  assert (exists r, Next data_ i = Ok r /\ is_next data_ i r) as (r & Hr & Hn).
  2:{ exists r. split_and!; [done..|]. destruct Hn as [[-> _]|(_ & Hh & _)]; [lia|].
      destruct (Z.ltb_spec r N); [done|]. rewrite Hbound in Hh by lia. done. }
  unfold Next. rewrite (proj2 (Z.leb_le 0 i)), (proj2 (Z.ltb_lt i N)), bit_index, word_index by lia. cbn [assert_ mbind result_bind].
  rewrite word_at_ok by lia. cbn [mbind result_bind]. pose proof (word_isU data_ (Z.to_nat (i / kBitsPerWord)) HF) as Hd.
  set (d := default 0 (data_ !! _)) in *. set (mask := uword _). pose proof (Z.mod_pos_bound i kBitsPerWord HW) as Hm.
  assert (isU kBitsPerWord (d .& mask)) as Hu.
  { apply isU_iff_bits; [lia|apply Z.land_nonneg; left; apply Hd|]. intros k Hk. rewrite Z.land_spec.
    by rewrite (testbit_above_isU kBitsPerWord d) by (done || lia). }
  assert (forall k, 0 <= k < kBitsPerWord -> Z.testbit (d .& mask) k = Z.testbit d k && (i mod kBitsPerWord <=? k)) as Hmk.
  { intros k Hk. unfold mask, uword. rewrite Z.land_spec, testbit_wrapU, (proj2 (Z.ltb_lt k kBitsPerWord)) by lia. cbn [andb]. f_equal.
    rewrite testbit_shiftl' by lia. destruct (Z.leb_spec (i mod kBitsPerWord) k); [|done]. cbn [andb].
    rewrite testbit_wrapU, Z.lnot_spec, Z.bits_0 by lia. by rewrite (proj2 (Z.ltb_lt _ kBitsPerWord)) by lia. }
  assert (i = kBitsPerWord * (i / kBitsPerWord) + i mod kBitsPerWord) as Hdm by (apply Z.div_mod; lia).
  assert (forall j, i <= j < (i / kBitsPerWord + 1) * kBitsPerWord -> has data_ j = Z.testbit (d .& mask) (j - i / kBitsPerWord * kBitsPerWord)) as Hin.
  { intros j Hj. rewrite Hmk by lia. replace j with (i / kBitsPerWord * kBitsPerWord + (j - i / kBitsPerWord * kBitsPerWord)) at 1 by lia.
    rewrite has_word by lia. rewrite (proj2 (Z.leb_le (i mod kBitsPerWord) _)) by lia. by rewrite andb_true_r. }
  destruct (Z.eqb_spec (d .& mask) 0) as [H0|H0]; cbn [negb].
  - destruct (Next_loop_ok data_ _ (i / @kBitsPerWord T + 1) HF ltac:(lia) eq_refl) as (r & -> & Hn). exists r. split; [done|].
    assert (forall j, i <= j < (i / kBitsPerWord + 1) * kBitsPerWord -> has data_ j = false) as Hz by (intros j Hj; by rewrite Hin, H0, Z.bits_0 by lia).
    destruct Hn as [[-> Hn]|(Hr1 & Hr2 & Hn)]; [left; split; [done|]|right; split_and!; [lia|done|]]; intros j Hj;
      (destruct (Z.ltb_spec j ((i / kBitsPerWord + 1) * kBitsPerWord)); [apply Hz; lia|apply Hn; lia]).
  - destruct (CountTrailingZeros_ok _ Hu H0) as (t & -> & Ht & Ht1 & Ht2). cbn [mbind result_bind]. eexists. split; [done|].
    rewrite word_start. rewrite Hmk in Ht1 by lia. apply andb_true_iff in Ht1 as [Htd Htm]. apply Z.leb_le in Htm.
    right. split_and!; [lia|rewrite has_word by lia; done|]. intros j Hj. rewrite Hin by lia. apply Ht2. lia.
Qed.

Lemma Last_loop_ok data_ rest w :
  Forall (isU kBitsPerWord) data_ -> -1 <= w -> rest = reverse (take (Z.to_nat (w + 1)) data_) -> w < Z.of_nat (length data_) ->
  exists r, Last_loop rest w = Ok r /\ is_last data_ ((w + 1) * kBitsPerWord) r.
Proof.
  intros HF. destruct bits_cases as (_ & _ & HW). revert w. induction rest as [|d rest IH]; intros w Hw Hr Hwl.
  - apply (f_equal length) in Hr. rewrite length_reverse, length_take in Hr. cbn in Hr.
    assert (w = -1) as -> by lia. exists (-1). split; [done|]. left. split; [done|]. intros j Hj. unfold has.
    by rewrite (proj2 (Z.leb_gt 0 j)) by lia.
  - assert (0 <= w) as Hw0.
    { destruct (Z.ltb_spec w 0); [|done]. replace w with (-1) in Hr by lia. done. }
    assert (data_ !! Z.to_nat w = Some d /\ rest = reverse (take (Z.to_nat (w - 1 + 1)) data_)) as [Hd Hrest].
    { destruct (lookup_lt_is_Some_2 data_ (Z.to_nat w) ltac:(lia)) as [d' Hd']. replace (Z.to_nat (w + 1)) with (S (Z.to_nat w)) in Hr by lia.
      rewrite (take_S_r _ _ _ Hd'), reverse_app in Hr. cbn in Hr. replace (w - 1 + 1) with w by lia. by injection Hr as -> ->. }
    pose proof (Forall_lookup_1 _ _ _ _ HF Hd) as Hu. cbn [Last_loop]. destruct (Z.eqb_spec d 0) as [H0|H0]; cbn [negb].
    + destruct (IH (w - 1) ltac:(lia) Hrest ltac:(lia)) as (r & -> & Hn). exists r. split; [done|]. replace (w - 1 + 1) with w in Hn by lia.
      assert (forall j, w * kBitsPerWord <= j < (w + 1) * kBitsPerWord -> has data_ j = false) as Hz.
      { intros j Hj. apply (has_zero_word data_ w); [done|by rewrite Hd|lia]. }
      destruct Hn as [[-> Hn]|(Hr1 & Hr2 & Hn)]; [left; split; [done|]|right; split_and!; [lia|lia|done|]]; intros j Hj;
        (destruct (Z.ltb_spec j (w * kBitsPerWord)); [apply Hn; lia|apply Hz; lia]).
    + destruct (CountLeadingZeros_ok d Hu H0) as (t & -> & Ht & Ht1 & Ht2). cbn [mbind result_bind]. eexists. split; [done|].
      rewrite word_start. right. replace ((w + 1) * kBitsPerWord - t - 1) with (w * kBitsPerWord + (kBitsPerWord - 1 - t)) by lia.
      split_and!; [lia|lia|rewrite has_word, Hd by lia; done|]. intros j Hj.
      replace j with (w * kBitsPerWord + (j - w * kBitsPerWord)) by lia. rewrite has_word, Hd by lia. apply Ht2. lia.
Qed.

Lemma find_previous_Last seen d w : last_of (find_previous seen d w) = Last_loop (d :: seen) w.
Proof.
  revert d w. induction seen as [|b seen IH]; intros d w; cbn [find_previous Last_loop]; (destruct (Z.eqb_spec d 0) as [->|Hd]; cbn [negb]).
  - done.
  - cbn [last_of]. by destruct (Z.eqb_spec d 0).
  - apply IH.
  - cbn [last_of]. by destruct (Z.eqb_spec d 0).
Qed.

Lemma length_bound data_ j : bits_ok data_ -> kLengthInWords * kBitsPerWord <= j -> has data_ j = false.
Proof.
  intros [Hl _ _] Hj. destruct bits_cases as (_ & _ & HW). unfold has. rewrite lookup_ge_None_2; [by rewrite Z.bits_0, andb_false_r|].
  pose proof (Z.div_le_lower_bound j kBitsPerWord kLengthInWords). lia.
Qed.

Lemma Last_ok data_ :
  bits_ok data_ -> exists r, Last data_ = Ok r /\ forall bound, r < bound -> is_last data_ bound r.
Proof.
  intros Hb. pose proof Hb as [Hl HF Hn]. unfold Last.
  destruct (Last_loop_ok data_ (reverse data_) (kLengthInWords - 1) HF ltac:(lia)) as (r & -> & Hr); [|lia|].
  - by rewrite take_ge by lia.
  - exists r. split; [done|]. intros bound Hbd. replace (kLengthInWords - 1 + 1) with kLengthInWords in Hr by lia.
    destruct Hr as [[-> Hr]|(Hr0 & Hr1 & Hr)]; [left; split; [done|]|right; split_and!; [lia|lia|done|]]; intros j Hj;
      (destruct (Z.ltb_spec j (kLengthInWords * kBitsPerWord)); [apply Hr; lia|by apply length_bound]).
Qed.

Lemma is_last_unique data_ bound r r' : is_last data_ bound r -> is_last data_ bound r' -> r = r'.
Proof.
  intros [[-> H]|(H0 & H1 & H)] [[-> H']|(H0' & H1' & H')]; [done|..].
  - rewrite H in H1' by lia. done.
  - rewrite H' in H1 by lia. done.
  - destruct (Z.lt_trichotomy r r') as [Hlt|[->|Hlt]]; [rewrite H in H1' by lia; done|done|rewrite H' in H1 by lia; done].
Qed.

Lemma ClearLast_ok data_ i :
  bits_ok data_ -> 0 <= i < N -> is_last data_ N i ->
  exists r data', ClearLastAndFindPrevious data_ i = Ok (r, data') /\ bits_ok data' /\
    (forall j, has data' j = if j =? i then false else has data_ j) /\ is_last data' N r.
Proof.
  intros Hb Hi Hlast. pose proof Hb as [Hl HF Hbound]. pose proof (index_in_length i Hi) as Hw. destruct bits_cases as (_ & _ & HW).
  assert (has data_ i = true) as Hhi by (destruct Hlast as [[-> _]|(_ & ? & _)]; [lia|done]).
  unfold ClearLastAndFindPrevious. rewrite Test_ok, Hhi by done. cbn [assert_ mbind result_bind].
  destruct (Last_ok data_ Hb) as (r & -> & Hr). cbn [mbind result_bind].
  assert (r < N) as HrN.
  { destruct (Z.ltb_spec r N); [done|]. destruct (Hr (r + 1) ltac:(lia)) as [[-> _]|(_ & Hc & _)]; [lia|]. rewrite Hbound in Hc by lia. done. }
  rewrite (is_last_unique data_ N r i (Hr N HrN) Hlast), Z.eqb_refl, word_index, bit_index, bit_mask. cbn [assert_ mbind result_bind].
  rewrite word_at_ok by lia. cbn [mbind result_bind]. pose proof (word_isU data_ (Z.to_nat (i / kBitsPerWord)) HF) as Hd.
  set (w := i / kBitsPerWord) in *. set (d := default 0 (data_ !! _)) in *. set (d' := d .^ _). pose proof (Z.mod_pos_bound i kBitsPerWord HW) as Hm.
  assert (i = kBitsPerWord * (i / kBitsPerWord) + i mod kBitsPerWord) as Hdm by (apply Z.div_mod; lia). fold w in Hdm.
  assert (Z.testbit d (i mod kBitsPerWord) = true) as Hdi.
  { rewrite <- Hhi. replace i with (w * kBitsPerWord + i mod kBitsPerWord) at 2 by lia. by rewrite has_word by lia. }
  assert (forall k, 0 <= k -> Z.testbit d' k = if k =? i mod kBitsPerWord then false else Z.testbit d k) as Hk.
  { intros k Hk. unfold d'. rewrite Z.lxor_spec, Z.pow2_bits_eqb by lia. rewrite (Z.eqb_sym k). destruct (Z.eqb_spec (i mod kBitsPerWord) k) as [<-|]; [by rewrite Hdi|apply xorb_false_r]. }
  assert (isU kBitsPerWord d') as Hd'.
  { apply isU_iff_bits; [lia|unfold d'; apply Z.lxor_nonneg; pose proof (Z.pow_nonneg 2 (i mod kBitsPerWord)); unfold isU in *; lia|].
    intros k Hk'. rewrite Hk by lia. destruct (_ =? _); [done|]. by apply (testbit_above_isU kBitsPerWord); [lia|]. }
  set (data' := <[Z.to_nat w := d']> data_).
  destruct (insert_bit_ok data_ i false d' Hb Hi Hd' ltac:(intros k Hk'; apply Hk; lia)) as [Hok Hhas]. fold w data' in Hok, Hhas.
  rewrite find_previous_Last.
  destruct (Last_loop_ok data' (d' :: reverse (take (Z.to_nat w) data')) w) as (r' & -> & Hr').
  - apply Hok.
  - lia.
  - replace (Z.to_nat (w + 1)) with (S (Z.to_nat w)) by lia. rewrite (take_S_r data' _ d'), reverse_app; [done|].
    unfold data'. apply list_lookup_insert_eq. lia.
  - unfold data'. rewrite length_insert. lia.
  - cbn [mbind result_bind]. eexists _, _. split_and!; [done..|].
    assert (forall j, i < j -> has data' j = false) as Habove.
    { intros j Hj. rewrite Hhas. destruct (Z.eqb_spec j i); [done|]. destruct (Z.ltb_spec j N); [|by apply Hbound].
      destruct Hlast as [[-> _]|(_ & _ & Hla)]; [lia|]. apply Hla. lia. }
    assert (has data' i = false) as Hi' by (by rewrite Hhas, Z.eqb_refl).
    destruct Hr' as [[-> Hr']|(Hr0 & Hr1 & Hr')].
    + left. split; [done|]. intros j Hj. destruct (Z.ltb_spec j ((w + 1) * kBitsPerWord)); [by apply Hr'|apply Habove; lia].
    + right. assert (r' < i) by (destruct (Z.ltb_spec r' i); [done|]; destruct (decide (r' = i)) as [->|]; [congruence|rewrite Habove in Hr1 by lia; done]).
      split_and!; [lia|lia|done|]. intros j Hj. destruct (Z.ltb_spec j ((w + 1) * kBitsPerWord)); [apply Hr'; lia|apply Habove; lia].
Qed.

End bitset.

End BitSet.
