(* ===== verification/FreeList.v ===== *)
(** * vm/freelist.h, vm/freelist.cc

    [FreeList]: segregated lists of free blocks, one per size below 128 units and
    one for all larger blocks.  The elements are linked through the free memory
    itself ([HeapMemory]); record [FreeList] holds the heads, the bit set of the
    lists that are not empty and the largest small size.  The lock is held by
    every operation, so an operation is one step.  With [is_protected] the free
    memory is in code pages that are write protected. *)

From stdpp Require Import base numbers list gmap.
From Stdlib Require Import ZArith Lia.
From S2P Require Import Prelude Utils HeapMemory BitSet.

Local Open Scope Z_scope.
Local Open Scope mach_scope.

Module FreeList.
Import HeapMemory.

Definition kNumLists : Z := 128.

Record FreeList := mkFreeList {
  free_map_ : list Z;
  free_lists_ : list Z;
  last_free_small_size_ : Z
}.

(** The number of mapped words bounds the length of a list. *)
Definition memory_size (mem : Memory) : nat := size (words mem).

Section freelist.
Context {T : Target} {Os : OS}.

Definition list_at (fl : FreeList) (index : Z) : M Z :=
  if index <? 0 then Err HUndefined
  else match free_lists_ fl !! Z.to_nat index with Some e => Ok e | None => Err HUndefined end.

Definition set_list (fl : FreeList) (index element : Z) : FreeList :=
  mkFreeList (free_map_ fl) (<[Z.to_nat index := element]> (free_lists_ fl)) (last_free_small_size_ fl).

Definition Reset : FreeList :=
  mkFreeList (BitSet.Reset kNumLists) (replicate (Z.to_nat (kNumLists + 1)) 0) (-1).

Definition IndexForSize (size : Z) : M Z :=
  assert_ (kObjectAlignment <=? size);;
  assert_ (Utils.IsAligned size kObjectAlignment);;
  let index := size >>> kObjectAlignmentLog2 in
  Ok (if kNumLists <=? index then kNumLists else index).

Definition EnqueueElement (mem : Memory) (fl : FreeList) (element index : Z) : M (Memory * FreeList) :=
  nxt ← list_at fl index;
  fl ← (if (nxt =? 0) && negb (index =? kNumLists) then
          m ← BitSet.Set_ kNumLists (free_map_ fl) index true;
          Ok (mkFreeList m (free_lists_ fl)
                (Utils.Maximum (last_free_small_size_ fl) (intptr (index <<< kObjectAlignmentLog2))))
        else Ok fl);
  mem ← set_next mem element nxt;
  Ok (mem, set_list fl index element).

Definition DequeueElement (mem : Memory) (fl : FreeList) (index : Z) : M (Z * FreeList) :=
  result ← list_at fl index;
  nxt ← next mem result;
  fl ← (if (nxt =? 0) && negb (index =? kNumLists) then
          let size := intptr (index <<< kObjectAlignmentLog2) in
          if size =? last_free_small_size_ fl then
            r ← BitSet.ClearLastAndFindPrevious kNumLists (free_map_ fl) index;
            let '(previous, m) := (r : Z * list Z) in
            Ok (mkFreeList m (free_lists_ fl) (intptr (previous * kObjectAlignment)))
          else
            m ← BitSet.Set_ kNumLists (free_map_ fl) index false;
            Ok (mkFreeList m (free_lists_ fl) (last_free_small_size_ fl))
        else Ok fl);
  Ok (result, set_list fl index nxt).

Definition SplitElementAfterAndEnqueue (mem : Memory) (fl : FreeList) (element size : Z) (is_protected : bool)
    : M (Memory * FreeList) :=
  s ← Size mem element;
  let remainder_size := intptr (s - size) in
  if remainder_size =? 0 then Ok (mem, fl)
  else
    let remainder_address := uword (element + size) in
    mem ← AsElement mem remainder_address remainder_size;
    remainder_index ← IndexForSize remainder_size;
    r ← EnqueueElement mem fl remainder_address remainder_index;
    let '(mem, fl) := (r : Memory * FreeList) in
    if is_protected && negb (InSamePage (uword (remainder_address - 1)) remainder_address) then
      mem ← protect_ mem remainder_address remainder_size kReadExecute;
      Ok (mem, fl)
    else Ok (mem, fl).

(** [free_lists_[kNumLists] = current->next()] or [previous->set_next(...)], in a
    protected page when need be. *)
Definition unlink (mem : Memory) (fl : FreeList) (previous current region_size : Z) (is_protected : bool)
    : M (Memory * FreeList) :=
  nxt ← next mem current;
  if previous =? 0 then Ok (mem, set_list fl kNumLists nxt)
  else
    let writable_start := current in
    let writable_end := uword (writable_start + region_size - 1) in
    let target_address := next_address previous in
    let target_is_protected :=
      is_protected && negb (InSamePage target_address writable_start) &&
      negb (InSamePage target_address writable_end) in
    mem ← (if target_is_protected then protect_ mem target_address kWordSize kReadWrite else Ok mem);
    mem ← set_next mem previous nxt;
    mem ← (if target_is_protected then protect_ mem target_address kWordSize kReadExecute else Ok mem);
    Ok (mem, fl).

(** [while (current != NULL)] of [TryAllocateLocked]. *)
Fixpoint TryAllocateLocked_loop (fuel : nat) (mem : Memory) (fl : FreeList) (size : Z) (is_protected : bool)
    (previous current : Z) : M (Z * (Memory * FreeList)) :=
  match fuel with
  | O => Err HNoReturn
  | S fuel =>
      if current =? 0 then Ok (0, (mem, fl))
      else
        s ← Size mem current;
        if size <=? s then
          let remainder_size := intptr (s - size) in
          let region_size := intptr (size + HeaderSizeFor remainder_size) in
          mem ← (if is_protected then protect_ mem current region_size kReadWrite else Ok mem);
          r ← unlink mem fl previous current region_size is_protected;
          let '(mem, fl) := (r : Memory * FreeList) in
          r ← SplitElementAfterAndEnqueue mem fl current size is_protected;
          Ok (current, r)
        else
          nxt ← next mem current;
          TryAllocateLocked_loop fuel mem fl size is_protected current nxt
  end.

Definition TryAllocateLocked (mem : Memory) (fl : FreeList) (size : Z) (is_protected : bool)
    : M (Z * (Memory * FreeList)) :=
  index ← IndexForSize size;
  exact ← (if negb (index =? kNumLists) then BitSet.Test kNumLists (free_map_ fl) index else Ok false);
  if exact : bool then
    r ← DequeueElement mem fl index;
    let '(element, fl) := (r : Z * FreeList) in
    mem ← (if is_protected then protect_ mem element size kReadWrite else Ok mem);
    Ok (element, (mem, fl))
  else
    next_index ← (if index + 1 <? kNumLists then BitSet.Next kNumLists (free_map_ fl) (index + 1) else Ok (-1));
    if negb (next_index =? -1) then
      r ← DequeueElement mem fl next_index;
      let '(element, fl) := (r : Z * FreeList) in
      mem ← (if is_protected then
               s ← Size mem element;
               let remainder_size := intptr (s - size) in
               let region_size := intptr (size + HeaderSizeFor remainder_size) in
               protect_ mem element region_size kReadWrite
             else Ok mem);
      r ← SplitElementAfterAndEnqueue mem fl element size is_protected;
      Ok (element, r)
    else
      current ← list_at fl kNumLists;
      TryAllocateLocked_loop (S (memory_size mem)) mem fl size is_protected 0 current.

Definition FreeLocked (mem : Memory) (fl : FreeList) (addr size : Z) : M (Memory * FreeList) :=
  index ← IndexForSize size;
  mem ← AsElement mem addr size;
  EnqueueElement mem fl addr index.

Fixpoint TryAllocateLargeLocked_loop (fuel : nat) (mem : Memory) (fl : FreeList) (minimum_size previous current : Z)
    : M (Z * (Memory * FreeList)) :=
  match fuel with
  | O => Err HNoReturn
  | S fuel =>
      if current =? 0 then Ok (0, (mem, fl))
      else
        nxt ← next mem current;
        s ← Size mem current;
        if minimum_size <=? s then
          if previous =? 0 then Ok (current, (mem, set_list fl kNumLists nxt))
          else mem ← set_next mem previous nxt; Ok (current, (mem, fl))
        else TryAllocateLargeLocked_loop fuel mem fl minimum_size current nxt
  end.

Definition TryAllocateLargeLocked (mem : Memory) (fl : FreeList) (minimum_size : Z) : M (Z * (Memory * FreeList)) :=
  current ← list_at fl kNumLists;
  TryAllocateLargeLocked_loop (S (memory_size mem)) mem fl minimum_size 0 current.

Definition TryAllocateSmallLocked (mem : Memory) (fl : FreeList) (size : Z) : M (Z * (Memory * FreeList)) :=
  if size >? last_free_small_size_ fl then Ok (0, (mem, fl))
  else
    index ← IndexForSize size;
    exact ← (if negb (index =? kNumLists) then BitSet.Test kNumLists (free_map_ fl) index else Ok false);
    if exact : bool then
      r ← DequeueElement mem fl index;
      let '(element, fl) := (r : Z * FreeList) in
      Ok (element, (mem, fl))
    else
      next_index ← (if index + 1 <? kNumLists then BitSet.Next kNumLists (free_map_ fl) (index + 1) else Ok (-1));
      if negb (next_index =? -1) then
        r ← DequeueElement mem fl next_index;
        let '(element, fl) := (r : Z * FreeList) in
        r ← SplitElementAfterAndEnqueue mem fl element size false;
        Ok (element, r)
      else Ok (0, (mem, fl)).

(** [TryAllocate], [Free] and [TryAllocateLarge] take the lock. *)
Definition TryAllocate (mem : Memory) (fl : FreeList) (size : Z) (is_protected : bool) : M (Z * (Memory * FreeList)) :=
  TryAllocateLocked mem fl size is_protected.
Definition Free (mem : Memory) (fl : FreeList) (addr size : Z) : M (Memory * FreeList) := FreeLocked mem fl addr size.
Definition TryAllocateLarge (mem : Memory) (fl : FreeList) (minimum_size : Z) : M (Z * (Memory * FreeList)) :=
  TryAllocateLargeLocked mem fl minimum_size.

Fixpoint LengthLocked_loop (fuel : nat) (mem : Memory) (element : Z) (result : Z) : M Z :=
  match fuel with
  | O => Err HNoReturn
  | S fuel =>
      if element =? 0 then Ok result
      else nxt ← next mem element; LengthLocked_loop fuel mem nxt (result + 1)
  end.

Definition LengthLocked (mem : Memory) (fl : FreeList) (index : Z) : M Z :=
  assert_ (0 <=? index);;
  assert_ (index <? kNumLists);;
  element ← list_at fl index;
  LengthLocked_loop (S (memory_size mem)) mem element 0.

End freelist.

End FreeList.
