(* ===== verification/FreeListProps.v ===== *)
(** * The free list: invariant and theorems

    [free_list]: the lists of [FreeList] hold given blocks of free memory.  The
    operations are proved against the set of free blocks: an allocation takes one
    of them and puts back what is left, a block that is freed is added, and no
    word outside the free blocks is written. *)

From stdpp Require Import base numbers list gmap.
From Stdlib Require Import ZArith Lia.
From S2P Require Import Prelude Utils HeapMemory BitSet FreeList.

Local Open Scope Z_scope.
Local Open Scope mach_scope.

Module FreeListProps.
Import HeapMemory FreeList.

(** A block: its address and its size. *)
Abbreviation block := (Z * Z)%type.

Definition apart (b c : block) : Prop := b.1 + b.2 <= c.1 \/ c.1 + c.2 <= b.1.

Fixpoint disjoint (bs : list block) : Prop :=
  match bs with [] => True | b :: bs => Forall (apart b) bs /\ disjoint bs end.

(** A word of one of the blocks. *)
Definition inside (bs : list block) (w : Z) : Prop := exists b, b ∈ bs /\ in_block b.1 b.2 w.

#[export] Instance apart_sym : Symmetric apart.
Proof. unfold apart. intros ??. tauto. Qed.

#[export] Instance disjoint_perm : Proper ((≡ₚ) ==> iff) disjoint.
Proof.
  assert (forall l k, l ≡ₚ k -> disjoint l -> disjoint k) as H.
  { intros l k. induction 1 as [|x l k Hlk IH|x y l|l k m _ IH1 _ IH2]; cbn; [done|..].
    - intros [Hx Hd]. split; [by rewrite <- Hlk|auto].
    - intros (Hy & Hx & Hd). rewrite Forall_cons in Hy. rewrite Forall_cons. destruct Hy as [Hyx Hyl]. by split_and!.
    - auto. }
  intros l k Hlk. split; apply H; by rewrite ?Hlk.
Qed.

#[export] Instance inside_perm : Proper ((≡ₚ) ==> (=) ==> iff) inside.
Proof. intros l k Hlk w ? <-. unfold inside. by setoid_rewrite Hlk. Qed.

Lemma disjoint_app l k : disjoint (l ++ k) <-> disjoint l /\ disjoint k /\ Forall (fun b => Forall (apart b) k) l.
Proof.
  induction l as [|b l IH]; cbn; [rewrite Forall_nil; tauto|]. rewrite IH, Forall_app, Forall_cons. tauto.
Qed.

Lemma inside_cons b bs w : inside (b :: bs) w <-> in_block b.1 b.2 w \/ inside bs w.
Proof. unfold inside. setoid_rewrite elem_of_cons. naive_solver. Qed.

Lemma inside_app l k w : inside (l ++ k) w <-> inside l w \/ inside k w.
Proof. unfold inside. setoid_rewrite elem_of_app. naive_solver. Qed.

Lemma apart_inside b bs w : Forall (apart b) bs -> in_block b.1 b.2 w -> ~ inside bs w.
Proof.
  intros Hf Hw (c & Hc & Hcw). rewrite Forall_forall in Hf. destruct (Hf c Hc) as [H|H]; unfold in_block in *; lia.
Qed.

(** What is left of a block after [size] bytes are taken from it. *)
Definition remainder (a s size : Z) : list block := if s =? size then [] else [(a + size, s - size)].

Lemma concat_insert {A} (ls : list (list A)) i l l' :
  ls !! i = Some l -> concat (<[i := l']> ls) ++ l ≡ₚ concat ls ++ l'.
Proof.
  revert i. induction ls as [|k ls IH]; intros [|i] Hi; cbn in *; simplify_eq.
  - rewrite <- !app_assoc, (Permutation_app_comm (concat ls) l), (Permutation_app_comm (concat ls) l'), !app_assoc.
    by rewrite (Permutation_app_comm l' l).
  - rewrite <- !app_assoc. by rewrite IH.
Qed.

Section props.
Context {T : Target} {Os : OS}.

(** ** Protection *)

Definition protects (mode : Protection) (x len : Z) (mem mem' : Memory) : Prop :=
  words mem' = words mem /\
  forall p, prot mem' p = if (page_of x <=? p) && (p <? x + len) then mode else prot mem p.

Lemma protect_ok mem x len mode :
  (forall p n, mprotect_succeeds p n = true) -> 0 <= x -> 0 < len -> x + len < 2 ^ kBitsPerWord ->
  exists mem', protect_ mem x len mode = Ok mem' /\ protects mode x len mem mem'.
Proof.
  intros Hos Hx Hl He. unfold protect_, Protect. rewrite Hos. cbn [assert_ mbind result_bind]. eexists. split; [done|]. split; [done|].
  intros p. unfold mprotect, uword. cbn [prot]. assert (isU kBitsPerWord x) as Hu by (unfold isU; lia).
  pose proof (page_of_le x Hu). assert (0 <= page_of x).
  { rewrite page_of_spec by done. pose proof PageSize_pos. pose proof (Z.div_pos x PageSize). nia. }
  rewrite (wrapU_id _ (x + len)), wrapU_id by (unfold isU; lia). by replace (page_of x + (x + len - page_of x)) with (x + len) by lia.
Qed.

Lemma protects_read mode x len mem mem' :
  protects mode x len mem mem' -> mode <> kNoAccess -> readable mem -> readable mem'.
Proof.
  intros [Hw Hp] Hm Hr w Hs. rewrite Hp. rewrite Hw in Hs. destruct (_ && _); [|auto].
  unfold can_read. by rewrite bool_decide_false.
Qed.

Lemma protects_rw x len mem mem' w :
  protects kReadWrite x len mem mem' -> 0 <= x -> x + len < 2 ^ kBitsPerWord -> x <= w < x + len ->
  can_write (prot mem' (page_of w)) = true.
Proof.
  intros [_ Hp] Hx He Hw. rewrite Hp. assert (isU kBitsPerWord w /\ isU kBitsPerWord x) as [Hu Hux] by (unfold isU; lia).
  pose proof (page_of_le w Hu). pose proof (page_of_mono x w Hux Hu ltac:(lia)).
  rewrite (proj2 (Z.leb_le _ _)), (proj2 (Z.ltb_lt _ _)) by lia. done.
Qed.

Lemma protects_changes mode x len mem mem' P : protects mode x len mem mem' -> changes P mem mem'.
Proof. intros [Hw _]. split; intros; by rewrite Hw. Qed.

Lemma element_words mem mem' a s n : words mem' = words mem -> element mem a s n -> element mem' a s n.
Proof. intros Hw. unfold element. by rewrite Hw. Qed.

(** ** The lists *)

(** The list of a size: exact below [kNumLists] units. *)
Definition class_of (s : Z) : Z := Z.min (s / kObjectAlignment) kNumLists.

Fixpoint linked (mem : Memory) (head : Z) (l : list block) : Prop :=
  match l with
  | [] => head = 0
  | (a, s) :: l => head = a /\ exists n, element mem a s n /\ linked mem n l
  end.

Record free_list (mem : Memory) (fl : FreeList) (ls : list (list block)) : Prop := {
  fl_heads : length (free_lists_ fl) = Z.to_nat (kNumLists + 1);
  fl_lists : length ls = Z.to_nat (kNumLists + 1);
  fl_linked i h l : free_lists_ fl !! i = Some h -> ls !! i = Some l -> linked mem h l;
  fl_class i l b : ls !! i = Some l -> b ∈ l -> class_of b.2 = Z.of_nat i;
  fl_blocks : Forall (fun b => block_ok b.1 b.2 /\ mapped mem b.1 b.2) (concat ls);
  fl_disjoint : disjoint (concat ls);
  fl_bits : BitSet.bits_ok kNumLists (free_map_ fl);
  fl_map i l : ls !! Z.to_nat i = Some l -> 0 <= i < kNumLists -> (BitSet.has (free_map_ fl) i = true <-> l <> []);
  fl_last : exists r, BitSet.is_last (free_map_ fl) kNumLists r /\ (0 <= r -> last_free_small_size_ fl = r * kObjectAlignment) /\
    (r < 0 -> last_free_small_size_ fl < 0)
}.

Lemma kOA_cases : kObjectAlignment = 8 \/ kObjectAlignment = 16.
Proof. unfold kObjectAlignment. destruct kWordSize_cases as [-> | ->]; auto. Qed.

Lemma intptr_small z : - 2 ^ 31 <= z < 2 ^ 31 -> intptr z = z.
Proof.
  intros Hz. unfold intptr. destruct kBitsPerWord_ok as [-> | ->]; apply wrapS_id; unfold isS; lia.
Qed.

Lemma index_size i : 0 <= i <= kNumLists -> intptr (i <<< kObjectAlignmentLog2) = i * kObjectAlignment.
Proof.
  intros Hi. assert (0 <= kObjectAlignmentLog2) by (unfold kObjectAlignmentLog2; destruct word_cases as [H|H]; lia).
  rewrite Z.shiftl_mul_pow2, <- kObjectAlignment_pow2 by done. apply intptr_small. unfold kNumLists in *. destruct kOA_cases as [-> | ->]; lia.
Qed.

Lemma IndexForSize_ok s : kObjectAlignment <= s -> s mod kObjectAlignment = 0 -> IndexForSize s = Ok (class_of s) /\ 0 < class_of s <= kNumLists.
Proof.
  intros Hm Ha. assert (0 <= kObjectAlignmentLog2) by (unfold kObjectAlignmentLog2; destruct word_cases as [H|H]; lia).
  unfold IndexForSize. rewrite (proj2 (Z.leb_le _ _) Hm), (proj2 (aligned_iff s) Ha). cbn [assert_ mbind result_bind].
  rewrite Z.shiftr_div_pow2, <- kObjectAlignment_pow2 by done. unfold class_of.
  assert (0 < s / kObjectAlignment) by (apply Z.div_str_pos; destruct kOA_cases; lia).
  unfold kNumLists in *. split; [|lia]. destruct (Z.leb_spec 128 (s / kObjectAlignment)); f_equal; lia.
Qed.

Lemma class_exact s : s mod kObjectAlignment = 0 -> class_of s < kNumLists -> s = class_of s * kObjectAlignment.
Proof.
  intros Ha Hc. unfold class_of in *. pose proof kOA_cases. pose proof (Z.div_mod s kObjectAlignment). lia.
Qed.

Lemma class_mono s s' : s <= s' -> class_of s <= class_of s'.
Proof. intros. unfold class_of. pose proof kOA_cases. pose proof (Z.div_le_mono s s' kObjectAlignment). lia. Qed.

Lemma linked_frame P mem mem' h l :
  changes P mem mem' -> (forall w, inside l w -> ~ P w) -> Forall (fun b => block_ok b.1 b.2) l -> linked mem h l -> linked mem' h l.
Proof.
  intros Hc HP Hb. revert h HP. induction Hb as [|[a s] l Hb _ IH]; intros h HP; cbn; [done|]. intros (-> & n & He & Hl). split; [done|].
  exists n. split.
  - eapply element_unchanged; [done| |done..]. intros w Hw. apply HP. rewrite inside_cons. left. cbn. unfold in_block.
    pose proof (block_addresses _ _ Hb). cbn in *. lia.
  - apply IH; [|done]. intros w Hw. apply HP. rewrite inside_cons. auto.
Qed.

(** ** Putting a block into its list *)

Lemma list_at_ok fl i : 0 <= i <= kNumLists -> length (free_lists_ fl) = Z.to_nat (kNumLists + 1) ->
  exists h, free_lists_ fl !! Z.to_nat i = Some h /\ list_at fl i = Ok h.
Proof.
  intros Hi Hl. destruct (lookup_lt_is_Some_2 (free_lists_ fl) (Z.to_nat i) ltac:(lia)) as [h Hh]. exists h. split; [done|].
  unfold list_at. destruct (Z.ltb_spec i 0); [lia|]. by rewrite Hh.
Qed.

Lemma in_concat_lookup {A} (ls : list (list A)) i l b : ls !! i = Some l -> b ∈ l -> b ∈ concat ls.
Proof.
  intros Hi Hb. revert i Hi. induction ls as [|k ls IH]; intros [|i] Hi; cbn in *; simplify_eq; rewrite elem_of_app; eauto.
Qed.

Lemma concat_lookup_in {A} (ls : list (list A)) b : b ∈ concat ls -> exists i l, ls !! i = Some l /\ b ∈ l.
Proof.
  induction ls as [|k ls IH]; cbn; [by intros ?%not_elem_of_nil|]. rewrite elem_of_app. intros [H|H]; [by exists 0%nat, k|].
  destruct (IH H) as (i & l & ? & ?). by exists (S i), l.
Qed.

Lemma disjoint_lists ls i j l k w :
  disjoint (concat ls) -> ls !! i = Some l -> ls !! j = Some k -> i <> j -> inside l w -> ~ inside k w.
Proof.
  revert i j. induction ls as [|l0 ls IH]; intros i j; [done|]. cbn. rewrite disjoint_app. intros (_ & Hd & Ha) Hi Hj Hij (b & Hb & Hbw) (c & Hc & Hcw).
  rewrite Forall_forall in Ha. destruct i as [|i], j as [|j]; cbn in Hi, Hj; simplify_eq.
  - specialize (Ha b Hb). rewrite Forall_forall in Ha. destruct (Ha c (in_concat_lookup _ _ _ _ Hj Hc)); unfold in_block in *; lia.
  - specialize (Ha c Hc). rewrite Forall_forall in Ha. destruct (Ha b (in_concat_lookup _ _ _ _ Hi Hb)); unfold in_block in *; lia.
  - assert (i <> j) as Hij' by congruence. apply (IH i j Hd Hi Hj Hij'); [by exists b|by exists c].
Qed.

Lemma linked_head mem h l : Forall (fun b => block_ok b.1 b.2) l -> linked mem h l -> (h = 0 <-> l = []).
Proof.
  intros Hb Hl. destruct l as [|[a s] l]; [done|]. destruct Hl as [-> _]. apply Forall_cons in Hb as [[Hp _ _ _ _ _] _].
  cbn in Hp. split; [lia|done].
Qed.

Lemma free_list_blocks mem fl ls i l b :
  free_list mem fl ls -> ls !! i = Some l -> b ∈ l -> block_ok b.1 b.2 /\ mapped mem b.1 b.2.
Proof. intros Hf Hi Hb. pose proof (fl_blocks _ _ _ Hf) as HF. rewrite Forall_forall in HF. apply HF. by eapply in_concat_lookup. Qed.

Lemma free_list_block_ok mem fl ls i l : free_list mem fl ls -> ls !! i = Some l -> Forall (fun b => block_ok b.1 b.2) l.
Proof. intros Hf Hi. apply Forall_forall. intros b Hb. by eapply free_list_blocks. Qed.

(** A change outside the free blocks keeps the lists. *)
Lemma free_list_frame P mem mem' fl ls :
  free_list mem fl ls -> changes P mem mem' -> (forall w, inside (concat ls) w -> ~ P w) -> free_list mem' fl ls.
Proof.
  intros Hf Hc HP. pose proof Hf as [H1 H2 H3 H4 H5 H6 H7 H8 H9]. split; try done.
  - intros i h l Hh Hl. eapply linked_frame; [exact Hc| |by eapply free_list_block_ok|by eapply H3].
    intros w (b & Hbl & Hbw). apply HP. exists b. split; [by eapply in_concat_lookup|done].
  - eapply Forall_impl; [exact H5|]. intros b [? ?]. split; [done|by eapply changes_mapped].
Qed.

Lemma free_list_protects mode x len mem mem' fl ls : free_list mem fl ls -> protects mode x len mem mem' -> free_list mem' fl ls.
Proof. intros Hf Hp. eapply (free_list_frame (fun _ => False)); [done|by eapply protects_changes|tauto]. Qed.

(** Replacing one of the lists. *)
Lemma free_list_update P mem fl ls mem' fl' i l l' h' :
  free_list mem fl ls -> ls !! i = Some l -> changes P mem mem' ->
  (forall j k, j <> i -> ls !! j = Some k -> forall w, inside k w -> ~ P w) ->
  free_lists_ fl' = <[i := h']> (free_lists_ fl) -> linked mem' h' l' ->
  (forall b, b ∈ l' -> class_of b.2 = Z.of_nat i /\ block_ok b.1 b.2 /\ mapped mem b.1 b.2) ->
  disjoint (concat (<[i := l']> ls)) ->
  BitSet.bits_ok kNumLists (free_map_ fl') ->
  (forall j, 0 <= j < kNumLists -> j <> Z.of_nat i -> BitSet.has (free_map_ fl') j = BitSet.has (free_map_ fl) j) ->
  (Z.of_nat i < kNumLists -> (BitSet.has (free_map_ fl') (Z.of_nat i) = true <-> l' <> [])) ->
  (exists r, BitSet.is_last (free_map_ fl') kNumLists r /\ (0 <= r -> last_free_small_size_ fl' = r * kObjectAlignment) /\
    (r < 0 -> last_free_small_size_ fl' < 0)) ->
  free_list mem' fl' (<[i := l']> ls).
Proof.
  intros Hf Hi Hc HP Hheads Hl' Hb' Hd Hbits Hother Hmap Hlast. pose proof (lookup_lt_Some _ _ _ Hi) as Hlt.
  split; try done.
  - rewrite Hheads, length_insert. apply Hf.
  - rewrite length_insert. apply Hf.
  - intros j h k. rewrite Hheads. destruct (decide (j = i)) as [->|Hj].
    + rewrite list_lookup_insert_eq by (rewrite (fl_heads _ _ _ Hf), <- (fl_lists _ _ _ Hf); done).
      rewrite list_lookup_insert_eq by done. by intros [= <-] [= <-].
    + rewrite !list_lookup_insert_ne by done. intros Hh Hk. eapply linked_frame; [done|by eapply HP|by eapply free_list_block_ok|].
      by eapply (fl_linked _ _ _ Hf).
  - intros j k b. destruct (decide (j = i)) as [->|Hj].
    + rewrite list_lookup_insert_eq by done. intros [= <-] Hb. by apply Hb'.
    + rewrite list_lookup_insert_ne by done. apply (fl_class _ _ _ Hf).
  - apply Forall_forall. intros b Hb. apply concat_lookup_in in Hb as (j & k & Hj & Hb). destruct (decide (j = i)) as [->|Hji].
    + rewrite list_lookup_insert_eq in Hj by done. simplify_eq. destruct (Hb' b Hb) as (_ & ? & Hm). split; [done|by eapply changes_mapped].
    + rewrite list_lookup_insert_ne in Hj by done. destruct (free_list_blocks _ _ _ _ _ _ Hf Hj Hb) as [? Hm]. split; [done|by eapply changes_mapped].
  - intros j k Hk Hj. destruct (decide (Z.to_nat j = i)) as [Hji|Hji].
    + rewrite Hji, list_lookup_insert_eq in Hk by done. simplify_eq. replace j with (Z.of_nat (Z.to_nat j)) by lia. apply Hmap. lia.
    + rewrite list_lookup_insert_ne in Hk by done. rewrite Hother by lia. by apply (fl_map _ _ _ Hf).
Qed.

Lemma concat_insert_cons {A} (ls : list (list A)) i l b :
  ls !! i = Some l -> concat (<[i := b :: l]> ls) ≡ₚ b :: concat ls.
Proof.
  intros Hi. apply (Permutation_app_inv_r l). rewrite (concat_insert ls i l (b :: l) Hi). cbn. by rewrite <- Permutation_middle.
Qed.

Lemma concat_insert_remove {A} (ls : list (list A)) i l1 b l2 :
  ls !! i = Some (l1 ++ b :: l2) -> concat ls ≡ₚ b :: concat (<[i := l1 ++ l2]> ls).
Proof.
  intros Hi. apply (Permutation_app_inv_r (l1 ++ l2)). rewrite <- (concat_insert ls i _ (l1 ++ l2) Hi). cbn.
  rewrite <- !Permutation_middle. done.
Qed.

Lemma is_last_set m m' i r :
  BitSet.is_last m kNumLists r -> 0 <= i < kNumLists -> (forall j, BitSet.has m' j = if j =? i then true else BitSet.has m j) ->
  BitSet.is_last m' kNumLists (Z.max r i).
Proof.
  intros Hr Hi Hh. right. destruct Hr as [[-> Hr]|(Hr0 & Hr1 & Hr)].
  - rewrite Z.max_r by lia. split_and!; [lia|lia|by rewrite Hh, Z.eqb_refl|]. intros j Hj. rewrite Hh. destruct (Z.eqb_spec j i); [lia|]. apply Hr. lia.
  - split_and!; [lia|lia|..].
    + rewrite Hh. destruct (Z.eqb_spec (Z.max r i) i); [done|]. by replace (Z.max r i) with r by lia.
    + intros j Hj. rewrite Hh. destruct (Z.eqb_spec j i); [lia|]. apply Hr. lia.
Qed.

Lemma EnqueueElement_ok mem fl ls a s n :
  free_list mem fl ls -> block_ok a s -> mapped mem a s -> element mem a s n -> Forall (apart (a, s)) (concat ls) ->
  can_write (prot mem (page_of (a + kWordSize))) = true ->
  exists mem' fl' ls', EnqueueElement mem fl a (class_of s) = Ok (mem', fl') /\ free_list mem' fl' ls' /\
    concat ls' ≡ₚ (a, s) :: concat ls /\ prot mem' = prot mem /\ changes (eq (a + kWordSize)) mem mem'.
Proof.
  intros Hf Hb Hm He Hap Hw. destruct (IndexForSize_ok s) as [_ Hi]; [apply Hb..|]. unfold EnqueueElement.
  destruct (list_at_ok fl (class_of s) ltac:(lia) (fl_heads _ _ _ Hf)) as (h & Hh & ->). cbn [mbind result_bind].
  destruct (lookup_lt_is_Some_2 ls (Z.to_nat (class_of s))) as [l Hl]; [rewrite (fl_lists _ _ _ Hf); unfold kNumLists in *; lia|].
  pose proof (fl_linked _ _ _ Hf _ _ _ Hh Hl) as Hlk. pose proof (linked_head _ _ _ (free_list_block_ok _ _ _ _ _ Hf Hl) Hlk) as Hh0.
  destruct (element_set_next_ok mem a s n h Hb He Hw) as (mem' & Hset & He' & Hp & Hc).
  set (fl1 := if (h =? 0) && negb (class_of s =? kNumLists) then _ else Ok fl).
  assert (exists fl2, fl1 = Ok fl2 /\ free_lists_ fl2 = free_lists_ fl /\ BitSet.bits_ok kNumLists (free_map_ fl2) /\
    (forall j, 0 <= j < kNumLists -> j <> class_of s -> BitSet.has (free_map_ fl2) j = BitSet.has (free_map_ fl) j) /\
    (class_of s < kNumLists -> BitSet.has (free_map_ fl2) (class_of s) = true) /\
    (exists r, BitSet.is_last (free_map_ fl2) kNumLists r /\ (0 <= r -> last_free_small_size_ fl2 = r * kObjectAlignment) /\
      (r < 0 -> last_free_small_size_ fl2 < 0))) as (fl2 & -> & H2h & H2b & H2o & H2i & H2l).
  { unfold fl1. destruct (Z.eqb_spec h 0) as [E0|E0]; [destruct (Z.eqb_spec (class_of s) kNumLists) as [E1|E1]|]; cbn [andb negb].
    - exists fl. split_and!; [done|done|apply Hf|done|lia|apply Hf].
    - destruct (BitSet.Set_ok kNumLists (free_map_ fl) (class_of s) true (fl_bits _ _ _ Hf) ltac:(lia)) as (m' & -> & Hm' & Hhas).
      cbn [mbind result_bind]. eexists. split; [done|]. cbn [free_map_ free_lists_ last_free_small_size_]. split_and!; [done|done|..].
      + intros j _ Hj. rewrite Hhas. by destruct (Z.eqb_spec j (class_of s)).
      + intros _. by rewrite Hhas, Z.eqb_refl.
      + destruct (fl_last _ _ _ Hf) as (r & Hr & Hr0 & Hr1). exists (Z.max r (class_of s)). split; [by apply (is_last_set (free_map_ fl)); [|lia|]|].
        rewrite index_size by lia. unfold Utils.Maximum. pose proof kOA_cases. split; [|lia]. intros _.
        destruct (Z.ltb_spec r 0); [|specialize (Hr0 ltac:(lia))]; destruct (Z.gtb_spec (last_free_small_size_ fl) (class_of s * kObjectAlignment)); nia.
    - exists fl. split_and!; [done|done|apply Hf|done| |apply Hf]. intros Hlt. apply (fl_map _ _ _ Hf _ l); [by rewrite Hl|lia|tauto]. }
  cbn [mbind result_bind]. rewrite Hset. cbn [mbind result_bind].
  pose proof (concat_insert_cons ls _ _ (a, s) Hl) as Hperm. eexists _, _, _. split; [done|]. split_and!; [|exact Hperm|done|done].
  assert (forall w, w = a + kWordSize -> in_block (a, s).1 (a, s).2 w) as Hin.
  { intros w ->. unfold in_block. cbn. pose proof (block_addresses _ _ Hb). pose proof kWordSize_cases. lia. }
  eapply (free_list_update _ mem fl ls); try done.
  - intros j k Hj Hk w Hkw <-. apply (apart_inside (a, s) (concat ls) (a + kWordSize)); [done|by apply Hin|].
    destruct Hkw as (b & Hbk & Hbw). exists b. split; [by eapply in_concat_lookup|done].
  - cbn. rewrite H2h. done.
  - cbn. split; [done|]. exists h. split; [done|]. eapply linked_frame; [done| |by eapply free_list_block_ok|done].
    intros w (b & Hbl & Hbw) <-. apply (apart_inside (a, s) (concat ls) (a + kWordSize)); [done|by apply Hin|]. exists b. split; [by eapply in_concat_lookup|done].
  - intros b [->|Hbl]%elem_of_cons; [cbn; split_and!; [lia|done..]|]. split; [|by eapply free_list_blocks]. by apply (fl_class _ _ _ Hf _ l).
  - rewrite Hperm. cbn. split; [done|apply Hf].
  - cbn. intros j Hj Hne. apply H2o; lia.
  - cbn. intros Hlt. split; [done|]. intros _. rewrite Z2Nat.id in Hlt |- * by lia. by apply H2i.
Qed.

(** ** Taking the first block of a list *)

Lemma DequeueElement_ok mem fl ls i a s l :
  free_list mem fl ls -> readable mem -> 0 <= i <= kNumLists -> ls !! Z.to_nat i = Some ((a, s) :: l) ->
  exists fl' n, DequeueElement mem fl i = Ok (a, fl') /\ free_list mem fl' (<[Z.to_nat i := l]> ls) /\ element mem a s n.
Proof.
  intros Hf Hrd Hi Hl. unfold DequeueElement. destruct (list_at_ok fl i Hi (fl_heads _ _ _ Hf)) as (h & Hh & ->). cbn [mbind result_bind].
  destruct (fl_linked _ _ _ Hf _ _ _ Hh Hl) as (-> & n & He & Hlk). pose proof (free_list_block_ok _ _ _ _ _ Hf Hl) as Hbs.
  apply Forall_cons in Hbs as [Hb Hbs]. cbn in Hb. rewrite (next_ok _ _ _ _ Hrd Hb He). cbn [mbind result_bind].
  pose proof (linked_head _ _ _ Hbs Hlk) as Hn0.
  set (fl1 := if (n =? 0) && negb (i =? kNumLists) then _ else Ok fl).
  assert (exists fl2, fl1 = Ok fl2 /\ free_lists_ fl2 = free_lists_ fl /\ BitSet.bits_ok kNumLists (free_map_ fl2) /\
    (forall j, 0 <= j < kNumLists -> j <> i -> BitSet.has (free_map_ fl2) j = BitSet.has (free_map_ fl) j) /\
    (i < kNumLists -> (BitSet.has (free_map_ fl2) i = true <-> l <> [])) /\
    (exists r, BitSet.is_last (free_map_ fl2) kNumLists r /\ (0 <= r -> last_free_small_size_ fl2 = r * kObjectAlignment) /\
      (r < 0 -> last_free_small_size_ fl2 < 0))) as (fl2 & -> & H2h & H2b & H2o & H2i & H2l).
  { unfold fl1. destruct (Z.eqb_spec n 0) as [E0|E0]; [destruct (Z.eqb_spec i kNumLists) as [E1|E1]|]; cbn [andb negb].
    - exists fl. split_and!; [done|done|apply Hf|done|lia|apply Hf].
    - assert (BitSet.has (free_map_ fl) i = true) as Hhi by (by apply (fl_map _ _ _ Hf _ _ Hl); [lia|]).
      assert (l = []) as -> by tauto. destruct (fl_last _ _ _ Hf) as (r & Hr & Hr0 & Hr1). pose proof kOA_cases as HOA.
      assert (i <= r) as Hir by (destruct Hr as [[-> Hr]|(Hra & _ & Hr)]; [rewrite Hr in Hhi by lia; done|destruct (Z.leb_spec i r); [done|rewrite Hr in Hhi by lia; done]]).
      specialize (Hr0 ltac:(lia)). rewrite index_size by lia. destruct (Z.eqb_spec (i * kObjectAlignment) (last_free_small_size_ fl)) as [Es|Es].
      + assert (r = i) as -> by nia.
        destruct (BitSet.ClearLast_ok kNumLists (free_map_ fl) i (fl_bits _ _ _ Hf) ltac:(lia) Hr) as (r' & m' & -> & Hm' & Hhas & Hlast).
        cbn [mbind result_bind]. eexists. split; [done|]. cbn [free_map_ free_lists_ last_free_small_size_]. split_and!; [done|done|..].
        * intros j _ Hj. rewrite Hhas. by destruct (Z.eqb_spec j i).
        * intros _. rewrite Hhas, Z.eqb_refl. split; [done|done].
        * assert (-1 <= r' < kNumLists) by (destruct Hlast as [[-> _]|(? & _)]; unfold kNumLists in *; lia).
          exists r'. split; [done|]. rewrite intptr_small by (unfold kNumLists in *; destruct HOA as [-> | ->]; lia). split; [done|]. destruct HOA as [-> | ->]; lia.
      + destruct (BitSet.Set_ok kNumLists (free_map_ fl) i false (fl_bits _ _ _ Hf) ltac:(lia)) as (m' & -> & Hm' & Hhas).
        cbn [mbind result_bind]. eexists. split; [done|]. cbn [free_map_ free_lists_ last_free_small_size_]. split_and!; [done|done|..].
        * intros j _ Hj. rewrite Hhas. by destruct (Z.eqb_spec j i).
        * intros _. rewrite Hhas, Z.eqb_refl. split; [done|done].
        * exists r. split_and!; [|done|done]. assert (r <> i) by (intros ->; lia). right. destruct Hr as [[-> _]|(Hra & Hrb & Hr)]; [lia|].
          split_and!; [lia|lia|rewrite Hhas; by destruct (Z.eqb_spec r i)|]. intros j Hj. rewrite Hhas. destruct (Z.eqb_spec j i); [done|auto].
    - exists fl. split_and!; [done|done|apply Hf|done| |apply Hf]. intros Hlt. rewrite (fl_map _ _ _ Hf _ _ Hl) by lia. split; [tauto|done]. }
  cbn [mbind result_bind]. eexists _, n. split; [done|]. split; [|done].
  eapply (free_list_update (fun _ => False) mem fl ls); try done.
  - tauto.
  - cbn. by rewrite H2h.
  - intros b Hbl. split; [|eapply free_list_blocks; [done|done|by right]]. apply (fl_class _ _ _ Hf _ _ _ Hl). by right.
  - pose proof (concat_insert_remove ls _ [] (a, s) l Hl) as Hperm. pose proof (fl_disjoint _ _ _ Hf) as Hd. rewrite Hperm in Hd. by destruct Hd.
  - cbn. intros j Hj Hne. apply H2o; lia.
  - cbn. rewrite Z2Nat.id by lia. done.
Qed.

(** ** Splitting *)

Lemma remainder_block a s size :
  block_ok a s -> kObjectAlignment <= size -> size mod kObjectAlignment = 0 -> size < s -> block_ok (a + size) (s - size).
Proof.
  intros [H1 H2 H3 H4 H5 H6] Hm Ha Hlt. pose proof kOA_cases as HOA.
  assert (forall x y, x mod kObjectAlignment = 0 -> y mod kObjectAlignment = 0 -> (x + y) mod kObjectAlignment = 0) as Hadd.
  { intros x y Hx Hy. by rewrite Z.add_mod, Hx, Hy, Z.mod_0_l by lia. }
  assert ((s - size) mod kObjectAlignment = 0) as Hsub by (by rewrite Zminus_mod, H4, Ha, Z.mod_0_l by lia).
  split; try lia; [by apply Hadd|]. assert (kObjectAlignment * ((s - size) / kObjectAlignment) = s - size) by (pose proof (Z.div_mod (s - size) kObjectAlignment); lia).
  assert (0 < (s - size) / kObjectAlignment) by nia. nia.
Qed.

Lemma size_in_range a s size : block_ok a s -> 0 <= size <= s -> intptr (s - size) = s - size /\ intptr size = size /\ uword (a + size) = a + size.
Proof.
  intros [H1 H2 H3 H4 H5 H6] Hs. unfold intptr, uword. assert (0 < kBitsPerWord) by (destruct kBitsPerWord_ok; lia).
  rewrite !wrapS_id, wrapU_id by (try lia; unfold isS, isU; lia). done.
Qed.

Lemma Split_ok mem fl ls a s n size p :
  (p = true -> forall x y, mprotect_succeeds x y = true) ->
  free_list mem fl ls -> readable mem -> block_ok a s -> mapped mem a s -> element mem a s n -> Forall (apart (a, s)) (concat ls) ->
  kObjectAlignment <= size <= s -> size mod kObjectAlignment = 0 ->
  (size < s -> writable mem (a + size) (HeaderSizeFor (s - size))) ->
  exists mem' fl' ls', SplitElementAfterAndEnqueue mem fl a size p = Ok (mem', fl') /\ free_list mem' fl' ls' /\
    concat ls' ≡ₚ remainder a s size ++ concat ls /\ readable mem' /\ changes (in_block (a + size) (s - size)) mem mem' /\
    (p = false -> prot mem' = prot mem) /\
    (forall w, 0 <= w < a + size -> prot mem' (page_of w) = prot mem (page_of w)).
Proof.
  intros Hos Hf Hrd Hb Hm He Hap Hsz Hal Hw. pose proof kOA_cases as HOA. unfold SplitElementAfterAndEnqueue. rewrite (Size_ok _ _ _ _ Hrd Hb He). cbn [mbind result_bind].
  destruct (size_in_range a s size Hb ltac:(lia)) as (-> & _ & ->). unfold remainder.
  destruct (Z.eqb_spec (s - size) 0) as [E|E]; destruct (Z.eqb_spec s size) as [E'|E']; try lia.
  { exists mem, fl, ls. split_and!; [done..]. }
  pose proof (remainder_block a s size Hb ltac:(lia) Hal ltac:(lia)) as Hb'. set (ra := a + size) in *. set (rs := s - size) in *.
  pose proof (block_addresses _ _ Hb') as (_ & _ & Hhs & _).
  assert (mapped mem ra rs) as Hm' by (intros w Hw1 Hw2; apply Hm; [unfold ra, rs in *; lia|done]).
  destruct (AsElement_ok mem ra rs Hb') as (m1 & -> & He1 & Hp1 & Hc1); [intros w ??; apply Hm'; [lia|done]|apply Hw; lia|].
  cbn [mbind result_bind]. destruct (IndexForSize_ok rs) as [-> _]; [apply Hb'..|]. cbn [mbind result_bind].
  assert (Forall (apart (ra, rs)) (concat ls)) as Hap'.
  { eapply Forall_impl; [exact Hap|]. intros c. unfold apart, ra, rs. cbn. lia. }
  assert (free_list m1 fl ls) as Hf1.
  { eapply free_list_frame; [done|exact Hc1|]. intros w Hin Hw'. apply (apart_inside (ra, rs) (concat ls) w); [done| |done].
    unfold in_block in *. cbn. lia. }
  destruct (EnqueueElement_ok m1 fl ls ra rs 0) as (m2 & fl2 & ls2 & -> & Hf2 & Hperm & Hp2 & Hc2); [done|done|by eapply changes_mapped|done|done|..].
  { rewrite Hp1. apply Hw; [lia|]. pose proof (block_addresses _ _ Hb'). pose proof kWordSize_cases. lia. }
  cbn [mbind result_bind]. assert (changes (in_block ra rs) mem m2) as Hc12.
  { eapply changes_trans; [exact Hc1|exact Hc2|]. unfold in_block. pose proof (block_addresses _ _ Hb'). pose proof kWordSize_cases. intros w [?|<-]; lia. }
  assert (readable m2) as Hrd2 by (eapply changes_readable; [exact Hc12|congruence|done]).
  destruct (p && negb (InSamePage (uword (ra - 1)) ra)) eqn:Ep.
  - apply andb_true_iff in Ep as [-> Epg]. pose proof Hb' as [B1 B2 B3 B4 B5 B6]. pose proof Hb as [A1 A2 A3 A4 A5 A6].
    destruct (protect_ok m2 ra rs kReadExecute (Hos eq_refl) ltac:(lia) ltac:(lia) ltac:(lia)) as (m3 & -> & Hpr). cbn [mbind result_bind].
    exists m3, fl2, ls2. split_and!; [done|by eapply free_list_protects|done|by eapply protects_read| |done|].
    + eapply changes_trans; [exact Hc12|by eapply (protects_changes _ _ _ _ _ (fun _ => False))|tauto].
    + intros w Hw'. destruct Hpr as [_ ->]. apply negb_true_iff, Z.eqb_neq in Epg. unfold uword in Epg. rewrite wrapU_id in Epg by (unfold isU; unfold ra in *; lia).
      assert (isU kBitsPerWord w /\ isU kBitsPerWord (ra - 1) /\ isU kBitsPerWord ra) as (U1 & U2 & U3) by (unfold isU, ra in *; lia).
      pose proof (page_of_mono w (ra - 1) U1 U2 ltac:(lia)). pose proof (page_of_mono (ra - 1) ra U2 U3 ltac:(lia)).
      destruct (Z.leb_spec (page_of ra) (page_of w)); [lia|]. cbn [andb]. congruence.
  - exists m2, fl2, ls2. split_and!; [done|done|done|done|done|intros _; congruence|intros; congruence].
Qed.

(** ** The list of large blocks *)

Lemma linked_relink mem mem' h pre pa ps a s post n :
  linked mem h (pre ++ (pa, ps) :: (a, s) :: post) -> element mem a s n -> element mem' pa ps n ->
  changes (eq (pa + kWordSize)) mem mem' -> disjoint (pre ++ (pa, ps) :: (a, s) :: post) ->
  Forall (fun b => block_ok b.1 b.2) (pre ++ (pa, ps) :: (a, s) :: post) ->
  linked mem' h (pre ++ (pa, ps) :: post).
Proof.
  intros Hl He He' Hc. revert h Hl. induction pre as [|[qa qs] pre IH]; intros h Hl; cbn [app disjoint]; intros [Hap Hd] [Hb Hbs]%Forall_cons; cbn [app linked] in Hl.
  - destruct Hl as (-> & n1 & _ & -> & n2 & He2 & Hl). cbn. split; [done|]. exists n. split; [done|].
    assert (n2 = n) as -> by (destruct He as (_ & H1 & _), He2 as (_ & H2 & _); congruence).
    apply Forall_cons in Hbs as [_ Hbs]. eapply linked_frame; [done| |done|done].
    intros w Hin <-. apply Forall_cons in Hap as [_ Hap]. apply (apart_inside _ _ _ Hap) in Hin; [done|]. cbn in Hb. cbn. unfold in_block.
    pose proof (block_addresses _ _ Hb). pose proof kWordSize_cases. lia.
  - destruct Hl as (-> & n1 & He1 & Hl). cbn. split; [done|]. exists n1. split; [|by apply IH].
    eapply element_unchanged; [done| |done..]. cbn in Hb. intros w Hw <-. rewrite Forall_forall in Hap. specialize (Hap (pa, ps) ltac:(rewrite elem_of_app; right; by left)).
    assert (block_ok pa ps) as Hpb by (apply Forall_app in Hbs as [_ [? _]%Forall_cons]; done).
    pose proof (block_addresses _ _ Hb). pose proof (block_addresses _ _ Hpb). pose proof kWordSize_cases. unfold apart in Hap. cbn in Hap. lia.
Qed.

Lemma linked_split mem h pre l : linked mem h (pre ++ l) -> exists m, linked mem m l.
Proof.
  revert h. induction pre as [|[a s] pre IH]; intros h Hl; [by exists h|]. cbn [app] in Hl. destruct Hl as (_ & n & _ & Hl). eauto.
Qed.

Definition address_of (b : option block) : Z := match b with Some (a, _) => a | None => 0 end.

(** Whether the free memory may be written: when it is in protected pages,
    [mprotect] must succeed, otherwise it must be writable. *)
Definition may_write (p : bool) (mem : Memory) (bs : list block) : Prop :=
  if p then forall x y, mprotect_succeeds x y = true else forall b, b ∈ bs -> writable mem b.1 b.2.

Lemma same_page_between x w t : isU kBitsPerWord x -> isU kBitsPerWord w -> isU kBitsPerWord t -> x <= w <= t \/ t <= w <= x -> page_of x = page_of t -> page_of w = page_of x.
Proof.
  intros Hx Hw Ht Hb He. destruct Hb as [Hb|Hb].
  - pose proof (page_of_mono x w Hx Hw ltac:(lia)). pose proof (page_of_mono w t Hw Ht ltac:(lia)). lia.
  - pose proof (page_of_mono w x Hw Hx ltac:(lia)). pose proof (page_of_mono t w Ht Hw ltac:(lia)). lia.
Qed.


Lemma word_in_page x : isU kBitsPerWord x -> x mod kWordSize = 0 -> x + kWordSize <= page_of x + PageSize.
Proof.
  intros Hx Ha. rewrite page_of_spec by done. pose proof PageSize_pos as Hps. pose proof kWordSize_cases as Hws.
  assert (exists k, PageSize = kWordSize * k) as [k Hk].
  { exists (2 ^ (page_size_log2 - kWordSizeLog2)). unfold PageSize. pose proof page_size_ok.
    replace kWordSize with (2 ^ kWordSizeLog2) by (unfold kWordSize, kWordSizeLog2; by destruct (_ =? _)).
    rewrite <- Z.pow_add_r by (unfold kWordSizeLog2; destruct (_ =? _); lia). f_equal. lia. }
  assert ((x mod PageSize) mod kWordSize = 0) as Hm by (rewrite Z.mod_mod_divide; [done|]; exists k; lia).
  apply Z.mod_divide in Hm as [t Ht]; [|lia]. pose proof (Z.mod_pos_bound x (@PageSize Os) ltac:(lia)). pose proof (Z.div_mod x (@PageSize Os) ltac:(lia)). nia.
Qed.

(** Protecting one word changes one page. *)
Lemma protects_word mode x mem mem' w :
  protects mode x kWordSize mem mem' -> isU kBitsPerWord x -> x mod kWordSize = 0 -> isU kBitsPerWord w ->
  prot mem' (page_of w) = if page_of w =? page_of x then mode else prot mem (page_of w).
Proof.
  intros [_ ->] Hx Ha Hw. pose proof (word_in_page x Hx Ha) as Hin. pose proof PageSize_pos. pose proof kWordSize_cases.
  pose proof (page_of_le x Hx). rewrite !page_of_spec in * by done.
  destruct (Z.eqb_spec (w / PageSize * PageSize) (x / PageSize * PageSize)) as [->|Hn].
  - rewrite (proj2 (Z.leb_le _ _)), (proj2 (Z.ltb_lt _ _)) by lia. done.
  - destruct (Z.leb_spec (x / PageSize * PageSize) (w / PageSize * PageSize)); [|done].
    destruct (Z.ltb_spec (w / PageSize * PageSize) (x + kWordSize)); [|done]. exfalso. apply Hn. f_equal. assert (w / PageSize < x / PageSize + 1) by nia. assert (x / PageSize <= w / PageSize) by nia. lia.
Qed.

Lemma block_link_aligned a s : block_ok a s -> (a + kWordSize) mod kWordSize = 0 /\ isU kBitsPerWord (a + kWordSize).
Proof.
  intros [B1 B2 B3 B4 B5 B6]. pose proof kWordSize_cases. unfold kObjectAlignment in *. split; [|unfold isU; lia].
  apply Z.mod_divide in B2 as [k Hk]; [|lia]. rewrite Hk. replace (k * (2 * kWordSize) + kWordSize) with ((2 * k + 1) * kWordSize) by lia. apply Z.mod_mul. lia.
Qed.

(** The store to [previous->next_], in a protected page when need be. *)
Lemma set_next_protected p mem pa ps n n' a region :
  may_write p mem [(pa, ps)] -> (p = true -> writable mem a region) -> readable mem ->
  block_ok pa ps -> element mem pa ps n -> 0 < a -> 0 < region -> a + region < 2 ^ kBitsPerWord -> apart (pa, ps) (a, region) ->
  let target_is_protected := p && negb (InSamePage (next_address pa) a) && negb (InSamePage (next_address pa) (uword (a + region - 1))) in
  exists m1 m2 mem', (if target_is_protected then protect_ mem (next_address pa) kWordSize kReadWrite else Ok mem) = Ok m1 /\
    set_next m1 pa n' = Ok m2 /\
    (if target_is_protected then protect_ m2 (next_address pa) kWordSize kReadExecute else Ok m2) = Ok mem' /\
    element mem' pa ps n' /\ readable mem' /\ changes (eq (pa + kWordSize)) mem mem' /\ (p = false -> prot mem' = prot mem) /\
    (forall w, a <= w < a + region -> prot mem' (page_of w) = prot mem (page_of w)).
Proof.
  intros Hmw Hwr Hrd Hb He Ha Hreg Hend Hap tip. pose proof kWordSize_cases as Hws. destruct (block_link_aligned _ _ Hb) as [Hal Ut].
  pose proof (block_addresses _ _ Hb) as (Hna & _ & Hh1 & Hh2 & _). pose proof Hb as [B1 B2 B3 B4 B5 B6].
  unfold apart in Hap. cbn in Hap. assert (isU kBitsPerWord a /\ isU kBitsPerWord (a + region - 1)) as (Ua & Ue) by (unfold isU; lia).
  assert (uword (a + region - 1) = a + region - 1) as Hue by (by apply wrapU_id). unfold tip. rewrite Hue, Hna. clear tip Hue.
  destruct (p && negb (InSamePage (pa + kWordSize) a) && negb (InSamePage (pa + kWordSize) (a + region - 1))) eqn:Ep.
  - apply andb_true_iff in Ep as [[-> Ep1]%andb_true_iff Ep2]. apply negb_true_iff, Z.eqb_neq in Ep1, Ep2. cbn in Hmw.
    destruct (protect_ok mem (pa + @kWordSize T) (@kWordSize T) kReadWrite Hmw ltac:(lia) ltac:(lia) ltac:(lia)) as (m1 & Hm1 & Hp1).
    destruct (element_set_next_ok m1 pa ps n n' Hb) as (m2 & Hm2 & He2 & Hpr2 & Hc2); [eapply element_words; [apply Hp1|done]|eapply protects_rw; [done|lia..]|].
    destruct (protect_ok m2 (pa + @kWordSize T) (@kWordSize T) kReadExecute Hmw ltac:(lia) ltac:(lia) ltac:(lia)) as (m3 & Hm3 & Hp3).
    assert (readable m2) as Hrd2 by (eapply changes_readable; [exact Hc2|done|by eapply protects_read]).
    exists m1, m2, m3. split_and!; [done..|eapply element_words; [apply Hp3|done]|by eapply protects_read| |done|].
    + eapply (changes_trans (fun _ => False) (eq (pa + kWordSize))); [by eapply protects_changes| |tauto].
      eapply (changes_trans _ (fun _ => False)); [exact Hc2|by eapply protects_changes|tauto].
    + intros w Hw. assert (isU kBitsPerWord w) as Uw by (unfold isU; lia).
      rewrite (protects_word _ _ _ _ _ Hp3), Hpr2, (protects_word _ _ _ _ _ Hp1) by done.
      destruct (Z.eqb_spec (page_of w) (page_of (pa + kWordSize))) as [Hpg|]; [exfalso|done]. destruct Hap as [Hap|Hap].
      * apply Ep1. rewrite <- Hpg. symmetry. rewrite Hpg. by apply (same_page_between (pa + kWordSize) a w); [..|lia|].
      * apply Ep2. rewrite <- Hpg. symmetry. apply (same_page_between w (a + region - 1) (pa + kWordSize)); [done..|lia|done].
  - destruct (element_set_next_ok mem pa ps n n' Hb He) as (m2 & Hm2 & He2 & Hpr2 & Hc2).
    + destruct p; cbn [andb may_write] in *; [|apply (Hmw (pa, ps)); [by left|cbn; lia]].
      specialize (Hwr eq_refl). apply andb_false_iff in Ep as [Ep|Ep]; apply negb_false_iff, Z.eqb_eq in Ep; rewrite Ep; apply Hwr; lia.
    + exists mem, m2, m2. split_and!; [done..| |done|done|intros; congruence]. by eapply changes_readable.
Qed.

Lemma may_write_sub p mem bs bs' : may_write p mem bs -> (forall b, b ∈ bs' -> b ∈ bs) -> may_write p mem bs'.
Proof. destruct p; cbn; auto. Qed.

Lemma pair_in_concat {ls : list (list block)} {i l} b : ls !! i = Some l -> b ∈ l -> b ∈ concat ls.
Proof. apply in_concat_lookup. Qed.

Lemma disjoint_sub ls i l : disjoint (concat ls) -> ls !! i = Some l -> disjoint l.
Proof.
  revert i. induction ls as [|k ls IH]; intros [|i]; cbn; try done; rewrite disjoint_app; intros (Hk & Hd & _) Hi; [by simplify_eq|eauto].
Qed.

Lemma unlink_ok p mem fl ls pre a s post n region :
  free_list mem fl ls -> readable mem -> may_write p mem (concat ls) -> ls !! Z.to_nat kNumLists = Some (pre ++ (a, s) :: post) ->
  element mem a s n -> 0 < region <= s -> (p = true -> writable mem a region) ->
  exists mem' fl' n', unlink mem fl (address_of (last pre)) a region p = Ok (mem', fl') /\
    free_list mem' fl' (<[Z.to_nat kNumLists := pre ++ post]> ls) /\ readable mem' /\ element mem' a s n' /\
    changes (inside pre) mem mem' /\ (p = false -> prot mem' = prot mem) /\
    (forall w, a <= w < a + region -> prot mem' (page_of w) = prot mem (page_of w)).
Proof.
  intros Hf Hrd Hmw Hl He Hreg Hwr. pose proof (free_list_block_ok _ _ _ _ _ Hf Hl) as Hbs. pose proof (disjoint_sub _ _ _ (fl_disjoint _ _ _ Hf) Hl) as Hdl.
  assert (block_ok a s) as Hb by (apply Forall_app in Hbs as [_ [? _]%Forall_cons]; done). pose proof Hb as [B1 B2 B3 B4 B5 B6].
  assert (forall b, b ∈ pre ++ post -> class_of b.2 = Z.of_nat (Z.to_nat kNumLists) /\ block_ok b.1 b.2 /\ mapped mem b.1 b.2) as Hrest.
  { intros b Hbp. assert (b ∈ pre ++ (a, s) :: post) as Hin by (rewrite elem_of_app, elem_of_cons in *; tauto).
    split; [by apply (fl_class _ _ _ Hf _ _ _ Hl)|by eapply free_list_blocks]. }
  assert (disjoint (concat (<[Z.to_nat kNumLists := pre ++ post]> ls))) as Hdis.
  { pose proof (concat_insert_remove ls _ pre (a, s) post Hl) as Hperm. pose proof (fl_disjoint _ _ _ Hf) as Hd. rewrite Hperm in Hd. by destruct Hd. }
  destruct (list_at_ok fl kNumLists ltac:(unfold kNumLists; lia) (fl_heads _ _ _ Hf)) as (h & Hh & _). pose proof (fl_linked _ _ _ Hf _ _ _ Hh Hl) as Hlk.
  unfold unlink. rewrite (next_ok _ _ _ _ Hrd Hb He). cbn [mbind result_bind]. destruct (last pre) as [[pa ps]|] eqn:Elast; cbn [address_of].
  - apply last_Some in Elast as [pre' ->]. assert (block_ok pa ps) as Hpb by (apply Forall_app in Hbs as [[_ [? _]%Forall_cons]%Forall_app _]; done).
    destruct (Z.eqb_spec pa 0); [destruct Hpb; lia|].
    assert ((pa, ps) ∈ (pre' ++ [(pa, ps)]) ++ (a, s) :: post) as Hpin by (rewrite !elem_of_app; left; right; by left).
    assert (linked mem h (pre' ++ (pa, ps) :: (a, s) :: post) /\ disjoint (pre' ++ (pa, ps) :: (a, s) :: post) /\
      Forall (fun b => block_ok b.1 b.2) (pre' ++ (pa, ps) :: (a, s) :: post)) as (Hlk' & Hdl' & Hbs') by (by rewrite <- !app_assoc in *).
    assert (apart (pa, ps) (a, s)) as Hap by (apply disjoint_app in Hdl' as (_ & [[? _]%Forall_cons _] & _); done).
    assert (exists pn, element mem pa ps pn) as [pn Hpe].
    { apply linked_split in Hlk' as (m & _ & pn & Hpe & _). eauto. }
    destruct (set_next_protected p mem pa ps pn n a region) as (m1 & m2 & m3 & E1 & E2 & E3 & He3 & Hrd3 & Hc3 & Hp3 & Hp3'); try done.
    { eapply may_write_sub; [done|]. intros b ->%list_elem_of_singleton. by eapply in_concat_lookup. }
    { lia. } { lia. } { unfold apart in *. cbn in *. lia. }
    rewrite E1. cbn [mbind result_bind]. rewrite E2. cbn [mbind result_bind]. rewrite E3. cbn [mbind result_bind].
    assert (forall w, pa + kWordSize = w -> in_block pa ps w) as Hw.
    { intros w <-. unfold in_block. pose proof (block_addresses _ _ Hpb). pose proof kWordSize_cases. lia. }
    exists m3, fl, n. split_and!; [done| |done| | |done|done].
    + eapply (free_list_update _ mem fl ls); try done.
      * intros j k Hj Hk w Hkw Hw'. apply (disjoint_lists ls (Z.to_nat kNumLists) j _ k w (fl_disjoint _ _ _ Hf) Hl Hk); [congruence| |done].
        exists (pa, ps). split; [done|by apply Hw].
      * symmetry. by apply list_insert_id.
      * rewrite <- app_assoc. cbn. by eapply linked_relink.
      * apply Hf.
      * apply Hf.
    + eapply element_unchanged; [exact Hc3| |done..]. intros w Hw1 Hw2. apply Hw in Hw2. unfold in_block, apart in *. cbn in *.
      pose proof (block_addresses _ _ Hb). lia.
    + eapply changes_weaken; [exact Hc3|]. intros w Hw1. exists (pa, ps). split; [rewrite elem_of_app; right; by left|by apply Hw].
  - apply last_None in Elast as ->. cbn [app] in *. exists mem, (set_list fl kNumLists n), n. cbn. split_and!; try done.
    destruct Hlk as (-> & n' & He' & Hlk). assert (n' = n) as -> by (destruct He as (_ & H1 & _), He' as (_ & H2 & _); congruence).
    eapply (free_list_update (fun _ => False) mem fl ls); try done; [tauto|apply Hf|apply Hf].
Qed.


(** ** Allocation *)

(** The outcome of an allocation of [size] bytes, [p] being [is_protected]: the
    block at [a] was free and had [s] bytes; the remainder and the other blocks
    are free still, only free memory was written, and the block is writable. *)
Definition taken (p : bool) (size : Z) (mem : Memory) (bs : list block) (a s : Z) (mem' : Memory) (fl' : FreeList) : Prop :=
  exists rest ls', size <= s /\ bs ≡ₚ (a, s) :: rest /\ free_list mem' fl' ls' /\ concat ls' ≡ₚ remainder a s size ++ rest /\
    readable mem' /\ changes (inside bs) mem mem' /\ (p = false -> prot mem' = prot mem) /\ writable mem' a size.

Lemma region_ok a s size :
  block_ok a s -> kObjectAlignment <= size <= s -> size mod kObjectAlignment = 0 ->
  size <= size + HeaderSizeFor (s - size) <= s /\ intptr (size + HeaderSizeFor (s - size)) = size + HeaderSizeFor (s - size) /\ intptr (s - size) = s - size.
Proof.
  intros Hb Hs Ha. destruct (size_in_range a s size Hb ltac:(pose proof kOA_cases; lia)) as (Hi & _ & _).
  assert (size <= size + HeaderSizeFor (s - size) <= s) as Hle.
  { destruct (decide (s = size)) as [->|Hne]; [rewrite Z.sub_diag; cbn; lia|].
    pose proof (block_addresses _ _ (remainder_block a s size Hb ltac:(lia) Ha ltac:(lia))). pose proof kWordSize_cases. lia. }
  split_and!; [lia..| |done]. destruct Hb as [B1 B2 B3 B4 B5 B6]. pose proof kOA_cases. unfold intptr. apply wrapS_id; [destruct kBitsPerWord_ok; lia|unfold isS; lia].
Qed.

(** The block is out of its list and its region is writable: split it. *)
Lemma split_taken p size mem0 mem fl ls ls1 a s n :
  disjoint (concat ls) -> concat ls ≡ₚ (a, s) :: concat ls1 -> free_list mem fl ls1 -> readable mem -> may_write p mem (concat ls) ->
  block_ok a s -> mapped mem a s -> element mem a s n -> kObjectAlignment <= size <= s -> size mod kObjectAlignment = 0 ->
  writable mem a (size + HeaderSizeFor (s - size)) -> changes (inside (concat ls)) mem0 mem -> (p = false -> prot mem = prot mem0) ->
  exists mem' fl', SplitElementAfterAndEnqueue mem fl a size p = Ok (mem', fl') /\ taken p size mem0 (concat ls) a s mem' fl'.
Proof.
  intros Hd Hperm Hf Hrd Hmw Hb Hm He Hs Ha Hw Hc Hp. destruct (region_ok a s size Hb Hs Ha) as (Hreg & _ & _). pose proof Hb as [B1 B2 B3 B4 B5 B6]. pose proof kOA_cases.
  destruct (Split_ok mem fl ls1 a s n size p) as (mem' & fl' & ls' & -> & Hf' & Hperm' & Hrd' & Hc' & Hp' & Hp''); try done.
  - intros ->. exact Hmw.
  - rewrite Hperm in Hd. apply Hd.
  - intros Hlt w Hw'. apply Hw. lia.
  - exists mem', fl'. split; [done|]. exists (concat ls1), ls'. split_and!; try done; [lia|..].
    + eapply changes_trans; [exact Hc|exact Hc'|]. intros w [?|Hw']; [done|]. exists (a, s). split; [rewrite Hperm; by left|]. unfold in_block in *. cbn. lia.
    + intros ->. rewrite Hp', Hp by done. done.
    + intros w Hw'. rewrite Hp'' by lia. apply Hw. lia.
Qed.

(** With [is_protected] the region is made writable first. *)
Lemma protect_region p mem ls a s size :
  may_write p mem (concat ls) -> readable mem -> (a, s) ∈ concat ls -> block_ok a s -> kObjectAlignment <= size <= s -> size mod kObjectAlignment = 0 ->
  exists mem', (if p then protect_ mem a (size + HeaderSizeFor (s - size)) kReadWrite else Ok mem) = Ok mem' /\
    words mem' = words mem /\ readable mem' /\ (p = false -> prot mem' = prot mem) /\ writable mem' a (size + HeaderSizeFor (s - size)).
Proof.
  intros Hmw Hrd Hin Hb Hs Ha. destruct (region_ok a s size Hb Hs Ha) as (Hreg & _ & _). pose proof Hb as [B1 B2 B3 B4 B5 B6]. pose proof kOA_cases. destruct p; cbn in Hmw.
  - destruct (protect_ok mem a (size + HeaderSizeFor (s - size)) kReadWrite Hmw) as (mem' & -> & Hpr); [lia..|]. exists mem'.
    split_and!; [done|apply Hpr|by eapply protects_read|done|]. intros w Hw. eapply protects_rw; [done|lia..].
  - exists mem. split_and!; [done..|]. intros w Hw. apply (Hmw _ Hin). cbn. lia.
Qed.

Lemma changes_words mem mem' P : words mem' = words mem -> changes P mem mem'.
Proof. intros Hw. split; intros; by rewrite Hw. Qed.

Lemma may_write_words p mem mem' bs :
  may_write p mem bs -> (p = false -> prot mem' = prot mem) -> may_write p mem' bs.
Proof. destruct p; cbn; [done|]. intros H Hp b Hb w Hw. rewrite Hp by done. by apply (H b). Qed.

Lemma linked_address mem h l : linked mem h l -> h = address_of (head l).
Proof. destruct l as [|[a s] l]; cbn; [done|]. by intros [-> _]. Qed.

Lemma TryAllocateLocked_loop_ok p size mem fl ls pre post fuel :
  free_list mem fl ls -> readable mem -> may_write p mem (concat ls) -> kObjectAlignment <= size -> size mod kObjectAlignment = 0 ->
  ls !! Z.to_nat kNumLists = Some (pre ++ post) -> (length post < fuel)%nat -> Forall (fun b => b.2 < size) pre ->
  linked mem (address_of (head post)) post ->
  exists a mem' fl', TryAllocateLocked_loop fuel mem fl size p (address_of (last pre)) (address_of (head post)) = Ok (a, (mem', fl')) /\
    ((a = 0 /\ mem' = mem /\ fl' = fl /\ Forall (fun b => b.2 < size) (pre ++ post)) \/ exists s, taken p size mem (concat ls) a s mem' fl').
Proof.
  intros Hf Hrd Hmw Hmin Hal. revert pre fuel. induction post as [|[a s] post IH]; intros pre [|fuel] Hl Hfuel Hpre Hlk; cbn in Hfuel; try lia; cbn [head address_of TryAllocateLocked_loop].
  { rewrite Z.eqb_refl. exists 0, mem, fl. split; [done|]. left. by rewrite app_nil_r. }
  destruct Hlk as (_ & n & He & Hlk). assert ((a, s) ∈ pre ++ (a, s) :: post) as Hin by (rewrite elem_of_app; right; by left).
  destruct (free_list_blocks _ _ _ _ _ _ Hf Hl Hin) as [Hb Hm]. cbn in Hb, Hm. pose proof Hb as [B1 B2 B3 B4 B5 B6].
  destruct (Z.eqb_spec a 0); [lia|]. rewrite (Size_ok _ _ _ _ Hrd Hb He). cbn [mbind result_bind]. destruct (Z.leb_spec size s) as [Hle|Hgt].
  - destruct (region_ok a s size Hb ltac:(lia) Hal) as (Hreg & Hi1 & Hi2). rewrite Hi2, Hi1.
    pose proof (in_concat_lookup _ _ _ _ Hl Hin) as Hinc.
    destruct (protect_region p mem ls a s size Hmw Hrd Hinc Hb ltac:(lia) Hal) as (m1 & -> & Hw1 & Hrd1 & Hp1 & Hwr1). cbn [mbind result_bind]. pose proof kOA_cases.
    destruct (unlink_ok p m1 fl ls pre a s post n (size + HeaderSizeFor (s - size))) as (m2 & fl2 & n2 & -> & Hf2 & Hrd2 & He2 & Hc2 & Hp2 & Hp2'); try done.
    { eapply (free_list_frame (fun _ => False)); [done|by apply changes_words|tauto]. } { by eapply may_write_words. } { by eapply element_words. } { lia. }
    cbn [mbind result_bind]. assert (changes (inside (concat ls)) mem m2) as Hc.
    { eapply (changes_trans (fun _ => False)); [by apply changes_words|exact Hc2|]. intros w [[]|(b & Hbp & Hbw)]. exists b.
      split; [eapply in_concat_lookup; [exact Hl|by rewrite elem_of_app; left]|done]. }
    destruct (split_taken p size mem m2 fl2 ls (<[Z.to_nat kNumLists := pre ++ post]> ls) a s n2) as (m3 & fl3 & -> & Ht); try done.
    + apply Hf.
    + by apply concat_insert_remove.
    + eapply may_write_words; [done|]. intros ->. rewrite Hp2, Hp1 by done. done.
    + by eapply changes_mapped.
    + intros w Hw. rewrite Hp2' by lia. apply Hwr1. lia.
    + intros ->. rewrite Hp2, Hp1 by done. done.
    + cbn [mbind result_bind]. exists a, m3, fl3. split; [done|]. right. by exists s.
  - rewrite (next_ok _ _ _ _ Hrd Hb He). cbn [mbind result_bind]. rewrite (linked_address _ _ _ Hlk) in Hlk |- *.
    destruct (IH (pre ++ [(a, s)]) fuel) as (a' & mem' & fl' & Hloop & Hpost); [by rewrite <- app_assoc|lia|apply Forall_app; split; [done|by apply Forall_singleton]|done|].
    rewrite last_snoc in Hloop. cbn [address_of] in Hloop. rewrite <- app_assoc in Hpost. exists a', mem', fl'. split; [exact Hloop|exact Hpost].
Qed.

(** The blocks are disjoint, so there are no more of them than words. *)
Lemma blocks_fit mem fl ls : free_list mem fl ls -> (length (concat ls) <= memory_size mem)%nat.
Proof.
  intros Hf. pose proof (fl_blocks _ _ _ Hf) as Hb. pose proof (fl_disjoint _ _ _ Hf) as Hd. set (bs := concat ls) in *. clearbody bs.
  pose proof kWordSize_cases as Hws. assert (NoDup bs.*1 /\ forall a, a ∈ bs.*1 -> a ∈ dom (words mem)) as [Hnd Hin].
  { induction bs as [|[a s] bs IH]; cbn; [split; [constructor|by intros ? ?%not_elem_of_nil]|]. apply Forall_cons in Hb as [[Hok Hm] Hb]. destruct Hd as [Hap Hd].
    cbn in Hok, Hm. destruct (IH Hb Hd) as [Hnd Hin]. pose proof Hok as [B1 B2 B3 B4 B5 B6]. split.
    - constructor; [|done]. intros ([c t] & Heq & Hc)%list_elem_of_fmap. cbn in Heq. subst c. rewrite Forall_forall in Hap, Hb. specialize (Hap _ Hc).
      destruct (Hb _ Hc) as [[] _]. unfold apart, kObjectAlignment in *. cbn in *. lia.
    - intros x [->|Hx]%elem_of_cons; [|auto]. apply elem_of_dom, Hm; [unfold kObjectAlignment in *; lia|].
      unfold kObjectAlignment in *. apply Z.mod_divide in B2 as [k ->]; [|lia]. replace (k * (2 * kWordSize)) with (2 * k * kWordSize) by lia. apply Z.mod_mul. lia. }
  unfold memory_size. rewrite <- (length_fmap fst), <- (size_list_to_set (C := gset Z) _ Hnd), <- (size_dom (D := gset Z)).
  apply subseteq_size. intros x Hx. apply Hin. by apply elem_of_list_to_set in Hx.
Qed.

Lemma length_lookup_concat {A} (ls : list (list A)) i l : ls !! i = Some l -> (length l <= length (concat ls))%nat.
Proof.
  revert i. induction ls as [|k ls IH]; intros [|i]; cbn; try done; rewrite length_app; intros Hi; [simplify_eq; lia|specialize (IH i Hi); lia].
Qed.

(** The non-empty list that bit [i] stands for. *)
Lemma bit_block mem fl ls i :
  free_list mem fl ls -> 0 <= i < kNumLists -> BitSet.has (free_map_ fl) i = true ->
  exists a l, ls !! Z.to_nat i = Some ((a, i * kObjectAlignment) :: l).
Proof.
  intros Hf Hi Hh. destruct (lookup_lt_is_Some_2 ls (Z.to_nat i)) as [l Hl]; [rewrite (fl_lists _ _ _ Hf); lia|].
  destruct l as [|[a s] l]; [by apply (fl_map _ _ _ Hf _ _ Hl Hi) in Hh|]. exists a, l. rewrite Hl. do 3 f_equal.
  pose proof (fl_class _ _ _ Hf _ _ (a, s) Hl ltac:(by left)) as Hc. cbn in Hc. destruct (free_list_blocks _ _ _ _ _ (a, s) Hf Hl ltac:(by left)) as [[_ _ _ Ha _ _] _].
  cbn in Ha. assert (class_of s < kNumLists) as Hlt by lia. pose proof (class_exact s Ha Hlt) as Hs. rewrite Hc, Z2Nat.id in Hs by lia. done.
Qed.

(** A block is in the list of its class, whose bit is set. *)
Lemma block_bit mem fl ls b :
  free_list mem fl ls -> b ∈ concat ls -> 0 < class_of b.2 <= kNumLists /\ block_ok b.1 b.2 /\
  exists l, ls !! Z.to_nat (class_of b.2) = Some l /\ b ∈ l /\ (class_of b.2 < kNumLists -> BitSet.has (free_map_ fl) (class_of b.2) = true).
Proof.
  intros Hf Hb. apply concat_lookup_in in Hb as (i & l & Hi & Hb). destruct (free_list_blocks _ _ _ _ _ _ Hf Hi Hb) as [Hok _].
  pose proof (fl_class _ _ _ Hf _ _ _ Hi Hb) as Hc. destruct (IndexForSize_ok b.2) as [_ Hr]; [apply Hok..|]. split_and!; [lia|lia|done|].
  exists l. rewrite Hc, Nat2Z.id. split_and!; [done..|]. intros Hlt. apply (fl_map _ _ _ Hf _ l); [by rewrite Nat2Z.id|lia|]. intros ->. by apply not_elem_of_nil in Hb.
Qed.

Lemma dequeue_taken p size mem fl ls i a s l :
  free_list mem fl ls -> readable mem -> may_write p mem (concat ls) -> 0 <= i <= kNumLists -> ls !! Z.to_nat i = Some ((a, s) :: l) ->
  kObjectAlignment <= size <= s -> size mod kObjectAlignment = 0 ->
  exists fl1 m1 m2 fl2, DequeueElement mem fl i = Ok (a, fl1) /\ Size mem a = Ok s /\
    (if p then protect_ mem a (size + HeaderSizeFor (s - size)) kReadWrite else Ok mem) = Ok m1 /\
    SplitElementAfterAndEnqueue m1 fl1 a size p = Ok (m2, fl2) /\ taken p size mem (concat ls) a s m2 fl2.
Proof.
  intros Hf Hrd Hmw Hi Hl Hs Ha. destruct (DequeueElement_ok mem fl ls i a s l Hf Hrd Hi Hl) as (fl1 & n & Hdq & Hf1 & He).
  assert ((a, s) ∈ (a, s) :: l) as Hin by (by left). destruct (free_list_blocks _ _ _ _ _ _ Hf Hl Hin) as [Hb Hm]. cbn in Hb, Hm.
  destruct (protect_region p mem ls a s size Hmw Hrd (in_concat_lookup _ _ _ _ Hl Hin) Hb Hs Ha) as (m1 & Hm1 & Hw1 & Hrd1 & Hp1 & Hwr1).
  destruct (split_taken p size mem m1 fl1 ls (<[Z.to_nat i := l]> ls) a s n) as (m2 & fl2 & Hsp & Ht); try done.
  - apply Hf.
  - by apply (concat_insert_remove ls _ [] (a, s) l).
  - eapply (free_list_frame (fun _ => False)); [done|by apply changes_words|tauto].
  - by eapply may_write_words.
  - by eapply changes_mapped; [apply (changes_words _ _ (fun _ => False))|].
  - by eapply element_words.
  - by apply changes_words.
  - exists fl1, m1, m2, fl2. split_and!; try done. by eapply Size_ok.
Qed.

(** Splitting nothing off. *)
Lemma split_exact mem fl a size p n : readable mem -> block_ok a size -> element mem a size n -> SplitElementAfterAndEnqueue mem fl a size p = Ok (mem, fl).
Proof.
  intros Hrd Hb He. unfold SplitElementAfterAndEnqueue. rewrite (Size_ok _ _ _ _ Hrd Hb He). cbn [mbind result_bind].
  rewrite Z.sub_diag, intptr_small by lia. done.
Qed.

(** No block of a small list is large enough. *)
Definition no_small (size : Z) (bs : list block) : Prop := forall b, b ∈ bs -> class_of b.2 < kNumLists -> b.2 < size.

Definition best_small (size s : Z) (bs : list block) : Prop :=
  forall b, b ∈ bs -> size <= b.2 -> class_of b.2 < kNumLists -> s <= b.2.

(** The search of the small lists: the least block that fits. *)
Lemma small_search mem fl ls size :
  free_list mem fl ls -> kObjectAlignment <= size -> size mod kObjectAlignment = 0 ->
  exists exact next_index,
    (if negb (class_of size =? kNumLists) then BitSet.Test kNumLists (free_map_ fl) (class_of size) else Ok false) = Ok exact /\
    (if class_of size + 1 <? kNumLists then BitSet.Next kNumLists (free_map_ fl) (class_of size + 1) else Ok (-1)) = Ok next_index /\
    if (exact : bool) then exists a l, class_of size < kNumLists /\ ls !! Z.to_nat (class_of size) = Some ((a, size) :: l)
    else if next_index =? -1 then no_small size (concat ls)
    else exists a s l, 0 <= next_index < kNumLists /\ ls !! Z.to_nat next_index = Some ((a, s) :: l) /\ size < s /\ best_small size s (concat ls).
Proof.
  intros Hf Hm Ha. destruct (IndexForSize_ok size Hm Ha) as [_ Hi]. pose proof kOA_cases as HOA.
  assert (exists exact, (if negb (class_of size =? kNumLists) then BitSet.Test kNumLists (free_map_ fl) (class_of size) else Ok false) = Ok exact /\
    (exact = true <-> class_of size < kNumLists /\ BitSet.has (free_map_ fl) (class_of size) = true)) as (exact & Hex & Hexact).
  { destruct (Z.eqb_spec (class_of size) kNumLists); cbn [negb]; [exists false; split; [done|]; split; [done|lia]|].
    rewrite BitSet.Test_ok by (apply Hf || lia). eexists. split; [done|]. split; [|tauto]. intros ->. split; [lia|done]. }
  assert (exists r, (if class_of size + 1 <? kNumLists then BitSet.Next kNumLists (free_map_ fl) (class_of size + 1) else Ok (-1)) = Ok r /\
    ((r = -1 /\ forall j, class_of size < j < kNumLists -> BitSet.has (free_map_ fl) j = false) \/
     (class_of size < r < kNumLists /\ BitSet.has (free_map_ fl) r = true /\ forall j, class_of size < j < r -> BitSet.has (free_map_ fl) j = false))) as (r & Hr & Hnext).
  { destruct (Z.ltb_spec (class_of size + 1) kNumLists).
    - destruct (BitSet.Next_ok kNumLists (free_map_ fl) (class_of size + 1) (fl_bits _ _ _ Hf) ltac:(lia)) as (r & -> & [[-> Hn]|(H1 & H2 & Hn)] & Hr).
      + exists (-1). split; [done|]. left. split; [done|]. intros j Hj. apply Hn. lia.
      + exists r. split; [done|]. right. split_and!; [lia|lia|done|]. intros j Hj. apply Hn. lia.
    - exists (-1). split; [done|]. left. split; [done|]. intros j Hj. lia. }
  exists exact, r. split; [done|]. split; [done|]. destruct exact.
  - destruct (proj1 Hexact eq_refl) as [Hlt Hh]. destruct (bit_block mem fl ls (class_of size) Hf ltac:(lia) Hh) as (a & l & Hl).
    exists a, l. split; [done|]. by rewrite (class_exact size Ha Hlt) at 2.
  - assert (forall b, b ∈ concat ls -> size <= b.2 -> class_of b.2 < kNumLists -> class_of size < class_of b.2 /\ BitSet.has (free_map_ fl) (class_of b.2) = true /\ b.2 = class_of b.2 * kObjectAlignment) as Hfit.
    { intros b Hb Hsz Hc. destruct (block_bit _ _ _ _ Hf Hb) as (_ & Hok & l & _ & _ & Hbit). specialize (Hbit Hc). pose proof (class_mono _ _ Hsz).
      split_and!; [|done|by apply class_exact; [apply Hok|]]. destruct (decide (class_of b.2 = class_of size)) as [He|]; [|lia].
      rewrite He in Hbit, Hc. by pose proof (proj2 Hexact (conj Hc Hbit)). }
    destruct Hnext as [[-> Hn]|(Hr1 & Hr2 & Hn)].
    + cbn. intros b Hb Hc. destruct (Z.ltb_spec b.2 size); [done|]. destruct (Hfit b Hb ltac:(lia) Hc) as (H1 & H2 & _). rewrite Hn in H2 by lia. done.
    + destruct (Z.eqb_spec r (-1)); [lia|]. destruct (bit_block mem fl ls r Hf ltac:(lia) Hr2) as (a & l & Hl). exists a, (r * kObjectAlignment), l. split_and!; [lia|lia|done|..].
      * rewrite (class_exact size Ha) by lia. nia.
      * intros b Hb Hsz Hc. destruct (Hfit b Hb Hsz Hc) as (H1 & H2 & ->). destruct (Z.leb_spec r (class_of b.2)); [nia|]. rewrite Hn in H2 by lia. done.
Qed.

Lemma TryAllocateLocked_ok p size mem fl ls :
  free_list mem fl ls -> readable mem -> may_write p mem (concat ls) -> kObjectAlignment <= size -> size mod kObjectAlignment = 0 ->
  exists a mem' fl', TryAllocateLocked mem fl size p = Ok (a, (mem', fl')) /\
    ((a = 0 /\ mem' = mem /\ fl' = fl /\ Forall (fun b => b.2 < size) (concat ls)) \/
     exists s, taken p size mem (concat ls) a s mem' fl' /\ best_small size s (concat ls)).
Proof.
  intros Hf Hrd Hmw Hm Ha. destruct (IndexForSize_ok size Hm Ha) as [Hi Hc]. unfold TryAllocateLocked. rewrite Hi. cbn [mbind result_bind].
  destruct (small_search mem fl ls size Hf Hm Ha) as (exact & r & -> & Hr & Hs). cbn [mbind result_bind]. destruct exact.
  - destruct Hs as (a & l & Hlt & Hl). destruct (dequeue_taken p size mem fl ls (class_of size) a size l Hf Hrd Hmw ltac:(lia) Hl ltac:(lia) Ha) as (fl1 & m1 & m2 & fl2 & -> & _ & Hm1 & Hsp & Ht).
    rewrite Z.sub_diag, Z.add_0_r in Hm1. cbn [mbind result_bind]. rewrite Hm1. cbn [mbind result_bind]. exists a, m1, fl1. split; [done|]. right. exists size.
    assert (Ok (m2, fl2) = Ok (m1, fl1) :> M _) as [= -> ->].
    { rewrite <- Hsp. destruct (DequeueElement_ok mem fl ls (class_of size) a size l Hf Hrd ltac:(lia) Hl) as (_ & n & _ & _ & He).
      destruct (free_list_blocks _ _ _ _ _ (a, size) Hf Hl ltac:(by left)) as [Hb _].
      destruct (protect_region p mem ls a size size Hmw Hrd (in_concat_lookup _ _ _ (a, size) Hl ltac:(by left)) Hb ltac:(lia) Ha) as (m1' & Hm1' & Hw1 & Hrd1 & _).
      rewrite Z.sub_diag, Z.add_0_r, Hm1 in Hm1'. injection Hm1' as <-. eapply split_exact; [done|done|by eapply element_words]. }
    split; [done|]. intros b _ Hsz _. done.
  - rewrite Hr. cbn [mbind result_bind]. destruct (Z.eqb_spec r (-1)) as [->|Hne]; cbn [negb].
    + destruct (list_at_ok fl kNumLists ltac:(unfold kNumLists; lia) (fl_heads _ _ _ Hf)) as (h & Hh & ->). cbn [mbind result_bind].
      destruct (lookup_lt_is_Some_2 ls (Z.to_nat kNumLists)) as [l Hl]; [rewrite (fl_lists _ _ _ Hf); unfold kNumLists; lia|].
      pose proof (fl_linked _ _ _ Hf _ _ _ Hh Hl) as Hlk. rewrite (linked_address _ _ _ Hlk) in Hlk |- *.
      destruct (TryAllocateLocked_loop_ok p size mem fl ls [] l (S (memory_size mem)) Hf Hrd Hmw Hm Ha Hl) as (a & mem' & fl' & Hloop & Hpost); [|done|done|].
      { pose proof (blocks_fit _ _ _ Hf). pose proof (length_lookup_concat _ _ _ Hl). lia. }
      exists a, mem', fl'. split; [exact Hloop|]. destruct Hpost as [(-> & -> & -> & Hall)|[s Ht]].
      * left. split_and!; [done..|]. apply Forall_forall. intros b Hb. destruct (block_bit _ _ _ _ Hf Hb) as (Hr1 & _ & k & Hk & Hbk & _).
        destruct (decide (class_of b.2 < kNumLists)) as [Hlt|Hge]; [by apply Hs|]. replace (class_of b.2) with kNumLists in Hk by lia.
        rewrite Hl in Hk. injection Hk as <-. rewrite Forall_forall in Hall. by apply Hall.
      * right. exists s. split; [done|]. intros b Hb Hsz Hlt. specialize (Hs b Hb Hlt). lia.
    + destruct (Z.eqb_spec r (-1)); [lia|]. destruct Hs as (a & s & l & Hr1 & Hl & Hlt & Hbest).
      destruct (dequeue_taken p size mem fl ls r a s l Hf Hrd Hmw ltac:(lia) Hl ltac:(lia) Ha) as (fl1 & m1 & m2 & fl2 & -> & Hsize & Hm1 & Hsp & Ht). cbn [mbind result_bind].
      assert ((if p then s0 ← Size mem a; protect_ mem a (intptr (size + HeaderSizeFor (intptr (s0 - size)))) kReadWrite else Ok mem) = Ok m1) as ->.
      { rewrite <- Hm1. destruct p; [|done]. rewrite Hsize. cbn [mbind result_bind]. destruct (free_list_blocks _ _ _ _ _ (a, s) Hf Hl ltac:(by left)) as [Hb _].
        destruct (region_ok a s size Hb ltac:(lia) Ha) as (_ & H1 & ->). by rewrite H1. }
      cbn [mbind result_bind]. rewrite Hsp. cbn [mbind result_bind]. exists a, m2, fl2. split; [done|]. right. by exists s.
Qed.

Lemma TryAllocateSmallLocked_ok size mem fl ls :
  free_list mem fl ls -> readable mem -> may_write false mem (concat ls) -> kObjectAlignment <= size -> size mod kObjectAlignment = 0 ->
  exists a mem' fl', TryAllocateSmallLocked mem fl size = Ok (a, (mem', fl')) /\
    ((a = 0 /\ mem' = mem /\ fl' = fl /\ no_small size (concat ls)) \/
     exists s, taken false size mem (concat ls) a s mem' fl' /\ best_small size s (concat ls)).
Proof.
  intros Hf Hrd Hmw Hm Ha. destruct (IndexForSize_ok size Hm Ha) as [Hi Hc]. pose proof kOA_cases as HOA. unfold TryAllocateSmallLocked.
  destruct (Z.gtb_spec size (last_free_small_size_ fl)) as [Hgt|Hle].
  { exists 0, mem, fl. split; [done|]. left. split_and!; [done..|]. intros b Hb Hlt. destruct (block_bit _ _ _ _ Hf Hb) as (H1 & Hok & _ & _ & _ & Hbit). specialize (Hbit Hlt).
    destruct (fl_last _ _ _ Hf) as (r & Hr & Hr0 & _). rewrite (class_exact b.2) by (done || apply Hok).
    assert (class_of b.2 <= r) by (destruct Hr as [[-> Hr]|(Hra & _ & Hr)]; [rewrite Hr in Hbit by lia; done|destruct (Z.leb_spec (class_of b.2) r); [done|rewrite Hr in Hbit by lia; done]]).
    specialize (Hr0 ltac:(lia)). nia. }
  rewrite Hi. cbn [mbind result_bind]. destruct (small_search mem fl ls size Hf Hm Ha) as (exact & r & -> & Hr & Hs). cbn [mbind result_bind]. destruct exact.
  - destruct Hs as (a & l & Hlt & Hl). destruct (dequeue_taken false size mem fl ls (class_of size) a size l Hf Hrd Hmw ltac:(lia) Hl ltac:(lia) Ha) as (fl1 & m1 & m2 & fl2 & -> & _ & [= <-] & Hsp & Ht).
    cbn [mbind result_bind]. exists a, mem, fl1. split; [done|]. right. exists size.
    assert (Ok (m2, fl2) = Ok (mem, fl1) :> M _) as [= -> ->].
    { rewrite <- Hsp. destruct (DequeueElement_ok mem fl ls (class_of size) a size l Hf Hrd ltac:(lia) Hl) as (_ & n & _ & _ & He).
      destruct (free_list_blocks _ _ _ _ _ (a, size) Hf Hl ltac:(by left)) as [Hb _]. by eapply split_exact. }
    split; [done|]. intros b _ Hsz _. done.
  - rewrite Hr. cbn [mbind result_bind]. destruct (Z.eqb_spec r (-1)) as [->|Hne]; cbn [negb].
    + exists 0, mem, fl. split; [done|]. by left.
    + destruct (Z.eqb_spec r (-1)); [lia|]. destruct Hs as (a & s & l & Hr1 & Hl & Hlt & Hbest).
      destruct (dequeue_taken false size mem fl ls r a s l Hf Hrd Hmw ltac:(lia) Hl ltac:(lia) Ha) as (fl1 & m1 & m2 & fl2 & -> & _ & [= <-] & Hsp & Ht). cbn [mbind result_bind].
      rewrite Hsp. cbn [mbind result_bind]. exists a, m2, fl2. split; [done|]. right. by exists s.
Qed.

(** A large block is taken whole. *)
Definition taken_whole (size : Z) (mem : Memory) (bs : list block) (a s : Z) (mem' : Memory) (fl' : FreeList) : Prop :=
  exists rest ls' n, size <= s /\ bs ≡ₚ (a, s) :: rest /\ free_list mem' fl' ls' /\ concat ls' ≡ₚ rest /\ readable mem' /\
    changes (inside bs) mem mem' /\ prot mem' = prot mem /\ element mem' a s n.

Lemma TryAllocateLargeLocked_loop_ok size mem fl ls pre post fuel :
  free_list mem fl ls -> readable mem -> may_write false mem (concat ls) ->
  ls !! Z.to_nat kNumLists = Some (pre ++ post) -> (length post < fuel)%nat -> Forall (fun b => b.2 < size) pre ->
  linked mem (address_of (head post)) post ->
  exists a mem' fl', TryAllocateLargeLocked_loop fuel mem fl size (address_of (last pre)) (address_of (head post)) = Ok (a, (mem', fl')) /\
    ((a = 0 /\ mem' = mem /\ fl' = fl /\ Forall (fun b => b.2 < size) (pre ++ post)) \/ exists s, taken_whole size mem (concat ls) a s mem' fl').
Proof.
  intros Hf Hrd Hmw. revert pre fuel. induction post as [|[a s] post IH]; intros pre [|fuel] Hl Hfuel Hpre Hlk; cbn in Hfuel; try lia; cbn [head address_of TryAllocateLargeLocked_loop].
  { rewrite Z.eqb_refl. exists 0, mem, fl. split; [done|]. left. by rewrite app_nil_r. }
  destruct Hlk as (_ & n & He & Hlk). assert ((a, s) ∈ pre ++ (a, s) :: post) as Hin by (rewrite elem_of_app; right; by left).
  destruct (free_list_blocks _ _ _ _ _ _ Hf Hl Hin) as [Hb Hm]. cbn in Hb, Hm. pose proof Hb as [B1 B2 B3 B4 B5 B6]. pose proof kOA_cases.
  destruct (Z.eqb_spec a 0); [lia|]. rewrite (next_ok _ _ _ _ Hrd Hb He), (Size_ok _ _ _ _ Hrd Hb He). cbn [mbind result_bind]. destruct (Z.leb_spec size s) as [Hle|Hgt].
  - destruct (unlink_ok false mem fl ls pre a s post n s Hf Hrd Hmw Hl He ltac:(lia) ltac:(done)) as (m2 & fl2 & n2 & Hu & Hf2 & Hrd2 & He2 & Hc2 & Hp2 & _).
    assert ((if address_of (last pre) =? 0 then Ok (a, (mem, set_list fl kNumLists n)) else m ← set_next mem (address_of (last pre)) n; Ok (a, (m, fl))) = Ok (a, (m2, fl2))) as ->.
    { unfold unlink in Hu. rewrite (next_ok _ _ _ _ Hrd Hb He) in Hu. cbn [mbind result_bind andb] in Hu. destruct (address_of (last pre) =? 0); [by injection Hu as <- <-|].
      destruct (set_next mem (address_of (last pre)) n); cbn in Hu |- *; [by injection Hu as <- <-|done]. }
    exists a, m2, fl2. split; [done|]. right. exists s, (concat (<[Z.to_nat kNumLists := pre ++ post]> ls)), (<[Z.to_nat kNumLists := pre ++ post]> ls), n2.
    split_and!; try done; [by apply concat_insert_remove| |by apply Hp2]. eapply changes_weaken; [exact Hc2|]. intros w (b & Hbp & Hbw). exists b.
    split; [eapply in_concat_lookup; [exact Hl|by rewrite elem_of_app; left]|done].
  - rewrite (linked_address _ _ _ Hlk) in Hlk |- *.
    destruct (IH (pre ++ [(a, s)]) fuel) as (a' & mem' & fl' & Hloop & Hpost); [by rewrite <- app_assoc|lia|apply Forall_app; split; [done|by apply Forall_singleton]|done|].
    rewrite last_snoc in Hloop. cbn [address_of] in Hloop. rewrite <- app_assoc in Hpost. exists a', mem', fl'. split; [exact Hloop|exact Hpost].
Qed.

Lemma TryAllocateLargeLocked_ok size mem fl ls :
  free_list mem fl ls -> readable mem -> may_write false mem (concat ls) ->
  exists a mem' fl', TryAllocateLargeLocked mem fl size = Ok (a, (mem', fl')) /\
    ((a = 0 /\ mem' = mem /\ fl' = fl /\ forall b, b ∈ concat ls -> class_of b.2 = kNumLists -> b.2 < size) \/
     exists s, taken_whole size mem (concat ls) a s mem' fl').
Proof.
  intros Hf Hrd Hmw. unfold TryAllocateLargeLocked. destruct (list_at_ok fl kNumLists ltac:(unfold kNumLists; lia) (fl_heads _ _ _ Hf)) as (h & Hh & ->). cbn [mbind result_bind].
  destruct (lookup_lt_is_Some_2 ls (Z.to_nat kNumLists)) as [l Hl]; [rewrite (fl_lists _ _ _ Hf); unfold kNumLists; lia|].
  pose proof (fl_linked _ _ _ Hf _ _ _ Hh Hl) as Hlk. rewrite (linked_address _ _ _ Hlk) in Hlk |- *.
  destruct (TryAllocateLargeLocked_loop_ok size mem fl ls [] l (S (memory_size mem)) Hf Hrd Hmw Hl) as (a & mem' & fl' & Hloop & Hpost); [|done|done|].
  { pose proof (blocks_fit _ _ _ Hf). pose proof (length_lookup_concat _ _ _ Hl). lia. }
  exists a, mem', fl'. split; [exact Hloop|]. destruct Hpost as [(-> & -> & -> & Hall)|Ht]; [left|by right]. split_and!; [done..|].
  intros b Hb Hc. destruct (block_bit _ _ _ _ Hf Hb) as (_ & _ & k & Hk & Hbk & _). rewrite Hc, Hl in Hk. injection Hk as <-. rewrite Forall_forall in Hall. by apply Hall.
Qed.

Lemma FreeLocked_ok mem fl ls a s :
  free_list mem fl ls -> readable mem -> block_ok a s -> mapped mem a s -> writable mem a (HeaderSizeFor s) -> Forall (apart (a, s)) (concat ls) ->
  exists mem' fl' ls', FreeLocked mem fl a s = Ok (mem', fl') /\ free_list mem' fl' ls' /\ concat ls' ≡ₚ (a, s) :: concat ls /\
    readable mem' /\ changes (in_block a s) mem mem' /\ prot mem' = prot mem.
Proof.
  intros Hf Hrd Hb Hm Hw Hap. pose proof (block_addresses _ _ Hb) as (_ & _ & Hh & Hh2 & _). pose proof kWordSize_cases. unfold FreeLocked.
  destruct (IndexForSize_ok s) as [-> _]; [apply Hb..|]. cbn [mbind result_bind].
  destruct (AsElement_ok mem a s Hb) as (m1 & -> & He1 & Hp1 & Hc1); [intros w ??; apply Hm; [lia|done]|done|]. cbn [mbind result_bind].
  assert (free_list m1 fl ls) as Hf1.
  { eapply free_list_frame; [done|exact Hc1|]. intros w Hin Hw'. apply (apart_inside (a, s) (concat ls) w); [done| |done]. unfold in_block in *. cbn. lia. }
  destruct (EnqueueElement_ok m1 fl ls a s 0) as (m2 & fl2 & ls2 & -> & Hf2 & Hperm & Hp2 & Hc2); [done|done|by eapply changes_mapped|done|done|rewrite Hp1; apply Hw; lia|].
  assert (changes (in_block a s) mem m2) as Hc by (eapply changes_trans; [exact Hc1|exact Hc2|]; unfold in_block; intros w [?|<-]; lia).
  exists m2, fl2, ls2. split_and!; try done; [|congruence]. eapply changes_readable; [exact Hc|congruence|done].
Qed.

Lemma Reset_free_list mem : free_list mem Reset (replicate (Z.to_nat (kNumLists + 1)) []).
Proof.
  destruct (BitSet.Reset_ok kNumLists ltac:(unfold kNumLists; lia)) as [Hb Hh].
  assert (forall n, concat (replicate n ([] : list block)) = []) as Hc by (intros n; induction n; [done|cbn; done]).
  split; cbn [free_lists_ free_map_ last_free_small_size_ Reset].
  - apply length_replicate.
  - apply length_replicate.
  - intros i h l [-> _]%lookup_replicate [-> _]%lookup_replicate. done.
  - intros i l b [-> _]%lookup_replicate Hin. by apply not_elem_of_nil in Hin.
  - rewrite Hc. constructor.
  - by rewrite Hc.
  - done.
  - intros i l [-> _]%lookup_replicate Hi. by rewrite Hh.
  - exists (-1). split; [left; split; [done|intros; apply Hh]|]. split; lia.
Qed.

(** ** The contract *)

(** The free list holds the blocks [bs]. *)
Definition free_blocks (mem : Memory) (fl : FreeList) (bs : list block) : Prop :=
  exists ls, free_list mem fl ls /\ bs ≡ₚ concat ls.

Lemma free_blocks_perm mem fl bs bs' : bs ≡ₚ bs' -> free_blocks mem fl bs -> free_blocks mem fl bs'.
Proof. intros Hp (ls & Hf & Hl). exists ls. split; [done|]. by rewrite <- Hp. Qed.

Definition size_ok (size : Z) : Prop := kObjectAlignment <= size /\ size mod kObjectAlignment = 0.

(** The set after taking [size] bytes of the block of [s] bytes at [a]. *)
Definition take_spec (p : bool) (size : Z) (mem : Memory) (bs : list block) (a s : Z) (mem' : Memory) (fl' : FreeList) : Prop :=
  exists rest, bs ≡ₚ (a, s) :: rest /\ size <= s /\ best_small size s bs /\ free_blocks mem' fl' (remainder a s size ++ rest) /\
    readable mem' /\ changes (inside bs) mem mem' /\ (p = false -> prot mem' = prot mem) /\ writable mem' a size.

Lemma taken_spec p size mem bs ls a s mem' fl' :
  bs ≡ₚ concat ls -> taken p size mem (concat ls) a s mem' fl' -> best_small size s (concat ls) -> take_spec p size mem bs a s mem' fl'.
Proof.
  intros Hp (rest & ls' & H1 & H2 & H3 & H4 & H5 & H6 & H7 & H8) Hb. exists rest. split_and!; try done.
  - by rewrite Hp.
  - intros b Hin. apply Hb. by rewrite <- Hp.
  - by exists ls'.
  - eapply changes_weaken; [exact H6|]. intros w. by rewrite Hp.
Qed.

Lemma may_write_perm p mem bs bs' : bs ≡ₚ bs' -> may_write p mem bs -> may_write p mem bs'.
Proof. intros Hp. destruct p; cbn; [done|]. intros H b Hb. apply H. by rewrite Hp. Qed.

(** C14: the free list is a set of free blocks.  [TryAllocateLocked] returns 0, and
    changes nothing, exactly when no free block is large enough; otherwise it
    takes such a block, the smallest one when a list of one size has one, and what
    is left over is free again.  [TryAllocateSmallLocked] does the same with the
    lists of one size, [TryAllocateLargeLocked] takes a whole block of the last
    list, and [FreeLocked] adds a block.  None of them fails an assertion or
    touches memory that is protected, and they write to free memory only; with
    [is_protected] the block that is returned has been made writable. *)
Theorem FreeList_refines mem fl bs :
  free_blocks mem fl bs -> readable mem ->
  (forall size p, size_ok size -> may_write p mem bs ->
     match TryAllocateLocked mem fl size p with
     | Ok (a, (mem', fl')) =>
         (a = 0 /\ mem' = mem /\ fl' = fl /\ Forall (fun b => b.2 < size) bs) \/ exists s, take_spec p size mem bs a s mem' fl'
     | Err _ => False
     end) /\
  (forall size, size_ok size -> may_write false mem bs ->
     match TryAllocateSmallLocked mem fl size with
     | Ok (a, (mem', fl')) =>
         (a = 0 /\ mem' = mem /\ fl' = fl /\ no_small size bs) \/ exists s, take_spec false size mem bs a s mem' fl'
     | Err _ => False
     end) /\
  (forall size, may_write false mem bs ->
     match TryAllocateLargeLocked mem fl size with
     | Ok (a, (mem', fl')) =>
         (a = 0 /\ mem' = mem /\ fl' = fl /\ forall b, b ∈ bs -> class_of b.2 = kNumLists -> b.2 < size) \/
         exists s rest, bs ≡ₚ (a, s) :: rest /\ size <= s /\ Size mem' a = Ok s /\ free_blocks mem' fl' rest /\
           readable mem' /\ changes (inside bs) mem mem' /\ prot mem' = prot mem
     | Err _ => False
     end) /\
  (forall a s, block_ok a s -> mapped mem a s -> writable mem a (HeaderSizeFor s) -> Forall (apart (a, s)) bs ->
     exists mem' fl', FreeLocked mem fl a s = Ok (mem', fl') /\ free_blocks mem' fl' ((a, s) :: bs) /\
       readable mem' /\ changes (in_block a s) mem mem' /\ prot mem' = prot mem).
Proof.
  intros (ls & Hf & Hp) Hrd. split_and!.
  - intros size p [Hm Ha] Hmw. destruct (TryAllocateLocked_ok p size mem fl ls Hf Hrd) as (a & mem' & fl' & -> & H); [by eapply may_write_perm|done..|].
    destruct H as [(-> & -> & -> & H)|(s & Ht & Hb)]; [left; by rewrite Hp|right]. exists s. by eapply taken_spec.
  - intros size [Hm Ha] Hmw. destruct (TryAllocateSmallLocked_ok size mem fl ls Hf Hrd) as (a & mem' & fl' & -> & H); [by eapply may_write_perm|done..|].
    destruct H as [(-> & -> & -> & H)|(s & Ht & Hb)]; [left|right; exists s; by eapply taken_spec]. split_and!; [done..|]. intros b Hin. apply H. by rewrite <- Hp.
  - intros size Hmw. destruct (TryAllocateLargeLocked_ok size mem fl ls Hf Hrd) as (a & mem' & fl' & -> & H); [by eapply may_write_perm|].
    destruct H as [(-> & -> & -> & H)|(s & rest & ls' & n & H1 & H2 & H3 & H4 & H5 & H6 & H7 & H8)].
    + left. split_and!; [done..|]. intros b Hin. apply H. by rewrite <- Hp.
    + right. exists s, rest. split_and!; try done; [by rewrite Hp| |by exists ls'|eapply changes_weaken; [exact H6|]; intros w; by rewrite Hp].
      eapply Size_ok; [done| |done]. pose proof (fl_blocks _ _ _ Hf) as Hb. rewrite H2 in Hb. by apply Forall_cons in Hb as [[? _] _].
  - intros a s Hb Hm Hw Hap. destruct (FreeLocked_ok mem fl ls a s) as (mem' & fl' & ls' & -> & Hf' & Hp' & ?); [done..|by rewrite <- Hp|].
    exists mem', fl'. split; [done|]. split; [|done]. exists ls'. split; [done|]. by rewrite Hp', Hp.
Qed.

(** ** The heap that a free list manages *)

(** The memory, the list and the blocks that were handed out. *)
Definition Heap : Type := Memory * FreeList * list block.

(** What threads do, each step with the lock held: allocate, free a block they
    own, write to a block they own, change the protection of pages. *)
Inductive heap_step : Heap -> Heap -> Prop :=
| hs_alloc mem fl live size p a mem' fl' :
    size_ok size -> (if p : bool then forall x y, mprotect_succeeds x y = true else forall q, can_write (prot mem q) = true) ->
    TryAllocateLocked mem fl size p = Ok (a, (mem', fl')) ->
    heap_step (mem, fl, live) (mem', fl', if a =? 0 then live else (a, size) :: live)
| hs_small mem fl live size a mem' fl' :
    size_ok size -> (forall q, can_write (prot mem q) = true) -> TryAllocateSmallLocked mem fl size = Ok (a, (mem', fl')) ->
    heap_step (mem, fl, live) (mem', fl', if a =? 0 then live else (a, size) :: live)
| hs_large mem fl live size a mem' fl' s :
    (forall q, can_write (prot mem q) = true) -> TryAllocateLargeLocked mem fl size = Ok (a, (mem', fl')) -> (a <> 0 -> Size mem' a = Ok s) ->
    heap_step (mem, fl, live) (mem', fl', if a =? 0 then live else (a, s) :: live)
| hs_free mem fl live a s live' mem' fl' :
    live ≡ₚ (a, s) :: live' -> writable mem a (HeaderSizeFor s) -> FreeLocked mem fl a s = Ok (mem', fl') ->
    heap_step (mem, fl, live) (mem', fl', live')
| hs_write mem fl live w v mem' :
    inside live w -> store mem w v = Ok mem' -> heap_step (mem, fl, live) (mem', fl, live)
| hs_protect mem fl live mem' :
    words mem' = words mem -> (forall q, can_read (prot mem' q) = true) -> heap_step (mem, fl, live) (mem', fl, live).

(** [space]: the memory that was given to the list at the start. *)
Definition heap_ok (space : list block) (h : Heap) : Prop :=
  let '(mem, fl, live) := h in
  exists bs, free_blocks mem fl bs /\ readable mem /\ disjoint (live ++ bs) /\
    Forall (fun b => block_ok b.1 b.2 /\ mapped mem b.1 b.2) live /\ forall w, inside (live ++ bs) w <-> inside space w.

Lemma may_write_all p mem bs :
  (if p : bool then forall x y, mprotect_succeeds x y = true else forall q, can_write (prot mem q) = true) -> may_write p mem bs.
Proof. destruct p; cbn; [done|]. intros H b _ w _. apply H. Qed.

Lemma inside_singleton a s w : inside [(a, s)] w <-> a <= w < a + s.
Proof. rewrite inside_cons. unfold in_block, inside. cbn. split; [intros [?|(b & Hb & _)]; [done|by apply not_elem_of_nil in Hb]|auto]. Qed.

Lemma inside_remainder a s size w : 0 <= size <= s -> inside [(a, size)] w \/ inside (remainder a s size) w <-> inside [(a, s)] w.
Proof.
  intros Hs. unfold remainder. destruct (Z.eqb_spec s size) as [->|]; rewrite !inside_singleton; [|lia].
  split; [intros [?|(b & Hb & _)]; [done|by apply not_elem_of_nil in Hb]|auto].
Qed.

Lemma free_blocks_ok mem fl bs : free_blocks mem fl bs -> Forall (fun b => block_ok b.1 b.2 /\ mapped mem b.1 b.2) bs /\ disjoint bs.
Proof. intros (ls & Hf & Hp). rewrite Hp. split; apply Hf. Qed.

Lemma block_ok_size a s size : block_ok a s -> size_ok size -> size <= s -> block_ok a size.
Proof. intros [B1 B2 B3 B4 B5 B6] [H1 H2] Hs. split; try done; lia. Qed.

(** Taking a block keeps the heap consistent. *)
Lemma take_heap_ok p space mem fl live bs size a s mem' fl' :
  heap_ok space (mem, fl, live) -> free_blocks mem fl bs -> disjoint (live ++ bs) -> (forall w, inside (live ++ bs) w <-> inside space w) ->
  size_ok size -> take_spec p size mem bs a s mem' fl' -> a <> 0 /\ heap_ok space (mem', fl', (a, size) :: live).
Proof.
  intros (_ & _ & _ & _ & Hlive & _) Hfb Hd Hcov Hsz (rest & Hp & Hs & _ & Hfb' & Hrd' & Hc & _ & _). pose proof kOA_cases as HOA. destruct Hsz as [Hz1 Hz2].
  destruct (free_blocks_ok _ _ _ Hfb) as [Hbs _]. rewrite Hp in Hbs. apply Forall_cons in Hbs as [[Hb Hm] _]. cbn in Hb, Hm. split; [destruct Hb; lia|].
  exists (remainder a s size ++ rest). split_and!; [done|done|..].
  - rewrite Hp in Hd. rewrite <- Permutation_middle in Hd. cbn [app disjoint] in Hd |- *. destruct Hd as [Hap Hd]. rewrite !Forall_app in Hap |- *. destruct Hap as [Hap1 Hap2].
    rewrite disjoint_app in Hd. destruct Hd as (Hd1 & Hd2 & Hd3). unfold remainder. destruct (Z.eqb_spec s size) as [->|Hne]; cbn [app].
    + split_and!; [done|done|]. by rewrite disjoint_app.
    + assert (forall c, apart (a, s) c -> apart (a, size) c /\ apart (a + size, s - size) c) as Hsub by (intros c; unfold apart; cbn; lia).
      split_and!; [by eapply Forall_impl; [exact Hap1|]; intros c Hc'; apply Hsub|constructor; [unfold apart; cbn; lia|by eapply Forall_impl; [exact Hap2|]; intros c Hc'; apply Hsub]|].
      rewrite disjoint_app. cbn [disjoint]. split_and!; [done|by eapply Forall_impl; [exact Hap2|]; intros c Hc'; apply Hsub|done|].
      rewrite Forall_forall in Hd3, Hap1 |- *. intros c Hc'. constructor; [symmetry; by apply Hsub, Hap1|by apply Hd3].
  - constructor.
    + cbn. split; [by apply (block_ok_size a s)|]. eapply changes_mapped; [exact Hc|]. intros w Hw1 Hw2. apply Hm; [lia|done].
    + eapply Forall_impl; [exact Hlive|]. intros b [? ?]. split; [done|by eapply changes_mapped].
  - intros w. rewrite <- Hcov, Hp, !inside_app, !inside_cons. cbn. pose proof (inside_remainder a s size w ltac:(lia)) as Hr. rewrite !inside_singleton in Hr. unfold in_block. tauto.
Qed.

Lemma heap_step_ok space h h' : heap_ok space h -> heap_step h h' -> heap_ok space h'.
Proof.
  intros Hok Hstep. destruct Hstep as [mem fl live size p a mem' fl' Hsz Hw Ha|mem fl live size a mem' fl' Hsz Hw Ha|mem fl live size a mem' fl' s Hw Ha Hs|
    mem fl live a s live' mem' fl' Hl Hw Ha|mem fl live w v mem' Hin Hst|mem fl live mem' Hwd Hrd]; pose proof Hok as (bs & Hfb & Hrd0 & Hd & Hlive & Hcov); pose proof Hfb as (ls & Hf & Hp).
  - destruct (TryAllocateLocked_ok p size mem fl ls Hf Hrd0 (may_write_all _ _ _ Hw)) as (a' & m' & f' & He & H); [apply Hsz..|]. rewrite Ha in He. simplify_eq.
    destruct H as [(-> & -> & -> & _)|(s & Ht & Hb)]; [done|]. destruct (take_heap_ok p space mem fl live bs size a' s m' f') as [Hne Hok']; try done; [by eapply taken_spec|].
    by destruct (Z.eqb_spec a' 0).
  - destruct (TryAllocateSmallLocked_ok size mem fl ls Hf Hrd0 (may_write_all false _ _ Hw)) as (a' & m' & f' & He & H); [apply Hsz..|]. rewrite Ha in He. simplify_eq.
    destruct H as [(-> & -> & -> & _)|(s & Ht & Hb)]; [done|]. destruct (take_heap_ok false space mem fl live bs size a' s m' f') as [Hne Hok']; try done; [by eapply taken_spec|].
    by destruct (Z.eqb_spec a' 0).
  - destruct (TryAllocateLargeLocked_ok size mem fl ls Hf Hrd0 (may_write_all false _ _ Hw)) as (a' & m' & f' & He & H). rewrite Ha in He. simplify_eq.
    destruct H as [(-> & -> & -> & _)|(s' & rest & ls' & n & H1 & H2 & H3 & H4 & H5 & H6 & H7 & H8)]; [done|].
    assert (block_ok a' s' /\ mapped mem a' s') as [Hb Hm].
    { pose proof (fl_blocks _ _ _ Hf) as Hbs. rewrite H2 in Hbs. by apply Forall_cons in Hbs as [? _]. }
    destruct (Z.eqb_spec a' 0); [destruct Hb; lia|]. specialize (Hs ltac:(done)). rewrite (Size_ok _ _ _ _ H5 Hb H8) in Hs. injection Hs as <-.
    exists rest. split_and!; [by exists ls'|done|..].
    + rewrite Hp, H2, <- Permutation_middle in Hd. done.
    + constructor; [cbn; split; [done|by eapply changes_mapped]|]. eapply Forall_impl; [exact Hlive|]. intros b [? ?]. split; [done|by eapply changes_mapped].
    + intros w. by rewrite <- Hcov, Hp, H2, <- Permutation_middle.
  - rewrite Hl in Hlive, Hd. apply Forall_cons in Hlive as [[Hb Hm] Hlive]. cbn in Hb, Hm. cbn [app disjoint] in Hd. destruct Hd as [Hap Hd]. apply Forall_app in Hap as [Hap1 Hap2].
    destruct (FreeLocked_ok mem fl ls a s) as (m' & f' & ls' & He & Hf' & Hp' & Hrd' & Hc & Hpr); [done..|by rewrite <- Hp|]. rewrite Ha in He. simplify_eq.
    exists ((a, s) :: bs). split_and!; [exists ls'; split; [done|by rewrite Hp', Hp]|done|..].
    + rewrite <- Permutation_middle. cbn. split; [by apply Forall_app|done].
    + eapply Forall_impl; [exact Hlive|]. intros b [? ?]. split; [done|by eapply changes_mapped].
    + intros w. rewrite <- Hcov, Hl. by rewrite <- Permutation_middle.
  - unfold store in Hst. destruct (can_write _); [|done]. destruct (words mem !! w) as [x|] eqn:Ex; [|done]. injection Hst as <-.
    pose proof (store_changes mem w v ltac:(eauto)) as Hc. exists bs. split_and!; [|by eapply changes_readable|done| |done].
    + exists ls. split; [|done]. eapply free_list_frame; [done|exact Hc|]. intros w' Hw' <-. rewrite <- Hp in Hw'. rewrite disjoint_app in Hd. destruct Hd as (_ & _ & Hap).
      destruct Hin as (b & Hb & Hbw). rewrite Forall_forall in Hap. by apply (apart_inside b bs w (Hap b Hb) Hbw).
    + eapply Forall_impl; [exact Hlive|]. intros b [? ?]. split; [done|by eapply changes_mapped].
  - pose proof (changes_words mem mem' (fun _ => False) Hwd) as Hc. exists bs. split_and!; [|intros w _; apply Hrd|done| |done].
    + exists ls. split; [|done]. eapply free_list_frame; [done|exact Hc|tauto].
    + eapply Forall_impl; [exact Hlive|]. intros b [? ?]. split; [done|by eapply changes_mapped].
Qed.

(** C12: whatever threads do with a free list and its memory, in any order, the
    blocks that are handed out are disjoint from each other and from the free
    blocks, aligned and mapped, and together with the free blocks they are exactly
    the memory that the list was given: no block is handed out twice and no byte
    is lost. *)
Theorem FreeList_invariant mem space h :
  readable mem -> disjoint space -> Forall (fun b => block_ok b.1 b.2 /\ mapped mem b.1 b.2) space ->
  rtc heap_step (mem, Reset, space) h -> heap_ok space h.
Proof.
  intros Hrd Hd Hsp Hs. assert (heap_ok space (mem, Reset, space)) as H0.
  { exists []. rewrite app_nil_r. split_and!; try done. exists (replicate (Z.to_nat (kNumLists + 1)) []). split; [apply Reset_free_list|].
    assert (forall n, concat (replicate n ([] : list block)) = []) as -> by (intros n; induction n; [done|cbn; done]). done. }
  revert H0. induction Hs as [|x y z Hxy _ IH]; [done|]. intros Hx. apply IH. by eapply heap_step_ok.
Qed.

End props.


(** ** Witnesses *)

Definition target64 : Target := {| kBitsPerWord := 64; kBitsPerWord_ok := or_intror eq_refl |}.
Definition demo_os : OS := {| page_size_log2 := 12; page_size_ok := ltac:(lia); mprotect_succeeds _ _ := true |}.

(** 512 bytes of writable memory. *)
Definition demo_memory : Memory := mkMemory (zeroed (T := target64) 65536 64) (fun _ => kReadWrite).

Lemma demo_block : block_ok (T := target64) 65536 512 /\ mapped (T := target64) demo_memory 65536 512 /\
  readable (T := target64) (Os := demo_os) demo_memory /\ writable (T := target64) (Os := demo_os) demo_memory 65536 512.
Proof. split_and!; [split; vm_compute; done|by apply (zeroed_mapped (T := target64) 65536 64)|done|done]. Qed.

#[local] Opaque zeroed FreeLocked TryAllocateLocked Reset.

Lemma demo_freed :
  exists mem fl, FreeLocked (T := target64) (Os := demo_os) demo_memory (Reset (T := target64)) 65536 512 = Ok (mem, fl) /\
    free_blocks (T := target64) mem fl [(65536, 512)] /\ readable (T := target64) (Os := demo_os) mem /\ prot mem = (fun _ => kReadWrite).
Proof.
  destruct demo_block as (Hb & Hm & Hr & Hw).
  assert (concat (replicate (Z.to_nat (kNumLists + 1)) ([] : list block)) = []) as Hnil by done.
  destruct (FreeLocked_ok (T := target64) (Os := demo_os) demo_memory (Reset (T := target64)) _ 65536 512 (Reset_free_list _) Hr Hb Hm) as (mem & fl & ls & He & Hf & Hp & Hrd & _ & Hpr).
  - intros w _. reflexivity.
  - by rewrite Hnil.
  - exists mem, fl. split_and!; [done| |done|by rewrite Hpr]. exists ls. split; [done|]. by rewrite Hp, Hnil.
Qed.

Lemma FreeList_refines_witness :
  exists mem fl mem' fl', FreeLocked (T := target64) (Os := demo_os) demo_memory (Reset (T := target64)) 65536 512 = Ok (mem, fl) /\
    TryAllocateLocked (T := target64) (Os := demo_os) mem fl 48 false = Ok (65536, (mem', fl')) /\
    free_blocks (T := target64) mem' fl' [(65584, 464)].
Proof.
  destruct demo_freed as (mem & fl & Hfree & Hfb & Hrd & Hpr).
  destruct (FreeList_refines (T := target64) (Os := demo_os) mem fl [(65536, 512)] Hfb Hrd) as (Ha & _ & _).
  assert (size_ok (T := target64) 48) as Hsz by (split; vm_compute; done).
  assert (may_write (T := target64) (Os := demo_os) false mem [(65536, 512)]) as Hmw by (intros b _ w _; rewrite Hpr; reflexivity).
  specialize (Ha 48 false Hsz Hmw).
  destruct (TryAllocateLocked (T := target64) (Os := demo_os) mem fl 48 false) as [[a [mem' fl']]|] eqn:E; [|done].
  destruct Ha as [(_ & _ & _ & Hall)|(s & rest & Hp & _ & _ & Hfb' & _)]; [by inversion_clear Hall|].
  apply Permutation_singleton_l in Hp. injection Hp as <- <- <-.
  exists mem, fl, mem', fl'. split; [exact Hfree|]. split; [exact E|exact Hfb'].
Defined.

Lemma FreeList_invariant_witness :
  exists h, rtc (heap_step (T := target64) (Os := demo_os)) (demo_memory, Reset (T := target64), [(65536, 512)]) h /\
    heap_ok (T := target64) (Os := demo_os) [(65536, 512)] h /\ h.2 = [].
Proof.
  destruct demo_block as (Hb & Hm & Hr & Hw). destruct demo_freed as (mem & fl & Hfree & _ & _ & _).
  assert (rtc (heap_step (T := target64) (Os := demo_os)) (demo_memory, Reset (T := target64), [(65536, 512)]) (mem, fl, [])) as Hs.
  { apply rtc_once. eapply hs_free; [done| |done]. intros w _. reflexivity. }
  exists (mem, fl, []). split; [done|]. split; [|done].
  apply (FreeList_invariant (T := target64) (Os := demo_os) demo_memory [(65536, 512)]); [exact Hr|split; constructor|apply Forall_singleton; by split|exact Hs].
Defined.

(** A protected block whose remainder has its header across the end of a page:
    the page that holds only the remainder stays writable. *)
Definition target32 : Target := {| kBitsPerWord := 32; kBitsPerWord_ok := or_introl eq_refl |}.

Example protected_page_left_writable :
  match (r ← FreeLocked (T := target32) (Os := demo_os) (mkMemory (zeroed (T := target32) 0x10000 2048) (fun _ => kReadWrite)) (Reset (T := target32)) 0x10000 8192;
         TryAllocateLocked (T := target32) (Os := demo_os) (mkMemory (words r.1) (fun _ => kReadExecute)) r.2 4088 true) with
  | Ok (a, (mem, _)) => a = 0x10000 /\ prot mem 0x11000 = kReadWrite
  | Err _ => False
  end.
Proof. vm_compute. done. Qed.

End FreeListProps.
