(* ===== verification/Sweeper.v ===== *)
(** * vm/gc_sweeper.h, vm/gc_sweeper.cc

    [GCSweeper]: returning the unmarked objects of a page to the free list.  An
    object of the page starts with its tags ([RawObject] of vm/raw_object.h); the
    size of an object that its tags do not hold depends on its class and its
    fields and is the class [ObjectSizes] ([RawObject::SizeFromClass] of
    vm/raw_object.cc, but for free list elements; the sizes recorded in the class
    table do not change while a page is swept).  The code is that of a build with
    assertions, which fills dead objects of data pages as well. *)

From stdpp Require Import base numbers list gmap.
From Stdlib Require Import ZArith Lia.
From S2P Require Import Prelude Utils BitField HeapMemory BitSet FreeList FreeListProps.

Local Open Scope Z_scope.
Local Open Scope mach_scope.

Module Sweeper.
Import HeapMemory FreeList.

Class ObjectSizes {T : Target} := {
  size_from_class : gmap Z Z -> Z -> Z;
  size_from_class_local w w' a t t' :
    w !! a = Some t -> w' !! a = Some t' -> ClassIdTag_decode t = ClassIdTag_decode t' ->
    (forall x, a < x < a + size_from_class w a -> w' !! x = w !! x) -> size_from_class w' a = size_from_class w a
}.

Section sweeper.
Context {T : Target} {Os : OS} {Sizes : ObjectSizes}.

(** ** RawObject *)

(** [RawObject::FromAddr]: an object is known by its untagged address. *)
Definition FromAddr (addr : Z) : M Z :=
  assert_ (negb (addr .& kSmiTagMask =? kHeapObjectTag));; Ok addr.

Definition MarkBit_decode (tags : Z) : bool := negb (BitField.decode kBitsPerWord kMarkBit 1 tags =? 0).
Definition MarkBit_update (value : bool) (tags : Z) : M Z := field_update kMarkBit 1 (if value then 1 else 0) tags.

Definition IsMarked (mem : Memory) (obj : Z) : M bool :=
  tags ← load mem obj; Ok (MarkBit_decode tags).

(** [UpdateTagBit<MarkBit>(false)]; nobody else changes the tags meanwhile, so the
    compare-and-swap succeeds. *)
Definition ClearMarkBit (mem : Memory) (obj : Z) : M Memory :=
  marked ← IsMarked mem obj;
  assert_ marked;;
  tags ← load mem obj;
  new_tags ← MarkBit_update false tags;
  store mem obj new_tags.

Definition GetClassId (mem : Memory) (obj : Z) : M Z :=
  tags ← load mem obj; Ok (ClassIdTag_decode tags).

Definition SizeFromClass (mem : Memory) (obj : Z) : M Z :=
  class_id ← GetClassId mem obj;
  instance_size ← (if class_id =? kFreeListElement then HeapMemory.Size mem obj else Ok (size_from_class (words mem) obj));
  assert_ (negb (instance_size =? 0));;
  tags ← load mem obj;
  let tags_size := SizeTag_decode tags in
  assert_ ((instance_size =? tags_size) || (tags_size =? 0));;
  Ok instance_size.

Definition RawObject_Size (mem : Memory) (obj : Z) : M Z :=
  tags ← load mem obj;
  let result := SizeTag_decode tags in
  if negb (result =? 0) then
    size ← SizeFromClass mem obj;
    assert_ (result =? size);;
    Ok result
  else
    result ← SizeFromClass mem obj;
    assert_ (result >? kMaxSizeTag);;
    Ok result.

(** ** Filling memory *)

Definition kZapByte : Z := 0xf3.

(** The word all of whose bytes are [b]. *)
Definition byte_word (b : Z) : Z := b * ((2 ^ kBitsPerWord - 1) / 255).

Fixpoint memset_words (n : nat) (mem : Memory) (a v : Z) : M Memory :=
  match n with
  | O => Ok mem
  | S n => mem ← store mem a v; memset_words n mem (a + kWordSize) v
  end.

(** [memset(a, b, size)] of whole words. *)
Definition memset (mem : Memory) (a b size : Z) : M Memory :=
  memset_words (Z.to_nat (size / kWordSize)) mem a (byte_word b).

(** ** Sweeping a page *)

(** [HeapPage]: what the sweeper uses of it. *)
Record PageArea := mkPageArea { object_start : Z; object_end : Z; executable : bool }.

(** The rounds that the loops over the objects of a page may take. *)
Definition page_fuel (page : PageArea) : nat := S (Z.to_nat (object_end page - object_start page)).

(** [while (free_end < end)]. *)
Fixpoint expand_free (fuel : nat) (mem : Memory) (end_ free_end : Z) : M Z :=
  match fuel with
  | O => Err HNoReturn
  | S fuel =>
      if free_end <? end_ then
        next_obj ← FromAddr free_end;
        marked ← IsMarked mem next_obj;
        if marked : bool then Ok free_end
        else size ← RawObject_Size mem next_obj; expand_free fuel mem end_ (uword (free_end + size))
      else Ok free_end
  end.

(** [while (current < end)]: returns [in_use] and [current]. *)
Fixpoint SweepPage_loop (fuel : nat) (page : PageArea) (locked : bool) (mem : Memory) (fl : FreeList) (current : Z) (in_use : bool)
    : M (bool * Z * (Memory * FreeList)) :=
  match fuel with
  | O => Err HNoReturn
  | S fuel =>
      let start := object_start page in
      let end_ := object_end page in
      if current <? end_ then
        raw_obj ← FromAddr current;
        marked ← IsMarked mem raw_obj;
        if marked : bool then
          mem ← ClearMarkBit mem raw_obj;
          obj_size ← RawObject_Size mem raw_obj;
          SweepPage_loop fuel page locked mem fl (uword (current + obj_size)) true
        else
          size ← RawObject_Size mem raw_obj;
          free_end ← expand_free fuel mem end_ (uword (current + size));
          let obj_size := intptr (free_end - current) in
          mem ← (if executable page then memset mem current 0xcc obj_size else memset mem current kZapByte obj_size);
          r ← (if negb (current =? start) || negb (free_end =? end_) then
                 if locked then FreeLocked mem fl current obj_size else Free mem fl current obj_size
               else Ok (mem, fl));
          let '(mem, fl) := (r : Memory * FreeList) in
          SweepPage_loop fuel page locked mem fl (uword (current + obj_size)) in_use
      else Ok (in_use, current, (mem, fl))
  end.

Definition SweepPage (page : PageArea) (mem : Memory) (fl : FreeList) (locked : bool) : M (bool * (Memory * FreeList)) :=
  r ← SweepPage_loop (page_fuel page) page locked mem fl (object_start page) false;
  let '(in_use, current, st) := (r : bool * Z * (Memory * FreeList)) in
  assert_ (current =? object_end page);;
  Ok (in_use, st).

(** The fillers after the object of a large page, in a build with assertions. *)
Fixpoint SweepLargePage_loop (fuel : nat) (mem : Memory) (end_ current : Z) : M Memory :=
  match fuel with
  | O => Err HNoReturn
  | S fuel =>
      if current <? end_ then
        cur_obj ← FromAddr current;
        marked ← IsMarked mem cur_obj;
        assert_ (negb marked);;
        obj_size ← RawObject_Size mem cur_obj;
        mem ← memset mem current kZapByte obj_size;
        SweepLargePage_loop fuel mem end_ (uword (current + obj_size))
      else Ok mem
  end.

Definition SweepLargePage (page : PageArea) (mem : Memory) : M (Z * Memory) :=
  raw_obj ← FromAddr (object_start page);
  marked ← IsMarked mem raw_obj;
  r ← (if marked : bool then
         mem ← ClearMarkBit mem raw_obj;
         size ← RawObject_Size mem raw_obj;
         Ok (size >>> kWordSizeLog2, mem)
       else Ok (0, mem));
  let '(words_to_end, mem) := (r : Z * Memory) in
  size ← RawObject_Size mem raw_obj;
  mem ← SweepLargePage_loop (page_fuel page) mem (object_end page) (uword (raw_obj + size));
  Ok (words_to_end, mem).

End sweeper.

End Sweeper.
