(* ===== verification/SweeperProps.v ===== *)
(** * Sweeping: theorems

    A page is a sequence of objects ([walkable]).  Sweeping keeps the marked ones,
    without their marks, and turns every maximal run of unmarked ones into one
    free block; [swept] and [free_runs] say which. *)

From stdpp Require Import base numbers list gmap.
From Stdlib Require Import ZArith Lia.
From S2P Require Import Prelude Utils BitField HeapMemory BitSet FreeList FreeListProps Sweeper.

Local Open Scope Z_scope.
Local Open Scope mach_scope.

Module SweeperProps.
Import HeapMemory FreeList FreeListProps Sweeper.

(** ** What sweeping means *)

Record Obj := mkObj { addr : Z; osize : Z; marked : bool }.

(** The objects of the page after sweeping, free blocks included. *)
Fixpoint swept (objs : list Obj) : list Obj :=
  match objs with
  | [] => []
  | o :: rest =>
      if marked o then mkObj (addr o) (osize o) false :: swept rest
      else match rest with
           | o' :: _ =>
               if marked o' then o :: swept rest
               else match swept rest with
                    | f :: others => mkObj (addr o) (osize o + osize f) false :: others
                    | [] => []
                    end
           | [] => [o]
           end
  end.

(** The maximal runs of unmarked objects. *)
Fixpoint free_runs (objs : list Obj) : list block :=
  match objs with
  | [] => []
  | o :: rest =>
      if marked o then free_runs rest
      else match rest with
           | o' :: _ =>
               if marked o' then (addr o, osize o) :: free_runs rest
               else match free_runs rest with
                    | (_, s) :: others => (addr o, osize o + s) :: others
                    | [] => []
                    end
           | [] => [(addr o, osize o)]
           end
  end.

Definition in_use (objs : list Obj) : bool := existsb marked objs.

Fixpoint total (objs : list Obj) : Z := match objs with [] => 0 | o :: objs => osize o + total objs end.

(** The words a sweep may change: the tags of marked objects and all words of
    unmarked ones. *)
Definition sweepable (objs : list Obj) (w : Z) : Prop :=
  exists o, o ∈ objs /\ if marked o then w = addr o else in_block (addr o) (osize o) w.

Definition starts_marked (objs : list Obj) : Prop := match objs with [] => True | o :: _ => marked o = true end.

Lemma run_head objs : exists us rest, objs = us ++ rest /\ Forall (fun o => marked o = false) us /\ starts_marked rest.
Proof.
  induction objs as [|x objs (us & rest & -> & Hu & Hr)]; [by exists [], []|]. destruct (marked x) eqn:E.
  - exists [], (x :: us ++ rest). by split_and!.
  - exists (x :: us), rest. split_and!; [done|by constructor|done].
Qed.

Lemma merge_unmarked o u r :
  marked o = false -> marked u = false ->
  swept (o :: u :: r) = match swept (u :: r) with f :: others => mkObj (addr o) (osize o + osize f) false :: others | [] => [] end /\
  free_runs (o :: u :: r) = match free_runs (u :: r) with (_, s) :: others => (addr o, osize o + s) :: others | [] => [] end.
Proof. intros Ho Hu. cbn. by rewrite Ho, Hu. Qed.

Lemma swept_run o us rest :
  marked o = false -> Forall (fun o => marked o = false) us -> starts_marked rest ->
  swept ((o :: us) ++ rest) = mkObj (addr o) (osize o + total us) false :: swept rest /\
  free_runs ((o :: us) ++ rest) = (addr o, osize o + total us) :: free_runs rest.
Proof.
  intros Ho Hu Hr. revert o Ho. induction Hu as [|u us Hum _ IH]; intros o Ho; cbn [app total].
  - rewrite Z.add_0_r. destruct rest as [|r rest]; cbn in Hr; cbn; rewrite Ho; [|rewrite Hr]; (split; [|done]); destruct o; cbn in *; by subst.
  - destruct (merge_unmarked o u (us ++ rest) Ho Hum) as [-> ->]. destruct (IH u Hum) as [H1 H2]. cbn [app] in H1, H2. by rewrite H1, H2.
Qed.

Lemma in_use_app us rest : Forall (fun o => marked o = false) us -> in_use (us ++ rest) = in_use rest.
Proof. unfold in_use. induction 1 as [|u us Hu _ IH]; cbn; [done|]. by rewrite Hu. Qed.

Section props.
Context {T : Target} {Os : OS} {Sizes : ObjectSizes}.

(** ** Sizes *)

(** The size of the object at [a], as [RawObject::Size] finds it. *)
Definition object_size (w : gmap Z Z) (a s : Z) : Prop :=
  exists t, w !! a = Some t /\ s <> 0 /\
    (SizeTag_decode t = s \/ SizeTag_decode t = 0 /\ kMaxSizeTag < s) /\
    if ClassIdTag_decode t =? kFreeListElement then SizeTag_decode t = 0 -> exists v, w !! SizeAddress a = Some v /\ s = intptr v
    else s = size_from_class w a.

Lemma RawObject_Size_ok mem a s : readable mem -> object_size (words mem) a s -> RawObject_Size mem a = Ok s.
Proof.
  intros Hr (t & Ht & H0 & Htag & Hc). unfold RawObject_Size. rewrite (load_ok _ _ _ Hr Ht). cbn [mbind result_bind].
  assert (SizeFromClass mem a = Ok s) as Hsc.
  { unfold SizeFromClass, GetClassId. rewrite (load_ok _ _ _ Hr Ht). cbn [mbind result_bind].
    assert ((if ClassIdTag_decode t =? kFreeListElement then HeapMemory.Size mem a else Ok (size_from_class (words mem) a)) = Ok s) as ->.
    { destruct (ClassIdTag_decode t =? kFreeListElement); [|by rewrite Hc]. unfold HeapMemory.Size. rewrite (load_ok _ _ _ Hr Ht). cbn [mbind result_bind].
      destruct (Z.eqb_spec (SizeTag_decode t) 0) as [E|E]; cbn [negb].
      - destruct (Hc E) as (v & Hv & ->). by rewrite (load_ok _ _ _ Hr Hv).
      - f_equal. lia. }
    cbn [mbind result_bind]. destruct (Z.eqb_spec s 0); [done|]. cbn [negb assert_ mbind result_bind].
    destruct Htag as [->|[-> _]]; [rewrite Z.eqb_refl|rewrite orb_true_r]; done. }
  rewrite Hsc. cbn [mbind result_bind]. destruct Htag as [->|[-> Hm]].
  - destruct (Z.eqb_spec s 0); [done|]. cbn [negb]. by rewrite Z.eqb_refl.
  - cbn. by rewrite (proj2 (Z.gtb_lt s kMaxSizeTag) Hm).
Qed.

(** The size does not depend on the words outside the object, nor on the mark. *)
Lemma object_size_local w w' a s t t' :
  block_ok a s -> object_size w a s -> w !! a = Some t -> w' !! a = Some t' -> ClassIdTag_decode t' = ClassIdTag_decode t ->
  SizeTag_decode t' = SizeTag_decode t -> (forall x, a < x < a + s -> w' !! x = w !! x) -> object_size w' a s.
Proof.
  intros Hb (t0 & Ht0 & H0 & Htag & Hc) Ht Ht' Hcid Hst Hw. rewrite Ht in Ht0. injection Ht0 as <-. exists t'. rewrite Hcid, Hst. split_and!; [done..|].
  destruct (ClassIdTag_decode t =? kFreeListElement).
  - intros E. destruct (Hc E) as (v & Hv & ->). exists v. split; [|done]. destruct Htag as [E'|[_ Hm]]; [lia|].
    pose proof (block_addresses _ _ Hb) as (_ & Hsa & Hle & _ & Hh). rewrite (Hsa Hm) in *. rewrite Hw; [done|]. pose proof kWordSize_cases. specialize (Hh Hm). lia.
  - subst s. symmetry. by apply (size_from_class_local w w' a t t').
Qed.

(** ** Objects *)

Record object_at (mem : Memory) (o : Obj) : Prop := {
  oa_block : block_ok (addr o) (osize o);
  oa_mapped : mapped mem (addr o) (osize o);
  oa_size : object_size (words mem) (addr o) (osize o);
  oa_tags : exists t, words mem !! addr o = Some t /\ isU kBitsPerWord t /\ MarkBit_decode t = marked o
}.

(** The objects fill the memory from [a] to [e]. *)
Fixpoint walkable (mem : Memory) (a : Z) (objs : list Obj) (e : Z) : Prop :=
  match objs with
  | [] => a = e
  | o :: objs => addr o = a /\ object_at mem o /\ walkable mem (a + osize o) objs e
  end.

Lemma object_frame P mem mem' o :
  changes P mem mem' -> (forall w, in_block (addr o) (osize o) w -> ~ P w) -> object_at mem o -> object_at mem' o.
Proof.
  intros Hc HP [Hb Hm Hs (t & Ht & Hu & Hk)]. pose proof kOA_cases. assert (words mem' !! addr o = Some t) as Ht'.
  { rewrite (proj2 Hc); [done|]. apply HP. unfold in_block. destruct Hb. lia. }
  split; [done|by eapply changes_mapped| |by exists t]. eapply object_size_local; try done. intros x Hx. apply (proj2 Hc), HP. unfold in_block. lia.
Qed.

Lemma walkable_frame P mem mem' a objs e :
  changes P mem mem' -> (forall w, a <= w < e -> ~ P w) -> walkable mem a objs e -> walkable mem' a objs e.
Proof.
  intros Hc. revert a. assert (forall a objs, walkable mem a objs e -> a <= e) as Hle.
  { intros a os. revert a. induction os as [|o os IH]; intros a; cbn; [lia|]. intros (<- & [[? ? ? ? ? ?] _ _ _] & Hw). specialize (IH _ Hw). pose proof kOA_cases. lia. }
  induction objs as [|o objs IH]; intros a HP; cbn; [done|]. intros (<- & Ho & Hw). pose proof (Hle _ _ Hw). split_and!; [done|..].
  - eapply object_frame; [exact Hc| |done]. intros w Hin. apply HP. unfold in_block in Hin. lia.
  - apply IH; [|done]. intros w Hw'. apply HP. destruct (oa_block _ _ Ho). pose proof kOA_cases. lia.
Qed.

Lemma walkable_le mem a objs e : walkable mem a objs e -> a + total objs = e /\ 0 <= total objs.
Proof.
  revert a. induction objs as [|o objs IH]; intros a; cbn; [lia|]. intros (<- & [[? ? ? ? ? ?] _ _ _] & Hw). specialize (IH _ Hw). pose proof kOA_cases. lia.
Qed.

Lemma walkable_app mem a us rest e : walkable mem a (us ++ rest) e <-> walkable mem a us (a + total us) /\ walkable mem (a + total us) rest e.
Proof.
  revert a. induction us as [|o us IH]; intros a; cbn [app walkable total]; [rewrite Z.add_0_r; tauto|]. rewrite IH. replace (a + osize o + total us) with (a + (osize o + total us)) by lia. tauto.
Qed.

Lemma FromAddr_ok a s : block_ok a s -> FromAddr a = Ok a.
Proof.
  intros [_ Ha _ _ _ _]. unfold FromAddr, kSmiTagMask, kHeapObjectTag. rewrite land_1_testbit.
  assert (Z.testbit a 0 = false) as ->; [|done]. rewrite Z.bit0_odd. destruct (Z.odd a) eqn:E; [|done]. apply Z.odd_spec in E as [k ->].
  pose proof kOA_cases as HOA. exfalso. apply Z.mod_divide in Ha as [q Hq]; [|lia]. destruct HOA as [E|E]; rewrite E in Hq; lia.
Qed.

Lemma object_load mem o : readable mem -> object_at mem o -> exists t, load mem (addr o) = Ok t /\ MarkBit_decode t = marked o.
Proof. intros Hr [_ _ _ (t & Ht & _ & Hm)]. exists t. split; [by apply load_ok|done]. Qed.

Lemma IsMarked_ok mem o : readable mem -> object_at mem o -> IsMarked mem (addr o) = Ok (marked o).
Proof. intros Hr Ho. destruct (object_load mem o Hr Ho) as (t & Ht & Hm). unfold IsMarked. rewrite Ht. cbn. by rewrite Hm. Qed.

Definition clear_mark (t : Z) : Z := BitField.update kBitsPerWord kMarkBit 1 0 t.

Lemma mark_field : 0 <= kMarkBit /\ 0 < 1 /\ kMarkBit + 1 <= kBitsPerWord /\ kMarkBit + 1 <= kSizeTagPos.
Proof. unfold kMarkBit. destruct fields_fit as (?&?&?&?&?&?&?). lia. Qed.

Lemma ClearMarkBit_ok mem o :
  readable mem -> object_at mem o -> marked o = true -> can_write (prot mem (page_of (addr o))) = true ->
  exists mem' t, ClearMarkBit mem (addr o) = Ok mem' /\ object_at mem' (mkObj (addr o) (osize o) false) /\ prot mem' = prot mem /\
    changes (eq (addr o)) mem mem' /\ words mem !! addr o = Some t /\ words mem' !! addr o = Some (clear_mark t).
Proof.
  intros Hr Ho Hm Hw. unfold ClearMarkBit. rewrite IsMarked_ok, Hm by done. cbn [assert_ mbind result_bind].
  pose proof Ho as [Hb Hmp Hs (t & Ht & Hu & Hk)]. rewrite (load_ok _ _ _ Hr Ht). cbn [mbind result_bind].
  destruct mark_field as (M1 & M2 & M3 & M4). destruct fields_fit as (F1&F2&F3&F4&F5&F6&F7).
  assert (isU 1 0) as H10 by (unfold isU; lia). unfold MarkBit_update. rewrite field_update_ok by done. cbn [mbind result_bind]. fold (clear_mark t).
  rewrite store_ok by eauto. pose proof (store_changes mem (addr o) (clear_mark t) ltac:(eauto)) as Hc.
  eexists _, t. split; [done|]. split_and!; [|done|done|done|cbn; by rewrite lookup_insert_eq]. split; cbn [addr osize marked]; [done|by eapply changes_mapped|..].
  - eapply (object_size_local (words mem) _ _ _ t (clear_mark t)); [done|done|done|cbn; by rewrite lookup_insert_eq|..].
    + unfold ClassIdTag_decode, clear_mark. f_equal. apply BitField.decode_update_disjoint; try lia; try done.
    + rewrite !SizeTag_decode_spec. f_equal. apply BitField.decode_update_disjoint; try lia; try done.
    + intros x Hx. cbn. rewrite lookup_insert_ne by lia. done.
  - exists (clear_mark t). split_and!; [cbn; by rewrite lookup_insert_eq|by apply BitField.update_range|].
    unfold MarkBit_decode, clear_mark. rewrite BitField.decode_update by done. done.
Qed.

(** ** Filling *)

Lemma memset_words_ok n mem a v :
  a mod kWordSize = 0 -> mapped mem a (Z.of_nat n * kWordSize) -> writable mem a (Z.of_nat n * kWordSize) ->
  exists mem', memset_words n mem a v = Ok mem' /\ prot mem' = prot mem /\ changes (in_block a (Z.of_nat n * kWordSize)) mem mem'.
Proof.
  pose proof kWordSize_cases as Hws. revert mem a. induction n as [|n IH]; intros mem a Ha Hm Hw; cbn [memset_words]; [by exists mem|].
  rewrite Nat2Z.inj_succ in *. rewrite store_ok by (first [apply Hw; lia|apply Hm; [lia|done]]). cbn [mbind result_bind].
  pose proof (store_changes mem a v ltac:(apply Hm; [lia|done])) as Hc. set (m1 := mkMemory _ _) in *.
  destruct (IH m1 (a + kWordSize)) as (mem' & -> & Hp & Hc').
  - rewrite Z.add_mod, Ha, Z.mod_same, Z.mod_0_l by lia. done.
  - eapply changes_mapped; [exact Hc|]. intros w Hx Hy. apply Hm; [lia|done].
  - intros w Hx. apply Hw. lia.
  - exists mem'. split_and!; [done|done|]. eapply changes_trans; [exact Hc|exact Hc'|]. unfold in_block. intros w [<-|?]; lia.
Qed.

Lemma block_words a s : block_ok a s -> a mod kWordSize = 0 /\ Z.of_nat (Z.to_nat (s / kWordSize)) * kWordSize = s.
Proof.
  intros [B1 B2 B3 B4 B5 B6]. pose proof kWordSize_cases as Hws. unfold kObjectAlignment in *.
  apply Z.mod_divide in B2 as [k ->]; [|lia]. apply Z.mod_divide in B4 as [j ->]; [|lia]. replace (k * (2 * kWordSize)) with (2 * k * kWordSize) by lia.
  replace (j * (2 * kWordSize)) with (2 * j * kWordSize) by lia. rewrite Z.mod_mul, Z.div_mul by lia. split; [done|]. rewrite Z2Nat.id; [done|]. nia.
Qed.

Lemma memset_ok mem a b s :
  block_ok a s -> mapped mem a s -> writable mem a s -> exists mem', memset mem a b s = Ok mem' /\ prot mem' = prot mem /\ changes (in_block a s) mem mem'.
Proof.
  intros Hb Hm Hw. destruct (block_words a s Hb) as [Ha Hs]. unfold memset.
  destruct (memset_words_ok (Z.to_nat (s / kWordSize)) mem a (byte_word b)) as (mem' & -> & Hp & Hc); [done|by rewrite Hs..|]. rewrite Hs in Hc. by exists mem'.
Qed.

(** ** Runs *)

Lemma run_block mem a o us :
  walkable mem a (o :: us) (a + total (o :: us)) -> a + total (o :: us) < 2 ^ kBitsPerWord -> total (o :: us) < 2 ^ (kBitsPerWord - 1) ->
  block_ok a (total (o :: us)) /\ mapped mem a (total (o :: us)).
Proof.
  intros (<- & Ho & Hw) He Hx. pose proof (oa_block _ _ Ho) as [B1 B2 B3 B4 B5 B6]. pose proof kOA_cases as HOA. cbn [total] in *.
  pose proof (walkable_le _ _ _ _ Hw) as [_ Hpos].
  assert (forall b, b mod kObjectAlignment = 0 -> forall l, walkable mem b l (b + total l) -> total l mod kObjectAlignment = 0 /\ mapped mem b (total l)) as Hgen.
  { clear -HOA. intros b Hb l. revert b Hb. induction l as [|u l IH]; intros b Hb; cbn [walkable total].
    - intros _. split; [by rewrite Z.mod_0_l by lia|]. intros w Hw. lia.
    - intros (<- & Hu & Hw). pose proof (oa_block _ _ Hu) as [C1 C2 C3 C4 C5 C6]. destruct (IH (addr u + osize u)) as [H1 H2].
      + by rewrite Z.add_mod, C2, C4, Z.mod_0_l by lia.
      + by replace (addr u + osize u + total l) with (addr u + (osize u + total l)) by lia.
      + split; [by rewrite Z.add_mod, C4, H1, Z.mod_0_l by lia|]. intros w Hw' Hal. destruct (Z.ltb_spec w (addr u + osize u)); [apply (oa_mapped _ _ Hu); [lia|done]|apply H2; [lia|done]]. }
  destruct (Hgen (addr o) B2 (o :: us)) as [H1 H2]; [cbn; split_and!; try done|]. cbn [total] in *. split; [|done]. split; try done; lia.
Qed.

Lemma expand_free_ok mem us rest e : forall fuel a,
  readable mem -> e < 2 ^ kBitsPerWord -> Forall (fun o => marked o = false) us -> starts_marked rest -> walkable mem a (us ++ rest) e -> 0 < a ->
  (length us < fuel)%nat -> expand_free fuel mem e a = Ok (a + total us).
Proof.
  induction us as [|u us IH]; intros [|fuel] a Hr He Hu Hs Hw Ha Hf; cbn in Hf; try lia; cbn [expand_free total].
  - rewrite Z.add_0_r. destruct (Z.ltb_spec a e); [|done]. destruct rest as [|o rest]; cbn in Hw; [lia|]. destruct Hw as (<- & Ho & _).
    rewrite (FromAddr_ok _ _ (oa_block _ _ Ho)). cbn [mbind result_bind]. rewrite IsMarked_ok by done. cbn in Hs. by rewrite Hs.
  - apply Forall_cons in Hu as [Hum Hu]. destruct Hw as (<- & Ho & Hw). pose proof (walkable_le _ _ _ _ Hw) as [Hle Hpos]. pose proof (oa_block _ _ Ho) as [B1 B2 B3 B4 B5 B6]. pose proof kOA_cases.
    destruct (Z.ltb_spec (addr u) e); [|lia]. rewrite (FromAddr_ok _ _ (oa_block _ _ Ho)). cbn [mbind result_bind]. rewrite IsMarked_ok, Hum by done. cbn [mbind result_bind].
    rewrite (RawObject_Size_ok _ _ _ Hr (oa_size _ _ Ho)). cbn [mbind result_bind]. unfold uword. rewrite wrapU_id by (unfold isU; lia).
    rewrite IH by (done || lia). f_equal. lia.
Qed.

Lemma free_element mem fl bs b : free_blocks mem fl bs -> b ∈ bs -> block_ok b.1 b.2 /\ mapped mem b.1 b.2 /\ exists n, element mem b.1 b.2 n.
Proof.
  intros (ls & Hf & Hp) Hb. rewrite Hp in Hb. apply concat_lookup_in in Hb as (i & l & Hl & Hb). destruct (free_list_blocks _ _ _ _ _ _ Hf Hl Hb) as [Hok Hm]. split_and!; [done..|].
  destruct (lookup_lt_is_Some_2 (free_lists_ fl) i) as [h Hh]; [rewrite (fl_heads _ _ _ Hf), <- (fl_lists _ _ _ Hf); by eapply lookup_lt_Some|].
  pose proof (fl_linked _ _ _ Hf _ _ _ Hh Hl) as Hlk. clear -Hlk Hb. revert h Hlk. induction l as [|[a s] l IH]; intros h; [by apply not_elem_of_nil in Hb|].
  intros (-> & n & He & Hlk). apply elem_of_cons in Hb as [->|Hb]; [by exists n|by eapply IH].
Qed.

(** A free block is an object that is not marked. *)
Lemma element_object mem a s n : block_ok a s -> mapped mem a s -> element mem a s n -> object_at mem (mkObj a s false).
Proof.
  intros Hb Hm (Ht & Hn & Hs). pose proof Hb as [B1 B2 B3 B4 B5 B6]. pose proof kOA_cases. destruct (element_tags_parts s ltac:(lia)) as [_ Hu].
  split; cbn; [done..| |].
  - exists (element_tags s). rewrite SizeTag_decode_element, ClassIdTag_decode_element, Z.eqb_refl by lia. destruct (Z.gtb_spec s kMaxSizeTag) as [Hg|Hg]; split_and!; try done; try lia.
    intros _. exists s. pose proof (block_addresses _ _ Hb) as (_ & Hsa & _). rewrite (Hsa Hg). split; [by apply Hs|]. unfold intptr. rewrite wrapS_id; [done|destruct word_cases; lia|unfold isS; lia].
  - exists (element_tags s). split_and!; [done|done|]. unfold MarkBit_decode. apply negb_false_iff, Z.eqb_eq. apply Z.bits_inj'. intros i Hi. destruct mark_field as (M1&M2&M3&M4).
    rewrite BitField.testbit_decode, Z.bits_0 by lia. destruct (Z.ltb_spec i 1); [|done]. cbn [andb]. apply element_tags_bit; unfold kMarkBit; lia.
Qed.

(** ** The loop *)

Record page_ok (page : PageArea) : Prop := {
  po_start : 0 < object_start page;
  po_order : object_start page <= object_end page;
  po_end : object_end page < 2 ^ kBitsPerWord;
  po_size : object_end page - object_start page < 2 ^ (kBitsPerWord - 1)
}.

(** What a sweep from [current] on leaves behind. *)
Definition swept_to (page : PageArea) (mem : Memory) (bs : list block) (current : Z) (objs : list Obj) (mem' : Memory) (fl' : FreeList) : Prop :=
  free_blocks mem' fl' (free_runs objs ++ bs) /\ walkable mem' current (swept objs) (object_end page) /\ readable mem' /\ prot mem' = prot mem /\
  changes (sweepable objs) mem mem' /\
  (forall o t, o ∈ objs -> marked o = true -> words mem !! addr o = Some t -> words mem' !! addr o = Some (clear_mark t)).

Lemma walkable_bounds mem a objs e o : walkable mem a objs e -> o ∈ objs -> a <= addr o /\ addr o + osize o <= e /\ object_at mem o.
Proof.
  revert a. induction objs as [|x objs IH]; intros a Hw Ho; [by apply not_elem_of_nil in Ho|]. destruct Hw as (<- & Hx & Hw). pose proof (walkable_le _ _ _ _ Hw).
  destruct (oa_block _ _ Hx). pose proof kOA_cases. apply elem_of_cons in Ho as [->|Ho]; [split_and!; [lia|lia|done]|]. destruct (IH _ Hw Ho) as (? & ? & ?). split_and!; [lia|lia|done].
Qed.

Lemma sweepable_bounds mem a objs e w : walkable mem a objs e -> sweepable objs w -> a <= w < e.
Proof.
  intros Hw (o & Ho & H). destruct (walkable_bounds _ _ _ _ _ Hw Ho) as (H1 & H2 & [[B1 B2 B3 B4 B5 B6] _ _ _]). pose proof kOA_cases. destruct (marked o); unfold in_block in *; lia.
Qed.

Lemma sweep_marked page mem fl bs o objs m1 mem' fl' t :
  object_at m1 (mkObj (addr o) (osize o) false) -> walkable m1 (addr o + osize o) objs (object_end page) -> marked o = true ->
  prot m1 = prot mem -> changes (eq (addr o)) mem m1 -> words mem !! addr o = Some t -> words m1 !! addr o = Some (clear_mark t) -> free_blocks mem fl bs ->
  swept_to page m1 bs (addr o + osize o) objs mem' fl' -> swept_to page mem bs (addr o) (o :: objs) mem' fl'.
Proof.
  intros Ho Hw Hm Hp Hc Ht Ht1 Hfb (H1 & H2 & H3 & H4 & H5 & H6). unfold swept_to. cbn [swept free_runs]. rewrite Hm. pose proof (oa_block _ _ Ho) as [B1 B2 B3 B4 B5 B6]. cbn in *. pose proof kOA_cases.
  assert (forall w, sweepable objs w -> addr o + osize o <= w) as Hsw by (intros w Hs; by eapply sweepable_bounds in Hs as [? _]).
  split_and!; [done|..|done|congruence| |].
  - done.
  - eapply object_frame; [exact H5| |exact Ho]. cbn. intros w Hin Hs. specialize (Hsw w Hs). unfold in_block in Hin. lia.
  - done.
  - eapply changes_trans; [exact Hc|exact H5|]. intros w [<-|(x & Hx & Hxw)]; [exists o; split; [by left|by rewrite Hm]|exists x; split; [by right|done]].
  - intros x tx [->|Hx]%elem_of_cons Hmx Htx.
    + rewrite (proj2 H5); [congruence|]. intros Hs. specialize (Hsw _ Hs). lia.
    + apply (H6 x tx Hx Hmx). rewrite (proj2 Hc); [done|]. destruct (walkable_bounds _ _ _ _ _ Hw Hx). lia.
Qed.

Lemma sweep_run page mem bs o us rest m1 mem' fl' :
  walkable mem (addr o) ((o :: us) ++ rest) (object_end page) -> marked o = false -> Forall (fun o => marked o = false) us -> starts_marked rest ->
  prot m1 = prot mem -> changes (in_block (addr o) (total (o :: us))) mem m1 ->
  swept_to page m1 ((addr o, total (o :: us)) :: bs) (addr o + total (o :: us)) rest mem' fl' ->
  swept_to page mem bs (addr o) ((o :: us) ++ rest) mem' fl'.
Proof.
  intros Hw Ho Hu Hr Hp Hc (H1 & H2 & H3 & H4 & H5 & H6). unfold swept_to. destruct (swept_run o us rest Ho Hu Hr) as [-> ->]. cbn [total] in *.
  pose proof (proj1 (walkable_app _ _ _ _ _) Hw) as [Hw1 Hw2]. cbn [total] in Hw2. pose proof kOA_cases.
  assert (forall w, in_block (addr o) (osize o + total us) w -> sweepable ((o :: us) ++ rest) w) as Hin.
  { intros w Hx. assert (exists u, u ∈ o :: us /\ in_block (addr u) (osize u) w) as (u & Hu1 & Hu2).
    { clear -Hw1 Hx. change (osize o + total us) with (total (o :: us)) in Hx. remember (addr o) as a eqn:E. clear E. set (l := o :: us) in *. clearbody l. revert a Hw1 Hx.
      induction l as [|u l IH]; intros a Hw Hx; cbn [total walkable] in *; unfold in_block in *; [lia|]. destruct Hw as (<- & _ & Hw).
      destruct (Z.ltb_spec w (addr u + osize u)); [exists u; split; [by left|lia]|]. destruct (IH (addr u + osize u)) as (v & Hv & ?); [by replace (addr u + osize u + total l) with (addr u + (osize u + total l)) by lia|lia|].
      exists v. split; [by right|done]. }
    exists u. split; [rewrite elem_of_app; by left|]. assert (marked u = false) as -> by (apply elem_of_cons in Hu1 as [->|Hu1]; [done|by rewrite Forall_forall in Hu; apply Hu]). done. }
  split_and!.
  - eapply free_blocks_perm; [|exact H1]. cbn [app]. by rewrite <- Permutation_middle.
  - cbn. split_and!; [done| |done]. destruct (free_element _ _ _ (addr o, osize o + total us) H1) as (Hb & Hm & n & He); [rewrite elem_of_app; right; by left|]. by eapply element_object.
  - done.
  - congruence.
  - eapply changes_trans; [exact Hc|exact H5|]. intros w [Hx|(x & Hx & Hxw)]; [by apply Hin|exists x; split; [rewrite elem_of_app; by right|done]].
  - intros x t Hx Hmx Ht. apply elem_of_app in Hx as [Hx|Hx].
    + exfalso. assert (marked x = false) by (apply elem_of_cons in Hx as [->|Hx]; [done|by rewrite Forall_forall in Hu; apply Hu]). congruence.
    + apply (H6 x t Hx Hmx). destruct (walkable_bounds _ _ _ _ _ Hw2 Hx). rewrite (proj2 Hc); [done|]. unfold in_block. lia.
Qed.

Lemma FreeLocked_blocks mem fl bs a s :
  free_blocks mem fl bs -> readable mem -> block_ok a s -> mapped mem a s -> writable mem a s -> Forall (apart (a, s)) bs ->
  exists mem' fl', FreeLocked mem fl a s = Ok (mem', fl') /\ free_blocks mem' fl' ((a, s) :: bs) /\ readable mem' /\ changes (in_block a s) mem mem' /\ prot mem' = prot mem.
Proof.
  intros (ls & Hf & Hp) Hr Hb Hm Hw Hap. pose proof (block_addresses _ _ Hb) as (_ & _ & Hh & _).
  destruct (FreeLocked_ok mem fl ls a s Hf Hr Hb Hm) as (mem' & fl' & ls' & -> & Hf' & Hp' & Hr' & Hc & Hpr); [intros w Hx; apply Hw; lia|by rewrite <- Hp|].
  exists mem', fl'. split_and!; try done. exists ls'. split; [done|]. by rewrite Hp', Hp.
Qed.

Lemma swept_to_nil page mem fl bs : free_blocks mem fl bs -> readable mem -> swept_to page mem bs (object_end page) [] mem fl.
Proof. intros Hf Hr. split_and!; try done. intros o t Ho. by apply not_elem_of_nil in Ho. Qed.

Lemma SweepPage_loop_ok page locked n : forall objs fuel mem fl bs current used,
  (length objs <= n)%nat -> (length objs < fuel)%nat -> page_ok page -> walkable mem current objs (object_end page) -> free_blocks mem fl bs -> readable mem ->
  writable mem current (object_end page - current) -> Forall (apart (current, object_end page - current)) bs -> object_start page <= current ->
  current <> object_start page \/ in_use objs = true ->
  exists mem' fl', SweepPage_loop fuel page locked mem fl current used = Ok (used || in_use objs, object_end page, (mem', fl')) /\
    swept_to page mem bs current objs mem' fl'.
Proof.
  pose proof kOA_cases as HOA. induction n as [|n IH]; intros objs [|fuel] mem fl bs current used Hn Hf Hpage Hw Hfb Hr Hwr Hap Hst Hne; try lia; destruct objs as [|o objs]; cbn in Hn, Hf; try lia; cbn [SweepPage_loop].
  - cbn in Hw. subst. rewrite Z.ltb_irrefl, orb_false_r. exists mem, fl. split; [done|by apply swept_to_nil].
  - cbn in Hw. subst. rewrite Z.ltb_irrefl, orb_false_r. exists mem, fl. split; [done|by apply swept_to_nil].
  - pose proof Hw as (<- & Ho & Hw'). pose proof (walkable_le _ _ _ _ Hw') as [Htot Hpos]. pose proof (oa_block _ _ Ho) as [B1 B2 B3 B4 B5 B6]. pose proof Hpage as [P1 P2 P3 P4].
    destruct (Z.ltb_spec (addr o) (object_end page)) as [_|]; [|lia]. rewrite (FromAddr_ok _ _ (oa_block _ _ Ho)). cbn [mbind result_bind]. rewrite IsMarked_ok by done. cbn [mbind result_bind].
    destruct (marked o) eqn:Em.
    + destruct (ClearMarkBit_ok mem o Hr Ho Em ltac:(apply Hwr; lia)) as (m1 & t & -> & Ho1 & Hp1 & Hc1 & Ht & Ht1). cbn [mbind result_bind].
      assert (readable m1) as Hr1 by (by eapply changes_readable). pose proof (RawObject_Size_ok _ _ _ Hr1 (oa_size _ _ Ho1)) as Hsz. cbn in Hsz. rewrite Hsz. cbn [mbind result_bind].
      unfold uword. rewrite wrapU_id by (unfold isU; lia). assert (walkable m1 (addr o + osize o) objs (object_end page)) as Hw1 by (eapply walkable_frame; [exact Hc1| |done]; intros; lia).
      destruct (IH objs fuel m1 fl bs (addr o + osize o) true) as (mem' & fl' & -> & Hs); try done; try lia.
      * destruct Hfb as (ls & Hfl & Hp). exists ls. split; [|done]. eapply free_list_frame; [done|exact Hc1|]. intros w Hin <-. rewrite <- Hp in Hin.
        apply (apart_inside _ _ _ Hap) in Hin; [done|]. unfold in_block. cbn. lia.
      * intros w Hx. rewrite Hp1. apply Hwr. lia.
      * eapply Forall_impl; [exact Hap|]. intros c. unfold apart. cbn. lia.
      * exists mem', fl'. split; [unfold in_use; cbn; rewrite Em, orb_true_r; done|]. by eapply sweep_marked.
    + rewrite (RawObject_Size_ok _ _ _ Hr (oa_size _ _ Ho)). cbn [mbind result_bind]. unfold uword. rewrite (wrapU_id _ (addr o + osize o)) by (unfold isU; lia).
      destruct (run_head objs) as (us & rest & -> & Hu & Hrest). rewrite length_app in Hn, Hf.
      rewrite (expand_free_ok mem us rest (object_end page)) by (done || lia). cbn [mbind result_bind].
      pose proof (proj1 (walkable_app mem (addr o) (o :: us) rest (object_end page)) Hw) as [Hwu Hwr']. pose proof (walkable_le _ _ _ _ Hwr') as [Htr Hpr].
      set (e := addr o + total (o :: us)) in *. assert (addr o + osize o + total us = e) as -> by (unfold e; cbn; lia).
      assert (block_ok (addr o) (total (o :: us)) /\ mapped mem (addr o) (total (o :: us))) as [Hb Hm] by (apply run_block; [done|lia|lia]).
      assert (e - addr o = total (o :: us)) as -> by lia. pose proof Hb as [C1 C2 C3 C4 C5 C6].
      unfold intptr. rewrite wrapS_id by (try (destruct kBitsPerWord_ok; lia); unfold isS; lia).
      assert (exists m1, (if executable page then memset mem (addr o) 0xcc (total (o :: us)) else memset mem (addr o) kZapByte (total (o :: us))) = Ok m1 /\
        prot m1 = prot mem /\ changes (in_block (addr o) (total (o :: us))) mem m1) as (m1 & -> & Hp1 & Hc1).
      { destruct (executable page); apply memset_ok; try done; intros w Hx; apply Hwr; lia. }
      cbn [mbind result_bind]. assert (negb (addr o =? object_start page) || negb (e =? object_end page) = true) as ->.
      { destruct Hne as [Hne|Hne]; [by rewrite (proj2 (Z.eqb_neq _ _) Hne)|]. apply orb_true_iff. right. apply negb_true_iff, Z.eqb_neq. unfold in_use in Hne. cbn in Hne. rewrite Em in Hne.
        fold (in_use (us ++ rest)) in Hne. rewrite in_use_app in Hne by done. destruct rest as [|x rest]; [done|]. destruct Hwr' as (Hx & Hox & Hwx). destruct (oa_block _ _ Hox). pose proof (walkable_le _ _ _ _ Hwx). lia. }
      assert (Forall (apart (addr o, total (o :: us))) bs) as Hap' by (eapply Forall_impl; [exact Hap|]; intros c; unfold apart; cbn [fst snd]; lia).
      assert (free_blocks m1 fl bs) as Hfb1.
      { destruct Hfb as (ls & Hfl & Hp). exists ls. split; [|done]. eapply free_list_frame; [done|exact Hc1|]. intros w Hin Hx. rewrite <- Hp in Hin. by apply (apart_inside _ _ _ Hap') in Hin. }
      destruct (FreeLocked_blocks m1 fl bs (addr o) (total (o :: us)) Hfb1) as (m2 & fl2 & Hfree & Hfb2 & Hr2 & Hc2 & Hp2); try done.
      { by eapply changes_readable. } { by eapply changes_mapped. } { intros w Hx. rewrite Hp1. apply Hwr. lia. }
      unfold Free. assert ((if locked then FreeLocked m1 fl (addr o) (total (o :: us)) else FreeLocked m1 fl (addr o) (total (o :: us))) = Ok (m2, fl2)) as -> by (by destruct locked).
      cbn [mbind result_bind]. rewrite wrapU_id by (unfold isU; lia). fold e.
      assert (changes (in_block (addr o) (total (o :: us))) mem m2) as Hc by (eapply changes_trans; [exact Hc1|exact Hc2|tauto]).
      destruct (IH rest fuel m2 fl2 ((addr o, total (o :: us)) :: bs) e used) as (mem' & fl' & -> & Hs); try done; try lia.
      * eapply walkable_frame; [exact Hc| |done]. unfold in_block. intros; lia.
      * intros w Hx. rewrite Hp2, Hp1. apply Hwr. lia.
      * constructor; [unfold apart; cbn [fst snd]; lia|]. eapply Forall_impl; [exact Hap|]. intros c. unfold apart. cbn [fst snd]. lia.
      * exists mem', fl'. split; [unfold in_use; cbn; rewrite Em; fold (in_use (us ++ rest)); by rewrite in_use_app|]. change (o :: us ++ rest) with ((o :: us) ++ rest). apply (sweep_run page mem bs o us rest m2); try done. congruence.
Qed.

(** A page without a marked object is one run; it is not added to the free list. *)
Lemma SweepPage_dead page locked objs mem fl :
  page_ok page -> objs <> [] -> walkable mem (object_start page) objs (object_end page) -> in_use objs = false -> readable mem ->
  writable mem (object_start page) (object_end page - object_start page) -> (length objs < page_fuel page)%nat ->
  exists mem', SweepPage page mem fl locked = Ok (false, (mem', fl)) /\ prot mem' = prot mem /\
    changes (in_block (object_start page) (object_end page - object_start page)) mem mem'.
Proof.
  intros Hpage Hne Hw Hdead Hr Hwr Hfuel. pose proof kOA_cases as HOA. destruct objs as [|o objs]; [done|]. unfold SweepPage. destruct (page_fuel page) as [|[|fuel]] eqn:Ef; cbn in Hfuel; try lia. cbn [SweepPage_loop].
  pose proof Hw as (Ha & Ho & Hw'). pose proof (walkable_le _ _ _ _ Hw') as [Htot Hpos]. pose proof (oa_block _ _ Ho) as [B1 B2 B3 B4 B5 B6]. pose proof Hpage as [P1 P2 P3 P4].
  assert (Forall (fun o => marked o = false) (o :: objs)) as Hall.
  { clear -Hdead. unfold in_use in Hdead. induction (o :: objs) as [|x l IH]; [constructor|]. cbn in Hdead. apply orb_false_iff in Hdead as [? ?]. constructor; auto. }
  apply Forall_cons in Hall as [Em Hu]. rewrite <- Ha in *. destruct (Z.ltb_spec (addr o) (object_end page)) as [_|]; [|lia]. rewrite (FromAddr_ok _ _ (oa_block _ _ Ho)). cbn [mbind result_bind].
  rewrite IsMarked_ok, Em by done. cbn [mbind result_bind]. rewrite (RawObject_Size_ok _ _ _ Hr (oa_size _ _ Ho)). cbn [mbind result_bind]. unfold uword. rewrite (wrapU_id _ (addr o + osize o)) by (unfold isU; lia).
  rewrite (expand_free_ok mem objs [] (object_end page)) by (first [done|lia|by rewrite app_nil_r]). cbn [mbind result_bind]. rewrite Htot.
  destruct (run_block mem (addr o) o objs) as [Hb Hm]; [replace (addr o + total (o :: objs)) with (object_end page) by (cbn; lia); done|cbn; lia|cbn; lia|].
  assert (object_end page - addr o = total (o :: objs)) as Hts by (cbn; lia). rewrite Hts in *. unfold intptr. rewrite wrapS_id by (try (destruct kBitsPerWord_ok; lia); unfold isS; lia).
  assert (exists m1, (if executable page then memset mem (addr o) 0xcc (total (o :: objs)) else memset mem (addr o) kZapByte (total (o :: objs))) = Ok m1 /\
    prot m1 = prot mem /\ changes (in_block (addr o) (total (o :: objs))) mem m1) as (m1 & -> & Hp1 & Hc1) by (destruct (executable page); by apply memset_ok).
  cbn [mbind result_bind]. rewrite !Z.eqb_refl. cbn [negb orb mbind result_bind]. rewrite wrapU_id by (unfold isU; lia). replace (addr o + total (o :: objs)) with (object_end page) by lia.
  rewrite Z.ltb_irrefl. cbn [mbind result_bind]. rewrite Z.eqb_refl. exists m1. by split_and!.
Qed.

(** C13: sweeping a page.  From a page that is a sequence of objects, [SweepPage]
    leaves a sequence of objects again: the marked objects, as they were but for
    the mark, and one free block for each maximal run of unmarked ones, which are
    added to the free list.  When no object is marked it answers that the page is
    not in use and leaves the free list alone.  It writes to the tags of marked
    objects and to unmarked objects only. *)
Theorem SweepPage_correct page locked objs mem fl bs :
  page_ok page -> objs <> [] -> walkable mem (object_start page) objs (object_end page) -> free_blocks mem fl bs -> readable mem ->
  writable mem (object_start page) (object_end page - object_start page) ->
  Forall (apart (object_start page, object_end page - object_start page)) bs ->
  exists mem' fl', SweepPage page mem fl locked = Ok (in_use objs, (mem', fl')) /\
    if in_use objs then swept_to page mem bs (object_start page) objs mem' fl'
    else fl' = fl /\ prot mem' = prot mem /\ changes (in_block (object_start page) (object_end page - object_start page)) mem mem'.
Proof.
  intros Hpage Hne Hw Hfb Hr Hwr Hap. assert (length objs < page_fuel page)%nat as Hfuel.
  { pose proof (walkable_le _ _ _ _ Hw) as [Ht _]. unfold page_fuel. assert (Z.of_nat (length objs) <= total objs); [|lia]. clear -Hw. revert Hw. generalize (object_start page).
    induction objs as [|o objs IH]; intros a Hw; cbn; [lia|]. destruct Hw as (_ & Ho & Hw). specialize (IH _ Hw). destruct (oa_block _ _ Ho). pose proof kOA_cases. lia. }
  destruct (in_use objs) eqn:E.
  - destruct (SweepPage_loop_ok page locked (length objs) objs (page_fuel page) mem fl bs (object_start page) false) as (mem' & fl' & Hl & Hs); try done; [by right|].
    exists mem', fl'. split; [|done]. unfold SweepPage. rewrite Hl. cbn [mbind result_bind]. rewrite Z.eqb_refl, E. done.
  - destruct (SweepPage_dead page locked objs mem fl) as (mem' & Hl & ?); try done. exists mem', fl. split; [done|]. by split.
Qed.

End props.


(** ** Witness *)

(** Objects of one class, of 32 bytes. *)
Definition demo_sizes : ObjectSizes (T := target64) :=
  {| size_from_class _ _ := 32; size_from_class_local _ _ _ _ _ _ _ _ _ := eq_refl |}.

(** Tags of class 42 with the size 32; the second object is marked. *)
Definition demo_tags (m : bool) : Z := (42 <<< 32) .| (2 <<< 16) .| (if m then 2 else 0).
Definition demo_page : PageArea := mkPageArea 65536 65600 false.
Definition demo_heap : Memory :=
  mkMemory (<[65536 := demo_tags false]> (<[65568 := demo_tags true]> (zeroed (T := target64) 65536 8))) (fun _ => kReadWrite).

Lemma demo_heap_mapped : mapped (T := target64) demo_heap 65536 64.
Proof.
  intros w Hw Ha. cbn. destruct (decide (w = 65536)) as [->|]; [rewrite lookup_insert_eq; eauto|rewrite lookup_insert_ne by done].
  destruct (decide (w = 65568)) as [->|]; [rewrite lookup_insert_eq; eauto|rewrite lookup_insert_ne by done].
  by apply (zeroed_mapped (T := target64) 65536 8 (fun _ => kReadWrite)).
Qed.

Lemma demo_object a m :
  a = 65536 \/ a = 65568 -> words demo_heap !! a = Some (demo_tags m) -> object_at (T := target64) (Sizes := demo_sizes) demo_heap (mkObj a 32 m).
Proof.
  intros Ha Ht. split; cbn [addr osize marked].
  - destruct Ha as [-> | ->]; split; vm_compute; done.
  - intros w Hw. apply demo_heap_mapped. lia.
  - exists (demo_tags m). split; [done|]. split; [done|]. split; [left; by destruct m; vm_compute|]. by destruct m; vm_compute.
  - exists (demo_tags m). split; [done|]. split; [split; destruct m; vm_compute; done|by destruct m; vm_compute].
Qed.

Lemma SweepPage_correct_witness :
  exists mem' fl', SweepPage (T := target64) (Os := demo_os) (Sizes := demo_sizes) demo_page demo_heap (Reset (T := target64)) true = Ok (true, (mem', fl')) /\
    free_blocks (T := target64) mem' fl' [(65536, 32)] /\ words mem' !! 65568 = Some (demo_tags false).
Proof.
  destruct (SweepPage_correct (T := target64) (Os := demo_os) (Sizes := demo_sizes) demo_page true [mkObj 65536 32 false; mkObj 65568 32 true] demo_heap (Reset (T := target64)) [])
    as (mem' & fl' & Hs & Hfb & _ & _ & _ & _ & Htags).
  - split; vm_compute; done.
  - done.
  - split; [done|]. split; [apply demo_object; [by left|done]|]. split; [done|]. split; [apply demo_object; [by right|done]|done].
  - exists (replicate (Z.to_nat (kNumLists + 1)) []). split; [apply (Reset_free_list (T := target64))|done].
  - intros w _. reflexivity.
  - intros w _. reflexivity.
  - constructor.
  - exists mem', fl'. split; [exact Hs|]. split; [exact Hfb|].
    assert (words mem' !! 65568 = Some (clear_mark (T := target64) (demo_tags true))) as ->; [|vm_compute; done].
    apply (Htags (mkObj 65568 32 true)); [by right; left|done|done].
Defined.

End SweeperProps.
