(* ===== verification/ThreadPool.v ===== *)
(** * vm/thread_pool.h, vm/thread_pool.cc

    [ThreadPool]: workers that run tasks.  A worker and a task are known by their
    addresses, [NULL] is 0; the workers are linked through their fields into the
    lists of the pool.  Each critical section of [mutex_], of a worker's
    [monitor_] or of [exit_monitor_] is one operation on the [World], which also
    holds where each thread is: the workers' threads, the calls of [Run] between
    their two sections, and the thread that shuts the pool down.  A worker's
    thread keeps its monitor over several sections in the states [PSetIdle],
    [PReap] and [PRelease], and [Shutdown] keeps [exit_monitor_] while it tells the
    workers; nobody else enters them then.  [perform] is the system: one section of
    one thread, when that thread is not blocked. *)

From stdpp Require Import base numbers list gmap.
From Stdlib Require Import ZArith Lia.
From S2P Require Import Prelude.

Local Open Scope Z_scope.
Local Open Scope mach_scope.

Module ThreadPool.

Inductive pool_error :=
| TAssertFailed
| TUseAfterFree    (* an access to a worker that was deleted *)
| TNoReturn.       (* the rounds of a loop ran out *)

Abbreviation M A := (result pool_error A).
Definition assert_ (b : bool) : M unit := if b then Ok () else Err TAssertFailed.

(** [kInvalidThreadId]. *)
Definition kInvalidThreadId : Z := 0.

Record Worker := mkWorker {
  task_ : Z; id_ : Z; done_ : bool; owned_ : bool;
  all_next_ : Z; idle_next_ : Z; shutdown_next_ : Z
}.

Definition Worker_new : Worker := mkWorker 0 kInvalidThreadId false false 0 0 0.

Definition set_task_ (t : Z) (w : Worker) := mkWorker t (id_ w) (done_ w) (owned_ w) (all_next_ w) (idle_next_ w) (shutdown_next_ w).
Definition set_id (i : Z) (w : Worker) := mkWorker (task_ w) i (done_ w) (owned_ w) (all_next_ w) (idle_next_ w) (shutdown_next_ w).
Definition set_done (b : bool) (w : Worker) := mkWorker (task_ w) (id_ w) b (owned_ w) (all_next_ w) (idle_next_ w) (shutdown_next_ w).
Definition set_owned (b : bool) (w : Worker) := mkWorker (task_ w) (id_ w) (done_ w) b (all_next_ w) (idle_next_ w) (shutdown_next_ w).
Definition set_all_next (n : Z) (w : Worker) := mkWorker (task_ w) (id_ w) (done_ w) (owned_ w) n (idle_next_ w) (shutdown_next_ w).
Definition set_idle_next (n : Z) (w : Worker) := mkWorker (task_ w) (id_ w) (done_ w) (owned_ w) (all_next_ w) n (shutdown_next_ w).
Definition set_shutdown_next (n : Z) (w : Worker) := mkWorker (task_ w) (id_ w) (done_ w) (owned_ w) (all_next_ w) (idle_next_ w) n.

(** The counters are [uint64_t]. *)
Record Pool := mkPool {
  shutting_down_ : bool; all_workers_ : Z; idle_workers_ : Z;
  count_started_ : Z; count_stopped_ : Z; count_running_ : Z; count_idle_ : Z;
  shutting_down_workers_ : Z; join_list_ : list Z
}.

Definition ThreadPool_new : Pool := mkPool false 0 0 0 0 0 0 0 [].

(** Where the thread of a worker is. *)
Inductive Pc :=
| PStart                 (* before the first section of [Main] *)
| PLoop                  (* about to take its task *)
| PRun (task : Z)        (* in [task->Run()] *)
| PSetIdle               (* holds the monitor, about to call [SetIdleAndReapExited] *)
| PReap (list : list Z)  (* holds the monitor, joins the threads of [list] *)
| PWait (notified : bool)
| PRelease               (* holds the monitor, about to call [ReleaseIdleWorker] *)
| PExit (released : bool) (* [Loop] has returned *)
| PListed                (* its id is in the join list *)
| PJoined.               (* about to remove itself from the shutdown list *)

Definition holds_monitor (pc : Pc) : bool := match pc with PSetIdle | PReap _ | PRelease => true | _ => false end.

Record Thread := mkThread { join_id : Z; pc : Pc }.

(** A call of [Run] that has left [mutex_]: [set] when [SetTask] is done. *)
Record RunCall := mkRunCall { rc_task : Z; rc_worker : Z; rc_new : bool; rc_set : bool }.

(** The thread that runs [Shutdown]. *)
Inductive ShutdownPc :=
| SNone
| STell (id current : Z) (* thread [id] in the loop over the workers, [exit_monitor_] held *)
| SWait (notified : bool) (* waits for [shutting_down_workers_] to be empty *)
| SJoin                  (* about to take the join list *)
| SJoining (list : list Z)
| SDone.

(** [accepted], [finished]: the tasks [Run] answered true for, and those run. *)
Record World := mkWorld {
  pool : Pool; workers : gmap Z Worker; threads : gmap Z Thread; calls : list RunCall;
  shutdown : ShutdownPc; next_id : Z; accepted : list Z; finished : list Z
}.

Definition initial : World := mkWorld ThreadPool_new ∅ ∅ [] SNone 1 [] [].

Definition set_pool (p : Pool) (w : World) := mkWorld p (workers w) (threads w) (calls w) (shutdown w) (next_id w) (accepted w) (finished w).
Definition set_workers (ws : gmap Z Worker) (w : World) := mkWorld (pool w) ws (threads w) (calls w) (shutdown w) (next_id w) (accepted w) (finished w).
Definition set_threads (ts : gmap Z Thread) (w : World) := mkWorld (pool w) (workers w) ts (calls w) (shutdown w) (next_id w) (accepted w) (finished w).
Definition set_calls (c : list RunCall) (w : World) := mkWorld (pool w) (workers w) (threads w) c (shutdown w) (next_id w) (accepted w) (finished w).
Definition set_shutdown (s : ShutdownPc) (w : World) := mkWorld (pool w) (workers w) (threads w) (calls w) s (next_id w) (accepted w) (finished w).

Definition set_pc (a : Z) (p : Pc) (w : World) : World :=
  set_threads (alter (fun t => mkThread (join_id t) p) a (threads w)) w.

(** ** Workers in memory *)

Definition deref (ws : gmap Z Worker) (a : Z) : M Worker :=
  match ws !! a with Some w => Ok w | None => Err TUseAfterFree end.

Definition modify (ws : gmap Z Worker) (a : Z) (f : Worker -> Worker) : M (gmap Z Worker) :=
  w ← deref ws a; Ok (<[a := f w]> ws).

Definition store_size (ws : gmap Z Worker) : nat := size ws.

(** [for (current = head; current->next != NULL; current = current->next)] of the
    three functions that remove a worker: the worker whose link is [worker]. *)
Fixpoint find_before (next_ : Worker -> Z) (fuel : nat) (ws : gmap Z Worker) (current worker : Z) : M (option Z) :=
  match fuel with
  | O => Err TNoReturn
  | S fuel =>
      c ← deref ws current;
      if next_ c =? 0 then Ok None
      else if next_ c =? worker then Ok (Some current)
      else find_before next_ fuel ws (next_ c) worker
  end.

Fixpoint IsIdle_loop (fuel : nat) (ws : gmap Z Worker) (current worker : Z) : M bool :=
  match fuel with
  | O => Err TNoReturn
  | S fuel =>
      if current =? 0 then Ok false
      else if current =? worker then Ok true
      else c ← deref ws current; IsIdle_loop fuel ws (idle_next_ c) worker
  end.

Definition IsIdle (p : Pool) (ws : gmap Z Worker) (worker : Z) : M bool :=
  w ← deref ws worker;
  assert_ (negb (worker =? 0) && owned_ w);;
  IsIdle_loop (S (store_size ws)) ws (idle_workers_ p) worker.

Definition set_idle_workers (i : Z) (p : Pool) : Pool :=
  mkPool (shutting_down_ p) (all_workers_ p) i (count_started_ p) (count_stopped_ p) (count_running_ p) (count_idle_ p) (shutting_down_workers_ p) (join_list_ p).
Definition set_all_workers (a : Z) (p : Pool) : Pool :=
  mkPool (shutting_down_ p) a (idle_workers_ p) (count_started_ p) (count_stopped_ p) (count_running_ p) (count_idle_ p) (shutting_down_workers_ p) (join_list_ p).
Definition set_shutdown_workers (s : Z) (p : Pool) : Pool :=
  mkPool (shutting_down_ p) (all_workers_ p) (idle_workers_ p) (count_started_ p) (count_stopped_ p) (count_running_ p) (count_idle_ p) s (join_list_ p).
Definition set_join_list (l : list Z) (p : Pool) : Pool :=
  mkPool (shutting_down_ p) (all_workers_ p) (idle_workers_ p) (count_started_ p) (count_stopped_ p) (count_running_ p) (count_idle_ p) (shutting_down_workers_ p) l.
(** [count_started_ += started] and so on. *)
Definition count (started stopped running idle : Z) (p : Pool) : Pool :=
  mkPool (shutting_down_ p) (all_workers_ p) (idle_workers_ p) (u64 (count_started_ p + started)) (u64 (count_stopped_ p + stopped))
    (u64 (count_running_ p + running)) (u64 (count_idle_ p + idle)) (shutting_down_workers_ p) (join_list_ p).

Definition RemoveWorkerFromIdleList (p : Pool) (ws : gmap Z Worker) (worker : Z) : M (bool * (Pool * gmap Z Worker)) :=
  w ← deref ws worker;
  assert_ (negb (worker =? 0) && owned_ w);;
  if idle_workers_ p =? 0 then Ok (false, (p, ws))
  else if idle_workers_ p =? worker then
    ws ← modify ws worker (set_idle_next 0);
    Ok (true, (set_idle_workers (idle_next_ w) p, ws))
  else
    found ← find_before idle_next_ (S (store_size ws)) ws (idle_workers_ p) worker;
    match found with
    | Some current =>
        ws ← modify ws current (set_idle_next (idle_next_ w));
        ws ← modify ws worker (set_idle_next 0);
        Ok (true, (p, ws))
    | None => Ok (false, (p, ws))
    end.

Definition RemoveWorkerFromAllList (p : Pool) (ws : gmap Z Worker) (worker : Z) : M (bool * (Pool * gmap Z Worker)) :=
  w ← deref ws worker;
  assert_ (negb (worker =? 0) && owned_ w);;
  if all_workers_ p =? 0 then Ok (false, (p, ws))
  else if all_workers_ p =? worker then
    ws ← modify ws worker (fun w => set_done true (set_owned false (set_all_next 0 w)));
    Ok (true, (set_all_workers (all_next_ w) p, ws))
  else
    found ← find_before all_next_ (S (store_size ws)) ws (all_workers_ p) worker;
    match found with
    | Some current =>
        ws ← modify ws current (set_all_next (all_next_ w));
        ws ← modify ws worker (fun w => set_owned false (set_all_next 0 w));
        Ok (true, (p, ws))
    | None => Ok (false, (p, ws))
    end.

Definition AddWorkerToShutdownList (p : Pool) (ws : gmap Z Worker) (worker : Z) : M (Pool * gmap Z Worker) :=
  ws ← modify ws worker (set_shutdown_next (shutting_down_workers_ p));
  Ok (set_shutdown_workers worker p, ws).

Definition RemoveWorkerFromShutdownList (p : Pool) (ws : gmap Z Worker) (worker : Z) : M (bool * (Pool * gmap Z Worker)) :=
  assert_ (negb (worker =? 0));;
  assert_ (negb (shutting_down_workers_ p =? 0));;
  w ← deref ws worker;
  if shutting_down_workers_ p =? worker then
    ws ← modify ws worker (set_shutdown_next 0);
    Ok (true, (set_shutdown_workers (shutdown_next_ w) p, ws))
  else
    found ← find_before shutdown_next_ (S (store_size ws)) ws (shutting_down_workers_ p) worker;
    match found with
    | Some current =>
        ws ← modify ws current (set_shutdown_next (shutdown_next_ w));
        ws ← modify ws worker (set_shutdown_next 0);
        Ok (true, (p, ws))
    | None => Ok (false, (p, ws))
    end.

(** ** Run *)

(** The section of [mutex_] in [Run]; [fresh] is what [new Worker] returns.  False:
    the pool is shutting down. *)
Definition Run_lock (w : World) (task fresh : Z) : M (bool * World) :=
  let p := pool w in
  if shutting_down_ p then Ok (false, w)
  else
    r ← (if idle_workers_ p =? 0 then
           assert_ (negb (fresh =? 0));;
           let ws := <[fresh := set_owned true (set_all_next (all_workers_ p) Worker_new)]> (workers w) in
           Ok (mkRunCall task fresh true false, (count 1 0 1 0 (set_all_workers fresh p), ws))
         else
           let worker := idle_workers_ p in
           c ← deref (workers w) worker;
           ws ← modify (workers w) worker (set_idle_next 0);
           Ok (mkRunCall task worker false false, (count 0 0 1 (-1) (set_idle_workers (idle_next_ c) p), ws)));
    let '(call, (p, ws)) := (r : RunCall * (Pool * gmap Z Worker)) in
    Ok (true, mkWorld p ws (threads w) (call :: calls w) (shutdown w) (next_id w) (task :: accepted w) (finished w)).

(** [ml.Notify()] of a worker's monitor. *)
Definition notify (a : Z) (w : World) : World :=
  match threads w !! a with
  | Some (mkThread j (PWait _)) => set_threads (<[a := mkThread j (PWait true)]> (threads w)) w
  | _ => w
  end.

Definition SetTask (w : World) (worker task : Z) : M World :=
  c ← deref (workers w) worker;
  assert_ (task_ c =? 0);;
  ws ← modify (workers w) worker (set_task_ task);
  Ok (notify worker (set_workers ws w)).

Definition StartThread (w : World) (worker : Z) : M World :=
  c ← deref (workers w) worker;
  assert_ (negb (task_ c =? 0));;
  Ok (mkWorld (pool w) (workers w) (<[worker := mkThread (next_id w) PStart]> (threads w)) (calls w) (shutdown w) (next_id w + 1) (accepted w) (finished w)).

(** ** The thread of a worker *)

(** The first section of [Main]. *)
Definition Main_enter (w : World) (worker id : Z) : M World :=
  c ← deref (workers w) worker;
  assert_ (negb (task_ c =? 0));;
  ws ← modify (workers w) worker (set_id id);
  Ok (set_pc worker PLoop (set_workers ws w)).

(** [Loop]: the start of a round, with the monitor entered. *)
Definition Loop_take (w : World) (worker : Z) : M World :=
  c ← deref (workers w) worker;
  assert_ (negb (task_ c =? 0));;
  ws ← modify (workers w) worker (set_task_ 0);
  Ok (set_pc worker (PRun (task_ c)) (set_workers ws w)).

(** [Loop]: the task has run and the monitor is entered again. *)
Definition Loop_finished (w : World) (worker task : Z) : M World :=
  c ← deref (workers w) worker;
  assert_ (task_ c =? 0);;
  let w := mkWorld (pool w) (workers w) (threads w) (calls w) (shutdown w) (next_id w) (accepted w) (task :: finished w) in
  if done_ c then Ok (set_pc worker (PExit false) w)
  else assert_ (negb (done_ c));; Ok (set_pc worker PSetIdle w).

(** [SetIdleAndReapExited] before [Join]; the state [PReap] has its list. *)
Definition SetIdleAndReapExited (w : World) (worker : Z) : M World :=
  let p := pool w in
  if shutting_down_ p then Ok (set_pc worker (PReap []) w)
  else
    c ← deref (workers w) worker;
    idle ← IsIdle p (workers w) worker;
    assert_ (owned_ c && negb idle);;
    ws ← modify (workers w) worker (set_idle_next (idle_workers_ p));
    let p := count 0 0 (-1) 1 (set_idle_workers worker p) in
    Ok (set_pc worker (PReap (join_list_ p)) (set_workers ws (set_pool (set_join_list [] p) w))).

(** [ComputeTimeout]: the flag is an [int], [now] is [OS::GetCurrentTimeMillis()].  The
    clock is not part of the system: a wait may time out whenever it has begun. *)
Definition ComputeTimeout (worker_timeout_millis now idle_start : Z) : Z :=
  if worker_timeout_millis <=? 0 then 0
  else
    let waited := s64 (now - idle_start) in
    if worker_timeout_millis <=? waited then 1 else s64 (worker_timeout_millis - waited).

(** [Loop] after [Wait] has returned. *)
Definition Loop_wake (w : World) (worker : Z) (timed_out : bool) : M World :=
  c ← deref (workers w) worker;
  if negb (task_ c =? 0) then Loop_take w worker
  else if done_ c then Ok (set_pc worker (PExit false) w)
  else if timed_out then Ok (set_pc worker PRelease w)
  else Ok (set_pc worker (PWait false) w).

Definition ReleaseIdleWorker (w : World) (worker id : Z) : M (bool * World) :=
  let p := pool w in
  if shutting_down_ p then Ok (false, w)
  else
    r ← RemoveWorkerFromIdleList p (workers w) worker;
    let '(found, (p, ws)) := (r : bool * (Pool * gmap Z Worker)) in
    if negb found then Ok (false, set_workers ws (set_pool p w))
    else
      r ← RemoveWorkerFromAllList p ws worker;
      let '(found, (p, ws)) := (r : bool * (Pool * gmap Z Worker)) in
      assert_ found;;
      let p := count 0 1 0 (-1) (set_join_list (id :: join_list_ p) p) in
      Ok (true, set_workers ws (set_pool p w)).

(** [if ((result == kTimedOut) && pool_->ReleaseIdleWorker(this)) return true;] *)
Definition Loop_release (w : World) (worker id : Z) : M World :=
  r ← ReleaseIdleWorker w worker id;
  let '(released, w) := (r : bool * World) in
  Ok (set_pc worker (if released : bool then PExit true else PWait false) w).

(** [Main] after [Loop]: the assertion, and the section of [mutex_] when the pool
    shuts down. *)
Definition Main_exit (w : World) (worker id : Z) (released : bool) : M World :=
  c ← deref (workers w) worker;
  assert_ (negb (owned_ c) && (idle_next_ c =? 0));;
  if negb released then
    Ok (set_pc worker PListed (set_pool (set_join_list (id :: join_list_ (pool w)) (pool w)) w))
  else Ok (set_threads (delete worker (threads w)) (set_workers (delete worker (workers w)) w)).

(** [Main]: [worker->id_ = kInvalidThreadId]. *)
Definition Main_clear_id (w : World) (worker : Z) : M World :=
  ws ← modify (workers w) worker (set_id kInvalidThreadId);
  Ok (set_pc worker PJoined (set_workers ws w)).

(** [eml.Notify()] of [exit_monitor_]. *)
Definition notify_exit (w : World) : World :=
  match shutdown w with SWait _ => set_shutdown (SWait true) w | _ => w end.

(** [Main]: the section of [exit_monitor_], and the end of the thread. *)
Definition Main_removed (w : World) (worker : Z) : M World :=
  r ← RemoveWorkerFromShutdownList (pool w) (workers w) worker;
  let '(_, (p, ws)) := (r : bool * (Pool * gmap Z Worker)) in
  Ok (notify_exit (set_threads (delete worker (threads w)) (set_workers (delete worker ws) (set_pool p w)))).

(** ** Shutdown *)

(** The loop of [Shutdown] over all workers: clears them and counts. *)
Fixpoint disown (fuel : nat) (ws : gmap Z Worker) (stopped current : Z) : M (gmap Z Worker * Z) :=
  match fuel with
  | O => Err TNoReturn
  | S fuel =>
      if current =? 0 then Ok (ws, stopped)
      else
        c ← deref ws current;
        ws ← modify ws current (fun w => set_owned false (set_idle_next 0 w));
        disown fuel ws (u64 (stopped + 1)) (all_next_ c)
  end.

(** The first section of [Shutdown], called by the thread [id]. *)
Definition Shutdown_lock (w : World) (id : Z) : M World :=
  let p := pool w in
  let saved := all_workers_ p in
  r ← disown (S (store_size (workers w))) (workers w) (count_stopped_ p) saved;
  let '(ws, stopped) := (r : gmap Z Worker * Z) in
  assert_ (count_started_ p =? stopped);;
  let p := mkPool true 0 0 (count_started_ p) stopped 0 0 (shutting_down_workers_ p) (join_list_ p) in
  Ok (set_shutdown (STell id saved) (set_workers ws (set_pool p w))).

(** One worker in the loop that tells the workers to shut down: [current->id()],
    [AddWorkerToShutdownList] and [Worker::Shutdown]. *)
Definition Shutdown_tell (w : World) (id current : Z) : M World :=
  c ← deref (workers w) current;
  r ← (if negb (id_ c =? id) then AddWorkerToShutdownList (pool w) (workers w) current else Ok (pool w, workers w));
  let '(p, ws) := (r : Pool * gmap Z Worker) in
  ws ← modify ws current (set_done true);
  Ok (set_shutdown (STell id (all_next_ c)) (notify current (set_workers ws (set_pool p w)))).

(** [while (shutting_down_workers_ != NULL)] *)
Definition Shutdown_check (w : World) : World :=
  set_shutdown (if shutting_down_workers_ (pool w) =? 0 then SJoin else SWait false) w.

Definition Shutdown_take_list (w : World) : World :=
  set_shutdown (SJoining (join_list_ (pool w))) (set_pool (set_join_list [] (pool w)) w).

(** After [Join]: the section with the last assertion. *)
Definition Shutdown_end (w : World) : M World :=
  assert_ (match join_list_ (pool w) with [] => true | _ => false end);;
  Ok (set_shutdown SDone w).

(** ** The system *)

Inductive Action :=
| ARun (task fresh : Z)       (* a call of [Run]; [fresh]: the address of a new worker *)
| ACall (worker : Z)          (* the next section of the call of [Run] that chose [worker] *)
| AWorker (worker : Z)        (* the next section of the worker's thread *)
| AWake (worker : Z) (timed_out : bool)  (* its wait times out or ends for no reason *)
| AShutdown (id : Z)          (* thread [id] calls [Shutdown] *)
| AStop.                      (* the next section of that thread *)

(** [OSThread::Join] returns when the thread has ended. *)
Definition alive (w : World) (id : Z) : bool :=
  existsb (fun t => join_id t.2 =? id) (map_to_list (threads w)).

Definition joined (w : World) (l : list Z) : bool := forallb (fun id => negb (alive w id)) l.

Definition monitor_free (w : World) (worker : Z) : bool :=
  match threads w !! worker with Some t => negb (holds_monitor (pc t)) | None => true end.

Fixpoint find_call (worker : Z) (l : list RunCall) : option RunCall :=
  match l with
  | [] => None
  | c :: l => if rc_worker c =? worker then Some c else find_call worker l
  end.

Fixpoint remove_call (worker : Z) (l : list RunCall) : list RunCall :=
  match l with
  | [] => []
  | c :: l => if rc_worker c =? worker then l else c :: remove_call worker l
  end.

(** [Run] after its section of [mutex_]. *)
Definition call_step (w : World) (c : RunCall) : option (M World) :=
  let worker := rc_worker c in
  let rest := remove_call worker (calls w) in
  if rc_set c then Some (w ← StartThread w worker; Ok (set_calls rest w))
  else if monitor_free w worker then
    Some (w ← SetTask w worker (rc_task c);
          Ok (set_calls (if rc_new c then mkRunCall (rc_task c) worker true true :: rest else rest) w))
  else None.

(** [Main], [Loop]. *)
Definition worker_step (w : World) (worker : Z) (t : Thread) : option (M World) :=
  match pc t with
  | PStart => Some (Main_enter w worker (join_id t))
  | PLoop => Some (Loop_take w worker)
  | PRun task => Some (Loop_finished w worker task)
  | PSetIdle => Some (SetIdleAndReapExited w worker)
  | PReap list => if joined w list then Some (Ok (set_pc worker (PWait false) w)) else None
  | PWait notified => if notified then Some (Loop_wake w worker false) else None
  | PRelease => Some (Loop_release w worker (join_id t))
  | PExit released => Some (Main_exit w worker (join_id t) released)
  | PListed => Some (Main_clear_id w worker)
  | PJoined => match shutdown w with STell _ _ => None | _ => Some (Main_removed w worker) end
  end.

(** [Shutdown] after its first section. *)
Definition shutdown_step (w : World) : option (M World) :=
  match shutdown w with
  | STell id current =>
      if current =? 0 then Some (Ok (Shutdown_check w))
      else if monitor_free w current then Some (Shutdown_tell w id current)
      else None
  | SWait notified => if notified then Some (Ok (Shutdown_check w)) else None
  | SJoin => Some (Ok (Shutdown_take_list w))
  | SJoining list => if joined w list then Some (Shutdown_end w) else None
  | SNone | SDone => None
  end.

(** A section of one thread: [None] when the thread is blocked or elsewhere.  [Run]
    is given a task, and [new] an address not in use.  [Shutdown] is called once, by
    any thread and at any time. *)
Definition perform (w : World) (act : Action) : option (M World) :=
  match act with
  | ARun task fresh =>
      if (0 <? task) && (0 <? fresh) && negb (bool_decide (is_Some (workers w !! fresh)))
      then Some (r ← Run_lock w task fresh; Ok (snd r)) else None
  | ACall worker => c ← find_call worker (calls w); call_step w c
  | AWorker worker => t ← threads w !! worker; worker_step w worker t
  | AWake worker timed_out =>
      t ← threads w !! worker;
      match pc t with PWait _ => Some (Loop_wake w worker timed_out) | _ => None end
  | AShutdown id =>
      match shutdown w with SNone => Some (Shutdown_lock w id) | _ => None end
  | AStop => shutdown_step w
  end.

(** What the users of the pool have to respect: [Shutdown] is begun by a thread that is
    not one of its workers' (such a thread has a negative id), when no call of [Run] is
    about to give its task to an idle worker.  The destructor, the only caller of
    [Shutdown] in the sources, runs when there are no other users. *)
Definition permitted (w : World) (act : Action) : bool :=
  match act with AShutdown id => (id <? 0) && forallb rc_new (calls w) | _ => true end.

Inductive reachable : World -> Prop :=
| reachable_initial : reachable initial
| reachable_step w act w' :
    reachable w -> permitted w act = true -> perform w act = Some (Ok w') -> reachable w'.

(** The sections the threads of the pool run by themselves: not a new call of [Run]
    or [Shutdown], nor the end of a wait nobody notified. *)
Definition internal (act : Action) : bool :=
  match act with ACall _ | AWorker _ | AStop => true | _ => false end.

Fixpoint run_actions (w : World) (acts : list Action) : option (M World) :=
  match acts with
  | [] => Some (Ok w)
  | act :: acts =>
      match perform w act with
      | Some (Ok w) => run_actions w acts
      | r => r
      end
  end.

End ThreadPool.
