(* ===== verification/ThreadPoolLists.v ===== *)
(** * The lists of workers of the thread pool

    The three lists of [ThreadPool] are linked through fields of the workers.  A
    [chain] is such a list; these are the lemmas on walking it and on the functions
    that take a worker out, which have the same three cases for every list. *)

From stdpp Require Import base numbers list gmap.
From Stdlib Require Import ZArith Lia.
From S2P Require Import Prelude ThreadPool.

Local Open Scope Z_scope.
Local Open Scope mach_scope.

Module ThreadPoolLists.
Import ThreadPool.

Lemma deref_some ws a w : ws !! a = Some w -> deref ws a = Ok w.
Proof. unfold deref. by intros ->. Qed.

Lemma modify_some ws a f w : ws !! a = Some w -> modify ws a f = Ok (<[a := f w]> ws).
Proof. intros Hw. unfold modify. by rewrite (deref_some _ _ _ Hw). Qed.

(** The workers reached from [head] through [next_] are those of the list. *)
Fixpoint chain (next_ : Worker -> Z) (ws : gmap Z Worker) (head : Z) (l : list Z) : Prop :=
  match l with
  | [] => head = 0
  | a :: l => head = a /\ 0 < a /\ exists w, ws !! a = Some w /\ chain next_ ws (next_ w) l
  end.

Section Chain.
Context (next_ : Worker -> Z).

Lemma chain_ext ws ws' head l :
  (forall a w, a ∈ l -> ws !! a = Some w -> exists w', ws' !! a = Some w' /\ next_ w' = next_ w) ->
  chain next_ ws head l -> chain next_ ws' head l.
Proof.
  revert head. induction l as [|a l IH]; intros head Hext; [done|]. simpl.
  intros (-> & H0 & w & Hw & Hl). split; [done|]. split; [done|].
  destruct (Hext a w) as (w' & Hw' & Hn); [by left|done|]. exists w'. split; [done|]. rewrite Hn.
  apply IH; [|done]. intros b v Hb. apply Hext. by right.
Qed.

Lemma chain_elem ws head l a : chain next_ ws head l -> a ∈ l -> 0 < a /\ is_Some (ws !! a).
Proof.
  revert head. induction l as [|b l IH]; intros head Hc Ha; [by apply not_elem_of_nil in Ha|].
  destruct Hc as (_ & H0 & w & Hw & Hl). apply elem_of_cons in Ha as [->|Ha]; [|by eapply IH]. split; [done|by exists w].
Qed.

Lemma chain_subset ws head l : chain next_ ws head l -> list_to_set l ⊆ dom ws.
Proof. intros Hc a Ha%elem_of_list_to_set. apply elem_of_dom. by apply (chain_elem _ _ _ _ Hc). Qed.

Lemma chain_length ws head l : NoDup l -> chain next_ ws head l -> (length l <= size ws)%nat.
Proof.
  intros Hnd Hc%chain_subset. rewrite <- size_dom, <- (size_list_to_set (C := gset Z) l) by done. by apply subseteq_size.
Qed.

Lemma chain_head ws head l : chain next_ ws head l -> head = 0 <-> l = [].
Proof. destruct l as [|a l]; simpl; [done|]. intros (-> & H0 & _). split; [lia|done]. Qed.

(** A worker outside the list can be changed. *)
Lemma chain_insert_out ws head l a w : a ∉ l -> chain next_ ws head l -> chain next_ (<[a := w]> ws) head l.
Proof.
  intros Ha. apply chain_ext. intros b v Hb Hv. exists v. split; [|done].
  rewrite lookup_insert_ne; [done|]. by intros <-.
Qed.

Lemma chain_delete_out ws head l a : a ∉ l -> chain next_ ws head l -> chain next_ (delete a ws) head l.
Proof.
  intros Ha. apply chain_ext. intros b v Hb Hv. exists v. split; [|done].
  rewrite lookup_delete_ne; [done|]. by intros <-.
Qed.

(** So can the other fields of any worker. *)
Lemma chain_insert_same ws head l a w w' :
  ws !! a = Some w -> next_ w' = next_ w -> chain next_ ws head l -> chain next_ (<[a := w']> ws) head l.
Proof.
  intros Hw Hn. apply chain_ext. intros b v _ Hv.
  destruct (decide (a = b)) as [<-|Hab]; [|exists v; by rewrite lookup_insert_ne by done].
  exists w'. rewrite lookup_insert_eq. split; [done|]. by simplify_eq.
Qed.

(** [find_before] returns the worker before [worker], or nothing. *)
Lemma find_before_in ws head l1 b worker l2 fuel :
  NoDup (l1 ++ b :: worker :: l2) -> chain next_ ws head (l1 ++ b :: worker :: l2) -> (S (length l1) <= fuel)%nat ->
  find_before next_ fuel ws head worker = Ok (Some b).
Proof.
  revert head fuel. induction l1 as [|a l1 IH]; intros head [|fuel] Hnd Hc Hf; simpl in Hf; [lia| |lia|].
  - destruct Hc as (-> & Hb & w & Hw & Hn & Hwk & _). simpl. unfold deref. rewrite Hw. cbn [mbind result_bind].
    rewrite Hn. replace (worker =? 0) with false by lia. by rewrite Z.eqb_refl.
  - destruct Hc as (-> & Ha & w & Hw & Hc). simpl. unfold deref. rewrite Hw. cbn [mbind result_bind].
    apply NoDup_cons in Hnd as [_ Hnd].
    assert (next_ w <> 0 /\ next_ w <> worker) as [H0 Hne].
    { destruct l1 as [|c l1]; simpl in Hc; destruct Hc as (Hn & Hpos & _); rewrite Hn; (split; [lia|]).
      - apply NoDup_cons in Hnd as [Hnd _]. intros ->. apply Hnd. by left.
      - apply NoDup_cons in Hnd as [Hnd _]. intros ->. apply Hnd. apply elem_of_app. right. right. by left. }
    replace (next_ w =? 0) with false by lia. replace (next_ w =? worker) with false by lia.
    apply IH; [done|done|lia].
Qed.

Lemma find_before_out ws head l worker fuel :
  l <> [] -> worker ∉ l -> 0 < worker -> chain next_ ws head l -> (length l <= fuel)%nat ->
  find_before next_ fuel ws head worker = Ok None.
Proof.
  revert head fuel. induction l as [|a l IH]; intros head [|fuel] Hl Hnot Hw0 Hc Hf; simpl in Hf; [done..|lia|].
  destruct Hc as (-> & Ha & w & Hw & Hc). simpl. unfold deref. rewrite Hw. cbn [mbind result_bind].
  apply not_elem_of_cons in Hnot as [Hne Hnot].
  destruct l as [|b l]; simpl in Hc; [by rewrite Hc|].
  destruct (next_ w =? 0) eqn:E0; [lia|]. destruct (next_ w =? worker) eqn:E1.
  - exfalso. apply Hnot. destruct Hc as (Hb & _). replace worker with b by lia. by left.
  - apply IH; [done|done|done|done|simpl in *; lia].
Qed.

(** Unlinking the worker after [b]. *)
Lemma chain_unlink (set_next : Z -> Worker -> Worker) ws head l1 b worker l2 wb wk :
  (forall n w, next_ (set_next n w) = n) ->
  NoDup (l1 ++ b :: worker :: l2) -> chain next_ ws head (l1 ++ b :: worker :: l2) ->
  ws !! b = Some wb -> ws !! worker = Some wk ->
  chain next_ (<[b := set_next (next_ wk) wb]> ws) head (l1 ++ b :: l2).
Proof.
  intros Hset. revert head. induction l1 as [|a l1 IH]; intros head Hnd Hc Hwb Hwk.
  - destruct Hc as (-> & Hb & w & Hw & Hn & Hpos & w' & Hw' & Hc). simplify_eq. simpl.
    split; [done|]. split; [done|]. eexists. rewrite lookup_insert_eq. split; [done|]. rewrite Hset.
    apply chain_insert_out; [|done]. simpl in Hnd. apply NoDup_cons in Hnd as [Hnd _]. intros Hin. apply Hnd. by right.
  - destruct Hc as (-> & Ha & w & Hw & Hc). simpl in Hnd. apply NoDup_cons in Hnd as [Hna Hnd].
    assert (a <> b) as Hab by (intros ->; apply Hna; apply elem_of_app; right; by left).
    split; [done|]. split; [done|]. exists w. rewrite lookup_insert_ne by done. split; [done|]. by apply IH.
Qed.

End Chain.

Lemma IsIdle_loop_ok ws head l worker fuel :
  0 < worker -> chain idle_next_ ws head l -> (length l < fuel)%nat ->
  IsIdle_loop fuel ws head worker = Ok (bool_decide (worker ∈ l)).
Proof.
  revert head fuel. induction l as [|a l IH]; intros head [|fuel] Hw0 Hc Hf; simpl in Hf; [lia| |lia|].
  - simpl in Hc. subst head. rewrite bool_decide_false by apply not_elem_of_nil. done.
  - destruct Hc as (-> & Ha & w & Hw & Hc). cbn [IsIdle_loop]. replace (a =? 0) with false by lia.
    destruct (a =? worker) eqn:E.
    + rewrite bool_decide_true; [done|]. replace a with worker by lia. by left.
    + unfold deref. rewrite Hw. cbn [mbind result_bind]. rewrite (IH (idle_next_ w) fuel) by (done || lia).
      f_equal. apply bool_decide_ext. rewrite elem_of_cons. split; [by right|]. intros [->|?]; [lia|done].
Qed.

(** The predecessor of a member that is not the head. *)
Lemma elem_split_before (a worker : Z) l :
  worker ∈ a :: l -> worker <> a -> exists l1 b l2, a :: l = l1 ++ b :: worker :: l2.
Proof.
  revert a. induction l as [|c l IH]; intros a Hin Hne.
  - apply list_elem_of_singleton in Hin. done.
  - apply elem_of_cons in Hin as [->|Hin]; [done|]. destruct (decide (worker = c)) as [->|Hc].
    + by exists [], a, l.
    + destruct (IH c Hin Hc) as (l1 & b & l2 & E). exists (a :: l1), b, l2. simpl. by rewrite E.
Qed.

(** [l] without [a]. *)
Definition without (a : Z) (l : list Z) : list Z := filter (fun b => b <> a) l.

Lemma without_notin a l : a ∉ l -> without a l = l.
Proof.
  unfold without. induction l as [|b l IH]; intros Hn; [done|]. apply not_elem_of_cons in Hn as [Hb Hn].
  rewrite filter_cons_True by congruence. by rewrite IH.
Qed.

Lemma without_middle a l1 l2 : NoDup (l1 ++ a :: l2) -> without a (l1 ++ a :: l2) = l1 ++ l2.
Proof.
  intros (H1 & H12 & H2)%NoDup_app. apply NoDup_cons in H2 as [H2 _]. unfold without.
  rewrite filter_app, filter_cons_False by (intros E; by apply E).
  fold (without a l1) (without a l2). rewrite !without_notin; [done|done|].
  intros Hin. apply (H12 a Hin). by left.
Qed.

Lemma elem_of_without a b l : b ∈ without a l <-> b ∈ l /\ b <> a.
Proof. unfold without. rewrite list_elem_of_filter. tauto. Qed.

Lemma without_perm a l : NoDup l -> a ∈ l -> l ≡ₚ a :: without a l.
Proof.
  intros Hnd Hin. apply list_elem_of_split in Hin as (l1 & l2 & ->). rewrite without_middle by done.
  by rewrite Permutation_middle.
Qed.


(** ** Taking a worker out *)

(** The three cases the functions that take a worker out have in common: [drop] is
    what they do to it, told whether it was the head. *)
Definition unlink (next_ : Worker -> Z) (set_next : Z -> Worker -> Worker) (drop : bool -> Worker -> Worker)
    (ws : gmap Z Worker) (head worker : Z) : M (bool * (Z * gmap Z Worker)) :=
  w ← deref ws worker;
  if head =? 0 then Ok (false, (head, ws))
  else if head =? worker then ws ← modify ws worker (drop true); Ok (true, (next_ w, ws))
  else
    found ← find_before next_ (S (store_size ws)) ws head worker;
    match found with
    | Some current =>
        ws ← modify ws current (set_next (next_ w));
        ws ← modify ws worker (drop false);
        Ok (true, (head, ws))
    | None => Ok (false, (head, ws))
    end.

(** What changed in the store: the worker, and links of workers of [l]. *)
Definition relinked (set_next : Z -> Worker -> Worker) (l : list Z) (worker : Z) (ws ws' : gmap Z Worker) : Prop :=
  forall b, b <> worker ->
    ws' !! b = ws !! b \/ (b ∈ l /\ exists w n, ws !! b = Some w /\ ws' !! b = Some (set_next n w)).

Section Unlink.
Context (next_ : Worker -> Z) (set_next : Z -> Worker -> Worker) (drop : bool -> Worker -> Worker).
Hypothesis next_set : forall n w, next_ (set_next n w) = n.

Lemma unlink_in ws head l worker wk :
  NoDup l -> chain next_ ws head l -> worker ∈ l -> ws !! worker = Some wk ->
  exists head' ws' h, unlink next_ set_next drop ws head worker = Ok (true, (head', ws')) /\
    chain next_ ws' head' (without worker l) /\ ws' !! worker = Some (drop h wk) /\ relinked set_next l worker ws ws'.
Proof.
  intros Hnd Hc Hin Hwk. unfold unlink. rewrite (deref_some _ _ _ Hwk). cbn [mbind result_bind].
  destruct l as [|a l]; [by apply not_elem_of_nil in Hin|].
  pose proof Hc as (-> & Ha & w & Hw & Hc'). replace (a =? 0) with false by lia.
  destruct (a =? worker) eqn:E.
  - assert (a = worker) as -> by lia. rewrite (modify_some _ _ _ _ Hwk). cbn [mbind result_bind].
    eexists _, _, _. split; [done|]. simplify_eq.
    replace (without worker (worker :: l)) with l by (symmetry; by apply (without_middle worker [] l)). apply NoDup_cons in Hnd as [Hnd _].
    split; [by apply chain_insert_out|]. rewrite lookup_insert_eq. split; [done|].
    intros b Hb. left. by rewrite lookup_insert_ne.
  - destruct (elem_split_before a worker l Hin ltac:(lia)) as (l1 & b & l2 & El). rewrite El in *.
    rewrite (find_before_in next_ ws a l1 b worker l2); [|done|done|].
    2:{ apply (chain_length next_) in Hc; [|done]. rewrite length_app in Hc. simpl in Hc. unfold store_size. lia. }
    cbn [mbind result_bind]. destruct (chain_elem next_ ws a _ b Hc) as [Hb0 [wb Hwb]]; [apply elem_of_app; right; by left|].
    assert (b <> worker) as Hbw.
    { intros ->. apply NoDup_app in Hnd as (_ & _ & Hnd). apply NoDup_cons in Hnd as [Hnd _]. apply Hnd. by left. }
    rewrite (modify_some _ _ _ _ Hwb). cbn [mbind result_bind].
    rewrite (modify_some _ _ _ wk) by (by rewrite lookup_insert_ne). cbn [mbind result_bind].
    eexists _, _, _. split; [done|].
    rewrite (cons_middle b l1), app_assoc in Hnd |- *. rewrite without_middle by done. rewrite <- app_assoc in Hnd |- *. simpl.
    split; [|split].
    + apply chain_insert_out; [|eapply chain_unlink; [done| |done|done|done]; done].
      apply NoDup_app in Hnd as (_ & Hd & Hnd). simpl in Hnd. rewrite !NoDup_cons in Hnd. rewrite elem_of_app, elem_of_cons.
      intros [H|[H|H]]; [|done|by apply Hnd]. apply (Hd worker H). right. by left.
    + by rewrite lookup_insert_eq.
    + intros c Hcw. rewrite lookup_insert_ne by done.
      destruct (decide (b = c)) as [<-|Hbc]; [|left; by rewrite lookup_insert_ne].
      right. split; [clear; set_solver|]. eexists _, _. by rewrite lookup_insert_eq.
Qed.

Lemma unlink_out ws head l worker wk :
  NoDup l -> chain next_ ws head l -> worker ∉ l -> 0 < worker -> ws !! worker = Some wk ->
  unlink next_ set_next drop ws head worker = Ok (false, (head, ws)).
Proof.
  intros Hnd Hc Hnot H0 Hwk. unfold unlink. rewrite (deref_some _ _ _ Hwk). cbn [mbind result_bind].
  destruct l as [|a l]; [simpl in Hc; by subst head|].
  pose proof Hc as (-> & Ha & _). replace (a =? 0) with false by lia. apply not_elem_of_cons in Hnot as [Hne Hnot].
  replace (a =? worker) with false by lia.
  rewrite (find_before_out next_ ws a (a :: l)); [done|done|by apply not_elem_of_cons|done|done|].
  apply (chain_length next_) in Hc; [|done]. unfold store_size. lia.
Qed.

End Unlink.

Lemma RemoveWorkerFromIdleList_unlink p ws worker wk :
  ws !! worker = Some wk -> owned_ wk = true -> 0 < worker ->
  RemoveWorkerFromIdleList p ws worker =
  r ← unlink idle_next_ set_idle_next (fun _ => set_idle_next 0) ws (idle_workers_ p) worker;
  Ok (r.1, (set_idle_workers r.2.1 p, r.2.2)).
Proof.
  intros Hwk How H0. unfold RemoveWorkerFromIdleList, unlink. rewrite (deref_some _ _ _ Hwk). cbn [mbind result_bind].
  rewrite How. replace (worker =? 0) with false by lia. cbn [negb andb assert_ mbind result_bind].
  assert (set_idle_workers (idle_workers_ p) p = p) as Ep by (by destruct p).
  destruct (idle_workers_ p =? 0); [simpl; by rewrite Ep|]. destruct (idle_workers_ p =? worker).
  - by destruct (modify _ _ _).
  - destruct (find_before _ _ _ _ _) as [[c|]|]; cbn [mbind result_bind fst snd]; rewrite ?Ep; try done.
    destruct (modify _ _ _); cbn [mbind result_bind]; [|done]. destruct (modify _ _ _); cbn [mbind result_bind fst snd]; by rewrite ?Ep.
Qed.

(** What [RemoveWorkerFromAllList] does to the worker: only the head becomes done. *)
Definition all_drop (head : bool) (w : Worker) : Worker :=
  let w := set_owned false (set_all_next 0 w) in if head then set_done true w else w.

Lemma RemoveWorkerFromAllList_unlink p ws worker wk :
  ws !! worker = Some wk -> owned_ wk = true -> 0 < worker ->
  RemoveWorkerFromAllList p ws worker =
  r ← unlink all_next_ set_all_next all_drop ws (all_workers_ p) worker;
  Ok (r.1, (set_all_workers r.2.1 p, r.2.2)).
Proof.
  intros Hwk How H0. unfold RemoveWorkerFromAllList, unlink. rewrite (deref_some _ _ _ Hwk). cbn [mbind result_bind].
  rewrite How. replace (worker =? 0) with false by lia. cbn [negb andb assert_ mbind result_bind].
  assert (set_all_workers (all_workers_ p) p = p) as Ep by (by destruct p).
  destruct (all_workers_ p =? 0); [simpl; by rewrite Ep|]. destruct (all_workers_ p =? worker).
  - unfold all_drop. by destruct (modify _ _ _).
  - destruct (find_before _ _ _ _ _) as [[c|]|]; cbn [mbind result_bind fst snd]; rewrite ?Ep; try done.
    destruct (modify _ _ _); cbn [mbind result_bind]; [|done]. unfold all_drop.
    destruct (modify _ _ _); cbn [mbind result_bind fst snd]; by rewrite ?Ep.
Qed.

Lemma RemoveWorkerFromShutdownList_unlink p ws worker wk :
  ws !! worker = Some wk -> shutting_down_workers_ p <> 0 -> 0 < worker ->
  RemoveWorkerFromShutdownList p ws worker =
  r ← unlink shutdown_next_ set_shutdown_next (fun _ => set_shutdown_next 0) ws (shutting_down_workers_ p) worker;
  Ok (r.1, (set_shutdown_workers r.2.1 p, r.2.2)).
Proof.
  intros Hwk Hs H0. unfold RemoveWorkerFromShutdownList, unlink. rewrite (deref_some _ _ _ Hwk).
  replace (worker =? 0) with false by lia. replace (shutting_down_workers_ p =? 0) with false by lia.
  cbn [negb andb assert_ mbind result_bind].
  assert (set_shutdown_workers (shutting_down_workers_ p) p = p) as Ep by (by destruct p).
  destruct (shutting_down_workers_ p =? worker).
  - by destruct (modify _ _ _).
  - destruct (find_before _ _ _ _ _) as [[c|]|]; cbn [mbind result_bind fst snd]; rewrite ?Ep; try done.
    destruct (modify _ _ _); cbn [mbind result_bind]; [|done]. destruct (modify _ _ _); cbn [mbind result_bind fst snd]; by rewrite ?Ep.
Qed.

End ThreadPoolLists.
