(* ===== verification/ThreadPoolInv.v ===== *)
(** * The invariant of the thread pool

    What holds between any two sections of the threads of [ThreadPool]: the lists of
    workers are well formed, each worker's fields agree with where its thread is and
    with the call of [Run] that has chosen it, the threads that end are in a list
    somebody joins, the counters count, and each accepted task is in one place. *)

From stdpp Require Import base numbers list gmap sorting.
From Stdlib Require Import ZArith Lia.
From S2P Require Import Prelude ThreadPool ThreadPoolLists.

Local Open Scope Z_scope.
Local Open Scope mach_scope.

Module ThreadPoolInv.
Import ThreadPool ThreadPoolLists.

(** ** Sums over a map *)

(** The elements [f] gives for the bindings of a map. *)
Definition bag {V B} (f : V -> list B) (m : gmap Z V) : list B := map_to_list m ≫= (fun kv => f kv.2).

Section Bag.
Context {V B : Type} (f : V -> list B).

Lemma bag_empty : bag f ∅ = [].
Proof. unfold bag. by rewrite map_to_list_empty. Qed.

Lemma bag_insert_new m a v : m !! a = None -> bag f (<[a := v]> m) ≡ₚ f v ++ bag f m.
Proof. intros Hm. unfold bag. by rewrite map_to_list_insert. Qed.

Lemma bag_delete m a v : m !! a = Some v -> bag f m ≡ₚ f v ++ bag f (delete a m).
Proof. intros Hm. rewrite <- (insert_delete_id m a v) at 1 by done. apply bag_insert_new. apply lookup_delete_eq. Qed.

Lemma bag_insert m a v : bag f (<[a := v]> m) ≡ₚ f v ++ bag f (delete a m).
Proof. rewrite <- insert_delete_eq. apply bag_insert_new. apply lookup_delete_eq. Qed.

(** Replacing a binding by one with the same elements. *)
Lemma bag_insert_same m a v v' : m !! a = Some v -> f v' = f v -> bag f (<[a := v']> m) ≡ₚ bag f m.
Proof. intros Hm Hf. rewrite bag_insert, Hf. symmetry. by apply bag_delete. Qed.

Lemma bag_ext m m' :
  dom m = dom m' -> (forall a v v', m !! a = Some v -> m' !! a = Some v' -> f v = f v') -> bag f m ≡ₚ bag f m'.
Proof.
  revert m'. induction m as [|a v m Hm IH] using map_ind; intros m' Hd Hf.
  - rewrite dom_empty_L in Hd. symmetry in Hd. apply dom_empty_inv_L in Hd. by subst m'.
  - assert (is_Some (m' !! a)) as [v' Hv'] by (apply elem_of_dom; rewrite <- Hd; set_solver).
    rewrite (bag_insert_new m a v Hm), (bag_delete m' a v' Hv').
    rewrite (Hf a v v'); [|by rewrite lookup_insert_eq|done]. apply Permutation_app_head. apply IH.
    + rewrite dom_delete_L, <- Hd, dom_insert_L. apply not_elem_of_dom in Hm. set_solver.
    + intros b u u' Hu Hu'. destruct (decide (a = b)) as [<-|Hab]; [congruence|].
      rewrite lookup_delete_ne in Hu' by done. apply (Hf b); [by rewrite lookup_insert_ne|done].
Qed.

Lemma elem_of_bag m x : x ∈ bag f m <-> exists a v, m !! a = Some v /\ x ∈ f v.
Proof.
  unfold bag. rewrite list_elem_of_bind. split.
  - intros ([a v] & Hx & Hin). exists a, v. split; [by apply elem_of_map_to_list|done].
  - intros (a & v & Hm & Hx). exists (a, v). split; [done|by apply elem_of_map_to_list].
Qed.

End Bag.

(** ** Tasks *)

Definition one (t : Z) : list Z := if t =? 0 then [] else [t].
Definition pending (w : Worker) : list Z := one (task_ w).
Definition running (t : Thread) : list Z := match pc t with PRun task => [task] | _ => [] end.
Definition waiting_calls (l : list RunCall) : list Z := rc_task <$> filter (fun c => rc_set c = false) l.

(** The tasks of accepted calls that have not finished. *)
Definition open_tasks (w : World) : list Z :=
  waiting_calls (calls w) ++ bag pending (workers w) ++ bag running (threads w).

(** ** What the invariant says of one worker *)

(** [all], [idle], [tell], [down]: it is in the list of all workers, of idle workers,
    of those [Shutdown] has still to tell, of those that shut down. *)
Record View := mkView { v_run : bool; v_call : option RunCall; v_all : bool; v_idle : bool; v_tell : bool; v_down : bool }.

Definition listed (v : View) : bool := v_all v || v_tell v || v_down v.

(** The worker has no task: it is idle, or a call of [Run] is about to give it one, or
    the pool shuts down. *)
Definition waits (v : View) : Prop :=
  match v_call v with
  | None => v_run v = true -> v_idle v = true
  | Some c => v_run v = true /\ v_idle v = false /\ rc_new c = false /\ rc_set c = false
  end.

Definition pc_ok (v : View) (w : Worker) (p : Pc) : Prop :=
  match p with
  | PStart | PLoop => v_call v = None /\ 0 < task_ w /\ v_idle v = false /\ listed v = true
  | PRun t => v_call v = None /\ task_ w = 0 /\ v_idle v = false /\ listed v = true /\ 0 < t
  | PSetIdle => v_call v = None /\ task_ w = 0 /\ v_idle v = false /\ listed v = true /\ done_ w = false
  | PReap _ | PRelease => task_ w = 0 /\ done_ w = false /\ listed v = true /\ waits v
  | PWait n =>
      listed v = true /\ (done_ w = true -> n = true) /\ (n = true -> 0 < task_ w \/ done_ w = true) /\
      ((task_ w = 0 /\ waits v) \/ (0 < task_ w /\ v_call v = None /\ v_idle v = false /\ n = true))
  | PExit false | PListed | PJoined => v_call v = None /\ task_ w = 0 /\ v_down v = true
  | PExit true => v_call v = None /\ task_ w = 0 /\ v_idle v = false /\ listed v = false
  end.

Definition worker_ok (v : View) (w : Worker) (t : option Thread) : Prop :=
  owned_ w = v_all v /\ (v_idle v = false -> idle_next_ w = 0) /\ 0 <= id_ w /\
  (v_down v = true -> done_ w = true) /\ (v_all v || v_tell v = true -> done_ w = false) /\
  match t with
  | None => listed v = true /\ v_idle v = false /\
      exists c, v_call v = Some c /\ rc_new c = true /\ task_ w = if rc_set c then rc_task c else 0
  | Some t => pc_ok v w (pc t)
  end.

(** ** The threads that end *)

Definition exiting (p : Pc) : bool := match p with PExit true | PListed | PJoined => true | _ => false end.

(** A thread waits in [JoinList::Join] for the thread [i]. *)
Definition awaited (w : World) (i : Z) : Prop :=
  (exists b u l, threads w !! b = Some u /\ pc u = PReap l /\ i ∈ l) \/ (exists l, shutdown w = SJoining l /\ i ∈ l).

Record joins_ok (w : World) : Prop := {
  j_fresh i : i ∈ join_list_ (pool w) \/ awaited w i -> i < next_id w;
  j_list a t : threads w !! a = Some t -> join_id t ∈ join_list_ (pool w) -> exiting (pc t) = true;
  j_awaited a t : threads w !! a = Some t -> awaited w (join_id t) -> pc t = PExit true;
  j_covered a t : threads w !! a = Some t -> pc t = PExit true -> join_id t ∈ join_list_ (pool w) \/ awaited w (join_id t)
}.

(** ** The invariant *)

Definition is_running (s : ShutdownPc) : bool := match s with SNone => true | _ => false end.

Definition view (w : World) (A I T D : list Z) (a : Z) : View :=
  mkView (is_running (shutdown w)) (find_call a (calls w))
    (bool_decide (a ∈ A)) (bool_decide (a ∈ I)) (bool_decide (a ∈ T)) (bool_decide (a ∈ D)).

Definition phase (w : World) (A T D : list Z) : Prop :=
  shutting_down_ (pool w) = negb (is_running (shutdown w)) /\
  match shutdown w with
  | SNone => T = [] /\ D = []
  | STell id current => A = [] /\ id < 0 /\ chain all_next_ (workers w) current T
  | SWait n => A = [] /\ T = [] /\ (D = [] -> n = true)
  | SJoin => A = [] /\ T = [] /\ D = []
  | SJoining _ => A = [] /\ T = [] /\ D = [] /\ join_list_ (pool w) = []
  | SDone => A = [] /\ T = [] /\ D = [] /\ join_list_ (pool w) = [] /\ threads w = ∅
  end.

Definition counts_ok (p : Pool) (A I : list Z) : Prop :=
  count_started_ p = u64 (count_stopped_ p + Z.of_nat (length A)) /\
  count_running_ p = u64 (Z.of_nat (length A) - Z.of_nat (length I)) /\
  count_idle_ p = u64 (Z.of_nat (length I)) /\ u64 (count_stopped_ p) = count_stopped_ p.

Record inv (w : World) (A I T D : list Z) : Prop := {
  i_all : chain all_next_ (workers w) (all_workers_ (pool w)) A;
  i_idle : chain idle_next_ (workers w) (idle_workers_ (pool w)) I;
  i_down : chain shutdown_next_ (workers w) (shutting_down_workers_ (pool w)) D;
  i_nodup : NoDup (A ++ T ++ D);
  i_nodup_idle : NoDup I;
  i_idle_all a : a ∈ I -> a ∈ A;
  i_phase : phase w A T D;
  i_workers a v : workers w !! a = Some v -> 0 < a /\ worker_ok (view w A I T D a) v (threads w !! a);
  i_threads a t : threads w !! a = Some t -> is_Some (workers w !! a) /\ 0 < join_id t < next_id w;
  i_ids a b t u : threads w !! a = Some t -> threads w !! b = Some u -> join_id t = join_id u -> a = b;
  i_calls : NoDup (rc_worker <$> calls w);
  i_call c : c ∈ calls w -> 0 < rc_task c /\ is_Some (workers w !! rc_worker c);
  i_next : 0 < next_id w;
  i_joins : joins_ok w;
  i_counts : counts_ok (pool w) A I;
  i_tasks : accepted w ≡ₚ finished w ++ open_tasks w
}.

Lemma inv_initial : inv initial [] [] [] [].
Proof.
  constructor; simpl; try done; try (by constructor); try (intros; set_solver).
  - constructor; simpl; try done; intros i; rewrite ?elem_of_nil; unfold awaited; simpl; try (intros; set_solver).
    all: intros; exfalso; naive_solver.
Qed.

(** ** Calls of Run *)

Lemma find_call_Some a l c : find_call a l = Some c -> c ∈ l /\ rc_worker c = a.
Proof.
  induction l as [|d l IH]; [done|]. simpl. destruct (rc_worker d =? a) eqn:E.
  - intros [= ->]. split; [by left|lia].
  - intros [H1 H2]%IH. split; [by right|done].
Qed.

Lemma find_call_None a l : find_call a l = None <-> a ∉ rc_worker <$> l.
Proof.
  induction l as [|d l IH]; simpl; [split; [intros _; apply not_elem_of_nil|done]|].
  rewrite not_elem_of_cons. destruct (rc_worker d =? a) eqn:E; [|rewrite IH].
  - split; [done|]. intros [H _]. lia.
  - split; [intros H; split; [lia|done]|tauto].
Qed.

Lemma find_call_in l c : NoDup (rc_worker <$> l) -> c ∈ l -> find_call (rc_worker c) l = Some c.
Proof.
  induction l as [|d l IH]; [by intros _ H%not_elem_of_nil|]. simpl. intros [Hd Hnd]%NoDup_cons [->|Hc]%elem_of_cons.
  - by rewrite Z.eqb_refl.
  - destruct (rc_worker d =? rc_worker c) eqn:E; [|by apply IH]. exfalso. apply Hd.
    replace (rc_worker d) with (rc_worker c) by lia. by apply list_elem_of_fmap_2.
Qed.

Lemma remove_call_perm a l c : find_call a l = Some c -> l ≡ₚ c :: remove_call a l.
Proof.
  induction l as [|d l IH]; [done|]. simpl. destruct (rc_worker d =? a); [by intros [= ->]|].
  intros Hf. rewrite (IH Hf) at 1. apply Permutation_swap.
Qed.

Lemma find_call_remove_ne a b l : a <> b -> find_call b (remove_call a l) = find_call b l.
Proof.
  intros Hab. induction l as [|d l IH]; [done|]. simpl. destruct (rc_worker d =? a) eqn:E.
  - by replace (rc_worker d =? b) with false by lia.
  - simpl. by rewrite IH.
Qed.

Lemma remove_call_notin a l c : NoDup (rc_worker <$> l) -> find_call a l = Some c -> a ∉ rc_worker <$> remove_call a l.
Proof.
  intros Hnd Hf. rewrite (remove_call_perm a l c Hf) in Hnd. apply NoDup_cons in Hnd as [Hnd _].
  by apply find_call_Some in Hf as [_ <-].
Qed.

Lemma remove_call_NoDup a l : NoDup (rc_worker <$> l) -> NoDup (rc_worker <$> remove_call a l).
Proof.
  intros Hnd. destruct (find_call a l) as [c|] eqn:Hf.
  - rewrite (remove_call_perm a l c Hf) in Hnd. by apply NoDup_cons in Hnd as [_ Hnd].
  - replace (remove_call a l) with l; [done|]. clear Hnd. induction l as [|d l IH]; [done|]. simpl in *.
    destruct (rc_worker d =? a); [done|]. by rewrite <- IH.
Qed.

Lemma waiting_calls_remove a l c :
  find_call a l = Some c -> waiting_calls l ≡ₚ (if rc_set c then [] else [rc_task c]) ++ waiting_calls (remove_call a l).
Proof.
  intros Hf. unfold waiting_calls. rewrite (remove_call_perm a l c Hf) at 1. destruct (rc_set c) eqn:E.
  - by rewrite filter_cons_False by congruence.
  - by rewrite filter_cons_True by congruence.
Qed.

Lemma waiting_calls_cons c l : waiting_calls (c :: l) = (if rc_set c then [] else [rc_task c]) ++ waiting_calls l.
Proof.
  unfold waiting_calls. destruct (rc_set c) eqn:E; [by rewrite filter_cons_False by congruence|by rewrite filter_cons_True by congruence].
Qed.

(** ** Threads *)

Lemma set_pc_some a p w t : threads w !! a = Some t -> set_pc a p w = set_threads (<[a := mkThread (join_id t) p]> (threads w)) w.
Proof.
  intros Ht. unfold set_pc. f_equal. apply map_eq. intros b. destruct (decide (a = b)) as [<-|Hab].
  - rewrite lookup_alter_eq, lookup_insert_eq, Ht. done.
  - by rewrite lookup_alter_ne, lookup_insert_ne by done.
Qed.

Lemma alive_spec w i : alive w i = true <-> exists a t, threads w !! a = Some t /\ join_id t = i.
Proof.
  unfold alive. rewrite existsb_exists. split.
  - intros ([a t] & Hin & Hi). exists a, t. apply list_elem_of_In, elem_of_map_to_list in Hin. simpl in Hi. split; [done|lia].
  - intros (a & t & Ht & Hi). exists (a, t). split; [by apply list_elem_of_In, elem_of_map_to_list|simpl; lia].
Qed.

Lemma joined_spec w l : joined w l = true <-> forall a t, threads w !! a = Some t -> join_id t ∉ l.
Proof.
  unfold joined. rewrite forallb_forall. split.
  - intros H a t Ht Hin. specialize (H (join_id t)). rewrite <- list_elem_of_In in H. specialize (H Hin).
    assert (alive w (join_id t) = true) as E by (apply alive_spec; eauto). by rewrite E in H.
  - intros H i Hi. destruct (alive w i) eqn:E; [|done]. apply alive_spec in E as (a & t & Ht & <-).
    exfalso. apply (H a t Ht). by apply list_elem_of_In.
Qed.


(** ** What a section leaves alone *)

(** The worker keeps all its fields but the links of the lists it is in. *)
Definition same_fields (idle : bool) (v v' : Worker) : Prop :=
  task_ v' = task_ v /\ id_ v' = id_ v /\ done_ v' = done_ v /\ owned_ v' = owned_ v /\
  (idle = false -> idle_next_ v' = idle_next_ v).

Lemma same_fields_refl idle v : same_fields idle v v.
Proof. done. Qed.

Lemma worker_ok_same vw v v' t : same_fields (v_idle vw) v v' -> worker_ok vw v t -> worker_ok vw v' t.
Proof.
  intros (Ht & Hi & Hd & Ho & Hn) (H1 & H2 & H3 & H4 & H5 & H6). unfold worker_ok. rewrite Hi, Hd, Ho.
  split_and!; [done| |done..|]; [intros E; rewrite Hn by done; by apply H2|].
  destruct t as [t|]; [|by rewrite Ht]. unfold pc_ok in *. by rewrite Ht, Hd.
Qed.

Section Frame.
Context (w w' : World) (A I T D A' I' T' D' : list Z) (a : Z).
Hypothesis Hinv : inv w A I T D.

Lemma workers_frame :
  (forall b v', b <> a -> workers w' !! b = Some v' ->
     exists v, workers w !! b = Some v /\ same_fields (bool_decide (b ∈ I')) v v') ->
  (forall b, b <> a -> threads w' !! b = threads w !! b) ->
  (forall b, b <> a -> view w' A' I' T' D' b = view w A I T D b) ->
  (forall v', workers w' !! a = Some v' -> 0 < a /\ worker_ok (view w' A' I' T' D' a) v' (threads w' !! a)) ->
  forall b v', workers w' !! b = Some v' -> 0 < b /\ worker_ok (view w' A' I' T' D' b) v' (threads w' !! b).
Proof.
  intros Hws Hth Hvw Ha b v' Hv'. destruct (decide (b = a)) as [->|Hab]; [by apply Ha|].
  destruct (Hws b v' Hab Hv') as (v & Hv & Hsame). destruct (i_workers _ _ _ _ _ Hinv b v Hv) as [Hb Hok].
  split; [done|]. rewrite (Hth b Hab). eapply worker_ok_same; [|rewrite (Hvw b Hab); exact Hok]. simpl. exact Hsame.
Qed.

(** One thread moves, neither from nor to the state of a released worker. *)
Lemma joins_local t p' :
  threads w !! a = Some t -> threads w' = <[a := mkThread (join_id t) p']> (threads w) ->
  shutdown w' = shutdown w -> next_id w' = next_id w ->
  join_list_ (pool w') = join_list_ (pool w) /\ (exiting (pc t) = true -> exiting p' = true) \/
  join_list_ (pool w') = join_id t :: join_list_ (pool w) /\ exiting p' = true ->
  pc t <> PExit true -> p' <> PExit true -> (forall l, p' = PReap l -> l = []) ->
  (forall l, pc t = PReap l -> joined w l = true) ->
  joins_ok w'.
Proof.
  intros Ht Hths Hsd Hnx Hjl Hp Hp' Hre Hre'. destruct (i_joins _ _ _ _ _ Hinv) as [Jf Jl Ja Jc].
  pose proof (i_threads _ _ _ _ _ Hinv a t Ht) as [_ Hid].
  assert (forall i, awaited w' i -> awaited w i) as Haw.
  { intros i [(b & u & l & Hu & Hpc & Hi)|(l & Hl & Hi)]; [|right; exists l; by rewrite <- Hsd].
    left. rewrite Hths in Hu. destruct (decide (a = b)) as [<-|Hab].
    - rewrite lookup_insert_eq in Hu. injection Hu as <-. rewrite (Hre l Hpc) in Hi. by apply not_elem_of_nil in Hi.
    - rewrite lookup_insert_ne in Hu by done. by exists b, u, l. }
  assert (forall i, i ∈ join_list_ (pool w') -> i ∈ join_list_ (pool w) \/ i = join_id t) as Hin.
  { intros i. destruct Hjl as [[-> _]|[-> _]]; [by left|]. intros [->|?]%elem_of_cons; [by right|by left]. }
  assert (forall i, i ∈ join_list_ (pool w) -> i ∈ join_list_ (pool w')) as Hin'.
  { intros i Hi. destruct Hjl as [[-> _]|[-> _]]; [done|by right]. }
  constructor.
  - intros i Hi. rewrite Hnx. destruct Hi as [Hi|Hi%Haw]; [|apply Jf; by right].
    destruct (Hin i Hi) as [?| ->]; [apply Jf; by left|lia].
  - intros b u Hu Hi. rewrite Hths in Hu. destruct (decide (a = b)) as [<-|Hab].
    + rewrite lookup_insert_eq in Hu. injection Hu as <-. simpl in *. destruct Hjl as [[E Hex]|[_ Hex]]; [|done].
      apply Hex. apply (Jl a t Ht). by rewrite <- E.
    + rewrite lookup_insert_ne in Hu by done. destruct (Hin _ Hi) as [Hi'|Hi']; [by apply (Jl b u)|].
      exfalso. apply Hab. symmetry. by apply (i_ids _ _ _ _ _ Hinv b a u t).
  - intros b u Hu Hi%Haw. rewrite Hths in Hu. destruct (decide (a = b)) as [<-|Hab].
    + rewrite lookup_insert_eq in Hu. injection Hu as <-. simpl in *. by apply (Ja a t) in Ht.
    + rewrite lookup_insert_ne in Hu by done. by apply (Ja b u).
  - intros b u Hu Hpc. rewrite Hths in Hu. destruct (decide (a = b)) as [<-|Hab].
    + rewrite lookup_insert_eq in Hu. injection Hu as <-. done.
    + rewrite lookup_insert_ne in Hu by done. destruct (Jc b u Hu Hpc) as [Hi|[(c & x & l & Hx & Hpx & Hi)|(l & Hl & Hi)]].
      * left. by apply Hin'.
      * right. left. exists c, x, l. split_and!; [|done|done]. rewrite Hths. destruct (decide (a = c)) as [<-|Hac].
        -- simplify_eq. exfalso. apply (proj1 (joined_spec w l) (Hre' l Hpx) b u Hu Hi).
        -- by rewrite lookup_insert_ne.
      * right. right. exists l. by rewrite Hsd.
Qed.

End Frame.

(** A thread moves and its worker's task, id or done field changes. *)
Lemma inv_local w A I T D a v t v' p' jl fin :
  inv w A I T D -> workers w !! a = Some v -> threads w !! a = Some t ->
  all_next_ v' = all_next_ v -> idle_next_ v' = idle_next_ v -> shutdown_next_ v' = shutdown_next_ v ->
  owned_ v' = owned_ v -> done_ v' = done_ v -> 0 <= id_ v' ->
  pc_ok (view w A I T D a) v' p' ->
  jl = join_list_ (pool w) /\ (exiting (pc t) = true -> exiting p' = true) \/
  jl = join_id t :: join_list_ (pool w) /\ exiting p' = true /\
    match shutdown w with SJoining _ | SDone => False | _ => True end ->
  pc t <> PExit true -> p' <> PExit true -> (forall l, p' = PReap l -> l = []) ->
  (forall l, pc t = PReap l -> joined w l = true) ->
  finished w ++ pending v ++ running t ≡ₚ fin ++ pending v' ++ running (mkThread (join_id t) p') ->
  inv (mkWorld (set_join_list jl (pool w)) (<[a := v']> (workers w)) (<[a := mkThread (join_id t) p']> (threads w))
         (calls w) (shutdown w) (next_id w) (accepted w) fin) A I T D.
Proof.
  intros Hinv Hv Ht Hn1 Hn2 Hn3 Ho Hd Hid Hpc Hjl Hp Hp' Hre Hre' Hfin. pose proof Hinv as [].
  match goal with |- inv ?x _ _ _ _ => set (w' := x) end. constructor; simpl; try done.
  - by eapply chain_insert_same.
  - by eapply chain_insert_same.
  - by eapply chain_insert_same.
  - destruct i_phase0 as [Hs Hph]. split; [done|]. simpl. destruct (shutdown w) eqn:Esd; try done.
    + destruct Hph as (HA & Hlt & Hc). split_and!; [done|done|]. by eapply chain_insert_same.
    + destruct Hjl as [[-> _]|[_ [_ []]]]. done.
    + destruct Hjl as [[-> _]|[_ [_ []]]]. destruct Hph as (-> & -> & -> & -> & Hths). rewrite Hths in Ht. done.
  - refine (workers_frame w w' A I T D A I T D a Hinv _ _ _ _); simpl.
    + intros b x Hb Hx. rewrite lookup_insert_ne in Hx by done. exists x. split; [done|apply same_fields_refl].
    + intros b Hb. by rewrite lookup_insert_ne.
    + done.
    + intros x Hx. rewrite lookup_insert_eq in Hx. injection Hx as <-. rewrite lookup_insert_eq.
      destruct (i_workers0 a v Hv) as [Ha (H1 & H2 & H3 & H4 & H5 & H6)]. split; [done|].
      unfold worker_ok. rewrite Ho, Hn2, Hd. split_and!; done.
  - intros b u Hu. rewrite lookup_insert_is_Some. destruct (decide (a = b)) as [<-|Hab].
    + rewrite lookup_insert_eq in Hu. injection Hu as <-. split; [by left|]. simpl. apply (i_threads0 a t Ht).
    + rewrite lookup_insert_ne in Hu by done. destruct (i_threads0 b u Hu). split; [by right|done].
  - intros b c u x Hu Hx. rewrite lookup_insert_Some in Hu. rewrite lookup_insert_Some in Hx.
    destruct Hu as [[<- <-]|[? Hu]], Hx as [[<- <-]|[? Hx]]; simpl; intros E; eauto.
  - intros c Hc. destruct (i_call0 c Hc) as [H1 H2]. split; [done|]. rewrite lookup_insert_is_Some.
    destruct (decide (a = rc_worker c)); [by left|by right].
  - apply (joins_local w w' A I T D a Hinv t p'); simpl; try done. clear -Hjl; tauto.
  - rewrite i_tasks0. unfold open_tasks. simpl. rewrite (bag_insert pending), (bag_insert running).
    rewrite (bag_delete pending (workers w) a v Hv), (bag_delete running (threads w) a t Ht).
    set (x := bag pending _). set (y := bag running _). set (z := waiting_calls _). clearbody x y z.
    transitivity ((finished w ++ pending v ++ running t) ++ z ++ x ++ y); [solve_Permutation|].
    rewrite Hfin. solve_Permutation.
Qed.


(** ** The sections of a worker's thread *)

(** The section does not fail, and the invariant holds after it. *)
Definition good (r : M World) : Prop := exists w A I T D, r = Ok w /\ inv w A I T D.

Lemma good_intro w A I T D : inv w A I T D -> good (Ok w).
Proof. intros H. by exists w, A, I, T, D. Qed.

Lemma set_join_list_same p : set_join_list (join_list_ p) p = p.
Proof. by destruct p. Qed.

Section Local.
Context (w : World) (A I T D : list Z) (a : Z) (v : Worker) (t : Thread).
Hypothesis Hinv : inv w A I T D.
Hypothesis Hv : workers w !! a = Some v.
Hypothesis Ht : threads w !! a = Some t.

Lemma inv_move v' p' fin :
  all_next_ v' = all_next_ v -> idle_next_ v' = idle_next_ v -> shutdown_next_ v' = shutdown_next_ v ->
  owned_ v' = owned_ v -> done_ v' = done_ v -> 0 <= id_ v' -> pc_ok (view w A I T D a) v' p' ->
  (exiting (pc t) = true -> exiting p' = true) ->
  pc t <> PExit true -> p' <> PExit true -> (forall l, p' = PReap l -> l = []) ->
  (forall l, pc t = PReap l -> joined w l = true) ->
  finished w ++ pending v ++ running t ≡ₚ fin ++ pending v' ++ running (mkThread (join_id t) p') ->
  inv (mkWorld (pool w) (<[a := v']> (workers w)) (<[a := mkThread (join_id t) p']> (threads w))
         (calls w) (shutdown w) (next_id w) (accepted w) fin) A I T D.
Proof.
  intros. rewrite <- (set_join_list_same (pool w)). apply (inv_local w A I T D a v t); auto.
Qed.

(** The worker itself stays as it is. *)
Lemma inv_move_pc p' fin :
  pc_ok (view w A I T D a) v p' -> (exiting (pc t) = true -> exiting p' = true) ->
  pc t <> PExit true -> p' <> PExit true -> (forall l, p' = PReap l -> l = []) ->
  (forall l, pc t = PReap l -> joined w l = true) ->
  finished w ++ running t ≡ₚ fin ++ running (mkThread (join_id t) p') ->
  inv (mkWorld (pool w) (workers w) (<[a := mkThread (join_id t) p']> (threads w))
         (calls w) (shutdown w) (next_id w) (accepted w) fin) A I T D.
Proof.
  intros. rewrite <- (insert_id (workers w) a v Hv). destruct (i_workers _ _ _ _ _ Hinv a v Hv) as [_ Hok].
  apply inv_move; try done; [apply Hok|]. set (x := pending v). rewrite (Permutation_app_comm x), (Permutation_app_comm x), !app_assoc.
  by apply Permutation_app_tail.
Qed.

Lemma worker_pc_ok : pc_ok (view w A I T D a) v (pc t).
Proof. destruct (i_workers _ _ _ _ _ Hinv a v Hv) as [_ Hok]. rewrite Ht in Hok. apply Hok. Qed.

Lemma Main_enter_ok : pc t = PStart -> good (Main_enter w a (join_id t)).
Proof.
  intros Hp. pose proof worker_pc_ok as Hok. rewrite Hp in Hok. simpl in Hok. destruct Hok as (Hc & Htk & Hi & Hl).
  pose proof (i_threads _ _ _ _ _ Hinv a t Ht) as [_ Hid].
  unfold Main_enter. rewrite (deref_some _ _ _ Hv). cbn [mbind result_bind].
  replace (task_ v =? 0) with false by lia. cbn [negb assert_ mbind result_bind].
  rewrite (modify_some _ _ _ _ Hv). cbn [mbind result_bind]. rewrite (set_pc_some a PLoop _ t) by exact Ht.
  eapply good_intro. apply inv_move; try done; try (by rewrite Hp); [simpl; lia|].
  unfold running. by rewrite Hp.
Qed.

Lemma Loop_take_ok notified : pc t = PLoop \/ pc t = PWait notified -> 0 < task_ v -> good (Loop_take w a).
Proof.
  intros Hp Htk. pose proof worker_pc_ok as Hok.
  assert (v_call (view w A I T D a) = None /\ v_idle (view w A I T D a) = false /\ listed (view w A I T D a) = true) as (Hc & Hi & Hl).
  { destruct Hp as [Hp|Hp]; rewrite Hp in Hok; cbn [pc_ok] in Hok; [tauto|].
    destruct Hok as (Hl & _ & _ & [[? _]|(_ & ? & ? & _)]); [lia|done]. }
  unfold Loop_take. rewrite (deref_some _ _ _ Hv). cbn [mbind result_bind].
  replace (task_ v =? 0) with false by lia. cbn [negb assert_ mbind result_bind].
  rewrite (modify_some _ _ _ _ Hv). cbn [mbind result_bind]. rewrite (set_pc_some a _ _ t) by exact Ht.
  destruct (i_workers _ _ _ _ _ Hinv a v Hv) as [_ Hwok].
  eapply good_intro. apply inv_move; try done; try (by destruct Hp as [-> | ->]); [apply Hwok|].
  unfold running, pending, one. simpl. replace (task_ v =? 0) with false by lia.
  destruct Hp as [-> | ->]; by rewrite app_nil_r.
Qed.

Lemma listed_done vw : worker_ok vw v (Some t) -> listed vw = true -> done_ v = true -> v_down vw = true.
Proof.
  intros (_ & _ & _ & _ & Hd & _) Hl Hdn. unfold listed in Hl. destruct (v_down vw); [done|].
  rewrite orb_false_r in Hl. rewrite (Hd Hl) in Hdn. done.
Qed.

Lemma Loop_finished_ok task : pc t = PRun task -> good (Loop_finished w a task).
Proof.
  intros Hp. pose proof worker_pc_ok as Hok. rewrite Hp in Hok. simpl in Hok. destruct Hok as (Hc & Htk & Hi & Hl & Hpos).
  destruct (i_workers _ _ _ _ _ Hinv a v Hv) as [_ Hwok]. rewrite Ht in Hwok.
  unfold Loop_finished. rewrite (deref_some _ _ _ Hv). cbn [mbind result_bind]. rewrite Htk, Z.eqb_refl.
  cbn [assert_ mbind result_bind]. destruct (done_ v) eqn:Hd; cbn [negb assert_ mbind result_bind];
  rewrite (set_pc_some a _ _ t) by exact Ht; eapply good_intro; apply inv_move_pc; try done; try (by rewrite Hp);
  try (unfold running; rewrite Hp; simpl; solve_Permutation).
  split_and!; [done|done|]. by apply (listed_done _ Hwok).
Qed.

Lemma end_reap_ok l : pc t = PReap l -> joined w l = true -> good (Ok (set_pc a (PWait false) w)).
Proof.
  intros Hp Hj. pose proof worker_pc_ok as Hok. rewrite Hp in Hok. cbn [pc_ok] in Hok. destruct Hok as (Htk & Hd & Hl & Hw).
  rewrite (set_pc_some a _ _ t) by exact Ht. eapply good_intro. apply inv_move_pc; try done; try (by rewrite Hp).
  - cbn [pc_ok]. split_and!; [done|by rewrite Hd|done|by left].
  - intros l' E. congruence.
  - unfold running. by rewrite Hp.
Qed.

Lemma Loop_wake_ok n timed_out : pc t = PWait n -> good (Loop_wake w a timed_out).
Proof.
  intros Hp. pose proof worker_pc_ok as Hok. rewrite Hp in Hok. cbn [pc_ok] in Hok. destruct Hok as (Hl & Hdn & Hn & Hcase).
  destruct (i_workers _ _ _ _ _ Hinv a v Hv) as [_ Hwok]. rewrite Ht in Hwok.
  unfold Loop_wake. rewrite (deref_some _ _ _ Hv). cbn [mbind result_bind].
  destruct Hcase as [[Htk Hw]|(Htk & _)]; [|replace (task_ v =? 0) with false by lia; cbn [negb]; eapply Loop_take_ok; eauto].
  rewrite Htk, Z.eqb_refl. cbn [negb]. destruct (done_ v) eqn:Hd; [|destruct timed_out];
  rewrite (set_pc_some a _ _ t) by exact Ht; eapply good_intro; apply inv_move_pc; try done; try (by rewrite Hp);
  try (unfold running; by rewrite Hp).
  - cbn [pc_ok]. pose proof (listed_done _ Hwok Hl Hd) as Hdown. split_and!; [|done|done].
    unfold waits in Hw. destruct (v_call _); [|done]. destruct Hw as (Hr & _). simpl in Hr, Hdown.
    destruct (i_phase _ _ _ _ _ Hinv) as [_ Hph]. destruct (shutdown w); try done. destruct Hph as [_ ->]. done.
  - cbn [pc_ok]. split_and!; [done|by rewrite Hd|done|by left].
Qed.

Lemma Main_exit_false_ok : pc t = PExit false -> good (Main_exit w a (join_id t) false).
Proof.
  intros Hp. pose proof worker_pc_ok as Hok. rewrite Hp in Hok. simpl in Hok. destruct Hok as (Hc & Htk & Hdown).
  destruct (i_workers _ _ _ _ _ Hinv a v Hv) as [_ (Ho & Hix & _)]. simpl in Ho, Hix.
  apply bool_decide_eq_true in Hdown.
  pose proof (i_phase _ _ _ _ _ Hinv) as [_ Hph].
  assert (A = []) as EA by (destruct (shutdown w); try tauto; destruct Hph as [_ ->]; by apply not_elem_of_nil in Hdown).
  assert (I = []) as EI.
  { destruct I as [|i I']; [done|]. pose proof (i_idle_all _ _ _ _ _ Hinv i ltac:(by left)) as Hin. rewrite EA in Hin. by apply not_elem_of_nil in Hin. }
  rewrite EA, bool_decide_false in Ho by apply not_elem_of_nil.
  rewrite EI, bool_decide_false in Hix by apply not_elem_of_nil.
  unfold Main_exit. rewrite (deref_some _ _ _ Hv). cbn [mbind result_bind]. rewrite Ho, (Hix eq_refl).
  cbn [negb andb Z.eqb assert_ mbind result_bind]. rewrite (set_pc_some a _ _ t) by exact Ht.
  eapply good_intro. destruct (i_workers _ _ _ _ _ Hinv a v Hv) as [_ Hwok].
  pose proof (inv_local w A I T D a v t v PListed (join_id t :: join_list_ (pool w)) (finished w) Hinv Hv Ht) as H.
  rewrite (insert_id (workers w) a v Hv) in H. apply H; try done; try (by rewrite Hp).
  - apply Hwok.
  - simpl. split_and!; [done|done|]. by apply bool_decide_eq_true.
  - right. split; [done|]. split; [done|]. destruct (shutdown w); try done;
    destruct Hph as (_ & _ & -> & _); by apply not_elem_of_nil in Hdown.
  - unfold running. by rewrite Hp.
Qed.

Lemma Main_clear_id_ok : pc t = PListed -> good (Main_clear_id w a).
Proof.
  intros Hp. pose proof worker_pc_ok as Hok. rewrite Hp in Hok. simpl in Hok.
  unfold Main_clear_id. rewrite (modify_some _ _ _ _ Hv). cbn [mbind result_bind].
  rewrite (set_pc_some a _ _ t) by exact Ht. eapply good_intro. apply inv_move; try done; try (by rewrite Hp).
  unfold running. by rewrite Hp.
Qed.

End Local.


(** ** Lists that change *)

(** Equations between counters. *)
Ltac counters :=
  cbn [length]; rewrite ?Nat2Z.inj_succ; unfold wrapU; rewrite ?Zplus_mod_idemp_l, ?Zplus_mod_idemp_r, ?Zmod_mod; try done; f_equal; lia.

(** Two views of the same worker, [a] being the one that enters or leaves a list. *)
Ltac view_same :=
  intros; unfold view; simpl; f_equal; try done;
  apply bool_decide_ext; rewrite ?elem_of_without, ?elem_of_cons; intuition congruence.

Section Idle.
Context (w : World) (A I T D : list Z) (a : Z) (v : Worker) (t : Thread).
Hypothesis Hinv : inv w A I T D.
Hypothesis Hv : workers w !! a = Some v.
Hypothesis Ht : threads w !! a = Some t.

Lemma running_lists : shutdown w = SNone -> T = [] /\ D = [].
Proof. intros E. destruct (i_phase _ _ _ _ _ Hinv) as [_ H]. by rewrite E in H. Qed.

Lemma shutting_down_spec : shutting_down_ (pool w) = false <-> shutdown w = SNone.
Proof.
  destruct (i_phase _ _ _ _ _ Hinv) as [H _]. rewrite H. split; [|by intros ->]. by destruct (shutdown w).
Qed.

Lemma insert_threads_ids p' :
  let ths := <[a := mkThread (join_id t) p']> (threads w) in
  (forall b u, ths !! b = Some u -> is_Some (workers w !! b) /\ 0 < join_id u < next_id w) /\
  (forall b c u x, ths !! b = Some u -> ths !! c = Some x -> join_id u = join_id x -> b = c).
Proof.
  pose proof (i_threads _ _ _ _ _ Hinv) as Hth. pose proof (i_ids _ _ _ _ _ Hinv) as Hids. split.
  - intros b u [[<- <-]|[_ Hu]]%lookup_insert_Some; [|by apply Hth]. simpl. by apply Hth.
  - intros b c u x [[<- <-]|[? Hu]]%lookup_insert_Some [[<- <-]|[? Hx]]%lookup_insert_Some; simpl; intros E; eauto.
Qed.

(** The list of ids moves to the thread that sets itself idle. *)
Lemma joins_reap w' :
  pc t = PSetIdle -> shutdown w = SNone ->
  threads w' = <[a := mkThread (join_id t) (PReap (join_list_ (pool w)))]> (threads w) ->
  shutdown w' = SNone -> next_id w' = next_id w -> join_list_ (pool w') = [] -> joins_ok w'.
Proof.
  intros Hp Hrun Hths Hsd Hnx Hjl. destruct (i_joins _ _ _ _ _ Hinv) as [Jf Jl Ja Jc].
  assert (forall i, awaited w' i <-> awaited w i \/ i ∈ join_list_ (pool w)) as Haw.
  { intros i. unfold awaited. rewrite Hths, Hsd, Hrun. split.
    - intros [(b & u & l & [[<- <-]|[? Hu]]%lookup_insert_Some & Hpc & Hi)|(l & ? & _)]; [right|left; left|done].
      + simpl in Hpc. by injection Hpc as <-.
      + by exists b, u, l.
    - intros [[(b & u & l & Hu & Hpc & Hi)|(l & ? & _)]|Hi]; [left|done|left].
      + exists b, u, l. rewrite lookup_insert_ne; [done|]. intros <-. simplify_eq. congruence.
      + eexists a, _, _. by rewrite lookup_insert_eq. }
  constructor; rewrite ?Hjl.
  - intros i. rewrite Hnx, Haw. intros [?%not_elem_of_nil|[?|?]]; [done|apply Jf; by right|apply Jf; by left].
  - intros b u _ []%not_elem_of_nil.
  - intros b u. rewrite Hths, Haw. intros [[<- <-]|[? Hu]]%lookup_insert_Some Hi.
    + simpl in Hi. exfalso. destruct Hi as [Hi|Hi]; [by rewrite (Ja a t Ht Hi) in Hp|]. pose proof (Jl a t Ht Hi) as E. by rewrite Hp in E.
    + destruct Hi as [Hi|Hi]; [by apply (Ja b u)|]. pose proof (Jl b u Hu Hi) as E.
      destruct (i_threads _ _ _ _ _ Hinv b u Hu) as [[x Hx] _]. destruct (i_workers _ _ _ _ _ Hinv b x Hx) as [_ Hok].
      rewrite Hu in Hok. destruct Hok as (_ & _ & _ & _ & _ & Hok). destruct running_lists as [_ ED]; [done|].
      destruct (pc u) as [| | | | | | |[|]| |]; try done; simpl in Hok; destruct Hok as (_ & _ & Hd);
      apply bool_decide_eq_true in Hd; rewrite ED in Hd; by apply not_elem_of_nil in Hd.
  - intros b u. rewrite Hths, Haw. intros [[<- <-]|[? Hu]]%lookup_insert_Some Hpc; [done|]. right. destruct (Jc b u Hu Hpc); tauto.
Qed.

Lemma SetIdleAndReapExited_ok : pc t = PSetIdle -> good (SetIdleAndReapExited w a).
Proof.
  intros Hp. pose proof (worker_pc_ok w A I T D a v t Hinv Hv Ht) as Hok. rewrite Hp in Hok. cbn [pc_ok] in Hok.
  destruct Hok as (Hc & Htk & Hi & Hl & Hd). destruct (i_workers _ _ _ _ _ Hinv a v Hv) as [Ha0 Hwok].
  unfold SetIdleAndReapExited. destruct (shutting_down_ (pool w)) eqn:Hs.
  { rewrite (set_pc_some a _ _ t) by exact Ht. eapply good_intro.
    apply (inv_move_pc w A I T D a v t Hinv Hv Ht); try done; try (by rewrite Hp).
    - cbn [pc_ok]. split_and!; [done..|]. unfold waits. rewrite Hc. simpl. destruct (i_phase _ _ _ _ _ Hinv) as [E _].
      rewrite Hs in E. by destruct (shutdown w).
    - intros l E. by injection E as <-.
    - unfold running. by rewrite Hp. }
  apply shutting_down_spec in Hs. destruct (running_lists Hs) as [ET ED].
  assert (a ∈ A) as HA.
  { unfold listed in Hl. simpl in Hl. rewrite ET, ED in Hl.
    rewrite !(bool_decide_false (a ∈ [])) in Hl by apply not_elem_of_nil. rewrite !orb_false_r in Hl. by apply bool_decide_eq_true in Hl. }
  simpl in Hi. apply bool_decide_eq_false in Hi.
  assert (owned_ v = true) as Ho by (rewrite (proj1 Hwok); simpl; by apply bool_decide_true).
  rewrite (deref_some _ _ _ Hv). cbn [mbind result_bind]. unfold IsIdle. rewrite (deref_some _ _ _ Hv). cbn [mbind result_bind].
  replace (a =? 0) with false by lia. rewrite Ho. cbn [negb andb assert_ mbind result_bind].
  rewrite (IsIdle_loop_ok _ _ I); [|done|apply (i_idle _ _ _ _ _ Hinv)|].
  2:{ pose proof (chain_length idle_next_ _ _ _ (i_nodup_idle _ _ _ _ _ Hinv) (i_idle _ _ _ _ _ Hinv)). unfold store_size. lia. }
  rewrite bool_decide_false by done. cbn [negb andb assert_ mbind result_bind].
  rewrite (modify_some _ _ _ _ Hv). cbn [mbind result_bind]. rewrite (set_pc_some a _ _ t) by exact Ht.
  eapply (good_intro _ A (a :: I) T D). pose proof Hinv as []. pose proof (insert_threads_ids (PReap (join_list_ (pool w)))) as [Hth Hids].
  match goal with |- inv ?x _ _ _ _ => set (w' := x) end. constructor; simpl; try done.
  - by eapply chain_insert_same.
  - split; [done|]. split; [done|]. eexists. rewrite lookup_insert_eq. split; [done|]. simpl. by apply chain_insert_out.
  - by eapply chain_insert_same.
  - by apply NoDup_cons.
  - intros b [->|Hb]%elem_of_cons; [done|by apply i_idle_all0].
  - unfold phase. simpl. rewrite Hs. destruct i_phase0 as [H1 H2]. rewrite Hs in H1, H2. done.
  - refine (workers_frame w w' A I T D A (a :: I) T D a Hinv _ _ _ _); simpl.
    + intros b x Hb Hx. rewrite lookup_insert_ne in Hx by done. exists x. split; [done|apply same_fields_refl].
    + intros b Hb. by rewrite lookup_insert_ne.
    + view_same.
    + intros x Hx. rewrite lookup_insert_eq in Hx. injection Hx as <-. rewrite lookup_insert_eq. split; [done|].
      destruct Hwok as (H1 & H2 & H3 & H4 & H5 & _). unfold worker_ok. simpl in *.
      split_and!; try done.
      * rewrite bool_decide_true by (by left). done.
      * unfold waits. simpl. simpl in Hc. rewrite Hc. intros _. apply bool_decide_true. by left.
  - intros b u Hu. destruct (Hth b u Hu) as [H1 H2]. rewrite lookup_insert_is_Some. split; [|done].
    destruct (decide (a = b)); [by left|by right].
  - intros c Hcc. destruct (i_call0 c Hcc) as [H1 H2]. split; [done|]. rewrite lookup_insert_is_Some.
    destruct (decide (a = rc_worker c)); [by left|by right].
  - by apply joins_reap.
  - destruct i_counts0 as (C1 & C2 & C3 & C4). unfold counts_ok. simpl. rewrite C2, C3, C1, !Z.add_0_r, C4.
    split_and!; counters.
  - rewrite i_tasks0. unfold open_tasks. simpl. rewrite (bag_insert_same pending _ a v _ Hv) by done.
    rewrite (bag_insert_same running _ a t _ Ht) by (unfold running; by rewrite Hp). done.
Qed.

End Idle.


(** ** Released workers *)

Lemma joins_delete w w' A I T D a t :
  inv w A I T D -> threads w !! a = Some t -> threads w' = delete a (threads w) -> (forall l, pc t <> PReap l) ->
  (forall l, shutdown w' = SJoining l <-> shutdown w = SJoining l) -> next_id w' = next_id w ->
  join_list_ (pool w') = join_list_ (pool w) -> joins_ok w'.
Proof.
  intros Hinv Ht Hths Hp Hsd Hnx Hjl. destruct (i_joins _ _ _ _ _ Hinv) as [Jf Jl Ja Jc].
  assert (forall i, awaited w' i <-> awaited w i) as Haw.
  { intros i. unfold awaited. rewrite Hths. setoid_rewrite Hsd. split; (intros [(b & u & l & Hu & Hpc & Hi)|?]; [left|by right]).
    - apply lookup_delete_Some in Hu as [_ Hu]. by exists b, u, l.
    - exists b, u, l. split; [|done]. apply lookup_delete_Some. split; [|done]. intros <-. simplify_eq. by apply (Hp l). }
  constructor.
  - intros i. rewrite Haw, Hjl, Hnx. apply Jf.
  - intros b u. rewrite Hths, Hjl. intros [_ Hu]%lookup_delete_Some. by apply (Jl b).
  - intros b u. rewrite Hths, Haw. intros [_ Hu]%lookup_delete_Some. by apply (Ja b).
  - intros b u. rewrite Hths, Hjl, Haw. intros [_ Hu]%lookup_delete_Some. by apply (Jc b).
Qed.

Lemma delete_ids w A I T D a :
  inv w A I T D ->
  let ths := delete a (threads w) in
  (forall b u, ths !! b = Some u -> is_Some (delete a (workers w) !! b) /\ 0 < join_id u < next_id w) /\
  (forall b c u x, ths !! b = Some u -> ths !! c = Some x -> join_id u = join_id x -> b = c).
Proof.
  intros Hinv. split.
  - intros b u [Hab Hu]%lookup_delete_Some. rewrite lookup_delete_ne by done. by apply (i_threads _ _ _ _ _ Hinv).
  - intros b c u x [_ Hu]%lookup_delete_Some [_ Hx]%lookup_delete_Some. by apply (i_ids _ _ _ _ _ Hinv).
Qed.

Lemma no_call w A I T D a c : inv w A I T D -> find_call a (calls w) = None -> c ∈ calls w -> rc_worker c <> a.
Proof. intros Hinv Hc%find_call_None Hin <-. apply Hc. by apply list_elem_of_fmap_2. Qed.

Section Leave.
Context (w : World) (A I T D : list Z) (a : Z) (v : Worker) (t : Thread).
Hypothesis Hinv : inv w A I T D.
Hypothesis Hv : workers w !! a = Some v.
Hypothesis Ht : threads w !! a = Some t.

Lemma Main_exit_true_ok : pc t = PExit true -> good (Main_exit w a (join_id t) true).
Proof.
  intros Hp. pose proof (worker_pc_ok w A I T D a v t Hinv Hv Ht) as Hok. rewrite Hp in Hok. cbn [pc_ok] in Hok.
  destruct Hok as (Hc & Htk & Hi & Hl). destruct (i_workers _ _ _ _ _ Hinv a v Hv) as [Ha0 Hwok].
  unfold Main_exit. rewrite (deref_some _ _ _ Hv). cbn [mbind result_bind].
  unfold listed in Hl. apply orb_false_elim in Hl as [[Hl1 Hl2]%orb_false_elim Hl3].
  rewrite (proj1 Hwok), Hl1, (proj1 (proj2 Hwok) Hi). cbn [negb andb Z.eqb assert_ mbind result_bind].
  simpl in *. apply bool_decide_eq_false in Hi, Hl1, Hl2, Hl3.
  eapply (good_intro _ A I T D). pose proof Hinv as []. pose proof (delete_ids w A I T D a Hinv) as [Hth Hids].
  match goal with |- inv ?x _ _ _ _ => set (w' := x) end. constructor; simpl; try done.
  - by apply chain_delete_out.
  - by apply chain_delete_out.
  - by apply chain_delete_out.
  - destruct i_phase0 as [H1 H2]. split; [done|]. simpl. destruct (shutdown w) eqn:Esd; try done.
    + destruct H2 as (? & ? & ?). split_and!; [done|done|]. by apply chain_delete_out.
    + destruct H2 as (? & ? & ? & ? & Hths). by rewrite Hths in Ht.
  - refine (workers_frame w w' A I T D A I T D a Hinv _ _ _ _); simpl.
    + intros b x Hb Hx. rewrite lookup_delete_ne in Hx by done. exists x. split; [done|apply same_fields_refl].
    + intros b Hb. by rewrite lookup_delete_ne.
    + done.
    + intros x Hx. by rewrite lookup_delete_eq in Hx.
  - intros c Hcc. destruct (i_call0 c Hcc) as [H1 H2]. split; [done|]. rewrite lookup_delete_ne; [done|].
    intros E. by apply (no_call w A I T D a c Hinv Hc Hcc).
  - eapply (joins_delete w w' A I T D a t); try done. by rewrite Hp.
  - rewrite i_tasks0. unfold open_tasks. simpl.
    rewrite (bag_delete pending (workers w) a v Hv), (bag_delete running (threads w) a t Ht).
    unfold pending at 1, running at 1. by rewrite Hp, Htk.
Qed.

Lemma relinked_lookup set_next l ws ws' b x :
  relinked set_next l a ws ws' -> b <> a -> ws' !! b = Some x ->
  ws !! b = Some x \/ b ∈ l /\ exists y n, ws !! b = Some y /\ x = set_next n y.
Proof.
  intros Hr Hb Hx. destruct (Hr b Hb) as [E|(Hin & y & n & Hy & E)]; [left; congruence|]. right.
  split; [done|]. exists y, n. split; [done|congruence].
Qed.

Lemma relinked_dom set_next l ws ws' x y :
  relinked set_next l a ws ws' -> ws !! a = Some x -> ws' !! a = Some y -> dom ws' = dom ws.
Proof.
  intros Hr Hx Hy. apply set_eq. intros b. rewrite !elem_of_dom. destruct (decide (b = a)) as [->|Hb].
  - rewrite Hx, Hy. by split; eauto.
  - destruct (Hr b Hb) as [->|(_ & u & n & -> & ->)]; by split; eauto.
Qed.

Lemma relinked_chain (next_ : Worker -> Z) set_next l ws ws' x y head m :
  (forall n u, next_ (set_next n u) = next_ u) -> relinked set_next l a ws ws' ->
  ws !! a = Some x -> ws' !! a = Some y -> next_ y = next_ x \/ a ∉ m -> chain next_ ws head m -> chain next_ ws' head m.
Proof.
  intros Hset Hr Hx Hy Ha. apply chain_ext. intros b u Hb Hu. destruct (decide (b = a)) as [->|Hab].
  - exists y. split; [done|]. simplify_eq. by destruct Ha.
  - destruct (Hr b Hab) as [->|(_ & z & n & Hz & ->)]; [by exists u|]. simplify_eq. eexists. split; [done|]. apply Hset.
Qed.

(** The id of the thread that leaves is put in the list. *)
Lemma joins_release w' :
  pc t = PRelease -> shutdown w = SNone ->
  threads w' = <[a := mkThread (join_id t) (PExit true)]> (threads w) -> shutdown w' = SNone -> next_id w' = next_id w ->
  join_list_ (pool w') = join_id t :: join_list_ (pool w) -> joins_ok w'.
Proof.
  intros Hp Hrun Hths Hsd Hnx Hjl. destruct (i_joins _ _ _ _ _ Hinv) as [Jf Jl Ja Jc].
  pose proof (i_threads _ _ _ _ _ Hinv a t Ht) as [_ Hid]. pose proof (i_ids _ _ _ _ _ Hinv) as Hids.
  assert (forall i, awaited w' i <-> awaited w i) as Haw.
  { intros i. unfold awaited. rewrite Hths, Hsd, Hrun. split; (intros [(b & u & l & Hu & Hpc & Hi)|(l & ? & _)]; [left|done]).
    - apply lookup_insert_Some in Hu as [[<- <-]|[? Hu]]; [done|]. by exists b, u, l.
    - exists b, u, l. rewrite lookup_insert_ne; [done|]. intros <-. simplify_eq. congruence. }
  constructor; rewrite ?Hjl.
  - intros i. rewrite Hnx, Haw. intros [[->|?]%elem_of_cons|?]; [lia|apply Jf; by left|apply Jf; by right].
  - intros b u. rewrite Hths. intros [[<- <-]|[Hne Hu]]%lookup_insert_Some; [done|].
    intros [E|Hi]%elem_of_cons; [|by apply (Jl b)]. exfalso. apply Hne. by apply (Hids a b t u).
  - intros b u. rewrite Hths, Haw. intros [[<- <-]|[Hne Hu]]%lookup_insert_Some; [done|]. by apply (Ja b).
  - intros b u. rewrite Hths, Haw. intros [[<- <-]|[Hne Hu]]%lookup_insert_Some Hpc; [left; by left|].
    destruct (Jc b u Hu Hpc); [left; by right|by right].
Qed.

End Leave.


Section Release.
Context (w : World) (A I T D : list Z) (a : Z) (v : Worker) (t : Thread).
Hypothesis Hinv : inv w A I T D.
Hypothesis Hv : workers w !! a = Some v.
Hypothesis Ht : threads w !! a = Some t.

Lemma nodup_all : NoDup A.
Proof. pose proof (i_nodup _ _ _ _ _ Hinv) as H. by apply NoDup_app in H as [H _]. Qed.

(** An idle worker is taken out of both lists. *)
Lemma ReleaseIdleWorker_found :
  shutdown w = SNone -> a ∈ I ->
  exists p ws h, ReleaseIdleWorker w a (join_id t) = Ok (true, set_workers ws (set_pool p w)) /\
    chain all_next_ ws (all_workers_ p) (without a A) /\ chain idle_next_ ws (idle_workers_ p) (without a I) /\
    ws !! a = Some (all_drop h (set_idle_next 0 v)) /\ dom ws = dom (workers w) /\
    (forall b x, b <> a -> ws !! b = Some x ->
       exists y, workers w !! b = Some y /\ same_fields (bool_decide (b ∈ without a I)) y x) /\
    shutting_down_ p = false /\ shutting_down_workers_ p = shutting_down_workers_ (pool w) /\
    join_list_ p = join_id t :: join_list_ (pool w) /\ counts_ok p (without a A) (without a I).
Proof.
  intros Hrun Hin. pose proof Hinv as []. pose proof (i_idle_all0 a Hin) as HinA. pose proof nodup_all as HndA.
  destruct (i_workers0 a v Hv) as [Ha0 Hwok].
  assert (owned_ v = true) as Ho by (rewrite (proj1 Hwok); simpl; by apply bool_decide_true).
  pose proof (proj2 (shutting_down_spec w A I T D Hinv) Hrun) as Hs.
  unfold ReleaseIdleWorker. rewrite Hs, (RemoveWorkerFromIdleList_unlink _ _ _ v) by done.
  destruct (unlink_in idle_next_ set_idle_next (fun _ => set_idle_next 0) ltac:(done) (workers w) (idle_workers_ (pool w)) I a v)
    as (hd1 & ws1 & h1 & -> & Hc1 & Hv1 & Hr1); [done..|].
  cbn [mbind result_bind fst snd]. cbn [negb].
  rewrite (RemoveWorkerFromAllList_unlink _ _ _ (set_idle_next 0 v)) by done.
  assert (chain all_next_ ws1 (all_workers_ (pool w)) A) as HcA by (eapply (relinked_chain a all_next_ set_idle_next I); eauto).
  destruct (unlink_in all_next_ set_all_next all_drop ltac:(done) ws1 (all_workers_ (pool w)) A a (set_idle_next 0 v))
    as (hd2 & ws2 & h2 & Eu & Hc2 & Hv2 & Hr2); [done..|].
  change (all_workers_ (set_idle_workers hd1 (pool w))) with (all_workers_ (pool w)). rewrite Eu.
  cbn [mbind result_bind fst snd assert_]. eexists _, ws2, h2. split; [done|]. simpl.
  split; [done|]. split.
  { eapply (relinked_chain a idle_next_ set_all_next A ws1 ws2); eauto. right. rewrite elem_of_without. tauto. }
  split; [done|]. split.
  { rewrite (relinked_dom a _ _ _ _ _ _ Hr2 Hv1 Hv2). apply (relinked_dom a _ _ _ _ _ _ Hr1 Hv Hv1). }
  split.
  { intros b x Hb Hx. destruct (relinked_lookup a _ _ _ _ _ _ Hr2 Hb Hx) as [Hy|(_ & y & n & Hy & ->)];
    (destruct (relinked_lookup a _ _ _ _ _ _ Hr1 Hb Hy) as [Hz|(Hbi & z & m & Hz & ->)]; [eexists; split; [done|apply same_fields_refl || done]|]);
    exists z; (split; [done|]); repeat split; try done; rewrite bool_decide_true; (done || by apply elem_of_without). }
  split_and!; [done..|]. destruct i_counts0 as (C1 & C2 & C3 & C4).
  pose proof (Permutation_length (without_perm a A HndA HinA)) as EA. pose proof (Permutation_length (without_perm a I i_nodup_idle0 Hin)) as EI.
  unfold counts_ok. simpl. rewrite C1, C2, C3, EA, EI. split_and!; counters.
Qed.

Lemma Loop_release_ok : pc t = PRelease -> good (Loop_release w a (join_id t)).
Proof.
  intros Hp. pose proof (worker_pc_ok w A I T D a v t Hinv Hv Ht) as Hok. rewrite Hp in Hok. cbn [pc_ok] in Hok.
  destruct Hok as (Htk & Hd & Hl & Hw). destruct (i_workers _ _ _ _ _ Hinv a v Hv) as [Ha0 Hwok].
  assert (good (Ok (set_pc a (PWait false) w))) as Hwait.
  { rewrite (set_pc_some a _ _ t) by exact Ht. eapply good_intro. apply (inv_move_pc w A I T D a v t Hinv Hv Ht); try done; try (by rewrite Hp).
    - cbn [pc_ok]. split_and!; [done|by rewrite Hd|done|by left].
    - unfold running. by rewrite Hp. }
  unfold Loop_release. destruct (shutting_down_ (pool w)) eqn:Hs.
  { unfold ReleaseIdleWorker. rewrite Hs. done. }
  apply (shutting_down_spec w A I T D Hinv) in Hs. destruct (running_lists w A I T D Hinv Hs) as [ET ED].
  destruct (decide (a ∈ I)) as [Hin|Hin].
  2:{ unfold ReleaseIdleWorker. rewrite (proj2 (shutting_down_spec w A I T D Hinv) Hs).
      assert (a ∈ A) as HA.
      { unfold listed in Hl. simpl in Hl. rewrite ET, ED in Hl.
        rewrite !(bool_decide_false (a ∈ [])) in Hl by apply not_elem_of_nil. rewrite !orb_false_r in Hl. by apply bool_decide_eq_true in Hl. }
      rewrite (RemoveWorkerFromIdleList_unlink _ _ _ v) by (done || rewrite (proj1 Hwok); simpl; by apply bool_decide_true).
      rewrite (unlink_out idle_next_ _ _ _ _ I a v) by (done || apply Hinv).
      cbn [mbind result_bind fst snd negb]. by destruct w as [[]]. }
  destruct (ReleaseIdleWorker_found Hs Hin) as (p & ws & h & -> & Hca & Hci & Hva & Hdom & Hsame & Hsp & Hsw & Hjl & Hcnt).
  cbn [mbind result_bind]. rewrite (set_pc_some a _ _ t) by exact Ht.
  eapply (good_intro _ (without a A) (without a I) T D). pose proof Hinv as [].
  pose proof (insert_threads_ids w A I T D a t Hinv Ht (PExit true)) as [Hth Hids].
  assert (forall b, is_Some (ws !! b) <-> is_Some (workers w !! b)) as Hsome by (intros b; by rewrite <- !elem_of_dom, Hdom).
  assert (v_call (view w A I T D a) = None) as Hcall.
  { unfold waits in Hw. destruct (v_call _); [|done]. destruct Hw as (_ & Hi & _). simpl in Hi. by apply bool_decide_eq_false in Hi. }
  match goal with |- inv ?x _ _ _ _ => set (w' := x) end. constructor; simpl; try done.
  - rewrite ED, Hsw in *. done.
  - rewrite ET, ED, !app_nil_r in *. by apply NoDup_filter.
  - by apply NoDup_filter.
  - intros b. rewrite !elem_of_without. intros [? ?]. auto.
  - unfold phase. simpl. by rewrite Hs.
  - refine (workers_frame w w' A I T D (without a A) (without a I) T D a Hinv _ _ _ _); simpl.
    + done.
    + intros b Hb. by rewrite lookup_insert_ne.
    + view_same.
    + intros x Hx. rewrite Hva in Hx. injection Hx as <-. rewrite lookup_insert_eq. split; [done|].
      destruct Hwok as (H1 & H2 & H3 & H4 & H5 & _). unfold worker_ok. cbn [pc pc_ok].
      assert (forall l, bool_decide (a ∈ without a l) = false) as Eout.
      { intros l. apply bool_decide_false. rewrite elem_of_without. tauto. }
      unfold listed. simpl in *. rewrite ET, ED in *. rewrite !Eout, (bool_decide_false (a ∈ [])) by apply not_elem_of_nil.
      destruct h; simpl; split_and!; try done.
  - intros b u Hu. rewrite Hsome. by apply (Hth b u).
  - intros c Hc. rewrite Hsome. by apply i_call0.
  - by apply (joins_release w A I T D a t Hinv Ht).
  - rewrite i_tasks0. unfold open_tasks. simpl.
    rewrite (bag_insert_same running _ a t _ Ht) by (unfold running; by rewrite Hp).
    rewrite (bag_ext pending (workers w) ws); [done|done|]. intros b x y Hx Hy. destruct (decide (b = a)) as [->|Hb].
    + simplify_eq. unfold pending. by destruct h.
    + destruct (Hsame b y Hb Hy) as (z & Hz & E & _). simplify_eq. unfold pending. by rewrite E.
Qed.

End Release.


(** A worker leaves the list of those that shut down, and is deleted. *)
Lemma Main_removed_ok w A I T D a v t :
  inv w A I T D -> workers w !! a = Some v -> threads w !! a = Some t -> pc t = PJoined ->
  (forall id cur, shutdown w <> STell id cur) -> good (Main_removed w a).
Proof.
  intros Hinv Hv Ht Hp Hnt. pose proof (worker_pc_ok w A I T D a v t Hinv Hv Ht) as Hok. rewrite Hp in Hok. cbn [pc_ok] in Hok.
  destruct Hok as (Hc & Htk & Hdown). simpl in Hdown. apply bool_decide_eq_true in Hdown.
  destruct (i_workers _ _ _ _ _ Hinv a v Hv) as [Ha0 _]. pose proof Hinv as [].
  assert (exists n, shutdown w = SWait n) as [n Hsd].
  { destruct i_phase0 as [_ Hph]. destruct (shutdown w) eqn:E; try (by eexists); exfalso.
    2:{ by apply (Hnt id current). }
    all: assert (D = []) as -> by tauto; by apply not_elem_of_nil in Hdown. }
  pose proof i_phase0 as [_ Hph]. rewrite Hsd in Hph. destruct Hph as (EA & ET & _).
  assert (I = []) as EI.
  { destruct I as [|i I']; [done|]. pose proof (i_idle_all0 i ltac:(by left)) as Hin. rewrite EA in Hin. by apply not_elem_of_nil in Hin. }
  subst A I T. simpl in i_nodup0.
  unfold Main_removed. rewrite (RemoveWorkerFromShutdownList_unlink _ _ _ v); [|done| |done].
  2:{ intros E. apply (chain_head _ _ _ _ i_down0) in E. subst D. by apply not_elem_of_nil in Hdown. }
  destruct (unlink_in shutdown_next_ set_shutdown_next (fun _ => set_shutdown_next 0) ltac:(done) (workers w) (shutting_down_workers_ (pool w)) D a v)
    as (hd & ws & h & -> & Hc1 & Hv1 & Hr1); [done..|].
  cbn [mbind result_bind fst snd]. unfold notify_exit. simpl. rewrite Hsd.
  eapply (good_intro _ [] [] [] (without a D)). pose proof (delete_ids w [] [] [] D a Hinv) as [Hth Hids].
  pose proof (relinked_dom a _ _ _ _ _ _ Hr1 Hv Hv1) as Hdom.
  assert (forall b, is_Some (delete a ws !! b) <-> is_Some (delete a (workers w) !! b)) as Hsome.
  { intros b. rewrite <- !elem_of_dom, !dom_delete_L, Hdom. done. }
  match goal with |- inv ?x _ _ _ _ => set (w' := x) end. constructor; simpl; try done.
  - apply chain_delete_out; [rewrite elem_of_without; tauto|done].
  - by apply NoDup_filter.
  - split; [|done]. simpl. destruct i_phase0 as [E _]. by rewrite Hsd in E.
  - refine (workers_frame w w' [] [] [] D [] [] [] (without a D) a Hinv _ _ _ _); simpl.
    + intros b x Hb Hx. rewrite lookup_delete_ne in Hx by done.
      destruct (relinked_lookup a _ _ _ _ _ _ Hr1 Hb Hx) as [Hz|(_ & z & m & Hz & ->)]; by eexists.
    + intros b Hb. by rewrite lookup_delete_ne.
    + intros b Hb. unfold view; simpl. rewrite Hsd. simpl. f_equal. apply bool_decide_ext. rewrite elem_of_without. tauto.
    + intros x Hx. by rewrite lookup_delete_eq in Hx.
  - intros b u Hu. rewrite Hsome. by apply (Hth b u).
  - intros c Hcc. destruct (i_call0 c Hcc) as [H1 H2]. split; [done|]. rewrite Hsome, lookup_delete_ne; [done|].
    intros E. by apply (no_call w [] [] [] D a c Hinv Hc Hcc).
  - eapply (joins_delete w w' [] [] [] D a t); try done; [by rewrite Hp|]. simpl. rewrite Hsd. done.
  - rewrite i_tasks0. unfold open_tasks. simpl.
    rewrite (bag_delete pending (workers w) a v Hv), (bag_delete running (threads w) a t Ht).
    unfold pending at 1, running at 1. rewrite Hp, Htk. simpl.
    rewrite (bag_ext pending (delete a (workers w)) (delete a ws)); [done|by rewrite !dom_delete_L, Hdom|].
    intros b x y [Hb Hx]%lookup_delete_Some [_ Hy]%lookup_delete_Some.
    destruct (relinked_lookup a _ _ _ _ _ _ Hr1 ltac:(done) Hy) as [Hz|(_ & z & m & Hz & ->)]; by simplify_eq.
Qed.

(** ** Every section of a worker's thread *)

Lemma worker_step_ok w A I T D a t r :
  inv w A I T D -> threads w !! a = Some t -> worker_step w a t = Some r -> good r.
Proof.
  intros Hinv Ht Hstep. destruct (i_threads _ _ _ _ _ Hinv a t Ht) as [[v Hv] _].
  pose proof (worker_pc_ok w A I T D a v t Hinv Hv Ht) as Hpc.
  unfold worker_step in Hstep. destruct (pc t) as [| | | |l|n| |rel| |] eqn:Hp; simplify_eq.
  - eapply Main_enter_ok; eauto.
  - eapply (Loop_take_ok w A I T D a v t Hinv Hv Ht false); [by left|]. by destruct Hpc as (_ & ? & _).
  - eapply Loop_finished_ok; eauto.
  - eapply SetIdleAndReapExited_ok; eauto.
  - destruct (joined w l) eqn:Hj; simplify_eq. eapply end_reap_ok; eauto.
  - destruct n; simplify_eq. eapply Loop_wake_ok; eauto.
  - eapply Loop_release_ok; eauto.
  - destruct rel; [eapply Main_exit_true_ok|eapply Main_exit_false_ok]; eauto.
  - eapply Main_clear_id_ok; eauto.
  - destruct (shutdown w) eqn:Hsd; simplify_eq; (eapply Main_removed_ok; eauto; by rewrite Hsd).
Qed.

End ThreadPoolInv.
