(* ===== verification/ThreadPoolSteps.v ===== *)
(** * Run and Shutdown keep the invariant of the thread pool

    The sections of the calls of [Run] and of the thread that runs [Shutdown], and
    the step of the system: [perform] does not fail and keeps the invariant. *)

From stdpp Require Import base numbers list gmap sorting.
From Stdlib Require Import ZArith Lia.
From S2P Require Import Prelude ThreadPool ThreadPoolLists ThreadPoolInv.

Local Open Scope Z_scope.
Local Open Scope mach_scope.

Module ThreadPoolSteps.
Import ThreadPool ThreadPoolLists ThreadPoolInv.

(** ** Run *)

Lemma joins_same w w' :
  threads w' = threads w -> shutdown w' = shutdown w -> next_id w' = next_id w ->
  join_list_ (pool w') = join_list_ (pool w) -> joins_ok w -> joins_ok w'.
Proof.
  intros E1 E2 E3 E4 [Jf Jl Ja Jc]. assert (forall i, awaited w' i <-> awaited w i) as Haw by (intros i; unfold awaited; by rewrite E1, E2).
  constructor; intros *; rewrite ?E1, ?E3, ?E4, ?Haw; eauto.
Qed.

(** A worker that is idle waits, and no call has chosen it. *)
Lemma idle_waits w A I T D a :
  inv w A I T D -> a ∈ I ->
  exists v t, workers w !! a = Some v /\ threads w !! a = Some t /\ task_ v = 0 /\ find_call a (calls w) = None /\
    match pc t with PReap _ | PRelease | PWait false => True | _ => False end.
Proof.
  intros Hinv Hin. pose proof Hinv as []. destruct (chain_elem _ _ _ _ _ i_idle0 Hin) as [Ha0 [v Hv]].
  destruct (i_workers0 a v Hv) as [_ (_ & _ & _ & _ & Hd & Hok)]. pose proof (bool_decide_true _ Hin) as Ei.
  pose proof (bool_decide_true _ (i_idle_all0 a Hin)) as Ea. simpl in Hd. rewrite Ea in Hd. specialize (Hd eq_refl).
  destruct (threads w !! a) as [t|] eqn:Ht; [|destruct Hok as (_ & Hi & _); simpl in Hi; congruence].
  exists v, t. split; [done|]. split; [done|]. unfold pc_ok, waits in Hok. simpl in Hok. rewrite Ei in Hok.
  destruct (pc t) as [| | | |l|[]| |[]| |] eqn:Hp; try (exfalso; intuition congruence).
  - destruct Hok as (? & _ & _ & Hw). destruct (find_call a (calls w)); [by destruct Hw as (_ & ? & _)|done].
  - destruct Hok as (_ & _ & H & [[H1 _]|(_ & _ & ? & _)]); [|done]. destruct (H eq_refl); [lia|congruence].
  - destruct Hok as (_ & _ & _ & [[? Hw]|(_ & _ & ? & _)]); [|done]. destruct (find_call a (calls w)); [by destruct Hw as (_ & ? & _)|done].
  - destruct Hok as (? & _ & _ & Hw). destruct (find_call a (calls w)); [by destruct Hw as (_ & ? & _)|done].
  - apply bool_decide_eq_true in Ea. destruct Hok as (_ & _ & Hdn). exfalso. apply bool_decide_eq_true in Hdn.
    apply NoDup_app in i_nodup0 as (_ & Hdis & _). apply (Hdis a Ea). by apply elem_of_app; right.
  - apply bool_decide_eq_true in Ea. destruct Hok as (_ & _ & Hdn). exfalso. apply bool_decide_eq_true in Hdn.
    apply NoDup_app in i_nodup0 as (_ & Hdis & _). apply (Hdis a Ea). by apply elem_of_app; right.
  - apply bool_decide_eq_true in Ea. destruct Hok as (_ & _ & Hdn). exfalso. apply bool_decide_eq_true in Hdn.
    apply NoDup_app in i_nodup0 as (_ & Hdis & _). apply (Hdis a Ea). by apply elem_of_app; right.
Qed.

Lemma Run_new_ok w A I T D task fresh :
  inv w A I T D -> shutdown w = SNone -> idle_workers_ (pool w) = 0 -> 0 < task -> 0 < fresh -> workers w !! fresh = None ->
  good (r ← Run_lock w task fresh; Ok r.2).
Proof.
  intros Hinv Hs Hi0 Htask Hf Hfr. pose proof Hinv as []. destruct (running_lists w A I T D Hinv Hs) as [-> ->].
  unfold Run_lock. rewrite (proj2 (shutting_down_spec w A I [] [] Hinv) Hs), Hi0, Z.eqb_refl.
  replace (fresh =? 0) with false by lia. cbn [negb assert_ mbind result_bind snd].
  assert (I = []) as -> by (by apply (chain_head _ _ _ _ i_idle0)).
  assert (threads w !! fresh = None) as Hft.
  { destruct (threads w !! fresh) as [t|] eqn:E; [|done]. destruct (i_threads0 _ _ E) as [[? ?] _]. congruence. }
  assert (find_call fresh (calls w) = None) as Hfc.
  { destruct (find_call fresh (calls w)) as [c|] eqn:E; [|done]. apply find_call_Some in E as [Hin <-].
    destruct (i_call0 c Hin) as [_ [? ?]]. congruence. }
  assert (fresh ∉ A) as HfA.
  { intros Hin. destruct (chain_elem _ _ _ _ _ i_all0 Hin) as [_ [? ?]]. congruence. }
  eapply (good_intro _ (fresh :: A) [] [] []).
  match goal with |- inv ?x _ _ _ _ => set (w' := x) end. constructor; simpl; try done.
  - split; [done|]. split; [done|]. eexists. rewrite lookup_insert_eq. split; [done|]. simpl. by apply chain_insert_out.
  - rewrite app_nil_r in *. by apply NoDup_cons.
  - intros b []%not_elem_of_nil.
  - destruct i_phase0 as [E _]. rewrite Hs in E. unfold phase. simpl. rewrite Hs. split_and!; done.
  - refine (workers_frame w w' A [] [] [] (fresh :: A) [] [] [] fresh Hinv _ _ _ _); simpl.
    + intros b x Hb Hx. rewrite lookup_insert_ne in Hx by done. exists x. split; [done|apply same_fields_refl].
    + done.
    + intros b Hb. unfold view; simpl. replace (fresh =? b) with false by lia. f_equal. apply bool_decide_ext. rewrite elem_of_cons. intuition congruence.
    + intros x Hx. rewrite lookup_insert_eq in Hx. injection Hx as <-. split; [done|]. rewrite Hft.
      unfold worker_ok, listed. simpl. rewrite Z.eqb_refl, (bool_decide_true (fresh ∈ fresh :: A)) by (by left).
      split_and!; try done. by eexists.
  - intros b u Hu. destruct (i_threads0 b u Hu). rewrite lookup_insert_is_Some. split; [|done]. destruct (decide (fresh = b)); [by left|by right].
  - apply NoDup_cons. split; [by apply find_call_None|done].
  - intros c [->|Hc]%elem_of_cons; simpl; rewrite lookup_insert_is_Some; [split; [done|by left]|].
    destruct (i_call0 c Hc) as [H1 H2]. split; [done|]. destruct (decide (fresh = rc_worker c)); [by left|by right].
  - by apply (joins_same w).
  - destruct i_counts0 as (C1 & C2 & C3 & C4). unfold counts_ok. simpl. rewrite C1, C2, C3. split_and!; counters.
  - rewrite i_tasks0. unfold open_tasks, w'. cbn [calls workers threads]. rewrite waiting_calls_cons. simpl. rewrite (bag_insert_new pending) by done.
    simpl. solve_Permutation.
Qed.

Lemma Run_idle_ok w A I T D task fresh :
  inv w A I T D -> shutdown w = SNone -> idle_workers_ (pool w) <> 0 -> 0 < task ->
  good (r ← Run_lock w task fresh; Ok r.2).
Proof.
  intros Hinv Hs Hi0 Htask. pose proof Hinv as [].
  unfold Run_lock. rewrite (proj2 (shutting_down_spec w A I T D Hinv) Hs). replace (idle_workers_ (pool w) =? 0) with false by lia.
  destruct I as [|a I]; [by simpl in i_idle0|]. pose proof i_idle0 as (-> & Ha0 & v & Hv & Hci).
  destruct (idle_waits w A (a :: I) T D a Hinv ltac:(by left)) as (v' & t & Hv' & Ht & Htk & Hfc & Hpc). simplify_eq.
  rewrite (deref_some _ _ _ Hv). cbn [mbind result_bind]. rewrite (modify_some _ _ _ _ Hv). cbn [mbind result_bind snd].
  apply NoDup_cons in i_nodup_idle0 as [HaI HndI]. pose proof (i_idle_all0 a ltac:(by left)) as HaA.
  eapply (good_intro _ A I T D).
  match goal with |- inv ?x _ _ _ _ => set (w' := x) end. constructor; simpl; try done.
  - by eapply chain_insert_same.
  - by apply chain_insert_out.
  - by eapply chain_insert_same.
  - intros b Hb. apply i_idle_all0. by right.
  - destruct i_phase0 as [E1 E2]. rewrite Hs in E1, E2. unfold phase. simpl. rewrite Hs. done.
  - refine (workers_frame w w' A (a :: I) T D A I T D a Hinv _ _ _ _); simpl.
    + intros b x Hb Hx. rewrite lookup_insert_ne in Hx by done. exists x. split; [done|apply same_fields_refl].
    + done.
    + intros b Hb. unfold view; simpl. replace (a =? b) with false by lia. f_equal. apply bool_decide_ext. rewrite elem_of_cons. intuition congruence.
    + intros x Hx. rewrite lookup_insert_eq in Hx. injection Hx as <-. split; [done|].
      destruct (i_workers0 a v Hv) as [_ (H1 & H2 & H3 & H4 & H5 & H6)]. rewrite Ht in H6 |- *.
      unfold worker_ok. simpl in *. split_and!; try done.
      assert (waits (view w' A I T D a)) as Hw.
      { unfold waits. simpl. rewrite Z.eqb_refl, Hs. split_and!; try done. by apply bool_decide_false. }
      destruct (pc t) as [| | | |l|[]| |[]| |] eqn:Hp; try done; simpl in H6 |- *; unfold listed in *; simpl in *; try (by intuition).
  - intros b u Hu. destruct (i_threads0 b u Hu). rewrite lookup_insert_is_Some. split; [|done]. destruct (decide (a = b)); [by left|by right].
  - apply NoDup_cons. split; [by apply find_call_None|done].
  - intros c [->|Hc]%elem_of_cons; simpl; rewrite lookup_insert_is_Some; [split; [done|by left]|].
    destruct (i_call0 c Hc) as [H1 H2]. split; [done|]. destruct (decide (a = rc_worker c)); [by left|by right].
  - by apply (joins_same w).
  - destruct i_counts0 as (C1 & C2 & C3 & C4). unfold counts_ok. simpl. rewrite C1, C2, C3. split_and!; counters.
  - rewrite i_tasks0. unfold open_tasks, w'. cbn [calls workers threads]. rewrite waiting_calls_cons. simpl. rewrite (bag_insert_same pending _ a v _ Hv) by done.
    simpl. solve_Permutation.
Qed.


Section Calls.
Context (w : World) (A I T D : list Z) (a : Z) (v : Worker) (c : RunCall).
Hypothesis Hinv : inv w A I T D.
Hypothesis Hv : workers w !! a = Some v.
Hypothesis Hc : find_call a (calls w) = Some c.

Lemma call_worker : rc_worker c = a /\ 0 < rc_task c /\ c ∈ calls w.
Proof. apply find_call_Some in Hc as [Hin <-]. split_and!; [done| |done]. by apply (i_call _ _ _ _ _ Hinv). Qed.

Lemma remove_call_in d : d ∈ remove_call a (calls w) -> d ∈ calls w.
Proof. intros Hd. rewrite (remove_call_perm a (calls w) c Hc). by right. Qed.

(** The thread of a new worker starts. *)
Lemma StartThread_ok :
  rc_set c = true -> good (w2 ← StartThread w a; Ok (set_calls (remove_call a (calls w)) w2)).
Proof.
  intros Hset. pose proof Hinv as []. destruct call_worker as (Hcw & Hct & Hcin).
  destruct (i_workers0 a v Hv) as [Ha0 (H1 & H2 & H3 & H4 & H5 & H6)].
  destruct (threads w !! a) as [t|] eqn:Ht.
  { exfalso. unfold pc_ok, waits in H6. simpl in H6. rewrite Hc in H6. destruct (pc t) as [| | | |l|[]| |[]| |]; intuition congruence. }
  destruct H6 as (Hl & Hi & c' & Hc' & Hnew & Htk). simpl in Hc'. rewrite Hc in Hc'. injection Hc' as <-. rewrite Hset in Htk.
  unfold StartThread. rewrite (deref_some _ _ _ Hv). cbn [mbind result_bind]. replace (task_ v =? 0) with false by lia.
  cbn [negb assert_ mbind result_bind]. pose proof (remove_call_notin a _ c i_calls0 Hc) as Hnot.
  eapply (good_intro _ A I T D).
  match goal with |- inv ?x _ _ _ _ => set (w' := x) end. constructor; simpl; try done.
  - destruct i_phase0 as [E1 E2]. split; [done|]. simpl. destruct (shutdown w); try done. exfalso.
    destruct E2 as (-> & -> & -> & _). unfold listed in Hl. simpl in Hl. done.
  - refine (workers_frame w w' A I T D A I T D a Hinv _ _ _ _); simpl.
    + intros b x Hb Hx. exists x. split; [done|apply same_fields_refl].
    + intros b Hb. by rewrite lookup_insert_ne.
    + intros b Hb. unfold view. simpl. by rewrite find_call_remove_ne.
    + intros x Hx. simplify_eq. rewrite lookup_insert_eq. split; [done|]. unfold worker_ok. simpl. split_and!; try done; [|lia].
      by apply find_call_None.
  - intros b u [[<- <-]|[? Hu]]%lookup_insert_Some; simpl; [split; [by eexists|lia]|]. destruct (i_threads0 b u Hu). split; [done|lia].
  - intros b d u x [[<- <-]|[? Hu]]%lookup_insert_Some [[<- <-]|[? Hx]]%lookup_insert_Some; simpl; intros E; try done; eauto.
    + destruct (i_threads0 _ _ Hx). lia.
    + destruct (i_threads0 _ _ Hu). lia.
  - by apply remove_call_NoDup.
  - intros d Hd%remove_call_in. by apply i_call0.
  - lia.
  - destruct i_joins0 as [Jf Jl Ja Jc]. 
    assert (forall i, awaited w' i <-> awaited w i) as Haw.
    { intros i. unfold awaited. simpl. split; (intros [(b & u & l & Hu & Hpc & Hin)|?]; [left|by right]).
      - apply lookup_insert_Some in Hu as [[<- <-]|[? Hu]]; [done|]. by exists b, u, l.
      - exists b, u, l. rewrite lookup_insert_ne; [done|]. intros <-. congruence. }
    constructor; simpl; intros *; rewrite ?Haw.
    + intros Hx%Jf. lia.
    + intros [[<- <-]|[? Hu]]%lookup_insert_Some; [|by apply (Jl a0)]. simpl. intros Hx. pose proof (Jf _ (or_introl Hx)). lia.
    + intros [[<- <-]|[? Hu]]%lookup_insert_Some; [|by apply (Ja a0)]. simpl. intros Hx. pose proof (Jf _ (or_intror Hx)). lia.
    + intros [[<- <-]|[? Hu]]%lookup_insert_Some; [done|by apply (Jc a0)].
  - rewrite i_tasks0. unfold open_tasks, w'. cbn [calls workers threads set_calls].
    rewrite (waiting_calls_remove a _ c Hc), Hset. rewrite (bag_insert_new running) by done. done.
Qed.

(** A new worker gets its first task. *)
Lemma SetTask_new_ok :
  rc_set c = false -> threads w !! a = None ->
  good (w2 ← SetTask w a (rc_task c); Ok (set_calls (mkRunCall (rc_task c) a true true :: remove_call a (calls w)) w2)).
Proof.
  intros Hset Ht. pose proof Hinv as []. destruct call_worker as (Hcw & Hct & Hcin).
  destruct (i_workers0 a v Hv) as [Ha0 (H1 & H2 & H3 & H4 & H5 & H6)]. rewrite Ht in H6.
  destruct H6 as (Hl & Hi & c' & Hc' & Hnew & Htk). simpl in Hc'. rewrite Hc in Hc'. injection Hc' as <-. rewrite Hset in Htk.
  unfold SetTask. rewrite (deref_some _ _ _ Hv). cbn [mbind result_bind]. rewrite Htk, Z.eqb_refl.
  cbn [negb assert_ mbind result_bind]. rewrite (modify_some _ _ _ _ Hv). cbn [mbind result_bind].
  unfold notify. cbn [threads set_workers]. rewrite Ht. pose proof (remove_call_notin a _ c i_calls0 Hc) as Hnot.
  eapply (good_intro _ A I T D).
  match goal with |- inv ?x _ _ _ _ => set (w' := x) end. constructor; simpl; try done.
  - by eapply chain_insert_same.
  - by eapply chain_insert_same.
  - by eapply chain_insert_same.
  - destruct i_phase0 as [E1 E2]. split; [done|]. simpl. destruct (shutdown w); try done.
    destruct E2 as (? & ? & ?). split_and!; [done..|]. by eapply chain_insert_same.
  - refine (workers_frame w w' A I T D A I T D a Hinv _ _ _ _); simpl.
    + intros b x Hb Hx. rewrite lookup_insert_ne in Hx by done. exists x. split; [done|apply same_fields_refl].
    + done.
    + intros b Hb. unfold view. simpl. rewrite find_call_remove_ne by done. by replace (a =? b) with false by lia.
    + intros x Hx. rewrite lookup_insert_eq in Hx. injection Hx as <-. split; [done|]. unfold worker_ok. rewrite Ht. simpl.
      split_and!; try done. eexists. by rewrite Z.eqb_refl.
  - intros b u Hu. destruct (i_threads0 b u Hu). rewrite lookup_insert_is_Some. split; [|done]. destruct (decide (a = b)); [by left|by right].
  - apply NoDup_cons. split; [done|by apply remove_call_NoDup].
  - intros d [->|Hd%remove_call_in]%elem_of_cons; simpl; rewrite lookup_insert_is_Some; [split; [done|by left]|].
    destruct (i_call0 d Hd) as [? ?]. split; [done|]. destruct (decide (a = rc_worker d)); [by left|by right].
  - by apply (joins_same w).
  - rewrite i_tasks0. unfold open_tasks, w'. cbn [calls workers threads set_calls set_workers].
    rewrite (waiting_calls_remove a _ c Hc), Hset, waiting_calls_cons. rewrite (bag_insert pending), (bag_delete pending _ a v Hv).
    unfold pending at 1 3. rewrite Htk. simpl. unfold one. replace (rc_task c =? 0) with false by lia. simpl. solve_Permutation.
Qed.

(** A worker that waits gets a task and is woken. *)
Lemma SetTask_idle_ok t n :
  threads w !! a = Some t -> pc t = PWait n ->
  good (w2 ← SetTask w a (rc_task c); Ok (set_calls (remove_call a (calls w)) w2)).
Proof.
  intros Ht Hp. pose proof Hinv as []. destruct call_worker as (Hcw & Hct & Hcin).
  destruct (i_workers0 a v Hv) as [Ha0 (H1 & H2 & H3 & H4 & H5 & H6)]. rewrite Ht, Hp in H6. cbn [pc_ok] in H6.
  destruct H6 as (Hl & Hdn & Hn & [[Htk Hw]|(_ & E & _)]); [|simpl in E; congruence].
  unfold waits in Hw. simpl in Hw. rewrite Hc in Hw. destruct Hw as (Hrun & Hi & Hnew & Hset).
  unfold SetTask. rewrite (deref_some _ _ _ Hv). cbn [mbind result_bind]. rewrite Htk, Z.eqb_refl.
  cbn [negb assert_ mbind result_bind]. rewrite (modify_some _ _ _ _ Hv). cbn [mbind result_bind].
  unfold notify. cbn [threads set_workers]. rewrite Ht. destruct t as [j pt]. simpl in Hp. subst pt.
  pose proof (remove_call_notin a _ c i_calls0 Hc) as Hnot.
  pose proof (insert_threads_ids w A I T D a _ Hinv Ht (PWait true)) as [Hth Hids]. simpl in Hth, Hids.
  eapply (good_intro _ A I T D).
  match goal with |- inv ?x _ _ _ _ => set (w' := x) end. constructor; simpl; try done.
  - by eapply chain_insert_same.
  - by eapply chain_insert_same.
  - by eapply chain_insert_same.
  - destruct i_phase0 as [E1 E2]. split; [done|]. simpl. by destruct (shutdown w).
  - refine (workers_frame w w' A I T D A I T D a Hinv _ _ _ _); simpl.
    + intros b x Hb Hx. rewrite lookup_insert_ne in Hx by done. exists x. split; [done|apply same_fields_refl].
    + intros b Hb. by rewrite lookup_insert_ne.
    + intros b Hb. unfold view. simpl. by rewrite find_call_remove_ne.
    + intros x Hx. rewrite lookup_insert_eq in Hx. injection Hx as <-. rewrite lookup_insert_eq. split; [done|]. unfold worker_ok. simpl.
      split_and!; try done; [intros _; by left|]. right. split_and!; try done. by apply find_call_None.
  - intros b u Hu. destruct (Hth b u Hu). rewrite lookup_insert_is_Some. split; [|done]. destruct (decide (a = b)); [by left|by right].
  - by apply remove_call_NoDup.
  - intros d Hd%remove_call_in. rewrite lookup_insert_is_Some.
    destruct (i_call0 d Hd) as [? ?]. split; [done|]. destruct (decide (a = rc_worker d)); [by left|by right].
  - apply (joins_local w w' A I T D a Hinv (mkThread j (PWait n)) (PWait true)); try done. by left.
  - rewrite i_tasks0. unfold open_tasks, w'. cbn [calls workers threads set_calls set_workers set_threads].
    rewrite (waiting_calls_remove a _ c Hc), Hset. rewrite (bag_insert pending), (bag_delete pending _ a v Hv).
    rewrite (bag_insert_same running _ a _ _ Ht) by done.
    unfold pending at 1 3. rewrite Htk. simpl. unfold one. replace (rc_task c =? 0) with false by lia. simpl. solve_Permutation.
Qed.

Lemma call_step_ok r : call_step w c = Some r -> good r.
Proof.
  destruct call_worker as (Hcw & Hct & Hcin). unfold call_step. rewrite Hcw. destruct (rc_set c) eqn:Hset.
  { intros [= <-]. by apply StartThread_ok. }
  unfold monitor_free. destruct (i_workers _ _ _ _ _ Hinv a v Hv) as [Ha0 (_ & _ & _ & _ & _ & H6)].
  destruct (threads w !! a) as [t|] eqn:Ht.
  - unfold pc_ok, waits in H6. simpl in H6. rewrite Hc in H6.
    destruct (pc t) as [| | | |l|n| |[]| |] eqn:Hp; try (exfalso; intuition congruence); simpl; intros [= <-].
    assert (rc_new c = false) as -> by intuition congruence. by apply (SetTask_idle_ok t n).
  - destruct H6 as (_ & _ & c' & Hc' & Hnew & _). simpl in Hc'. rewrite Hc in Hc'. injection Hc' as <-. rewrite Hnew.
    intros [= <-]. by apply SetTask_new_ok.
Qed.

End Calls.


(** ** Shutdown *)

Definition cleared (v : Worker) : Worker := set_owned false (set_idle_next 0 v).

Lemma disown_ok fuel ws stopped current l :
  NoDup l -> chain all_next_ ws current l -> u64 stopped = stopped -> (length l < fuel)%nat ->
  exists ws', disown fuel ws stopped current = Ok (ws', u64 (stopped + Z.of_nat (length l))) /\
    forall b, ws' !! b = if decide (b ∈ l) then cleared <$> ws !! b else ws !! b.
Proof.
  revert fuel ws stopped current. induction l as [|a l IH]; intros [|fuel] ws stopped current Hnd Hc Hs Hf; simpl in Hf; try lia.
  - simpl in Hc. subst current. exists ws. cbn [disown Z.eqb length]. rewrite Z.add_0_r, Hs. split; [done|]. intros b. by rewrite decide_False by apply not_elem_of_nil.
  - destruct Hc as (-> & Ha & v & Hv & Hc). apply NoDup_cons in Hnd as [Hal Hnd]. cbn [disown]. replace (a =? 0) with false by lia.
    rewrite (deref_some _ _ _ Hv). cbn [mbind result_bind]. rewrite (modify_some _ _ _ _ Hv). cbn [mbind result_bind].
    destruct (IH fuel (<[a := cleared v]> ws) (u64 (stopped + 1)) (all_next_ v)) as (ws' & E & Hws'); [done|by apply chain_insert_out| |lia|].
    { unfold wrapU. by rewrite Zmod_mod. }
    exists ws'. unfold cleared in E at 1. rewrite E. split; [f_equal; f_equal; counters|].
    intros b. rewrite Hws'. destruct (decide (a = b)) as [<-|Hab].
    + rewrite (decide_False (P := a ∈ l)), (decide_True (P := a ∈ a :: l)), lookup_insert_eq, Hv; [done|by left|done].
    + rewrite lookup_insert_ne by done. destruct (decide (b ∈ l)) as [Hin|Hin].
      * rewrite decide_True; [done|by right].
      * rewrite decide_False; [done|]. rewrite elem_of_cons. intuition congruence.
Qed.

(** The lists of the pool move to the thread that shuts it down. *)
Lemma worker_ok_shutdown w w' A I a v :
  inv w A I [] [] -> shutdown w = SNone -> shutdown w' <> SNone -> calls w' = calls w -> Forall (fun c => rc_new c = true) (calls w) ->
  workers w !! a = Some v ->
  worker_ok (view w' [] [] A [] a) (if decide (a ∈ A) then cleared v else v) (threads w !! a).
Proof.
  intros Hinv Hs Hs' Hcalls Hnew Hv. pose proof Hinv as []. destruct (i_workers0 a v Hv) as [Ha0 (H1 & H2 & H3 & H4 & H5 & H6)].
  assert (is_running (shutdown w') = false) as Er by (by destruct (shutdown w')).
  assert (forall c, find_call a (calls w) = Some c -> rc_new c = true) as Hn.
  { intros c [Hc _]%find_call_Some. by rewrite Forall_forall in Hnew; apply Hnew. }
  set (u := if decide (a ∈ A) then cleared v else v).
  assert (task_ u = task_ v /\ done_ u = done_ v /\ id_ u = id_ v /\ owned_ u = false /\ idle_next_ u = 0) as (E1 & E2 & E3 & E4 & E5).
  { subst u. simpl in H1, H2. destruct (decide (a ∈ A)) as [Ha|Ha]; [done|].
    rewrite bool_decide_false in H1 by done. rewrite bool_decide_false in H2 by (intros Hi; by apply Ha, i_idle_all0). split_and!; [done..|by apply H2]. }
  unfold worker_ok. rewrite E2, E3, E4, E5. simpl in *. rewrite orb_false_r in H5. split_and!; try done.
  destruct (threads w !! a) as [t|].
  - unfold pc_ok, waits, listed in *. simpl in *. rewrite E1, E2, Hcalls, Er. rewrite orb_false_r in H6.
    destruct (find_call a (calls w)) as [c|] eqn:Hc.
    + rewrite (Hn c eq_refl) in H6. destruct (pc t) as [| | | |l|[]| |[]| |]; intuition congruence.
    + destruct (pc t) as [| | | |l|[]| |[]| |]; intuition congruence.
  - unfold listed in *. simpl in *. rewrite orb_false_r in H6. destruct H6 as (Hl & _ & c & Hc & Hcn & Htk). split_and!; try done.
    exists c. by rewrite Hcalls, E1.
Qed.

Lemma Shutdown_lock_ok w A I T D id :
  inv w A I T D -> shutdown w = SNone -> id < 0 -> forallb rc_new (calls w) = true -> good (Shutdown_lock w id).
Proof.
  intros Hinv Hs Hid Hnew. pose proof Hinv as []. destruct (running_lists w A I T D Hinv Hs) as [-> ->].
  pose proof (nodup_all w A I [] [] Hinv) as HndA. destruct i_counts0 as (C1 & C2 & C3 & C4).
  unfold Shutdown_lock. destruct (disown_ok (S (store_size (workers w))) (workers w) (count_stopped_ (pool w)) (all_workers_ (pool w)) A)
    as (ws & -> & Hws); [done..| |].
  { pose proof (chain_length all_next_ _ _ _ HndA i_all0). unfold store_size. lia. }
  cbn [mbind result_bind]. rewrite <- C1, Z.eqb_refl. cbn [assert_ mbind result_bind].
  assert (forall b, is_Some (ws !! b) <-> is_Some (workers w !! b)) as Hsome.
  { intros b. rewrite Hws. destruct (decide (b ∈ A)); [|done]. by rewrite fmap_is_Some. }
  eapply (good_intro _ [] [] A []).
  match goal with |- inv ?x _ _ _ _ => set (w' := x) end. constructor; simpl; try done.
  - constructor.
  - split; [done|]. split_and!; [done|done|]. simpl. eapply chain_ext; [|exact i_all0]. intros b x Hb Hx.
    exists (cleared x). by rewrite Hws, decide_True, Hx.
  - intros b x Hx. assert (is_Some (workers w !! b)) as [y Hy] by (apply Hsome; by eexists).
    split; [by apply (i_workers0 b y)|]. rewrite Hws, Hy in Hx.
    pose proof (worker_ok_shutdown w w' A I b y Hinv Hs ltac:(done) eq_refl) as H. rewrite Forall_forall in H.
    replace x with (if decide (b ∈ A) then cleared y else y); [|clear H; destruct (decide (b ∈ A)); simpl in Hx; congruence]. apply H; [|done].
    intros c Hc. rewrite forallb_forall in Hnew. apply Hnew. by apply list_elem_of_In.
  - intros b u. rewrite Hsome. apply i_threads0.
  - intros c. rewrite Hsome. apply i_call0.
  - destruct i_joins0 as [Jf Jl Ja Jc].
    assert (forall i, awaited w' i <-> awaited w i) as Haw.
    { intros i. unfold awaited. rewrite Hs. simpl. split; (intros [?|(l & ? & _)]; [by left|done]). }
    constructor; simpl; intros *; rewrite ?Haw; eauto.
  - unfold counts_ok. simpl. rewrite C1. split_and!; counters.
  - rewrite i_tasks0. unfold open_tasks, w'. cbn [calls workers threads set_shutdown set_workers set_pool].
    rewrite (bag_ext pending (workers w) ws); [done| |].
    + apply set_eq. intros b. rewrite !elem_of_dom. by rewrite Hsome.
    + intros b x y Hx Hy. rewrite Hws, Hx in Hy. destruct (decide (b ∈ A)); simpl in Hy; by injection Hy as <-.
Qed.


(** [notify] changes at most the thread of the worker, and only its wait. *)
Lemma notify_spec a w :
  exists ths, notify a w = set_threads ths w /\
    ((exists t n, threads w !! a = Some t /\ pc t = PWait n /\ ths = <[a := mkThread (join_id t) (PWait true)]> (threads w)) \/
     (ths = threads w /\ forall t n, threads w !! a = Some t -> pc t <> PWait n)).
Proof.
  unfold notify. destruct (threads w !! a) as [[j p]|] eqn:Ht.
  - destruct p; try (exists (threads w); split; [by destruct w|right; split; [done|]; intros t n [= <-]; done]).
    eexists. split; [done|]. left. eexists _, _. split; [done|]. done.
  - exists (threads w). split; [by destruct w|]. by right.
Qed.

(** A worker is told to shut down. *)
Lemma Shutdown_tell_ok w A I T D id current :
  inv w A I T D -> shutdown w = STell id current -> current <> 0 -> monitor_free w current = true -> good (Shutdown_tell w id current).
Proof.
  intros Hinv Hs Hcur Hfree. pose proof Hinv as []. pose proof i_phase0 as [Esd Hph]. rewrite Hs in Esd, Hph. destruct Hph as (-> & Hid & HcT).
  destruct T as [|a T]; [by simpl in HcT|]. pose proof HcT as (-> & Ha0 & v & Hv & HcT').
  assert (I = []) as ->.
  { destruct I as [|i I']; [done|]. pose proof (i_idle_all0 i ltac:(by left)) as Hin. by apply not_elem_of_nil in Hin. }
  simpl in i_nodup0. apply NoDup_cons in i_nodup0 as [HaTD HndTD]. rewrite elem_of_app in HaTD.
  destruct (i_workers0 a v Hv) as [_ (H1 & H2 & H3 & H4 & H5 & H6)].
  unfold Shutdown_tell. rewrite (deref_some _ _ _ Hv). cbn [mbind result_bind]. replace (id_ v =? id) with false by lia.
  unfold AddWorkerToShutdownList. cbn [negb]. rewrite (modify_some _ _ _ _ Hv). cbn [mbind result_bind].
  rewrite (modify_some _ _ _ (set_shutdown_next (shutting_down_workers_ (pool w)) v)) by (by rewrite lookup_insert_eq).
  cbn [mbind result_bind]. rewrite insert_insert_eq. set (v' := set_done true _).
  match goal with |- context [notify a ?x] => destruct (notify_spec a x) as (ths & -> & Hths) end. cbn [threads set_workers set_pool] in Hths.
  assert (forall b, b <> a -> ths !! b = threads w !! b) as Hout.
  { intros b Hb. destruct Hths as [(t & n & _ & _ & ->)|[-> _]]; [by rewrite lookup_insert_ne|done]. }
  assert (bag running ths ≡ₚ bag running (threads w)) as Hbag.
  { destruct Hths as [(t & n & Ht & Hp & ->)|[-> _]]; [|done]. apply (bag_insert_same running _ a t _ Ht). unfold running. by rewrite Hp. }
  eapply (good_intro _ [] [] T (a :: D)).
  match goal with |- inv ?x _ _ _ _ => set (w' := x) end.
  assert (worker_ok (view w' [] [] T (a :: D) a) v' (ths !! a)) as Hwok.
  { unfold worker_ok. simpl. rewrite (bool_decide_false (a ∈ T)) by tauto. simpl in H5. rewrite (bool_decide_true (a ∈ a :: T)) in H5 by (by left).
    split_and!; try done.
    assert (listed (view w' [] [] T (a :: D) a) = true) as Hl.
    { unfold listed. simpl. rewrite (bool_decide_true (a ∈ a :: D)) by (by left). by rewrite orb_true_r. }
    unfold monitor_free in Hfree. destruct (threads w !! a) as [t|] eqn:Ht.
    - unfold pc_ok, waits in H6. simpl in H6. rewrite Hs in H6. simpl in H6. rewrite (bool_decide_false (a ∈ D)) in H6 by tauto.
      destruct Hths as [(t' & n & Ht' & Hp & ->)|[-> Hnw]].
      + simplify_eq. rewrite lookup_insert_eq, Hp in *. simpl. rewrite Hl. unfold waits. simpl.
        destruct (find_call a (calls w)); intuition congruence.
      + rewrite Ht. destruct (pc t) as [| | | |l|n| |[]| |] eqn:Hp; try done; simpl; rewrite ?Hl; simpl in H6; try (by intuition congruence).
        * by exfalso; apply (Hnw t n).
        * unfold listed in H6. simpl in H6. rewrite (bool_decide_true (a ∈ a :: T)) in H6 by (by left). simpl in H6. intuition congruence.
    - destruct Hths as [(t' & n & Ht' & _)|[-> _]]; [done|]. rewrite Ht. rewrite Hl. split_and!; try done. by apply H6. }
  constructor; simpl; try done.
  - split; [done|]. split; [done|]. eexists. rewrite lookup_insert_eq. split; [done|]. simpl. apply chain_insert_out; [tauto|done].
  - rewrite <- Permutation_middle. apply NoDup_cons. by rewrite elem_of_app.
  - split; [done|]. simpl. split_and!; [done..|]. apply chain_insert_out; [tauto|done].
  - refine (workers_frame w w' [] [] (a :: T) D [] [] T (a :: D) a Hinv _ _ _ _); simpl.
    + intros b x Hb Hx. rewrite lookup_insert_ne in Hx by done. exists x. split; [done|apply same_fields_refl].
    + done.
    + intros b Hb. unfold view. simpl. rewrite Hs. simpl. f_equal; apply bool_decide_ext; rewrite elem_of_cons; intuition congruence.
    + intros x Hx. rewrite lookup_insert_eq in Hx. by injection Hx as <-.
  - intros b u Hu. rewrite lookup_insert_is_Some. destruct (decide (a = b)) as [<-|Hab].
    + split; [by left|]. destruct Hths as [(t & n & Ht & _ & ->)|[-> _]]; [|by apply (i_threads0 a u)].
      rewrite lookup_insert_eq in Hu. injection Hu as <-. simpl. by apply (i_threads0 a t).
    + rewrite Hout in Hu by done. destruct (i_threads0 b u Hu). split; [by right|done].
  - destruct Hths as [(t & n & Ht & _ & ->)|[-> _]]; [|done]. by apply (insert_threads_ids w [] [] (a :: T) D a t Hinv Ht).
  - intros c Hc. destruct (i_call0 c Hc). rewrite lookup_insert_is_Some. split; [done|]. destruct (decide (a = rc_worker c)); [by left|by right].
  - assert (joins_ok (set_threads ths w)) as Hj.
    { destruct Hths as [(t & n & Ht & Hp & ->)|[-> _]]; [|by destruct w].
      apply (joins_local w _ [] [] (a :: T) D a Hinv t (PWait true)); try done; try (by rewrite Hp). left; by rewrite Hp. }
    destruct Hj as [Jf Jl Ja Jc]. assert (forall i, awaited w' i <-> awaited (set_threads ths w) i) as Haw.
    { intros i. unfold awaited. simpl. rewrite Hs. split; (intros [?|(l & ? & _)]; [by left|done]). }
    constructor; simpl; intros *; rewrite ?Haw; eauto.
  - rewrite i_tasks0. unfold open_tasks, w'. cbn [calls workers threads set_shutdown set_threads set_workers set_pool].
    rewrite Hbag, (bag_insert_same pending _ a v _ Hv) by done. done.
Qed.

(** Only the thread that shuts the pool down moves. *)
Lemma inv_shutdown w A I T D s :
  inv w A I T D -> is_running (shutdown w) = false -> is_running s = false ->
  (forall l, shutdown w <> SJoining l) -> (forall l, s <> SJoining l) ->
  phase (set_shutdown s w) A T D -> inv (set_shutdown s w) A I T D.
Proof.
  intros Hinv Hr Hr' Hl Hl' Hph. pose proof Hinv as []. constructor; simpl; try done.
  - intros a v Hv. destruct (i_workers0 a v Hv) as [Ha Hok]. split; [done|]. unfold view in *. simpl. rewrite Hr'. by rewrite Hr in Hok.
  - destruct i_joins0 as [Jf Jl Ja Jc]. assert (forall i, awaited (set_shutdown s w) i <-> awaited w i) as Haw.
    { intros i. unfold awaited. simpl. split; (intros [?|(l & ? & _)]; [by left|exfalso; first [by apply (Hl l)|by apply (Hl' l)]]). }
    constructor; simpl; intros *; rewrite ?Haw; eauto.
Qed.

Lemma Shutdown_check_ok w A I T D :
  inv w A I T D -> (exists id, shutdown w = STell id 0) \/ shutdown w = SWait true -> good (Ok (Shutdown_check w)).
Proof.
  intros Hinv Hs. pose proof Hinv as []. destruct i_phase0 as [E Hph].
  assert (shutting_down_ (pool w) = true) as Esd by (rewrite E; by destruct Hs as [[id ->]| ->]).
  assert (A = [] /\ T = []) as [-> ->].
  { destruct Hs as [[id Hs]|Hs]; rewrite Hs in Hph; [|tauto]. destruct Hph as (-> & _ & Hc). split; [done|].
    by apply (chain_head _ _ _ _ Hc). }
  pose proof (chain_head _ _ _ _ i_down0) as Hhd. eapply (good_intro _ [] I [] D). unfold Shutdown_check.
  apply inv_shutdown; [done| | | | |]; try (by destruct Hs as [[id ->]| ->]); try (by destruct (_ =? 0)).
  destruct (shutting_down_workers_ (pool w) =? 0) eqn:E0; (split; [done|]); simpl.
  - split_and!; [done..|]. apply Hhd. lia.
  - split_and!; [done..|]. intros ->. simpl in i_down0. lia.
Qed.

(** When nobody is left in the lists, the threads alive are those of released workers. *)
Lemma only_released w I a t : inv w [] I [] [] -> threads w !! a = Some t -> pc t = PExit true.
Proof.
  intros Hinv Ht. destruct (i_threads _ _ _ _ _ Hinv a t Ht) as [[v Hv] _].
  pose proof (worker_pc_ok w [] I [] [] a v t Hinv Hv Ht) as Hok. unfold pc_ok, listed in Hok. simpl in Hok.
  destruct (pc t) as [| | | |l|n| |[]| |]; intuition congruence.
Qed.

Lemma Shutdown_take_list_ok w A I T D : inv w A I T D -> shutdown w = SJoin -> good (Ok (Shutdown_take_list w)).
Proof.
  intros Hinv Hs. pose proof Hinv as []. destruct i_phase0 as [E Hph]. rewrite Hs in E, Hph. destruct Hph as (-> & -> & ->).
  eapply (good_intro _ [] I [] []). unfold Shutdown_take_list.
  match goal with |- inv ?x _ _ _ _ => set (w' := x) end. constructor; simpl; try done.
  - intros a v Hv. destruct (i_workers0 a v Hv) as [Ha Hok]. split; [done|]. unfold view in *. simpl. by rewrite Hs in Hok.
  - destruct i_joins0 as [Jf Jl Ja Jc].
    assert (forall i, awaited w' i <-> i ∈ join_list_ (pool w) \/ awaited w i) as Haw.
    { intros i. unfold awaited. rewrite Hs. simpl. split.
      - intros [?|(l & [= <-] & ?)]; auto.
      - intros [?|[?|(l & ? & _)]]; [right; by eexists|by left|done]. }
    constructor; simpl; intros *; rewrite ?Haw.
    + intros [[]%not_elem_of_nil|?]. by apply Jf.
    + by intros _ []%not_elem_of_nil.
    + intros Ht _. by apply (only_released w I a t).
    + intros Ht Hp. right. by apply (Jc a t).
Qed.

Lemma Shutdown_end_ok w A I T D l :
  inv w A I T D -> shutdown w = SJoining l -> joined w l = true -> good (Shutdown_end w).
Proof.
  intros Hinv Hs Hj. pose proof Hinv as []. destruct i_phase0 as [E Hph]. rewrite Hs in E, Hph. destruct Hph as (-> & -> & -> & Hjl).
  unfold Shutdown_end. rewrite Hjl. cbn [assert_ mbind result_bind].
  assert (threads w = ∅) as Hth.
  { apply map_eq. intros a. rewrite lookup_empty. destruct (threads w !! a) as [t|] eqn:Ht; [|done]. exfalso.
    pose proof (only_released w I a t Hinv Ht) as Hp.
    destruct (j_covered w i_joins0 a t Ht Hp) as [Hi|[(b & u & m & Hu & Hpu & _)|(m & Hm & Hi)]].
    - rewrite Hjl in Hi. by apply not_elem_of_nil in Hi.
    - rewrite (only_released w I b u Hinv Hu) in Hpu. done.
    - rewrite Hs in Hm. injection Hm as <-. by apply (proj1 (joined_spec w l) Hj a t Ht). }
  eapply (good_intro _ [] I [] []).
  match goal with |- inv ?x _ _ _ _ => set (w' := x) end. constructor; simpl; try done.
  - intros a v Hv. destruct (i_workers0 a v Hv) as [Ha Hok]. split; [done|]. unfold view in *. simpl. by rewrite Hs in Hok.
  - constructor; simpl; rewrite ?Hth, ?Hjl; try done. intros i [[]%not_elem_of_nil|[(b & u & m & Hu & _)|(m & Hm & _)]]; [|done].
    simpl in Hu. by rewrite Hth in Hu.
Qed.

(** ** The system *)

(** A section of any thread succeeds and keeps the invariant. *)
Lemma perform_ok w A I T D act r : inv w A I T D -> permitted w act = true -> perform w act = Some r -> good r.
Proof.
  intros Hinv G Hp. destruct act as [task fresh|a|a|a timed_out|id|]; simpl in G, Hp.
  - clear G. destruct ((0 <? task) && (0 <? fresh) && _) eqn:G; [|done]. apply andb_prop in G as [[G1 G2]%andb_prop G3].
    apply negb_true_iff, bool_decide_eq_false, eq_None_not_Some in G3. injection Hp as <-.
    destruct (shutting_down_ (pool w)) eqn:Hs.
    + unfold Run_lock. rewrite Hs. by eapply good_intro.
    + apply (shutting_down_spec w A I T D Hinv) in Hs. destruct (decide (idle_workers_ (pool w) = 0)).
      * eapply Run_new_ok; eauto; lia.
      * eapply Run_idle_ok; eauto; lia.
  - destruct (find_call a (calls w)) as [c|] eqn:Hc; [|done].
    pose proof (find_call_Some a _ c Hc) as [Hin <-]. destruct (i_call _ _ _ _ _ Hinv c Hin) as [_ [v Hv]].
    by apply (call_step_ok w A I T D (rc_worker c) v c Hinv Hv Hc).
  - destruct (threads w !! a) as [t|] eqn:Ht; [|done]. by eapply worker_step_ok.
  - destruct (threads w !! a) as [t|] eqn:Ht; [|done]. simpl in Hp. destruct (pc t) eqn:Hpc; try done. injection Hp as <-.
    destruct (i_threads _ _ _ _ _ Hinv a t Ht) as [[v Hv] _]. by eapply Loop_wake_ok.
  - apply andb_prop in G as [G1 G2]. destruct (shutdown w) eqn:Hs; try done.
    injection Hp as <-. eapply Shutdown_lock_ok; eauto; lia.
  - unfold shutdown_step in Hp. destruct (shutdown w) as [|id cur|[]| |l|] eqn:Hs; try done.
    + destruct (cur =? 0) eqn:E0.
      * injection Hp as <-. eapply Shutdown_check_ok; [done|]. left. exists id. rewrite Hs. f_equal. lia.
      * destruct (monitor_free w cur) eqn:Hm; [|done]. injection Hp as <-. eapply Shutdown_tell_ok; eauto; lia.
    + injection Hp as <-. eapply Shutdown_check_ok; eauto.
    + injection Hp as <-. by eapply Shutdown_take_list_ok.
    + destruct (joined w l) eqn:Hj; [|done]. injection Hp as <-. by eapply Shutdown_end_ok.
Qed.

Lemma reachable_inv w : reachable w -> exists A I T D, inv w A I T D.
Proof.
  induction 1 as [|w act w' _ (A & I & T & D & Hinv) Hperm Hp]; [eexists _, _, _, _; apply inv_initial|].
  destruct (perform_ok w A I T D act _ Hinv Hperm Hp) as (w2 & A' & I' & T' & D' & [= ->] & Hinv'). by exists A', I', T', D'.
Qed.

End ThreadPoolSteps.
