(* ===== verification/ThreadPoolProps.v ===== *)
(** * Properties of the thread pool

    No section of any thread fails; each accepted task is in one place; left to
    themselves the threads run every accepted task and end a shutdown; what is left
    after one; and two ways to misuse the pool that the code does not survive. *)

From stdpp Require Import base numbers list gmap sorting.
From Stdlib Require Import ZArith Lia.
From S2P Require Import Prelude ThreadPool ThreadPoolLists ThreadPoolInv ThreadPoolSteps.

Local Open Scope Z_scope.
Local Open Scope mach_scope.

Module ThreadPoolProps.
Import ThreadPool ThreadPoolLists ThreadPoolInv ThreadPoolSteps.

(** ** The work that is left *)

Section Sum.
Context {V : Type} (f : V -> nat).

(** The sum of [f] over the bindings of a map. *)
Definition wsum (m : gmap Z V) : nat := length (bag (fun v => repeat () (f v)) m).

Lemma wsum_insert_new m a v : m !! a = None -> wsum (<[a := v]> m) = (f v + wsum m)%nat.
Proof. intros Hm. unfold wsum. by rewrite (bag_insert_new _ m a v Hm), length_app, repeat_length. Qed.

Lemma wsum_delete m a v : m !! a = Some v -> wsum m = (f v + wsum (delete a m))%nat.
Proof. intros Hm. unfold wsum. by rewrite (bag_delete _ m a v Hm), length_app, repeat_length. Qed.

Lemma wsum_insert m a v v' : m !! a = Some v -> (wsum (<[a := v']> m) + f v = wsum m + f v')%nat.
Proof. intros Hm. rewrite (wsum_delete m a v Hm). unfold wsum. rewrite (bag_insert _ m a v'), length_app, repeat_length. lia. Qed.

Lemma wsum_ext m m' : dom m = dom m' -> (forall a v v', m !! a = Some v -> m' !! a = Some v' -> f v = f v') -> wsum m = wsum m'.
Proof. intros Hd Hf. unfold wsum. rewrite (bag_ext _ m m' Hd); [done|]. intros a v v' Hv Hv'. by rewrite (Hf a v v'). Qed.

End Sum.

(** How many sections are left, at most. *)
Definition pc_weight (p : Pc) : nat :=
  match p with
  | PStart => 11 | PLoop => 10 | PRun _ => 9 | PSetIdle => 8 | PReap _ => 7
  | PWait notified => if notified then 14 else 0
  | PRelease => 5 | PExit _ => 4 | PListed => 3 | PJoined => 2
  end.
Definition call_weight (c : RunCall) : nat := if rc_set c then 13 else 28.
Definition untold (v : Worker) : nat := if done_ v then 0 else 15.
Definition shutdown_weight (s : ShutdownPc) : nat :=
  match s with STell _ _ => 5 | SWait notified => if notified then 4 else 3 | SJoin => 2 | SJoining _ => 1 | SNone | SDone => 0 end.

Definition measure (w : World) : nat :=
  sum_list_with call_weight (calls w) + wsum untold (workers w) + wsum (fun t => pc_weight (pc t)) (threads w) + shutdown_weight (shutdown w).

Lemma measure_set_pc w a t p :
  threads w !! a = Some t -> (measure (set_pc a p w) + pc_weight (pc t) = measure w + pc_weight p)%nat.
Proof.
  intros Ht. rewrite (set_pc_some a p w t Ht). unfold measure. simpl.
  pose proof (wsum_insert (fun t => pc_weight (pc t)) (threads w) a t (mkThread (join_id t) p) Ht) as H. simpl in H. lia.
Qed.

Lemma measure_set_worker w a v v' :
  workers w !! a = Some v -> done_ v' = done_ v -> measure (set_workers (<[a := v']> (workers w)) w) = measure w.
Proof.
  intros Hv Hd. unfold measure. simpl. pose proof (wsum_insert untold (workers w) a v v' Hv) as H. unfold untold in *. rewrite Hd in H. lia.
Qed.

Lemma deref_inv ws a v : deref ws a = Ok v -> ws !! a = Some v.
Proof. unfold deref. destruct (ws !! a); congruence. Qed.

Lemma modify_inv ws a f ws' : modify ws a f = Ok ws' -> exists v, ws !! a = Some v /\ ws' = <[a := f v]> ws.
Proof. unfold modify. intros (v & Hv%deref_inv & [= <-])%bind_ok. eauto. Qed.

Lemma assert_inv b u : assert_ b = Ok u -> b = true.
Proof. by destruct b. Qed.


(** The parts of a section that returned. *)
Ltac returned :=
  repeat match goal with
  | H : (_ ≫= _) = Ok _ |- _ => apply bind_ok in H as (? & ? & ?)
  | H : deref _ _ = Ok _ |- _ => apply deref_inv in H
  | H : modify _ _ _ = Ok _ |- _ => apply modify_inv in H as (? & ? & ->)
  | H : assert_ _ = Ok _ |- _ => apply assert_inv in H
  | H : Ok _ = Ok _ |- _ => injection H as <-
  end.

(** Less is left after the section, and it accepts no task. *)
Definition less (w' w : World) : Prop := (measure w' < measure w)%nat /\ accepted w' = accepted w.

Section Worker.
Context (w w' : World) (A I T D : list Z) (a : Z) (v : Worker) (t : Thread).
Hypothesis Hinv : inv w A I T D.
Hypothesis Hv : workers w !! a = Some v.
Hypothesis Ht : threads w !! a = Some t.

Lemma less_move v' p :
  done_ v' = done_ v -> (pc_weight p < pc_weight (pc t))%nat ->
  (measure (set_pc a p (set_workers (<[a := v']> (workers w)) w)) < measure w)%nat.
Proof.
  intros Hd Hp. pose proof (measure_set_pc (set_workers (<[a := v']> (workers w)) w) a t p Ht) as H.
  rewrite (measure_set_worker w a v v' Hv Hd) in H. lia.
Qed.

Lemma less_move_pc p : (pc_weight p < pc_weight (pc t))%nat -> (measure (set_pc a p w) < measure w)%nat.
Proof. intros Hp. pose proof (measure_set_pc w a t p Ht). lia. Qed.

Lemma Main_enter_less id : pc t = PStart -> Main_enter w a id = Ok w' -> less w' w.
Proof. intros Hp H. unfold Main_enter in H. returned. simplify_eq. split; [|done]. apply less_move; [done|]. by rewrite Hp; simpl; lia. Qed.

Lemma Loop_take_less : (9 < pc_weight (pc t))%nat -> Loop_take w a = Ok w' -> less w' w.
Proof. intros Hp H. unfold Loop_take in H. returned. simplify_eq. split; [|done]. by apply less_move. Qed.

Lemma Loop_finished_less task : pc t = PRun task -> Loop_finished w a task = Ok w' -> less w' w.
Proof.
  intros Hp H. unfold Loop_finished in H. returned. destruct (done_ _); returned; (split; [|done]).
  all: change (measure ?x) with (measure x); match goal with |- context [set_pc a ?p ?x] =>
    pose proof (measure_set_pc x a t p Ht) as E; rewrite Hp in E; simpl in E; change (measure x) with (measure w) in E; lia end.
Qed.

Lemma SetIdle_less : pc t = PSetIdle -> SetIdleAndReapExited w a = Ok w' -> less w' w.
Proof.
  intros Hp H. unfold SetIdleAndReapExited in H. destruct (shutting_down_ (pool w)); returned.
  - split; [|done]. apply less_move_pc. by rewrite Hp; simpl; lia.
  - simplify_eq. split; [|done]. match goal with |- context [set_pc a ?p (set_workers ?ws ?x)] =>
      change (set_workers ws x) with (set_pool (pool x) (set_workers ws w)) end.
    match goal with |- context [set_pc a ?p (set_pool ?q (set_workers (<[a := ?u]> ?ws) w))] =>
      change (measure (set_pc a p (set_pool q (set_workers (<[a := u]> ws) w)))) with (measure (set_pc a p (set_workers (<[a := u]> ws) w))) end.
    apply less_move; [done|]. by rewrite Hp; simpl; lia.
Qed.

Lemma Loop_wake_less : pc t = PWait true -> Loop_wake w a false = Ok w' -> less w' w.
Proof.
  intros Hp H. unfold Loop_wake in H. returned. simplify_eq.
  pose proof (worker_pc_ok w A I T D a v t Hinv Hv Ht) as Hok. rewrite Hp in Hok. simpl in Hok. destruct Hok as (_ & _ & Hn & _).
  destruct (task_ v =? 0) eqn:E0; simpl in *.
  - destruct (done_ v); [|exfalso; destruct (Hn eq_refl); [lia|done]]. returned. split; [|done]. apply less_move_pc. rewrite Hp. simpl. lia.
  - apply Loop_take_less; [rewrite Hp; simpl; lia|done].
Qed.

Lemma Loop_release_less : pc t = PRelease -> Loop_release w a (join_id t) = Ok w' -> less w' w.
Proof.
  intros Hp H. unfold Loop_release in H. apply bind_ok in H as ([released w2] & H0 & H). injection H as <-.
  assert (threads w2 = threads w /\ calls w2 = calls w /\ shutdown w2 = shutdown w /\ accepted w2 = accepted w /\
    (wsum untold (workers w2) <= wsum untold (workers w))%nat) as (E1 & E2 & E3 & E4 & E5).
  { unfold ReleaseIdleWorker in H0. destruct (shutting_down_ (pool w)) eqn:Hs; [by injection H0 as <- <-|].
    apply (shutting_down_spec w A I T D Hinv) in Hs. destruct (decide (a ∈ I)) as [Hin|Hin].
    - destruct (ReleaseIdleWorker_found w A I T D a v t Hinv Hv Hs Hin) as (p & ws & h & E & _ & _ & Hva & Hdom & Hsame & _).
      unfold ReleaseIdleWorker in E. rewrite (proj2 (shutting_down_spec w A I T D Hinv) Hs) in E. rewrite E in H0. injection H0 as <- <-.
      simpl. split_and!; try done. rewrite (wsum_delete untold ws a _ Hva), (wsum_delete untold (workers w) a v Hv).
      rewrite (wsum_ext untold (delete a ws) (delete a (workers w))).
      + unfold untold at 1 3. destruct h; simpl; [|lia]. destruct (done_ v); lia.
      + by rewrite !dom_delete_L, Hdom.
      + intros b x y [Hb Hx]%lookup_delete_Some [_ Hy]%lookup_delete_Some.
        destruct (Hsame b x ltac:(done) Hx) as (z & Hz & _ & _ & Ed & _). simplify_eq. unfold untold. by rewrite Ed.
    - pose proof (worker_pc_ok w A I T D a v t Hinv Hv Ht) as Hok. rewrite Hp in Hok. cbn [pc_ok] in Hok.
      destruct (i_workers _ _ _ _ _ Hinv a v Hv) as [Ha0 _].
      destruct (owned_ v) eqn:Ho.
      + rewrite (RemoveWorkerFromIdleList_unlink _ _ _ v), (unlink_out idle_next_ _ _ _ _ I a v) in H0 by (done || apply Hinv).
        simpl in H0. by injection H0 as <- <-.
      + exfalso. apply bind_ok in H0 as (r & Hr & _). unfold RemoveWorkerFromIdleList in Hr. rewrite (deref_some _ _ _ Hv) in Hr.
        cbn [mbind result_bind] in Hr. rewrite Ho, andb_false_r in Hr. done. }
  pose proof (measure_set_pc w2 a t (if released then PExit true else PWait false) ltac:(by rewrite E1)) as E.
  rewrite Hp in E. unfold less. split; [|done]. assert (measure w2 <= measure w)%nat by (unfold measure; rewrite E1, E2, E3; lia).
  destruct released; simpl in E; lia.
Qed.

Lemma Main_exit_less released : pc t = PExit released -> Main_exit w a (join_id t) released = Ok w' -> less w' w.
Proof.
  intros Hp H. unfold Main_exit in H. returned. destruct released; simpl in *; returned; (split; [|done]).
  - unfold measure. simpl. rewrite (wsum_delete _ (threads w) a t Ht), (wsum_delete untold (workers w) a v Hv), Hp. simpl. lia.
  - match goal with |- context [set_pc a ?p ?x] =>
      pose proof (measure_set_pc x a t p Ht) as E; rewrite Hp in E; simpl in E; change (measure x) with (measure w) in E; lia end.
Qed.

Lemma Main_clear_id_less : pc t = PListed -> Main_clear_id w a = Ok w' -> less w' w.
Proof. intros Hp H. unfold Main_clear_id in H. returned. simplify_eq. split; [|done]. apply less_move; [done|]. by rewrite Hp; simpl; lia. Qed.

Lemma Main_removed_less : pc t = PJoined -> Main_removed w a = Ok w' -> less w' w.
Proof.
  intros Hp H. destruct (i_workers _ _ _ _ _ Hinv a v Hv) as [Ha0 _]. pose proof (worker_pc_ok w A I T D a v t Hinv Hv Ht) as Hok.
  rewrite Hp in Hok. destruct Hok as (_ & _ & Hdown). simpl in Hdown. apply bool_decide_eq_true in Hdown.
  pose proof (i_down _ _ _ _ _ Hinv) as Hcd. pose proof (i_nodup _ _ _ _ _ Hinv) as (_ & _ & (_ & _ & HndD)%NoDup_app)%NoDup_app.
  unfold Main_removed in H. rewrite (RemoveWorkerFromShutdownList_unlink _ _ _ v) in H; [|done| |done].
  2:{ intros E. apply (chain_head _ _ _ _ Hcd) in E. subst D. by apply not_elem_of_nil in Hdown. }
  destruct (unlink_in shutdown_next_ set_shutdown_next (fun _ => set_shutdown_next 0) ltac:(done) (workers w) (shutting_down_workers_ (pool w)) D a v)
    as (hd & ws & h & E & Hc1 & Hv1 & Hr1); [done..|]. rewrite E in H. cbn [mbind result_bind fst snd] in H. injection H as <-.
  assert (wsum untold (delete a ws) = wsum untold (delete a (workers w))) as Eu.
  { apply wsum_ext; [by rewrite !dom_delete_L, (relinked_dom a _ _ _ _ _ _ Hr1 Hv Hv1)|].
    intros b x y [Hb Hx]%lookup_delete_Some [_ Hy]%lookup_delete_Some.
    destruct (relinked_lookup a _ _ _ _ _ _ Hr1 ltac:(done) Hx) as [Hz|(_ & z & m & Hz & ->)]; by simplify_eq. }
  unfold less, notify_exit. simpl. destruct (shutdown w) as [| |[]| | |] eqn:Hs; (split; [|done]); unfold measure; simpl; rewrite ?Hs, Eu;
  rewrite (wsum_delete _ (threads w) a t Ht), (wsum_delete untold (workers w) a v Hv), Hp; simpl; lia.
Qed.

Lemma worker_step_less : worker_step w a t = Some (Ok w') -> less w' w.
Proof.
  unfold worker_step. destruct (pc t) as [| |task| |l|n| |rel| |] eqn:Hp; intros H.
  - injection H. by eapply Main_enter_less.
  - injection H. apply Loop_take_less. rewrite Hp. simpl. lia.
  - injection H. by apply Loop_finished_less.
  - injection H. by apply SetIdle_less.
  - destruct (joined w l); [|done]. injection H as <-. split; [|done]. apply less_move_pc. rewrite Hp. simpl. lia.
  - destruct n; [|done]. injection H. by apply Loop_wake_less.
  - injection H. by apply Loop_release_less.
  - injection H. by apply Main_exit_less.
  - injection H. by apply Main_clear_id_less.
  - destruct (shutdown w); try done; injection H; by apply Main_removed_less.
Qed.

End Worker.


Lemma sum_calls_remove a l c :
  find_call a l = Some c -> sum_list_with call_weight l = (call_weight c + sum_list_with call_weight (remove_call a l))%nat.
Proof.
  induction l as [|d l IH]; [done|]. simpl. destruct (rc_worker d =? a); [by intros [= ->]|]. intros Hf. rewrite (IH Hf). simpl. lia.
Qed.

(** Waking a worker costs at most the weight of a notified wait. *)
Lemma notify_measure a w : (measure (notify a w) <= measure w + 14)%nat /\ accepted (notify a w) = accepted w /\ calls (notify a w) = calls w.
Proof.
  destruct (notify_spec a w) as (ths & -> & [(t & n & Ht & Hp & ->)|[-> _]]).
  - split; [|done]. pose proof (wsum_insert (fun t => pc_weight (pc t)) (threads w) a t (mkThread (join_id t) (PWait true)) Ht) as E.
    unfold measure. simpl. simpl in E. lia.
  - split; [|by destruct w]. unfold measure. simpl. lia.
Qed.

Lemma call_step_less w w' A I T D a c :
  inv w A I T D -> find_call a (calls w) = Some c -> call_step w c = Some (Ok w') -> less w' w.
Proof.
  intros Hinv Hc H. pose proof (find_call_Some a _ c Hc) as [Hin Hcw]. unfold call_step in H. rewrite Hcw in H.
  pose proof (sum_calls_remove a _ c Hc) as Hsum. unfold call_weight at 2 in Hsum. destruct (rc_set c) eqn:Hset.
  - injection H as H. apply bind_ok in H as (w2 & H2 & [= <-]). unfold StartThread in H2. returned.
    assert (threads w !! a = None) as Ht.
    { destruct (i_workers _ _ _ _ _ Hinv a x H) as [_ (_ & _ & _ & _ & _ & H6)]. destruct (threads w !! a) as [t|]; [|done]. exfalso.
      unfold pc_ok, waits in H6. simpl in H6. rewrite Hc in H6. destruct (pc t) as [| | | |l|[]| |[]| |]; intuition congruence. }
    split; [|done]. unfold measure. simpl. rewrite (wsum_insert_new _ _ _ _ Ht). simpl. lia.
  - destruct (monitor_free w a); [|done]. injection H as H. apply bind_ok in H as (w2 & H2 & [= <-]). unfold SetTask in H2. returned.
    match goal with |- context [notify a ?x] => pose proof (notify_measure a x) as (Hm & Ha & Hcl) end.
    erewrite measure_set_worker in Hm; [|eassumption|done]. split; [|exact Ha]. revert Hm Hcl.
    match goal with |- context [notify a ?x] => generalize (notify a x) end. intros w2 Hm Hcl. simpl in Hcl. unfold measure in *. rewrite Hcl in Hm. simpl. destruct (rc_new c); simpl; lia.
Qed.

Lemma shutdown_step_less w w' A I T D : inv w A I T D -> shutdown_step w = Some (Ok w') -> less w' w.
Proof.
  intros Hinv H. unfold shutdown_step in H. destruct (shutdown w) as [|id cur|[]| |l|] eqn:Hs; try done.
  - destruct (cur =? 0) eqn:E0.
    { injection H as <-. split; [|done]. unfold measure, Shutdown_check. cbn [calls workers threads shutdown set_shutdown]. rewrite Hs.
      destruct (shutting_down_workers_ (pool w) =? 0); cbn [shutdown_weight]; lia. }
    destruct (monitor_free w cur); [|done]. injection H as H. pose proof Hinv as []. destruct i_phase0 as [_ Hph]. rewrite Hs in Hph.
    destruct Hph as (-> & Hid & HcT). destruct T as [|a T]; [simpl in HcT; lia|]. destruct HcT as (-> & Ha & v & Hv & _).
    destruct (i_workers0 a v Hv) as [_ (_ & _ & Hid0 & _ & Hd & _)]. simpl in Hd. rewrite (bool_decide_true (a ∈ a :: T)) in Hd by (by left).
    unfold Shutdown_tell, AddWorkerToShutdownList in H. rewrite (deref_some _ _ _ Hv) in H. cbn [mbind result_bind] in H. replace (id_ v =? id) with false in H by lia.
    cbn [negb] in H. rewrite (modify_some _ _ _ _ Hv) in H. cbn [mbind result_bind] in H.
    rewrite (modify_some _ _ _ (set_shutdown_next (shutting_down_workers_ (pool w)) v)) in H by (by rewrite lookup_insert_eq).
    cbn [mbind result_bind] in H. rewrite insert_insert_eq in H. injection H as <-.
    match goal with |- context [notify a ?x] => destruct (notify_spec a x) as (ths & -> & Hths) end. split; [|done]. simpl in Hths.
    pose proof (wsum_insert untold (workers w) a v (set_done true (set_shutdown_next (shutting_down_workers_ (pool w)) v)) Hv) as E.
    unfold untold at 2 4 in E. rewrite (Hd eq_refl) in E. simpl in E.
    assert (wsum (fun t => pc_weight (pc t)) ths <= wsum (fun t => pc_weight (pc t)) (threads w) + 14)%nat as Et.
    { destruct Hths as [(t & n & Ht & Hp & ->)|[-> _]]; [|lia].
      pose proof (wsum_insert (fun t => pc_weight (pc t)) (threads w) a t (mkThread (join_id t) (PWait true)) Ht) as E2. simpl in E2. lia. }
    unfold measure. simpl. rewrite Hs. simpl. lia.
  - injection H as <-. split; [|done]. unfold measure, Shutdown_check. cbn [calls workers threads shutdown set_shutdown]. rewrite Hs.
      destruct (shutting_down_workers_ (pool w) =? 0); cbn [shutdown_weight]; lia.
  - injection H as <-. split; [|done]. unfold measure. simpl. rewrite Hs. simpl. lia.
  - destruct (joined w l); [|done]. injection H as H. unfold Shutdown_end in H. returned. split; [|done]. unfold measure. simpl. rewrite Hs. simpl. lia.
Qed.

(** Each section the threads run by themselves leaves less to do. *)
Lemma internal_less w w' A I T D act :
  inv w A I T D -> internal act = true -> perform w act = Some (Ok w') -> less w' w.
Proof.
  intros Hinv Hint H. destruct act as [| a|a| | |]; try done; simpl in H.
  - destruct (find_call a (calls w)) as [c|] eqn:Hc; [|done]. by eapply call_step_less.
  - destruct (threads w !! a) as [t|] eqn:Ht; [|done]. destruct (i_threads _ _ _ _ _ Hinv a t Ht) as [[v Hv] _].
    by eapply (worker_step_less w w' A I T D a v t).
  - by eapply shutdown_step_less.
Qed.

(** ** Nobody waits for ever *)

Section Blocked.
Context (w : World) (A I T D : list Z).
Hypothesis Hinv : inv w A I T D.
Hypothesis Hblocked : forall act, internal act = true -> perform w act = None.

Lemma blocked_worker a t : threads w !! a = Some t -> worker_step w a t = None.
Proof. intros Ht. pose proof (Hblocked (AWorker a) eq_refl) as H. simpl in H. by rewrite Ht in H. Qed.

(** A thread that is joined has ended. *)
Lemma blocked_joined l : (forall i, i ∈ l -> awaited w i) -> joined w l = true.
Proof.
  intros Haw. apply joined_spec. intros a t Ht Hin. pose proof (j_awaited _ (i_joins _ _ _ _ _ Hinv) a t Ht (Haw _ Hin)) as Hp.
  pose proof (blocked_worker a t Ht) as H. unfold worker_step in H. by rewrite Hp in H.
Qed.

Lemma blocked_pc a t : threads w !! a = Some t -> pc t = PWait false \/ pc t = PJoined.
Proof.
  intros Ht. pose proof (blocked_worker a t Ht) as H. unfold worker_step in H. destruct (pc t) as [| |task| |l|[]| |rel| |] eqn:Hp; try done; auto.
  rewrite blocked_joined in H; [done|]. intros i Hi. left. by exists a, t, l.
Qed.

Lemma blocked_monitor a : monitor_free w a = true.
Proof. unfold monitor_free. destruct (threads w !! a) as [t|] eqn:Ht; [|done]. by destruct (blocked_pc a t Ht) as [-> | ->]. Qed.

Lemma blocked_calls : calls w = [].
Proof.
  destruct (calls w) as [|c l] eqn:Hc; [done|]. pose proof (Hblocked (ACall (rc_worker c)) eq_refl) as H. simpl in H.
  rewrite Hc in H. simpl in H. rewrite Z.eqb_refl in H. simpl in H. unfold call_step in H.
  rewrite blocked_monitor in H. by destruct (rc_set c).
Qed.

Lemma blocked_shutdown : shutdown w = SNone \/ shutdown w = SDone \/ (shutdown w = SWait false /\ D <> []).
Proof.
  pose proof (Hblocked AStop eq_refl) as H. simpl in H. unfold shutdown_step in H.
  destruct (shutdown w) as [|id cur|[]| |l|] eqn:Hs; try done; auto.
  - rewrite blocked_monitor in H. by destruct (cur =? 0).
  - right. right. split; [done|]. intros ->. destruct (i_phase _ _ _ _ _ Hinv) as [_ Hph]. rewrite Hs in Hph. destruct Hph as (_ & _ & E).
    by specialize (E eq_refl).
  - rewrite blocked_joined in H; [done|]. intros i Hi. right. by exists l.
Qed.

Lemma blocked_waiting a v : workers w !! a = Some v -> threads w !! a <> None /\ task_ v = 0 /\ (a ∉ D).
Proof.
  intros Hv. destruct (i_workers _ _ _ _ _ Hinv a v Hv) as [_ (_ & _ & _ & Hd & _ & H6)]. simpl in Hd.
  destruct (threads w !! a) as [t|] eqn:Ht.
  2:{ destruct H6 as (_ & _ & c & Hc & _). simpl in Hc. by rewrite blocked_calls in Hc. }
  split; [done|]. destruct (blocked_pc a t Ht) as [Hp|Hp]; rewrite Hp in H6.
  - cbn [pc_ok] in H6. destruct H6 as (_ & Hdn & _ & [[Htk _]|(_ & _ & _ & ?)]); [|done]. split; [done|].
    intros Hin. rewrite bool_decide_true in Hd by done. by specialize (Hdn (Hd eq_refl)).
  - exfalso. pose proof (blocked_worker a t Ht) as H. unfold worker_step in H. rewrite Hp in H.
    destruct blocked_shutdown as [E|[E|[E _]]]; by rewrite E in H.
Qed.

Lemma blocked_open_tasks : open_tasks w = [].
Proof.
  unfold open_tasks. rewrite blocked_calls. simpl. destruct (bag pending (workers w) ++ bag running (threads w)) as [|x l] eqn:E; [done|exfalso].
  assert (x ∈ bag pending (workers w) ++ bag running (threads w)) as Hx by (rewrite E; by left).
  apply elem_of_app in Hx as [(a & v & Hv & Hx)%elem_of_bag|(a & t & Ht & Hx)%elem_of_bag].
  - destruct (blocked_waiting a v Hv) as (_ & Htk & _). unfold pending, one in Hx. rewrite Htk in Hx. by apply not_elem_of_nil in Hx.
  - unfold running in Hx. destruct (blocked_pc a t Ht) as [Hp|Hp]; rewrite Hp in Hx; by apply not_elem_of_nil in Hx.
Qed.

Lemma blocked_settled :
  accepted w ≡ₚ finished w /\ calls w = [] /\
  (shutdown w = SNone \/ shutdown w = SDone).
Proof.
  split; [|split; [apply blocked_calls|]].
  - rewrite (i_tasks _ _ _ _ _ Hinv), blocked_open_tasks. by rewrite app_nil_r.
  - destruct blocked_shutdown as [?|[?|[_ HD]]]; [by left|by right|exfalso].
    assert (exists a, a ∈ D) as [a Ha] by (clear -HD; destruct D as [|x l]; [done|exists x; by left]).
    destruct (chain_elem _ _ _ _ a (i_down _ _ _ _ _ Hinv) Ha) as [_ [v Hv]]. by destruct (blocked_waiting a v Hv) as (_ & _ & Hn).
Qed.

End Blocked.


(** ** The properties *)

(** Running permitted sections one after the other stays in the reachable states. *)
Fixpoint all_permitted (w : World) (acts : list Action) : bool :=
  match acts with
  | [] => true
  | act :: acts => permitted w act && match perform w act with Some (Ok w) => all_permitted w acts | _ => true end
  end.

Lemma run_actions_reachable w acts w' :
  reachable w -> all_permitted w acts = true -> run_actions w acts = Some (Ok w') -> reachable w'.
Proof.
  revert w. induction acts as [|act acts IH]; intros w Hw Hp H; [by injection H as <-|]. simpl in Hp, H.
  apply andb_prop in Hp as [Hp Hps]. destruct (perform w act) as [[w2|e]|] eqn:E; [|done..].
  apply (IH w2); [by eapply reachable_step|done..].
Qed.

Lemma internal_permitted w act : internal act = true -> permitted w act = true.
Proof. by destruct act. Qed.

Lemma internal_all_permitted w acts : forallb internal acts = true -> all_permitted w acts = true.
Proof.
  revert w. induction acts as [|act acts IH]; intros w H; [done|]. simpl in *. apply andb_prop in H as [H1 H2].
  rewrite internal_permitted by done. destruct (perform w act) as [[w2|]|]; [by apply IH|done..].
Qed.

(** C11: Provided [Shutdown] is begun neither by a worker of the pool nor while a call of
    [Run] is about to hand its task to an idle worker, no section of any thread fails:
    under any interleaving of calls of [Run], the workers' threads, their timeouts and
    one such [Shutdown], no assertion of the code is violated, no deleted worker is
    accessed, and every walk of a list ends.  [run_races_with_shutdown] and
    [shutdown_from_worker_asserts] show what happens otherwise. *)
Theorem pool_never_fails w act e : reachable w -> permitted w act = true -> perform w act <> Some (Err e).
Proof.
  intros (A & I & T & D & Hinv)%reachable_inv Hperm Hp.
  by destruct (perform_ok w A I T D act _ Hinv Hperm Hp) as (? & ? & ? & ? & ? & ? & _).
Qed.

(** C21: Every task [Run] accepted is in exactly one place: it has finished, or a worker
    runs it, or a worker has it, or the call that will hand it over is under way; and
    the pool's counters are the lengths of its lists. *)
Theorem pool_accounts w :
  reachable w ->
  accepted w ≡ₚ finished w ++ open_tasks w /\
  exists A I, chain all_next_ (workers w) (all_workers_ (pool w)) A /\ chain idle_next_ (workers w) (idle_workers_ (pool w)) I /\
    NoDup A /\ NoDup I /\ (forall a, a ∈ I -> a ∈ A) /\ counts_ok (pool w) A I.
Proof.
  intros (A & I & T & D & Hinv)%reachable_inv. pose proof (nodup_all w A I T D Hinv). destruct Hinv.
  split; [done|]. exists A, I. split_and!; done.
Qed.

(** C10: The threads of the pool cannot go on for ever by themselves, and when they stop
    every accepted task has run and a shutdown that was begun is over: no wake-up is
    lost and nobody is left waiting for a monitor or a thread. *)
Theorem pool_settles w acts w' :
  reachable w -> forallb internal acts = true -> run_actions w acts = Some (Ok w') ->
  (length acts <= measure w)%nat /\ accepted w' = accepted w /\
  ((forall act, internal act = true -> perform w' act = None) ->
   accepted w ≡ₚ finished w' /\ calls w' = [] /\ (shutdown w' = SNone \/ shutdown w' = SDone)).
Proof.
  intros Hw Hint Hrun.
  assert ((length acts + measure w' <= measure w)%nat /\ accepted w' = accepted w) as [Hlen Hacc].
  { revert w Hw Hint Hrun. induction acts as [|act acts IH]; intros w Hw Hint Hrun; simpl in *; [by injection Hrun as <-|].
    apply andb_prop in Hint as [Hact Hint]. destruct (perform w act) as [[w2|e]|] eqn:E; [|done..].
    destruct (reachable_inv w Hw) as (A & I & T & D & Hinv). destruct (internal_less w w2 A I T D act Hinv Hact E) as [Hm Ha].
    destruct (IH w2 ltac:(by eapply reachable_step; [|apply internal_permitted|]) Hint Hrun) as [Hl Ha']. split; [lia|congruence]. }
  split; [lia|]. split; [done|]. intros Hb. rewrite <- Hacc.
  destruct (reachable_inv w' (run_actions_reachable w acts w' Hw (internal_all_permitted w acts Hint) Hrun)) as (A & I & T & D & Hinv).
  by apply (blocked_settled w' A I T D).
Qed.

(** When [Shutdown] has returned, no worker and no thread of the pool is left, no
    call of [Run] is under way, and every accepted task has run. *)
Theorem pool_shut_down w :
  reachable w -> shutdown w = SDone ->
  threads w = ∅ /\ workers w = ∅ /\ calls w = [] /\ join_list_ (pool w) = [] /\ accepted w ≡ₚ finished w.
Proof.
  intros (A & I & T & D & Hinv)%reachable_inv Hs. pose proof Hinv as []. destruct i_phase0 as [_ Hph]. rewrite Hs in Hph.
  destruct Hph as (-> & -> & -> & Hjl & Hth).
  assert (workers w = ∅) as Hws.
  { apply map_eq. intros a. rewrite lookup_empty. destruct (workers w !! a) as [v|] eqn:Hv; [|done]. exfalso.
    destruct (i_workers0 a v Hv) as [_ (_ & _ & _ & _ & _ & H6)]. rewrite Hth, lookup_empty in H6. by destruct H6 as [Hl _]. }
  assert (calls w = []) as Hcalls.
  { destruct (calls w) as [|c l] eqn:Hc; [done|]. destruct (i_call0 c ltac:(left)) as [_ [v Hv]]. by rewrite Hws in Hv. }
  split_and!; try done. rewrite i_tasks0. unfold open_tasks. rewrite Hws, Hth, Hcalls. simpl. by rewrite app_nil_r.
Qed.

(** A worker with a timeout never waits without one, and never longer than the flag
    says: 0, which [Wait] takes for no timeout, is the answer for no timeout only. *)
Lemma ComputeTimeout_bounds flag now idle_start :
  0 < flag < 2 ^ 31 -> idle_start <= now < idle_start + 2 ^ 63 -> 1 <= ComputeTimeout flag now idle_start <= flag.
Proof.
  intros Hf Hn. unfold ComputeTimeout. replace (flag <=? 0) with false by lia.
  rewrite (wrapS_id 64 (now - idle_start)) by (unfold isS; lia).
  destruct (flag <=? now - idle_start) eqn:E; [lia|]. rewrite wrapS_id by (unfold isS; lia). lia.
Qed.

(** ** A run of the system *)

(** A task runs on a new worker, a second one on the same worker, which then times
    out; a third one starts another worker, and the pool is shut down. *)
Definition demo : list Action :=
  [ARun 7 100; ACall 100; ACall 100; AWorker 100; AWorker 100; AWorker 100; AWorker 100; AWorker 100;
   ARun 8 200; ACall 100; AWorker 100; AWorker 100; AWorker 100; AWorker 100;
   AWake 100 true; AWorker 100; ARun 9 200; ACall 200; ACall 200; AWorker 200; AWorker 200;
   AShutdown (-1); AStop; AWorker 200; AWorker 200; AWorker 100; AStop; AWorker 200; AWorker 200; AStop; AStop; AStop].

Definition demo_world (n : nat) : World := match run_actions initial (take n demo) with Some (Ok w) => w | _ => initial end.

Lemma all_permitted_take n w acts : all_permitted w acts = true -> all_permitted w (take n acts) = true.
Proof.
  revert n w. induction acts as [|act acts IH]; intros [|n] w H; try done. simpl in *. apply andb_prop in H as [-> H].
  destruct (perform w act) as [[w2|]|]; [by apply IH|done..].
Qed.

Lemma demo_permitted : all_permitted initial demo = true.
Proof. vm_compute. reflexivity. Qed.

Lemma demo_reachable n : reachable (demo_world n).
Proof.
  unfold demo_world. destruct (run_actions initial (take n demo)) as [[w|e]|] eqn:E; try constructor.
  apply (run_actions_reachable initial (take n demo)); [constructor|apply all_permitted_take, demo_permitted|done].
Qed.

(** The last state: everything has run. *)
Lemma demo_end : run_actions initial demo = Some (Ok (demo_world 32)) /\ finished (demo_world 32) = [9; 8; 7].
Proof. split; vm_compute; reflexivity. Qed.

(** A worker that has timed out, and the beginning of the shutdown. *)
Lemma pool_never_fails_witness :
  reachable (demo_world 15) /\ perform (demo_world 15) (AWorker 100) <> Some (Err TAssertFailed) /\
  permitted (demo_world 21) (AShutdown (-1)) = true /\ perform (demo_world 21) (AShutdown (-1)) <> Some (Err TAssertFailed).
Proof.
  assert (permitted (demo_world 21) (AShutdown (-1)) = true) as Hp by (vm_compute; reflexivity).
  split; [apply demo_reachable|]. split; [apply pool_never_fails; [apply demo_reachable|reflexivity]|]. split; [exact Hp|].
  apply pool_never_fails; [apply demo_reachable|exact Hp].
Defined.

Lemma pool_accounts_witness : accepted (demo_world 21) = [9; 8; 7] /\ accepted (demo_world 21) ≡ₚ finished (demo_world 21) ++ open_tasks (demo_world 21).
Proof. split; [vm_compute; reflexivity|]. apply pool_accounts. apply demo_reachable. Defined.

Lemma pool_settles_witness : accepted (demo_world 22) ≡ₚ finished (demo_world 32).
Proof.
  destruct (pool_settles (demo_world 22) (drop 22 demo) (demo_world 32)) as (_ & _ & H);
    [apply demo_reachable|vm_compute; reflexivity|vm_compute; reflexivity|].
  apply H. assert (calls (demo_world 32) = []) as E1 by (vm_compute; reflexivity).
  assert (threads (demo_world 32) = ∅) as E2 by (vm_compute; reflexivity).
  assert (shutdown (demo_world 32) = SDone) as E3 by (vm_compute; reflexivity). revert E1 E2 E3. generalize (demo_world 32). intros w E1 E2 E3 [ | | | | | ] Hact; try discriminate Hact;
    unfold perform, shutdown_step; rewrite ?E1, ?E2, ?E3, ?lookup_empty; reflexivity.
Defined.

Lemma pool_shut_down_witness : shutdown (demo_world 32) = SDone /\ workers (demo_world 32) = ∅.
Proof. split; [vm_compute; reflexivity|]. apply pool_shut_down; [apply demo_reachable|vm_compute; reflexivity]. Defined.

(** ** What the pool does not survive *)

(** [Run] leaves [mutex_] before it gives its task to the idle worker it chose.  When
    [Shutdown] runs in between, the worker is told to end, ends and is deleted, and
    [SetTask] enters the monitor of a worker that is gone. *)
Lemma run_races_with_shutdown :
  exists w, reachable w /\ calls w = [mkRunCall 8 100 false false] /\
    run_actions w [AShutdown (-1); AStop; AWorker 100; AWorker 100; AWorker 100; AStop; AWorker 100; ACall 100] = Some (Err TUseAfterFree).
Proof. exists (demo_world 9). split; [apply demo_reachable|]. split; vm_compute; reflexivity. Qed.

(** [Shutdown] leaves the worker of the thread that calls it out of the list it waits
    for; when that thread later ends, it asserts that the list is not empty. *)
Lemma shutdown_from_worker_asserts :
  exists w, reachable w /\ threads w !! 100 = Some (mkThread 1 (PRun 7)) /\
    run_actions w [AShutdown 1; AStop; AStop; AStop; AWorker 100; AWorker 100; AWorker 100; AWorker 100] = Some (Err TAssertFailed).
Proof. exists (demo_world 5). split; [apply demo_reachable|]. split; vm_compute; reflexivity. Qed.

End ThreadPoolProps.
