(* ===== verification/BitVector.v ===== *)
(** * vm/bit_vector.h, vm/bit_vector.cc

    [BitVector]: a set of numbers below [length_] as the bits of an array of words
    allocated in a zone, and its iterator.  The bits of the last word beyond [length_]
    are not part of the set, but [SetAll] sets them and the loops over the words see
    them. *)

From stdpp Require Import base numbers list.
From Stdlib Require Import ZArith Lia Btauto Sorted.
From S2P Require Import Prelude HeapMemory BitSet.

Local Open Scope Z_scope.
Local Open Scope mach_scope.

Module BitVector.
Import HeapMemory.

Inductive bv_error :=
| BAssertFailed
| BOutOfRange      (* a word outside [data_] *)
| BNoReturn.       (* the rounds of a loop ran out *)

Abbreviation M A := (result bv_error A).
Definition check (b : bool) : M unit := if b then Ok () else Err BAssertFailed.

Section bitvector.
Context {T : Target}.

(** [data_length_] is the length of [data_]. *)
Record BitVector := mkBitVector { length_ : Z; data_ : list Z }.

Definition data_length_ (v : BitVector) : Z := Z.of_nat (length (data_ v)).

Definition SizeFor (length : Z) : Z := 1 + Z.quot (length - 1) kBitsPerWord.

(** [for (intptr_t i = 0; i < data_length_; i++) data_[i] = 0;] *)
Definition Clear (v : BitVector) : BitVector := mkBitVector (length_ v) ((fun _ => 0) <$> data_ v).
Definition SetAll (v : BitVector) : BitVector := mkBitVector (length_ v) ((fun _ => uword (-1)) <$> data_ v).

(** The constructor; [zone->Alloc] returns words that [Clear] sets. *)
Definition BitVector_new (length : Z) : BitVector :=
  Clear (mkBitVector length (replicate (Z.to_nat (SizeFor length)) 0)).

Definition word (v : BitVector) (w : Z) : M Z :=
  match data_ v !! Z.to_nat w with Some d => Ok d | None => Err BOutOfRange end.

Definition set_word (v : BitVector) (w d : Z) : BitVector := mkBitVector (length_ v) (<[Z.to_nat w := d]> (data_ v)).

Definition bit_of (i : Z) : Z := uword (1 <<< Z.rem i kBitsPerWord).

Definition Add (v : BitVector) (i : Z) : M BitVector :=
  check ((0 <=? i) && (i <? length_ v));;
  d ← word v (Z.quot i kBitsPerWord);
  Ok (set_word v (Z.quot i kBitsPerWord) (d .| bit_of i)).

Definition Remove (v : BitVector) (i : Z) : M BitVector :=
  check ((0 <=? i) && (i <? length_ v));;
  d ← word v (Z.quot i kBitsPerWord);
  Ok (set_word v (Z.quot i kBitsPerWord) (d .& uword (Z.lnot (bit_of i)))).

Definition Contains (v : BitVector) (i : Z) : M bool :=
  check ((0 <=? i) && (i <? length_ v));;
  block ← word v (Z.quot i kBitsPerWord);
  Ok (negb (block .& bit_of i =? 0)).

(** The loops over the words of two vectors: whether a word changed, and the words. *)
Fixpoint AddAll_loop (d from : list Z) : bool * list Z :=
  match d, from with
  | before :: d, f :: from =>
      let after := before .| f in
      let '(changed, d) := AddAll_loop d from in
      (negb (before =? after) || changed, after :: d)
  | _, _ => (false, d)
  end.

Definition AddAll (v from : BitVector) : M (bool * BitVector) :=
  check (data_length_ v =? data_length_ from);;
  let '(changed, d) := AddAll_loop (data_ v) (data_ from) in
  Ok (changed, mkBitVector (length_ v) d).

Fixpoint RemoveAll_loop (d from : list Z) : bool * list Z :=
  match d, from with
  | before :: d, f :: from =>
      let after := before .& uword (Z.lnot f) in
      let '(changed, d) := RemoveAll_loop d from in
      (negb (before =? after) || changed, after :: d)
  | _, _ => (false, d)
  end.

Definition RemoveAll (v from : BitVector) : M (bool * BitVector) :=
  check (data_length_ v =? data_length_ from);;
  let '(changed, d) := RemoveAll_loop (data_ v) (data_ from) in
  Ok (changed, mkBitVector (length_ v) d).

Fixpoint KillAndAdd_loop (d kill gen : list Z) : bool * list Z :=
  match d, kill, gen with
  | before :: d, k :: kill, g :: gen =>
      let after := before .| (g .& uword (Z.lnot k)) in
      let '(changed, d) := KillAndAdd_loop d kill gen in
      (negb (before =? after) || changed, after :: d)
  | _, _, _ => (false, d)
  end.

Definition KillAndAdd (v kill gen : BitVector) : M (bool * BitVector) :=
  check (data_length_ v =? data_length_ kill);;
  check (data_length_ v =? data_length_ gen);;
  let '(changed, d) := KillAndAdd_loop (data_ v) (data_ kill) (data_ gen) in
  Ok (changed, mkBitVector (length_ v) d).

Fixpoint Intersect_loop (d other : list Z) : list Z :=
  match d, other with
  | w :: d, o :: other => (w .& o) :: Intersect_loop d other
  | _, _ => d
  end.

Definition Intersect (v other : BitVector) : M BitVector :=
  check (length_ other =? length_ v);;
  Ok (mkBitVector (length_ v) (Intersect_loop (data_ v) (data_ other))).

Definition CopyFrom (v other : BitVector) : M BitVector :=
  r ← AddAll (Clear v) other; Ok (snd r).

(** [Equals]: all words but the last, and of the last the bits below [length_]. *)
Fixpoint Equals_loop (mask : Z) (d other : list Z) : bool :=
  match d, other with
  | [w], o :: _ => w .& mask =? o .& mask
  | w :: d, o :: other => if negb (w =? o) then false else Equals_loop mask d other
  | _, _ => true
  end.

Definition Equals (v other : BitVector) : bool :=
  if negb (length_ v =? length_ other) then false
  else
    let shift_size := (kBitsPerWord - length_ v) .& (kBitsPerWord - 1) in
    let mask := uword (-1) >>> shift_size in
    Equals_loop mask (data_ v) (data_ other).

(** ** The iterator *)

Record Iterator := mkIterator { bit_index_ : Z; word_index_ : Z; current_word_ : Z }.

Definition Done (target : BitVector) (it : Iterator) : bool := data_length_ target <=? word_index_ it.

(** [do { ++word_index_; ... } while (current_word_ == 0);]: [rest] are the words
    after [word_index_].  [None]: [Done()]. *)
Fixpoint skip_words (rest : list Z) (word_index : Z) : Z * option Z :=
  match rest with
  | [] => (word_index + 1, None)
  | w :: rest => if w =? 0 then skip_words rest (word_index + 1) else (word_index + 1, Some w)
  end.

(** The two loops that skip zero bytes and zero bits of a word that is not zero; the
    rounds are the bits of a word. *)
Fixpoint skip_bytes (fuel : nat) (current bit_index : Z) : Z * Z :=
  match fuel with
  | O => (current, bit_index)
  | S fuel => if current .& 0xff =? 0 then skip_bytes fuel (current >>> 8) (bit_index + 8) else (current, bit_index)
  end.

Fixpoint skip_bits (fuel : nat) (current bit_index : Z) : Z * Z :=
  match fuel with
  | O => (current, bit_index)
  | S fuel => if current .& 1 =? 0 then skip_bits fuel (current >>> 1) (bit_index + 1) else (current, bit_index)
  end.

Definition skip_zeros (current bit_index word_index : Z) : Iterator :=
  let '(current, bit_index) := skip_bytes (Z.to_nat kBitsPerWord) current bit_index in
  let '(current, bit_index) := skip_bits (Z.to_nat kBitsPerWord) current bit_index in
  mkIterator bit_index word_index (current >>> 1).

Definition Advance (target : BitVector) (it : Iterator) : Iterator :=
  let bit_index := bit_index_ it + 1 in
  if current_word_ it =? 0 then
    match skip_words (drop (S (Z.to_nat (word_index_ it))) (data_ target)) (word_index_ it) with
    | (word_index, None) => mkIterator bit_index word_index (current_word_ it)
    | (word_index, Some current) => skip_zeros current (word_index * kBitsPerWord) word_index
    end
  else skip_zeros (current_word_ it) bit_index (word_index_ it).

Definition Iterator_new (target : BitVector) : M Iterator :=
  w ← word target 0;
  check (0 <? data_length_ target);;
  Ok (Advance target (mkIterator (-1) 0 w)).

Definition Current (target : BitVector) (it : Iterator) : M Z :=
  check (negb (Done target it));;
  Ok (bit_index_ it).

(** [for (BitVector::Iterator it(v); !it.Done(); it.Advance())]: what it visits. *)
Fixpoint iterate (fuel : nat) (target : BitVector) (it : Iterator) : M (list Z) :=
  match fuel with
  | O => Err BNoReturn
  | S fuel =>
      if Done target it then Ok []
      else c ← Current target it; l ← iterate fuel target (Advance target it); Ok (c :: l)
  end.

Definition elements (target : BitVector) : M (list Z) :=
  it ← Iterator_new target;
  iterate (S (Z.to_nat (data_length_ target * kBitsPerWord))) target it.

(** ** The set a bit vector denotes *)

Abbreviation has v i := (BitSet.has (data_ v) i).

Record bv_ok (v : BitVector) : Prop := {
  bv_length : 0 <= length_ v;
  bv_size : data_length_ v = SizeFor (length_ v);
  bv_words : Forall (isU kBitsPerWord) (data_ v)
}.

Lemma W_pos : 0 < kBitsPerWord.
Proof. by destruct BitSet.bits_cases as (_ & _ & ?). Qed.

Lemma SizeFor_pos n : 0 <= n -> 1 <= SizeFor n.
Proof.
  intros Hn. pose proof W_pos. unfold SizeFor. destruct (decide (n = 0)) as [->|].
  - simpl. destruct kBitsPerWord_ok as [-> | ->]; by cbn.
  - rewrite Z.quot_div_nonneg by lia. pose proof (Z.div_pos (n - 1) kBitsPerWord). lia.
Qed.

Lemma index_in_size n i : 0 <= i < n -> 0 <= i / kBitsPerWord < SizeFor n.
Proof.
  intros Hi. pose proof W_pos. unfold SizeFor. rewrite Z.quot_div_nonneg by lia.
  pose proof (Z.div_le_mono i (n - 1) kBitsPerWord). pose proof (Z.div_pos i kBitsPerWord). lia.
Qed.

(** Nothing is outside the words. *)
Lemma has_outside d j : Z.of_nat (length d) * kBitsPerWord <= j -> BitSet.has d j = false.
Proof.
  intros Hj. pose proof W_pos. unfold BitSet.has. rewrite lookup_ge_None_2; [by rewrite Z.bits_0, andb_false_r|].
  pose proof (Z.div_le_lower_bound j kBitsPerWord (Z.of_nat (length d))). lia.
Qed.

Lemma isU_W x k : isU kBitsPerWord x -> kBitsPerWord <= k -> Z.testbit x k = false.
Proof. intros Hx Hk. pose proof W_pos. apply (testbit_above_isU kBitsPerWord); [lia|done]. Qed.

(** The words are equal when the sets are. *)
Lemma has_inj d d' :
  length d = length d' -> Forall (isU kBitsPerWord) d -> Forall (isU kBitsPerWord) d' ->
  (forall j, BitSet.has d j = BitSet.has d' j) -> d = d'.
Proof.
  intros Hl Hd Hd' Hh. pose proof W_pos. apply list_eq_same_length with (length d); [done..|].
  intros i x y Hi Hx Hy. pose proof (Forall_lookup_1 _ _ _ _ Hd Hx) as Ux. pose proof (Forall_lookup_1 _ _ _ _ Hd' Hy) as Uy.
  apply Z.bits_inj'. intros k Hk. destruct (decide (k < kBitsPerWord)) as [Hk'|Hk'].
  - specialize (Hh (Z.of_nat i * kBitsPerWord + k)). rewrite !BitSet.has_word, Nat2Z.id, Hx, Hy in Hh by lia. done.
  - by rewrite !isU_W by (done || lia).
Qed.

(** ** Operations on one element *)

Section Element.
Context (v : BitVector) (i : Z).
Hypothesis Hok : bv_ok v.
Hypothesis Hi : 0 <= i < length_ v.

Lemma word_in : exists d, word v (Z.quot i kBitsPerWord) = Ok d /\ data_ v !! Z.to_nat (i / kBitsPerWord) = Some d /\ isU kBitsPerWord d.
Proof.
  pose proof W_pos. destruct Hok as [_ Hs HF]. pose proof (index_in_size _ _ Hi) as Hw. unfold word.
  rewrite Z.quot_div_nonneg by lia. unfold data_length_ in Hs.
  destruct (lookup_lt_is_Some_2 (data_ v) (Z.to_nat (i / kBitsPerWord)) ltac:(lia)) as [d Hd].
  exists d. rewrite Hd. split_and!; [done..|]. by eapply Forall_lookup_1 in Hd.
Qed.

Lemma bit_of_eq : bit_of i = 2 ^ (i mod kBitsPerWord) /\ isU kBitsPerWord (2 ^ (i mod kBitsPerWord)).
Proof.
  pose proof W_pos. unfold bit_of. rewrite Z.rem_mod_nonneg by lia. split; [apply BitSet.bit_mask|].
  pose proof (Z.mod_pos_bound i kBitsPerWord). split; [apply Z.pow_nonneg; lia|apply Z.pow_lt_mono_r; lia].
Qed.

(** Setting or clearing the bit of [i] in its word. *)
Lemma set_word_ok d d' b :
  data_ v !! Z.to_nat (i / kBitsPerWord) = Some d -> isU kBitsPerWord d' ->
  (forall k, 0 <= k < kBitsPerWord -> Z.testbit d' k = if k =? i mod kBitsPerWord then b else Z.testbit d k) ->
  bv_ok (set_word v (i / kBitsPerWord) d') /\
  forall j, has (set_word v (i / kBitsPerWord) d') j = if j =? i then b else has v j.
Proof.
  intros Hd Hd' Hk. pose proof W_pos as HW. destruct Hok as [H0 Hs HF]. pose proof (index_in_size _ _ Hi) as Hw.
  split.
  - constructor; simpl; [done| |by apply Forall_insert]. unfold data_length_ in *. simpl. by rewrite length_insert.
  - intros j. simpl. unfold data_length_ in Hs. rewrite BitSet.has_insert by lia. destruct (Z.leb_spec 0 j) as [Hj|Hj]; cbn [andb].
    + pose proof (Z.mod_pos_bound j kBitsPerWord HW). destruct (Z.eqb_spec (j / kBitsPerWord) (i / kBitsPerWord)) as [Hq|Hq].
      * rewrite Hk by lia. destruct (Z.eqb_spec (j mod kBitsPerWord) (i mod kBitsPerWord)) as [Hr|Hr].
        -- rewrite (BitSet.same_index i j Hq Hr). by rewrite Z.eqb_refl.
        -- destruct (Z.eqb_spec j i) as [->|]; [done|]. unfold BitSet.has. rewrite (proj2 (Z.leb_le 0 j)), Hq, Hd by lia. done.
      * destruct (Z.eqb_spec j i) as [->|]; [done|]. done.
    + destruct (Z.eqb_spec j i); [lia|]. unfold BitSet.has. by rewrite (proj2 (Z.leb_gt 0 j)) by lia.
Qed.

Lemma in_range : (0 <=? i) && (i <? length_ v) = true.
Proof. lia. Qed.

Lemma Add_has : exists v', Add v i = Ok v' /\ bv_ok v' /\ length_ v' = length_ v /\ forall j, has v' j = (j =? i) || has v j.
Proof.
  destruct word_in as (d & Hw & Hd & Ud). destruct bit_of_eq as [Eb Ub]. pose proof W_pos.
  pose proof (Z.mod_pos_bound i kBitsPerWord). unfold Add. rewrite in_range, Hw, Eb. cbn [check mbind result_bind].
  rewrite Z.quot_div_nonneg by lia. eexists. split; [done|].
  destruct (set_word_ok d (d .| 2 ^ (i mod kBitsPerWord)) true Hd) as [H1 H2].
  - apply isU_iff_bits; [lia|apply Z.lor_nonneg; unfold isU in *; lia|]. intros k Hk. rewrite Z.lor_spec. by rewrite !isU_W by (done || lia).
  - intros k Hk. rewrite Z.lor_spec, Z.pow2_bits_eqb by lia. rewrite (Z.eqb_sym k). destruct (_ =? k); [apply orb_true_r|apply orb_false_r].
  - split_and!; [done|done|]. intros j. rewrite H2. by destruct (j =? i).
Qed.

Lemma Remove_has : exists v', Remove v i = Ok v' /\ bv_ok v' /\ length_ v' = length_ v /\ forall j, has v' j = negb (j =? i) && has v j.
Proof.
  destruct word_in as (d & Hw & Hd & Ud). destruct bit_of_eq as [Eb Ub]. pose proof W_pos.
  pose proof (Z.mod_pos_bound i kBitsPerWord). unfold Remove. rewrite in_range, Hw, Eb. cbn [check mbind result_bind].
  rewrite Z.quot_div_nonneg by lia. eexists. split; [done|].
  destruct (set_word_ok d (d .& uword (Z.lnot (2 ^ (i mod kBitsPerWord)))) false Hd) as [H1 H2].
  - apply isU_iff_bits; [lia|apply Z.land_nonneg; left; apply Ud|]. intros k Hk. rewrite Z.land_spec. by rewrite (isU_W d) by (done || lia).
  - intros k Hk. rewrite Z.land_spec. unfold uword. rewrite testbit_wrapU, Z.lnot_spec, Z.pow2_bits_eqb by lia.
    rewrite (Z.eqb_sym k). destruct (_ =? k); zcmp; cbn; btauto.
  - split_and!; [done|done|]. intros j. rewrite H2. by destruct (j =? i).
Qed.

Lemma Contains_has : Contains v i = Ok (has v i).
Proof.
  destruct word_in as (d & Hw & Hd & Ud). destruct bit_of_eq as [Eb Ub]. pose proof W_pos.
  pose proof (Z.mod_pos_bound i kBitsPerWord). unfold Contains. rewrite in_range, Hw, Eb. cbn [check mbind result_bind].
  f_equal. unfold BitSet.has. rewrite (proj2 (Z.leb_le 0 i)), Hd by lia. cbn [andb default from_option id].
  destruct (Z.testbit d (i mod kBitsPerWord)) eqn:Et.
  - apply negb_true_iff, Z.eqb_neq. intros Hz. apply (f_equal (fun z => Z.testbit z (i mod kBitsPerWord))) in Hz.
    rewrite Z.land_spec, Z.pow2_bits_true, Et, Z.bits_0 in Hz by lia. done.
  - apply negb_false_iff, Z.eqb_eq. apply Z.bits_inj'. intros k Hk. rewrite Z.land_spec, Z.bits_0, Z.pow2_bits_eqb by lia.
    destruct (Z.eqb_spec (i mod kBitsPerWord) k) as [<-|]; [by rewrite Et|apply andb_false_r].
Qed.

End Element.

(** ** Operations on all words *)

(** The bits of words combined one by one. *)
Lemma has_zip (f : Z -> Z -> Z) (g : bool -> bool -> bool) d1 d2 j :
  length d1 = length d2 -> Forall (isU kBitsPerWord) d1 -> Forall (isU kBitsPerWord) d2 -> g false false = false ->
  (forall x y k, isU kBitsPerWord x -> isU kBitsPerWord y -> 0 <= k < kBitsPerWord -> Z.testbit (f x y) k = g (Z.testbit x k) (Z.testbit y k)) ->
  BitSet.has (zip_with f d1 d2) j = g (BitSet.has d1 j) (BitSet.has d2 j).
Proof.
  intros Hl H1 H2 Hg Hf. pose proof W_pos as HW. unfold BitSet.has. destruct (Z.leb_spec 0 j) as [Hj|Hj]; cbn [andb]; [|done].
  pose proof (Z.mod_pos_bound j kBitsPerWord HW). rewrite lookup_zip_with. set (n := Z.to_nat (j / kBitsPerWord)).
  destruct (d1 !! n) as [x|] eqn:E1, (d2 !! n) as [y|] eqn:E2; cbn.
  - apply Hf; [by eapply Forall_lookup_1 in E1|by eapply Forall_lookup_1 in E2|done].
  - apply lookup_lt_Some in E1. apply lookup_ge_None in E2. lia.
  - apply lookup_lt_Some in E2. apply lookup_ge_None in E1. lia.
  - by rewrite Z.bits_0.
Qed.

Lemma isU_bits x : 0 <= x -> (forall k, kBitsPerWord <= k -> Z.testbit x k = false) -> isU kBitsPerWord x.
Proof. intros H0 Hk. pose proof W_pos. apply isU_iff_bits; [lia|done|done]. Qed.

Lemma isU_lor x y : isU kBitsPerWord x -> isU kBitsPerWord y -> isU kBitsPerWord (x .| y).
Proof. intros Hx Hy. apply isU_bits; [apply Z.lor_nonneg; unfold isU in *; lia|]. intros k Hk. rewrite Z.lor_spec, !isU_W by done. done. Qed.

Lemma isU_land x y : isU kBitsPerWord x -> isU kBitsPerWord (x .& y).
Proof. intros Hx. apply isU_bits; [apply Z.land_nonneg; left; apply Hx|]. intros k Hk. rewrite Z.land_spec, (isU_W x) by done. done. Qed.

Lemma testbit_not x k : 0 <= k < kBitsPerWord -> Z.testbit (uword (Z.lnot x)) k = negb (Z.testbit x k).
Proof. intros Hk. unfold uword. rewrite testbit_wrapU, Z.lnot_spec by lia. by zcmp. Qed.

Lemma Forall_zip f d1 d2 :
  Forall (isU kBitsPerWord) d1 -> Forall (isU kBitsPerWord) d2 ->
  (forall x y, isU kBitsPerWord x -> isU kBitsPerWord y -> isU kBitsPerWord (f x y)) -> Forall (isU kBitsPerWord) (zip_with f d1 d2).
Proof.
  intros H1 H2 Hf. revert d2 H2. induction H1 as [|x d1 Hx H1 IH]; intros [|y d2] H2; simpl; try constructor.
  - apply Hf; [done|]. by inversion H2.
  - apply IH. by inversion H2.
Qed.

(** A loop that answers whether it changed a word. *)
Definition changes (f : Z -> Z -> Z) (r : bool * list Z) (d from : list Z) : Prop :=
  r.2 = zip_with f d from /\ (r.1 = false <-> zip_with f d from = d).

Lemma AddAll_loop_ok d from : length d = length from -> changes Z.lor (AddAll_loop d from) d from.
Proof.
  revert from. induction d as [|x d IH]; intros [|y from] Hl; simplify_eq/=; [by split|].
  destruct (IH from ltac:(lia)) as [E1 E2]. destruct (AddAll_loop d from) as [c d']. simpl in *. subst d'. split; [done|]. simpl.
  destruct (Z.eqb_spec x (x .| y)) as [E|E]; simpl.
  - rewrite E2. split; [intros ->; by rewrite <- E|intros H; by injection H].
  - split; [done|]. intros H. injection H. congruence.
Qed.

Lemma RemoveAll_loop_ok d from : length d = length from -> changes (fun x y => x .& uword (Z.lnot y)) (RemoveAll_loop d from) d from.
Proof.
  revert from. induction d as [|x d IH]; intros [|y from] Hl; simplify_eq/=; [by split|].
  destruct (IH from ltac:(lia)) as [E1 E2]. destruct (RemoveAll_loop d from) as [c d']. simpl in *. subst d'. split; [done|]. simpl.
  destruct (Z.eqb_spec x (x .& uword (Z.lnot y))) as [E|E]; simpl.
  - rewrite E2. split; [intros ->; by rewrite <- E|intros H; by injection H].
  - split; [done|]. intros H. injection H. congruence.
Qed.

(** [KillAndAdd] adds what is generated and not killed. *)
Lemma KillAndAdd_loop_ok d kill gen :
  length d = length kill -> length d = length gen ->
  KillAndAdd_loop d kill gen = AddAll_loop d (zip_with (fun g k => g .& uword (Z.lnot k)) gen kill).
Proof.
  revert kill gen. induction d as [|x d IH]; intros [|k kill] [|g gen] H1 H2; simplify_eq/=; [done|].
  by rewrite IH by lia.
Qed.

Section Vectors.
Context (v o : BitVector).
Hypothesis Hv : bv_ok v.
Hypothesis Ho : bv_ok o.
Hypothesis Hlen : length_ o = length_ v.

Lemma same_size : length (data_ v) = length (data_ o).
Proof. destruct Hv as [_ E1 _], Ho as [_ E2 _]. unfold data_length_ in *. rewrite Hlen in E2. lia. Qed.

Lemma mk_ok d : length d = length (data_ v) -> Forall (isU kBitsPerWord) d -> bv_ok (mkBitVector (length_ v) d).
Proof. intros Hl HF. destruct Hv as [H0 E _]. constructor; simpl; [done| |done]. unfold data_length_ in *. simpl. by rewrite Hl. Qed.

Lemma AddAll_ok :
  exists changed v', AddAll v o = Ok (changed, v') /\ bv_ok v' /\ length_ v' = length_ v /\
    (forall j, has v' j = has v j || has o j) /\ (changed = false <-> v' = v).
Proof.
  pose proof same_size as Hl. unfold AddAll, data_length_. rewrite Hl, Z.eqb_refl. cbn [check mbind result_bind].
  destruct (AddAll_loop_ok (data_ v) (data_ o) Hl) as [E1 E2]. destruct (AddAll_loop _ _) as [c d]. simpl in *. subst d.
  eexists _, _. split; [done|]. split_and!.
  - apply mk_ok; [rewrite length_zip_with; lia|]. apply Forall_zip; [apply Hv|apply Ho|apply isU_lor].
  - done.
  - intros j. apply (has_zip Z.lor orb); try done; [apply Hv|apply Ho|]. intros. apply Z.lor_spec.
  - rewrite E2. destruct v. simpl. split; [by intros ->|intros H; by injection H].
Qed.

Lemma RemoveAll_ok :
  exists changed v', RemoveAll v o = Ok (changed, v') /\ bv_ok v' /\ length_ v' = length_ v /\
    (forall j, has v' j = has v j && negb (has o j)) /\ (changed = false <-> v' = v).
Proof.
  pose proof same_size as Hl. unfold RemoveAll, data_length_. rewrite Hl, Z.eqb_refl. cbn [check mbind result_bind].
  destruct (RemoveAll_loop_ok (data_ v) (data_ o) Hl) as [E1 E2]. destruct (RemoveAll_loop _ _) as [c d]. simpl in *. subst d.
  eexists _, _. split; [done|]. split_and!.
  - apply mk_ok; [rewrite length_zip_with; lia|]. apply Forall_zip; [apply Hv|apply Ho|]. intros. by apply isU_land.
  - done.
  - intros j. apply (has_zip (fun x y => x .& uword (Z.lnot y)) (fun x y => x && negb y)); try done; [apply Hv|apply Ho|].
    intros. by rewrite Z.land_spec, testbit_not.
  - rewrite E2. destruct v. simpl. split; [by intros ->|intros H; by injection H].
Qed.

Lemma Intersect_ok :
  exists v', Intersect v o = Ok v' /\ bv_ok v' /\ length_ v' = length_ v /\ forall j, has v' j = has v j && has o j.
Proof.
  pose proof same_size as Hl. unfold Intersect. rewrite Hlen, Z.eqb_refl. cbn [check mbind result_bind].
  assert (Intersect_loop (data_ v) (data_ o) = zip_with Z.land (data_ v) (data_ o)) as ->.
  { revert Hl. generalize (data_ v) (data_ o). intros d1. induction d1 as [|x d1 IH]; intros [|y d2] Hl; simplify_eq/=; [done|]. by rewrite IH by lia. }
  eexists. split; [done|]. split_and!.
  - apply mk_ok; [rewrite length_zip_with; lia|]. apply Forall_zip; [apply Hv|apply Ho|]. intros. by apply isU_land.
  - done.
  - intros j. apply (has_zip Z.land andb); try done; [apply Hv|apply Ho|]. intros. apply Z.land_spec.
Qed.

End Vectors.

Lemma KillAndAdd_ok v kill gen :
  bv_ok v -> bv_ok kill -> bv_ok gen -> length_ kill = length_ v -> length_ gen = length_ v ->
  exists changed v', KillAndAdd v kill gen = Ok (changed, v') /\ bv_ok v' /\ length_ v' = length_ v /\
    (forall j, has v' j = has v j || (has gen j && negb (has kill j))) /\ (changed = false <-> v' = v).
Proof.
  intros Hv Hk Hg Ek Eg. pose proof (same_size v kill Hv Hk Ek) as Lk. pose proof (same_size v gen Hv Hg Eg) as Lg.
  set (d := zip_with (fun g k => g .& uword (Z.lnot k)) (data_ gen) (data_ kill)).
  assert (bv_ok (mkBitVector (length_ v) d)) as Hd.
  { apply mk_ok; [done|unfold d; rewrite length_zip_with; lia|]. apply Forall_zip; [apply Hg|apply Hk|]. intros. by apply isU_land. }
  destruct (AddAll_ok v (mkBitVector (length_ v) d) Hv Hd eq_refl) as (c & v' & E & H1 & H2 & H3 & H4).
  exists c, v'. split_and!; try done; try apply H4.
  - unfold KillAndAdd. unfold AddAll in E. unfold data_length_ in *. rewrite Lk, Z.eqb_refl, <- Lk, Lg, Z.eqb_refl.
    rewrite KillAndAdd_loop_ok by lia. cbn [check mbind result_bind]. destruct (Z.of_nat _ =? _) in E; [|done]. exact E.
  - intros j. rewrite H3. f_equal. apply (has_zip (fun g k => g .& uword (Z.lnot k)) (fun x y => x && negb y)); try done; [lia|apply Hg|apply Hk|].
    intros. by rewrite Z.land_spec, testbit_not.
Qed.

Lemma has_fmap_const (d : list Z) x j :
  BitSet.has ((fun _ => x) <$> d) j = (0 <=? j) && (j / kBitsPerWord <? Z.of_nat (length d)) && Z.testbit x (j mod kBitsPerWord).
Proof.
  pose proof W_pos as HW. unfold BitSet.has. destruct (Z.leb_spec 0 j); [|done]. cbn [andb]. rewrite list_lookup_fmap.
  pose proof (Z.div_pos j kBitsPerWord). destruct (d !! Z.to_nat (j / kBitsPerWord)) as [y|] eqn:E; cbn.
  - apply lookup_lt_Some in E. by zcmp.
  - apply lookup_ge_None in E. rewrite Z.bits_0. by zcmp.
Qed.

Lemma Clear_has v : bv_ok v -> bv_ok (Clear v) /\ forall j, has (Clear v) j = false.
Proof.
  intros [H0 E HF]. pose proof W_pos. split.
  - constructor; simpl; [done| |].
    + unfold data_length_ in *. simpl. by rewrite length_fmap.
    + apply Forall_fmap, Forall_true. intros x. simpl. unfold isU. pose proof (pow2_pos kBitsPerWord). lia.
  - intros j. simpl. rewrite has_fmap_const, Z.bits_0. apply andb_false_r.
Qed.

Lemma uword_ones : uword (-1) = Z.ones kBitsPerWord.
Proof. unfold uword. rewrite <- land_ones_wrapU by (pose proof W_pos; lia). apply Z.land_m1_l. Qed.

Lemma SetAll_ok v : bv_ok v -> bv_ok (SetAll v) /\ forall j, 0 <= j < length_ v -> has (SetAll v) j = true.
Proof.
  intros [H0 E HF]. pose proof W_pos as HW. split.
  - constructor; simpl; [done| |].
    + unfold data_length_ in *. simpl. by rewrite length_fmap.
    + apply Forall_fmap, Forall_true. intros x. simpl. simpl. unfold uword. apply wrapU_range. lia.
  - intros j Hj. simpl. rewrite has_fmap_const, uword_ones. unfold data_length_ in E. pose proof (index_in_size _ _ Hj).
    pose proof (Z.mod_pos_bound j kBitsPerWord HW). rewrite Z.ones_spec_low by lia. by zcmp.
Qed.

Lemma BitVector_new_ok n : 0 <= n -> bv_ok (BitVector_new n) /\ length_ (BitVector_new n) = n /\ forall j, has (BitVector_new n) j = false.
Proof.
  intros Hn. pose proof W_pos. pose proof (SizeFor_pos n Hn).
  assert (bv_ok (mkBitVector n (replicate (Z.to_nat (SizeFor n)) 0))) as H1.
  { constructor; simpl; [done| |].
    - unfold data_length_. simpl. rewrite length_replicate. lia.
    - apply Forall_replicate. unfold isU. pose proof (pow2_pos kBitsPerWord). lia. }
  destruct (Clear_has _ H1). by split_and!.
Qed.

Lemma CopyFrom_ok v o : bv_ok v -> bv_ok o -> length_ o = length_ v -> exists v', CopyFrom v o = Ok v' /\ v' = o.
Proof.
  intros Hv Ho Hl. destruct (Clear_has v Hv) as [Hc Hh]. destruct (AddAll_ok (Clear v) o Hc Ho Hl) as (c & v' & E & H1 & H2 & H3 & _).
  exists v'. unfold CopyFrom. rewrite E. split; [done|]. destruct v' as [n d], o as [m e]. simpl in *. f_equal; [lia|].
  apply has_inj; [|apply H1|apply Ho|].
  - destruct H1 as [_ E1 _], Ho as [_ E2 _]. unfold data_length_ in *. simpl in *. rewrite H2, <- Hl in E1. lia.
  - intros j. by rewrite H3, Hh.
Qed.


(** ** The iterator *)

(** [t] is the lowest bit of [c]. *)
Definition low (c t : Z) : Prop := 0 <= t /\ Z.testbit c t = true /\ forall k, 0 <= k < t -> Z.testbit c k = false.

Lemma low_shift c t n : low c t -> 0 <= n <= t -> low (c >>> n) (t - n).
Proof.
  intros (H0 & H1 & H2) Hn. split; [lia|]. rewrite Z.shiftr_spec by lia. replace (t - n + n) with t by lia.
  split; [done|]. intros k Hk. rewrite Z.shiftr_spec by lia. apply H2. lia.
Qed.

Lemma low_mask c t n : low c t -> 0 <= n -> (c .& Z.ones n =? 0) = (n <=? t).
Proof.
  intros (H0 & H1 & H2) Hn. destruct (Z.leb_spec n t) as [Hle|Hlt].
  - apply Z.eqb_eq, Z.bits_inj'. intros k Hk. rewrite Z.land_spec, Z.bits_0. destruct (Z.ltb_spec k t).
    + by rewrite H2 by lia.
    + rewrite Z.ones_spec_high by lia. apply andb_false_r.
  - apply Z.eqb_neq. intros Hz. apply (f_equal (fun z => Z.testbit z t)) in Hz.
    rewrite Z.land_spec, H1, Z.bits_0, Z.ones_spec_low in Hz by lia. done.
Qed.

Lemma skip_bytes_ok fuel c b t :
  low c t -> t < 8 * Z.of_nat fuel -> exists n, skip_bytes fuel c b = (c >>> n, b + n) /\ 0 <= n <= t /\ t < n + 8.
Proof.
  revert c b t. induction fuel as [|fuel IH]; intros c b t Hlow Hf; [destruct Hlow; lia|]. cbn [skip_bytes].
  change 0xff with (Z.ones 8). rewrite (low_mask c t 8 Hlow) by lia. destruct (Z.leb_spec 8 t) as [Hle|Hlt].
  - destruct (IH (c >>> 8) (b + 8) (t - 8)) as (n & E & Hn); [by apply low_shift|lia|]. exists (8 + n).
    rewrite E, Z.shiftr_shiftr by lia. split; [f_equal; lia|lia].
  - exists 0. rewrite Z.shiftr_0_r, Z.add_0_r. split; [done|]. destruct Hlow. lia.
Qed.

Lemma skip_bits_ok fuel c b t : low c t -> t < Z.of_nat fuel -> skip_bits fuel c b = (c >>> t, b + t).
Proof.
  revert c b t. induction fuel as [|fuel IH]; intros c b t Hlow Hf; [destruct Hlow; lia|]. cbn [skip_bits].
  change 1 with (Z.ones 1) at 1. rewrite (low_mask c t 1 Hlow) by lia. destruct (Z.leb_spec 1 t) as [Hle|Hlt].
  - rewrite (IH (c >>> 1) (b + 1) (t - 1)); [|by apply low_shift|lia]. rewrite Z.shiftr_shiftr by lia. f_equal; [f_equal|]; lia.
  - assert (t = 0) as -> by (destruct Hlow; lia). by rewrite Z.shiftr_0_r, Z.add_0_r.
Qed.

Lemma skip_zeros_ok c b wi t : low c t -> t < kBitsPerWord -> skip_zeros c b wi = mkIterator (b + t) wi (c >>> (t + 1)).
Proof.
  intros Hlow Ht. pose proof W_pos. unfold skip_zeros.
  destruct (skip_bytes_ok (Z.to_nat kBitsPerWord) c b t Hlow ltac:(lia)) as (n & -> & Hn & _).
  rewrite (skip_bits_ok _ _ _ (t - n)); [|by apply low_shift|lia]. rewrite !Z.shiftr_shiftr by lia. f_equal; [lia|f_equal; lia].
Qed.

Lemma lowest c : isU kBitsPerWord c -> c <> 0 -> exists t, low c t /\ t < kBitsPerWord.
Proof. intros Hc H0. destruct (BitSet.CountTrailingZeros_ok c Hc H0) as (t & _ & Ht & H1 & H2). exists t. split; [|lia]. by split_and!; [lia|..]. Qed.

Section Iterate.
Context (v : BitVector).
Hypothesis Hv : bv_ok v.

(** The iterator is at [bit_index_] and holds the bits of its word above it. *)
Definition at_ (it : Iterator) : Prop :=
  0 <= word_index_ it < data_length_ v /\
  word_index_ it * kBitsPerWord - 1 <= bit_index_ it < (word_index_ it + 1) * kBitsPerWord /\
  current_word_ it = default 0 (data_ v !! Z.to_nat (word_index_ it)) >>> (bit_index_ it + 1 - word_index_ it * kBitsPerWord).

(** What [Advance] does: to the next element, or past the end. *)
Definition advanced (b : Z) (it : Iterator) : Prop :=
  (Done v it = true /\ forall j, b < j -> has v j = false) \/
  (Done v it = false /\ at_ it /\ b < bit_index_ it /\ has v (bit_index_ it) = true /\ forall j, b < j < bit_index_ it -> has v j = false).

Lemma skip_words_ok rest w :
  0 <= w < data_length_ v -> rest = drop (S (Z.to_nat w)) (data_ v) ->
  match skip_words rest w with
  | (wi, None) => wi = data_length_ v /\ forall j, (w + 1) * kBitsPerWord <= j -> has v j = false
  | (wi, Some c) => w < wi < data_length_ v /\ data_ v !! Z.to_nat wi = Some c /\ c <> 0 /\
      forall j, (w + 1) * kBitsPerWord <= j < wi * kBitsPerWord -> has v j = false
  end.
Proof.
  pose proof W_pos as HW. revert w. induction rest as [|d rest IH]; intros w Hw Hr; simpl.
  - apply (f_equal length) in Hr. rewrite length_drop in Hr. simpl in Hr. unfold data_length_ in *. split; [lia|].
    intros j Hj. apply has_outside. nia.
  - assert (data_ v !! Z.to_nat (w + 1) = Some d /\ rest = drop (S (Z.to_nat (w + 1))) (data_ v)) as [Hd Hrest].
    { replace (Z.to_nat (w + 1)) with (S (Z.to_nat w) + 0)%nat by lia. rewrite <- lookup_drop, <- Hr. split; [done|].
      replace (S (S (Z.to_nat w) + 0)) with (S (Z.to_nat w) + 1)%nat by lia. by rewrite <- drop_drop, <- Hr. }
    pose proof (lookup_lt_Some _ _ _ Hd). unfold data_length_ in *.
    destruct (Z.eqb_spec d 0) as [->|H0].
    + specialize (IH (w + 1) ltac:(lia) Hrest).
      assert (forall j, (w + 1) * kBitsPerWord <= j < (w + 1 + 1) * kBitsPerWord -> has v j = false) as Hz.
      { intros j Hj. apply (BitSet.has_zero_word (data_ v) (w + 1)); [lia|by rewrite Hd|lia]. }
      destruct (skip_words rest (w + 1)) as [wi [c|]].
      * destruct IH as (H1 & H2 & H3 & H4). split_and!; [lia|lia|done|done|]. intros j Hj.
        destruct (Z.ltb_spec j ((w + 1 + 1) * kBitsPerWord)); [apply Hz; lia|apply H4; lia].
      * destruct IH as [H1 H2]. split; [done|]. intros j Hj.
        destruct (Z.ltb_spec j ((w + 1 + 1) * kBitsPerWord)); [apply Hz; lia|apply H2; lia].
    + split_and!; [lia|lia|done|done|]. intros j Hj. lia.
Qed.

(** Bits of the rest of a word are elements. *)
Lemma has_shifted w s k :
  0 <= w < data_length_ v -> 0 <= s -> 0 <= k -> s + k < kBitsPerWord ->
  Z.testbit (default 0 (data_ v !! Z.to_nat w) >>> s) k = has v (w * kBitsPerWord + s + k).
Proof.
  intros Hw Hs Hk Hsk. rewrite Z.shiftr_spec by lia. replace (w * kBitsPerWord + s + k) with (w * kBitsPerWord + (k + s)) by lia.
  by rewrite BitSet.has_word by lia.
Qed.

Lemma Advance_ok it : at_ it -> advanced (bit_index_ it) (Advance v it).
Proof.
  pose proof W_pos as HW. intros (Hw & Hb & Hc). destruct it as [b w c]. simpl in *. set (s := b + 1 - w * kBitsPerWord) in *.
  set (x := default 0 (data_ v !! Z.to_nat w)) in *. assert (isU kBitsPerWord x) as Ux by (apply BitSet.word_isU, Hv).
  unfold Advance. simpl. destruct (Z.eqb_spec c 0) as [H0|H0].
  - assert (forall j, b < j < (w + 1) * kBitsPerWord -> has v j = false) as Hz.
    { intros j Hj. replace j with (w * kBitsPerWord + s + (j - b - 1)) by lia. rewrite <- has_shifted by lia. fold x. by rewrite <- Hc, H0, Z.bits_0. }
    pose proof (skip_words_ok (drop (S (Z.to_nat w)) (data_ v)) w Hw eq_refl) as Hs.
    destruct (skip_words _ w) as [wi [d|]].
    + destruct Hs as (Hwi & Hd & Hd0 & Hnone). pose proof (Forall_lookup_1 _ _ _ _ (bv_words v Hv) Hd) as Ud.
      destruct (lowest d Ud Hd0) as (t & Hlow & Ht). rewrite (skip_zeros_ok d _ wi t Hlow Ht). right.
      destruct Hlow as (Ht0 & Ht1 & Ht2). unfold Done, at_. simpl. split_and!.
      * apply Z.leb_gt. lia.
      * lia.
      * lia.
      * lia.
      * lia.
      * rewrite Hd. simpl. f_equal. lia.
      * nia.
      * by rewrite BitSet.has_word, Hd by lia.
      * intros j Hj. destruct (Z.ltb_spec j ((w + 1) * kBitsPerWord)); [apply Hz; lia|].
        destruct (Z.ltb_spec j (wi * kBitsPerWord)); [apply Hnone; lia|].
        replace j with (wi * kBitsPerWord + (j - wi * kBitsPerWord)) by lia. rewrite BitSet.has_word, Hd by lia. apply Ht2. lia.
    + destruct Hs as [Hwi Hnone]. left. unfold Done. simpl. split; [lia|]. intros j Hj.
      destruct (Z.ltb_spec j ((w + 1) * kBitsPerWord)); [apply Hz; lia|apply Hnone; lia].
  - assert (isU kBitsPerWord c) as Uc.
    { apply isU_bits; [rewrite Hc; apply Z.shiftr_nonneg; apply Ux|]. intros k Hk. rewrite Hc, Z.shiftr_spec by lia. apply isU_W; [done|lia]. }
    destruct (lowest c Uc H0) as (t & Hlow & Ht). pose proof Hlow as (Ht0 & Ht1 & Ht2).
    assert (s + t < kBitsPerWord) as Hst.
    { destruct (Z.ltb_spec (s + t) kBitsPerWord); [done|]. rewrite Hc, Z.shiftr_spec, (isU_W x) in Ht1 by (done || lia). done. }
    rewrite (skip_zeros_ok c (b + 1) w t Hlow Ht). right. unfold Done, at_. simpl.
    split_and!; [apply Z.leb_gt; lia|lia|lia|lia|lia| |lia| |].
    + rewrite Hc. fold x. rewrite Z.shiftr_shiftr by lia. f_equal. lia.
    + replace (b + 1 + t) with (w * kBitsPerWord + s + t) by lia. rewrite <- has_shifted by lia. fold x. by rewrite <- Hc.
    + intros j Hj. replace j with (w * kBitsPerWord + s + (j - b - 1)) by lia. rewrite <- has_shifted by lia. fold x. rewrite <- Hc. apply Ht2. lia.
Qed.

Lemma iterate_ok fuel it b :
  advanced b it -> -1 <= b < data_length_ v * kBitsPerWord -> data_length_ v * kBitsPerWord - b <= Z.of_nat fuel ->
  exists l, iterate fuel v it = Ok l /\ StronglySorted Z.lt l /\ forall j, j ∈ l <-> b < j /\ has v j = true.
Proof.
  pose proof W_pos as HW. revert it b. induction fuel as [|fuel IH]; intros it b Hadv Hb Hf; [lia|]. cbn [iterate].
  destruct Hadv as [[Hd Hnone]|(Hd & Hat & Hlt & Hhas & Hbetween)]; rewrite Hd.
  - exists []. split_and!; [done|constructor|]. intros j. rewrite elem_of_nil. split; [done|]. intros [Hj E]. by rewrite Hnone in E.
  - unfold Current. rewrite Hd. cbn [negb check mbind result_bind].
    pose proof Hat as (Hw & Hbi & _). destruct (IH (Advance v it) (bit_index_ it)) as (l & -> & Hs & Hl); [by apply Advance_ok|nia|lia|].
    cbn [mbind result_bind]. eexists. split; [done|]. split.
    + constructor; [done|]. apply Forall_forall. intros j Hj. by apply Hl in Hj as [? _].
    + intros j. rewrite elem_of_cons, Hl. split.
      * intros [->|[Hj E]]; [done|]. split; [lia|done].
      * intros [Hj E]. destruct (Z.lt_trichotomy j (bit_index_ it)) as [H|[H|H]]; [|by left|by right].
        rewrite Hbetween in E by lia. done.
Qed.

(** The iterator visits the elements of the words in ascending order, each once. *)
Lemma elements_ok :
  exists l, elements v = Ok l /\ StronglySorted Z.lt l /\ forall j, j ∈ l <-> has v j = true.
Proof.
  pose proof W_pos as HW. pose proof Hv as [H0 Hs HF]. pose proof (SizeFor_pos _ H0). unfold elements, Iterator_new, word.
  unfold data_length_ in Hs. destruct (lookup_lt_is_Some_2 (data_ v) (Z.to_nat 0) ltac:(lia)) as [d Hd]. rewrite Hd.
  cbn [mbind result_bind]. rewrite (proj2 (Z.ltb_lt 0 (data_length_ v))) by (unfold data_length_; lia). cbn [check mbind result_bind].
  destruct (iterate_ok (S (Z.to_nat (data_length_ v * kBitsPerWord))) (Advance v (mkIterator (-1) 0 d)) (-1)) as (l & E & Hl1 & Hl2).
  - apply (Advance_ok (mkIterator (-1) 0 d)). unfold at_, data_length_. simpl. split_and!; try lia. rewrite Hd. by rewrite Z.shiftr_0_r.
  - unfold data_length_. nia.
  - unfold data_length_. lia.
  - exists l. split_and!; [done|done|]. intros j. rewrite Hl2. split; [by intros [_ ?]|]. intros E2. split; [|done].
    unfold BitSet.has in E2. apply andb_prop in E2 as [E2 _]. lia.
Qed.

End Iterate.


(** ** Equality *)

Lemma Equals_loop_ok m d o :
  0 <= m <= kBitsPerWord -> d <> [] -> length d = length o -> Forall (isU kBitsPerWord) d -> Forall (isU kBitsPerWord) o ->
  Equals_loop (Z.ones m) d o = true <->
  forall j, 0 <= j < (Z.of_nat (length d) - 1) * kBitsPerWord + m -> BitSet.has d j = BitSet.has o j.
Proof.
  pose proof W_pos as HW. intros Hm. revert o. induction d as [|x d IH]; intros [|y o] Hne Hl Hd Ho; simplify_eq/=.
  apply Forall_cons in Hd as [Ux Hd]. apply Forall_cons in Ho as [Uy Ho].
  assert (forall (z : Z) (l : list Z) j, 0 <= j < kBitsPerWord -> BitSet.has (z :: l) j = Z.testbit z j) as Hfirst.
  { intros z l j Hj. rewrite <- (Z.add_0_l j), <- (Z.mul_0_l kBitsPerWord), BitSet.has_word by lia. done. }
  assert (forall (z : Z) (l : list Z) j, kBitsPerWord <= j -> BitSet.has (z :: l) j = BitSet.has l (j - kBitsPerWord)) as Hrest.
  { intros z l j Hj. unfold BitSet.has. replace j with (j - kBitsPerWord + 1 * kBitsPerWord) at 2 3 by lia. rewrite Z.div_add, Z.mod_add by lia.
    pose proof (Z.div_pos (j - kBitsPerWord) kBitsPerWord). replace (Z.to_nat ((j - kBitsPerWord) / kBitsPerWord + 1)) with (S (Z.to_nat ((j - kBitsPerWord) / kBitsPerWord))) by lia.
    simpl. by zcmp. }
  destruct d as [|x2 d].
  - destruct o; [|done]. rewrite Z.eqb_eq. split.
    + intros E j Hj. rewrite !Hfirst by (simpl in Hj; lia). apply (f_equal (fun z => Z.testbit z j)) in E.
      rewrite !Z.land_spec, !Z.ones_spec_low, !andb_true_r in E by (simpl in Hj; lia). done.
    + intros E. apply Z.bits_inj'. intros k Hk. rewrite !Z.land_spec. destruct (Z.ltb_spec k m).
      * rewrite !Z.ones_spec_low, !andb_true_r by lia. rewrite <- (Hfirst x []), <- (Hfirst y []) by lia. apply E. simpl. lia.
      * rewrite !Z.ones_spec_high, !andb_false_r by lia. done.
  - destruct o as [|y2 o]; [done|]. specialize (IH (y2 :: o) ltac:(done) ltac:(simpl in *; lia) Hd Ho).
    set (d' := x2 :: d) in *. set (o' := y2 :: o) in *. change (Z.of_nat (S (length d'))) with (Z.of_nat (S (length d'))).
    assert (1 <= Z.of_nat (length d')) as Hpos by (subst d'; simpl; lia).
    destruct (Z.eqb_spec x y) as [->|Hxy]; cbn [negb].
    + rewrite IH. split; intros E j Hj.
      * destruct (Z.ltb_spec j kBitsPerWord); [by rewrite !Hfirst by lia|]. rewrite !Hrest by lia. apply E. lia.
      * specialize (E (j + kBitsPerWord) ltac:(lia)). rewrite !Hrest in E by lia. by replace (j + kBitsPerWord - kBitsPerWord) with j in E by lia.
    + split; [done|]. intros E. exfalso. apply Hxy. apply Z.bits_inj'. intros k Hk. destruct (Z.ltb_spec k kBitsPerWord).
      * rewrite <- (Hfirst x d'), <- (Hfirst y o') by lia. apply E. nia.
      * by rewrite !isU_W by (done || lia).
Qed.

(** [Equals] compares the sets, for vectors that can hold something. *)
Lemma Equals_has v o :
  bv_ok v -> bv_ok o -> 0 < length_ v ->
  Equals v o = true <-> length_ v = length_ o /\ forall j, 0 <= j < length_ v -> has v j = has o j.
Proof.
  intros Hv Ho Hpos. pose proof W_pos as HW. unfold Equals. destruct (Z.eqb_spec (length_ v) (length_ o)) as [Hl|Hl]; cbn [negb]; [|by split; [|intros [? _]]].
  assert ((kBitsPerWord - length_ v) .& (kBitsPerWord - 1) = (- length_ v) mod kBitsPerWord) as ->.
  { rewrite BitSet.bit_index. replace (kBitsPerWord - length_ v) with (- length_ v + 1 * kBitsPerWord) by lia. apply Z.mod_add. lia. }
  set (s := (- length_ v) mod kBitsPerWord). assert (0 <= s < kBitsPerWord) as Hs by (apply Z.mod_pos_bound; lia).
  assert (uword (-1) >>> s = Z.ones (kBitsPerWord - s)) as ->.
  { rewrite uword_ones. apply Z.bits_inj'. intros k Hk. rewrite Z.shiftr_spec, !Z.testbit_ones_nonneg by lia. zcmp; lia. }
  assert ((Z.of_nat (length (data_ v)) - 1) * kBitsPerWord + (kBitsPerWord - s) = length_ v) as Hend.
  { destruct Hv as [_ E _]. unfold data_length_, SizeFor in E. rewrite E, Z.quot_div_nonneg by lia.
    pose proof (Z.div_mod (length_ v - 1) kBitsPerWord (Z.neq_sym _ _ (Z.lt_neq _ _ HW))) as Hd. pose proof (Z.mod_pos_bound (length_ v - 1) kBitsPerWord HW).
    assert (s = kBitsPerWord - 1 - (length_ v - 1) mod kBitsPerWord) as ->; [|lia].
    symmetry. apply (Z.mod_unique (- length_ v) kBitsPerWord (- ((length_ v - 1) / kBitsPerWord) - 1)); [lia|]. nia. }
  pose proof (same_size v o Hv Ho ltac:(lia)) as Hsz.
  rewrite Equals_loop_ok; [|lia| |done|apply Hv|apply Ho].
  - rewrite Hend. split; [done|by intros [_ ?]].
  - intros E. destruct Hv as [_ E2 _]. unfold data_length_ in E2. rewrite E in E2. simpl in E2. pose proof (SizeFor_pos (length_ v) ltac:(lia)). lia.
Qed.

(** ** Vectors of one length *)

Definition vec (n : Z) (v : BitVector) : Prop := bv_ok v /\ length_ v = n.

Lemma Add_vec n v i : vec n v -> 0 <= i < n -> exists v', Add v i = Ok v' /\ vec n v' /\ forall j, has v' j = (j =? i) || has v j.
Proof. intros [Hv <-] Hi. destruct (Add_has v i Hv Hi) as (v' & E & H1 & H2 & H3). by exists v'. Qed.

Lemma Remove_vec n v i : vec n v -> 0 <= i < n -> exists v', Remove v i = Ok v' /\ vec n v' /\ forall j, has v' j = negb (j =? i) && has v j.
Proof. intros [Hv <-] Hi. destruct (Remove_has v i Hv Hi) as (v' & E & H1 & H2 & H3). by exists v'. Qed.

Lemma Contains_vec n v i : vec n v -> 0 <= i < n -> Contains v i = Ok (has v i).
Proof. intros [Hv <-] Hi. by apply Contains_has. Qed.

Lemma vec_new n : 0 <= n -> vec n (BitVector_new n).
Proof. intros Hn. destruct (BitVector_new_ok n Hn) as (H1 & H2 & _). done. Qed.

Lemma AddAll_vec n v o : vec n v -> vec n o -> exists changed v', AddAll v o = Ok (changed, v') /\ vec n v' /\ forall j, has v' j = has v j || has o j.
Proof. intros [Hv <-] [Ho Eo]. destruct (AddAll_ok v o Hv Ho Eo) as (c & v' & E & H1 & H2 & H3 & _). by exists c, v'. Qed.

(** ** Counting bits *)

Definition count (P : Z -> bool) (l : list Z) : nat := length (filter (fun j => P j = true) l).

Lemma count_le P Q l : (forall j, P j = true -> Q j = true) -> (count P l <= count Q l)%nat.
Proof.
  intros H. unfold count. induction l as [|x l IH]; [done|]. rewrite !filter_cons. destruct (decide (P x = true)) as [HP|HP].
  - rewrite (decide_True (P := Q x = true)) by auto. simpl. lia.
  - destruct (decide (Q x = true)); simpl; lia.
Qed.

Lemma count_less P Q l x : (forall j, P j = true -> Q j = true) -> x ∈ l -> P x = false -> Q x = true -> (count P l < count Q l)%nat.
Proof.
  intros H Hx HP HQ. induction l as [|y l IH]; [by apply not_elem_of_nil in Hx|]. pose proof (count_le P Q l H) as Hle. unfold count in *. rewrite !filter_cons.
  apply elem_of_cons in Hx as [<-|Hx].
  - rewrite decide_False by congruence. rewrite decide_True by done. simpl. lia.
  - specialize (IH Hx). destruct (decide (P y = true)) as [HPy|HPy].
    + rewrite (decide_True (P := Q y = true)) by auto. simpl. lia.
    + destruct (decide (Q y = true)); simpl; lia.
Qed.

Lemma count_bound P l : (count P l <= length l)%nat.
Proof. unfold count. apply length_filter. Qed.

End bitvector.

End BitVector.
