(* ===== verification/Liveness.v ===== *)
(** * Liveness analysis: vm/flow_graph.h, vm/flow_graph.cc

    [LivenessAnalysis], the iteration to a fixed point over the blocks of a flow
    graph, and [VariableLivenessAnalysis], which starts it from the loads and stores
    of local variables, marks the stores nobody reads and the last loads, and tells
    SSA construction which variables a block assigns.  Blocks are known by their
    postorder numbers; an instruction that does not load or store a local is [Other]. *)

From stdpp Require Import base numbers list.
From Stdlib Require Import ZArith Lia Btauto.
From S2P Require Import Prelude HeapMemory BitSet BitVector.

Local Open Scope Z_scope.
Local Open Scope mach_scope.

Module Liveness.
Import BitVector.

(** vm/stack_frame_mips.h *)
Definition kFirstLocalSlotFromFp : Z := -3.
Definition kParamEndSlotFromFp : Z := 1.

(** vm/scopes.h: what the analysis uses of a [LocalVariable].  [context_level] is that
    of its owner. *)
Record LocalVariable := mkLocal { index_ : Z; is_captured : bool; context_level : Z }.

Definition kUninitializedIndex : Z := -2 ^ 31.

Definition HasIndex (v : LocalVariable) : bool := negb (index_ v =? kUninitializedIndex).

Definition index (v : LocalVariable) : M Z := check (HasIndex v);; Ok (index_ v).

(** [index()] is called on variables that have one. *)
Definition LocalVariable_Equals (v other : LocalVariable) : bool :=
  HasIndex v && HasIndex other && (index_ v =? index_ other) &&
  (Bool.eqb (is_captured v) (is_captured other) &&
   (if negb (is_captured v) then true else context_level v =? context_level other)).

Definition BitIndexIn (v : LocalVariable) (fixed_parameter_count : Z) : M Z :=
  check (negb (is_captured v));;
  index ← index v;
  Ok (if 0 <? index then fixed_parameter_count - (index - kParamEndSlotFromFp)
      else fixed_parameter_count - (index - kFirstLocalSlotFromFp)).

Inductive Instruction :=
| LoadLocal (local : LocalVariable) (is_last : bool)
| StoreLocal (local : LocalVariable) (is_dead is_last : bool)
| Other.

(** A block: the instructions after its entry, the successors of the last one, and
    [InsideTryBlock()]. *)
Record Block := mkBlock { instructions : list Instruction; successors : list nat; InsideTryBlock : bool }.

Section liveness.
Context {T : Target}.

Record LivenessAnalysis := mkLiveness {
  variable_count_ : Z; live_out_ : list BitVector; kill_ : list BitVector; live_in_ : list BitVector
}.

Definition set_live_out (s : list BitVector) (l : LivenessAnalysis) := mkLiveness (variable_count_ l) s (kill_ l) (live_in_ l).
Definition set_kill (s : list BitVector) (l : LivenessAnalysis) := mkLiveness (variable_count_ l) (live_out_ l) s (live_in_ l).
Definition set_live_in (s : list BitVector) (l : LivenessAnalysis) := mkLiveness (variable_count_ l) (live_out_ l) (kill_ l) s.

(** [operator[]] of [GrowableArray]. *)
Definition at_index {A} (l : list A) (i : nat) : M A :=
  match l !! i with Some a => Ok a | None => Err BAssertFailed end.

(** ** The fixed point *)

Fixpoint UpdateLiveOut_loop (succs : list nat) (live_in : list BitVector) (live_out : BitVector) : M (bool * BitVector) :=
  match succs with
  | [] => Ok (false, live_out)
  | succ :: succs =>
      s ← at_index live_in succ;
      r ← AddAll live_out s;
      r2 ← UpdateLiveOut_loop succs live_in (snd r);
      Ok (fst r || fst r2, snd r2)
  end.

Definition UpdateLiveOut (l : LivenessAnalysis) (block : Block) (postorder_number : nat) : M (bool * LivenessAnalysis) :=
  live_out ← at_index (live_out_ l) postorder_number;
  r ← UpdateLiveOut_loop (successors block) (live_in_ l) live_out;
  Ok (fst r, set_live_out (<[postorder_number := snd r]> (live_out_ l)) l).

Definition UpdateLiveIn (l : LivenessAnalysis) (postorder_number : nat) : M (bool * LivenessAnalysis) :=
  live_out ← at_index (live_out_ l) postorder_number;
  kill ← at_index (kill_ l) postorder_number;
  live_in ← at_index (live_in_ l) postorder_number;
  r ← KillAndAdd live_in kill live_out;
  Ok (fst r, set_live_in (<[postorder_number := snd r]> (live_in_ l)) l).

(** The body of the loop of [ComputeLiveInAndLiveOutSets], from block [i] on. *)
Fixpoint update_blocks (blocks : list Block) (i : nat) (l : LivenessAnalysis) : M (bool * LivenessAnalysis) :=
  match blocks with
  | [] => Ok (false, l)
  | block :: blocks =>
      r ← UpdateLiveOut l block i;
      r2 ← (if fst r : bool then UpdateLiveIn (snd r) i else Ok (false, snd r));
      r3 ← update_blocks blocks (S i) (snd r2);
      Ok (fst r2 || fst r3, snd r3)
  end.

Fixpoint ComputeLiveInAndLiveOutSets (fuel : nat) (postorder : list Block) (l : LivenessAnalysis) : M LivenessAnalysis :=
  match fuel with
  | O => Err BNoReturn
  | S fuel =>
      r ← update_blocks postorder 0 l;
      if fst r : bool then ComputeLiveInAndLiveOutSets fuel postorder (snd r) else Ok (snd r)
  end.

(** ** Local variables *)

Section variables.
Context (num_non_copied_params_ : Z).

(** The sets a block is given while its instructions are visited. *)
Record Sets := mkSets { s_kill : BitVector; s_live_in : BitVector; s_last_loads : BitVector }.

(** One round of the backward iteration. *)
Definition visit (current : Instruction) (s : Sets) : M (Instruction * Sets) :=
  match current with
  | LoadLocal local is_last =>
      index ← BitIndexIn local num_non_copied_params_;
      if length_ (s_live_in s) <=? index then Ok (current, s)
      else
        live_in ← Add (s_live_in s) index;
        c ← Contains (s_last_loads s) index;
        if negb c then
          last_loads ← Add (s_last_loads s) index;
          Ok (LoadLocal local true, mkSets (s_kill s) live_in last_loads)
        else Ok (current, mkSets (s_kill s) live_in (s_last_loads s))
  | StoreLocal local is_dead is_last =>
      index ← BitIndexIn local num_non_copied_params_;
      if length_ (s_live_in s) <=? index then Ok (current, s)
      else
        k ← Contains (s_kill s) index;
        l ← Contains (s_live_in s) index;
        r ← (if k : bool then Ok (StoreLocal local (if negb l then true else is_dead) is_last, s_kill s)
             else kill ← Add (s_kill s) index; Ok (StoreLocal local is_dead (if negb l then true else is_last), kill));
        live_in ← Remove (s_live_in s) index;
        Ok (fst r, mkSets (snd r) live_in (s_last_loads s))
  | Other => Ok (Other, s)
  end.

(** [for (BackwardInstructionIterator it(block); ...)] *)
Fixpoint visit_backwards (l : list Instruction) (s : Sets) : M (list Instruction * Sets) :=
  match l with
  | [] => Ok ([], s)
  | current :: l =>
      r ← visit_backwards l s;
      r2 ← visit current (snd r);
      Ok (fst r2 :: fst r, snd r2)
  end.

(** [VariableLivenessAnalysis::ComputeInitialSets], from block [i] on; the marks are
    put on the instructions. *)
Fixpoint ComputeInitialSets (blocks : list Block) (i : nat) (last_loads : BitVector) (l : LivenessAnalysis)
    : M (list Block * LivenessAnalysis) :=
  match blocks with
  | [] => Ok ([], l)
  | block :: blocks =>
      kill ← at_index (kill_ l) i;
      live_in ← at_index (live_in_ l) i;
      let last_loads := Clear last_loads in
      r ← (if InsideTryBlock block then
             Ok (block, (mkSets kill (SetAll live_in) last_loads))
           else
             r ← visit_backwards (instructions block) (mkSets kill live_in last_loads);
             Ok (mkBlock (fst r) (successors block) (InsideTryBlock block), snd r));
      let s := snd r in
      r2 ← ComputeInitialSets blocks (S i) (s_last_loads s)
             (set_live_in (<[i := s_live_in s]> (live_in_ l)) (set_kill (<[i := s_kill s]> (kill_ l)) l));
      Ok (fst r :: fst r2, snd r2)
  end.

(** [Analyze].  The rounds of the iteration: a block's [live_in] gets another bit in
    each but the last. *)
Definition Analyze (variable_count : Z) (postorder : list Block) : M (list Block * LivenessAnalysis) :=
  let sets := replicate (length postorder) (BitVector_new variable_count) in
  r ← ComputeInitialSets postorder 0 (BitVector_new variable_count) (mkLiveness variable_count sets sets sets);
  l ← ComputeLiveInAndLiveOutSets (S (length postorder * Z.to_nat (SizeFor variable_count * kBitsPerWord))) postorder (snd r);
  Ok (fst r, l).

(** [store] and [load] are instructions of [block]. *)
Definition IsStoreAlive (l : LivenessAnalysis) (context_var : LocalVariable) (block : nat) (store : Instruction) : M bool :=
  match store with
  | StoreLocal local is_dead is_last =>
      if LocalVariable_Equals local context_var then Ok true
      else if is_dead then Ok false
      else if is_last then
        index ← BitIndexIn local num_non_copied_params_;
        live_out ← at_index (live_out_ l) block;
        Contains live_out index
      else Ok true
  | _ => Err BAssertFailed
  end.

Definition IsLastLoad (l : LivenessAnalysis) (context_var : LocalVariable) (block : nat) (load : Instruction) : M bool :=
  match load with
  | LoadLocal local is_last =>
      if LocalVariable_Equals local context_var then Ok false
      else
        index ← BitIndexIn local num_non_copied_params_;
        if negb is_last then Ok false
        else
          live_out ← at_index (live_out_ l) block;
          c ← Contains live_out index;
          Ok (negb c)
  | _ => Err BAssertFailed
  end.

(** [ComputeAssignedVars]; [preorder]: the postorder numbers of the blocks in preorder.
    The kill sets themselves become the result. *)
Fixpoint ComputeAssignedVars (postorder : list Block) (preorder : list nat) (l : LivenessAnalysis)
    : M (list BitVector * LivenessAnalysis) :=
  match preorder with
  | [] => Ok ([], l)
  | n :: preorder =>
      block ← at_index postorder n;
      kill ← at_index (kill_ l) n;
      live_out ← at_index (live_out_ l) n;
      kill ← (if InsideTryBlock block then Ok (SetAll kill) else Intersect kill live_out);
      r ← ComputeAssignedVars postorder preorder (set_kill (<[n := kill]> (kill_ l)) l);
      Ok (kill :: fst r, snd r)
  end.

End variables.

End liveness.

End Liveness.
