(* ===== verification/LivenessProps.v ===== *)
(** * Liveness analysis is exact

    What it means for a variable to be live at a point of a flow graph, the reference
    definitions of the sets a block starts with, and the theorems: the analysis
    returns, its sets are the live variables, and what SSA construction does with
    them is right. *)

From stdpp Require Import base numbers list.
From Stdlib Require Import ZArith Lia Btauto.
From S2P Require Import Prelude HeapMemory BitSet BitVector Liveness.

Local Open Scope Z_scope.
Local Open Scope mach_scope.

Module LivenessProps.
Import BitVector Liveness.

Section props.
Context {T : Target} (params : Z).

(** ** Live variables *)

(** The index [BitIndexIn] gives a variable that is not captured. *)
Definition idx (x : LocalVariable) : Z :=
  if 0 <? index_ x then params - (index_ x - kParamEndSlotFromFp) else params - (index_ x - kFirstLocalSlotFromFp).

Definition loads (v : Z) (i : Instruction) : bool := match i with LoadLocal x _ => idx x =? v | _ => false end.
Definition stores (v : Z) (i : Instruction) : bool := match i with StoreLocal x _ _ => idx x =? v | _ => false end.

(** The paths of the flow graph on which variable [v] keeps its value: from before
    instruction [k] of block [b] to before instruction [k'] of block [b'], without a
    store to [v] in between. *)
Inductive keeps (g : list Block) (v : Z) : nat -> nat -> nat -> nat -> Prop :=
| keeps_here b k : keeps g v b k b k
| keeps_step b k B i b' k' :
    g !! b = Some B -> instructions B !! k = Some i -> stores v i = false -> keeps g v b (S k) b' k' -> keeps g v b k b' k'
| keeps_end b B s b' k' :
    g !! b = Some B -> s ∈ successors B -> keeps g v s 0 b' k' -> keeps g v b (length (instructions B)) b' k'.

(** Some path reads the value that [v] has there before it overwrites it. *)
Definition may_read (g : list Block) (v : Z) (b k : nat) : Prop :=
  exists b' k' B i, keeps g v b k b' k' /\ g !! b' = Some B /\ instructions B !! k' = Some i /\ loads v i = true.

(** Some path brings the value into a try block before it overwrites it. *)
Definition may_enter_try (g : list Block) (v : Z) (b k : nat) : Prop :=
  exists b' k' B, keeps g v b k b' k' /\ g !! b' = Some B /\ InsideTryBlock B = true.

(** Both at once, as a recursive predicate: what the analysis calls live.  The catch
    block may read any variable, and the analysis takes every point of a try block as
    one where it does. *)
Inductive live_at (g : list Block) (v : Z) : nat -> nat -> Prop :=
| live_try b k B : g !! b = Some B -> InsideTryBlock B = true -> live_at g v b k
| live_load b k B i : g !! b = Some B -> instructions B !! k = Some i -> loads v i = true -> live_at g v b k
| live_step b k B i : g !! b = Some B -> instructions B !! k = Some i -> stores v i = false -> live_at g v b (S k) -> live_at g v b k
| live_end b B s : g !! b = Some B -> s ∈ successors B -> live_at g v s 0 -> live_at g v b (length (instructions B)).

Lemma live_at_paths g v b k : live_at g v b k <-> may_read g v b k \/ may_enter_try g v b k.
Proof.
  split.
  - induction 1 as [b k B HB Ht|b k B i HB Hi Hl|b k B i HB Hi Hs _ [(b' & k' & P)|(b' & k' & P)]|b B s HB Hin _ [(b' & k' & P)|(b' & k' & P)]].
    + right. exists b, k, B. split_and!; [apply keeps_here|done..].
    + left. exists b, k, B, i. split_and!; [apply keeps_here|done..].
    + left. destruct P as (B' & i' & P & ?). exists b', k', B', i'. split; [by eapply keeps_step|done].
    + right. destruct P as (B' & P & ?). exists b', k', B'. split; [by eapply keeps_step|done].
    + left. destruct P as (B' & i' & P & ?). exists b', k', B', i'. split; [by eapply keeps_end|done].
    + right. destruct P as (B' & P & ?). exists b', k', B'. split; [by eapply keeps_end|done].
  - intros [(b' & k' & B & i & P & HB & Hi & Hl)|(b' & k' & B & P & HB & Ht)].
    + induction P; [by eapply live_load|eapply live_step; eauto|eapply live_end; eauto].
    + induction P; [by eapply live_try|eapply live_step; eauto|eapply live_end; eauto].
Qed.

Lemma no_try g v b k : Forall (fun B => InsideTryBlock B = false) g -> ~ may_enter_try g v b k.
Proof. intros Hg (b' & k' & B & _ & HB & Ht). pose proof (Forall_lookup_1 _ _ _ _ Hg HB) as E. simpl in E. congruence. Qed.

(** What the analysis is given: variables of the frame, and edges between blocks. *)
Definition in_frame (x : LocalVariable) : bool := negb (is_captured x) && HasIndex x.
Definition instr_ok (i : Instruction) : Prop :=
  match i with LoadLocal x _ | StoreLocal x _ _ => in_frame x = true /\ 0 <= idx x | Other => True end.
Definition graph_ok (g : list Block) : Prop :=
  Forall (fun B => Forall instr_ok (instructions B) /\ Forall (fun s => (s < length g)%nat) (successors B)) g.

(** ** The sets of a block *)

Fixpoint exposed (v : Z) (l : list Instruction) : bool :=
  match l with [] => false | i :: l => loads v i || (negb (stores v i) && exposed v l) end.
Definition stored (v : Z) (l : list Instruction) : bool := existsb (stores v) l.
Definition loaded (v : Z) (l : list Instruction) : bool := existsb (loads v) l.

(** The marks: [rest] are the instructions after [i]. *)
Definition mark (n : Z) (i : Instruction) (rest : list Instruction) : Instruction :=
  match i with
  | LoadLocal x l => if n <=? idx x then i else LoadLocal x (negb (loaded (idx x) rest) || l)
  | StoreLocal x d l =>
      if n <=? idx x then i
      else if stored (idx x) rest then StoreLocal x (negb (exposed (idx x) rest) || d) l
      else StoreLocal x d (negb (exposed (idx x) rest) || l)
  | Other => Other
  end.

Fixpoint mark_all (n : Z) (l : list Instruction) : list Instruction :=
  match l with [] => [] | i :: l => mark n i l :: mark_all n l end.

Definition mark_block (n : Z) (B : Block) : Block :=
  if InsideTryBlock B then B else mkBlock (mark_all n (instructions B)) (successors B) (InsideTryBlock B).

Definition sets_ok (n : Z) (s : Sets) (l : list Instruction) : Prop :=
  vec n (s_kill s) /\ vec n (s_live_in s) /\ vec n (s_last_loads s) /\
  forall j, 0 <= j < n ->
    BitSet.has (data_ (s_kill s)) j = stored j l /\ BitSet.has (data_ (s_live_in s)) j = exposed j l /\
    BitSet.has (data_ (s_last_loads s)) j = loaded j l.

Lemma BitIndexIn_ok x : in_frame x = true -> BitIndexIn x params = Ok (idx x).
Proof. intros [Hc Hi]%andb_prop. unfold BitIndexIn, index. by rewrite Hc, Hi. Qed.

(** One instruction. *)
Lemma visit_sets n s i rest :
  instr_ok i -> sets_ok n s rest -> exists s', visit params i s = Ok (mark n i rest, s') /\ sets_ok n s' (i :: rest).
Proof.
  intros Hi (Hk & Hl & Hll & Hs). destruct i as [x last|x dead last|]; [| |by exists s].
  - destruct Hi as [Hc H0]. unfold visit. rewrite BitIndexIn_ok by done. cbn [mbind result_bind]. rewrite (proj2 Hl). unfold mark.
    destruct (Z.leb_spec n (idx x)) as [Hn|Hn].
    + exists s. split; [done|]. split_and!; try done. intros j Hj. destruct (Hs j Hj) as (E1 & E2 & E3).
      unfold stored, loaded in *. simpl. replace (idx x =? j) with false by lia. done.
    + destruct (Add_vec n _ (idx x) Hl ltac:(lia)) as (li & -> & Hli & Eli). cbn [mbind result_bind].
      rewrite (Contains_vec n _ _ Hll) by lia. cbn [mbind result_bind]. rewrite (proj2 (proj2 (Hs (idx x) ltac:(lia)))).
      destruct (loaded (idx x) rest) eqn:El; cbn [negb orb].
      * eexists. split; [done|]. split_and!; try done. intros j Hj. destruct (Hs j Hj) as (E1 & E2 & E3). simpl.
        rewrite Eli, E1, E2, E3. rewrite (Z.eqb_sym j). unfold stored, loaded in *. simpl. destruct (Z.eqb_spec (idx x) j) as [<-|]; [by rewrite El|done].
      * destruct (Add_vec n _ (idx x) Hll ltac:(lia)) as (ll & -> & Hll' & Ell). cbn [mbind result_bind].
        eexists. split; [done|]. split_and!; try done. intros j Hj. destruct (Hs j Hj) as (E1 & E2 & E3). simpl.
        rewrite Eli, Ell, E1, E2, E3. by rewrite (Z.eqb_sym j).
  - destruct Hi as [Hc H0]. unfold visit. rewrite BitIndexIn_ok by done. cbn [mbind result_bind]. rewrite (proj2 Hl). unfold mark.
    destruct (Z.leb_spec n (idx x)) as [Hn|Hn].
    + exists s. split; [done|]. split_and!; try done. intros j Hj. destruct (Hs j Hj) as (E1 & E2 & E3).
      unfold stored, loaded in *. simpl. replace (idx x =? j) with false by lia. done.
    + rewrite (Contains_vec n _ _ Hk), (Contains_vec n _ _ Hl) by lia. cbn [mbind result_bind].
      destruct (Remove_vec n _ (idx x) Hl ltac:(lia)) as (li & Er & Hli & Eli).
      destruct (Hs (idx x) ltac:(lia)) as (-> & -> & _). destruct (stored (idx x) rest) eqn:Est; cbn [mbind result_bind fst snd].
      * rewrite Er. cbn [mbind result_bind]. eexists. split; [by destruct (exposed (idx x) rest)|]. split_and!; try done.
        intros j Hj. destruct (Hs j Hj) as (E1 & E2 & E3). simpl. rewrite Eli, E1, E2, E3, (Z.eqb_sym j). unfold stored, loaded in *. simpl.
        destruct (Z.eqb_spec (idx x) j) as [<-|]; [by rewrite Est|done].
      * destruct (Add_vec n _ (idx x) Hk ltac:(lia)) as (k' & -> & Hk' & Ek'). cbn [mbind result_bind fst snd]. rewrite Er. cbn [mbind result_bind].
        eexists. split; [by destruct (exposed (idx x) rest)|]. split_and!; try done.
        intros j Hj. destruct (Hs j Hj) as (E1 & E2 & E3). simpl. by rewrite Eli, Ek', E1, E2, E3, (Z.eqb_sym j).
Qed.

Lemma visit_backwards_ok n s l :
  Forall instr_ok l -> sets_ok n s [] -> exists s', visit_backwards params l s = Ok (mark_all n l, s') /\ sets_ok n s' l.
Proof.
  intros Hl Hs. induction Hl as [|i l Hi Hl (s1 & E1 & H1)]; [by exists s|]. cbn [visit_backwards]. rewrite E1. cbn [mbind result_bind fst snd].
  destruct (visit_sets n s1 i l Hi H1) as (s2 & -> & H2). cbn [mbind result_bind fst snd]. by exists s2.
Qed.

(** ** The initial sets *)

Lemma mbind_ok {A B} (m : M A) (f : A -> M B) a : m = Ok a -> (m ≫= f) = f a.
Proof. by intros ->. Qed.

Lemma at_index_ok {A} (l : list A) i a : l !! i = Some a -> at_index l i = Ok a.
Proof. unfold at_index. by intros ->. Qed.

(** What a block starts with. *)
Definition start_ok (n : Z) (B : Block) (kill live_in : BitVector) : Prop :=
  forall j, 0 <= j < n ->
    BitSet.has (data_ kill) j = (if InsideTryBlock B then false else stored j (instructions B)) /\
    BitSet.has (data_ live_in) j = (if InsideTryBlock B then true else exposed j (instructions B)).

Definition empty (n : Z) (v : BitVector) : Prop := vec n v /\ forall j, 0 <= j < n -> BitSet.has (data_ v) j = false.

(** The vectors of all blocks. *)
Record state_ok (n : Z) (m : nat) (l : LivenessAnalysis) : Prop := {
  so_out : length (live_out_ l) = m /\ Forall (vec n) (live_out_ l);
  so_kill : length (kill_ l) = m /\ Forall (vec n) (kill_ l);
  so_in : length (live_in_ l) = m /\ Forall (vec n) (live_in_ l)
}.

Lemma ComputeInitialSets_ok n m blocks i last_loads l :
  Forall (fun B => Forall instr_ok (instructions B)) blocks -> vec n last_loads -> state_ok n m l -> (i + length blocks = m)%nat ->
  (forall k v, (i <= k)%nat -> kill_ l !! k = Some v \/ live_in_ l !! k = Some v -> empty n v) ->
  exists l', ComputeInitialSets params blocks i last_loads l = Ok (mark_block n <$> blocks, l') /\ state_ok n m l' /\ live_out_ l' = live_out_ l /\
    (forall k, (k < i)%nat -> kill_ l' !! k = kill_ l !! k /\ live_in_ l' !! k = live_in_ l !! k) /\
    (forall k B kill live_in, blocks !! k = Some B -> kill_ l' !! (i + k)%nat = Some kill -> live_in_ l' !! (i + k)%nat = Some live_in -> start_ok n B kill live_in).
Proof.
  intros HB. revert i last_loads l. induction HB as [|B blocks Hinstr HB IH]; intros i last_loads l Hll Hst Hlen Hempty.
  - exists l. split_and!; try done. 
  - simpl in Hlen. pose proof Hst as [[Ho1 Ho2] [Hk1 Hk2] [Hi1 Hi2]].
    destruct (lookup_lt_is_Some_2 (kill_ l) i ltac:(lia)) as [kill Ekill]. destruct (lookup_lt_is_Some_2 (live_in_ l) i ltac:(lia)) as [live_in Ein].
    destruct (Hempty i kill ltac:(lia) ltac:(by left)) as [Vk Ek]. destruct (Hempty i live_in ltac:(lia) ltac:(by right)) as [Vi Ei].
    cbn [ComputeInitialSets]. rewrite (at_index_ok _ _ _ Ekill), (at_index_ok _ _ _ Ein). cbn [mbind result_bind].
    destruct (Clear_has last_loads (proj1 Hll)) as [Hc1 Hc2]. assert (vec n (Clear last_loads)) as Vc by (split; [done|apply Hll]).
    assert (exists s, (if InsideTryBlock B then Ok (B, mkSets kill (SetAll live_in) (Clear last_loads))
             else r ← visit_backwards params (instructions B) (mkSets kill live_in (Clear last_loads));
                  Ok (mkBlock (fst r) (successors B) (InsideTryBlock B), snd r)) = Ok (mark_block n B, s) /\
             vec n (s_kill s) /\ vec n (s_live_in s) /\ vec n (s_last_loads s) /\ start_ok n B (s_kill s) (s_live_in s)) as (s & -> & V1 & V2 & V3 & Hstart).
    { unfold mark_block, start_ok. destruct (InsideTryBlock B) eqn:Et.
      - eexists. split; [done|]. destruct (SetAll_ok live_in (proj1 Vi)) as [S1 S2]. simpl. split_and!; try done; [split; [done|apply Vi]|].
        intros j Hj. split; [by apply Ek|]. apply S2. by rewrite (proj2 Vi).
      - destruct (visit_backwards_ok n (mkSets kill live_in (Clear last_loads)) (instructions B) Hinstr) as (s & -> & W1 & W2 & W3 & W4).
        { split_and!; try done. intros j Hj. simpl. by rewrite Ek, Ei, Hc2 by done. }
        cbn [mbind result_bind]. exists s. split_and!; try done. intros j Hj. by destruct (W4 j Hj) as (? & ? & _). }
    cbn [mbind result_bind fst snd].
    set (l1 := set_live_in _ _).
    destruct (IH (S i) (s_last_loads s) l1) as (l' & E' & Hst' & Ho' & Hbelow & Hstarts); [done| |lia| |].
    { constructor; simpl; [done|by split; [rewrite length_insert|apply Forall_insert]|by split; [rewrite length_insert|apply Forall_insert]]. }
    { intros k w Hk Hw. simpl in Hw. rewrite !list_lookup_insert_ne in Hw by lia. apply (Hempty k w); [lia|done]. }
    rewrite E'. cbn [mbind result_bind fst snd]. exists l'. split; [done|]. split; [done|]. split; [by rewrite Ho'|]. split.
    + intros k Hk. destruct (Hbelow k ltac:(lia)) as [-> ->]. simpl. by rewrite !list_lookup_insert_ne by lia.
    + intros [|k] B' kill' live_in' HB' Hk' Hi'; simpl in HB'.
      * injection HB' as <-. rewrite Nat.add_0_r in *. destruct (Hbelow i ltac:(lia)) as [E1 E2]. rewrite E1 in Hk'. rewrite E2 in Hi'. simpl in Hk', Hi'.
        rewrite list_lookup_insert_eq in Hk' by lia. rewrite list_lookup_insert_eq in Hi' by lia. by simplify_eq.
      * apply (Hstarts k); [done|by replace (S i + k)%nat with (i + S k)%nat by lia|by replace (S i + k)%nat with (i + S k)%nat by lia].
Qed.

(** ** The fixed point *)

(** Sets that contain only live variables, and what the iteration keeps true. *)
Record sound (g : list Block) (n : Z) (l : LivenessAnalysis) : Prop := {
  sd_state : state_ok n (length g) l;
  sd_in b v j : live_in_ l !! b = Some v -> 0 <= j < n -> BitSet.has (data_ v) j = true -> live_at g j b 0;
  sd_out b B v j : g !! b = Some B -> live_out_ l !! b = Some v -> 0 <= j < n -> BitSet.has (data_ v) j = true ->
    exists s, s ∈ successors B /\ live_at g j s 0;
  sd_kill b B v j : g !! b = Some B -> kill_ l !! b = Some v -> 0 <= j < n ->
    BitSet.has (data_ v) j = (if InsideTryBlock B then false else stored j (instructions B));
  sd_use b B v j : g !! b = Some B -> live_in_ l !! b = Some v -> 0 <= j < n ->
    (if InsideTryBlock B then true else exposed j (instructions B)) = true -> BitSet.has (data_ v) j = true;
  sd_coupled b i o k j : live_in_ l !! b = Some i -> live_out_ l !! b = Some o -> kill_ l !! b = Some k -> 0 <= j < n ->
    BitSet.has (data_ o) j = true -> BitSet.has (data_ k) j = false -> BitSet.has (data_ i) j = true
}.

Section Graph.
Context (g : list Block) (n : Z).
Hypothesis Hg : graph_ok g.

Lemma graph_block b B : g !! b = Some B -> Forall instr_ok (instructions B) /\ forall s, s ∈ successors B -> (s < length g)%nat.
Proof. intros HB. destruct (Forall_lookup_1 _ _ _ _ Hg HB) as [H1 H2]. split; [done|]. by rewrite Forall_forall in H2. Qed.

(** Through a block: from its instructions after the first [k]. *)
Lemma live_exposed b B k v : g !! b = Some B -> exposed v (drop k (instructions B)) = true -> live_at g v b k.
Proof.
  intros HB. remember (drop k (instructions B)) as r eqn:Er. revert k Er. induction r as [|i r IH]; intros k Er; [done|]. simpl.
  assert (instructions B !! k = Some i /\ r = drop (S k) (instructions B)) as [Hi Hr].
  { split; [by rewrite <- (Nat.add_0_r k), <- lookup_drop, <- Er|]. replace (S k) with (k + 1)%nat by lia. by rewrite <- drop_drop, <- Er. }
  intros [Hl|[Hs He]%andb_prop]%orb_prop; [by eapply live_load|]. eapply live_step; [done|done|by apply negb_true_iff|]. by apply IH.
Qed.

Lemma live_through b B k v s :
  g !! b = Some B -> (k <= length (instructions B))%nat -> stored v (drop k (instructions B)) = false -> s ∈ successors B -> live_at g v s 0 -> live_at g v b k.
Proof.
  intros HB. remember (drop k (instructions B)) as r eqn:Er. revert k Er. induction r as [|i r IH]; intros k Er Hk Hs Hin Hlive.
  - apply (f_equal length) in Er. rewrite length_drop in Er. simpl in Er. replace k with (length (instructions B)) by lia. by eapply live_end.
  - assert (instructions B !! k = Some i /\ r = drop (S k) (instructions B)) as [Hi Hr].
    { split; [by rewrite <- (Nat.add_0_r k), <- lookup_drop, <- Er|]. replace (S k) with (k + 1)%nat by lia. by rewrite <- drop_drop, <- Er. }
    pose proof (lookup_lt_Some _ _ _ Hi). unfold stored in Hs. simpl in Hs. apply orb_false_elim in Hs as [Hs1 Hs2].
    eapply live_step; [done|done|done|]. apply IH; [done|lia|done|done|done].
Qed.

Lemma sound_at l b : sound g n l -> (b < length g)%nat ->
  exists B i o k, g !! b = Some B /\ live_in_ l !! b = Some i /\ live_out_ l !! b = Some o /\ kill_ l !! b = Some k /\ vec n i /\ vec n o /\ vec n k.
Proof.
  intros Hs Hb. destruct (sd_state _ _ _ Hs) as [[Ho1 Ho2] [Hk1 Hk2] [Hi1 Hi2]].
  destruct (lookup_lt_is_Some_2 g b Hb) as [B HB]. destruct (lookup_lt_is_Some_2 (live_in_ l) b ltac:(lia)) as [i Ei].
  destruct (lookup_lt_is_Some_2 (live_out_ l) b ltac:(lia)) as [o Eo]. destruct (lookup_lt_is_Some_2 (kill_ l) b ltac:(lia)) as [k Ek].
  exists B, i, o, k. split_and!; try done; [by eapply Forall_lookup_1 in Ei|by eapply Forall_lookup_1 in Eo|by eapply Forall_lookup_1 in Ek].
Qed.

(** ** One block of the iteration *)

Lemma UpdateLiveOut_loop_ok l succs o :
  state_ok n (length g) l -> Forall (fun s => (s < length g)%nat) succs -> vec n o ->
  exists c o', UpdateLiveOut_loop succs (live_in_ l) o = Ok (c, o') /\ vec n o' /\ (c = false -> o' = o) /\
    (forall j, BitSet.has (data_ o') j = true <-> BitSet.has (data_ o) j = true \/ exists s i, s ∈ succs /\ live_in_ l !! s = Some i /\ BitSet.has (data_ i) j = true).
Proof.
  intros Hst Hsuccs. destruct Hst as [_ _ [Hi1 Hi2]]. revert o. induction Hsuccs as [|s succs Hs Hsuccs IH]; intros o Vo.
  - exists false, o. split_and!; try done. intros j. split; [by left|]. intros [?|(s & i & Hin & _)]; [done|]. by apply not_elem_of_nil in Hin.
  - cbn [UpdateLiveOut_loop]. destruct (lookup_lt_is_Some_2 (live_in_ l) s ltac:(lia)) as [i Ei]. rewrite (at_index_ok _ _ _ Ei). cbn [mbind result_bind].
    pose proof (Forall_lookup_1 _ _ _ _ Hi2 Ei) as Vi. destruct (AddAll_ok o i (proj1 Vo) (proj1 Vi)) as (c1 & o1 & -> & B1 & L1 & H1 & C1).
    { by rewrite (proj2 Vo), (proj2 Vi). }
    cbn [mbind result_bind fst snd]. assert (vec n o1) as V1 by (split; [done|rewrite L1; apply Vo]).
    destruct (IH o1 V1) as (c2 & o2 & -> & V2 & C2 & H2). cbn [mbind result_bind fst snd]. exists (c1 || c2), o2. split_and!; try done.
    + intros [E1 E2]%orb_false_elim. rewrite (C2 E2). by apply C1.
    + intros j. rewrite H2, H1. rewrite orb_true_iff. split.
      * intros [[?|?]|(s' & i' & Hin & ? & ?)]; [by left|right; exists s, i; split_and!; [by left|done|done]|right; exists s', i'; split_and!; [by right|done|done]].
      * intros [?|(s' & i' & [->|Hin]%elem_of_cons & Hi' & ?)]; [by left; left| |right; by exists s', i']. left. right. by simplify_eq.
Qed.

End Graph.


(** ** The iteration ends *)

(** The bits of a vector of the analysis. *)
Definition room (n : Z) : nat := Z.to_nat (SizeFor n * kBitsPerWord).
Definition bits (n : Z) (v : BitVector) : nat := count (fun j => BitSet.has (data_ v) j) (seqZ 0 (SizeFor n * kBitsPerWord)).
Definition total (n : Z) (l : list BitVector) : nat := sum_list_with (bits n) l.

Lemma bits_bound n v : (bits n v <= room n)%nat.
Proof. unfold bits, room. etransitivity; [apply count_bound|]. by rewrite length_seqZ. Qed.

Lemma total_bound n l : (total n l <= length l * room n)%nat.
Proof. unfold total. induction l as [|v l IH]; simpl; [lia|]. pose proof (bits_bound n v). lia. Qed.

Lemma bits_lt n v v' :
  vec n v -> vec n v' -> (forall j, BitSet.has (data_ v) j = true -> BitSet.has (data_ v') j = true) -> v' <> v -> (bits n v < bits n v')%nat.
Proof.
  intros [B1 L1] [B2 L2] Hsub Hne. pose proof W_pos as HW.
  assert (exists j, BitSet.has (data_ v) j = false /\ BitSet.has (data_ v') j = true /\ 0 <= j < SizeFor n * kBitsPerWord) as (j & H1 & H2 & Hj).
  { destruct (decide (Forall (fun j => BitSet.has (data_ v) j = BitSet.has (data_ v') j) (seqZ 0 (SizeFor n * kBitsPerWord)))) as [Hall|Hex].
    - exfalso. apply Hne. destruct v as [m d], v' as [m' d']. simpl in *. subst m m'. f_equal.
      pose proof (bv_size _ B1) as E1. pose proof (bv_size _ B2) as E2. unfold data_length_ in E1, E2. simpl in E1, E2.
      symmetry. apply has_inj; [lia|apply B1|apply B2|]. intros j. destruct (decide (0 <= j < SizeFor n * kBitsPerWord)) as [Hj|Hj].
      + rewrite Forall_forall in Hall. apply Hall. by apply elem_of_seqZ.
      + destruct (decide (0 <= j)) as [H0|H0]; [by rewrite !has_outside by lia|]. unfold BitSet.has. by rewrite (proj2 (Z.leb_gt 0 j)) by lia.
    - apply not_Forall_Exists in Hex; [|apply _]. apply Exists_exists in Hex as (j & Hj%elem_of_seqZ & Hn). exists j. specialize (Hsub j). simpl in Hn.
      destruct (BitSet.has (data_ v) j), (BitSet.has (data_ v') j); try done. by specialize (Hsub eq_refl). }
  apply (count_less _ _ _ j); [done|by apply elem_of_seqZ|done|done].
Qed.

Lemma total_insert n l b v v' : l !! b = Some v -> (total n (<[b := v']> l) + bits n v = total n l + bits n v')%nat.
Proof.
  unfold total. revert b. induction l as [|x l IH]; intros [|b] Hb; simplify_eq/=; [lia|]. specialize (IH b Hb). lia.
Qed.

Section Iteration.
Context (g : list Block) (n : Z).
Hypothesis Hg : graph_ok g.

(** [live_out] of the block has what its successors need. *)
Definition closed (l : LivenessAnalysis) (b : nat) : Prop :=
  forall B o s i j, g !! b = Some B -> live_out_ l !! b = Some o -> s ∈ successors B -> live_in_ l !! s = Some i ->
    BitSet.has (data_ i) j = true -> BitSet.has (data_ o) j = true.

(** The block's [live_out] is updated. *)
Lemma update_out_ok l b B :
  sound g n l -> g !! b = Some B ->
  exists c o o', UpdateLiveOut l B b = Ok (c, set_live_out (<[b := o']> (live_out_ l)) l) /\ live_out_ l !! b = Some o /\ vec n o' /\
    (c = false -> o' = o) /\
    (forall j, BitSet.has (data_ o) j = true -> BitSet.has (data_ o') j = true) /\
    (forall j, 0 <= j < n -> BitSet.has (data_ o') j = true -> exists s, s ∈ successors B /\ live_at g j s 0) /\
    (forall s i j, s ∈ successors B -> live_in_ l !! s = Some i -> BitSet.has (data_ i) j = true -> BitSet.has (data_ o') j = true).
Proof.
  intros Hs HB. destruct (sound_at g n l b Hs) as (B' & i & o & k & HB' & Ei & Eo & Ek & Vi & Vo & Vk); [by eapply lookup_lt_Some|]. simplify_eq.
  destruct (graph_block g Hg b B HB) as [_ Hsucc]. unfold UpdateLiveOut. rewrite (at_index_ok _ _ _ Eo). cbn [mbind result_bind].
  destruct (UpdateLiveOut_loop_ok g n l (successors B) o) as (c & o' & -> & Vo' & Hc & Ho'); [by apply sd_state|by apply Forall_forall|done|].
  cbn [mbind result_bind fst snd]. exists c, o, o'. split_and!; try done.
  - intros j Hj. apply Ho'. by left.
  - intros j Hj [Hold|(s & i' & Hin & Hi' & Hb)]%Ho'; [by eapply sd_out|]. exists s. split; [done|]. by eapply sd_in.
  - intros s i' j Hin Hi' Hb. apply Ho'. right. by exists s, i'.
Qed.

(** One block: either nothing its predecessors see changed, or there is less room. *)
Lemma update_block_ok l b B :
  sound g n l -> g !! b = Some B ->
  exists c l', (r ← UpdateLiveOut l B b; if fst r : bool then UpdateLiveIn (snd r) b else Ok (false, snd r)) = Ok (c, l') /\
    sound g n l' /\ (c = false -> live_in_ l' = live_in_ l /\ closed l' b) /\ (c = true -> (total n (live_in_ l) < total n (live_in_ l'))%nat) /\
    (forall b', b' <> b -> live_out_ l' !! b' = live_out_ l !! b').
Proof.
  intros Hs HB. pose proof (lookup_lt_Some _ _ _ HB) as Hb.
  destruct (sound_at g n l b Hs Hb) as (B' & i & o & k & HB' & Ei & Eo & Ek & Vi & Vo & Vk). simplify_eq.
  destruct (update_out_ok l b B Hs HB) as (c & o2 & o' & -> & Eo2 & Vo' & Hc & Hmono & Hsound & Hclosed). simplify_eq. cbn [mbind result_bind fst snd].
  destruct (sd_state _ _ _ Hs) as [[Ho1 Ho2] [Hk1 Hk2] [Hi1 Hi2]].
  destruct c.
  - unfold UpdateLiveIn. simpl. rewrite (at_index_ok (<[b := o']> (live_out_ l)) b o') by (apply list_lookup_insert_eq; lia). rewrite (at_index_ok _ _ _ Ek), (at_index_ok _ _ _ Ei). cbn [mbind result_bind].
    destruct (KillAndAdd_ok i k o' (proj1 Vi) (proj1 Vk) (proj1 Vo')) as (c2 & i' & -> & Bi' & Li' & Hi' & Ci'); [by rewrite (proj2 Vk), (proj2 Vi)|by rewrite (proj2 Vo'), (proj2 Vi)|].
    cbn [mbind result_bind fst snd]. assert (vec n i') as Vi' by (split; [done|rewrite Li'; apply Vi]).
    eexists _, _. split; [done|]. set (l' := set_live_in _ _).
    assert (sound g n l') as Hs'.
    { constructor; simpl.
      - constructor; simpl; (split; [by rewrite ?length_insert|]); [by apply Forall_insert|done|by apply Forall_insert].
      - intros b' v j Hv Hj Hh. destruct (decide (b = b')) as [<-|Hbb].
        + rewrite list_lookup_insert_eq in Hv by lia. injection Hv as <-. rewrite Hi' in Hh. apply orb_prop in Hh as [Hh|[Hho Hhk]%andb_prop]; [by eapply sd_in|].
          apply negb_true_iff in Hhk. rewrite (sd_kill _ _ _ Hs b B k j HB Ek Hj) in Hhk. destruct (InsideTryBlock B) eqn:Et; [by eapply live_try|].
          destruct (Hsound j Hj Hho) as (s & Hin & Hlive). eapply live_through; [done|lia| |done|done]. by rewrite drop_0.
        + rewrite list_lookup_insert_ne in Hv by done. by eapply sd_in.
      - intros b' B' v j HB' Hv Hj Hh. destruct (decide (b = b')) as [<-|Hbb].
        + rewrite list_lookup_insert_eq in Hv by lia. simplify_eq. by apply Hsound.
        + rewrite list_lookup_insert_ne in Hv by done. by eapply sd_out.
      - intros. by eapply sd_kill.
      - intros b' B' v j HB' Hv Hj Hu. destruct (decide (b = b')) as [<-|Hbb].
        + rewrite list_lookup_insert_eq in Hv by lia. injection Hv as <-. rewrite Hi', (sd_use _ _ _ Hs b B' i j HB' Ei Hj Hu). done.
        + rewrite list_lookup_insert_ne in Hv by done. by eapply sd_use.
      - intros b' vi vo vk j Hvi Hvo Hvk Hj Hh Hk. destruct (decide (b = b')) as [<-|Hbb].
        + rewrite list_lookup_insert_eq in Hvi by lia. rewrite list_lookup_insert_eq in Hvo by lia. simplify_eq. rewrite Hi', Hh, Hk. apply orb_true_r.
        + rewrite list_lookup_insert_ne in Hvi by done. rewrite list_lookup_insert_ne in Hvo by done. by eapply sd_coupled. }
    split; [done|]. split_and!.
    + intros ->. assert (i' = i) as Ei' by (by apply Ci'). assert (live_in_ l' = live_in_ l) as E by (simpl; subst i'; by apply list_insert_id). split; [done|].
      intros B' o2 s i2 j HB' Ho' Hin Hi2' Hh. rewrite E in Hi2'. simpl in Ho'. rewrite list_lookup_insert_eq in Ho' by lia. simplify_eq. by eapply Hclosed.
    + intros ->. simpl. pose proof (total_insert n (live_in_ l) b i i' Ei) as Et.
      assert (bits n i < bits n i')%nat; [|lia]. apply bits_lt; [done|done| |]; [intros j Hj; by rewrite Hi', Hj|].
      intros E. apply Ci' in E. done.
    + intros b' Hb'. simpl. by rewrite list_lookup_insert_ne.
  - rewrite (Hc eq_refl) in *. eexists _, _. split; [done|]. rewrite (list_insert_id _ _ _ Eo). assert (set_live_out (live_out_ l) l = l) as -> by (by destruct l).
    split_and!; try done. intros _. split; [done|]. intros B' o2 s i2 j HB' Ho' Hin Hi2' Hh. simplify_eq. by eapply Hclosed.
Qed.

Lemma update_blocks_ok blocks i l :
  sound g n l -> blocks = drop i g ->
  exists c l', update_blocks blocks i l = Ok (c, l') /\ sound g n l' /\ (total n (live_in_ l) <= total n (live_in_ l'))%nat /\
    (c = true -> (total n (live_in_ l) < total n (live_in_ l'))%nat) /\
    (c = false -> live_in_ l' = live_in_ l /\ (forall b, (i <= b)%nat -> closed l' b)) /\
    (forall b, (b < i)%nat -> live_out_ l' !! b = live_out_ l !! b).
Proof.
  revert i l. induction blocks as [|B blocks IH]; intros i l Hs Hbl.
  - exists false, l. split_and!; try done. intros _. split; [done|]. intros b Hib B o s v j HB. exfalso. apply lookup_lt_Some in HB.
    apply (f_equal length) in Hbl. rewrite length_drop in Hbl. simpl in Hbl. lia.
  - assert (g !! i = Some B /\ blocks = drop (S i) g) as [HB Hrest].
    { split; [by rewrite <- (Nat.add_0_r i), <- lookup_drop, <- Hbl|]. replace (S i) with (i + 1)%nat by lia. by rewrite <- drop_drop, <- Hbl. }
    cbn [update_blocks]. destruct (update_block_ok l i B Hs HB) as (c1 & l1 & E1 & Hs1 & Hf1 & Ht1 & Hout1).
    destruct (UpdateLiveOut l B i) as [[cu lu]|]; [|done]. cbn [mbind result_bind fst snd] in *.
    rewrite E1. cbn [mbind result_bind fst snd]. destruct (IH (S i) l1 Hs1 Hrest) as (c2 & l2 & -> & Hs2 & Hle2 & Ht2 & Hf2 & Hout2).
    cbn [mbind result_bind fst snd]. exists (c1 || c2), l2.
    assert (total n (live_in_ l) <= total n (live_in_ l1))%nat as Hle1 by (destruct c1; [specialize (Ht1 eq_refl); lia|by rewrite (proj1 (Hf1 eq_refl))]).
    split_and!; try done; [lia| | |].
    + destruct c1; simpl; intros E; [specialize (Ht1 eq_refl); lia|specialize (Ht2 E); lia].
    + intros [E2 E3]%orb_false_elim. destruct (Hf1 E2) as [I1 C1]. destruct (Hf2 E3) as [I2 C2]. split; [congruence|].
      intros b Hb. destruct (decide (b = i)) as [->|Hne]; [|apply C2; lia].
      intros B' o s v j HB' Ho Hin Hv Hh. rewrite Hout2 in Ho by lia. rewrite I2 in Hv. by eapply C1.
    + intros b Hb. rewrite Hout2 by lia. apply Hout1. lia.
Qed.

Lemma fixed_point_ok fuel l :
  sound g n l -> (length g * room n < fuel + total n (live_in_ l))%nat ->
  exists l', ComputeLiveInAndLiveOutSets fuel g l = Ok l' /\ sound g n l' /\ forall b, closed l' b.
Proof.
  revert l. induction fuel as [|fuel IH]; intros l Hs Hf.
  - exfalso. pose proof (total_bound n (live_in_ l)) as Hb. rewrite (proj1 (so_in _ _ _ (sd_state _ _ _ Hs))) in Hb. lia.
  - cbn [ComputeLiveInAndLiveOutSets]. destruct (update_blocks_ok g 0 l Hs ltac:(by rewrite drop_0)) as (c & l1 & -> & Hs1 & _ & Ht & Hf1 & _).
    cbn [mbind result_bind fst snd]. destruct c.
    + apply IH; [done|]. specialize (Ht eq_refl). lia.
    + exists l1. split_and!; try done. intros b. apply (Hf1 eq_refl). lia.
Qed.

(** At the fixed point the sets are complete. *)
Lemma complete l : sound g n l -> (forall b, closed l b) -> forall v b k, live_at g v b k -> 0 <= v < n ->
  forall B i o, g !! b = Some B -> live_in_ l !! b = Some i -> live_out_ l !! b = Some o ->
  InsideTryBlock B = false -> exposed v (drop k (instructions B)) = true \/ (stored v (drop k (instructions B)) = false /\ BitSet.has (data_ o) v = true).
Proof.
  intros Hs Hcl v b k Hlive Hv. induction Hlive as [b k B HB Ht|b k B i HB Hi Hl|b k B i HB Hi Hst Hlive IH|b B s HB Hin Hlive IH];
    intros B' iv ov HB' Hiv Hov Htry; rewrite HB in HB'; injection HB' as <-; try congruence.
  - left. rewrite (drop_S _ _ _ Hi). simpl. by rewrite Hl.
  - destruct (IH B iv ov HB Hiv Hov Htry) as [He|[Hs1 Ho]]; rewrite (drop_S _ _ _ Hi); unfold stored in *; simpl; rewrite Hst; simpl.
    + left. rewrite He. apply orb_true_r.
    + by right.
  - right. rewrite drop_all. split; [done|]. destruct (graph_block g Hg b B HB) as [_ Hsucc]. 
    destruct (sound_at g n l s Hs (Hsucc s Hin)) as (Bs & li & lo & lk & HBs & Eis & Eos & Eks & _).
    apply (Hcl b B ov s li v HB Hov Hin Eis). destruct (InsideTryBlock Bs) eqn:Ets.
    + apply (sd_use _ _ _ Hs s Bs li v HBs Eis Hv). by rewrite Ets.
    + destruct (IH Bs li lo HBs Eis Eos Ets) as [He|[Hst Ho]]; rewrite drop_0 in *.
      * apply (sd_use _ _ _ Hs s Bs li v HBs Eis Hv). by rewrite Ets.
      * apply (sd_coupled _ _ _ Hs s li lo lk v Eis Eos Eks Hv Ho). rewrite (sd_kill _ _ _ Hs s Bs lk v HBs Eks Hv). by rewrite Ets.
Qed.

End Iteration.


(** ** The analysis *)

Section Main.
Context (g : list Block) (n : Z).
Hypothesis Hg : graph_ok g.
Hypothesis Hn : 0 <= n.

Lemma new_empty : empty n (BitVector_new n).
Proof. destruct (BitVector_new_ok n Hn) as (H1 & H2 & H3). split; [done|]. by intros. Qed.

Lemma Analyze_ok :
  exists l, Analyze params n g = Ok (mark_block n <$> g, l) /\ sound g n l /\ forall b, closed g l b.
Proof.
  unfold Analyze. set (sets := replicate (length g) (BitVector_new n)). pose proof new_empty as [Hvec Hemp].
  assert (Forall (vec n) sets) as HF by (by apply Forall_replicate). assert (length sets = length g) as HL by (apply length_replicate).
  assert (state_ok n (length g) (mkLiveness n sets sets sets)) as Hst by (constructor; simpl; by split).
  destruct (ComputeInitialSets_ok n (length g) g 0 (BitVector_new n) (mkLiveness n sets sets sets)) as (l0 & -> & Hst0 & Hout & _ & Hstart); try done.
  { eapply Forall_impl; [exact Hg|]. by intros B [? _]. }
  { intros k v _ Hk. simpl in Hk. assert (v = BitVector_new n) as -> by (destruct Hk as [Hk|Hk]; by apply lookup_replicate in Hk as [-> _]). apply new_empty. }
  cbn [mbind result_bind fst snd]. simpl in Hout.
  assert (sound g n l0) as Hs0.
  { assert (forall b v, live_out_ l0 !! b = Some v -> v = BitVector_new n) as Hnone.
    { intros b v Hv. rewrite Hout in Hv. by apply lookup_replicate in Hv as [-> _]. }
    assert (forall b B, g !! b = Some B -> exists k i, kill_ l0 !! b = Some k /\ live_in_ l0 !! b = Some i /\ start_ok n B k i) as Hall.
    { intros b B HB. pose proof (lookup_lt_Some _ _ _ HB) as Hb. destruct Hst0 as [_ [Hk1 _] [Hi1 _]].
      destruct (lookup_lt_is_Some_2 (kill_ l0) b ltac:(lia)) as [k Ek]. destruct (lookup_lt_is_Some_2 (live_in_ l0) b ltac:(lia)) as [i Ei].
      exists k, i. split_and!; try done. by apply (Hstart b). }
    constructor; [done|..].
    - intros b v j Hv Hj Hh. assert (b < length g)%nat as Hb by (rewrite <- (proj1 (so_in _ _ _ Hst0)); by eapply lookup_lt_Some).
      destruct (lookup_lt_is_Some_2 g b Hb) as [B HB]. destruct (Hall b B HB) as (k & i & Ek & Ei & Hso). simplify_eq.
      rewrite (proj2 (Hso j Hj)) in Hh. destruct (InsideTryBlock B) eqn:Et; [by eapply live_try|]. eapply live_exposed; [done|]. by rewrite drop_0.
    - intros b B v j HB Hv Hj Hh. rewrite (Hnone b v Hv), Hemp in Hh by done. done.
    - intros b B v j HB Hv Hj. destruct (Hall b B HB) as (k & i & Ek & Ei & Hso). simplify_eq. by apply (proj1 (Hso j Hj)).
    - intros b B v j HB Hv Hj Hu. destruct (Hall b B HB) as (k & i & Ek & Ei & Hso). simplify_eq. by rewrite (proj2 (Hso j Hj)).
    - intros b i o k j Hi Ho Hk Hj Hh. rewrite (Hnone b o Ho), Hemp in Hh by done. done. }
  destruct (fixed_point_ok g n Hg (S (length g * Z.to_nat (SizeFor n * kBitsPerWord))) l0 Hs0) as (l & -> & Hs & Hcl); [unfold room; lia|].
  cbn [mbind result_bind]. by exists l.
Qed.

Section Result.
Context (l : LivenessAnalysis).
Hypothesis Hs : sound g n l.
Hypothesis Hcl : forall b, closed g l b.

(** Membership in the sets of the result. *)
Lemma live_out_exact b B o v :
  g !! b = Some B -> live_out_ l !! b = Some o -> 0 <= v < n -> BitSet.has (data_ o) v = true <-> exists s, s ∈ successors B /\ live_at g v s 0.
Proof.
  intros HB Ho Hv. split; [by eapply sd_out|]. intros (s & Hin & Hlive). destruct (graph_block g Hg b B HB) as [_ Hsucc].
  destruct (sound_at g n l s Hs (Hsucc s Hin)) as (Bs & li & lo & lk & HBs & Eli & Elo & Elk & _). apply (Hcl b B o s li v HB Ho Hin Eli).
  destruct (InsideTryBlock Bs) eqn:Et; [apply (sd_use _ _ _ Hs s Bs li v HBs Eli Hv); by rewrite Et|].
  destruct (complete g n Hg l Hs Hcl v s 0 Hlive Hv Bs li lo HBs Eli Elo Et) as [He|[Hst Hlo]]; rewrite drop_0 in *.
  - apply (sd_use _ _ _ Hs s Bs li v HBs Eli Hv). by rewrite Et.
  - apply (sd_coupled _ _ _ Hs s li lo lk v Eli Elo Elk Hv Hlo). rewrite (sd_kill _ _ _ Hs s Bs lk v HBs Elk Hv). by rewrite Et.
Qed.

Lemma live_in_exact b B i v :
  g !! b = Some B -> live_in_ l !! b = Some i -> 0 <= v < n -> BitSet.has (data_ i) v = true <-> live_at g v b 0.
Proof.
  intros HB Hi Hv. split; [by eapply sd_in|]. intros Hlive.
  destruct (sound_at g n l b Hs ltac:(by eapply lookup_lt_Some)) as (B' & i' & o & k & HB' & Ei & Eo & Ek & _).
  rewrite HB in HB'. injection HB' as <-. rewrite Hi in Ei. injection Ei as <-.
  destruct (InsideTryBlock B) eqn:Et; [apply (sd_use _ _ _ Hs b B i v HB Hi Hv); by rewrite Et|].
  destruct (complete g n Hg l Hs Hcl v b 0 Hlive Hv B i o HB Hi Eo Et) as [He|[Hst Hlo]]; rewrite drop_0 in *.
  - apply (sd_use _ _ _ Hs b B i v HB Hi Hv). by rewrite Et.
  - apply (sd_coupled _ _ _ Hs b i o k v Hi Eo Ek Hv Hlo). rewrite (sd_kill _ _ _ Hs b B k v HB Ek Hv). by rewrite Et.
Qed.

(** At any point of a block that is not inside a try. *)
Lemma live_at_iff b B o v k :
  g !! b = Some B -> live_out_ l !! b = Some o -> 0 <= v < n -> InsideTryBlock B = false -> (k <= length (instructions B))%nat ->
  live_at g v b k <-> exposed v (drop k (instructions B)) = true \/ (stored v (drop k (instructions B)) = false /\ BitSet.has (data_ o) v = true).
Proof.
  intros HB Ho Hv Ht Hk. split.
  - intros Hlive. destruct (sound_at g n l b Hs ltac:(by eapply lookup_lt_Some)) as (B' & i & o' & kl & HB' & Ei & Eo & Ek & _).
    by apply (complete g n Hg l Hs Hcl v b k Hlive Hv B i).
  - intros [He|[Hst Hh]]; [by eapply live_exposed|]. apply (live_out_exact b B o v HB Ho Hv) in Hh as (s & Hin & Hlive). by eapply live_through.
Qed.

End Result.

Lemma mark_all_lookup l k i' : mark_all n l !! k = Some i' -> exists i, l !! k = Some i /\ i' = mark n i (drop (S k) l).
Proof.
  revert k. induction l as [|i l IH]; intros [|k] Hk; simplify_eq/=.
  - exists i. by rewrite drop_0.
  - by apply IH.
Qed.

(** The graph as it is built: nothing is marked. *)
Definition unmarked (i : Instruction) : Prop :=
  match i with LoadLocal _ last => last = false | StoreLocal _ dead last => dead = false /\ last = false | Other => True end.

(** A marked instruction, and where it comes from. *)
Lemma marked_instruction b B' k i' :
  Forall (fun B => Forall unmarked (instructions B)) g -> (mark_block n <$> g) !! b = Some B' -> instructions B' !! k = Some i' ->
  exists B i, g !! b = Some B /\ instructions B !! k = Some i /\ unmarked i /\ instr_ok i /\ InsideTryBlock B' = InsideTryBlock B /\
    i' = if InsideTryBlock B then i else mark n i (drop (S k) (instructions B)).
Proof.
  intros Hu HB' Hk. rewrite list_lookup_fmap in HB'. destruct (g !! b) as [B|] eqn:HB; [|done]. injection HB' as <-.
  pose proof (Forall_lookup_1 _ _ _ _ Hu HB) as HuB. destruct (graph_block g Hg b B HB) as [HokB _]. exists B.
  unfold mark_block in *. destruct (InsideTryBlock B) eqn:Et.
  - exists i'. split_and!; try done; [by eapply Forall_lookup_1 in HuB|by eapply Forall_lookup_1 in HokB].
  - apply mark_all_lookup in Hk as (i & Hi & ->). exists i. split_and!; try done; [by eapply Forall_lookup_1 in HuB|by eapply Forall_lookup_1 in HokB].
Qed.

End Main.


(** ** The properties *)

(** C5: The analysis returns, without a failed assertion.  A variable is in the live-in
    set of a block, or in its live-out set, exactly when some path from the entry, or
    from the end, of the block reads its value, or brings it into a try block (where
    the analysis takes every variable as read), before overwriting it.  In a graph
    without try blocks the sets are exactly the variables some path reads. *)
Theorem Liveness_exact g n :
  graph_ok g -> 0 <= n ->
  exists l, Analyze params n g = Ok (mark_block n <$> g, l) /\
    forall b B v, g !! b = Some B -> 0 <= v < n ->
      exists i o bi bo, live_in_ l !! b = Some i /\ live_out_ l !! b = Some o /\ Contains i v = Ok bi /\ Contains o v = Ok bo /\
        (bi = true <-> may_read g v b 0 \/ may_enter_try g v b 0) /\
        (bo = true <-> exists s, s ∈ successors B /\ (may_read g v s 0 \/ may_enter_try g v s 0)) /\
        (Forall (fun B => InsideTryBlock B = false) g ->
          (bi = true <-> may_read g v b 0) /\ (bo = true <-> exists s, s ∈ successors B /\ may_read g v s 0)).
Proof.
  intros Hg Hn. destruct (Analyze_ok g n Hg Hn) as (l & E & Hs & Hcl). exists l. split; [done|]. intros b B v HB Hv.
  destruct (sound_at g n l b Hs ltac:(by eapply lookup_lt_Some)) as (B' & i & o & k & HB' & Ei & Eo & Ek & Vi & Vo & _).
  exists i, o, (BitSet.has (data_ i) v), (BitSet.has (data_ o) v).
  assert (BitSet.has (data_ i) v = true <-> may_read g v b 0 \/ may_enter_try g v b 0) as Hin.
  { rewrite <- live_at_paths. by apply (live_in_exact g n Hg l Hs Hcl b B). }
  assert (BitSet.has (data_ o) v = true <-> exists s, s ∈ successors B /\ (may_read g v s 0 \/ may_enter_try g v s 0)) as Hout.
  { setoid_rewrite <- live_at_paths. by apply (live_out_exact g n Hg l Hs Hcl b B). }
  split_and!; try done; [by apply (Contains_vec n)|by apply (Contains_vec n)|].
  intros Hnt. rewrite Hin, Hout. pose proof (no_try g v b 0 Hnt) as Hn1. split; [tauto|].
  split; intros (s & Hsucc & Hp); exists s; (split; [done|]); pose proof (no_try g v s 0 Hnt); tauto.
Qed.

(** C9: [IsStoreAlive] answers, for every store of the analyzed graph, and answers
    false exactly when the store may be dropped: the variable is not the context
    variable, it is one of the analyzed variables, and no path from after the store
    reads the value, or brings it into a try block, before another store to it. *)
Theorem IsStoreAlive_exact g n l g' b B k x dead last context_var :
  graph_ok g -> 0 <= n -> Forall (fun B => Forall unmarked (instructions B)) g -> Analyze params n g = Ok (g', l) ->
  g' !! b = Some B -> instructions B !! k = Some (StoreLocal x dead last) ->
  exists alive, IsStoreAlive params l context_var b (StoreLocal x dead last) = Ok alive /\
    (alive = true <-> LocalVariable_Equals x context_var = true \/ n <= idx x \/
       (may_read g (idx x) b (S k) \/ may_enter_try g (idx x) b (S k))).
Proof.
  intros Hg Hn Hu Han HB' Hk. destruct (Analyze_ok g n Hg Hn) as (l' & E & Hs & Hcl). rewrite E in Han. injection Han as <- <-.
  destruct (marked_instruction g n Hg b B k _ Hu HB' Hk) as (B0 & i & HB & Hi & Hui & Hoki & _ & Emark).
  destruct (sound_at g n l' b Hs ltac:(by eapply lookup_lt_Some)) as (B2 & li & o & kl & _ & _ & Eo & _ & _ & Vo & _).
  unfold IsStoreAlive. setoid_rewrite <- live_at_paths.
  destruct (LocalVariable_Equals x context_var) eqn:Hctx; [exists true; split; [done|]; split; [by left|done]|].
  destruct (InsideTryBlock B0) eqn:Et.
  - subst i. destruct Hui as [-> ->]. exists true. split; [done|]. split; [|done]. intros _. do 2 right. by eapply live_try.
  - pose proof (lookup_lt_Some _ _ _ Hi) as Hlen. set (rest := drop (S k) (instructions B0)) in *.
    destruct i as [y ll|y d ll|]; unfold mark in Emark; try (by destruct (n <=? idx y)); [|done].
    destruct Hoki as [Hcap H0]. destruct Hui as [-> ->].
    assert (y = x) as -> by (by destruct (n <=? idx y); [simplify_eq|destruct (stored (idx y) rest); simplify_eq]).
    destruct (Z.leb_spec n (idx x)) as [Hidx|Hidx] in Emark.
    { injection Emark as -> ->. exists true. split; [done|]. split; [by right; left|done]. }
    pose proof (live_at_iff g n Hg l' Hs Hcl b B0 o (idx x) (S k) HB Eo ltac:(lia) Et ltac:(lia)) as Hiff. fold rest in Hiff.
    assert (dead = stored (idx x) rest && negb (exposed (idx x) rest) /\ last = negb (stored (idx x) rest) && negb (exposed (idx x) rest)) as [-> ->].
    { by destruct (stored (idx x) rest); injection Emark as -> ->; rewrite orb_false_r. }
    rewrite BitIndexIn_ok by done. cbn [mbind result_bind]. rewrite (at_index_ok _ _ _ Eo). cbn [mbind result_bind]. rewrite (Contains_vec n o) by (done || lia).
    destruct (exposed (idx x) rest), (stored (idx x) rest); cbn [negb andb]; eexists; (split; [done|]); rewrite Hiff; intuition (congruence || lia).
Qed.

(** A load that [IsLastLoad] calls the last reads a value nobody reads afterwards. *)
Theorem IsLastLoad_sound g n l g' b B k x last context_var :
  graph_ok g -> 0 <= n -> Forall (fun B => Forall unmarked (instructions B)) g -> Analyze params n g = Ok (g', l) ->
  g' !! b = Some B -> instructions B !! k = Some (LoadLocal x last) -> idx x < n ->
  IsLastLoad params l context_var b (LoadLocal x last) = Ok true -> ~ live_at g (idx x) b (S k).
Proof.
  intros Hg Hn Hu Han HB' Hk Hidx Hlast. destruct (Analyze_ok g n Hg Hn) as (l' & E & Hs & Hcl). rewrite E in Han. injection Han as <- <-.
  destruct (marked_instruction g n Hg b B k _ Hu HB' Hk) as (B0 & i & HB & Hi & Hui & Hoki & _ & Emark).
  destruct (sound_at g n l' b Hs ltac:(by eapply lookup_lt_Some)) as (B2 & li & o & kl & _ & _ & Eo & _ & _ & Vo & _).
  unfold IsLastLoad in Hlast. destruct (LocalVariable_Equals x context_var); [done|]. destruct (InsideTryBlock B0) eqn:Et.
  - subst i. simpl in Hui. subst last. apply bind_ok in Hlast as (? & _ & ?). done.
  - pose proof (lookup_lt_Some _ _ _ Hi) as Hlen. set (rest := drop (S k) (instructions B0)) in *.
    destruct i as [y ll|y d ll|]; unfold mark in Emark; [|by destruct (n <=? idx y); [|destruct (stored (idx y) rest)]|done].
    destruct Hoki as [Hcap H0]. simpl in Hui. subst ll.
    assert (y = x) as -> by (by destruct (n <=? idx y); simplify_eq).
    rewrite (proj2 (Z.leb_gt n (idx x)) Hidx), orb_false_r in Emark. injection Emark as ->.
    rewrite BitIndexIn_ok in Hlast by done. cbn [mbind result_bind] in Hlast. destruct (loaded (idx x) rest) eqn:El; [done|]. cbn [negb] in Hlast.
    rewrite (at_index_ok _ _ _ Eo) in Hlast. cbn [mbind result_bind] in Hlast. rewrite (Contains_vec n o) in Hlast by (done || lia).
    cbn [mbind result_bind] in Hlast. injection Hlast as Hout. apply negb_true_iff in Hout.
    rewrite (live_at_iff g n Hg l' Hs Hcl b B0 o (idx x) (S k) HB Eo ltac:(lia) Et ltac:(lia)). fold rest. rewrite Hout.
    assert (exposed (idx x) rest = false) as ->; [|intuition congruence].
    clear -El. induction rest as [|i rest IH]; [done|]. unfold loaded in *. simpl in *. apply orb_false_elim in El as [-> El]. rewrite IH by done. by destruct (stores _ _).
Qed.

(** C23: For each block, in preorder, [ComputeAssignedVars] returns the variables the
    block stores to and that are live at its end, or all of them inside a try. *)
Theorem ComputeAssignedVars_exact g n l g' preorder :
  graph_ok g -> 0 <= n -> Analyze params n g = Ok (g', l) -> NoDup preorder -> Forall (fun b => (b < length g)%nat) preorder ->
  exists assigned l', ComputeAssignedVars g' preorder l = Ok (assigned, l') /\ length assigned = length preorder /\
    forall p b B a v, preorder !! p = Some b -> g !! b = Some B -> assigned !! p = Some a -> 0 <= v < n ->
      exists c, Contains a v = Ok c /\
      (c = true <-> InsideTryBlock B = true \/ (stored v (instructions B) = true /\ exists s, s ∈ successors B /\ live_at g v s 0)).
Proof.
  intros Hg Hn Han Hnd Hpre. destruct (Analyze_ok g n Hg Hn) as (l0 & E & Hs & Hcl). rewrite E in Han. injection Han as <- <-.
  (* the loop has changed the kill sets of the blocks before, and of no other *)
  assert (forall l, live_out_ l = live_out_ l0 -> length (kill_ l) = length g -> (forall b, b ∈ preorder -> kill_ l !! b = kill_ l0 !! b) ->
    exists assigned l', ComputeAssignedVars (mark_block n <$> g) preorder l = Ok (assigned, l') /\ length assigned = length preorder /\
    forall p b B a v, preorder !! p = Some b -> g !! b = Some B -> assigned !! p = Some a -> 0 <= v < n ->
      exists c, Contains a v = Ok c /\
      (c = true <-> InsideTryBlock B = true \/ (stored v (instructions B) = true /\ exists s, s ∈ successors B /\ live_at g v s 0))) as H.
  2:{ apply H; [done|apply (so_kill _ _ _ (sd_state _ _ _ Hs))|done]. }
  induction Hpre as [|b preorder Hb Hpre IH]; intros l Hout Hlen Hkill; [by exists [], l|].
  apply NoDup_cons in Hnd as [Hbn Hnd]. cbn [ComputeAssignedVars].
  destruct (sound_at g n l0 b Hs Hb) as (B & i & o & k & HB & Ei & Eo & Ek & Vi & Vo & Vk).
  rewrite (at_index_ok _ b (mark_block n B)) by (by rewrite list_lookup_fmap, HB). cbn [mbind result_bind].
  rewrite (at_index_ok (kill_ l) b k) by (rewrite Hkill; [done|by left]). cbn [mbind result_bind]. rewrite Hout, (at_index_ok _ _ _ Eo). cbn [mbind result_bind].
  assert (InsideTryBlock (mark_block n B) = InsideTryBlock B) as -> by (unfold mark_block; by destruct (InsideTryBlock B) eqn:?).
  assert (exists a, (if InsideTryBlock B then Ok (SetAll k) else Intersect k o) = Ok a /\ vec n a /\
    forall v, 0 <= v < n -> BitSet.has (data_ a) v = true <-> InsideTryBlock B = true \/ (stored v (instructions B) = true /\ exists s, s ∈ successors B /\ live_at g v s 0)) as (a & -> & Va & Ha).
  { destruct (InsideTryBlock B) eqn:Et.
    - eexists. split; [done|]. destruct (SetAll_ok k (proj1 Vk)) as [S1 S2]. split; [split; [done|apply Vk]|]. intros v Hv.
      rewrite S2 by (by rewrite (proj2 Vk)). split; [by left|done].
    - destruct (Intersect_ok k o (proj1 Vk) (proj1 Vo)) as (a & -> & Ba & La & Hha); [by rewrite (proj2 Vk), (proj2 Vo)|].
      exists a. split; [done|]. split; [split; [done|rewrite La; apply Vk]|]. intros v Hv. rewrite Hha, andb_true_iff.
      rewrite (live_out_exact g n Hg l0 Hs Hcl b B o v HB Eo Hv), (sd_kill _ _ _ Hs b B k v HB Ek Hv), Et. intuition congruence. }
  cbn [mbind result_bind]. destruct (IH Hnd (set_kill (<[b := a]> (kill_ l)) l)) as (assigned & l' & -> & Hla & Hspec); [done|by simpl; rewrite length_insert| |].
  { intros b' Hb'. simpl. rewrite list_lookup_insert_ne by (by intros ->). apply Hkill. by right. }
  cbn [mbind result_bind fst snd]. exists (a :: assigned), l'. split_and!; [done|simpl; lia|].
  intros [|p] b' B' a' v Hp HB' Ha' Hv; simpl in Hp, Ha'; [|by apply (Hspec p b' B' a' v)]. injection Hp as <-. injection Ha' as <-. rewrite HB in HB'. injection HB' as <-.
  exists (BitSet.has (data_ a) v). split; [by apply (Contains_vec n)|by apply Ha].
Qed.

End props.


(** ** An example *)

#[local] Instance T64 : Target := {| kBitsPerWord := 64; kBitsPerWord_ok := or_intror eq_refl |}.

Definition x0 : LocalVariable := mkLocal (-3) false 0.
Definition x1 : LocalVariable := mkLocal (-4) false 0.
Definition context : LocalVariable := mkLocal (-5) false 0.

(** In postorder: the exit, a loop around itself, the entry.  Of the two stores to [x1]
    in the entry the first is overwritten, the second read in the loop. *)
Definition demo : list Block :=
  [mkBlock [LoadLocal x0 false] [] false;
   mkBlock [LoadLocal x1 false; Other; StoreLocal x0 false false; StoreLocal x1 false false] [1%nat; 0%nat] false;
   mkBlock [StoreLocal x1 false false; StoreLocal x1 false false; StoreLocal x0 false false] [1%nat] false].

Definition result : list Block * LivenessAnalysis :=
  match Analyze 0 3 demo with Ok r => r | Err _ => ([], mkLiveness 0 [] [] []) end.

Lemma demo_ok : graph_ok 0 demo.
Proof.
  unfold graph_ok, demo. repeat (first [apply Forall_nil | apply Forall_cons; split | split]); simpl; try done; try lia.
Qed.

Lemma demo_unmarked : Forall (fun B => Forall unmarked (instructions B)) demo.
Proof. repeat constructor. Qed.

(** [x1] is live on entry of the loop: some path reads it. *)
Lemma Liveness_exact_witness :
  exists l i, Analyze 0 3 demo = Ok (mark_block 0 3 <$> demo, l) /\ live_in_ l !! 1%nat = Some i /\ Contains i 1 = Ok true.
Proof.
  destruct (Liveness_exact 0 demo 3) as (l & E & H); [apply demo_ok|lia|].
  destruct (H 1%nat _ 1 eq_refl) as (i & o & bi & bo & Hi & _ & Ci & _ & _ & _ & Hr); [lia|].
  exists l, i. split; [exact E|]. split; [exact Hi|]. rewrite Ci. f_equal. apply Hr; [by repeat constructor|].
  do 2 eexists. do 2 eexists. split; [apply keeps_here|]. by split_and!.
Defined.

(** The store to [x0] in the entry is overwritten in the loop before the exit reads it;
    it would be kept if [x0] were the context variable. *)
Lemma IsStoreAlive_exact_witness :
  IsStoreAlive 0 result.2 context 2 (StoreLocal x0 false true) = Ok false /\ ~ may_read 0 demo 0 2 3 /\
  IsStoreAlive 0 result.2 x0 2 (StoreLocal x0 false true) = Ok true.
Proof.
  pose (B := mkBlock [StoreLocal x1 true false; StoreLocal x1 false true; StoreLocal x0 false true] [1%nat] false).
  assert (Forall (fun B => Forall unmarked (instructions B)) demo) as Hu by apply demo_unmarked.
  destruct (IsStoreAlive_exact 0 demo 3 result.2 result.1 2 B 2 x0 false true context) as (alive & E & Hiff);
    [apply demo_ok|lia|exact Hu|vm_compute; reflexivity..|].
  destruct (IsStoreAlive_exact 0 demo 3 result.2 result.1 2 B 2 x0 false true x0) as (alive2 & E3 & Hiff2);
    [apply demo_ok|lia|exact Hu|vm_compute; reflexivity..|].
  assert (IsStoreAlive 0 result.2 context 2 (StoreLocal x0 false true) = Ok false) as E2 by (vm_compute; reflexivity).
  split; [exact E2|]. rewrite E in E2. injection E2 as ->. split.
  - intros Hl. assert (false = true) as H by (apply Hiff; right; right; left; exact Hl). discriminate H.
  - rewrite E3. f_equal. apply Hiff2. left. vm_compute. reflexivity.
Defined.

Lemma IsLastLoad_sound_witness : IsLastLoad 0 result.2 context 0 (LoadLocal x0 true) = Ok true /\ ~ live_at 0 demo 0 0 1.
Proof.
  split; [vm_compute; reflexivity|].
  apply (IsLastLoad_sound 0 demo 3 result.2 result.1 0 (mkBlock [LoadLocal x0 true] [] false) 0 x0 true context);
    [apply demo_ok|lia|apply demo_unmarked|vm_compute; reflexivity..].
Defined.

Lemma ComputeAssignedVars_exact_witness : exists assigned l', ComputeAssignedVars result.1 [2%nat; 1%nat; 0%nat] result.2 = Ok (assigned, l') /\ length assigned = 3%nat.
Proof.
  destruct (ComputeAssignedVars_exact 0 demo 3 result.2 result.1 [2%nat; 1%nat; 0%nat]) as (assigned & l' & E & Hl & _);
    [apply demo_ok|lia|vm_compute; reflexivity| | |].
  - by apply (bool_decide_unpack _); vm_compute.
  - repeat constructor.
  - exists assigned, l'. split; [exact E|exact Hl].
Defined.

End LivenessProps.
