(* ===== verification/FlowGraph.v ===== *)
(** * The shape of a flow graph: vm/flow_graph.h, vm/flow_graph.cc

    Blocks in memory, known by their addresses, with what the passes below write into
    them: [DiscoverBlocks], the depth-first traversal that numbers the blocks and finds
    their predecessors; [ComputeDominators], the immediate dominators and the dominance
    frontiers; [InsertPhis], the places of phi functions; [ComputeLoops], the natural
    loops.  The block entries are those of vm/intermediate_language.h. *)

From stdpp Require Import base numbers list.
From Stdlib Require Import ZArith Lia.
From S2P Require Import Prelude Utils HeapMemory BitSet BitVector.

Local Open Scope Z_scope.
Local Open Scope mach_scope.

Module FlowGraph.
Import BitVector.

Section flow_graph.
Context {T : Target}.

(** ** Blocks *)

Inductive BlockKind := GraphEntry | JoinEntry | IndirectEntry | TargetEntry | CatchBlockEntry.

Record PhiInstr := mkPhi { num_inputs : Z; is_alive_ : bool }.

(** [successors] are those of the last instruction of the block, which [DiscoverBlock]
    looks for.  A block with one predecessor has it in [predecessors_] when
    [predecessor_] is not NULL. *)
Record BlockEntry := mkBlockEntry {
  kind : BlockKind; block_id_ : Z; successors : list nat;
  preorder_number_ : Z; postorder_number_ : Z; predecessors_ : list nat;
  dominator_ : option nat; dominated_blocks_ : list nat;
  loop_info_ : option BitVector; phis_ : option (list (option PhiInstr))
}.

Definition set_preorder_number (n : Z) (B : BlockEntry) := mkBlockEntry (kind B) (block_id_ B) (successors B) n (postorder_number_ B) (predecessors_ B) (dominator_ B) (dominated_blocks_ B) (loop_info_ B) (phis_ B).
Definition set_postorder_number (n : Z) (B : BlockEntry) := mkBlockEntry (kind B) (block_id_ B) (successors B) (preorder_number_ B) n (predecessors_ B) (dominator_ B) (dominated_blocks_ B) (loop_info_ B) (phis_ B).
Definition set_predecessors (l : list nat) (B : BlockEntry) := mkBlockEntry (kind B) (block_id_ B) (successors B) (preorder_number_ B) (postorder_number_ B) l (dominator_ B) (dominated_blocks_ B) (loop_info_ B) (phis_ B).
Definition set_dominator (d : option nat) (B : BlockEntry) := mkBlockEntry (kind B) (block_id_ B) (successors B) (preorder_number_ B) (postorder_number_ B) (predecessors_ B) d (dominated_blocks_ B) (loop_info_ B) (phis_ B).
Definition set_dominated_blocks (l : list nat) (B : BlockEntry) := mkBlockEntry (kind B) (block_id_ B) (successors B) (preorder_number_ B) (postorder_number_ B) (predecessors_ B) (dominator_ B) l (loop_info_ B) (phis_ B).
Definition set_loop_info (l : option BitVector) (B : BlockEntry) := mkBlockEntry (kind B) (block_id_ B) (successors B) (preorder_number_ B) (postorder_number_ B) (predecessors_ B) (dominator_ B) (dominated_blocks_ B) l (phis_ B).
Definition set_phis (l : option (list (option PhiInstr))) (B : BlockEntry) := mkBlockEntry (kind B) (block_id_ B) (successors B) (preorder_number_ B) (postorder_number_ B) (predecessors_ B) (dominator_ B) (dominated_blocks_ B) (loop_info_ B) l.

(** [blocks] is the memory: a block is the address of its entry. *)
Record FlowGraph := mkFlowGraph {
  blocks : list BlockEntry; graph_entry_ : nat;
  preorder_ : list nat; postorder_ : list nat; reverse_postorder_ : list nat;
  parent_ : list Z; loop_headers_ : option (list nat)
}.

Definition set_blocks (l : list BlockEntry) (g : FlowGraph) := mkFlowGraph l (graph_entry_ g) (preorder_ g) (postorder_ g) (reverse_postorder_ g) (parent_ g) (loop_headers_ g).
Definition set_preorder (l : list nat) (g : FlowGraph) := mkFlowGraph (blocks g) (graph_entry_ g) l (postorder_ g) (reverse_postorder_ g) (parent_ g) (loop_headers_ g).
Definition set_postorder (l : list nat) (g : FlowGraph) := mkFlowGraph (blocks g) (graph_entry_ g) (preorder_ g) l (reverse_postorder_ g) (parent_ g) (loop_headers_ g).
Definition set_reverse_postorder (l : list nat) (g : FlowGraph) := mkFlowGraph (blocks g) (graph_entry_ g) (preorder_ g) (postorder_ g) l (parent_ g) (loop_headers_ g).
Definition set_parent (l : list Z) (g : FlowGraph) := mkFlowGraph (blocks g) (graph_entry_ g) (preorder_ g) (postorder_ g) (reverse_postorder_ g) l (loop_headers_ g).
Definition set_loop_headers (l : option (list nat)) (g : FlowGraph) := mkFlowGraph (blocks g) (graph_entry_ g) (preorder_ g) (postorder_ g) (reverse_postorder_ g) (parent_ g) l.

Definition block_at (g : FlowGraph) (b : nat) : M BlockEntry :=
  match blocks g !! b with Some B => Ok B | None => Err BOutOfRange end.

Definition modify (g : FlowGraph) (b : nat) (f : BlockEntry -> BlockEntry) : M FlowGraph :=
  B ← block_at g b; Ok (set_blocks (<[b := f B]> (blocks g)) g).

(** [operator[]] of [GrowableArray], read and written. *)
Definition get {A} (l : list A) (i : Z) : M A :=
  check (0 <=? i);;
  match l !! Z.to_nat i with Some a => Ok a | None => Err BAssertFailed end.

Definition put {A} (l : list A) (i : Z) (a : A) : M (list A) :=
  _ ← get l i; Ok (<[Z.to_nat i := a]> l).

Definition length_of {A} (l : list A) : Z := Z.of_nat (length l).

Definition IsJoinEntry (B : BlockEntry) : bool :=
  match kind B with JoinEntry | IndirectEntry => true | _ => false end.

(** [PredecessorCount] and [PredecessorAt]. *)
Definition Predecessors (B : BlockEntry) : list nat :=
  match kind B with GraphEntry => [] | _ => predecessors_ B end.

Definition ClearPredecessors (B : BlockEntry) : BlockEntry :=
  match kind B with GraphEntry => B | _ => set_predecessors [] B end.

(** The index at which a join inserts a predecessor, and the check of the ones after. *)
Fixpoint pred_index (g : FlowGraph) (preds : list nat) (pred_id : Z) : M nat :=
  match preds with
  | [] => Ok O
  | p :: preds =>
      P ← block_at g p;
      if block_id_ P <? pred_id then i ← pred_index g preds pred_id; Ok (S i) else Ok O
  end.

Fixpoint check_ids (g : FlowGraph) (preds : list nat) (pred_id : Z) : M unit :=
  match preds with
  | [] => Ok ()
  | p :: preds => P ← block_at g p; check (negb (block_id_ P =? pred_id));; check_ids g preds pred_id
  end.

Definition AddPredecessor (g : FlowGraph) (this predecessor : nat) : M FlowGraph :=
  B ← block_at g this;
  match kind B with
  | GraphEntry => Err BAssertFailed
  | JoinEntry | IndirectEntry =>
      P ← block_at g predecessor;
      index ← pred_index g (predecessors_ B) (block_id_ P);
      check_ids g (drop index (predecessors_ B)) (block_id_ P);;
      modify g this (set_predecessors (take index (predecessors_ B) ++ predecessor :: drop index (predecessors_ B)))
  | TargetEntry | CatchBlockEntry =>
      check (bool_decide (predecessors_ B = []));;
      modify g this (set_predecessors [predecessor])
  end.

(** ** DiscoverBlocks *)

Definition IsMarked (g : FlowGraph) (block : nat) (preorder : list nat) : M bool :=
  B ← block_at g block;
  let i := preorder_number_ B in
  if (0 <=? i) && (i <? length_of preorder) then b ← get preorder i; Ok (b =? block)%nat else Ok false.

Definition DiscoverBlock (g : FlowGraph) (this : nat) (predecessor : option nat) : M (bool * FlowGraph) :=
  check (bool_decide (predecessor = None) || negb (bool_decide (preorder_ g = [])));;
  B ← block_at g this;
  marked ← IsMarked g this (preorder_ g);
  check (IsJoinEntry B || negb marked);;
  if marked : bool then
    match predecessor with
    | None => Err BAssertFailed
    | Some p => g ← AddPredecessor g this p; Ok (false, g)
    end
  else
    g ← modify g this ClearPredecessors;
    g ← (match predecessor with None => Ok g | Some p => AddPredecessor g this p end);
    parent_number ← (match predecessor with None => Ok (-1) | Some p => P ← block_at g p; Ok (preorder_number_ P) end);
    let g := set_parent (parent_ g ++ [parent_number]) g in
    g ← modify g this (set_preorder_number (length_of (preorder_ g)));
    let g := set_preorder (preorder_ g ++ [this]) g in
    check (length_of (preorder_ g) =? length_of (parent_ g));;
    Ok (true, g).

Record BlockTraversalState := mkState { block : nat; next_successor_ix_ : Z }.

Definition BlockTraversalState_new (g : FlowGraph) (b : nat) : M BlockTraversalState :=
  B ← block_at g b; Ok (mkState b (length_of (successors B) - 1)).

Definition HasNextSuccessor (s : BlockTraversalState) : bool := 0 <=? next_successor_ix_ s.

Definition NextSuccessor (g : FlowGraph) (s : BlockTraversalState) : M (nat * BlockTraversalState) :=
  check (HasNextSuccessor s);;
  B ← block_at g (block s);
  succ ← get (successors B) (next_successor_ix_ s);
  Ok (succ, mkState (block s) (next_successor_ix_ s - 1)).

(** [while (!block_stack.is_empty())]; the head of the list is [block_stack.Last()]. *)
Fixpoint discover_loop (fuel : nat) (g : FlowGraph) (block_stack : list BlockTraversalState) : M FlowGraph :=
  match fuel with
  | O => Err BNoReturn
  | S fuel =>
      match block_stack with
      | [] => Ok g
      | state :: rest =>
          if HasNextSuccessor state then
            r ← NextSuccessor g state;
            let succ := fst r in let state := snd r in
            d ← DiscoverBlock g succ (Some (block state));
            let g := snd d in
            if fst d : bool then
              s ← BlockTraversalState_new g succ;
              discover_loop fuel g (s :: state :: rest)
            else discover_loop fuel g (state :: rest)
          else
            g ← modify g (block state) (set_postorder_number (length_of (postorder_ g)));
            discover_loop fuel (set_postorder (postorder_ g ++ [block state]) g) rest
      end
  end.

(** Each round follows an edge or takes a block from the stack. *)
Definition discover_fuel (g : FlowGraph) : nat :=
  S (length (blocks g) + sum_list_with (fun B => length (successors B)) (blocks g)).

Definition DiscoverBlocks (g : FlowGraph) : M FlowGraph :=
  let g := set_parent [] (set_reverse_postorder [] (set_postorder [] (set_preorder [] g))) in
  d ← DiscoverBlock g (graph_entry_ g) None;
  let g := snd d in
  s ← BlockTraversalState_new g (graph_entry_ g);
  g ← discover_loop (discover_fuel g) g [s];
  check (length_of (postorder_ g) =? length_of (preorder_ g));;
  Ok (set_loop_headers None (set_reverse_postorder (rev (postorder_ g)) g)).

(** ** ComputeDominators *)

(** Recursive in the code: each level goes to a smaller number. *)
Fixpoint CompressPath (fuel : nat) (start_index current_index : Z) (parent label : list Z) : M (list Z * list Z) :=
  match fuel with
  | O => Err BNoReturn
  | S fuel =>
      next_index ← get parent current_index;
      if start_index <? next_index then
        r ← CompressPath fuel start_index next_index parent label;
        let parent := fst r in let label := snd r in
        l ← get label current_index;
        l' ← get label next_index;
        label ← put label current_index (Utils.Minimum l l');
        p ← get parent next_index;
        parent ← put parent current_index p;
        Ok (parent, label)
      else Ok (parent, label)
  end.

(** What the first pass works on: [parent_], [label] and [semi]. *)
Record Forest := mkForest { f_parent : list Z; f_label : list Z; f_semi : list Z }.

(** [for (intptr_t i = 0, count = block->PredecessorCount(); i < count; ++i)] *)
Fixpoint semi_preds (g : FlowGraph) (block_index : Z) (preds : list nat) (f : Forest) : M Forest :=
  match preds with
  | [] => Ok f
  | pred :: preds =>
      P ← block_at g pred;
      let pred_index := preorder_number_ P in
      r ← (if block_index <? pred_index then
             r ← CompressPath (length (f_parent f)) block_index pred_index (f_parent f) (f_label f);
             best ← get (snd r) pred_index;
             Ok (best, mkForest (fst r) (snd r) (f_semi f))
           else Ok (pred_index, f));
      let best := fst r in let f := snd r in
      s ← get (f_semi f) block_index;
      s' ← get (f_semi f) best;
      semi ← put (f_semi f) block_index (Utils.Minimum s s');
      semi_preds g block_index preds (mkForest (f_parent f) (f_label f) semi)
  end.

(** The blocks [k], ..., 1. *)
Fixpoint semi_loop (k : nat) (g : FlowGraph) (f : Forest) : M (FlowGraph * Forest) :=
  match k with
  | O => Ok (g, f)
  | S k' =>
      let block_index := Z.of_nat k in
      block ← get (preorder_ g) block_index;
      g ← modify g block (set_dominated_blocks []);
      B ← block_at g block;
      f ← semi_preds g block_index (Predecessors B) f;
      s ← get (f_semi f) block_index;
      label ← put (f_label f) block_index s;
      semi_loop k' g (mkForest (f_parent f) label (f_semi f))
  end.

(** [while (dom_index > semi[block_index]) { dom_index = idom[dom_index]; }] *)
Fixpoint ascend (fuel : nat) (idom semi : list Z) (block_index dom_index : Z) : M Z :=
  match fuel with
  | O => Err BNoReturn
  | S fuel =>
      s ← get semi block_index;
      if s <? dom_index then d ← get idom dom_index; ascend fuel idom semi block_index d else Ok dom_index
  end.

Definition AddDominatedBlock (g : FlowGraph) (this block : nat) : M FlowGraph :=
  g ← modify g block (set_dominator (Some this));
  D ← block_at g this;
  modify g this (set_dominated_blocks (dominated_blocks_ D ++ [block])).

(** [todo] blocks from [block_index] on. *)
Fixpoint idom_loop (todo : nat) (block_index : Z) (g : FlowGraph) (semi idom : list Z) : M (FlowGraph * list Z) :=
  match todo with
  | O => Ok (g, idom)
  | S todo =>
      dom_index ← get idom block_index;
      dom_index ← ascend (length idom) idom semi block_index dom_index;
      idom ← put idom block_index dom_index;
      d ← get (preorder_ g) dom_index;
      b ← get (preorder_ g) block_index;
      g ← AddDominatedBlock g d b;
      idom_loop todo (block_index + 1) g semi idom
  end.

(** [while (runner != block->dominator())] *)
Fixpoint run_up (fuel : nat) (g : FlowGraph) (block_index : Z) (dominator runner : option nat) (df : list BitVector) : M (list BitVector) :=
  match fuel with
  | O => Err BNoReturn
  | S fuel =>
      if bool_decide (runner = dominator) then Ok df
      else
        match runner with
        | None => Err BOutOfRange
        | Some r =>
            R ← block_at g r;
            v ← get df (preorder_number_ R);
            v ← Add v block_index;
            df ← put df (preorder_number_ R) v;
            run_up fuel g block_index dominator (dominator_ R) df
        end
  end.

Fixpoint frontier_preds (g : FlowGraph) (block_index : Z) (dominator : option nat) (preds : list nat) (df : list BitVector) : M (list BitVector) :=
  match preds with
  | [] => Ok df
  | p :: preds =>
      df ← run_up (S (length (preorder_ g))) g block_index dominator (Some p) df;
      frontier_preds g block_index dominator preds df
  end.

Fixpoint frontier_loop (todo : nat) (block_index : Z) (g : FlowGraph) (df : list BitVector) : M (list BitVector) :=
  match todo with
  | O => Ok df
  | S todo =>
      block ← get (preorder_ g) block_index;
      B ← block_at g block;
      df ← (if length_of (Predecessors B) <=? 1 then Ok df
            else frontier_preds g block_index (dominator_ B) (Predecessors B) df);
      frontier_loop todo (block_index + 1) g df
  end.

(** [dominance_frontier] is given empty; the result is the graph and the frontiers. *)
Definition ComputeDominators (g : FlowGraph) : M (FlowGraph * list BitVector) :=
  let size := length (parent_ g) in
  let idom := parent_ g in
  let semi := Z.of_nat <$> seq 0 size in
  let label := Z.of_nat <$> seq 0 size in
  let df := replicate size (BitVector_new (Z.of_nat size)) in
  entry ← get (preorder_ g) 0;
  g ← modify g entry (set_dominated_blocks []);
  r ← semi_loop (size - 1) g (mkForest (parent_ g) label semi);
  let g := set_parent (f_parent (snd r)) (fst r) in
  r2 ← idom_loop (size - 1) 1 g (f_semi (snd r)) idom;
  let g := fst r2 in
  df ← frontier_loop size 0 g df;
  Ok (g, df).

(** [while (current != NULL && current != this) { current = current->dominator(); }] *)
Fixpoint Dominates_loop (fuel : nat) (g : FlowGraph) (this : nat) (current : option nat) : M bool :=
  match fuel with
  | O => Err BNoReturn
  | S fuel =>
      match current with
      | None => Ok false
      | Some c => if (c =? this)%nat then Ok true else C ← block_at g c; Dominates_loop fuel g this (dominator_ C)
      end
  end.

Definition Dominates (g : FlowGraph) (this : nat) (other : option nat) : M bool :=
  check (negb (bool_decide (other = None)));;
  Dominates_loop (S (length (blocks g))) g this other.

(** ** InsertPhis *)

Definition JoinEntry_InsertPhi (g : FlowGraph) (this : nat) (var_index var_count : Z) : M FlowGraph :=
  B ← block_at g this;
  let phis := match phis_ B with None => replicate (Z.to_nat var_count) None | Some phis => phis end in
  old ← get phis var_index;
  check (bool_decide (old = @None PhiInstr));;
  phis ← put phis var_index (Some (mkPhi (length_of (Predecessors B)) false));
  modify g this (set_phis (Some phis)).

Definition mark_alive (g : FlowGraph) (this : nat) (var_index : Z) : M FlowGraph :=
  B ← block_at g this;
  match phis_ B with
  | None => Err BOutOfRange
  | Some phis =>
      p ← get phis var_index;
      match p with
      | None => Err BOutOfRange
      | Some p => phis ← put phis var_index (Some (mkPhi (num_inputs p) true)); modify g this (set_phis (Some phis))
      end
  end.

(** [live_phis]: a phi is known by its block and variable.  The head of [ps_worklist]
    is its last element. *)
Record PhiState := mkPhiState {
  ps_graph : FlowGraph; ps_has_already : list Z; ps_work : list Z; ps_worklist : list nat; ps_live_phis : list (nat * Z)
}.

Section phis.
Context (variable_count : Z) (assigned_vars dom_frontier : list BitVector) (var_index : Z) (always_live : bool).

(** [for (BitVector::Iterator it(...); !it.Done(); it.Advance())] *)
Fixpoint frontier_phis (elements : list Z) (s : PhiState) : M PhiState :=
  match elements with
  | [] => Ok s
  | index :: elements =>
      h ← get (ps_has_already s) index;
      s ← (if h <? var_index then
             block ← get (preorder_ (ps_graph s)) index;
             B ← block_at (ps_graph s) block;
             check (IsJoinEntry B);;
             g ← JoinEntry_InsertPhi (ps_graph s) block var_index variable_count;
             r ← (if always_live then g ← mark_alive g block var_index; Ok (g, ps_live_phis s ++ [(block, var_index)]) else Ok (g, ps_live_phis s));
             has_already ← put (ps_has_already s) index var_index;
             w ← get (ps_work s) index;
             if w <? var_index then
               work ← put (ps_work s) index var_index;
               Ok (mkPhiState (fst r) has_already work (block :: ps_worklist s) (snd r))
             else Ok (mkPhiState (fst r) has_already (ps_work s) (ps_worklist s) (snd r))
           else Ok s);
      frontier_phis elements s
  end.

(** The blocks that assign the variable, from [block_index] on. *)
Fixpoint seed (todo : nat) (block_index : Z) (s : PhiState) : M PhiState :=
  match todo with
  | O => Ok s
  | S todo =>
      a ← get assigned_vars block_index;
      c ← Contains a var_index;
      s ← (if c : bool then
             work ← put (ps_work s) block_index var_index;
             b ← get (preorder_ (ps_graph s)) block_index;
             Ok (mkPhiState (ps_graph s) (ps_has_already s) work (b :: ps_worklist s) (ps_live_phis s))
           else Ok s);
      seed todo (block_index + 1) s
  end.

(** [while (!worklist.is_empty())]: a block is on the worklist once. *)
Fixpoint phi_loop (fuel : nat) (s : PhiState) : M PhiState :=
  match fuel with
  | O => Err BNoReturn
  | S fuel =>
      match ps_worklist s with
      | [] => Ok s
      | current :: rest =>
          C ← block_at (ps_graph s) current;
          v ← get dom_frontier (preorder_number_ C);
          els ← elements v;
          s ← frontier_phis els (mkPhiState (ps_graph s) (ps_has_already s) (ps_work s) rest (ps_live_phis s));
          phi_loop fuel s
      end
  end.

End phis.

(** The variables from [var_index] on.  [prune_dead_locals]: the flag;
    [context_index]: [CurrentContextEnvIndex()]. *)
Fixpoint var_loop (prune_dead_locals : bool) (context_index variable_count : Z) (assigned_vars dom_frontier : list BitVector)
    (todo : nat) (var_index : Z) (s : PhiState) : M PhiState :=
  match todo with
  | O => Ok s
  | S todo =>
      let always_live := negb prune_dead_locals || (var_index =? context_index) in
      let block_count := length (preorder_ (ps_graph s)) in
      s ← seed assigned_vars var_index block_count 0 s;
      s ← phi_loop variable_count dom_frontier var_index always_live (S block_count) s;
      var_loop prune_dead_locals context_index variable_count assigned_vars dom_frontier todo (var_index + 1) s
  end.

Definition InsertPhis (prune_dead_locals : bool) (context_index variable_count : Z) (assigned_vars dom_frontier : list BitVector) (g : FlowGraph)
    : M (FlowGraph * list (nat * Z)) :=
  let none := replicate (length (preorder_ g)) (-1) in
  s ← var_loop prune_dead_locals context_index variable_count assigned_vars dom_frontier (Z.to_nat variable_count) 0 (mkPhiState g none none [] []);
  Ok (ps_graph s, ps_live_phis s).

(** ** Loops *)

(** [for (intptr_t i = 0; i < p->PredecessorCount(); ++i)]; the head of the stack is its
    last element. *)
Fixpoint loop_preds (g : FlowGraph) (preds : list nat) (loop : BitVector) (stack : list nat) : M (BitVector * list nat) :=
  match preds with
  | [] => Ok (loop, stack)
  | q :: preds =>
      Q ← block_at g q;
      c ← Contains loop (preorder_number_ Q);
      if negb c then loop ← Add loop (preorder_number_ Q); loop_preds g preds loop (q :: stack)
      else loop_preds g preds loop stack
  end.

Fixpoint find_loop (fuel : nat) (g : FlowGraph) (loop : BitVector) (stack : list nat) : M BitVector :=
  match fuel with
  | O => Err BNoReturn
  | S fuel =>
      match stack with
      | [] => Ok loop
      | p :: stack =>
          P ← block_at g p;
          r ← loop_preds g (Predecessors P) loop stack;
          find_loop fuel g (fst r) (snd r)
      end
  end.

Definition FindLoop (g : FlowGraph) (m n : nat) : M BitVector :=
  N ← block_at g n;
  Mb ← block_at g m;
  loop ← Add (BitVector_new (length_of (preorder_ g))) (preorder_number_ N);
  if (n =? m)%nat then Ok loop
  else
    loop ← Add loop (preorder_number_ Mb);
    find_loop (S (length (preorder_ g))) g loop [m].

(** The predecessors of [block] that it dominates. *)
Fixpoint back_edges (g : FlowGraph) (block : nat) (preds : list nat) (loop_headers : list nat) : M (FlowGraph * list nat) :=
  match preds with
  | [] => Ok (g, loop_headers)
  | pred :: preds =>
      d ← Dominates g block (Some pred);
      if d : bool then
        loop_info ← FindLoop g pred block;
        B ← block_at g block;
        if bool_decide (block ∈ loop_headers) then
          match loop_info_ B with
          | None => Err BOutOfRange
          | Some old =>
              r ← AddAll old loop_info;
              g ← modify g block (set_loop_info (Some (snd r)));
              back_edges g block preds loop_headers
          end
        else
          g ← modify g block (set_loop_info (Some loop_info));
          back_edges g block preds (loop_headers ++ [block])
      else back_edges g block preds loop_headers
  end.

(** [for (BlockIterator it = postorder_iterator(); ...)] *)
Fixpoint loops_of (g : FlowGraph) (postorder : list nat) (loop_headers : list nat) : M (FlowGraph * list nat) :=
  match postorder with
  | [] => Ok (g, loop_headers)
  | block :: postorder =>
      B ← block_at g block;
      r ← back_edges g block (Predecessors B) loop_headers;
      loops_of (fst r) postorder (snd r)
  end.

Definition ComputeLoops (g : FlowGraph) : M (FlowGraph * list nat) := loops_of g (postorder_ g) [].

Definition LoopHeaders (g : FlowGraph) : M (FlowGraph * list nat) :=
  match loop_headers_ g with
  | Some l => Ok (g, l)
  | None => r ← ComputeLoops g; Ok (set_loop_headers (Some (snd r)) (fst r), snd r)
  end.

End flow_graph.

End FlowGraph.
