(* ===== verification/Dominators.v ===== *)
(** * Dominators of a flow graph, in numbers

    What the passes of [FlowGraph] rely on, for any graph whose nodes are the preorder
    numbers of a depth-first traversal: ancestors in the spanning tree, semidominators
    and the two facts behind the SEMI-NCA algorithm, immediate dominators, dominance
    frontiers.  No code is translated here. *)

From stdpp Require Import base numbers list sets.
From Stdlib Require Import ZArith Lia.
From S2P Require Import Prelude.

Local Open Scope Z_scope.

Module Dominators.

Section paths.
Context {A : Type} (E : A -> A -> Prop).

(** The nodes of a path from [u] to [v], both included. *)
Inductive path : A -> list A -> A -> Prop :=
| path_one u : path u [u] u
| path_cons u w l v : E u w -> path w l v -> path u (u :: l) v.

Lemma path_head u l v : path u l v -> exists l', l = u :: l'.
Proof. destruct 1; eauto. Qed.

Lemma path_in u l v : path u l v -> u ∈ l /\ v ∈ l.
Proof. induction 1 as [|u w l v Hw Hp [IH1 IH2]]; rewrite !elem_of_cons; tauto. Qed.

Lemma path_snoc u l v w : path u l v -> E v w -> path u (l ++ [w]) w.
Proof. induction 1; intros Hw; simpl; [repeat (econstructor; eauto)|econstructor; eauto]. Qed.

(** Joining a path to [w] and one from [w]. *)
Lemma path_app u m w l v : path u (m ++ [w]) w -> path w l v -> path u (m ++ l) v.
Proof.
  remember (m ++ [w]) as mw eqn:Em. intros Hp. revert m Em. induction Hp as [u|u x l0 w Hx Hp IH]; intros m Em Hl.
  - destruct m as [|y m]; simplify_eq/=; [done|by destruct m].
  - destruct m as [|y m]; simplify_eq/=.
    + by destruct (path_head _ _ _ Hp).
    + econstructor; [done|]. by apply IH.
Qed.

Lemma path_last u l v : path u l v -> exists m, l = m ++ [v].
Proof. induction 1 as [u|u w l v Hw Hp [m ->]]; [by exists []|by exists (u :: m)]. Qed.

Lemma path_pred u l v : path u l v -> u = v \/ exists q l', l = l' ++ [v] /\ E q v /\ path u l' q.
Proof.
  intros Hp. assert ((l = [u] /\ u = v) \/ exists q l', l = l' ++ [v] /\ E q v /\ path u l' q); [|naive_solver].
  induction Hp as [u|u w l v Hw Hp [[-> ->]|(q & l' & -> & Hq & Hl')]]; [by left| |]; right.
  - exists u, [u]. split_and!; [done|done|constructor].
  - exists q, (u :: l'). split_and!; [done|done|by econstructor].
Qed.

Lemma path_app' u l w l' v : path u l w -> path w l' v -> exists l'', path u l'' v /\ forall x, x ∈ l'' -> x ∈ l \/ x ∈ l'.
Proof.
  intros Hp Hq. destruct (path_last _ _ _ Hp) as [m ->]. exists (m ++ l'). split; [by eapply path_app|]. intros x. set_solver.
Qed.

(** The first node of a path with a property. *)
Lemma path_first (Q : A -> Prop) `{forall x, Decision (Q x)} u l v c :
  path u l v -> c ∈ l -> Q c ->
  exists m c l2, path u (m ++ [c]) c /\ Forall (fun x => ~ Q x) m /\ Q c /\ path c l2 v /\ l = m ++ l2.
Proof.
  intros Hp. induction Hp as [u|u w l v Hw Hp IH]; intros Hc HQ.
  - apply list_elem_of_singleton in Hc as ->. exists [], u, [u]. repeat split; try done; by constructor.
  - destruct (decide (Q u)) as [Hu|Hu].
    + exists [], u, (u :: l). repeat split; [constructor|constructor|done|by econstructor].
    + apply elem_of_cons in Hc as [->|Hc]; [done|]. destruct (IH Hc HQ) as (m & c' & l2 & H1 & H2 & H3 & H4 & ->).
      exists (u :: m), c', l2. repeat split; try done; [by econstructor|by constructor].
Qed.

(** The last one. *)
Lemma path_final (Q : A -> Prop) `{forall x, Decision (Q x)} u l v c :
  path u l v -> c ∈ l -> Q c ->
  exists l1 c m, path u l1 c /\ Q c /\ path c (c :: m) v /\ Forall (fun x => ~ Q x) m /\ (forall x, x ∈ l1 \/ x ∈ m -> x ∈ l).
Proof.
  intros Hp. revert c. induction Hp as [u|u w l v Hw Hp IH]; intros c Hc HQ.
  - apply list_elem_of_singleton in Hc as ->. exists [u], u, []. split_and!; [constructor|done|constructor|constructor|]. intros x [?|[]%not_elem_of_nil]; done.
  - destruct (decide (Exists Q l)) as [Hl|Hl].
    + apply Exists_exists in Hl as (c' & Hc' & HQ'). destruct (IH c' Hc' HQ') as (l1 & d & m & H1 & H2 & H3 & H4 & H5).
      exists (u :: l1), d, m. repeat split; try done; [by econstructor|]. intros x. rewrite !elem_of_cons. naive_solver.
    + apply not_Exists_Forall in Hl; [|apply _]. apply elem_of_cons in Hc as [->|Hc]; [|by rewrite Forall_forall in Hl; destruct (Hl c Hc)].
      exists [u], u, l. split_and!; [constructor|done|by econstructor|done|]. intros x [->%list_elem_of_singleton|?]; [by left|by right].
Qed.

Lemma path_trans u l v l' w : path u l v -> path v l' w -> exists l'', path u l'' w.
Proof. intros H1 H2. destruct (path_app' _ _ _ _ _ H1 H2) as (l'' & H & _). eauto. Qed.

Lemma path_split u l v c : path u l v -> c ∈ l -> exists l1 l2, path u l1 c /\ path c l2 v /\ forall x, x ∈ l1 \/ x ∈ l2 -> x ∈ l.
Proof.
  induction 1 as [u|u w l v Hw Hp IH]; intros Hc.
  - apply list_elem_of_singleton in Hc as ->. exists [u], [u]. split_and!; [constructor|constructor|]. by intros x [?|?].
  - apply elem_of_cons in Hc as [->|Hc].
    + exists [u], (u :: l). split_and!; [constructor|by econstructor|]. intros x [->%list_elem_of_singleton|?]; [by left|done].
    + destruct (IH Hc) as (l1 & l2 & H1 & H2 & H3). exists (u :: l1), l2. repeat split; [by econstructor|done|]. intros x. rewrite !elem_of_cons. naive_solver.
Qed.

End paths.

(** [d] dominates [v] in the graph entered at [r]. *)
Definition dominates {A} (E : A -> A -> Prop) (r d v : A) : Prop := forall l, path E r l v -> d ∈ l.
Definition sdominates {A} (E : A -> A -> Prop) (r d v : A) : Prop := d <> v /\ dominates E r d v.
Definition immediate_dominator {A} (E : A -> A -> Prop) (r d v : A) : Prop :=
  sdominates E r d v /\ forall x, sdominates E r x v -> dominates E r x d.
(** [v] is in the dominance frontier of [d]. *)
Definition frontier {A} (E : A -> A -> Prop) (r d v : A) : Prop :=
  exists q, (exists l, path E r l q) /\ E q v /\ dominates E r d q /\ ~ sdominates E r d v.

Lemma dominates_refl {A} (E : A -> A -> Prop) r v : dominates E r v v.
Proof. intros l Hl. by apply (path_in _ _ _ _ Hl). Qed.

Lemma dominates_trans {A} (E : A -> A -> Prop) r a b c : dominates E r a b -> dominates E r b c -> dominates E r a c.
Proof.
  intros Hab Hbc l Hl. destruct (path_split _ _ _ _ _ Hl (Hbc l Hl)) as (l1 & l2 & H1 & _ & Hsub). apply Hsub. left. by apply Hab.
Qed.

Section tree.
Context (n : Z) (E : Z -> Z -> Prop) (p : Z -> Z).

(** Ancestors in the spanning tree. *)
Inductive anc (u : Z) : Z -> Prop :=
| anc_refl : anc u u
| anc_up v : 0 < v < n -> anc u (p v) -> anc u v.

(** What a depth-first traversal guarantees. *)
Record spanning_tree : Prop := {
  st_size : 0 < n;
  st_range u v : E u v -> 0 <= u < n /\ 0 < v < n;
  st_parent v : 0 < v < n -> 0 <= p v < v /\ E (p v) v;
  st_forward u v : E u v -> u < v -> anc u v;
  st_last v : 0 < v < n -> anc (p v) (v - 1)
}.

Lemma path_min (u v : Z) l : path E u l v -> exists c, c ∈ l /\ forall x, x ∈ l -> c <= x.
Proof.
  induction 1 as [u|u w l v Hw Hp (c & Hc & Hmin)].
  - exists u. split; [by left|]. intros x ->%list_elem_of_singleton. lia.
  - destruct (decide (u <= c)); [exists u|exists c]; (split; [set_solver|]); intros x [->|Hx]%elem_of_cons; try lia; specialize (Hmin x Hx); lia.
Qed.

Context (ST : spanning_tree).

Lemma anc_trans u v w : anc u v -> anc v w -> anc u w.
Proof. intros Hu Hv. induction Hv; [done|by apply anc_up]. Qed.

Lemma anc_le u v : anc u v -> u <= v.
Proof. induction 1 as [|v Hv Hu IH]; [lia|]. pose proof (st_parent ST v Hv). lia. Qed.

Lemma anc_pos u v : anc u v -> 0 <= v -> 0 <= u.
Proof. induction 1 as [|v Hv Hu IH]; [done|]. intros _. apply IH. by apply (st_parent ST). Qed.

Lemma anc_proper u v : anc u v -> u <> v -> 0 < v < n /\ anc u (p v).
Proof. destruct 1; done. Qed.

Lemma anc_linear a b v : anc a v -> anc b v -> a <= b -> anc a b.
Proof.
  intros Ha Hb. revert Ha. induction Hb as [|v Hv Hb IH]; intros Ha Hab; [done|]. apply IH; [|done].
  apply anc_proper; [done|]. intros ->. pose proof (anc_le _ _ Hb). pose proof (st_parent ST v Hv). lia.
Qed.

Lemma anc_interval u v w : anc u v -> u <= w <= v -> anc u w.
Proof.
  intros Hu Hw. remember (Z.to_nat (v - w)) as k eqn:Ek. revert w Ek Hw. induction k as [|k IH]; intros w Ek Hw.
  - by assert (w = v) as -> by lia.
  - specialize (IH (w + 1) ltac:(lia) ltac:(lia)). destruct (anc_proper _ _ IH ltac:(lia)) as [Hr Hp].
    eapply anc_trans; [exact Hp|]. replace w with (w + 1 - 1) at 2 by lia. by apply (st_last ST).
Qed.

Lemma anc_root v : 0 <= v < n -> anc 0 v.
Proof.
  induction (Z.lt_wf 0 v) as [v _ IH]. intros Hv. destruct (decide (v = 0)) as [->|]; [constructor|].
  apply anc_up; [lia|]. destruct (st_parent ST v ltac:(lia)). apply IH; lia.
Qed.

Lemma anc_dec_pos u v : 0 <= v -> {anc u v} + {~ anc u v}.
Proof.
  intros Hv. induction v as [v IH] using (well_founded_induction (Z.lt_wf 0)).
  destruct (decide (u = v)) as [->|Hne]; [left; constructor|].
  destruct (decide (0 < v < n)) as [Hr|Hr]; [|right; by intros [? ?]%anc_proper].
  destruct (IH (p v)) as [H|H]; try apply (st_parent ST v Hr).
  - left. by apply anc_up.
  - right. by intros [_ ?]%anc_proper.
Qed.

Lemma tree_path u v : anc u v -> exists l, path E u l v /\ forall x, x ∈ l -> anc u x /\ anc x v.
Proof.
  induction 1 as [|v Hv Hu (l & Hl & Hx)]; [exists [u]; split; [constructor|]; intros x ->%list_elem_of_singleton; split; constructor|].
  exists (l ++ [v]). split; [eapply path_snoc; [done|by apply (st_parent ST)]|].
  intros x [Hin| ->%list_elem_of_singleton]%elem_of_app.
  - destruct (Hx x Hin). split; [done|by apply anc_up].
  - split; [by apply anc_up|constructor].
Qed.

(** ** Paths and ancestors *)

Lemma path_below c u l v : path E u l v -> anc c u -> (forall x, x ∈ l -> c <= x) -> anc c v.
Proof.
  induction 1 as [u|u w l v Hw Hp IH]; intros Hc Hmin; [done|].
  assert (c <= w) as Hcw by (apply Hmin; right; by apply (path_in _ _ _ _ Hp)).
  apply IH; [|intros x Hx; apply Hmin; by right]. destruct (decide (u < w)) as [Hlt|Hge].
  - eapply anc_trans; [done|]. by apply (st_forward ST).
  - apply (anc_interval c u w Hc). lia.
Qed.

(** A path to a larger number passes a common ancestor. *)
Lemma path_common u l v : path E u l v -> u <= v -> exists c, c ∈ l /\ anc c u /\ anc c v.
Proof.
  intros Hp Huv. destruct (path_min _ _ _ Hp) as (c & Hc & Hmin). exists c. split; [done|].
  destruct (path_split _ _ _ _ _ Hp Hc) as (l1 & l2 & _ & H2 & Hsub).
  assert (anc c v) as Hcv by (eapply path_below; [exact H2|constructor|intros x Hx; apply Hmin, Hsub; by right]).
  split; [|done]. apply (anc_interval c v u Hcv). split; [|done]. apply Hmin. by apply (path_in _ _ _ _ Hp).
Qed.

(** ** Semidominators *)

(** A path that passes only numbers greater than that of its end. *)
Definition semi (s v : Z) : Prop := exists m, path E s (s :: m ++ [v]) v /\ Forall (fun x => v < x) m.
Definition semidominator (s v : Z) : Prop := semi s v /\ forall s', semi s' v -> s <= s'.

Lemma semi_edge u v : E u v -> semi u v.
Proof. exists []. split; [|constructor]. econstructor; [done|constructor]. Qed.

Lemma semidominator_parent s v : 0 < v < n -> semidominator s v -> s <= p v.
Proof. intros Hv [_ Hs]. apply Hs, semi_edge. by apply (st_parent ST). Qed.

Lemma semidominator_unique s s' v : semidominator s v -> semidominator s' v -> s = s'.
Proof. intros [H1 H2] [H3 H4]. specialize (H2 _ H3). specialize (H4 _ H1). lia. Qed.

Lemma semidominator_anc s v : 0 < v < n -> semidominator s v -> anc s v.
Proof.
  intros Hv Hs. pose proof (semidominator_parent s v Hv Hs). pose proof (proj1 (st_parent ST v Hv)).
  destruct Hs as [(m & Hp & Hm) _]. destruct (path_common _ _ _ Hp ltac:(lia)) as (c & Hc & Hcs & Hcv).
  pose proof (anc_le _ _ Hcs). rewrite Forall_forall in Hm. apply elem_of_cons in Hc as [->|[Hc| ->%list_elem_of_singleton]%elem_of_app]; [done| |lia].
  specialize (Hm c Hc). lia.
Qed.

Lemma path_step u x l v : path E u (u :: x :: l) v -> E u x /\ path E x (x :: l) v.
Proof. inversion 1 as [|? w ? ? Hw Hp]; subst. destruct (path_head _ _ _ _ Hp); simplify_eq. done. Qed.

Lemma semi_pos s v : semi s v -> 0 <= s.
Proof. intros ([|x m] & Hp & _); destruct (path_step _ _ _ _ Hp) as [Hw _]; by apply (st_range ST) in Hw as [[? _] _]. Qed.

Lemma semi_extend s u v w : E u v -> anc w u -> v < w -> semi s w -> semi s v.
Proof.
  intros Huv Hwu Hvw (m & Hp & Hm). destruct (tree_path w u Hwu) as (l & Hl & Hx). destruct (path_head _ _ _ _ Hl) as [l' El].
  exists (m ++ l). split.
  - pose proof (path_app E s (s :: m) w l u Hp Hl) as Hq. by apply (path_snoc E _ _ _ v Hq).
  - apply Forall_app. split; [eapply Forall_impl; [exact Hm|simpl; intros; lia]|]. apply Forall_forall. intros x Hin. destruct (Hx x Hin) as [Hw _]. pose proof (anc_le _ _ Hw). lia.
Qed.

Lemma path_tail_snoc u m x v : path E u (u :: (m ++ [x]) ++ [v]) v -> E x v /\ path E u (u :: m ++ [x]) x.
Proof.
  revert u. induction m as [|y m IH]; intros u Hp; simpl in *; destruct (path_step _ _ _ _ Hp) as [Hw Hq].
  - destruct (path_step _ _ _ _ Hq) as [Hxv _]. split; [done|]. econstructor; [done|constructor].
  - destruct (IH y Hq) as [H1 H2]. split; [done|]. by econstructor.
Qed.

Lemma anc_dec_range v : 0 <= v -> forall x, Decision (anc x v).
Proof. intros Hv x. by apply anc_dec_pos. Defined.

(** The first ancestor of [u] on a path has the smallest number so far. *)
Lemma first_anc u x m w : path E x (m ++ [w]) w -> Forall (fun z => ~ anc z u) m -> anc w u -> Forall (fun z => w < z) m.
Proof.
  intros Hp Hm Hw. rewrite Forall_forall in Hm. apply Forall_forall. intros z Hz. destruct (decide (w < z)) as [|Hge]; [done|exfalso].
  assert (z ∈ m ++ [w]) as Hz' by (apply elem_of_app; by left).
  destruct (path_split _ _ _ _ _ Hp Hz') as (l1 & l2 & _ & H2 & Hsub).
  destruct (path_common _ _ _ H2 ltac:(lia)) as (c & Hc & Hcz & Hcw). assert (c ∈ m ++ [w]) as [Hcm| ->%list_elem_of_singleton]%elem_of_app by auto.
  - apply (Hm c Hcm). by eapply anc_trans.
  - pose proof (anc_le _ _ Hcz). assert (z = w) as -> by lia. by apply (Hm w).
Qed.

(** A semidominator path is an edge, or it goes through that of an ancestor of the
    last node. *)
Lemma semi_cases s v : 0 < v < n -> semi s v -> E s v \/ exists u w, E u v /\ anc w u /\ v < w /\ semi s w.
Proof.
  intros Hv (m & Hp & Hm). destruct m as [|u m _] using rev_ind; [left; by apply (path_step _ _ _ _ Hp)|right].
  destruct (path_tail_snoc _ _ _ _ Hp) as [Huv Hq]. assert (0 <= u) as Hu by apply (st_range ST _ _ Huv).
  assert (exists x, E s x /\ path E x (m ++ [u]) u) as (x & Hx & Hxu).
  { destruct m as [|x m]; simpl in *; destruct (path_step _ _ _ _ Hq); eauto. }
  pose proof (anc_dec_range u Hu) as Hdec.
  destruct (path_first E (fun x => anc x u) _ _ _ u Hxu) as (m1 & w & l2 & H1 & H2 & H3 & H4 & E2); [apply elem_of_app; right; by left|constructor|].
  rewrite Forall_forall in Hm. destruct (path_head _ _ _ _ H4) as [l2' ->].
  exists u, w. split_and!; [done|done|apply Hm; rewrite E2; apply elem_of_app; right; by left|].
  exists m1. split; [by econstructor|]. by apply (first_anc u x).
Qed.

Lemma root_path v : 0 <= v < n -> exists l, path E 0 l v.
Proof. intros Hv. destruct (tree_path 0 v (anc_root v Hv)) as (l & Hl & _). by exists l. Qed.

Lemma path_range u l v : path E u l v -> 0 <= u < n -> 0 <= v < n.
Proof. induction 1 as [|u w l v Hw Hp IH]; [done|]. intros _. apply IH. pose proof (st_range ST _ _ Hw). lia. Qed.

Lemma dominates_anc d v : 0 <= v < n -> dominates E 0 d v -> anc d v.
Proof. intros Hv Hd. destruct (tree_path 0 v (anc_root v Hv)) as (l & Hl & Hx). apply Hx, Hd, Hl. Qed.

(** ** The two facts behind SEMI-NCA *)

(** A strict dominator is not after the semidominator. *)
Lemma sdominates_semi d s v : 0 < v < n -> sdominates E 0 d v -> semidominator s v -> d <= s.
Proof.
  intros Hv [Hne Hd] Hs. pose proof (dominates_anc d v ltac:(lia) Hd) as Hdv. pose proof (anc_le _ _ Hdv).
  pose proof (semidominator_parent s v Hv Hs). pose proof (semi_pos s v (proj1 Hs)). destruct (st_parent ST v Hv).
  destruct (tree_path 0 s (anc_root s ltac:(lia))) as (l & Hl & Hx). destruct Hs as [(m & Hp & Hm) _].
  destruct (path_last _ _ _ _ Hl) as [l0 El]. rewrite El in Hl. pose proof (Hd _ (path_app _ _ _ _ _ _ Hl Hp)) as Hin.
  rewrite Forall_forall in Hm. apply elem_of_app in Hin as [Hin|[->|[Hin| ->%list_elem_of_singleton]%elem_of_app]%elem_of_cons]; [|lia| |done].
  - apply anc_le, Hx. rewrite El. apply elem_of_app. by left.
  - specialize (Hm d Hin). lia.
Qed.

(** A dominator of the parent that is not after the semidominator is a dominator. *)
Lemma semi_dominates x s v : 0 < v < n -> semidominator s v -> x <= s -> dominates E 0 x (p v) -> dominates E 0 x v.
Proof.
  intros Hv Hs Hxs Hd l Hl. destruct (decide (x ∈ l)) as [|Hnin]; [done|exfalso]. destruct (st_parent ST v Hv) as [Hpv _].
  pose proof (dominates_anc x (p v) ltac:(lia) Hd) as Hxp. pose proof (anc_le _ _ Hxp). pose proof (anc_pos _ _ Hxp ltac:(lia)).
  assert (x <> 0) by (intros ->; by apply Hnin, (path_in _ _ _ _ Hl)).
  destruct (path_final E (fun y => y < x) _ _ _ 0 Hl) as (l1 & w & m & P1 & P2 & P3 & P4 & P5); [by apply (path_in _ _ _ _ Hl)|lia|].
  pose proof (path_range _ _ _ P1 ltac:(pose proof (st_size ST); lia)) as Hw.
  destruct m as [|x1 m]; [apply path_last in P3 as [[|? m'] E1]; simplify_eq/=; [lia|by destruct m']|].
  destruct (path_step _ _ _ _ P3) as [Hwx Hq]. assert (forall z, z ∈ x1 :: m -> x < z) as Hgt.
  { intros z Hz. rewrite Forall_forall in P4. specialize (P4 z Hz). assert (z <> x) by (intros ->; apply Hnin, P5; by right). lia. }
  pose proof (anc_dec_range v ltac:(lia)) as Hdec.
  destruct (path_first E (fun y => anc y v) _ _ _ v Hq) as (m1 & y & l2 & G1 & G2 & G3 & G4 & E2); [by apply (path_in _ _ _ _ Hq)|constructor|].
  destruct (path_head _ _ _ _ G4) as [l2' ->]. assert (x < y) as Hxy by (apply Hgt; rewrite E2; apply elem_of_app; right; by left).
  assert (path E w (w :: m1 ++ [y]) y) as Hwy by (by econstructor).
  assert (semi w y) as Hsemi by (exists m1; split; [done|by apply (first_anc v x1)]).
  destruct (decide (y = v)) as [->|Hyv]; [pose proof (proj2 Hs _ Hsemi); lia|].
  destruct (tree_path y (p v)) as (l3 & Hl3 & Hx3); [by apply anc_proper|]. destruct (tree_path 0 w (anc_root w Hw)) as (l0 & Hl0 & Hx0).
  destruct (path_app' _ _ _ _ _ _ Hl0 Hwy) as (l4 & Hl4 & Hx4). destruct (path_app' _ _ _ _ _ _ Hl4 Hl3) as (l5 & Hl5 & Hx5).
  destruct (Hx5 x (Hd _ Hl5)) as [[P0|[->|[Hin| ->%list_elem_of_singleton]%elem_of_app]%elem_of_cons]%Hx4|H3x]; try lia.
  - destruct (Hx0 x P0) as [_ Ha]. apply anc_le in Ha. lia.
  - assert (x < x); [|lia]. apply Hgt. rewrite E2. apply elem_of_app. by left.
  - destruct (Hx3 x H3x) as [Ha _]. apply anc_le in Ha. lia.
Qed.

Lemma dominates_antisym a b : 0 <= a < n -> 0 <= b < n -> dominates E 0 a b -> dominates E 0 b a -> a = b.
Proof. intros Ha Hb H1%dominates_anc H2%dominates_anc; try done. apply anc_le in H1, H2. lia. Qed.

(** Strict dominators dominate the predecessors. *)
Lemma dominates_pred d u v : E u v -> sdominates E 0 d v -> dominates E 0 d u.
Proof.
  intros Huv [Hne Hd] l Hl. pose proof (Hd _ (path_snoc _ _ _ _ _ Hl Huv)) as [?| ->%list_elem_of_singleton]%elem_of_app; done.
Qed.

(** One round of the search for the immediate dominator, and its end. *)
Definition candidate (v x : Z) : Prop :=
  dominates E 0 x (p v) /\ forall d, sdominates E 0 d v -> dominates E 0 d x.

Lemma candidate_parent v : 0 < v < n -> candidate v (p v).
Proof. intros Hv. split; [apply dominates_refl|]. intros d Hd. by apply (dominates_pred d (p v) v); [apply (st_parent ST)|]. Qed.

Lemma candidate_up s v x d : 0 < v < n -> semidominator s v -> candidate v x -> s < x -> immediate_dominator E 0 d x -> candidate v d.
Proof.
  intros Hv Hs [Hx1 Hx2] Hsx [[Hne Hd] Himm]. split; [by eapply dominates_trans|]. intros e He. apply Himm. split; [|by apply Hx2].
  intros ->. pose proof (sdominates_semi x s v Hv He Hs). lia.
Qed.

Lemma candidate_end s v x : 0 < v < n -> semidominator s v -> candidate v x -> x <= s -> immediate_dominator E 0 x v.
Proof.
  intros Hv Hs [Hx1 Hx2] Hxs. split; [|done]. split; [|by eapply semi_dominates].
  intros ->. pose proof (semidominator_parent s v Hv Hs). pose proof (st_parent ST v Hv). lia.
Qed.

(** ** Immediate dominators and frontiers *)

Lemma immediate_dominator_lt d v : 0 <= v < n -> immediate_dominator E 0 d v -> 0 <= d < v.
Proof.
  intros Hv [[Hne Hd] _]. pose proof (dominates_anc d v Hv Hd) as Ha. pose proof (anc_le _ _ Ha). pose proof (anc_pos _ _ Ha ltac:(lia)). lia.
Qed.

Lemma immediate_dominator_unique d d' v : 0 <= v < n -> immediate_dominator E 0 d v -> immediate_dominator E 0 d' v -> d = d'.
Proof.
  intros Hv H1 H2. pose proof (immediate_dominator_lt _ _ Hv H1). pose proof (immediate_dominator_lt _ _ Hv H2).
  apply dominates_antisym; [lia|lia|apply H2, H1|apply H1, H2].
Qed.

Lemma sdominates_idom d i v : immediate_dominator E 0 i v -> 0 <= v < n -> sdominates E 0 d v <-> dominates E 0 d i.
Proof.
  intros Hi Hv. pose proof (immediate_dominator_lt _ _ Hv Hi) as Hlt. destruct Hi as [[Hne Hiv] Himm]. split; [apply Himm|].
  intros Hd. split; [|by eapply dominates_trans]. intros ->. apply dominates_anc, anc_le in Hd; lia.
Qed.

(** A node with one predecessor is in no frontier. *)
Lemma frontier_single q0 v d : 0 < v < n -> (forall q, E q v -> q = q0) -> ~ frontier E 0 d v.
Proof.
  intros Hv Hone (q & _ & Hq & Hd & Hns). pose proof (Hone q Hq) as ->. destruct (st_parent ST v Hv) as [Hlt Hpv]. pose proof (Hone _ Hpv) as <-.
  apply Hns. split.
  - intros ->. apply dominates_anc, anc_le in Hd; lia.
  - intros l Hl. apply path_pred in Hl as [|(q & l' & -> & Hq' & Hl')]; [lia|]. apply Hone in Hq' as ->.
    apply elem_of_app. left. by apply Hd.
Qed.


End tree.
(** ** Definitions on paths *)

Section reaching.
Context {A : Type} `{EqDecision A} (E : A -> A -> Prop) (r : A) (Def Phi : A -> Prop).

(** On some path from [r] to [b], node [a] is the last one before [b] with a definition. *)
Definition last_definition (a b : A) : Prop :=
  exists l1 l2, path E r (l1 ++ a :: l2 ++ [b]) b /\ Def a /\ Forall (fun x => ~ Def x) l2.

Lemma path_cut u l1 a l2 v : path E u (l1 ++ a :: l2) v -> path E u (l1 ++ [a]) a /\ path E a (a :: l2) v.
Proof.
  revert u. induction l1 as [|x l1 IH]; intros u Hp; simpl in *.
  - destruct (path_head _ _ _ _ Hp) as [l' [= <- <-]]. split; [constructor|done].
  - inversion Hp as [|? w ? ? Hw Hp']; subst; [by destruct l1|]. destruct (IH _ Hp') as [H1 H2]. split; [by econstructor|done].
Qed.

Lemma dominates_swap a b : (exists l, path E r l a) -> dominates E r a b -> dominates E r b a -> a = b.
Proof.
  intros [l Hl] Hab Hba. destruct (path_first E (fun x => x = a \/ x = b) _ _ _ a Hl) as (m & c & l2 & Hm & Hno & Hc & _ & _); [by eapply path_in|by left|].
  rewrite Forall_forall in Hno. destruct Hc as [->| ->].
  - destruct (proj1 (elem_of_app _ _ _) (Hba _ Hm)) as [Hb|Hb%list_elem_of_singleton]; [destruct (Hno _ Hb); by right|done].
  - destruct (proj1 (elem_of_app _ _ _) (Hab _ Hm)) as [Ha|Ha%list_elem_of_singleton]; [destruct (Hno _ Ha); by left|done].
Qed.

Hypothesis Hroot : forall q, ~ E q r.
Hypothesis Hdec : forall a v, (exists l, path E r l v) -> dominates E r a v \/ ~ dominates E r a v.
Hypothesis HPhi : forall a v, Def a -> a <> r -> frontier E r a v -> Phi v.
Hypothesis HDef : forall v, Phi v -> Def v.

(** A definition dominates until a frontier is met. *)
Lemma definition_step a q v : Def a -> (exists l, path E r l q) -> E q v -> dominates E r a q -> ~ Phi v -> sdominates E r a v.
Proof.
  intros Ha [l Hl] He Hd Hn. assert (exists l, path E r l v) as Hv by (exists (l ++ [v]); by eapply path_snoc). destruct (decide (a = r)) as [->|Har].
  - split; [intros ->; by eapply Hroot|]. intros l' Hl'. by apply (path_in _ _ _ _ Hl').
  - destruct (decide (a = v)) as [Hav|Hav].
    + destruct Hn. apply (HPhi a v Ha Har). exists q. split_and!; [by exists l|done|done|]. by intros [? _].
    + destruct (Hdec a v Hv) as [?|Hnd]; [done|]. destruct Hn. apply (HPhi a v Ha Har). exists q. split_and!; [by exists l|done|done|]. by intros [_ ?].
Qed.

Lemma definition_dominates a b m q : Def a -> ~ Phi b -> path E q (q :: m ++ [b]) b -> (exists l, path E r l q) -> dominates E r a q ->
  Forall (fun x => ~ Def x) m -> sdominates E r a b.
Proof.
  intros Ha Hb. revert q. induction m as [|y m IH]; intros q Hp [l Hl] Hd Hm; simpl in Hp.
  - apply (definition_step a q b); [done|by exists l| |done|done]. inversion Hp as [|? w ? ? Hw Hp']; subst. destruct (path_head _ _ _ _ Hp') as [? Eh]. by simplify_eq.
  - inversion Hm as [|? ? Hy Hm']; subst. inversion Hp as [|? w ? ? Hw Hp']; subst. destruct (path_head _ _ _ _ Hp') as [? Eh]. injection Eh as <- _.
    apply (IH y); [done|exists (l ++ [y]); by eapply path_snoc| |done]. apply (definition_step a q y); eauto.
Qed.

(** The last definition before a node without a phi is the same on every path. *)
Lemma last_definition_unique a a' b : ~ Phi b -> last_definition a b -> last_definition a' b -> a = a'.
Proof.
  assert (forall a a', ~ Phi b -> last_definition a b -> last_definition a' b -> a <> a' -> (exists l, path E r l a') /\ dominates E r a a') as Hgo.
  { clear a a'. intros a a' Hb (l1 & l2 & Hp & Ha & H2) (l1' & l2' & Hp' & Ha' & H2') Hne. destruct (path_cut _ _ _ _ _ Hp) as [Q1 Q2]. destruct (path_cut _ _ _ _ _ Hp') as [Q1' Q2'].
    split; [eauto|]. destruct (definition_dominates a b l2 a Ha Hb Q2 ltac:(eauto) (dominates_refl _ _ _) H2) as [Hab Hdom].
    intros l Hl. destruct (path_last _ _ _ _ Hl) as [m ->]. pose proof (Hdom _ (path_app _ _ _ _ _ _ Hl Q2')) as Hin. rewrite Forall_forall in H2'.
    rewrite elem_of_app, elem_of_cons, elem_of_app, list_elem_of_singleton in Hin. apply elem_of_app. destruct Hin as [?|[->|[?| ->]]]; [by left|done|by destruct (H2' a)|done]. }
  intros Hb H1 H2. destruct (decide (a = a')) as [|Hne]; [done|]. destruct (Hgo a a' Hb H1 H2 Hne) as [? Hd1]. destruct (Hgo a' a Hb H2 H1 ltac:(congruence)) as [? Hd2].
  by apply dominates_swap.
Qed.

End reaching.


End Dominators.
