(* ===== verification/Discover.v ===== *)
(** * DiscoverBlocks is a depth-first traversal

    The invariant of the loop over the stack of blocks, first of the lists alone (the
    numbering, the tree, the edges followed so far), then of the blocks in memory, and
    the theorem: the traversal ends without a failed assertion, numbers exactly the
    reachable blocks, and finds exactly their predecessors. *)

From stdpp Require Import base numbers list sets.
From Stdlib Require Import ZArith Lia Sorted.
From S2P Require Import Prelude Utils HeapMemory BitSet BitVector FlowGraph Dominators.

Local Open Scope Z_scope.

Module Discover.
Import BitVector FlowGraph Dominators.

Section discover.
Context {T : Target}.

(** ** The graph *)

(** What the passes never change of a block. *)
Definition shape (B : BlockEntry) : BlockKind * Z * list nat := (kind B, block_id_ B, successors B).

Definition succs (g : FlowGraph) (b : nat) : list nat :=
  match blocks g !! b with Some B => successors B | None => [] end.

Definition edge (g : FlowGraph) (a b : nat) : Prop := b ∈ succs g a.

Definition reachable (g : FlowGraph) (b : nat) : Prop := exists l, path (edge g) (graph_entry_ g) l b.

(** What the graph builder promises: one graph entry, which nobody jumps to, different
    ids, at most one edge from a block to another, and only joins have more than one
    predecessor. *)
Record graph_wf (g : FlowGraph) : Prop := {
  wf_entry : exists B, blocks g !! graph_entry_ g = Some B /\ kind B = GraphEntry;
  wf_succ a b : edge g a b -> exists B, blocks g !! b = Some B /\ kind B <> GraphEntry;
  wf_nodup a : NoDup (succs g a);
  wf_ids a b A B : blocks g !! a = Some A -> blocks g !! b = Some B -> block_id_ A = block_id_ B -> a = b;
  wf_single a a' b B : edge g a b -> edge g a' b -> blocks g !! b = Some B -> IsJoinEntry B = false -> a = a'
}.

Definition same_shape (g g' : FlowGraph) : Prop :=
  shape <$> blocks g' = shape <$> blocks g /\ graph_entry_ g' = graph_entry_ g.

Context (g0 : FlowGraph).

(** ** The lists *)

(** The successors of a block on the stack that were followed. *)
Definition followed (s : BlockTraversalState) : list nat :=
  drop (Z.to_nat (next_successor_ix_ s + 1)) (succs g0 (block s)).

Definition walked (post : list nat) (stack : list BlockTraversalState) (a b : nat) : Prop :=
  (a ∈ post /\ edge g0 a b) \/ exists s, s ∈ stack /\ block s = a /\ b ∈ followed s.

Definition pf (par : list Z) (x : Z) : Z := default (-1) (par !! Z.to_nat x).
Abbreviation ancs par u v := (anc (Z.of_nat (length par)) (pf par) (Z.of_nat u) (Z.of_nat v)).

Record tree (pre : list nat) (par : list Z) (post : list nat) (stack : list BlockTraversalState) : Prop := {
  t_nodup : NoDup pre;
  t_len : length par = length pre;
  t_root : pre !! 0%nat = Some (graph_entry_ g0);
  t_perm : pre ≡ₚ (block <$> stack) ++ post;
  t_ix s : s ∈ stack -> -1 <= next_successor_ix_ s < Z.of_nat (length (succs g0 (block s)));
  t_sorted : StronglySorted (fun s s' => exists i i', pre !! i = Some (block s) /\ pre !! i' = Some (block s') /\ (i' < i)%nat) stack;
  t_desc s i j : s ∈ stack -> pre !! i = Some (block s) -> (i <= j < length pre)%nat -> ancs par i j;
  t_parent v b : (0 < v)%nat -> pre !! v = Some b ->
    exists u a, pre !! u = Some a /\ par !! v = Some (Z.of_nat u) /\ (u < v)%nat /\ walked post stack a b /\ ancs par u (v - 1);
  t_walked a b : walked post stack a b -> exists u v, pre !! u = Some a /\ pre !! v = Some b /\ ((u < v)%nat -> ancs par u v);
  t_retreat i a b : post !! i = Some a -> edge g0 a b ->
    (exists j, post !! j = Some b /\ (j < i)%nat) \/ exists u v, pre !! u = Some a /\ pre !! v = Some b /\ ancs par v u
}.

Lemma sorted_impl {A} (R R' : A -> A -> Prop) l : (forall x y, R x y -> R' x y) -> StronglySorted R l -> StronglySorted R' l.
Proof. intros HR. induction 1 as [|x l Hl IH Hx]; constructor; [done|]. eapply Forall_impl; [exact Hx|]. auto. Qed.

Lemma anc_mono n pf' u v par x :
  anc n (pf par) u v -> n = Z.of_nat (length par) -> pf' = pf (par ++ x) -> anc (Z.of_nat (length (par ++ x))) pf' u v.
Proof.
  intros Ha -> ->. induction Ha as [|v Hv Ha IH]; [constructor|]. apply anc_up; [rewrite length_app; lia|].
  replace (pf (par ++ x) v) with (pf par v); [done|]. unfold pf. by rewrite lookup_app_l by lia.
Qed.

Lemma ancs_app par x u v : ancs par u v -> ancs (par ++ x) u v.
Proof. intros Ha. by eapply anc_mono. Qed.

(** Following an edge. *)
Section step.
Context (pre : list nat) (par : list Z) (post : list nat) (s : BlockTraversalState) (rest : list BlockTraversalState).
Hypothesis Ht : tree pre par post (s :: rest).

Lemma top_index : exists i, pre !! i = Some (block s).
Proof. apply list_elem_of_lookup. rewrite (t_perm _ _ _ _ Ht). simpl. by left. Qed.

Lemma top_once : (block s ∉ post) /\ (block s ∉ (block <$> rest)).
Proof. pose proof (t_nodup _ _ _ _ Ht) as Hnd. rewrite (t_perm _ _ _ _ Ht) in Hnd. simpl in Hnd. apply NoDup_cons in Hnd as [Hn _]. set_solver. Qed.

Lemma pre_unique i j b : pre !! i = Some b -> pre !! j = Some b -> i = j.
Proof. apply NoDup_lookup, (t_nodup _ _ _ _ Ht). Qed.

Context (v : nat).
Hypothesis Hix : 0 <= next_successor_ix_ s.
Hypothesis Hv : succs g0 (block s) !! Z.to_nat (next_successor_ix_ s) = Some v.

Definition s_next : BlockTraversalState := mkState (block s) (next_successor_ix_ s - 1).

Lemma followed_next : followed s_next = v :: followed s.
Proof.
  unfold followed, s_next. simpl. rewrite Z.sub_add, (drop_S _ v) by done. do 2 f_equal. lia.
Qed.

Lemma walked_next a b : walked post (s_next :: rest) a b <-> walked post (s :: rest) a b \/ (a = block s /\ b = v).
Proof.
  unfold walked. split.
  - intros [?|(s' & [->|Hs']%elem_of_cons & Ha & Hb)]; [left; by left| |left; right; exists s'; split; [by right|done]].
    rewrite followed_next in Hb. simpl in Ha. subst a. apply elem_of_cons in Hb as [->|Hb]; [by right|]. left; right. exists s. split; [by left|done].
  - intros [[?|(s' & [->|Hs']%elem_of_cons & Ha & Hb)]|[-> ->]]; [by left| | |].
    + right. exists s_next. split; [by left|]. split; [done|]. rewrite followed_next. by right.
    + right. exists s'. split; [by right|done].
    + right. exists s_next. split; [by left|]. split; [done|]. rewrite followed_next. by left.
Qed.

Lemma not_walked : NoDup (succs g0 (block s)) -> ~ walked post (s :: rest) (block s) v.
Proof.
  intros Hnd. destruct top_once as [H1 H2]. intros [[? _]|(s' & [->|Hs']%elem_of_cons & Ha & Hb)]; [done| |].
  - unfold followed in Hb. apply list_elem_of_lookup in Hb as [k Hk]. rewrite lookup_drop in Hk. pose proof (NoDup_lookup _ _ _ _ Hnd Hv Hk). lia.
  - apply H2. rewrite <- Ha. by apply list_elem_of_fmap_2.
Qed.

(** The stack below does not depend on the index at the top. *)
Lemma next_stack_in s' : s' ∈ s_next :: rest -> exists s2, s2 ∈ s :: rest /\ block s2 = block s'.
Proof. intros [->|Hs]%elem_of_cons; [exists s; split; [by left|done]|exists s'; split; [by right|done]]. Qed.

Lemma tree_skip : v ∈ pre -> tree pre par post (s_next :: rest).
Proof.
  intros Hin. destruct Ht. destruct top_index as [i Hi]. constructor; try done.
  - intros s' [->|Hs]%elem_of_cons; [|apply t_ix0; by right]. specialize (t_ix0 s ltac:(by left)). simpl. lia.
  - inversion t_sorted0 as [|? ? Hs Hf]; subst. by constructor.
  - intros s' i' j Hs'. destruct (next_stack_in s' Hs') as (s2 & Hs2 & <-). by apply t_desc0.
  - intros w b Hw Hb. destruct (t_parent0 w b Hw Hb) as (u & a & H1 & H2 & H3 & H4 & H5). exists u, a. split_and!; try done. apply walked_next. by left.
  - intros a b [Hw|[-> ->]]%walked_next; [by apply t_walked0|]. apply list_elem_of_lookup in Hin as [j Hj]. exists i, j. split_and!; try done.
    intros Hlt. apply (t_desc0 s); [by left|done|]. apply lookup_lt_Some in Hj. lia.
Qed.

Definition s_new : BlockTraversalState := mkState v (Z.of_nat (length (succs g0 v)) - 1).

Lemma walked_push a b : walked post (s_new :: s_next :: rest) a b <-> walked post (s :: rest) a b \/ (a = block s /\ b = v).
Proof.
  rewrite <- walked_next. unfold walked. split; (intros [?|(s' & Hs' & Ha & Hb)]; [by left|right]).
  - apply elem_of_cons in Hs' as [->|Hs']; [|by exists s']. unfold followed in Hb. simpl in Hb. rewrite drop_ge in Hb by lia. by apply not_elem_of_nil in Hb.
  - exists s'. split; [by right|done].
Qed.

Lemma tree_push u : v ∉ pre -> pre !! u = Some (block s) ->
  tree (pre ++ [v]) (par ++ [Z.of_nat u]) post (s_new :: s_next :: rest).
Proof.
  intros Hnin Hu. destruct Ht.
  assert (forall k b, pre !! k = Some b -> (pre ++ [v]) !! k = Some b) as Hpre by (intros; by apply lookup_app_l_Some).
  pose proof (lookup_lt_Some _ _ _ Hu) as Hul. assert (forall s', s' ∈ s :: rest -> exists i, pre !! i = Some (block s') /\ (i <= u)%nat) as Hbelow.
  { intros s' [->|Hs']%elem_of_cons; [by exists u|]. inversion t_sorted0 as [|? ? _ Hf]; subst. rewrite Forall_forall in Hf.
    destruct (Hf s' Hs') as (i & i' & Hi & Hi' & Hlt). exists i'. split; [done|]. rewrite (pre_unique _ _ _ Hu Hi). lia. }
  assert (pf (par ++ [Z.of_nat u]) (Z.of_nat (length pre)) = Z.of_nat u) as Hpf.
  { unfold pf. rewrite Nat2Z.id, lookup_app_r by lia. rewrite t_len0, Nat.sub_diag. done. }
  assert (forall i, ancs par i u -> ancs (par ++ [Z.of_nat u]) i (length pre)) as Hnew.
  { intros i Hi. apply anc_up; [rewrite length_app; simpl; lia|]. rewrite Hpf. by apply ancs_app. }
  constructor.
  - apply NoDup_app. split_and!; [done| |apply NoDup_singleton]. intros x Hx ->%list_elem_of_singleton. done.
  - rewrite !length_app. simpl. lia.
  - by apply Hpre.
  - by rewrite Permutation_app_comm, t_perm0.
  - intros s' [->|[->|Hs]%elem_of_cons]%elem_of_cons; [simpl; lia| |apply t_ix0; by right]. specialize (t_ix0 s ltac:(by left)). simpl. lia.
  - inversion t_sorted0 as [|? ? Hs Hf]; subst. assert (forall s', s' ∈ s :: rest -> exists i i', (pre ++ [v]) !! i = Some v /\ (pre ++ [v]) !! i' = Some (block s') /\ (i' < i)%nat) as Htop.
    { intros s' Hs'. destruct (Hbelow s' Hs') as (i & Hi & Hle). exists (length pre), i. split_and!; [by rewrite lookup_app_r, Nat.sub_diag by lia|by apply Hpre|lia]. }
    constructor; [constructor|].
    + eapply sorted_impl; [|exact Hs]. intros ? ? (i & i' & ? & ? & ?). exists i, i'. auto.
    + eapply Forall_impl; [exact Hf|]. intros ? (i & i' & ? & ? & ?). exists i, i'. auto.
    + apply Forall_forall. intros s' Hs'. destruct (next_stack_in s' Hs') as (s2 & Hs2 & <-). by apply Htop.
  - intros s' i j Hs' Hi Hj. rewrite length_app in Hj. simpl in Hj. apply elem_of_cons in Hs' as [->|Hs'].
    + simpl in Hi. assert (i = length pre) as ->; [|replace j with (length pre) by lia; constructor].
      apply lookup_app_Some in Hi as [Hi|[Hge Hi]]; [by destruct Hnin; apply list_elem_of_lookup_2 in Hi|]. apply lookup_lt_Some in Hi. simpl in Hi. lia.
    + destruct (next_stack_in s' Hs') as (s2 & Hs2 & E2). destruct (Hbelow s2 Hs2) as (i' & Hi' & Hle). rewrite <- E2 in Hi.
      rewrite lookup_app_l in Hi. 2:{ destruct (decide (i < length pre)%nat); [done|]. apply lookup_app_Some in Hi as [Hi|[_ Hi]]; [by apply lookup_lt_Some in Hi|].
        apply list_lookup_singleton_Some in Hi as [_ Hi]. destruct Hnin. rewrite Hi. by eapply list_elem_of_lookup_2. }
      rewrite (pre_unique _ _ _ Hi Hi') in *. destruct (decide (j = length pre)) as [->|]; [apply Hnew|apply ancs_app]; apply (t_desc0 s2); try done; lia.
  - intros w b Hw Hb. apply lookup_app_Some in Hb as [Hb|[Hge Hb]].
    + destruct (t_parent0 w b Hw Hb) as (u' & a & H1 & H2 & H3 & H4 & H5). exists u', a. split_and!; [by apply Hpre|by apply lookup_app_l_Some|done|apply walked_push; by left|by apply ancs_app].
    + apply list_lookup_singleton_Some in Hb as [H0 <-]. assert (w = length pre) as -> by lia. exists u, (block s).
      split_and!; [by apply Hpre| |done|apply walked_push; by right|apply ancs_app, (t_desc0 s); [by left|done|lia]].
      rewrite <- t_len0, lookup_app_r, Nat.sub_diag by lia. done.
  - intros a b [Hw|[-> ->]]%walked_push.
    + destruct (t_walked0 a b Hw) as (i & j & Hi & Hj & Hij). exists i, j. split_and!; [by apply Hpre|by apply Hpre|]. intros Hlt. by apply ancs_app, Hij.
    + exists u, (length pre). split_and!; [by apply Hpre|by rewrite lookup_app_r, Nat.sub_diag by lia|]. intros _. apply Hnew. constructor.
  - intros i a b Hi Hb. destruct (t_retreat0 i a b Hi Hb) as [?|(x & y & Hx & Hy & Ha)]; [by left|right]. exists x, y. split_and!; [by apply Hpre|by apply Hpre|by apply ancs_app].
Qed.

End step.

(** A block all of whose successors were followed leaves the stack. *)
Lemma walked_pop post s rest a b : next_successor_ix_ s = -1 -> walked (post ++ [block s]) rest a b <-> walked post (s :: rest) a b.
Proof.
  intros Hix. assert (followed s = succs g0 (block s)) as Hall by (unfold followed; by rewrite Hix). unfold walked. split.
  - intros [[[Ha| ->%list_elem_of_singleton]%elem_of_app Hb]|(s' & Hs' & Ha & Hb)]; [by left| |]; right.
    + exists s. split; [by left|]. by rewrite Hall.
    + exists s'. split; [by right|done].
  - intros [[Ha Hb]|(s' & [->|Hs']%elem_of_cons & <- & Hb)]; [left; split; [apply elem_of_app; by left|done]| |right; by exists s'].
    left. split; [apply elem_of_app; right; by left|]. by rewrite Hall in Hb.
Qed.

Lemma tree_pop pre par post s rest : tree pre par post (s :: rest) -> next_successor_ix_ s = -1 -> tree pre par (post ++ [block s]) rest.
Proof.
  intros Ht Hix. pose proof (top_index _ _ _ _ _ Ht) as [u Hu]. pose proof (pre_unique _ _ _ _ _ Ht) as Huniq. destruct Ht.
  assert (forall a b, walked (post ++ [block s]) rest a b <-> walked post (s :: rest) a b) as Hwalk by (intros; by apply walked_pop).
  inversion t_sorted0 as [|? ? Hs Hf]; subst. constructor; try done.
  - rewrite t_perm0. simpl. rewrite app_assoc. apply Permutation_cons_append.
  - intros s' Hs'. apply t_ix0. by right.
  - intros s' i j Hs'. apply t_desc0. by right.
  - intros w b Hw Hb. destruct (t_parent0 w b Hw Hb) as (u' & a & H1 & H2 & H3 & H4 & H5). exists u', a. split_and!; try done. by apply Hwalk.
  - intros a b Hw. by apply t_walked0, Hwalk.
  - intros i a b Hi Hb. apply lookup_app_Some in Hi as [Hi|[Hge Hi]].
    + destruct (t_retreat0 i a b Hi Hb) as [(j & Hj & Hlt)|?]; [left|by right]. exists j. split; [by apply lookup_app_l_Some|done].
    + apply list_lookup_singleton_Some in Hi as [Hi0 <-]. assert (i = length post) as -> by lia.
      destruct (t_walked0 (block s) b) as (u' & v & Hu' & Hv & _); [apply Hwalk; left; split; [apply elem_of_app; right; by left|done]|].
      pose proof (list_elem_of_lookup_2 _ _ _ Hv) as Hin. rewrite t_perm0 in Hin. apply elem_of_app in Hin as [Hin|Hin].
      * right. exists u, v. split_and!; [done..|]. apply list_elem_of_fmap in Hin as (s2 & -> & Hs2). apply (t_desc0 s2); [done..|].
        apply lookup_lt_Some in Hu as Hul. split; [|done]. apply elem_of_cons in Hs2 as [->|Hs2]; [by rewrite (Huniq _ _ _ Hu Hv)|].
        rewrite Forall_forall in Hf. destruct (Hf s2 Hs2) as (i & i' & Hi & Hi' & Hlt). rewrite (Huniq _ _ _ Hu Hi), (Huniq _ _ _ Hv Hi'). lia.
      * left. apply list_elem_of_lookup in Hin as [j Hj]. exists j. split; [by apply lookup_app_l_Some|]. by apply lookup_lt_Some in Hj.
Qed.

Lemma tree_start : tree [graph_entry_ g0] [-1] [] [mkState (graph_entry_ g0) (Z.of_nat (length (succs g0 (graph_entry_ g0))) - 1)].
Proof.
  assert (forall a b, ~ walked [] [mkState (graph_entry_ g0) (Z.of_nat (length (succs g0 (graph_entry_ g0))) - 1)] a b) as Hno.
  { intros a b [[[]%not_elem_of_nil _]|(s & ->%list_elem_of_singleton & _ & Hb)]. unfold followed in Hb. simpl in Hb. rewrite drop_ge in Hb by lia. by apply not_elem_of_nil in Hb. }
  constructor; try done.
  - apply NoDup_singleton.
  - intros s ->%list_elem_of_singleton. simpl. lia.
  - constructor; constructor.
  - intros s i j ->%list_elem_of_singleton Hi Hj. simpl in *. assert (i = j) as -> by lia. constructor.
  - intros [|v] b Hv Hb; [lia|done].
  - intros a b Hw. by apply Hno in Hw.
Qed.

(** ** The blocks in memory *)

Lemma shape_lookup g b B0 : same_shape g0 g -> blocks g0 !! b = Some B0 -> exists B, blocks g !! b = Some B /\ shape B = shape B0.
Proof.
  intros [Hs _] H0. assert ((shape <$> blocks g) !! b = Some (shape B0)) as H by (by rewrite Hs, list_lookup_fmap, H0).
  rewrite list_lookup_fmap in H. apply fmap_Some in H as (B & HB & E). by exists B.
Qed.

Lemma shape_lookup_inv g b B : same_shape g0 g -> blocks g !! b = Some B -> exists B0, blocks g0 !! b = Some B0 /\ shape B = shape B0.
Proof.
  intros [Hs _] H0. assert ((shape <$> blocks g0) !! b = Some (shape B)) as H by (by rewrite <- Hs, list_lookup_fmap, H0).
  rewrite list_lookup_fmap in H. apply fmap_Some in H as (B0 & HB & E). by exists B0.
Qed.

Lemma fmap_insert_same {A C} (f : A -> C) (l : list A) (i : nat) x y : l !! i = Some x -> f y = f x -> f <$> (<[i := y]> l) = f <$> l.
Proof. intros Hl Hf. rewrite list_fmap_insert, Hf. apply list_insert_id. by rewrite list_lookup_fmap, Hl. Qed.

Lemma same_shape_insert g b B B' : same_shape g0 g -> blocks g !! b = Some B -> shape B' = shape B -> same_shape g0 (set_blocks (<[b := B']> (blocks g)) g).
Proof. intros [H1 H2] Hb Hs. split; [|done]. simpl. by rewrite (fmap_insert_same _ _ _ _ _ Hb Hs). Qed.

Lemma succs_shape g b B : same_shape g0 g -> blocks g !! b = Some B -> successors B = succs g0 b.
Proof. intros Hs Hb. destruct (shape_lookup_inv g b B Hs Hb) as (B0 & H0 & Es). unfold succs. rewrite H0. by injection Es. Qed.

Lemma block_at_ok g b B : blocks g !! b = Some B -> block_at g b = Ok B.
Proof. intros H. unfold block_at. by rewrite H. Qed.

Lemma modify_ok g b B f : blocks g !! b = Some B -> modify g b f = Ok (set_blocks (<[b := f B]> (blocks g)) g).
Proof. intros H. unfold modify. by rewrite (block_at_ok _ _ _ H). Qed.

Lemma get_ok {A} (l : list A) i a : 0 <= i -> l !! Z.to_nat i = Some a -> get l i = Ok a.
Proof. intros Hi Hl. unfold get. rewrite (proj2 (Z.leb_le 0 i) Hi). simpl. by rewrite Hl. Qed.

Lemma put_ok {A} (l : list A) i a b : 0 <= i -> l !! Z.to_nat i = Some a -> put l i b = Ok (<[Z.to_nat i := b]> l).
Proof. intros Hi Hl. unfold put. by rewrite (get_ok _ _ _ Hi Hl). Qed.

(** The ids by which predecessors are sorted. *)
Definition id_of (b : nat) : Z := match blocks g0 !! b with Some B => block_id_ B | None => 0 end.
Abbreviation by_id := (StronglySorted (fun a b => id_of a < id_of b)).

Lemma id_shape g b B : same_shape g0 g -> blocks g !! b = Some B -> block_id_ B = id_of b.
Proof. intros Hs Hb. destruct (shape_lookup_inv g b B Hs Hb) as (B0 & H0 & Es). unfold id_of. rewrite H0. by injection Es. Qed.

Definition valid (b : nat) : Prop := is_Some (blocks g0 !! b).

Lemma valid_block g b : same_shape g0 g -> valid b -> exists B, blocks g !! b = Some B.
Proof. intros Hs [B0 H0]. destruct (shape_lookup g b B0 Hs H0) as (B & H & _). by exists B. Qed.

Lemma pred_index_ok g l id : same_shape g0 g -> Forall valid l ->
  exists k, pred_index g l id = Ok k /\ Forall (fun a => id_of a < id) (take k l) /\ (forall a l', drop k l = a :: l' -> id <= id_of a).
Proof.
  intros Hs Hl. induction Hl as [|b l Hb Hl (k & E & H1 & H2)]; [by exists 0%nat|]. destruct (valid_block g b Hs Hb) as [B HB].
  cbn [pred_index]. rewrite (block_at_ok _ _ _ HB). cbn [mbind result_bind]. rewrite (id_shape g b B Hs HB). destruct (Z.ltb_spec (id_of b) id).
  - rewrite E. cbn [mbind result_bind]. exists (S k). split; [done|]. split; [by constructor|done].
  - exists 0%nat. split; [done|]. split; [constructor|]. intros a l' E'. simpl in E'. by simplify_eq.
Qed.

Lemma check_ids_ok g l id : same_shape g0 g -> Forall valid l -> Forall (fun a => id_of a <> id) l -> check_ids g l id = Ok ().
Proof.
  intros Hs Hl Hid. induction Hl as [|b l Hb Hl IH]; [done|]. apply Forall_cons in Hid as [Hne Hid]. destruct (valid_block g b Hs Hb) as [B HB].
  cbn [check_ids]. rewrite (block_at_ok _ _ _ HB). cbn [mbind result_bind]. rewrite (id_shape g b B Hs HB). rewrite (proj2 (Z.eqb_neq _ _) Hne). by apply IH.
Qed.

Lemma sorted_drop {A} (R : A -> A -> Prop) l k : StronglySorted R l -> StronglySorted R (drop k l).
Proof. intros H. revert k. induction H as [|x l Hl IH Hx]; intros [|k]; simpl; try constructor; auto. Qed.

Lemma sorted_insert {A} (R : A -> A -> Prop) l k a :
  StronglySorted R l -> Forall (fun x => R x a) (take k l) -> Forall (R a) (drop k l) -> StronglySorted R (take k l ++ a :: drop k l).
Proof.
  intros H. revert k. induction H as [|x l Hl IH Hx]; intros [|k] Ht Hd; simpl in *;
    [by apply SSorted_cons; [apply SSorted_nil|]..|by apply SSorted_cons; [apply SSorted_cons|]|].
  apply Forall_cons in Ht as [Hxa Ht]. constructor; [by apply IH|]. rewrite Forall_app, Forall_cons. rewrite <- (take_drop k l), Forall_app in Hx. tauto.
Qed.

Section memory.
Hypothesis WF : graph_wf g0.

Lemma id_inj a b : valid a -> valid b -> id_of a = id_of b -> a = b.
Proof. intros [A HA] [B HB]. unfold id_of. rewrite HA, HB. by apply (wf_ids _ WF). Qed.

(** A join gets another predecessor. *)
Lemma AddPredecessor_join g this B a :
  same_shape g0 g -> blocks g !! this = Some B -> IsJoinEntry B = true -> valid a -> Forall valid (predecessors_ B) -> by_id (predecessors_ B) ->
  (a ∉ predecessors_ B) -> exists l, AddPredecessor g this a = Ok (set_blocks (<[this := set_predecessors l B]> (blocks g)) g) /\ l ≡ₚ a :: predecessors_ B /\ by_id l.
Proof.
  intros Hs HB Hj Ha Hl Hsort Hnin. destruct (valid_block g a Hs Ha) as [A HA].
  destruct (pred_index_ok g (predecessors_ B) (id_of a) Hs Hl) as (k & E & H1 & H2). set (l := predecessors_ B) in *.
  assert (Forall (fun b => id_of a < id_of b) (drop k l)) as Hd.
  { pose proof (sorted_drop _ l k Hsort) as Hds. assert (Forall valid (drop k l)) as Hv by (by apply Forall_drop).
    assert (forall b, b ∈ drop k l -> id_of a <> id_of b) as Hne.
    { intros b Hb Eq. rewrite Forall_forall in Hv. apply Hnin. rewrite (id_inj a b Ha (Hv b Hb) Eq). rewrite <- (take_drop k l). apply elem_of_app. by right. }
    destruct (drop k l) as [|b l']; constructor.
    - specialize (H2 b l' eq_refl). specialize (Hne b ltac:(by left)). lia.
    - inversion Hds as [|? ? _ Hf]; subst. eapply Forall_impl; [exact Hf|]. simpl. intros c Hc. specialize (H2 b l' eq_refl). lia. }
  exists (take k l ++ a :: drop k l). split_and!.
  - unfold AddPredecessor. rewrite (block_at_ok _ _ _ HB). cbn [mbind result_bind]. fold l.
    assert (forall (X Y : M FlowGraph), match kind B with GraphEntry => Err BAssertFailed | JoinEntry | IndirectEntry => X | _ => Y end = X) as ->.
    { intros X Y. unfold IsJoinEntry in Hj. by destruct (kind B). }
    rewrite (block_at_ok _ _ _ HA). cbn [mbind result_bind]. rewrite (id_shape g a A Hs HA), E. cbn [mbind result_bind].
    rewrite check_ids_ok; [|done|by apply Forall_drop|eapply Forall_impl; [exact Hd|simpl; intros; lia]]. cbn [mbind result_bind]. by apply modify_ok.
  - rewrite <- (take_drop k l) at 3. by rewrite Permutation_middle.
  - by apply sorted_insert.
Qed.

(** Another block gets its only one. *)
Lemma AddPredecessor_single g this B a :
  blocks g !! this = Some B -> IsJoinEntry B = false -> kind B <> GraphEntry -> predecessors_ B = [] ->
  AddPredecessor g this a = Ok (set_blocks (<[this := set_predecessors [a] B]> (blocks g)) g).
Proof.
  intros HB Hj Hk Hp. unfold AddPredecessor. rewrite (block_at_ok _ _ _ HB). cbn [mbind result_bind]. rewrite Hp.
  unfold IsJoinEntry in Hj. destruct (kind B); try done; by rewrite bool_decide_eq_true_2 by done; cbn [mbind result_bind check]; apply modify_ok.
Qed.

End memory.


Definition kept (B : BlockEntry) := (dominator_ B, dominated_blocks_ B, loop_info_ B, phis_ B).

Record mem (g : FlowGraph) (stack : list BlockTraversalState) : Prop := {
  m_shape : same_shape g0 g;
  m_kept : kept <$> blocks g = kept <$> blocks g0;
  m_num i b : preorder_ g !! i = Some b -> exists B, blocks g !! b = Some B /\ preorder_number_ B = Z.of_nat i;
  m_post i b : postorder_ g !! i = Some b -> exists B, blocks g !! b = Some B /\ postorder_number_ B = Z.of_nat i;
  m_preds b B : b ∈ preorder_ g -> blocks g !! b = Some B ->
    by_id (Predecessors B) /\ forall a, a ∈ Predecessors B <-> walked (postorder_ g) stack a b
}.

Definition dfs (g : FlowGraph) (stack : list BlockTraversalState) : Prop :=
  tree (preorder_ g) (parent_ g) (postorder_ g) stack /\ mem g stack.

Lemma walked_edge post stack a b : walked post stack a b -> edge g0 a b.
Proof.
  intros [[_ ?]|(s & _ & <- & Hb)]; [done|]. unfold followed in Hb. unfold edge. rewrite <- (take_drop (Z.to_nat (next_successor_ix_ s + 1)) (succs g0 (block s))). apply elem_of_app. by right.
Qed.

Lemma pre_valid g stack b : mem g stack -> b ∈ preorder_ g -> valid b.
Proof.
  intros Hm [i Hi]%list_elem_of_lookup. destruct (m_num _ _ Hm i b Hi) as (B & HB & _).
  destruct (shape_lookup_inv g b B (m_shape _ _ Hm) HB) as (B0 & H0 & _). by exists B0.
Qed.

Lemma IsMarked_reads g stack b B : mem g stack -> blocks g !! b = Some B -> IsMarked g b (preorder_ g) = Ok (bool_decide (b ∈ preorder_ g)).
Proof.
  intros Hm HB. unfold IsMarked. rewrite (block_at_ok _ _ _ HB). cbn [mbind result_bind]. unfold length_of.
  destruct ((0 <=? preorder_number_ B) && (preorder_number_ B <? Z.of_nat (length (preorder_ g)))) eqn:Er.
  - apply andb_prop in Er as [H1 H2]. destruct (lookup_lt_is_Some_2 (preorder_ g) (Z.to_nat (preorder_number_ B))) as [b' Hb']; [lia|].
    rewrite (get_ok _ _ b') by (done || lia). cbn [mbind result_bind]. f_equal. destruct (Nat.eqb_spec b' b) as [->|Hne].
    + rewrite bool_decide_eq_true_2; [done|]. by apply list_elem_of_lookup_2 in Hb'.
    + rewrite bool_decide_eq_false_2; [done|]. intros [i Hi]%list_elem_of_lookup. destruct (m_num _ _ Hm i b Hi) as (B' & HB' & En). rewrite HB in HB'. simplify_eq.
      rewrite En, Nat2Z.id in Hb'. congruence.
  - rewrite bool_decide_eq_false_2; [done|]. intros [i Hi]%list_elem_of_lookup. destruct (m_num _ _ Hm i b Hi) as (B' & HB' & En). rewrite HB in HB'. simplify_eq.
    apply lookup_lt_Some in Hi. lia.
Qed.

Lemma insert_field {A C} (f : A -> C) (l : list A) v V V' b x :
  l !! v = Some V -> f V' = f V -> (exists B, l !! b = Some B /\ f B = x) -> exists B, <[v := V']> l !! b = Some B /\ f B = x.
Proof.
  intros HV Hf (B & HB & <-). destruct (decide (b = v)) as [->|]; [|exists B; by rewrite list_lookup_insert_ne].
  rewrite HV in HB. injection HB as ->. exists V'. split; [apply list_lookup_insert_eq; by eapply lookup_lt_Some|done].
Qed.

Lemma join_shape B B' : shape B = shape B' -> IsJoinEntry B = IsJoinEntry B'.
Proof. unfold IsJoinEntry. intros [= -> _ _]. done. Qed.

Lemma Predecessors_not_entry B : kind B <> GraphEntry -> Predecessors B = predecessors_ B.
Proof. unfold Predecessors. by destruct (kind B). Qed.

Section follow.
Hypothesis WF : graph_wf g0.
Context (g : FlowGraph) (s : BlockTraversalState) (rest : list BlockTraversalState) (v : nat) (V : BlockEntry).
Hypothesis Ht : tree (preorder_ g) (parent_ g) (postorder_ g) (s :: rest).
Hypothesis Hm : mem g (s :: rest).
Hypothesis Hix : 0 <= next_successor_ix_ s.
Hypothesis Hv : succs g0 (block s) !! Z.to_nat (next_successor_ix_ s) = Some v.
Hypothesis HV : blocks g !! v = Some V.

Lemma follow_edge : edge g0 (block s) v.
Proof. by apply list_elem_of_lookup_2 in Hv. Qed.

Lemma follow_kind : kind V <> GraphEntry.
Proof.
  destruct (wf_succ _ WF _ _ follow_edge) as (B & HB & Hk). destruct (shape_lookup_inv g v V (m_shape _ _ Hm) HV) as (B0 & H0 & Es).
  rewrite HB in H0. injection H0 as <-. injection Es as -> _ _. done.
Qed.

Lemma block_valid : valid (block s).
Proof. destruct (top_index _ _ _ _ _ Ht) as [i Hi]. eapply pre_valid; [exact Hm|by eapply list_elem_of_lookup_2]. Qed.

(** Only a join is reached again. *)
Lemma follow_join : v ∈ preorder_ g -> IsJoinEntry V = true.
Proof.
  intros [i Hi]%list_elem_of_lookup. destruct (IsJoinEntry V) eqn:Hj; [done|exfalso]. pose proof follow_kind as Hkind.
  destruct (shape_lookup_inv g v V (m_shape _ _ Hm) HV) as (V0 & H0 & Es). rewrite (join_shape _ _ Es) in Hj. destruct i as [|i].
  - rewrite (t_root _ _ _ _ Ht) in Hi. injection Hi as Hi. destruct (wf_entry _ WF) as (B & HB & Hk). rewrite Hi, H0 in HB. injection HB as <-.
    apply Hkind. by injection Es as -> _ _.
  - destruct (t_parent _ _ _ _ Ht (S i) v ltac:(lia) Hi) as (u & a & _ & _ & _ & Hw & _). pose proof (walked_edge _ _ _ _ Hw) as He.
    rewrite (wf_single _ WF _ _ _ _ He follow_edge H0 Hj) in Hw. by apply (not_walked _ _ _ _ _ Ht v Hix Hv (wf_nodup _ WF _)) in Hw.
Qed.

Lemma preds_valid b B : b ∈ preorder_ g -> blocks g !! b = Some B -> Forall valid (Predecessors B).
Proof.
  intros Hb HB. destruct (m_preds _ _ Hm b B Hb HB) as [_ Hp]. apply Forall_forall. intros a Ha%Hp.
  destruct (t_walked _ _ _ _ Ht a b Ha) as (u & _ & Hu & _). eapply pre_valid; [exact Hm|by eapply list_elem_of_lookup_2].
Qed.

(** A block that was found before. *)
Lemma discover_marked : v ∈ preorder_ g ->
  exists g', DiscoverBlock g v (Some (block s)) = Ok (false, g') /\ dfs g' (s_next s :: rest) /\ preorder_ g' = preorder_ g.
Proof.
  intros Hin. pose proof (follow_join Hin) as Hj. pose proof (Predecessors_not_entry V follow_kind) as EP.
  destruct (m_preds _ _ Hm v V Hin HV) as [Hsort Hp]. rewrite EP in Hsort, Hp. pose proof (preds_valid v V Hin HV) as Hvl. rewrite EP in Hvl.
  destruct (AddPredecessor_join WF g v V (block s) (m_shape _ _ Hm) HV Hj block_valid Hvl Hsort) as (l & E & Hl & Hls).
  { rewrite Hp. apply (not_walked _ _ _ _ _ Ht v Hix Hv (wf_nodup _ WF _)). }
  eexists. split; [|split; [split|]].
  - unfold DiscoverBlock. rewrite (bool_decide_eq_false_2 (preorder_ g = [])) by (intros E0; rewrite E0 in Hin; by apply not_elem_of_nil in Hin).
    rewrite orb_true_r. cbn [mbind result_bind check]. rewrite (block_at_ok _ _ _ HV). cbn [mbind result_bind].
    rewrite (IsMarked_reads _ _ _ _ Hm HV), bool_decide_eq_true_2 by done. cbn [mbind result_bind]. rewrite Hj. cbn [mbind result_bind check orb]. rewrite E. reflexivity.
  - by apply tree_skip with v.
  - destruct Hm. constructor; simpl.
    + by eapply same_shape_insert.
    + by rewrite (fmap_insert_same kept _ _ V).
    + intros i b Hi. by apply insert_field with V; [| |apply m_num0].
    + intros i b Hi. by apply insert_field with V; [| |apply m_post0].
    + intros b B Hb HB. setoid_rewrite (walked_next _ _ _ _ Hix Hv). destruct (decide (b = v)) as [->|Hne].
      * rewrite list_lookup_insert_eq in HB by (by eapply lookup_lt_Some). injection HB as <-. rewrite Predecessors_not_entry by apply follow_kind. simpl.
        split; [done|]. intros a. rewrite Hl, elem_of_cons, Hp. naive_solver.
      * rewrite list_lookup_insert_ne in HB by done. destruct (m_preds0 b B Hb HB) as [H1 H2]. split; [done|]. intros a. rewrite H2. naive_solver.
  - done.
Qed.

(** A block that is new. *)
Lemma discover_new : (v ∉ preorder_ g) ->
  exists g', DiscoverBlock g v (Some (block s)) = Ok (true, g') /\ dfs g' (s_new v :: s_next s :: rest) /\ preorder_ g' = preorder_ g ++ [v].
Proof.
  intros Hnin. destruct (top_index _ _ _ _ _ Ht) as [u Hu]. destruct (m_num _ _ Hm u _ Hu) as (S0 & HS & En).
  assert (block s <> v) as Hsv by (intros E0; apply Hnin; rewrite <- E0; by eapply list_elem_of_lookup_2).
  pose proof (lookup_lt_Some _ _ _ HV) as Hlt. set (V1 := set_predecessors [] V).
  set (g1 := set_blocks (<[v := V1]> (blocks g)) g). assert (blocks g1 !! v = Some V1) as HV1 by (by apply list_lookup_insert_eq).
  assert (AddPredecessor g1 v (block s) = Ok (set_blocks (<[v := set_predecessors [block s] V1]> (blocks g1)) g1)) as Eadd.
  { destruct (IsJoinEntry V) eqn:Hj.
    - destruct (AddPredecessor_join WF g1 v V1 (block s)) as (l & -> & Hl & _); try done.
      + by eapply same_shape_insert; [apply Hm|..].
      + apply block_valid.
      + constructor.
      + apply not_elem_of_nil.
      + simpl in Hl. apply Permutation_singleton_r in Hl as ->. done.
    - by apply AddPredecessor_single; [..|apply follow_kind|]. }
  set (V2 := set_preorder_number (length_of (preorder_ g)) (set_predecessors [block s] V1)).
  exists (set_preorder (preorder_ g ++ [v]) (set_blocks (<[v := V2]> (blocks g)) (set_parent (parent_ g ++ [Z.of_nat u]) g))). split; [|split; [split|done]].
  - unfold DiscoverBlock. rewrite (bool_decide_eq_false_2 (preorder_ g = [])) by (intros E0; by rewrite E0 in Hu).
    rewrite orb_true_r. cbn [mbind result_bind check]. rewrite (block_at_ok _ _ _ HV). cbn [mbind result_bind].
    rewrite (IsMarked_reads _ _ _ _ Hm HV), bool_decide_eq_false_2 by done. cbn [mbind result_bind]. rewrite orb_true_r. cbn [mbind result_bind check].
    rewrite (modify_ok _ _ _ _ HV). cbn [mbind result_bind]. replace (ClearPredecessors V) with V1 by (pose proof follow_kind; unfold ClearPredecessors; by destruct (kind V)).
    fold g1. rewrite Eadd. cbn [mbind result_bind]. rewrite (block_at_ok _ (block s) S0) by (simpl; by rewrite !list_lookup_insert_ne by done). cbn [mbind result_bind].
    rewrite (modify_ok _ v (set_predecessors [block s] V1)) by (simpl; apply list_lookup_insert_eq; by rewrite length_insert). cbn [mbind result_bind].
    unfold length_of. simpl. rewrite !length_app, (t_len _ _ _ _ Ht), Z.eqb_refl. cbn [mbind result_bind check]. rewrite En, !list_insert_insert_eq. done.
  - simpl. by apply tree_push.
  - assert (forall a, ~ walked (postorder_ g) (s :: rest) a v) as Hno.
    { intros a Ha. destruct (t_walked _ _ _ _ Ht a v Ha) as (_ & j & _ & Hj & _). by apply list_elem_of_lookup_2 in Hj. }
    destruct Hm. constructor; simpl.
    + by destruct (same_shape_insert g v V V2).
    + by rewrite (fmap_insert_same kept _ _ V).
    + intros i b [Hi|[Hge Hi]]%lookup_app_Some.
      * destruct (m_num0 i b Hi) as (B & HB & EB). exists B. rewrite list_lookup_insert_ne; [done|]. intros ->. apply Hnin. by eapply list_elem_of_lookup_2.
      * apply list_lookup_singleton_Some in Hi as [H0 <-]. exists V2. split; [by apply list_lookup_insert_eq|]. simpl. unfold length_of. lia.
    + intros i b Hi. by apply insert_field with V; [| |apply m_post0].
    + intros b B Hb HB. setoid_rewrite (walked_push _ _ _ _ Hix Hv). destruct (decide (b = v)) as [->|Hne].
      * rewrite list_lookup_insert_eq in HB by done. injection HB as <-. rewrite Predecessors_not_entry by apply follow_kind. simpl.
        split; [by apply SSorted_cons; [apply SSorted_nil|]|]. intros a. rewrite list_elem_of_singleton. specialize (Hno a). naive_solver.
      * rewrite list_lookup_insert_ne in HB by done. apply elem_of_app in Hb as [Hb|Hb%list_elem_of_singleton]; [|done].
        destruct (m_preds0 b B Hb HB) as [H1 H2]. split; [done|]. intros a. rewrite H2. naive_solver.
Qed.


End follow.


Section loop.
Hypothesis WF : graph_wf g0.

Lemma dfs_pop g s rest : dfs g (s :: rest) -> next_successor_ix_ s = -1 ->
  exists g', modify g (block s) (set_postorder_number (length_of (postorder_ g))) = Ok g' /\
    dfs (set_postorder (postorder_ g' ++ [block s]) g') rest /\ postorder_ g' = postorder_ g /\ preorder_ g' = preorder_ g.
Proof.
  intros [Ht Hm] Hix. destruct (top_index _ _ _ _ _ Ht) as [u Hu]. destruct (m_num _ _ Hm u _ Hu) as (S0 & HS & En).
  eexists. split; [by apply modify_ok|]. split; [split|done]; simpl; [by apply tree_pop|]. destruct (top_once _ _ _ _ _ Ht) as [Hnp _].
  destruct Hm. constructor; simpl.
  - by destruct (same_shape_insert g (block s) S0 (set_postorder_number (length_of (postorder_ g)) S0)).
  - by rewrite (fmap_insert_same kept _ _ S0).
  - intros i b Hi. by apply insert_field with S0; [| |apply m_num0].
  - intros i b [Hi|[Hge Hi]]%lookup_app_Some.
    + destruct (m_post0 i b Hi) as (B & HB & EB). exists B. rewrite list_lookup_insert_ne; [done|]. intros <-. apply Hnp. by eapply list_elem_of_lookup_2.
    + apply list_lookup_singleton_Some in Hi as [H0 <-]. eexists. split; [apply list_lookup_insert_eq; by eapply lookup_lt_Some|]. simpl. unfold length_of. lia.
  - intros b B Hb HB. setoid_rewrite (walked_pop _ _ _ _ _ Hix). destruct (decide (b = block s)) as [->|Hne].
    + rewrite list_lookup_insert_eq in HB by (by eapply lookup_lt_Some). injection HB as <-. exact (m_preds0 (block s) S0 Hb HS).
    + rewrite list_lookup_insert_ne in HB by done. by apply m_preds0.
Qed.

Definition weight (b : nat) : nat := S (length (succs g0 b)).
Definition to_do (stack : list BlockTraversalState) : nat := sum_list_with (fun s => S (Z.to_nat (next_successor_ix_ s + 1))) stack.

Lemma NextSuccessor_ok g s rest : dfs g (s :: rest) -> 0 <= next_successor_ix_ s ->
  exists v V, NextSuccessor g s = Ok (v, s_next s) /\ succs g0 (block s) !! Z.to_nat (next_successor_ix_ s) = Some v /\ blocks g !! v = Some V.
Proof.
  intros [Ht Hm] Hix. destruct (top_index _ _ _ _ _ Ht) as [u Hu]. destruct (m_num _ _ Hm u _ Hu) as (S0 & HS & _).
  pose proof (t_ix _ _ _ _ Ht s ltac:(by left)) as Hr. destruct (lookup_lt_is_Some_2 (succs g0 (block s)) (Z.to_nat (next_successor_ix_ s))) as [v Hv]; [lia|].
  destruct (wf_succ _ WF (block s) v) as (V0 & HV0 & _); [by eapply list_elem_of_lookup_2|]. destruct (valid_block g v (m_shape _ _ Hm)) as [V HV]; [by exists V0|].
  exists v, V. split_and!; try done. unfold NextSuccessor, HasNextSuccessor. rewrite (proj2 (Z.leb_le 0 _) Hix). cbn [mbind result_bind check].
  rewrite (block_at_ok _ _ _ HS). cbn [mbind result_bind]. rewrite (succs_shape g _ _ (m_shape _ _ Hm) HS), (get_ok _ _ v) by done. done.
Qed.

Lemma discover_loop_ok fuel g stack U :
  dfs g stack -> seq 0 (length (blocks g0)) ≡ₚ preorder_ g ++ U -> (to_do stack + sum_list_with weight U < fuel)%nat ->
  exists g', discover_loop fuel g stack = Ok g' /\ dfs g' [].
Proof.
  revert g stack U. induction fuel as [|fuel IH]; intros g stack U Hd HU Hf; [lia|]. destruct stack as [|s rest]; [by exists g|]. cbn [discover_loop].
  pose proof (t_ix _ _ _ _ (proj1 Hd) s ltac:(by left)) as Hr. unfold HasNextSuccessor. destruct (Z.leb_spec 0 (next_successor_ix_ s)) as [Hix|Hix].
  - destruct (NextSuccessor_ok g s rest Hd Hix) as (v & V & -> & Hv & HV). cbn [mbind result_bind fst snd]. destruct Hd as [Ht Hm]. simpl block.
    assert (to_do (s_next s :: rest) < to_do (s :: rest))%nat as Hless by (unfold to_do; simpl; lia).
    destruct (decide (v ∈ preorder_ g)) as [Hin|Hnin].
    + destruct (discover_marked WF g s rest v V Ht Hm Hix Hv HV Hin) as (g' & -> & Hd' & Ep). cbn [mbind result_bind fst snd]. apply (IH g' _ U); [done|by rewrite Ep|lia].
    + destruct (discover_new WF g s rest v V Ht Hm Hix Hv HV Hnin) as (g' & -> & Hd' & Ep). cbn [mbind result_bind fst snd].
      destruct (valid_block g' v (m_shape _ _ (proj2 Hd'))) as [V' HV']; [destruct (shape_lookup_inv g v V (m_shape _ _ Hm) HV) as (V0 & ? & _); by exists V0|].
      unfold BlockTraversalState_new. rewrite (block_at_ok _ _ _ HV'). cbn [mbind result_bind]. unfold length_of. rewrite (succs_shape g' v V' (m_shape _ _ (proj2 Hd')) HV').
      assert (v ∈ U) as HvU.
      { assert (v ∈ seq 0 (length (blocks g0))) as Hs. { apply elem_of_seq. split; [lia|]. destruct (shape_lookup_inv g v V (m_shape _ _ Hm) HV) as (V0 & HV0 & _). by apply lookup_lt_Some in HV0. }
        rewrite HU in Hs. apply elem_of_app in Hs as [?|?]; done. }
      apply list_elem_of_split in HvU as (U1 & U2 & ->). apply (IH g' _ (U1 ++ U2)); [done| |].
      * rewrite Ep, HU, <- app_assoc. simpl. by rewrite <- (Permutation_middle U1 U2 v).
      * rewrite sum_list_with_app in *. simpl in Hf. unfold to_do, weight in *. simpl in *. lia.
  - destruct (dfs_pop g s rest Hd ltac:(lia)) as (g' & -> & Hd' & E1 & E2). cbn [mbind result_bind]. apply (IH _ _ U); [done|simpl; by rewrite E2|]. unfold to_do in *. simpl in Hf. lia.
Qed.

Definition cleared : FlowGraph := set_parent [] (set_reverse_postorder [] (set_postorder [] (set_preorder [] g0))).

Lemma discover_entry : exists g, DiscoverBlock cleared (graph_entry_ g0) None = Ok (true, g) /\ preorder_ g = [graph_entry_ g0] /\
  dfs g [mkState (graph_entry_ g0) (Z.of_nat (length (succs g0 (graph_entry_ g0))) - 1)] /\ shape <$> blocks g = shape <$> blocks g0 /\ graph_entry_ g = graph_entry_ g0.
Proof.
  destruct (wf_entry _ WF) as (B & HB & Hk). set (B' := set_preorder_number 0 B).
  exists (mkFlowGraph (<[graph_entry_ g0 := B']> (blocks g0)) (graph_entry_ g0) [graph_entry_ g0] [] [] [-1] (loop_headers_ g0)).
  pose proof (lookup_lt_Some _ _ _ HB) as Hlt. assert (ClearPredecessors B = B) as Hclear by (unfold ClearPredecessors; by rewrite Hk). split; [|split; [done|split; [|split; [by simpl; rewrite (fmap_insert_same shape _ _ B)|done]]]].
  - unfold DiscoverBlock, IsMarked. rewrite (block_at_ok cleared (graph_entry_ g0) B) by done. cbn [mbind result_bind check bool_decide orb].
    unfold length_of. simpl length. replace ((0 <=? preorder_number_ B) && (preorder_number_ B <? Z.of_nat 0)) with false by (destruct (Z.leb_spec 0 (preorder_number_ B)), (Z.ltb_spec (preorder_number_ B) (Z.of_nat 0)); simpl in *; (done || lia)). cbn [mbind result_bind check negb]. rewrite orb_true_r. cbn [mbind result_bind check].
    rewrite (modify_ok cleared _ B) by done. cbn [mbind result_bind]. rewrite Hclear, (modify_ok _ _ B) by (simpl; by rewrite list_insert_id). cbn [mbind result_bind].
    simpl. by rewrite list_insert_insert_eq.
  - split; [apply tree_start|]. constructor; simpl.
    + split; [|done]. simpl. by rewrite (fmap_insert_same shape _ _ B).
    + by rewrite (fmap_insert_same kept _ _ B).
    + intros [|i] b Hb; [|done]. injection Hb as <-. exists B'. split; [by apply list_lookup_insert_eq|done].
    + done.
    + intros b B2 ->%list_elem_of_singleton HB2. rewrite list_lookup_insert_eq in HB2 by done. injection HB2 as <-. unfold Predecessors. simpl. rewrite Hk. split; [apply SSorted_nil|].
      intros a. split; [by intros []%not_elem_of_nil|]. intros Hw. destruct (t_walked _ _ _ _ tree_start _ _ Hw) as (u & v & Hu & Hv & _). exfalso.
      apply walked_edge in Hw. destruct (wf_succ _ WF _ _ Hw) as (B3 & HB3 & Hk3). rewrite HB in HB3. by injection HB3 as <-.
Qed.

Lemma sum_list_with_perm {A} (f : A -> nat) l k : l ≡ₚ k -> sum_list_with f l = sum_list_with f k.
Proof. induction 1; simpl; lia. Qed.

Lemma discover_fuel_enough g U :
  shape <$> blocks g = shape <$> blocks g0 -> seq 0 (length (blocks g0)) ≡ₚ [graph_entry_ g0] ++ U ->
  (to_do [mkState (graph_entry_ g0) (Z.of_nat (length (succs g0 (graph_entry_ g0))) - 1)] + sum_list_with weight U < discover_fuel g)%nat.
Proof.
  intros Hs HU. unfold to_do. simpl. pose proof (sum_list_with_perm weight _ _ HU) as Hsum. simpl in Hsum. unfold discover_fuel.
  assert (forall l, length l + sum_list_with (fun B => length (successors B)) l = sum_list_with (fun B : BlockEntry => S (length (successors B))) l)%nat as Eg
    by (induction l; simpl; lia).
  assert (forall l, sum_list_with (fun B : BlockEntry => S (length (successors B))) l = sum_list_with (fun x => S (length (snd x))) (shape <$> l)) as Esh
    by (induction l as [|? ? IH]; simpl; [done|by rewrite IH]).
  rewrite Eg, Esh, Hs, <- Esh. clear Eg Esh Hs. unfold weight, succs in *.
  assert (forall l k, (forall i B, l !! i = Some B -> blocks g0 !! (k + i)%nat = Some B) ->
    sum_list_with (fun b => S (length (match blocks g0 !! b with Some B => successors B | None => [] end))) (seq k (length l)) = sum_list_with (fun B => S (length (successors B))) l) as Eseq.
  { induction l as [|B l IH]; intros k Hl; [done|]. simpl. rewrite (IH (S k)) by (intros i B' Hi; rewrite <- (Hl (S i)) by done; f_equal; lia).
    pose proof (Hl 0%nat B eq_refl) as H0. rewrite Nat.add_0_r in H0. by rewrite H0. }
  rewrite (Eseq (blocks g0) 0%nat) in Hsum by done. lia.
Qed.


End loop.


(** ** The theorem *)

(** Edges between preorder numbers. *)
Definition number_edge (g : FlowGraph) (u v : Z) : Prop :=
  exists a b, 0 <= u /\ 0 <= v /\ preorder_ g !! Z.to_nat u = Some a /\ preorder_ g !! Z.to_nat v = Some b /\ edge g0 a b.

(** The result of a traversal of [g0]. *)
Record discovered (g : FlowGraph) : Prop := {
  dd_shape : same_shape g0 g;
  dd_kept : kept <$> blocks g = kept <$> blocks g0;
  (* the preorder lists the reachable blocks, each once, and a block knows its place *)
  dd_nodup : NoDup (preorder_ g);
  dd_reach b : b ∈ preorder_ g <-> reachable g0 b;
  dd_root : preorder_ g !! 0%nat = Some (graph_entry_ g0);
  dd_num i b : preorder_ g !! i = Some b -> exists B, blocks g !! b = Some B /\ preorder_number_ B = Z.of_nat i;
  (* so does the postorder *)
  dd_perm : postorder_ g ≡ₚ preorder_ g;
  dd_post i b : postorder_ g !! i = Some b -> exists B, blocks g !! b = Some B /\ postorder_number_ B = Z.of_nat i;
  dd_rpo : reverse_postorder_ g = reverse (postorder_ g);
  (* the predecessors are the reachable ones, in the order of their ids *)
  dd_preds b B : b ∈ preorder_ g -> blocks g !! b = Some B ->
    by_id (Predecessors B) /\ forall a, a ∈ Predecessors B <-> reachable g0 a /\ edge g0 a b;
  (* [parent_] is a depth-first spanning tree *)
  dd_len : length (parent_ g) = length (preorder_ g);
  dd_tree : spanning_tree (Z.of_nat (length (parent_ g))) (number_edge g) (pf (parent_ g));
  (* an edge leads to a block finished before, or back to an ancestor *)
  dd_retreat i a b : postorder_ g !! i = Some a -> edge g0 a b ->
    (exists j, postorder_ g !! j = Some b /\ (j < i)%nat) \/
    exists u v, preorder_ g !! u = Some a /\ preorder_ g !! v = Some b /\ ancs (parent_ g) v u;
  dd_loops : loop_headers_ g = None
}.

Section result.
Hypothesis WF : graph_wf g0.
Context (g : FlowGraph).
Hypothesis Ht : tree (preorder_ g) (parent_ g) (postorder_ g) [].
Hypothesis Hm : mem g [].

Lemma walked_all a b : walked (postorder_ g) [] a b <-> a ∈ preorder_ g /\ edge g0 a b.
Proof.
  unfold walked. rewrite (t_perm _ _ _ _ Ht). simpl. split; [|by left]. intros [?|(s & []%not_elem_of_nil & _)]. done.
Qed.

Lemma pre_reachable b : b ∈ preorder_ g <-> reachable g0 b.
Proof.
  split.
  - intros [v Hv]%list_elem_of_lookup. revert b Hv. induction v as [v IH] using lt_wf_ind. intros b Hb. destruct (decide (v = 0)%nat) as [->|Hv].
    + rewrite (t_root _ _ _ _ Ht) in Hb. injection Hb as <-. exists [graph_entry_ g0]. constructor.
    + destruct (t_parent _ _ _ _ Ht v b ltac:(lia) Hb) as (u & a & Hu & _ & Hlt & Hw & _). destruct (IH u Hlt a Hu) as [l Hl].
      exists (l ++ [b]). eapply path_snoc; [exact Hl|]. by apply walked_all in Hw as [_ ?].
  - intros [l Hl]. assert (graph_entry_ g0 ∈ preorder_ g) as H0 by (eapply list_elem_of_lookup_2, (t_root _ _ _ _ Ht)).
    revert H0. induction Hl as [|a c l b Hc Hl IH]; intros H0; [done|]. apply IH.
    destruct (t_walked _ _ _ _ Ht a c) as (_ & v & _ & Hv & _); [by apply walked_all|]. by eapply list_elem_of_lookup_2.
Qed.

Lemma no_edge_to_entry a : ~ edge g0 a (graph_entry_ g0).
Proof.
  intros He. destruct (wf_succ _ WF _ _ He) as (B & HB & Hk). destruct (wf_entry _ WF) as (B' & HB' & Hk'). rewrite HB in HB'. by injection HB' as <-.
Qed.

Lemma discovered_tree : spanning_tree (Z.of_nat (length (parent_ g))) (number_edge g) (pf (parent_ g)).
Proof.
  pose proof (t_len _ _ _ _ Ht) as Hlen. constructor.
  - pose proof (t_root _ _ _ _ Ht) as H0. apply lookup_lt_Some in H0. lia.
  - intros u v (a & b & Hu & Hv & Ha & Hb & He). pose proof (lookup_lt_Some _ _ _ Ha). pose proof (lookup_lt_Some _ _ _ Hb). rewrite Hlen.
    assert (v <> 0); [|lia]. intros ->. change (Z.to_nat 0) with 0%nat in Hb. rewrite (t_root _ _ _ _ Ht) in Hb. injection Hb as <-. by apply no_edge_to_entry in He.
  - intros v Hv. destruct (lookup_lt_is_Some_2 (preorder_ g) (Z.to_nat v)) as [b Hb]; [lia|].
    destruct (t_parent _ _ _ _ Ht (Z.to_nat v) b ltac:(lia) Hb) as (u & a & Hu & Ep & Hlt & Hw & _).
    unfold pf. rewrite Ep. simpl. split; [lia|]. exists a, b. rewrite Nat2Z.id. split_and!; try done; try lia. by apply walked_all in Hw as [_ ?].
  - intros u v (a & b & Hu & Hv & Ha & Hb & He) Hlt. destruct (t_walked _ _ _ _ Ht a b) as (i & j & Hi & Hj & Hij).
    { apply walked_all. split; [by eapply list_elem_of_lookup_2|done]. }
    pose proof (NoDup_lookup _ _ _ _ (t_nodup _ _ _ _ Ht) Ha Hi). pose proof (NoDup_lookup _ _ _ _ (t_nodup _ _ _ _ Ht) Hb Hj).
    specialize (Hij ltac:(lia)). by replace (Z.of_nat i) with u in Hij by lia; replace (Z.of_nat j) with v in Hij by lia.
  - intros v Hv. destruct (lookup_lt_is_Some_2 (preorder_ g) (Z.to_nat v)) as [b Hb]; [lia|].
    destruct (t_parent _ _ _ _ Ht (Z.to_nat v) b ltac:(lia) Hb) as (u & a & Hu & Ep & Hlt & Hw & Hlast).
    unfold pf at 2. rewrite Ep. simpl. by replace (v - 1) with (Z.of_nat (Z.to_nat v - 1)) by lia.
Qed.

Lemma tree_discovered : discovered (set_loop_headers None (set_reverse_postorder (rev (postorder_ g)) g)).
Proof.
  destruct Hm. pose proof discovered_tree as HT. destruct Ht. constructor; simpl; try done.
  - apply pre_reachable.
  - by rewrite rev_alt.
  - intros b B Hb HB. destruct (m_preds0 b B Hb HB) as [H1 H2]. split; [done|]. intros a. by rewrite H2, walked_all, pre_reachable.
Qed.

End result.

Lemma DiscoverBlocks_ok : graph_wf g0 -> exists g, DiscoverBlocks g0 = Ok g /\ discovered g.
Proof.
  intros WF. destruct (discover_entry WF) as (g1 & E1 & Ep & Hd & Es & Ee). unfold DiscoverBlocks. fold cleared. simpl (graph_entry_ cleared). rewrite E1.
  cbn [mbind result_bind snd]. destruct (wf_entry _ WF) as (B0 & HB0 & _). destruct (shape_lookup g1 _ _ (m_shape _ _ (proj2 Hd)) HB0) as (B & HB & Eb).
  unfold BlockTraversalState_new. rewrite Ee, (block_at_ok _ _ _ HB). cbn [mbind result_bind]. unfold length_of. rewrite (succs_shape g1 _ B (m_shape _ _ (proj2 Hd)) HB).
  assert (exists U, seq 0 (length (blocks g0)) ≡ₚ [graph_entry_ g0] ++ U) as [U HU].
  { assert (graph_entry_ g0 ∈ seq 0 (length (blocks g0))) as Hin by (apply elem_of_seq; split; [lia|by eapply lookup_lt_Some]).
    apply list_elem_of_split in Hin as (l1 & l2 & ->). exists (l1 ++ l2). simpl. by rewrite <- (Permutation_middle l1 l2 _). }
  destruct (discover_loop_ok WF (discover_fuel g1) g1 _ U Hd) as (g2 & -> & Hd2); [by rewrite Ep|apply discover_fuel_enough; [done..|exact HU]|].
  cbn [mbind result_bind]. destruct Hd2 as [Ht2 Hm2]. rewrite (Permutation_length (t_perm _ _ _ _ Ht2)). simpl. rewrite Z.eqb_refl. cbn [mbind result_bind check].
  eexists. split; [done|]. by apply tree_discovered.
Qed.

(** C6: On a well-formed graph [DiscoverBlocks] returns without a failed assertion,
    whatever numbers and predecessors an earlier traversal left in the blocks; its
    preorder and postorder list exactly the reachable blocks, the predecessors of each
    are the reachable ones in the order of their ids, [parent_] is a depth-first
    spanning tree and an edge that does not go to a block finished before goes to an
    ancestor. *)
Theorem DiscoverBlocks_correct : graph_wf g0 -> exists g, DiscoverBlocks g0 = Ok g /\ discovered g.
Proof. exact DiscoverBlocks_ok. Qed.


(** ** Deciding well-formedness *)

Definition is_entry (B : BlockEntry) : bool := match kind B with GraphEntry => true | _ => false end.

Definition graph_wfb (g : FlowGraph) : bool :=
  match blocks g !! graph_entry_ g with Some B => is_entry B | None => false end &&
  bool_decide (NoDup (block_id_ <$> blocks g)) &&
  forallb (fun B => bool_decide (NoDup (successors B)) &&
    forallb (fun s => match blocks g !! s with Some B => negb (is_entry B) | None => false end) (successors B)) (blocks g) &&
  forallb (fun a => forallb (fun s => match blocks g !! s with
    | Some B => IsJoinEntry B || forallb (fun a' => (a =? a')%nat || negb (bool_decide (s ∈ succs g a'))) (seq 0 (length (blocks g)))
    | None => true end) (succs g a)) (seq 0 (length (blocks g))).

Lemma forallb_elem {A} (f : A -> bool) l x : forallb f l = true -> x ∈ l -> f x = true.
Proof. rewrite forallb_forall. intros H Hx. by apply H, list_elem_of_In. Qed.

Lemma graph_wfb_ok g : graph_wfb g = true -> graph_wf g.
Proof.
  unfold graph_wfb. intros [[[H1 H2%bool_decide_eq_true]%andb_prop H3]%andb_prop H4]%andb_prop.
  assert (forall a b, edge g a b -> exists A, blocks g !! a = Some A /\ b ∈ successors A) as Hedge.
  { intros a b He. unfold edge, succs in He. destruct (blocks g !! a) as [A|]; [by exists A|by apply not_elem_of_nil in He]. }
  assert (forall a A, blocks g !! a = Some A -> a ∈ seq 0 (length (blocks g))) as Hseq.
  { intros a A HA. apply elem_of_seq. apply lookup_lt_Some in HA. lia. }
  constructor.
  - destruct (blocks g !! graph_entry_ g) as [B|]; [|done]. exists B. split; [done|]. unfold is_entry in H1. by destruct (kind B).
  - intros a b He. destruct (Hedge a b He) as (A & HA & Hb). pose proof (forallb_elem _ _ A H3 (list_elem_of_lookup_2 _ _ _ HA)) as [_ Hs]%andb_prop.
    pose proof (forallb_elem _ _ b Hs Hb) as Hs'. simpl in Hs'. destruct (blocks g !! b) as [B|]; [|done]. exists B. split; [done|]. unfold is_entry in Hs'. by destruct (kind B).
  - intros a. unfold succs. destruct (blocks g !! a) as [A|] eqn:HA; [|constructor].
    by pose proof (forallb_elem _ _ A H3 (list_elem_of_lookup_2 _ _ _ HA)) as [Hs%bool_decide_eq_true _]%andb_prop.
  - intros a b A B HA HB Eid. apply (NoDup_lookup _ _ _ (block_id_ A) H2); rewrite list_lookup_fmap; [by rewrite HA|by rewrite HB, Eid].
  - intros a a' b B He He' HB Hj. destruct (Hedge a b He) as (A & HA & Hb). destruct (Hedge a' b He') as (A' & HA' & Hb').
    pose proof (forallb_elem _ _ a H4 (Hseq a A HA)) as Hs. pose proof (forallb_elem _ _ b Hs He) as Hs'. simpl in Hs'. rewrite HB, Hj in Hs'.
    pose proof (forallb_elem _ _ a' Hs' (Hseq a' A' HA')) as Hs''. simpl in Hs''. rewrite bool_decide_eq_true_2 in Hs'' by done. simpl in Hs''. rewrite orb_false_r in Hs''. by apply Nat.eqb_eq in Hs''.
Qed.

End discover.

(** ** An example *)

#[local] Instance T64 : Target := {| kBitsPerWord := 64; kBitsPerWord_ok := or_intror eq_refl |}.

(** A loop around a branch; block 8 is not reachable.  The numbers in the blocks are
    left over from some other traversal. *)
Definition demo_block (k : BlockKind) (id : Z) (s : list nat) : BlockEntry := mkBlockEntry k id s 1 2 [3%nat] None [5%nat] None None.

Definition demo : FlowGraph :=
  mkFlowGraph [demo_block GraphEntry 0 [1%nat]; demo_block TargetEntry 1 [2%nat]; demo_block JoinEntry 2 [3%nat; 4%nat];
    demo_block TargetEntry 3 [5%nat]; demo_block TargetEntry 4 [5%nat]; demo_block JoinEntry 5 [6%nat; 7%nat];
    demo_block TargetEntry 6 [2%nat]; demo_block TargetEntry 7 []; demo_block TargetEntry 8 [5%nat]] 0 [1%nat] [2%nat] [3%nat] [4] (Some []).

Lemma demo_wf : graph_wf demo.
Proof. apply graph_wfb_ok. vm_compute. reflexivity. Qed.

Lemma DiscoverBlocks_correct_witness : exists g, DiscoverBlocks demo = Ok g /\ discovered demo g.
Proof. apply (DiscoverBlocks_correct demo), demo_wf. Defined.

End Discover.
