(* ===== verification/DominatorProps.v ===== *)
(** * ComputeDominators finds the dominators

    The first pass of the algorithm and its forest with compressed paths compute
    semidominators, the second immediate dominators, the third dominance frontiers: by
    the facts of [Dominators] for the numbers that [Discover] shows to come from a
    depth-first traversal. *)

From stdpp Require Import base numbers list sets.
From Stdlib Require Import ZArith Lia Sorted.
From S2P Require Import Prelude Utils HeapMemory BitSet BitVector FlowGraph Dominators Discover.

Local Open Scope Z_scope.

Module DominatorProps.
Import BitVector FlowGraph Dominators Discover.

Section props.
Context {T : Target}.

(** ** The forest *)

Definition least (P : Z -> Prop) (s : Z) : Prop := P s /\ forall s', P s' -> s <= s'.

Lemma least_min (P Q R : Z -> Prop) a b : least P a -> least Q b -> (forall s, R s <-> P s \/ Q s) -> least R (Utils.Minimum a b).
Proof.
  intros [Pa Ha] [Qb Hb] HR. unfold Utils.Minimum. split.
  - apply HR. destruct (a <? b); auto.
  - intros s [Hs|Hs]%HR; [specialize (Ha s Hs)|specialize (Hb s Hs)]; destruct (Z.ltb_spec a b); lia.
Qed.

Lemma least_iff (P Q : Z -> Prop) a : least P a -> (forall s, Q s <-> P s) -> least Q a.
Proof. intros [Pa Ha] HR. split; [by apply HR|]. intros s Hs. by apply Ha, HR. Qed.

Section forest.
Context (n : Z) (E : Z -> Z -> Prop) (p : Z -> Z) (ST : spanning_tree n E p).

Abbreviation anc := (anc n p).
Abbreviation at_ l x := (l !! Z.to_nat x).

(** The sources of semidominator paths to the ancestors of [x] above [q]. *)
Definition above (q x s : Z) : Prop := exists w, anc w x /\ q < w /\ semi E s w.

(** The forest when the blocks after [v] are linked. *)
Record forest_ok (v : Z) (par label : list Z) : Prop := {
  fo_par_len : length par = Z.to_nat n;
  fo_label_len : length label = Z.to_nat n;
  fo_par x : 0 < x < n -> exists q, at_ par x = Some q /\ 0 <= q /\ anc q (p x) /\ forall w, anc w x -> w <> x -> q < w -> v < w;
  fo_low x : 0 <= x <= v -> x < n -> at_ label x = Some x;
  fo_label x q : v < x < n -> at_ par x = Some q -> exists l, at_ label x = Some l /\ least (above q x) l
}.

Lemma fo_par_lt v par label x q : forest_ok v par label -> 0 < x < n -> at_ par x = Some q ->
  0 <= q < x /\ anc q x /\ anc q (p x) /\ forall w, anc w x -> w <> x -> q < w -> v < w.
Proof.
  intros Hf Hx Hq. destruct (fo_par _ _ _ Hf x Hx) as (q' & Hq' & H0 & Ha & Hw). rewrite Hq in Hq'. injection Hq' as <-.
  pose proof (anc_le _ _ _ ST _ _ Ha). destruct (st_parent _ _ _ ST x Hx). split_and!; try done; try lia. by apply anc_up.
Qed.

Lemma at_insert_eq (l : list Z) x y : 0 <= x < Z.of_nat (length l) -> at_ (<[Z.to_nat x := y]> l) x = Some y.
Proof. intros Hx. apply list_lookup_insert_eq. lia. Qed.

Lemma at_insert_ne (l : list Z) x z y : 0 <= x -> 0 <= z -> x <> z -> at_ (<[Z.to_nat x := y]> l) z = at_ l z.
Proof. intros Hx Hz Hne. apply list_lookup_insert_ne. lia. Qed.

(** Linking [x] to the parent [r] of its parent [q]. *)
Lemma above_compress v par label x q r : forest_ok v par label -> v < x < n -> 0 <= v -> at_ par x = Some q -> v < q -> at_ par q = Some r -> r <= v ->
  (forall s, above r x s <-> above q x s \/ above r q s) /\ anc r (p x) /\ forall w, anc w x -> w <> x -> r < w -> v < w.
Proof.
  intros Hf Hx Hv Hq Hvq Hr Hrv. destruct (fo_par_lt v par label x q Hf ltac:(lia) Hq) as (Hlt & Hqx & Hqp & Hw).
  destruct (fo_par_lt v par label q r Hf ltac:(lia) Hr) as (Hlt' & Hrq & Hrp & Hw'). split_and!.
  - intros s. split.
    + intros (w & Ha & Hrw & Hs). destruct (decide (q < w)); [left; by exists w|right]. exists w. split_and!; try done. eapply (anc_linear _ _ _ ST); [done|done|lia].
    + intros [(w & Ha & Hqw & Hs)|(w & Ha & Hrw & Hs)]; exists w; split_and!; try done; try lia. by eapply anc_trans.
  - eapply anc_trans; [exact Hrq|exact Hqp].
  - intros w Ha Hne Hrw. destruct (decide (q < w)); [by apply Hw|]. destruct (decide (w = q)) as [->|Hwq]; [done|]. apply Hw'; [|done|done]. eapply (anc_linear _ _ _ ST); [done|done|lia].
Qed.

Lemma CompressPath_ok fuel v x par label : forest_ok v par label -> 0 <= v -> v < x < n -> x < Z.of_nat fuel ->
  exists par' label' q, CompressPath fuel v x par label = Ok (par', label') /\ forest_ok v par' label' /\ at_ par' x = Some q /\ q <= v /\
    forall y, x < y -> at_ par' y = at_ par y.
Proof.
  revert x par label. induction fuel as [|fuel IH]; intros x par label Hf Hv Hx Hfuel; [lia|]. cbn [CompressPath].
  destruct (fo_par _ _ _ Hf x ltac:(lia)) as (q & Hq & H0q & Hqp & Hqw). rewrite (get_ok par x q) by (done || lia). cbn [mbind result_bind].
  destruct (Z.ltb_spec v q) as [Hvq|Hvq]; [|by exists par, label, q].
  destruct (fo_par_lt v par label x q Hf ltac:(lia) Hq) as (Hlt & Hqx & _ & _).
  destruct (IH q par label Hf Hv ltac:(lia) ltac:(lia)) as (par1 & label1 & r & -> & Hf1 & Hr & Hrv & Hsame). cbn [mbind result_bind fst snd].
  assert (at_ par1 x = Some q) as Hq1 by (by rewrite Hsame by lia).
  destruct (fo_label _ _ _ Hf1 x q Hx Hq1) as (l & Hl & Hleast). destruct (fo_label _ _ _ Hf1 q r ltac:(lia) Hr) as (l' & Hl' & Hleast').
  rewrite (get_ok label1 x l) by (done || lia). cbn [mbind result_bind]. rewrite (get_ok label1 q l') by (done || lia). cbn [mbind result_bind].
  rewrite (put_ok label1 x l) by (done || lia). cbn [mbind result_bind]. rewrite (get_ok par1 q r) by (done || lia). cbn [mbind result_bind].
  rewrite (put_ok par1 x q) by (done || lia). cbn [mbind result_bind].
  destruct (above_compress v par1 label1 x q r Hf1 Hx Hv Hq1 Hvq Hr Hrv) as (Habove & Hrp & Hrw).
  pose proof (fo_par_len _ _ _ Hf1) as L1. pose proof (fo_label_len _ _ _ Hf1) as L2. destruct (fo_par_lt v par1 label1 q r Hf1 ltac:(lia) Hr) as [Hr0 _].
  eexists _, _, r. split_and!; [done| |apply at_insert_eq; lia|done|intros y Hy; rewrite at_insert_ne by lia; apply Hsame; lia].
  constructor; try (by rewrite length_insert).
  - intros y Hy. destruct (decide (y = x)) as [->|Hne]; [exists r; rewrite at_insert_eq by lia; split_and!; try done; lia|]. rewrite at_insert_ne by lia. by apply (fo_par _ _ _ Hf1).
  - intros y Hy Hyn. rewrite at_insert_ne by lia. by apply (fo_low _ _ _ Hf1).
  - intros y q' Hy Hq'. destruct (decide (y = x)) as [->|Hne].
    + rewrite at_insert_eq in Hq' by lia. injection Hq' as <-. eexists. split; [apply at_insert_eq; lia|]. by eapply least_min.
    + rewrite at_insert_ne in Hq' by lia. rewrite at_insert_ne by lia. by apply (fo_label _ _ _ Hf1).
Qed.

(** ** The first pass *)

(** While the predecessors of [v] are visited; [c] is the number found so far. *)
Record semi_ok (v : Z) (f : Forest) (c : Z) : Prop := {
  sm_forest : forest_ok v (f_parent f) (f_label f);
  sm_len : length (f_semi f) = Z.to_nat n;
  sm_low x : 0 <= x < v -> at_ (f_semi f) x = Some x;
  sm_now : at_ (f_semi f) v = Some c;
  sm_high x : v < x < n -> exists s, at_ (f_semi f) x = Some s /\ semidominator E s x;
  sm_le : c <= v;
  sm_path : c = v \/ semi E c v
}.

Lemma above_self v u : u <= v -> forall s, ~ above v u s.
Proof. intros Hu s (w & Ha & Hw & _). apply (anc_le _ _ _ ST) in Ha. lia. Qed.

(** The least source above [v] is not after it. *)
Lemma above_le v u l : 0 < v -> u < n -> least (above v u) l -> l <= v /\ 0 <= l.
Proof.
  intros Hv Hu [(w & Ha & Hw & Hs) Hleast]. split; [|by eapply semi_pos]. destruct (decide (l <= v)) as [|Hgt]; [done|exfalso].
  pose proof (anc_le _ _ _ ST _ _ Ha). assert (semidominator E l w) as Hsd by (split; [done|]; intros s' Hs'; apply Hleast; by exists w).
  pose proof (semidominator_anc _ _ _ ST l w ltac:(lia) Hsd) as Hlw. pose proof (anc_le _ _ _ ST _ _ Hlw).
  destruct (st_parent _ _ _ ST l ltac:(lia)) as [Hlt Hedge]. assert (above v u (p l)) as Hp by (exists l; split_and!; [by eapply anc_trans|lia|by apply semi_edge]).
  specialize (Hleast _ Hp). lia.
Qed.

(** [best] of the code, and what [semi] says of it. *)
Definition best_of (fuel : nat) (v u : Z) (f : Forest) : M (Z * Forest) :=
  if v <? u then
    r ← CompressPath fuel v u (f_parent f) (f_label f);
    best ← get (snd r) u;
    Ok (best, mkForest (fst r) (snd r) (f_semi f))
  else Ok (u, f).

Lemma best_of_ok v u f c fuel : 0 < v < n -> E u v -> semi_ok v f c -> n <= Z.of_nat fuel ->
  exists best f' m, best_of fuel v u f = Ok (best, f') /\ semi_ok v f' c /\ 0 <= best /\ at_ (f_semi f') best = Some m /\
    (m = c \/ (m < v /\ semi E m v)) /\ forall s, s = u \/ above v u s -> Z.min c m <= s.
Proof.
  intros Hv Huv Hs Hfuel. pose proof (st_range _ _ _ ST _ _ Huv) as [Hu _]. unfold best_of. destruct (Z.ltb_spec v u) as [Hlt|Hge].
  - destruct (CompressPath_ok fuel v u (f_parent f) (f_label f) (sm_forest _ _ _ Hs)) as (par & label & q & -> & Hf & Hq & Hqv & _); [lia..|]. cbn [mbind result_bind fst snd].
    destruct (fo_label _ _ _ Hf u q ltac:(lia) Hq) as (l & Hl & Hleast). rewrite (get_ok label u l) by (done || lia). cbn [mbind result_bind].
    assert (least (above v u) l) as Hleast'.
    { eapply least_iff; [exact Hleast|]. intros s. split; intros (w & Ha & Hw & Hsw); exists w; split_and!; try done; [lia|].
      destruct (decide (w = u)) as [->|]; [done|]. destruct (fo_par_lt v par label u q Hf ltac:(lia) Hq) as (_ & _ & _ & H). by apply H. }
    destruct (above_le v u l ltac:(lia) ltac:(lia) Hleast') as [Hlv Hl0]. destruct Hs. destruct (decide (l = v)) as [->|Hne].
    + exists v, (mkForest par label (f_semi f)), c. split_and!; [done|by constructor|lia|done|by left|]. intros s [->|Hs]; [lia|]. pose proof (proj2 Hleast' s Hs). lia.
    + exists l, (mkForest par label (f_semi f)), l. split_and!; [done|by constructor|lia|apply sm_low0; simpl; lia| |].
      * right. split; [lia|]. destruct Hleast' as [(w & Ha & Hw & Hsw) _]. eapply semi_extend; done.
      * intros s [->|Hs]; [lia|]. pose proof (proj2 Hleast' s Hs). lia.
  - exists u, f. destruct (decide (u = v)) as [->|Hne].
    + exists c. split_and!; try done; [lia|apply Hs|by left|]. intros s [->|Hab]; [pose proof (sm_le _ _ _ Hs); lia|]. by apply above_self in Hab.
    + exists u. split_and!; try done; [lia|apply Hs; lia|right; split; [lia|by apply semi_edge]|]. intros s [->|Hab]; [lia|]. apply above_self in Hab; [done|lia].
Qed.

Lemma Minimum_is_min a b : Utils.Minimum a b = Z.min a b.
Proof. unfold Utils.Minimum. destruct (Z.ltb_spec a b); lia. Qed.

Lemma semi_ok_insert v f c m : 0 < v < n -> semi_ok v f c -> m = c \/ (m < v /\ semi E m v) ->
  semi_ok v (mkForest (f_parent f) (f_label f) (<[Z.to_nat v := Utils.Minimum c m]> (f_semi f))) (Z.min c m).
Proof.
  intros Hv Hs Hm. pose proof (sm_len _ _ _ Hs) as Hlen. destruct Hs. constructor; simpl; try done.
  - by rewrite length_insert.
  - intros x Hx. rewrite at_insert_ne by lia. by apply sm_low0.
  - rewrite Minimum_is_min. apply at_insert_eq. lia.
  - intros x Hx. rewrite at_insert_ne by lia. by apply sm_high0.
  - lia.
  - destruct Hm as [->|[Hlt Hm]]; [by rewrite Z.min_id|]. destruct (Z.min_spec c m) as [[? ->]|[? ->]]; [done|by right].
Qed.

(** All predecessors were visited. *)
Lemma semi_ok_end v f c : 0 < v < n -> semi_ok v f c -> (forall u s, E u v -> s = u \/ above v u s -> c <= s) -> semidominator E c v.
Proof.
  intros Hv Hs Hall. destruct (st_parent _ _ _ ST v Hv) as [Hlt Hp]. pose proof (Hall _ _ Hp (or_introl eq_refl)).
  split; [destruct (sm_path _ _ _ Hs); [lia|done]|]. intros s Hsemi. destruct (semi_cases _ _ _ ST s v Hv Hsemi) as [He|(u & w & He & Ha & Hw & Hsw)]; apply (Hall _ _ He); [by left|right; by exists w].
Qed.


(** Between two blocks: those after [v] have their semidominators. *)
Record pass1 (v : Z) (f : Forest) : Prop := {
  p1_forest : forest_ok v (f_parent f) (f_label f);
  p1_len : length (f_semi f) = Z.to_nat n;
  p1_low x : 0 <= x <= v -> x < n -> at_ (f_semi f) x = Some x;
  p1_high x : v < x < n -> exists s, at_ (f_semi f) x = Some s /\ semidominator E s x
}.

Lemma pass1_enter v f : 0 < v < n -> pass1 v f -> semi_ok v f v.
Proof. intros Hv []. constructor; try done; [intros x Hx; apply p1_low0; lia|apply p1_low0; lia|by left]. Qed.

Lemma pass1_leave v f c : 0 < v < n -> semi_ok v f c -> semidominator E c v -> pass1 (v - 1) (mkForest (f_parent f) (<[Z.to_nat v := c]> (f_label f)) (f_semi f)).
Proof.
  intros Hv [Hf Hlen Hlow Hnow Hhigh _ _] Hc. pose proof (fo_label_len _ _ _ Hf) as Hll. constructor; simpl; [constructor|done|..].
  - apply Hf.
  - by rewrite length_insert.
  - intros x Hx. destruct (fo_par _ _ _ Hf x Hx) as (q & Hq & H0 & Ha & Hw). exists q. split_and!; try done. intros w H1 H2 H3. specialize (Hw w H1 H2 H3). lia.
  - intros x Hx Hxn. rewrite at_insert_ne by lia. apply (fo_low _ _ _ Hf); lia.
  - intros x q Hx Hq. destruct (decide (x = v)) as [->|Hne]; [|rewrite at_insert_ne by lia; apply (fo_label _ _ _ Hf); [lia|done]].
    exists c. split; [apply at_insert_eq; lia|]. destruct (fo_par_lt v _ _ v q Hf Hv Hq) as (Hqv & _ & _ & Hw).
    eapply least_iff; [exact Hc|]. intros s. split.
    + intros (w & Ha & Hqw & Hs). destruct (decide (w = v)) as [->|Hne]; [done|]. specialize (Hw w Ha Hne Hqw). apply (anc_le _ _ _ ST) in Ha. lia.
    + intros Hs. exists v. split_and!; [constructor|lia|done].
  - intros x Hx Hxn. apply Hlow. lia.
  - intros x Hx. destruct (decide (x = v)) as [->|Hne]; [by exists c|]. apply Hhigh. lia.
Qed.

Lemma pass1_start par : length par = Z.to_nat n -> (forall x, 0 < x < n -> at_ par x = Some (p x)) ->
  pass1 (n - 1) (mkForest par (Z.of_nat <$> seq 0 (Z.to_nat n)) (Z.of_nat <$> seq 0 (Z.to_nat n))).
Proof.
  intros Hl Hp. assert (forall x, 0 <= x < n -> at_ (Z.of_nat <$> seq 0 (Z.to_nat n)) x = Some x) as Hseq.
  { intros x Hx. rewrite list_lookup_fmap, lookup_seq_lt by lia. simpl. f_equal. lia. }
  constructor; simpl; [constructor|..]; try (rewrite length_fmap, length_seq; done); try (intros; lia); try (intros; apply Hseq; lia).
  intros x Hx. exists (p x). split_and!; [by apply Hp|apply (st_parent _ _ _ ST x Hx)|constructor|]. intros w Ha Hne Hlt.
  apply anc_proper in Ha as [_ Ha]; [|done]. apply (anc_le _ _ _ ST) in Ha. lia.
Qed.

(** ** The second pass *)

Lemma ascend_ok fuel idom semi v s x :
  0 < v < n -> at_ semi v = Some s -> semidominator E s v -> 0 <= x < v -> candidate E p v x -> x < Z.of_nat fuel ->
  (forall y, 0 < y < v -> exists d, at_ idom y = Some d /\ immediate_dominator E 0 d y) ->
  exists d, ascend fuel idom semi v x = Ok d /\ immediate_dominator E 0 d v.
Proof.
  intros Hv Hsv Hs. revert x. induction fuel as [|fuel IH]; intros x Hx Hc Hfuel Hid; [lia|]. cbn [ascend].
  rewrite (get_ok semi v s) by (done || lia). cbn [mbind result_bind]. destruct (Z.ltb_spec s x) as [Hlt|Hge].
  - pose proof (semi_pos _ _ _ ST _ _ (proj1 Hs)). destruct (Hid x ltac:(lia)) as (d & Hd & Himm). rewrite (get_ok idom x d) by (done || lia). cbn [mbind result_bind].
    pose proof (immediate_dominator_lt _ _ _ ST d x ltac:(lia) Himm). apply IH; [lia| |lia|done]. by apply (candidate_up _ _ _ ST s v x).
  - exists x. split; [done|]. by apply (candidate_end _ _ _ ST s).
Qed.


End forest.

(** ** The graph *)

Section graph.
Context (g0 g1 : FlowGraph).
Hypothesis WF : graph_wf g0.
Hypothesis Hd : discovered g0 g1.

Abbreviation n := (Z.of_nat (length (parent_ g1))).
Abbreviation E := (number_edge g0 g1).
Abbreviation p := (pf (parent_ g1)).
Abbreviation pre x := (preorder_ g1 !! Z.to_nat x).

Lemma n_nat : Z.to_nat n = length (preorder_ g1).
Proof. by rewrite Nat2Z.id, (dd_len _ _ Hd). Qed.

(** What the three passes keep. *)
Definition core (B : BlockEntry) := (shape B, preorder_number_ B, postorder_number_ B, predecessors_ B, loop_info_ B, phis_ B).

Definition same_core (g : FlowGraph) : Prop :=
  core <$> blocks g = core <$> blocks g1 /\ preorder_ g = preorder_ g1 /\ postorder_ g = postorder_ g1 /\ graph_entry_ g = graph_entry_ g1.

Lemma core_lookup g b B1 : same_core g -> blocks g1 !! b = Some B1 -> exists B, blocks g !! b = Some B /\ core B = core B1.
Proof.
  intros [Hc _] H1. assert ((core <$> blocks g) !! b = Some (core B1)) as H by (by rewrite Hc, list_lookup_fmap, H1).
  rewrite list_lookup_fmap in H. apply fmap_Some in H as (B & HB & EB). by exists B.
Qed.

Lemma core_block g x b : same_core g -> 0 <= x -> pre x = Some b -> exists B, blocks g !! b = Some B /\ preorder_number_ B = x /\
  (forall a, a ∈ Predecessors B <-> exists u, 0 <= u /\ pre u = Some a /\ E u x) /\ NoDup (Predecessors B).
Proof.
  intros Hg Hx Hb. destruct (dd_num _ _ Hd _ _ Hb) as (B1 & HB1 & Hnum). destruct (core_lookup g b B1 Hg HB1) as (B & HB & EB).
  exists B. injection EB as Ek Ei Es Epre Epost Epreds _ _. assert (Predecessors B = Predecessors B1) as EP by (unfold Predecessors; by rewrite Ek, Epreds).
  destruct (dd_preds _ _ Hd b B1 (list_elem_of_lookup_2 _ _ _ Hb) HB1) as [Hsort Hp]. split_and!; [done|lia| |].
  - intros a. rewrite EP, Hp. split.
    + intros [Hr He]. apply (dd_reach _ _ Hd), list_elem_of_lookup in Hr as [u Hu]. exists (Z.of_nat u). rewrite Nat2Z.id. split_and!; [lia|done|]. exists a, b. rewrite Nat2Z.id. split_and!; try done; lia.
    + intros (u & Hu & Ha & (a' & b' & _ & _ & Ha' & Hb' & He)). rewrite Ha in Ha'. rewrite Hb in Hb'. simplify_eq. split; [|done]. by eapply (dd_reach _ _ Hd), list_elem_of_lookup_2.
  - rewrite EP. clear -Hsort. induction Hsort as [|a l Hl IH Ha]; constructor; [|done]. rewrite Forall_forall in Ha. intros Hin. specialize (Ha a Hin). lia.
Qed.

Lemma core_insert g b B B' : same_core g -> blocks g !! b = Some B -> core B' = core B -> same_core (set_blocks (<[b := B']> (blocks g)) g).
Proof. intros (H1 & H2 & H3 & H4) Hb Hc. split_and!; try done. simpl. by rewrite (fmap_insert_same _ _ _ _ _ Hb Hc). Qed.

Lemma pre_some x : 0 <= x < n -> exists b, pre x = Some b.
Proof. intros Hx. destruct (lookup_lt_is_Some_2 (preorder_ g1) (Z.to_nat x)) as [b Hb]; [rewrite <- (dd_len _ _ Hd); lia|by exists b]. Qed.

Lemma p_at x : 0 < x < n -> parent_ g1 !! Z.to_nat x = Some (p x).
Proof. intros Hx. unfold pf. destruct (lookup_lt_is_Some_2 (parent_ g1) (Z.to_nat x)) as [q Hq]; [lia|]. by rewrite Hq. Qed.

(** *** Semidominators *)

Lemma semi_preds_ok g v f c preds : same_core g -> 0 < v < n -> semi_ok n E p v f c ->
  Forall (fun a => exists u, 0 <= u /\ pre u = Some a /\ E u v) preds ->
  exists f' c', semi_preds g v preds f = Ok f' /\ semi_ok n E p v f' c' /\ c' <= c /\
    forall a u s, a ∈ preds -> 0 <= u -> pre u = Some a -> s = u \/ above n E p v u s -> c' <= s.
Proof.
  intros Hg Hv Hs Hp. pose proof (dd_tree _ _ Hd) as ST. revert f c Hs. induction Hp as [|a preds (u & Hu & Ha & He) Hp IH]; intros f c Hs.
  { exists f, c. split_and!; try done. intros a u s []%not_elem_of_nil. }
  destruct (core_block g u a Hg Hu Ha) as (A & HA & Hnum & _). cbn [semi_preds]. rewrite (block_at_ok _ _ _ HA). cbn [mbind result_bind]. rewrite Hnum.
  destruct (best_of_ok n E p ST v u f c (length (f_parent f)) Hv He Hs) as (best & f1 & m & Eb & Hs1 & Hb0 & Hbm & Hm & Hmin).
  { rewrite (fo_par_len _ _ _ _ _ _ (sm_forest _ _ _ _ _ _ Hs)). lia. }
  unfold best_of in Eb. rewrite Eb. cbn [mbind result_bind fst snd].
  rewrite (get_ok (f_semi f1) v c) by (by apply Hs1 || lia). cbn [mbind result_bind]. rewrite (get_ok (f_semi f1) best m) by done. cbn [mbind result_bind].
  rewrite (put_ok (f_semi f1) v c) by (by apply Hs1 || lia). cbn [mbind result_bind].
  destruct (IH _ _ (semi_ok_insert n E p v f1 c m Hv Hs1 Hm)) as (f' & c' & -> & Hs' & Hle & Hall). exists f', c'. split_and!; try done; [lia|].
  intros a' u' s [->|Hin]%elem_of_cons Hu' Ha' Hsu; [|by eapply Hall]. assert (u' = u) as ->; [|specialize (Hmin s Hsu); lia].
  pose proof (NoDup_lookup _ _ _ _ (dd_nodup _ _ Hd) Ha Ha'). lia.
Qed.

Definition cleared_after (g : FlowGraph) (v : Z) : Prop :=
  forall x b B, v < x < n -> pre x = Some b -> blocks g !! b = Some B -> dominated_blocks_ B = [].

Definition keeps_dominators (g g' : FlowGraph) : Prop := dominator_ <$> blocks g' = dominator_ <$> blocks g.

Lemma semi_loop_ok k g f : same_core g -> Z.of_nat k < n -> pass1 n E p (Z.of_nat k) f -> cleared_after g (Z.of_nat k) ->
  exists g' f', semi_loop k g f = Ok (g', f') /\ same_core g' /\ pass1 n E p 0 f' /\ cleared_after g' 0 /\ keeps_dominators g g' /\
    forall b, (forall x, 0 < x -> pre x <> Some b) -> blocks g' !! b = blocks g !! b.
Proof.
  pose proof (dd_tree _ _ Hd) as ST. revert g f. induction k as [|k IH]; intros g f Hg Hk Hf Hcl; [by exists g, f|].
  set (v := Z.of_nat (S k)) in *. destruct (pre_some v ltac:(lia)) as [b Hb]. destruct (core_block g v b Hg ltac:(lia) Hb) as (B & HB & Hnum & _ & _).
  cbn [semi_loop]. fold v. rewrite (proj1 (proj2 Hg)), (get_ok (preorder_ g1) v b) by (done || lia). cbn [mbind result_bind]. rewrite (modify_ok _ _ _ _ HB). cbn [mbind result_bind].
  set (B' := set_dominated_blocks [] B). set (g2 := set_blocks (<[b := B']> (blocks g)) g).
  assert (same_core g2) as Hg2 by (by apply core_insert with B). pose proof (lookup_lt_Some _ _ _ HB) as Hlt.
  assert (blocks g2 !! b = Some B') as HB' by (by apply list_lookup_insert_eq). rewrite (block_at_ok _ _ _ HB'). cbn [mbind result_bind].
  destruct (core_block g2 v b Hg2 ltac:(lia) Hb) as (B2 & HB2 & _ & Hpreds & _). rewrite HB' in HB2. injection HB2 as <-.
  destruct (semi_preds_ok g2 v f v (Predecessors B') Hg2 ltac:(lia) (pass1_enter n E p v f ltac:(lia) Hf)) as (f' & c & -> & Hs & Hcv & Hall).
  { apply Forall_forall. intros a Ha. by apply Hpreds. }
  cbn [mbind result_bind]. assert (semidominator E c v) as Hc.
  { eapply semi_ok_end; [exact ST|lia|exact Hs|]. intros u s He Hsu. destruct (st_range _ _ _ ST _ _ He) as [Hu _]. destruct (pre_some u Hu) as [a Ha].
    apply (Hall a u s); [apply Hpreds; exists u; split_and!; [lia|done|done]|lia|done|done]. }
  rewrite (get_ok (f_semi f') v c) by (by apply Hs || lia). cbn [mbind result_bind].
  destruct (lookup_lt_is_Some_2 (f_label f') (Z.to_nat v)) as [l Hl]; [rewrite (fo_label_len _ _ _ _ _ _ (sm_forest _ _ _ _ _ _ Hs)); lia|].
  rewrite (put_ok (f_label f') v l) by (done || lia). cbn [mbind result_bind].
  destruct (IH g2 (mkForest (f_parent f') (<[Z.to_nat v := c]> (f_label f')) (f_semi f')) Hg2 ltac:(lia)) as (g3 & f3 & -> & H1 & H2 & H3 & H4 & H5).
  { replace (Z.of_nat k) with (v - 1) by lia. eapply pass1_leave; try done; lia. }
  { intros x b2 B2 Hx Hb2 HB2. destruct (decide (b2 = b)) as [->|Hne]; [rewrite HB' in HB2; by injection HB2 as <-|].
    simpl in HB2. rewrite list_lookup_insert_ne in HB2 by done. apply (Hcl x b2 B2); [|done|done]. assert (x <> v) by (intros ->; congruence). lia. }
  exists g3, f3. split_and!; try done.
  - unfold keeps_dominators in *. rewrite H4. simpl. by rewrite (fmap_insert_same dominator_ _ _ B).
  - intros b2 Hb2. rewrite H5 by done. simpl. rewrite list_lookup_insert_ne; [done|]. intros ->. apply (Hb2 v ltac:(lia)). done.
Qed.

(** *** Immediate dominators *)

Lemma pre_inj x y b : pre x = Some b -> pre y = Some b -> 0 <= x -> 0 <= y -> x = y.
Proof. intros H1 H2 Hx Hy. pose proof (NoDup_lookup _ _ _ _ (dd_nodup _ _ Hd) H1 H2). lia. Qed.

(** The blocks before [v] know their dominator and are known to it. *)
Record dominators_ok (v : Z) (g : FlowGraph) : Prop := {
  do_core : same_core g;
  do_dom x b B : 0 < x < v -> pre x = Some b -> blocks g !! b = Some B -> exists d a, dominator_ B = Some a /\ 0 <= d /\ pre d = Some a /\ immediate_dominator E 0 d x;
  do_children x b B c : 0 <= x < n -> pre x = Some b -> blocks g !! b = Some B ->
    c ∈ dominated_blocks_ B <-> exists y, 0 < y < v /\ pre y = Some c /\ immediate_dominator E 0 x y;
  do_entry B : blocks g !! graph_entry_ g0 = Some B -> dominator_ B = None
}.

Lemma AddDominatedBlock_ok v g d a b : 0 < v < n -> dominators_ok v g -> pre v = Some b -> 0 <= d -> pre d = Some a -> immediate_dominator E 0 d v ->
  exists g', AddDominatedBlock g a b = Ok g' /\ dominators_ok (v + 1) g'.
Proof.
  intros Hv Hg Hb Hd0 Ha Himm. pose proof (dd_tree _ _ Hd) as ST. pose proof (immediate_dominator_lt _ _ _ ST d v ltac:(lia) Himm) as Hdv.
  assert (a <> b) as Hab by (intros ->; pose proof (pre_inj _ _ _ Ha Hb ltac:(lia) ltac:(lia)); lia).
  destruct (core_block g v b (do_core _ _ Hg) ltac:(lia) Hb) as (B & HB & _). destruct (core_block g d a (do_core _ _ Hg) ltac:(lia) Ha) as (A & HA & _).
  pose proof (lookup_lt_Some _ _ _ HB) as HBl. pose proof (lookup_lt_Some _ _ _ HA) as HAl.
  unfold AddDominatedBlock. rewrite (modify_ok _ _ _ _ HB). cbn [mbind result_bind]. set (g2 := set_blocks _ g).
  assert (blocks g2 !! a = Some A) as HA2 by (simpl; by rewrite list_lookup_insert_ne). rewrite (block_at_ok _ _ _ HA2). cbn [mbind result_bind].
  rewrite (modify_ok _ _ _ _ HA2). eexists. split; [done|]. simpl.
  set (A' := set_dominated_blocks (dominated_blocks_ A ++ [b]) A) in *. set (B' := set_dominator (Some a) B) in *.
  assert (forall c C, (<[a := A']> (<[b := B']> (blocks g))) !! c = Some C -> (c = a /\ C = A') \/ (c = b /\ C = B') \/ (c <> a /\ c <> b /\ blocks g !! c = Some C)) as Hcases.
  { intros c C HC. destruct (decide (c = a)) as [->|Hca]; [left; rewrite list_lookup_insert_eq in HC by (by rewrite length_insert); by simplify_eq|].
    rewrite list_lookup_insert_ne in HC by done. destruct (decide (c = b)) as [->|Hcb]; [right; left; rewrite list_lookup_insert_eq in HC by done; by simplify_eq|].
    right; right. by rewrite list_lookup_insert_ne in HC. }
  constructor; simpl.
  - apply (core_insert g2 a A A'); [|done|done]. by apply (core_insert g b B B'); [apply Hg|..].
  - intros x c C Hx Hc HC. destruct (Hcases c C HC) as [[-> ->]|[[-> ->]|(Hca & Hcb & HC')]].
    + pose proof (pre_inj _ _ _ Ha Hc ltac:(lia) ltac:(lia)) as <-. by apply (do_dom _ _ Hg d a A); [lia|..].
    + pose proof (pre_inj _ _ _ Hb Hc ltac:(lia) ltac:(lia)) as <-. exists d, a. done.
    + apply (do_dom _ _ Hg x c C); [|done|done]. assert (x <> v) by congruence. lia.
  - intros x c C c' Hx Hc HC.
    assert ((exists y, 0 < y < v + 1 /\ pre y = Some c' /\ immediate_dominator E 0 x y) <->
      (exists y, 0 < y < v /\ pre y = Some c' /\ immediate_dominator E 0 x y) \/ (c' = b /\ x = d)) as ->.
    { split.
      - intros (y & Hy & Hyc & Hxy). destruct (decide (y = v)) as [->|]; [right|left; exists y; split_and!; [lia|lia|done|done]].
        split; [congruence|]. by apply (immediate_dominator_unique _ _ _ ST x d v); [lia|..].
      - intros [(y & Hy & ?)|[-> ->]]; [exists y; split; [lia|done]|exists v; split_and!; [lia|lia|done|done]]. }
    destruct (Hcases c C HC) as [[-> ->]|[[-> ->]|(Hca & Hcb & HC')]]; simpl.
    + pose proof (pre_inj _ _ _ Ha Hc ltac:(lia) ltac:(lia)) as <-. rewrite elem_of_app, list_elem_of_singleton, (do_children _ _ Hg d a A) by done. tauto.
    + pose proof (pre_inj _ _ _ Hb Hc ltac:(lia) ltac:(lia)) as <-. rewrite (do_children _ _ Hg v b B) by done. intuition lia.
    + rewrite (do_children _ _ Hg x c C) by done. assert (x <> d) by congruence. tauto.
  - intros C HC. destruct (Hcases _ _ HC) as [[E1 ->]|[[E1 ->]|(_ & _ & HC')]].
    + simpl. apply (do_entry _ _ Hg). by rewrite E1.
    + pose proof (dd_root _ _ Hd) as H0. rewrite E1 in H0. pose proof (pre_inj 0 v b H0 Hb ltac:(lia) ltac:(lia)). lia.
    + by apply (do_entry _ _ Hg).
Qed.


Lemma idom_loop_ok todo v g semi idom :
  0 < v -> v + Z.of_nat todo = n -> dominators_ok v g -> length idom = length (parent_ g1) ->
  (forall x, 0 < x < n -> exists s, semi !! Z.to_nat x = Some s /\ semidominator E s x) ->
  (forall x, 0 < x < v -> exists d, idom !! Z.to_nat x = Some d /\ immediate_dominator E 0 d x) ->
  (forall x, v <= x < n -> idom !! Z.to_nat x = Some (p x)) ->
  exists g' idom', idom_loop todo v g semi idom = Ok (g', idom') /\ dominators_ok n g'.
Proof.
  pose proof (dd_tree _ _ Hd) as ST. revert v g idom. induction todo as [|todo IH]; intros v g idom Hv Hn Hg Hlen Hsemi Hlow Hhigh.
  { exists g, idom. split; [done|]. by replace n with v by lia. }
  cbn [idom_loop]. rewrite (get_ok idom v (p v)) by (apply Hhigh || lia; lia). cbn [mbind result_bind].
  destruct (Hsemi v ltac:(lia)) as (s & Hs & Hsd). destruct (st_parent _ _ _ ST v ltac:(lia)) as [Hpv _].
  destruct (ascend_ok n E p ST (length idom) idom semi v s (p v)) as (d & -> & Himm); try done; [lia|by apply (candidate_parent _ _ _ ST); lia|rewrite Hlen; lia|].
  cbn [mbind result_bind]. rewrite (put_ok idom v (p v)) by (apply Hhigh || lia; lia). cbn [mbind result_bind].
  pose proof (immediate_dominator_lt _ _ _ ST d v ltac:(lia) Himm) as Hdv.
  destruct (pre_some d ltac:(lia)) as [a Ha]. destruct (pre_some v ltac:(lia)) as [b Hb]. rewrite (proj1 (proj2 (do_core _ _ Hg))).
  rewrite (get_ok (preorder_ g1) d a) by (done || lia). cbn [mbind result_bind]. rewrite (get_ok (preorder_ g1) v b) by (done || lia). cbn [mbind result_bind].
  destruct (AddDominatedBlock_ok v g d a b ltac:(lia) Hg Hb ltac:(lia) Ha Himm) as (g' & -> & Hg'). cbn [mbind result_bind].
  apply IH; [lia|lia|done|by rewrite length_insert|done| |].
  - intros x Hx. destruct (decide (x = v)) as [->|Hne]; [exists d; split; [apply at_insert_eq; lia|done]|]. rewrite at_insert_ne by lia. apply Hlow. lia.
  - intros x Hx. rewrite at_insert_ne by lia. apply Hhigh. lia.
Qed.

(** *** Frontiers *)

Definition frontiers_are (S : Z -> Z -> Prop) (df : list BitVector) : Prop :=
  length df = length (parent_ g1) /\
  forall x v, 0 <= x -> df !! Z.to_nat x = Some v -> vec n v /\ forall j, BitSet.has (data_ v) j = true <-> 0 <= j < n /\ S x j.

Lemma frontiers_iff S S' df : frontiers_are S df -> (forall x j, 0 <= x < n -> 0 <= j < n -> S x j <-> S' x j) -> frontiers_are S' df.
Proof.
  intros [Hl H] HS. split; [done|]. intros x v Hx Hv. destruct (H x v Hx Hv) as [H1 H2]. split; [done|]. apply lookup_lt_Some in Hv. intros j. rewrite H2.
  split; intros [Hj ?]; (split; [done|]); apply (HS x j); (done || lia).
Qed.

(** Adding one element. *)
Lemma frontiers_add S df x y : frontiers_are S df -> 0 <= x < n -> 0 <= y < n ->
  exists v v', get df x = Ok v /\ Add v y = Ok v' /\ put df x v' = Ok (<[Z.to_nat x := v']> df) /\ frontiers_are (fun a b => S a b \/ (a = x /\ b = y)) (<[Z.to_nat x := v']> df).
Proof.
  intros [Hl H] Hx Hy. destruct (lookup_lt_is_Some_2 df (Z.to_nat x)) as [v Hv]; [lia|]. destruct (H x v ltac:(lia) Hv) as [Hvec Hhas].
  destruct (Add_vec n v y Hvec Hy) as (v' & Ea & Hvec' & Hhas'). exists v, v'. split_and!; [by apply get_ok; [lia|]|done|by apply (put_ok _ _ v); [lia|]|].
  split; [by rewrite length_insert|]. intros z w Hz Hw. destruct (decide (z = x)) as [->|Hne].
  - rewrite list_lookup_insert_eq in Hw by lia. injection Hw as <-. split; [done|]. intros j. rewrite Hhas', orb_true_iff, Z.eqb_eq, Hhas. naive_solver lia.
  - rewrite list_lookup_insert_ne in Hw by lia. destruct (H z w Hz Hw) as [H1 H2]. split; [done|]. intros j. rewrite H2. naive_solver.
Qed.

(** The dominators of [q] up to the immediate dominator [i] of [y]. *)
Lemma run_up_ok fuel g S df q y i r rb ib : dominators_ok n g -> frontiers_are S df -> 0 < y < n -> immediate_dominator E 0 i y -> pre i = Some ib ->
  0 <= r < n -> pre r = Some rb -> dominates E 0 i r -> dominates E 0 r q -> r < Z.of_nat fuel ->
  exists df', run_up fuel g y (Some ib) (Some rb) df = Ok df' /\
    frontiers_are (fun a b => S a b \/ (b = y /\ dominates E 0 a r /\ ~ dominates E 0 a i)) df'.
Proof.
  intros Hg HS Hy Hi Hib. pose proof (dd_tree _ _ Hd) as ST. pose proof (immediate_dominator_lt _ _ _ ST i y ltac:(lia) Hi) as Hiy.
  revert S df r rb HS. induction fuel as [|fuel IH]; intros S df r rb HS Hr Hrb Hir Hrq Hfuel; [lia|]. cbn [run_up].
  destruct (decide (r = i)) as [->|Hne].
  - rewrite Hib in Hrb. injection Hrb as <-. rewrite bool_decide_eq_true_2 by done. exists df. split; [done|]. eapply frontiers_iff; [exact HS|]. intros; tauto.
  - rewrite bool_decide_eq_false_2 by (intros [= ->]; by apply Hne, (pre_inj _ _ _ Hrb Hib ltac:(lia) ltac:(lia))).
    destruct (core_block g r rb (do_core _ _ Hg) ltac:(lia) Hrb) as (R & HR & Hnum & _). rewrite (block_at_ok _ _ _ HR). cbn [mbind result_bind]. rewrite Hnum.
    destruct (frontiers_add S df r y HS Hr ltac:(lia)) as (v & v' & -> & E2 & E3 & HS'). cbn [mbind result_bind]. rewrite E2. cbn [mbind result_bind]. rewrite E3. cbn [mbind result_bind].
    pose proof (dominates_anc _ _ _ ST i r ltac:(lia) Hir) as Ha. pose proof (anc_le _ _ _ ST _ _ Ha).
    destruct (do_dom _ _ Hg r rb R ltac:(lia) Hrb HR) as (d & db & -> & Hd0 & Hdb & Himm). pose proof (immediate_dominator_lt _ _ _ ST d r ltac:(lia) Himm) as Hdr.
    destruct (IH _ _ d db HS' ltac:(lia) Hdb) as (df' & E4 & HS2).
    { apply (proj2 Himm). split; [congruence|done]. }
    { eapply dominates_trans; [exact (proj2 (proj1 Himm))|exact Hrq]. }
    { lia. }
    exists df'. split; [done|]. eapply frontiers_iff; [exact HS2|]. intros a b Ha' Hb. simpl. rewrite <- (sdominates_idom _ _ _ ST a d r Himm ltac:(lia)).
    unfold sdominates. split.
    + intros [[?|[-> ->]]|(-> & [_ ?] & ?)]; [by left| |right; done]. right. split_and!; [done|apply dominates_refl|].
      intros Hdom. apply (dominates_anc _ _ _ ST) in Hdom; [|lia]. apply (anc_le _ _ _ ST) in Hdom. lia.
    + intros [?|(-> & H1 & H2)]; [left; by left|]. destruct (decide (a = r)) as [->|]; [left; by right|right; by split_and!].
Qed.


Lemma frontier_preds_ok g S df y i ib preds : dominators_ok n g -> frontiers_are S df -> 0 < y < n -> immediate_dominator E 0 i y -> pre i = Some ib ->
  Forall (fun a => exists q, 0 <= q /\ pre q = Some a /\ E q y) preds ->
  exists df', frontier_preds g y (Some ib) preds df = Ok df' /\
    frontiers_are (fun a b => S a b \/ (b = y /\ exists qb q, qb ∈ preds /\ 0 <= q /\ pre q = Some qb /\ dominates E 0 a q /\ ~ dominates E 0 a i)) df'.
Proof.
  intros Hg HS Hy Hi Hib Hp. pose proof (dd_tree _ _ Hd) as ST. revert S df HS. induction Hp as [|qb preds (q & Hq & Hqb & He) Hp IH]; intros S df HS.
  { exists df. split; [done|]. eapply frontiers_iff; [exact HS|]. intros a b _ _. split; [by left|]. intros [?|(_ & qb & q & []%not_elem_of_nil & _)]; done. }
  cbn [frontier_preds]. rewrite (proj1 (proj2 (do_core _ _ Hg))). destruct (st_range _ _ _ ST _ _ He) as [Hqn _].
  destruct (run_up_ok (Datatypes.S (length (preorder_ g1))) g S df q y i q qb ib) as (df1 & -> & HS1); try done.
  { eapply dominates_pred; [exact He|exact (proj1 Hi)]. }
  { apply dominates_refl. }
  { rewrite <- (dd_len _ _ Hd). lia. }
  cbn [mbind result_bind]. destruct (IH _ _ HS1) as (df' & -> & HS2). exists df'. split; [done|]. eapply frontiers_iff; [exact HS2|]. intros a b _ _. simpl. split.
  - intros [[?|(-> & ? & ?)]|(-> & qb' & q' & ? & ?)]; [by left| |]; right; (split; [done|]); [exists qb, q|exists qb', q']; (split; [by (left || right)|done]).
  - intros [?|(-> & qb' & q' & [->|Hin]%elem_of_cons & Hq' & Hqb' & Hdom)]; [left; by left| |right; split; [done|]; by exists qb', q'].
    left; right. by rewrite (pre_inj _ _ _ Hqb Hqb' Hq Hq').
Qed.

Lemma frontier_loop_ok todo y g df : dominators_ok n g -> 0 <= y -> y + Z.of_nat todo = n -> frontiers_are (fun a b => b < y /\ frontier E 0 a b) df ->
  exists df', frontier_loop todo y g df = Ok df' /\ frontiers_are (frontier E 0) df'.
Proof.
  intros Hg. pose proof (dd_tree _ _ Hd) as ST. revert y df. induction todo as [|todo IH]; intros y df Hy0 Hy HS.
  { exists df. split; [done|]. eapply frontiers_iff; [exact HS|]. intros a b _ Hb. simpl. split; [by intros [_ ?]|]. intros; split; [lia|done]. }
  cbn [frontier_loop]. destruct (pre_some y ltac:(lia)) as [b Hb]. rewrite (proj1 (proj2 (do_core _ _ Hg))), (get_ok (preorder_ g1) y b) by (done || lia). cbn [mbind result_bind].
  destruct (core_block g y b (do_core _ _ Hg) ltac:(lia) Hb) as (B & HB & _ & Hpreds & Hnd). rewrite (block_at_ok _ _ _ HB). cbn [mbind result_bind].
  assert (exists df', (if length_of (Predecessors B) <=? 1 then Ok df else frontier_preds g y (dominator_ B) (Predecessors B) df) = Ok df' /\
    frontiers_are (fun a b => b < y + 1 /\ frontier E 0 a b) df') as (df' & -> & HS'); [|cbn [mbind result_bind]; apply IH; (done || lia)].
  assert (forall S', (forall a, 0 <= a < n -> S' a <-> frontier E 0 a y) ->
    forall a c, 0 <= a < n -> 0 <= c < n -> ((c < y /\ frontier E 0 a c) \/ (c = y /\ S' a)) <-> c < y + 1 /\ frontier E 0 a c) as Hstep.
  { intros S' HS' a c Ha Hc. specialize (HS' a Ha). destruct (decide (c = y)) as [->|]; [rewrite HS'|]; intuition lia. }
  unfold length_of. destruct (Z.leb_spec (Z.of_nat (length (Predecessors B))) 1) as [Hone|Htwo].
  - exists df. split; [done|]. eapply frontiers_iff; [exact HS|]. intros a c Ha Hc. rewrite <- (Hstep (fun _ => False)); [tauto| |done|done].
    intros a' _. split; [done|]. intros Hfr. assert (y <> 0) as Hy' by (intros ->; destruct Hfr as (q & _ & He & _); apply (st_range _ _ _ ST) in He; lia).
    eapply (frontier_single _ _ _ ST (p y) y a'); [lia| |exact Hfr]. intros q He. destruct (st_parent _ _ _ ST y ltac:(lia)) as [Hp Hep].
    destruct (st_range _ _ _ ST _ _ He) as [Hq _]. destruct (pre_some q Hq) as [qb Hqb]. destruct (pre_some (p y) ltac:(lia)) as [pb Hpb].
    assert (qb ∈ Predecessors B) as H1 by (apply Hpreds; exists q; split_and!; [lia|done|done]). assert (pb ∈ Predecessors B) as H2 by (apply Hpreds; exists (p y); split_and!; [lia|done|done]).
    destruct (Predecessors B) as [|z [|z' l]]; [by apply not_elem_of_nil in H1| |simpl in Hone; lia]. apply list_elem_of_singleton in H1 as ->, H2 as ->.
    apply (pre_inj _ _ _ Hqb Hpb); lia.
  - assert (y <> 0) as Hy'.
    { intros ->. destruct (Predecessors B) as [|z l]; [simpl in Htwo; lia|]. destruct (proj1 (Hpreds z) ltac:(by left)) as (u & _ & _ & He). apply (st_range _ _ _ ST) in He. lia. }
    destruct (do_dom _ _ Hg y b B ltac:(lia) Hb HB) as (i & ib & -> & Hi0 & Hib & Himm).
    destruct (frontier_preds_ok g _ df y i ib (Predecessors B) Hg HS ltac:(lia) Himm Hib) as (df' & -> & HS'); [apply Forall_forall; intros a Ha; by apply Hpreds|].
    exists df'. split; [done|]. eapply frontiers_iff; [exact HS'|]. intros a c Ha Hc.
    apply (Hstep (fun a => exists qb q, qb ∈ Predecessors B /\ 0 <= q /\ pre q = Some qb /\ dominates E 0 a q /\ ~ dominates E 0 a i)); [|done|done]. intros a' Ha'. unfold frontier.
    split.
    + intros (qb & q & Hin & Hq & Hqb & Hdom & Hnd'). apply Hpreds in Hin as (u & Hu & Hub & He). rewrite (pre_inj _ _ _ Hub Hqb Hu Hq) in He. exists q. split_and!; [apply (root_path _ _ _ ST), (st_range _ _ _ ST _ _ He)|done|done|].
      by rewrite (sdominates_idom _ _ _ ST a' i y Himm ltac:(lia)).
    + intros (q & _ & He & Hdom & Hns). rewrite (sdominates_idom _ _ _ ST a' i y Himm ltac:(lia)) in Hns. destruct (st_range _ _ _ ST _ _ He) as [Hq _]. destruct (pre_some q Hq) as [qb Hqb].
      exists qb, q. split_and!; try done; [|lia]. apply Hpreds. exists q. split_and!; [lia|done|done].
Qed.

Lemma ComputeDominators_numbers : (forall B, blocks g1 !! graph_entry_ g0 = Some B -> dominator_ B = None) ->
  exists g df, ComputeDominators g1 = Ok (g, df) /\ dominators_ok n g /\ frontiers_are (frontier E 0) df.
Proof.
  intros Hentry. pose proof (dd_tree _ _ Hd) as ST. pose proof (st_size _ _ _ ST) as Hn. pose proof (dd_root _ _ Hd) as Hroot. unfold ComputeDominators.
  rewrite (get_ok (preorder_ g1) 0 (graph_entry_ g0)) by done. cbn [mbind result_bind]. assert (same_core g1) as Hc1 by done.
  destruct (core_block g1 0 (graph_entry_ g0) Hc1 ltac:(lia) Hroot) as (B & HB & _). rewrite (modify_ok _ _ _ _ HB). cbn [mbind result_bind]. set (B' := set_dominated_blocks [] B).
  set (g2 := set_blocks _ g1). change (parent_ g2) with (parent_ g1). assert (same_core g2) as Hc2 by (by apply (core_insert g1 (graph_entry_ g0) B B')).
  set (k := (length (parent_ g1) - 1)%nat) in *. assert (Z.of_nat k = n - 1) as Hk by lia.
  assert (pass1 n E p (n - 1) (mkForest (parent_ g1) (Z.of_nat <$> seq 0 (length (parent_ g1))) (Z.of_nat <$> seq 0 (length (parent_ g1))))) as Hp.
  { pose proof (pass1_start n E p ST (parent_ g1) ltac:(by rewrite Nat2Z.id) p_at) as Hs. by rewrite Nat2Z.id in Hs. }
  destruct (semi_loop_ok k g2 _ Hc2 ltac:(lia) ltac:(rewrite Hk; exact Hp)) as (g3 & f & -> & Hc3 & Hp3 & Hcl & Hkeep & Hsame); [intros x b C Hx; lia|]. cbn [mbind result_bind fst snd].
  assert (blocks g3 !! graph_entry_ g0 = Some B') as HB3.
  { rewrite Hsame; [apply list_lookup_insert_eq; by eapply lookup_lt_Some|]. intros x Hx Hb. pose proof (pre_inj x 0 _ Hb Hroot ltac:(lia) ltac:(lia)). lia. }
  destruct (idom_loop_ok k 1 (set_parent (f_parent f) g3) (f_semi f) (parent_ g1)) as (g4 & idom & -> & Hg4); try done; try lia.
  { constructor; [done|intros; lia| |].
    - intros x b C c Hx Hb HC. simpl in HC. assert (dominated_blocks_ C = []) as ->; [|split; [by intros []%not_elem_of_nil|intros (y & Hy & _); lia]].
      destruct (decide (x = 0)) as [->|]; [|apply (Hcl x b C); [lia|done|done]]. change (Z.to_nat 0) with 0%nat in Hb. rewrite Hroot in Hb. injection Hb as <-. rewrite HB3 in HC. by injection HC as <-.
    - intros C HC. simpl in HC. rewrite HB3 in HC. injection HC as <-. exact (Hentry B HB). }
  { intros x Hx. apply (p1_high _ _ _ _ _ Hp3). lia. }
  { intros x Hx. apply p_at. lia. }
  cbn [mbind result_bind fst snd]. destruct (frontier_loop_ok (length (parent_ g1)) 0 g4 (replicate (length (parent_ g1)) (BitVector_new n)) Hg4) as (df & -> & Hdf); try done.
  - split; [by rewrite length_replicate|]. intros x v Hx [-> _]%lookup_replicate. split; [apply vec_new; lia|]. intros j. destruct (BitVector_new_ok n ltac:(lia)) as (_ & _ & ->). intuition lia.
  - cbn [mbind result_bind]. by exists g4, df.
Qed.


(** *** From numbers to blocks *)

Abbreviation entry := (graph_entry_ g0).
Abbreviation D := (dominates (edge g0) entry).

Lemma pre_reach x b : pre x = Some b -> reachable g0 b.
Proof. intros Hb. by eapply (dd_reach _ _ Hd), list_elem_of_lookup_2. Qed.

Lemma reach_pre b : reachable g0 b -> exists x, 0 <= x < n /\ pre x = Some b.
Proof.
  intros Hb. apply (dd_reach _ _ Hd), list_elem_of_lookup in Hb as [x Hx]. exists (Z.of_nat x). rewrite Nat2Z.id. split; [|done].
  apply lookup_lt_Some in Hx. rewrite (dd_len _ _ Hd). lia.
Qed.

Lemma reachable_step a b : reachable g0 a -> edge g0 a b -> reachable g0 b.
Proof. intros [l Hl] He. exists (l ++ [b]). by eapply path_snoc. Qed.

Lemma path_to_blocks u l v a : path E u l v -> pre u = Some a ->
  exists l' b, path (edge g0) a l' b /\ pre v = Some b /\ forall c, c ∈ l' -> exists x, x ∈ l /\ pre x = Some c.
Proof.
  intros Hp. revert a. induction Hp as [u|u w l v Hw Hp IH]; intros a Ha.
  - exists [a], a. split_and!; [constructor|done|]. intros c ->%list_elem_of_singleton. exists u. split; [by left|done].
  - destruct Hw as (a' & b' & _ & _ & Ha' & Hb' & He). rewrite Ha in Ha'. injection Ha' as <-. destruct (IH b' Hb') as (l' & b & Hl' & Hb & Hin).
    exists (a :: l'), b. split_and!; [by econstructor|done|]. intros c [->|Hc]%elem_of_cons; [exists u; split; [by left|done]|]. destruct (Hin c Hc) as (x & Hx & Hxc). exists x. split; [by right|done].
Qed.

Lemma path_to_numbers a l b u : path (edge g0) a l b -> 0 <= u -> pre u = Some a ->
  exists l' v, path E u l' v /\ 0 <= v /\ pre v = Some b /\ forall x, x ∈ l' -> 0 <= x /\ exists c, c ∈ l /\ pre x = Some c.
Proof.
  intros Hp. revert u. induction Hp as [a|a c l b Hc Hp IH]; intros u Hu Ha.
  - exists [u], u. split_and!; [constructor|done|done|]. intros x ->%list_elem_of_singleton. split; [done|]. exists a. split; [by left|done].
  - destruct (reach_pre c (reachable_step _ _ (pre_reach _ _ Ha) Hc)) as (w & Hw & Hwc). destruct (IH w ltac:(lia) Hwc) as (l' & v & Hl' & Hv & Hb & Hin).
    exists (u :: l'), v. split_and!; [econstructor; [|exact Hl']|done|done|].
    + exists a, c. split_and!; (done || lia).
    + intros x [->|Hx]%elem_of_cons; [split; [done|]; exists a; split; [by left|done]|]. destruct (Hin x Hx) as (H0 & d & Hd1 & Hd2). split; [done|]. exists d. split; [by right|done].
Qed.

Lemma dominates_blocks d v a b : 0 <= d -> 0 <= v -> pre d = Some a -> pre v = Some b -> dominates E 0 d v <-> D a b.
Proof.
  intros Hd0 Hv0 Ha Hb. pose proof (dd_root _ _ Hd) as Hroot. split; intros Hdom l Hl.
  - destruct (path_to_numbers _ _ _ 0 Hl ltac:(lia) Hroot) as (l' & v' & Hl' & Hv' & Hb' & Hin). rewrite (pre_inj _ _ _ Hb' Hb Hv' Hv0) in Hl'.
    destruct (Hin d (Hdom l' Hl')) as (_ & c & Hc & Hdc). rewrite Ha in Hdc. by injection Hdc as ->.
  - destruct (path_to_blocks _ _ _ _ Hl Hroot) as (l' & b' & Hl' & Hb' & Hin). rewrite Hb in Hb'. injection Hb' as <-.
    assert (forall x, x ∈ l -> 0 <= x) as Hpos.
    { clear -Hl Hd. pose proof (dd_tree _ _ Hd) as ST. intros x Hx. destruct (path_split _ _ _ _ _ Hl Hx) as (l1 & l2 & H1 & _). pose proof (st_size _ _ _ ST). eapply (path_range _ _ _ ST) in H1; lia. }
    destruct (Hin a (Hdom l' Hl')) as (x & Hx & Hxa). by rewrite (pre_inj _ _ _ Ha Hxa Hd0 (Hpos x Hx)).
Qed.

(** Dominators of reachable blocks are reachable. *)
Lemma dominator_reachable a b : reachable g0 b -> D a b -> reachable g0 a.
Proof. intros [l Hl] Hdom. destruct (path_split _ _ _ _ _ Hl (Hdom l Hl)) as (l1 & l2 & H1 & _). by exists l1. Qed.

Lemma sdominates_blocks d v a b : 0 <= d -> 0 <= v -> pre d = Some a -> pre v = Some b -> sdominates E 0 d v <-> sdominates (edge g0) entry a b.
Proof.
  intros Hd0 Hv0 Ha Hb. unfold sdominates. rewrite (dominates_blocks d v a b) by done. split; intros [Hne Hdom]; (split; [|done]).
  - intros ->. by apply Hne, (pre_inj _ _ _ Ha Hb).
  - intros ->. by rewrite Ha in Hb; simplify_eq.
Qed.

Lemma immediate_blocks d v a b : 0 <= d -> 0 <= v -> pre d = Some a -> pre v = Some b -> immediate_dominator E 0 d v <-> immediate_dominator (edge g0) entry a b.
Proof.
  intros Hd0 Hv0 Ha Hb. unfold immediate_dominator. rewrite (sdominates_blocks d v a b) by done. split; intros [Hs Hall]; (split; [done|]).
  - intros c Hc. destruct (reach_pre c (dominator_reachable c b (pre_reach _ _ Hb) (proj2 Hc))) as (x & Hx & Hxc).
    apply (dominates_blocks x d c a); [lia|done|done|done|]. apply Hall. by apply (sdominates_blocks x v c b); [lia|..].
  - intros x Hx. pose proof (dd_tree _ _ Hd) as ST. assert (0 <= v < n) as Hvn. { apply lookup_lt_Some in Hb. rewrite (dd_len _ _ Hd). lia. }
    pose proof (dominates_anc _ _ _ ST x v Hvn (proj2 Hx)) as Hanc. pose proof (anc_pos _ _ _ ST _ _ Hanc ltac:(lia)). pose proof (anc_le _ _ _ ST _ _ Hanc).
    destruct (pre_some x ltac:(lia)) as [c Hc]. apply (dominates_blocks x d c a); [lia|done|done|done|]. apply Hall. by apply (sdominates_blocks x v c b).
Qed.


Lemma frontier_blocks d v a b : 0 <= d -> 0 <= v -> pre d = Some a -> pre v = Some b -> frontier E 0 d v <-> frontier (edge g0) entry a b.
Proof.
  intros Hd0 Hv0 Ha Hb. pose proof (dd_tree _ _ Hd) as ST. unfold frontier. split.
  - intros (q & _ & He & Hdom & Hns). destruct (st_range _ _ _ ST _ _ He) as [Hq _]. destruct He as (c & b' & _ & _ & Hc & Hb' & He). rewrite Hb in Hb'. injection Hb' as <-.
    exists c. split_and!; [exact (pre_reach _ _ Hc)|done|apply (dominates_blocks d q a c); (done || lia)|]. by rewrite <- (sdominates_blocks d v a b).
  - intros (c & Hr & He & Hdom & Hns). destruct (reach_pre c Hr) as (q & Hq & Hqc). exists q. split_and!; [by apply (root_path _ _ _ ST)| | |].
    + exists c, b. split_and!; (done || lia).
    + apply (dominates_blocks d q a c); (done || lia).
    + by rewrite (sdominates_blocks d v a b).
Qed.

(** *** Dominates *)

Lemma preorder_length : (length (preorder_ g1) <= length (blocks g1))%nat.
Proof.
  rewrite <- (length_seq (length (blocks g1)) 0). apply submseteq_length, NoDup_submseteq; [apply Hd|]. intros b [i Hi]%list_elem_of_lookup.
  destruct (dd_num _ _ Hd i b Hi) as (B & HB & _). apply elem_of_seq. apply lookup_lt_Some in HB. lia.
Qed.

Lemma Dominates_loop_ok fuel g this x b : dominators_ok n g -> 0 <= x < n -> pre x = Some b -> x + 1 < Z.of_nat fuel ->
  exists r, Dominates_loop fuel g this (Some b) = Ok r /\ (r = true <-> D this b).
Proof.
  intros Hg. pose proof (dd_tree _ _ Hd) as ST. revert x b. induction fuel as [|fuel IH]; intros x b Hx Hb Hfuel; [lia|]. cbn [Dominates_loop].
  destruct (Nat.eqb_spec b this) as [->|Hne]; [exists true; split; [done|]; split; [intros _; apply dominates_refl|done]|].
  destruct (core_block g x b (do_core _ _ Hg) ltac:(lia) Hb) as (B & HB & _). rewrite (block_at_ok _ _ _ HB). cbn [mbind result_bind]. destruct (decide (x = 0)) as [->|Hx0].
  - pose proof (dd_root _ _ Hd) as Hroot. change (Z.to_nat 0) with 0%nat in Hb. rewrite Hroot in Hb. injection Hb as <-. rewrite (do_entry _ _ Hg B HB).
    destruct fuel as [|fuel]; [lia|]. exists false. split; [done|]. split; [done|]. intros Hdom. specialize (Hdom [entry] (path_one _ _)). apply list_elem_of_singleton in Hdom. congruence.
  - destruct (do_dom _ _ Hg x b B ltac:(lia) Hb HB) as (d & a & -> & Hd0 & Ha & Himm). pose proof (immediate_dominator_lt _ _ _ ST d x ltac:(lia) Himm) as Hdx.
    destruct (IH d a ltac:(lia) Ha ltac:(lia)) as (r & E1 & Hr). exists r. split; [done|]. rewrite Hr. apply (immediate_blocks d x a b) in Himm as [[_ Hab] Hall]; [|lia|lia|done|done].
    split; [intros Hdom; by eapply dominates_trans|]. intros Hdom. apply Hall. split; [congruence|done].
Qed.


End graph.


(** ** The theorems *)

(** The graph entry has no dominator; no pass gives it one. *)
Definition entry_free (g : FlowGraph) : Prop := forall B, blocks g !! graph_entry_ g = Some B -> dominator_ B = None.

Lemma entry_free_discovered g0 g1 : entry_free g0 -> discovered g0 g1 -> forall B, blocks g1 !! graph_entry_ g0 = Some B -> dominator_ B = None.
Proof.
  intros Hf Hd B HB. pose proof (dd_kept _ _ Hd) as Hk. assert ((kept <$> blocks g0) !! graph_entry_ g0 = Some (kept B)) as H by (by rewrite <- Hk, list_lookup_fmap, HB).
  rewrite list_lookup_fmap in H. apply fmap_Some in H as (B0 & HB0 & EB). injection EB as -> _ _ _. by apply Hf.
Qed.

(** Both passes in a row. *)
Lemma passes_ok g0 g1 : graph_wf g0 -> entry_free g0 -> DiscoverBlocks g0 = Ok g1 ->
  discovered g0 g1 /\ exists g df, ComputeDominators g1 = Ok (g, df) /\ dominators_ok g0 g1 (Z.of_nat (length (parent_ g1))) g /\ frontiers_are g1 (frontier (number_edge g0 g1) 0) df.
Proof.
  intros WF Hf E1. destruct (DiscoverBlocks_ok g0 WF) as (g' & E2 & Hd). rewrite E1 in E2. injection E2 as <-. split; [done|].
  by apply ComputeDominators_numbers, entry_free_discovered.
Qed.

(** C1: After [DiscoverBlocks], [ComputeDominators] returns without a failed assertion,
    and each reachable block but the graph entry has its immediate dominator: one that
    is on every path from the entry, with all others on every path to it.  The blocks
    that a block immediately dominates are listed in it, and [Dominates] answers
    exactly whether a block is on every path to another. *)
Theorem ComputeDominators_exact g0 g1 : graph_wf g0 -> entry_free g0 -> DiscoverBlocks g0 = Ok g1 ->
  exists g df, ComputeDominators g1 = Ok (g, df) /\
    (forall b B, reachable g0 b -> blocks g !! b = Some B ->
      match dominator_ B with None => b = graph_entry_ g0 | Some d => immediate_dominator (edge g0) (graph_entry_ g0) d b end) /\
    (forall b B c, reachable g0 b -> blocks g !! b = Some B ->
      c ∈ dominated_blocks_ B <-> reachable g0 c /\ immediate_dominator (edge g0) (graph_entry_ g0) b c) /\
    (forall this b, reachable g0 b ->
      exists r, Dominates g this (Some b) = Ok r /\ (r = true <-> dominates (edge g0) (graph_entry_ g0) this b)).
Proof.
  intros WF Hf E1. destruct (passes_ok g0 g1 WF Hf E1) as (Hd & g & df & E2 & Hg & _). exists g, df. split; [done|]. pose proof (dd_tree _ _ Hd) as ST. split_and!.
  - intros b B Hb HB. destruct (reach_pre _ _ Hd b Hb) as (x & Hx & Hxb). destruct (decide (x = 0)) as [->|Hx0].
    + pose proof (dd_root _ _ Hd) as Hroot. change (Z.to_nat 0) with 0%nat in Hxb. rewrite Hroot in Hxb. injection Hxb as <-. by rewrite (do_entry _ _ _ _ Hg B HB).
    + destruct (do_dom _ _ _ _ Hg x b B ltac:(lia) Hxb HB) as (d & a & -> & Hd0 & Ha & Himm). apply (immediate_blocks _ _ Hd d x a b); (done || lia).
  - intros b B c Hb HB. destruct (reach_pre _ _ Hd b Hb) as (x & Hx & Hxb). rewrite (do_children _ _ _ _ Hg x b B c) by done. split.
    + intros (y & Hy & Hyc & Himm). split; [by eapply pre_reach|]. apply (immediate_blocks _ _ Hd x y b c); (done || lia).
    + intros [Hc Himm]. destruct (reach_pre _ _ Hd c Hc) as (y & Hy & Hyc). exists y. apply (immediate_blocks _ _ Hd x y b c) in Himm; [|lia|lia|done|done].
      pose proof (immediate_dominator_lt _ _ _ ST x y ltac:(lia) Himm). split_and!; (done || lia).
  - intros this b Hb. destruct (reach_pre _ _ Hd b Hb) as (x & Hx & Hxb). eapply Dominates_loop_ok; try done.
    pose proof (preorder_length _ _ Hd) as Hl. rewrite <- (dd_len _ _ Hd) in Hl. pose proof (f_equal length (proj1 (do_core _ _ _ _ Hg))) as Hlen. rewrite !length_fmap in Hlen. lia.
Qed.

(** C7: Block [b] is in the frontier that [ComputeDominators] returns for block [a]
    exactly when [a] dominates a reachable predecessor of [b] but does not strictly
    dominate [b]. *)
Theorem dominance_frontier_exact g0 g1 g df a b A B : graph_wf g0 -> entry_free g0 -> DiscoverBlocks g0 = Ok g1 -> ComputeDominators g1 = Ok (g, df) ->
  reachable g0 a -> reachable g0 b -> blocks g !! a = Some A -> blocks g !! b = Some B ->
  exists v c, get df (preorder_number_ A) = Ok v /\ Contains v (preorder_number_ B) = Ok c /\ (c = true <-> frontier (edge g0) (graph_entry_ g0) a b).
Proof.
  intros WF Hf E1 E2 Ha Hb HA HB. destruct (passes_ok g0 g1 WF Hf E1) as (Hd & g' & df' & E2' & Hg & [Hlen Hdf]). rewrite E2 in E2'. injection E2' as <- <-.
  destruct (reach_pre _ _ Hd a Ha) as (x & Hx & Hxa). destruct (reach_pre _ _ Hd b Hb) as (y & Hy & Hyb).
  destruct (core_block _ _ Hd g x a (do_core _ _ _ _ Hg) ltac:(lia) Hxa) as (A' & HA' & Nx & _). rewrite HA in HA'. injection HA' as <-.
  destruct (core_block _ _ Hd g y b (do_core _ _ _ _ Hg) ltac:(lia) Hyb) as (B' & HB' & Ny & _). rewrite HB in HB'. injection HB' as <-. rewrite Nx, Ny.
  destruct (lookup_lt_is_Some_2 df (Z.to_nat x)) as [v Hv]; [lia|]. destruct (Hdf x v ltac:(lia) Hv) as [Hvec Hhas].
  exists v, (BitSet.has (data_ v) y). split_and!; [by apply get_ok; [lia|]|by eapply Contains_vec|]. rewrite Hhas, (frontier_blocks _ _ Hd x y a b) by (done || lia). tauto.
Qed.


End props.

(** ** An example *)

#[local] Existing Instance T64.

Definition unwrap {A} (d : A) (r : M A) : A := match r with Ok a => a | Err _ => d end.

Definition demo1 : FlowGraph := unwrap demo (DiscoverBlocks demo).
Definition demo2 : FlowGraph * list BitVector := unwrap (demo1, []) (ComputeDominators demo1).
Definition demo_at (b : nat) : BlockEntry := match blocks (fst demo2) !! b with Some B => B | None => demo_block GraphEntry 0 [] end.

Lemma demo_entry_free : entry_free demo.
Proof. intros B [= <-]. reflexivity. Qed.

Ltac demo_edge := unfold edge; apply (bool_decide_unpack _); vm_compute; exact I.

Ltac demo_path :=
  repeat match goal with
  | |- path _ _ [_] _ => apply path_one
  | |- path _ ?a (_ :: ?b :: _) _ => apply (path_cons _ a b); [demo_edge|]
  end.

Lemma demo_reach3 : reachable demo 3.
Proof. exists [0; 1; 2; 3]%nat. demo_path. Qed.

Lemma demo_reach5 : reachable demo 5.
Proof. destruct demo_reach3 as [l Hl]. exists (l ++ [5%nat]). eapply path_snoc; [exact Hl|demo_edge]. Qed.

Lemma ComputeDominators_exact_witness : exists g df, ComputeDominators demo1 = Ok (g, df) /\
  exists r, Dominates g 2 (Some 5%nat) = Ok r /\ (r = true <-> dominates (edge demo) 0%nat 2%nat 5%nat).
Proof.
  destruct (ComputeDominators_exact demo demo1) as (g & df & E & _ & _ & H); [apply demo_wf|apply demo_entry_free|vm_compute; reflexivity|].
  exists g, df. split; [exact E|]. apply H, demo_reach5.
Defined.

(** The join after the branch is in the frontier of one of its arms. *)
Lemma dominance_frontier_exact_witness : frontier (edge demo) 0%nat 3%nat 5%nat.
Proof.
  destruct (dominance_frontier_exact demo demo1 (fst demo2) (snd demo2) 3 5 (demo_at 3) (demo_at 5)) as (v & c & Ev & Ec & Hc);
    [apply demo_wf|apply demo_entry_free|vm_compute; reflexivity|vm_compute; reflexivity|apply demo_reach3|apply demo_reach5|vm_compute; reflexivity|vm_compute; reflexivity|].
  apply Hc. vm_compute in Ev. injection Ev as <-. vm_compute in Ec. injection Ec as <-. reflexivity.
Defined.

End DominatorProps.
