(* ===== verification/PhiProps.v ===== *)
(** * InsertPhis places phis on iterated dominance frontiers

    The worklist algorithm over any relation between block numbers that the bit
    vectors it is given hold; then, with the frontiers of [ComputeDominators], the
    theorem on the flow graph. *)

From stdpp Require Import base numbers list sets.
From Stdlib Require Import ZArith Lia Sorted.
From S2P Require Import Prelude Utils HeapMemory BitSet BitVector FlowGraph Dominators Discover DominatorProps.

Local Open Scope Z_scope.

Module PhiProps.
Import BitVector FlowGraph Dominators Discover DominatorProps.

(** The iterated frontier of a set of nodes. *)
Inductive iterated {A} (F : A -> A -> Prop) (defs : A -> Prop) : A -> Prop :=
| it_def a b : defs a -> F a b -> iterated F defs b
| it_phi a b : iterated F defs a -> F a b -> iterated F defs b.

Section props.
Context {T : Target}.

Section phis.
Context (gb : FlowGraph) (vc : Z) (always : Z -> bool).
Abbreviation n := (Z.of_nat (length (preorder_ gb))).
Abbreviation pre x := (preorder_ gb !! Z.to_nat x).
Abbreviation at_ l x := (l !! Z.to_nat x).

Hypothesis Hnodup : NoDup (preorder_ gb).
Hypothesis Hnum : forall i b, preorder_ gb !! i = Some b -> exists B, blocks gb !! b = Some B /\ preorder_number_ B = Z.of_nat i.

(** What [InsertPhis] leaves alone. *)
Definition bones (B : BlockEntry) := (shape B, preorder_number_ B, postorder_number_ B, predecessors_ B, dominator_ B, dominated_blocks_ B, loop_info_ B).

Definition same_bones (g : FlowGraph) : Prop := bones <$> blocks g = bones <$> blocks gb /\ preorder_ g = preorder_ gb /\ graph_entry_ g = graph_entry_ gb.

Definition phi_at (B : BlockEntry) (u : Z) : option PhiInstr :=
  match phis_ B with None => None | Some l => match at_ l u with Some (Some p) => Some p | _ => None end end.

(** The phis in memory: [placed u x] for variable [u] at the block of number [x]. *)
Record phis_ok (placed : Z -> Z -> Prop) (g : FlowGraph) : Prop := {
  ph_bones : same_bones g;
  ph_len x b B l : 0 <= x -> pre x = Some b -> blocks g !! b = Some B -> phis_ B = Some l -> length l = Z.to_nat vc;
  ph_at x b B u phi : 0 <= x -> pre x = Some b -> blocks g !! b = Some B -> 0 <= u < vc ->
    phi_at B u = Some phi <-> placed u x /\ phi = mkPhi (length_of (Predecessors B)) (always u)
}.

Lemma phi_block g x b : same_bones g -> 0 <= x -> pre x = Some b -> exists B, blocks g !! b = Some B /\ preorder_number_ B = x.
Proof.
  intros (Hb & _) Hx Hxb. destruct (Hnum _ _ Hxb) as (B0 & HB0 & N0). assert ((bones <$> blocks g) !! b = Some (bones B0)) as H by (by rewrite Hb, list_lookup_fmap, HB0).
  rewrite list_lookup_fmap in H. apply fmap_Some in H as (B & HB & EB). exists B. split; [done|]. injection EB as _ _ _ N _ _ _ _ _. lia.
Qed.

Lemma pre_number x y b : pre x = Some b -> pre y = Some b -> 0 <= x -> 0 <= y -> x = y.
Proof. intros H1 H2 Hx Hy. pose proof (NoDup_lookup _ _ _ _ Hnodup H1 H2). lia. Qed.

Lemma pre_exists x : 0 <= x < n -> exists b, pre x = Some b.
Proof. intros Hx. destruct (lookup_lt_is_Some_2 (preorder_ gb) (Z.to_nat x)) as [b Hb]; [lia|by exists b]. Qed.

Lemma phi_at_insert B l u w q : 0 <= u < vc -> 0 <= w < vc -> length l = Z.to_nat vc ->
  phi_at (set_phis (Some (<[Z.to_nat u := Some q]> l)) B) w = if decide (w = u) then Some q else match at_ l w with Some (Some p) => Some p | _ => None end.
Proof.
  intros Hu Hw Hl. unfold phi_at. simpl. destruct (decide (w = u)) as [->|Hne]; [by rewrite list_lookup_insert_eq by lia|]. by rewrite list_lookup_insert_ne by lia.
Qed.

(** A new phi, marked when it is always live. *)
Definition add_phi (g : FlowGraph) (b : nat) (u : Z) : M FlowGraph :=
  g ← JoinEntry_InsertPhi g b u vc; if always u then mark_alive g b u else Ok g.

Lemma add_phi_ok placed g x b u : phis_ok placed g -> 0 <= x -> pre x = Some b -> 0 <= u < vc -> ~ placed u x ->
  exists g', add_phi g b u = Ok g' /\ phis_ok (fun w y => placed w y \/ (w = u /\ y = x)) g'.
Proof.
  intros Hg Hx Hb Hu Hnew. destruct (phi_block g x b (ph_bones _ _ Hg) Hx Hb) as (B & HB & _). pose proof (lookup_lt_Some _ _ _ HB) as Hlt.
  set (l := match phis_ B with None => replicate (Z.to_nat vc) None | Some l => l end).
  assert (length l = Z.to_nat vc) as Hl by (unfold l; destruct (phis_ B) eqn:Ep; [by eapply (ph_len _ _ Hg x b B)|apply length_replicate]).
  assert (forall w, 0 <= w < vc -> phi_at B w = match at_ l w with Some (Some q) => Some q | _ => None end) as Hat.
  { intros w Hw. unfold phi_at, l. destruct (phis_ B); [done|]. by rewrite lookup_replicate_2 by lia. }
  destruct (lookup_lt_is_Some_2 l (Z.to_nat u)) as [old Hold]; [lia|]. assert (old = None) as ->.
  { pose proof (Hat u Hu) as Hp. rewrite Hold in Hp. destruct old as [q|]; [|done]. by apply (ph_at _ _ Hg x b B u q) in Hp as [? _]. }
  set (q := mkPhi (length_of (Predecessors B)) (always u)). set (B' := set_phis (Some (<[Z.to_nat u := Some q]> l)) B).
  exists (set_blocks (<[b := B']> (blocks g)) g). split.
  - unfold add_phi, JoinEntry_InsertPhi. rewrite (block_at_ok _ _ _ HB). cbn [mbind result_bind]. fold l. rewrite (get_ok l u None) by (done || lia). cbn [mbind result_bind].
    rewrite bool_decide_eq_true_2 by done. cbn [mbind result_bind check]. rewrite (put_ok l u None) by (done || lia). cbn [mbind result_bind]. rewrite (modify_ok _ _ _ _ HB). cbn [mbind result_bind].
    unfold B', q. destruct (always u); [|done]. set (q0 := mkPhi _ false). unfold mark_alive. rewrite (block_at_ok _ b (set_phis (Some (<[Z.to_nat u := Some q0]> l)) B)) by (simpl; by apply list_lookup_insert_eq).
    cbn [mbind result_bind phis_ set_phis]. rewrite (get_ok _ u (Some q0)) by (lia || (apply list_lookup_insert_eq; lia)). cbn [mbind result_bind].
    rewrite (put_ok _ u (Some q0)) by (lia || (apply list_lookup_insert_eq; lia)). cbn [mbind result_bind].
    rewrite (modify_ok _ b (set_phis (Some (<[Z.to_nat u := Some q0]> l)) B)) by (simpl; by apply list_lookup_insert_eq). simpl. by rewrite !list_insert_insert_eq.
  - destruct Hg as [Hbones Hlen Hph]. assert (same_bones (set_blocks (<[b := B']> (blocks g)) g)) as Hb'.
    { destruct Hbones as (H1 & H2 & H3). split_and!; try done. simpl. by rewrite (fmap_insert_same bones _ _ B). }
    constructor; [done|..]; simpl.
    + intros y c C l' Hy Hc HC Hl'. destruct (decide (c = b)) as [->|Hne]; [|rewrite list_lookup_insert_ne in HC by done; by apply (Hlen y c C)].
      rewrite list_lookup_insert_eq in HC by done. injection HC as <-. injection Hl' as <-. by rewrite length_insert.
    + intros y c C w phi Hy Hc HC Hw. destruct (decide (c = b)) as [->|Hne].
      * rewrite list_lookup_insert_eq in HC by done. injection HC as <-. rewrite (pre_number _ _ _ Hc Hb Hy Hx) in *.
        unfold B'. rewrite phi_at_insert by done. rewrite <- Hat by done. pose proof (Hph x b B w phi Hx Hb HB Hw) as Hp.
        change (Predecessors (set_phis (Some (<[Z.to_nat u:=Some q]> l)) B)) with (Predecessors B). destruct (decide (w = u)) as [->|Hwu]; [|rewrite Hp; naive_solver].
        unfold q. split; [intros [= <-]; naive_solver|]. by intros [_ ->].
      * rewrite list_lookup_insert_ne in HC by done. rewrite (Hph y c C w phi Hy Hc HC Hw). assert (y <> x) by congruence. naive_solver.
Qed.

Lemma phis_ok_iff placed placed' g : phis_ok placed g -> (forall u x, 0 <= u < vc -> 0 <= x < n -> placed u x <-> placed' u x) -> phis_ok placed' g.
Proof.
  intros [H1 H2 H3] Hiff. constructor; [done|done|]. intros x b B u phi Hx Hb HB Hu. pose proof (lookup_lt_Some _ _ _ Hb). rewrite (H3 x b B u phi Hx Hb HB Hu), (Hiff u x) by lia. done.
Qed.

(** ** The worklist *)

Context (F : Z -> Z -> Prop) (defs : Z -> Z -> Prop) (df assigned : list BitVector).
Hypothesis Hdf_len : length df = length (preorder_ gb).
Hypothesis Hdf : forall x v, 0 <= x -> at_ df x = Some v -> vec n v /\ forall j, BitSet.has (data_ v) j = true <-> 0 <= j < n /\ F x j.
Hypothesis Has_len : length assigned = length (preorder_ gb).
Hypothesis Has : forall x a, 0 <= x -> at_ assigned x = Some a -> vec vc a /\ forall u, 0 <= u < vc -> BitSet.has (data_ a) u = true <-> defs u x.
Hypothesis Hjoin : forall x y b B, F x y -> 0 <= x < n -> 0 <= y -> pre y = Some b -> blocks gb !! b = Some B -> IsJoinEntry B = true.

Definition unworked (v : Z) (work : list Z) : nat := length (filter (fun k => k <> v) work).

Lemma unworked_insert v (work : list Z) x k : 0 <= x -> at_ work x = Some k -> k <> v -> unworked v work = S (unworked v (<[Z.to_nat x := v]> work)).
Proof.
  intros Hx Hk Hne. unfold unworked. rewrite <- (take_drop_middle work (Z.to_nat x) k Hk) at 1. rewrite insert_take_drop by (by eapply lookup_lt_Some).
  rewrite !filter_app, !filter_cons, decide_True, decide_False, !length_app by (done || tauto). simpl. lia.
Qed.

(** The state between two blocks of the worklist, for variable [v]; of block [busy] the
    frontier is being visited. *)
Record var_ok (v : Z) (busy : nat -> Prop) (s : PhiState) : Prop := {
  vo_phis : phis_ok (fun u x => (u < v /\ iterated F (defs u) x) \/ (u = v /\ at_ (ps_has_already s) x = Some v)) (ps_graph s);
  vo_hlen : length (ps_has_already s) = length (preorder_ gb);
  vo_wlen : length (ps_work s) = length (preorder_ gb);
  vo_h x k : at_ (ps_has_already s) x = Some k -> k <= v;
  vo_w x k : at_ (ps_work s) x = Some k -> k <= v;
  vo_hw x : at_ (ps_has_already s) x = Some v -> at_ (ps_work s) x = Some v;
  vo_h_sound x : 0 <= x < n -> at_ (ps_has_already s) x = Some v -> iterated F (defs v) x;
  vo_w_sound x : 0 <= x < n -> at_ (ps_work s) x = Some v -> defs v x \/ iterated F (defs v) x;
  vo_wl b : b ∈ ps_worklist s -> exists x, 0 <= x < n /\ pre x = Some b /\ at_ (ps_work s) x = Some v;
  vo_done x b y : 0 <= x < n -> pre x = Some b -> at_ (ps_work s) x = Some v -> ~ (b ∈ ps_worklist s) -> ~ busy b -> 0 <= y < n -> F x y -> at_ (ps_has_already s) y = Some v;
  vo_live b u : (b, u) ∈ ps_live_phis s <->
    always u = true /\ 0 <= u < vc /\ exists x, 0 <= x < n /\ pre x = Some b /\ ((u < v /\ iterated F (defs u) x) \/ (u = v /\ at_ (ps_has_already s) x = Some v))
}.

Definition measure (v : Z) (s : PhiState) : nat := (unworked v (ps_work s) + length (ps_worklist s))%nat.

Lemma at_list (l : list Z) x : length l = length (preorder_ gb) -> 0 <= x < n -> exists k, at_ l x = Some k.
Proof. intros Hl Hx. destruct (lookup_lt_is_Some_2 l (Z.to_nat x)) as [k Hk]; [lia|by exists k]. Qed.

Lemma at_put (l : list Z) x y v : 0 <= x < Z.of_nat (length l) -> 0 <= y -> at_ (<[Z.to_nat x := v]> l) y = Some v <-> at_ l y = Some v \/ y = x.
Proof.
  intros Hx Hy. destruct (decide (y = x)) as [->|Hne]; [rewrite list_lookup_insert_eq by lia; tauto|]. rewrite list_lookup_insert_ne by lia. tauto.
Qed.

(** One block [b] of a frontier, with number [y], gets a phi for [v]. *)
Record phi_added (v : Z) (s : PhiState) (y : Z) (b : nat) (w : Z) (s' : PhiState) : Prop := {
  pa_phis : phis_ok (fun u z => ((u < v /\ iterated F (defs u) z) \/ (u = v /\ at_ (ps_has_already s) z = Some v)) \/ (u = v /\ z = y)) (ps_graph s');
  pa_has : ps_has_already s' = <[Z.to_nat y := v]> (ps_has_already s);
  pa_wlen : length (ps_work s') = length (ps_work s);
  pa_work z : 0 <= z -> at_ (ps_work s') z = Some v <-> at_ (ps_work s) z = Some v \/ z = y;
  pa_wle z k : at_ (ps_work s') z = Some k -> k <= v;
  pa_wl c : c ∈ ps_worklist s' <-> c ∈ ps_worklist s \/ (w < v /\ c = b);
  pa_measure : measure v s' = measure v s;
  pa_live : ps_live_phis s' = if always v then ps_live_phis s ++ [(b, v)] else ps_live_phis s
}.

(** What the code does when there is none yet. *)
Lemma frontier_phi_run v busy s x y h w : 0 <= v < vc -> var_ok v busy s -> 0 <= x < n -> 0 <= y < n -> F x y ->
  at_ (ps_has_already s) y = Some h -> h < v -> at_ (ps_work s) y = Some w ->
  exists b s', pre y = Some b /\ frontier_phis vc v (always v) [y] s = Ok s' /\ phi_added v s y b w s'.
Proof.
  intros Hv Hs Hx Hy HF Hh Hlt Hw. destruct (pre_exists y Hy) as [b Hb]. exists b. cbn [frontier_phis].
  rewrite (get_ok (ps_has_already s) y h) by (done || lia). cbn [mbind result_bind]. pose proof (vo_w _ _ _ Hs y w Hw) as Hwv. rewrite (proj2 (Z.ltb_lt h v) Hlt).
  pose proof (ph_bones _ _ (vo_phis _ _ _ Hs)) as (Hbones & Hpre & Hent). rewrite Hpre, (get_ok (preorder_ gb) y b) by (done || lia). cbn [mbind result_bind].
  destruct (phi_block (ps_graph s) y b (ph_bones _ _ (vo_phis _ _ _ Hs)) ltac:(lia) Hb) as (B & HB & _). rewrite (block_at_ok _ _ _ HB). cbn [mbind result_bind].
  assert (IsJoinEntry B = true) as ->.
  { destruct (Hnum _ _ Hb) as (B0 & HB0 & _). assert ((bones <$> blocks (ps_graph s)) !! b = Some (bones B)) as Hbb by (by rewrite list_lookup_fmap, HB).
    rewrite Hbones, list_lookup_fmap, HB0 in Hbb. injection Hbb as Hk _ _ _ _ _ _ _ _. rewrite <- (Hjoin x y b B0) by (done || lia). unfold IsJoinEntry. by rewrite Hk. }
  cbn [mbind result_bind check]. destruct (add_phi_ok _ (ps_graph s) y b v (vo_phis _ _ _ Hs) ltac:(lia) Hb Hv) as (g' & Eadd & Hphis); [rewrite Hh; intros [[? _]|[_ [= ->]]]; lia|].
  unfold add_phi in Eadd. apply bind_ok in Eadd as (g1 & -> & Eadd). cbn [mbind result_bind].
  set (live' := if always v then ps_live_phis s ++ [(b, v)] else ps_live_phis s).
  assert ((if always v then g ← mark_alive g1 b v; Ok (g, ps_live_phis s ++ [(b, v)]) else Ok (g1, ps_live_phis s)) = Ok (E := bv_error) (g', live')) as ->.
  { unfold live'. destruct (always v); [by rewrite Eadd|by injection Eadd as ->]. }
  cbn [mbind result_bind fst snd]. rewrite (put_ok (ps_has_already s) y h) by (done || lia). cbn [mbind result_bind]. rewrite (get_ok (ps_work s) y w) by (done || lia). cbn [mbind result_bind].
  destruct (Z.ltb_spec w v) as [Hwlt|Hwge].
  - rewrite (put_ok (ps_work s) y w) by (done || lia). cbn [mbind result_bind]. eexists. split_and!; [done|done|]. constructor; simpl; try done.
    + by rewrite length_insert.
    + intros z Hz. apply at_put; [rewrite (vo_wlen _ _ _ Hs)|]; lia.
    + intros z k Hk. apply list_lookup_insert_Some in Hk as [(_ & <- & _)|[_ Hk]]; [lia|by eapply (vo_w _ _ _ Hs z)].
    + intros c. rewrite elem_of_cons. naive_solver.
    + unfold measure. simpl. rewrite (unworked_insert v (ps_work s) y w) by (done || lia). simpl. lia.
  - assert (w = v) as -> by lia. eexists. split_and!; [done|done|]. constructor; simpl; try done.
    + intros z Hz. split; [by left|]. by intros [?| ->].
    + apply Hs.
    + intros c. naive_solver lia.
Qed.

Lemma phi_added_has v busy s y b w s' : var_ok v busy s -> 0 <= y < n -> phi_added v s y b w s' ->
  forall z, 0 <= z -> at_ (ps_has_already s') z = Some v <-> at_ (ps_has_already s) z = Some v \/ z = y.
Proof. intros Hs Hy Ha z Hz. rewrite (pa_has _ _ _ _ _ _ Ha). apply at_put; [rewrite (vo_hlen _ _ _ Hs)|]; lia. Qed.

Lemma phi_added_live v busy s y b w s' : 0 <= v < vc -> var_ok v busy s -> 0 <= y < n -> pre y = Some b -> phi_added v s y b w s' -> forall c u,
  (c, u) ∈ ps_live_phis s' <-> always u = true /\ 0 <= u < vc /\ exists z, 0 <= z < n /\ pre z = Some c /\ ((u < v /\ iterated F (defs u) z) \/ (u = v /\ at_ (ps_has_already s') z = Some v)).
Proof.
  intros Hv Hs Hy Hb Ha c u. pose proof (phi_added_has _ _ _ _ _ _ _ Hs Hy Ha) as Hhas.
  assert ((exists z, 0 <= z < n /\ pre z = Some c /\ (u < v /\ iterated F (defs u) z \/ u = v /\ at_ (ps_has_already s') z = Some v)) <->
    (exists z, 0 <= z < n /\ pre z = Some c /\ (u < v /\ iterated F (defs u) z \/ u = v /\ at_ (ps_has_already s) z = Some v)) \/ (u = v /\ c = b)) as ->.
  { split.
    - intros (z & Hz & Hzc & [?|[-> [Hzh| ->]%Hhas]]); [left; exists z; naive_solver|left; exists z; naive_solver|right; split; [done|congruence]|lia].
    - intros [(z & Hz & Hzc & Hcase)|[-> ->]]; [|exists y; split_and!; try done; try lia; right; split; [done|]; apply Hhas; [lia|by right]].
      exists z. split_and!; try done; try lia. destruct Hcase as [?|[? ?]]; [by left|right]. split; [done|]. apply Hhas; [lia|by left]. }
  rewrite (pa_live _ _ _ _ _ _ Ha). destruct (always v) eqn:Ea.
  - rewrite elem_of_app, list_elem_of_singleton, (vo_live _ _ _ Hs). split; [intros [?|[= -> ->]]; naive_solver|]. intros (? & ? & [?|[-> ->]]); [left; naive_solver|by right].
  - rewrite (vo_live _ _ _ Hs). split; [naive_solver|]. intros (? & ? & [?|[-> ->]]); [naive_solver|congruence].
Qed.

Lemma phi_added_ok v busy s y b w s' : 0 <= v < vc -> var_ok v busy s -> 0 <= y < n -> pre y = Some b -> at_ (ps_work s) y = Some w -> iterated F (defs v) y ->
  phi_added v s y b w s' -> var_ok v busy s'.
Proof.
  intros Hv Hs Hy Hb Hw Hit Ha. pose proof (phi_added_has _ _ _ _ _ _ _ Hs Hy Ha) as Hhas. pose proof (phi_added_live _ _ _ _ _ _ _ Hv Hs Hy Hb Ha) as Hlive.
  pose proof (vo_w _ _ _ Hs y w Hw) as Hwv. destruct Ha as [Hphis Ehas Hwl Hwork Hwle Hwls _ _]. constructor; [|rewrite Ehas, length_insert; apply Hs|rewrite Hwl; apply Hs|..]; try done.
  - eapply phis_ok_iff; [exact Hphis|]. intros u z Hu Hz. simpl. rewrite Hhas by lia. naive_solver.
  - intros z k Hk. rewrite Ehas in Hk. apply list_lookup_insert_Some in Hk as [(_ & <- & _)|[_ Hk]]; [lia|by eapply (vo_h _ _ _ Hs z)].
  - intros z Hz. destruct (decide (0 <= z)) as [Hz0|Hz0].
    + apply Hwork; [done|]. apply Hhas in Hz as [Hz| ->]; [left; by apply Hs|by right|done].
    + replace (Z.to_nat z) with (Z.to_nat 0) in * by lia. apply Hwork; [lia|]. apply (Hhas 0 ltac:(lia)) in Hz as [Hz| ->]; [left; by apply (vo_hw _ _ _ Hs 0)|by right].
  - intros z Hz [Hz'| ->]%Hhas; [by apply (vo_h_sound _ _ _ Hs)|done|lia].
  - intros z Hz [Hz'| ->]%Hwork; [by apply (vo_w_sound _ _ _ Hs)|by right|lia].
  - intros c [Hc|[_ ->]]%Hwls.
    + destruct (vo_wl _ _ _ Hs c Hc) as (z & Hz & Hzc & Hzw). exists z. split_and!; try done; try lia. apply Hwork; [lia|by left].
    + exists y. split_and!; try done; try lia. apply Hwork; [lia|by right].
  - intros z c t Hz Hc Hzw Hnin Hnb Ht HFt. apply Hhas; [lia|]. left. apply Hwork in Hzw as [Hzw| ->]; [| |lia].
    + apply (vo_done _ _ _ Hs z c); try done. intros Hin. apply Hnin, Hwls. by left.
    + rewrite Hb in Hc. injection Hc as <-. destruct (decide (w < v)) as [Hwlt|]; [exfalso; apply Hnin, Hwls; by right|].
      apply (vo_done _ _ _ Hs y b); try done; [by replace w with v in Hw by lia|]. intros Hin. apply Hnin, Hwls. by left.
Qed.

(** The whole frontier. *)
Lemma frontier_phis_ok v busy x els s : 0 <= v < vc -> var_ok v busy s -> 0 <= x < n -> at_ (ps_work s) x = Some v -> Forall (fun y => 0 <= y < n /\ F x y) els ->
  exists s', frontier_phis vc v (always v) els s = Ok s' /\ var_ok v busy s' /\ measure v s' = measure v s /\ (forall y, y ∈ els -> at_ (ps_has_already s') y = Some v) /\
    forall z, 0 <= z -> (at_ (ps_has_already s) z = Some v -> at_ (ps_has_already s') z = Some v) /\ (at_ (ps_work s) z = Some v -> at_ (ps_work s') z = Some v).
Proof.
  intros Hv Hs Hx Hxw Hels. revert s Hs Hxw. induction Hels as [|y els [Hy HF] Hels IH]; intros s Hs Hxw.
  { exists s. split_and!; try done. intros y []%not_elem_of_nil. }
  destruct (at_list _ y (vo_hlen _ _ _ Hs) Hy) as [h Hh]. destruct (at_list _ y (vo_wlen _ _ _ Hs) Hy) as [w Hw].
  assert (exists s1, frontier_phis vc v (always v) [y] s = Ok s1 /\ var_ok v busy s1 /\ measure v s1 = measure v s /\ at_ (ps_has_already s1) y = Some v /\
    forall z, 0 <= z -> (at_ (ps_has_already s) z = Some v -> at_ (ps_has_already s1) z = Some v) /\ (at_ (ps_work s) z = Some v -> at_ (ps_work s1) z = Some v)) as (s1 & E1 & Hs1 & Hm1 & Hh1 & Hmono1).
  { destruct (decide (h < v)) as [Hlt|Hge].
    - destruct (frontier_phi_run v busy s x y h w) as (b & s1 & Hb & E1 & Ha); try done. exists s1. pose proof (phi_added_has _ _ _ _ _ _ _ Hs Hy Ha) as Hhas.
      assert (iterated F (defs v) y) as Hit by (destruct (vo_w_sound _ _ _ Hs x Hx Hxw) as [Hdef|Hphi]; [by eapply it_def|by eapply it_phi]).
      split_and!; [done|by eapply phi_added_ok|apply Ha|apply Hhas; [lia|by right]|]. intros z Hz. rewrite Hhas, (pa_work _ _ _ _ _ _ Ha) by done. tauto.
    - pose proof (vo_h _ _ _ Hs y h Hh). assert (h = v) as -> by lia. exists s. split_and!; try done. cbn [frontier_phis].
      rewrite (get_ok (ps_has_already s) y v) by (done || lia). cbn [mbind result_bind]. by rewrite Z.ltb_irrefl. }
  destruct (IH s1 Hs1 (proj2 (Hmono1 x ltac:(lia)) Hxw)) as (s' & E2 & Hs' & Hm & Hh' & Hmono). exists s'. split_and!; [|done|lia| |].
  - cbn [frontier_phis] in E1 |- *. apply bind_ok in E1 as (h' & -> & E1). cbn [mbind result_bind] in *. apply bind_ok in E1 as (s2 & -> & [= ->]). cbn [mbind result_bind]. exact E2.
  - intros z [->|Hz]%elem_of_cons; [apply Hmono; [lia|done]|by apply Hh'].
  - intros z Hz. destruct (Hmono z Hz), (Hmono1 z Hz). auto.
Qed.


Abbreviation idle := (fun _ : nat => False).

Lemma phi_loop_ok fuel v s : 0 <= v < vc -> var_ok v idle s -> (measure v s < fuel)%nat ->
  exists s', phi_loop vc df v (always v) fuel s = Ok s' /\ var_ok v idle s' /\ ps_worklist s' = [] /\
    forall z, 0 <= z -> at_ (ps_work s) z = Some v -> at_ (ps_work s') z = Some v.
Proof.
  intros Hv. revert s. induction fuel as [|fuel IH]; intros s Hs Hf; [lia|]. cbn [phi_loop]. destruct (ps_worklist s) as [|b rest] eqn:Ewl; [by exists s|].
  destruct (vo_wl _ _ _ Hs b) as (x & Hx & Hb & Hxw); [rewrite Ewl; by left|].
  destruct (phi_block (ps_graph s) x b (ph_bones _ _ (vo_phis _ _ _ Hs)) ltac:(lia) Hb) as (B & HB & Hnx). rewrite (block_at_ok _ _ _ HB). cbn [mbind result_bind]. rewrite Hnx.
  destruct (lookup_lt_is_Some_2 df (Z.to_nat x)) as [d Hd]; [lia|]. rewrite (get_ok df x d) by (done || lia). cbn [mbind result_bind]. destruct (Hdf x d ltac:(lia) Hd) as [[Hbv _] Hhas].
  destruct (elements_ok d Hbv) as (els & -> & _ & Hels). cbn [mbind result_bind].
  set (s1 := mkPhiState (ps_graph s) (ps_has_already s) (ps_work s) rest (ps_live_phis s)).
  assert (var_ok v (fun c => c = b) s1) as Hs1.
  { destruct Hs. constructor; simpl; try done.
    - intros c Hc. apply vo_wl0. rewrite Ewl. by right.
    - intros z c y Hz Hc Hzw Hnin Hne Hy HF. apply (vo_done0 z c y Hz Hc Hzw); [|by intros []|done|done]. rewrite Ewl. by intros [?|?]%elem_of_cons. }
  destruct (frontier_phis_ok v _ x els s1 Hv Hs1 Hx Hxw) as (s2 & -> & Hs2 & Hm2 & Hall & Hmono).
  { apply Forall_forall. intros y Hy. by apply Hhas, Hels. }
  cbn [mbind result_bind]. destruct (IH s2) as (s3 & -> & Hs3 & Ewl3 & Hmono3).
  - destruct Hs2. constructor; try done. intros z c y Hz Hc Hzw Hnin _ Hy HF. destruct (decide (c = b)) as [->|Hne]; [|by apply (vo_done0 z c y)].
    rewrite (pre_number _ _ _ Hc Hb ltac:(lia) ltac:(lia)) in HF. by apply Hall, Hels, Hhas.
  - rewrite Hm2. unfold measure in *. simpl. rewrite Ewl in Hf. simpl in Hf. lia.
  - exists s3. split_and!; try done. intros z Hz Hzw. apply Hmono3; [done|]. by apply (Hmono z Hz).
Qed.

(** Seeding the worklist, up to block [k]. *)
Record seeded (v k : Z) (s : PhiState) : Prop := {
  sd_var : var_ok v idle s;
  sd_has x : at_ (ps_has_already s) x <> Some v;
  sd_on x : 0 <= x < k -> defs v x -> at_ (ps_work s) x = Some v;
  sd_wl x b : 0 <= x < n -> at_ (ps_work s) x = Some v -> pre x = Some b -> x < k /\ b ∈ ps_worklist s
}.

Lemma seed_step v k s b w : 0 <= v < vc -> seeded v k s -> 0 <= k < n -> pre k = Some b -> at_ (ps_work s) k = Some w -> defs v k ->
  seeded v (k + 1) (mkPhiState (ps_graph s) (ps_has_already s) (<[Z.to_nat k := v]> (ps_work s)) (b :: ps_worklist s) (ps_live_phis s)).
Proof.
  intros Hv [Hs Hhas Hon Hwl] Hk Hb Hw Hdef. assert (forall z, 0 <= z -> at_ (<[Z.to_nat k := v]> (ps_work s)) z = Some v <-> at_ (ps_work s) z = Some v \/ z = k) as Hput.
  { intros z Hz. apply at_put; [rewrite (vo_wlen _ _ _ Hs)|]; lia. }
  assert (forall z c, 0 <= z < n -> at_ (<[Z.to_nat k := v]> (ps_work s)) z = Some v -> pre z = Some c -> z < k + 1 /\ c ∈ b :: ps_worklist s) as Hin.
  { intros z c Hz [Hzw| ->]%Hput Hc; [destruct (Hwl z c Hz Hzw Hc); split; [lia|by right]|rewrite Hb in Hc; injection Hc as <-; split; [lia|by left]|lia]. }
  constructor; simpl; [|done|intros x Hx Hd; apply Hput; [lia|]; destruct (decide (x = k)); [by right|left; apply Hon; [lia|done]]|done].
  destruct Hs. constructor; simpl; try done.
  - by rewrite length_insert.
  - intros x j Hj. apply list_lookup_insert_Some in Hj as [(_ & <- & _)|[_ Hj]]; [lia|by eapply (vo_w0 x)].
  - intros x Hx. by apply Hhas in Hx.
  - intros x Hx [Hxw| ->]%Hput; [by apply vo_w_sound0|by left|lia].
  - intros c [->|Hc]%elem_of_cons; [exists k; split_and!; try done; try lia; apply Hput; [lia|by right]|].
    destruct (vo_wl0 c Hc) as (x & Hx & Hxc & Hxw). exists x. split_and!; try done; try lia. apply Hput; [lia|by left].
  - intros x c y Hx Hc Hxw Hnin. by destruct (Hin x c Hx Hxw Hc).
Qed.

Lemma seed_ok todo k v s : 0 <= v < vc -> 0 <= k -> k + Z.of_nat todo = n -> seeded v k s ->
  exists s', seed assigned v todo k s = Ok s' /\ seeded v n s' /\ measure v s' = measure v s.
Proof.
  intros Hv. revert k s. induction todo as [|todo IH]; intros k s Hk0 Hk Hs; [exists s; split_and!; [done|by replace n with k by lia|done]|]. cbn [seed].
  destruct (lookup_lt_is_Some_2 assigned (Z.to_nat k)) as [a Ha]; [lia|]. rewrite (get_ok assigned k a) by (done || lia). cbn [mbind result_bind].
  destruct (Has k a Hk0 Ha) as [Hvec Hdef]. rewrite (Contains_vec vc a v Hvec Hv). cbn [mbind result_bind]. specialize (Hdef v Hv).
  destruct (pre_exists k ltac:(lia)) as [b Hb]. pose proof (sd_var _ _ _ Hs) as Hvar. destruct (at_list _ k (vo_wlen _ _ _ Hvar) ltac:(lia)) as [w Hw]. destruct (BitSet.has (data_ a) v) eqn:Eh.
  - rewrite (put_ok (ps_work s) k w) by (done || lia). cbn [mbind result_bind]. pose proof (ph_bones _ _ (vo_phis _ _ _ Hvar)) as (_ & Hpre & _).
    rewrite Hpre, (get_ok (preorder_ gb) k b) by (done || lia). cbn [mbind result_bind].
    destruct (IH (k + 1) _ ltac:(lia) ltac:(lia) (seed_step v k s b w Hv Hs ltac:(lia) Hb Hw ltac:(by apply Hdef))) as (s' & E' & Hs' & Hm). exists s'. split_and!; [done|done|].
    rewrite Hm. unfold measure. simpl. assert (w <> v) as Hne by (intros ->; destruct (sd_wl _ _ _ Hs k b ltac:(lia) Hw Hb); lia). rewrite (unworked_insert v (ps_work s) k w) by (done || lia). lia.
  - cbn [mbind result_bind]. apply IH; [lia|lia|]. destruct Hs as [H1 H2 Hon Hwl]. constructor; try done.
    + intros x Hx Hd. destruct (decide (x = k)) as [->|]; [by apply Hdef in Hd|]. apply Hon; [lia|done].
    + intros x c Hx Hxw Hc. destruct (Hwl x c Hx Hxw Hc). split; [lia|done].
Qed.

(** ** Between two variables *)

Record vars_ok (v : Z) (s : PhiState) : Prop := {
  va_phis : phis_ok (fun u x => u < v /\ iterated F (defs u) x) (ps_graph s);
  va_hlen : length (ps_has_already s) = length (preorder_ gb);
  va_wlen : length (ps_work s) = length (preorder_ gb);
  va_h x k : at_ (ps_has_already s) x = Some k -> k < v;
  va_w x k : at_ (ps_work s) x = Some k -> k < v;
  va_wl : ps_worklist s = [];
  va_live b u : (b, u) ∈ ps_live_phis s <-> always u = true /\ 0 <= u < vc /\ exists x, 0 <= x < n /\ pre x = Some b /\ u < v /\ iterated F (defs u) x
}.

Lemma vars_enter v s : vars_ok v s -> seeded v 0 s /\ measure v s = length (preorder_ gb).
Proof.
  intros [Hph Hhl Hwl Hh Hw Hwle Hlive]. assert (forall x, at_ (ps_has_already s) x <> Some v) as Hnh by (intros x Hx; specialize (Hh x v Hx); lia).
  assert (forall x, at_ (ps_work s) x <> Some v) as Hnw by (intros x Hx; specialize (Hw x v Hx); lia). split.
  - constructor; [constructor|..]; try done; try (intros; lia); try (intros x; intros; by destruct (Hnw x)); try (intros x; intros; by destruct (Hnh x)).
    + eapply phis_ok_iff; [exact Hph|]. intros u x _ _. simpl. specialize (Hnh x). naive_solver.
    + intros x k Hk. specialize (Hh x k Hk). lia.
    + intros x k Hk. specialize (Hw x k Hk). lia.
    + rewrite Hwle. intros b []%not_elem_of_nil.
    + intros b u. rewrite Hlive. split; intros (? & ? & x & ? & ? & Hc); (split; [done|]; split; [done|]; exists x; split; [done|]; split; [done|]); [by left|]. destruct Hc as [?|[_ Hc]]; [done|by destruct (Hnh x)].
  - unfold measure, unworked. rewrite Hwle. simpl. rewrite <- Hwl, Nat.add_0_r. f_equal.
    assert (forall l : list Z, Forall (fun k => k <> v) l -> filter (fun k => k <> v) l = l) as Hall by (induction 1; [done|]; rewrite filter_cons_True by done; by f_equal).
    apply Hall, Forall_forall. intros k [i Hi]%list_elem_of_lookup. specialize (Hw (Z.of_nat i) k). rewrite Nat2Z.id in Hw. specialize (Hw Hi). lia.
Qed.

Lemma vars_leave v s : 0 <= v < vc -> var_ok v idle s -> ps_worklist s = [] -> (forall x, 0 <= x < n -> defs v x -> at_ (ps_work s) x = Some v) ->
  (forall x y, F x y -> 0 <= x < n /\ 0 <= y < n) -> (forall x, defs v x -> 0 <= x < n) -> vars_ok (v + 1) s.
Proof.
  intros Hv Hs Hwl Hon HF Hdefs. assert (forall x, 0 <= x < n -> at_ (ps_has_already s) x = Some v <-> iterated F (defs v) x) as Hexact.
  { intros x Hx. split; [by apply (vo_h_sound _ _ _ Hs)|]. intros Hit.
    assert (forall a y, F a y -> at_ (ps_work s) a = Some v -> at_ (ps_has_already s) y = Some v) as Hstep.
    { intros a y HFa Haw. destruct (HF a y HFa) as [Ha Hy]. destruct (pre_exists a Ha) as [b Hb]. apply (vo_done _ _ _ Hs a b y Ha Hb Haw); [rewrite Hwl; apply not_elem_of_nil|by intros []|done|done]. }
    clear Hx. induction Hit as [a y Hd HFa|a y Hit IH HFa]; apply (Hstep a y HFa); [apply Hon; [by apply Hdefs|done]|]. by apply (vo_hw _ _ _ Hs). }
  destruct Hs. constructor; try done.
  - eapply phis_ok_iff; [exact vo_phis0|]. intros u x Hu Hx. simpl. rewrite Hexact by done. split; [intros [?|[-> ?]]; (split; [lia|naive_solver])|]. intros [? ?]. destruct (decide (u = v)) as [->|]; [by right|left; split; [lia|done]].
  - intros x k Hk. specialize (vo_h0 x k Hk). lia.
  - intros x k Hk. specialize (vo_w0 x k Hk). lia.
  - intros b u. rewrite vo_live0. split; intros (? & ? & x & Hx & ? & Hc); (split; [done|]; split; [done|]; exists x; split; [done|]; split; [done|]).
    + destruct Hc as [[? ?]|[-> Hc]]; [split; [lia|done]|]. split; [lia|by apply Hexact].
    + destruct Hc as [Hlt Hit]. destruct (decide (u = v)) as [->|]; [right; split; [done|by apply Hexact]|left; split; [lia|done]].
Qed.


Hypothesis HF_range : forall x y, F x y -> 0 <= x < n /\ 0 <= y < n.
Hypothesis Hdefs_range : forall u x, defs u x -> 0 <= x < n.

Lemma var_loop_ok prune context_index todo v s : always = (fun u => negb prune || (u =? context_index)) ->
  0 <= v -> v + Z.of_nat todo = vc -> vars_ok v s ->
  exists s', var_loop prune context_index vc assigned df todo v s = Ok s' /\ vars_ok vc s'.
Proof.
  intros Ealways. revert v s. induction todo as [|todo IH]; intros v s Hv0 Hv Hs; [exists s; split; [done|by replace vc with v by lia]|]. cbn [var_loop].
  destruct (vars_enter v s Hs) as [Hseed Hm]. pose proof (ph_bones _ _ (va_phis _ _ Hs)) as (_ & Hpre & _). rewrite Hpre.
  destruct (seed_ok (length (preorder_ gb)) 0 v s ltac:(lia) ltac:(lia) ltac:(lia) Hseed) as (s1 & -> & Hs1 & Hm1). cbn [mbind result_bind].
  assert (negb prune || (v =? context_index) = always v) as -> by (by rewrite Ealways).
  destruct (phi_loop_ok (S (length (preorder_ gb))) v s1 ltac:(lia) (sd_var _ _ _ Hs1) ltac:(lia)) as (s2 & -> & Hs2 & Hwl & Hmono). cbn [mbind result_bind].
  apply IH; [lia|lia|]. apply vars_leave; try done; [lia| |apply Hdefs_range]. intros x Hx Hd. apply Hmono; [lia|]. by apply (sd_on _ _ _ Hs1).
Qed.

Lemma InsertPhis_numbers prune context_index : always = (fun u => negb prune || (u =? context_index)) -> 0 <= vc ->
  (forall x b B, 0 <= x < n -> pre x = Some b -> blocks gb !! b = Some B -> phis_ B = None) ->
  exists g live, InsertPhis prune context_index vc assigned df gb = Ok (g, live) /\ phis_ok (fun u x => u < vc /\ iterated F (defs u) x) g /\
    forall b u, (b, u) ∈ live <-> always u = true /\ 0 <= u < vc /\ exists x, 0 <= x < n /\ pre x = Some b /\ u < vc /\ iterated F (defs u) x.
Proof.
  intros Ealways Hvc Hnone. unfold InsertPhis.
  destruct (var_loop_ok prune context_index (Z.to_nat vc) 0 (mkPhiState gb (replicate (length (preorder_ gb)) (-1)) (replicate (length (preorder_ gb)) (-1)) [] [])) as (s & -> & Hs); [done|lia|lia| |].
  - constructor; simpl; try by rewrite length_replicate.
    + constructor; [done| |].
      * intros x b B l Hx Hb HB Hl. pose proof (lookup_lt_Some _ _ _ Hb). rewrite (Hnone x b B) in Hl by (done || lia). done.
      * intros x b B u phi Hx Hb HB Hu. pose proof (lookup_lt_Some _ _ _ Hb). unfold phi_at. rewrite (Hnone x b B) by (done || lia). split; [done|]. intros [[? _] _]. lia.
    + intros x k [-> _]%lookup_replicate. lia.
    + intros x k [-> _]%lookup_replicate. lia.
    + done.
    + intros b u. split; [by intros []%not_elem_of_nil|]. intros (_ & ? & x & _ & _ & ? & _). lia.
  - cbn [mbind result_bind]. exists (ps_graph s), (ps_live_phis s). split; [done|]. split; [apply Hs|apply Hs].
Qed.


End phis.
(** ** The flow graph *)

(** Block [a] is given variable [u] by [assigned]. *)
Definition assigns (g : FlowGraph) (assigned : list BitVector) (u : Z) (a : nat) : Prop :=
  exists i v, preorder_ g !! i = Some a /\ assigned !! i = Some v /\ Contains v u = Ok true.

Definition assigned_ok (g : FlowGraph) (vc : Z) (assigned : list BitVector) : Prop :=
  length assigned = length (preorder_ g) /\ Forall (vec vc) assigned.

Definition no_phis (g : FlowGraph) : Prop := Forall (fun B => phis_ B = None) (blocks g).

(** Where a phi for [u] is needed. *)
Definition needs_phi (g0 : FlowGraph) (defs : nat -> Prop) : nat -> Prop := iterated (frontier (edge g0) (graph_entry_ g0)) defs.

Section graph.
Context (g0 g1 g2 : FlowGraph) (df : list BitVector).
Hypothesis WF : graph_wf g0.
Hypothesis Hd : discovered g0 g1.
Hypothesis Hdom : dominators_ok g0 g1 (Z.of_nat (length (parent_ g1))) g2.

Abbreviation n := (Z.of_nat (length (preorder_ g2))).
Abbreviation pre x := (preorder_ g2 !! Z.to_nat x).
Abbreviation E := (number_edge g0 g1).

Lemma preorder_same : preorder_ g2 = preorder_ g1.
Proof. apply (do_core _ _ _ _ Hdom). Qed.

Lemma frontier_ends a b : frontier (edge g0) (graph_entry_ g0) a b -> reachable g0 a /\ reachable g0 b.
Proof.
  intros (q & Hq & He & Ha & _). split; [by eapply dominator_reachable|]. by eapply reachable_step.
Qed.

(** A block in a frontier has two predecessors, so it is a join. *)
Lemma frontier_join x y b B : frontier E 0 x y -> 0 <= y -> pre y = Some b -> blocks g2 !! b = Some B -> IsJoinEntry B = true.
Proof.
  intros Hfr Hy Hb HB. destruct (IsJoinEntry B) eqn:Hj; [done|exfalso]. pose proof (dd_tree _ _ Hd) as ST.
  destruct (do_core _ _ _ _ Hdom) as (Hcore & Hpre & _). rewrite Hpre in Hb. destruct (dd_num _ _ Hd _ _ Hb) as (B1 & HB1 & _).
  destruct (core_lookup g1 g2 b B1 (do_core _ _ _ _ Hdom) HB1) as (B' & HB' & EB). rewrite HB in HB'. injection HB' as <-.
  destruct (shape_lookup_inv g0 g1 b B1 (dd_shape _ _ Hd) HB1) as (B0 & HB0 & E0). assert (shape B = shape B1) as E1 by (unfold core in EB; congruence).
  rewrite (join_shape _ _ E1), (join_shape _ _ E0) in Hj. pose proof Hfr as (q & _ & (a & b' & _ & _ & Ha & Hb' & He) & _). rewrite Hb in Hb'. injection Hb' as <-.
  assert (0 < y < Z.of_nat (length (parent_ g1))) as Hyr by (destruct Hfr as (q' & _ & He' & _); apply (st_range _ _ _ ST _ _ He')).
  eapply (frontier_single _ _ _ ST (pf (parent_ g1) y) y x Hyr); [|exact Hfr]. intros r Hr. destruct (st_parent _ _ _ ST y Hyr) as [Hp (c & b3 & Hp0 & _ & Hc & Hb3 & Hec)].
  rewrite Hb in Hb3. injection Hb3 as <-. destruct Hr as (c' & b4 & Hr0 & _ & Hc' & Hb4 & Hec'). rewrite Hb in Hb4. injection Hb4 as <-.
  rewrite (wf_single _ WF c c' b B0 Hec Hec' HB0 Hj) in Hc. apply (pre_inj _ _ Hd _ _ _ Hc' Hc); lia.
Qed.

Definition in_frontier (x y : Z) : Prop := 0 <= x < n /\ 0 <= y < n /\ frontier E 0 x y.

Definition assigned_at (assigned : list BitVector) (u x : Z) : Prop :=
  0 <= x < n /\ exists a, assigned !! Z.to_nat x = Some a /\ BitSet.has (data_ a) u = true.

(** A block assigns what its vector holds. *)
Lemma assigned_blocks vc assigned u x b : assigned_ok g2 vc assigned -> 0 <= u < vc -> 0 <= x -> pre x = Some b -> assigned_at assigned u x <-> assigns g2 assigned u b.
Proof.
  intros [Hlen Hvec] Hu Hx Hb. split.
  - intros (Hr & a & Ha & Hh). exists (Z.to_nat x), a. split_and!; [done|done|]. rewrite Forall_lookup in Hvec. rewrite (Contains_vec vc) by (done || by eapply Hvec). by f_equal.
  - intros (i & a & Hi & Ha & Hc). rewrite preorder_same in *. pose proof (NoDup_lookup _ _ _ _ (dd_nodup _ _ Hd) Hi Hb) as ->. pose proof (lookup_lt_Some _ _ _ Hb).
    split; [rewrite preorder_same; lia|]. exists a. split; [done|]. rewrite Forall_lookup in Hvec. rewrite (Contains_vec vc) in Hc by (done || by eapply Hvec). by injection Hc.
Qed.

Lemma in_frontier_blocks x y a b : 0 <= x -> 0 <= y -> pre x = Some a -> pre y = Some b -> in_frontier x y <-> frontier (edge g0) (graph_entry_ g0) a b.
Proof.
  intros Hx Hy Ha Hb. pose proof (lookup_lt_Some _ _ _ Ha). pose proof (lookup_lt_Some _ _ _ Hb). unfold in_frontier. rewrite preorder_same in *.
  rewrite (frontier_blocks _ _ Hd x y a b) by done. split; [tauto|]. intros ?. split_and!; (done || lia).
Qed.

(** Iterated frontiers of numbers are those of blocks. *)
Lemma iterated_blocks (defs : Z -> Prop) (bdefs : nat -> Prop) y b :
  (forall x, defs x -> 0 <= x < n) -> (forall a, bdefs a -> exists x, 0 <= x < n /\ pre x = Some a) ->
  (forall x a, 0 <= x -> pre x = Some a -> defs x <-> bdefs a) -> 0 <= y -> pre y = Some b ->
  iterated in_frontier defs y <-> needs_phi g0 bdefs b.
Proof.
  intros Hr Hb Hiff Hy Hyb. assert (forall x, 0 <= x < n -> exists a, pre x = Some a) as Hsome.
  { intros x Hx. destruct (lookup_lt_is_Some_2 (preorder_ g2) (Z.to_nat x)) as [a Ha]; [lia|by exists a]. } split.
  - intros Hit. revert b Hyb. induction Hit as [x y Hx Hf|x y Hit IH Hf]; intros b Hyb; pose proof Hf as (Hxr & _ & _); destruct (Hsome x Hxr) as [a Ha];
      apply (in_frontier_blocks x y a b) in Hf; try (done || lia).
    + apply (it_def _ _ a); [|done]. by apply (Hiff x); [lia|..].
    + apply (it_phi _ _ a); [|done]. apply IH; [lia|done].
  - intros Hit. revert y Hy Hyb. induction Hit as [a b Ha Hf|a b Hit IH Hf]; intros y Hy Hyb.
    + destruct (Hb a Ha) as (x & Hx & Hxa). apply (it_def _ _ x); [by apply (Hiff x a); [lia|..]|]. apply (in_frontier_blocks x y a b); (done || lia).
    + destruct (frontier_ends _ _ Hf) as [Hra _]. destruct (reach_pre _ _ Hd a Hra) as (x & Hx & Hxa). rewrite <- preorder_same in Hxa.
      apply (it_phi _ _ x); [by apply IH; [lia|]|]. apply (in_frontier_blocks x y a b); (done || lia).
Qed.

Lemma numbers_g2 i b : preorder_ g2 !! i = Some b -> exists B, blocks g2 !! b = Some B /\ preorder_number_ B = Z.of_nat i.
Proof.
  rewrite preorder_same. intros Hi. destruct (dd_num _ _ Hd _ _ Hi) as (B1 & HB1 & N). destruct (core_lookup g1 g2 b B1 (do_core _ _ _ _ Hdom) HB1) as (B & HB & EB).
  exists B. split; [done|]. unfold core in EB. congruence.
Qed.

Lemma no_phis_g2 : no_phis g0 -> forall b B, blocks g2 !! b = Some B -> phis_ B = None.
Proof.
  intros Hno b B HB. pose proof (proj1 (do_core _ _ _ _ Hdom)) as Hc. assert ((core <$> blocks g1) !! b = Some (core B)) as H1 by (by rewrite <- Hc, list_lookup_fmap, HB).
  rewrite list_lookup_fmap in H1. apply fmap_Some in H1 as (B1 & HB1 & E1). assert ((kept <$> blocks g0) !! b = Some (kept B1)) as H0 by (by rewrite <- (dd_kept _ _ Hd), list_lookup_fmap, HB1).
  rewrite list_lookup_fmap in H0. apply fmap_Some in H0 as (B0 & HB0 & E0). unfold no_phis in Hno. rewrite Forall_lookup in Hno. specialize (Hno b B0 HB0). unfold core in E1. unfold kept in E0. congruence.
Qed.

Lemma assigns_number assigned u a : assigns g2 assigned u a -> exists x, 0 <= x < n /\ pre x = Some a.
Proof. intros (i & v & Hi & _). pose proof (lookup_lt_Some _ _ _ Hi). exists (Z.of_nat i). rewrite Nat2Z.id. split; [lia|done]. Qed.

Lemma InsertPhis_blocks prune context_index vc assigned : frontiers_are g1 (frontier E 0) df -> no_phis g0 -> 0 <= vc -> assigned_ok g2 vc assigned ->
  exists g3 live, InsertPhis prune context_index vc assigned df g2 = Ok (g3, live) /\ same_bones g2 g3 /\
    (forall b B u phi, reachable g0 b -> blocks g3 !! b = Some B -> 0 <= u < vc ->
      phi_at B u = Some phi <-> needs_phi g0 (assigns g2 assigned u) b /\ phi = mkPhi (length_of (Predecessors B)) (negb prune || (u =? context_index))) /\
    (forall b u, (b, u) ∈ live <-> (negb prune || (u =? context_index)) = true /\ 0 <= u < vc /\ needs_phi g0 (assigns g2 assigned u) b).
Proof.
  intros [Hlen Hdf] Hno Hvc Has. pose proof Has as [Hal Hav]. rewrite (dd_len _ _ Hd), <- preorder_same in Hlen, Hdf.
  destruct (InsertPhis_numbers g2 vc (fun u => negb prune || (u =? context_index)) ltac:(rewrite preorder_same; apply Hd) numbers_g2 in_frontier (assigned_at assigned) df assigned)
    with (prune := prune) (context_index := context_index) as (g3 & live & E3 & Hph & Hlive); try done.
  - intros x v Hx Hv. destruct (Hdf x v Hx Hv) as [H1 H2]. split; [done|]. intros j. rewrite H2. pose proof (lookup_lt_Some _ _ _ Hv). unfold in_frontier. split; [|tauto]. intros [??]. split_and!; (done || lia).
  - intros x a Hx Ha. rewrite Forall_lookup in Hav. split; [by eapply Hav|]. intros u Hu. pose proof (lookup_lt_Some _ _ _ Ha). unfold assigned_at. split; [intros ?; split; [lia|by exists a]|]. intros (_ & a' & Ha' & ?). congruence.
  - intros x y b B (_ & _ & Hf) _ Hy Hb HB. by eapply frontier_join.
  - intros x y (? & ? & _). done.
  - by intros u x [? _].
  - intros x b B _ _ HB. by eapply no_phis_g2.
  - exists g3, live. assert (forall u x b, 0 <= u < vc -> 0 <= x -> pre x = Some b -> (u < vc /\ iterated in_frontier (assigned_at assigned u) x) <-> needs_phi g0 (assigns g2 assigned u) b) as Hiff.
    { intros u x b Hu Hx Hb. rewrite <- (iterated_blocks (assigned_at assigned u) (assigns g2 assigned u) x b); [intuition lia|by intros ? [? _]|apply assigns_number| |done|done].
      intros y a Hy Ha. by apply (assigned_blocks vc). }
    split_and!; [done|apply Hph| |].
    + intros b B u phi Hb HB Hu. destruct (reach_pre _ _ Hd b Hb) as (x & Hx & Hxb). rewrite <- preorder_same in Hxb.
      rewrite (ph_at _ _ _ _ _ Hph x b B u phi), (Hiff u x b) by (done || lia). done.
    + intros b u. rewrite Hlive. split.
      * intros (? & Hu & x & Hx & Hb & Hit). split_and!; try (done || lia). apply (Hiff u x b); (done || lia).
      * intros (? & Hu & Hnp). assert (reachable g0 b) as Hr by (destruct Hnp as [a b _ Hf|a b _ Hf]; by eapply frontier_ends). destruct (reach_pre _ _ Hd b Hr) as (x & Hx & Hxb).
        rewrite <- preorder_same in Hxb. split_and!; try (done || lia). exists x. pose proof (lookup_lt_Some _ _ _ Hxb). split; [lia|]. split; [done|]. apply (Hiff u x b); (done || lia).
Qed.

(** Each block is dominated or not. *)
Lemma dominates_dec a b : reachable g0 b -> dominates (edge g0) (graph_entry_ g0) a b \/ ~ dominates (edge g0) (graph_entry_ g0) a b.
Proof.
  intros Hb. destruct (reach_pre _ _ Hd b Hb) as (x & Hx & Hxb). destruct (Dominates_loop_ok g0 g1 Hd (S (S (Z.to_nat x))) g2 a x b Hdom Hx Hxb ltac:(lia)) as ([] & _ & Hr); [left; by apply Hr|right].
  by intros H%Hr.
Qed.

Lemma entry_no_pred q : ~ edge g0 q (graph_entry_ g0).
Proof. intros He. destruct (wf_succ _ WF _ _ He) as (B & HB & Hk). destruct (wf_entry _ WF) as (B' & HB' & Hk'). congruence. Qed.

End graph.


(** ** The theorems *)

(** C4: With the frontiers of [ComputeDominators], [InsertPhis] returns without a failed
    assertion; a reachable block then has a phi for a variable exactly when it is in
    the iterated dominance frontier of the blocks that assign the variable, with an
    input for each predecessor, and the phis returned as live are those of the
    variables that are live everywhere. *)
Theorem InsertPhis_exact g0 g1 g2 df prune context_index vc assigned :
  graph_wf g0 -> entry_free g0 -> no_phis g0 -> DiscoverBlocks g0 = Ok g1 -> ComputeDominators g1 = Ok (g2, df) -> 0 <= vc -> assigned_ok g2 vc assigned ->
  exists g3 live, InsertPhis prune context_index vc assigned df g2 = Ok (g3, live) /\
    (forall b B u phi, reachable g0 b -> blocks g3 !! b = Some B -> 0 <= u < vc ->
      phi_at B u = Some phi <-> needs_phi g0 (assigns g2 assigned u) b /\ phi = mkPhi (length_of (Predecessors B)) (negb prune || (u =? context_index))) /\
    (forall b u, (b, u) ∈ live <-> (negb prune || (u =? context_index)) = true /\ 0 <= u < vc /\ needs_phi g0 (assigns g2 assigned u) b).
Proof.
  intros WF Hf Hno E1 E2 Hvc Has. destruct (passes_ok g0 g1 WF Hf E1) as (Hd & g & df' & E2' & Hg & Hdf). rewrite E2 in E2'. injection E2' as <- <-.
  destruct (InsertPhis_blocks g0 g1 g2 df WF Hd Hg prune context_index vc assigned Hdf Hno Hvc Has) as (g3 & live & E3 & _ & H). by exists g3, live.
Qed.

(** The blocks where variable [u] gets a value: the entry, the blocks that assign it
    and those with a phi for it. *)
Definition defines (g0 g2 g3 : FlowGraph) (assigned : list BitVector) (u : Z) (a : nat) : Prop :=
  a = graph_entry_ g0 \/ assigns g2 assigned u a \/ exists A phi, blocks g3 !! a = Some A /\ phi_at A u = Some phi /\ reachable g0 a.

(** C2: The phis placed are enough: at a block without a phi for a variable, the last
    block that gives the variable a value is the same on every path from the entry. *)
Theorem InsertPhis_single_definition g0 g1 g2 df prune context_index vc assigned g3 live u a a' b B :
  graph_wf g0 -> entry_free g0 -> no_phis g0 -> DiscoverBlocks g0 = Ok g1 -> ComputeDominators g1 = Ok (g2, df) -> 0 <= vc -> assigned_ok g2 vc assigned ->
  InsertPhis prune context_index vc assigned df g2 = Ok (g3, live) -> 0 <= u < vc -> blocks g3 !! b = Some B -> phi_at B u = None ->
  last_definition (edge g0) (graph_entry_ g0) (defines g0 g2 g3 assigned u) a b ->
  last_definition (edge g0) (graph_entry_ g0) (defines g0 g2 g3 assigned u) a' b -> a = a'.
Proof.
  intros WF Hf Hno E1 E2 Hvc Has E3 Hu HB Hb. destruct (passes_ok g0 g1 WF Hf E1) as (Hd & g & df' & E2' & Hg & Hdf). rewrite E2 in E2'. injection E2' as <- <-.
  destruct (InsertPhis_blocks g0 g1 g2 df WF Hd Hg prune context_index vc assigned Hdf Hno Hvc Has) as (g3' & live' & E3' & Hbones & H & _). rewrite E3 in E3'. injection E3' as <- <-.
  assert (forall c, needs_phi g0 (assigns g2 assigned u) c -> reachable g0 c) as Hreach by (intros c [x y _ Hfr|x y _ Hfr]; by eapply frontier_ends).
  assert (forall c, needs_phi g0 (assigns g2 assigned u) c -> defines g0 g2 g3 assigned u c) as Hdef.
  { intros c Hc. pose proof (Hreach c Hc) as Hr. destruct (reach_pre _ _ Hd c Hr) as (x & Hx & Hxc). rewrite <- (preorder_same _ _ _ Hg) in Hxc.
    destruct (phi_block g2 (numbers_g2 _ _ _ Hd Hg) g3 x c Hbones ltac:(lia) Hxc) as (C & HC & _). right. right. exists C. eexists. split_and!; [done| |done]. by apply (H c C u _ Hr HC Hu). }
  apply (last_definition_unique _ _ _ (needs_phi g0 (assigns g2 assigned u))).
  - apply entry_no_pred, WF.
  - apply (dominates_dec _ _ _ Hd Hg).
  - intros x v [->|[Hx|(X & phi & HX & Hphi & Hr)]] Hne Hfr; [done|by apply (it_def _ _ x)|]. apply (H x X u phi Hr HX Hu) in Hphi as [Hphi _]. by apply (it_phi _ _ x).
  - exact Hdef.
  - intros Hn. assert (phi_at B u = Some (mkPhi (length_of (Predecessors B)) (negb prune || (u =? context_index)))); [|congruence]. by apply (H b B u _ (Hreach b Hn) HB Hu).
Qed.

End props.
(** ** An example: both arms of the branch in the loop assign variable 0. *)

#[local] Existing Instance T64.

Definition demo_no : BitVector := BitVector_new 1.
Definition demo_yes : BitVector := unwrap demo_no (Add demo_no 0).
Definition demo_assigned : list BitVector := [demo_no; demo_no; demo_no; demo_yes; demo_no; demo_no; demo_no; demo_yes].
Definition demo3 : FlowGraph * list (nat * Z) := unwrap (demo, []) (InsertPhis true 7 1 demo_assigned (snd demo2) (fst demo2)).

Lemma demo_no_phis : no_phis demo.
Proof. repeat constructor. Qed.

Lemma demo_assigned_ok : assigned_ok (fst demo2) 1 demo_assigned.
Proof.
  assert (vec 1 demo_no) as H0 by (by apply vec_new). destruct (Add_vec 1 demo_no 0 H0 ltac:(lia)) as (v & Ev & Hv & _). split; [vm_compute; reflexivity|].
  assert (demo_yes = v) as Ey by (unfold demo_yes; by rewrite Ev). rewrite <- Ey in Hv. by repeat constructor.
Qed.

Lemma InsertPhis_exact_witness : exists g3 live, InsertPhis true 7 1 demo_assigned (snd demo2) (fst demo2) = Ok (g3, live) /\ needs_phi demo (assigns (fst demo2) demo_assigned 0) 5%nat.
Proof.
  destruct (InsertPhis_exact demo demo1 (fst demo2) (snd demo2) true 7 1 demo_assigned) as (g3 & live & E & H & _);
    [apply demo_wf|apply demo_entry_free|apply demo_no_phis|vm_compute; reflexivity|vm_compute; reflexivity|lia|apply demo_assigned_ok|].
  exists g3, live. split; [exact E|]. assert (g3 = fst demo3) as -> by (unfold demo3; rewrite E; reflexivity).
  destruct (blocks (fst demo3) !! 5%nat) as [B|] eqn:HB; [|vm_compute in HB; discriminate].
  apply (H 5%nat B 0 (mkPhi 2 false) demo_reach5 HB ltac:(lia)). vm_compute in HB. injection HB as <-. reflexivity.
Defined.

Lemma demo_defines a : bool_decide (a = 5%nat) = true -> defines demo (fst demo2) (fst demo3) demo_assigned 0 a.
Proof.
  intros ->%bool_decide_eq_true. right. right. destruct (blocks (fst demo3) !! 5%nat) as [B|] eqn:HB; [|vm_compute in HB; discriminate]. exists B, (mkPhi 2 false).
  split_and!; [done| |apply demo_reach5]. vm_compute in HB. injection HB as <-. reflexivity.
Qed.

(** The phi of the join is the definition that leaves the loop. *)
Lemma InsertPhis_single_definition_witness : exists a, last_definition (edge demo) 0%nat (defines demo (fst demo2) (fst demo3) demo_assigned 0) a 7%nat /\ a = 5%nat.
Proof.
  assert (forall l, path (edge demo) 0%nat (l ++ [5; 7]%nat) 7%nat -> last_definition (edge demo) 0%nat (defines demo (fst demo2) (fst demo3) demo_assigned 0) 5%nat 7%nat) as Hlast.
  { intros l Hl. exists l, []. split; [exact Hl|]. split; [by apply demo_defines|constructor]. }
  destruct (blocks (fst demo3) !! 7%nat) as [B|] eqn:HB; [|vm_compute in HB; discriminate].
  assert (last_definition (edge demo) 0%nat (defines demo (fst demo2) (fst demo3) demo_assigned 0) 5%nat 7%nat) as H1 by (apply (Hlast [0; 1; 2; 3]%nat); simpl; demo_path).
  assert (last_definition (edge demo) 0%nat (defines demo (fst demo2) (fst demo3) demo_assigned 0) 5%nat 7%nat) as H2 by (apply (Hlast [0; 1; 2; 4]%nat); simpl; demo_path).
  exists 5%nat. split; [exact H1|].
  apply (InsertPhis_single_definition demo demo1 (fst demo2) (snd demo2) true 7 1 demo_assigned (fst demo3) (snd demo3) 0 5%nat 5%nat 7%nat B);
    [apply demo_wf|apply demo_entry_free|apply demo_no_phis|vm_compute; reflexivity|vm_compute; reflexivity|lia|apply demo_assigned_ok|vm_compute; reflexivity|lia|exact HB| |exact H1|exact H2].
  vm_compute in HB. injection HB as <-. reflexivity.
Defined.

End PhiProps.
