(* ===== verification/LoopProps.v ===== *)
(** * FindLoop and ComputeLoops find the natural loops

    [FindLoop] collects the blocks that reach the end of a back edge without passing the
    header; [ComputeLoops] does so for each edge to a block that dominates its source,
    and joins the loops of one header. *)

From stdpp Require Import base numbers list sets.
From Stdlib Require Import ZArith Lia Sorted.
From S2P Require Import Prelude Utils HeapMemory BitSet BitVector FlowGraph Dominators Discover DominatorProps.

Local Open Scope Z_scope.

Module LoopProps.
Import BitVector FlowGraph Dominators Discover DominatorProps.

(** The natural loop of an edge from [m] to [h]. *)
Definition natural_loop (g : FlowGraph) (m h b : nat) : Prop :=
  b = h \/ exists l, path (edge g) b l m /\ h ∉ l.

Definition back_edge (g : FlowGraph) (m h : nat) : Prop :=
  reachable g m /\ edge g m h /\ dominates (edge g) (graph_entry_ g) h m.

(** The header of a loop dominates it. *)
Lemma header_dominates g m h b : dominates (edge g) (graph_entry_ g) h m -> natural_loop g m h b -> dominates (edge g) (graph_entry_ g) h b.
Proof.
  intros Hd [->|(l & Hl & Hn)]; [apply dominates_refl|]. intros l' Hl'. destruct (path_app' _ _ _ _ _ _ Hl' Hl) as (l'' & Hp & Hsub). by destruct (Hsub h (Hd l'' Hp)).
Qed.

Section props.
Context {T : Target}.
Context (g0 g1 g2 : FlowGraph).
Hypothesis Hd : discovered g0 g1.
Hypothesis Hdom : dominators_ok g0 g1 (Z.of_nat (length (parent_ g1))) g2.

Abbreviation n := (Z.of_nat (length (preorder_ g1))).
Abbreviation pre x := (preorder_ g1 !! Z.to_nat x).
Abbreviation bit v x := (BitSet.has (data_ v) x).

(** What [ComputeLoops] leaves alone. *)
Definition spine (B : BlockEntry) := (shape B, preorder_number_ B, postorder_number_ B, predecessors_ B, dominator_ B, dominated_blocks_ B, phis_ B).

Definition same_spine (g : FlowGraph) : Prop :=
  spine <$> blocks g = spine <$> blocks g2 /\ preorder_ g = preorder_ g1 /\ postorder_ g = postorder_ g1 /\ graph_entry_ g = graph_entry_ g2.

Lemma spine_start : same_spine g2.
Proof. destruct (do_core _ _ _ _ Hdom) as (_ & H1 & H2 & _). done. Qed.

Lemma spine_lookup g b B : same_spine g -> blocks g !! b = Some B -> exists B2, blocks g2 !! b = Some B2 /\ spine B = spine B2.
Proof.
  intros [Hs _] HB. assert ((spine <$> blocks g2) !! b = Some (spine B)) as H by (by rewrite <- Hs, list_lookup_fmap, HB).
  rewrite list_lookup_fmap in H. apply fmap_Some in H as (B2 & HB2 & EB). by exists B2.
Qed.

Lemma spine_block g b : same_spine g -> reachable g0 b -> exists x B, 0 <= x < n /\ pre x = Some b /\ blocks g !! b = Some B /\ preorder_number_ B = x /\
  forall a, a ∈ Predecessors B <-> reachable g0 a /\ edge g0 a b.
Proof.
  intros Hg Hb. destruct (reach_pre _ _ Hd b Hb) as (x & Hx & Hxb). destruct (core_block _ _ Hd g2 x b (do_core _ _ _ _ Hdom) ltac:(lia) Hxb) as (B2 & HB2 & N2 & Hp & _).
  assert ((spine <$> blocks g) !! b = Some (spine B2)) as H by (by rewrite (proj1 Hg), list_lookup_fmap, HB2). rewrite list_lookup_fmap in H. apply fmap_Some in H as (B & HB & EB).
  exists x, B. rewrite (dd_len _ _ Hd) in Hx. unfold spine, shape in EB. injection EB as Ek _ _ En _ Ep _ _ _. split_and!; try (done || lia). intros a.
  assert (Predecessors B = Predecessors B2) as -> by (unfold Predecessors; by rewrite Ek, Ep). rewrite Hp. split.
  - intros (u & _ & Hu & (a' & b' & _ & _ & Ha' & Hb' & He)). rewrite Hu in Ha'. rewrite Hxb in Hb'. simplify_eq. split; [by eapply pre_reach|done].
  - intros [Ha He]. destruct (reach_pre _ _ Hd a Ha) as (u & Hu & Hua). exists u. split_and!; [lia|done|]. exists a, b. split_and!; (done || lia).
Qed.

(** ** FindLoop *)

Section find.
Context (m h : nat).

(** The bits of the loop so far; the predecessors of a block that is not [open] are in. *)
Record loop_ok (open : nat -> Prop) (loop : BitVector) : Prop := {
  lo_vec : vec n loop;
  lo_sound x : bit loop x = true -> 0 <= x < n /\ exists b, pre x = Some b /\ natural_loop g0 m h b;
  lo_header x : 0 <= x -> pre x = Some h -> bit loop x = true;
  lo_last x : 0 <= x -> pre x = Some m -> bit loop x = true;
  lo_closed x b y a : 0 <= x -> pre x = Some b -> bit loop x = true -> b <> h -> ~ open b -> reachable g0 a -> edge g0 a b -> 0 <= y -> pre y = Some a -> bit loop y = true
}.

Definition in_loop (b : nat) : Prop := b <> h /\ natural_loop g0 m h b /\ reachable g0 b.

Definition outside (loop : BitVector) : nat := count (fun x => negb (bit loop x)) (seqZ 0 n).

Lemma natural_pred a b : b <> h -> natural_loop g0 m h b -> edge g0 a b -> natural_loop g0 m h a.
Proof.
  intros Hne [->|(l & Hl & Hn)] He; [done|]. destruct (decide (a = h)) as [->|Hah]; [by left|]. right. exists (a :: l). split; [by econstructor|]. rewrite elem_of_cons. naive_solver.
Qed.

Lemma loop_ok_iff open open' loop : loop_ok open loop -> (forall b, open b -> open' b) -> loop_ok open' loop.
Proof. intros [H1 H2 H3 H4 H5] Hsub. constructor; [done..|]. intros x b y a ? ? ? ? Hno. apply (H5 x b y a); auto. Qed.

(** A block joins the loop and waits on the stack. *)
Lemma loop_ok_add open loop y q : loop_ok open loop -> 0 <= y < n -> pre y = Some q -> open q -> natural_loop g0 m h q ->
  exists loop', Add loop y = Ok loop' /\ loop_ok open loop' /\ (forall x, bit loop' x = (x =? y) || bit loop x).
Proof.
  intros [H1 H2 H3 H4 H5] Hy Hq Hopen Hnat. destruct (Add_vec n loop y H1 Hy) as (loop' & E & Hv & Hbits). exists loop'. split; [done|]. split; [|done]. constructor; [done|..].
  - intros x. rewrite Hbits, orb_true_iff. intros [->%Z.eqb_eq|Hx]; [|by apply H2]. split; [lia|by exists q].
  - intros x ? ?. rewrite Hbits, H3 by done. apply orb_true_r.
  - intros x ? ?. rewrite Hbits, H4 by done. apply orb_true_r.
  - intros x b z a Hx Hb. rewrite !Hbits, orb_true_iff. intros [->%Z.eqb_eq|Hbit] Hne Hno Ha He Hz Hza; [rewrite Hq in Hb; by simplify_eq|].
    rewrite (H5 x b z a) by done. apply orb_true_r.
Qed.

Lemma outside_add loop loop' y : 0 <= y < n -> bit loop y = false -> (forall x, bit loop' x = (x =? y) || bit loop x) -> (outside loop' < outside loop)%nat.
Proof.
  intros Hy Hno Hbits. apply (count_less _ _ _ y); [|apply elem_of_seqZ; lia|by rewrite Hbits, Z.eqb_refl|by rewrite Hno].
  intros x. rewrite Hbits. destruct (x =? y); [done|]. by destruct (bit loop x).
Qed.

Lemma loop_preds_ok g p preds loop stack : same_spine g -> in_loop p -> (forall q, q ∈ preds -> reachable g0 q /\ edge g0 q p) ->
  Forall in_loop stack -> loop_ok (fun b => b = p \/ b ∈ stack) loop ->
  exists loop' stack', loop_preds g preds loop stack = Ok (loop', stack') /\ Forall in_loop stack' /\ loop_ok (fun b => b = p \/ b ∈ stack') loop' /\
    (forall x, bit loop x = true -> bit loop' x = true) /\ (forall q y, q ∈ preds -> 0 <= y -> pre y = Some q -> bit loop' y = true) /\
    (outside loop' + length stack' <= outside loop + length stack)%nat.
Proof.
  intros Hg (Hph & Hpn & Hpr). revert loop stack. induction preds as [|q preds IH]; intros loop stack Hpreds Hstack Hl; simpl.
  - exists loop, stack. split_and!; try done. by intros q y []%not_elem_of_nil.
  - destruct (Hpreds q ltac:(by left)) as [Hq He]. destruct (spine_block g q Hg Hq) as (y & Q & Hy & Hyq & HQ & NQ & _).
    rewrite (block_at_ok _ _ _ HQ). cbn [mbind result_bind]. rewrite NQ, (Contains_vec n loop y (lo_vec _ _ Hl) Hy). cbn [mbind result_bind].
    assert (forall z, 0 <= z -> pre z = Some q -> z = y) as Huniq by (intros z Hz Hzq; apply (pre_inj _ _ Hd z y q); (done || lia)).
    destruct (bit loop y) eqn:Hbit; simpl.
    + destruct (IH loop stack) as (loop' & stack' & E & H1 & H2 & H3 & H4 & H5); [intros; apply Hpreds; by right|done|done|]. exists loop', stack'. split_and!; try done.
      intros q' z [->|Hin]%elem_of_cons Hz Hzq; [rewrite (Huniq z Hz Hzq); by apply H3|by apply (H4 q')].
    + destruct (loop_ok_add (fun b => b = p \/ b ∈ q :: stack) loop y q) as (loop1 & -> & Hl1 & Hbits); [eapply loop_ok_iff; [exact Hl|]; intros b [?|?]; [by left|right; by right]|done|done|right; by left|by apply (natural_pred q p)|].
      cbn [mbind result_bind]. assert (q <> h) as Hqh by (intros ->; rewrite (lo_header _ _ Hl y ltac:(lia) Hyq) in Hbit; done).
      destruct (IH loop1 (q :: stack)) as (loop' & stack' & E & H1 & H2 & H3 & H4 & H5); [intros; apply Hpreds; by right|constructor; [split_and!; try done; by apply (natural_pred q p)|done]|done|].
      pose proof (outside_add _ _ _ Hy Hbit Hbits). exists loop', stack'. split_and!; try done; [| |simpl in H5; lia].
      * intros x Hx. apply H3. by rewrite Hbits, Hx, orb_true_r.
      * intros q' z [->|Hin]%elem_of_cons Hz Hzq; [rewrite (Huniq z Hz Hzq); apply H3; by rewrite Hbits, Z.eqb_refl|by apply (H4 q')].
Qed.

Lemma find_loop_ok fuel g loop stack : same_spine g -> Forall in_loop stack -> loop_ok (fun b => b ∈ stack) loop -> (outside loop + length stack < fuel)%nat ->
  exists loop', find_loop fuel g loop stack = Ok loop' /\ loop_ok (fun _ => False) loop'.
Proof.
  intros Hg. revert loop stack. induction fuel as [|fuel IH]; intros loop stack Hstack Hl Hfuel; [lia|]. destruct stack as [|p stack]; simpl.
  - exists loop. split; [done|]. eapply loop_ok_iff; [exact Hl|]. by intros b []%not_elem_of_nil.
  - inversion Hstack as [|? ? Hp Hrest]; subst. destruct (spine_block g p Hg (proj2 (proj2 Hp))) as (x & P & Hx & Hxp & HP & _ & Hpreds). rewrite (block_at_ok _ _ _ HP). cbn [mbind result_bind].
    destruct (loop_preds_ok g p (Predecessors P) loop stack) as (loop' & stack' & -> & H1 & H2 & H3 & H4 & H5); try done; [intros q; by rewrite Hpreds|eapply loop_ok_iff; [exact Hl|]; by intros b [?|?]%elem_of_cons; [left|right]|].
    cbn [mbind result_bind fst snd]. apply IH; [done| |simpl in Hfuel; lia]. destruct H2 as [K1 K2 K3 K4 K5]. constructor; try done.
    intros z b y a Hz Hb Hbit Hne Hno Ha He Hy Hya. destruct (decide (b = p)) as [->|Hbp]; [|apply (K5 z b y a); naive_solver]. apply (H4 a y); [by rewrite Hpreds|done|done].
Qed.

(** The closed set is the whole loop. *)
Lemma loop_ok_exact loop b x : loop_ok (fun _ => False) loop -> reachable g0 b -> 0 <= x -> pre x = Some b -> bit loop x = true <-> natural_loop g0 m h b.
Proof.
  intros Hl Hb Hx Hxb. split.
  - intros Hbit. destruct (lo_sound _ _ Hl x Hbit) as (_ & b' & Hb' & ?). by simplify_eq.
  - intros [->|(l & Hp & Hn)]; [by apply (lo_header _ _ Hl)|]. remember m as m' eqn:Em. revert x Hb Hx Hxb. induction Hp as [b|b c l m' He Hp IH]; intros x Hb Hx Hxb; subst; [by apply (lo_last _ _ Hl)|].
    rewrite elem_of_cons in Hn. pose proof (reachable_step g0 b c Hb He) as Hc. destruct (reach_pre _ _ Hd c Hc) as (y & Hy & Hyc).
    assert (c <> h) as Hch by (intros ->; apply Hn; right; by apply (path_in _ _ _ _ Hp)).
    apply (lo_closed _ _ Hl y c x b); try (done || lia). apply IH; try (done || lia); naive_solver.
Qed.

Lemma FindLoop_ok g : same_spine g -> reachable g0 m -> reachable g0 h ->
  exists loop, FindLoop g m h = Ok loop /\ vec n loop /\ forall b x, reachable g0 b -> 0 <= x -> pre x = Some b -> bit loop x = true <-> natural_loop g0 m h b.
Proof.
  intros Hg Hm Hh. unfold FindLoop. destruct (spine_block g h Hg Hh) as (y & B & Hy & Hyh & HB & NB & _). destruct (spine_block g m Hg Hm) as (x & Mb & Hx & Hxm & HM & NM & _).
  rewrite (block_at_ok _ _ _ HB). cbn [mbind result_bind]. rewrite (block_at_ok _ _ _ HM). cbn [mbind result_bind]. unfold length_of. rewrite (proj1 (proj2 Hg)), NB.
  destruct (BitVector_new_ok n ltac:(lia)) as (_ & _ & Hnew). destruct (Add_vec n _ y (vec_new n ltac:(lia)) Hy) as (l1 & -> & Hv1 & Hb1). cbn [mbind result_bind].
  assert (forall z c k, 0 <= z -> 0 <= k < n -> pre z = Some c -> pre k = Some c -> z = k) as Huniq by (intros z c k ? ? ? ?; apply (pre_inj _ _ Hd z k c); (done || lia)).
  assert (forall z, bit l1 z = true -> z = y) as Hb1' by (intros z; rewrite Hb1, Hnew, orb_false_r; apply Z.eqb_eq).
  destruct (Nat.eqb_spec h m) as [Ehm|Hne].
  - exists l1. split; [done|]. split; [done|]. intros b z Hb Hz Hzb. rewrite Hb1, Hnew, orb_false_r, Z.eqb_eq. split.
    + intros ->. left. congruence.
    + intros [->|(l & Hl & Hn)]; [by apply (Huniq z h)|]. destruct Hn. rewrite Ehm. by apply (path_in _ _ _ _ Hl).
  - rewrite NM. destruct (Add_vec n l1 x Hv1 Hx) as (l2 & -> & Hv2 & Hb2). cbn [mbind result_bind].
    assert (natural_loop g0 m h m) as Hnat by (right; exists [m]; split; [constructor|by rewrite list_elem_of_singleton]).
    assert (loop_ok (fun b => b ∈ [m]) l2) as Hl2.
    { constructor; [done|..].
      - intros z. rewrite Hb2, orb_true_iff. intros [->%Z.eqb_eq| ->%Hb1']; (split; [lia|]); [by exists m|exists h; split; [done|by left]].
      - intros z Hz Hzh. by rewrite Hb2, Hb1, (Huniq z h y), Z.eqb_refl, !orb_true_r by done.
      - intros z Hz Hzm. by rewrite Hb2, (Huniq z m x), Z.eqb_refl by done.
      - intros z b k a Hz Hb. rewrite Hb2, orb_true_iff, list_elem_of_singleton. intros [->%Z.eqb_eq| ->%Hb1'] Hbh Hno; congruence. }
    destruct (find_loop_ok (S (length (preorder_ g1))) g l2 [m] Hg) as (loop & E & Hl); [constructor; [by split_and!; [congruence|..]|constructor]|done| |].
    { pose proof (outside_add l1 l2 x Hx ltac:(rewrite Hb1, Hnew, orb_false_r; apply Z.eqb_neq; congruence) Hb2) as H1. pose proof (count_bound (fun z => negb (bit l1 z)) (seqZ 0 n)) as H2. fold (outside l1) in H2. rewrite length_seqZ in H2. simpl. lia. }
    exists loop. split; [done|]. split; [apply Hl|]. intros b z Hb Hz Hzb. by apply loop_ok_exact.
Qed.

End find.

(** ** ComputeLoops *)

Lemma spine_lookup_none g b : same_spine g -> blocks g !! b = None -> blocks g2 !! b = None.
Proof. intros [Hs _] Hb. pose proof (f_equal length Hs) as Hl. rewrite !length_fmap in Hl. apply lookup_ge_None in Hb. apply lookup_ge_None. lia. Qed.

Lemma Dominates_spine fuel g this c : same_spine g -> Dominates_loop fuel g this c = Dominates_loop fuel g2 this c.
Proof.
  intros Hg. revert c. induction fuel as [|fuel IH]; intros c; [done|]. simpl. destruct c as [c|]; [|done]. destruct (c =? this)%nat; [done|]. unfold block_at.
  destruct (blocks g !! c) as [C|] eqn:HC; [|by rewrite (spine_lookup_none g c Hg HC)]. destruct (spine_lookup g c C Hg HC) as (C2 & HC2 & EC). rewrite HC2. cbn [mbind result_bind].
  rewrite IH. unfold spine in EC. by injection EC as _ _ _ _ _ _ -> _ _.
Qed.

Lemma Dominates_loops g this b : same_spine g -> reachable g0 b ->
  exists r, Dominates g this (Some b) = Ok r /\ (r = true <-> dominates (edge g0) (graph_entry_ g0) this b).
Proof.
  intros Hg Hb. unfold Dominates. cbn [check mbind result_bind]. rewrite bool_decide_eq_false_2 by done. cbn [check negb mbind result_bind]. rewrite (Dominates_spine _ _ _ _ Hg). destruct (reach_pre _ _ Hd b Hb) as (x & Hx & Hxb). eapply Dominates_loop_ok; try done.
  pose proof (preorder_length _ _ Hd) as Hl. rewrite <- (dd_len _ _ Hd) in Hl. pose proof (f_equal length (proj1 (do_core _ _ _ _ Hdom))) as Hlen. rewrite !length_fmap in Hlen.
  pose proof (f_equal length (proj1 Hg)) as Hlen'. rewrite !length_fmap in Hlen'. lia.
Qed.

(** The headers and their loops after the edges of [D]. *)
Record heads_ok (D : nat -> nat -> Prop) (g : FlowGraph) (headers : list nat) : Prop := {
  hd_spine : same_spine g;
  hd_nodup : NoDup headers;
  hd_in h : h ∈ headers <-> exists m, D m h;
  hd_loop h B : h ∈ headers -> blocks g !! h = Some B -> exists v, loop_info_ B = Some v /\ vec n v /\
    forall b x, reachable g0 b -> 0 <= x -> pre x = Some b -> bit v x = true <-> exists m, D m h /\ natural_loop g0 m h b;
  hd_kept b B B2 : b ∉ headers -> blocks g !! b = Some B -> blocks g2 !! b = Some B2 -> loop_info_ B = loop_info_ B2
}.

Lemma heads_ok_iff D D' g headers : heads_ok D g headers -> (forall m h, D m h <-> D' m h) -> heads_ok D' g headers.
Proof.
  intros [H1 H2 H3 H4 H5] Hiff. constructor; try done.
  - intros h. rewrite H3. split; intros [m Hm]; exists m; by apply Hiff.
  - intros h B Hh HB. destruct (H4 h B Hh HB) as (v & Ev & Hv & Hbits). exists v. split_and!; try done. intros b x Hb Hx Hxb. rewrite (Hbits b x Hb Hx Hxb).
    split; intros (m & Hm & ?); exists m; (split; [by apply Hiff|done]).
Qed.

Lemma set_loop_spine g h B v : same_spine g -> blocks g !! h = Some B -> same_spine (set_blocks (<[h := set_loop_info (Some v) B]> (blocks g)) g).
Proof. intros (H1 & H2 & H3 & H4) HB. split_and!; try done. simpl. by rewrite (fmap_insert_same spine _ _ B). Qed.

(** The loop [w] of header [h] after one more edge. *)
Lemma heads_ok_set D g headers h B m v w : heads_ok D g headers -> blocks g !! h = Some B -> vec n w ->
  (forall b x, reachable g0 b -> 0 <= x -> pre x = Some b -> bit v x = true <-> natural_loop g0 m h b) ->
  (forall b x, reachable g0 b -> 0 <= x -> pre x = Some b -> bit w x = true <-> (exists m', D m' h /\ natural_loop g0 m' h b) \/ bit v x = true) ->
  heads_ok (fun a k => D a k \/ (a = m /\ k = h)) (set_blocks (<[h := set_loop_info (Some w) B]> (blocks g)) g) (if bool_decide (h ∈ headers) then headers else headers ++ [h]).
Proof.
  intros [H1 H2 H3 H4 H5] HB Hw Hv Hbits. set (hs := if bool_decide (h ∈ headers) then headers else headers ++ [h]).
  assert (forall k, k ∈ hs <-> k ∈ headers \/ k = h) as Hhs.
  { intros k. unfold hs. case_bool_decide as Hh; [split; [tauto|]; by intros [?| ->]|]. by rewrite elem_of_app, list_elem_of_singleton. } constructor.
  - by apply set_loop_spine.
  - unfold hs. case_bool_decide as Hh; [done|]. apply NoDup_app. split_and!; [done| |by apply NoDup_singleton]. intros k Hk ->%list_elem_of_singleton. done.
  - intros k. rewrite Hhs, H3. split; [intros [[a Ha]| ->]; [exists a; by left|exists m; by right]|]. intros (a & [Ha|[_ ->]]); [left; by exists a|by right].
  - intros k K Hk HK. simpl in HK. destruct (decide (k = h)) as [->|Hkh].
    + rewrite list_lookup_insert_eq in HK by (by eapply lookup_lt_Some). injection HK as <-. exists w. split_and!; [done|done|]. intros b x Hb Hx Hxb. rewrite (Hbits b x Hb Hx Hxb), (Hv b x Hb Hx Hxb).
      split; [intros [(a & ? & ?)|?]; [exists a; tauto|exists m; tauto]|]. intros (a & [?|[-> _]] & ?); [left; by exists a|by right].
    + rewrite list_lookup_insert_ne in HK by done. destruct (H4 k K) as (u & Eu & Hu & Hub); [by apply Hhs in Hk as [?|?]|done|]. exists u. split_and!; try done. intros b x Hb Hx Hxb. rewrite (Hub b x Hb Hx Hxb).
      split; intros (a & Ha & ?); exists a; (split; [|done]); [by left|]. destruct Ha as [?|[_ ?]]; done.
  - intros b C C2 Hb HC HC2. rewrite Hhs in Hb. simpl in HC. rewrite list_lookup_insert_ne in HC by naive_solver. apply (H5 b C C2); naive_solver.
Qed.

Lemma back_edges_ok D g h preds headers : reachable g0 h -> (forall q, q ∈ preds -> reachable g0 q) -> heads_ok D g headers ->
  exists g' headers', back_edges g h preds headers = Ok (g', headers') /\ heads_ok (fun m k => D m k \/ (k = h /\ m ∈ preds /\ dominates (edge g0) (graph_entry_ g0) h m)) g' headers'.
Proof.
  intros Hh. revert D g headers. induction preds as [|q preds IH]; intros D g headers Hpreds Hs; cbn [back_edges].
  - exists g, headers. split; [done|]. eapply heads_ok_iff; [exact Hs|]. intros m k. split; [by left|]. by intros [?|(_ & []%not_elem_of_nil & _)].
  - assert (forall q, q ∈ preds -> reachable g0 q) as Hrest by (intros; apply Hpreds; by right). destruct (Dominates_loops g h q (hd_spine _ _ _ Hs) ltac:(apply Hpreds; by left)) as (r & -> & Hr).
    cbn [mbind result_bind]. destruct r.
    + destruct (FindLoop_ok q h g (hd_spine _ _ _ Hs) ltac:(apply Hpreds; by left) Hh) as (v & -> & Hv & Hbits). cbn [mbind result_bind].
      destruct (spine_block g h (hd_spine _ _ _ Hs) Hh) as (x & B & Hx & Hxh & HB & _). rewrite (block_at_ok _ _ _ HB). cbn [mbind result_bind].
      assert (exists w, (if bool_decide (h ∈ headers) then match loop_info_ B with None => Err BOutOfRange | Some old => r ← AddAll old v; g ← modify g h (set_loop_info (Some (snd r))); back_edges g h preds headers end else
          g ← modify g h (set_loop_info (Some v)); back_edges g h preds (headers ++ [h])) =
          back_edges (set_blocks (<[h := set_loop_info (Some w) B]> (blocks g)) g) h preds (if bool_decide (h ∈ headers) then headers else headers ++ [h]) /\ vec n w /\
        forall b x, reachable g0 b -> 0 <= x -> pre x = Some b -> bit w x = true <-> (exists m', D m' h /\ natural_loop g0 m' h b) \/ bit v x = true) as (w & Ew & Hw & Hwb).
      { case_bool_decide as Hin.
        - destruct (hd_loop _ _ _ Hs h B Hin HB) as (old & -> & Hold & Hob). destruct (AddAll_vec n old v Hold Hv) as (c & w & -> & Hw & Hwb). cbn [mbind result_bind snd]. rewrite (modify_ok _ _ _ _ HB). cbn [mbind result_bind].
          exists w. split; [done|]. split; [done|]. intros b y Hb Hy Hyb. by rewrite Hwb, orb_true_iff, (Hob b y).
        - exists v. rewrite (modify_ok _ _ _ _ HB). cbn [mbind result_bind]. split; [done|]. split; [done|]. intros b y Hb Hy Hyb. split; [by right|]. intros [(m' & Hm' & _)|?]; [|done].
          destruct Hin. apply (hd_in _ _ _ Hs). by exists m'. }
      destruct (IH _ _ _ Hrest (heads_ok_set D g headers h B q v w Hs HB Hw Hbits Hwb)) as (g' & hs' & E & Hok). exists g', hs'. split; [by rewrite Ew|]. eapply heads_ok_iff; [exact Hok|].
      intros m k. rewrite elem_of_cons. pose proof (proj1 Hr eq_refl). naive_solver.
    + destruct (IH D g headers Hrest Hs) as (g' & hs' & -> & Hok). exists g', hs'. split; [done|]. eapply heads_ok_iff; [exact Hok|]. intros m k. rewrite elem_of_cons.
      assert (~ dominates (edge g0) (graph_entry_ g0) h q) by (by intros ?%Hr). naive_solver.
Qed.

Lemma loops_of_ok D g blocks_ headers : (forall b, b ∈ blocks_ -> reachable g0 b) -> heads_ok D g headers ->
  exists g' headers', loops_of g blocks_ headers = Ok (g', headers') /\ heads_ok (fun m k => D m k \/ (k ∈ blocks_ /\ back_edge g0 m k)) g' headers'.
Proof.
  revert D g headers. induction blocks_ as [|b bs IH]; intros D g headers Hb Hs; cbn [loops_of].
  - exists g, headers. split; [done|]. eapply heads_ok_iff; [exact Hs|]. intros m k. split; [by left|]. by intros [?|[[]%not_elem_of_nil _]].
  - destruct (spine_block g b (hd_spine _ _ _ Hs) ltac:(apply Hb; by left)) as (x & B & Hx & Hxb & HB & _ & Hpreds). rewrite (block_at_ok _ _ _ HB). cbn [mbind result_bind].
    destruct (back_edges_ok D g b (Predecessors B) headers) as (g1' & hs1 & -> & Hs1); [apply Hb; by left|intros q; rewrite Hpreds; tauto|done|]. cbn [mbind result_bind fst snd].
    destruct (IH _ _ _ ltac:(intros; apply Hb; by right) Hs1) as (g' & hs' & -> & Hok). exists g', hs'. split; [done|]. eapply heads_ok_iff; [exact Hok|].
    intros m k. rewrite elem_of_cons. unfold back_edge. split; [intros [[?|(-> & Hm & ?)]|?]|intros [?|[[->|?] ?]]]; try rewrite Hpreds in *; try tauto.
Qed.

Lemma ComputeLoops_blocks : exists g3 headers, ComputeLoops g2 = Ok (g3, headers) /\ heads_ok (back_edge g0) g3 headers.
Proof.
  destruct (loops_of_ok (fun _ _ => False) g2 (postorder_ g2) []) as (g3 & hs & E & Hok).
  - intros b. rewrite (proj1 (proj2 (proj2 spine_start))), (dd_perm _ _ Hd). apply (dd_reach _ _ Hd).
  - constructor; [apply spine_start|constructor| | |].
    + intros h. split; [by intros []%not_elem_of_nil|]. by intros [? []].
    + by intros h B []%not_elem_of_nil.
    + intros b B B2 _ HB HB2. congruence.
  - exists g3, hs. split; [done|]. eapply heads_ok_iff; [exact Hok|]. intros m k. split; [by intros [[]|[_ ?]]|]. intros Hbe. right. split; [|done].
    rewrite (proj1 (proj2 (proj2 spine_start))), (dd_perm _ _ Hd). apply (dd_reach _ _ Hd). destruct Hbe as (Hm & He & _). by eapply reachable_step.
Qed.

End props.

(** C8: After [ComputeDominators], [ComputeLoops] returns without a failed assertion; the
    headers it lists, each once, are the blocks that dominate a reachable predecessor,
    and the loop of a header holds exactly the blocks of the natural loops of its back
    edges, all of which the header dominates. *)
Theorem ComputeLoops_exact {T : Target} g0 g1 g2 df : graph_wf g0 -> entry_free g0 -> DiscoverBlocks g0 = Ok g1 -> ComputeDominators g1 = Ok (g2, df) ->
  exists g3 headers, ComputeLoops g2 = Ok (g3, headers) /\ NoDup headers /\ (forall h, h ∈ headers <-> exists m, back_edge g0 m h) /\
    forall h H, h ∈ headers -> blocks g3 !! h = Some H -> exists v, loop_info_ H = Some v /\
      forall b B, reachable g0 b -> blocks g3 !! b = Some B -> exists r, Contains v (preorder_number_ B) = Ok r /\
        (r = true <-> exists m, back_edge g0 m h /\ natural_loop g0 m h b) /\ (r = true -> dominates (edge g0) (graph_entry_ g0) h b).
Proof.
  intros WF Hf E1 E2. destruct (passes_ok g0 g1 WF Hf E1) as (Hd & g & df' & E2' & Hg & _). rewrite E2 in E2'. injection E2' as <- <-.
  destruct (ComputeLoops_blocks g0 g1 g2 Hd Hg) as (g3 & headers & E3 & Hok). exists g3, headers. split_and!; [done|apply Hok|apply Hok|]. intros h H Hh HH.
  destruct (hd_loop _ _ _ _ _ _ Hok h H Hh HH) as (v & Ev & Hv & Hbits). exists v. split; [done|]. intros b B Hb HB.
  destruct (spine_block g0 g1 g2 Hd Hg g3 b (hd_spine _ _ _ _ _ _ Hok) Hb) as (x & B' & Hx & Hxb & HB' & NB & _). rewrite HB in HB'. injection HB' as <-.
  exists (BitSet.has (data_ v) x). rewrite NB, (Contains_vec _ v x Hv Hx). split; [done|]. rewrite (Hbits b x Hb ltac:(lia) Hxb). split; [done|].
  intros (m & (_ & _ & Hm) & Hnat). by eapply header_dominates.
Qed.

(** ** An example *)

#[local] Existing Instance T64.

Definition demo_loops : FlowGraph * list nat := unwrap (demo, []) (ComputeLoops (fst demo2)).

(** Block 2 is the header of the loop, and block 3 is in it. *)
Lemma ComputeLoops_exact_witness : dominates (edge demo) 0%nat 2%nat 3%nat /\ exists m, back_edge demo m 2%nat.
Proof.
  destruct (ComputeLoops_exact demo demo1 (fst demo2) (snd demo2)) as (g3 & headers & E & _ & Hin & Hloop); [apply demo_wf|apply demo_entry_free|vm_compute; reflexivity|vm_compute; reflexivity|].
  assert (g3 = fst demo_loops /\ headers = snd demo_loops) as [-> ->] by (unfold demo_loops; rewrite E; split; reflexivity).
  assert (2%nat ∈ snd demo_loops) as H2 by (apply (bool_decide_unpack _); vm_compute; exact I). split; [|by apply Hin].
  destruct (blocks (fst demo_loops) !! 2%nat) as [H|] eqn:HH; [|vm_compute in HH; discriminate]. destruct (Hloop 2%nat H H2 HH) as (v & Ev & Hb).
  destruct (blocks (fst demo_loops) !! 3%nat) as [B|] eqn:HB; [|vm_compute in HB; discriminate]. destruct (Hb 3%nat B demo_reach3 HB) as (r & Er & _ & Hr). apply Hr.
  vm_compute in HH. injection HH as <-. vm_compute in HB. injection HB as <-. simpl in Ev. injection Ev as <-. vm_compute in Er. injection Er as <-. reflexivity.
Defined.

End LoopProps.
