(* ===== verification/ChainedMap.v ===== *)
(** * vm/hash_map.h

    [DirectChainedHashMap]: the hash table of the compiler.  The first pair with a
    hash is in [array_], the others are in lists linked by index through [lists_],
    whose unused elements form a free list.  The keys and values are those of the
    class [KeyValueTrait], the template parameter; whether the zone can give the
    memory asked for is the class [Zone].  The theorem at the end: the map is a bag of
    pairs. *)

From stdpp Require Import base numbers list sets.
From Stdlib Require Import ZArith Lia.
From S2P Require Import Prelude HeapMemory.

Local Open Scope Z_scope.
Local Open Scope mach_scope.

Module ChainedMap.
Import HeapMemory.

Inductive map_error :=
| CAssertFailed
| CFatal        (* the zone has no memory left *)
| CUndefined    (* an access outside an array *)
| CNoReturn.    (* the rounds of a loop, or the depth of a recursion, ran out *)

Abbreviation M A := (result map_error A).
Definition check (b : bool) : M unit := if b then Ok () else Err CAssertFailed.

(** The template parameter; [Pair_new] is [Pair()]. *)
Class KeyValueTrait := {
  Key : Type; Value : Type; Pair : Type;
  Value_eq : EqDecision Value;
  Pair_new : Pair;
  KeyOf : Pair -> Key;
  ValueOf : Pair -> Value;
  Hashcode : Key -> Z;
  IsKeyEqual : Pair -> Key -> bool
}.
#[export] Existing Instance Value_eq.

(** What a hash code has to do with equality of keys. *)
Class TraitOk (KV : KeyValueTrait) := {
  hash_equal kv key : IsKeyEqual kv key = true -> Hashcode (KeyOf kv) = Hashcode key
}.

(** [Alloc<HashMapListElement>(len)] of the zone, which ends the process when it fails.
    The elements have at least two words, so that by [CheckLength] their number is
    below an eighth of the address space. *)
Class Zone {T : Target} := {
  can_alloc : Z -> bool;
  can_alloc_limit len : can_alloc len = true -> len < 2 ^ (kBitsPerWord - 3)
}.

Definition kNil : Z := -1.
Definition kInitialSize : Z := 16.

Section map.
Context {T : Target} {KV : KeyValueTrait} {ZN : Zone}.

Definition kNoValue : Value := ValueOf Pair_new.

Record HashMapListElement := mkElement { kv : Pair; next : Z }.
Definition HashMapListElement_new : HashMapListElement := mkElement Pair_new kNil.
Definition set_next (n : Z) (e : HashMapListElement) := mkElement (kv e) n.

(** [array_size_] and [lists_size_] are the lengths of the arrays; [NULL] is empty. *)
Record DirectChainedHashMap := mkMap {
  array_ : list HashMapListElement; lists_ : list HashMapListElement; count_ : Z; free_list_head_ : Z
}.

Definition size_of (l : list HashMapListElement) : Z := Z.of_nat (length l).
Definition array_size_ (m : DirectChainedHashMap) : Z := size_of (array_ m).
Definition lists_size_ (m : DirectChainedHashMap) : Z := size_of (lists_ m).

Definition at_ (l : list HashMapListElement) (i : Z) : M HashMapListElement :=
  if i <? 0 then Err CUndefined
  else match l !! Z.to_nat i with Some e => Ok e | None => Err CUndefined end.

Definition put (l : list HashMapListElement) (i : Z) (e : HashMapListElement) : M (list HashMapListElement) :=
  _ ← at_ l i; Ok (<[Z.to_nat i := e]> l).

(** [Alloc] and [InitArray]. *)
Definition Alloc_InitArray (size : Z) : M (list HashMapListElement) :=
  if can_alloc size then Ok (replicate (Z.to_nat size) HashMapListElement_new) else Err CFatal.

Definition Bound (m : DirectChainedHashMap) (value : Z) : Z := value .& uword (array_size_ m - 1).

Definition IsEmpty (m : DirectChainedHashMap) : bool := count_ m =? 0.

Definition is_free (e : HashMapListElement) : bool := bool_decide (ValueOf (kv e) = kNoValue).

(** [while (next != kNil)] *)
Fixpoint Lookup_loop (fuel : nat) (lists : list HashMapListElement) (n : Z) (key : Key) : M Value :=
  match fuel with
  | O => Err CNoReturn
  | S fuel =>
      if n =? kNil then Ok kNoValue
      else e ← at_ lists n; if IsKeyEqual (kv e) key then Ok (ValueOf (kv e)) else Lookup_loop fuel lists (next e) key
  end.

Definition Lookup (m : DirectChainedHashMap) (key : Key) : M Value :=
  e ← at_ (array_ m) (Bound m (uword (Hashcode key)));
  if negb (is_free e) then
    if IsKeyEqual (kv e) key then Ok (ValueOf (kv e)) else Lookup_loop (S (length (lists_ m))) (lists_ m) (next e) key
  else Ok kNoValue.

(** [for (intptr_t i = 1; i < lists_size_; ++i) lists_[i].next = i - 1;] *)
Fixpoint Clear_loop (todo : nat) (i : Z) (lists : list HashMapListElement) : M (list HashMapListElement) :=
  match todo with
  | O => Ok lists
  | S todo => e ← at_ lists i; lists ← put lists i (set_next (i - 1) e); Clear_loop todo (i + 1) lists
  end.

Definition Clear (m : DirectChainedHashMap) : M DirectChainedHashMap :=
  if negb (IsEmpty m) then
    let array := replicate (length (array_ m)) HashMapListElement_new in
    let lists := replicate (length (lists_ m)) HashMapListElement_new in
    e ← at_ lists 0;
    lists ← put lists 0 (set_next kNil e);
    lists ← Clear_loop (length (lists_ m) - 1) 1 lists;
    Ok (mkMap array lists 0 (lists_size_ m - 1))
  else Ok m.

(** [for (intptr_t i = old_size; i < lists_size_; ++i)] *)
Fixpoint link_free (todo : nat) (i : Z) (lists : list HashMapListElement) (free : Z) : M (list HashMapListElement * Z) :=
  match todo with
  | O => Ok (lists, free)
  | S todo => e ← at_ lists i; lists ← put lists i (set_next free e); link_free todo (i + 1) lists i
  end.

Definition ResizeLists (m : DirectChainedHashMap) (new_size : Z) : M DirectChainedHashMap :=
  check (lists_size_ m <? new_size);;
  new_lists ← Alloc_InitArray new_size;
  let lists := lists_ m ++ drop (length (lists_ m)) new_lists in
  r ← link_free (length lists - length (lists_ m)) (lists_size_ m) lists (free_list_head_ m);
  Ok (mkMap (array_ m) (fst r) (count_ m) (snd r)).

(** The part of [Insert] after the table has been resized. *)
Definition Insert_at (m : DirectChainedHashMap) (p : Pair) : M DirectChainedHashMap :=
  check (count_ m <? array_size_ m);;
  let count := count_ m + 1 in
  let pos := Bound m (uword (Hashcode (KeyOf p))) in
  e ← at_ (array_ m) pos;
  if is_free e then
    array ← put (array_ m) pos (mkElement p kNil);
    Ok (mkMap array (lists_ m) count (free_list_head_ m))
  else
    m ← (if free_list_head_ m =? kNil then ResizeLists m (intptr (lists_size_ m <<< 1)) else Ok m);
    let new_element_pos := free_list_head_ m in
    check (negb (new_element_pos =? kNil));;
    f ← at_ (lists_ m) (free_list_head_ m);
    lists ← put (lists_ m) new_element_pos (mkElement p (next e));
    check_next ← (if next e =? kNil then Ok true else n ← at_ lists (next e); Ok (negb (is_free n)));
    check check_next;;
    array ← put (array_ m) pos (set_next new_element_pos e);
    Ok (mkMap array lists count (next f)).

Definition Insert_with (resize : DirectChainedHashMap -> Z -> M DirectChainedHashMap) (m : DirectChainedHashMap) (p : Pair) : M DirectChainedHashMap :=
  check (negb (bool_decide (ValueOf p = kNoValue)));;
  m ← (if (array_size_ m >>> 1) <=? count_ m then resize m (intptr (array_size_ m <<< 1)) else Ok m);
  Insert_at m p.

(** [while (current != kNil)]: the list of one old slot. *)
Fixpoint rehash_list (insert : DirectChainedHashMap -> Pair -> M DirectChainedHashMap) (fuel : nat) (m : DirectChainedHashMap) (current : Z) : M DirectChainedHashMap :=
  match fuel with
  | O => Err CNoReturn
  | S fuel =>
      if current =? kNil then Ok m
      else
        e ← at_ (lists_ m) current;
        m ← insert m (kv e);
        e ← at_ (lists_ m) current;
        lists ← put (lists_ m) current (set_next (free_list_head_ m) e);
        rehash_list insert fuel (mkMap (array_ m) lists (count_ m) current) (next e)
  end.

(** [for (intptr_t i = 0; i < old_size; ++i)] *)
Fixpoint rehash (insert : DirectChainedHashMap -> Pair -> M DirectChainedHashMap) (old_array : list HashMapListElement) (m : DirectChainedHashMap) : M DirectChainedHashMap :=
  match old_array with
  | [] => Ok m
  | e :: old_array =>
      m ← (if negb (is_free e) then
             m ← rehash_list insert (S (length (lists_ m))) m (next e);
             insert m (kv e)
           else Ok m);
      rehash insert old_array m
  end.

(** [depth]: how often [Insert] may resize again in the course of a resizing. *)
Fixpoint Resize_upto (depth : nat) (m : DirectChainedHashMap) (new_size : Z) : M DirectChainedHashMap :=
  match depth with
  | O => Err CNoReturn
  | S depth =>
      check (count_ m <? new_size);;
      m ← (if free_list_head_ m =? kNil then ResizeLists m (intptr (lists_size_ m <<< 1)) else Ok m);
      new_array ← Alloc_InitArray new_size;
      let old_array := array_ m in
      let old_count := count_ m in
      m ← rehash (Insert_with (Resize_upto depth)) old_array (mkMap new_array (lists_ m) 0 (free_list_head_ m));
      check (count_ m =? old_count);;
      Ok m
  end.

Definition Resize : DirectChainedHashMap -> Z -> M DirectChainedHashMap := Resize_upto 1.
Definition Insert : DirectChainedHashMap -> Pair -> M DirectChainedHashMap := Insert_with Resize.

Definition DirectChainedHashMap_new : M DirectChainedHashMap :=
  m ← ResizeLists (mkMap [] [] 0 kNil) kInitialSize;
  Resize m kInitialSize.

(** The copy constructor. *)
Definition DirectChainedHashMap_copy (other : DirectChainedHashMap) : M DirectChainedHashMap :=
  _ ← Alloc_InitArray (array_size_ other);
  _ ← Alloc_InitArray (lists_size_ other);
  Ok other.

End map.


(** ** What the arrays hold *)

(** The call returns as [P] says, unless the zone is exhausted. *)
Definition returns {A} (r : M A) (P : A -> Prop) : Prop :=
  match r with Ok a => P a | Err CFatal => True | Err _ => False end.

Lemma returns_bind {A B} (r : M A) (k : A -> M B) (P : A -> Prop) (Q : B -> Prop) :
  returns r P -> (forall a, P a -> returns (k a) Q) -> returns (r ≫= k) Q.
Proof. destruct r as [a|[]]; simpl; auto. Qed.

Lemma returns_mono {A} (r : M A) (P Q : A -> Prop) : returns r P -> (forall a, P a -> Q a) -> returns r Q.
Proof. destruct r as [a|[]]; simpl; auto. Qed.

Section rep.
Context {T : Target} {KV : KeyValueTrait} {ZN : Zone}.
Abbreviation cell := (Z * Pair)%type.

Lemma at_ok l i e : 0 <= i -> l !! Z.to_nat i = Some e -> at_ l i = Ok e.
Proof. intros Hi He. unfold at_. rewrite (proj2 (Z.ltb_ge i 0) Hi). by rewrite He. Qed.

Lemma put_at l i e e' : 0 <= i -> l !! Z.to_nat i = Some e -> put l i e' = Ok (<[Z.to_nat i := e']> l).
Proof. intros Hi He. unfold put. by rewrite (at_ok _ _ _ Hi He). Qed.

(** The list that starts at [h]: its indices and their pairs. *)
Fixpoint chain (lists : list HashMapListElement) (h : Z) (l : list cell) : Prop :=
  match l with
  | [] => h = kNil
  | c :: l => h = fst c /\ 0 <= h /\ exists e, lists !! Z.to_nat h = Some e /\ kv e = snd c /\ chain lists (next e) l
  end.

(** Lists with the same elements at the indices of a chain have the same chain. *)
Definition agree (own : list Z) (l l' : list HashMapListElement) : Prop :=
  (length l <= length l')%nat /\ forall i, i ∈ own -> l' !! Z.to_nat i = l !! Z.to_nat i.

Lemma agree_refl own l : agree own l l.
Proof. done. Qed.

Lemma agree_trans own l1 l2 l3 : agree own l1 l2 -> agree own l2 l3 -> agree own l1 l3.
Proof. intros [H1 H2] [H3 H4]. split; [lia|]. intros i Hi. by rewrite H4, H2. Qed.

Lemma agree_sub own own' l l' : agree own l l' -> (forall i, i ∈ own' -> i ∈ own) -> agree own' l l'.
Proof. intros [H1 H2] Hs. split; [done|]. intros i Hi. by apply H2, Hs. Qed.

Lemma agree_put own l i e : 0 <= i -> (forall j, j ∈ own -> 0 <= j) -> i ∉ own -> agree own l (<[Z.to_nat i := e]> l).
Proof. intros Hi Hpos Hn. split; [by rewrite length_insert|]. intros j Hj. specialize (Hpos j Hj). apply list_lookup_insert_ne. intros E. apply Hn. by rewrite (Z2Nat.inj i j) by lia. Qed.

Lemma chain_agree own l l' h c : agree own l l' -> (forall i, i ∈ fst <$> c -> i ∈ own) -> chain l h c -> chain l' h c.
Proof.
  intros [_ Ha]. revert h. induction c as [|[i p] c IH]; intros h Hin; simpl; [done|]. intros (-> & Hi & e & He & Ep & Hc). split_and!; [done|done|]. exists e.
  rewrite Ha by (apply Hin; by left). split_and!; [done|done|]. apply IH; [|done]. intros j Hj. apply Hin. by right.
Qed.

Lemma chain_range l h c : chain l h c -> Forall (fun i => 0 <= i < size_of l) (fst <$> c).
Proof.
  revert h. induction c as [|[i p] c IH]; intros h; simpl; [constructor|]. intros (-> & Hi & e & He & _ & Hc). constructor; [|by eapply IH].
  apply lookup_lt_Some in He. unfold size_of. simpl in *. lia.
Qed.

Lemma chain_nil l h c : chain l h c -> h = kNil -> c = [].
Proof. destruct c as [|[i p] c]; [done|]. simpl. intros (_ & H & _) E. unfold kNil in E. lia. Qed.

Lemma chain_fits l h c : chain l h c -> NoDup (fst <$> c) -> (length c <= length l)%nat.
Proof.
  intros Hc Hnd. apply chain_range in Hc. assert (length (Z.of_nat <$> seq 0 (length l)) = length l) as <- by (by rewrite length_fmap, length_seq).
  rewrite <- (length_fmap fst c). apply submseteq_length, NoDup_submseteq; [done|]. intros i Hi. rewrite Forall_forall in Hc. specialize (Hc i Hi).
  apply list_elem_of_fmap. exists (Z.to_nat i). split; [lia|]. apply elem_of_seq. unfold size_of in Hc. lia.
Qed.

(** A slot of the table: empty, or a pair and a list, all with the hash of the slot. *)
Definition slot_of (size : Z) (p : Pair) : Z := uword (Hashcode (KeyOf p)) .& uword (size - 1).

Definition items (e : HashMapListElement) (c : list cell) : list Pair := if is_free e then [] else kv e :: (snd <$> c).

Definition slot_ok (lists : list HashMapListElement) (size : Z) (pos : Z) (e : HashMapListElement) (c : list cell) : Prop :=
  if is_free e then c = [] else chain lists (next e) c /\ Forall (fun p => ValueOf p <> kNoValue /\ slot_of size p = pos) (kv e :: (snd <$> c)).

Definition indices (cs : list (list cell)) : list Z := fst <$> concat cs.

Definition contents (array : list HashMapListElement) (cs : list (list cell)) : list Pair := concat (zip_with items array cs).

(** The map holds the pairs of [S]; the list elements [own] belong to others. *)
Record rep (own : list Z) (m : DirectChainedHashMap) (S : list Pair) (cs : list (list cell)) (f : list cell) : Prop := {
  rp_len : length cs = length (array_ m);
  rp_slots i e c : array_ m !! i = Some e -> cs !! i = Some c -> slot_ok (lists_ m) (array_size_ m) (Z.of_nat i) e c;
  rp_free : chain (lists_ m) (free_list_head_ m) f;
  rp_nodup : NoDup ((fst <$> f) ++ indices cs ++ own);
  rp_own i : i ∈ own -> 0 <= i < lists_size_ m;
  rp_items : S ≡ₚ contents (array_ m) cs;
  rp_count : count_ m = Z.of_nat (length S);
  rp_lists : 0 < lists_size_ m < 2 ^ (kBitsPerWord - 3)
}.

Definition holds (own : list Z) (m : DirectChainedHashMap) (S : list Pair) : Prop := exists cs f, rep own m S cs f.

(** The size of the table. *)
Definition pow2 (z : Z) : Prop := exists k, 0 < k /\ z = 2 ^ k /\ z < 2 ^ (kBitsPerWord - 3).



Lemma concat_insert_perm {A} (L : list (list A)) i b b' x : L !! i = Some b -> b' ≡ₚ x :: b -> concat (<[i := b']> L) ≡ₚ x :: concat L.
Proof.
  intros Hb Hp. rewrite <- (take_drop_middle L i b Hb) at 2. rewrite insert_take_drop by (by eapply lookup_lt_Some). rewrite !concat_app. simpl. rewrite Hp. simpl.
  by rewrite <- Permutation_middle.
Qed.

Lemma contents_insert array cs i e c e' c' p : array !! i = Some e -> cs !! i = Some c -> items e' c' ≡ₚ p :: items e c ->
  contents (<[i := e']> array) (<[i := c']> cs) ≡ₚ p :: contents array cs.
Proof.
  intros He Hc Hp. unfold contents. rewrite <- insert_zip_with. eapply concat_insert_perm; [|exact Hp]. by rewrite lookup_zip_with, He, Hc.
Qed.

Lemma indices_insert cs i c j p : cs !! i = Some c -> indices (<[i := (j, p) :: c]> cs) ≡ₚ j :: indices cs.
Proof. intros Hc. unfold indices. by rewrite (concat_insert_perm cs i c ((j, p) :: c) (j, p)). Qed.

Lemma indices_in cs i c j : cs !! i = Some c -> j ∈ fst <$> c -> j ∈ indices cs.
Proof.
  intros Hc. unfold indices. rewrite !list_elem_of_fmap. intros (x & -> & Hx). exists x. split; [done|]. apply list_elem_of_In, in_concat. exists c.
  split; apply list_elem_of_In; [by eapply list_elem_of_lookup_2|done].
Qed.

Lemma bound_range size h : pow2 size -> 0 <= uword h .& uword (size - 1) < size.
Proof.
  intros (k & Hk & -> & Hlt). pose proof (Z.pow_pos_nonneg 2 k ltac:(lia) ltac:(lia)) as Hpos. assert (32 <= kBitsPerWord) as HW by (destruct kBitsPerWord_ok; lia). assert (k < kBitsPerWord - 3) as Hkw by (apply (Z.pow_lt_mono_r_iff 2); lia).
  assert (uword (2 ^ k - 1) = Z.ones k) as ->.
  { unfold uword, wrapU. rewrite Z.mod_small; [rewrite Z.ones_equiv; lia|]. assert (2 ^ k < 2 ^ kBitsPerWord) by (apply Z.pow_lt_mono_r; lia). lia. }
  rewrite Z.land_ones by lia. apply Z.mod_pos_bound. lia.
Qed.

Lemma slot_range size p : pow2 size -> 0 <= slot_of size p < size.
Proof. apply bound_range. Qed.

(** ** The free list *)

Lemma link_free_ok todo i lists free f own : 0 <= i -> length lists = (Z.to_nat i + todo)%nat -> chain lists free f ->
  Forall (fun j => 0 <= j < i) ((fst <$> f) ++ own) ->
  exists lists' free' f', link_free todo i lists free = Ok (lists', free') /\ length lists' = length lists /\ agree own lists lists' /\
    chain lists' free' f' /\ fst <$> f' = reverse (seqZ i (Z.of_nat todo)) ++ (fst <$> f) /\ (todo <> 0%nat -> free' <> kNil).
Proof.
  revert i lists free f. induction todo as [|todo IH]; intros i lists free f Hi Hlen Hc Hr; simpl.
  - exists lists, free, f. split_and!; try done.
  - destruct (lookup_lt_is_Some_2 lists (Z.to_nat i)) as [e He]; [lia|]. rewrite (at_ok _ _ _ Hi He). cbn [mbind result_bind]. rewrite (put_at _ _ _ _ Hi He). cbn [mbind result_bind].
    set (l1 := <[Z.to_nat i := set_next free e]> lists). rewrite Forall_forall in Hr.
    assert (agree ((fst <$> f) ++ own) lists l1) as Ha by (apply agree_put; [done|intros j Hj; specialize (Hr j Hj); lia|intros Hin; specialize (Hr i Hin); lia]).
    destruct (IH (i + 1) l1 i ((i, kv e) :: f)) as (l' & fr & f' & -> & El & Ha' & Hc' & Ef & Hn); [lia|unfold l1; rewrite length_insert; lia| | |].
    + simpl. split_and!; [done|done|]. exists (set_next free e). unfold l1. rewrite list_lookup_insert_eq by (by eapply lookup_lt_Some). split_and!; [done|done|]. fold l1.
      eapply chain_agree; [exact Ha|intros j Hj; apply elem_of_app; by left|done].
    + simpl. constructor; [lia|]. apply Forall_forall. intros j Hj. specialize (Hr j Hj). lia.
    + exists l', fr, f'. split_and!; try done.
      * rewrite El. unfold l1. by rewrite length_insert.
      * eapply agree_trans; [eapply agree_sub; [exact Ha|intros j Hj; apply elem_of_app; by right]|done].
      * rewrite Ef. rewrite (seqZ_cons i) by lia. rewrite reverse_cons, <- app_assoc. simpl. replace (Z.pred (Z.of_nat (S todo))) with (Z.of_nat todo) by lia. by replace (Z.succ i) with (i + 1) by lia.
      * intros _. destruct todo; [|by apply Hn]. destruct f' as [|c f']; simpl in *; [done|]. destruct Hc' as (-> & Hpos & _). unfold kNil. lia.
Qed.


Lemma Alloc_ok size : returns (Alloc_InitArray size) (fun l => l = replicate (Z.to_nat size) HashMapListElement_new /\ size < 2 ^ (kBitsPerWord - 3)).
Proof. unfold Alloc_InitArray. destruct (can_alloc size) eqn:E; [|done]. simpl. split; [done|]. by apply can_alloc_limit. Qed.

Lemma agree_app own l l' : (forall j, j ∈ own -> 0 <= j < size_of l) -> agree own l (l ++ l').
Proof. intros Hr. split; [rewrite length_app; lia|]. intros j Hj. specialize (Hr j Hj). unfold size_of in Hr. apply lookup_app_l. lia. Qed.

Lemma ResizeLists_ok m new f used : lists_size_ m < new -> chain (lists_ m) (free_list_head_ m) f -> NoDup ((fst <$> f) ++ used) ->
  (forall j, j ∈ used -> 0 <= j < lists_size_ m) ->
  returns (ResizeLists m new) (fun m' => exists f', array_ m' = array_ m /\ count_ m' = count_ m /\ lists_size_ m' = new /\ new < 2 ^ (kBitsPerWord - 3) /\
    agree used (lists_ m) (lists_ m') /\ chain (lists_ m') (free_list_head_ m') f' /\ NoDup ((fst <$> f') ++ used) /\ free_list_head_ m' <> kNil).
Proof.
  intros Hnew Hc Hnd Hu. unfold ResizeLists. rewrite (proj2 (Z.ltb_lt _ _) Hnew). cbn [check mbind result_bind].
  apply (returns_bind _ _ _ _ (Alloc_ok new)). intros nl [-> Hlim]. cbn zeta. rewrite drop_replicate. unfold lists_size_, size_of in *.
  set (lists := lists_ m ++ replicate (Z.to_nat new - length (lists_ m)) HashMapListElement_new).
  assert (length lists = Z.to_nat new) as El by (unfold lists; rewrite length_app, length_replicate; lia).
  assert (Forall (fun j => 0 <= j < size_of (lists_ m)) ((fst <$> f) ++ used)) as Hr by (apply Forall_app; split; [by eapply chain_range|by apply Forall_forall]).
  assert (agree ((fst <$> f) ++ used) (lists_ m) lists) as Ha by (rewrite Forall_forall in Hr; by apply agree_app).
  destruct (link_free_ok (length lists - length (lists_ m)) (Z.of_nat (length (lists_ m))) lists (free_list_head_ m) f used) as (l' & fr & f' & -> & E1 & Ha' & Hc' & Ef & Hn); [lia|lia| |exact Hr|].
  { eapply chain_agree; [exact Ha|intros j Hj; apply elem_of_app; by left|done]. }
  simpl. exists f'. split_and!; [done|done|lia|done| |done| |apply Hn; lia].
  - eapply agree_trans; [|exact Ha']. eapply agree_sub; [exact Ha|]. intros j Hj. apply elem_of_app. by right.
  - rewrite Ef, <- app_assoc. apply NoDup_app. split_and!; [rewrite reverse_Permutation; apply NoDup_seqZ| |done]. intros j [Hj _]%elem_of_reverse%elem_of_seqZ Hin. rewrite Forall_forall in Hr. specialize (Hr j Hin). unfold size_of in Hr. lia.
Qed.

Lemma double_size z : 0 <= z < 2 ^ (kBitsPerWord - 3) -> intptr (z <<< 1) = 2 * z.
Proof.
  intros Hz. rewrite Z.shiftl_mul_pow2 by lia. assert (32 <= kBitsPerWord) as HW by (destruct kBitsPerWord_ok; lia). unfold intptr. rewrite wrapS_id; [lia|lia|]. unfold isS.
  replace (kBitsPerWord - 1) with ((kBitsPerWord - 3) + 2) by lia. rewrite Z.pow_add_r by lia. lia.
Qed.


Lemma slot_agree used lists lists' size pos e c : agree used lists lists' -> (forall j, j ∈ fst <$> c -> j ∈ used) -> slot_ok lists size pos e c -> slot_ok lists' size pos e c.
Proof. intros Ha Hin. unfold slot_ok. destruct (is_free e); [done|]. intros [Hc Hf]. split; [by eapply chain_agree|done]. Qed.

Lemma indices_range own m S cs f j : rep own m S cs f -> j ∈ indices cs -> 0 <= j < lists_size_ m.
Proof.
  intros Hm Hj. unfold indices in Hj. apply list_elem_of_fmap in Hj as (x & -> & Hx). apply list_elem_of_In, in_concat in Hx as (c & Hc%list_elem_of_In & Hx%list_elem_of_In).
  apply list_elem_of_lookup in Hc as [i Hi]. destruct (lookup_lt_is_Some_2 (array_ m) i) as [e He]; [rewrite <- (rp_len _ _ _ _ _ Hm); by eapply lookup_lt_Some|].
  pose proof (rp_slots _ _ _ _ _ Hm i e c He Hi) as Hs. unfold slot_ok in Hs. destruct (is_free e); [subst c; by apply not_elem_of_nil in Hx|].
  destruct Hs as [Hch _]. apply chain_range in Hch. rewrite Forall_forall in Hch. by apply Hch, list_elem_of_fmap_2.
Qed.

(** A free element is at hand. *)
Lemma ensure_free own m S cs f : rep own m S cs f ->
  returns (if free_list_head_ m =? kNil then ResizeLists m (intptr (lists_size_ m <<< 1)) else Ok m)
    (fun m' => (exists f', rep own m' S cs f') /\ free_list_head_ m' <> kNil /\ array_ m' = array_ m /\ count_ m' = count_ m /\ agree (indices cs ++ own) (lists_ m) (lists_ m')).
Proof.
  intros Hm. destruct (Z.eqb_spec (free_list_head_ m) kNil) as [Hnil|Hne]; [|simpl; split_and!; try done; by exists f].
  pose proof (rp_lists _ _ _ _ _ Hm) as Hl. rewrite double_size by lia. eapply returns_mono.
  - apply (ResizeLists_ok m _ f (indices cs ++ own)); [lia|apply Hm|apply Hm|]. intros j [Hj|Hj]%elem_of_app; [by eapply indices_range|by apply (rp_own _ _ _ _ _ Hm)].
  - intros m' (f' & Ea & Ec & El & Hlim & Hag & Hch & Hnd & Hn). split_and!; try done. exists f'. destruct Hm as [H1 H2 H3 H4 H5 H6 H7 H8]. constructor; rewrite ?Ea, ?Ec; try done.
    + intros i e c He Hc. unfold array_size_. rewrite Ea. eapply slot_agree; [exact Hag|intros j Hj; apply elem_of_app; left; by eapply indices_in|by apply H2].
    + intros i Hi. rewrite El. specialize (H5 i Hi). lia.
    + lia.
Qed.

Lemma insert_slots m own S cs f lists pos e' c' : rep own m S cs f -> agree (indices cs) (lists_ m) lists -> slot_ok lists (array_size_ m) (Z.of_nat pos) e' c' ->
  forall i e c, <[pos := e']> (array_ m) !! i = Some e -> <[pos := c']> cs !! i = Some c -> slot_ok lists (array_size_ m) (Z.of_nat i) e c.
Proof.
  intros Hm Ha Hs i e c. destruct (decide (i = pos)) as [->|Hne].
  - intros He Hc. pose proof (lookup_lt_Some _ _ _ He) as H1. pose proof (lookup_lt_Some _ _ _ Hc) as H2. rewrite length_insert in H1. rewrite length_insert in H2. rewrite list_lookup_insert_eq in He by done. rewrite list_lookup_insert_eq in Hc by done. by simplify_eq.
  - rewrite !list_lookup_insert_ne by done. intros He Hc. eapply slot_agree; [exact Ha|intros j; by eapply indices_in|by apply (rp_slots _ _ _ _ _ Hm)].
Qed.

Lemma value_free p n : ValueOf p <> kNoValue -> is_free (mkElement p n) = false.
Proof. intros Hp. unfold is_free. by rewrite bool_decide_eq_false_2. Qed.

(** A pair into an empty slot. *)
Lemma insert_empty own m S cs f p pos e : rep own m S cs f -> ValueOf p <> kNoValue -> slot_of (array_size_ m) p = Z.of_nat pos -> array_ m !! pos = Some e -> is_free e = true ->
  rep own (mkMap (<[pos := mkElement p kNil]> (array_ m)) (lists_ m) (count_ m + 1) (free_list_head_ m)) (p :: S) cs f.
Proof.
  intros Hm Hp Hpos He Hfree. destruct (lookup_lt_is_Some_2 cs pos) as [c Hc]; [rewrite (rp_len _ _ _ _ _ Hm); by eapply lookup_lt_Some|].
  pose proof (rp_slots _ _ _ _ _ Hm pos e c He Hc) as Hs. unfold slot_ok in Hs. rewrite Hfree in Hs. subst c. pose proof Hm as [H1 H2 H3 H4 H5 H6 H7 H8].
  constructor; simpl; try done; [by rewrite length_insert| | |lia].
  - unfold array_size_, size_of. simpl. rewrite length_insert. intros i e0 c0 He0 Hc0. rewrite <- (list_insert_id _ _ _ Hc) in Hc0.
    eapply (insert_slots m own S cs f); [exact Hm|apply agree_refl| |exact He0|exact Hc0]. unfold slot_ok. rewrite value_free by done. split; [done|]. by repeat constructor.
  - rewrite H6. rewrite <- (list_insert_id cs pos [] Hc) at 2. symmetry. apply (contents_insert _ _ _ e []); [done|done|]. unfold items. by rewrite value_free, Hfree.
Qed.

(** One into the list of an occupied slot. *)
Lemma insert_chained own m S cs f p pos e j q g : rep own m S cs ((j, q) :: f) -> ValueOf p <> kNoValue -> slot_of (array_size_ m) p = Z.of_nat pos -> array_ m !! pos = Some e -> is_free e = false ->
  0 <= j -> lists_ m !! Z.to_nat j = Some g -> chain (lists_ m) (next g) f -> let lists := <[Z.to_nat j := mkElement p (next e)]> (lists_ m) in
  holds own (mkMap (<[pos := set_next j e]> (array_ m)) lists (count_ m + 1) (next g)) (p :: S) /\ agree own (lists_ m) lists /\
  (next e = kNil \/ 0 <= next e /\ exists n, lists !! Z.to_nat (next e) = Some n /\ is_free n = false).
Proof.
  intros Hm Hp Hpos He Hocc Hj Hg Hf lists. destruct (lookup_lt_is_Some_2 cs pos) as [c Hc]; [rewrite (rp_len _ _ _ _ _ Hm); by eapply lookup_lt_Some|].
  pose proof (rp_slots _ _ _ _ _ Hm pos e c He Hc) as Hs. unfold slot_ok in Hs. rewrite Hocc in Hs. destruct Hs as [Hch Hall]. pose proof Hm as [H1 H2 H3 H4 H5 H6 H7 H8].
  rewrite fmap_cons in H4. simpl in H4. pose proof H4 as Hnd. apply NoDup_cons in Hnd as [Hjn _]. rewrite !elem_of_app in Hjn.
  assert (forall i, i ∈ (fst <$> f) ++ indices cs ++ own -> 0 <= i) as Hposi.
  { intros i [Hi|[Hi|Hi]%elem_of_app]%elem_of_app; [|  |specialize (H5 i Hi); lia].
    - apply chain_range in Hf. rewrite Forall_forall in Hf. specialize (Hf i Hi). lia.
    - pose proof (indices_range _ _ _ _ _ i Hm Hi). lia. }
  assert (agree ((fst <$> f) ++ indices cs ++ own) (lists_ m) lists) as Ha by (apply agree_put; [done|done|rewrite !elem_of_app; tauto]).
  assert (chain lists (next e) c) as Hch' by (eapply chain_agree; [exact Ha| |exact Hch]; intros i Hi; rewrite !elem_of_app; right; left; by eapply indices_in).
  split_and!.
  - exists (<[pos := (j, p) :: c]> cs), f. constructor; simpl; try done.
    + by rewrite !length_insert.
    + unfold array_size_, size_of. simpl. rewrite length_insert. eapply (insert_slots m own S cs); [exact Hm|eapply agree_sub; [exact Ha|]; intros i Hi; rewrite !elem_of_app; tauto|].
      unfold slot_ok. change (is_free (set_next j e)) with (is_free e). rewrite Hocc. inversion Hall as [|? ? Hkv Hrest]; subst. split; [|constructor; [done|]; by constructor].
      simpl. split_and!; [done|done|]. eexists. unfold lists. rewrite list_lookup_insert_eq by (by eapply lookup_lt_Some). split_and!; [done|done|done].
    + eapply chain_agree; [exact Ha| |done]. intros i Hi. rewrite !elem_of_app. tauto.
    + rewrite (indices_insert cs pos c j p Hc). simpl. by rewrite <- Permutation_middle.
    + unfold lists_size_, size_of. simpl. intros i Hi. unfold lists. rewrite length_insert. by apply H5.
    + rewrite H6. symmetry. apply (contents_insert _ _ _ e c); [done|done|]. unfold items. change (is_free (set_next j e)) with (is_free e). rewrite Hocc. simpl. apply Permutation_swap.
    + lia.
    + unfold lists_size_, size_of. simpl. unfold lists. by rewrite length_insert.
  - eapply agree_sub; [exact Ha|]. intros i Hi. rewrite !elem_of_app. tauto.
  - destruct c as [|[i r] c]; simpl in Hch'; [by left|right]. destruct Hch' as (-> & Hi & n & Hn & Er & _). split; [done|]. exists n. split; [done|].
    rewrite fmap_cons, !Forall_cons in Hall. destruct Hall as (_ & [Hv _] & _). unfold is_free. rewrite Er. by apply bool_decide_eq_false_2.
Qed.


(** ** Insert *)

Lemma Insert_at_ok own m S p : pow2 (array_size_ m) -> holds own m S -> ValueOf p <> kNoValue -> count_ m < array_size_ m ->
  returns (Insert_at m p) (fun m' => holds own m' (p :: S) /\ array_size_ m' = array_size_ m /\ agree own (lists_ m) (lists_ m')).
Proof.
  intros Hpow (cs & f & Hm) Hp Hcount. unfold Insert_at. rewrite (proj2 (Z.ltb_lt _ _) Hcount). cbn [check mbind result_bind].
  pose proof (slot_range _ p Hpow) as Hr. change (Bound m (uword (Hashcode (KeyOf p)))) with (slot_of (array_size_ m) p). set (pos := slot_of (array_size_ m) p) in *.
  destruct (lookup_lt_is_Some_2 (array_ m) (Z.to_nat pos)) as [e He]; [unfold array_size_, size_of in Hr; lia|]. rewrite (at_ok _ _ _ (proj1 Hr) He). cbn [mbind result_bind].
  assert (slot_of (array_size_ m) p = Z.of_nat (Z.to_nat pos)) as Epos by (fold pos; lia). destruct (is_free e) eqn:Hfree.
  - rewrite (put_at _ _ _ _ (proj1 Hr) He). cbn [mbind result_bind returns]. split_and!; [|unfold array_size_, size_of; simpl; by rewrite length_insert|done].
    exists cs, f. by eapply insert_empty.
  - eapply returns_bind; [exact (ensure_free own m S cs f Hm)|]. intros m1 ((f1 & Hm1) & Hne & Ea & Ec & Hag). rewrite (proj2 (Z.eqb_neq _ _) Hne). cbn [negb check mbind result_bind].
    pose proof (rp_free _ _ _ _ _ Hm1) as Hf1. destruct f1 as [|[j q] f1]; [done|]. simpl in Hf1. destruct Hf1 as (Ej & Hj & g & Hg & Eq & Hf1). rewrite Ej in *. simpl in *.
    rewrite (at_ok _ _ _ Hj Hg). cbn [mbind result_bind]. rewrite (put_at _ _ _ _ Hj Hg). cbn [mbind result_bind]. rewrite <- Ea in He. unfold array_size_ in Epos, Hpow. rewrite <- Ea in Epos, Hpow.
    destruct (insert_chained own m1 S cs f1 p (Z.to_nat pos) e j q g Hm1 Hp Epos He Hfree Hj Hg Hf1) as (Hh & Ha1 & Hnext).
    set (lists := <[Z.to_nat j := mkElement p (next e)]> (lists_ m1)) in *.
    assert ((if next e =? kNil then Ok true else n ← at_ lists (next e); Ok (negb (is_free n))) = Ok true) as ->.
    { destruct Hnext as [->|(Hn & n & Hln & Hfn)]; [done|]. destruct (next e =? kNil); [done|]. rewrite (at_ok _ _ _ Hn Hln). cbn [mbind result_bind]. by rewrite Hfn. }
    cbn [check mbind result_bind]. rewrite (put_at _ _ _ _ (proj1 Hr) He). cbn [mbind result_bind returns]. rewrite <- Ec. split_and!; [exact Hh| |].
    + unfold array_size_, size_of. simpl. by rewrite length_insert, Ea.
    + eapply agree_trans; [eapply agree_sub; [exact Hag|]; intros i Hi; apply elem_of_app; by right|done].
Qed.

Lemma half_of_pow2 size : pow2 size -> 2 * (size >>> 1) = size.
Proof.
  intros (k & Hk & -> & _). rewrite Z.shiftr_div_pow2 by lia. replace k with (k - 1 + 1) by lia. rewrite Z.pow_add_r by lia. change (2 ^ 1) with 2. rewrite Z.div_mul by lia. lia.
Qed.

Lemma holds_perm own own' m S S' : holds own m S -> own ≡ₚ own' -> S ≡ₚ S' -> holds own' m S'.
Proof.
  intros (cs & f & [H1 H2 H3 H4 H5 H6 H7 H8]) Ho HS. exists cs, f. constructor; try done.
  - by rewrite <- Ho.
  - intros i Hi. apply H5. by rewrite Ho.
  - by rewrite <- HS.
  - by rewrite <- HS.
Qed.

Lemma Insert_small resize m p : ValueOf p <> kNoValue -> count_ m < array_size_ m >>> 1 -> Insert_with resize m p = Insert_at m p.
Proof. intros Hp Hc. unfold Insert_with. rewrite bool_decide_eq_false_2 by done. cbn [negb check mbind result_bind]. by rewrite (proj2 (Z.leb_gt _ _)) by lia. Qed.

(** The pairs of the old lists move to the new table; their elements become free. *)
Lemma rehash_list_ok resize fuel size own rest m S c h : pow2 size -> array_size_ m = size -> holds (own ++ rest) m S -> fst <$> c = own -> chain (lists_ m) h c ->
  Forall (fun p => ValueOf p <> kNoValue) (snd <$> c) -> Z.of_nat (length S + length c) <= size >>> 1 -> (length c < fuel)%nat ->
  returns (rehash_list (Insert_with resize) fuel m h) (fun m' => holds rest m' ((snd <$> c) ++ S) /\ array_size_ m' = size /\ agree rest (lists_ m) (lists_ m')).
Proof.
  intros Hpow. revert own m S c h. induction fuel as [|fuel IH]; intros own m S c h Hsize Hm <- Hc Hall Hcount Hfuel; [lia|]. cbn [rehash_list].
  destruct c as [|[i p] c]; simpl in Hc; [subst h; rewrite Z.eqb_refl; by split_and!|]. destruct Hc as (-> & Hi & e & He & Ep & Hc). simpl in Ep. subst p.
  rewrite (proj2 (Z.eqb_neq i kNil)) by (unfold kNil; lia). rewrite (at_ok _ _ _ Hi He). cbn [mbind result_bind]. simpl in Hall. apply Forall_cons in Hall as [Hv Hall]. simpl in Hcount, Hfuel.
  assert (count_ m = Z.of_nat (length S)) as Ecount by (destruct Hm as (cs & f & Hm); apply Hm). pose proof (half_of_pow2 size Hpow) as Hhalf.
  rewrite (Insert_small resize m (kv e)) by (done || (rewrite Hsize; lia)).
  eapply returns_bind; [apply (Insert_at_ok (i :: (fst <$> c) ++ rest) m S (kv e)); [by rewrite Hsize|exact Hm|done|rewrite Hsize; lia]|]. intros m1 (Hm1 & Es & Ha).
  assert (lists_ m1 !! Z.to_nat i = Some e) as He1 by (destruct Ha as [_ Ha]; rewrite Ha by (by left); done).
  rewrite (at_ok _ _ _ Hi He1). cbn [mbind result_bind]. rewrite (put_at _ _ _ _ Hi He1). cbn [mbind result_bind].
  destruct Hm1 as (cs & f & Hm1). pose proof (rp_nodup _ _ _ _ _ Hm1) as Hnd.
  assert (forall j, j ∈ (fst <$> f) ++ indices cs ++ (fst <$> c) ++ rest -> 0 <= j /\ j <> i) as Hother.
  { rewrite <- !Permutation_middle in Hnd. apply NoDup_cons in Hnd as [Hnot _]. intros j Hj. split; [|intros ->; done].
    rewrite !elem_of_app in Hj. destruct Hj as [Hj|[Hj|Hj]].
    - pose proof (chain_range _ _ _ (rp_free _ _ _ _ _ Hm1)) as Hr. rewrite Forall_forall in Hr. specialize (Hr j Hj). lia.
    - pose proof (indices_range _ _ _ _ _ j Hm1 Hj). lia.
    - assert (j ∈ i :: (fst <$> c) ++ rest) as Hin by (right; by apply elem_of_app). pose proof (rp_own _ _ _ _ _ Hm1 j Hin). lia. }
  set (lists := <[Z.to_nat i := set_next (free_list_head_ m1) e]> (lists_ m1)).
  assert (agree ((fst <$> f) ++ indices cs ++ (fst <$> c) ++ rest) (lists_ m1) lists) as Ha1 by (apply agree_put; [done|intros j Hj; by apply Hother|intros Hin; by apply Hother in Hin as []]).
  eapply returns_mono; [apply (IH (fst <$> c) (mkMap (array_ m1) lists (count_ m1) i) (kv e :: S) c (next e))|]; try done; [change (array_size_ m1 = size); by rewrite Es| | |simpl; lia|lia|].
  - destruct Hm1 as [H1 H2 H3 H4 H5 H6 H7 H8]. exists cs, ((i, kv e) :: f). constructor; simpl; try done.
    + intros k e0 c0 He0 Hc0. eapply slot_agree; [exact Ha1|intros j Hj; rewrite !elem_of_app; right; left; by eapply indices_in|by apply (H2 k)].
    + split_and!; [done|done|]. eexists. unfold lists. rewrite list_lookup_insert_eq by (by eapply lookup_lt_Some). split_and!; [done|done|]. fold lists.
      eapply chain_agree; [exact Ha1|intros j Hj; rewrite !elem_of_app; tauto|done].
    + by rewrite <- !Permutation_middle in Hnd.
    + intros j Hj. unfold lists_size_, size_of. simpl. unfold lists. rewrite length_insert. apply H5. by right.
    + unfold lists_size_, size_of. simpl. unfold lists. by rewrite length_insert.
  - eapply chain_agree; [eapply agree_trans; [eapply agree_sub; [exact Ha|]|eapply agree_sub; [exact Ha1|]]| |exact Hc]; [|intros j Hj; rewrite !elem_of_app; right; right; left; exact Hj|done].
    intros j Hj. right. apply elem_of_app. by left.
  - intros m2 (Hm2 & Es2 & Ha2). split_and!; [|done|].
    + eapply holds_perm; [exact Hm2|done|]. by rewrite <- Permutation_middle.
    + eapply agree_trans; [eapply agree_sub; [exact Ha|]|eapply agree_trans; [eapply agree_sub; [exact Ha1|]|exact Ha2]]; intros j Hj; rewrite ?elem_of_cons, !elem_of_app; tauto.
Qed.


(** A slot of the old table. *)
Definition old_ok (lists : list HashMapListElement) (e : HashMapListElement) (c : list cell) : Prop :=
  if is_free e then c = [] else chain lists (next e) c /\ Forall (fun p => ValueOf p <> kNoValue) (kv e :: (snd <$> c)).

Lemma old_agree used lists lists' e c : agree used lists lists' -> (forall j, j ∈ fst <$> c -> j ∈ used) -> old_ok lists e c -> old_ok lists' e c.
Proof. intros Ha Hin. unfold old_ok. destruct (is_free e); [done|]. intros [Hc Hf]. split; [by eapply chain_agree|done]. Qed.

Lemma indices_cons c cs : indices (c :: cs) = (fst <$> c) ++ indices cs.
Proof. unfold indices. simpl. by rewrite fmap_app. Qed.

Lemma olds_agree lists lists' olds cs : agree (indices cs) lists lists' -> Forall2 (old_ok lists) olds cs -> Forall2 (old_ok lists') olds cs.
Proof.
  intros Ha HF. induction HF as [|e c olds cs Hc HF IH]; [constructor|]. rewrite indices_cons in Ha. constructor.
  - eapply old_agree; [exact Ha|intros j Hj; apply elem_of_app; by left|done].
  - apply IH. eapply agree_sub; [exact Ha|]. intros j Hj. apply elem_of_app. by right.
Qed.

Lemma rehash_moves resize size olds cs own m S : pow2 size -> array_size_ m = size -> holds (indices cs ++ own) m S -> Forall2 (old_ok (lists_ m)) olds cs ->
  Z.of_nat (length S + length (contents olds cs)) <= size >>> 1 ->
  returns (rehash (Insert_with resize) olds m) (fun m' => holds own m' (contents olds cs ++ S) /\ array_size_ m' = size /\ agree own (lists_ m) (lists_ m')).
Proof.
  intros Hpow Hsize Hm HF. revert cs m S Hsize Hm HF. induction olds as [|e olds IH]; intros cs m S Hsize Hm HF Hcount.
  { apply Forall2_nil_inv_l in HF as ->. simpl. by split_and!. }
  apply Forall2_cons_inv_l in HF as (c & cs' & Hc & HF & ->). cbn [rehash]. rewrite indices_cons, <- app_assoc in Hm. unfold contents in Hcount. simpl in Hcount. rewrite length_app in Hcount. fold (contents olds cs') in Hcount.
  change (contents (e :: olds) (c :: cs')) with (items e c ++ contents olds cs'). unfold old_ok in Hc. unfold items in Hcount |- *. destruct (is_free e) eqn:Hfree; cbn [negb].
  - subst c. cbn [mbind result_bind]. by apply IH.
  - destruct Hc as [Hch Hall]. apply Forall_cons in Hall as [Hv Hall]. simpl in Hcount. rewrite length_fmap in Hcount. pose proof (half_of_pow2 size Hpow) as Hhalf.
    assert (length c <= length (lists_ m))%nat as Hfuel.
    { eapply chain_fits; [exact Hch|]. destruct Hm as (cs & f & Hm). pose proof (rp_nodup _ _ _ _ _ Hm) as Hnd. do 2 apply NoDup_app in Hnd as (_ & _ & Hnd). by apply NoDup_app in Hnd as (? & _ & _). }
    eapply returns_bind; [eapply returns_bind; [apply (rehash_list_ok resize _ size (fst <$> c) (indices cs' ++ own) m S c (next e)); try done; lia|]|].
    + intros m1 (Hm1 & Es1 & Ha1). assert (count_ m1 = Z.of_nat (length ((snd <$> c) ++ S))) as Ecount by (destruct Hm1 as (cs & f & Hm1); apply Hm1). rewrite length_app, length_fmap in Ecount.
      rewrite (Insert_small resize m1 (kv e)) by (done || (rewrite Es1; lia)). eapply returns_mono; [apply (Insert_at_ok (indices cs' ++ own) m1 ((snd <$> c) ++ S) (kv e)); [by rewrite Es1|done|done|rewrite Es1; lia]|].
      intros m2 (Hm2 & Es2 & Ha2). exact (conj Hm2 (conj (eq_trans Es2 Es1) (agree_trans _ _ _ _ Ha1 Ha2))).
    + intros m2 (Hm2 & Es2 & Ha2). eapply returns_mono; [apply (IH cs' m2 _ Es2 Hm2)|].
      * eapply olds_agree; [|exact HF]. eapply agree_sub; [exact Ha2|]. intros j Hj. apply elem_of_app. by left.
      * simpl. rewrite length_app, length_fmap. lia.
      * intros m3 (Hm3 & Es3 & Ha3). split_and!; [|done|eapply agree_trans; [eapply agree_sub; [exact Ha2|]; intros j Hj; apply elem_of_app; by right|done]].
        eapply holds_perm; [exact Hm3|done|]. simpl. rewrite <- Permutation_middle, !app_assoc. by rewrite (Permutation_app_comm (contents olds cs')).
Qed.


(** ** The operations *)

Definition map_ok (m : DirectChainedHashMap) (S : list Pair) : Prop :=
  pow2 (array_size_ m) /\ holds [] m S /\ Z.of_nat (length S) <= array_size_ m >>> 1.

Lemma new_free : is_free HashMapListElement_new = true.
Proof. unfold is_free. by apply bool_decide_eq_true_2. Qed.

Lemma contents_new k : contents (replicate k HashMapListElement_new) (replicate k []) = [].
Proof. unfold contents. induction k as [|k IH]; [done|]. simpl. unfold items at 1. by rewrite new_free. Qed.

Lemma indices_new k : indices (replicate k []) = [].
Proof. unfold indices. induction k as [|k IH]; [done|]. simpl. exact IH. Qed.

(** A table without pairs. *)
Lemma rep_new own lists free f k : chain lists free f -> NoDup ((fst <$> f) ++ own) -> (forall i, i ∈ own -> 0 <= i < size_of lists) -> 0 < size_of lists < 2 ^ (kBitsPerWord - 3) ->
  rep own (mkMap (replicate k HashMapListElement_new) lists 0 free) [] (replicate k []) f.
Proof.
  intros Hc Hnd Ho Hl. constructor; simpl; try done.
  - by rewrite !length_replicate.
  - intros i e c [-> _]%lookup_replicate [-> _]%lookup_replicate. unfold slot_ok. by rewrite new_free.
  - by rewrite indices_new.
  - by rewrite contents_new.
Qed.

Lemma Resize_keeps depth m S k : 0 < k -> holds [] m S -> Z.of_nat (length S) <= 2 ^ k >>> 1 ->
  returns (Resize_upto (Datatypes.S depth) m (2 ^ k)) (fun m' => pow2 (array_size_ m') /\ array_size_ m' = 2 ^ k /\ holds [] m' S).
Proof.
  intros Hk (cs & f & Hm) Hcount. cbn [Resize_upto]. pose proof (rp_count _ _ _ _ _ Hm) as Ec. assert (0 < 2 ^ k) as Hpos by (apply Z.pow_pos_nonneg; lia).
  assert (2 ^ k >>> 1 < 2 ^ k) as Hhalf by (rewrite Z.shiftr_div_pow2 by lia; apply Z.div_lt; lia). rewrite (proj2 (Z.ltb_lt _ _)) by lia. cbn [check mbind result_bind].
  eapply returns_bind; [exact (ensure_free [] m S cs f Hm)|]. intros m1 ((f1 & Hm1) & _ & _ & Ec1 & _). apply (returns_bind _ _ _ _ (Alloc_ok (2 ^ k))). intros arr [-> Hlim]. cbn zeta.
  assert (pow2 (2 ^ k)) as Hpow by (by exists k). set (m0 := mkMap (replicate (Z.to_nat (2 ^ k)) HashMapListElement_new) (lists_ m1) 0 (free_list_head_ m1)).
  eapply returns_bind; [apply (rehash_moves (Resize_upto depth) (2 ^ k) (array_ m1) cs [] m0 [])|].
  - done.
  - unfold array_size_, size_of, m0. simpl. rewrite length_replicate. lia.
  - exists (replicate (Z.to_nat (2 ^ k)) []), f1. apply rep_new; [apply Hm1|apply Hm1| |apply Hm1]. intros i. rewrite app_nil_r. by eapply indices_range.
  - apply Forall2_same_length_lookup_2; [symmetry; apply Hm1|]. intros i e c He Hc. pose proof (rp_slots _ _ _ _ _ Hm1 i e c He Hc) as Hs. unfold slot_ok in Hs. unfold old_ok. destruct (is_free e); [done|].
    destruct Hs as [Hch Hall]. split; [done|]. eapply Forall_impl; [exact Hall|]. by intros p [? _].
  - simpl. rewrite <- (Permutation_length (rp_items _ _ _ _ _ Hm1)). lia.
  - intros m2 (Hm2 & Es2 & _). assert (holds [] m2 S) as Hm2' by (eapply holds_perm; [exact Hm2|done|rewrite app_nil_r; symmetry; apply Hm1]).
    assert (count_ m2 = Z.of_nat (length S)) as Ec2 by (destruct Hm2' as (cs2 & f2 & Hr); apply Hr). rewrite (proj2 (Z.eqb_eq _ _)) by congruence. cbn [check mbind result_bind returns]. rewrite Es2. by split_and!.
Qed.

Lemma Insert_ok m S p : map_ok m S -> ValueOf p <> kNoValue -> returns (Insert m p) (fun m' => map_ok m' (p :: S)).
Proof.
  intros (Hpow & Hm & Hcount) Hp. pose proof (half_of_pow2 _ Hpow) as Hhalf. assert (count_ m = Z.of_nat (length S)) as Ec by (destruct Hm as (cs & f & Hr); apply Hr).
  unfold Insert, Insert_with. rewrite bool_decide_eq_false_2 by done. cbn [negb check mbind result_bind].
  eapply (returns_bind _ _ (fun m' => pow2 (array_size_ m') /\ holds [] m' S /\ Z.of_nat (length S) < array_size_ m' >>> 1)).
  - destruct (Z.leb_spec (array_size_ m >>> 1) (count_ m)) as [Hfull|Hroom]; [|simpl; split_and!; (done || lia)]. pose proof Hpow as (k & Hk & Ek & Hlim).
    assert (2 ^ (k + 1) = 2 * 2 ^ k) as Edouble by (rewrite Z.pow_add_r by lia; change (2 ^ 1) with 2; lia). assert (0 < 2 ^ k) by (apply Z.pow_pos_nonneg; lia).
    rewrite double_size by lia. replace (2 * array_size_ m) with (2 ^ (k + 1)) by lia. eapply returns_mono; [apply (Resize_keeps 0 m S (k + 1)); [lia|done|]|].
    + rewrite Z.shiftr_div_pow2, Edouble, Z.mul_comm, Z.div_mul by lia. lia.
    + intros m' (Hpow' & Es' & Hm'). pose proof (half_of_pow2 _ Hpow') as Hhalf'. split_and!; (done || lia).
  - intros m' (Hpow' & Hm' & Hroom). pose proof (half_of_pow2 _ Hpow') as Hhalf'. assert (count_ m' = Z.of_nat (length S)) as Ec' by (destruct Hm' as (cs & f & Hr); apply Hr).
    eapply returns_mono; [apply (Insert_at_ok [] m' S p); (done || lia)|]. intros m2 (Hm2 & Es2 & _). unfold map_ok. rewrite Es2. split_and!; [done|done|]. simpl. lia.
Qed.

Lemma new_ok : returns DirectChainedHashMap_new (fun m => map_ok m []).
Proof.
  unfold DirectChainedHashMap_new. eapply returns_bind; [apply (ResizeLists_ok (mkMap [] [] 0 kNil) kInitialSize [] []); try done; [by constructor|by intros j []%not_elem_of_nil]|].
  intros m (f & Ea & Ec & El & Hlim & _ & Hc & Hnd & _). eapply returns_mono; [apply (Resize_keeps 0 m [] 4); [lia| |done]|].
  - destruct m as [a l c fr]. unfold lists_size_ in El. simpl in *. subst. exists [], f. apply (rep_new [] l fr f 0); [done|done|by intros i []%not_elem_of_nil|]. unfold kInitialSize in *. lia.
  - intros m' (Hpow & Es & Hm'). split_and!; [done|done|]. rewrite Es. done.
Qed.


Lemma Lookup_loop_ok fuel lists h c key : chain lists h c -> (length c < fuel)%nat -> exists v, Lookup_loop fuel lists h key = Ok v /\
  ((v = kNoValue /\ Forall (fun x => IsKeyEqual (snd x) key = false) c) \/ exists x, x ∈ c /\ IsKeyEqual (snd x) key = true /\ v = ValueOf (snd x)).
Proof.
  revert h c. induction fuel as [|fuel IH]; intros h c Hc Hf; [lia|]. cbn [Lookup_loop]. destruct c as [|[i p] c]; simpl in Hc.
  - subst h. exists kNoValue. split; [done|]. by left.
  - destruct Hc as (-> & Hi & e & He & Ep & Hc). simpl in Ep. subst p. rewrite (proj2 (Z.eqb_neq i kNil)) by (unfold kNil; lia). rewrite (at_ok _ _ _ Hi He). cbn [mbind result_bind].
    destruct (IsKeyEqual (kv e) key) eqn:Heq; [exists (ValueOf (kv e)); split; [done|]; right; exists (i, kv e); split_and!; [by left|done|done]|].
    simpl in Hf. destruct (IH (next e) c Hc ltac:(lia)) as (v & -> & Hv). exists v. split; [done|]. destruct Hv as [[-> Hall]|(x & Hx & ? & ?)]; [left; split; [done|by constructor]|right; exists x; split_and!; [by right|done|done]].
Qed.

(** What a lookup may answer when the pairs of [S] have been inserted. *)
Definition answers (S : list Pair) (key : Key) (v : Value) : Prop :=
  (v = kNoValue /\ Forall (fun p => IsKeyEqual p key = false) S) \/ exists p, p ∈ S /\ IsKeyEqual p key = true /\ v = ValueOf p.

(** The pairs with the hash of a key are in one slot. *)
Lemma slot_items own m S cs f p e c : TraitOk KV -> rep own m S cs f -> forall key, IsKeyEqual p key = true -> p ∈ S -> let pos := uword (Hashcode key) .& uword (array_size_ m - 1) in
  0 <= pos -> array_ m !! Z.to_nat pos = Some e -> cs !! Z.to_nat pos = Some c -> p ∈ items e c.
Proof.
  intros HT Hm key Hkey Hp pos Hpos He Hc. rewrite (rp_items _ _ _ _ _ Hm) in Hp. unfold contents in Hp. apply list_elem_of_In, in_concat in Hp as (b & Hb%list_elem_of_In & Hp%list_elem_of_In).
  apply list_elem_of_lookup in Hb as [i Hi]. apply lookup_zip_with_Some in Hi as (e' & c' & -> & He' & Hc'). pose proof (rp_slots _ _ _ _ _ Hm i e' c' He' Hc') as Hs.
  assert (i = Z.to_nat pos) as ->; [|by simplify_eq]. unfold items in Hp. unfold slot_ok in Hs. destruct (is_free e'); [by apply not_elem_of_nil in Hp|]. destruct Hs as [_ Hall]. rewrite Forall_forall in Hall.
  destruct (Hall p Hp) as [_ Hslot]. unfold slot_of in Hslot. rewrite (hash_equal p key Hkey) in Hslot. fold pos in Hslot. lia.
Qed.

Lemma Lookup_ok m S key : TraitOk KV -> map_ok m S -> exists v, Lookup m key = Ok v /\ answers S key v.
Proof.
  intros HT (Hpow & (cs & f & Hm) & _). unfold Lookup. pose proof (bound_range _ (Hashcode key) Hpow) as Hr. unfold Bound. set (pos := uword (Hashcode key) .& uword (array_size_ m - 1)) in *.
  destruct (lookup_lt_is_Some_2 (array_ m) (Z.to_nat pos)) as [e He]; [unfold array_size_, size_of in Hr; lia|]. destruct (lookup_lt_is_Some_2 cs (Z.to_nat pos)) as [c Hc]; [rewrite (rp_len _ _ _ _ _ Hm); by eapply lookup_lt_Some|].
  rewrite (at_ok _ _ _ (proj1 Hr) He). cbn [mbind result_bind].
  assert (forall p, p ∈ items e c -> p ∈ S) as Hin.
  { intros p Hp. rewrite (rp_items _ _ _ _ _ Hm). apply list_elem_of_In, in_concat. exists (items e c). split; apply list_elem_of_In; [|done]. apply (list_elem_of_lookup_2 _ (Z.to_nat pos)). by rewrite lookup_zip_with, He, Hc. }
  assert (forall p, p ∈ S -> IsKeyEqual p key = true -> p ∈ items e c) as Hall by (intros p Hp Hk; eapply (slot_items [] m S cs f p e c HT Hm key Hk Hp); [apply Hr|done|done]).
  assert (Forall (fun p => IsKeyEqual p key = false) (items e c) -> Forall (fun p => IsKeyEqual p key = false) S) as Hnone.
  { rewrite !Forall_forall. intros Hn p Hp. destruct (IsKeyEqual p key) eqn:Hk; [|done]. rewrite <- Hk. by apply Hn, Hall. }
  pose proof (rp_slots _ _ _ _ _ Hm (Z.to_nat pos) e c He Hc) as Hs. unfold slot_ok in Hs. unfold items in Hin, Hnone. destruct (is_free e); cbn [negb].
  - exists kNoValue. split; [done|]. left. split; [done|]. apply Hnone. constructor.
  - destruct Hs as [Hch _]. destruct (IsKeyEqual (kv e) key) eqn:Hk; [exists (ValueOf (kv e)); split; [done|]; right; exists (kv e); split_and!; [apply Hin; by left|done|done]|].
    destruct (Lookup_loop_ok (Datatypes.S (length (lists_ m))) (lists_ m) (next e) c key Hch) as (v & E & Hv).
    { assert (length c <= length (lists_ m))%nat; [|lia]. eapply chain_fits; [exact Hch|]. pose proof (rp_nodup _ _ _ _ _ Hm) as Hnd. apply NoDup_app in Hnd as (_ & _ & Hnd). apply NoDup_app in Hnd as (Hnd & _ & _).
      unfold indices in Hnd. rewrite <- (take_drop_middle cs _ c Hc), concat_app, fmap_app in Hnd. simpl in Hnd. rewrite fmap_app in Hnd. apply NoDup_app in Hnd as (_ & _ & Hnd). by apply NoDup_app in Hnd as (? & _ & _). }
    exists v. split; [done|]. destruct Hv as [[-> Hn]|(x & Hx & Hxk & ->)].
    + left. split; [done|]. apply Hnone. constructor; [done|]. by apply Forall_fmap.
    + right. exists (snd x). split_and!; [apply Hin; right; by apply list_elem_of_fmap_2|done|done].
Qed.

Lemma Clear_loop_ok todo i lists f : 1 <= i -> length lists = (Z.to_nat i + todo)%nat -> chain lists (i - 1) f -> fst <$> f = reverse (seqZ 0 i) ->
  exists lists' f', Clear_loop todo i lists = Ok lists' /\ length lists' = length lists /\ chain lists' (i + Z.of_nat todo - 1) f' /\ fst <$> f' = reverse (seqZ 0 (i + Z.of_nat todo)).
Proof.
  revert i lists f. induction todo as [|todo IH]; intros i lists f Hi Hlen Hc Hf; simpl.
  - exists lists, f. rewrite !Z.add_0_r. by split_and!.
  - destruct (lookup_lt_is_Some_2 lists (Z.to_nat i)) as [e He]; [lia|]. assert (0 <= i) as H0 by lia. rewrite (at_ok _ _ _ H0 He). cbn [mbind result_bind]. rewrite (put_at _ _ _ _ H0 He). cbn [mbind result_bind].
    destruct (IH (i + 1) (<[Z.to_nat i := set_next (i - 1) e]> lists) ((i, kv e) :: f)) as (l' & f' & -> & El & Hc' & Hf'); [lia|rewrite length_insert; lia| | |].
    + simpl. split_and!; [lia|lia|]. exists (set_next (i - 1) e). replace (i + 1 - 1) with i by lia. rewrite list_lookup_insert_eq by (by eapply lookup_lt_Some). split_and!; [done|done|]. simpl.
      eapply (chain_agree (fst <$> f)); [|done|exact Hc]. apply agree_put; [done| |]; rewrite Hf; [intros j Hj|intros Hj]; apply elem_of_reverse, elem_of_seqZ in Hj; lia.
    + rewrite fmap_cons, Hf. simpl. replace (seqZ 0 (i + 1)) with (seqZ 0 i ++ [i]); [by rewrite reverse_snoc|]. rewrite seqZ_app by lia. by rewrite Z.add_0_l.
    + exists l', f'. rewrite length_insert in El. replace (i + Z.of_nat (S todo)) with (i + 1 + Z.of_nat todo) by lia. by split_and!.
Qed.

Lemma Clear_empties m S : map_ok m S -> exists m', Clear m = Ok m' /\ map_ok m' [].
Proof.
  intros (Hpow & (cs & f & Hm) & Hcount). unfold Clear, IsEmpty. pose proof (rp_count _ _ _ _ _ Hm) as Ec. pose proof (rp_lists _ _ _ _ _ Hm) as Hl. unfold lists_size_, size_of in Hl. destruct (Z.eqb_spec (count_ m) 0) as [E0|Hne]; cbn [negb].
  - exists m. split; [done|]. destruct S; [|simpl in Ec; lia]. split_and!; [done|by exists cs, f|done].
  - assert (replicate (length (lists_ m)) HashMapListElement_new !! Z.to_nat 0 = Some HashMapListElement_new) as H0 by (apply lookup_replicate_2; lia).
    rewrite (at_ok _ _ _ (Z.le_refl 0) H0). cbn [mbind result_bind]. rewrite (put_at _ _ _ _ (Z.le_refl 0) H0). cbn [mbind result_bind].
    destruct (Clear_loop_ok (length (lists_ m) - 1) 1 (<[Z.to_nat 0 := set_next kNil HashMapListElement_new]> (replicate (length (lists_ m)) HashMapListElement_new)) [(0, Pair_new)]) as (l & f' & -> & El & Hc & Hf).
    + lia.
    + rewrite length_insert, length_replicate. lia.
    + simpl. split_and!; [done|done|]. eexists. rewrite list_lookup_insert_eq by (rewrite length_replicate; lia). by split_and!.
    + done.
    + cbn [mbind result_bind]. rewrite length_insert, length_replicate in El. eexists. split; [done|]. unfold map_ok, array_size_, size_of. simpl. rewrite length_replicate. split_and!; [done| |apply Z.shiftr_nonneg; lia].
      exists (replicate (length (array_ m)) []), f'. unfold lists_size_, size_of. apply rep_new; [|rewrite Hf, app_nil_r, reverse_Permutation; apply NoDup_seqZ|by intros i []%not_elem_of_nil|unfold size_of; lia].
      replace (Z.of_nat (length (lists_ m)) - 1) with (1 + Z.of_nat (length (lists_ m) - 1) - 1) by lia. done.
Qed.


(** ** Sequences of operations *)

Inductive Op := OInsert (p : Pair) | OLookup (key : Key) | OClear | OCopy.

Fixpoint run (ops : list Op) (m : DirectChainedHashMap) : M (list Value * DirectChainedHashMap) :=
  match ops with
  | [] => Ok ([], m)
  | OInsert p :: ops => m ← Insert m p; run ops m
  | OLookup key :: ops => v ← Lookup m key; r ← run ops m; Ok (v :: fst r, snd r)
  | OClear :: ops => m ← Clear m; run ops m
  | OCopy :: ops => m ← DirectChainedHashMap_copy m; run ops m
  end.

(** The bag of pairs that a map stands for. *)
Inductive bag_run : list Op -> list Pair -> list Value -> list Pair -> Prop :=
| bag_end S : bag_run [] S [] S
| bag_insert p ops S vs S' : bag_run ops (p :: S) vs S' -> bag_run (OInsert p :: ops) S vs S'
| bag_lookup key v ops S vs S' : answers S key v -> bag_run ops S vs S' -> bag_run (OLookup key :: ops) S (v :: vs) S'
| bag_clear ops S vs S' : bag_run ops [] vs S' -> bag_run (OClear :: ops) S vs S'
| bag_copy ops S vs S' : bag_run ops S vs S' -> bag_run (OCopy :: ops) S vs S'.

Definition op_ok (op : Op) : Prop := match op with OInsert p => ValueOf p <> kNoValue | _ => True end.

Lemma copy_ok m S : map_ok m S -> returns (DirectChainedHashMap_copy m) (fun m' => map_ok m' S).
Proof. intros Hm. unfold DirectChainedHashMap_copy. apply (returns_bind _ _ _ _ (Alloc_ok _)). intros _ _. apply (returns_bind _ _ _ _ (Alloc_ok _)). by intros _ _. Qed.

Lemma run_ok ops m S : TraitOk KV -> Forall op_ok ops -> map_ok m S -> returns (run ops m) (fun r => exists S', bag_run ops S (fst r) S' /\ map_ok (snd r) S').
Proof.
  intros HT Hops. revert m S. induction Hops as [|op ops Hop Hops IH]; intros m S Hm; simpl; [exists S; split; [constructor|done]|]. destruct op as [p|key| |].
  - eapply returns_bind; [by apply Insert_ok|]. intros m' Hm'. eapply returns_mono; [exact (IH _ _ Hm')|]. intros r (S' & ? & ?). exists S'. split; [by constructor|done].
  - destruct (Lookup_ok m S key HT Hm) as (v & -> & Hv). cbn [mbind result_bind]. eapply returns_bind; [exact (IH _ _ Hm)|]. intros r (S' & ? & ?). exists S'. split; [by constructor|done].
  - destruct (Clear_empties m S Hm) as (m' & -> & Hm'). cbn [mbind result_bind]. eapply returns_mono; [exact (IH _ _ Hm')|]. intros r (S' & ? & ?). exists S'. split; [by constructor|done].
  - eapply returns_bind; [by apply copy_ok|]. intros m' Hm'. eapply returns_mono; [exact (IH _ _ Hm')|]. intros r (S' & ? & ?). exists S'. split; [by constructor|done].
Qed.

(** C19: A new [DirectChainedHashMap] under any sequence of insertions, lookups, clears and
    copies refines a bag of pairs: a lookup returns the value of a pair with the key
    that was inserted since the last clear, and no value exactly when there is none;
    the tables grow, pairs collide and list elements are reused without a failed
    assertion or an access outside an array.  Only an exhausted zone stops it. *)
Theorem DirectChainedHashMap_refines ops : TraitOk KV -> Forall op_ok ops ->
  returns (m ← DirectChainedHashMap_new; run ops m) (fun r => exists S, bag_run ops [] (fst r) S /\ (IsEmpty (snd r) = true <-> S = [])).
Proof.
  intros HT Hops. eapply returns_bind; [exact new_ok|]. intros m Hm. eapply returns_mono; [exact (run_ok ops m [] HT Hops Hm)|]. intros [vs m'] (S & Hbag & _ & (cs & f & Hr) & _). exists S. split; [done|].
  unfold IsEmpty. simpl in *. rewrite (rp_count _ _ _ _ _ Hr), Z.eqb_eq. destruct S; simpl; split; (done || lia).
Qed.

End rep.


(** ** An example: numbers by their value, with four hash codes. *)

Definition demo_trait : KeyValueTrait :=
  {| Key := Z; Value := Z; Pair := Z; Pair_new := 0; KeyOf := fun p => p; ValueOf := fun p => p; Hashcode := fun k => k mod 4; IsKeyEqual := Z.eqb |}.

Lemma demo_trait_ok : TraitOk demo_trait.
Proof. constructor. intros p k ->%Z.eqb_eq. reflexivity. Qed.

Definition demo_target : Target := {| kBitsPerWord := 64; kBitsPerWord_ok := or_intror eq_refl |}.

Definition demo_zone : @Zone demo_target.
Proof. refine {| can_alloc := fun len => len <? 2 ^ 28 |}. abstract (intros len ?%Z.ltb_lt; simpl; lia). Defined.

Definition demo_ops : list (@Op demo_trait) := [@OInsert demo_trait 5; @OInsert demo_trait 9; @OLookup demo_trait 9; @OLookup demo_trait 13; OClear; @OLookup demo_trait 5].

Lemma DirectChainedHashMap_refines_witness :
  @returns _ (@mbind _ result_bind _ _ (@run demo_target demo_trait demo_zone demo_ops) (@DirectChainedHashMap_new demo_target demo_trait demo_zone)) (fun r => fst r = [9; 0; 0]) /\
  exists S, @bag_run demo_trait demo_ops [] [9; 0; 0] S.
Proof.
  pose proof (@DirectChainedHashMap_refines demo_target demo_trait demo_zone demo_ops demo_trait_ok) as H. specialize (H ltac:(repeat constructor; simpl; vm_compute; discriminate)).
  vm_compute in H. split; [vm_compute; reflexivity|]. destruct H as (S & H & _). exists S. exact H.
Defined.

End ChainedMap.
