(* ===== verification/Bitmap.v ===== *)
(** * vm/bitmap.h, vm/bitmap.cc

    [BitmapBuilder]: the bits of a stack map, with a length that grows as bits are set
    and a backing store of bytes that covers only a part of it.  The theorems: the
    builder is a list of bits, as long as no bit is set inside the length and outside
    the store. *)

From stdpp Require Import base numbers list.
From Stdlib Require Import ZArith Lia.
From S2P Require Import Prelude Utils HeapMemory.

Local Open Scope Z_scope.
Local Open Scope mach_scope.

Module Bitmap.
Import HeapMemory.

Inductive bitmap_error :=
| MAssertFailed
| MFatal         (* a negative offset, or no memory left in the zone *)
| MUndefined.    (* an access outside the store *)

Abbreviation M A := (result bitmap_error A).
Definition check (b : bool) : M unit := if b then Ok () else Err MAssertFailed.

(** [Alloc<uint8_t>(len)] of the zone: the bytes, whose contents are not specified. *)
Class ByteZone := {
  alloc_bytes : Z -> option (list Z);
  alloc_bytes_ok len l : alloc_bytes len = Some l -> length l = Z.to_nat len
}.

Definition kInitialSizeInBytes : Z := 16.
Definition kIncrementSizeInBytes : Z := 16.
Definition kBitsPerByteLog2 : Z := 3.
Definition kBitsPerByte : Z := 8.

Section bitmap.
Context {T : Target} {Z1 : ByteZone}.

(** [data_size_in_bytes_] is the length of [data_]. *)
Record BitmapBuilder := mkBitmap { length_ : Z; data_ : list Z }.

Definition data_size_in_bytes_ (b : BitmapBuilder) : Z := Z.of_nat (length (data_ b)).

Definition BitmapBuilder_new : M BitmapBuilder :=
  match alloc_bytes kInitialSizeInBytes with
  | None => Err MFatal
  | Some _ => Ok (mkBitmap 0 (replicate (Z.to_nat kInitialSizeInBytes) 0))
  end.

Definition Length (b : BitmapBuilder) : Z := length_ b.

Definition byte_at (data : list Z) (i : Z) : M Z :=
  if i <? 0 then Err MUndefined else match data !! Z.to_nat i with Some d => Ok d | None => Err MUndefined end.

Definition InRange (b : BitmapBuilder) (offset : Z) : M bool :=
  if offset <? 0 then Err MFatal else Ok (offset <? length_ b).

Definition SetLength (b : BitmapBuilder) (new_length : Z) : M BitmapBuilder :=
  data ← (if new_length <? length_ b then
            let byte_offset := new_length >>> kBitsPerByteLog2 in
            if byte_offset <? data_size_in_bytes_ b then
              let bit_index := new_length .& (kBitsPerByte - 1) in
              let mask := (1 <<< bit_index) - 1 in
              d ← byte_at (data_ b) byte_offset;
              let data := <[Z.to_nat byte_offset := u8 (d .& mask)]> (data_ b) in
              let byte_offset := byte_offset + 1 in
              if byte_offset <? data_size_in_bytes_ b then
                Ok (take (Z.to_nat byte_offset) data ++ replicate (Z.to_nat (data_size_in_bytes_ b - byte_offset)) 0)
              else Ok data
            else Ok (data_ b)
          else Ok (data_ b));
  Ok (mkBitmap new_length data).

Definition GetBit (b : BitmapBuilder) (bit_offset : Z) : M bool :=
  r ← InRange b bit_offset;
  if negb r then Ok false
  else
    let byte_offset := bit_offset >>> kBitsPerByteLog2 in
    check (byte_offset <? data_size_in_bytes_ b);;
    let bit_remainder := bit_offset .& (kBitsPerByte - 1) in
    let mask := u8 (1 <<< bit_remainder) in
    d ← byte_at (data_ b) byte_offset;
    Ok (negb (d .& mask =? 0)).

Definition Get (b : BitmapBuilder) (bit_offset : Z) : M bool :=
  r ← InRange b bit_offset;
  if negb r then Ok false
  else
    let byte_offset := bit_offset >>> kBitsPerByteLog2 in
    if byte_offset <? data_size_in_bytes_ b then GetBit b bit_offset else Ok false.

Definition SetBit (b : BitmapBuilder) (bit_offset : Z) (value : bool) : M BitmapBuilder :=
  r ← InRange b bit_offset;
  if negb r then Err MFatal
  else
    let byte_offset := bit_offset >>> kBitsPerByteLog2 in
    check (byte_offset <? data_size_in_bytes_ b);;
    let bit_remainder := bit_offset .& (kBitsPerByte - 1) in
    let mask := u8 (1 <<< bit_remainder) in
    d ← byte_at (data_ b) byte_offset;
    Ok (mkBitmap (length_ b) (<[Z.to_nat byte_offset := if value then d .| mask else u8 (d .& Z.lnot mask)]> (data_ b))).

(** The store after it has grown to cover [byte_offset]. *)
Definition grow (data : list Z) (byte_offset : Z) : M (list Z) :=
  if Z.of_nat (length data) <=? byte_offset then
    let old_size := Z.of_nat (length data) in
    let size := Utils.RoundUp intptr (intptr (byte_offset + 1)) kIncrementSizeInBytes in
    check (0 <? size);;
    match alloc_bytes size with
    | None => Err MFatal
    | Some _ => Ok (data ++ replicate (Z.to_nat (size - old_size)) 0)
    end
  else Ok data.

Definition Set_ (b : BitmapBuilder) (bit_offset : Z) (value : bool) : M BitmapBuilder :=
  r ← InRange b bit_offset;
  if negb r then
    let b := mkBitmap (intptr (bit_offset + 1)) (data_ b) in
    if negb value then Ok b
    else
      data ← grow (data_ b) (bit_offset >>> kBitsPerByteLog2);
      SetBit (mkBitmap (length_ b) data) bit_offset value
  else SetBit b bit_offset value.

(** [for (intptr_t i = min; i <= max; i++)]: [todo] of them. *)
Fixpoint SetRange_loop (todo : nat) (b : BitmapBuilder) (i : Z) (value : bool) : M BitmapBuilder :=
  match todo with
  | O => Ok b
  | S todo => b ← Set_ b i value; SetRange_loop todo b (i + 1) value
  end.

Definition SetRange (b : BitmapBuilder) (min max : Z) (value : bool) : M BitmapBuilder :=
  SetRange_loop (Z.to_nat (max - min + 1)) b min value.

(** ** Bits *)

Definition bit (data : list Z) (i : Z) : bool := Z.testbit (default 0 (data !! Z.to_nat (i / 8))) (i mod 8).

(** The builder stands for the list [bits]. *)
Record rep (b : BitmapBuilder) (bits : list bool) : Prop := {
  rp_length : length_ b = Z.of_nat (length bits);
  rp_bytes : Forall (isU 8) (data_ b);
  rp_bit i : 0 <= i -> bit (data_ b) i = default false (bits !! Z.to_nat i)
}.

Lemma shift_byte i : i >>> kBitsPerByteLog2 = i / 8.
Proof. unfold kBitsPerByteLog2. by rewrite Z.shiftr_div_pow2. Qed.

Lemma mask_byte i : i .& (kBitsPerByte - 1) = i mod 8.
Proof. unfold kBitsPerByte. change (8 - 1) with (Z.ones 3). by rewrite Z.land_ones. Qed.

Lemma mask_bit i : u8 (1 <<< (i mod 8)) = 2 ^ (i mod 8).
Proof.
  rewrite Z.shiftl_1_l. unfold wrapU. apply Z.mod_small. pose proof (Z.mod_pos_bound i 8 ltac:(lia)). split; [apply Z.pow_nonneg; lia|]. apply Z.pow_lt_mono_r; lia.
Qed.

Lemma byte_at_ok data i d : 0 <= i -> data !! Z.to_nat i = Some d -> byte_at data i = Ok d.
Proof. intros Hi Hd. unfold byte_at. rewrite (proj2 (Z.ltb_ge i 0) Hi). by rewrite Hd. Qed.

Lemma InRange_ok b i : 0 <= i -> InRange b i = Ok (i <? length_ b).
Proof. intros Hi. unfold InRange. by rewrite (proj2 (Z.ltb_ge i 0) Hi). Qed.

Lemma bit_insert data k d i : (k < length data)%nat -> 0 <= i -> bit (<[k := d]> data) i = if decide (Z.to_nat (i / 8) = k) then Z.testbit d (i mod 8) else bit data i.
Proof.
  intros Hk Hi. unfold bit. destruct (decide (Z.to_nat (i / 8) = k)) as [->|Hne]; [by rewrite list_lookup_insert_eq|by rewrite list_lookup_insert_ne by congruence].
Qed.

Lemma bit_append data n i : bit (data ++ replicate n 0) i = bit data i.
Proof.
  unfold bit. destruct (decide (Z.to_nat (i / 8) < length data)%nat) as [Hlt|Hge]; [by rewrite lookup_app_l|].
  rewrite lookup_app_r, (lookup_ge_None_2 data) by lia. destruct (replicate n 0 !! _) as [x|] eqn:E; [|done]. by apply lookup_replicate in E as [-> _].
Qed.

Lemma same_bit i j : 0 <= i -> 0 <= j -> Z.to_nat (i / 8) = Z.to_nat (j / 8) -> i mod 8 = j mod 8 -> i = j.
Proof. intros Hi Hj Hd Hm. pose proof (Z.div_pos i 8 Hi ltac:(lia)). pose proof (Z.div_pos j 8 Hj ltac:(lia)). rewrite (Z.div_mod i 8), (Z.div_mod j 8) by lia. lia. Qed.

Lemma byte_lor x y : isU 8 x -> isU 8 y -> isU 8 (x .| y).
Proof.
  intros Hx Hy. apply isU_iff_bits; [lia|apply Z.lor_nonneg; unfold isU in *; lia|]. intros k Hk. rewrite Z.lor_spec.
  rewrite (proj1 (isU_iff_bits 8 x ltac:(lia) ltac:(apply Hx)) Hx k Hk). by rewrite (proj1 (isU_iff_bits 8 y ltac:(lia) ltac:(apply Hy)) Hy k Hk).
Qed.

Lemma set_byte d r j value : isU 8 d -> 0 <= r < 8 -> 0 <= j < 8 ->
  let d' := if value : bool then d .| 2 ^ r else u8 (d .& Z.lnot (2 ^ r)) in isU 8 d' /\ Z.testbit d' j = if decide (j = r) then value else Z.testbit d j.
Proof.
  intros Hd Hr Hj. assert (Z.testbit (2 ^ r) j = bool_decide (j = r)) as Hp by (rewrite Z.pow2_bits_eqb by lia; case_bool_decide; lia). destruct value; cbn zeta.
  - split; [apply byte_lor; [done|]; split; [apply Z.pow_nonneg; lia|apply Z.pow_lt_mono_r; lia]|]. rewrite Z.lor_spec, Hp. case_bool_decide; destruct (decide (j = r)); try done; [apply orb_true_r|apply orb_false_r].
  - split; [apply wrapU_range; lia|]. unfold wrapU. rewrite Z.mod_pow2_bits_low, Z.land_spec, Z.lnot_spec, Hp by lia. case_bool_decide; destruct (decide (j = r)); try done; [apply andb_false_r|apply andb_true_r].
Qed.

(** ** The list of bits *)

Definition set_bit (bits : list bool) (i : nat) (value : bool) : list bool :=
  if decide (i < length bits)%nat then <[i := value]> bits else bits ++ replicate (i - length bits) false ++ [value].

Definition set_length (bits : list bool) (n : nat) : list bool := take n bits ++ replicate (n - length bits) false.

Lemma set_bit_lookup bits i value j : default false (set_bit bits i value !! j) = if decide (j = i) then value else default false (bits !! j).
Proof.
  unfold set_bit. destruct (decide (i < length bits)%nat) as [Hi|Hi].
  - destruct (decide (j = i)) as [->|Hne]; [by rewrite list_lookup_insert_eq|by rewrite list_lookup_insert_ne].
  - destruct (decide (j = i)) as [->|Hne].
    + rewrite !lookup_app_r by (rewrite ?length_replicate; lia). rewrite length_replicate. by replace (i - length bits - (i - length bits))%nat with 0%nat by lia.
    + destruct (decide (j < length bits)%nat) as [Hj|Hj]; [by rewrite lookup_app_l|]. rewrite lookup_app_r, (lookup_ge_None_2 bits) by lia. simpl.
      destruct (decide (j < i)%nat) as [Hji|Hji]; [rewrite lookup_app_l by (rewrite length_replicate; lia); by rewrite lookup_replicate_2 by lia|].
      rewrite lookup_ge_None_2; [done|]. rewrite length_app, length_replicate. simpl. lia.
Qed.

Lemma set_length_lookup bits n j : default false (set_length bits n !! j) = if decide (j < n)%nat then default false (bits !! j) else false.
Proof.
  unfold set_length. destruct (decide (j < length bits)%nat) as [Hj|Hj].
  - destruct (decide (j < n)%nat) as [Hn|Hn]; [rewrite lookup_app_l by (rewrite length_take; lia); by rewrite lookup_take_lt|].
    rewrite lookup_ge_None_2; [done|]. rewrite length_app, length_take, length_replicate. lia.
  - rewrite lookup_app_r by (rewrite length_take; lia). rewrite (lookup_ge_None_2 bits) by lia. simpl.
    destruct (replicate _ false !! _) as [x|] eqn:E; [apply lookup_replicate in E as [-> _]|]; by destruct (decide (j < n)%nat).
Qed.

Lemma div8 i : 0 <= i -> 0 <= i / 8 /\ 0 <= i mod 8 < 8.
Proof. intros Hi. split; [apply Z.div_pos; lia|apply Z.mod_pos_bound; lia]. Qed.

Lemma SetBit_ok b bits i value : rep b bits -> 0 <= i < length_ b -> i / 8 < data_size_in_bytes_ b ->
  exists b', SetBit b i value = Ok b' /\ rep b' (<[Z.to_nat i := value]> bits) /\ length (data_ b') = length (data_ b).
Proof.
  intros [H1 H2 H3] Hi Hs. unfold SetBit. rewrite InRange_ok by lia. cbn [mbind result_bind]. rewrite (proj2 (Z.ltb_lt _ _)) by lia. cbn [negb]. cbn zeta. rewrite shift_byte, mask_byte, mask_bit.
  rewrite (proj2 (Z.ltb_lt _ _) Hs). cbn [check mbind result_bind]. destruct (div8 i ltac:(lia)) as [Hq Hm]. unfold data_size_in_bytes_ in Hs.
  destruct (lookup_lt_is_Some_2 (data_ b) (Z.to_nat (i / 8))) as [d Hd]; [lia|]. rewrite (byte_at_ok _ _ _ Hq Hd). cbn [mbind result_bind]. eexists. split; [done|]. simpl. split; [|by rewrite length_insert].
  assert (isU 8 d) as Hu by (rewrite Forall_lookup in H2; by eapply H2). constructor; simpl.
  - by rewrite length_insert.
  - apply Forall_insert; [done|]. exact (proj1 (set_byte d (i mod 8) (i mod 8) value Hu Hm Hm)).
  - intros j Hj. rewrite bit_insert by lia. destruct (div8 j Hj) as [Hqj Hmj]. destruct (decide (Z.to_nat (j / 8) = Z.to_nat (i / 8))) as [Eq|Hne].
    + rewrite (proj2 (set_byte d (i mod 8) (j mod 8) value Hu Hm Hmj)). destruct (decide (j mod 8 = i mod 8)) as [Em|Hne].
      * rewrite (same_bit j i) by (done || lia). by rewrite list_lookup_insert_eq by lia.
      * rewrite list_lookup_insert_ne by (intros E; apply Hne; by rewrite (Z2Nat.inj i j) by lia). rewrite <- H3 by done. unfold bit. by rewrite Eq, Hd.
    + rewrite list_lookup_insert_ne by (intros E; apply Hne; by rewrite (Z2Nat.inj i j) by lia). by apply H3.
Qed.

Lemma Get_ok b bits i : rep b bits -> 0 <= i -> Get b i = Ok (default false (bits !! Z.to_nat i)).
Proof.
  intros [H1 H2 H3] Hi. unfold Get. rewrite InRange_ok by done. cbn [mbind result_bind]. destruct (Z.ltb_spec i (length_ b)) as [Hlt|Hge]; cbn [negb]; [|by rewrite lookup_ge_None_2 by lia].
  cbn zeta. rewrite shift_byte. destruct (div8 i Hi) as [Hq Hm]. destruct (Z.ltb_spec (i / 8) (data_size_in_bytes_ b)) as [Hs|Hs]; unfold data_size_in_bytes_ in Hs.
  - unfold GetBit. rewrite InRange_ok by done. cbn [mbind result_bind]. rewrite (proj2 (Z.ltb_lt _ _) Hlt). cbn [negb]. cbn zeta. rewrite shift_byte, mask_byte, mask_bit. unfold data_size_in_bytes_.
    rewrite (proj2 (Z.ltb_lt _ _) Hs). cbn [check mbind result_bind]. destruct (lookup_lt_is_Some_2 (data_ b) (Z.to_nat (i / 8))) as [d Hd]; [lia|]. rewrite (byte_at_ok _ _ _ Hq Hd). cbn [mbind result_bind].
    rewrite <- H3 by done. unfold bit. rewrite Hd. simpl. f_equal. destruct (Z.testbit d (i mod 8)) eqn:Hb.
    + apply negb_true_iff, Z.eqb_neq. intros E. apply (f_equal (fun z => Z.testbit z (i mod 8))) in E. rewrite Z.land_spec, Hb, Z.pow2_bits_true, Z.bits_0 in E by lia. done.
    + apply negb_false_iff, Z.eqb_eq, Z.bits_inj'. intros k Hk. rewrite Z.land_spec, Z.pow2_bits_eqb, Z.bits_0 by lia. destruct (Z.eqb_spec (i mod 8) k) as [<-|]; [by rewrite Hb|apply andb_false_r].
  - rewrite <- H3 by done. unfold bit. rewrite lookup_ge_None_2 by lia. simpl. by rewrite Z.bits_0.
Qed.

(** A bit that is set has to be beyond the length or inside the store. *)
Definition covered (b : BitmapBuilder) (i : Z) : Prop := length_ b <= i \/ i / 8 < data_size_in_bytes_ b.

Definition returns {A} (r : M A) (P : A -> Prop) : Prop := match r with Ok a => P a | Err MFatal => True | Err _ => False end.

Lemma grow_ok data k : 0 <= k < 2 ^ (kBitsPerWord - 4) -> returns (grow data k) (fun data' => exists n, data' = data ++ replicate n 0 /\ k < Z.of_nat (length data')).
Proof.
  intros Hk. unfold grow. destruct (Z.leb_spec (Z.of_nat (length data)) k) as [Hg|Hg]; [|exists 0%nat; rewrite app_nil_r; split; [done|lia]]. assert (32 <= kBitsPerWord) as HW by (destruct kBitsPerWord_ok; lia).
  assert (2 ^ (kBitsPerWord - 1) = 8 * 2 ^ (kBitsPerWord - 4)) as Hp by (replace (kBitsPerWord - 1) with (3 + (kBitsPerWord - 4)) by lia; rewrite Z.pow_add_r by lia; lia).
  assert (2 ^ 28 <= 2 ^ (kBitsPerWord - 4)) as Hp2 by (apply Z.pow_le_mono_r; lia).
  assert (forall y, 0 <= y <= k + 16 -> intptr y = y) as Hid by (intros y Hy; unfold intptr; apply wrapS_id; [lia|]; unfold isS; lia).
  rewrite (Hid (k + 1)) by lia. unfold kIncrementSizeInBytes. change 16 with (2 ^ 4). destruct (Utils.RoundUp_least intptr (k + 1) 4) as [Hr _]; [lia|apply Hid; lia|intros y Hy; apply Hid; lia|lia|].
  set (size := Utils.RoundUp intptr (k + 1) (2 ^ 4)) in *. rewrite (proj2 (Z.ltb_lt 0 size)) by lia. cbn [check mbind result_bind]. destruct (alloc_bytes size); [|done]. simpl. eexists. split; [done|].
  rewrite length_app, length_replicate. lia.
Qed.

Lemma Set_writes b bits i value : rep b bits -> 0 <= i < 2 ^ (kBitsPerWord - 4) -> covered b i -> returns (Set_ b i value) (fun b' => rep b' (set_bit bits (Z.to_nat i) value)).
Proof.
  intros Hb Hi Hc. pose proof Hb as [H1 H2 H3]. unfold Set_. rewrite InRange_ok by lia. cbn [mbind result_bind]. unfold set_bit. destruct (Z.ltb_spec i (length_ b)) as [Hlt|Hge]; cbn [negb].
  - destruct Hc as [Hc|Hc]; [lia|]. destruct (SetBit_ok b bits i value Hb ltac:(lia) Hc) as (b' & -> & Hb' & _). simpl. by rewrite decide_True by lia.
  - assert (32 <= kBitsPerWord) as HW by (destruct kBitsPerWord_ok; lia). assert (2 ^ (kBitsPerWord - 1) = 8 * 2 ^ (kBitsPerWord - 4)) as Hp by (replace (kBitsPerWord - 1) with (3 + (kBitsPerWord - 4)) by lia; rewrite Z.pow_add_r by lia; lia).
    assert (intptr (i + 1) = i + 1) as -> by (unfold intptr; apply wrapS_id; [lia|]; unfold isS; lia). rewrite decide_False by lia.
    assert (forall data, Forall (isU 8) data -> (forall j, bit data j = bit (data_ b) j) -> rep (mkBitmap (i + 1) data) (bits ++ replicate (Z.to_nat i - length bits) false ++ [false])) as Hext.
    { intros data Hu Hbits. constructor; simpl; [rewrite !length_app, length_replicate; simpl; lia|done|]. intros j Hj. rewrite Hbits, H3 by done. pose proof (set_bit_lookup bits (Z.to_nat i) false (Z.to_nat j)) as Hl.
      unfold set_bit in Hl. rewrite decide_False in Hl by lia. rewrite Hl. destruct (decide (Z.to_nat j = Z.to_nat i)) as [->|]; [by rewrite lookup_ge_None_2 by lia|done]. }
    destruct value; cbn [negb]; [|simpl; by apply Hext]. cbn zeta. simpl (data_ _). rewrite shift_byte. destruct (div8 i ltac:(lia)) as [Hq _]. assert (i / 8 <= i) by (apply Z.div_le_upper_bound; lia).
    pose proof (grow_ok (data_ b) (i / 8) ltac:(lia)) as Hg. destruct (grow (data_ b) (i / 8)) as [data|[]]; simpl in Hg |- *; try done. destruct Hg as (n & -> & Hs).
    assert (Forall (isU 8) (data_ b ++ replicate n 0)) as Hu by (apply Forall_app; split; [done|]; apply Forall_replicate; done).
    destruct (SetBit_ok (mkBitmap (i + 1) (data_ b ++ replicate n 0)) _ i true (Hext _ Hu (bit_append (data_ b) n))) as (b' & -> & Hb' & _); [simpl; lia|exact Hs|].
    simpl. rewrite insert_app_r_alt, insert_app_r_alt in Hb' by (rewrite ?length_replicate; lia). rewrite length_replicate in Hb'.
    by replace (Z.to_nat i - length bits - (Z.to_nat i - length bits))%nat with 0%nat in Hb' by lia.
Qed.


Lemma low_byte d r j : isU 8 d -> 0 <= r < 8 -> 0 <= j < 8 -> isU 8 (u8 (d .& ((1 <<< r) - 1))) /\ Z.testbit (u8 (d .& ((1 <<< r) - 1))) j = (j <? r) && Z.testbit d j.
Proof.
  intros Hd Hr Hj. split; [apply wrapU_range; lia|]. unfold wrapU. rewrite Z.mod_pow2_bits_low by lia. rewrite Z.shiftl_1_l, Z.sub_1_r, <- Z.ones_equiv, Z.land_spec, testbit_ones by lia. apply andb_comm.
Qed.

(** The store cut off in the middle of byte [k]. *)
Lemma bit_cut data k d i : (k < length data)%nat -> 0 <= i ->
  bit (take (S k) (<[k := d]> data) ++ replicate (length data - S k) 0) i = if decide (Z.to_nat (i / 8) < k)%nat then bit data i else if decide (Z.to_nat (i / 8) = k) then Z.testbit d (i mod 8) else false.
Proof.
  intros Hk Hi. rewrite bit_append. unfold bit. destruct (decide (Z.to_nat (i / 8) < k)%nat) as [Hlt|Hge].
  - by rewrite lookup_take_lt, list_lookup_insert_ne by lia.
  - destruct (decide (Z.to_nat (i / 8) = k)) as [->|Hne]; [by rewrite lookup_take_lt, list_lookup_insert_eq by lia|].
    rewrite lookup_ge_None_2 by (rewrite length_take, length_insert; lia). simpl. apply Z.bits_0.
Qed.

Lemma SetLength_cut b n : 0 <= n -> n / 8 < data_size_in_bytes_ b -> n < length_ b -> exists d, data_ b !! Z.to_nat (n / 8) = Some d /\
  SetLength b n = Ok (mkBitmap n (take (S (Z.to_nat (n / 8))) (<[Z.to_nat (n / 8) := u8 (d .& ((1 <<< (n mod 8)) - 1))]> (data_ b)) ++ replicate (length (data_ b) - S (Z.to_nat (n / 8))) 0)).
Proof.
  intros Hn Hs Hlt. unfold SetLength. rewrite (proj2 (Z.ltb_lt _ _) Hlt). cbn zeta. rewrite shift_byte, mask_byte, (proj2 (Z.ltb_lt _ _) Hs). destruct (div8 n Hn) as [Hq Hm]. unfold data_size_in_bytes_ in *.
  destruct (lookup_lt_is_Some_2 (data_ b) (Z.to_nat (n / 8))) as [d Hd]; [lia|]. exists d. split; [done|]. rewrite (byte_at_ok _ _ _ Hq Hd). cbn [mbind result_bind].
  replace (Z.to_nat (n / 8 + 1)) with (S (Z.to_nat (n / 8))) by lia. destruct (Z.ltb_spec (n / 8 + 1) (Z.of_nat (length (data_ b)))) as [Hr|Hr].
  - by replace (Z.to_nat (Z.of_nat (length (data_ b)) - (n / 8 + 1))) with (length (data_ b) - S (Z.to_nat (n / 8)))%nat by lia.
  - replace (length (data_ b) - S (Z.to_nat (n / 8)))%nat with 0%nat by lia. rewrite app_nil_r, take_ge by (rewrite length_insert; lia). done.
Qed.

Lemma SetLength_ok b bits n : rep b bits -> 0 <= n -> exists b', SetLength b n = Ok b' /\ rep b' (set_length bits (Z.to_nat n)).
Proof.
  intros Hb Hn. pose proof Hb as [H1 H2 H3]. assert (length (set_length bits (Z.to_nat n)) = Z.to_nat n) as El by (unfold set_length; rewrite length_app, length_take, length_replicate; lia). destruct (div8 n Hn) as [Hq Hm].
  assert (length_ b <= n \/ n < length_ b /\ data_size_in_bytes_ b <= n / 8 \/ n < length_ b /\ n / 8 < data_size_in_bytes_ b) as [Hc|[[Hc Hs]|[Hc Hs]]] by lia.
  - exists (mkBitmap n (data_ b)). unfold SetLength. rewrite (proj2 (Z.ltb_ge _ _) Hc). split; [done|]. constructor; simpl; [lia|done|]. intros i Hi. rewrite set_length_lookup, H3 by done.
    destruct (decide _); [done|]. by rewrite lookup_ge_None_2 by lia.
  - exists (mkBitmap n (data_ b)). unfold SetLength. rewrite (proj2 (Z.ltb_lt _ _) Hc). cbn zeta. rewrite shift_byte, (proj2 (Z.ltb_ge _ _) Hs). split; [done|]. constructor; simpl; [lia|done|]. intros i Hi. rewrite set_length_lookup.
    destruct (decide _) as [|Hge]; [by apply H3|]. unfold bit. pose proof (Z.div_le_mono n i 8 ltac:(lia) ltac:(lia)). unfold data_size_in_bytes_ in Hs. rewrite lookup_ge_None_2 by lia. simpl. apply Z.bits_0.
  - destruct (SetLength_cut b n Hn Hs Hc) as (d & Hd & ->). eexists. split; [done|]. pose proof (lookup_lt_Some _ _ _ Hd) as Hk. assert (isU 8 d) as Hu by (rewrite Forall_lookup in H2; by eapply H2). constructor; simpl; [lia| |].
    + apply Forall_app. split; [apply Forall_take, Forall_insert; [done|]; exact (proj1 (low_byte d (n mod 8) 0 Hu Hm ltac:(lia)))|]. apply Forall_replicate. done.
    + intros i Hi. rewrite bit_cut by done. rewrite set_length_lookup. destruct (div8 i Hi) as [Hqi Hmi]. pose proof (Z.div_mod i 8 ltac:(lia)) as Ei. pose proof (Z.div_mod n 8 ltac:(lia)) as En. rewrite <- H3 by done.
      destruct (decide (Z.to_nat (i / 8) < Z.to_nat (n / 8))%nat) as [Hlt|Hge]; [rewrite decide_True by lia; done|]. destruct (decide (Z.to_nat (i / 8) = Z.to_nat (n / 8))) as [Eq|Hne]; [|rewrite decide_False by lia; done].
      rewrite (proj2 (low_byte d (n mod 8) (i mod 8) Hu Hm Hmi)). unfold bit. rewrite Eq, Hd. simpl. destruct (Z.ltb_spec (i mod 8) (n mod 8)); [rewrite decide_True by lia; done|rewrite decide_False by lia; done].
Qed.

Lemma new_rep : returns BitmapBuilder_new (fun b => rep b []).
Proof.
  unfold BitmapBuilder_new. destruct (alloc_bytes _); [|done]. constructor; simpl; [done|by repeat constructor|]. intros i Hi. pose proof (bit_append [] 16 i) as E. simpl in E. rewrite E. unfold bit. simpl. apply Z.bits_0.
Qed.

(** [todo] bits from [i] on, one after the other. *)
Fixpoint set_bits (bits : list bool) (i todo : nat) (value : bool) : list bool :=
  match todo with O => bits | S todo => set_bits (set_bit bits i value) (S i) todo value end.

(** Once a bit is beyond the length, so are the ones after it. *)
Lemma SetRange_ok b bits min max value : rep b bits -> length_ b <= min -> 0 <= min -> max < 2 ^ (kBitsPerWord - 4) ->
  returns (SetRange b min max value) (fun b' => rep b' (set_bits bits (Z.to_nat min) (Z.to_nat (max - min + 1)) value)).
Proof.
  intros Hb Hl Hmin Hmax. unfold SetRange. remember (Z.to_nat (max - min + 1)) as todo eqn:Et. revert b bits min Hb Hl Hmin Et. induction todo as [|todo IH]; intros b bits min Hb Hl Hmin Et; simpl; [done|].
  pose proof (Set_writes b bits min value Hb ltac:(lia) ltac:(by left)) as H. destruct (Set_ b min value) as [b'|[]]; simpl in H |- *; try done.
  replace (S (Z.to_nat min)) with (Z.to_nat (min + 1)) by lia. apply IH; [done| |lia|lia]. rewrite (rp_length _ _ H). pose proof (rp_length _ _ Hb). unfold set_bit. rewrite decide_False by lia.
  rewrite !length_app, length_replicate. simpl. lia.
Qed.

(** C22: A [BitmapBuilder] refines a list of bits: it starts empty, [Get] reads a bit and
    false beyond the length, [Set] writes one and fills up with false when it is beyond
    the length, [SetLength] cuts off or fills up; only an exhausted zone stops them.
    But a bit inside the length whose byte is outside the store cannot be set: the
    assertion of [SetBit] fails. *)
Theorem BitmapBuilder_refines :
  returns BitmapBuilder_new (fun b => rep b []) /\
  forall b bits, rep b bits ->
    Length b = Z.of_nat (length bits) /\
    (forall i, 0 <= i -> Get b i = Ok (default false (bits !! Z.to_nat i))) /\
    (forall n, 0 <= n -> exists b', SetLength b n = Ok b' /\ rep b' (set_length bits (Z.to_nat n))) /\
    (forall i value, 0 <= i < 2 ^ (kBitsPerWord - 4) ->
      if decide (length_ b <= i \/ i / 8 < data_size_in_bytes_ b) then returns (Set_ b i value) (fun b' => rep b' (set_bit bits (Z.to_nat i) value))
      else Set_ b i value = Err MAssertFailed).
Proof.
  split; [exact new_rep|]. intros b bits Hb. split_and!; [apply Hb|intros i; by apply Get_ok|intros n; by apply SetLength_ok|].
  intros i value Hi. destruct (decide _) as [Hc|Hc]; [by apply Set_writes|]. unfold Set_, SetBit. rewrite !InRange_ok by lia. cbn [mbind result_bind]. rewrite (proj2 (Z.ltb_lt _ _)) by lia. cbn [negb mbind result_bind]. cbn zeta.
  rewrite shift_byte, (proj2 (Z.ltb_ge _ _)) by lia. done.
Qed.

End bitmap.


(** ** An example *)

Definition demo_word : Target := {| kBitsPerWord := 64; kBitsPerWord_ok := or_intror eq_refl |}.

Definition demo_bytes : ByteZone.
Proof. refine {| alloc_bytes := fun len => Some (replicate (Z.to_nat len) 7) |}. abstract (intros len l [= <-]; apply length_replicate). Defined.

(** Bit 200 makes the length 201 and leaves the store at 16 bytes; bit 150 can then be
    read but not set. *)
Definition demo_gap : M BitmapBuilder := b ← @BitmapBuilder_new demo_bytes; @Set_ demo_word demo_bytes b 200 false.

Lemma BitmapBuilder_refines_witness : exists b, demo_gap = Ok b /\ Get b 150 = Ok false /\ @Set_ demo_word demo_bytes b 150 true = Err MAssertFailed.
Proof.
  destruct (@BitmapBuilder_refines demo_word demo_bytes) as [Hnew Hops]. exists (mkBitmap 201 (replicate 16 0)). split; [vm_compute; reflexivity|].
  destruct (Hops (mkBitmap 0 (replicate 16 0)) [] Hnew) as (_ & _ & _ & Hset). pose proof (Hset 200 false ltac:(vm_compute; split; congruence)) as H200. rewrite decide_True in H200 by (left; vm_compute; congruence).
  vm_compute in H200. destruct (Hops _ _ H200) as (_ & Hget & _ & Hset2). split; [apply (Hget 150); lia|].
  pose proof (Hset2 150 true ltac:(vm_compute; split; congruence)) as H150. rewrite decide_False in H150; [exact H150|]. vm_compute. intros [H|H]; [by apply H|discriminate H].
Defined.

End Bitmap.
